(* ===== verification/_CoqProject ===== *)
-Q . S2P
Prelude.v
JsValues.v
Texts.v
Errors.v
Revisions.v
Programs.v
Jobs.v
JobSchedule.v
JobStore.v
JobRepository.v
JobLifecycle.v
JobAttempts.v
JobClaims.v
JobDefinitions.v
JobPages.v
JobScheduler.v
JobSchedulerSafety.v
JobSchedulerSystem.v
JobSchedulerResults.v
JobRunner.v
JobRunnerSafety.v
JobRunnerAdmission.v
Addresses.v
AddressText.v
AddressRanges.v
NetworkPolicy.v
NetworkPolicySafety.v
OutboundFlow.v
PosixPath.v
Host.v
SandboxAdmission.v
SandboxAdmissionSafety.v
Protocol.v
ClientState.v
ClientStateSafety.v
Tasks.v
TaskRules.v
SocketClient.v
SocketClientOperations.v
SocketClientInvariant.v
SocketClientTriples.v
SocketClientSafety.v
WorkspaceStore.v
Workspaces.v
WorkspaceRepository.v
WorkspaceOperations.v
WorkspaceMutations.v
WorkspaceInvariant.v
WorkspacePolicySafety.v
WorkspaceSafety.v
WorkspaceReadBack.v
Registry.v
RegistryTasks.v
RegistryOperations.v
RegistryInvariant.v
RegistryTriples.v
RegistryRegistration.v
RegistrySystem.v
RegistrySafety.v
Commands.v
SocketServer.v
SocketServerInvariant.v
SocketServerBodies.v
SocketServerSystem.v
SocketServerSafety.v
Shutdown.v
JobService.v
Resolver.v
Connections.v
EgressAudit.v
Socks5.v
Socks5Handshake.v
Socks5Safety.v
EgressConfig.v
HttpProxy.v
HttpProxySafety.v
SandboxConfig.v
SandboxLaunch.v
SandboxHost.v
JobHookPath.v
