(* ===== verification/Prelude.v ===== *)
(** * ChatWCA: a verification library

    ChatWCA is a single-user chat server around a third-party coding agent: a
    Node process keeps live conversations, scheduled jobs and the network policy
    of sandboxed tools, and a browser shows them over one WebSocket. This library
    models the program's own logic in Rocq, definition by definition, and proves
    what makes it correct. Every definition that translates code says in its
    comment which lines of which file under [src/] it translates.

    ** Parts, and the files that model them

    Shared vocabulary
    - [Prelude], [JsValues], [Texts]: JavaScript numbers, values,
      ordered maps, object spread, arrays and strings as the program uses them;
      the error monad [result] of its throwing functions.
    - [Programs]: asynchronous functions as trees of external calls, with the
      logic [wp]/[spec] of their runs against any environment.
    - [Tasks], [TaskRules]: async functions that interleave at their awaits over
      shared state, with a rely-guarantee logic ([triple], [neutral]).
    - [Errors], [Revisions], [Jobs], [Protocol]: the contracts of
      [src/shared/]: error codes and responses, revision decisions, job data,
      conversations and events, commands and server messages.

    Jobs ([src/server/job-*.ts])
    - [JobSchedule]: schedules and their next occurrences.
    - [JobStore]: the two job tables, their constraints and the statements the
      repository prepares; [JobRepository]: its operations over them, with
      transactions that roll back.
    - [JobScheduler]: wakes, timers, catching up and manual runs, over the
      repository and a dispatcher as ports; [JobRunner], [JobRunnerAdmission]: one
      attempt's execution against stop requests, and the table of all attempts.
    A wake claims due occurrences in the repository and hands each claim to the
    runner; the runner moves the attempt along its lifecycle through the
    repository's compare-and-set mutations.
    - [JobService]: the facade the commands call ([job-service.ts]), which
      delegates to repository, scheduler and runner and publishes changes.
    - [JobHookPath]: the admission of trusted hook scripts
      ([job-hook-path.ts]), over the calls of [Host].

    Network ([src/server/network/])
    - [Addresses]: address literals; [NetworkPolicy]: the egress decisions.
    - [Resolver]: one name is resolved once, the whole answer is checked and one
      numeric address is pinned and dialed ([resolver.ts]).
    - [Connections]: the limit of connections, the owner of streams, the relay
      between two of them and the budget of HTTP streams ([connections.ts]).
    - [EgressAudit]: the decisions given to the diagnostic sink and the browser's
      notifications ([audit.ts]).
    - [Socks5]: the SOCKS proxy ([socks5-proxy.ts]): its handshake parser as a
      function of the bytes of a client, and the proxy as a state machine over
      the events of clients, connector, streams and timers.
    - [HttpProxy]: the HTTP proxy ([http-proxy.ts]): how requests, authorities and
      headers are read, what is forwarded, and its handlers up to and after the
      connector, over a state that other requests change in between.
    - [EgressConfig]: the global ceiling and the policy sets, loaded from the
      environment ([network/config.ts]).
    A proxy asks the policy, takes a lease, lets the resolver connect, audits the
    decision and hands both streams to a relay.

    Conversations ([src/server/conversation-registry.ts])
    - [Registry], [RegistryTasks], [RegistryOperations]: live conversations, their
      indexes, capacity, forks, closings and shutdown as interleaved tasks.

    Workspaces ([src/server/workspace-repository.ts], [src/server/sandbox/admission.ts])
    - [PosixPath]: Node's path functions and the containment of canonical paths;
      [Host]: the file system calls, clocks and identifiers as external calls.
    - [SandboxAdmission]: the socket walk that admits a directory to the sandbox.
    - [SandboxConfig]: the sandbox's roots, mounts and search path
      ([sandbox/config.ts]); [SandboxHost]: the checks of the launcher and the
      tools, and [SandboxLaunch]: the arguments of a launch and the frame for the
      helper ([sandbox/bwrap.ts], [sandbox/fds.ts]). The configuration is an input
      of both; the launcher itself and the worker are not modelled.
    - [WorkspaceStore]: the workspace tables beside those of jobs; [Workspaces]:
      their data; [WorkspaceRepository], [WorkspaceOperations],
      [WorkspaceMutations]: configuration, the policy decision, and create,
      update, delete, list and resolution for use. The registry builds the
      runtime of a conversation with the policy a resolution returns.

    Transport and browser
    - [OutboundFlow]: the bounded queue of a socket ([outbound-flow.ts]).
    - [Commands]: the dispatch of one validated command to the services
      ([command-handler.ts]), which are an interface with laws
      ([keeps_promises]); [JobService] discharges those of jobs.
    - [SocketServer]: the WebSocket side ([src/server/protocol.ts]): connections,
      the chain of messages of each, broadcasts, the refresh loops and shutdown,
      as tasks. A refresh loop's next turn is a task of its own; an error given
      to the send callback of the last message is not modelled.
    - [ClientState]: the browser's reducer ([web/src/api/state.ts]);
      [SocketClient], [SocketClientOperations]: its socket client
      ([web/src/api/client.ts]), whose messages become the reducer's actions.

    Process
    - [Shutdown]: the coordinator ([runtime-coordinator.ts]) and the deadline of
      a graceful shutdown ([shutdown.ts]), with the owners as [index.ts] gives
      them. The owners' synchronous functions do not throw; a promise that
      rejects after the deadline is not reported.

    ** What the theorems show

    - Jobs: [JobLifecycle], [JobAttempts], [JobClaims], [JobDefinitions] and
      [JobPages] prove that any history of repository calls keeps one active
      attempt per job and the columns consistent, that an occurrence is claimed
      once (but for a daily schedule whose zone's clock goes back over midnight,
      an exception the theorem states), that revisions lock, that a failed operation changes nothing and that
      pages visit every attempt once. [JobSchedulerSafety], [JobSchedulerSystem]
      and [JobSchedulerResults] prove that one wake timer is pending at most, that
      a wake claims exactly the due jobs and that a closed scheduler is silent.
      [JobRunnerSafety] and [JobRunnerAdmission] prove that resources are settled
      once, that success means all work was done, and that nothing is written
      after persistence was sealed. [JobHookPath] proves that an admitted hook is
      the same confined file at every look, however the file system changes.
    - Network: [AddressText] and [AddressRanges] prove round trips of address
      texts and that classification is membership in the special-use blocks;
      [NetworkPolicySafety] proves that decisions fail closed. [Resolver] proves
      that only the least public address of a whole public answer is dialed;
      [Connections] that a relay is a bounded pipe; [EgressAudit] that no denial
      is lost or told twice; [Socks5Handshake] that a handshake is read however
      its bytes are cut; and [Socks5Safety], over all of these, that whatever
      happens the proxy's streams reach permitted public destinations only and
      that every lease is held by exactly one owner. [HttpProxySafety] proves that
      an authority has one text, that what is forwarded of a request is
      unambiguous, and that every request is refused or reaches a permitted
      destination; [EgressConfig] that no policy set exceeds the ceiling and that
      loading fails only for the configuration's fault.
    - Workspaces: [SandboxAdmissionSafety] proves that admission ends within its
      bounds with every directory closed, and that on a file system that does not
      change, whatever its answers and the clock, it goes through exactly when the
      workspace is admissible and the limits were kept;
      [SandboxConfig] that mounts and search path stay apart from what the guest
      can write; [SandboxLaunch] that the launcher's arguments are read as the
      plan, that everything the guest is given lies apart, and that the probe
      expects the root that is made; [SandboxHost] that a launch needs a safe
      launcher and recent tools;
      [WorkspaceInvariant] proves the invariant of the tables;
      [WorkspacePolicySafety] what a runtime may be given, what a created
      workspace is confined to and which changes need an acknowledgement;
      [WorkspaceSafety] that any history of workspace and job operations leaves
      the database consistent and that operations are atomic;
      [WorkspaceReadBack] that each operation does exactly what it says: what was
      created or updated is what was shown and reads back, and a deletion is
      refused exactly while a job refers to the workspace.
    - Registry: [RegistryInvariant] to [RegistrySystem] prove the invariant of all
      interleavings; [RegistrySafety] states the limit of live conversations,
      unique identities, final disposal and that evicting terminates.
    - Transport and browser: [OutboundFlow]; [ClientStateSafety] (what is on
      screen is a replay of the server's events); [SocketClientInvariant] to
      [SocketClientSafety] (the connection is up or due, requests settle with
      their own answer, and the composition: what is shown is what was sent);
      [Commands] (every command is guarded and gets its own kind of
      response); [SocketServerInvariant] to [SocketServerSafety] (the invariant of
      all interleavings, responses in the order of their frames, and no refresh
      forgotten).
    - Process: [Shutdown] proves that owners are stopped and disposed of in
      their order and that the deadline bounds the whole; [JobService] that
      the facade keeps the promises the commands rely on and publishes changes.

    ** Choices

    - A thrown error is a value of a sum type; an async function that is started
      without being awaited is a ready task, whose first stretch may be delayed
      (more interleavings than the event loop has). Observers and listeners are
      called without calling back.
    - Fuel: [make_room] evicts at most [eviction_fuel] times, the limit of live
      conversations plus one, and [registry_eviction_terminates] proves that it is
      never used up; the pump of [OutboundFlow] has the length of its queue plus
      one; [best_run] of [Addresses] has the eight words of an address; the loops of
      [SandboxAdmission] have turns for one entry beyond their bound, which
      [admission_is_bounded] proves to be enough.
    - Numbers are integers within the safe range where the code checks it; other
      JavaScript numbers are kept apart ([jsnum]). Clocks are not negative.
      Characters are 8-bit units, and lengths count them.
    - Bubblewrap is external: [SandboxLaunch] reads its arguments by the option
      syntax of its manual (each option with the values it takes, then the
      command), which is a specification and no model of its code. Parents of a
      mount are collected with the length of its path as fuel
      ([mount_parents_end]).
    - Parameters of the model, with their documented behaviour as named laws:
      [Temporal]/[Intl] (time zones), the URL parser of Node, JSON and base64 of
      stored columns and cursors, file system and path functions of the registry
      ([Platform]), the agent's runtimes, and the wire codec.
    - Sockets and timers are part of the state where a component owns them: a
      timer fires only while it is live, a socket's listeners hold the generation
      they were created in. A promise raced against a deadline answers that it
      settled or that its timer fired.

    ** Not modelled

    Configuration and process composition, HTTP and static files, the adapters of
    the agent SDK, the worker processes of the sandbox and their startup probe,
    the helper process of managed egress, search in PostgreSQL, image decoding,
    and the React views: they are input and output around the modelled decisions.
    DNS, sockets, the UTF-8 decoder and Node's HTTP parser and client are external
    to the modelled proxies, and so are the streaming of HTTP bodies and the
    timers of a request's setup. *)

(** This file: JavaScript values as the program uses them, the error
    monad of its throwing functions, and the list, string and integer lemmas
    the components share. *)

From Stdlib Require Export ZArith Ascii String Lia.
From stdpp Require Export base tactics option list gmap fin_maps strings sorting pretty.

#[global] Open Scope Z_scope.

(** ** Results: a throwing function is a value of [result E A] *)

Inductive result (E A : Type) : Type :=
| Ok (a : A)
| Err (e : E).
Arguments Ok {E A} _.
Arguments Err {E A} _.

#[export] Instance result_ret {E} : MRet (result E) := λ A a, Ok a.
#[export] Instance result_bind {E} : MBind (result E) :=
  λ A B f m, match m with Ok a => f a | Err e => Err e end.
#[export] Instance result_fmap {E} : FMap (result E) :=
  λ A B f m, match m with Ok a => Ok (f a) | Err e => Err e end.

Definition is_ok {E A} (m : result E A) : bool :=
  match m with Ok _ => true | Err _ => false end.

(** [if (cond) throw e;] *)
Definition throw_if {E} (cond : bool) (e : E) : result E unit :=
  if cond then Err e else Ok tt.

Lemma throw_if_Ok {E} (c : bool) (e : E) u : throw_if c e = Ok u ↔ c = false.
Proof. destruct u, c; simpl; split; congruence. Qed.

Lemma bind_Ok {E A B} (m : result E A) (f : A → result E B) b :
  (m ≫= f) = Ok b ↔ ∃ a, m = Ok a ∧ f a = Ok b.
Proof. destruct m; simpl; unfold mbind; simpl; naive_solver. Qed.

Lemma bind_Err {E A B} (m : result E A) (f : A → result E B) e :
  (m ≫= f) = Err e ↔ m = Err e ∨ ∃ a, m = Ok a ∧ f a = Err e.
Proof. destruct m; simpl; unfold mbind; simpl; naive_solver. Qed.

(** Splits a hypothesis [H : c1 ≫= k = Ok b] into its successful steps. *)
Ltac inv_bind H :=
  lazymatch type of H with
  | (mbind _ _) = Ok _ =>
      let a := fresh "a" in let Ha := fresh "Ha" in
      apply bind_Ok in H as (a & Ha & H); inv_bind H; try inv_bind Ha
  | throw_if _ _ = Ok _ => apply throw_if_Ok in H
  | _ => idtac
  end.

(** ** Lists *)

Lemma existsb_false {A} (f : A → bool) l : existsb f l = false ↔ ∀ x, x ∈ l → f x = false.
Proof.
  rewrite <-not_true_iff_false, existsb_exists. setoid_rewrite <-list_elem_of_In.
  setoid_rewrite <-not_true_iff_false. naive_solver.
Qed.

(** ** Numbers *)

Definition MAX_SAFE_INTEGER : Z := 9007199254740991.

(** A JavaScript number: an integral value, or any other one (a fraction,
    NaN or an infinity), which every integer test rejects. *)
Inductive jsnum :=
| JInt (z : Z)
| JOther.
#[export] Instance jsnum_eq_dec : EqDecision jsnum.
Proof. solve_decision. Defined.

(** [Number.isSafeInteger] *)
Definition isSafeInteger (z : Z) : bool := Z.abs z <=? MAX_SAFE_INTEGER.
#[global] Arguments isSafeInteger : simpl never.
Definition isSafeIntegerNum (n : jsnum) : bool :=
  match n with JInt z => isSafeInteger z | JOther => false end.

Lemma isSafeInteger_true z :
  isSafeInteger z = true ↔ - MAX_SAFE_INTEGER ≤ z ≤ MAX_SAFE_INTEGER.
Proof. unfold isSafeInteger. rewrite Z.leb_le. lia. Qed.

(** ** Reflection of boolean tests, for [lia] goals *)
Ltac breflect :=
  repeat match goal with
  | H : (_ && _) = true |- _ => apply andb_true_iff in H as [? ?]
  | H : (_ || _) = false |- _ => apply orb_false_iff in H as [? ?]
  | H : negb _ = true |- _ => apply negb_true_iff in H
  | H : negb _ = false |- _ => apply negb_false_iff in H
  | H : (_ <=? _) = true |- _ => apply Z.leb_le in H
  | H : (_ <=? _) = false |- _ => apply Z.leb_gt in H
  | H : (_ <? _) = true |- _ => apply Z.ltb_lt in H
  | H : (_ <? _) = false |- _ => apply Z.ltb_ge in H
  | H : (_ =? _) = true |- _ => apply Z.eqb_eq in H
  | H : (_ =? _) = false |- _ => apply Z.eqb_neq in H
  | H : bool_decide _ = true |- _ => apply bool_decide_eq_true in H
  | H : bool_decide _ = false |- _ => apply bool_decide_eq_false in H
  | H : isSafeInteger _ = true |- _ => apply isSafeInteger_true in H
  end.

(** ** Strings

    A JavaScript string is a sequence of code units; the model restricts them
    to the 8-bit units 0 to 255, one [ascii] each, so that [length] counts code
    units as the language does. *)

Definition unit_code (a : ascii) : Z := Z.of_N (N_of_ascii a).
Definition strlen (s : string) : Z := Z.of_nat (String.length s).

(** The white space and line terminators of [trim] and of the class [\s],
    among the units 0 to 255. *)
Definition is_space (a : ascii) : bool :=
  let c := unit_code a in ((9 <=? c) && (c <=? 13)) || (c =? 32) || (c =? 160).

Fixpoint trim_start (s : string) : string :=
  match s with
  | EmptyString => EmptyString
  | String a r => if is_space a then trim_start r else s
  end.

Fixpoint trim_end (s : string) : string :=
  match s with
  | EmptyString => EmptyString
  | String a r =>
      match trim_end r with
      | EmptyString => if is_space a then EmptyString else String a EmptyString
      | r' => String a r'
      end
  end.

(** [s.trim()] *)
Definition trim (s : string) : string := trim_end (trim_start s).

(** [/\S/.test(s)] *)
Fixpoint has_non_space (s : string) : bool :=
  match s with
  | EmptyString => false
  | String a r => negb (is_space a) || has_non_space r
  end.

Fixpoint str_all (p : ascii → bool) (s : string) : bool :=
  match s with EmptyString => true | String a r => p a && str_all p r end.

Definition is_digit (a : ascii) : bool :=
  (48 <=? unit_code a) && (unit_code a <=? 57).

Lemma strlen_nonneg s : 0 ≤ strlen s.
Proof. unfold strlen. lia. Qed.

Lemma strlen_zero s : strlen s = 0 ↔ s = EmptyString.
Proof. unfold strlen. destruct s; simpl; split; (done || lia). Qed.

Lemma trim_end_length s : strlen (trim_end s) ≤ strlen s.
Proof.
  unfold strlen. induction s as [|a s IH]; simpl; [lia|].
  destruct (trim_end s); [destruct (is_space a); simpl; lia|]. simpl in *. lia.
Qed.

Lemma trim_start_length s : strlen (trim_start s) ≤ strlen s.
Proof.
  unfold strlen. induction s as [|a s IH]; simpl; [lia|].
  destruct (is_space a); simpl; lia.
Qed.

Lemma trim_length s : strlen (trim s) ≤ strlen s.
Proof.
  unfold trim. pose proof (trim_end_length (trim_start s)).
  pose proof (trim_start_length s). lia.
Qed.

Lemma trim_end_idemp s : trim_end (trim_end s) = trim_end s.
Proof.
  induction s as [|a s IH]; [done|]. simpl.
  destruct (trim_end s) eqn:E.
  - destruct (is_space a) eqn:Ea; simpl; [done|]. by rewrite Ea.
  - simpl in *. by rewrite IH.
Qed.

Lemma trim_start_trim_end s :
  trim_start s = s → trim_start (trim_end s) = trim_end s.
Proof.
  destruct s as [|a s]; [done|]. simpl. destruct (is_space a) eqn:Ea.
  - intros H. pose proof (trim_start_length s) as Hl.
    rewrite H in Hl. unfold strlen in Hl. simpl in Hl. lia.
  - intros _. destruct (trim_end s); simpl; by rewrite Ea.
Qed.

Lemma trim_start_idemp s : trim_start (trim_start s) = trim_start s.
Proof.
  induction s as [|a s IH]; [done|]. simpl.
  destruct (is_space a) eqn:Ea; [done|]. simpl. by rewrite Ea.
Qed.

Lemma trim_idemp s : trim (trim s) = trim s.
Proof.
  unfold trim. rewrite trim_start_trim_end by apply trim_start_idemp.
  apply trim_end_idemp.
Qed.

(** ** Untyped values

    What a function receives when its argument is checked at run time. An
    array is an object too. *)
Inductive jsval :=
| VUndefined
| VNull
| VBool (b : bool)
| VNum (n : jsnum)
| VStr (s : string)
| VObj (fields : list (string * jsval)).

(** [Object.keys(v)] *)
Definition object_keys (v : jsval) : list string :=
  match v with VObj fs => fst <$> fs | _ => [] end.

Fixpoint field_lookup (k : string) (fs : list (string * jsval)) : jsval :=
  match fs with
  | [] => VUndefined
  | (k', v) :: fs => if String.eqb k k' then v else field_lookup k fs
  end.

(** [v.k] *)
Definition get_field (k : string) (v : jsval) : jsval :=
  match v with VObj fs => field_lookup k fs | _ => VUndefined end.

(** [keys.includes(k)] *)
Definition includes (k : string) (ks : list string) : bool := existsb (String.eqb k) ks.

(** [s.replace(pat, rep)] with a string pattern: the first occurrence only. *)
Fixpoint replace_first (pat rep s : string) : string :=
  if String.prefix pat s
  then (rep +:+ String.substring (String.length pat) (String.length s) s)
  else match s with
       | EmptyString => EmptyString
       | String a r => String a (replace_first pat rep r)
       end.
