(* ===== verification/JsValues.v ===== *)
(** The ordered maps of the language ([Map] and [Set]): entries in insertion
    order, unique keys, setting a present key keeps its place. *)
From S2P Require Import Prelude.

Section jsmap.
Context {K A : Type} `{!EqDecision K}.

Definition jsmap : Type := list (K * A).

(** [m.get(k)] *)
Fixpoint map_get (k : K) (m : jsmap) : option A :=
  match m with
  | [] => None
  | (k', a) :: rest => if decide (k = k') then Some a else map_get k rest
  end.

(** [m.has(k)] *)
Definition map_has (k : K) (m : jsmap) : bool := bool_decide (is_Some (map_get k m)).

(** [m.set(k, a)] *)
Fixpoint map_set (k : K) (a : A) (m : jsmap) : jsmap :=
  match m with
  | [] => [(k, a)]
  | (k', a') :: rest => if decide (k = k') then (k', a) :: rest else (k', a') :: map_set k a rest
  end.

(** [m.delete(k)] *)
Fixpoint map_delete (k : K) (m : jsmap) : jsmap :=
  match m with
  | [] => []
  | (k', a') :: rest => if decide (k = k') then rest else (k', a') :: map_delete k rest
  end.

(** [[...m.keys()]], [[...m.values()]] *)
Definition map_keys (m : jsmap) : list K := fst <$> m.
Definition map_values (m : jsmap) : list A := snd <$> m.

(** Unique keys. *)
Definition map_ok (m : jsmap) : Prop := NoDup (map_keys m).

Lemma map_get_None k m : map_get k m = None ↔ k ∉ map_keys m.
Proof.
  induction m as [|[k' a] m IH]; cbn; [split; [by intros _ ?%elem_of_nil|done]|].
  rewrite not_elem_of_cons. case_decide; [naive_solver|]. rewrite IH. naive_solver.
Qed.

Lemma map_get_set k k' a m : map_get k (map_set k' a m) = if decide (k = k') then Some a else map_get k m.
Proof.
  induction m as [|[k1 a1] m IH]; cbn; [done|].
  destruct (decide (k' = k1)) as [<-|]; cbn; [by case_decide|].
  rewrite IH. repeat case_decide; congruence.
Qed.

Lemma map_get_delete k k' m :
  map_ok m → map_get k (map_delete k' m) = if decide (k = k') then None else map_get k m.
Proof.
  unfold map_ok. induction m as [|[k1 a1] m IH]; cbn; intros Hm; [by case_decide|].
  apply NoDup_cons in Hm as [Hk Hm].
  destruct (decide (k' = k1)) as [<-|]; cbn.
  - case_decide as E; [|done]. subst. by apply map_get_None.
  - rewrite IH by done. repeat case_decide; congruence.
Qed.

Lemma map_keys_set k a m : k ∉ map_keys m → map_set k a m = (m ++ [(k, a)])%list.
Proof.
  induction m as [|[k1 a1] m IH]; cbn; [done|]. rewrite not_elem_of_cons. intros [? ?].
  rewrite decide_False by done. by rewrite IH.
Qed.

Lemma map_keys_set_in k a m : k ∈ map_keys m → map_keys (map_set k a m) = map_keys m.
Proof.
  induction m as [|[k1 a1] m IH]; cbn; [by intros ?%elem_of_nil|]. intros Hin.
  case_decide; [by subst|]. cbn. f_equal. apply IH. apply elem_of_cons in Hin. naive_solver.
Qed.

Lemma map_ok_set k a m : map_ok m → map_ok (map_set k a m).
Proof.
  unfold map_ok. intros Hm. destruct (decide (k ∈ map_keys m)) as [Hk|Hk].
  - by rewrite map_keys_set_in.
  - rewrite map_keys_set by done. unfold map_keys. rewrite fmap_app. cbn.
    apply NoDup_app. split_and!; [done| |apply NoDup_singleton].
    intros x Hx ->%list_elem_of_singleton. done.
Qed.

Lemma map_keys_delete k x m : x ∈ map_keys (map_delete k m) → x ∈ map_keys m.
Proof.
  induction m as [|[k1 a1] m IH]; cbn; [done|]. case_decide; cbn; rewrite ?elem_of_cons; naive_solver.
Qed.

Lemma map_ok_delete k m : map_ok m → map_ok (map_delete k m).
Proof.
  unfold map_ok. induction m as [|[k1 a1] m IH]; cbn; [done|]. intros [Hk Hm]%NoDup_cons.
  case_decide; [done|]. cbn. apply NoDup_cons. split; [|auto]. intros Hx. by apply map_keys_delete in Hx.
Qed.

Lemma map_get_in k a m : map_ok m → (map_get k m = Some a ↔ (k, a) ∈ m).
Proof.
  unfold map_ok. induction m as [|[k1 a1] m IH]; cbn.
  { split; [done|]. by intros ?%elem_of_nil. }
  intros [Hk Hm]%NoDup_cons. rewrite elem_of_cons. case_decide as E.
  - subst. split; [intros [= ->]; by left|]. intros [[= ->]|Hin]; [done|].
    destruct Hk. apply list_elem_of_fmap. by exists (k1, a).
  - rewrite IH by done. naive_solver.
Qed.

Lemma map_get_fmap_values k (f : A → A) m :
  map_get k ((λ p, (p.1, f p.2)) <$> m) = f <$> map_get k m.
Proof. induction m as [|[k1 a1] m IH]; cbn; [done|]. by case_decide. Qed.

Lemma map_delete_none k m : map_get k m = None → map_delete k m = m.
Proof. induction m as [|[k1 a1] m IH]; cbn; [done|]. case_decide; [done|]. intros Hn. by rewrite IH. Qed.

Lemma map_delete_length k m : map_get k m ≠ None → S (length (map_delete k m)) = length m.
Proof. induction m as [|[k1 a1] m IH]; cbn; [done|]. case_decide; cbn; [done|]. intros Hn. by rewrite IH. Qed.

Lemma map_set_length k a m : map_get k m = None → length (map_set k a m) = S (length m).
Proof. intros Hk%map_get_None. rewrite map_keys_set by done. rewrite length_app. cbn. lia. Qed.
End jsmap.
#[global] Arguments jsmap : clear implicits.

(** Objects and arrays as the browser state uses them: object spread
    [{ ...s, field: v }] on records, [findIndex], [findLastIndex], writing an
    element of a copied array, [slice(-n)] and the order of a [Set]. *)

(** ** Object spread *)

(** A record type with its eta expansion, from which every field can be replaced. *)
Class Spread (R : Type) := spread : R → R.

(** Replacing one field of a record. *)
Class Field {R T : Type} (proj : R → T) := with_field : T → R → R.

Ltac replace_field proj :=
  lazymatch type of proj with
  | ?R → ?T =>
      let c := constr:(_ : Spread R) in
      let body := constr:(λ (v : T) (r : R), ltac:(
        let e := eval hnf in (@spread R c r) in
        let e := lazymatch eval pattern (proj r) in e with ?g _ => constr:(g v) end in
        let e := eval cbv beta in e in exact e)) in
      exact body
  end.
#[export] Hint Extern 1 (Field ?proj) => (replace_field proj) : typeclass_instances.

Notation "r <| f := v |>" := (with_field (proj := f) v r)
  (at level 1, left associativity, f constr, v at level 200, format "r  <| f  :=  v |>").

(** ** Arrays *)

Section arrays.
Context {A : Type}.
Implicit Types (p : A → bool) (l : list A).

(** [l.findIndex(p)]; [None] is -1. *)
Fixpoint find_index p l : option nat :=
  match l with
  | [] => None
  | a :: l => if p a then Some O else S <$> find_index p l
  end.

(** [l.findLastIndex(p)], and the loops that search from the end. *)
Fixpoint find_last_index p l : option nat :=
  match l with
  | [] => None
  | a :: l => match find_last_index p l with Some i => Some (S i) | None => if p a then Some O else None end
  end.

(** [l[i]] for an integer [i]. *)
Definition item_at (l : list A) (i : Z) : option A := if i <? 0 then None else l !! Z.to_nat i.

(** [l.slice(-n)] *)
Definition last_items (n : nat) (l : list A) : list A := drop (length l - n) l.

Lemma find_index_Some p l i :
  find_index p l = Some i ↔ (∃ a, l !! i = Some a ∧ p a = true) ∧ ∀ j a, (j < i)%nat → l !! j = Some a → p a = false.
Proof.
  revert i. induction l as [|a l IH]; intros i; cbn.
  { split; [done|]. by intros [(a & ? & ?) _]. }
  destruct (p a) eqn:E.
  - split.
    + intros [= <-]. split; [by exists a|]. intros; lia.
    + intros [(b & Hb & Hp) Hbefore]. destruct i as [|i]; [done|].
      specialize (Hbefore O a ltac:(lia) eq_refl). congruence.
  - rewrite fmap_Some. split.
    + intros (k & [Hk Hbefore]%IH & ->). split; [done|]. intros [|j] b Hj; cbn; [congruence|].
      apply Hbefore. lia.
    + intros [(b & Hb & Hp) Hbefore]. destruct i as [|i]; cbn in Hb; [congruence|]. exists i. split; [|done].
      apply IH. split; [by exists b|]. intros j c Hj. apply (Hbefore (S j) c). lia.
Qed.

Lemma find_index_None p l : find_index p l = None ↔ ∀ a, a ∈ l → p a = false.
Proof.
  induction l as [|a l IH]; cbn; [by split; [intros _ a ?%elem_of_nil|]|].
  destruct (p a) eqn:E.
  - split; [done|]. intros H. specialize (H a (list_elem_of_here _ _)). congruence.
  - rewrite fmap_None, IH. split; [|intros H b Hb; apply H; by right].
    intros H b [->|Hb]%elem_of_cons; auto.
Qed.

Lemma find_last_index_Some p l i : find_last_index p l = Some i → ∃ a, l !! i = Some a ∧ p a = true.
Proof.
  revert i. induction l as [|a l IH]; intros i; cbn; [done|].
  destruct (find_last_index p l) as [k|]; [intros [= <-]; by apply IH|].
  destruct (p a) eqn:E; [|done]. intros [= <-]. by exists a.
Qed.

Lemma last_items_length n l : (length (last_items n l) ≤ n)%nat.
Proof. unfold last_items. rewrite length_drop. lia. Qed.

Lemma last_items_suffix n l : last_items n l `suffix_of` l.
Proof. exists (take (length l - n) l). symmetry. apply take_drop. Qed.
End arrays.

(** [[...new Set(l)]]: the first occurrence of every element. *)
Fixpoint unique_from `{EqDecision A} (seen l : list A) : list A :=
  match l with
  | [] => []
  | a :: l => if decide (a ∈ seen) then unique_from seen l else a :: unique_from (a :: seen) l
  end.
Definition unique_items `{EqDecision A} (l : list A) : list A := unique_from [] l.

Lemma unique_from_in `{EqDecision A} (l seen : list A) x :
  x ∈ unique_from seen l ↔ x ∈ l ∧ x ∉ seen.
Proof.
  revert seen. induction l as [|a l IH]; intros seen; cbn; [set_solver|].
  case_decide; [rewrite IH; set_solver|]. rewrite !elem_of_cons, IH, elem_of_cons.
  destruct (decide (x = a)); set_solver.
Qed.
Lemma unique_items_in `{EqDecision A} (l : list A) x : x ∈ unique_items l ↔ x ∈ l.
Proof. unfold unique_items. rewrite unique_from_in. set_solver. Qed.

Lemma unique_items_NoDup `{EqDecision A} (l : list A) : NoDup (unique_items l).
Proof.
  unfold unique_items. generalize (@nil A). induction l as [|a l IH]; intros seen; cbn; [constructor|].
  case_decide; [done|]. constructor; [|done]. rewrite unique_from_in. set_solver.
Qed.
