(* ===== verification/Texts.v ===== *)
(** String operations of the language on code-unit strings, and their lemmas:
    splitting and joining, decimal and hexadecimal numerals. *)
From S2P Require Import Prelude.
#[local] Open Scope string_scope. #[local] Open Scope Z_scope.
#[local] Arguments String.append : simpl nomatch.

(** [s.includes(c)] for a one-character string. *)
Definition has_char (c : ascii) (s : string) : bool := negb (str_all (λ a, negb (Ascii.eqb a c)) s).

(** [s.split(c)] for a one-character separator. *)
Fixpoint split (c : ascii) (s : string) : list string :=
  match s with
  | EmptyString => [EmptyString]
  | String a r =>
      if Ascii.eqb a c then EmptyString :: split c r
      else match split c r with
           | p :: ps => String a p :: ps
           | [] => [String a EmptyString]
           end
  end.

(** [parts.join(c)] *)
Fixpoint join (c : ascii) (parts : list string) : string :=
  match parts with
  | [] => EmptyString
  | [p] => p
  | p :: ps => p +:+ String c (join c ps)
  end.

(** [s.startsWith(p)], [s.endsWith(p)], [s.slice(n)] *)
Definition starts_with (p s : string) : bool := String.prefix p s.
Fixpoint ends_with (p s : string) : bool :=
  String.eqb s p || match s with EmptyString => false | String _ r => ends_with p r end.
Fixpoint drop_str (n : nat) (s : string) : string :=
  match n, s with
  | O, _ => s
  | S n, String _ r => drop_str n r
  | S _, EmptyString => EmptyString
  end.

Lemma str_app_nil s : s +:+ EmptyString = s.
Proof. induction s as [|a s IH]; cbn; [done|]. by rewrite IH. Qed.
Lemma str_app_assoc s1 s2 s3 : (s1 +:+ s2) +:+ s3 = s1 +:+ (s2 +:+ s3).
Proof. induction s1 as [|a s IH]; cbn; [done|]. by rewrite IH. Qed.
Lemma strlen_app s1 s2 : strlen (s1 +:+ s2) = strlen s1 + strlen s2.
Proof. unfold strlen. induction s1 as [|a s IH]; cbn; [done|]. lia. Qed.
Lemma str_all_app p s1 s2 : str_all p (s1 +:+ s2) = str_all p s1 && str_all p s2.
Proof. induction s1 as [|a s IH]; cbn; [done|]. by rewrite IH, andb_assoc. Qed.
Lemma str_all_impl (p q : ascii → bool) s :
  (∀ a, p a = true → q a = true) → str_all p s = true → str_all q s = true.
Proof.
  intros Hpq. induction s as [|a s IH]; cbn; [done|]. rewrite !andb_true_iff. naive_solver.
Qed.

Lemma has_char_app c s1 s2 : has_char c (s1 +:+ s2) = has_char c s1 || has_char c s2.
Proof. unfold has_char. by rewrite str_all_app, negb_andb. Qed.
Lemma has_char_cons c a s : has_char c (String a s) = Ascii.eqb a c || has_char c s.
Proof. unfold has_char. cbn. by rewrite negb_andb, negb_involutive. Qed.
Lemma has_char_all c p s : p c = false → str_all p s = true → has_char c s = false.
Proof.
  intros Hc Hs. unfold has_char. apply negb_false_iff. revert Hs. apply str_all_impl.
  intros a Ha. apply negb_true_iff, Ascii.eqb_neq. congruence.
Qed.

(** *** Splitting and joining *)
Lemma split_nonempty c s : split c s ≠ [].
Proof. destruct s as [|a s]; cbn; [done|]. destruct (Ascii.eqb a c); [done|]. by destruct (split c s). Qed.

Lemma split_app_sep c p s : has_char c p = false → split c (p +:+ String c s) = p :: split c s.
Proof.
  induction p as [|a p IH]; intros Hp; cbn -[has_char] in *; [by rewrite Ascii.eqb_refl|].
  rewrite has_char_cons, orb_false_iff in Hp. destruct Hp as [Ha Hp]. by rewrite Ha, (IH Hp).
Qed.

Lemma split_no_sep c p : has_char c p = false → split c p = [p].
Proof.
  induction p as [|a p IH]; intros Hp; [done|]. cbn.
  rewrite has_char_cons, orb_false_iff in Hp. destruct Hp as [Ha Hp]. by rewrite Ha, (IH Hp).
Qed.

Lemma split_app c s1 s2 : split c (s1 +:+ String c s2) = (split c s1 ++ split c s2)%list.
Proof.
  induction s1 as [|a s1 IH]; cbn; [by rewrite Ascii.eqb_refl|].
  destruct (Ascii.eqb a c); [by rewrite IH|]. rewrite IH.
  pose proof (split_nonempty c s1). by destruct (split c s1).
Qed.

Lemma split_join c parts :
  parts ≠ [] → Forall (λ p, has_char c p = false) parts → split c (join c parts) = parts.
Proof.
  induction parts as [|p ps IH]; [done|]. intros _ [Hp Hps]%Forall_cons. cbn [join].
  destruct ps as [|q ps]; [by apply split_no_sep|]. rewrite split_app_sep by done. by rewrite IH.
Qed.

Lemma join_split c s : join c (split c s) = s.
Proof.
  induction s as [|a s IH]; [done|]. cbn. destruct (Ascii.eqb a c) eqn:E.
  - apply Ascii.eqb_eq in E as ->. cbn. pose proof (split_nonempty c s). destruct (split c s); [done|]. by rewrite IH.
  - pose proof (split_nonempty c s). destruct (split c s) as [|p ps]; [done|].
    cbn in *. destruct ps; cbn in *; congruence.
Qed.

Lemma split_Forall_no_sep c s : Forall (λ p, has_char c p = false) (split c s).
Proof.
  induction s as [|a s IH]; cbn; [by repeat constructor|]. destruct (Ascii.eqb a c) eqn:E; [by constructor|].
  destruct (split c s) as [|p ps]; [by constructor; [rewrite has_char_cons, E|]|].
  apply Forall_cons in IH as [Hp Hps]. constructor; [|done]. by rewrite has_char_cons, E, Hp.
Qed.

Lemma join_app c l1 l2 : l1 ≠ [] → l2 ≠ [] → join c (l1 ++ l2) = join c l1 +:+ String c (join c l2).
Proof.
  induction l1 as [|p l1 IH]; [done|]. intros _ H2. destruct l1 as [|q l1].
  - cbn. by destruct l2.
  - cbn [app join] in *. rewrite (IH ltac:(done) H2). by rewrite str_app_assoc.
Qed.

(** *** Suffixes *)
Lemma ends_with_spec p s : ends_with p s = true ↔ ∃ r, s = r +:+ p.
Proof.
  induction s as [|a s IH]; cbn -[String.eqb]; rewrite orb_true_iff, String.eqb_eq.
  - split; [intros [<-|]; [by exists ""|done]|]. intros [[|] E]; cbn in E; [by left|done].
  - rewrite IH. split.
    + intros [<-|[r ->]]; [by exists ""|by exists (String a r)].
    + intros [[|b r] E]; cbn in E; [by left|]. injection E as -> ->. right. by exists r.
Qed.

(** ** Numerals *)

Definition decimal_value (a : ascii) : Z := unit_code a - 48.
(** [Number(s)] for decimal digits. *)
Fixpoint number_from (acc : Z) (s : string) : Z :=
  match s with EmptyString => acc | String a r => number_from (acc * 10 + decimal_value a) r end.

Definition is_hex (a : ascii) : bool :=
  let c := unit_code a in
  is_digit a || ((97 <=? c) && (c <=? 102)) || ((65 <=? c) && (c <=? 70)).
Definition hex_value (a : ascii) : Z :=
  let c := unit_code a in
  if is_digit a then c - 48 else if 97 <=? c then c - 87 else c - 55.
(** [Number.parseInt(s, 16)] for hexadecimal digits. *)
Fixpoint parse_hex (acc : Z) (s : string) : Z :=
  match s with EmptyString => acc | String a r => parse_hex (acc * 16 + hex_value a) r end.

Definition hex_char (d : Z) : ascii := ascii_of_N (Z.to_N (if d <? 10 then d + 48 else d + 87)).
(** [w.toString(16)] for a [w] of at most [n] digits. *)
Fixpoint hex_string (n : nat) (w : Z) : string :=
  match n with
  | O => EmptyString
  | S n => (if w <? 16 then EmptyString else hex_string n (w / 16)) +:+ String (hex_char (w mod 16)) EmptyString
  end.

Lemma hex_char_ok d : 0 ≤ d < 16 → hex_value (hex_char d) = d ∧ is_hex (hex_char d) = true.
Proof.
  intros Hd. assert (Hin : d ∈ (Z.of_nat <$> seq 0 16)).
  { apply list_elem_of_fmap. exists (Z.to_nat d). rewrite elem_of_seq. lia. }
  cbn in Hin. repeat (apply elem_of_cons in Hin as [->|Hin]; [by vm_compute|]). by apply elem_of_nil in Hin.
Qed.

Lemma parse_hex_app acc s1 s2 : parse_hex acc (s1 +:+ s2) = parse_hex (parse_hex acc s1) s2.
Proof. revert acc. induction s1 as [|a s IH]; intros acc; cbn; [done|apply IH]. Qed.

Lemma hex_string_ok n w :
  0 ≤ w < 16 ^ Z.of_nat n → (0 < n)%nat →
  parse_hex 0 (hex_string n w) = w ∧ str_all is_hex (hex_string n w) = true ∧ 1 ≤ strlen (hex_string n w) ≤ Z.of_nat n.
Proof.
  revert w. induction n as [|n IH]; intros w Hw Hn; [lia|]. cbn [hex_string].
  pose proof (Z.mod_pos_bound w 16 ltac:(lia)) as Hm. destruct (hex_char_ok (w mod 16) Hm) as [Hv Hh].
  destruct (w <? 16) eqn:E; breflect; cbn [String.append].
  - cbn [parse_hex str_all]. rewrite Hv, Hh. split_and!; [rewrite Z.mod_small by lia; lia|done|done|].
    unfold strlen. cbn. lia.
  - assert (Hq : 0 ≤ w / 16 < 16 ^ Z.of_nat n).
    { split; [apply Z.div_pos; lia|]. apply Z.div_lt_upper_bound; [lia|].
      rewrite Nat2Z.inj_succ, Z.pow_succ_r in Hw by lia. lia. }
    assert (Hn' : (0 < n)%nat) by (destruct n; [cbn in Hq; pose proof (Z.div_le_lower_bound w 16 1); lia|lia]).
    destruct (IH (w / 16) Hq Hn') as (Hp & Ha & Hl).
    rewrite parse_hex_app, Hp, str_all_app, Ha, strlen_app. cbn [parse_hex str_all]. rewrite Hv, Hh.
    split_and!; [|done| |].
    + pose proof (Z.div_mod w 16 ltac:(lia)). lia.
    + unfold strlen in *. cbn. lia.
    + unfold strlen in *. cbn. lia.
Qed.

(** Decimal numerals: the text of a non-negative number has digits only, no
    leading zero, at most as many as its magnitude asks for, and reads back as
    the number. *)
From stdpp Require Import pretty.
#[local] Open Scope string_scope. #[local] Open Scope Z_scope.

Lemma N_char_facts x : (x < 10)%N →
  is_digit (pretty_N_char x) = true ∧ decimal_value (pretty_N_char x) = Z.of_N x ∧
  (x ≠ 0%N → unit_code (pretty_N_char x) =? 48 = false).
Proof.
  intros Hx.
  assert (x = 0 ∨ x = 1 ∨ x = 2 ∨ x = 3 ∨ x = 4 ∨ x = 5 ∨ x = 6 ∨ x = 7 ∨ x = 8 ∨ x = 9)%N as H by lia.
  repeat (destruct H as [->|H]; [by vm_compute|]). subst. by vm_compute.
Qed.

(** Induction on the decimal digits of a number. *)
Lemma digits_ind (P : N → string → Prop) :
  (∀ s, P 0%N s) →
  (∀ x s, (0 < x)%N → P (x `div` 10)%N (String (pretty_N_char (x `mod` 10)) s) → P x s) →
  ∀ x s, P x s.
Proof.
  intros H0 Hs x. induction (N.lt_wf_0 x) as [x _ IH]. intros s.
  destruct (decide (x = 0%N)) as [->|Hx]; [apply H0|]. apply Hs; [lia|]. apply IH. apply N.div_lt; lia.
Qed.

Lemma pretty_go_digits x s : str_all is_digit s = true → str_all is_digit (pretty_N_go x s) = true.
Proof.
  revert x s. apply (digits_ind (λ x s, str_all is_digit s = true → str_all is_digit (pretty_N_go x s) = true)).
  - intros s. by rewrite pretty_N_go_0.
  - intros x s Hx IH Hs. rewrite pretty_N_go_step by done. apply IH. cbn [str_all].
    destruct (N_char_facts (x `mod` 10)%N) as [-> _]; [by apply N.mod_lt|done].
Qed.

Lemma pretty_go_value x s : number_from 0 (pretty_N_go x s) = number_from (Z.of_N x) s.
Proof.
  revert x s. apply (digits_ind (λ x s, number_from 0 (pretty_N_go x s) = number_from (Z.of_N x) s)).
  - intros s. by rewrite pretty_N_go_0.
  - intros x s Hx IH. rewrite pretty_N_go_step by done. rewrite IH. cbn [number_from].
    destruct (N_char_facts (x `mod` 10)%N) as (_ & -> & _); [by apply N.mod_lt|].
    f_equal. pose proof (N.div_mod x 10 ltac:(done)). lia.
Qed.

Lemma pretty_go_length n x s : (x < 10 ^ N.of_nat n)%N → (String.length (pretty_N_go x s) ≤ n + String.length s)%nat.
Proof.
  revert x s. induction n as [|n IH]; intros x s Hx.
  - assert (x = 0%N) as -> by (cbn in Hx; lia). by rewrite pretty_N_go_0.
  - destruct (decide (x = 0%N)) as [->|H0]; [rewrite pretty_N_go_0; lia|]. rewrite pretty_N_go_step by lia.
    etrans; [apply IH|cbn [String.length]; lia]. apply N.Div0.div_lt_upper_bound.
    rewrite Nat2N.inj_succ, N.pow_succ_r' in Hx. done.
Qed.

(** The first digit. *)
Lemma pretty_go_head x s : (0 < x)%N →
  ∃ a r, pretty_N_go x s = String a r ∧ is_digit a = true ∧ unit_code a =? 48 = false.
Proof.
  revert x s. apply (digits_ind (λ x s, (0 < x)%N → ∃ a r, pretty_N_go x s = String a r ∧ is_digit a = true ∧
    unit_code a =? 48 = false)).
  - intros s Hx. lia.
  - intros x s Hx IH _. rewrite pretty_N_go_step by done.
    destruct (decide (x `div` 10 = 0)%N) as [E|E]; [|by apply IH, N.neq_0_lt_0].
    rewrite E, pretty_N_go_0. destruct (N_char_facts (x `mod` 10)%N) as (Hd & _ & Hz); [by apply N.mod_lt|].
    eexists _, _. split_and!; [done|done|]. apply Hz. pose proof (N.div_mod x 10 ltac:(done)). lia.
Qed.

(** The numeral of a positive number. *)
Lemma numeral z : 0 < z → ∃ a r, pretty z = String a r ∧
  is_digit a = true ∧ unit_code a =? 48 = false ∧ str_all is_digit (pretty z) = true ∧ number_from 0 (pretty z) = z.
Proof.
  intros Hz. destruct z as [|p|p]; [lia| |lia].
  assert (E : pretty (Z.pos p) = pretty_N_go (N.pos p) "") by reflexivity.
  destruct (pretty_go_head (N.pos p) "") as (a & r & Eh & Hd & H0); [lia|].
  rewrite E. exists a, r. split_and!; [done|done|done|by apply pretty_go_digits|by rewrite pretty_go_value].
Qed.

Lemma numeral_length n z : 0 < z < 10 ^ Z.of_nat n → strlen (pretty z) ≤ Z.of_nat n.
Proof.
  intros Hz. destruct z as [|p|p]; [lia| |lia].
  assert (E : pretty (Z.pos p) = pretty_N_go (N.pos p) "") by reflexivity.
  rewrite E. unfold strlen. pose proof (pretty_go_length n (N.pos p) "") as H. cbn [String.length] in H.
  assert (N.pos p < 10 ^ N.of_nat n)%N; [|lia]. apply N2Z.inj_lt. rewrite N2Z.inj_pow, nat_N_Z. cbn. lia.
Qed.
