(* ===== verification/Errors.v ===== *)
(** Application errors ([src/shared/errors.ts]): the stable public codes, their
    default messages, the classification of boundary failures and the only
    public wire representation of an error. *)
From S2P Require Import Prelude.
#[local] Open Scope string_scope. #[local] Open Scope Z_scope.

(** src/shared/errors.ts:4-75 ErrorCode *)
Inductive ErrorCode :=
| INVALID_COMMAND
| MESSAGE_TOO_LARGE
| INVALID_PROMPT
| INVALID_CWD
| CWD_NOT_FOUND
| CWD_NOT_ACCESSIBLE
| WORKSPACE_NOT_FOUND
| INVALID_WORKSPACE_NAME
| INVALID_WORKSPACE_PATH
| INVALID_WORKSPACE_MOUNT
| DUPLICATE_WORKSPACE_PATH
| WORKSPACE_UNAVAILABLE
| WORKSPACE_BUSY
| SANDBOX_DISABLED
| SANDBOX_CONFIGURATION_ERROR
| SANDBOX_UNAVAILABLE
| SANDBOX_WORKSPACE_REJECTED
| SANDBOX_WORKER_START_FAILED
| SANDBOX_WORKER_FAILED
| SANDBOX_OPERATION_FAILED
| MANAGED_EGRESS_DISABLED
| NETWORK_POLICY_INVALID
| NETWORK_HELPER_UNAVAILABLE
| NETWORK_PROXY_START_FAILED
| NETWORK_BRIDGE_START_FAILED
| NETWORK_PROXY_FAILED
| NETWORK_DESTINATION_BLOCKED
| DATABASE_ERROR
| MODEL_UNAVAILABLE
| MODEL_FAILED
| IMAGE_NOT_SUPPORTED
| INVALID_IMAGE
| IMAGE_TOO_LARGE
| TOO_MANY_IMAGES
| TOTAL_IMAGE_BYTES_EXCEEDED
| CONVERSATION_NOT_FOUND
| INVALID_CONVERSATION_TITLE
| CONVERSATION_BUSY
| INVALID_FORK_TARGET
| FORK_SOURCE_BUSY
| LIVE_RUNTIME_LIMIT
| JOB_NOT_FOUND
| JOB_INVALID
| JOB_BUSY
| JOB_DISABLED
| JOB_ALREADY_RUNNING
| JOB_SCRIPT_ROOTS_UNAVAILABLE
| JOB_SCRIPT_INVALID
| JOB_SCRIPT_UNAVAILABLE
| JOB_PRE_RUN_FAILED
| JOB_POST_RUN_FAILED
| JOB_HOOK_TIMEOUT
| JOB_HOOK_OUTPUT_LIMIT
| JOB_PROMPT_FAILED
| JOB_ABORTED
| JOB_INTERRUPTED
| REVISION_GAP
| SESSION_FILE_MISSING
| SESSION_UNAVAILABLE
| SESSION_NOT_LISTED
| LIVE_SESSION_DELETE
| PI_RUNTIME_CREATE_FAILED
| PI_RUNTIME_REPLACE_FAILED
| SHUTTING_DOWN
| INTERNAL_ERROR.
(** The object's values in declaration order ([Object.values(ERROR_CODES)]). *)
(** src/shared/errors.ts:4-70 ERROR_CODES *)
Definition ERROR_CODES : list (ErrorCode * string) := [
  (INVALID_COMMAND, "invalid_command");
  (MESSAGE_TOO_LARGE, "message_too_large");
  (INVALID_PROMPT, "invalid_prompt");
  (INVALID_CWD, "invalid_cwd");
  (CWD_NOT_FOUND, "cwd_not_found");
  (CWD_NOT_ACCESSIBLE, "cwd_not_accessible");
  (WORKSPACE_NOT_FOUND, "workspace_not_found");
  (INVALID_WORKSPACE_NAME, "invalid_workspace_name");
  (INVALID_WORKSPACE_PATH, "invalid_workspace_path");
  (INVALID_WORKSPACE_MOUNT, "invalid_workspace_mount");
  (DUPLICATE_WORKSPACE_PATH, "duplicate_workspace_path");
  (WORKSPACE_UNAVAILABLE, "workspace_unavailable");
  (WORKSPACE_BUSY, "workspace_busy");
  (SANDBOX_DISABLED, "sandbox_disabled");
  (SANDBOX_CONFIGURATION_ERROR, "sandbox_configuration_error");
  (SANDBOX_UNAVAILABLE, "sandbox_unavailable");
  (SANDBOX_WORKSPACE_REJECTED, "sandbox_workspace_rejected");
  (SANDBOX_WORKER_START_FAILED, "sandbox_worker_start_failed");
  (SANDBOX_WORKER_FAILED, "sandbox_worker_failed");
  (SANDBOX_OPERATION_FAILED, "sandbox_operation_failed");
  (MANAGED_EGRESS_DISABLED, "managed_egress_disabled");
  (NETWORK_POLICY_INVALID, "network_policy_invalid");
  (NETWORK_HELPER_UNAVAILABLE, "network_helper_unavailable");
  (NETWORK_PROXY_START_FAILED, "network_proxy_start_failed");
  (NETWORK_BRIDGE_START_FAILED, "network_bridge_start_failed");
  (NETWORK_PROXY_FAILED, "network_proxy_failed");
  (NETWORK_DESTINATION_BLOCKED, "network_destination_blocked");
  (DATABASE_ERROR, "database_error");
  (MODEL_UNAVAILABLE, "model_unavailable");
  (MODEL_FAILED, "model_failed");
  (IMAGE_NOT_SUPPORTED, "image_not_supported");
  (INVALID_IMAGE, "invalid_image");
  (IMAGE_TOO_LARGE, "image_too_large");
  (TOO_MANY_IMAGES, "too_many_images");
  (TOTAL_IMAGE_BYTES_EXCEEDED, "total_image_bytes_exceeded");
  (CONVERSATION_NOT_FOUND, "conversation_not_found");
  (INVALID_CONVERSATION_TITLE, "invalid_conversation_title");
  (CONVERSATION_BUSY, "conversation_busy");
  (INVALID_FORK_TARGET, "invalid_fork_target");
  (FORK_SOURCE_BUSY, "fork_source_busy");
  (LIVE_RUNTIME_LIMIT, "live_runtime_limit");
  (JOB_NOT_FOUND, "job_not_found");
  (JOB_INVALID, "job_invalid");
  (JOB_BUSY, "job_busy");
  (JOB_DISABLED, "job_disabled");
  (JOB_ALREADY_RUNNING, "job_already_running");
  (JOB_SCRIPT_ROOTS_UNAVAILABLE, "job_script_roots_unavailable");
  (JOB_SCRIPT_INVALID, "job_script_invalid");
  (JOB_SCRIPT_UNAVAILABLE, "job_script_unavailable");
  (JOB_PRE_RUN_FAILED, "job_pre_run_failed");
  (JOB_POST_RUN_FAILED, "job_post_run_failed");
  (JOB_HOOK_TIMEOUT, "job_hook_timeout");
  (JOB_HOOK_OUTPUT_LIMIT, "job_hook_output_limit");
  (JOB_PROMPT_FAILED, "job_prompt_failed");
  (JOB_ABORTED, "job_aborted");
  (JOB_INTERRUPTED, "job_interrupted");
  (REVISION_GAP, "revision_gap");
  (SESSION_FILE_MISSING, "session_file_missing");
  (SESSION_UNAVAILABLE, "session_unavailable");
  (SESSION_NOT_LISTED, "session_not_listed");
  (LIVE_SESSION_DELETE, "live_session_delete");
  (PI_RUNTIME_CREATE_FAILED, "pi_runtime_create_failed");
  (PI_RUNTIME_REPLACE_FAILED, "pi_runtime_replace_failed");
  (SHUTTING_DOWN, "shutting_down");
  (INTERNAL_ERROR, "internal_error")].

(** The string value of a code. *)
Definition code_string (c : ErrorCode) : string :=
  match c with
  | INVALID_COMMAND => "invalid_command"
  | MESSAGE_TOO_LARGE => "message_too_large"
  | INVALID_PROMPT => "invalid_prompt"
  | INVALID_CWD => "invalid_cwd"
  | CWD_NOT_FOUND => "cwd_not_found"
  | CWD_NOT_ACCESSIBLE => "cwd_not_accessible"
  | WORKSPACE_NOT_FOUND => "workspace_not_found"
  | INVALID_WORKSPACE_NAME => "invalid_workspace_name"
  | INVALID_WORKSPACE_PATH => "invalid_workspace_path"
  | INVALID_WORKSPACE_MOUNT => "invalid_workspace_mount"
  | DUPLICATE_WORKSPACE_PATH => "duplicate_workspace_path"
  | WORKSPACE_UNAVAILABLE => "workspace_unavailable"
  | WORKSPACE_BUSY => "workspace_busy"
  | SANDBOX_DISABLED => "sandbox_disabled"
  | SANDBOX_CONFIGURATION_ERROR => "sandbox_configuration_error"
  | SANDBOX_UNAVAILABLE => "sandbox_unavailable"
  | SANDBOX_WORKSPACE_REJECTED => "sandbox_workspace_rejected"
  | SANDBOX_WORKER_START_FAILED => "sandbox_worker_start_failed"
  | SANDBOX_WORKER_FAILED => "sandbox_worker_failed"
  | SANDBOX_OPERATION_FAILED => "sandbox_operation_failed"
  | MANAGED_EGRESS_DISABLED => "managed_egress_disabled"
  | NETWORK_POLICY_INVALID => "network_policy_invalid"
  | NETWORK_HELPER_UNAVAILABLE => "network_helper_unavailable"
  | NETWORK_PROXY_START_FAILED => "network_proxy_start_failed"
  | NETWORK_BRIDGE_START_FAILED => "network_bridge_start_failed"
  | NETWORK_PROXY_FAILED => "network_proxy_failed"
  | NETWORK_DESTINATION_BLOCKED => "network_destination_blocked"
  | DATABASE_ERROR => "database_error"
  | MODEL_UNAVAILABLE => "model_unavailable"
  | MODEL_FAILED => "model_failed"
  | IMAGE_NOT_SUPPORTED => "image_not_supported"
  | INVALID_IMAGE => "invalid_image"
  | IMAGE_TOO_LARGE => "image_too_large"
  | TOO_MANY_IMAGES => "too_many_images"
  | TOTAL_IMAGE_BYTES_EXCEEDED => "total_image_bytes_exceeded"
  | CONVERSATION_NOT_FOUND => "conversation_not_found"
  | INVALID_CONVERSATION_TITLE => "invalid_conversation_title"
  | CONVERSATION_BUSY => "conversation_busy"
  | INVALID_FORK_TARGET => "invalid_fork_target"
  | FORK_SOURCE_BUSY => "fork_source_busy"
  | LIVE_RUNTIME_LIMIT => "live_runtime_limit"
  | JOB_NOT_FOUND => "job_not_found"
  | JOB_INVALID => "job_invalid"
  | JOB_BUSY => "job_busy"
  | JOB_DISABLED => "job_disabled"
  | JOB_ALREADY_RUNNING => "job_already_running"
  | JOB_SCRIPT_ROOTS_UNAVAILABLE => "job_script_roots_unavailable"
  | JOB_SCRIPT_INVALID => "job_script_invalid"
  | JOB_SCRIPT_UNAVAILABLE => "job_script_unavailable"
  | JOB_PRE_RUN_FAILED => "job_pre_run_failed"
  | JOB_POST_RUN_FAILED => "job_post_run_failed"
  | JOB_HOOK_TIMEOUT => "job_hook_timeout"
  | JOB_HOOK_OUTPUT_LIMIT => "job_hook_output_limit"
  | JOB_PROMPT_FAILED => "job_prompt_failed"
  | JOB_ABORTED => "job_aborted"
  | JOB_INTERRUPTED => "job_interrupted"
  | REVISION_GAP => "revision_gap"
  | SESSION_FILE_MISSING => "session_file_missing"
  | SESSION_UNAVAILABLE => "session_unavailable"
  | SESSION_NOT_LISTED => "session_not_listed"
  | LIVE_SESSION_DELETE => "live_session_delete"
  | PI_RUNTIME_CREATE_FAILED => "pi_runtime_create_failed"
  | PI_RUNTIME_REPLACE_FAILED => "pi_runtime_replace_failed"
  | SHUTTING_DOWN => "shutting_down"
  | INTERNAL_ERROR => "internal_error"
  end.

(** The reverse lookup of a wire string. *)
Definition code_of_string (s : string) : option ErrorCode :=
  fst <$> find (λ p, bool_decide (snd p = s)) ERROR_CODES.

Lemma code_of_code_string c : code_of_string (code_string c) = Some c.
Proof. destruct c; reflexivity. Qed.

#[export] Instance code_string_inj : Inj (=) (=) code_string.
Proof. intros c c' E. apply (inj Some). by rewrite <-!code_of_code_string, E. Qed.

#[export] Instance ErrorCode_eq : EqDecision ErrorCode.
Proof.
  refine (λ x y, cast_if (decide (code_string x = code_string y)));
    [by apply (inj code_string)|congruence].
Defined.

(** src/shared/errors.ts:77-143 DEFAULT_MESSAGES *)
Definition DEFAULT_MESSAGES (c : ErrorCode) : string :=
  match c with
  | INVALID_COMMAND => "The command is invalid."
  | MESSAGE_TOO_LARGE => "The command payload is too large."
  | INVALID_PROMPT => "Enter a prompt or attach an image."
  | INVALID_CWD => "The working directory is invalid."
  | CWD_NOT_FOUND => "The working directory does not exist."
  | CWD_NOT_ACCESSIBLE => "The working directory is not accessible."
  | WORKSPACE_NOT_FOUND => "The workspace was not found."
  | INVALID_WORKSPACE_NAME => "Enter a workspace name."
  | INVALID_WORKSPACE_PATH => "The workspace path must be an existing accessible directory."
  | INVALID_WORKSPACE_MOUNT => "Each mount must name an existing accessible server directory and a unique /mounts destination."
  | DUPLICATE_WORKSPACE_PATH => "That workspace path is already registered."
  | WORKSPACE_UNAVAILABLE => "The workspace directory is unavailable."
  | WORKSPACE_BUSY => "Close the workspace's live conversations before changing its path, mounts, security profile, network policy, destination policy, tool access, or removing it."
  | SANDBOX_DISABLED => "Workspace sandboxing is disabled by the server."
  | SANDBOX_CONFIGURATION_ERROR => "The server sandbox configuration is invalid."
  | SANDBOX_UNAVAILABLE => "Workspace sandboxing is unavailable."
  | SANDBOX_WORKSPACE_REJECTED => "The workspace does not satisfy the sandbox policy."
  | SANDBOX_WORKER_START_FAILED => "The workspace sandbox could not be started."
  | SANDBOX_WORKER_FAILED => "The workspace sandbox failed."
  | SANDBOX_OPERATION_FAILED => "The sandboxed operation failed."
  | MANAGED_EGRESS_DISABLED => "Managed egress is disabled by the server."
  | NETWORK_POLICY_INVALID => "The server managed-egress policy is invalid."
  | NETWORK_HELPER_UNAVAILABLE => "The managed-egress network helper is unavailable."
  | NETWORK_PROXY_START_FAILED => "The managed-egress proxy could not be started."
  | NETWORK_BRIDGE_START_FAILED => "The managed-egress bridge could not be started."
  | NETWORK_PROXY_FAILED => "The managed-egress proxy failed."
  | NETWORK_DESTINATION_BLOCKED => "The network destination was blocked by policy."
  | DATABASE_ERROR => "The workspace database operation failed."
  | MODEL_UNAVAILABLE => "No model is configured or available."
  | MODEL_FAILED => "The model failed while processing the prompt."
  | IMAGE_NOT_SUPPORTED => "The selected model does not support images."
  | INVALID_IMAGE => "An image payload is malformed or unsupported."
  | IMAGE_TOO_LARGE => "An image exceeds the allowed size."
  | TOO_MANY_IMAGES => "The prompt contains too many images."
  | TOTAL_IMAGE_BYTES_EXCEEDED => "The images exceed the total allowed size."
  | CONVERSATION_NOT_FOUND => "The conversation was not found."
  | INVALID_CONVERSATION_TITLE => "Enter a conversation title between 1 and 200 characters."
  | CONVERSATION_BUSY => "The conversation is busy."
  | INVALID_FORK_TARGET => "The fork target is not a user message on the active branch."
  | FORK_SOURCE_BUSY => "A conversation cannot be forked while it is running."
  | LIVE_RUNTIME_LIMIT => "The live conversation limit has been reached and no idle conversation can be closed."
  | JOB_NOT_FOUND => "The scheduled job was not found."
  | JOB_INVALID => "The scheduled job configuration is invalid."
  | JOB_BUSY => "The scheduled job cannot be changed while it is running."
  | JOB_DISABLED => "Enable the scheduled job before running it."
  | JOB_ALREADY_RUNNING => "The scheduled job already has an active run."
  | JOB_SCRIPT_ROOTS_UNAVAILABLE => "Trusted job-script roots are not available."
  | JOB_SCRIPT_INVALID => "The job script path is invalid or outside the accepted roots."
  | JOB_SCRIPT_UNAVAILABLE => "A configured job script is no longer available."
  | JOB_PRE_RUN_FAILED => "The pre-run script failed."
  | JOB_POST_RUN_FAILED => "The post-run script failed."
  | JOB_HOOK_TIMEOUT => "The job script exceeded its time limit."
  | JOB_HOOK_OUTPUT_LIMIT => "The job script exceeded its output limit."
  | JOB_PROMPT_FAILED => "The scheduled prompt failed."
  | JOB_ABORTED => "The job run was aborted."
  | JOB_INTERRUPTED => "The job run was interrupted by server shutdown or restart."
  | REVISION_GAP => "Conversation updates were missed; reload the conversation state."
  | SESSION_FILE_MISSING => "The session file no longer exists."
  | SESSION_UNAVAILABLE => "The session file is not accessible."
  | SESSION_NOT_LISTED => "The session is not present in Pi session history."
  | LIVE_SESSION_DELETE => "Close the live conversation before deleting it."
  | PI_RUNTIME_CREATE_FAILED => "The conversation runtime could not be created."
  | PI_RUNTIME_REPLACE_FAILED => "The conversation runtime could not be replaced."
  | SHUTTING_DOWN => "The server is shutting down."
  | INTERNAL_ERROR => "An internal server error occurred."
  end.

(** A caught value: an [AppError] with its code, its (public) message and the
    retained cause, or anything else, of which the code reads only a string
    [code] property (the errno of a Node or SQLite error). *)
(** src/shared/errors.ts:156-166 AppError *)
Inductive thrown :=
| AppError (code : ErrorCode) (message : string) (cause : option thrown)
| Foreign (errno : option string) (detail : string).

(** src/shared/errors.ts:145-153 AppErrorOptions *)
Record AppErrorOptions := { publicMessage : option string; causeOption : option thrown }.

(** src/shared/errors.ts:160-165 constructor *)
Definition newAppError (c : ErrorCode) (options : AppErrorOptions) : thrown :=
  AppError c (default (DEFAULT_MESSAGES c) (publicMessage options)) (causeOption options).

(** [new AppError(code)] *)
Definition app_error (c : ErrorCode) : thrown :=
  newAppError c {| publicMessage := None; causeOption := None |}.
(** [new AppError(code, { cause })] *)
Definition app_error_cause (c : ErrorCode) (cause : thrown) : thrown :=
  newAppError c {| publicMessage := None; causeOption := Some cause |}.

Inductive validation_issue := VCommand | VMessageSize | VPrompt | VRevision.
Inductive fs_target := TargetCwd | TargetSession.
Inductive workspace_issue :=
| WMissing | WName | WPath | WDuplicate | WUnavailable | WBusy.
Inductive job_issue :=
| JMissing | JInvalid | JBusy | JDisabled | JAlreadyRunning | JScriptRoots
| JScriptInvalid | JScriptUnavailable | JPreRun | JPostRun | JHookTimeout
| JHookOutput | JPrompt | JAborted | JInterrupted.
Inductive sandbox_phase :=
| SConfiguration | SStartup | SWorkspaceAdmission | SWorkerStartup
| SFatalWorker | SOperation.
Inductive network_phase :=
| NConfiguration | NHelper | NBridge | NProxyStartup | NActiveProxy
| NDestinationDenial.
Inductive registry_issue :=
| RMissing | RTitle | RBusy | RForkTarget | RForkBusy | RCapacity
| RDeleteLive | RNotListed | RUnknown.
Inductive image_issue :=
| IMalformed | IUnsupported | ITooLarge | ITooMany | IAggregate.
Inductive pi_operation := PCreate | PReplace | PModel.

(** src/shared/errors.ts:168-250 ErrorContext *)
Inductive ErrorContext :=
| CtxValidation (issue : option validation_issue)
| CtxFilesystem (target : fs_target)
| CtxWorkspace (issue : workspace_issue)
| CtxDatabase
| CtxJob (issue : job_issue)
| CtxSandbox (phase : sandbox_phase)
| CtxNetwork (phase : network_phase)
| CtxRegistry (issue : registry_issue)
| CtxImage (issue : option image_issue)
| CtxPi (operation : pi_operation)
| CtxInternal.

(** The string [code] property of a caught value ([undefined] otherwise). *)
Definition errno_of (error : thrown) : option string :=
  match error with
  | AppError c _ _ => Some (code_string c)
  | Foreign errno _ => errno
  end.

(** src/shared/errors.ts:252-274 filesystemCode *)
Definition filesystemCode (error : thrown) (target : fs_target) : ErrorCode :=
  let errno := errno_of error in
  match target with
  | TargetSession =>
      if bool_decide (errno = Some "ENOENT") then SESSION_FILE_MISSING
      else SESSION_UNAVAILABLE
  | TargetCwd =>
      if bool_decide (errno = Some "ENOENT") then CWD_NOT_FOUND
      else if bool_decide (errno = Some "EACCES") || bool_decide (errno = Some "EPERM")
      then CWD_NOT_ACCESSIBLE
      else INVALID_CWD
  end.

(** src/shared/errors.ts:276-419 contextCode *)
Definition contextCode (error : thrown) (context : ErrorContext) : ErrorCode :=
  match context with
  | CtxValidation (Some VMessageSize) => MESSAGE_TOO_LARGE
  | CtxValidation (Some VPrompt) => INVALID_PROMPT
  | CtxValidation (Some VRevision) => REVISION_GAP
  | CtxValidation _ => INVALID_COMMAND
  | CtxFilesystem target => filesystemCode error target
  | CtxWorkspace WMissing => WORKSPACE_NOT_FOUND
  | CtxWorkspace WName => INVALID_WORKSPACE_NAME
  | CtxWorkspace WPath => INVALID_WORKSPACE_PATH
  | CtxWorkspace WDuplicate => DUPLICATE_WORKSPACE_PATH
  | CtxWorkspace WUnavailable => WORKSPACE_UNAVAILABLE
  | CtxWorkspace WBusy => WORKSPACE_BUSY
  | CtxDatabase => DATABASE_ERROR
  | CtxJob JMissing => JOB_NOT_FOUND
  | CtxJob JInvalid => JOB_INVALID
  | CtxJob JBusy => JOB_BUSY
  | CtxJob JDisabled => JOB_DISABLED
  | CtxJob JAlreadyRunning => JOB_ALREADY_RUNNING
  | CtxJob JScriptRoots => JOB_SCRIPT_ROOTS_UNAVAILABLE
  | CtxJob JScriptInvalid => JOB_SCRIPT_INVALID
  | CtxJob JScriptUnavailable => JOB_SCRIPT_UNAVAILABLE
  | CtxJob JPreRun => JOB_PRE_RUN_FAILED
  | CtxJob JPostRun => JOB_POST_RUN_FAILED
  | CtxJob JHookTimeout => JOB_HOOK_TIMEOUT
  | CtxJob JHookOutput => JOB_HOOK_OUTPUT_LIMIT
  | CtxJob JPrompt => JOB_PROMPT_FAILED
  | CtxJob JAborted => JOB_ABORTED
  | CtxJob JInterrupted => JOB_INTERRUPTED
  | CtxSandbox SConfiguration => SANDBOX_CONFIGURATION_ERROR
  | CtxSandbox SStartup => SANDBOX_UNAVAILABLE
  | CtxSandbox SWorkspaceAdmission => SANDBOX_WORKSPACE_REJECTED
  | CtxSandbox SWorkerStartup => SANDBOX_WORKER_START_FAILED
  | CtxSandbox SFatalWorker => SANDBOX_WORKER_FAILED
  | CtxSandbox SOperation => SANDBOX_OPERATION_FAILED
  | CtxNetwork NConfiguration => NETWORK_POLICY_INVALID
  | CtxNetwork NHelper => NETWORK_HELPER_UNAVAILABLE
  | CtxNetwork NBridge => NETWORK_BRIDGE_START_FAILED
  | CtxNetwork NProxyStartup => NETWORK_PROXY_START_FAILED
  | CtxNetwork NActiveProxy => NETWORK_PROXY_FAILED
  | CtxNetwork NDestinationDenial => NETWORK_DESTINATION_BLOCKED
  | CtxRegistry RMissing => CONVERSATION_NOT_FOUND
  | CtxRegistry RTitle => INVALID_CONVERSATION_TITLE
  | CtxRegistry RBusy => CONVERSATION_BUSY
  | CtxRegistry RForkTarget => INVALID_FORK_TARGET
  | CtxRegistry RForkBusy => FORK_SOURCE_BUSY
  | CtxRegistry RCapacity => LIVE_RUNTIME_LIMIT
  | CtxRegistry RDeleteLive => LIVE_SESSION_DELETE
  | CtxRegistry RNotListed => SESSION_NOT_LISTED
  | CtxRegistry RUnknown => INTERNAL_ERROR
  | CtxImage (Some IUnsupported) => IMAGE_NOT_SUPPORTED
  | CtxImage (Some ITooLarge) => IMAGE_TOO_LARGE
  | CtxImage (Some ITooMany) => TOO_MANY_IMAGES
  | CtxImage (Some IAggregate) => TOTAL_IMAGE_BYTES_EXCEEDED
  | CtxImage _ => INVALID_IMAGE
  | CtxPi PCreate => PI_RUNTIME_CREATE_FAILED
  | CtxPi PReplace => PI_RUNTIME_REPLACE_FAILED
  | CtxPi PModel => MODEL_UNAVAILABLE
  | CtxInternal => INTERNAL_ERROR
  end.

(** src/shared/errors.ts:425-434 toAppError *)
Definition toAppError (error : thrown) (context : ErrorContext) : thrown :=
  match error with
  | AppError _ _ _ => error
  | Foreign _ _ => app_error_cause (contextCode error context) error
  end.

(** src/shared/errors.ts:436-441 ErrorResponse *)
Record ErrorResponse := {
  resp_requestId : option string;
  resp_code : ErrorCode;
  resp_message : string;
}.

(** The [code] and [message] of a thrown value; only an [AppError] has a code. *)
Definition error_code (error : thrown) : option ErrorCode :=
  match error with AppError c _ _ => Some c | Foreign _ _ => None end.
Definition error_message (error : thrown) : string :=
  match error with AppError _ m _ => m | Foreign _ d => d end.

(** src/shared/errors.ts:444-458 toErrorResponse. [toAppError] always yields an
    [AppError], so the default code is never used. *)
Definition toErrorResponse (error : thrown) (context : ErrorContext)
    (requestId : option string) : ErrorResponse :=
  let appError := toAppError error context in
  {| resp_requestId := requestId;
     resp_code := default INTERNAL_ERROR (error_code appError);
     resp_message := error_message appError |}.

(** [error instanceof AppError && error.code === code] *)
Definition is_app_error (c : ErrorCode) (error : thrown) : bool :=
  bool_decide (error_code error = Some c).

(** ** Lemmas *)

Lemma toAppError_app e ctx : is_Some (error_code (toAppError e ctx)).
Proof. destruct e; simpl; eauto. Qed.

Lemma toAppError_idemp e ctx ctx' : toAppError (toAppError e ctx) ctx' = toAppError e ctx.
Proof. by destruct e. Qed.

Lemma is_app_error_app_error c c' : is_app_error c (app_error c') = bool_decide (c' = c).
Proof. unfold is_app_error, app_error. simpl. case_bool_decide; case_bool_decide; congruence. Qed.

(** ** Properties *)

(** The public response never depends on what a boundary failure says:
    two failures that are not [AppError]s and carry the same errno produce the
    same response in every context, its message is the stable default message
    of its code, and an [AppError] passes through with its own code and
    message whatever its cause. *)
Lemma toErrorResponse_no_leak ctx req :
  (∀ errno d d', toErrorResponse (Foreign errno d) ctx req = toErrorResponse (Foreign errno d') ctx req) ∧
  (∀ errno d, ∃ c, toErrorResponse (Foreign errno d) ctx req =
      {| resp_requestId := req; resp_code := c; resp_message := DEFAULT_MESSAGES c |} ∧
      c = contextCode (Foreign errno d) ctx) ∧
  (∀ c m cause, toErrorResponse (AppError c m cause) ctx req =
      {| resp_requestId := req; resp_code := c; resp_message := m |}).
Proof.
  split_and!; [|by intros; eexists|done].
  intros errno d d'. unfold toErrorResponse. simpl.
  assert (contextCode (Foreign errno d) ctx = contextCode (Foreign errno d') ctx) as ->.
  { by destruct ctx as [[[]|]|[]|[]| |[]|[]|[]|[]|[[]|]|[]|]. }
  done.
Qed.

(** The wire strings name the codes: the code list is complete and has no
    duplicate, reading a code's string back gives the code, and so two codes
    with one string are the same code. *)
Lemma error_codes_roundtrip :
  (∀ c, code_of_string (code_string c) = Some c) ∧
  (∀ c, (c, code_string c) ∈ ERROR_CODES) ∧
  NoDup (snd <$> ERROR_CODES) ∧
  (∀ c, DEFAULT_MESSAGES c ≠ "").
Proof.
  split_and!.
  - apply code_of_code_string.
  - intros c. pose proof (code_of_code_string c) as H. unfold code_of_string in H.
    apply fmap_Some in H as ([c' s] & [F E]%find_some & ->).
    apply bool_decide_eq_true in E as <-. by apply list_elem_of_In.
  - apply (bool_decide_unpack _). vm_compute. exact I.
  - by intros [].
Qed.
