(* ===== verification/Revisions.v ===== *)
(** Revision decisions shared by server and browser
    ([src/shared/revisions.ts]): when an incremental event is applied, when a
    snapshot replaces the local projection, and the next revision number. *)
From S2P Require Import Prelude.

(** src/shared/revisions.ts:1-1 EventRevisionDecision *)
Inductive EventRevisionDecision := EvApply | EvIgnore | EvResync.
#[export] Instance EventRevisionDecision_eq : EqDecision EventRevisionDecision.
Proof. solve_decision. Defined.

(** src/shared/revisions.ts:2-2 SnapshotRevisionDecision *)
Inductive SnapshotRevisionDecision := SnReplace | SnIgnore.
#[export] Instance SnapshotRevisionDecision_eq : EqDecision SnapshotRevisionDecision.
Proof. solve_decision. Defined.

(** src/shared/revisions.ts:4-6 isRevision *)
Definition isRevision (value : jsnum) : bool :=
  match value with
  | JInt z => isSafeInteger z && (0 <=? z)
  | JOther => false
  end.

(** The integral value of a number that passed [isRevision]. *)
Definition num_val (n : jsnum) : Z := match n with JInt z => z | JOther => 0 end.

(** src/shared/revisions.ts:15-26 decideEventRevision *)
Definition decideEventRevision (currentRevision incomingRevision : jsnum)
  : EventRevisionDecision :=
  if negb (isRevision currentRevision) || negb (isRevision incomingRevision)
  then EvResync
  else if num_val incomingRevision <=? num_val currentRevision then EvIgnore
  else if num_val incomingRevision =? num_val currentRevision + 1
  then EvApply else EvResync.

(** src/shared/revisions.ts:34-48 decideSnapshotRevision *)
Definition decideSnapshotRevision (currentRevision : option jsnum)
    (incomingRevision : jsnum) : SnapshotRevisionDecision :=
  if negb (isRevision incomingRevision) then SnIgnore
  else match currentRevision with
  | None => SnReplace
  | Some cur =>
      if negb (isRevision cur) || (num_val incomingRevision <? num_val cur)
      then SnIgnore else SnReplace
  end.

(** src/shared/revisions.ts:51-56 nextRevision. The error is the thrown RangeError. *)
Definition nextRevision (currentRevision : jsnum) : result string jsnum :=
  if negb (isRevision currentRevision) || (MAX_SAFE_INTEGER <=? num_val currentRevision)
  then Err "Conversation revision cannot be incremented safely"%string
  else Ok (JInt (num_val currentRevision + 1)).

(** ** Lemmas *)

Lemma isRevision_JInt z : isRevision (JInt z) = true ↔ 0 ≤ z ≤ MAX_SAFE_INTEGER.
Proof.
  unfold isRevision. rewrite andb_true_iff, isSafeInteger_true, Z.leb_le.
  unfold MAX_SAFE_INTEGER. lia.
Qed.

Lemma isRevision_inv n : isRevision n = true → n = JInt (num_val n) ∧ 0 ≤ num_val n ≤ MAX_SAFE_INTEGER.
Proof. destruct n as [z|]; [|done]. rewrite isRevision_JInt. done. Qed.

Lemma decideEventRevision_apply cur inc :
  decideEventRevision cur inc = EvApply ↔
  isRevision cur = true ∧ isRevision inc = true ∧ num_val inc = num_val cur + 1.
Proof.
  unfold decideEventRevision.
  destruct (isRevision cur), (isRevision inc); simpl; try naive_solver.
  destruct (Z.leb_spec (num_val inc) (num_val cur)).
  - split; [done|]. intros (_ & _ & ?). lia.
  - destruct (Z.eqb_spec (num_val inc) (num_val cur + 1)); naive_solver.
Qed.

Lemma decideSnapshotRevision_replace cur inc :
  decideSnapshotRevision (Some cur) inc = SnReplace ↔
  isRevision inc = true ∧ isRevision cur = true ∧ num_val cur ≤ num_val inc.
Proof.
  unfold decideSnapshotRevision.
  destruct (isRevision inc); simpl; [|naive_solver].
  destruct (isRevision cur); simpl; [|naive_solver].
  destruct (Z.ltb_spec (num_val inc) (num_val cur)); simpl; [|naive_solver].
  split; [done|]. intros (_ & _ & ?). lia.
Qed.

Lemma nextRevision_Ok cur n :
  nextRevision cur = Ok n ↔
  isRevision cur = true ∧ num_val cur < MAX_SAFE_INTEGER ∧ n = JInt (num_val cur + 1).
Proof.
  unfold nextRevision. destruct (isRevision cur); simpl; [|naive_solver].
  destruct (Z.leb_spec MAX_SAFE_INTEGER (num_val cur)); [|naive_solver].
  split; [done|]. intros (_ & ? & _). lia.
Qed.

#[export] Hint Rewrite isRevision_JInt decideEventRevision_apply
  decideSnapshotRevision_replace nextRevision_Ok : revisions.

(** ** Properties *)

(** The server's next revision is the one and only revision a client at
    the current revision applies; the event just applied is ignored when
    delivered again, and the one after the next asks for a resync. *)
Lemma nextRevision_is_the_applied_event cur n :
  nextRevision cur = Ok n →
  (∀ inc, decideEventRevision cur inc = EvApply ↔ inc = n) ∧
  decideEventRevision n n = EvIgnore ∧
  (∀ m, nextRevision n = Ok m → decideEventRevision cur m = EvResync).
Proof.
  intros (Hc & Hlt & ->)%nextRevision_Ok.
  pose proof (isRevision_inv _ Hc) as [_ Hr].
  assert (Hn : isRevision (JInt (num_val cur + 1)) = true)
    by (apply isRevision_JInt; lia).
  split_and!.
  - intros inc. rewrite decideEventRevision_apply. split.
    + intros (_ & [Hi _]%isRevision_inv & E). by rewrite Hi, E.
    + intros ->. done.
  - unfold decideEventRevision. rewrite Hn. simpl. by rewrite Z.leb_refl.
  - intros m (_ & Hlt2 & ->)%nextRevision_Ok. cbn [num_val] in *.
    unfold decideEventRevision. rewrite Hc.
    replace (isRevision _) with true; simpl.
    + destruct (Z.leb_spec (num_val cur + 1 + 1) (num_val cur)); [lia|].
      by destruct (Z.eqb_spec (num_val cur + 1 + 1) (num_val cur + 1)); [lia|].
    + symmetry. apply isRevision_JInt. lia.
Qed.

Lemma nextRevision_is_the_applied_event_witness :
  nextRevision (JInt 7) = Ok (JInt 8) ∧ decideEventRevision (JInt 8) (JInt 8) = EvIgnore.
Proof.
  split; [reflexivity|].
  exact (proj1 (proj2 (nextRevision_is_the_applied_event (JInt 7) (JInt 8) eq_refl))).
Defined.
