(* ===== verification/Programs.v ===== *)
(** Asynchronous functions as programs over external calls: a program is a
    finite tree whose nodes are calls and whose branches are their answers,
    together with whatever other tasks did to the shared state while the call
    was awaited. A run resolves the calls against an environment; the logic
    [wp] proves what holds of every run against every environment. Function
    bodies are statements over local and shared variables, which may also
    return early or throw; [spec] is the Hoare logic of statements. *)
From S2P Require Import Prelude.
#[local] Open Scope Z_scope.

Section programs.
Context {C : Type} {ans : C → Type} {W : Type}.

Inductive prog (A : Type) : Type :=
| Ret (a : A)
| Vis (c : C) (k : ans c → W → prog A).
Arguments Ret {A} a.
Arguments Vis {A} c k.

Fixpoint prog_bind {A B} (p : prog A) (f : A → prog B) : prog B :=
  match p with
  | Ret a => f a
  | Vis c k => Vis c (λ r w, prog_bind (k r w) f)
  end.

(** An answered call. *)
Record event := Event { ev_call : C; ev_answer : ans ev_call; ev_world : W }.

(** How the rest of the system answers a call after a history of calls. *)
Definition environment : Type := list event → ∀ c, ans c * W.

(** The result and the calls of a run, oldest first. *)
Fixpoint run_prog {A} (env : environment) (h : list event) (p : prog A) : A * list event :=
  match p with
  | Ret a => (a, h)
  | Vis c k => let '(r, w) := env h c in run_prog env (h ++ [Event c r w]) (k r w)
  end.

(** ** A logic of runs: a ghost state follows the calls *)
Context {G : Type} (allowed : G → C → Prop) (next : G → event → G).

Fixpoint wp {A} (p : prog A) (g : G) (Q : A → G → Prop) : Prop :=
  match p with
  | Ret a => Q a g
  | Vis c k => allowed g c ∧ ∀ r w, wp (k r w) (next g (Event c r w)) Q
  end.

Lemma wp_mono {A} (p : prog A) g (Q Q' : A → G → Prop) :
  (∀ a g', Q a g' → Q' a g') → wp p g Q → wp p g Q'.
Proof.
  intros HQ. revert g. induction p as [a|c k IH]; intros g; cbn; [apply HQ|].
  intros [Ha Hk]. split; [done|]. intros r w. apply IH, Hk.
Qed.

Lemma wp_and {A} (p : prog A) g (Q Q' : A → G → Prop) :
  wp p g Q → wp p g Q' → wp p g (λ a g', Q a g' ∧ Q' a g').
Proof.
  revert g. induction p as [a|c k IH]; intros g; cbn; [done|].
  intros [Ha Hk] [_ Hk']. split; [done|]. intros r w. auto.
Qed.

Lemma wp_bind {A B} (p : prog A) (f : A → prog B) g Q :
  wp p g (λ a g', wp (f a) g' Q) → wp (prog_bind p f) g Q.
Proof.
  revert g. induction p as [a|c k IH]; intros g; cbn; [done|].
  intros [Ha Hk]. split; [done|]. intros r w. apply IH, Hk.
Qed.

(** The ghost state after a history. *)
Definition after_history (g : G) (h : list event) : G := fold_left next h g.

(** Every call of the history was allowed where it was made. *)
Definition respects (g : G) (h : list event) : Prop :=
  ∀ before e rest, h = before ++ e :: rest → allowed (after_history g before) (ev_call e).

Lemma respects_snoc g h e :
  respects g h → allowed (after_history g h) (ev_call e) → respects g (h ++ [e]).
Proof.
  intros Hh He before e' rest E. destruct rest as [|x rest] using rev_ind.
  - apply app_inj_tail in E as [<- <-]. done.
  - rewrite app_comm_cons, app_assoc in E. apply app_inj_tail in E as [-> _]. by eapply Hh.
Qed.

Lemma wp_run {A} (p : prog A) g Q env h :
  respects g h → wp p (after_history g h) Q →
  let '(a, h') := run_prog env h p in
  Q a (after_history g h') ∧ respects g h' ∧ ∃ more, h' = h ++ more.
Proof.
  revert h. induction p as [a|c k IH]; intros h Hh Hwp; cbn in *.
  - split_and!; [done..|]. exists []. by rewrite app_nil_r.
  - destruct Hwp as [Ha Hk]. destruct (env h c) as [r w].
    specialize (IH r w (h ++ [Event c r w])).
    destruct (run_prog env (h ++ [Event c r w]) (k r w)) as [a h'].
    destruct IH as (HQ & Hr & more & ->).
    + by apply respects_snoc.
    + unfold after_history in *. rewrite fold_left_app. cbn. apply Hk.
    + split_and!; [done..|]. exists (Event c r w :: more). by rewrite <-app_assoc.
Qed.
End programs.
Arguments prog {C} ans W A.
Arguments Ret {C ans W A} a.
Arguments Vis {C ans W A} c k.
Arguments event {C} ans W.
Arguments Event {C ans W} _ _ _.
Arguments environment {C} ans W.

(** What is known of every result, whatever the calls, may be added. *)
Lemma wp_with {C} {ans : C → Type} {W A G G'} (allowed : G → C → Prop) (next : G → event ans W → G)
    (allowed' : G' → C → Prop) (next' : G' → event ans W → G') (p : prog ans W A) g g' Q φ :
  wp allowed next p g Q → wp allowed' next' p g' (λ a _, φ a) → wp allowed next p g (λ a g, Q a g ∧ φ a).
Proof.
  revert g g'. induction p as [a|c k IH]; intros g g'; cbn; [done|].
  intros [Ha Hk] [_ Hk']. split; [done|]. intros r w. eapply IH; auto.
Qed.

(** ** Statements *)

(** A statement falls through with a value, returns from the function, or throws. *)
Inductive outcome (R E A : Type) :=
| Next (a : A)
| Return (r : R)
| Throw (e : E).
Arguments Next {R E A} a.
Arguments Return {R E A} r.
Arguments Throw {R E A} e.

(** What other tasks do to the variables [S] while the call [c] is awaited. *)
Class Interference (C W S : Type) := interference_of : C → W → S → S.

Definition stmt {C} (ans : C → Type) (W S R E A : Type) : Type := S → prog ans W (outcome R E A * S).

#[export] Instance stmt_ret {C} {ans : C → Type} {W S R E} : MRet (stmt ans W S R E) :=
  λ A x s, Ret (Next x, s).
#[export] Instance stmt_bind {C} {ans : C → Type} {W S R E} : MBind (stmt ans W S R E) :=
  λ A B f m s, prog_bind (m s) (λ '(o, s'),
    match o with
    | Next x => f x s'
    | Return r => Ret (Return r, s')
    | Throw e => Ret (Throw e, s')
    end).

Section statements.
Context {C : Type} {ans : C → Type} {W S R E : Type} `{!Interference C W S}.
Notation stmt := (stmt ans W S R E).

Definition return_ {A} (r : R) : stmt A := λ s, Ret (Return r, s).
Definition throw_ {A} (e : E) : stmt A := λ s, Ret (Throw e, s).
Definition get_ : stmt S := λ s, Ret (Next s, s).
Definition modify_ (f : S → S) : stmt unit := λ s, Ret (Next tt, f s).
Definition call_ (c : C) : stmt (ans c) := λ s,
  Vis c (λ r w, Ret (Next r, interference_of c w s)).
(** [try { m } catch (error) { handler }] *)
Definition try_ {A} (m : stmt A) (handler : E → stmt A) : stmt A := λ s,
  prog_bind (m s) (λ '(o, s'), match o with Throw e => handler e s' | _ => Ret (o, s') end).
(** [try { m } finally { f }], where [f] only falls through. *)
Definition finally_ {A} (m : stmt A) (f : stmt unit) : stmt A := λ s,
  prog_bind (m s) (λ '(o, s'), prog_bind (f s') (λ '(_, s''), Ret (o, s''))).
(** A value or an exception. *)
Definition lift_ {A} (r : result E A) : stmt A :=
  match r with Ok x => mret x | Err e => throw_ e end.
Definition call_ok (c : C) {A} (f : ans c → result E A) : stmt A :=
  r ← call_ c; lift_ (f r).

(** *** Specifications of statements *)
Context {G : Type} (allowed : G → C → Prop) (next : G → event ans W → G).

(** A statement, started where [P] holds, makes allowed calls only; if it falls
    through, [Q] holds, if it throws, [T], if it returns, [D]. *)
Definition spec_t (D T : S → G → Prop) {A} (P : S → G → Prop) (m : stmt A) (Q : A → S → G → Prop) : Prop :=
  ∀ s g, P s g → wp allowed next (m s) g (λ '(o, s') g',
    match o with Next x => Q x s' g' | Return _ => D s' g' | Throw _ => T s' g' end).

End statements.

Section rules.
Context {C : Type} {ans : C → Type} {W S R E : Type} `{!Interference C W S}.
Notation stmt := (stmt ans W S R E).
Context {G : Type} {allowed : G → C → Prop} {next : G → event ans W → G} {D T : S → G → Prop}.
Notation spec := (spec_t (R := R) (E := E) allowed next D T).

Lemma spec_ret {A} (x : A) (P : S → G → Prop) Q :
  (∀ s g, P s g → Q x s g) → spec P (mret x) Q.
Proof. intros HQ s g HP. cbn. auto. Qed.
Lemma spec_return {A} r (P : S → G → Prop) Q :
  (∀ s g, P s g → D s g) → spec P (return_ r : stmt A) Q.
Proof. intros HQ s g HP. cbn. auto. Qed.
Lemma spec_throw {A} e (P : S → G → Prop) Q :
  (∀ s g, P s g → T s g) → spec P (throw_ e : stmt A) Q.
Proof. intros HQ s g HP. cbn. auto. Qed.
Lemma spec_get (P : S → G → Prop) : spec P get_ (λ x s g, P s g ∧ x = s).
Proof. intros s g HP. cbn. auto. Qed.
Lemma spec_modify f (P : S → G → Prop) (Q : unit → S → G → Prop) :
  (∀ s g, P s g → Q tt (f s) g) → spec P (modify_ f) Q.
Proof. intros HQ s g HP. cbn. auto. Qed.
Lemma spec_bind {A B} (m : stmt A) (k : A → stmt B) P Q Q' :
  spec P m Q → (∀ x, spec (Q x) (k x) Q') → spec P (m ≫= k) Q'.
Proof.
  intros Hs Hk s g HP. unfold mbind, stmt_bind. apply wp_bind.
  eapply wp_mono; [|by apply Hs]. intros [o s'] g'. cbn. destruct o; cbn; [apply Hk|done|done].
Qed.
Lemma spec_weaken {A} (P P' : S → G → Prop) (m : stmt A) (Q Q' : A → S → G → Prop) :
  (∀ s g, P s g → P' s g) → (∀ x s g, Q' x s g → Q x s g) → spec P' m Q' → spec P m Q.
Proof.
  intros HP HQ Hs s g Ha. eapply wp_mono; [|apply Hs; auto]. intros [[x|r|e] s'] g'; auto.
Qed.
Lemma spec_pre {A} (P P' : S → G → Prop) (m : stmt A) Q :
  (∀ s g, P s g → P' s g) → spec P' m Q → spec P m Q.
Proof. intros HP Hs s g Ha. by apply Hs, HP. Qed.
Lemma spec_exists {A X} (P : X → S → G → Prop) (m : stmt A) Q :
  (∀ x, spec (P x) m Q) → spec (λ s g, ∃ x, P x s g) m Q.
Proof. intros HP s g [x Hx]. by apply (HP x). Qed.
Lemma spec_pure {A} (φ : Prop) (P : S → G → Prop) (m : stmt A) Q :
  (φ → spec P m Q) → spec (λ s g, φ ∧ P s g) m Q.
Proof. intros HP s g [Hφ Hx]. by apply (HP Hφ). Qed.
(** One call. *)
Lemma spec_call c (P : S → G → Prop) (Q : ans c → S → G → Prop) :
  (∀ s g, P s g → allowed g c ∧
     ∀ r w, Q r (interference_of c w s) (next g (Event c r w))) →
  spec P (call_ c) Q.
Proof. intros HP s g Ha. cbn. by apply HP. Qed.
End rules.

Lemma spec_try {C} {ans : C → Type} {W S R E G A} {allowed : G → C → Prop} {next : G → event ans W → G}
    {D T T' : S → G → Prop} P (m : stmt ans W S R E A) h Q :
  spec_t allowed next D T P m Q → (∀ e, spec_t allowed next D T' T (h e) Q) →
  spec_t allowed next D T' P (try_ m h) Q.
Proof.
  intros Hs Hh s g HP. unfold try_. apply wp_bind. eapply wp_mono; [|by apply Hs].
  intros [o s'] g'. destruct o; cbn; [done|done|apply Hh].
Qed.
