(* ===== verification/Jobs.v ===== *)
(** Scheduled-job data shared by server and browser ([src/shared/jobs.ts]):
    bounds, enumerations with their wire strings, the record types of
    definitions and attempts, and the name, prompt and timestamp checks. *)
From S2P Require Import Prelude Errors.
#[local] Open Scope string_scope. #[local] Open Scope Z_scope.

(** src/shared/jobs.ts:9-9 JOB_NAME_MIN_LENGTH *)
Definition JOB_NAME_MIN_LENGTH : Z := 1.
(** src/shared/jobs.ts:10-10 JOB_NAME_MAX_LENGTH *)
Definition JOB_NAME_MAX_LENGTH : Z := 200.
(** src/shared/jobs.ts:11-11 JOB_PROMPT_MAX_LENGTH *)
Definition JOB_PROMPT_MAX_LENGTH : Z := 100000.
(** src/shared/jobs.ts:12-12 JOB_SCRIPT_PATH_MAX_LENGTH *)
Definition JOB_SCRIPT_PATH_MAX_LENGTH : Z := 4096.
(** src/shared/jobs.ts:13-13 JOB_INTERVAL_MINUTES_MIN *)
Definition JOB_INTERVAL_MINUTES_MIN : Z := 1.
(** src/shared/jobs.ts:14-14 JOB_INTERVAL_MINUTES_MAX *)
Definition JOB_INTERVAL_MINUTES_MAX : Z := 525600.
(** src/shared/jobs.ts:15-15 JOB_IDENTIFIER_MAX_LENGTH *)
Definition JOB_IDENTIFIER_MAX_LENGTH : Z := 512.

(** The pattern [^(?:[01][0-9]|2[0-3]):[0-5][0-9]$]. *)
(** src/shared/jobs.ts:17-17 JOB_DAILY_TIME_PATTERN *)
Definition daily_time_matches (s : string) : bool :=
  match s with
  | String h1 (String h2 (String c (String m1 (String m2 EmptyString)))) =>
      let in_range lo hi a := (lo <=? unit_code a) && (unit_code a <=? hi) in
      ((in_range 48 49 h1 && is_digit h2) || ((unit_code h1 =? 50) && in_range 48 51 h2))
      && (unit_code c =? 58) && in_range 48 53 m1 && is_digit m2
  | _ => false
  end.

(** src/shared/jobs.ts:48-62 JobScheduleInput *)
Inductive JobScheduleInput :=
| InInterval (intervalMinutes : Z)
| InDaily (localTime timeZone : string).

(** src/shared/jobs.ts:64-79 JobSchedule *)
Inductive JobSchedule :=
| SchInterval (intervalMinutes anchorAt : Z)
| SchDaily (localTime timeZone : string).
#[export] Instance JobSchedule_eq : EqDecision JobSchedule.
Proof. solve_decision. Defined.

(** src/shared/jobs.ts:81-86 JobRunTrigger *)
Inductive JobRunTrigger := Scheduled | Manual | CatchUp.
#[export] Instance JobRunTrigger_eq : EqDecision JobRunTrigger.
Proof. solve_decision. Defined.

(** src/shared/jobs.ts:88-98 JobRunStatus *)
Inductive JobRunStatus :=
| Queued | Running | Succeeded | Failed | Blocked | Skipped | Aborted | Interrupted.
#[export] Instance JobRunStatus_eq : EqDecision JobRunStatus.
Proof. solve_decision. Defined.

(** src/shared/jobs.ts:100-105 JobRunPhase *)
Inductive JobRunPhase := PreHook | PromptPhase | PostHook.
#[export] Instance JobRunPhase_eq : EqDecision JobRunPhase.
Proof. solve_decision. Defined.

(** src/shared/jobs.ts:81-85 trigger_string *)
Definition trigger_string (t : JobRunTrigger) : string :=
  match t with Scheduled => "scheduled" | Manual => "manual" | CatchUp => "catch-up" end.
(** src/shared/jobs.ts:88-97 status_string *)
Definition status_string (s : JobRunStatus) : string :=
  match s with
  | Queued => "queued" | Running => "running" | Succeeded => "succeeded"
  | Failed => "failed" | Blocked => "blocked" | Skipped => "skipped"
  | Aborted => "aborted" | Interrupted => "interrupted"
  end.
(** src/shared/jobs.ts:100-104 phase_string *)
Definition phase_string (p : JobRunPhase) : string :=
  match p with PreHook => "pre-hook" | PromptPhase => "prompt" | PostHook => "post-hook" end.

Definition read_enum {A} (to_string : A → string) (all : list A) (s : string) : option A :=
  find (λ a, bool_decide (to_string a = s)) all.
Definition read_trigger : string → option JobRunTrigger :=
  read_enum trigger_string [Scheduled; Manual; CatchUp].
Definition read_status : string → option JobRunStatus :=
  read_enum status_string
    [Queued; Running; Succeeded; Failed; Blocked; Skipped; Aborted; Interrupted].
Definition read_phase : string → option JobRunPhase :=
  read_enum phase_string [PreHook; PromptPhase; PostHook].

(** src/shared/jobs.ts:127-145 JobRunSummary *)
Record JobRunSummary := {
  rs_id : string;
  rs_jobId : string;
  rs_trigger : JobRunTrigger;
  rs_scheduledFor : Z;
  rs_startedAt : option Z;
  rs_finishedAt : option Z;
  rs_status : JobRunStatus;
  rs_phase : option JobRunPhase;
  rs_errorCode : option ErrorCode;
  rs_errorMessage : option string;
  rs_conversationId : option string;
  rs_revision : Z;
  rs_createdAt : Z;
  rs_updatedAt : Z;
}.

(** src/shared/jobs.ts:147-154 JobConfigurationIssue *)
Record JobConfigurationIssue := { issue_code : ErrorCode; issue_message : string }.

(** src/shared/jobs.ts:176-186 JobRunState *)
Record JobRunState := {
  st_summary :> JobRunSummary;
  st_preExitCode : option Z;
  st_preStdout : option string;
  st_preStderr : option string;
  st_postExitCode : option Z;
  st_postStdout : option string;
  st_postStderr : option string;
  st_conversationAvailable : bool;
}.

(** A schedule as a job summary shows it: a validated one, or the raw columns
    of a row that failed validation, kept inspectable. *)
Inductive ShownSchedule :=
| Valid (s : JobSchedule)
| Raw (v : jsval).

(** src/shared/jobs.ts:156-174 JobSummary *)
Record JobSummary := {
  js_id : string;
  js_name : string;
  js_workspaceId : string;
  js_workspaceName : string;
  js_workspaceAvailable : bool;
  js_prompt : string;
  js_schedule : ShownSchedule;
  js_preRunScript : option string;
  js_postRunScript : option string;
  js_enabled : bool;
  js_nextRunAt : option Z;
  js_createdAt : Z;
  js_updatedAt : Z;
  js_activeRun : option JobRunSummary;
  js_lastRun : option JobRunSummary;
  js_configurationIssue : option JobConfigurationIssue;
}.

(** src/shared/jobs.ts:214-216 isSafeJobTimestamp *)
Definition isSafeJobTimestamp (value : jsval) : bool :=
  match value with
  | VNum (JInt z) => isSafeInteger z && (0 <=? z)
  | _ => false
  end.

(** src/shared/jobs.ts:219-225 normalizeJobName *)
Definition normalizeJobName (value : string) : option string :=
  let normalized := trim value in
  if (JOB_NAME_MIN_LENGTH <=? strlen normalized)
     && (strlen normalized <=? JOB_NAME_MAX_LENGTH)
  then Some normalized else None.

(** src/shared/jobs.ts:227-229 isValidJobPrompt *)
Definition isValidJobPrompt (value : string) : bool :=
  (strlen value <=? JOB_PROMPT_MAX_LENGTH) && has_non_space value.

(** ** Lemmas *)

Definition is_timestamp (z : Z) : Prop := 0 ≤ z ≤ MAX_SAFE_INTEGER.

Lemma isSafeJobTimestamp_JInt z : isSafeJobTimestamp (VNum (JInt z)) = true ↔ is_timestamp z.
Proof.
  unfold isSafeJobTimestamp, is_timestamp.
  rewrite andb_true_iff, isSafeInteger_true, Z.leb_le. unfold MAX_SAFE_INTEGER. lia.
Qed.

Lemma isSafeJobTimestamp_inv v :
  isSafeJobTimestamp v = true → ∃ z, v = VNum (JInt z) ∧ is_timestamp z.
Proof.
  destruct v as [| | |[z|]| |]; try done. rewrite isSafeJobTimestamp_JInt. eauto.
Qed.

Lemma read_status_string s : read_status (status_string s) = Some s.
Proof. by destruct s. Qed.
Lemma read_trigger_string t : read_trigger (trigger_string t) = Some t.
Proof. by destruct t. Qed.
Lemma read_phase_string p : read_phase (phase_string p) = Some p.
Proof. by destruct p. Qed.

Lemma status_string_inj s s' : status_string s = status_string s' → s = s'.
Proof. intros E. apply (f_equal read_status) in E. rewrite !read_status_string in E. congruence. Qed.
Lemma trigger_string_inj t t' : trigger_string t = trigger_string t' → t = t'.
Proof. intros E. apply (f_equal read_trigger) in E. rewrite !read_trigger_string in E. congruence. Qed.

Lemma read_enum_Some {A} (f : A → string) all s a :
  read_enum f all s = Some a → f a = s.
Proof. intros [_ H]%find_some. by apply bool_decide_eq_true in H. Qed.

Lemma normalizeJobName_idemp v n :
  normalizeJobName v = Some n → normalizeJobName n = Some n.
Proof.
  unfold normalizeJobName. intros H. case_match eqn:E; simplify_eq.
  by rewrite trim_idemp, E.
Qed.

#[export] Hint Rewrite read_status_string read_trigger_string read_phase_string
  isSafeJobTimestamp_JInt : jobs.
