(* ===== verification/JobSchedule.v ===== *)
(** Job schedules ([src/server/job-schedule.ts]): validation of untrusted and
    stored schedules, the next occurrence of interval and daily schedules, and
    the occurrence shown in a conversation title.

    Time zone data ([Intl]) and calendar arithmetic ([@js-temporal/polyfill])
    are parameters. Interval arithmetic is exact on [Z]: every double the code
    computes with is an integer it has tested with [Number.isSafeInteger], a
    product or sum beyond 2^53 rounds to a value that is still beyond it, and
    [Math.floor] of the quotient of two such integers is the integer quotient
    (the distance of a non-integral quotient from the integer above it is at
    least 1/divisor, more than half a unit in the last place). *)
From S2P Require Import Prelude Errors Jobs.
#[local] Open Scope string_scope. #[local] Open Scope Z_scope.

(** src/server/job-schedule.ts:14-14 MINUTE_MS *)
Definition MINUTE_MS : Z := 60000.

(** src/server/job-schedule.ts:17-19 invalid *)
Definition invalid (cause : option thrown) : thrown :=
  newAppError JOB_INVALID {| publicMessage := None; causeOption := cause |}.

(** src/server/job-schedule.ts:21-23 requireTimestamp *)
Definition requireTimestamp (value : jsval) : result thrown Z :=
  match value with
  | VNum (JInt z) => if isSafeJobTimestamp value then Ok z else Err (invalid None)
  | _ => Err (invalid None)
  end.

Definition digit_val (a : ascii) : Z := unit_code a - 48.

(** src/server/job-schedule.ts:25-28 parseDailyTime *)
Definition parseDailyTime (localTime : string) : result thrown (Z * Z) :=
  match localTime with
  | String h1 (String h2 (String _ (String m1 (String m2 _)))) =>
      if daily_time_matches localTime
      then Ok (10 * digit_val h1 + digit_val h2, 10 * digit_val m1 + digit_val m2)
      else Err (invalid None)
  | _ => Err (invalid None)
  end.

(** [@js-temporal/polyfill], as the schedule uses it: the local date of an
    instant in a zone, the following date, and the instant (in epoch
    milliseconds) of a local date, hour and minute under the disambiguation
    "compatible". Each call may throw. *)
Class Temporal := {
  PlainDate : Type;
  date_next : PlainDate → result thrown PlainDate;
  toPlainDate : string → Z → result thrown PlainDate;
  zonedFrom : string → PlainDate → Z → Z → result thrown Z;
}.

(** [Intl]: the zones of [supportedValuesOf("timeZone")], and the parts a
    [DateTimeFormat] with the schedule's options gives for an instant. *)
Class IntlData := {
  intl_zones : list string;
  formatToParts : string → Z → result thrown (list (string * string));
}.

(** src/shared/jobs.ts:200-212 isSupportedJobTimeZone *)
Definition isSupportedJobTimeZone `{IntlData} (value : string) : bool :=
  bool_decide (value ∈ "UTC" :: intl_zones).

Section schedule.
Context `{IntlData} `{Temporal}.

(** src/server/job-schedule.ts:31-72 normalizeJobScheduleInput *)
Definition normalizeJobScheduleInput (input : jsval) : result thrown JobScheduleInput :=
  let keys := object_keys input in
  if negb (includes "kind" keys) then Err (invalid None)
  else match get_field "kind" input with
  | VStr "interval" =>
      match get_field "intervalMinutes" input with
      | VNum (JInt m) =>
          if negb (length keys =? 2)%nat || negb (includes "kind" keys)
             || negb (includes "intervalMinutes" keys) || negb (isSafeInteger m)
             || (m <? JOB_INTERVAL_MINUTES_MIN) || (JOB_INTERVAL_MINUTES_MAX <? m)
          then Err (invalid None) else Ok (InInterval m)
      | _ => Err (invalid None)
      end
  | VStr "daily" =>
      match get_field "localTime" input, get_field "timeZone" input with
      | VStr localTime, VStr timeZone =>
          if negb (length keys =? 3)%nat || negb (includes "kind" keys)
             || negb (includes "localTime" keys) || negb (includes "timeZone" keys)
             || negb (daily_time_matches localTime)
             || negb (isSupportedJobTimeZone timeZone)
          then Err (invalid None)
          else match toPlainDate timeZone 0 with
               | Err error => Err (invalid (Some error))
               | Ok _ => Ok (InDaily localTime timeZone)
               end
      | _, _ => Err (invalid None)
      end
  | _ => Err (invalid None)
  end.

(** src/server/job-schedule.ts:75-84 establishJobSchedule *)
Definition establishJobSchedule (input : jsval) (anchorAt : jsval) : result thrown JobSchedule :=
  anchor ← requireTimestamp anchorAt;
  normalized ← normalizeJobScheduleInput input;
  match normalized with
  | InInterval m => Ok (SchInterval m anchor)
  | InDaily t z => Ok (SchDaily t z)
  end.

(** src/server/job-schedule.ts:87-106 normalizeJobSchedule *)
Definition normalizeJobSchedule (schedule : jsval) : result thrown JobSchedule :=
  match schedule with
  | VObj _ =>
      match get_field "kind" schedule with
      | VStr "interval" =>
          let keys := object_keys schedule in
          if negb (length keys =? 3)%nat || negb (includes "kind" keys)
             || negb (includes "intervalMinutes" keys) || negb (includes "anchorAt" keys)
          then Err (invalid None)
          else anchorAt ← requireTimestamp (get_field "anchorAt" schedule);
               input ← normalizeJobScheduleInput
                 (VObj [("kind", VStr "interval");
                        ("intervalMinutes", get_field "intervalMinutes" schedule)]);
               match input with
               | InInterval m => Ok (SchInterval m anchorAt)
               | InDaily _ _ => Err (invalid None)
               end
      | _ =>
          normalized ← normalizeJobScheduleInput schedule;
          match normalized with
          | InDaily t z => Ok (SchDaily t z)
          | InInterval _ => Err (invalid None)
          end
      end
  | _ => Err (invalid None)
  end.

(** src/server/job-schedule.ts:108-112 safeAdd *)
Definition safeAdd (left right : Z) : result thrown Z :=
  let result := left + right in
  if negb (isSafeInteger result) || (result <? 0) then Err (invalid None) else Ok result.

(** src/server/job-schedule.ts:114-130 intervalOccurrenceAfter *)
Definition intervalOccurrenceAfter (intervalMinutes anchorAt after : Z) : result thrown Z :=
  let duration := intervalMinutes * MINUTE_MS in
  if negb (isSafeInteger duration) || (duration <=? 0) then Err (invalid None)
  else if after <? anchorAt then Ok anchorAt
  else
    let elapsed := after - anchorAt in
    if negb (isSafeInteger elapsed) then Err (invalid None)
    else
      let periods := elapsed / duration + 1 in
      if negb (isSafeInteger periods) then Err (invalid None)
      else
        let offset := periods * duration in
        if negb (isSafeInteger offset) then Err (invalid None)
        else safeAdd anchorAt offset.

(** [catch (error) { if (error instanceof AppError) throw error; throw invalid(error); }] *)
Definition catch_invalid {A} (m : result thrown A) : result thrown A :=
  match m with
  | Ok a => Ok a
  | Err (AppError _ _ _ as error) => Err error
  | Err error => Err (invalid (Some error))
  end.

(** src/server/job-schedule.ts:132-177 dailyOccurrenceAfter *)
Definition dailyOccurrenceAfter (localTime timeZone : string) (after : Z) : result thrown Z :=
  '(hour, minute) ← parseDailyTime localTime;
  catch_invalid (
    date ← toPlainDate timeZone after;
    candidate ← zonedFrom timeZone date hour minute;
    candidate ← (if candidate <=? after then
                   date ← date_next date;
                   zonedFrom timeZone date hour minute
                 else Ok candidate);
    requireTimestamp (VNum (JInt candidate))).

(** src/server/job-schedule.ts:180-189 firstJobOccurrenceAfter *)
Definition firstJobOccurrenceAfter (scheduleInput after : jsval) : result thrown Z :=
  after ← requireTimestamp after;
  schedule ← normalizeJobSchedule scheduleInput;
  match schedule with
  | SchInterval m a => intervalOccurrenceAfter m a after
  | SchDaily t z => dailyOccurrenceAfter t z after
  end.

(** src/server/job-schedule.ts:198-209 advanceJobOccurrence *)
Definition advanceJobOccurrence (scheduleInput persistedOccurrence now : jsval)
  : result thrown Z :=
  persisted ← requireTimestamp persistedOccurrence;
  now ← requireTimestamp now;
  firstJobOccurrenceAfter scheduleInput (VNum (JInt (Z.max persisted now))).

End schedule.

(** ** Titles: [Date.prototype.toISOString] and the daily format *)

Fixpoint zeros (n : nat) : string :=
  match n with O => "" | S n => String "0" (zeros n) end.
Definition pad (width : nat) (z : Z) : string :=
  let s := pretty z in zeros (width - String.length s) +:+ s.

(** The proleptic Gregorian date of a day number counted from 1970-01-01. *)
Definition civil_from_days (days : Z) : Z * Z * Z :=
  let z := days + 719468 in
  let era := z / 146097 in
  let doe := z mod 146097 in
  let yoe := (doe - doe / 1460 + doe / 36524 - doe / 146096) / 365 in
  let doy := doe - (365 * yoe + yoe / 4 - yoe / 100) in
  let mp := (5 * doy + 2) / 153 in
  let d := doy - (153 * mp + 2) / 5 + 1 in
  let m := if mp <? 10 then mp + 3 else mp - 9 in
  (yoe + era * 400 + (if m <=? 2 then 1 else 0), m, d).

Definition MAX_DATE_MS : Z := 8640000000000000.

(** [new Date(ms).toISOString()] for a non-negative [ms]. *)
Definition toISOString (ms : Z) : result thrown string :=
  if MAX_DATE_MS <? ms then Err (Foreign None "Invalid time value")
  else
    let '(y, m, d) := civil_from_days (ms / 86400000) in
    let r := ms mod 86400000 in
    let year := if y <=? 9999 then pad 4 y else "+" +:+ pad 6 y in
    Ok (year +:+ "-" +:+ pad 2 m +:+ "-" +:+ pad 2 d +:+ "T"
        +:+ pad 2 (r / 3600000) +:+ ":" +:+ pad 2 (r / 60000 mod 60) +:+ ":"
        +:+ pad 2 (r / 1000 mod 60) +:+ "." +:+ pad 3 (r mod 1000) +:+ "Z").

(** src/server/job-schedule.ts:211-218 partsRecord. Of two parts with one type the later wins. *)
Definition partsRecord (parts : list (string * string)) (k : string) : option string :=
  snd <$> last (filter (λ p, p.1 = k) parts).

Section format.
Context `{IntlData} `{Temporal}.

(** src/server/job-schedule.ts:221-258 formatJobScheduledInstant *)
Definition formatJobScheduledInstant (scheduleInput scheduledFor : jsval)
  : result thrown string :=
  scheduledFor ← requireTimestamp scheduledFor;
  schedule ← normalizeJobSchedule scheduleInput;
  match schedule with
  | SchInterval _ _ =>
      match toISOString scheduledFor with
      | Ok iso => Ok (replace_first ".000Z" "Z" iso)
      | Err error => Err (invalid (Some error))
      end
  | SchDaily _ timeZone =>
      match formatToParts timeZone scheduledFor with
      | Err error => Err (invalid (Some error))
      | Ok ps =>
          let parts := partsRecord ps in
          match parts "year", parts "month", parts "day", parts "hour",
                parts "minute", parts "timeZoneName" with
          | Some year, Some month, Some day, Some hour, Some minute, Some zone =>
              Ok (year +:+ "-" +:+ month +:+ "-" +:+ day +:+ " " +:+ hour +:+ ":"
                  +:+ minute +:+ " " +:+ zone)
          | _, _, _, _, _, _ =>
              Err (invalid (Some (Foreign None "Incomplete date-time format")))
          end
      end
  end.

(** src/server/job-schedule.ts:268-274 formatJobConversationTitle. The dash is written as its UTF-8 bytes. *)
Definition formatJobConversationTitle (jobName : string) (schedule scheduledFor : jsval)
  : result thrown string :=
  instant ← formatJobScheduledInstant schedule scheduledFor;
  Ok ("[Job] " +:+ jobName +:+ " — " +:+ instant).

End format.

(** ** Lemmas *)

(** The object a typed schedule is. *)
Definition schedule_value (s : JobSchedule) : jsval :=
  match s with
  | SchInterval m a => VObj [("kind", VStr "interval"); ("intervalMinutes", VNum (JInt m));
                             ("anchorAt", VNum (JInt a))]
  | SchDaily t z => VObj [("kind", VStr "daily"); ("localTime", VStr t); ("timeZone", VStr z)]
  end.
Definition input_value (s : JobScheduleInput) : jsval :=
  match s with
  | InInterval m => VObj [("kind", VStr "interval"); ("intervalMinutes", VNum (JInt m))]
  | InDaily t z => VObj [("kind", VStr "daily"); ("localTime", VStr t); ("timeZone", VStr z)]
  end.

Section lemmas.
Context `{IntlData} `{Temporal}.

Definition valid_interval (m : Z) : Prop := JOB_INTERVAL_MINUTES_MIN ≤ m ≤ JOB_INTERVAL_MINUTES_MAX.
Definition valid_daily (t z : string) : Prop :=
  daily_time_matches t = true ∧ isSupportedJobTimeZone z = true ∧ is_ok (toPlainDate z 0) = true.
Definition valid_input (s : JobScheduleInput) : Prop :=
  match s with InInterval m => valid_interval m | InDaily t z => valid_daily t z end.
Definition valid_schedule (s : JobSchedule) : Prop :=
  match s with SchInterval m a => valid_interval m ∧ is_timestamp a | SchDaily t z => valid_daily t z end.

Lemma requireTimestamp_JInt z : is_timestamp z → requireTimestamp (VNum (JInt z)) = Ok z.
Proof. intros Hz. unfold requireTimestamp. by rewrite (proj2 (isSafeJobTimestamp_JInt z) Hz). Qed.

Lemma requireTimestamp_Ok v z :
  requireTimestamp v = Ok z → v = VNum (JInt z) ∧ is_timestamp z.
Proof.
  unfold requireTimestamp. destruct v as [| | |[x|]| |]; try done.
  case_match eqn:E; [|done]. intros [= ->]. by apply isSafeJobTimestamp_JInt in E.
Qed.

Lemma requireTimestamp_Err v e : requireTimestamp v = Err e → error_code e = Some JOB_INVALID.
Proof. unfold requireTimestamp. repeat case_match; naive_solver. Qed.

(** What input validation accepts: exactly the valid inputs, and it returns them. *)
Lemma normalizeJobScheduleInput_Ok v s :
  normalizeJobScheduleInput v = Ok s → valid_input s.
Proof.
  unfold normalizeJobScheduleInput. destruct (includes "kind" _); simpl; [|done].
  destruct (get_field "kind" v) as [| | | |k|]; try done.
  repeat case_match; try done; intros; simplify_eq; breflect; simpl.
  - split; lia.
  - unfold valid_daily, is_ok. repeat split; try done.
    by match goal with E : toPlainDate _ _ = Ok _ |- _ => rewrite E end.
Qed.

Lemma normalizeJobScheduleInput_value s :
  valid_input s → normalizeJobScheduleInput (input_value s) = Ok s.
Proof.
  destruct s as [m|t z]; unfold normalizeJobScheduleInput; cbn.
  - intros [Hlo Hhi]. unfold JOB_INTERVAL_MINUTES_MIN, JOB_INTERVAL_MINUTES_MAX in *.
    replace (isSafeInteger m) with true
      by (symmetry; apply isSafeInteger_true; unfold MAX_SAFE_INTEGER; lia).
    destruct (Z.ltb_spec m 1); [lia|]. by destruct (Z.ltb_spec 525600 m); [lia|].
  - intros (-> & -> & Hz). cbn. destruct (toPlainDate z 0); [done|discriminate].
Qed.

Lemma normalizeJobSchedule_Ok v s : normalizeJobSchedule v = Ok s → valid_schedule s.
Proof.
  unfold normalizeJobSchedule. destruct v as [| | | | |fs]; try done.
  assert (Hd : (normalized ← normalizeJobScheduleInput (VObj fs);
                match normalized with InDaily t z => Ok (SchDaily t z)
                | InInterval _ => Err (invalid None) end) = Ok s → valid_schedule s).
  { intros Hs. inv_bind Hs. destruct a; simplify_eq.
    by apply normalizeJobScheduleInput_Ok in Ha. }
  destruct (get_field "kind" (VObj fs)) as [| | | |k|]; try exact Hd.
  destruct (decide (k = "interval")) as [->|Hk].
  - case_match; [done|]. intros Hs. inv_bind Hs.
    apply requireTimestamp_Ok in Ha as [_ ?].
    apply normalizeJobScheduleInput_Ok in Ha0. destruct a0; by simplify_eq.
  - intros Hs. apply Hd. revert Hs. repeat (case_match; try done).
Qed.

Lemma normalizeJobSchedule_value s :
  valid_schedule s → normalizeJobSchedule (schedule_value s) = Ok s.
Proof.
  destruct s as [m a|t z].
  - intros [Hm Ha]. unfold normalizeJobSchedule, schedule_value. cbn -[requireTimestamp normalizeJobScheduleInput].
    rewrite (requireTimestamp_JInt _ Ha). cbn -[normalizeJobScheduleInput].
    pose proof (normalizeJobScheduleInput_value (InInterval m) Hm) as E. cbn -[normalizeJobScheduleInput] in E.
    by rewrite E.
  - intros Hv. pose proof (normalizeJobScheduleInput_value (InDaily t z) Hv) as E.
    unfold normalizeJobSchedule, schedule_value. cbn -[normalizeJobScheduleInput] in *.
    by rewrite E.
Qed.

Lemma establishJobSchedule_valid input anchor s :
  establishJobSchedule input anchor = Ok s → valid_schedule s.
Proof.
  unfold establishJobSchedule. intros Hs. inv_bind Hs.
  apply requireTimestamp_Ok in Ha as [_ ?]. apply normalizeJobScheduleInput_Ok in Ha0.
  destruct a0; simplify_eq; done.
Qed.

(** *** Interval occurrences *)

(** The [k]-th occurrence of an interval schedule. *)
Definition interval_occurrence (m a : Z) (k : nat) : Z := a + Z.of_nat k * (m * MINUTE_MS).

(** The first occurrence strictly after an instant, as a closed formula. *)
Definition interval_first_after (m a after : Z) : Z :=
  if after <? a then a else a + ((after - a) / (m * MINUTE_MS) + 1) * (m * MINUTE_MS).

Lemma interval_first_after_least m a after :
  0 < m →
  let r := interval_first_after m a after in
  after < r ∧ (∃ k, r = interval_occurrence m a k) ∧
  (∀ k, after < interval_occurrence m a k → r ≤ interval_occurrence m a k).
Proof.
  intros Hm. unfold interval_first_after, interval_occurrence.
  set (d := m * MINUTE_MS). assert (Hd : 0 < d) by (unfold d, MINUTE_MS; lia).
  destruct (Z.ltb_spec after a) as [Hlt|Hge].
  - split_and!; [done|exists O; lia|]. intros k _. nia.
  - pose proof (Z.div_mod (after - a) d ltac:(lia)) as E.
    pose proof (Z.mod_pos_bound (after - a) d Hd) as B.
    assert (Hq : 0 ≤ (after - a) / d) by (apply Z.div_pos; lia).
    set (q := (after - a) / d) in *. split_and!; [nia| |].
    + exists (Z.to_nat (q + 1)). rewrite Z2Nat.id by lia. done.
    + intros k Hk. assert (q < Z.of_nat k) by nia. nia.
Qed.

Lemma intervalOccurrenceAfter_eq m a after :
  valid_interval m → is_timestamp a → is_timestamp after →
  intervalOccurrenceAfter m a after =
    if interval_first_after m a after <=? MAX_SAFE_INTEGER
    then Ok (interval_first_after m a after) else Err (invalid None).
Proof.
  intros [Hlo Hhi] [Ha0 Ha1] [Hf0 Hf1].
  unfold JOB_INTERVAL_MINUTES_MIN, JOB_INTERVAL_MINUTES_MAX in *.
  unfold intervalOccurrenceAfter, interval_first_after, safeAdd, isSafeInteger.
  set (d := m * MINUTE_MS).
  assert (Hd : 60000 ≤ d ≤ 31536000000) by (unfold d, MINUTE_MS; lia).
  unfold MAX_SAFE_INTEGER in *.
  destruct (Z.leb_spec (Z.abs d) 9007199254740991) as [_|]; [|lia].
  destruct (Z.leb_spec d 0) as [|_]; [lia|]. cbn [negb orb].
  destruct (Z.ltb_spec after a) as [Hlt|Hge].
  { destruct (Z.leb_spec a 9007199254740991); [done|lia]. }
  destruct (Z.leb_spec (Z.abs (after - a)) 9007199254740991) as [_|]; [|lia]. cbn [negb].
  pose proof (Z.div_mod (after - a) d ltac:(lia)) as E.
  pose proof (Z.mod_pos_bound (after - a) d ltac:(lia)) as B.
  assert (Hq : 0 ≤ (after - a) / d) by (apply Z.div_pos; lia).
  set (q := (after - a) / d) in *.
  destruct (Z.leb_spec (Z.abs (q + 1)) 9007199254740991) as [_|Hbig]; [|nia]. cbn [negb].
  destruct (Z.leb_spec (Z.abs ((q + 1) * d)) 9007199254740991) as [_|Hbig]; cbn [negb].
  - destruct (Z.leb_spec (Z.abs (a + (q + 1) * d)) 9007199254740991); cbn [negb orb].
    + destruct (Z.ltb_spec (a + (q + 1) * d) 0); [nia|].
      destruct (Z.leb_spec (a + (q + 1) * d) 9007199254740991); [done|lia].
    + destruct (Z.leb_spec (a + (q + 1) * d) 9007199254740991); [nia|done].
  - destruct (Z.leb_spec (a + (q + 1) * d) 9007199254740991); [nia|done].
Qed.
End lemmas.

(** *** Daily occurrences *)

(** The documented behaviour of the calendar the daily schedule relies on: the
    following date is one day later; and under "compatible" a local time that
    a clock change skips is moved forward, so the instant chosen is never dated
    before the requested date. Nothing is assumed about the local dates of
    successive instants: clocks may go back over midnight, and both sample
    zones below satisfy the laws. *)
Class TemporalLaws `{Temporal} := {
  day : PlainDate → Z;
  date_next_day d d' : date_next d = Ok d' → day d' = day d + 1;
  zonedFrom_dated z d h m t :
    0 ≤ h ≤ 23 → 0 ≤ m ≤ 59 → zonedFrom z d h m = Ok t → ∃ d', toPlainDate z t = Ok d' ∧ day d ≤ day d';
}.

Lemma catch_invalid_Ok {A} (m : result thrown A) a : catch_invalid m = Ok a ↔ m = Ok a.
Proof. unfold catch_invalid. destruct m as [|[]]; naive_solver. Qed.

(** What a returned daily occurrence is: the scheduled local time of the
    instant's own local date, or, when that is not after the instant, of the
    following date. *)
Lemma dailyOccurrenceAfter_Ok `{Temporal} lt z after r :
  dailyOccurrenceAfter lt z after = Ok r →
  ∃ h m d date, parseDailyTime lt = Ok (h, m) ∧ toPlainDate z after = Ok d ∧
    is_timestamp r ∧ zonedFrom z date h m = Ok r ∧
    (date = d ∧ after < r ∨
     date_next d = Ok date ∧ ∃ c, zonedFrom z d h m = Ok c ∧ c ≤ after).
Proof.
  unfold dailyOccurrenceAfter. intros Hr. inv_bind Hr. destruct a as [h m].
  apply (proj1 (catch_invalid_Ok _ _)) in Hr. inv_bind Hr.
  apply requireTimestamp_Ok in Hr as [[= ->] Ht].
  exists h, m, a. destruct (Z.leb_spec a0 after).
  - inv_bind Ha2. exists a1. naive_solver.
  - simplify_eq. exists a. naive_solver.
Qed.

Lemma parseDailyTime_range lt h m :
  parseDailyTime lt = Ok (h, m) → 0 ≤ h ≤ 23 ∧ 0 ≤ m ≤ 59.
Proof.
  unfold parseDailyTime. repeat (case_match; try done). intros [= <- <-].
  match goal with E : daily_time_matches _ = true |- _ => revert E end.
  unfold daily_time_matches, is_digit, digit_val.
  match goal with |- context [match ?s with EmptyString => _ | _ => _ end] => destruct s; [|done] end.
  repeat rewrite ?andb_true_iff, ?orb_true_iff, ?Z.leb_le, ?Z.eqb_eq. lia.
Qed.

(** Between the two instants the local calendar of a daily schedule's zone
    went back to an earlier date. *)
Definition calendar_went_back `{TemporalLaws} (schedule : JobSchedule) (earlier later : Z) : Prop :=
  match schedule with
  | SchInterval _ _ => False
  | SchDaily _ z =>
      earlier ≤ later ∧
      ∃ d d', toPlainDate z earlier = Ok d ∧ toPlainDate z later = Ok d' ∧ day d' < day d
  end.

Lemma dailyOccurrenceAfter_gt `{TemporalLaws} lt z after r :
  dailyOccurrenceAfter lt z after = Ok r →
  after < r ∨ calendar_went_back (SchDaily lt z) r after.
Proof.
  intros (h & m & d & date & Hp & Hd & _ & Hr & [[_ ?]|[Hn _]])%dailyOccurrenceAfter_Ok; [by left|].
  apply parseDailyTime_range in Hp as [Hh Hm].
  destruct (zonedFrom_dated _ _ _ _ _ Hh Hm Hr) as (d' & Hd' & Hle).
  apply date_next_day in Hn. destruct (Z.lt_ge_cases after r) as [|Hge]; [by left|right].
  split; [done|]. exists d', d. split_and!; (done || lia).
Qed.

(** Every schedule's next occurrence is a timestamp, and after the instant
    unless the zone's clock went back over midnight in between. *)
Lemma firstJobOccurrenceAfter_gt `{IntlData} `{TemporalLaws} v after r :
  firstJobOccurrenceAfter v (VNum (JInt after)) = Ok r →
  ∃ s, normalizeJobSchedule v = Ok s ∧ is_timestamp r ∧ (after < r ∨ calendar_went_back s r after).
Proof.
  unfold firstJobOccurrenceAfter. intros Hr. inv_bind Hr.
  apply requireTimestamp_Ok in Ha as [[= <-] Ht].
  exists a0. split; [done|].
  apply normalizeJobSchedule_Ok in Ha0. destruct a0 as [m a|lt z].
  - destruct Ha0 as [Hm Ha]. rewrite intervalOccurrenceAfter_eq in Hr by done.
    assert (Hm0 : 0 < m) by (unfold valid_interval, JOB_INTERVAL_MINUTES_MIN in Hm; lia).
    destruct (interval_first_after_least m a after Hm0) as (Hgt & _ & _).
    case_match eqn:E; simplify_eq. apply Z.leb_le in E. unfold is_timestamp in *.
    split; [lia|left; lia].
  - split; [by apply dailyOccurrenceAfter_Ok in Hr as (? & ? & ? & ? & _ & _ & ? & _)|].
    by eapply dailyOccurrenceAfter_gt.
Qed.

Lemma advanceJobOccurrence_gt `{IntlData} `{TemporalLaws} v persisted now r :
  advanceJobOccurrence v (VNum (JInt persisted)) (VNum (JInt now)) = Ok r →
  is_timestamp now ∧ is_timestamp r ∧
  ∃ s, normalizeJobSchedule v = Ok s ∧
    (persisted < r ∧ now < r ∨ calendar_went_back s r (persisted `max` now)).
Proof.
  unfold advanceJobOccurrence. intros Hr. inv_bind Hr.
  apply requireTimestamp_Ok in Ha as [[= <-] _], Ha0 as [[= <-] ?].
  apply firstJobOccurrenceAfter_gt in Hr as (s & Hs & ? & Hgt). split_and!; [done..|].
  exists s. split; [done|]. destruct Hgt; [left; lia|by right].
Qed.

(** A zone with one clock change: offset [off1] before the instant [change],
    [off2] from it on (milliseconds), with the "compatible" disambiguation:
    the earlier of two readings, and the offset before the change in a gap. *)
Module OneChange.
Definition local (off1 off2 change t : Z) : Z := t + (if t <? change then off1 else off2).
Definition resolve (off1 off2 change l : Z) : Z :=
  if l - off1 <? change then l - off1
  else if change <=? l - off2 then l - off2 else l - off1.
Definition temporal (off1 off2 change : Z) : Temporal := {|
  PlainDate := Z;
  date_next d := Ok (d + 1);
  toPlainDate _ t := Ok (local off1 off2 change t / 86400000);
  zonedFrom _ d h m :=
    Ok (resolve off1 off2 change (d * 86400000 + h * 3600000 + m * 60000));
|}.
Definition utc : Temporal := temporal 0 0 0.
(** America/St_Johns, 2010-11-07: 00:01 daylight time (UTC-2:30) went back
    to 23:01 standard time (UTC-3:30) of the previous day. *)
Definition st_johns_2010 : Temporal := temporal (-9000000) (-12600000) 1289097060000.
End OneChange.

(** The laws hold in UTC, for the hours and minutes the pattern admits. *)
Lemma utc_resolve l : OneChange.resolve 0 0 0 l = l.
Proof. unfold OneChange.resolve. repeat case_match; lia. Qed.
Lemma utc_local t : OneChange.local 0 0 0 t = t.
Proof. unfold OneChange.local. case_match; lia. Qed.

Definition utc_laws : @TemporalLaws OneChange.utc.
Proof.
  refine {| day := (λ d, d) : @PlainDate OneChange.utc → Z |}; simpl.
  - by intros d d' [= <-].
  - intros _ d h m t Hh Hm [= <-]. rewrite utc_resolve. eexists. split; [done|].
    rewrite utc_local. apply Z.div_le_lower_bound; lia.
Defined.

(** They hold in America/St_Johns as well, where the date goes back. *)
Definition st_johns_laws : @TemporalLaws OneChange.st_johns_2010.
Proof.
  refine {| day := (λ d, d) : @PlainDate OneChange.st_johns_2010 → Z |}; simpl.
  - by intros d d' [= <-].
  - intros _ d h m t Hh Hm [= <-]. eexists. split; [done|].
    apply Z.div_le_lower_bound; [lia|].
    unfold OneChange.local, OneChange.resolve. repeat case_match; lia.
Defined.

(** ** Properties *)

(** For a valid interval schedule and a valid instant, the next occurrence
    is strictly after the instant, lies on the anchor's grid and is the least
    such point; and the computation fails, with [job_invalid], exactly when
    every later grid point exceeds the largest safe timestamp. *)
Lemma interval_next_occurrence `{IntlData} `{Temporal} m a after :
  valid_schedule (SchInterval m a) → is_timestamp after →
  match firstJobOccurrenceAfter (schedule_value (SchInterval m a)) (VNum (JInt after)) with
  | Ok r => after < r ≤ MAX_SAFE_INTEGER ∧ (∃ k, r = interval_occurrence m a k) ∧
            (∀ k, after < interval_occurrence m a k → r ≤ interval_occurrence m a k)
  | Err e => error_code e = Some JOB_INVALID ∧
             (∀ k, after < interval_occurrence m a k → MAX_SAFE_INTEGER < interval_occurrence m a k)
  end.
Proof.
  intros [Hm Ha] Hf. unfold firstJobOccurrenceAfter.
  rewrite requireTimestamp_JInt by done. cbn -[normalizeJobSchedule schedule_value].
  rewrite normalizeJobSchedule_value by done. cbn -[intervalOccurrenceAfter].
  rewrite intervalOccurrenceAfter_eq by done.
  assert (Hm0 : 0 < m) by (unfold valid_interval, JOB_INTERVAL_MINUTES_MIN in Hm; lia).
  destruct (interval_first_after_least m a after Hm0) as (Hgt & Hex & Hleast).
  destruct (Z.leb_spec (interval_first_after m a after) MAX_SAFE_INTEGER).
  - split_and!; done.
  - split; [done|]. intros k Hk. apply Hleast in Hk. lia.
Qed.

Lemma interval_next_occurrence_witness :
  let I := {| intl_zones := []; formatToParts := λ _ _, Ok [] |} in
  @firstJobOccurrenceAfter I OneChange.utc (schedule_value (SchInterval 5 1000)) (VNum (JInt 700000))
    = Ok 901000 ∧ 700000 < 901000 ≤ MAX_SAFE_INTEGER.
Proof.
  intros I. split; [vm_compute; reflexivity|].
  assert (Hv : @valid_schedule I OneChange.utc (SchInterval 5 1000)) by (vm_compute; intuition congruence).
  assert (Hf : is_timestamp 700000) by (vm_compute; intuition congruence).
  exact (proj1 (@interval_next_occurrence I OneChange.utc 5 1000 700000 Hv Hf)).
Defined.

(** A daily schedule fires strictly after the instant it is asked about,
    unless the zone's clock went back over midnight in between, at its own
    hour and minute of the instant's local date, or of the following date
    exactly when the former is already past. *)
Lemma daily_next_occurrence `{IntlData} `{TemporalLaws} t z after r :
  firstJobOccurrenceAfter (schedule_value (SchDaily t z)) (VNum (JInt after)) = Ok r →
  r ≤ MAX_SAFE_INTEGER ∧ (after < r ∨ calendar_went_back (SchDaily t z) r after) ∧
  ∃ h m d date, parseDailyTime t = Ok (h, m) ∧ 0 ≤ h ≤ 23 ∧ 0 ≤ m ≤ 59 ∧
    toPlainDate z after = Ok d ∧ zonedFrom z date h m = Ok r ∧
    (date = d ∨ date_next d = Ok date ∧ ∃ c, zonedFrom z d h m = Ok c ∧ c ≤ after).
Proof.
  unfold firstJobOccurrenceAfter. intros Hr. inv_bind Hr.
  apply requireTimestamp_Ok in Ha as [[= <-] _].
  assert (Hs : a0 = SchDaily t z).
  { pose proof (normalizeJobSchedule_Ok _ _ Ha0) as Hv.
    revert Ha0. unfold normalizeJobSchedule, schedule_value.
    cbn -[normalizeJobScheduleInput]. intros Hn. inv_bind Hn.
    pose proof (normalizeJobScheduleInput_Ok _ _ Ha) as Hi.
    destruct a as [?|t' z']; simplify_eq. rename Ha into Hn.
    revert Hn. unfold normalizeJobScheduleInput. cbn.
    repeat (case_match; try done). intros [= -> ->]. done. }
  subst a0. pose proof (dailyOccurrenceAfter_gt _ _ _ _ Hr).
  apply dailyOccurrenceAfter_Ok in Hr as (h & m & d & date & Hp & Hd & [_ Hmax] & Hz & Hc).
  destruct (parseDailyTime_range _ _ _ Hp).
  split; [done|]. split; [done|]. exists h, m, d, date. split_and!; try lia; try done.
  destruct Hc as [[-> _]|?]; auto.
Qed.

Lemma daily_next_occurrence_witness :
  let I := {| intl_zones := []; formatToParts := λ _ _, Ok [] |} in
  @firstJobOccurrenceAfter I OneChange.utc (schedule_value (SchDaily "09:30" "UTC"))
    (VNum (JInt 86400000)) = Ok 120600000 ∧ 120600000 ≤ MAX_SAFE_INTEGER.
Proof.
  intros I. split; [vm_compute; reflexivity|].
  exact (proj1 (@daily_next_occurrence I OneChange.utc utc_laws "09:30" "UTC" 86400000 120600000
    ltac:(vm_compute; reflexivity))).
Defined.

(** The exception is real: in
    America/St_Johns on 2010-11-07 (00:01 went back to 23:01 of the previous
    day) a job due at 00:00, asked at the second 23:30, is given 00:00 of the
    first pass, thirty minutes in the past; its occurrence stays due. The laws
    hold in that zone, so this is the second case of the lemma above. *)
Lemma daily_occurrence_in_the_past :
  ∃ after r, @dailyOccurrenceAfter OneChange.st_johns_2010 "00:00" "America/St_Johns" after = Ok r ∧
    r < after ∧ @calendar_went_back _ st_johns_laws (SchDaily "00:00" "America/St_Johns") r after ∧
    @dailyOccurrenceAfter OneChange.st_johns_2010 "00:00" "America/St_Johns" r = Ok (r + 90000000).
Proof.
  exists 1289098800000, 1289097000000. split_and!; [vm_compute; reflexivity|lia| |vm_compute; reflexivity].
  split; [lia|]. exists 14920, 14919. split_and!; vm_compute; reflexivity.
Qed.

(** Validation of schedules is sound, complete and idempotent: what it
    accepts is within the bounds, every schedule within the bounds is accepted
    as it is when read back, and the server-anchored schedule made from an
    accepted input is one of those. *)
Lemma schedule_validation_roundtrip `{IntlData} `{Temporal} :
  (∀ v s, normalizeJobSchedule v = Ok s →
     valid_schedule s ∧ normalizeJobSchedule (schedule_value s) = Ok s) ∧
  (∀ i, valid_input i → normalizeJobScheduleInput (input_value i) = Ok i) ∧
  (∀ v a s, establishJobSchedule v a = Ok s → normalizeJobSchedule (schedule_value s) = Ok s) ∧
  (∀ v, (∀ fs, v ≠ VObj fs) → is_ok (normalizeJobSchedule v) = false
                              ∧ is_ok (normalizeJobScheduleInput v) = false).
Proof.
  split_and!.
  - intros v s Hs%normalizeJobSchedule_Ok. auto using normalizeJobSchedule_value.
  - apply normalizeJobScheduleInput_value.
  - intros v a s Hs%establishJobSchedule_valid. by apply normalizeJobSchedule_value.
  - intros v Hv. destruct v as [| | | | |fs]; [done..|]. by destruct (Hv fs).
Qed.

(** A claimed interval occurrence advances directly past both the
    persisted occurrence and the current time, to the first grid point after
    the later of the two, however long the run or the outage was. *)
Lemma advance_skips_missed_occurrences `{IntlData} `{Temporal} m a persisted now r :
  valid_schedule (SchInterval m a) →
  advanceJobOccurrence (schedule_value (SchInterval m a)) (VNum (JInt persisted)) (VNum (JInt now)) = Ok r →
  persisted < r ∧ now < r ∧ (∃ k, r = interval_occurrence m a k) ∧
  (∀ k, persisted < interval_occurrence m a k → now < interval_occurrence m a k →
        r ≤ interval_occurrence m a k).
Proof.
  intros [Hm Ha] Hr. unfold advanceJobOccurrence in Hr. inv_bind Hr.
  apply requireTimestamp_Ok in Ha0 as [[= <-] [Hp0 Hp1]].
  apply requireTimestamp_Ok in Ha1 as [[= <-] [Hn0 Hn1]].
  unfold firstJobOccurrenceAfter in Hr.
  rewrite requireTimestamp_JInt in Hr by (split; lia).
  cbn -[normalizeJobSchedule schedule_value] in Hr.
  rewrite normalizeJobSchedule_value in Hr by done. cbn -[intervalOccurrenceAfter] in Hr.
  rewrite intervalOccurrenceAfter_eq in Hr by (done || split; lia).
  case_match; simplify_eq.
  assert (Hm0 : 0 < m) by (unfold valid_interval, JOB_INTERVAL_MINUTES_MIN in Hm; lia).
  destruct (interval_first_after_least m a (Z.max persisted now) Hm0) as (Hgt & Hex & Hleast).
  split_and!; [lia|lia|done|]. intros k Hk1 Hk2. apply Hleast. lia.
Qed.

Lemma advance_skips_missed_occurrences_witness :
  let I := {| intl_zones := []; formatToParts := λ _ _, Ok [] |} in
  60000 < 10020000 ∧
  @advanceJobOccurrence I OneChange.utc (schedule_value (SchInterval 1 0))
    (VNum (JInt 60000)) (VNum (JInt 9999999)) = Ok 10020000.
Proof.
  intros I. split; [|vm_compute; reflexivity].
  exact (proj1 (@advance_skips_missed_occurrences I OneChange.utc 1 0 60000 9999999 10020000
    ltac:(vm_compute; intuition congruence) ltac:(vm_compute; reflexivity))).
Defined.
