(* ===== verification/JobStore.v ===== *)
(** The SQLite schema of jobs and attempts ([src/server/database.ts]) and the
    prepared statements of the job repository ([src/server/job-repository.ts]):
    the tables as finite maps from primary keys to rows, the CHECK, UNIQUE and
    REFERENCES constraints as boolean functions, each statement as a function
    on the database that either changes it or fails with a constraint error.

    Text comparison is SQLite's binary collation; [length] counts the
    characters before the first NUL and [trim] removes spaces only. *)
From S2P Require Import Prelude Errors Jobs.
#[local] Open Scope string_scope. #[local] Open Scope Z_scope.

(** src/server/job-repository.ts:43-60 JobRow. The joined column [workspace_name] is read from the workspaces table. *)
Record JobRow := MkJobRow {
  jr_id : string;
  jr_name : string;
  jr_workspace_id : string;
  jr_prompt : string;
  jr_schedule_kind : string;
  jr_interval_minutes : option Z;
  jr_anchor_at : option Z;
  jr_daily_time : option string;
  jr_time_zone : option string;
  jr_pre_run_script : option string;
  jr_post_run_script : option string;
  jr_enabled : Z;
  jr_next_run_at : option Z;
  jr_created_at : Z;
  jr_updated_at : Z;
}.

(** src/server/job-repository.ts:62-83 RunRow *)
Record RunRow := MkRunRow {
  rr_id : string;
  rr_job_id : string;
  rr_conversation_id : option string;
  rr_trigger : string;
  rr_scheduled_for : Z;
  rr_started_at : option Z;
  rr_finished_at : option Z;
  rr_status : string;
  rr_phase : option string;
  rr_error_code : option string;
  rr_error_message : option string;
  rr_pre_exit_code : option Z;
  rr_pre_stdout : option string;
  rr_pre_stderr : option string;
  rr_post_exit_code : option Z;
  rr_post_stdout : option string;
  rr_post_stderr : option string;
  rr_revision : Z;
  rr_created_at : Z;
  rr_updated_at : Z;
}.

(** The database: workspaces (identifier to name), jobs and job runs. *)
Record db := MkDb {
  db_workspaces : gmap string string;
  db_jobs : gmap string JobRow;
  db_runs : gmap string RunRow;
}.
Definition set_jobs (d : db) (js : gmap string JobRow) : db :=
  {| db_workspaces := db_workspaces d; db_jobs := js; db_runs := db_runs d |}.
Definition set_runs (d : db) (rs : gmap string RunRow) : db :=
  {| db_workspaces := db_workspaces d; db_jobs := db_jobs d; db_runs := rs |}.

(** ** SQL text functions *)

Fixpoint sql_chars (s : string) : Z :=
  match s with
  | EmptyString => 0
  | String a r => if unit_code a =? 0 then 0 else 1 + sql_chars r
  end.
(** [length(s)] *)
Definition sql_length (s : string) : Z := sql_chars s.
Definition is_blank (a : ascii) : bool := unit_code a =? 32.
Fixpoint sql_ltrim (s : string) : string :=
  match s with
  | EmptyString => EmptyString
  | String a r => if is_blank a then sql_ltrim r else s
  end.
Fixpoint sql_rtrim (s : string) : string :=
  match s with
  | EmptyString => EmptyString
  | String a r =>
      match sql_rtrim r with
      | EmptyString => if is_blank a then EmptyString else String a EmptyString
      | r' => String a r'
      end
  end.
(** [trim(s)] *)
Definition sql_trim (s : string) : string := sql_rtrim (sql_ltrim s).
Definition between (lo z hi : Z) : bool := (lo <=? z) && (z <=? hi).
Definition sql_timestamp (z : Z) : bool := between 0 z 9007199254740991.
Definition null_or {A} (p : A → bool) (o : option A) : bool :=
  match o with None => true | Some a => p a end.
Definition one_of (s : string) (l : list string) : bool := existsb (String.eqb s) l.

(** [daily_time GLOB '[0-2][0-9]:[0-5][0-9]' AND substr(daily_time, 1, 2) <= '23'],
    on a text of length 5. *)
Definition daily_time_check (s : string) : bool :=
  match s with
  | String h1 (String h2 (String c (String m1 (String m2 EmptyString)))) =>
      between 48 (unit_code h1) 50 && is_digit h2 && (unit_code c =? 58)
      && between 48 (unit_code m1) 53 && is_digit m2
      && ((unit_code h1 <? 50) || ((unit_code h1 =? 50) && (unit_code h2 <=? 51)))
  | _ => false
  end.

(** src/server/database.ts:36-54 jobs_schedule_check *)
Definition jobs_schedule_check (r : JobRow) : bool :=
  match jr_interval_minutes r, jr_anchor_at r, jr_daily_time r, jr_time_zone r with
  | Some m, Some a, None, None =>
      String.eqb (jr_schedule_kind r) "interval" && between 1 m 525600 && sql_timestamp a
  | None, None, Some t, Some z =>
      String.eqb (jr_schedule_kind r) "daily" && (sql_length t =? 5) && daily_time_check t
      && between 1 (sql_length z) 255
  | _, _, _, _ => false
  end.

(** src/server/database.ts:55-61 jobs_enabled_check *)
Definition jobs_enabled_check (r : JobRow) : bool :=
  match jr_next_run_at r with
  | None => jr_enabled r =? 0
  | Some n => (jr_enabled r =? 1) && sql_timestamp n
  end.

(** src/server/database.ts:11-62 jobs *)
Definition job_row_ok (r : JobRow) : bool :=
  between 1 (sql_length (sql_trim (jr_name r))) 200
  && between 1 (sql_length (jr_prompt r)) 100000
  && (0 <? sql_length (sql_trim (jr_prompt r)))
  && one_of (jr_schedule_kind r) ["interval"; "daily"]
  && null_or (λ s, between 1 (sql_length s) 4096) (jr_pre_run_script r)
  && null_or (λ s, between 1 (sql_length s) 4096) (jr_post_run_script r)
  && ((jr_enabled r =? 0) || (jr_enabled r =? 1))
  && sql_timestamp (jr_created_at r) && sql_timestamp (jr_updated_at r)
  && jobs_schedule_check r && jobs_enabled_check r.

(** src/server/database.ts:67-103 job_runs *)
Definition run_row_ok (r : RunRow) : bool :=
  one_of (rr_trigger r) ["scheduled"; "manual"; "catch-up"]
  && sql_timestamp (rr_scheduled_for r)
  && null_or sql_timestamp (rr_started_at r)
  && null_or sql_timestamp (rr_finished_at r)
  && one_of (rr_status r)
       ["queued"; "running"; "succeeded"; "failed"; "blocked"; "skipped"; "aborted"; "interrupted"]
  && null_or (λ p, one_of p ["pre-hook"; "prompt"; "post-hook"]) (rr_phase r)
  && sql_timestamp (rr_revision r)
  && sql_timestamp (rr_created_at r) && sql_timestamp (rr_updated_at r).

(** [status IN ('queued', 'running')] *)
Definition is_active_status (s : string) : bool := one_of s ["queued"; "running"].
Definition is_active (r : RunRow) : bool := is_active_status (rr_status r).

Definition runs_list (d : db) : list RunRow := (map_to_list (db_runs d)).*2.

(** Whether storing [r] would break the unique index on the active run of a job. *)
(** src/server/database.ts:108-110 job_runs_active_job_idx *)
Definition active_conflict (d : db) (r : RunRow) : bool :=
  is_active r &&
  existsb (λ r', is_active r' && String.eqb (rr_job_id r') (rr_job_id r)
                 && negb (String.eqb (rr_id r') (rr_id r))) (runs_list d).

Definition constraint_error (what : string) : thrown :=
  Foreign (Some "SQLITE_CONSTRAINT") what.

(** ** Statements *)

(** src/server/job-repository.ts:301-307 insertJob *)
Definition sql_insertJob (r : JobRow) (d : db) : result thrown db :=
  if bool_decide (is_Some (db_jobs d !! jr_id r)) then Err (constraint_error "PRIMARYKEY")
  else if negb (job_row_ok r) then Err (constraint_error "CHECK")
  else if bool_decide (db_workspaces d !! jr_workspace_id r = None)
  then Err (constraint_error "FOREIGNKEY")
  else Ok (set_jobs d (<[jr_id r := r]> (db_jobs d))).

(** [UPDATE jobs SET ... WHERE id = ? AND guard]: the number of changes. *)
Definition update_job (id : string) (guard : JobRow → bool) (f : JobRow → JobRow) (d : db)
  : result thrown (Z * db) :=
  match db_jobs d !! id with
  | Some r =>
      if negb (guard r) then Ok (0, d)
      else if negb (job_row_ok (f r)) then Err (constraint_error "CHECK")
      else if bool_decide (db_workspaces d !! jr_workspace_id (f r) = None)
      then Err (constraint_error "FOREIGNKEY")
      else Ok (1, set_jobs d (<[id := f r]> (db_jobs d)))
  | None => Ok (0, d)
  end.

(** [UPDATE job_runs SET ... WHERE id = ? AND guard]: the number of changes. *)
Definition update_run (id : string) (guard : RunRow → bool) (f : RunRow → RunRow) (d : db)
  : result thrown (Z * db) :=
  match db_runs d !! id with
  | Some r =>
      if negb (guard r) then Ok (0, d)
      else if negb (run_row_ok (f r)) then Err (constraint_error "CHECK")
      else if active_conflict d (f r) then Err (constraint_error "UNIQUE")
      else Ok (1, set_runs d (<[id := f r]> (db_runs d)))
  | None => Ok (0, d)
  end.

(** src/server/job-repository.ts:308-313 updateJob *)
Definition sql_updateJob (name workspace_id prompt schedule_kind : string)
    (interval_minutes anchor_at : option Z) (daily_time time_zone pre_run_script post_run_script : option string)
    (enabled : Z) (next_run_at : option Z) (updated_at : Z) (id : string) (d : db) : result thrown (Z * db) :=
  update_job id (λ r, true) (λ r,
    {| jr_id := jr_id r; jr_name := name; jr_workspace_id := workspace_id;
       jr_prompt := prompt; jr_schedule_kind := schedule_kind;
       jr_interval_minutes := interval_minutes; jr_anchor_at := anchor_at;
       jr_daily_time := daily_time; jr_time_zone := time_zone;
       jr_pre_run_script := pre_run_script; jr_post_run_script := post_run_script;
       jr_enabled := enabled; jr_next_run_at := next_run_at;
       jr_created_at := jr_created_at r; jr_updated_at := updated_at |}) d.

(** The foreign key of job_runs is ON DELETE CASCADE. *)
(** src/server/job-repository.ts:314-314 deleteJob *)
Definition sql_deleteJob (id : string) (d : db) : Z * db :=
  match db_jobs d !! id with
  | Some _ =>
      (1, {| db_workspaces := db_workspaces d; db_jobs := delete id (db_jobs d);
             db_runs := filter (λ p, rr_job_id p.2 ≠ id) (db_runs d) |})
  | None => (0, d)
  end.

(** src/server/job-repository.ts:351-353 advanceDue *)
Definition sql_advanceDue (next_run_at updated_at : Z) (id : string) (expected : Z) (d : db) : result thrown (Z * db) :=
  update_job id (λ r, (jr_enabled r =? 1) && bool_decide (jr_next_run_at r = Some expected)) (λ r,
    {| jr_id := jr_id r; jr_name := jr_name r; jr_workspace_id := jr_workspace_id r;
       jr_prompt := jr_prompt r; jr_schedule_kind := jr_schedule_kind r;
       jr_interval_minutes := jr_interval_minutes r; jr_anchor_at := jr_anchor_at r;
       jr_daily_time := jr_daily_time r; jr_time_zone := jr_time_zone r;
       jr_pre_run_script := jr_pre_run_script r;
       jr_post_run_script := jr_post_run_script r; jr_enabled := jr_enabled r;
       jr_next_run_at := Some next_run_at; jr_created_at := jr_created_at r;
       jr_updated_at := updated_at |}) d.

(** src/server/job-repository.ts:393-395 disableJob *)
Definition sql_disableJob (updated_at : Z) (id : string) (d : db) : result thrown (Z * db) :=
  update_job id (λ r, true) (λ r,
    {| jr_id := jr_id r; jr_name := jr_name r; jr_workspace_id := jr_workspace_id r;
       jr_prompt := jr_prompt r; jr_schedule_kind := jr_schedule_kind r;
       jr_interval_minutes := jr_interval_minutes r; jr_anchor_at := jr_anchor_at r;
       jr_daily_time := jr_daily_time r; jr_time_zone := jr_time_zone r;
       jr_pre_run_script := jr_pre_run_script r;
       jr_post_run_script := jr_post_run_script r; jr_enabled := 0; jr_next_run_at := None;
       jr_created_at := jr_created_at r; jr_updated_at := updated_at |}) d.

(** src/server/job-repository.ts:327-332 insertRun. Columns not listed take their defaults: NULL, and revision 0. *)
Definition sql_insertRun (id job_id trigger : string) (scheduled_for : Z) (status : string)
    (phase error_code error_message : option string) (created_at updated_at : Z) (d : db)
  : result thrown db :=
  let r :=
    {| rr_id := id; rr_job_id := job_id; rr_conversation_id := None; rr_trigger := trigger;
       rr_scheduled_for := scheduled_for; rr_started_at := None; rr_finished_at := None;
       rr_status := status; rr_phase := phase; rr_error_code := error_code;
       rr_error_message := error_message; rr_pre_exit_code := None; rr_pre_stdout := None;
       rr_pre_stderr := None; rr_post_exit_code := None; rr_post_stdout := None;
       rr_post_stderr := None; rr_revision := 0; rr_created_at := created_at;
       rr_updated_at := updated_at |} in
  if bool_decide (is_Some (db_runs d !! id)) then Err (constraint_error "PRIMARYKEY")
  else if negb (run_row_ok r) then Err (constraint_error "CHECK")
  else if active_conflict d r then Err (constraint_error "UNIQUE")
  else if bool_decide (db_jobs d !! job_id = None) then Err (constraint_error "FOREIGNKEY")
  else Ok (set_runs d (<[id := r]> (db_runs d))).

(** src/server/job-repository.ts:354-356 finishSkippedClaim *)
Definition sql_finishSkippedClaim (finished_at : Z) (id : string) (d : db) : result thrown (Z * db) :=
  update_run id (λ r, true) (λ r,
    {| rr_id := rr_id r; rr_job_id := rr_job_id r;
       rr_conversation_id := rr_conversation_id r; rr_trigger := rr_trigger r;
       rr_scheduled_for := rr_scheduled_for r; rr_started_at := rr_started_at r;
       rr_finished_at := Some finished_at; rr_status := rr_status r;
       rr_phase := rr_phase r; rr_error_code := rr_error_code r;
       rr_error_message := rr_error_message r; rr_pre_exit_code := rr_pre_exit_code r;
       rr_pre_stdout := rr_pre_stdout r; rr_pre_stderr := rr_pre_stderr r;
       rr_post_exit_code := rr_post_exit_code r; rr_post_stdout := rr_post_stdout r;
       rr_post_stderr := rr_post_stderr r; rr_revision := rr_revision r;
       rr_created_at := rr_created_at r; rr_updated_at := rr_updated_at r |}) d.

(** src/server/job-repository.ts:357-361 startRun *)
Definition sql_startRun (phase : option string) (started_at updated_at : Z) (id : string) (revision : Z) (d : db) : result thrown (Z * db) :=
  update_run id (λ r, String.eqb (rr_status r) "queued" && (rr_revision r =? revision)) (λ r,
    {| rr_id := rr_id r; rr_job_id := rr_job_id r;
       rr_conversation_id := rr_conversation_id r; rr_trigger := rr_trigger r;
       rr_scheduled_for := rr_scheduled_for r; rr_started_at := Some started_at;
       rr_finished_at := rr_finished_at r; rr_status := "running"; rr_phase := phase;
       rr_error_code := rr_error_code r; rr_error_message := rr_error_message r;
       rr_pre_exit_code := rr_pre_exit_code r; rr_pre_stdout := rr_pre_stdout r;
       rr_pre_stderr := rr_pre_stderr r; rr_post_exit_code := rr_post_exit_code r;
       rr_post_stdout := rr_post_stdout r; rr_post_stderr := rr_post_stderr r;
       rr_revision := rr_revision r + 1; rr_created_at := rr_created_at r;
       rr_updated_at := updated_at |}) d.

(** src/server/job-repository.ts:362-365 setRunPhase *)
Definition sql_setRunPhase (phase : string) (updated_at : Z) (id : string) (revision : Z) (d : db) : result thrown (Z * db) :=
  update_run id (λ r, String.eqb (rr_status r) "running" && (rr_revision r =? revision)) (λ r,
    {| rr_id := rr_id r; rr_job_id := rr_job_id r;
       rr_conversation_id := rr_conversation_id r; rr_trigger := rr_trigger r;
       rr_scheduled_for := rr_scheduled_for r; rr_started_at := rr_started_at r;
       rr_finished_at := rr_finished_at r; rr_status := rr_status r;
       rr_phase := Some phase; rr_error_code := rr_error_code r;
       rr_error_message := rr_error_message r; rr_pre_exit_code := rr_pre_exit_code r;
       rr_pre_stdout := rr_pre_stdout r; rr_pre_stderr := rr_pre_stderr r;
       rr_post_exit_code := rr_post_exit_code r; rr_post_stdout := rr_post_stdout r;
       rr_post_stderr := rr_post_stderr r; rr_revision := rr_revision r + 1;
       rr_created_at := rr_created_at r; rr_updated_at := updated_at |}) d.

(** src/server/job-repository.ts:366-369 attachConversation *)
Definition sql_attachConversation (conversation_id : string) (updated_at : Z) (id : string) (revision : Z) (d : db) : result thrown (Z * db) :=
  update_run id (λ r, String.eqb (rr_status r) "running" && (rr_revision r =? revision)
      && bool_decide (rr_conversation_id r = None)) (λ r,
    {| rr_id := rr_id r; rr_job_id := rr_job_id r;
       rr_conversation_id := Some conversation_id; rr_trigger := rr_trigger r;
       rr_scheduled_for := rr_scheduled_for r; rr_started_at := rr_started_at r;
       rr_finished_at := rr_finished_at r; rr_status := rr_status r;
       rr_phase := rr_phase r; rr_error_code := rr_error_code r;
       rr_error_message := rr_error_message r; rr_pre_exit_code := rr_pre_exit_code r;
       rr_pre_stdout := rr_pre_stdout r; rr_pre_stderr := rr_pre_stderr r;
       rr_post_exit_code := rr_post_exit_code r; rr_post_stdout := rr_post_stdout r;
       rr_post_stderr := rr_post_stderr r; rr_revision := rr_revision r + 1;
       rr_created_at := rr_created_at r; rr_updated_at := updated_at |}) d.

(** src/server/job-repository.ts:370-374 recordPreHook *)
Definition sql_recordPreHook (exit_code : option Z) (stdout stderr : string) (updated_at : Z)
    (id phase : string) (revision : Z) (d : db) : result thrown (Z * db) :=
  update_run id (λ r, String.eqb (rr_status r) "running" && bool_decide (rr_phase r = Some phase)
      && (rr_revision r =? revision)) (λ r,
    {| rr_id := rr_id r; rr_job_id := rr_job_id r;
       rr_conversation_id := rr_conversation_id r; rr_trigger := rr_trigger r;
       rr_scheduled_for := rr_scheduled_for r; rr_started_at := rr_started_at r;
       rr_finished_at := rr_finished_at r; rr_status := rr_status r;
       rr_phase := rr_phase r; rr_error_code := rr_error_code r;
       rr_error_message := rr_error_message r; rr_pre_exit_code := exit_code;
       rr_pre_stdout := Some stdout; rr_pre_stderr := Some stderr;
       rr_post_exit_code := rr_post_exit_code r; rr_post_stdout := rr_post_stdout r;
       rr_post_stderr := rr_post_stderr r; rr_revision := rr_revision r + 1;
       rr_created_at := rr_created_at r; rr_updated_at := updated_at |}) d.

(** src/server/job-repository.ts:375-379 recordPostHook *)
Definition sql_recordPostHook (exit_code : option Z) (stdout stderr : string) (updated_at : Z)
    (id phase : string) (revision : Z) (d : db) : result thrown (Z * db) :=
  update_run id (λ r, String.eqb (rr_status r) "running" && bool_decide (rr_phase r = Some phase)
      && (rr_revision r =? revision)) (λ r,
    {| rr_id := rr_id r; rr_job_id := rr_job_id r;
       rr_conversation_id := rr_conversation_id r; rr_trigger := rr_trigger r;
       rr_scheduled_for := rr_scheduled_for r; rr_started_at := rr_started_at r;
       rr_finished_at := rr_finished_at r; rr_status := rr_status r;
       rr_phase := rr_phase r; rr_error_code := rr_error_code r;
       rr_error_message := rr_error_message r; rr_pre_exit_code := rr_pre_exit_code r;
       rr_pre_stdout := rr_pre_stdout r; rr_pre_stderr := rr_pre_stderr r;
       rr_post_exit_code := exit_code; rr_post_stdout := Some stdout;
       rr_post_stderr := Some stderr; rr_revision := rr_revision r + 1;
       rr_created_at := rr_created_at r; rr_updated_at := updated_at |}) d.

(** src/server/job-repository.ts:380-384 finishRun *)
Definition sql_finishRun (status : string) (phase error_code error_message : option string)
    (finished_at updated_at : Z) (id : string) (revision : Z) (d : db) : result thrown (Z * db) :=
  update_run id (λ r, is_active r && (rr_revision r =? revision)) (λ r,
    {| rr_id := rr_id r; rr_job_id := rr_job_id r;
       rr_conversation_id := rr_conversation_id r; rr_trigger := rr_trigger r;
       rr_scheduled_for := rr_scheduled_for r; rr_started_at := rr_started_at r;
       rr_finished_at := Some finished_at; rr_status := status; rr_phase := phase;
       rr_error_code := error_code; rr_error_message := error_message;
       rr_pre_exit_code := rr_pre_exit_code r; rr_pre_stdout := rr_pre_stdout r;
       rr_pre_stderr := rr_pre_stderr r; rr_post_exit_code := rr_post_exit_code r;
       rr_post_stdout := rr_post_stdout r; rr_post_stderr := rr_post_stderr r;
       rr_revision := rr_revision r + 1; rr_created_at := rr_created_at r;
       rr_updated_at := updated_at |}) d.

(** src/server/job-repository.ts:388-392 interruptRun *)
Definition sql_interruptRun (error_code error_message : string) (finished_at updated_at : Z)
    (id : string) (revision : Z) (d : db) : result thrown (Z * db) :=
  update_run id (λ r, is_active r && (rr_revision r =? revision)) (λ r,
    {| rr_id := rr_id r; rr_job_id := rr_job_id r;
       rr_conversation_id := rr_conversation_id r; rr_trigger := rr_trigger r;
       rr_scheduled_for := rr_scheduled_for r; rr_started_at := rr_started_at r;
       rr_finished_at := Some finished_at; rr_status := "interrupted";
       rr_phase := rr_phase r; rr_error_code := Some error_code;
       rr_error_message := Some error_message; rr_pre_exit_code := rr_pre_exit_code r;
       rr_pre_stdout := rr_pre_stdout r; rr_pre_stderr := rr_pre_stderr r;
       rr_post_exit_code := rr_post_exit_code r; rr_post_stdout := rr_post_stdout r;
       rr_post_stderr := rr_post_stderr r; rr_revision := rr_revision r + 1;
       rr_created_at := rr_created_at r; rr_updated_at := updated_at |}) d.

(** ** Queries *)

(** Text order of the binary collation. *)
Definition text_le (s t : string) : bool := String.leb s t.

(** src/server/job-repository.ts:295-297 getJob. A job row joined with its workspace's name. *)
Definition sql_getJob (id : string) (d : db) : option (JobRow * string) :=
  r ← db_jobs d !! id; w ← db_workspaces d !! jr_workspace_id r; Some (r, w).

(** src/server/job-repository.ts:292-294 listJobs. The order of the rows is not specified. *)
Definition sql_listJobs (d : db) : list (JobRow * string) :=
  omap (λ p, w ← db_workspaces d !! jr_workspace_id p.2; Some (p.2, w)) (map_to_list (db_jobs d)).

(** src/server/job-repository.ts:298-300 workspaceExists *)
Definition sql_workspaceExists (id : string) (d : db) : bool :=
  bool_decide (is_Some (db_workspaces d !! id)).

(** src/server/job-repository.ts:315-317 activeRun *)
Definition sql_activeRun (job_id : string) (d : db) : option RunRow :=
  find (λ r, String.eqb (rr_job_id r) job_id && is_active r) (runs_list d).

(** [ORDER BY scheduled_for DESC, id DESC] *)
Definition run_before (r1 r2 : RunRow) : Prop :=
  (rr_scheduled_for r2 <? rr_scheduled_for r1)
  || ((rr_scheduled_for r2 =? rr_scheduled_for r1) && text_le (rr_id r2) (rr_id r1)) = true.
#[export] Instance run_before_dec r1 r2 : Decision (run_before r1 r2).
Proof. unfold run_before. apply _. Defined.

(** The runs of a job in that order. *)
Definition job_runs_desc (job_id : string) (d : db) : list RunRow :=
  merge_sort run_before (filter (λ r, rr_job_id r = job_id) (runs_list d)).

(** src/server/job-repository.ts:318-320 lastRun *)
Definition sql_lastRun (job_id : string) (d : db) : option RunRow :=
  find (λ r, negb (is_active r)) (job_runs_desc job_id d).

(** src/server/job-repository.ts:321-323 getRun *)
Definition sql_getRun (job_id id : string) (d : db) : option RunRow :=
  r ← db_runs d !! id; if String.eqb (rr_job_id r) job_id then Some r else None.

(** src/server/job-repository.ts:324-326 getRunById *)
Definition sql_getRunById (id : string) (d : db) : option RunRow := db_runs d !! id.

(** src/server/job-repository.ts:333-335 listRuns *)
Definition sql_listRuns (job_id : string) (limit : nat) (d : db) : list RunRow :=
  take limit (job_runs_desc job_id d).

(** src/server/job-repository.ts:336-338 listRunsAfter *)
Definition sql_listRunsAfter (job_id : string) (scheduled_for : Z) (id : string) (limit : nat) (d : db)
  : list RunRow :=
  take limit (filter (λ r,
    (rr_scheduled_for r <? scheduled_for)
    || ((rr_scheduled_for r =? scheduled_for)
        && text_le (rr_id r) id && negb (String.eqb (rr_id r) id)) = true) (job_runs_desc job_id d)).

(** src/server/job-repository.ts:339-341 referencingWorkspace *)
Definition sql_referencingWorkspace (workspace_id : string) (d : db) : bool :=
  existsb (λ p, String.eqb (jr_workspace_id p.2) workspace_id) (map_to_list (db_jobs d)).

(** [ORDER BY j.next_run_at, j.id]; a NULL sorts first. *)
Definition due_before (p1 p2 : JobRow * string) : Prop :=
  let n1 := default (-1) (jr_next_run_at p1.1) in let n2 := default (-1) (jr_next_run_at p2.1) in
  (n1 <? n2) || ((n1 =? n2) && text_le (jr_id p1.1) (jr_id p2.1)) = true.
#[export] Instance due_before_dec p1 p2 : Decision (due_before p1 p2).
Proof. unfold due_before. apply _. Defined.

(** src/server/job-repository.ts:342-344 dueJobs *)
Definition sql_dueJobs (now : Z) (d : db) : list (JobRow * string) :=
  merge_sort due_before (filter (λ p,
    (jr_enabled p.1 =? 1) && match jr_next_run_at p.1 with Some n => n <=? now | None => false end = true)
    (sql_listJobs d)).

(** src/server/job-repository.ts:345-347 enabledJobs *)
Definition sql_enabledJobs (d : db) : list (JobRow * string) :=
  merge_sort due_before (filter (λ p, (jr_enabled p.1 =? 1) = true) (sql_listJobs d)).

(** src/server/job-repository.ts:348-350 nextDue *)
Definition sql_nextDue (d : db) : option Z :=
  head (merge_sort (≤) (omap (λ p, if jr_enabled p.2 =? 1 then jr_next_run_at p.2 else None)
                             (map_to_list (db_jobs d)))).

(** [ORDER BY created_at, id] *)
Definition created_before (r1 r2 : RunRow) : Prop :=
  (rr_created_at r1 <? rr_created_at r2)
  || ((rr_created_at r1 =? rr_created_at r2) && text_le (rr_id r1) (rr_id r2)) = true.
#[export] Instance created_before_dec r1 r2 : Decision (created_before r1 r2).
Proof. unfold created_before. apply _. Defined.

(** src/server/job-repository.ts:385-387 allActiveRuns *)
Definition sql_allActiveRuns (d : db) : list RunRow :=
  merge_sort created_before (filter (λ r, is_active r = true) (runs_list d)).

(** ** The invariant the schema maintains *)

Record db_ok (d : db) : Prop := {
  jobs_ok id r : db_jobs d !! id = Some r →
    jr_id r = id ∧ job_row_ok r = true ∧ is_Some (db_workspaces d !! jr_workspace_id r);
  runs_ok id r : db_runs d !! id = Some r →
    rr_id r = id ∧ run_row_ok r = true ∧ is_Some (db_jobs d !! rr_job_id r);
  one_active i j r r' : db_runs d !! i = Some r → db_runs d !! j = Some r' →
    is_active r = true → is_active r' = true → rr_job_id r = rr_job_id r' → i = j;
}.

Lemma elem_of_runs_list d r : r ∈ runs_list d ↔ ∃ id, db_runs d !! id = Some r.
Proof.
  unfold runs_list. rewrite list_elem_of_fmap. split.
  - intros ([id r'] & -> & H%elem_of_map_to_list). eauto.
  - intros [id H%elem_of_map_to_list]. by exists (id, r).
Qed.

Lemma active_conflict_false d r :
  active_conflict d r = false →
  ∀ j r', db_runs d !! j = Some r' → is_active r = true → is_active r' = true →
    rr_job_id r' = rr_job_id r → rr_id r' = rr_id r.
Proof.
  unfold active_conflict. intros H j r' Hj Ha Ha' Hjob. rewrite Ha in H. simpl in H.
  destruct (decide (rr_id r' = rr_id r)) as [|Hne]; [done|].
  rewrite <-not_true_iff_false in H. destruct H. apply existsb_exists. exists r'. split.
  - apply list_elem_of_In, elem_of_runs_list. eauto.
  - rewrite Ha'. apply String.eqb_eq in Hjob as ->. apply String.eqb_neq in Hne as ->. done.
Qed.

(** What a successful update does. *)
Lemma update_job_Ok id g f d n d' :
  update_job id g f d = Ok (n, d') →
  (n = 0 ∧ d' = d) ∨
  (n = 1 ∧ ∃ r, db_jobs d !! id = Some r ∧ g r = true ∧ job_row_ok (f r) = true ∧
     is_Some (db_workspaces d !! jr_workspace_id (f r)) ∧
     d' = set_jobs d (<[id := f r]> (db_jobs d))).
Proof.
  unfold update_job. intros H. case_match eqn:E; simplify_eq; [|auto].
  repeat case_match; simplify_eq; breflect; [by auto|]. right. split; [done|].
  exists j. split_and!; try done. by apply not_eq_None_Some.
Qed.

Lemma update_run_Ok id g f d n d' :
  update_run id g f d = Ok (n, d') →
  (n = 0 ∧ d' = d) ∨
  (n = 1 ∧ ∃ r, db_runs d !! id = Some r ∧ g r = true ∧ run_row_ok (f r) = true ∧
     active_conflict d (f r) = false ∧ d' = set_runs d (<[id := f r]> (db_runs d))).
Proof.
  unfold update_run. intros H. case_match eqn:E; simplify_eq; [|auto].
  repeat case_match; simplify_eq; breflect; [by auto|]. right. split; [done|].
  by exists r.
Qed.

Lemma set_jobs_ok d id r r' :
  db_ok d → db_jobs d !! id = Some r ∨ db_jobs d !! id = None → jr_id r' = id →
  job_row_ok r' = true → is_Some (db_workspaces d !! jr_workspace_id r') →
  db_ok (set_jobs d (<[id := r']> (db_jobs d))).
Proof.
  intros [HJ HR HA] _ Hid Hok Hws. split; cbn.
  - intros i s. destruct (decide (i = id)) as [->|].
    + rewrite lookup_insert_eq. intros [= <-]. done.
    + rewrite lookup_insert_ne by done. apply HJ.
  - intros i s Hs. destruct (HR _ _ Hs) as (? & ? & Hj). split_and!; [done..|].
    destruct (decide (rr_job_id s = id)) as [->|].
    + rewrite lookup_insert_eq. eauto.
    + by rewrite lookup_insert_ne by done.
  - apply HA.
Qed.

Lemma set_runs_ok d id r' :
  db_ok d → rr_id r' = id → run_row_ok r' = true → is_Some (db_jobs d !! rr_job_id r') →
  active_conflict d r' = false → db_ok (set_runs d (<[id := r']> (db_runs d))).
Proof.
  intros [HJ HR HA] Hid Hok Hjob Hconf. split; cbn.
  - apply HJ.
  - intros i s. destruct (decide (i = id)) as [->|].
    + rewrite lookup_insert_eq. intros [= <-]. done.
    + rewrite lookup_insert_ne by done. apply HR.
  - pose proof (active_conflict_false _ _ Hconf) as Hc.
    assert (Hu : ∀ j s, j ≠ id → db_runs d !! j = Some s → is_active r' = true →
                is_active s = true → rr_job_id r' ≠ rr_job_id s).
    { intros j s Hj Hs Ha Has E. apply Hj. destruct (HR _ _ Hs) as (<- & _).
      rewrite <-Hid. eapply Hc; eauto. }
    intros i j s s' Hi Hj Has Has' E.
    destruct (decide (i = id)) as [->|Hni], (decide (j = id)) as [->|Hnj]; [done|..].
    + rewrite lookup_insert_eq in Hi. rewrite lookup_insert_ne in Hj by done. simplify_eq.
      by destruct (Hu j s').
    + rewrite lookup_insert_ne in Hi by done. rewrite lookup_insert_eq in Hj. simplify_eq.
      by destruct (Hu i s).
    + rewrite lookup_insert_ne in Hi, Hj by done. by eapply HA.
Qed.

Lemma update_job_ok id g f d n d' :
  db_ok d → (∀ r, jr_id (f r) = jr_id r) → update_job id g f d = Ok (n, d') → db_ok d'.
Proof.
  intros Hd Hf [[_ ->]|(_ & r & Hr & _ & Hok & Hws & ->)]%update_job_Ok; [done|].
  eapply set_jobs_ok; eauto. rewrite Hf. by apply (jobs_ok _ Hd).
Qed.

Lemma update_run_ok id g f d n d' :
  db_ok d → (∀ r, rr_id (f r) = rr_id r) → (∀ r, rr_job_id (f r) = rr_job_id r) →
  update_run id g f d = Ok (n, d') → db_ok d'.
Proof.
  intros Hd Hf Hg [[_ ->]|(_ & r & Hr & _ & Hok & Hc & ->)]%update_run_Ok; [done|].
  destruct (runs_ok _ Hd _ _ Hr) as (Hid & _ & Hjob).
  apply set_runs_ok; rewrite ?Hf, ?Hg; done.
Qed.

Lemma sql_insertJob_Ok r d d' :
  sql_insertJob r d = Ok d' →
  db_jobs d !! jr_id r = None ∧ job_row_ok r = true ∧
  is_Some (db_workspaces d !! jr_workspace_id r) ∧ d' = set_jobs d (<[jr_id r := r]> (db_jobs d)).
Proof.
  unfold sql_insertJob. intros H. repeat case_match; simplify_eq; breflect.
  split_and!; [by apply eq_None_not_Some|done|by apply not_eq_None_Some|done].
Qed.

Lemma sql_insertJob_ok r d d' : db_ok d → sql_insertJob r d = Ok d' → db_ok d'.
Proof. intros Hd (Hn & Hok & Hws & ->)%sql_insertJob_Ok. by eapply (set_jobs_ok d (jr_id r) r); eauto. Qed.

Lemma sql_deleteJob_ok id d : db_ok d → db_ok (sql_deleteJob id d).2.
Proof.
  intros [HJ HR HA]. unfold sql_deleteJob. case_match; [|done]. split; cbn.
  - intros i s [_ Hs]%lookup_delete_Some. by apply HJ.
  - intros i s [Hs Hne]%map_lookup_filter_Some. cbn in Hne.
    destruct (HR _ _ Hs) as (? & ? & ?). by rewrite lookup_delete_ne by done.
  - intros i k s s' [Hs _]%map_lookup_filter_Some [Hs' _]%map_lookup_filter_Some. by apply HA.
Qed.


Lemma sql_insertRun_Ok id job trigger at_ status phase code msg created updated d d' :
  sql_insertRun id job trigger at_ status phase code msg created updated d = Ok d' →
  db_runs d !! id = None ∧ is_Some (db_jobs d !! job) ∧
  ∃ r, r = MkRunRow id job None trigger at_ None None status phase code msg
             None None None None None None 0 created updated ∧
    run_row_ok r = true ∧ active_conflict d r = false ∧
    d' = set_runs d (<[id := r]> (db_runs d)).
Proof.
  unfold sql_insertRun. intros H. repeat case_match; simplify_eq; breflect.
  split_and!; [by apply eq_None_not_Some|by apply not_eq_None_Some|eexists; split_and!; done].
Qed.

Lemma sql_insertRun_ok id job trigger at_ status phase code msg created updated d d' :
  db_ok d → sql_insertRun id job trigger at_ status phase code msg created updated d = Ok d' →
  db_ok d'.
Proof.
  intros Hd (Hn & Hjob & r & -> & Hok & Hc & ->)%sql_insertRun_Ok. by apply set_runs_ok.
Qed.

Lemma sql_getJob_Some id d row w :
  sql_getJob id d = Some (row, w) →
  db_jobs d !! id = Some row ∧ db_workspaces d !! jr_workspace_id row = Some w.
Proof.
  unfold sql_getJob. destruct (db_jobs d !! id) as [r|] eqn:E; [|done]. cbn.
  destruct (db_workspaces d !! jr_workspace_id r) as [w'|] eqn:Ew; [|done]. cbn. naive_solver.
Qed.

Lemma sql_getJob_None id d : db_ok d → sql_getJob id d = None → db_jobs d !! id = None.
Proof.
  intros Hd. unfold sql_getJob. destruct (db_jobs d !! id) as [r|] eqn:E; [|done]. cbn.
  destruct (jobs_ok _ Hd _ _ E) as (_ & _ & [w ->]). done.
Qed.

Lemma sql_getRun_Some job id d row :
  sql_getRun job id d = Some row ↔ db_runs d !! id = Some row ∧ rr_job_id row = job.
Proof.
  unfold sql_getRun. destruct (db_runs d !! id) as [r|]; cbn; [|naive_solver].
  destruct (String.eqb_spec (rr_job_id r) job); naive_solver.
Qed.

Lemma sql_activeRun_Some job d r :
  sql_activeRun job d = Some r →
  rr_job_id r = job ∧ is_active r = true ∧ ∃ id, db_runs d !! id = Some r.
Proof.
  unfold sql_activeRun. intros [Hin Hp]%find_some.
  apply andb_true_iff in Hp as [Hj%String.eqb_eq Ha].
  apply list_elem_of_In, elem_of_runs_list in Hin. eauto.
Qed.

Lemma sql_activeRun_None job d :
  sql_activeRun job d = None ↔
  ∀ id r, db_runs d !! id = Some r → rr_job_id r = job → is_active r = false.
Proof.
  unfold sql_activeRun. split.
  - intros H id r Hr <-.
    assert (Hin : In r (runs_list d)) by (apply list_elem_of_In, elem_of_runs_list; eauto).
    pose proof (find_none _ _ H r Hin) as Hn. cbn in Hn.
    rewrite String.eqb_refl in Hn. done.
  - intros H. destruct (find _ _) as [r|] eqn:E; [|done].
    apply find_some in E as [Hin Hp]. apply andb_true_iff in Hp as [Hj%String.eqb_eq Ha].
    apply list_elem_of_In, elem_of_runs_list in Hin as [id Hr].
    rewrite (H _ _ Hr Hj) in Ha. done.
Qed.

(** Identifiers of attempts are distinct in any selection of the table. *)
Lemma runs_list_ids d : db_ok d → NoDup (rr_id <$> runs_list d).
Proof.
  intros Hd. unfold runs_list. rewrite <-list_fmap_compose.
  assert (E : (rr_id ∘ snd) <$> map_to_list (db_runs d) = fst <$> map_to_list (db_runs d)).
  { apply list_fmap_ext. intros i [id r] Hi%list_elem_of_lookup_2%elem_of_map_to_list.
    cbn. by destruct (runs_ok _ Hd _ _ Hi). }
  rewrite E. apply NoDup_fst_map_to_list.
Qed.

Lemma filter_runs_ids d P `{!∀ r, Decision (P r)} : db_ok d → NoDup (rr_id <$> filter P (runs_list d)).
Proof.
  intros Hd. apply NoDup_fmap_2_strong; [|by apply NoDup_filter, (NoDup_fmap_1 rr_id), runs_list_ids].
  intros r r' [_ [i Hr]%elem_of_runs_list]%list_elem_of_filter
    [_ [j Hr']%elem_of_runs_list]%list_elem_of_filter E.
  destruct (runs_ok _ Hd _ _ Hr) as [Hi _], (runs_ok _ Hd _ _ Hr') as [Hj _]. congruence.
Qed.

(** ** The order of texts *)

Lemma ascii_compare_lt_trans a b c :
  Ascii.compare a b = Lt → Ascii.compare b c = Lt → Ascii.compare a c = Lt.
Proof. unfold Ascii.compare. rewrite !N.compare_lt_iff. lia. Qed.

Lemma string_compare_trans s1 s2 s3 :
  String.leb s1 s2 = true → String.leb s2 s3 = true → String.leb s1 s3 = true.
Proof.
  unfold String.leb. revert s2 s3.
  induction s1 as [|a s1 IH]; intros [|b s2] [|c s3]; try done. cbn.
  destruct (Ascii.compare a b) eqn:Eab; try done.
  - apply Ascii.compare_eq_iff in Eab as ->. destruct (Ascii.compare b c); try done. apply IH.
  - destruct (Ascii.compare b c) eqn:Ebc; try done.
    + apply Ascii.compare_eq_iff in Ebc as <-. by rewrite Eab.
    + by rewrite (ascii_compare_lt_trans _ _ _ Eab Ebc).
Qed.
