(* ===== verification/JobRepository.v ===== *)
(** The job repository ([src/server/job-repository.ts]): job definitions and
    attempts over the tables of JobStore. An operation is a function from the
    database to an outcome (a value or a thrown error) and the database after
    it; a statement that ran before an error stays done unless a transaction
    encloses it. The clock reading and the fresh identifier an operation takes
    are arguments: each operation reads either at most once. *)
From S2P Require Import Prelude Errors Jobs JobSchedule JobStore.
#[local] Open Scope string_scope. #[local] Open Scope Z_scope.

(** ** Database operations *)

Definition M (A : Type) : Type := db → result thrown A * db.
#[export] Instance M_ret : MRet M := λ A a d, (Ok a, d).
#[export] Instance M_bind : MBind M := λ A B f m d,
  match m d with (Ok a, d') => f a d' | (Err e, d') => (Err e, d') end.

Definition throw {A} (e : thrown) : M A := λ d, (Err e, d).
(** [if (cond) throw e;] *)
Definition guard_M (cond : bool) (e : thrown) : M unit := if cond then throw e else mret tt.
Definition lift_result {A} (r : result thrown A) : M A := λ d, (r, d).
Definition query {A} (q : db → A) : M A := λ d, (Ok (q d), d).
Definition read {A} (q : db → result thrown A) : M A := λ d, (q d, d).
(** A statement's number of changes. *)
Definition run_stmt (st : db → result thrown (Z * db)) : M Z := λ d,
  match st d with Ok (n, d') => (Ok n, d') | Err e => (Err e, d) end.
Definition run_insert (st : db → result thrown db) : M unit := λ d,
  match st d with Ok d' => (Ok tt, d') | Err e => (Err e, d) end.

(** [connection.transaction(op)()]: an error rolls every change back. *)
Definition transaction {A} (m : M A) : M A := λ d,
  match m d with (Ok a, d') => (Ok a, d') | (Err e, _) => (Err e, d) end.

(** src/server/job-repository.ts:1030-1037 database *)
Definition database {A} (operation : M A) : M A := λ d,
  match operation d with
  | (Ok a, d') => (Ok a, d')
  | (Err e, d') => (Err (toAppError e CtxDatabase), d')
  end.

(** ** Collaborators *)

(** src/server/job-hook-path.ts:36-41 JobHookWorkspacePolicy *)
Record JobHookWorkspacePolicy := { hwp_cwd : string; hwp_mounts : list string }.

(** What a workspace repository's [get] returns, as far as it is read here. *)
Record WorkspaceView := {
  wv_name : string; wv_available : bool; wv_path : option string; wv_mounts : option (list string);
}.

(** src/server/job-repository.ts:107-129 JobRepositoryOptions. The callbacks may throw; [localeCompare] (with base sensitivity, and plain) is the runtime's. *)
Record JobRepositoryOptions := {
  opt_workspaceStatus : option (string → result thrown (option string * bool));
  opt_workspaceRepository : option (string → result thrown WorkspaceView);
  opt_hookPathAdmission : option (string → JobHookWorkspacePolicy → result thrown string);
  opt_hookWorkspacePolicy : option (string → result thrown JobHookWorkspacePolicy);
  opt_conversationAvailable : option (string → result thrown bool);
  localeCompareBase : string → string → Z;
  localeCompare : string → string → Z;
}.

(** The collaborators the constructor settles on. *)
Record Repository := {
  r_workspaceStatus : option (string → result thrown (option string * bool));
  r_conversationAvailable : option (string → result thrown bool);
  r_hookPathAdmission : option (string → JobHookWorkspacePolicy → result thrown string);
  r_hookWorkspacePolicy : option (string → result thrown JobHookWorkspacePolicy);
  r_localeCompareBase : string → string → Z;
  r_localeCompare : string → string → Z;
}.

(** src/server/job-repository.ts:170-172 jobInvalid *)
Definition jobInvalid (cause : option thrown) : thrown :=
  newAppError JOB_INVALID {| publicMessage := None; causeOption := cause |}.

(** The foreign error is the TypeError of a half-configured hook admission. *)
(** src/server/job-repository.ts:269-289 constructor *)
Definition newRepository (options : JobRepositoryOptions) : result thrown Repository :=
  let workspaceStatus :=
    match opt_workspaceStatus options with
    | Some f => Some f
    | None =>
        match opt_workspaceRepository options with
        | None => None
        | Some get => Some (λ workspaceId,
            w ← get workspaceId; Ok (Some (wv_name w), wv_available w))
        end
    end in
  let hookWorkspacePolicy :=
    match opt_hookWorkspacePolicy options with
    | Some f => Some f
    | None =>
        match opt_hookPathAdmission options, opt_workspaceRepository options with
        | Some _, Some get => Some (λ workspaceId,
            workspace ← get workspaceId;
            match wv_path workspace with
            | None => Err (jobInvalid None)
            | Some path => Ok {| hwp_cwd := path; hwp_mounts := default [] (wv_mounts workspace) |}
            end)
        | _, _ => None
        end
    end in
  if negb (Bool.eqb (bool_decide (opt_hookPathAdmission options = None))
                    (bool_decide (hookWorkspacePolicy = None)))
  then Err (Foreign None "Hook path admission and workspace policy must be configured together")
  else Ok {| r_workspaceStatus := workspaceStatus;
             r_conversationAvailable := opt_conversationAvailable options;
             r_hookPathAdmission := opt_hookPathAdmission options;
             r_hookWorkspacePolicy := hookWorkspacePolicy;
             r_localeCompareBase := localeCompareBase options;
             r_localeCompare := localeCompare options |}.

(** ** Validation helpers *)

(** src/server/job-repository.ts:178-180 validIdentifier *)
Definition validIdentifier (value : jsval) : bool :=
  match value with
  | VStr s => (0 <? strlen s) && (strlen s <=? JOB_IDENTIFIER_MAX_LENGTH)
  | _ => false
  end.

(** src/server/job-repository.ts:182-186 validHook *)
Definition validHook (value : jsval) : bool :=
  match value with
  | VNull => true
  | VStr s => (0 <? strlen s) && (strlen s <=? JOB_SCRIPT_PATH_MAX_LENGTH)
  | _ => false
  end.

(** src/server/job-repository.ts:188-191 stableIssue *)
Definition stableIssue (code : ErrorCode) : JobConfigurationIssue :=
  {| issue_code := code; issue_message := error_message (app_error code) |}.

(** src/server/job-repository.ts:198-200 own *)
Definition own (input : jsval) (key : string) : bool := includes key (object_keys input).

Definition num_or_null (o : option Z) : jsval :=
  match o with Some z => VNum (JInt z) | None => VNull end.
Definition str_or_null (o : option string) : jsval :=
  match o with Some s => VStr s | None => VNull end.
Definition is_undefined (v : jsval) : bool := match v with VUndefined => true | _ => false end.
(** [v ?? null] *)
Definition nullish (v : jsval) : jsval := match v with VUndefined => VNull | _ => v end.

(** src/server/job-repository.ts:37-37 ACTIVE_STATUSES *)
Definition ACTIVE_STATUSES : list string := ["queued"; "running"].
(** src/server/job-repository.ts:38-40 TERMINAL_STATUSES *)
Definition TERMINAL_STATUSES : list string :=
  ["succeeded"; "failed"; "blocked"; "skipped"; "aborted"; "interrupted"].
(** src/server/job-repository.ts:41-41 ERROR_CODE_VALUES *)
Definition ERROR_CODE_VALUES : list string := ERROR_CODES.*2.

(** src/server/job-repository.ts:891-904 rawSchedule *)
Definition rawSchedule (row : JobRow) : jsval :=
  if String.eqb (jr_schedule_kind row) "interval"
  then VObj [("kind", VStr "interval"); ("intervalMinutes", num_or_null (jr_interval_minutes row));
             ("anchorAt", num_or_null (jr_anchor_at row))]
  else VObj [("kind", VStr "daily"); ("localTime", str_or_null (jr_daily_time row));
             ("timeZone", str_or_null (jr_time_zone row))].

(** src/server/job-repository.ts:906-942 runSummary *)
Definition runSummary (row : RunRow) : result thrown JobRunSummary :=
  let ts z := isSafeJobTimestamp (VNum (JInt z)) in
  if negb (validIdentifier (VStr (rr_id row))) || negb (validIdentifier (VStr (rr_job_id row)))
     || negb (null_or (λ c, validIdentifier (VStr c)) (rr_conversation_id row))
     || negb (ts (rr_scheduled_for row))
     || negb (null_or ts (rr_started_at row))
     || negb (null_or ts (rr_finished_at row))
     || (negb (one_of (rr_status row) ACTIVE_STATUSES) && negb (one_of (rr_status row) TERMINAL_STATUSES))
     || negb (one_of (rr_trigger row) ["scheduled"; "manual"; "catch-up"])
     || negb (null_or (λ p, one_of p ["pre-hook"; "prompt"; "post-hook"]) (rr_phase row))
     || negb (null_or (λ c, one_of c ERROR_CODE_VALUES) (rr_error_code row))
     || negb (ts (rr_revision row)) || negb (ts (rr_created_at row)) || negb (ts (rr_updated_at row))
  then Err (app_error DATABASE_ERROR)
  else
    (* The casts [as JobRunStatus] and the like: the checks above make the reads succeed. *)
    match read_trigger (rr_trigger row), read_status (rr_status row) with
    | Some trigger, Some status =>
        let errorCode := c ← rr_error_code row; code_of_string c in
        Ok {| rs_id := rr_id row; rs_jobId := rr_job_id row; rs_trigger := trigger;
              rs_scheduledFor := rr_scheduled_for row; rs_startedAt := rr_started_at row;
              rs_finishedAt := rr_finished_at row; rs_status := status;
              rs_phase := p ← rr_phase row; read_phase p; rs_errorCode := errorCode;
              rs_errorMessage := c ← errorCode; Some (error_message (app_error c));
              rs_conversationId := rr_conversation_id row; rs_revision := rr_revision row;
              rs_createdAt := rr_created_at row; rs_updatedAt := rr_updated_at row |}
    | _, _ => Err (app_error DATABASE_ERROR)
    end.

(** src/server/job-repository.ts:1014-1016 validateHookAcknowledgement *)
Definition validateHookAcknowledgement (required : bool) (acknowledgement : jsval) : result thrown unit :=
  throw_if (negb (Bool.eqb required
    match acknowledgement with VBool true => true | _ => false end)) (jobInvalid None).

(** src/server/job-repository.ts:979-984 name *)
Definition repo_name (value : jsval) : result thrown string :=
  match value with
  | VStr s => match normalizeJobName s with Some n => Ok n | None => Err (jobInvalid None) end
  | _ => Err (jobInvalid None)
  end.

(** src/server/job-repository.ts:986-989 prompt *)
Definition repo_prompt (value : jsval) : result thrown string :=
  match value with
  | VStr s => if isValidJobPrompt s then Ok s else Err (jobInvalid None)
  | _ => Err (jobInvalid None)
  end.

(** src/server/job-repository.ts:991-994 workspaceId *)
Definition repo_workspaceId (value : jsval) : result thrown string :=
  match value with
  | VStr s => if validIdentifier value then Ok s else Err (jobInvalid None)
  | _ => Err (jobInvalid None)
  end.

(** src/server/job-repository.ts:1018-1022 newId *)
Definition newId (id : jsval) : result thrown string := repo_workspaceId id.

(** src/server/job-repository.ts:1024-1028 now *)
Definition repo_now (clock : jsval) : result thrown Z := requireTimestamp clock.

(** src/server/job-repository.ts:966-971 requireJobRow *)
Definition requireJobRow (jobId : string) (d : db) : result thrown (JobRow * string) :=
  if negb (validIdentifier (VStr jobId)) then Err (app_error JOB_NOT_FOUND)
  else match sql_getJob jobId d with
       | None => Err (app_error JOB_NOT_FOUND)
       | Some row => Ok row
       end.

Section repository.
Context `{IntlData} `{Temporal} (R : Repository).

(** src/server/job-repository.ts:872-889 validatedSchedule *)
Definition validatedSchedule (row : JobRow) : option JobSchedule * option JobConfigurationIssue :=
  let ts v := isSafeJobTimestamp v in
  match normalizeJobSchedule (rawSchedule row) with
  | Err _ => (None, Some (stableIssue JOB_INVALID))
  | Ok schedule =>
      if negb (validIdentifier (VStr (jr_id row))) || negb (validIdentifier (VStr (jr_workspace_id row)))
         || bool_decide (normalizeJobName (jr_name row) = None) || negb (isValidJobPrompt (jr_prompt row))
         || negb (validHook (str_or_null (jr_pre_run_script row)))
         || negb (validHook (str_or_null (jr_post_run_script row)))
         || (negb (jr_enabled row =? 0) && negb (jr_enabled row =? 1))
         || (if jr_enabled row =? 1 then negb (ts (num_or_null (jr_next_run_at row)))
             else negb (bool_decide (jr_next_run_at row = None)))
         || negb (ts (VNum (JInt (jr_created_at row)))) || negb (ts (VNum (JInt (jr_updated_at row))))
      then (None, Some (stableIssue JOB_INVALID))
      else (Some schedule, None)
  end.

(** src/server/job-repository.ts:973-977 requireRunnableJob *)
Definition requireRunnableJob (jobId : string) (d : db) : result thrown (JobRow * string) :=
  row ← requireJobRow jobId d;
  throw_if (bool_decide (is_Some (validatedSchedule row.1).2)) (jobInvalid None);;
  Ok row.

Definition opt_summary (o : option RunRow) : result thrown (option JobRunSummary) :=
  match o with None => Ok None | Some r => s ← runSummary r; Ok (Some s) end.

(** src/server/job-repository.ts:831-870 summary *)
Definition summary (joined : JobRow * string) (d : db) : result thrown JobSummary :=
  let '(row, workspace_name) := joined in
  let validated := validatedSchedule row in
  let schedule := match validated.1 with Some s => Valid s | None => Raw (rawSchedule row) end in
  let active := sql_activeRun (jr_id row) d in
  let last := sql_lastRun (jr_id row) d in
  let '(workspaceName, workspaceAvailable, issue) :=
    match r_workspaceStatus R with
    | None => (workspace_name, true, validated.2)
    | Some workspaceStatus =>
        let unavailable := match validated.2 with
                           | None => Some (stableIssue WORKSPACE_UNAVAILABLE)
                           | Some i => Some i end in
        match workspaceStatus (jr_workspace_id row) with
        | Ok (name, available) =>
            (default workspace_name name, available,
             if negb available then unavailable else validated.2)
        | Err _ => (workspace_name, false, unavailable)
        end
    end in
  activeRun ← opt_summary active;
  lastRun ← opt_summary last;
  Ok {| js_id := jr_id row; js_name := trim (jr_name row); js_workspaceId := jr_workspace_id row;
        js_workspaceName := workspaceName; js_workspaceAvailable := workspaceAvailable;
        js_prompt := jr_prompt row; js_schedule := schedule;
        js_preRunScript := jr_pre_run_script row; js_postRunScript := jr_post_run_script row;
        js_enabled := jr_enabled row =? 1; js_nextRunAt := jr_next_run_at row;
        js_createdAt := jr_created_at row; js_updatedAt := jr_updated_at row;
        js_activeRun := activeRun; js_lastRun := lastRun; js_configurationIssue := issue |}.

(** src/server/job-repository.ts:944-964 runState *)
Definition runState (row : RunRow) : result thrown JobRunState :=
  s ← runSummary row;
  let conversationAvailable :=
    match rr_conversation_id row, r_conversationAvailable R with
    | Some c, Some probe => match probe c with Ok b => b | Err _ => false end
    | _, _ => false
    end in
  Ok {| st_summary := s; st_preExitCode := rr_pre_exit_code row; st_preStdout := rr_pre_stdout row;
        st_preStderr := rr_pre_stderr row; st_postExitCode := rr_post_exit_code row;
        st_postStdout := rr_post_stdout row; st_postStderr := rr_post_stderr row;
        st_conversationAvailable := conversationAvailable |}.

(** src/server/job-repository.ts:996-1006 hook *)
Definition repo_hook (value : jsval) (workspaceId : string) : result thrown (option string) :=
  if negb (validHook value) then Err (jobInvalid None)
  else match value with
  | VStr script =>
      match r_hookPathAdmission R, r_hookWorkspacePolicy R with
      | Some validateForConfiguration, Some hookWorkspacePolicy =>
          policy ← hookWorkspacePolicy workspaceId;
          canonical ← validateForConfiguration script policy;
          Ok (Some canonical)
      | _, _ => Err (app_error JOB_SCRIPT_ROOTS_UNAVAILABLE)
      end
  | _ => Ok None
  end.

(** ** Queries *)

(** src/server/job-repository.ts:193-196 compareJobs *)
Definition compareJobs (left right : JobSummary) : Z :=
  let byName := r_localeCompareBase R (js_name left) (js_name right) in
  if negb (byName =? 0) then byName else r_localeCompare R (js_id left) (js_id right).
Definition jobs_in_order (left right : JobSummary) : Prop := compareJobs left right ≤ 0.
#[export] Instance jobs_in_order_dec left right : Decision (jobs_in_order left right).
Proof. unfold jobs_in_order. apply _. Defined.

Definition summaries (rows : list (JobRow * string)) (d : db) : result thrown (list JobSummary) :=
  mapM (λ row, summary row d) rows.

(** src/server/job-repository.ts:402-406 list *)
Definition list_jobs : M (list JobSummary) := database (
  rows ← query sql_listJobs;
  all ← read (summaries rows);
  mret (merge_sort jobs_in_order all)).

(** src/server/job-repository.ts:412-414 get *)
Definition get (jobId : string) : M JobSummary := database (
  row ← read (requireJobRow jobId);
  read (summary row)).

(** src/server/job-repository.ts:547-549 referencesWorkspace *)
Definition referencesWorkspace (workspaceId : string) : M bool :=
  database (query (sql_referencingWorkspace workspaceId)).

(** src/server/job-repository.ts:555-557 listEnabled *)
Definition listEnabled : M (list JobSummary) := database (
  rows ← query sql_enabledJobs; read (summaries rows)).

(** A parameter [now: number = this.#now()] that is then checked. *)
Definition given_now (now clock : jsval) : result thrown Z :=
  match now with VUndefined => repo_now clock | _ => requireTimestamp now end.

(** src/server/job-repository.ts:559-562 listDue *)
Definition listDue (now clock : jsval) : M (list JobSummary) :=
  at_ ← lift_result (given_now now clock);
  database (rows ← query (sql_dueJobs at_); read (summaries rows)).

(** src/server/job-repository.ts:564-566 nextDueAt *)
Definition nextDueAt : M (option Z) := database (query sql_nextDue).

(** ** Definitions *)

(** The columns [schedule_kind] to [time_zone] of a schedule. *)
Definition schedule_columns (s : JobSchedule)
  : string * option Z * option Z * option string * option string :=
  match s with
  | SchInterval m a => ("interval", Some m, Some a, None, None)
  | SchDaily t z => ("daily", None, None, Some t, Some z)
  end.

Definition as_boolean (v : jsval) : result thrown bool :=
  match v with VBool b => Ok b | _ => Err (jobInvalid None) end.

(** [enabled ? firstJobOccurrenceAfter(schedule, now) : null] *)
Definition next_if_enabled (enabled : bool) (schedule : JobSchedule) (now : Z) : result thrown (option Z) :=
  if enabled then
    n ← firstJobOccurrenceAfter (schedule_value schedule) (VNum (JInt now)); Ok (Some n)
  else Ok None.

(** src/server/job-repository.ts:420-448 create *)
Definition create (input clock uuid : jsval) : M JobSummary :=
  now ← lift_result (repo_now clock);
  name ← lift_result (repo_name (get_field "name" input));
  workspaceId ← lift_result (repo_workspaceId (get_field "workspaceId" input));
  prompt ← lift_result (repo_prompt (get_field "prompt" input));
  preRunScript ← lift_result (repo_hook (nullish (get_field "preRunScript" input)) workspaceId);
  postRunScript ← lift_result (repo_hook (nullish (get_field "postRunScript" input)) workspaceId);
  enabled ← lift_result (as_boolean (get_field "enabled" input));
  lift_result (validateHookAcknowledgement
    (bool_decide (is_Some preRunScript) || bool_decide (is_Some postRunScript))
    (get_field "acknowledgeHostHooks" input));;
  schedule ← lift_result (establishJobSchedule (get_field "schedule" input) (VNum (JInt now)));
  nextRunAt ← lift_result (next_if_enabled enabled schedule now);
  id ← lift_result (newId uuid);
  database (
    exists_ ← query (sql_workspaceExists workspaceId);
    guard_M (negb exists_) (jobInvalid None);;
    let '(kind, minutes, anchor, time, zone) := schedule_columns schedule in
    run_insert (sql_insertJob
      {| jr_id := id; jr_name := name; jr_workspace_id := workspaceId; jr_prompt := prompt;
         jr_schedule_kind := kind; jr_interval_minutes := minutes; jr_anchor_at := anchor;
         jr_daily_time := time; jr_time_zone := zone; jr_pre_run_script := preRunScript;
         jr_post_run_script := postRunScript; jr_enabled := if (enabled : bool) then 1 else 0;
         jr_next_run_at := nextRunAt; jr_created_at := now; jr_updated_at := now |}));;
  get id.

Definition update_keys : list string :=
  ["name"; "workspaceId"; "prompt"; "schedule"; "preRunScript"; "postRunScript"; "enabled"].

(** Whether a row that failed validation is repaired by giving every field. *)
(** src/server/job-repository.ts:471-475 complete *)
Definition complete_changes (changes : jsval) : bool :=
  negb (is_undefined (get_field "name" changes)) && negb (is_undefined (get_field "workspaceId" changes))
  && negb (is_undefined (get_field "prompt" changes)) && negb (is_undefined (get_field "schedule" changes))
  && own changes "preRunScript" && own changes "postRunScript"
  && negb (is_undefined (get_field "enabled" changes)).

(** [changes.key === undefined ? current : changes.key] *)
Definition changed_or (changes : jsval) (key : string) (current : jsval) : jsval :=
  match get_field key changes with VUndefined => current | v => v end.

(** The part of [update] after the guards: validation of the merged fields,
    the new schedule and the statement. *)
(** src/server/job-repository.ts:479-524 updateFields *)
Definition update_fields (jobId : string) (changes : jsval) (current : JobRow)
    (currentSchedule : option JobSchedule) (now : Z) : M JobSummary :=
  let given (key : string) := negb (is_undefined (get_field key changes)) in
  name ← lift_result (repo_name (changed_or changes "name" (VStr (jr_name current))));
  workspaceId ← lift_result (repo_workspaceId
    (changed_or changes "workspaceId" (VStr (jr_workspace_id current))));
  prompt ← lift_result (repo_prompt (changed_or changes "prompt" (VStr (jr_prompt current))));
  preRunScript ← lift_result (repo_hook
    (changed_or changes "preRunScript" (str_or_null (jr_pre_run_script current))) workspaceId);
  postRunScript ← lift_result (repo_hook
    (changed_or changes "postRunScript" (str_or_null (jr_post_run_script current))) workspaceId);
  enabled ← lift_result (as_boolean (changed_or changes "enabled" (VBool (jr_enabled current =? 1))));
  let hookAuthorityChanged :=
    (given "preRunScript" && negb (bool_decide (preRunScript = jr_pre_run_script current)))
    || (given "postRunScript" && negb (bool_decide (postRunScript = jr_post_run_script current)))
    || (given "workspaceId" && negb (String.eqb workspaceId (jr_workspace_id current))
        && (bool_decide (is_Some preRunScript) || bool_decide (is_Some postRunScript))) in
  lift_result (validateHookAcknowledgement hookAuthorityChanged
    (get_field "acknowledgeHostHooks" changes));;
  exists_ ← query (sql_workspaceExists workspaceId);
  guard_M (negb exists_) (jobInvalid None);;
  plan ← lift_result (
    if given "schedule" then
      schedule ← establishJobSchedule (get_field "schedule" changes) (VNum (JInt now));
      nextRunAt ← next_if_enabled enabled schedule now;
      Ok (schedule, nextRunAt)
    else
      match currentSchedule with
      | None => Err (jobInvalid None)
      | Some schedule =>
          nextRunAt ←
            (if negb enabled then Ok None
             else if negb (jr_enabled current =? 1) then next_if_enabled true schedule now
             else Ok (jr_next_run_at current));
          Ok (schedule, nextRunAt)
      end);
  let '(schedule, nextRunAt) := plan in
  guard_M (enabled && bool_decide (nextRunAt = None)) (jobInvalid None);;
  let '(kind, minutes, anchor, time, zone) := schedule_columns schedule in
  changes_ ← run_stmt (sql_updateJob name workspaceId prompt kind minutes anchor time zone
    preRunScript postRunScript (if (enabled : bool) then 1 else 0) nextRunAt now jobId);
  guard_M (negb (changes_ =? 1)) (app_error JOB_NOT_FOUND);;
  row ← read (requireJobRow jobId);
  read (summary row).

(** src/server/job-repository.ts:450-526 update *)
Definition update (jobId : string) (changes clock : jsval) : M JobSummary :=
  if negb (existsb (own changes) update_keys) then throw (jobInvalid None)
  else
    now ← lift_result (repo_now clock);
    database (transaction (
      current ← read (requireJobRow jobId);
      activeRun ← query (sql_activeRun jobId);
      let active := bool_decide (is_Some activeRun) in
      let changedKeys := List.filter (own changes) update_keys in
      let activeDisable :=
        active && bool_decide (changedKeys = ["enabled"])
        && match get_field "enabled" changes with VBool false => true | _ => false end in
      guard_M (active && negb activeDisable) (app_error JOB_BUSY);;
      if activeDisable then
        guard_M match get_field "acknowledgeHostHooks" changes with VBool true => true | _ => false end
          (jobInvalid None);;
        run_stmt (sql_disableJob now jobId);;
        row ← read (requireJobRow jobId);
        read (summary row)
      else
        let currentValidation := validatedSchedule current.1 in
        guard_M (bool_decide (is_Some currentValidation.2) && negb (complete_changes changes))
          (jobInvalid None);;
        update_fields jobId changes current.1 currentValidation.1 now)).

(** src/server/job-repository.ts:528-530 enable *)
Definition enable (jobId : string) (clock : jsval) : M JobSummary :=
  update jobId (VObj [("enabled", VBool true)]) clock.
(** src/server/job-repository.ts:532-534 disable *)
Definition disable (jobId : string) (clock : jsval) : M JobSummary :=
  update jobId (VObj [("enabled", VBool false)]) clock.

(** src/server/job-repository.ts:536-545 delete *)
Definition delete_job (jobId : string) : M unit := database (transaction (
  read (requireJobRow jobId);;
  active ← query (sql_activeRun jobId);
  guard_M (bool_decide (is_Some active)) (app_error JOB_BUSY);;
  changes ← run_stmt (λ d, Ok (sql_deleteJob jobId d));
  guard_M (negb (changes =? 1)) (app_error JOB_NOT_FOUND))).

(** ** Claims *)

(** src/server/job-repository.ts:131-134 ClaimedJobRun *)
Record ClaimedJobRun := { claim_job : JobSummary; claim_run : JobRunState }.

(** src/server/job-repository.ts:783-806 insertClaim *)
Definition insertClaim (row : JobRow) (trigger : JobRunTrigger) (scheduledFor : Z)
    (status : JobRunStatus) (errorCode errorMessage : option string) (now : Z) (uuid : jsval)
  : M ClaimedJobRun :=
  runId ← lift_result (newId uuid);
  let finishedAt := if bool_decide (status = Skipped) then Some now else None in
  run_insert (sql_insertRun runId (jr_id row) (trigger_string trigger) scheduledFor
    (status_string status) None errorCode errorMessage now now);;
  match finishedAt with
  | Some at_ => run_stmt (sql_finishSkippedClaim at_ runId)
  | None => mret 0
  end;;
  updatedJob ← read (requireJobRow (jr_id row));
  inserted ← query (sql_getRunById runId);
  match inserted with
  | None => throw (Foreign None "Inserted job run disappeared")
  | Some run =>
      job ← read (summary updatedJob);
      state ← lift_result (runState run);
      mret {| claim_job := job; claim_run := state |}
  end.

(** src/server/job-repository.ts:568-578 claimManual *)
Definition claimManual (jobId : string) (now clock uuid : jsval) : M ClaimedJobRun :=
  at_ ← lift_result (given_now now clock);
  database (transaction (
    row ← read (requireRunnableJob jobId);
    guard_M (negb (jr_enabled row.1 =? 1)) (app_error JOB_DISABLED);;
    active ← query (sql_activeRun jobId);
    guard_M (bool_decide (is_Some active)) (app_error JOB_ALREADY_RUNNING);;
    insertClaim row.1 Manual at_ Queued None None at_ uuid)).

(** src/server/job-repository.ts:600-621 claimScheduled *)
Definition claimScheduled (jobId : string) (at_ : Z) (trigger : JobRunTrigger) (uuid : jsval)
  : M (option ClaimedJobRun) :=
  database (transaction (
    joined ← read (requireRunnableJob jobId);
    let row := joined.1 in
    match jr_next_run_at row with
    | None => mret None
    | Some scheduledFor =>
        if negb (jr_enabled row =? 1) || (at_ <? scheduledFor) then mret None
        else match (validatedSchedule row).1 with
        | None => throw (jobInvalid None)
        | Some schedule =>
            following ← lift_result (advanceJobOccurrence (schedule_value schedule)
              (VNum (JInt scheduledFor)) (VNum (JInt at_)));
            changes ← run_stmt (sql_advanceDue following at_ jobId scheduledFor);
            if negb (changes =? 1) then mret None
            else
              active ← query (sql_activeRun jobId);
              claim ← (if bool_decide (is_Some active)
                then insertClaim row trigger scheduledFor Skipped
                       (Some (code_string JOB_ALREADY_RUNNING))
                       (Some (error_message (app_error JOB_ALREADY_RUNNING))) at_ uuid
                else insertClaim row trigger scheduledFor Queued None None at_ uuid);
              mret (Some claim)
        end
    end)).

(** src/server/job-repository.ts:580-582 claimDue *)
Definition claimDue (jobId : string) (now clock uuid : jsval) : M (option ClaimedJobRun) :=
  at_ ← lift_result (given_now now clock);
  claimScheduled jobId at_ Scheduled uuid.
(** src/server/job-repository.ts:584-586 claimStartupCatchUp *)
Definition claimStartupCatchUp (jobId : string) (startupAt clock uuid : jsval) : M (option ClaimedJobRun) :=
  at_ ← lift_result (given_now startupAt clock);
  claimScheduled jobId at_ CatchUp uuid.

(** ** Attempts *)

(** src/server/job-repository.ts:808-829 mutateRun *)
Definition mutateRun (jobId runId : string) (expectedStatuses : list JobRunStatus)
    (expectedRevision : option Z) (statement : RunRow → M Z) : M JobRunState :=
  database (transaction (
    found ← query (sql_getRun jobId runId);
    match found with
    | None => throw (app_error JOB_NOT_FOUND)
    | Some row =>
        guard_M (negb (includes (rr_status row) (status_string <$> expectedStatuses))) (app_error JOB_BUSY);;
        guard_M match expectedRevision with Some r => negb (rr_revision row =? r) | None => false end
          (app_error JOB_BUSY);;
        changes ← statement row;
        guard_M (negb (changes =? 1)) (app_error JOB_BUSY);;
        changed ← query (sql_getRun jobId runId);
        match changed with
        | None => throw (Foreign None "Updated job run disappeared")
        | Some row' => lift_result (runState row')
        end
    end)).

(** src/server/job-repository.ts:1008-1012 phase *)
Definition check_phase (value : option string) : result thrown unit :=
  throw_if (negb (null_or (λ p, one_of p ["pre-hook"; "prompt"; "post-hook"]) value)) (jobInvalid None).

(** src/server/job-repository.ts:623-637 startRun *)
Definition startRun (jobId runId : string) (phase : option string) (startedAt clock : jsval)
    (expectedRevision : option Z) : M JobRunState :=
  at_ ← lift_result (given_now startedAt clock);
  lift_result (check_phase phase);;
  mutateRun jobId runId [Queued] expectedRevision (λ row,
    run_stmt (sql_startRun phase at_ at_ runId (rr_revision row))).

(** src/server/job-repository.ts:639-650 setRunPhase *)
Definition setRunPhase (jobId runId phase : string) (clock : jsval) (expectedRevision : option Z)
  : M JobRunState :=
  lift_result (check_phase (Some phase));;
  now ← lift_result (repo_now clock);
  mutateRun jobId runId [Running] expectedRevision (λ row,
    run_stmt (sql_setRunPhase phase now runId (rr_revision row))).

(** src/server/job-repository.ts:652-666 attachConversation *)
Definition attachConversation (jobId runId conversationId : string) (clock : jsval)
    (expectedRevision : option Z) : M JobRunState :=
  if negb (validIdentifier (VStr conversationId)) then throw (jobInvalid None)
  else
    now ← lift_result (repo_now clock);
    mutateRun jobId runId [Running] expectedRevision (λ row,
      guard_M (bool_decide (is_Some (rr_conversation_id row))) (app_error JOB_BUSY);;
      run_stmt (sql_attachConversation conversationId now runId (rr_revision row))).

(** src/server/job-repository.ts:151-156 HookResultInput *)
Record HookResultInput := {
  hr_exitCode : option jsnum; hr_stdout : string; hr_stderr : string;
  hr_expectedRevision : option Z;
}.
Inductive hook_side := PreSide | PostSide.

(** src/server/job-repository.ts:668-687 recordHookResult *)
Definition recordHookResult (jobId runId : string) (hook : hook_side) (res : HookResultInput)
    (clock : jsval) : M JobRunState :=
  exitCode ← lift_result
    match hr_exitCode res with
    | None => Ok None
    | Some (JInt z) => if isSafeInteger z then Ok (Some z) else Err (jobInvalid None)
    | Some JOther => Err (jobInvalid None)
    end;
  let phase := match hook with PreSide => "pre-hook" | PostSide => "post-hook" end in
  now ← lift_result (repo_now clock);
  mutateRun jobId runId [Running] (hr_expectedRevision res) (λ row,
    guard_M (negb (bool_decide (rr_phase row = Some phase))) (app_error JOB_BUSY);;
    run_stmt (match hook with PreSide => sql_recordPreHook | PostSide => sql_recordPostHook end
      exitCode (hr_stdout res) (hr_stderr res) now runId phase (rr_revision row))).

(** An [errorMessage] is absent, null or a text. *)
(** src/server/job-repository.ts:141-149 FinishJobRunInput *)
Record FinishJobRunInput := {
  fi_status : string; fi_phase : option string; fi_errorCode : option string;
  fi_errorMessage : option (option string); fi_finishedAt : jsval; fi_expectedRevision : option Z;
}.

(** src/server/job-repository.ts:689-717 finishRun *)
Definition finishRun (jobId runId : string) (input : FinishJobRunInput) (clock : jsval) : M JobRunState :=
  let status := fi_status input in
  guard_M (negb (one_of status TERMINAL_STATUSES)) (jobInvalid None);;
  lift_result (check_phase (fi_phase input));;
  finishedAt ← lift_result (given_now (match fi_finishedAt input with VNull => VUndefined | v => v end) clock);
  guard_M (negb (null_or (λ c, one_of c ERROR_CODE_VALUES) (fi_errorCode input))) (jobInvalid None);;
  guard_M match fi_errorMessage input with Some (Some m) => strlen m =? 0 | _ => false end (jobInvalid None);;
  let errorCode := fi_errorCode input in
  let errorMessage :=
    match fi_errorMessage input with
    | Some m => m
    | None => s ← errorCode; c ← code_of_string s; Some (error_message (app_error c))
    end in
  guard_M (String.eqb status "succeeded"
           && (bool_decide (is_Some errorCode) || bool_decide (is_Some errorMessage))) (jobInvalid None);;
  guard_M (negb (String.eqb status "succeeded") && bool_decide (errorCode = None)) (jobInvalid None);;
  let expectedStatuses :=
    if String.eqb status "interrupted" then [Queued; Running]
    else if String.eqb status "skipped" then [Queued; Running] else [Running] in
  mutateRun jobId runId expectedStatuses (fi_expectedRevision input) (λ row,
    run_stmt (sql_finishRun status
      (match fi_phase input with Some p => Some p | None => rr_phase row end)
      errorCode errorMessage finishedAt finishedAt runId (rr_revision row))).

(** The loop of [markAllInterrupted]. *)
(** src/server/job-repository.ts:724-732 states *)
Fixpoint interrupt_each (active : list RunRow) (at_ : Z) : M (list JobRunState) :=
  match active with
  | [] => mret []
  | row :: rest =>
      changes ← run_stmt (sql_interruptRun (code_string JOB_INTERRUPTED)
        (error_message (app_error JOB_INTERRUPTED)) at_ at_ (rr_id row) (rr_revision row));
      here ← (if changes =? 1 then
        updated ← query (sql_getRunById (rr_id row));
        match updated with
        | Some row' => s ← lift_result (runState row'); mret [s]
        | None => mret []
        end
      else mret []);
      others ← interrupt_each rest at_;
      mret (here ++ others)%list
  end.

(** src/server/job-repository.ts:719-735 markAllInterrupted *)
Definition markAllInterrupted (at_ clock : jsval) : M (list JobRunState) :=
  at_ ← lift_result (given_now at_ clock);
  database (transaction (
    active ← query sql_allActiveRuns;
    interrupt_each active at_)).

(** src/server/job-repository.ts:770-777 getRun *)
Definition getRun (jobId runId : string) : M JobRunState := database (
  read (requireJobRow jobId);;
  found ← query (sql_getRun jobId runId);
  match found with
  | None => throw (app_error JOB_NOT_FOUND)
  | Some row => lift_result (runState row)
  end).

End repository.
