(* ===== verification/JobLifecycle.v ===== *)
(** What the operations of the job repository do to the stored rows, whatever
    their arguments and whatever they return: the schema's invariant, the
    lifecycle of an attempt, and that a failed operation changes nothing. *)
From S2P Require Import Prelude Errors Jobs JobSchedule JobStore JobRepository.
#[local] Open Scope string_scope. #[local] Open Scope Z_scope.

(** ** Reasoning about the effect of an operation on the database *)

(** [m] relates the database before it to the one after it. *)
Definition always (Rel : db → db → Prop) {A} (m : M A) : Prop := ∀ d, Rel d (m d).2.

Create HintDb always.

Section always.
Context {Rel : db → db → Prop} `{!PreOrder Rel}.

Lemma always_ret {A} (a : A) : always Rel (mret a).
Proof. intros d. cbn. reflexivity. Qed.
Lemma always_throw {A} e : always Rel (throw e : M A).
Proof. intros d. cbn. reflexivity. Qed.
Lemma always_guard c e : always Rel (guard_M c e).
Proof. intros d. unfold guard_M. destruct c; cbn; reflexivity. Qed.
Lemma always_lift {A} (r : result thrown A) : always Rel (lift_result r).
Proof. intros d. cbn. reflexivity. Qed.
Lemma always_query {A} (q : db → A) : always Rel (query q).
Proof. intros d. cbn. reflexivity. Qed.
Lemma always_read {A} (q : db → result thrown A) : always Rel (read q).
Proof. intros d. cbn. reflexivity. Qed.
Lemma always_bind {A B} (m : M A) (f : A → M B) :
  always Rel m → (∀ a, always Rel (f a)) → always Rel (m ≫= f).
Proof.
  intros Hm Hf d. unfold mbind, M_bind. specialize (Hm d).
  destruct (m d) as [[a|e] d']; cbn in *; [|done]. etransitivity; [done|apply Hf].
Qed.
Lemma always_transaction {A} (m : M A) : always Rel m → always Rel (transaction m).
Proof.
  intros Hm d. unfold transaction. specialize (Hm d).
  destruct (m d) as [[a|e] d']; cbn in *; [done|reflexivity].
Qed.
Lemma always_database {A} (m : M A) : always Rel m → always Rel (database m).
Proof.
  intros Hm d. unfold database. specialize (Hm d). destruct (m d) as [[a|e] d']; done.
Qed.
Lemma always_stmt st :
  (∀ d n d', st d = Ok (n, d') → Rel d d') → always Rel (run_stmt st).
Proof.
  intros H d. unfold run_stmt. destruct (st d) as [[n d']|e] eqn:E; cbn; [by eapply H|reflexivity].
Qed.
Lemma always_insert st :
  (∀ d d', st d = Ok d' → Rel d d') → always Rel (run_insert st).
Proof.
  intros H d. unfold run_insert. destruct (st d) as [d'|e] eqn:E; cbn; [by apply H|reflexivity].
Qed.
End always.

#[export] Hint Resolve always_ret always_throw always_guard always_lift always_query always_read
  : always.

(** Splits an operation into its statements. *)
Ltac always_step :=
  match goal with
  | |- always _ (_ ≫= _) => apply always_bind; [|intros]
  | |- always _ (database _) => apply always_database
  | |- always _ (transaction _) => apply always_transaction
  | |- always _ (let '_ := ?x in _) => destruct x
  | |- always _ (match ?x with _ => _ end) => destruct x
  | |- always _ _ => solve [auto with always typeclass_instances]
  end.
Ltac always_auto := repeat (first [always_step | progress cbn zeta]).

(** ** The lifecycle of an attempt *)

Definition terminal (r : RunRow) : Prop := is_active r = false.

(** [r'] is a later version of the attempt [r]: the columns that identify it
    never change, every change raises the revision, an attempt only moves from
    queued to running and from either to a terminal status, a running attempt
    keeps its start time, an attached conversation stays attached, and a
    terminal attempt is frozen. *)
Record run_evolves (r r' : RunRow) : Prop := {
  ev_identity : rr_id r' = rr_id r ∧ rr_job_id r' = rr_job_id r ∧ rr_trigger r' = rr_trigger r
    ∧ rr_scheduled_for r' = rr_scheduled_for r ∧ rr_created_at r' = rr_created_at r;
  ev_revision : r' = r ∨ rr_revision r < rr_revision r';
  ev_terminal : terminal r → r' = r;
  ev_running : rr_status r = "running" →
    (rr_status r' = "running" ∨ terminal r') ∧ rr_started_at r' = rr_started_at r;
  ev_conversation c : rr_conversation_id r = Some c → rr_conversation_id r' = Some c;
}.

#[export] Instance run_evolves_preorder : PreOrder run_evolves.
Proof.
  split.
  - intros r. split; auto.
  - intros r1 r2 r3 [I1 V1 T1 S1 C1] [I2 V2 T2 S2 C2]. split.
    + intuition congruence.
    + destruct V1 as [->|], V2 as [->|]; auto. right; lia.
    + intros Ht. rewrite (T1 Ht) in *. auto.
    + intros Hr. destruct (S1 Hr) as [[Hr2|Ht] Hs].
      * destruct (S2 Hr2). split; [done|congruence].
      * rewrite (T2 Ht). auto.
    + auto.
Qed.

(** A row as a claim inserts it. *)
Definition initial_run (r : RunRow) : Prop :=
  rr_revision r = 0 ∧ rr_conversation_id r = None ∧ rr_started_at r = None ∧
  (rr_status r = "queued" ∧ rr_finished_at r = None ∨
   rr_status r = "skipped" ∧ rr_finished_at r = Some (rr_created_at r)).

(** What an operation other than a deletion does to the database. *)
Record db_evolves (d d' : db) : Prop := {
  dv_ok : db_ok d → db_ok d';
  dv_workspaces : db_workspaces d' = db_workspaces d;
  dv_jobs id j : db_jobs d !! id = Some j →
    ∃ j', db_jobs d' !! id = Some j' ∧ jr_id j' = jr_id j ∧ jr_created_at j' = jr_created_at j;
  dv_runs id r : db_runs d !! id = Some r → ∃ r', db_runs d' !! id = Some r' ∧ run_evolves r r';
  dv_new id r' : db_runs d !! id = None → db_runs d' !! id = Some r' →
    ∃ r, initial_run r ∧ run_evolves r r';
}.

#[export] Instance db_evolves_preorder : PreOrder db_evolves.
Proof.
  split.
  - intros d. split; [done|done|eauto|intros; eexists; split; [done|reflexivity]|congruence].
  - intros d1 d2 d3 [O1 W1 J1 R1 N1] [O2 W2 J2 R2 N2]. split; [auto|congruence|..].
    + intros id j (j2 & H2 & ? & ?)%J1. destruct (J2 _ _ H2) as (j3 & ? & ? & ?).
      exists j3. split_and!; congruence.
    + intros id r (r2 & H2 & ?)%R1. destruct (R2 _ _ H2) as (r3 & ? & ?).
      exists r3. split; [done|by etransitivity].
    + intros id r3 Hn H3. destruct (db_runs d2 !! id) as [r2|] eqn:H2; [|by eauto].
      destruct (N1 _ _ Hn H2) as (r & ? & ?). destruct (R2 _ _ H2) as (r3' & ? & ?).
      simplify_eq. exists r. split; [done|by etransitivity].
Qed.

Lemma always_guard_bind {Rel : db → db → Prop} `{!PreOrder Rel} {A} c e (k : unit → M A) :
  (c = false → always Rel (k tt)) → always Rel (guard_M c e ≫= k).
Proof.
  intros Hk d. unfold guard_M, mbind, M_bind. destruct c; cbn; [reflexivity|by apply Hk].
Qed.

Lemma always_assoc {Rel : db → db → Prop} {A B C} (m : M A) (f : A → M B) (k : B → M C) :
  always Rel ((m ≫= f) ≫= k) → always Rel (m ≫= (λ a, f a ≫= k)).
Proof.
  intros H d. specialize (H d). unfold mbind, M_bind in *. destruct (m d) as [[a|e] d']; done.
Qed.

Lemma update_job_evolves id g f d n d' :
  (∀ r, jr_id (f r) = jr_id r ∧ jr_created_at (f r) = jr_created_at r) →
  update_job id g f d = Ok (n, d') → db_evolves d d'.
Proof.
  intros Hf Hu. assert (Hok : db_ok d → db_ok d') by (intros; eapply update_job_ok; [done|apply Hf|done]).
  apply update_job_Ok in Hu as [[_ ->]|(_ & r & Hr & _ & _ & _ & ->)]; [reflexivity|].
  split; cbn; [done|done|..|intros; eexists; split; [done|reflexivity]|congruence].
  intros i j Hj. destruct (decide (i = id)) as [->|].
  - rewrite lookup_insert_eq. simplify_eq. eexists. split; [reflexivity|apply Hf].
  - rewrite lookup_insert_ne by done. eauto.
Qed.

Lemma update_run_evolves id g f d n d' :
  (∀ r, g r = true → run_evolves r (f r)) → (∀ r, rr_id (f r) = rr_id r) →
  (∀ r, rr_job_id (f r) = rr_job_id r) →
  update_run id g f d = Ok (n, d') → db_evolves d d'.
Proof.
  intros Hf Hid Hjob Hu.
  assert (Hok : db_ok d → db_ok d') by (intros; by eapply update_run_ok).
  apply update_run_Ok in Hu as [[_ ->]|(_ & r & Hr & Hg & _ & _ & ->)]; [reflexivity|].
  split; cbn; [done|done|eauto|..].
  - intros i s Hs. destruct (decide (i = id)) as [->|].
    + rewrite lookup_insert_eq. simplify_eq. eexists. split; [done|by apply Hf].
    + rewrite lookup_insert_ne by done. eexists. split; [done|reflexivity].
  - intros i s Hn. rewrite lookup_insert_ne by congruence. congruence.
Qed.

Lemma insertJob_evolves r d d' : sql_insertJob r d = Ok d' → db_evolves d d'.
Proof.
  intros Hi. pose proof Hi as (Hn & _ & _ & ->)%sql_insertJob_Ok.
  split; cbn; [by intros; eapply sql_insertJob_ok|done|..
              |intros; eexists; split; [done|reflexivity]|congruence].
  intros i j Hj. rewrite lookup_insert_ne by congruence. eauto.
Qed.

Lemma is_active_spec r : is_active r = true ↔ rr_status r = "queued" ∨ rr_status r = "running".
Proof.
  unfold is_active, is_active_status, one_of. cbn. rewrite !orb_true_iff, !String.eqb_eq. naive_solver.
Qed.

Lemma active_not_terminal r : is_active r = true → ¬ terminal r.
Proof. unfold terminal. congruence. Qed.

Lemma status_active r s : rr_status r = s → s = "queued" ∨ s = "running" → ¬ terminal r.
Proof. intros <- H%is_active_spec. by apply active_not_terminal. Qed.

Definition db_step (d d' : db) : Prop := db_ok d → db_evolves d d'.
#[export] Instance db_step_preorder : PreOrder db_step.
Proof.
  split; [intros d _; reflexivity|]. intros d1 d2 d3 H1 H2 Hd.
  etransitivity; [by apply H1|apply H2]. by apply (dv_ok _ _ (H1 Hd)).
Qed.

(** The obligation of an [UPDATE job_runs] statement. *)
Ltac evolves_run :=
  let H := fresh in intros ? ? ? H _; revert H; apply update_run_evolves; [|done..];
  intros r ?; breflect;
  repeat match goal with H : (_ =? _)%string = true |- _ => apply String.eqb_eq in H end;
  split; cbn;
  [ done
  | right; lia
  | let H := fresh in intros H; exfalso; revert H;
    first [by apply active_not_terminal | eapply status_active; eauto]
  | try (intros; split; [by auto|congruence])
  | congruence ].

Lemma startRun_always phase s u id rev :
  always db_step (run_stmt (sql_startRun phase s u id rev)).
Proof. apply always_stmt. evolves_run. Qed.
Lemma setRunPhase_always phase u id rev :
  always db_step (run_stmt (sql_setRunPhase phase u id rev)).
Proof. apply always_stmt. evolves_run. Qed.
Lemma attachConversation_always c u id rev :
  always db_step (run_stmt (sql_attachConversation c u id rev)).
Proof. apply always_stmt. evolves_run. Qed.
Lemma recordPreHook_always x o e u id p rev :
  always db_step (run_stmt (sql_recordPreHook x o e u id p rev)).
Proof. apply always_stmt. evolves_run. Qed.
Lemma recordPostHook_always x o e u id p rev :
  always db_step (run_stmt (sql_recordPostHook x o e u id p rev)).
Proof. apply always_stmt. evolves_run. Qed.
Lemma finishRun_always st p c m f u id rev :
  one_of st TERMINAL_STATUSES = true →
  always db_step (run_stmt (sql_finishRun st p c m f u id rev)).
Proof.
  intros Hst. apply always_stmt. evolves_run. intros _. split; [right|done].
  unfold terminal, is_active, is_active_status. cbn. unfold one_of in Hst. cbn in Hst.
  repeat rewrite orb_true_iff, String.eqb_eq in Hst.
  destruct_or! Hst; subst; done.
Qed.
Lemma interruptRun_always c m f u id rev :
  always db_step (run_stmt (sql_interruptRun c m f u id rev)).
Proof. apply always_stmt. evolves_run. intros _. split; [by right|done]. Qed.
Lemma updateJob_always n w p k i a t z pre post en nx u id :
  always db_step (run_stmt (sql_updateJob n w p k i a t z pre post en nx u id)).
Proof. apply always_stmt. intros d n' d' H _. revert H. by apply update_job_evolves. Qed.
Lemma disableJob_always u id : always db_step (run_stmt (sql_disableJob u id)).
Proof. apply always_stmt. intros d n' d' H _. revert H. by apply update_job_evolves. Qed.
Lemma advanceDue_always n u id e : always db_step (run_stmt (sql_advanceDue n u id e)).
Proof. apply always_stmt. intros d n' d' H _. revert H. by apply update_job_evolves. Qed.
Lemma insertJob_always r : always db_step (run_insert (sql_insertJob r)).
Proof. apply always_insert. intros d d' H _. revert H. apply insertJob_evolves. Qed.

#[export] Hint Resolve startRun_always setRunPhase_always attachConversation_always
  recordPreHook_always recordPostHook_always finishRun_always interruptRun_always
  updateJob_always disableJob_always advanceDue_always insertJob_always : always.

(** ** Claims *)

(** The row a claim leaves behind. *)
Definition claim_row (runId job : string) (trigger : JobRunTrigger) (scheduledFor : Z)
    (status : JobRunStatus) (code msg : option string) (now : Z) : RunRow :=
  MkRunRow runId job None (trigger_string trigger) scheduledFor None
    (if bool_decide (status = Skipped) then Some now else None) (status_string status) None code msg
    None None None None None None 0 now now.

(** The two statements of [insertClaim]. *)
Definition claim_writes (runId job : string) (trigger : JobRunTrigger) (scheduledFor : Z)
    (status : JobRunStatus) (code msg : option string) (now : Z) : M Z :=
  run_insert (sql_insertRun runId job (trigger_string trigger) scheduledFor
    (status_string status) None code msg now now);;
  match (if bool_decide (status = Skipped) then Some now else None) with
  | Some at_ => run_stmt (sql_finishSkippedClaim at_ runId)
  | None => mret 0
  end.

Lemma set_runs_set_runs d rs rs' : set_runs (set_runs d rs) rs' = set_runs d rs'.
Proof. done. Qed.

(** They succeed together or not at all. *)
Lemma claim_writes_spec runId job trigger at_ status code msg now d :
  db_ok d → status = Queued ∨ status = Skipped →
  let r := claim_row runId job trigger at_ status code msg now in
  (∃ n, claim_writes runId job trigger at_ status code msg now d = (Ok n, set_runs d (<[runId := r]> (db_runs d)))
     ∧ db_runs d !! runId = None ∧ is_Some (db_jobs d !! job)
     ∧ run_row_ok r = true ∧ active_conflict d r = false) ∨
  (∃ e, claim_writes runId job trigger at_ status code msg now d = (Err e, d)).
Proof.
  intros Hd Hst r. unfold claim_writes, mbind, M_bind, run_insert.
  destruct (sql_insertRun _ _ _ _ _ _ _ _ _ _ d) as [d1|e] eqn:Hi; [|right; eauto].
  pose proof Hi as (Hn & Hjob & r0 & Hr0 & Hok & Hc & ->)%sql_insertRun_Ok.
  left. destruct Hst as [-> | ->].
  - exists 0. cbn. subst r0. done.
  - assert (Hrow : run_row_ok r = true).
    { subst r0. unfold r, claim_row, run_row_ok in *. cbn in *.
      repeat rewrite andb_true_iff in *. tauto. }
    exists 1. rewrite bool_decide_true by done. unfold run_stmt, sql_finishSkippedClaim, update_run.
    cbn [db_runs set_runs]. rewrite lookup_insert_eq. subst r0. cbn beta iota delta [negb].
    match goal with |- context [run_row_ok ?x] => change x with r end.
    rewrite Hrow. cbn. rewrite insert_insert_eq. done.
Qed.

Lemma claim_evolves d runId r :
  db_ok d → db_runs d !! runId = None → rr_id r = runId → run_row_ok r = true →
  is_Some (db_jobs d !! rr_job_id r) → active_conflict d r = false → initial_run r →
  db_evolves d (set_runs d (<[runId := r]> (db_runs d))).
Proof.
  intros Hd Hn Hid Hok Hjob Hc Hinit.
  split; cbn; [by intros; apply set_runs_ok|done|by eauto|..].
  - intros i s Hs. rewrite lookup_insert_ne by congruence. exists s. split; [done|reflexivity].
  - intros i s Hi. destruct (decide (i = runId)) as [->|].
    + rewrite lookup_insert_eq. intros [= <-]. exists r. split; [done|reflexivity].
    + rewrite lookup_insert_ne by done. congruence.
Qed.

Lemma initial_claim_row runId job trigger at_ status code msg now :
  status = Queued ∨ status = Skipped →
  initial_run (claim_row runId job trigger at_ status code msg now).
Proof. intros [-> | ->]; unfold initial_run; cbn; split_and!; auto. Qed.

Lemma claim_writes_step runId job trigger at_ status code msg now :
  status = Queued ∨ status = Skipped →
  always db_step (claim_writes runId job trigger at_ status code msg now).
Proof.
  intros Hst d Hd.
  destruct (claim_writes_spec runId job trigger at_ status code msg now d Hd Hst)
    as [(n & -> & ? & ? & ? & ?)|[e ->]]; [|reflexivity].
  apply claim_evolves; auto. by apply initial_claim_row.
Qed.

(** ** Operations that leave the database alone when they fail *)

(** An error leaves the database as it was. *)
Definition atomic {A} (m : M A) : Prop := ∀ d e d', db_ok d → m d = (Err e, d') → d' = d.
(** Neither outcome changes the database. *)
Definition pure {A} (m : M A) : Prop := ∀ d, (m d).2 = d.

Lemma pure_atomic {A} (m : M A) : pure m → atomic m.
Proof. intros H d e d' _ E. by rewrite <-(H d), E. Qed.
Lemma pure_always {A} (m : M A) : pure m ↔ always (λ d d', d' = d) m.
Proof. done. Qed.
#[export] Instance unchanged_preorder : PreOrder (λ d d' : db, d' = d).
Proof. split; [done|]. intros ? ? ? -> ->. done. Qed.

Lemma atomic_transaction {A} (m : M A) : atomic (transaction m).
Proof. intros d e d' _. unfold transaction. destruct (m d) as [[a|e'] d1]; naive_solver. Qed.
Lemma atomic_database {A} (m : M A) : atomic m → atomic (database m).
Proof.
  intros Hm d e d' Hd. unfold database. destruct (m d) as [[a|e'] d1] eqn:E; [done|].
  intros [= _ <-]. by eapply Hm.
Qed.
Lemma atomic_bind {A B} (m : M A) (k : A → M B) :
  pure m → (∀ a, atomic (k a)) → atomic (m ≫= k).
Proof.
  intros Hm Hk d e d' Hd. unfold mbind, M_bind. specialize (Hm d).
  destruct (m d) as [[a|e'] d1]; cbn in Hm; subst; [by apply Hk|naive_solver].
Qed.
(** Nothing that can fail may follow a write. *)
Lemma atomic_then_ret {A B} (m : M A) (b : B) : atomic m → atomic (m;; mret b).
Proof.
  intros Hm d e d' Hd. unfold mbind, M_bind. destruct (m d) as [[a|e'] d1] eqn:E; [done|].
  intros [= <- <-]. by eapply Hm.
Qed.
Lemma atomic_write {A B} (m : M A) (k : A → M B) :
  atomic m → (∀ d a d1, db_ok d → m d = (Ok a, d1) → ∃ b d2, k a d1 = (Ok b, d2)) →
  atomic (m ≫= k).
Proof.
  intros Hm Hk d e d' Hd. unfold mbind, M_bind. destruct (m d) as [[a|e'] d1] eqn:E.
  - destruct (Hk d a d1 Hd E) as (b & d2 & ->). done.
  - intros [= <- <-]. by eapply Hm.
Qed.

Section calls.
Context `{IntlData} `{Temporal} (R : Repository).

(** What [insertClaim] does after its statements. *)
Definition claim_result (job runId : string) : M ClaimedJobRun :=
  updatedJob ← read (requireJobRow job);
  inserted ← query (sql_getRunById runId);
  match inserted with
  | None => throw (Foreign None "Inserted job run disappeared")
  | Some run =>
      job ← read (summary R updatedJob);
      state ← lift_result (runState R run);
      mret {| claim_job := job; claim_run := state |}
  end.

Lemma insertClaim_eq row trigger at_ status code msg now uuid d :
  insertClaim R row trigger at_ status code msg now uuid d =
  (runId ← lift_result (newId uuid);
   claim_writes runId (jr_id row) trigger at_ status code msg now;;
   claim_result (jr_id row) runId) d.
Proof.
  unfold insertClaim, claim_writes, claim_result, mbind, M_bind.
  destruct (lift_result (newId uuid) d) as [[runId|e] d1]; [|done].
  by destruct (run_insert _ d1) as [[[]|e] d2].
Qed.

Lemma insertClaim_always row trigger at_ status code msg now uuid :
  status = Queued ∨ status = Skipped →
  always db_step (insertClaim R row trigger at_ status code msg now uuid).
Proof.
  intros Hst d. rewrite insertClaim_eq. revert d.
  change (always db_step (runId ← lift_result (newId uuid);
    claim_writes runId (jr_id row) trigger at_ status code msg now;;
    claim_result (jr_id row) runId)).
  apply always_bind; [auto with always typeclass_instances|intros runId].
  apply always_bind; [by apply claim_writes_step|intros _]. unfold claim_result. always_auto.
Qed.

Lemma mutateRun_always jobId runId sts rev (st : RunRow → M Z) :
  (∀ row, always db_step (st row)) → always db_step (mutateRun R jobId runId sts rev st).
Proof. intros Hst. unfold mutateRun. always_auto. Qed.

(** ** Calls *)

(** A call of an operation other than [delete]. *)
Inductive call :=
| CList | CGet (jobId : string) | CReferencesWorkspace (workspaceId : string) | CListEnabled
| CListDue (now clock : jsval) | CNextDueAt
| CCreate (input clock uuid : jsval) | CUpdate (jobId : string) (changes clock : jsval)
| CEnable (jobId : string) (clock : jsval) | CDisable (jobId : string) (clock : jsval)
| CClaimManual (jobId : string) (now clock uuid : jsval)
| CClaimDue (jobId : string) (now clock uuid : jsval)
| CClaimStartupCatchUp (jobId : string) (now clock uuid : jsval)
| CStartRun (jobId runId : string) (phase : option string) (startedAt clock : jsval) (rev : option Z)
| CSetRunPhase (jobId runId phase : string) (clock : jsval) (rev : option Z)
| CAttachConversation (jobId runId conversationId : string) (clock : jsval) (rev : option Z)
| CRecordHookResult (jobId runId : string) (hook : hook_side) (res : HookResultInput) (clock : jsval)
| CFinishRun (jobId runId : string) (input : FinishJobRunInput) (clock : jsval)
| CMarkAllInterrupted (at_ clock : jsval) | CGetRun (jobId runId : string).

(** The call with its result dropped. *)
Definition exec (c : call) : M unit :=
  match c with
  | CList => list_jobs R;; mret tt
  | CGet j => get R j;; mret tt
  | CReferencesWorkspace w => referencesWorkspace w;; mret tt
  | CListEnabled => listEnabled R;; mret tt
  | CListDue n c => listDue R n c;; mret tt
  | CNextDueAt => nextDueAt;; mret tt
  | CCreate i c u => create R i c u;; mret tt
  | CUpdate j ch c => update R j ch c;; mret tt
  | CEnable j c => enable R j c;; mret tt
  | CDisable j c => disable R j c;; mret tt
  | CClaimManual j n c u => claimManual R j n c u;; mret tt
  | CClaimDue j n c u => claimDue R j n c u;; mret tt
  | CClaimStartupCatchUp j n c u => claimStartupCatchUp R j n c u;; mret tt
  | CStartRun j r p s c v => startRun R j r p s c v;; mret tt
  | CSetRunPhase j r p c v => setRunPhase R j r p c v;; mret tt
  | CAttachConversation j r x c v => attachConversation R j r x c v;; mret tt
  | CRecordHookResult j r h x c => recordHookResult R j r h x c;; mret tt
  | CFinishRun j r i c => finishRun R j r i c;; mret tt
  | CMarkAllInterrupted a c => markAllInterrupted R a c;; mret tt
  | CGetRun j r => getRun R j r;; mret tt
  end.

Lemma update_always jobId changes clock : always db_step (update R jobId changes clock).
Proof. unfold update, update_fields. cbn zeta. always_auto. Qed.

Lemma create_always input clock uuid : always db_step (create R input clock uuid).
Proof. unfold create, get. always_auto. Qed.

Lemma claimScheduled_always jobId at_ trigger uuid :
  always db_step (claimScheduled R jobId at_ trigger uuid).
Proof. unfold claimScheduled. always_auto; apply insertClaim_always; auto. Qed.

Lemma claimManual_always jobId now clock uuid :
  always db_step (claimManual R jobId now clock uuid).
Proof. unfold claimManual. always_auto; apply insertClaim_always; auto. Qed.

Lemma finishRun_call_always jobId runId input clock :
  always db_step (finishRun R jobId runId input clock).
Proof.
  unfold finishRun. apply always_guard_bind. intros Hst%negb_false_iff.
  always_auto; apply mutateRun_always; intros; by apply finishRun_always.
Qed.

Lemma interrupt_each_always active at_ : always db_step (interrupt_each R active at_).
Proof. induction active as [|row rest IH]; cbn; always_auto; apply IH. Qed.

Lemma exec_always c : always db_step (exec c).
Proof.
  destruct c; cbn [exec]; (apply always_bind; [|intros; apply always_ret]).
  all: unfold list_jobs, get, referencesWorkspace, listEnabled, listDue, nextDueAt, enable, disable,
    claimDue, claimStartupCatchUp, startRun, setRunPhase, attachConversation, recordHookResult,
    markAllInterrupted, getRun.
  all: first [ apply update_always | apply create_always | apply claimManual_always
             | apply finishRun_call_always | always_auto ].
  all: first [ apply claimScheduled_always | apply interrupt_each_always
             | apply mutateRun_always; intros; always_auto ].
  destruct hook; auto with always.
Qed.

Lemma delete_job_Ok jobId d u d' :
  delete_job jobId d = (Ok u, d') →
  (∃ j, db_jobs d !! jobId = Some j) ∧ sql_activeRun jobId d = None ∧ d' = (sql_deleteJob jobId d).2.
Proof.
  unfold delete_job, database, transaction, mbind, M_bind, read, query, guard_M, run_stmt, sql_deleteJob.
  intros Hd. destruct (requireJobRow jobId d) eqn:Er; [|done].
  destruct (sql_activeRun jobId d) eqn:Ea; cbn in Hd; [done|].
  destruct (db_jobs d !! jobId) eqn:Ej; cbn in Hd; simplify_eq. eauto.
Qed.

Lemma delete_job_atomic jobId : atomic (delete_job jobId).
Proof. apply atomic_database, atomic_transaction. Qed.

Lemma delete_job_ok jobId d : db_ok d → db_ok (delete_job jobId d).2.
Proof.
  intros Hd. destruct (delete_job jobId d) as [[u|e] d'] eqn:E.
  - apply delete_job_Ok in E as (_ & _ & ->). by apply sql_deleteJob_ok.
  - by apply delete_job_atomic in E as ->.
Qed.

(** A job without attempts. *)
Lemma no_runs_queries job d :
  (∀ id r, db_runs d !! id = Some r → rr_job_id r ≠ job) →
  sql_activeRun job d = None ∧ sql_lastRun job d = None.
Proof.
  intros Hno. split.
  - apply sql_activeRun_None. intros id r Hr Hj. by destruct (Hno _ _ Hr).
  - unfold sql_lastRun, job_runs_desc.
    destruct (filter (λ r, rr_job_id r = job) (runs_list d)) as [|r l] eqn:E; [done|].
    assert (Hin : r ∈ filter (λ r, rr_job_id r = job) (runs_list d)) by (rewrite E; left).
    apply list_elem_of_filter in Hin as [Hj [id Hr]%elem_of_runs_list]. by destruct (Hno _ _ Hr).
Qed.

(** The columns a summary copies. *)
Lemma summary_Ok row w d s :
  summary R (row, w) d = Ok s →
  js_id s = jr_id row ∧ js_name s = trim (jr_name row) ∧ js_workspaceId s = jr_workspace_id row ∧
  js_prompt s = jr_prompt row ∧ js_preRunScript s = jr_pre_run_script row ∧
  js_postRunScript s = jr_post_run_script row ∧ js_enabled s = (jr_enabled row =? 1) ∧
  js_nextRunAt s = jr_next_run_at row ∧ js_createdAt s = jr_created_at row ∧
  js_updatedAt s = jr_updated_at row ∧
  js_schedule s = match (validatedSchedule row).1 with Some x => Valid x | None => Raw (rawSchedule row) end ∧
  opt_summary (sql_activeRun (jr_id row) d) = Ok (js_activeRun s) ∧
  opt_summary (sql_lastRun (jr_id row) d) = Ok (js_lastRun s).
Proof.
  unfold summary. destruct (match r_workspaceStatus R with Some _ => _ | None => _ end) as [[nm av] iss].
  intros Hs. inv_bind Hs. simplify_eq. cbn. split_and!; done.
Qed.

Lemma summary_no_runs row w d :
  sql_activeRun (jr_id row) d = None → sql_lastRun (jr_id row) d = None →
  ∃ s, summary R (row, w) d = Ok s.
Proof.
  intros Ha Hl. unfold summary. rewrite Ha, Hl.
  destruct (match r_workspaceStatus R with Some _ => _ | None => _ end) as [[nm av] iss].
  cbn. eauto.
Qed.

Lemma requireJobRow_Ok id d row w :
  requireJobRow id d = Ok (row, w) →
  validIdentifier (VStr id) = true ∧ db_jobs d !! id = Some row ∧
  db_workspaces d !! jr_workspace_id row = Some w.
Proof.
  unfold requireJobRow. destruct (validIdentifier (VStr id)) eqn:Ev; [|done]. cbn.
  destruct (sql_getJob id d) as [[r w']|] eqn:E; [|done]. intros [= -> ->].
  by apply sql_getJob_Some in E as [??].
Qed.

Lemma requireJobRow_lookup id d row w :
  validIdentifier (VStr id) = true → db_jobs d !! id = Some row →
  db_workspaces d !! jr_workspace_id row = Some w → requireJobRow id d = Ok (row, w).
Proof.
  intros Hv Hj Hw. unfold requireJobRow, sql_getJob. rewrite Hv, Hj. cbn. rewrite Hw. done.
Qed.

(** Reading back a job just inserted. *)
Lemma get_inserted row d d' :
  db_ok d → validIdentifier (VStr (jr_id row)) = true → sql_insertJob row d = Ok d' →
  ∃ w s, db_workspaces d !! jr_workspace_id row = Some w ∧ summary R (row, w) d' = Ok s ∧
    js_activeRun s = None ∧ js_lastRun s = None ∧ get R (jr_id row) d' = (Ok s, d').
Proof.
  intros Hd Hv (Hn & _ & [w Hw] & ->)%sql_insertJob_Ok.
  destruct (no_runs_queries (jr_id row) (set_jobs d (<[jr_id row:=row]> (db_jobs d)))) as [Ha Hl].
  { intros id r Hr E. destruct (runs_ok _ Hd _ _ Hr) as (_ & _ & [j Hj]). congruence. }
  destruct (summary_no_runs row w _ Ha Hl) as [s Hs]. exists w, s.
  pose proof (summary_Ok _ _ _ _ Hs) as Hf. rewrite Ha, Hl in Hf. cbn in Hf.
  split_and!; [done|done|intuition congruence|intuition congruence|].
  unfold get, database, mbind, M_bind, read.
  rewrite (requireJobRow_lookup _ _ row w); [by rewrite Hs|done|apply lookup_insert_eq|done].
Qed.
(** The insertion of [create]. *)
Lemma insert_then_get_atomic row :
  validIdentifier (VStr (jr_id row)) = true →
  atomic (database (exists_ ← query (sql_workspaceExists (jr_workspace_id row));
                    guard_M (negb exists_) (jobInvalid None);;
                    run_insert (sql_insertJob row));; get R (jr_id row)).
Proof.
  intros Hv. apply atomic_write.
  - apply atomic_database. intros d e d' _. unfold mbind, M_bind, query, guard_M, run_insert.
    destruct (sql_workspaceExists _ d); cbn; [|naive_solver].
    destruct (sql_insertJob row d); naive_solver.
  - intros d [] d1 Hd. unfold database, mbind, M_bind, query, guard_M, run_insert.
    destruct (sql_workspaceExists _ d); cbn; [|done].
    destruct (sql_insertJob row d) eqn:Hi; [|done]. intros [= <-].
    destruct (get_inserted row d a Hd Hv Hi) as (w & s & _ & _ & _ & _ & Hg). eauto.
Qed.

Lemma repo_workspaceId_Ok v s : repo_workspaceId v = Ok s → v = VStr s ∧ validIdentifier (VStr s) = true.
Proof. destruct v as [| | | |s'|]; cbn -[validIdentifier]; try done. case_match; naive_solver. Qed.

Lemma atomic_lift_bind {A B} (r : result thrown A) (k : A → M B) :
  (∀ a, r = Ok a → atomic (k a)) → atomic (lift_result r ≫= k).
Proof.
  intros Hk d e d' Hd. unfold mbind, M_bind, lift_result. destruct r as [a|e']; [by apply Hk|naive_solver].
Qed.

Lemma create_atomic input clock uuid : atomic (create R input clock uuid).
Proof.
  unfold create. repeat (apply atomic_lift_bind; intros).
  destruct (schedule_columns _) as [[[[kind minutes] anchor] time] zone].
  match goal with H : newId _ = Ok _ |- _ => apply repo_workspaceId_Ok in H as [_ Hv] end.
  match goal with |- context [sql_insertJob ?row] => apply (insert_then_get_atomic row Hv) end.
Qed.

Ltac atomic_auto := repeat (first
  [ apply atomic_transaction
  | apply atomic_database
  | apply atomic_lift_bind; intros ? _
  | match goal with |- atomic (match ?x with _ => _ end) => destruct x end
  | apply pure_atomic, pure_always; solve [always_auto]
  | apply atomic_bind; [apply pure_always; solve [always_auto]|intros] ]).

Lemma exec_atomic c : atomic (exec c).
Proof.
  destruct c; cbn [exec]; apply atomic_then_ret; try apply create_atomic.
  all: unfold list_jobs, get, referencesWorkspace, listEnabled, listDue, nextDueAt, enable, disable,
    claimDue, claimStartupCatchUp, claimScheduled, claimManual, startRun, setRunPhase,
    attachConversation, recordHookResult, finishRun, mutateRun, markAllInterrupted, getRun, update.
  all: atomic_auto.
Qed.
End calls.

(** A concrete deployment for the witnesses: no callbacks, the clock's zone is
    UTC, code-unit order for names. *)
Definition sample_intl : IntlData := {| intl_zones := ["UTC"]; formatToParts := λ _ _, Ok [] |}.
Definition string_order (s t : string) : Z :=
  match String.compare s t with Lt => -1 | Eq => 0 | Gt => 1 end.
Definition sample_repository : Repository := {|
  r_workspaceStatus := None; r_conversationAvailable := None; r_hookPathAdmission := None;
  r_hookWorkspacePolicy := None; r_localeCompareBase := string_order; r_localeCompare := string_order |}.
Definition empty_db (workspaces : gmap string string) : db :=
  {| db_workspaces := workspaces; db_jobs := ∅; db_runs := ∅ |}.
Definition sample_db : db := empty_db {[ "w" := "Work" ]}.
Definition ms (z : Z) : jsval := VNum (JInt z).
Definition sample_job : jsval := VObj [("name", VStr " Nightly "); ("workspaceId", VStr "w");
  ("prompt", VStr "do it"); ("schedule", VObj [("kind", VStr "interval"); ("intervalMinutes", ms 5)]);
  ("enabled", VBool true)].
#[local] Existing Instance sample_intl.
#[local] Existing Instance OneChange.utc.
(** One job at time 1000, claimed manually at 2000 and started. *)
Definition sample_calls : list call := [
  CCreate sample_job (ms 1000) (VStr "j");
  CClaimManual "j" VUndefined (ms 2000) (VStr "r");
  CStartRun "j" "r" (Some "prompt") VUndefined (ms 3000) (Some 0)].
Definition exec_all (R : Repository) (cs : list call) (d : db) : db :=
  fold_left (λ d c, (exec R c d).2) cs d.
Definition sample_running : db := exec_all sample_repository sample_calls sample_db.

Lemma empty_db_ok ws : db_ok (empty_db ws).
Proof. split; cbn; intros; by rewrite lookup_empty in *. Qed.

Lemma exec_all_ok `{IntlData} `{Temporal} (R : Repository) cs d :
  db_ok d → db_ok (fold_left (λ d c, (exec R c d).2) cs d).
Proof.
  revert d. induction cs as [|c cs IH]; intros d Hd; [done|]. cbn. apply IH.
  by apply (dv_ok _ _ (exec_always R c d Hd)).
Qed.

(** Whatever an operation of the repository other than a deletion is given
    and whatever it returns, it keeps the schema's invariant (unique keys,
    references, at most one active attempt per job), keeps every job and its
    creation time, and moves every stored attempt along its lifecycle only:
    its identity columns never change, each change raises its revision, a
    running attempt stays running or becomes terminal and keeps its start time,
    an attached conversation stays attached, a terminal attempt is never
    changed again; every new attempt starts queued or skipped. *)
Lemma attempt_lifecycle `{IntlData} `{Temporal} (R : Repository) (c : call) (d : db) :
  db_ok d →
  let d' := (exec R c d).2 in
  db_ok d' ∧ db_workspaces d' = db_workspaces d ∧
  (∀ id j, db_jobs d !! id = Some j →
     ∃ j', db_jobs d' !! id = Some j' ∧ jr_id j' = jr_id j ∧ jr_created_at j' = jr_created_at j) ∧
  (∀ id r, db_runs d !! id = Some r → ∃ r', db_runs d' !! id = Some r' ∧ run_evolves r r') ∧
  (∀ id r', db_runs d !! id = None → db_runs d' !! id = Some r' →
     ∃ r, initial_run r ∧ run_evolves r r').
Proof. intros Hd. destruct (exec_always R c d Hd) as [Hok ????]. split_and!; eauto. Qed.

Lemma attempt_lifecycle_witness :
  let d' := (exec sample_repository (CMarkAllInterrupted VUndefined (ms 9000)) sample_running).2 in
  (rr_status <$> db_runs sample_running !! "r") = Some "running" ∧
  (rr_status <$> db_runs d' !! "r") = Some "interrupted" ∧ db_ok d'.
Proof.
  split_and!; [vm_compute; reflexivity|vm_compute; reflexivity|].
  exact (proj1 (attempt_lifecycle sample_repository (CMarkAllInterrupted VUndefined (ms 9000))
    sample_running (exec_all_ok sample_repository sample_calls sample_db (empty_db_ok _)))).
Defined.

(** An operation that throws leaves the database exactly as it was, the
    unguarded insertion of [create] included: reading the new job back cannot
    fail. The same holds for [delete]. *)
Lemma failed_operation_changes_nothing `{IntlData} `{Temporal} (R : Repository) (d : db) :
  db_ok d →
  (∀ c e d', exec R c d = (Err e, d') → d' = d) ∧
  (∀ jobId e d', delete_job jobId d = (Err e, d') → d' = d).
Proof. intros Hd. split; intros; [by eapply exec_atomic|by eapply delete_job_atomic]. Qed.

Lemma failed_operation_changes_nothing_witness :
  (∃ e, exec sample_repository (CClaimManual "j" VUndefined (ms 4000) (VStr "r2")) sample_running
        = (Err e, sample_running) ∧ error_code e = Some JOB_ALREADY_RUNNING) ∧
  (∀ c e d', exec sample_repository c sample_running = (Err e, d') → d' = sample_running).
Proof.
  split; [eexists; split; vm_compute; reflexivity|].
  exact (proj1 (failed_operation_changes_nothing sample_repository sample_running
    (exec_all_ok sample_repository sample_calls sample_db (empty_db_ok _)))).
Defined.
