(* ===== verification/JobAttempts.v ===== *)
(** Attempts over whole histories of calls: what a stored attempt of each
    status looks like, optimistic concurrency by revision, the claims and the
    recovery of interrupted attempts. *)
From S2P Require Import Prelude Errors Jobs JobSchedule JobStore JobRepository JobLifecycle.
#[local] Open Scope string_scope. #[local] Open Scope Z_scope.

#[local] Arguments one_of : simpl never.

(** ** Well-formed attempts *)

(** What the columns of an attempt say, by status: a queued attempt is
    untouched, a running one has started and has no outcome, a success has no
    error and every other outcome has one; outcomes have a finish time. *)
Definition run_wf (r : RunRow) : Prop :=
  (rr_status r = "queued" ∧ rr_started_at r = None ∧ rr_finished_at r = None ∧
     rr_error_code r = None ∧ rr_conversation_id r = None ∧ rr_phase r = None ∧ rr_revision r = 0) ∨
  (rr_status r = "running" ∧ is_Some (rr_started_at r) ∧ rr_finished_at r = None ∧
     rr_error_code r = None ∧ 0 < rr_revision r) ∨
  (rr_status r = "succeeded" ∧ is_Some (rr_started_at r) ∧ is_Some (rr_finished_at r) ∧
     rr_error_code r = None ∧ rr_error_message r = None) ∨
  (one_of (rr_status r) ["failed"; "blocked"; "aborted"] = true ∧ is_Some (rr_started_at r) ∧
     is_Some (rr_finished_at r) ∧ is_Some (rr_error_code r)) ∨
  (one_of (rr_status r) ["skipped"; "interrupted"] = true ∧ is_Some (rr_finished_at r) ∧ is_Some (rr_error_code r)).

Definition db_good (d : db) : Prop := db_ok d ∧ ∀ id r, db_runs d !! id = Some r → run_wf r.
Definition good_step (d d' : db) : Prop := db_good d → db_good d'.
#[export] Instance good_step_preorder : PreOrder good_step.
Proof. split; [by intros d H|]. intros d1 d2 d3 H1 H2 Hd. auto. Qed.

Lemma good_stmt st :
  always db_step (run_stmt st) →
  (∀ d n d', st d = Ok (n, d') → (∀ id r, db_runs d !! id = Some r → run_wf r) →
             ∀ id r, db_runs d' !! id = Some r → run_wf r) →
  always good_step (run_stmt st).
Proof.
  intros Hst Hwf d [Hd Hr]. specialize (Hst d Hd). unfold run_stmt in *.
  destruct (st d) as [[n d']|e] eqn:E; cbn in *; [|done].
  split; [by apply (dv_ok _ _ Hst)|by eapply Hwf].
Qed.

Lemma good_update_run id g f :
  always db_step (run_stmt (update_run id g f)) →
  (∀ r, g r = true → run_wf r → run_wf (f r)) →
  always good_step (run_stmt (update_run id g f)).
Proof.
  intros Hst Hf. apply good_stmt; [done|]. intros d n d' Hu Hr.
  apply update_run_Ok in Hu as [[_ ->]|(_ & r & Hlr & Hg & _ & _ & ->)]; [done|].
  intros i s. cbn. destruct (decide (i = id)) as [->|].
  - rewrite lookup_insert_eq. intros [= <-]. eauto.
  - rewrite lookup_insert_ne by done. apply Hr.
Qed.

Lemma good_update_job id g f :
  always db_step (run_stmt (update_job id g f)) → always good_step (run_stmt (update_job id g f)).
Proof.
  intros Hst. apply good_stmt; [done|]. intros d n d' Hu Hr.
  by apply update_job_Ok in Hu as [[_ ->]|(_ & r & _ & _ & _ & _ & ->)].
Qed.

(** Contradictory facts about one status. *)
Ltac status_clash :=
  exfalso; match goal with
  | H : one_of (rr_status ?r) _ = true, E : rr_status ?r = _ |- _ => rewrite E in H; discriminate H
  | H : rr_status ?r = _, E : rr_status ?r = _ |- _ => rewrite E in H; discriminate H
  | H : is_active ?r = true, E : one_of (rr_status ?r) _ = true |- _ =>
      apply is_active_spec in H as [H|H]; rewrite H in E; discriminate E
  | H : is_active ?r = true, E : rr_status ?r = _ |- _ =>
      apply is_active_spec in H as [H|H]; rewrite H in E; discriminate E
  end.

Ltac good_run H :=
  apply good_update_run; [apply H|];
  intros r ? Hwf; breflect;
  repeat match goal with H : (_ =? _)%string = true |- _ => apply String.eqb_eq in H end;
  unfold run_wf in *; cbn in *; destruct_or!; destruct_and?;
  try congruence; try status_clash.

Lemma startRun_good phase s u id rev : always good_step (run_stmt (sql_startRun phase s u id rev)).
Proof. good_run startRun_always. right; left. split_and!; eauto; lia. Qed.
Lemma setRunPhase_good phase u id rev : always good_step (run_stmt (sql_setRunPhase phase u id rev)).
Proof. good_run setRunPhase_always. right; left. split_and!; auto; lia. Qed.
Lemma attachConversation_good c u id rev :
  always good_step (run_stmt (sql_attachConversation c u id rev)).
Proof. good_run attachConversation_always. right; left. split_and!; auto; lia. Qed.
Lemma recordPreHook_good x o e u id p rev :
  always good_step (run_stmt (sql_recordPreHook x o e u id p rev)).
Proof. good_run recordPreHook_always. right; left. split_and!; auto; lia. Qed.
Lemma recordPostHook_good x o e u id p rev :
  always good_step (run_stmt (sql_recordPostHook x o e u id p rev)).
Proof. good_run recordPostHook_always. right; left. split_and!; auto; lia. Qed.
Lemma interruptRun_good c m f u id rev : always good_step (run_stmt (sql_interruptRun c m f u id rev)).
Proof. good_run interruptRun_always; do 4 right; split_and!; eauto. Qed.
Lemma updateJob_good n w p k i a t z pre post en nx u id :
  always good_step (run_stmt (sql_updateJob n w p k i a t z pre post en nx u id)).
Proof. apply good_update_job. apply updateJob_always. Qed.
Lemma disableJob_good u id : always good_step (run_stmt (sql_disableJob u id)).
Proof. apply good_update_job. apply disableJob_always. Qed.
Lemma advanceDue_good n u id e : always good_step (run_stmt (sql_advanceDue n u id e)).
Proof. apply good_update_job. apply advanceDue_always. Qed.
Lemma insertJob_good r : always good_step (run_insert (sql_insertJob r)).
Proof.
  apply always_insert. intros d d' Hi [Hd Hr].
  split; [by eapply sql_insertJob_ok|]. by apply sql_insertJob_Ok in Hi as (_ & _ & _ & ->).
Qed.

#[export] Hint Resolve startRun_good setRunPhase_good attachConversation_good recordPreHook_good
  recordPostHook_good interruptRun_good updateJob_good disableJob_good advanceDue_good
  insertJob_good : always.

(** [finishRun] with the statuses and errors the operation lets through. *)
Lemma finishRun_good st p c m f u id rev row :
  one_of st TERMINAL_STATUSES = true →
  (st = "succeeded" → c = None ∧ m = None) → (st ≠ "succeeded" → is_Some c) →
  (st ≠ "interrupted" → st ≠ "skipped" → rr_status row = "running") →
  ∀ d, db_runs d !! id = Some row → good_step d (run_stmt (sql_finishRun st p c m f u id rev) d).2.
Proof.
  intros Hst Hs Hf Hrow d Hl [Hd Hr].
  destruct (run_stmt (sql_finishRun st p c m f u id rev) d) as [o d'] eqn:E.
  assert (Hok : db_ok d').
  { pose proof (finishRun_always st p c m f u id rev Hst d Hd) as Ho. rewrite E in Ho.
    by apply (dv_ok _ _ Ho). }
  split; [done|]. unfold run_stmt in E. destruct (sql_finishRun _ _ _ _ _ _ _ _ d) as [[n d1]|e] eqn:Eu;
    simplify_eq/=; [|done].
  unfold sql_finishRun in Eu. apply update_run_Ok in Eu as [[_ ->]|(_ & r & Hlr & _ & _ & _ & ->)]; [done|].
  simplify_eq. intros i s. cbn. destruct (decide (i = id)) as [->|];
    [|rewrite lookup_insert_ne by done; apply Hr].
  rewrite lookup_insert_eq. intros [= <-]. specialize (Hr _ _ Hl).
  unfold one_of in Hst. cbn in Hst. repeat rewrite orb_true_iff, String.eqb_eq in Hst.
  unfold run_wf in *. cbn.
  assert (Hstart : st ≠ "interrupted" → st ≠ "skipped" → is_Some (rr_started_at row)).
  { intros H1 H2. specialize (Hrow H1 H2). destruct_or!; destruct_and?; try congruence; status_clash. }
  destruct_or! Hst; subst; [| | | | | |done].
  all: try (do 4 right; split_and!; [done|eauto|by apply Hf]).
  all: try (do 3 right; left; split_and!; [done|by apply Hstart|eauto|by apply Hf]).
  do 2 right; left. destruct Hs as [-> ->]; [done|]. split_and!; eauto.
Qed.

(** ** Guarded mutations *)

Section attempts.
Context `{IntlData} `{Temporal} (R : Repository).

Lemma mutateRun_Ok job id sts rev st d s d' :
  mutateRun R job id sts rev st d = (Ok s, d') →
  ∃ row row', db_runs d !! id = Some row ∧ rr_job_id row = job ∧
    includes (rr_status row) (status_string <$> sts) = true ∧
    (∀ v, rev = Some v → rr_revision row = v) ∧ st row d = (Ok 1, d') ∧
    db_runs d' !! id = Some row' ∧ rr_job_id row' = job ∧ runState R row' = Ok s.
Proof.
  unfold mutateRun, database, transaction, mbind, M_bind, query, guard_M, lift_result.
  intros Hm. destruct (sql_getRun job id d) as [row|] eqn:Er; cbn in Hm; [|done].
  apply sql_getRun_Some in Er as [Hl Hj].
  destruct (includes _ _) eqn:Ei; cbn in Hm; [|done].
  assert (Hrev : ∀ v, rev = Some v → rr_revision row = v).
  { intros v ->. destruct (Z.eqb_spec (rr_revision row) v); [done|]. by cbn in Hm. }
  destruct (match rev with Some _ => _ | None => _ end); cbn in Hm; [done|].
  destruct (st row d) as [[n|e] d1] eqn:Est; cbn in Hm; [|done].
  destruct (Z.eqb_spec n 1) as [->|]; cbn in Hm; [|done].
  destruct (sql_getRun job id d1) as [row'|] eqn:Er'; cbn in Hm; [|done].
  apply sql_getRun_Some in Er' as [Hl' Hj'].
  destruct (runState R row') eqn:Ers; cbn in Hm; simplify_eq. by exists row, row'.
Qed.

Lemma mutateRun_rel {Rel : db → db → Prop} `{!PreOrder Rel} job id sts rev st :
  (∀ d row, db_runs d !! id = Some row → includes (rr_status row) (status_string <$> sts) = true →
     Rel d (st row d).2) → always Rel (mutateRun R job id sts rev st).
Proof.
  intros Hst d. destruct (mutateRun R job id sts rev st d) as [[s|e] d'] eqn:E.
  - apply mutateRun_Ok in E as (row & row' & Hl & _ & Hi & _ & E & _).
    specialize (Hst d row Hl Hi). by rewrite E in Hst.
  - unfold mutateRun, database, transaction in E.
    destruct ((_ : M JobRunState) d) as [[s|e'] d1] in E; simplify_eq. cbn. reflexivity.
Qed.

Lemma claim_writes_good runId job trigger at_ status code msg now :
  (status = Queued ∧ code = None) ∨ (status = Skipped ∧ is_Some code) →
  always good_step (claim_writes runId job trigger at_ status code msg now).
Proof.
  intros Hst d [Hd Hr]. assert (Hst' : status = Queued ∨ status = Skipped) by naive_solver.
  pose proof (claim_writes_step runId job trigger at_ status code msg now Hst' d Hd) as Hok.
  destruct (claim_writes_spec runId job trigger at_ status code msg now d Hd Hst')
    as [(n & E & ? & ? & ? & ?)|[e E]]; rewrite E in *; [|done].
  split; [by apply (dv_ok _ _ Hok)|]. intros i s. cbn.
  destruct (decide (i = runId)) as [->|]; [|rewrite lookup_insert_ne by done; apply Hr].
  rewrite lookup_insert_eq. intros [= <-]. unfold run_wf.
  destruct Hst as [[-> ->]|[-> Hc]]; cbn; [by left|]. do 4 right. split_and!; eauto.
Qed.

Lemma insertClaim_good row trigger at_ status code msg now uuid :
  (status = Queued ∧ code = None) ∨ (status = Skipped ∧ is_Some code) →
  always good_step (insertClaim R row trigger at_ status code msg now uuid).
Proof.
  intros Hst d. rewrite insertClaim_eq. revert d.
  change (always good_step (runId ← lift_result (newId uuid);
    claim_writes runId (jr_id row) trigger at_ status code msg now;;
    claim_result R (jr_id row) runId)).
  apply always_bind; [auto with always typeclass_instances|intros runId].
  apply always_bind; [by apply claim_writes_good|intros _]. unfold claim_result. always_auto.
Qed.

Lemma always_lift_bind {Rel : db → db → Prop} `{!PreOrder Rel} {A B} (r : result thrown A) (k : A → M B) :
  (∀ a, r = Ok a → always Rel (k a)) → always Rel (lift_result r ≫= k).
Proof.
  intros Hk d. unfold mbind, M_bind, lift_result. destruct r; [by apply Hk|cbn; reflexivity].
Qed.

Lemma finishRun_call_good job id input clock : always good_step (finishRun R job id input clock).
Proof.
  unfold finishRun. apply always_guard_bind. intros Hst%negb_false_iff.
  do 2 (apply always_lift_bind; intros ? _). do 2 (apply always_guard_bind; intros _).
  apply always_guard_bind; intros Hs. apply always_guard_bind; intros Hf.
  apply mutateRun_rel. intros d row Hl Hi. apply (finishRun_good _ _ _ _ _ _ _ _ row); [done|..|done].
  - intros Heq. apply String.eqb_eq in Heq. rewrite Heq in Hs. cbn in Hs. breflect.
    split; by apply eq_None_not_Some.
  - intros Hne%String.eqb_neq. rewrite Hne in Hf. cbn in Hf. breflect. by apply not_eq_None_Some.
  - intros H1%String.eqb_neq H2%String.eqb_neq. rewrite H1, H2 in Hi. cbn in Hi.
    rewrite orb_false_r in Hi. by apply String.eqb_eq.
Qed.

Lemma interrupt_each_good active at_ : always good_step (interrupt_each R active at_).
Proof. induction active as [|row rest IH]; cbn; always_auto; apply IH. Qed.

Lemma claimScheduled_good job at_ trigger uuid : always good_step (claimScheduled R job at_ trigger uuid).
Proof. unfold claimScheduled. always_auto; apply insertClaim_good; eauto. Qed.
Lemma claimManual_good job now clock uuid : always good_step (claimManual R job now clock uuid).
Proof. unfold claimManual. always_auto; apply insertClaim_good; auto. Qed.

Lemma exec_good c : always good_step (exec R c).
Proof.
  destruct c; cbn [exec]; (apply always_bind; [|intros; apply always_ret]).
  all: unfold list_jobs, get, referencesWorkspace, listEnabled, listDue, nextDueAt, enable, disable,
    claimDue, claimStartupCatchUp, startRun, setRunPhase, attachConversation, recordHookResult,
    markAllInterrupted, getRun, create, update, update_fields, get; cbn zeta.
  all: first [ apply claimManual_good | apply finishRun_call_good | always_auto ].
  all: first [ apply claimScheduled_good | apply interrupt_each_good
             | apply mutateRun_rel; intros d r _ _; revert d;
               match goal with |- ∀ d, _ d (?m d).2 => change (always good_step m) end; always_auto ].
  destruct hook; auto with always.
Qed.
(** ** Mutations of one attempt *)

Inductive mutation :=
| MStart (phase : option string) (startedAt clock : jsval)
| MPhase (phase : string) (clock : jsval)
| MAttach (conversationId : string) (clock : jsval)
| MHook (hook : hook_side) (exitCode : option jsnum) (stdout stderr : string) (clock : jsval)
| MFinish (status : string) (phase errorCode : option string) (errorMessage : option (option string))
    (finishedAt clock : jsval).

Definition run_mutation (job id : string) (m : mutation) (rev : option Z) : M JobRunState :=
  match m with
  | MStart p s c => startRun R job id p s c rev
  | MPhase p c => setRunPhase R job id p c rev
  | MAttach x c => attachConversation R job id x c rev
  | MHook h x o e c => recordHookResult R job id h
      {| hr_exitCode := x; hr_stdout := o; hr_stderr := e; hr_expectedRevision := rev |} c
  | MFinish st p c msg at_ clock => finishRun R job id
      {| fi_status := st; fi_phase := p; fi_errorCode := c; fi_errorMessage := msg;
         fi_finishedAt := at_; fi_expectedRevision := rev |} clock
  end.

(** A statement on the attempt [id] that changes one row raises its revision by one. *)
Definition bumps (id : string) (m : M Z) : Prop := ∀ d d', m d = (Ok 1, d') →
  ∃ r r', db_runs d !! id = Some r ∧ db_runs d' !! id = Some r' ∧ rr_revision r' = rr_revision r + 1.

Lemma bumps_update_run id g f :
  (∀ r, rr_revision (f r) = rr_revision r + 1) → bumps id (run_stmt (update_run id g f)).
Proof.
  intros Hf d d'. unfold run_stmt. destruct (update_run id g f d) as [[n d1]|e] eqn:Hu; [|done].
  intros [= -> <-]. apply update_run_Ok in Hu as [[? _]|(_ & r & Hr & _ & _ & _ & ->)]; [done|].
  exists r, (f r). cbn. by rewrite lookup_insert_eq.
Qed.

Lemma bumps_guard id c e m : bumps id m → bumps id (guard_M c e;; m).
Proof. intros Hm d d'. unfold guard_M, mbind, M_bind. destruct c; cbn; [done|apply Hm]. Qed.

(** A mutation either rejects its arguments or is a guarded statement. *)
Definition shaped (job id : string) (rev : option Z) (m : M JobRunState) : Prop :=
  (∃ e, error_code e = Some JOB_INVALID ∧ ∀ d, m d = (Err e, d)) ∨
  (∃ sts st, (∀ row, bumps id (st row)) ∧ ∀ d, m d = mutateRun R job id sts rev st d).

Lemma shaped_lift {A} job id rev (r : result thrown A) k :
  (∀ e, r = Err e → error_code e = Some JOB_INVALID) → (∀ a, shaped job id rev (k a)) →
  shaped job id rev (lift_result r ≫= k).
Proof. intros He Hk. destruct r as [a|e]; [exact (Hk a)|]. left. exists e. auto. Qed.
Lemma shaped_guard job id rev c k :
  shaped job id rev (k tt) → shaped job id rev (guard_M c (jobInvalid None) ≫= k).
Proof. intros Hk. destruct c; [|exact Hk]. left. by exists (jobInvalid None). Qed.
Lemma shaped_mutate job id sts rev st :
  (∀ row, bumps id (st row)) → shaped job id rev (mutateRun R job id sts rev st).
Proof. intros Hst. right. eauto. Qed.

Lemma given_now_Err now clock e : given_now now clock = Err e → error_code e = Some JOB_INVALID.
Proof. unfold given_now, repo_now. destruct now; apply requireTimestamp_Err. Qed.
Lemma check_phase_Err p e : check_phase p = Err e → error_code e = Some JOB_INVALID.
Proof. unfold check_phase, throw_if. destruct (negb _); [|done]. by intros [= <-]. Qed.

Lemma mutation_shape job id m rev : shaped job id rev (run_mutation job id m rev).
Proof.
  destruct m; cbn [run_mutation];
    unfold startRun, setRunPhase, attachConversation, recordHookResult, finishRun;
    cbn [hr_exitCode hr_stdout hr_stderr hr_expectedRevision fi_status fi_phase fi_errorCode
         fi_errorMessage fi_finishedAt fi_expectedRevision].
  3: { destruct (negb _); [left; by exists (jobInvalid None)|].
       apply shaped_lift; [apply requireTimestamp_Err|intros].
       apply shaped_mutate. intros. apply bumps_guard. by apply bumps_update_run. }
  3: { apply shaped_lift; [intros e; repeat case_match; naive_solver|intros].
       apply shaped_lift; [apply requireTimestamp_Err|intros]. apply shaped_mutate. intros.
       apply bumps_guard. destruct hook; by apply bumps_update_run. }
  all: repeat first
    [ apply shaped_guard
    | apply shaped_lift; [first [apply given_now_Err | apply check_phase_Err | apply requireTimestamp_Err]
                         |intros]
    | apply shaped_mutate; intros; by apply bumps_update_run ].
Qed.

Lemma runSummary_Ok row s :
  runSummary row = Ok s → rs_id s = rr_id row ∧ rs_jobId s = rr_job_id row ∧
  rs_revision s = rr_revision row ∧ status_string (rs_status s) = rr_status row ∧
  rs_scheduledFor s = rr_scheduled_for row ∧ trigger_string (rs_trigger s) = rr_trigger row ∧
  rs_finishedAt s = rr_finished_at row ∧ rs_conversationId s = rr_conversation_id row.
Proof.
  unfold runSummary. destruct (_ || _); [done|]. destruct (read_trigger (rr_trigger row)) as [tr|] eqn:Et; [|done].
  destruct (read_status (rr_status row)) as [st|] eqn:Es; [|done]. intros [= <-]. cbn.
  apply read_enum_Some in Es, Et. done.
Qed.
Lemma runState_Ok row s : runState R row = Ok s → runSummary row = Ok (st_summary s).
Proof. unfold runState. intros Hs. inv_bind Hs. by simplify_eq. Qed.

Lemma run_mutation_Ok job id m v d s d' :
  run_mutation job id m (Some v) d = (Ok s, d') →
  ∃ row row', db_runs d !! id = Some row ∧ rr_job_id row = job ∧ rr_revision row = v ∧
    db_runs d' !! id = Some row' ∧ rr_job_id row' = job ∧ rr_revision row' = v + 1 ∧
    runState R row' = Ok s.
Proof.
  destruct (mutation_shape job id m (Some v)) as [(e & _ & Hm)|(sts & st & Hb & Hm)]; rewrite Hm; [done|].
  intros (row & row' & Hl & Hj & _ & Hv & Hst & Hl' & Hj' & Hs)%mutateRun_Ok.
  destruct (Hb row _ _ Hst) as (r & r' & Hr & Hr' & Hrev). simplify_eq.
  rewrite (Hv v eq_refl) in Hrev. eauto 12.
Qed.

(** A stale expected revision is refused. *)
Lemma run_mutation_stale job id m v d row :
  db_runs d !! id = Some row → rr_job_id row = job → rr_revision row ≠ v →
  ∃ e, run_mutation job id m (Some v) d = (Err e, d) ∧
       (error_code e = Some JOB_BUSY ∨ error_code e = Some JOB_INVALID).
Proof.
  intros Hl Hj Hne.
  destruct (mutation_shape job id m (Some v)) as [(e & He & Hm)|(sts & st & _ & Hm)]; rewrite Hm; [by eauto|].
  assert (Hg : sql_getRun job id d = Some row) by by apply sql_getRun_Some.
  apply Z.eqb_neq in Hne. exists (app_error JOB_BUSY).
  unfold mutateRun, database, transaction, mbind, M_bind, query, guard_M. rewrite Hg.
  destruct (includes _ _); cbn; [|by auto]. rewrite Hne. cbn. auto.
Qed.
End attempts.

(** Any sequence of calls, each with its own answers from the callbacks. *)
Definition exec_calls `{IntlData} `{Temporal} (cs : list (Repository * call)) (d : db) : db :=
  fold_left (λ d p, (exec p.1 p.2 d).2) cs d.

Lemma exec_calls_evolves `{IntlData} `{Temporal} cs d : db_ok d → db_evolves d (exec_calls cs d).
Proof.
  revert d. induction cs as [|[R c] cs IH]; intros d Hd; cbn; [reflexivity|].
  pose proof (exec_always R c d Hd) as Hs. etransitivity; [done|]. apply IH. by apply (dv_ok _ _ Hs).
Qed.

(** ** Properties *)

#[local] Existing Instance sample_intl.
#[local] Existing Instance OneChange.utc.

(** One step of a history: a call, with the callbacks' answers of that moment,
    or a deletion. *)
Inductive event := Call (R : Repository) (c : call) | DeleteJob (jobId : string).
Definition run_event `{IntlData} `{Temporal} (d : db) (e : event) : db :=
  match e with Call R c => (exec R c d).2 | DeleteJob j => (delete_job j d).2 end.
Definition run_history `{IntlData} `{Temporal} (h : list event) (d : db) : db :=
  fold_left run_event h d.

Lemma run_event_good `{IntlData} `{Temporal} e d : db_good d → db_good (run_event d e).
Proof.
  intros Hd. destruct e as [R c|j]; cbn; [by apply exec_good|].
  destruct Hd as [Hd Hr]. split; [by apply delete_job_ok|].
  destruct (delete_job j d) as [[u|x] d'] eqn:E; cbn.
  - apply delete_job_Ok in E as ([row Hj] & _ & ->). unfold sql_deleteJob. rewrite Hj. cbn.
    intros id r [Hl _]%map_lookup_filter_Some. eauto.
  - by apply delete_job_atomic in E as ->.
Qed.

Lemma run_history_good `{IntlData} `{Temporal} h ws : db_good (run_history h (empty_db ws)).
Proof.
  unfold run_history. assert (Hd : db_good (empty_db ws)).
  { split; [apply empty_db_ok|]. cbn. intros. by rewrite lookup_empty in *. }
  revert Hd. generalize (empty_db ws). induction h as [|e h IH]; intros d Hd; [done|].
  cbn. by apply IH, run_event_good.
Qed.

(** C1: in every database that any sequence of repository calls (with any
    arguments, clock readings, identifiers and callback answers) produces from
    one without jobs: a job has at most one queued or running attempt, every
    attempt belongs to a stored job, and its columns agree with its status. A
    queued attempt is untouched, a running one has a start time and no outcome,
    a success carries no error, every other outcome carries an error code, and
    outcomes have a finish time. *)
Theorem stored_attempts_consistent `{IntlData} `{Temporal} (h : list event) (ws : gmap string string) :
  let d := run_history h (empty_db ws) in
  (∀ i j r r', db_runs d !! i = Some r → db_runs d !! j = Some r' → is_active r = true →
     is_active r' = true → rr_job_id r = rr_job_id r' → i = j) ∧
  (∀ id r, db_runs d !! id = Some r →
     rr_id r = id ∧ is_Some (db_jobs d !! rr_job_id r) ∧ run_wf r) ∧
  (∀ id j, db_jobs d !! id = Some j → jr_id j = id ∧ job_row_ok j = true).
Proof.
  destruct (run_history_good h ws) as [[HJ HR HA] Hwf]. cbn. split_and!; [done|..].
  - intros id r Hr. destruct (HR _ _ Hr) as (? & _ & ?). eauto.
  - intros id j Hj. by destruct (HJ _ _ Hj) as (? & ? & _).
Qed.

(** The attempt's revision is a compare-and-set lock: a mutation that names
    the expected revision succeeds only on an attempt of that revision, the
    state it returns has the next one, and after it, whatever calls come in
    between, every mutation of that attempt that still expects the old revision
    is refused and changes nothing. *)
Lemma expected_revision_locks `{IntlData} `{Temporal} (R : Repository) job id m v d s d1 :
  db_ok d → run_mutation R job id m (Some v) d = (Ok s, d1) →
  (∃ r, db_runs d !! id = Some r ∧ rr_revision r = v) ∧ rs_revision s = v + 1 ∧
  ∀ cs R' m', let d2 := exec_calls cs d1 in
    ∃ e, run_mutation R' job id m' (Some v) d2 = (Err e, d2) ∧
         (error_code e = Some JOB_BUSY ∨ error_code e = Some JOB_INVALID).
Proof.
  intros Hd Hm. pose proof Hm as (row & row' & Hl & Hj & Hv & Hl' & Hj' & Hv' & Hs)%run_mutation_Ok.
  apply runState_Ok, runSummary_Ok in Hs as (_ & _ & Hrev & _).
  split_and!; [by eauto|congruence|]. intros cs R' m'.
  assert (Hd1 : db_ok d1).
  { destruct (mutation_shape R job id m (Some v)) as [(e & _ & He)|(sts & st & _ & He)]; [by rewrite He in Hm|].
    assert (Hc : ∃ c, (exec R c d).2 = d1).
    { exists (match m with
        | MStart p s c => CStartRun job id p s c (Some v)
        | MPhase p c => CSetRunPhase job id p c (Some v)
        | MAttach x c => CAttachConversation job id x c (Some v)
        | MHook h x o e c => CRecordHookResult job id h (Build_HookResultInput x o e (Some v)) c
        | MFinish st p c msg at_ clock =>
            CFinishRun job id (Build_FinishJobRunInput st p c msg at_ (Some v)) clock
        end).
      destruct m; cbn [exec run_mutation] in *; unfold mbind, M_bind; by rewrite Hm. }
    destruct Hc as [c <-]. by apply (dv_ok _ _ (exec_always R c d Hd)). }
  destruct (dv_runs _ _ (exec_calls_evolves cs d1 Hd1) _ _ Hl') as (row2 & Hl2 & Hev).
  apply (run_mutation_stale R' job id m' v _ row2); [done|..].
  - destruct (ev_identity _ _ Hev) as (_ & -> & _). done.
  - destruct (ev_revision _ _ Hev) as [->|?]; lia.
Qed.

Lemma expected_revision_locks_witness :
  let finish := MFinish "succeeded" None None None VUndefined (ms 5000) in
  ∃ s d1, run_mutation sample_repository "j" "r" finish (Some 1) sample_running = (Ok s, d1) ∧
    rs_revision s = 2.
Proof.
  intros finish.
  destruct (run_mutation sample_repository "j" "r" finish (Some 1) sample_running) as [[s|e] d1] eqn:E;
    [|exfalso; vm_compute in E; discriminate E].
  exists s, d1. split; [reflexivity|].
  exact (proj1 (proj2 (expected_revision_locks sample_repository "j" "r" finish 1 sample_running s d1
    (exec_all_ok sample_repository sample_calls sample_db (empty_db_ok _)) E))).
Defined.
