(* ===== verification/JobClaims.v ===== *)
(** Claims of due occurrences, manual claims, recovery of interrupted attempts
    and the changes of job definitions: what each operation writes. *)
From S2P Require Import Prelude Errors Jobs JobSchedule JobStore JobRepository JobLifecycle JobAttempts.
#[local] Open Scope string_scope. #[local] Open Scope Z_scope.

(** ** Rows that validate *)

Section claims.
Context `{IntlData} `{Temporal} (R : Repository).

(** Moving the next occurrence keeps an enabled row valid. *)
Definition moved (row : JobRow) (next now : Z) : JobRow :=
  MkJobRow (jr_id row) (jr_name row) (jr_workspace_id row) (jr_prompt row) (jr_schedule_kind row)
    (jr_interval_minutes row) (jr_anchor_at row) (jr_daily_time row) (jr_time_zone row)
    (jr_pre_run_script row) (jr_post_run_script row) (jr_enabled row) (Some next)
    (jr_created_at row) now.

Lemma validatedSchedule_None row :
  (validatedSchedule row).2 = None →
  ∃ s, (validatedSchedule row).1 = Some s ∧ normalizeJobSchedule (rawSchedule row) = Ok s.
Proof.
  unfold validatedSchedule. destruct (normalizeJobSchedule _) as [s|e]; [|done].
  case_match; cbn; [done|eauto].
Qed.

Lemma validatedSchedule_moved row next now :
  (validatedSchedule row).2 = None → jr_enabled row = 1 → is_timestamp next → is_timestamp now →
  validatedSchedule (moved row next now) = validatedSchedule row.
Proof.
  unfold validatedSchedule. intros Hv He Hn Hu.
  change (rawSchedule (moved row next now)) with (rawSchedule row).
  destruct (normalizeJobSchedule (rawSchedule row)) as [s|e]; [|done].
  cbn -[validIdentifier validHook isSafeJobTimestamp isValidJobPrompt] in *.
  rewrite He in *. cbn -[validIdentifier validHook isSafeJobTimestamp isValidJobPrompt] in *.
  apply isSafeJobTimestamp_JInt in Hn, Hu. unfold num_or_null in *. rewrite Hn, Hu.
  match type of Hv with (if ?c then _ else _).2 = None => destruct c eqn:E; [done|] end.
  rewrite !orb_false_iff in E. destruct_and! E.
  repeat match goal with H : ?x = false |- _ => rewrite H; clear H end. done.
Qed.

Lemma requireRunnableJob_Ok id d row w :
  requireRunnableJob id d = Ok (row, w) →
  validIdentifier (VStr id) = true ∧ db_jobs d !! id = Some row ∧
  db_workspaces d !! jr_workspace_id row = Some w ∧ (validatedSchedule row).2 = None.
Proof.
  unfold requireRunnableJob. intros Hr. inv_bind Hr. destruct a as [row' w']. simplify_eq/=.
  apply requireJobRow_Ok in Ha as (? & ? & ?). breflect. split_and!; try done.
  by apply eq_None_not_Some.
Qed.

Lemma requireRunnableJob_lookup id d row w :
  validIdentifier (VStr id) = true → db_jobs d !! id = Some row →
  db_workspaces d !! jr_workspace_id row = Some w → (validatedSchedule row).2 = None →
  requireRunnableJob id d = Ok (row, w).
Proof.
  intros Hv Hj Hw Hs. unfold requireRunnableJob.
  rewrite (requireJobRow_lookup _ _ _ _ Hv Hj Hw). cbn. by rewrite Hs.
Qed.

(** What a successful claim inserted and returns. *)
Lemma insertClaim_Ok row trigger at_ status code msg now uuid d c d' :
  db_ok d → status = Queued ∨ status = Skipped →
  insertClaim R row trigger at_ status code msg now uuid d = (Ok c, d') →
  ∃ runId, uuid = VStr runId ∧ db_runs d !! runId = None ∧
    let r := claim_row runId (jr_id row) trigger at_ status code msg now in
    d' = set_runs d (<[runId := r]> (db_runs d)) ∧ active_conflict d r = false ∧
    runState R r = Ok (claim_run c).
Proof.
  intros Hd Hst. rewrite insertClaim_eq. unfold mbind, M_bind.
  destruct (newId uuid) as [runId|e] eqn:Eid; cbn [lift_result]; [|done].
  apply repo_workspaceId_Ok in Eid as [-> _].
  destruct (claim_writes_spec runId (jr_id row) trigger at_ status code msg now d Hd Hst)
    as [(n & E & Hn & Hj & _ & Hc)|[e E]]; unfold mbind, M_bind in E; rewrite E; [|done].
  unfold claim_result, mbind, M_bind, read, query, sql_getRunById, lift_result.
  destruct (requireJobRow _ _) as [joined|]; [|done].
  cbn [db_runs set_runs]. rewrite lookup_insert_eq.
  destruct (summary R joined _) as [js|]; [|done].
  destruct (runState R _) as [st|] eqn:Es; [|done]. intros [= <- <-]. eauto 10.
Qed.
(** The guarded update of a due row. *)
Lemma sql_advanceDue_Ok row next now id expected d n d' :
  db_jobs d !! id = Some row → jr_enabled row = 1 → jr_next_run_at row = Some expected →
  sql_advanceDue next now id expected d = Ok (n, d') →
  n = 1 ∧ d' = set_jobs d (<[id := moved row next now]> (db_jobs d)).
Proof.
  intros Hj He Hn. unfold sql_advanceDue, update_job. rewrite Hj, He, Hn.
  rewrite bool_decide_true by done. cbn [negb andb Z.eqb Pos.eqb].
  destruct (negb (job_row_ok _)); [done|]. destruct (bool_decide _); [done|].
  intros [= <- <-]. unfold moved. by rewrite He.
Qed.

(** A claim of a due occurrence: the row moves on and one attempt is recorded. *)
Definition claimed (job : string) (at_ : Z) (trigger : JobRunTrigger) (d : db) (c : ClaimedJobRun) (d' : db)
  : Prop :=
  ∃ row w schedule scheduledFor following runId status code msg,
    db_jobs d !! job = Some row ∧ db_workspaces d !! jr_workspace_id row = Some w ∧
    validIdentifier (VStr job) = true ∧ (validatedSchedule row).2 = None ∧
    (validatedSchedule row).1 = Some schedule ∧ jr_enabled row = 1 ∧
    jr_next_run_at row = Some scheduledFor ∧ scheduledFor ≤ at_ ∧
    advanceJobOccurrence (schedule_value schedule) (VNum (JInt scheduledFor)) (VNum (JInt at_)) = Ok following ∧
    db_runs d !! runId = None ∧
    (status = Queued ∧ sql_activeRun job d = None ∨ status = Skipped ∧ is_Some (sql_activeRun job d)) ∧
    let r := claim_row runId job trigger scheduledFor status code msg at_ in
    d' = set_runs (set_jobs d (<[job := moved row following at_]> (db_jobs d))) (<[runId := r]> (db_runs d)) ∧
    runState R r = Ok (claim_run c).

Lemma database_Ok {A} (m : M A) d a d' : database m d = (Ok a, d') → m d = (Ok a, d').
Proof. unfold database. destruct (m d) as [[?|?] ?]; naive_solver. Qed.
Lemma transaction_Ok {A} (m : M A) d a d' : transaction m d = (Ok a, d') → m d = (Ok a, d').
Proof. unfold transaction. destruct (m d) as [[?|?] ?]; naive_solver. Qed.

Lemma claimScheduled_Some job at_ trigger uuid d c d' :
  db_ok d → claimScheduled R job at_ trigger uuid d = (Ok (Some c), d') → claimed job at_ trigger d c d'.
Proof.
  intros Hd Hc. unfold claimScheduled in Hc. apply database_Ok, transaction_Ok in Hc.
  unfold mbind, M_bind, read, query, lift_result in Hc.
  destruct (requireRunnableJob job d) as [[row w]|] eqn:Er; [|done].
  apply requireRunnableJob_Ok in Er as (Hv & Hj & Hw & Hval). cbn [fst] in Hc.
  destruct (jr_next_run_at row) as [scheduledFor|] eqn:En; [|done].
  destruct (Z.eqb_spec (jr_enabled row) 1) as [He|]; cbn [negb orb] in Hc; [|done].
  destruct (Z.ltb_spec at_ scheduledFor) as [|Hdue]; [done|].
  destruct (validatedSchedule row).1 as [schedule|] eqn:Es; [|done].
  destruct (advanceJobOccurrence _ _ _) as [following|] eqn:Ea; [|done].
  unfold run_stmt in Hc. destruct (sql_advanceDue _ _ _ _ d) as [[n d1]|] eqn:Eadv; [|done].
  assert (Hd1 : db_ok d1) by (eapply update_job_ok; [exact Hd| |exact Eadv]; done).
  destruct (sql_advanceDue_Ok row _ _ _ _ _ _ _ Hj He En Eadv) as [-> Hd1eq]. cbn [negb Z.eqb Pos.eqb] in Hc.
  assert (Hact : sql_activeRun job d1 = sql_activeRun job d) by (subst d1; done).
  rewrite Hact in Hc. destruct (jobs_ok _ Hd _ _ Hj) as (Hid & _ & _).
  destruct (bool_decide_reflect (is_Some (sql_activeRun job d))) as [Hactive|Hno].
  - destruct (insertClaim _ _ _ _ _ _ _ _ _ d1) as [[c1|] d2] eqn:Ei; [|done].
    cbn in Hc. injection Hc as <- <-.
    apply insertClaim_Ok in Ei as (runId & -> & Hfresh & Hd2 & _ & Hst); [|done|by right].
    rewrite Hid in *. subst d1 d2. unfold claimed. do 9 eexists. split_and!; eauto.
  - destruct (insertClaim _ _ _ _ _ _ _ _ _ d1) as [[c1|] d2] eqn:Ei; [|done].
    cbn in Hc. injection Hc as <- <-.
    apply insertClaim_Ok in Ei as (runId & -> & Hfresh & Hd2 & _ & Hst); [|done|by left].
    rewrite Hid in *. subst d1 d2. unfold claimed. do 9 eexists. apply eq_None_not_Some in Hno. split_and!; eauto.
Qed.

(** Nothing is claimed, and nothing changes, while no occurrence is due. *)
Lemma claimScheduled_not_due job at_ trigger uuid d row w :
  validIdentifier (VStr job) = true → db_jobs d !! job = Some row →
  db_workspaces d !! jr_workspace_id row = Some w → (validatedSchedule row).2 = None →
  (∀ n, jr_next_run_at row = Some n → at_ < n) ∨ jr_enabled row ≠ 1 →
  claimScheduled R job at_ trigger uuid d = (Ok None, d).
Proof.
  intros Hv Hj Hw Hval Hdue. unfold claimScheduled, database, transaction, mbind, M_bind, read.
  rewrite (requireRunnableJob_lookup _ _ _ _ Hv Hj Hw Hval). cbn [fst].
  destruct (jr_next_run_at row) as [n|]; [|done].
  destruct (Z.eqb_spec (jr_enabled row) 1); cbn [negb orb]; [|done].
  destruct (Z.ltb_spec at_ n) as [|Hle]; [done|].
  destruct Hdue as [Hlt|]; [|done]. specialize (Hlt n eq_refl). lia.
Qed.

Lemma claimManual_Ok job now clock uuid d c d' :
  db_ok d → claimManual R job now clock uuid d = (Ok c, d') →
  ∃ at_ row w runId,
    given_now now clock = Ok at_ ∧ db_jobs d !! job = Some row ∧
    db_workspaces d !! jr_workspace_id row = Some w ∧ (validatedSchedule row).2 = None ∧
    jr_enabled row = 1 ∧ sql_activeRun job d = None ∧ db_runs d !! runId = None ∧
    let r := claim_row runId job Manual at_ Queued None None at_ in
    d' = set_runs d (<[runId := r]> (db_runs d)) ∧ runState R r = Ok (claim_run c).
Proof.
  intros Hd. unfold claimManual, mbind at 1, M_bind at 1, lift_result.
  destruct (given_now now clock) as [at_|] eqn:Et; [|done].
  intros Hc. apply database_Ok, transaction_Ok in Hc.
  unfold mbind, M_bind, read, query, guard_M in Hc.
  destruct (requireRunnableJob job d) as [[row w]|] eqn:Er; [|done].
  apply requireRunnableJob_Ok in Er as (_ & Hj & Hw & Hval). cbn [fst] in Hc.
  destruct (Z.eqb_spec (jr_enabled row) 1) as [He|]; cbn in Hc; [|done].
  destruct (bool_decide_reflect (is_Some (sql_activeRun job d))) as [|Hno]; cbn in Hc; [done|].
  destruct (jobs_ok _ Hd _ _ Hj) as (Hid & _ & _).
  apply insertClaim_Ok in Hc as (runId & -> & Hf & Hd2 & _ & Hst); [|done|by left].
  rewrite Hid in *. apply eq_None_not_Some in Hno. eauto 15.
Qed.
End claims.

Lemma runState_claim_row R runId job trigger at_ status code msg now st :
  runState R (claim_row runId job trigger at_ status code msg now) = Ok st →
  rs_id st = runId ∧ rs_jobId st = job ∧ rs_trigger st = trigger ∧ rs_scheduledFor st = at_ ∧
  rs_status st = status.
Proof.
  intros Hs%runState_Ok%runSummary_Ok. cbn in Hs. destruct Hs as (? & ? & _ & Hst & ? & Htr & _).
  apply status_string_inj in Hst. apply trigger_string_inj in Htr. done.
Qed.

(** ** Recovery of interrupted attempts *)

Definition interrupted (r : RunRow) (at_ : Z) : RunRow :=
  MkRunRow (rr_id r) (rr_job_id r) (rr_conversation_id r) (rr_trigger r) (rr_scheduled_for r)
    (rr_started_at r) (Some at_) "interrupted" (rr_phase r) (Some (code_string JOB_INTERRUPTED))
    (Some (error_message (app_error JOB_INTERRUPTED))) (rr_pre_exit_code r) (rr_pre_stdout r)
    (rr_pre_stderr r) (rr_post_exit_code r) (rr_post_stdout r) (rr_post_stderr r)
    (rr_revision r + 1) (rr_created_at r) at_.

(** A row the interruption can rewrite: readable, and with room for one more revision. *)
Definition recoverable (r : RunRow) : Prop :=
  (∃ s, runSummary r = Ok s) ∧ rr_revision r < MAX_SAFE_INTEGER.

Lemma null_or_Some {A} (p : A → bool) o a : o = Some a → p a = true → null_or p o = true.
Proof. by intros ->. Qed.

Lemma runSummary_interrupted r at_ :
  recoverable r → is_timestamp at_ → ∃ s, runSummary (interrupted r at_) = Ok s.
Proof.
  intros [[s Hs] Hrev] Hat. revert Hs. unfold runSummary. cbn [rr_id rr_job_id rr_conversation_id rr_trigger
    rr_scheduled_for rr_started_at rr_finished_at rr_status rr_phase rr_error_code rr_revision rr_created_at
    rr_updated_at interrupted].
  match goal with |- (if ?c then _ else _) = _ → _ => destruct c eqn:E; [done|] end.
  destruct (read_trigger (rr_trigger r)) eqn:Et; [|done]. intros _.
  repeat (apply orb_false_iff in E as [E ?]).
  repeat match goal with H : negb _ = false |- _ => apply negb_false_iff in H end.
  assert (Hr : isSafeJobTimestamp (VNum (JInt (rr_revision r + 1))) = true).
  { match goal with H : isSafeJobTimestamp (VNum (JInt (rr_revision r))) = true |- _ =>
      apply isSafeJobTimestamp_JInt in H; apply isSafeJobTimestamp_JInt; unfold is_timestamp in *; lia end. }
  apply isSafeJobTimestamp_JInt in Hat.
  repeat match goal with H : ?b = true |- context [?b] => rewrite H end.
  rewrite (null_or_Some _ (Some at_) at_) by done.
  rewrite (null_or_Some (λ c, one_of c ERROR_CODE_VALUES) (Some (code_string JOB_INTERRUPTED)) _) by done.
  cbn. eauto.
Qed.

Lemma sql_interruptRun_here r at_ d :
  db_ok d → db_runs d !! rr_id r = Some r → is_active r = true → rr_revision r < MAX_SAFE_INTEGER →
  is_timestamp at_ →
  sql_interruptRun (code_string JOB_INTERRUPTED) (error_message (app_error JOB_INTERRUPTED)) at_ at_
    (rr_id r) (rr_revision r) d = Ok (1, set_runs d (<[rr_id r := interrupted r at_]> (db_runs d))).
Proof.
  intros Hd Hl Ha Hrev Hat. unfold sql_interruptRun, update_run. rewrite Hl, Ha, Z.eqb_refl. cbn [andb negb].
  change (MkRunRow _ _ _ _ _ _ _ _ _ _ _ _ _ _ _ _ _ _ _ _) with (interrupted r at_).
  assert (Hok : run_row_ok (interrupted r at_) = true).
  { destruct (runs_ok _ Hd _ _ Hl) as (_ & Hok & _). revert Hok. unfold run_row_ok, sql_timestamp, between.
    unfold is_timestamp, MAX_SAFE_INTEGER in *. rewrite !andb_true_iff, !Z.leb_le. cbn.
    rewrite !andb_true_iff, !Z.leb_le. intuition (try lia). }
  rewrite Hok. done.
Qed.

Lemma runState_total R r s : runSummary r = Ok s → ∃ st, runState R r = Ok st ∧ st_summary st = s.
Proof. intros Hs. unfold runState. rewrite Hs. cbn. by eexists. Qed.

Lemma interrupt_each_spec R l at_ d :
  db_ok d → is_timestamp at_ → NoDup (rr_id <$> l) →
  (∀ r, r ∈ l → db_runs d !! rr_id r = Some r ∧ is_active r = true ∧ recoverable r) →
  ∃ ss d', interrupt_each R l at_ d = (Ok ss, d') ∧ db_ok d' ∧ db_jobs d' = db_jobs d ∧
    (∀ r, r ∈ l → db_runs d' !! rr_id r = Some (interrupted r at_)) ∧
    (∀ id, id ∉ rr_id <$> l → db_runs d' !! id = db_runs d !! id) ∧
    (λ st : JobRunState, (rs_id st, rs_status st)) <$> ss = (λ r, (rr_id r, Interrupted)) <$> l.
Proof.
  revert d. induction l as [|r l IH]; intros d Hd Hat Hnd Hl.
  { exists [], d. cbn. split_and!; try done. set_solver. }
  apply NoDup_cons in Hnd as [Hr Hnd].
  destruct (Hl r) as (Hlr & Har & Hrec); [by left|].
  pose proof (sql_interruptRun_here r at_ d Hd Hlr Har (proj2 Hrec) Hat) as Hu.
  set (d1 := set_runs d (<[rr_id r := interrupted r at_]> (db_runs d))) in *.
  assert (Hd1 : db_ok d1) by (eapply update_run_ok; [exact Hd| | |exact Hu]; done).
  assert (Hne : ∀ s, s ∈ l → rr_id s ≠ rr_id r).
  { intros s Hs E. apply Hr. rewrite <-E. by apply list_elem_of_fmap_2. }
  destruct (IH d1 Hd1 Hat Hnd) as (ss & d' & Hss & Hd' & Hjobs & Hin & Hout & Hids).
  { intros s Hs. cbn. rewrite lookup_insert_ne by (symmetry; by apply Hne). apply Hl. by right. }
  destruct (runSummary_interrupted r at_ Hrec Hat) as [s Hsum].
  destruct (runState_total R _ _ Hsum) as (st & Hst & Hsum').
  exists (st :: ss), d'. cbn [interrupt_each]. unfold run_stmt, mbind, M_bind. rewrite Hu. cbn [Z.eqb Pos.eqb].
  unfold query, sql_getRunById. cbn [db_runs set_runs d1]. rewrite lookup_insert_eq. unfold lift_result.
  rewrite Hst. cbn [mret M_ret]. unfold mret, M_ret. rewrite Hss. split_and!; [done|done|done|..].
  - intros s' [->|Hs']%elem_of_cons; [|auto].
    rewrite Hout; [|done]. cbn. apply lookup_insert_eq.
  - intros id Hid. apply not_elem_of_cons in Hid as [H1 H2]. rewrite Hout by done. cbn.
    by rewrite lookup_insert_ne.
  - cbn. rewrite Hids. f_equal. rewrite Hsum'.
    apply runSummary_Ok in Hsum as (-> & _ & _ & Hstat & _). cbn in Hstat.
    by apply (status_string_inj _ Interrupted) in Hstat as ->.
Qed.

Lemma allActiveRuns_spec d r : r ∈ sql_allActiveRuns d ↔ (∃ id, db_runs d !! id = Some r) ∧ is_active r = true.
Proof.
  unfold sql_allActiveRuns. rewrite merge_sort_Permutation, list_elem_of_filter, elem_of_runs_list. tauto.
Qed.

Lemma allActiveRuns_NoDup d : db_ok d → NoDup (rr_id <$> sql_allActiveRuns d).
Proof.
  intros Hd. unfold sql_allActiveRuns. rewrite merge_sort_Permutation. by apply filter_runs_ids.
Qed.

(** ** Properties: claims *)

#[local] Existing Instance sample_intl.
#[local] Existing Instance OneChange.utc.
#[local] Existing Instance utc_laws.

(** C33: when the scheduler claims a due occurrence, exactly that occurrence is
    recorded as one attempt (queued, or skipped when the job still has an
    active one) and the job's next occurrence moves, in the same step, to what
    the schedule gives after both the claimed one and the current time; so
    whoever claims again before the new next occurrence, with either trigger,
    gets nothing and changes nothing. The new next occurrence is strictly past
    both, so that no occurrence is claimed twice, with one exception that is
    part of the statement: for a daily schedule whose zone's clock went back
    over midnight to an earlier date since the new next occurrence, that
    occurrence is already past and the job stays due. *)
Theorem due_occurrence_claimed_once `{IntlData} `{TemporalLaws} (R : Repository) job at_ trigger uuid d c d' :
  db_ok d → claimScheduled R job at_ trigger uuid d = (Ok (Some c), d') →
  ∃ row row' schedule planned next,
    db_jobs d !! job = Some row ∧ db_jobs d' !! job = Some row' ∧
    validatedSchedule row = (Some schedule, None) ∧ validatedSchedule row' = (Some schedule, None) ∧
    jr_next_run_at row = Some planned ∧ planned ≤ at_ ∧
    jr_next_run_at row' = Some next ∧
    advanceJobOccurrence (schedule_value schedule) (VNum (JInt planned)) (VNum (JInt at_)) = Ok next ∧
    (planned < next ∧ at_ < next ∨ calendar_went_back schedule next at_) ∧
    (∀ id, id ≠ job → db_jobs d' !! id = db_jobs d !! id) ∧
    rs_scheduledFor (claim_run c) = planned ∧ rs_trigger (claim_run c) = trigger ∧
    rs_status (claim_run c) = (if sql_activeRun job d then Skipped else Queued) ∧
    (∃ r, db_runs d !! rs_id (claim_run c) = None ∧
       db_runs d' = <[rs_id (claim_run c) := r]> (db_runs d) ∧ runState R r = Ok (claim_run c)) ∧
    ∀ R' t trigger' uuid', t < next →
      claimScheduled R' job t trigger' uuid' d' = (Ok None, d').
Proof.
  intros Hd (row & w & schedule & planned & next & runId & status & code & msg & Hj & Hw & Hv & Hval
    & Hs & He & Hn & Hdue & Hadv & Hfresh & Hst & -> & Hrun)%claimScheduled_Some; [|done].
  pose proof (advanceJobOccurrence_gt _ _ _ _ Hadv) as (Hat & Hnext & s & Hnorm & Hgt).
  pose proof Hrun as (Hid & _ & Htr & Hpl & Hstat)%runState_claim_row.
  destruct (validatedSchedule_None _ Hval) as (s' & Hs' & Hvs). rewrite Hs in Hs'. injection Hs' as <-.
  rewrite normalizeJobSchedule_value in Hnorm by (by eapply normalizeJobSchedule_Ok).
  injection Hnorm as <-. rewrite Z.max_r in Hgt by done.
  assert (Hboth : validatedSchedule row = (Some schedule, None))
    by (rewrite (surjective_pairing (validatedSchedule row)), Hs, Hval; done).
  exists row, (moved row next at_), schedule, planned, next. cbn. rewrite lookup_insert_eq, Hid.
  split_and!; try done.
  - by rewrite validatedSchedule_moved.
  - intros id Hne. by rewrite lookup_insert_ne.
  - destruct Hst as [[-> ->]|[-> [? ->]]]; done.
  - by eexists.
  - intros R' t trigger' uuid' Ht.
    apply (claimScheduled_not_due R' job t trigger' uuid' _ (moved row next at_) w); [done|..].
    + cbn. by rewrite lookup_insert_eq.
    + done.
    + by rewrite validatedSchedule_moved.
    + left. cbn. intros n [= <-]. done.
Qed.

(** A job due at 301000, first claimed late. *)
Definition sample_due : db := exec_all sample_repository [CCreate sample_job (ms 1000) (VStr "j")] sample_db.

Lemma due_occurrence_claimed_once_witness :
  ∃ c d', claimScheduled sample_repository "j" 1000000 Scheduled (VStr "r1") sample_due = (Ok (Some c), d') ∧
    claimScheduled sample_repository "j" 1000001 CatchUp (VStr "r2") d' = (Ok None, d').
Proof.
  destruct (claimScheduled sample_repository "j" 1000000 Scheduled (VStr "r1") sample_due)
    as [[[c|]|e] d'] eqn:E; [|exfalso; vm_compute in E; discriminate E..].
  exists c, d'. split; [reflexivity|].
  assert (Hn : (jr_next_run_at <$> db_jobs d' !! "j") = Some (Some 1201000)).
  { replace d' with (claimScheduled sample_repository "j" 1000000 Scheduled (VStr "r1") sample_due).2
      by (rewrite E; reflexivity). vm_compute. reflexivity. }
  destruct (due_occurrence_claimed_once sample_repository "j" 1000000 Scheduled (VStr "r1") sample_due c d'
    (exec_all_ok sample_repository _ sample_db (empty_db_ok _)) E)
    as (row & row' & schedule & planned & next & _ & Hr & _ & _ & _ & _ & Hx & _ & _ & _ & _ & _ & _ & _ & Hagain).
  apply Hagain. rewrite Hr in Hn. cbn in Hn. rewrite Hx in Hn. injection Hn as ->. lia.
Defined.

(** A manual claim of an enabled job without an active attempt records one
    queued attempt for the current time and leaves every job row, the schedule
    of the claimed job included, and every other attempt as they were; until
    that attempt is finished, another manual claim of the job is refused as
    already running. *)
Lemma manual_claim_keeps_schedule `{IntlData} `{Temporal} (R : Repository) job now clock uuid d c d' :
  db_ok d → claimManual R job now clock uuid d = (Ok c, d') →
  db_jobs d' = db_jobs d ∧ sql_activeRun job d = None ∧
  db_runs d !! rs_id (claim_run c) = None ∧
  (∃ r, db_runs d' = <[rs_id (claim_run c) := r]> (db_runs d) ∧ runState R r = Ok (claim_run c)) ∧
  rs_trigger (claim_run c) = Manual ∧ rs_status (claim_run c) = Queued ∧
  given_now now clock = Ok (rs_scheduledFor (claim_run c)) ∧
  ∀ R' clock' uuid' t, repo_now clock' = Ok t →
    claimManual R' job VUndefined clock' uuid' d' = (Err (app_error JOB_ALREADY_RUNNING), d').
Proof.
  intros Hd (at_ & row & w & runId & Hat & Hj & Hw & Hval & He & Hact & Hfresh & -> & Hrun)%claimManual_Ok; [|done].
  pose proof Hrun as (Hid & _ & Htr & Hpl & Hstat)%runState_claim_row. rewrite Hid, Hpl.
  split_and!; try done; [by eexists|]. intros R' clock' uuid' t Ht.
  unfold claimManual, mbind, M_bind, lift_result, given_now. rewrite Ht.
  unfold database, transaction, read, query, guard_M.
  assert (Hv : validIdentifier (VStr job) = true).
  { destruct (validIdentifier (VStr job)) eqn:Hv; [done|]. exfalso.
    revert Hrun. unfold runState, runSummary. cbn [rr_id rr_job_id claim_row].
    rewrite Hv, orb_true_r. done. }
  rewrite (requireRunnableJob_lookup job (set_runs d _) row w Hv Hj Hw Hval). cbn [fst].
  rewrite He. cbn [negb Z.eqb Pos.eqb]. unfold mret, M_ret. cbv beta iota zeta.
  rewrite bool_decide_true; [done|]. apply not_eq_None_Some. intros Hnone.
  assert (Hl : db_runs (set_runs d (<[runId:=claim_row runId job Manual at_ Queued None None at_]> (db_runs d)))
    !! runId = Some (claim_row runId job Manual at_ Queued None None at_)) by apply lookup_insert_eq.
  by pose proof (proj1 (sql_activeRun_None job _) Hnone runId _ Hl eq_refl).
Qed.

Lemma manual_claim_keeps_schedule_witness :
  ∃ c d', claimManual sample_repository "j" VUndefined (ms 2000) (VStr "r1") sample_due = (Ok c, d') ∧
    db_jobs d' = db_jobs sample_due.
Proof.
  destruct (claimManual sample_repository "j" VUndefined (ms 2000) (VStr "r1") sample_due)
    as [[c|e] d'] eqn:E; [|exfalso; vm_compute in E; discriminate E].
  exists c, d'. split; [reflexivity|].
  exact (proj1 (manual_claim_keeps_schedule sample_repository "j" VUndefined (ms 2000) (VStr "r1") sample_due c d'
    (exec_all_ok sample_repository _ sample_db (empty_db_ok _)) E)).
Defined.

(** Recovery at startup is total and complete: whenever the stored active
    attempts are readable, [markAllInterrupted] succeeds, turns exactly the
    queued and running attempts into interrupted ones with the restart error
    and the finish time, reports each of them once, and leaves every other
    attempt and every job alone; afterwards no job has an active attempt, so
    the next claim of any job is never refused or skipped because of them. *)
Lemma recovery_interrupts_every_active_attempt (R : Repository) (at_ : Z) (clock : jsval) d :
  db_ok d → is_timestamp at_ →
  (∀ id r, db_runs d !! id = Some r → is_active r = true → recoverable r) →
  ∃ states d', markAllInterrupted R (VNum (JInt at_)) clock d = (Ok states, d') ∧ db_ok d' ∧
    db_jobs d' = db_jobs d ∧
    (∀ id r, db_runs d !! id = Some r →
       db_runs d' !! id = Some (if is_active r then interrupted r at_ else r)) ∧
    (∀ id, db_runs d !! id = None → db_runs d' !! id = None) ∧
    (∀ job, sql_activeRun job d' = None) ∧
    (λ st : JobRunState, (rs_id st, rs_status st)) <$> states
      = (λ r, (rr_id r, Interrupted)) <$> sql_allActiveRuns d.
Proof.
  intros Hd Hat Hrec.
  destruct (interrupt_each_spec R (sql_allActiveRuns d) at_ d Hd Hat (allActiveRuns_NoDup d Hd))
    as (ss & d' & Hss & Hd' & Hjobs & Hin & Hout & Hids).
  { intros r [[id Hr] Ha]%allActiveRuns_spec. pose proof (runs_ok _ Hd _ _ Hr) as (Hid & _).
    rewrite Hid. eauto. }
  assert (Hold : ∀ id r, db_runs d !! id = Some r →
    db_runs d' !! id = Some (if is_active r then interrupted r at_ else r)).
  { intros id r Hr. destruct (runs_ok _ Hd _ _ Hr) as (Hid & _). destruct (is_active r) eqn:Ha.
    - rewrite <-Hid. apply Hin, allActiveRuns_spec. eauto.
    - rewrite Hout; [done|]. intros (r' & E & [[id' Hr'] Ha']%allActiveRuns_spec)%list_elem_of_fmap.
      destruct (runs_ok _ Hd _ _ Hr') as (Hid' & _). congruence. }
  assert (Hnew : ∀ id, db_runs d !! id = None → db_runs d' !! id = None).
  { intros id Hn. rewrite Hout; [done|]. intros (r' & E & [[id' Hr'] Ha']%allActiveRuns_spec)%list_elem_of_fmap.
    destruct (runs_ok _ Hd _ _ Hr') as (Hid' & _). congruence. }
  exists ss, d'. split_and!; try done.
  - unfold markAllInterrupted, given_now, mbind, M_bind, lift_result. rewrite requireTimestamp_JInt by done.
    unfold database, transaction, query. by rewrite Hss.
  - intros job. apply sql_activeRun_None. intros id r' Hr' _.
    destruct (db_runs d !! id) as [r|] eqn:Hr; [|rewrite Hnew in Hr'; done].
    rewrite (Hold _ _ Hr) in Hr'. injection Hr' as <-. by destruct (is_active r) eqn:Ha.
Qed.

Lemma recovery_interrupts_every_active_attempt_witness :
  ∃ states d', markAllInterrupted sample_repository (VNum (JInt 9000)) VUndefined sample_running = (Ok states, d') ∧
    sql_activeRun "j" d' = None.
Proof.
  destruct (recovery_interrupts_every_active_attempt sample_repository 9000 VUndefined sample_running
    (exec_all_ok sample_repository sample_calls sample_db (empty_db_ok _))) as (ss & d' & E & _ & _ & _ & _ & Hn & _).
  - vm_compute. split; discriminate.
  - intros id r Hr _. destruct (decide (id = "r")) as [->|Hne].
    + assert (Hr' := Hr). vm_compute in Hr'. injection Hr' as <-. split; [eexists|]; vm_compute; reflexivity.
    + exfalso. revert Hr. assert (E : db_runs sample_running = {["r" := default (MkRunRow "" "" None "" 0 None None "" None None None None None None None None None 0 0 0) (db_runs sample_running !! "r")]}) by (vm_compute; reflexivity).
      rewrite E, lookup_singleton_ne by congruence. discriminate.
  - exists ss, d'. split; [exact E|apply Hn].
Defined.
