(* ===== verification/JobDefinitions.v ===== *)
(** Changes of job definitions: what [create], [update] and [delete] write and
    when they refuse. *)
From S2P Require Import Prelude Errors Jobs JobSchedule JobStore JobRepository JobLifecycle JobAttempts JobClaims.
#[local] Open Scope string_scope. #[local] Open Scope Z_scope.

Section definitions.
Context `{IntlData} `{Temporal} (R : Repository).

Lemma lift_bind_Ok {A B} (r : result thrown A) (k : A → M B) d b d' :
  (lift_result r ≫= k) d = (Ok b, d') → ∃ a, r = Ok a ∧ k a d = (Ok b, d').
Proof. unfold mbind, M_bind, lift_result. destruct r; [eauto|done]. Qed.
Lemma M_bind_Ok {A B} (m : M A) (k : A → M B) d b d' :
  (m ≫= k) d = (Ok b, d') → ∃ a d1, m d = (Ok a, d1) ∧ k a d1 = (Ok b, d').
Proof. unfold mbind, M_bind. destruct (m d) as [[a|e] d1]; [eauto|done]. Qed.
Lemma guard_bind_Ok {B} c e (k : unit → M B) d b d' :
  (guard_M c e ≫= k) d = (Ok b, d') → c = false ∧ k tt d = (Ok b, d').
Proof. unfold guard_M, mbind, M_bind. destruct c; cbn; [done|auto]. Qed.
Lemma query_bind_Ok {A B} (q : db → A) (k : A → M B) d b d' :
  (query q ≫= k) d = (Ok b, d') → k (q d) d = (Ok b, d').
Proof. done. Qed.
Lemma read_bind_Ok {A B} (q : db → result thrown A) (k : A → M B) d b d' :
  (read q ≫= k) d = (Ok b, d') → ∃ a, q d = Ok a ∧ k a d = (Ok b, d').
Proof. unfold mbind, M_bind, read. destruct (q d); [eauto|done]. Qed.
Lemma stmt_bind_Ok {B} st (k : Z → M B) d b d' :
  (run_stmt st ≫= k) d = (Ok b, d') → ∃ n d1, st d = Ok (n, d1) ∧ k n d1 = (Ok b, d').
Proof. unfold mbind, M_bind, run_stmt. destruct (st d) as [[n d1]|]; [eauto|done]. Qed.

(** *** Rows that came from validated input *)

Lemma validHook_str_or_null script R' w p :
  (∀ s policy c validate, r_hookPathAdmission R' = Some validate → validate s policy = Ok c →
     validHook (VStr c) = true) →
  repo_hook R' script w = Ok p → validHook (str_or_null p) = true.
Proof.
  intros Hadm. unfold repo_hook. destruct (negb (validHook script)); [done|].
  destruct script; try (intros [= <-]; done).
  destruct (r_hookPathAdmission R') as [validate|] eqn:E; [|done].
  destruct (r_hookWorkspacePolicy R'); [|done]. intros Hr. inv_bind Hr. simplify_eq. cbn [str_or_null]. eauto.
Qed.

Lemma rawSchedule_columns row s :
  let '(kind, minutes, anchor, time, zone) := schedule_columns s in
  jr_schedule_kind row = kind → jr_interval_minutes row = minutes → jr_anchor_at row = anchor →
  jr_daily_time row = time → jr_time_zone row = zone → rawSchedule row = schedule_value s.
Proof.
  destruct s; cbn; intros Hk Hm Ha Ht Hz; unfold rawSchedule; rewrite Hk; cbn.
  - by rewrite Hm, Ha.
  - by rewrite Ht, Hz.
Qed.

Lemma next_if_enabled_Ok enabled s now n :
  next_if_enabled enabled s now = Ok n →
  (enabled = false ∧ n = None) ∨
  (enabled = true ∧ ∃ z, n = Some z ∧ firstJobOccurrenceAfter (schedule_value s) (VNum (JInt now)) = Ok z).
Proof.
  unfold next_if_enabled. destruct enabled; [|naive_solver]. intros Hn. inv_bind Hn. simplify_eq. eauto 10.
Qed.

Lemma repo_name_Ok v s : repo_name v = Ok s → ∃ x, v = VStr x ∧ normalizeJobName x = Some s ∧ normalizeJobName s = Some s.
Proof.
  destruct v as [| | | |x|]; cbn; try done. destruct (normalizeJobName x) eqn:E; [|done].
  intros [= <-]. exists x. split_and!; [done..|]. by eapply normalizeJobName_idemp.
Qed.
Lemma repo_prompt_Ok v s : repo_prompt v = Ok s → v = VStr s ∧ isValidJobPrompt s = true.
Proof. destruct v as [| | | |x|]; cbn; try done. destruct (isValidJobPrompt x) eqn:E; naive_solver. Qed.

(** *** Creation *)

Lemma create_Ok input clock uuid d s d' :
  db_ok d → create R input clock uuid d = (Ok s, d') →
  ∃ now name workspaceId prompt pre post enabled schedule next id,
    repo_now clock = Ok now ∧ repo_name (get_field "name" input) = Ok name ∧
    repo_workspaceId (get_field "workspaceId" input) = Ok workspaceId ∧
    repo_prompt (get_field "prompt" input) = Ok prompt ∧
    repo_hook R (nullish (get_field "preRunScript" input)) workspaceId = Ok pre ∧
    repo_hook R (nullish (get_field "postRunScript" input)) workspaceId = Ok post ∧
    get_field "enabled" input = VBool enabled ∧
    (bool_decide (is_Some pre) || bool_decide (is_Some post) = true →
       get_field "acknowledgeHostHooks" input = VBool true) ∧
    establishJobSchedule (get_field "schedule" input) (VNum (JInt now)) = Ok schedule ∧
    next_if_enabled enabled schedule now = Ok next ∧ uuid = VStr id ∧ validIdentifier (VStr id) = true ∧
    db_jobs d !! id = None ∧
    let '(kind, minutes, anchor, time, zone) := schedule_columns schedule in
    let row := MkJobRow id name workspaceId prompt kind minutes anchor time zone pre post
                 (if (enabled : bool) then 1 else 0) next now now in
    d' = set_jobs d (<[id := row]> (db_jobs d)) ∧ get R id d' = (Ok s, d') ∧
    ∃ w, db_workspaces d !! workspaceId = Some w ∧ summary R (row, w) d' = Ok s ∧
         js_activeRun s = None ∧ js_lastRun s = None.
Proof.
  intros Hd Hc. unfold create in Hc.
  repeat match type of Hc with (lift_result _ ≫= _) _ = _ =>
    let a := fresh "a" in let Ha := fresh "Ha" in apply lift_bind_Ok in Hc as (a & Ha & Hc) end.
  destruct a5 as [|]; (destruct (get_field "enabled" input) as [| |b| | |] eqn:Een; cbn in Ha5; simplify_eq).
  all: destruct (schedule_columns a7) as [[[[kind minutes] anchor] time] zone] eqn:Ecol.
  all: pose proof Ha9 as [-> Hv]%repo_workspaceId_Ok.
  all: apply M_bind_Ok in Hc as ([] & d1 & Ei & Hc).
  all: apply database_Ok, query_bind_Ok, guard_bind_Ok in Ei as [_ Ei]; unfold run_insert in Ei.
  all: destruct (sql_insertJob _ d) as [d2|] eqn:Hins; [|done]; injection Ei as <-.
  all: pose proof Hins as (Hn & _ & _ & Hd2)%sql_insertJob_Ok.
  all: match type of Hins with sql_insertJob ?row _ = _ =>
    destruct (get_inserted R row _ _ Hd Hv Hins) as (w & s' & Hw & Hs' & Hact & Hlast & Hg) end.
  all: cbn [jr_id jr_workspace_id] in *; pose proof Hg as Hg'; rewrite Hc in Hg'; injection Hg' as -> ->.
  all: do 10 eexists; split_and!; try eassumption; try reflexivity.
  all: try (intros Hh; rewrite Hh in Ha6; revert Ha6; unfold validateHookAcknowledgement, throw_if;
    destruct (get_field "acknowledgeHostHooks" input) as [| |[|]| | |]; done).
  all: rewrite Ecol; split_and!; eauto.
Qed.
(** *** Deletion *)

Lemma delete_job_busy jobId d r w :
  requireJobRow jobId d = Ok w → sql_activeRun jobId d = Some r →
  delete_job jobId d = (Err (app_error JOB_BUSY), d).
Proof.
  intros Hr Ha. unfold delete_job, database, transaction, mbind, M_bind, read, query, guard_M.
  by rewrite Hr, Ha.
Qed.

(** *** Updates of a busy job *)

Definition only_disables (changes : jsval) : Prop :=
  List.filter (own changes) update_keys = ["enabled"] ∧ get_field "enabled" changes = VBool false.

Lemma update_active_other jobId changes clock d r row now :
  existsb (own changes) update_keys = true → repo_now clock = Ok now →
  requireJobRow jobId d = Ok row → sql_activeRun jobId d = Some r → ¬ only_disables changes →
  update R jobId changes clock d = (Err (app_error JOB_BUSY), d).
Proof.
  intros Hk Hnow Hrow Ha Hnot. unfold update. rewrite Hk. cbn [negb].
  unfold database, transaction, mbind, M_bind, lift_result, read, query, guard_M. rewrite Hnow, Hrow, Ha.
  cbn [is_Some]. rewrite bool_decide_true by eauto. cbn [andb].
  destruct (bool_decide_reflect (List.filter (own changes) update_keys = ["enabled"])) as [E|]; [|done].
  destruct (get_field "enabled" changes) as [| |[|]| | |] eqn:Een; try done.
  destruct Hnot. done.
Qed.

(** What a disabled row is. *)
Definition disabled (row : JobRow) (now : Z) : JobRow :=
  MkJobRow (jr_id row) (jr_name row) (jr_workspace_id row) (jr_prompt row) (jr_schedule_kind row)
    (jr_interval_minutes row) (jr_anchor_at row) (jr_daily_time row) (jr_time_zone row)
    (jr_pre_run_script row) (jr_post_run_script row) 0 None (jr_created_at row) now.

Lemma update_active_disable jobId changes clock d r s d' :
  sql_activeRun jobId d = Some r → only_disables changes →
  update R jobId changes clock d = (Ok s, d') →
  ∃ row now, repo_now clock = Ok now ∧ db_jobs d !! jobId = Some row ∧
    d' = set_jobs d (<[jobId := disabled row now]> (db_jobs d)).
Proof.
  intros Ha [Hkeys Hfalse] Hu. unfold update in Hu.
  destruct (existsb _ _); cbn [negb] in Hu; [|done].
  apply lift_bind_Ok in Hu as (now & Hnow & Hu). apply database_Ok, transaction_Ok in Hu.
  apply read_bind_Ok in Hu as ([row w] & Hrow & Hu). apply query_bind_Ok in Hu.
  rewrite Ha, Hkeys, Hfalse in Hu. cbv zeta in Hu.
  rewrite !bool_decide_true in Hu by eauto. cbn [andb negb] in Hu.
  apply guard_bind_Ok in Hu as [_ Hu]. apply guard_bind_Ok in Hu as [_ Hu].
  apply stmt_bind_Ok in Hu as (n & d1 & Hst & Hu). apply read_bind_Ok in Hu as (row' & Hrow' & Hu).
  unfold read in Hu. injection Hu as _ <-.
  apply requireJobRow_Ok in Hrow as (_ & Hj & _). exists row, now. split_and!; [done..|].
  unfold sql_disableJob, update_job in Hst. rewrite Hj in Hst. cbn [negb] in Hst.
  destruct (negb (job_row_ok _)); [done|]. destruct (bool_decide _); [done|]. by injection Hst as _ <-.
Qed.
End definitions.

(** ** Properties *)

#[local] Existing Instance sample_intl.
#[local] Existing Instance OneChange.utc.
#[local] Existing Instance utc_laws.

(** A created job is stored as given, normalized: the trimmed name, the
    workspace and prompt, the schedule anchored at the creation time, the hook
    paths its admission made canonical; it is due first at the first occurrence
    after its creation when enabled (in the past only if a daily schedule's
    clock went back over midnight) and never when not; the stored row
    validates, so the job can run and reading it back gives exactly what
    [create] returned; no other row changes. *)
Lemma created_job_is_stored_valid `{IntlData} `{TemporalLaws} (R : Repository) input clock uuid d s d' :
  (∀ p policy c validate, r_hookPathAdmission R = Some validate → validate p policy = Ok c →
     validHook (VStr c) = true) →
  db_ok d → create R input clock uuid d = (Ok s, d') →
  ∃ now row schedule, repo_now clock = Ok now ∧
    establishJobSchedule (get_field "schedule" input) (VNum (JInt now)) = Ok schedule ∧
    db_jobs d !! js_id s = None ∧ d' = set_jobs d (<[js_id s := row]> (db_jobs d)) ∧
    get R (js_id s) d' = (Ok s, d') ∧ validatedSchedule row = (Some schedule, None) ∧
    (∃ n, get_field "name" input = VStr n ∧ js_name s = trim n) ∧
    get_field "workspaceId" input = VStr (js_workspaceId s) ∧
    get_field "prompt" input = VStr (js_prompt s) ∧ js_schedule s = Valid schedule ∧
    get_field "enabled" input = VBool (js_enabled s) ∧
    js_createdAt s = now ∧ js_updatedAt s = now ∧ js_activeRun s = None ∧ js_lastRun s = None ∧
    match js_nextRunAt s with
    | None => js_enabled s = false
    | Some next => js_enabled s = true ∧ (now < next ∨ calendar_went_back schedule next now) ∧
        firstJobOccurrenceAfter (schedule_value schedule) (VNum (JInt now)) = Ok next
    end.
Proof.
  intros Hadm Hd (now & name & ws & prompt & pre & post & enabled & schedule & next & id & Hnow & Hname & Hws
    & Hprompt & Hpre & Hpost & Hen & _ & Hsch & Hnext & -> & Hid & Hfresh & Hrest)%create_Ok; [|done].
  destruct (schedule_columns schedule) as [[[[kind minutes] anchor] time] zone] eqn:Ecol.
  destruct Hrest as (Hd' & Hget & w & _ & Hsum & Hact & Hlast).
  set (row := MkJobRow id name ws prompt kind minutes anchor time zone pre post
                (if enabled then 1 else 0) next now now) in *.
  apply repo_name_Ok in Hname as (n & Hn & Hnorm & Hnorm').
  apply repo_workspaceId_Ok in Hws as [Hws Hwsv]. apply repo_prompt_Ok in Hprompt as [Hprompt Hpv].
  apply requireTimestamp_Ok in Hnow as [-> Hnow].
  assert (Hvalid : validatedSchedule row = (Some schedule, None)).
  { unfold validatedSchedule.
    pose proof (rawSchedule_columns row schedule) as Hraw. rewrite Ecol in Hraw.
    rewrite Hraw, normalizeJobSchedule_value by (done || by eapply establishJobSchedule_valid).
    cbn [jr_id jr_workspace_id jr_name jr_prompt jr_pre_run_script jr_post_run_script jr_enabled
      jr_next_run_at jr_created_at jr_updated_at row].
    rewrite Hid, Hwsv, Hnorm', Hpv, (validHook_str_or_null _ R _ _ Hadm Hpre),
      (validHook_str_or_null _ R _ _ Hadm Hpost), !(proj2 (isSafeJobTimestamp_JInt now)) by done.
    apply next_if_enabled_Ok in Hnext as [[-> ->]|[-> (z & -> & Hz)]]; [done|].
    apply firstJobOccurrenceAfter_gt in Hz as (_ & _ & Hz & _). cbn [num_or_null].
    by rewrite (proj2 (isSafeJobTimestamp_JInt z)) by done. }
  pose proof (summary_Ok R row w d' s Hsum) as (Hf1 & Hf2 & Hf3 & Hf4 & _ & _ & Hf7 & Hf8 & Hf9 & Hf10 & Hf11 & _).
  cbn in Hf1, Hf2, Hf3, Hf4, Hf7, Hf8, Hf9, Hf10. rewrite Hvalid in Hf11. cbn in Hf11.
  exists now, row, schedule. rewrite Hf1, Hf3, Hf4, Hf7, Hf8.
  split_and!; try done.
  - by apply requireTimestamp_JInt.
  - exists n. split; [done|]. rewrite Hf2. unfold normalizeJobName in Hnorm.
    destruct (_ && _) in Hnorm; [|done]. injection Hnorm as <-. exact (trim_idemp n).
  - rewrite Hen. by destruct enabled.
  - apply next_if_enabled_Ok in Hnext as [[-> ->]|[-> (z & -> & Hz)]]; [done|].
    split; [done|]. split; [|exact Hz]. apply firstJobOccurrenceAfter_gt in Hz as (s' & Hs' & _ & Hgt).
    rewrite normalizeJobSchedule_value in Hs' by (by eapply establishJobSchedule_valid). by injection Hs' as <-.
Qed.

Lemma created_job_is_stored_valid_witness :
  ∃ s d', create sample_repository sample_job (ms 1000) (VStr "j") sample_db = (Ok s, d') ∧
    js_name s = "Nightly" ∧ get sample_repository (js_id s) d' = (Ok s, d').
Proof.
  destruct (create sample_repository sample_job (ms 1000) (VStr "j") sample_db) as [[s|e] d'] eqn:E;
    [|exfalso; vm_compute in E; discriminate E].
  destruct (created_job_is_stored_valid sample_repository sample_job (ms 1000) (VStr "j") sample_db s d'
    ltac:(intros; discriminate) (empty_db_ok _) E)
    as (now & row & schedule & _ & _ & _ & _ & Hget & _ & (n & Hn & Hs) & _).
  exists s, d'. split; [reflexivity|]. split; [|exact Hget].
  vm_compute in Hn. injection Hn as <-. rewrite Hs. vm_compute. reflexivity.
Defined.

(** A job with a queued or running attempt is protected: it cannot be
    deleted, and the only change accepted is to disable it, which clears its
    next occurrence and touches no other column, no attempt and no other job;
    any other change is refused as busy and changes nothing. *)
Lemma busy_job_is_protected `{IntlData} `{Temporal} (R : Repository) jobId d r row :
  requireJobRow jobId d = Ok row → sql_activeRun jobId d = Some r →
  delete_job jobId d = (Err (app_error JOB_BUSY), d) ∧
  (∀ changes clock now, existsb (own changes) update_keys = true → repo_now clock = Ok now →
     ¬ only_disables changes → update R jobId changes clock d = (Err (app_error JOB_BUSY), d)) ∧
  (∀ changes clock s d', only_disables changes → update R jobId changes clock d = (Ok s, d') →
     ∃ now, repo_now clock = Ok now ∧ d' = set_jobs d (<[jobId := disabled row.1 now]> (db_jobs d))).
Proof.
  intros Hrow Ha. split_and!.
  - by eapply delete_job_busy.
  - intros. by eapply update_active_other.
  - intros changes clock s d' Hdis Hu.
    destruct (update_active_disable R jobId changes clock d r s d' Ha Hdis Hu) as (row' & now & Hnow & Hj & ->).
    destruct row as [row w]. apply requireJobRow_Ok in Hrow as (_ & Hj' & _). simplify_eq. eauto.
Qed.

Lemma busy_job_is_protected_witness :
  delete_job "j" sample_running = (Err (app_error JOB_BUSY), sample_running) ∧
  ∃ s d', update sample_repository "j" (VObj [("enabled", VBool false)]) (ms 4000) sample_running = (Ok s, d').
Proof.
  destruct (requireJobRow "j" sample_running) as [row|e] eqn:Er; [|exfalso; vm_compute in Er; discriminate Er].
  destruct (sql_activeRun "j" sample_running) as [r|] eqn:Ea; [|exfalso; vm_compute in Ea; discriminate Ea].
  destruct (busy_job_is_protected sample_repository "j" sample_running r row Er Ea) as (Hdel & _ & _).
  split; [exact Hdel|].
  destruct (update sample_repository "j" (VObj [("enabled", VBool false)]) (ms 4000) sample_running) as [[s|e] d'] eqn:Eu;
    [eauto|exfalso; vm_compute in Eu; discriminate Eu].
Defined.
