(* ===== verification/JobPages.v ===== *)
(** Pages of a job's attempts ([listRuns] of [src/server/job-repository.ts]):
    the cursor, a page, and that following the cursors visits every attempt
    once, newest first. The base64url text of a JSON value is the runtime's. *)
From Stdlib Require Import DecimalString DecimalN.
From S2P Require Import Prelude Errors Jobs JobSchedule JobStore JobRepository JobLifecycle JobAttempts.
#[local] Open Scope string_scope. #[local] Open Scope Z_scope.

(** [Buffer.from(JSON.stringify(v), "utf8").toString("base64url")] and
    [JSON.parse(Buffer.from(s, "base64url").toString("utf8"))]. *)
Class Codec := {
  toBase64Json : jsval → string;
  fromBase64Json : string → result thrown jsval;
}.

(** src/shared/jobs.ts:16-16 JOB_REQUEST_CURSOR_MAX_LENGTH *)
Definition JOB_REQUEST_CURSOR_MAX_LENGTH : Z := 512.
(** src/server/job-repository.ts:34-34 JOB_RUN_PAGE_DEFAULT_LIMIT *)
Definition JOB_RUN_PAGE_DEFAULT_LIMIT : Z := 50.
(** src/server/job-repository.ts:35-35 JOB_RUN_PAGE_MAX_LIMIT *)
Definition JOB_RUN_PAGE_MAX_LIMIT : Z := 100.

Definition cursor_value (scheduledFor : Z) (id : string) : jsval :=
  VObj [("scheduledFor", VNum (JInt scheduledFor)); ("id", VStr id)].

(** Parsing gives a stringified cursor back. *)
Class CodecLaws `{Codec} := {
  codec_roundtrip z id : 0 ≤ z → fromBase64Json (toBase64Json (cursor_value z id)) = Ok (cursor_value z id);
}.

Section pages.
Context `{Codec}.

(** src/server/job-repository.ts:202-205 encodeCursor *)
Definition encodeCursor (run : JobRunSummary) : string :=
  toBase64Json (cursor_value (rs_scheduledFor run) (rs_id run)).

(** src/server/job-repository.ts:207-227 decodeCursor *)
Definition decodeCursor (cursor : string) : result thrown (Z * string) :=
  let failed := jobInvalid (Some (Foreign None "")) in
  if (strlen cursor =? 0) || (JOB_REQUEST_CURSOR_MAX_LENGTH <? strlen cursor) then Err failed
  else
    match fromBase64Json cursor with
    | Err e => Err (jobInvalid (Some e))
    | Ok parsed =>
        let keys := object_keys parsed in
        match parsed, get_field "scheduledFor" parsed, get_field "id" parsed with
        | VObj _, VNum (JInt scheduledFor), VStr id =>
            if negb (Z.of_nat (length keys) =? 2) || negb (includes "scheduledFor" keys)
               || negb (includes "id" keys) || negb (isSafeJobTimestamp (VNum (JInt scheduledFor)))
               || negb (validIdentifier (VStr id))
            then Err failed else Ok (scheduledFor, id)
        | _, _, _ => Err failed
        end
    end.

(** src/server/job-repository.ts:136-139 JobRunPage *)
Record JobRunPage := { page_runs : list JobRunSummary; page_nextCursor : option string }.

(** [options.limit ?? DEFAULT], checked. *)
(** src/server/job-repository.ts:749-750 limit *)
Definition page_limit (limit : jsval) : result thrown nat :=
  let value := match limit with VUndefined | VNull => VNum (JInt JOB_RUN_PAGE_DEFAULT_LIMIT) | v => v end in
  match value with
  | VNum (JInt z) =>
      if negb (isSafeInteger z) || (z <? 1) || (JOB_RUN_PAGE_MAX_LIMIT <? z)
      then Err (jobInvalid None) else Ok (Z.to_nat z)
  | _ => Err (jobInvalid None)
  end.

(** src/server/job-repository.ts:745-768 listRuns *)
Definition listRuns (jobId : string) (cursor : option string) (limit : jsval) : M JobRunPage :=
  limit ← lift_result (page_limit limit);
  database (
    read (requireJobRow jobId);;
    rows ← match cursor with
           | None => query (sql_listRuns jobId (limit + 1))
           | Some cursor =>
               at_ ← lift_result (decodeCursor cursor);
               query (sql_listRunsAfter jobId at_.1 at_.2 (limit + 1))
           end;
    let hasMore := (limit <? length rows)%nat in
    runs ← lift_result (mapM runSummary (take limit rows));
    mret match last runs with
         | Some run => {| page_runs := runs; page_nextCursor := if hasMore then Some (encodeCursor run) else None |}
         | None => {| page_runs := runs; page_nextCursor := None |}
         end).

(** A client that follows the cursors. *)
Fixpoint all_pages (fuel : nat) (jobId : string) (cursor : option string) (limit : jsval)
  : M (list JobRunSummary) :=
  match fuel with
  | O => throw (Foreign None "out of fuel")
  | S fuel =>
      page ← listRuns jobId cursor limit;
      match page_nextCursor page with
      | None => mret (page_runs page)
      | Some next =>
          rest ← all_pages fuel jobId (Some next) limit;
          mret (page_runs page ++ rest)%list
      end
  end.
End pages.

(** ** The order of attempts *)

Lemma run_before_spec r1 r2 :
  run_before r1 r2 ↔ rr_scheduled_for r2 < rr_scheduled_for r1 ∨
    rr_scheduled_for r2 = rr_scheduled_for r1 ∧ String.leb (rr_id r2) (rr_id r1) = true.
Proof. unfold run_before, text_le. by rewrite orb_true_iff, andb_true_iff, Z.ltb_lt, Z.eqb_eq. Qed.

#[export] Instance run_before_trans : Transitive run_before.
Proof.
  intros r1 r2 r3. rewrite !run_before_spec. intros [?|[? ?]] [?|[? ?]]; try (left; lia).
  right. split; [lia|]. by eapply string_compare_trans.
Qed.
#[export] Instance run_before_total : Total run_before.
Proof.
  intros r1 r2. rewrite !run_before_spec.
  destruct (Z.lt_total (rr_scheduled_for r1) (rr_scheduled_for r2)) as [?|[?|?]]; [by auto| |by auto].
  destruct (String.leb_total (rr_id r1) (rr_id r2)); [right|left]; right; split; (done || lia).
Qed.

Lemma job_runs_desc_sorted job d : StronglySorted run_before (job_runs_desc job d).
Proof. apply StronglySorted_merge_sort; apply _. Qed.

Lemma job_runs_desc_elem job d r :
  r ∈ job_runs_desc job d ↔ (∃ id, db_runs d !! id = Some r) ∧ rr_job_id r = job.
Proof.
  unfold job_runs_desc. rewrite merge_sort_Permutation, list_elem_of_filter, elem_of_runs_list. tauto.
Qed.

Lemma job_runs_desc_ids job d : db_ok d → NoDup (rr_id <$> job_runs_desc job d).
Proof. intros Hd. unfold job_runs_desc. rewrite merge_sort_Permutation. by apply filter_runs_ids. Qed.

(** The rows after a given one, by the statement's condition. *)
Definition after (x r : RunRow) : Prop :=
  (rr_scheduled_for r <? rr_scheduled_for x)
  || ((rr_scheduled_for r =? rr_scheduled_for x)
      && text_le (rr_id r) (rr_id x) && negb (String.eqb (rr_id r) (rr_id x))) = true.

#[export] Instance after_dec x r : Decision (after x r).
Proof. unfold after. apply _. Defined.

Lemma after_spec x r : rr_id r ≠ rr_id x → after x r ↔ run_before x r.
Proof.
  intros Hne. unfold after, run_before. apply String.eqb_neq in Hne. rewrite Hne.
  cbn [negb]. by rewrite andb_true_r.
Qed.

Lemma run_before_antisym r1 r2 : run_before r1 r2 → run_before r2 r1 → rr_id r1 = rr_id r2.
Proof.
  rewrite !run_before_spec. intros [?|[? ?]] [?|[? ?]]; try lia. by apply String.leb_antisym.
Qed.

Lemma not_after_self x : ¬ after x x.
Proof. unfold after. rewrite Z.ltb_irrefl, String.eqb_refl. by rewrite andb_false_r. Qed.

Lemma filter_none {A} (P : A → Prop) `{!∀ a, Decision (P a)} (l : list A) : (∀ a, a ∈ l → ¬ P a) → filter P l = [].
Proof.
  intros Hl. destruct (filter P l) as [|a l'] eqn:E; [done|].
  assert (Ha : a ∈ filter P l) by (rewrite E; left).
  apply list_elem_of_filter in Ha as [HP Ha]. by destruct (Hl a Ha).
Qed.
Lemma filter_every {A} (P : A → Prop) `{!∀ a, Decision (P a)} (l : list A) : (∀ a, a ∈ l → P a) → filter P l = l.
Proof.
  induction l as [|a l IH]; intros Hl; [done|]. rewrite filter_cons_True by (apply Hl; left).
  f_equal. apply IH. intros. apply Hl. by right.
Qed.

Lemma sql_listRunsAfter_eq job x n d :
  sql_listRunsAfter job (rr_scheduled_for x) (rr_id x) n d = take n (filter (after x) (job_runs_desc job d)).
Proof. reflexivity. Qed.

(** In the sorted list of a job, the statement selects exactly the rows that
    follow the cursor's row. *)
Lemma rows_after job d l1 x l2 :
  db_ok d → job_runs_desc job d = (l1 ++ x :: l2)%list →
  filter (after x) (job_runs_desc job d) = l2.
Proof.
  intros Hd E. pose proof (job_runs_desc_sorted job d) as Hs.
  pose proof (job_runs_desc_ids job d Hd) as Hnd. rewrite E in *.
  rewrite fmap_app, fmap_cons in Hnd. apply NoDup_app in Hnd as (_ & Hd1 & Hnd2).
  apply NoDup_cons in Hnd2 as [Hx _].
  rewrite filter_app, filter_cons_False by apply not_after_self.
  rewrite (filter_none _ l1), (filter_every _ l2); [done|..].
  - intros r Hr. apply after_spec.
    + intros Eq. apply Hx. rewrite <-Eq. by apply list_elem_of_fmap_2.
    + apply StronglySorted_app in Hs as (_ & _ & Hs2). apply StronglySorted_cons in Hs2 as [Hall _].
      rewrite Forall_forall in Hall. by apply Hall.
  - intros r Hr Hafter.
    assert (Hne : rr_id r ≠ rr_id x).
    { intros Eq. apply (Hd1 (rr_id r)); [by apply list_elem_of_fmap_2|]. rewrite Eq. left. }
    apply after_spec in Hafter; [|done]. apply Hne.
    apply StronglySorted_app in Hs as (Hb & _ & _). symmetry.
    apply (run_before_antisym x r); [done|]. apply Hb; [done|left].
Qed.

Section pagination.
Context `{CodecLaws}.

Lemma decode_encode s :
  validIdentifier (VStr (rs_id s)) = true → is_timestamp (rs_scheduledFor s) →
  0 < strlen (encodeCursor s) ≤ JOB_REQUEST_CURSOR_MAX_LENGTH →
  decodeCursor (encodeCursor s) = Ok (rs_scheduledFor s, rs_id s).
Proof.
  intros Hid Hts Hlen. unfold decodeCursor.
  destruct (Z.eqb_spec (strlen (encodeCursor s)) 0); [lia|].
  destruct (Z.ltb_spec JOB_REQUEST_CURSOR_MAX_LENGTH (strlen (encodeCursor s))); [lia|]. cbn [orb].
  unfold encodeCursor. rewrite codec_roundtrip by (unfold is_timestamp in Hts; lia). unfold cursor_value.
  cbn -[validIdentifier isSafeJobTimestamp]. rewrite Hid.
  by rewrite (proj2 (isSafeJobTimestamp_JInt _) Hts).
Qed.

Lemma runSummary_cursor row s :
  runSummary row = Ok s →
  rs_id s = rr_id row ∧ rs_scheduledFor s = rr_scheduled_for row ∧
  validIdentifier (VStr (rs_id s)) = true ∧ is_timestamp (rs_scheduledFor s).
Proof.
  intros Hs. pose proof Hs as (Hi & _ & _ & _ & Hf & _)%runSummary_Ok. rewrite Hi, Hf. split_and!; [done..| |].
  all: unfold runSummary in Hs; match type of Hs with (if ?c then _ else _) = _ => destruct c eqn:E; [done|] end.
  all: repeat (apply orb_false_iff in E as [E ?]).
  - by apply negb_false_iff in E.
  - match goal with H : negb (isSafeJobTimestamp (VNum (JInt (rr_scheduled_for row)))) = false |- _ =>
      apply negb_false_iff, isSafeJobTimestamp_JInt in H; exact H end.
Qed.

(** What the statement of a page selects from. *)
Definition selects (job : string) (d : db) (cursor : option string) (rest : list RunRow) : Prop :=
  match cursor with
  | None => rest = job_runs_desc job d
  | Some c => ∃ x, decodeCursor c = Ok (rr_scheduled_for x, rr_id x) ∧
      filter (after x) (job_runs_desc job d) = rest
  end.

Lemma listRuns_page job cursor limit n d row rest ss :
  requireJobRow job d = Ok row → page_limit limit = Ok n → selects job d cursor rest →
  mapM runSummary (take n rest) = Ok ss →
  listRuns job cursor limit d = (Ok match last ss with
    | Some run => {| page_runs := ss; page_nextCursor :=
                       if (n <? length rest)%nat then Some (encodeCursor run) else None |}
    | None => {| page_runs := ss; page_nextCursor := None |}
    end, d).
Proof.
  intros Hrow Hlim Hsel Hss.
  assert (Hrows : ∀ k, take n (take (n + 1) k) = take (A:=RunRow) n k).
  { intros k. rewrite take_take. f_equal. lia. }
  assert (Hmore : ∀ k : list RunRow, (n <? length (take (n + 1) k))%nat = (n <? length k)%nat).
  { intros k. rewrite length_take. destruct (Nat.ltb_spec n (length k)), (Nat.ltb_spec n (Nat.min (n + 1) (length k))); lia || done. }
  unfold listRuns, mbind, M_bind, lift_result. rewrite Hlim. unfold database, read. rewrite Hrow.
  destruct cursor as [c|]; cbn [selects] in Hsel.
  - destruct Hsel as (x & Hc & <-). rewrite Hc. unfold query. cbn [fst snd].
    rewrite sql_listRunsAfter_eq,  Hrows, Hss, Hmore. by destruct (last ss).
  - subst rest. unfold query, sql_listRuns. rewrite Hrows, Hss, Hmore. by destruct (last ss).
Qed.

Lemma mapM_app_Ok {A B E} (f : A → result E B) l1 l2 ss :
  mapM f (l1 ++ l2) = Ok ss ↔ ∃ s1 s2, mapM f l1 = Ok s1 ∧ mapM f l2 = Ok s2 ∧ ss = (s1 ++ s2)%list.
Proof.
  revert ss. induction l1 as [|a l1 IH]; intros ss; cbn.
  - unfold mret, result_ret. naive_solver.
  - rewrite bind_Ok. setoid_rewrite bind_Ok. setoid_rewrite IH. unfold mret, result_ret. split.
    + intros (b & Hb & s & (s1 & s2 & H1 & H2 & ->) & [= <-]). exists (b :: s1), s2.
      split; [exists b; split; [done|]; by rewrite H1|done].
    + intros (s1 & s2 & (b & Hb & (s1' & H1 & [= <-])%bind_Ok) & H2 & ->). exists b. split; [done|].
      exists (s1' ++ s2)%list. split; [|done]. by exists s1', s2.
Qed.
Lemma mapM_length_Ok {A B E} (f : A → result E B) l ss : mapM f l = Ok ss → length ss = length l.
Proof.
  revert ss. induction l as [|a l IH]; intros ss; cbn; unfold mret, result_ret; [by intros [= <-]|].
  rewrite bind_Ok. setoid_rewrite bind_Ok. intros (b & _ & s & Hs & [= <-]). cbn. f_equal. auto.
Qed.

(** Following the cursors from any position visits the rest. *)
Lemma all_pages_rest job limit n d row :
  db_ok d → requireJobRow job d = Ok row → page_limit limit = Ok n → (0 < n)%nat →
  (∀ r s, r ∈ job_runs_desc job d → runSummary r = Ok s →
     0 < strlen (encodeCursor s) ≤ JOB_REQUEST_CURSOR_MAX_LENGTH) →
  ∀ fuel rest cursor ss, (length rest < fuel)%nat → selects job d cursor rest →
    (∃ before, job_runs_desc job d = (before ++ rest)%list) → mapM runSummary rest = Ok ss →
    all_pages fuel job cursor limit d = (Ok ss, d).
Proof.
  intros Hd Hrow Hlim Hn Hlen. induction fuel as [|fuel IH]; intros rest cursor ss Hf Hsel [before Hsuf] Hss; [lia|].
  rewrite <-(take_drop n rest) in Hss. apply mapM_app_Ok in Hss as (s1 & s2 & H1 & H2 & ->).
  cbn [all_pages]. unfold mbind, M_bind.
  rewrite (listRuns_page job cursor limit n d row rest s1 Hrow Hlim Hsel H1).
  pose proof (mapM_length_Ok _ _ _ H1) as Hl1. rewrite length_take in Hl1.
  destruct (last s1) as [run|] eqn:Elast.
  2:{ apply last_None in Elast as ->. cbn in Hl1. cbn [page_nextCursor page_runs].
      assert (rest = []) as -> by (destruct rest; cbn in *; [done|lia]).
      rewrite drop_nil in H2. cbn in H2. by injection H2 as <-. }
  cbn [page_nextCursor page_runs]. destruct (Nat.ltb_spec n (length rest)) as [Hmore|Hmore].
  2:{ cbn [page_nextCursor page_runs]. rewrite drop_ge in H2 by lia. injection H2 as <-. by rewrite app_nil_r. }
  cbn [page_nextCursor page_runs].
  (* the last row of the page and its summary *)
  apply last_Some in Elast as [s1' ->].
  destruct (rest !! (n - 1)%nat) as [x|] eqn:Ex; [|apply lookup_ge_None in Ex; lia].
  assert (Htake : take n rest = (take (n - 1) rest ++ [x])%list).
  { replace n with (S (n - 1)) at 1 by lia. by apply take_S_r. }
  rewrite Htake in H1. apply mapM_app_Ok in H1 as (t1 & t2 & Ht1 & Ht2 & Heq).
  cbn in Ht2. destruct (runSummary x) as [sx|] eqn:Esx; cbn in Ht2; [|done]. injection Ht2 as <-.
  apply app_inj_tail in Heq as [-> ->].
  assert (Hfull : job_runs_desc job d = ((before ++ take (n - 1) rest) ++ x :: drop n rest)%list).
  { rewrite Hsuf, <-app_assoc. f_equal. rewrite <-(take_drop n rest) at 1. rewrite Htake, <-app_assoc. done. }
  assert (Hx : x ∈ job_runs_desc job d) by (rewrite Hfull; set_solver).
  pose proof (runSummary_cursor _ _ Esx) as (Hsi & Hsf & Hsv & Hst).
  rewrite (IH (drop n rest) (Some (encodeCursor sx)) s2); [done|..|done].
  - rewrite length_drop. lia.
  - exists x. split; [|by eapply rows_after].
    rewrite <-Hsi, <-Hsf. apply decode_encode; [done..|by eapply Hlen].
  - exists (before ++ take (n - 1) rest ++ [x])%list. rewrite Hfull, <-!app_assoc. done.
Qed.
End pagination.

(** ** Property *)

#[local] Existing Instance sample_intl.
#[local] Existing Instance OneChange.utc.

(** A codec for the witness: decimal digits, a separator and the identifier. *)
Fixpoint split_at (c : ascii) (s : string) : option (string * string) :=
  match s with
  | EmptyString => None
  | String a r => if Ascii.eqb a c then Some ("", r)
                  else '(x, y) ← split_at c r; Some (String a x, y)
  end.
Definition sample_codec : Codec := {|
  toBase64Json v := match get_field "scheduledFor" v, get_field "id" v with
    | VNum (JInt z), VStr id => NilEmpty.string_of_uint (N.to_uint (Z.to_N z)) +:+ String "." id
    | _, _ => "" end;
  fromBase64Json s := match split_at "." s with
    | Some (digits, id) =>
        match NilEmpty.uint_of_string digits with
        | Some u => Ok (cursor_value (Z.of_N (N.of_uint u)) id)
        | None => Err (Foreign None "SyntaxError") end
    | None => Err (Foreign None "SyntaxError") end |}.

#[local] Arguments String.append !_ _ /.
Lemma split_at_digits u id :
  split_at "." (NilEmpty.string_of_uint u +:+ String "." id) = Some (NilEmpty.string_of_uint u, id).
Proof. induction u; cbn; [done|..]; rewrite IHu; done. Qed.

#[export] Instance sample_codec_laws : @CodecLaws sample_codec.
Proof.
  split. intros z id Hz. unfold toBase64Json, fromBase64Json, sample_codec, cursor_value.
  cbn -[split_at NilEmpty.string_of_uint NilEmpty.uint_of_string N.to_uint N.of_uint Z.to_N Z.of_N String.app].
  rewrite split_at_digits, NilEmpty.usu, DecimalN.Unsigned.of_to, Z2N.id by done. done.
Qed.

(** Following the cursors of a job's attempts from the first page visits
    every attempt of the job exactly once, from the newest scheduled time to
    the oldest (ties by identifier), for every page size from 1 to 100: the
    pages together are the whole ordered list, and the cursor of a page's last
    attempt resumes right after it. The attempts must be readable and the
    cursors within the length the decoder accepts. *)
Lemma pages_visit_every_attempt_once `{CodecLaws} job limit n d row ss :
  db_ok d → requireJobRow job d = Ok row → page_limit limit = Ok n →
  mapM runSummary (job_runs_desc job d) = Ok ss →
  (∀ s, s ∈ ss → strlen (encodeCursor s) ≤ JOB_REQUEST_CURSOR_MAX_LENGTH) →
  (∀ s, s ∈ ss → encodeCursor s ≠ "") →
  all_pages (S (length ss)) job None limit d = (Ok ss, d) ∧
  NoDup (rr_id <$> job_runs_desc job d) ∧ StronglySorted run_before (job_runs_desc job d) ∧
  (∀ r, r ∈ job_runs_desc job d ↔ (∃ id, db_runs d !! id = Some r) ∧ rr_job_id r = job).
Proof.
  intros Hd Hrow Hlim Hss Hlen Hne.
  split_and!; [|by apply job_runs_desc_ids|apply job_runs_desc_sorted|apply job_runs_desc_elem].
  assert (Hn : (0 < n)%nat).
  { unfold page_limit in Hlim. repeat (case_match; try done); breflect; simplify_eq; lia. }
  assert (Hin : ∀ r s, r ∈ job_runs_desc job d → runSummary r = Ok s → s ∈ ss).
  { revert Hss. generalize (job_runs_desc job d). clear Hlen Hne. revert ss. intros ss l. revert ss.
    induction l as [|x l IH]; intros ss Hss r s Hr Hs; [by apply elem_of_nil in Hr|].
    cbn in Hss. apply bind_Ok in Hss as (y & Hy & Hss). apply bind_Ok in Hss as (ys & Hys & Hss).
    injection Hss as <-. apply elem_of_cons in Hr as [->|Hr]; [|right; by eapply IH].
    rewrite Hs in Hy. injection Hy as ->. left. }
  apply (all_pages_rest job limit n d row Hd Hrow Hlim Hn) with (rest := job_runs_desc job d);
    [|..|by exists []|done].
  - intros r s Hr Hs. pose proof (Hin _ _ Hr Hs) as Hi. split; [|by apply Hlen].
    pose proof (strlen_nonneg (encodeCursor s)). pose proof (strlen_zero (encodeCursor s)).
    specialize (Hne s Hi). destruct (Z.eq_dec (strlen (encodeCursor s)) 0); [tauto|lia].
  - rewrite (mapM_length_Ok _ _ _ Hss). lia.
  - done.
Qed.

Lemma pages_visit_every_attempt_once_witness :
  ∃ ss, @all_pages sample_codec (S (length ss)) "j" None (ms 1) sample_running = (Ok ss, sample_running) ∧
    length ss = 1%nat.
Proof.
  destruct (mapM runSummary (job_runs_desc "j" sample_running)) as [ss|e] eqn:Ess;
    [|exfalso; vm_compute in Ess; discriminate Ess].
  destruct (requireJobRow "j" sample_running) as [row|e] eqn:Er; [|exfalso; vm_compute in Er; discriminate Er].
  exists ss. pose proof Ess as Hc. vm_compute in Hc. injection Hc as <-. split; [|reflexivity].
  refine (proj1 (@pages_visit_every_attempt_once sample_codec sample_codec_laws "j" (ms 1) 1%nat sample_running row _
    (exec_all_ok sample_repository sample_calls sample_db (empty_db_ok _)) Er eq_refl Ess _ _)).
  - intros s Hs. apply list_elem_of_singleton in Hs as ->. vm_compute. discriminate.
  - intros s Hs. apply list_elem_of_singleton in Hs as ->. vm_compute. discriminate.
Defined.
