(* ===== verification/JobScheduler.v ===== *)
(** The scheduler of recurring jobs ([src/server/job-scheduler.ts]): startup
    recovery and catch-up, the wake timer, manual admission and shutdown, as
    programs over the repository, the runner, the clock and the timers. *)
From S2P Require Import Prelude Errors Jobs JobRepository Programs.
#[local] Open Scope string_scope. #[local] Open Scope Z_scope.

(** src/server/job-scheduler.ts:6-6 JOB_SCHEDULER_MAX_TIMER_DELAY_MS *)
Definition JOB_SCHEDULER_MAX_TIMER_DELAY_MS : Z := 2147000000.

(** A timer carries the generation its callback captured. *)
(** src/server/job-scheduler.ts:8-24 JobSchedulerRepositoryPort *)
Inductive port :=
| Clock
| MarkAllInterrupted (at_ : Z)
| ListEnabled
| ListDue (now : Z)
| ClaimStartupCatchUp (jobId : string) (startupAt : Z)
| ClaimDue (jobId : string) (now : Z)
| ClaimManual (jobId : string) (now : Z)
| Dispatch (claim : ClaimedJobRun)
| AwaitDispatch (claim : ClaimedJobRun)
| SetImmediate (claim : ClaimedJobRun)
| SetTimeout (delay : Z) (generation : Z)
| ClearTimeout (handle : nat)
| OnInternalError (error : thrown).

Definition port_answer (c : port) : Type :=
  match c with
  | Clock => jsnum
  | MarkAllInterrupted _ => result thrown unit
  | ListEnabled | ListDue _ => result thrown (list JobSummary)
  | ClaimStartupCatchUp _ _ | ClaimDue _ _ => result thrown (option ClaimedJobRun)
  | ClaimManual _ _ => result thrown ClaimedJobRun
  | Dispatch _ => result thrown unit
  | AwaitDispatch _ => result thrown JobRunState
  | SetTimeout _ _ => nat
  | SetImmediate _ | ClearTimeout _ | OnInternalError _ => unit
  end.

(** src/server/job-scheduler.ts:65-70 JobScheduler *)
Record Scheduler := {
  sc_timer : option nat;
  sc_running : bool;
  sc_closed : bool;
  sc_initialized : bool;
  sc_generation : Z;
  sc_startPromise : bool;
}.
Definition set_timer (t : option nat) (s : Scheduler) : Scheduler :=
  {| sc_timer := t; sc_running := sc_running s; sc_closed := sc_closed s;
     sc_initialized := sc_initialized s; sc_generation := sc_generation s; sc_startPromise := sc_startPromise s |}.
Definition set_running (r : bool) (s : Scheduler) : Scheduler :=
  {| sc_timer := sc_timer s; sc_running := r; sc_closed := sc_closed s;
     sc_initialized := sc_initialized s; sc_generation := sc_generation s; sc_startPromise := sc_startPromise s |}.
Definition set_closed (s : Scheduler) : Scheduler :=
  {| sc_timer := sc_timer s; sc_running := sc_running s; sc_closed := true;
     sc_initialized := sc_initialized s; sc_generation := sc_generation s; sc_startPromise := sc_startPromise s |}.
Definition set_initialized (s : Scheduler) : Scheduler :=
  {| sc_timer := sc_timer s; sc_running := sc_running s; sc_closed := sc_closed s;
     sc_initialized := true; sc_generation := sc_generation s; sc_startPromise := sc_startPromise s |}.
Definition next_generation (promise : bool) (s : Scheduler) : Scheduler :=
  {| sc_timer := sc_timer s; sc_running := sc_running s; sc_closed := sc_closed s;
     sc_initialized := sc_initialized s; sc_generation := sc_generation s + 1; sc_startPromise := promise |}.

(** src/server/job-scheduler.ts:65-70 initial *)
Definition new_scheduler : Scheduler :=
  {| sc_timer := None; sc_running := false; sc_closed := false; sc_initialized := false;
     sc_generation := 0; sc_startPromise := false |}.

(** The constructor's check of [maxTimerDelayMs]. *)
(** src/server/job-scheduler.ts:82-88 constructor *)
Definition valid_max_delay (maxTimerDelayMs : jsnum) : bool :=
  match maxTimerDelayMs with
  | JInt z => isSafeInteger z && (0 <? z) && (z <=? 2147483647)
  | JOther => false
  end.

(** No call suspends these functions while they hold variables. *)
#[export] Instance no_interference : Interference port unit Scheduler := λ _ _ s, s.
Notation sched := (Programs.stmt port_answer unit Scheduler unit thrown).
Notation call_ := (Programs.call_ (ans := port_answer) (W := unit) (S := Scheduler) (R := unit) (E := thrown))
  (only parsing).
Notation call_ok := (Programs.call_ok (ans := port_answer) (W := unit) (S := Scheduler) (R := unit) (E := thrown))
  (only parsing).
Definition get_s : sched Scheduler := get_.
Definition modify_s (f : Scheduler → Scheduler) : sched unit := modify_ f.

(** The foreign error is a RangeError. *)
(** src/server/job-scheduler.ts:35-41 safeNow *)
Definition safeNow : sched Z :=
  v ← call_ Clock;
  match v with
  | JInt z => if isSafeInteger z && (0 <=? z) then mret z
              else throw_ (Foreign None "Job scheduler clock must return a non-negative safe integer")
  | JOther => throw_ (Foreign None "Job scheduler clock must return a non-negative safe integer")
  end.

(** src/server/job-scheduler.ts:43-49 hasValidPersistedSchedule *)
Definition hasValidPersistedSchedule (job : JobSummary) : bool :=
  js_enabled job && negb (bool_decide (js_nextRunAt job = None))
  && negb (bool_decide (issue_code <$> js_configurationIssue job = Some JOB_INVALID)).

(** src/server/job-scheduler.ts:112-112 notDue *)
Definition not_due (now : Z) (job : JobSummary) : bool :=
  negb (hasValidPersistedSchedule job)
  || match js_nextRunAt job with Some n => now <? n | None => false end.

(** src/server/job-scheduler.ts:224-231 dispatch *)
Definition dispatch (claim : option ClaimedJobRun) : sched unit :=
  match claim with
  | None => mret tt
  | Some claim =>
      r ← call_ (Dispatch claim);
      match r with Ok _ => mret tt | Err error => call_ (OnInternalError error) end
  end.

(** The loop of [#claimDue]. *)
(** src/server/job-scheduler.ts:212-221 claimDueLoop *)
Fixpoint claim_each (due : list JobSummary) (now : Z) : sched unit :=
  match due with
  | [] => mret tt
  | job :: rest =>
      (if not_due now job then mret tt
       else
         r ← call_ (ClaimDue (js_id job) now);
         match r with
         | Ok claim => dispatch claim
         | Err error => if is_app_error JOB_INVALID error then mret tt else call_ (OnInternalError error)
         end);;
      claim_each rest now
  end.

(** src/server/job-scheduler.ts:209-222 claimDue *)
Definition claim_due (now : Z) : sched unit :=
  due ← call_ok (ListDue now) id;
  claim_each due now.

(** src/server/job-scheduler.ts:251-255 cancelTimer *)
Definition cancelTimer : sched unit :=
  s ← get_s;
  match sc_timer s with
  | None => mret tt
  | Some h => call_ (ClearTimeout h);; modify_s (set_timer None)
  end.

(** The nearest occurrence of the valid definitions. *)
(** src/server/job-scheduler.ts:238-242 nearest *)
Fixpoint nearest_of (jobs : list JobSummary) (nearest : option Z) : option Z :=
  match jobs with
  | [] => nearest
  | job :: rest =>
      nearest_of rest
        (if negb (hasValidPersistedSchedule job) then nearest
         else match js_nextRunAt job, nearest with
              | Some n, None => Some n
              | Some n, Some m => if n <? m then Some n else nearest
              | None, _ => nearest
              end)
  end.

Section scheduler.
Context (maxTimerDelayMs : Z).

(** src/server/job-scheduler.ts:233-249 arm *)
Definition arm : sched unit :=
  cancelTimer;;
  enabled ← call_ok ListEnabled id;
  match nearest_of enabled None with
  | None => mret tt
  | Some nearest =>
      now ← safeNow;
      let delay := Z.min maxTimerDelayMs (Z.max 0 (nearest - now)) in
      s ← get_s;
      h ← call_ (SetTimeout delay (sc_generation s));
      modify_s (set_timer (Some h))
  end.

Definition current (generation : Z) (s : Scheduler) : bool :=
  sc_running s && negb (sc_closed s) && (generation =? sc_generation s).

(** The startup catch-up loop. *)
(** src/server/job-scheduler.ts:111-119 catchUp *)
Fixpoint catch_up_each (enabled : list JobSummary) (startupAt : Z) : sched unit :=
  match enabled with
  | [] => mret tt
  | job :: rest =>
      (if not_due startupAt job then mret tt
       else
         r ← call_ (ClaimStartupCatchUp (js_id job) startupAt);
         match r with
         | Ok claim => dispatch claim
         | Err error => if is_app_error JOB_INVALID error then mret tt else throw_ error
         end);;
      catch_up_each rest startupAt
  end.

(** The microtask [start] schedules, *)
(** src/server/job-scheduler.ts:105-127 startTask *)
Definition start_task (generation : Z) : sched unit :=
  s ← get_s;
  if negb (current generation s) then mret tt
  else
    startupAt ← safeNow;
    s ← get_s;
    (if negb (sc_initialized s) then
       call_ok (MarkAllInterrupted startupAt) id;;
       enabled ← call_ok ListEnabled id;
       catch_up_each enabled startupAt;;
       modify_s set_initialized
     else
       now ← safeNow;
       claim_due now);;
    s ← get_s;
    if current generation s then arm else mret tt.

(** and the later one that handles its failure. *)
(** src/server/job-scheduler.ts:127-133 startFailed *)
Definition start_failed (generation : Z) (error : thrown) : sched unit :=
  s ← get_s;
  (if generation =? sc_generation s then modify_s (set_running false);; cancelTimer else mret tt);;
  throw_ error.

(** What [start] returns: a rejection, the running start, or a new one whose
    microtask is pending for the generation. *)
Inductive started := StartRejected (e : thrown) | StartJoined | StartNew (generation : Z).

(** src/server/job-scheduler.ts:99-104 start *)
Definition start (s : Scheduler) : started * Scheduler :=
  if sc_closed s then (StartRejected (app_error SHUTTING_DOWN), s)
  else if sc_running s then (StartJoined, s)
  else
    let s' := next_generation true (set_running true s) in
    (StartNew (sc_generation s'), s').

(** src/server/job-scheduler.ts:195-207 wake *)
Definition wake (generation : Z) : sched unit :=
  s ← get_s;
  if negb (current generation s) then mret tt
  else
    modify_s (set_timer None);;
    try_ (now ← safeNow; claim_due now) (λ error, call_ (OnInternalError error));;
    s ← get_s;
    if current generation s then try_ arm (λ error, call_ (OnInternalError error)) else mret tt.

(** src/server/job-scheduler.ts:165-172 refreshSchedule *)
Definition refreshSchedule : sched unit :=
  s ← get_s;
  if negb (sc_running s) || sc_closed s then mret tt
  else try_ arm (λ error, call_ (OnInternalError error)).

(** src/server/job-scheduler.ts:182-188 stop *)
Definition stop : sched unit :=
  s ← get_s;
  if negb (sc_running s) then mret tt
  else modify_s (λ s, next_generation false (set_running false s));; cancelTimer.

(** src/server/job-scheduler.ts:175-179 beginShutdown *)
Definition beginShutdown : sched unit :=
  s ← get_s;
  if sc_closed s then mret tt else stop;; modify_s set_closed.

(** src/server/job-scheduler.ts:257-259 assertAccepting *)
Definition assertAccepting : sched unit :=
  s ← get_s;
  if sc_closed s || negb (sc_running s) then throw_ (app_error SHUTTING_DOWN) else mret tt.

(** src/server/job-scheduler.ts:142-150 runNow *)
Definition runNow (jobId : string) : sched JobRunState :=
  assertAccepting;;
  now ← safeNow;
  claim ← call_ok (ClaimManual jobId now) id;
  state ← call_ok (AwaitDispatch claim) id;
  if bool_decide (rs_status (st_summary state) = Skipped)
     && bool_decide (rs_errorCode (st_summary state) = Some LIVE_RUNTIME_LIMIT)
  then throw_ (app_error LIVE_RUNTIME_LIMIT)
  else mret state.

(** src/server/job-scheduler.ts:157-162 runNowAccepted *)
Definition runNowAccepted (jobId : string) : sched JobRunState :=
  assertAccepting;;
  now ← safeNow;
  claim ← call_ok (ClaimManual jobId now) id;
  call_ (SetImmediate claim);;
  mret (claim_run claim).
End scheduler.
