(* ===== verification/JobSchedulerSafety.v ===== *)
(** What the scheduler does over any history of its events: one wake timer at
    most, none once it is stopped or closed, no admission while it is not
    accepting, and startup recovery at most once. *)
From S2P Require Import Prelude Errors Jobs JobRepository Programs JobScheduler.
#[local] Open Scope string_scope. #[local] Open Scope Z_scope.

(** ** The monitor of one function *)

(** The pending timers and the generations they captured. *)
Definition timers : Type := list (nat * Z).

Definition tm_next (g : timers) (e : event port_answer unit) : timers :=
  match e with
  | Event (SetTimeout _ gen) h _ => (h, gen) :: g
  | Event (ClearTimeout h) _ _ => List.filter (λ p, negb (Nat.eqb p.1 h)) g
  | _ => g
  end.

(** A function entered while the scheduler [accepts], or not, and while startup
    recovery is still to be done ([fresh]), or not: timers are set one at a time
    and within the limit, work is admitted only while accepting, and recovery
    runs only while it is to be done. *)
Definition tm_allowed (max : Z) (accepts fresh : bool) (g : timers) (c : port) : Prop :=
  match c with
  | SetTimeout delay _ => g = [] ∧ 0 ≤ delay ≤ max ∧ accepts = true
  | ClearTimeout h => ∃ gen, g = [(h, gen)]
  | ClaimDue _ _ | ClaimManual _ _ | Dispatch _ | AwaitDispatch _ | SetImmediate _ => accepts = true
  | MarkAllInterrupted _ | ClaimStartupCatchUp _ _ => accepts = true ∧ fresh = true
  | _ => True
  end.

(** What has been initialized stays so, and what has been closed stays closed. *)
Definition keeps (i0 c0 : bool) (s : Scheduler) : Prop :=
  (i0 = true → sc_initialized s = true) ∧ (c0 = true → sc_closed s = true).

(** Between the functions: a closed scheduler does not run, and a pending timer
    is the stored one, of the current generation of a running scheduler. *)
Record inv (i0 c0 : bool) (s : Scheduler) (g : timers) : Prop := {
  inv_keeps : keeps i0 c0 s;
  inv_closed : sc_closed s = true → sc_running s = false;
  inv_timer : match sc_timer s with
    | None => g = []
    | Some h => g = [(h, sc_generation s)] ∧ sc_running s = true
    end;
}.

(** The stored timer is the pending one; all that [#cancelTimer] relies on. *)
Definition timer_matches (s : Scheduler) (g : timers) : Prop :=
  match sc_timer s with
  | None => g = []
  | Some h => ∃ gen, g = [(h, gen)]
  end.

Lemma inv_matches i0 c0 s g : inv i0 c0 s g → timer_matches s g.
Proof. intros [_ _ Ht]. unfold timer_matches. destruct (sc_timer s); [destruct Ht; eauto|done]. Qed.

(** A call that is no timer call leaves the pending timers as they were. *)
Definition quiet (c : port) : bool :=
  match c with SetTimeout _ _ | ClearTimeout _ => false | _ => true end.

Section safety.
Context (max : Z) (Hmax : 0 ≤ max) (accepts fresh i0 c0 : bool).
Notation inv := (JobSchedulerSafety.inv i0 c0).
Notation keeps := (JobSchedulerSafety.keeps i0 c0).
Notation allowed := (tm_allowed max accepts fresh).
Notation spec := (spec_t (R := unit) (E := thrown) allowed tm_next inv inv).
Notation rule_call := (spec_call (ans := port_answer) (W := unit) (R := unit) (E := thrown)
  (allowed := allowed) (next := tm_next) (D := inv) (T := inv)).

Lemma spec_quiet c (P : Scheduler → timers → Prop) :
  quiet c = true → (∀ g, allowed g c) → spec P (call_ c) (λ _, P).
Proof. intros Hq Hal. apply (rule_call c). intros s g HP. split; [done|]. intros r w. by destruct c. Qed.

(** The invariant together with facts about the scheduler. *)
Definition at_ (F : Scheduler → Prop) (s : Scheduler) (g : timers) : Prop := inv s g ∧ F s.

Lemma spec_quiet_ok c {A} (f : port_answer c → result thrown A) F :
  quiet c = true → (∀ g, allowed g c) → spec (at_ F) (call_ok c f) (λ _, at_ F).
Proof.
  intros Hq Hal. unfold call_ok. eapply spec_bind; [by apply spec_quiet|].
  intros r. destruct (f r); [by apply spec_ret|]. apply spec_throw. by intros s g [Hi _].
Qed.

Lemma spec_safeNow F : spec (at_ F) safeNow (λ _, at_ F).
Proof.
  unfold safeNow. eapply spec_bind; [by apply (spec_quiet Clock)|]. intros v.
  destruct v as [z|]; [destruct (_ && _)|]; first [by apply spec_ret|apply spec_throw; by intros s g [Hi _]].
Qed.

Lemma spec_dispatch claim F : accepts = true → spec (at_ F) (dispatch claim) (λ _, at_ F).
Proof.
  intros Ha. destruct claim as [claim|]; [|by apply spec_ret]. cbn [dispatch].
  eapply spec_bind; [by apply (spec_quiet (Dispatch claim))|].
  intros [u|e]; [by apply spec_ret|by apply (spec_quiet (OnInternalError e))].
Qed.

Lemma spec_claim_each due now F : accepts = true → spec (at_ F) (claim_each due now) (λ _, at_ F).
Proof.
  intros Ha. induction due as [|job rest IH]; [by apply spec_ret|]. cbn [claim_each].
  eapply spec_bind; [|intros ?; apply IH]. destruct (not_due now job); [by apply spec_ret|].
  eapply spec_bind; [by apply (spec_quiet (ClaimDue (js_id job) now))|]. intros [c|e]; [by apply spec_dispatch|].
  destruct (is_app_error _ _); [by apply spec_ret|by apply (spec_quiet (OnInternalError e))].
Qed.

Lemma spec_claim_due now F : accepts = true → spec (at_ F) (claim_due now) (λ _, at_ F).
Proof.
  intros Ha. unfold claim_due. eapply spec_bind; [by apply (spec_quiet_ok (ListDue now))|].
  intros due. by apply spec_claim_each.
Qed.

Lemma spec_catch_up_each enabled at0 F :
  accepts = true → fresh = true → spec (at_ F) (catch_up_each enabled at0) (λ _, at_ F).
Proof.
  intros Ha Hf. induction enabled as [|job rest IH]; [by apply spec_ret|]. cbn [catch_up_each].
  eapply spec_bind; [|intros ?; apply IH]. destruct (not_due at0 job); [by apply spec_ret|].
  eapply spec_bind; [by apply (spec_quiet (ClaimStartupCatchUp (js_id job) at0))|].
  intros [c|e]; [by apply spec_dispatch|]. destruct (is_app_error _ _); [by apply spec_ret|].
  apply spec_throw. by intros s g [Hi _].
Qed.

(** [#cancelTimer] from any stored timer. *)
Lemma spec_cancelTimer (F : Scheduler → Prop) :
  (∀ s, F s → F (set_timer None s)) →
  (∀ s, F s → keeps s ∧ (sc_closed s = true → sc_running s = false)) →
  spec (λ s g, timer_matches s g ∧ F s) cancelTimer (λ _, at_ (λ s, F s ∧ sc_timer s = None)).
Proof.
  intros HF Hcl. unfold cancelTimer. eapply spec_bind; [apply spec_get|]. intros x0.
  destruct (sc_timer x0) as [h|] eqn:Ex.
  - eapply spec_bind.
    + apply (rule_call (ClearTimeout h) _ (λ _ s g, g = [] ∧ F s)).
      intros s g [(Hm & HFs) ->]. unfold timer_matches in Hm. rewrite Ex in Hm. destruct Hm as [gen ->].
      split; [by exists gen|]. intros r w. cbn. by rewrite Nat.eqb_refl.
    + intros ?. apply spec_modify. intros s g (-> & HFs).
      destruct (Hcl s HFs). split; [by split|]. split; [by apply HF|done].
  - apply spec_ret. intros s g [(Hm & HFs) ->]. unfold timer_matches in Hm. rewrite Ex in Hm.
    destruct (Hcl s HFs). split; [split; [done..|by rewrite Ex]|done].
Qed.

Definition live (s : Scheduler) : Prop := sc_running s = true ∧ sc_closed s = false.

Lemma spec_arm : accepts = true → spec (at_ live) (arm max) (λ _, at_ live).
Proof.
  intros Ha. unfold arm. eapply spec_bind.
  { eapply spec_pre; [|apply (spec_cancelTimer (λ s, live s ∧ keeps s))].
    - intros s g (Hi & HF). split; [by eapply inv_matches|]. by destruct Hi.
    - intros s HF. exact HF.
    - intros s [[_ Hc] Hk]. split; [done|congruence]. }
  intros ?. eapply spec_bind; [by apply (spec_quiet_ok ListEnabled)|].
  intros enabled. destruct (nearest_of enabled None) as [nearest|].
  2: { apply spec_ret. intros s g (Hi & [HF _] & _). by split. }
  eapply spec_bind; [apply spec_safeNow|]. intros now. eapply spec_bind; [apply spec_get|].
  intros x0. eapply spec_bind.
  { apply (rule_call (SetTimeout _ (sc_generation x0)) _ (λ h s g,
      g = [(h, sc_generation s)] ∧ live s ∧ keeps s)).
    intros s g [([_ Hc Ht] & HF & Hn) ->]. rewrite Hn in Ht. subst g. split; [split; [done|split; [lia|done]]|done]. }
  intros h. apply spec_modify. intros s g (Hp & [Hr Hcl] & Hk).
  split; [split; cbn; [done|congruence|done]|done].
Qed.

Lemma current_live gen s : current gen s = true → live s ∧ gen = sc_generation s.
Proof.
  unfold current, live. intros H. destruct (sc_running s), (sc_closed s); try done.
  apply Z.eqb_eq in H. done.
Qed.

(** ** The functions between which the scheduler keeps its invariant *)

(** Arming where the guard holds. *)
Lemma spec_guarded_arm gen : accepts = true → spec inv (s ← get_s; if current gen s then arm max else mret tt) (λ _, inv).
Proof.
  intros Ha. eapply spec_bind; [apply spec_get|]. intros x0. destruct (current gen x0) eqn:E.
  - eapply spec_weaken; [| |by apply spec_arm].
    + intros s g [Hi ->]. split; [done|]. by eapply current_live.
    + by intros ? s g [Hi _].
  - apply spec_ret. by intros s g [Hi _].
Qed.

(** What holds of the function's entry state. *)
Definition entered (s0 : Scheduler) : Prop :=
  (live s0 → accepts = true) ∧ (sc_initialized s0 = false → fresh = true).

Lemma spec_start_task gen s0 :
  entered s0 → spec (λ s g, inv s g ∧ s = s0) (start_task max gen) (λ _, inv).
Proof.
  intros [Ha Hf]. unfold start_task. eapply spec_bind; [apply spec_get|]. intros x0.
  destruct (current gen x0) eqn:E; cbn [negb]; [|apply spec_ret; by intros s g [[Hi _] _]].
  apply current_live in E as [Hl _].
  eapply (spec_pre _ (λ s g, (accepts = true ∧ x0 = s0) ∧ at_ (eq s0) s g)).
  { intros s g [[Hi ->] ->]. split; [split; [by apply Ha|done]|by split]. }
  apply spec_pure. intros [Hacc ->].
  eapply spec_bind; [apply spec_safeNow|]. intros at0. eapply spec_bind; [apply spec_get|]. intros x1.
  eapply spec_bind; [|intros ?; by apply spec_guarded_arm].
  destruct (sc_initialized x1) eqn:Ei; cbn [negb].
  - eapply spec_pre; [intros s g [H _]; exact H|].
    eapply spec_bind; [apply spec_safeNow|]. intros now.
    eapply spec_weaken; [done| |apply (spec_claim_due now (eq s0) Hacc)]. by intros ? s g [Hi _].
  - eapply (spec_pre _ (λ s g, fresh = true ∧ at_ (eq s0) s g)).
    { intros s g [[Hi <-] ->]. split; [by apply Hf|done]. }
    apply spec_pure. intros Hfresh.
    eapply spec_bind; [by apply (spec_quiet_ok (MarkAllInterrupted at0))|]. intros ?.
    eapply spec_bind; [by apply (spec_quiet_ok ListEnabled)|]. intros enabled.
    eapply spec_bind; [by apply spec_catch_up_each|]. intros ?.
    apply spec_modify. intros s g [[[_ Hk] Hc Ht] _]. by split.
Qed.

(** Reporting an error and going on. *)
Lemma spec_report e : spec inv (call_ (OnInternalError e)) (λ _, inv).
Proof. by apply spec_quiet. Qed.

Lemma spec_start_failed gen e : spec inv (start_failed gen e : sched unit) (λ _, inv).
Proof.
  unfold start_failed. eapply spec_bind; [apply spec_get|]. intros x0.
  eapply (spec_bind _ _ _ (λ _, inv)); [|intros ?; by apply spec_throw].
  destruct (gen =? sc_generation x0); [|apply spec_ret; by intros s g [Hi _]].
  eapply spec_bind; [apply (spec_modify _ _ (λ _ s g, timer_matches s g ∧ keeps s ∧ sc_running s = false))|].
  - intros s g [Hi _]. split; [by apply inv_matches in Hi|]. by destruct Hi.
  - intros ?. eapply spec_weaken; [| |apply (spec_cancelTimer (λ s, keeps s ∧ sc_running s = false))]; try done.
    + by intros ? s g [Hi _].
    + by intros s [Hk Hr].
Qed.

(** A timer fires: it is no longer pending, but it is still the stored one. *)
Definition fired (gen : Z) (s : Scheduler) (g : timers) : Prop :=
  live s ∧ keeps s ∧ gen = sc_generation s ∧ g = [].

Lemma spec_wake gen s0 :
  entered s0 → spec (λ s g, fired gen s g ∧ s = s0) (wake max gen) (λ _, inv).
Proof.
  intros [Ha _]. unfold wake. eapply spec_bind; [apply spec_get|]. intros x0.
  eapply (spec_pre _ (λ s g, (accepts = true ∧ current gen x0 = true) ∧ live s ∧ keeps s ∧ g = [])).
  { intros s g [[(Hl & Hk & -> & ->) ->] ->]. split_and!; [by apply Ha| |done..].
    unfold current. destruct Hl as [-> ->]. cbn. apply Z.eqb_refl. }
  apply spec_pure. intros [Hacc ->]. cbn [negb].
  eapply spec_bind; [apply (spec_modify _ _ (λ _, at_ live))|].
  { intros s g (Hl & Hk & ->). split; [split; [done| |done]|done]. destruct Hl as [_ Hc]. cbn. congruence. }
  intros ?. eapply (spec_bind _ _ _ (λ _, inv)).
  { eapply spec_try; [|apply spec_report].
    eapply spec_bind; [apply spec_safeNow|]. intros now.
    eapply spec_weaken; [done| |apply (spec_claim_due now live Hacc)]. by intros ? s g [Hi _]. }
  intros ?. eapply spec_bind; [apply spec_get|]. intros x2. destruct (current gen x2) eqn:E.
  - eapply spec_try; [|apply spec_report]. eapply spec_weaken; [| |by apply spec_arm].
    + intros s g [Hi ->]. split; [done|]. by eapply current_live.
    + by intros ? s g [Hi _].
  - apply spec_ret. by intros s g [Hi _].
Qed.

Lemma spec_refreshSchedule s0 :
  entered s0 → spec (λ s g, inv s g ∧ s = s0) (refreshSchedule max) (λ _, inv).
Proof.
  intros [Ha _]. unfold refreshSchedule. eapply spec_bind; [apply spec_get|]. intros x0.
  destruct (sc_running x0) eqn:Er, (sc_closed x0) eqn:Ec; cbn [negb orb];
    try (apply spec_ret; by intros s g [[Hi _] _]).
  eapply (spec_pre _ (λ s g, accepts = true ∧ at_ live s g)).
  { intros s g [[Hi ->] <-]. split; [by apply Ha|]. by split. }
  apply spec_pure. intros Hacc. eapply spec_try; [|apply spec_report]. eapply spec_weaken; [| |by apply spec_arm].
  - done.
  - by intros ? s g [Hi _].
Qed.

(** Stopping keeps whether the scheduler is closed. *)
Lemma spec_stop b :
  spec (λ s g, inv s g ∧ sc_closed s = b) stop (λ _ s g, inv s g ∧ sc_closed s = b ∧ sc_running s = false).
Proof.
  unfold stop. eapply spec_bind; [apply spec_get|]. intros x0. destruct (sc_running x0) eqn:Er; cbn [negb].
  - eapply spec_bind; [apply (spec_modify _ _
      (λ _ s g, timer_matches s g ∧ keeps s ∧ sc_closed s = b ∧ sc_running s = false))|].
    { intros s g [[Hi Hb] ->]. split; [by apply inv_matches in Hi|]. by destruct Hi. }
    intros ?. eapply spec_weaken;
      [| |apply (spec_cancelTimer (λ s, keeps s ∧ sc_closed s = b ∧ sc_running s = false))]; try done.
    + by intros ? s g (Hi & (_ & HF) & _).
    + by intros s (Hk & _ & Hr).
  - apply spec_ret. intros s g [[Hi Hb] ->]. done.
Qed.

Lemma spec_beginShutdown : spec inv beginShutdown (λ _ s g, inv s g ∧ sc_closed s = true).
Proof.
  unfold beginShutdown. eapply spec_bind; [apply spec_get|]. intros x0. destruct (sc_closed x0) eqn:Ec.
  - apply spec_ret. by intros s g [Hi ->].
  - eapply spec_bind.
    + eapply spec_pre; [|apply (spec_stop false)]. by intros s g [Hi ->].
    + intros ?. apply spec_modify. intros s g ([Hk Hc Ht] & _ & Hr).
      split; [split; [|done|by destruct s]|done]. by destruct Hk.
Qed.

(** Manual admission. *)
Lemma spec_assertAccepting s0 :
  spec (λ s g, inv s g ∧ s = s0) assertAccepting (λ _ s g, live s0 ∧ at_ (eq s0) s g).
Proof.
  unfold assertAccepting. eapply spec_bind; [apply spec_get|]. intros x0.
  destruct (sc_closed x0) eqn:Ec, (sc_running x0) eqn:Er; cbn [negb orb];
    try (apply spec_throw; by intros s g [[Hi _] _]).
  apply spec_ret. intros s g [[Hi ->] ->]. by split.
Qed.

Lemma spec_runNow jobId s0 : entered s0 → spec (λ s g, inv s g ∧ s = s0) (runNow jobId) (λ _, inv).
Proof.
  intros [Ha _]. unfold runNow. eapply spec_bind; [apply spec_assertAccepting|]. intros ?.
  apply spec_pure. intros Hl. eapply spec_bind; [apply spec_safeNow|]. intros now.
  eapply spec_bind; [apply (spec_quiet_ok (ClaimManual jobId now)); [done|intros; by apply Ha]|].
  intros claim. eapply spec_bind; [apply (spec_quiet_ok (AwaitDispatch claim)); [done|intros; by apply Ha]|].
  intros st. destruct (_ && _); [apply spec_throw|apply spec_ret]; by intros s g [Hi _].
Qed.

Lemma spec_runNowAccepted jobId s0 :
  entered s0 → spec (λ s g, inv s g ∧ s = s0) (runNowAccepted jobId) (λ _, inv).
Proof.
  intros [Ha _]. unfold runNowAccepted. eapply spec_bind; [apply spec_assertAccepting|]. intros ?.
  apply spec_pure. intros Hl. eapply spec_bind; [apply spec_safeNow|]. intros now.
  eapply spec_bind; [apply (spec_quiet_ok (ClaimManual jobId now)); [done|intros; by apply Ha]|].
  intros claim. eapply spec_bind; [apply (spec_quiet (SetImmediate claim)); [done|intros; by apply Ha]|].
  intros ?. apply spec_ret. by intros s g [Hi _].
Qed.
End safety.
