(* ===== verification/JobSchedulerSystem.v ===== *)
(** The scheduler as a system of events: its public methods, the microtasks
    [start] queues, and the wake timer, in any order and with any answers. *)
From S2P Require Import Prelude Errors Jobs JobRepository Programs JobScheduler JobSchedulerSafety.
#[local] Open Scope string_scope. #[local] Open Scope Z_scope.

(** A scheduler with its pending timers and pending microtasks. *)
Record system := Sys {
  sy_s : Scheduler;
  sy_pending : timers;
  sy_starts : list Z;
  sy_failed : list (Z * thrown);
}.

Definition new_system : system := Sys new_scheduler [] [] [].

Inductive operation :=
| StartOp
| RunStart (generation : Z)
| FailStart (generation : Z) (error : thrown)
| Fire (handle : nat) (generation : Z)
| RefreshOp
| StopOp
| ShutdownOp
| RunNowOp (jobId : string)
| RunNowAcceptedOp (jobId : string).

Notation env := (environment port_answer unit).
Notation events := (list (event port_answer unit)).

(** The value or the exception of an operation. *)
Definition reply : Type := result thrown (option JobRunState).
Definition reply_of (o : outcome unit thrown (option JobRunState)) : reply :=
  match o with Next x => Ok x | Return _ => Ok None | Throw e => Err e end.

Definition without {A} (m : sched A) : sched (option JobRunState) := m;; mret None.

(** What an operation runs, [start] apart. *)
Definition body (max : Z) (op : operation) : sched (option JobRunState) :=
  match op with
  | StartOp => mret None
  | RunStart gen => without (start_task max gen)
  | FailStart gen error => without (start_failed gen error : sched unit)
  | Fire _ gen => without (wake max gen)
  | RefreshOp => without (refreshSchedule max)
  | StopOp => without stop
  | ShutdownOp => without beginShutdown
  | RunNowOp id => st ← runNow id; mret (Some st)
  | RunNowAcceptedOp id => st ← runNowAccepted id; mret (Some st)
  end.

(** A microtask runs once, a timer fires once. *)
Definition fire (h : nat) (p : timers) : timers := List.filter (λ q, negb (Nat.eqb q.1 h)) p.

Definition enabled (σ : system) (op : operation) : Prop :=
  match op with
  | RunStart gen => gen ∈ sy_starts σ
  | FailStart gen error => (gen, error) ∈ sy_failed σ
  | Fire h gen => (h, gen) ∈ sy_pending σ
  | _ => True
  end.

(** The pending timers while the operation runs. *)
Definition pending_at (σ : system) (op : operation) : timers :=
  match op with Fire h _ => fire h (sy_pending σ) | _ => sy_pending σ end.

(** Removes one occurrence of a failed start. *)
Fixpoint take_failed (gen : Z) (l : list (Z * thrown)) : list (Z * thrown) :=
  match l with
  | [] => []
  | p :: rest => if p.1 =? gen then rest else p :: take_failed gen rest
  end.

Fixpoint take_start (gen : Z) (l : list Z) : list Z :=
  match l with [] => [] | g :: rest => if g =? gen then rest else g :: take_start gen rest end.

(** The system after an operation other than [start] and its calls. *)
Definition settle (σ : system) (op : operation) (o : outcome unit thrown (option JobRunState))
    (s' : Scheduler) (h : events) : system :=
  {| sy_s := s';
     sy_pending := after_history tm_next (pending_at σ op) h;
     sy_starts := match op with RunStart gen => take_start gen (sy_starts σ) | _ => sy_starts σ end;
     sy_failed := match op, o with
       | RunStart gen, Throw err => (sy_failed σ ++ [(gen, err)])%list
       | FailStart gen _, _ => take_failed gen (sy_failed σ)
       | _, _ => sy_failed σ
       end |}.

(** One operation against an environment: the reply, the calls and the system. *)
Definition perform (max : Z) (e : env) (σ : system) (op : operation) : reply * events * system :=
  match op with
  | StartOp =>
      let '(r, s') := start (sy_s σ) in
      match r with
      | StartRejected err => (Err err, [], σ)
      | StartJoined => (Ok None, [], σ)
      | StartNew gen => (Ok None, [], Sys s' (sy_pending σ) (sy_starts σ ++ [gen]) (sy_failed σ))
      end
  | _ =>
      let '((o, s'), h) := run_prog e [] (body max op (sy_s σ)) in
      (reply_of o, h, settle σ op o s' h)
  end.

(** Histories, oldest first, with the system before each operation. *)
Inductive history (max : Z) : list (system * operation * reply * events) → system → Prop :=
| history_nil : history max [] new_system
| history_snoc l σ e op r h σ' :
    history max l σ → enabled σ op → perform max e σ op = (r, h, σ') →
    history max (l ++ [(σ, op, r, h)])%list σ'.

Definition accepting (s : Scheduler) : bool := sc_running s && negb (sc_closed s).

Lemma accepting_live s : accepting s = true ↔ live s.
Proof. unfold accepting, live. destruct (sc_running s), (sc_closed s); cbn; naive_solver. Qed.

Section system.
Context (max : Z) (Hmax : 0 ≤ max).

Notation sys_inv σ := (JobSchedulerSafety.inv (sc_initialized (sy_s σ)) (sc_closed (sy_s σ)) (sy_s σ) (sy_pending σ)).

Lemma spec_without {allowed D T A} (P : Scheduler → timers → Prop) (m : sched A) (Q : Scheduler → timers → Prop) :
  spec_t allowed tm_next D T P m (λ _, Q) → spec_t allowed tm_next D T P (without m) (λ _, Q).
Proof. intros Hs. eapply spec_bind; [done|]. intros ?. by apply spec_ret. Qed.

Lemma fire_inv σ h gen : sys_inv σ → (h, gen) ∈ sy_pending σ →
  fired (sc_initialized (sy_s σ)) (sc_closed (sy_s σ)) gen (sy_s σ) (fire h (sy_pending σ)).
Proof.
  intros [Hk Hc Ht] Hin. destruct (sc_timer (sy_s σ)) as [h'|]; [|rewrite Ht in Hin; by apply elem_of_nil in Hin].
  destruct Ht as [Hp Hr]. rewrite Hp in Hin |- *. apply list_elem_of_singleton in Hin as [= -> ->].
  unfold fired, fire. cbn. rewrite Nat.eqb_refl. cbn.
  split_and!; [split; [done|]|done..]. destruct (sc_closed (sy_s σ)); [|done]. naive_solver.
Qed.

(** Every operation, from its entry. *)
Lemma spec_body σ op :
  enabled σ op → sys_inv σ →
  let i0 := sc_initialized (sy_s σ) in let c0 := sc_closed (sy_s σ) in
  spec_t (tm_allowed max (accepting (sy_s σ)) (negb i0)) tm_next
    (JobSchedulerSafety.inv i0 c0) (JobSchedulerSafety.inv i0 c0)
    (λ s g, s = sy_s σ ∧ g = pending_at σ op) (body max op) (λ _, JobSchedulerSafety.inv i0 c0).
Proof.
  intros Hen Hi i0 c0.
  assert (He : entered (accepting (sy_s σ)) (negb i0) (sy_s σ)).
  { split; [by intros Hl; apply accepting_live|]. unfold i0. by intros ->. }
  destruct op; cbn [body pending_at]; try apply spec_without.
  - apply spec_ret. by intros s g [-> ->].
  - eapply spec_pre; [|by apply spec_start_task]. by intros s g [-> ->].
  - eapply spec_pre; [|by apply spec_start_failed]. by intros s g [-> ->].
  - eapply spec_pre; [|by apply spec_wake]. intros s g [-> ->]. split; [by apply fire_inv|done].
  - eapply spec_pre; [|by apply spec_refreshSchedule]. by intros s g [-> ->].
  - eapply spec_weaken; [| |apply (spec_stop max _ _ i0 c0 c0)].
    + by intros s g [-> ->].
    + by intros ? s g [H _].
  - eapply spec_weaken; [| |apply (spec_beginShutdown max _ _ i0 c0)].
    + by intros s g [-> ->].
    + by intros ? s g [H _].
  - eapply spec_bind; [eapply spec_pre; [|by apply spec_runNow]|].
    + by intros s g [-> ->].
    + intros st. by apply spec_ret.
  - eapply spec_bind; [eapply spec_pre; [|by apply spec_runNowAccepted]|].
    + by intros s g [-> ->].
    + intros st. by apply spec_ret.
Qed.

(** What one operation keeps, and the calls it makes. *)
Definition call_rules (σ : system) (op : operation) (h : events) : Prop :=
  respects (tm_allowed max (accepting (sy_s σ)) (negb (sc_initialized (sy_s σ)))) tm_next (pending_at σ op) h.

Lemma inv_keeps_self i0 c0 s g :
  JobSchedulerSafety.inv i0 c0 s g → JobSchedulerSafety.inv (sc_initialized s) (sc_closed s) s g ∧ keeps i0 c0 s.
Proof. intros [Hk Hc Ht]. split; [by split|done]. Qed.

Lemma perform_run e σ op r h σ' :
  op ≠ StartOp → perform max e σ op = (r, h, σ') →
  ∃ o s', run_prog e [] (body max op (sy_s σ)) = ((o, s'), h) ∧ r = reply_of o ∧ σ' = settle σ op o s' h.
Proof.
  intros Hop Hp. destruct op; [done|..]; cbn [perform] in Hp;
    destruct (run_prog _ _ _) as [[o s'] h'] eqn:E; injection Hp as <- <- <-; by exists o, s'.
Qed.

Lemma perform_ok e σ op r h σ' :
  enabled σ op → sys_inv σ → perform max e σ op = (r, h, σ') →
  sys_inv σ' ∧ keeps (sc_initialized (sy_s σ)) (sc_closed (sy_s σ)) (sy_s σ') ∧ call_rules σ op h.
Proof.
  intros Hen Hi Hp. assert (op = StartOp ∨ op ≠ StartOp) as [->|Hop] by (destruct op; auto).
  - cbn in Hp. unfold start in Hp. unfold call_rules, respects.
    assert (Hno : ∀ before (x : event port_answer unit) rest, [] = (before ++ x :: rest)%list → False).
    { by intros [|] x rest. }
    destruct (sc_closed (sy_s σ)) eqn:Ec, (sc_running (sy_s σ)) eqn:Er; injection Hp as <- <- <-;
      split_and!; try (by rewrite ?Ec); try (intros; by edestruct Hno).
    destruct Hi as [Hk Hc Ht]. split; cbn; [done|by rewrite Ec|].
    destruct (sc_timer (sy_s σ)); [|done]. destruct Ht. congruence.
  - destruct (perform_run _ _ _ _ _ _ Hop Hp) as (o & s' & Hr & -> & ->).
    pose proof (spec_body σ op Hen Hi (sy_s σ) (pending_at σ op) (conj eq_refl eq_refl)) as Hs.
    apply (wp_run _ _ (body max op (sy_s σ)) (pending_at σ op) _ e []) in Hs; [|by intros [|] ?].
    rewrite Hr in Hs. destruct Hs as (HQ & Hresp & _).
    assert (Hpost : JobSchedulerSafety.inv (sc_initialized (sy_s σ)) (sc_closed (sy_s σ)) s'
      (after_history tm_next (pending_at σ op) h)) by (by destruct o).
    apply inv_keeps_self in Hpost as [Hpost Hkeep]. done.
Qed.

Lemma history_inv l σ : history max l σ → sys_inv σ.
Proof.
  induction 1 as [|l σ e op r h σ' Hh IH Hen Hp]; [by repeat split|].
  by destruct (perform_ok _ _ _ _ _ _ Hen IH Hp).
Qed.

(** An operation of a history, seen from the end of the history. *)
Lemma history_at l σ l1 σi op r h l2 :
  history max l σ → l = (l1 ++ (σi, op, r, h) :: l2)%list →
  sys_inv σi ∧ enabled σi op ∧ (∃ e σ', perform max e σi op = (r, h, σ')) ∧ call_rules σi op h ∧
  keeps (sc_initialized (sy_s σi)) (sc_closed (sy_s σi)) (sy_s σ).
Proof.
  intros Hh. revert l1 l2. induction Hh as [|l σ0 e op0 r0 h0 σ0' Hh IH Hen Hp]; intros l1 l2 E.
  { by destruct l1. }
  destruct (perform_ok _ _ _ _ _ _ Hen (history_inv _ _ Hh) Hp) as (Hi' & [Hk1 Hk2] & Hr).
  destruct l2 as [|x l2 _] using rev_ind.
  - apply app_inj_tail in E as [-> [= -> -> -> ->]].
    split_and!; [by eapply history_inv|done|by eauto|done|done].
  - rewrite app_comm_cons, app_assoc in E. apply app_inj_tail in E as [-> _].
    destruct (IH l1 l2 eq_refl) as (Hi & He & Hx & Hc & [Hk3 Hk4]).
    split_and!; [done..|]. split; auto.
Qed.

Lemma history_later l σ l1 x l2 y :
  history max l σ → l = (l1 ++ x :: l2)%list → y ∈ x :: l2 →
  (sc_initialized (sy_s x.1.1.1) = true → sc_initialized (sy_s y.1.1.1) = true) ∧
  (sc_closed (sy_s x.1.1.1) = true → sc_closed (sy_s y.1.1.1) = true).
Proof.
  intros Hh -> Hy. apply list_elem_of_In, in_split in Hy as (l3 & l4 & E).
  destruct y as [[[σj opj] rj] hj]. destruct l3 as [|x' l3]; [by injection E as -> ->|].
  injection E as <- ->. destruct x as [[[σi opi] ri] hi]. cbn.
  assert (Hsub : ∃ σ', history max (l1 ++ (σi, opi, ri, hi) :: l3)%list σ' ∧ σ' = σj).
  { clear -Hh. remember (l1 ++ (σi, opi, ri, hi) :: l3 ++ (σj, opj, rj, hj) :: l4)%list as l eqn:E.
    revert l4 E. induction Hh as [|l σ0 e op0 r0 h0 σ0' Hh IH Hen Hp]; intros l4 E; [by destruct l1|].
    destruct l4 as [|x l4 _] using rev_ind.
    - rewrite app_comm_cons, app_assoc in E. apply app_inj_tail in E as [-> [= -> -> -> ->]]. eauto.
    - rewrite app_comm_cons, !app_comm_cons, !app_assoc in E. apply app_inj_tail in E as [-> _].
      apply (IH l4). by rewrite <-app_assoc. }
  destruct Hsub as (σ' & Hh' & ->). destruct (history_at _ _ _ _ _ _ _ _ Hh' eq_refl) as (_ & _ & _ & _ & Hk). exact Hk.
Qed.

(** Every call of an operation was allowed where it was made. *)
Lemma call_rules_in σ op h e :
  call_rules σ op h → e ∈ h → ∃ g, tm_allowed max (accepting (sy_s σ)) (negb (sc_initialized (sy_s σ))) g (ev_call e).
Proof. intros Hr Hin. apply list_elem_of_In, in_split in Hin as (h1 & h2 & ->). eexists. by apply (Hr h1 e h2). Qed.
End system.

(** ** The properties *)

(** Calls that admit work, and those of startup recovery. *)
Definition is_admission (c : port) : bool :=
  match c with
  | ClaimDue _ _ | ClaimManual _ _ | Dispatch _ | AwaitDispatch _ | SetImmediate _
  | MarkAllInterrupted _ | ClaimStartupCatchUp _ _ | SetTimeout _ _ => true
  | _ => false
  end.
Definition is_recovery (c : port) : bool :=
  match c with MarkAllInterrupted _ | ClaimStartupCatchUp _ _ => true | _ => false end.

(** C5: over any history of starts, stops, refreshes, manual runs, timer
    firings and shutdown, with any answers of the database, clock and runner,
    the scheduler owns at most one pending wake timer. The pending timer is the
    stored one and of the current generation, and exists only while the
    scheduler is accepting; every timer it ever set had a delay between zero
    and the configured maximum. *)
Theorem one_wake_timer max l σ :
  valid_max_delay (JInt max) = true → history max l σ →
  (sy_pending σ = [] ∨
   ∃ h, sy_pending σ = [(h, sc_generation (sy_s σ))] ∧ sc_timer (sy_s σ) = Some h ∧ live (sy_s σ)) ∧
  (∀ σi op r h delay gen handle, (σi, op, r, h) ∈ l → Event (SetTimeout delay gen) handle tt ∈ h →
     0 ≤ delay ≤ max).
Proof.
  intros Hv Hh. assert (Hmax : 0 ≤ max).
  { unfold valid_max_delay in Hv. rewrite !andb_true_iff, Z.ltb_lt in Hv. lia. }
  split.
  - destruct (history_inv max Hmax l σ Hh) as [_ Hc Ht]. destruct (sc_timer (sy_s σ)) as [h|]; [|by left].
    destruct Ht as [-> Hr]. right. exists h. split_and!; [done..|]. split; [done|].
    destruct (sc_closed (sy_s σ)); [|done]. naive_solver.
  - intros σi op r h delay gen handle Hl He. apply list_elem_of_In, in_split in Hl as (l1 & l2 & ->).
    destruct (history_at max Hmax _ _ _ _ _ _ _ _ Hh eq_refl) as (_ & _ & _ & Hr & _).
    destruct (call_rules_in max _ _ _ _ Hr He) as [g Hg]. cbn in Hg. tauto.
Qed.

(** Startup recovery belongs to a start that has not completed yet. Once an
    operation has left the scheduler initialized, no later operation marks
    attempts interrupted or claims a startup catch-up, whatever restarts,
    failures and timer firings follow; and recovery only ever runs in the
    microtask of a start, while the scheduler is accepting. *)
Lemma recovery_runs_until_initialized max l σ l1 σi op r h l2 :
  valid_max_delay (JInt max) = true → history max l σ → l = (l1 ++ (σi, op, r, h) :: l2)%list →
  (sc_initialized (sy_s σi) = true → ∀ σj opj rj hj ev, (σj, opj, rj, hj) ∈ (σi, op, r, h) :: l2 →
     ev ∈ hj → is_recovery (ev_call ev) = false) ∧
  (∀ ev, ev ∈ h → is_recovery (ev_call ev) = true → live (sy_s σi) ∧ sc_initialized (sy_s σi) = false).
Proof.
  intros Hv Hh E. assert (Hmax : 0 ≤ max).
  { unfold valid_max_delay in Hv. rewrite !andb_true_iff, Z.ltb_lt in Hv. lia. }
  assert (Hany : ∀ σj opj rj hj ev, (σj, opj, rj, hj) ∈ (σi, op, r, h) :: l2 → ev ∈ hj →
    is_recovery (ev_call ev) = true → live (sy_s σj) ∧ sc_initialized (sy_s σj) = false).
  { intros σj opj rj hj ev Hj He Hrec.
    assert (Hin : (σj, opj, rj, hj) ∈ l) by (subst l; apply elem_of_app; by right).
    apply list_elem_of_In, in_split in Hin as (k1 & k2 & ->).
    destruct (history_at max Hmax _ _ _ _ _ _ _ _ Hh eq_refl) as (_ & _ & _ & Hr & _).
    destruct (call_rules_in max _ _ _ _ Hr He) as [g Hg].
    destruct (ev_call ev); cbn in *; try done; destruct Hg as [Ha Hf];
      (split; [by apply accepting_live|by apply negb_true_iff]). }
  split; [|by intros ev He Hrec; eapply (Hany σi op r h ev); [by left|..]].
  intros Hini σj opj rj hj ev Hj He. destruct (is_recovery (ev_call ev)) eqn:Hrec; [|done].
  destruct (Hany _ _ _ _ _ Hj He Hrec) as [_ Hni].
  destruct (history_later max Hmax _ _ _ _ _ _ Hh E Hj) as [Hlater _]. cbn in Hlater.
  rewrite (Hlater Hini) in Hni. done.
Qed.

(** What a scheduler that is not accepting answers. *)
Lemma rejects_when_closed max e σ op r h σ' :
  sc_closed (sy_s σ) = true → perform max e σ op = (r, h, σ') →
  match op with StartOp | RunNowOp _ | RunNowAcceptedOp _ => True | _ => False end →
  r = Err (app_error SHUTTING_DOWN) ∧ h = [].
Proof.
  destruct σ as [[t ru cl i g p] pe st fa]. intros Hc Hp Hop. cbn in Hc. subst cl.
  destruct op; try done; vm_compute in Hp; injection Hp as <- <- <-; by split.
Qed.

(** Shutdown is permanent. After an operation has closed the scheduler, no
    later operation claims an occurrence, admits or dispatches an attempt,
    recovers or sets a timer, and no timer is ever pending again; starting it
    or asking for a manual run is answered [shutting_down] without touching
    the database. *)
Lemma closed_scheduler_is_silent max l σ l1 σi op r h l2 :
  valid_max_delay (JInt max) = true → history max l σ → l = (l1 ++ (σi, op, r, h) :: l2)%list →
  sc_closed (sy_s σi) = true →
  sy_pending σ = [] ∧
  ∀ σj opj rj hj, (σj, opj, rj, hj) ∈ (σi, op, r, h) :: l2 →
    sy_pending σj = [] ∧
    (∀ ev, ev ∈ hj → is_admission (ev_call ev) = false) ∧
    (match opj with StartOp | RunNowOp _ | RunNowAcceptedOp _ => True | _ => False end →
       rj = Err (app_error SHUTTING_DOWN) ∧ hj = []).
Proof.
  intros Hv Hh E Hclosed. assert (Hmax : 0 ≤ max).
  { unfold valid_max_delay in Hv. rewrite !andb_true_iff, Z.ltb_lt in Hv. lia. }
  assert (Hpend : ∀ i0 c0 s g, inv i0 c0 s g → sc_closed s = true → g = []).
  { intros i0 c0 s g [_ Hc Ht] Hcl. destruct (sc_timer s); [|done]. destruct Ht as [_ Hr].
    specialize (Hc Hcl). congruence. }
  split.
  { eapply Hpend; [by eapply history_inv|]. subst l.
    destruct (history_at max Hmax _ _ _ _ _ _ _ _ Hh eq_refl) as (_ & _ & _ & _ & [_ Hk]). auto. }
  intros σj opj rj hj Hj.
  destruct (history_later max Hmax _ _ _ _ _ _ Hh E Hj) as [_ Hlater]. specialize (Hlater Hclosed). cbn in Hlater.
  assert (Hin : (σj, opj, rj, hj) ∈ l) by (subst l; apply elem_of_app; by right).
  clear E. apply list_elem_of_In, in_split in Hin as (k1 & k2 & ->).
  destruct (history_at max Hmax _ _ _ _ _ _ _ _ Hh eq_refl) as (Hi & _ & (e & σ' & Hp) & Hr & _).
  split_and!; [by eapply Hpend| |].
  - intros ev He. destruct (call_rules_in max _ _ _ _ Hr He) as [g Hg].
    assert (Hacc : accepting (sy_s σj) = false) by (unfold accepting; rewrite Hlater; apply andb_false_r).
    rewrite Hacc in Hg. destruct (ev_call ev); cbn in *; try done; naive_solver.
  - intros Hop. by eapply rejects_when_closed.
Qed.

(** ** A sample history *)

Definition enabledb (σ : system) (op : operation) : bool :=
  match op with
  | RunStart gen => bool_decide (gen ∈ sy_starts σ)
  | FailStart _ _ => false
  | Fire h gen => bool_decide ((h, gen) ∈ sy_pending σ)
  | _ => true
  end.
Lemma enabledb_ok σ op : enabledb σ op = true → enabled σ op.
Proof. destruct op; cbn; try done; apply bool_decide_eq_true. Qed.

(** The operations performed one after the other, as long as they are enabled. *)
Fixpoint perform_all (max : Z) (e : env) (ops : list operation) (σ : system)
    : list (system * operation * reply * events) * system :=
  match ops with
  | [] => ([], σ)
  | op :: rest =>
      if enabledb σ op then
        let '(r, h, σ') := perform max e σ op in
        let '(l, σ'') := perform_all max e rest σ' in
        ((σ, op, r, h) :: l, σ'')
      else ([], σ)
  end.

Lemma perform_all_history max e ops l σ :
  history max l σ → history max (l ++ (perform_all max e ops σ).1)%list (perform_all max e ops σ).2.
Proof.
  revert l σ. induction ops as [|op rest IH]; intros l σ Hh; cbn; [by rewrite app_nil_r|].
  destruct (enabledb σ op) eqn:En; [|by rewrite app_nil_r].
  destruct (perform max e σ op) as [[r h] σ'] eqn:Ep.
  specialize (IH (l ++ [(σ, op, r, h)])%list σ').
  destruct (perform_all max e rest σ') as [l' σ'']. cbn in *. rewrite <-app_assoc in IH. apply IH.
  eapply history_snoc; [done|by apply enabledb_ok|done].
Qed.

(** A job that is next due at 5000. *)
Definition sample_due_job : JobSummary := {|
  js_id := "j"; js_name := "Nightly"; js_workspaceId := "w"; js_workspaceName := "Work";
  js_workspaceAvailable := true; js_prompt := "p"; js_schedule := Valid (SchInterval 5 0);
  js_preRunScript := None; js_postRunScript := None; js_enabled := true; js_nextRunAt := Some 5000;
  js_createdAt := 0; js_updatedAt := 0; js_activeRun := None; js_lastRun := None;
  js_configurationIssue := None |}.

(** The clock shows 5000, when the job is due. *)
Definition sample_env : env := λ h c,
  match c return port_answer c * unit with
  | Clock => (JInt 5000, tt)
  | MarkAllInterrupted _ => (Ok tt, tt)
  | ListEnabled | ListDue _ => (Ok [sample_due_job], tt)
  | ClaimStartupCatchUp _ _ | ClaimDue _ _ => (Ok None, tt)
  | ClaimManual _ _ => (Err (app_error JOB_ALREADY_RUNNING), tt)
  | Dispatch _ => (Ok tt, tt)
  | AwaitDispatch _ => (Err (app_error JOB_ALREADY_RUNNING), tt)
  | SetTimeout _ _ => (length h, tt)
  | SetImmediate _ | ClearTimeout _ | OnInternalError _ => (tt, tt)
  end.

Definition sample_ops : list operation :=
  [StartOp; RunStart 1; Fire 6 1; RefreshOp; StopOp; StartOp; RunStart 3; ShutdownOp; StartOp; RunNowOp "j"].
Definition sample_run : list (system * operation * reply * events) * system :=
  perform_all JOB_SCHEDULER_MAX_TIMER_DELAY_MS sample_env sample_ops new_system.

Lemma sample_history : history JOB_SCHEDULER_MAX_TIMER_DELAY_MS sample_run.1 sample_run.2.
Proof. exact (perform_all_history _ sample_env sample_ops [] new_system (history_nil _)). Qed.

(** The sample history around its [i]-th operation. *)
Definition sample_at (i : nat) : option (system * operation * reply * events) := sample_run.1 !! i.

Lemma one_wake_timer_witness :
  length sample_run.1 = 10%nat ∧ (sy_pending <$> (fst ∘ fst ∘ fst <$> sample_at 3)) = Some [(5%nat, 1)] ∧
  sy_pending sample_run.2 = [].
Proof.
  split; [by vm_compute|]. split; [by vm_compute|].
  destruct (one_wake_timer JOB_SCHEDULER_MAX_TIMER_DELAY_MS sample_run.1 sample_run.2
    ltac:(by vm_compute) sample_history) as [[H|(h & H & _)] _]; [exact H|by vm_compute in H].
Defined.

(** The sample split at its [i]-th operation. *)
Lemma sample_split i x :
  sample_at i = Some x → sample_run.1 = (take i sample_run.1 ++ x :: drop (S i) sample_run.1)%list.
Proof. intros H. symmetry. by apply take_drop_middle. Qed.

Lemma recovery_runs_until_initialized_witness :
  match sample_at 4 with
  | Some (σi, op, r, h) =>
      sc_initialized (sy_s σi) = true ∧
      ∀ σj opj rj hj ev, (σj, opj, rj, hj) ∈ (σi, op, r, h) :: drop 5 sample_run.1 →
        ev ∈ hj → is_recovery (ev_call ev) = false
  | None => False
  end.
Proof.
  destruct (sample_at 4) as [[[[σi op] r] h]|] eqn:E; [|by vm_compute in E].
  assert (Hi : sc_initialized (sy_s σi) = true) by (vm_compute in E; by injection E as <- <- <- <-).
  split; [exact Hi|].
  exact (proj1 (recovery_runs_until_initialized JOB_SCHEDULER_MAX_TIMER_DELAY_MS _ _ _ _ _ _ _ _
    ltac:(by vm_compute) sample_history (sample_split 4 _ E)) Hi).
Defined.

Lemma closed_scheduler_is_silent_witness :
  match sample_at 8 with
  | Some (σi, op, r, h) =>
      sc_closed (sy_s σi) = true ∧ op = StartOp ∧ sy_pending sample_run.2 = [] ∧
      r = Err (app_error SHUTTING_DOWN) ∧ h = []
  | None => False
  end.
Proof.
  destruct (sample_at 8) as [[[[σi op] r] h]|] eqn:E; [|by vm_compute in E].
  assert (Hi : sc_closed (sy_s σi) = true ∧ op = StartOp)
    by (vm_compute in E; injection E as <- <- <- <-; by split).
  destruct Hi as [Hi ->].
  destruct (closed_scheduler_is_silent JOB_SCHEDULER_MAX_TIMER_DELAY_MS _ _ _ _ _ _ _ _
    ltac:(by vm_compute) sample_history (sample_split 8 _ E) Hi) as [Hp Hall].
  destruct (Hall σi StartOp r h (list_elem_of_here _ _)) as (_ & _ & Hr).
  split; [exact Hi|split; [reflexivity|split; [exact Hp|exact (Hr I)]]].
Defined.
