(* ===== verification/JobSchedulerResults.v ===== *)
(** What the scheduler's operations achieve: a wake claims every due job in
    order, and every operation that arms leaves the timer of the nearest
    occurrence. *)
From S2P Require Import Prelude Errors Jobs JobRepository Programs JobScheduler JobSchedulerSafety JobSchedulerSystem.
#[local] Open Scope string_scope. #[local] Open Scope Z_scope.

Notation events := (list (event port_answer unit)).

(** The jobs whose claims were asked for, the claims granted and dispatched,
    and the answers of the due query, with the time asked for. *)
Definition claim_in (e : event port_answer unit) : option string :=
  match e with Event (ClaimDue id _) _ _ => Some id | _ => None end.
Definition granted_in (e : event port_answer unit) : option ClaimedJobRun :=
  match e with Event (ClaimDue _ _) (Ok claim) _ => claim | _ => None end.
Definition dispatched_in (e : event port_answer unit) : option ClaimedJobRun :=
  match e with Event (Dispatch claim) _ _ => Some claim | _ => None end.
Definition listed_in (e : event port_answer unit) : option (Z * list JobSummary) :=
  match e with Event (ListDue now) (Ok due) _ => Some (now, due) | _ => None end.
Definition claims_of (h : events) : list string := omap claim_in h.
Definition granted_of (h : events) : list ClaimedJobRun := omap granted_in h.
Definition dispatched_of (h : events) : list ClaimedJobRun := omap dispatched_in h.
Definition listed_of (h : events) : list (Z * list JobSummary) := omap listed_in h.
Definition reported (h : events) : Prop := ∃ error w, Event (OnInternalError error) tt w ∈ h.

(** The jobs of a list that are due. *)
Definition due_jobs (now : Z) (jobs : list JobSummary) : list JobSummary :=
  List.filter (λ j, negb (not_due now j)) jobs.

(** ** A logic of traces *)
Definition record (g : events) (e : event port_answer unit) : events := (g ++ [e])%list.
Definition anything (g : events) (c : port) : Prop := True.

Lemma after_record h g : after_history record g h = (g ++ h)%list.
Proof.
  revert g. induction h as [|e h IH]; intros g; [by rewrite app_nil_r|].
  cbn. unfold after_history in IH. rewrite IH. unfold record. by rewrite <-app_assoc.
Qed.

Notation never := (λ _ _, False).
Notation trace_spec := (spec_t (R := unit) (E := thrown) anything record never).
(** The trace of a run. *)
Lemma trace_run {A} T P (m : sched A) Q s e o s' h :
  trace_spec T P m Q → P s [] → run_prog e [] (m s) = ((o, s'), h) →
  match o with Next x => Q x s' h | Return _ => False | Throw _ => T s' h end.
Proof.
  intros Hs HP Hr. specialize (Hs s [] HP).
  apply (wp_run _ _ (m s) ([] : events) _ e []) in Hs; [|by intros [|] ?].
  rewrite Hr in Hs. destruct Hs as (HQ & _). by rewrite after_record in HQ.
Qed.

(** What the claims of a trace are, all at once. *)
Definition facts (g : events) := (listed_of g, claims_of g, granted_of g, dispatched_of g).

Definition irrelevant (c : port) : bool :=
  match c with ClaimDue _ _ | Dispatch _ | ListDue _ => false | _ => true end.

Lemma omap_record {A} (f : event port_answer unit → option A) g e :
  omap f (record g e) = (omap f g ++ option_list (f e))%list.
Proof. unfold record. rewrite omap_app. cbn. by destruct (f e). Qed.

Lemma facts_record g c r w : irrelevant c = true → facts (record g (Event c r w)) = facts g.
Proof.
  intros Hc. unfold facts, listed_of, claims_of, granted_of, dispatched_of.
  rewrite !omap_record. destruct c; try done; cbn; by rewrite !app_nil_r.
Qed.

(** ** The nearest occurrence *)

(** The next occurrences of the definitions that have a valid schedule. *)
Definition schedules (jobs : list JobSummary) : list Z :=
  omap (λ j, if hasValidPersistedSchedule j then js_nextRunAt j else None) jobs.

Definition is_nearest (n : Z) (l : list Z) : Prop := n ∈ l ∧ Forall (λ m, n ≤ m) l.

Lemma nearest_of_spec jobs acc :
  match nearest_of jobs acc with
  | None => acc = None ∧ schedules jobs = []
  | Some n => is_nearest n (option_list acc ++ schedules jobs)%list
  end.
Proof.
  revert acc. induction jobs as [|job rest IH]; intros acc; cbn [nearest_of].
  { destruct acc; cbn; [|done]. split; [by apply list_elem_of_singleton|]. by repeat constructor. }
  unfold schedules, is_nearest in *. cbn [omap list_omap].
  destruct (hasValidPersistedSchedule job); cbn [negb]; [|apply IH].
  destruct (js_nextRunAt job) as [m|]; [|apply IH].
  destruct acc as [k|]; [destruct (m <? k) eqn:E|].
  - specialize (IH (Some m)). apply Z.ltb_lt in E. destruct (nearest_of rest (Some m)) as [n|]; [|by destruct IH].
    cbn in *. destruct IH as [Hin Hall]. split; [set_solver|].
    inversion Hall; subst. repeat constructor; [lia|done|done].
  - specialize (IH (Some k)). apply Z.ltb_ge in E. destruct (nearest_of rest (Some k)) as [n|]; [|by destruct IH].
    cbn in *. destruct IH as [Hin Hall]. split; [set_solver|].
    inversion Hall; subst. repeat constructor; [done|lia|done].
  - specialize (IH (Some m)). destruct (nearest_of rest (Some m)) as [n|]; [|by destruct IH]. done.
Qed.

(** ** Arming *)

(** A trace that ends with arming: the timer is that of the nearest occurrence
    at the time shown, or there is none when no definition is scheduled. *)
Definition armed (max : Z) (s : Scheduler) (g : events) : Prop :=
  ∃ before enabled, let asked := (before ++ [Event ListEnabled (Ok enabled) tt])%list in
    (g = asked ∧ schedules enabled = [] ∧ sc_timer s = None) ∨
    (∃ now n h, g = (asked ++ [Event Clock (JInt now) tt;
        Event (SetTimeout (Z.min max (Z.max 0 (n - now))) (sc_generation s)) h tt])%list ∧
      is_nearest n (schedules enabled) ∧ sc_timer s = Some h).

(** ** Claiming *)

(** After claiming: the claims are those of the due jobs listed, and those
    granted were dispatched. *)
Definition claimed (g : events) : Prop :=
  ∃ now due, listed_of g = [(now, due)] ∧ claims_of g = map js_id (due_jobs now due) ∧
             dispatched_of g = granted_of g.
Definition unclaimed (g : events) : Prop :=
  listed_of g = [] ∧ claims_of g = [] ∧ granted_of g = [] ∧ dispatched_of g = [].

Definition claiming (K : Scheduler → Prop) now due (done_ : list string) (s : Scheduler) (g : events) : Prop :=
  K s ∧ listed_of g = [(now, due)] ∧ claims_of g = done_ ∧ dispatched_of g = granted_of g.

Section traces.
Context (T : Scheduler → events → Prop).
Notation spec := (trace_spec T).
Notation rule_call := (spec_call (ans := port_answer) (W := unit) (R := unit) (E := thrown)
  (allowed := anything) (next := record) (D := never) (T := T)).

Lemma trace_irrelevant c (K : Scheduler → Prop) (F : _ → Prop) :
  irrelevant c = true →
  spec (λ s g, K s ∧ F (facts g)) (call_ c) (λ _ s g, K s ∧ F (facts g)).
Proof.
  intros Hc. apply (rule_call c). intros s g [HK HF]. split; [done|]. intros r w.
  by rewrite facts_record.
Qed.

Lemma trace_safeNow (K : Scheduler → Prop) (F : _ → Prop) :
  (∀ s g, K s → F (facts g) → T s g) →
  spec (λ s g, K s ∧ F (facts g)) safeNow (λ now s g, K s ∧ F (facts g) ∧
    ∃ before, g = (before ++ [Event Clock (JInt now) tt])%list).
Proof.
  intros HT. unfold safeNow. eapply spec_bind.
  - apply (rule_call Clock _ (λ v s g, (K s ∧ F (facts g)) ∧ ∃ before, g = (before ++ [Event Clock v tt])%list)).
    intros s g [HK HF]. split; [done|]. intros r []. rewrite facts_record by done. split; [done|by exists g].
  - intros [z|]; [destruct (_ && _)|]; first
      [apply spec_ret; intros s g [[HK HF] Hg]; done|apply spec_throw; intros s g [[HK HF] _]; by apply HT].
Qed.

Lemma trace_dispatch K now due done_ claim :
  spec (λ s g, K s ∧ listed_of g = [(now, due)] ∧ claims_of g = done_ ∧
          (dispatched_of g ++ option_list claim)%list = granted_of g)
    (dispatch claim) (λ _, claiming K now due done_).
Proof.
  destruct claim as [claim|]; cbn [dispatch option_list].
  - eapply spec_bind.
    + apply (rule_call (Dispatch claim) _ (λ _, claiming K now due done_)).
      intros s g (HK & Hl & Hc & Hd). split; [done|]. intros r w. unfold claiming in *.
      unfold listed_of, claims_of, granted_of, dispatched_of in *. rewrite !omap_record. cbn.
      cbn in Hd. by rewrite !app_nil_r, Hl, Hc, Hd.
    + intros [u|err]; [by apply spec_ret|].
      eapply spec_weaken; [| |apply (trace_irrelevant (OnInternalError err) K
        (λ f, f.1.1.1 = [(now, due)] ∧ f.1.1.2 = done_ ∧ f.2 = f.1.2)); done]; done.
  - apply spec_ret. intros s g (HK & Hl & Hc & Hd). by rewrite app_nil_r in Hd.
Qed.

Lemma trace_claim_each K now due rest done_ :
  spec (claiming K now due done_) (claim_each rest now)
    (λ _, claiming K now due (done_ ++ map js_id (due_jobs now rest))%list).
Proof.
  revert done_. induction rest as [|job rest IH]; intros done_; cbn [claim_each].
  { cbn. rewrite app_nil_r. by apply spec_ret. }
  unfold due_jobs. cbn [List.filter]. destruct (not_due now job); cbn [negb].
  { apply (spec_bind _ _ _ (λ _, claiming K now due done_)); [by apply spec_ret|]. intros ?. apply IH. }
  eapply (spec_bind _ _ _ (λ _, claiming K now due (done_ ++ [js_id job])%list)).
  2: { intros ?. cbn [map]. eapply spec_weaken; [done| |apply (IH (done_ ++ [js_id job])%list)].
    intros ? s g. by rewrite <-app_assoc. }
  eapply spec_bind.
  - apply (rule_call (ClaimDue (js_id job) now) _ (λ r s g, K s ∧ listed_of g = [(now, due)] ∧
      claims_of g = (done_ ++ [js_id job])%list ∧
      (dispatched_of g ++ match r with Ok claim => option_list claim | Err _ => [] end)%list = granted_of g)).
    intros s g (HK & Hl & Hc & Hd). split; [done|]. intros r w.     unfold listed_of, claims_of, granted_of, dispatched_of in *. rewrite !omap_record. cbn.
    rewrite !app_nil_r, Hl, Hc, Hd. destruct r as [[claim|]|]; by rewrite ?app_nil_r.
  - intros [claim|err]; [apply trace_dispatch|]. destruct (is_app_error _ _).
    + apply spec_ret. intros s g (HK & Hl & Hc & Hd). by rewrite app_nil_r in Hd.
    + eapply spec_weaken; [| |apply (trace_irrelevant (OnInternalError err) K
        (λ f, f.1.1.1 = [(now, due)] ∧ f.1.1.2 = (done_ ++ [js_id job])%list ∧ f.2 = f.1.2)); done]; try done.
      intros s g (HK & Hl & Hc & Hd). by rewrite app_nil_r in Hd.
Qed.

Lemma trace_claim_due (K : Scheduler → Prop) now :
  (∀ s g, K s → unclaimed g → T s g) →
  spec (λ s g, K s ∧ unclaimed g) (claim_due now) (λ _ s g, K s ∧ claimed g).
Proof.
  intros HT. unfold claim_due, call_ok. eapply (spec_bind _ _ _ (λ due, claiming K now due [])).
  - eapply spec_bind.
    + apply (rule_call (ListDue now) _ (λ r s g,
        match r with Ok due => claiming K now due [] s g | Err _ => K s ∧ unclaimed g end)).
      intros s g (HK & Hl & Hc & Hg & Hd). split; [done|]. intros r w. unfold claiming, unclaimed in *.
      unfold listed_of, claims_of, granted_of, dispatched_of in *. rewrite !omap_record. cbn.
      rewrite Hl, Hc, Hg, Hd. by destruct r.
    + intros [due|err]; [by apply spec_ret|]. apply spec_throw. intros s g [HK Hu]. by apply HT.
  - intros due. eapply spec_weaken; [done| |apply trace_claim_each].
    intros ? s g (HK & Hl & Hc & Hd). split; [done|]. by exists now, due.
Qed.

Lemma trace_cancelTimer (K : Scheduler → Prop) (F : _ → Prop) :
  (∀ s, K s → K (set_timer None s)) →
  spec (λ s g, K s ∧ F (facts g)) cancelTimer (λ _ s g, (K s ∧ sc_timer s = None) ∧ F (facts g)).
Proof.
  intros HK. unfold cancelTimer. eapply spec_bind; [apply spec_get|]. intros x0.
  destruct (sc_timer x0) as [h|] eqn:Ex.
  - eapply spec_bind.
    + eapply spec_pre; [|apply (trace_irrelevant (ClearTimeout h) K F); done]. by intros s g [H _].
    + intros ?. apply spec_modify. intros s g [H HF]. split; [split; [by apply HK|done]|done].
  - apply spec_ret. by intros s g [[H HF] ->].
Qed.

Lemma trace_arm max (K : Scheduler → Prop) (F : _ → Prop) :
  (∀ s t, K s → K (set_timer t s)) → (∀ s g, K s → F (facts g) → T s g) →
  spec (λ s g, K s ∧ F (facts g)) (arm max) (λ _ s g, (K s ∧ F (facts g)) ∧ armed max s g).
Proof.
  intros HK HT. unfold arm. eapply spec_bind; [apply (trace_cancelTimer K F); auto|]. intros ?.
  set (K' := λ s, K s ∧ sc_timer s = None).
  set (after := λ enabled (s : Scheduler) g, (K' s ∧ F (facts g)) ∧
    ∃ before, g = (before ++ [Event ListEnabled (Ok enabled) tt])%list).
  apply (spec_bind _ _ _ after).
  { unfold call_ok. eapply spec_bind.
    - apply (rule_call ListEnabled _ (λ r s g, (K' s ∧ F (facts g)) ∧
        ∃ before, g = (before ++ [Event ListEnabled r tt])%list)).
      intros s g [H HF]. split; [done|]. intros r []. rewrite facts_record by done. split; [done|by exists g].
    - intros [enabled|err]; [by apply spec_ret|].
      apply spec_throw. intros s g [[[H _] HF] _]. by apply HT. }
  intros enabled. pose proof (nearest_of_spec enabled None) as Hn. cbn in Hn.
  destruct (nearest_of enabled None) as [n|].
  2: { destruct Hn as [_ Hn]. apply spec_ret. intros s g [[[H Ht] HF] [before ->]].
       split; [done|]. exists before, enabled. by left. }
  unfold safeNow. eapply (spec_bind _ _ _ (λ now s g, (K' s ∧ F (facts g)) ∧
    ∃ before, g = (before ++ [Event ListEnabled (Ok enabled) tt; Event Clock (JInt now) tt])%list)).
  { eapply spec_bind.
    - apply (rule_call Clock _ (λ v s g, (K' s ∧ F (facts g)) ∧
        ∃ before, g = (before ++ [Event ListEnabled (Ok enabled) tt; Event Clock v tt])%list)).
      intros s g [[H HF] [before ->]]. split; [done|]. intros r []. rewrite facts_record by done.
      split; [done|]. exists before. unfold record. by rewrite <-app_assoc.
    - intros [z|]; [destruct (_ && _)|]; first
        [by apply spec_ret|apply spec_throw; intros s g [[[H _] HF] _]; by apply HT]. }
  intros now. eapply spec_bind; [apply spec_get|]. intros x0. eapply spec_bind.
  { apply (rule_call (SetTimeout _ (sc_generation x0)) _ (λ h s g, (K s ∧ F (facts g)) ∧
      ∃ before, g = (before ++ [Event ListEnabled (Ok enabled) tt; Event Clock (JInt now) tt;
        Event (SetTimeout (Z.min max (Z.max 0 (n - now))) (sc_generation s)) h tt])%list)).
    intros s g [[[[H _] HF] [before ->]] ->]. split; [done|]. intros h []. rewrite facts_record by done.
    split; [done|]. exists before. unfold record. by rewrite <-app_assoc. }
  intros h. apply spec_modify. intros s g [[H HF] [before ->]].
  split; [split; [by apply HK|done]|]. exists before, enabled. right. exists now, n, h.
  rewrite <-app_assoc. done.
Qed.
End traces.

(** ** The operations *)

Definition rearmed (max : Z) (s : Scheduler) (g : events) : Prop :=
  armed max s g ∨ ∃ before error, g = (before ++ [Event (OnInternalError error) tt tt])%list.

(** Arming inside [try]. *)
Lemma trace_try_arm max (F : _ → Prop) :
  trace_spec never (λ s g, F (facts g)) (try_ (arm max) (λ error, call_ (OnInternalError error)))
    (λ _ s g, F (facts g) ∧ rearmed max s g).
Proof.
  eapply (spec_try _ _ _ _ (T := λ s g, F (facts g))).
  - eapply spec_weaken; [| |apply (trace_arm _ max (λ _, True) F)]; try done.
    intros ? s g [[_ HF] Ha]. split; [done|by left].
  - intros err. apply (spec_call (ans := port_answer) (W := unit) (R := unit) (E := thrown)
      (allowed := anything) (next := record) (D := never) (T := never) (OnInternalError err)).
    intros s g HF. split; [done|]. intros [] []. rewrite facts_record by done. split; [done|].
    right. by exists g, err.
Qed.

Definition wake_facts (f : list (Z * list JobSummary) * list string * list ClaimedJobRun * list ClaimedJobRun) : Prop :=
  (∃ now due, f.1.1.1 = [(now, due)] ∧ f.1.1.2 = map js_id (due_jobs now due) ∧ f.2 = f.1.2) ∨
  (f.1.1.1 = [] ∧ f.1.1.2 = [] ∧ f.1.2 = [] ∧ f.2 = []).
Lemma wake_facts_iff g : wake_facts (facts g) ↔ claimed g ∨ unclaimed g.
Proof. done. Qed.

Lemma trace_wake max gen :
  trace_spec never (λ s g, current gen s = true ∧ g = []) (wake max gen)
    (λ _ s g, (claimed g ∨ unclaimed g) ∧ rearmed max s g).
Proof.
  unfold wake. eapply spec_bind; [apply spec_get|]. intros x0.
  eapply (spec_pre _ (λ s g, current gen x0 = true ∧ current gen s = true ∧ unclaimed g)).
  { by intros s g [[Hc ->] ->]. }
  apply spec_pure. intros ->. cbn [negb].
  eapply spec_bind; [apply (spec_modify _ _ (λ _ s g, current gen s = true ∧ unclaimed g)); done|]. intros ?.
  apply (spec_bind _ _ _ (λ _ s g, current gen s = true ∧ wake_facts (facts g))).
  { apply (spec_try _ _ _ _ (T := λ s g, current gen s = true ∧ unclaimed g)).
    - eapply spec_bind; [apply (trace_safeNow _ (λ s, current gen s = true)
        (λ f, f.1.1.1 = [] ∧ f.1.1.2 = [] ∧ f.1.2 = [] ∧ f.2 = [])); done|].
      intros now. eapply spec_weaken; [| |apply (trace_claim_due _ (λ s, current gen s = true) now); done].
      + by intros s g (Hc & Hu & _).
      + intros ? s g [Hc Hcl]. split; [done|by left].
    - intros err. eapply spec_weaken; [| |apply (trace_irrelevant _ (OnInternalError err)
        (λ s, current gen s = true) wake_facts); done]; [|done].
      intros s g [Hc Hu]. split; [done|by right]. }
  intros ?. eapply spec_bind; [apply spec_get|]. intros x2.
  eapply (spec_pre _ (λ s g, current gen x2 = true ∧ wake_facts (facts g))).
  { by intros s g [[Hc HF] ->]. }
  apply spec_pure. intros ->. eapply spec_weaken; [intros s g HF; exact HF| |apply (trace_try_arm max wake_facts)].
  intros ? s g [HF Ha]. by rewrite <-wake_facts_iff.
Qed.

Lemma trace_refresh max :
  trace_spec never (λ s g, live s) (refreshSchedule max) (λ _ s g, rearmed max s g).
Proof.
  unfold refreshSchedule. eapply spec_bind; [apply spec_get|]. intros x0.
  eapply (spec_pre _ (λ s g, live x0 ∧ (λ _, True) (facts g))).
  { by intros s g [Hl ->]. }
  apply spec_pure. intros [-> ->]. cbn [negb orb].
  eapply spec_weaken; [intros s g HF; exact HF| |apply (trace_try_arm max (λ _, True))]. by intros ? s g [_ Ha].
Qed.

Section start.
Context (gen : Z).
Notation K := (λ s, current gen s = true).
Notation T := (λ _ _, True).

Lemma trace_any c : trace_spec T (λ s g, K s) (call_ c) (λ _ s g, K s).
Proof.
  apply (spec_call (ans := port_answer) (W := unit) (R := unit) (E := thrown)
    (allowed := anything) (next := record) (D := never) (T := T) c). by intros s g HK.
Qed.

Lemma trace_any_ok c {A} (f : port_answer c → result thrown A) :
  trace_spec T (λ s g, K s) (call_ok c f) (λ _ s g, K s).
Proof.
  unfold call_ok. eapply spec_bind; [apply trace_any|].
  intros r. destruct (f r); [by apply spec_ret|by apply spec_throw].
Qed.

Lemma trace_catch_up enabled at0 : trace_spec T (λ s g, K s) (catch_up_each enabled at0) (λ _ s g, K s).
Proof.
  induction enabled as [|job rest IH]; [by apply spec_ret|]. cbn [catch_up_each].
  eapply spec_bind; [|intros ?; apply IH]. destruct (not_due at0 job); [by apply spec_ret|].
  eapply spec_bind; [apply (trace_any (ClaimStartupCatchUp (js_id job) at0))|].
  intros [[claim|]|err]; cbn [dispatch].
  - eapply spec_bind; [apply (trace_any (Dispatch claim))|].
    intros [u|err]; [by apply spec_ret|apply (trace_any (OnInternalError err))].
  - by apply spec_ret.
  - destruct (is_app_error _ _); [by apply spec_ret|by apply spec_throw].
Qed.

Lemma trace_start_task max :
  trace_spec T (λ s g, K s ∧ g = []) (start_task max gen) (λ _ s g, armed max s g).
Proof.
  unfold start_task. eapply spec_bind; [apply spec_get|]. intros x0.
  eapply (spec_pre _ (λ s g, K x0 ∧ K s ∧ unclaimed g)); [by intros s g [[Hc ->] ->]|].
  apply spec_pure. intros ->. cbn [negb].
  set (none := λ f : list (Z * list JobSummary) * list string * list ClaimedJobRun * list ClaimedJobRun,
    f.1.1.1 = [] ∧ f.1.1.2 = [] ∧ f.1.2 = [] ∧ f.2 = []).
  eapply spec_bind; [by apply (trace_safeNow _ K none)|]. intros at0.
  eapply spec_bind; [apply spec_get|]. intros x1. apply (spec_bind _ _ _ (λ _ s g, K s)).
  - destruct (sc_initialized x1); cbn [negb].
    + eapply spec_bind.
      { eapply spec_pre; [|by apply (trace_safeNow _ K none)]. by intros s g [(HK & HF & _) _]. }
      intros now. eapply spec_weaken; [| |by apply (trace_claim_due _ K now)].
      * by intros s g (HK & HF & _).
      * by intros ? s g [HK _].
    + apply (spec_pre _ (λ s g, K s)); [intros s g [[HK _] _]; exact HK|].
      eapply spec_bind; [apply (trace_any_ok (MarkAllInterrupted at0) id)|]. intros ?.
      eapply spec_bind; [apply (trace_any_ok ListEnabled id)|]. intros enabled. eapply spec_bind; [apply trace_catch_up|]. intros ?. by apply spec_modify.
  - intros ?. eapply spec_bind; [apply spec_get|]. intros x2.
    eapply (spec_pre _ (λ s g, K x2 ∧ K s ∧ (λ _, True) (facts g))); [by intros s g [HK ->]|].
    apply spec_pure. intros ->. eapply spec_weaken; [intros s g HF; exact HF| |by apply (trace_arm _ max K (λ _, True))].
    by intros ? s g [_ Ha].
Qed.
End start.

(** ** The properties *)

Lemma trace_without {A} T P (m : sched A) (Q : Scheduler → events → Prop) :
  trace_spec T P m (λ _, Q) → trace_spec T P (without m) (λ o s g, o = None ∧ Q s g).
Proof. intros Hs. eapply spec_bind; [done|]. intros ?. by apply spec_ret. Qed.

(** The trace of a performed operation. *)
Lemma perform_trace max e σ op r h σ' T (P : Scheduler → events → Prop) (Q : _ → Scheduler → events → Prop) :
  op ≠ StartOp → perform max e σ op = (r, h, σ') →
  trace_spec T P (body max op) Q → P (sy_s σ) [] →
  match r with Ok o => Q o (sy_s σ') h | Err _ => T (sy_s σ') h end.
Proof.
  intros Hop Hp Hs HP. destruct (perform_run _ _ _ _ _ _ _ Hop Hp) as (o & s' & Hr & -> & ->).
  pose proof (trace_run _ _ _ _ _ _ _ _ _ Hs HP Hr) as Hq. by destruct o.
Qed.

(** A pending timer belongs to the current generation of an accepting scheduler. *)
Lemma pending_current max l σ h gen :
  0 ≤ max → history max l σ → (h, gen) ∈ sy_pending σ → current gen (sy_s σ) = true.
Proof.
  intros Hmax Hh Hin. destruct (fire_inv σ h gen) as ([Hr Hc] & _ & -> & _); [by eapply history_inv|done|].
  unfold current. rewrite Hr, Hc. cbn. apply Z.eqb_refl.
Qed.

Lemma valid_max_nonneg max : valid_max_delay (JInt max) = true → 0 ≤ max.
Proof. unfold valid_max_delay. rewrite !andb_true_iff, Z.ltb_lt. lia. Qed.

(** A wake never fails, and it is driven by the due query, not by the timer
    that woke it. If the query was answered, then exactly the listed jobs with
    a valid schedule and an occurrence not after the time shown were claimed,
    once each and in the order listed, although earlier claims failed or were
    refused, and every claim granted was dispatched, in that order; if the clock
    or the query failed, nothing was claimed or dispatched. *)
Lemma wake_claims_every_due_job max l e σ h gen r calls σ' :
  valid_max_delay (JInt max) = true → history max l σ →
  enabled σ (Fire h gen) → perform max e σ (Fire h gen) = (r, calls, σ') →
  r = Ok None ∧
  ((∃ now due, listed_of calls = [(now, due)] ∧ claims_of calls = map js_id (due_jobs now due) ∧
      dispatched_of calls = granted_of calls) ∨
   (listed_of calls = [] ∧ claims_of calls = [] ∧ granted_of calls = [] ∧ dispatched_of calls = [])).
Proof.
  intros Hv Hh Hen Hp. pose proof (pending_current _ _ _ _ _ (valid_max_nonneg _ Hv) Hh Hen) as Hc.
  pose proof (perform_trace max e σ (Fire h gen) _ _ _ _ _ _ ltac:(done) Hp
    (trace_without _ _ _ _ (trace_wake max gen)) (conj Hc eq_refl)) as Ht.
  destruct r as [o|]; [|done]. destruct Ht as (-> & Hcl & _). split; [done|]. exact Hcl.
Qed.

(** What [start]'s microtask, a wake and a refresh have in common. *)
Definition arms (σ : system) (op : operation) : Prop :=
  match op with
  | RunStart gen => current gen (sy_s σ) = true
  | Fire h gen => enabled σ (Fire h gen)
  | RefreshOp => live (sy_s σ)
  | _ => False
  end.

(** Every operation that recalculates the schedule (a start that is still
    current, a wake and a refresh) ends by asking for the enabled definitions
    and then either sets one timer for the nearest occurrence of those with a
    valid schedule, after the time that remains, zero if it is past and the
    configured maximum if it is farther, or leaves no timer when there is none.
    A start that could not do so is rejected; a wake or a refresh that could
    not reports the error last. *)
Lemma nearest_occurrence_is_armed max l e σ op r calls σ' :
  valid_max_delay (JInt max) = true → history max l σ → arms σ op →
  perform max e σ op = (r, calls, σ') →
  match op, r with
  | RunStart _, Err _ => True
  | RunStart _, Ok _ => armed max (sy_s σ') calls
  | _, Err _ => False
  | _, Ok _ => armed max (sy_s σ') calls ∨
      ∃ before error, calls = (before ++ [Event (OnInternalError error) tt tt])%list
  end.
Proof.
  intros Hv Hh Ha Hp. destruct op; try done; cbn [arms] in Ha.
  - pose proof (perform_trace max e σ (RunStart generation) _ _ _ _ _ _ ltac:(done) Hp
      (trace_without _ _ _ _ (trace_start_task generation max)) (conj Ha eq_refl)) as Ht.
    destruct r; [apply Ht|done].
  - pose proof (perform_trace max e σ (Fire handle generation) _ _ _ _ _ _ ltac:(done) Hp
      (trace_without _ _ _ _ (trace_wake max generation))
      (conj (pending_current _ _ _ _ _ (valid_max_nonneg _ Hv) Hh Ha) eq_refl)) as Ht.
    destruct r; [apply Ht|done].
  - pose proof (perform_trace max e σ RefreshOp _ _ _ _ _ _ ltac:(done) Hp
      (trace_without _ _ _ _ (trace_refresh max)) Ha) as Ht.
    destruct r; [apply Ht|done].
Qed.

(** *** Witnesses: the wake of the sample history *)
Definition before_wake : system := (perform_all JOB_SCHEDULER_MAX_TIMER_DELAY_MS sample_env [StartOp; RunStart 1] new_system).2.
Definition wake_result : reply * events * system :=
  perform JOB_SCHEDULER_MAX_TIMER_DELAY_MS sample_env before_wake (Fire 6 1).

Lemma before_wake_history :
  history JOB_SCHEDULER_MAX_TIMER_DELAY_MS
    (perform_all JOB_SCHEDULER_MAX_TIMER_DELAY_MS sample_env [StartOp; RunStart 1] new_system).1 before_wake.
Proof. exact (perform_all_history _ sample_env [StartOp; RunStart 1] [] new_system (history_nil _)). Qed.

Lemma before_wake_enabled : enabled before_wake (Fire 6 1).
Proof. apply enabledb_ok. by vm_compute. Qed.

Lemma wake_result_eq : perform JOB_SCHEDULER_MAX_TIMER_DELAY_MS sample_env before_wake (Fire 6 1)
  = (wake_result.1.1, wake_result.1.2, wake_result.2).
Proof. unfold wake_result. by destruct (perform _ _ _ _) as [[r h] σ]. Qed.

Lemma wake_claims_every_due_job_witness :
  claims_of wake_result.1.2 = ["j"] ∧ wake_result.1.1 = Ok None ∧
  dispatched_of wake_result.1.2 = granted_of wake_result.1.2.
Proof.
  split; [by vm_compute|].
  destruct (wake_claims_every_due_job JOB_SCHEDULER_MAX_TIMER_DELAY_MS _ sample_env before_wake 6 1
    wake_result.1.1 wake_result.1.2 wake_result.2 ltac:(by vm_compute) before_wake_history
    before_wake_enabled wake_result_eq) as [Hr [(now & due & _ & _ & Hd)|(_ & _ & Hg & Hd)]].
  - split; [exact Hr|exact Hd].
  - split; [exact Hr|congruence].
Defined.

Lemma nearest_occurrence_is_armed_witness :
  sc_timer (sy_s wake_result.2) = Some 5%nat ∧
  (armed JOB_SCHEDULER_MAX_TIMER_DELAY_MS (sy_s wake_result.2) wake_result.1.2 ∨
   ∃ before error, wake_result.1.2 = (before ++ [Event (OnInternalError error) tt tt])%list).
Proof.
  split; [by vm_compute|].
  pose proof (nearest_occurrence_is_armed JOB_SCHEDULER_MAX_TIMER_DELAY_MS _ sample_env before_wake (Fire 6 1)
    wake_result.1.1 wake_result.1.2 wake_result.2 ltac:(by vm_compute) before_wake_history
    before_wake_enabled wake_result_eq) as H.
  assert (E : wake_result.1.1 = Ok None) by (vm_compute; reflexivity). rewrite E in H. exact H.
Defined.
