(* ===== verification/JobRunner.v ===== *)
(** Execution of one claimed attempt ([src/server/job-runner.ts], [#execute]):
    a program over the runner's ports. While a call is awaited other tasks may
    request a stop or seal persistence; synchronous calls run to completion. *)
From S2P Require Import Prelude Errors Jobs JobSchedule Programs.
#[local] Open Scope string_scope. #[local] Open Scope Z_scope.

(** ** Data *)

(** src/server/workspace-repository.ts:153-168 RuntimeWorkspacePolicy *)
Record RuntimeWorkspacePolicy := {
  rwp_workspaceId : string;
  rwp_cwd : string;
  rwp_sessionDirectory : option string;
  rwp_securityProfile : string;
  rwp_mounts : option (list jsval);
  rwp_networkPolicy : jsval;
  rwp_networkPolicySetId : string;
  rwp_effectiveNetworkPolicySetId : option string;
  rwp_networkPolicySet : jsval;
  rwp_effectiveHttpTools : option (list jsval);
  rwp_effectiveConversationTools : option (list string);
}.

(** A copy; freezing it has no effect on its values. *)
(** src/server/job-runner.ts:118-127 freezePolicy *)
Definition freezePolicy (policy : RuntimeWorkspacePolicy) : RuntimeWorkspacePolicy := {|
  rwp_workspaceId := rwp_workspaceId policy; rwp_cwd := rwp_cwd policy;
  rwp_sessionDirectory := rwp_sessionDirectory policy;
  rwp_securityProfile := rwp_securityProfile policy; rwp_mounts := rwp_mounts policy;
  rwp_networkPolicy := rwp_networkPolicy policy;
  rwp_networkPolicySetId := rwp_networkPolicySetId policy;
  rwp_effectiveNetworkPolicySetId := rwp_effectiveNetworkPolicySetId policy;
  rwp_networkPolicySet := rwp_networkPolicySet policy;
  rwp_effectiveHttpTools := Some (default [] (rwp_effectiveHttpTools policy));
  rwp_effectiveConversationTools := Some (default [] (rwp_effectiveConversationTools policy));
|}.

(** src/server/job-hook-runner.ts:31-38 JobHookResult *)
Record JobHookResult := {
  hook_succeeded : bool; hook_exitCode : option Z; hook_signal : option string;
  hook_stdout : string; hook_stderr : string; hook_errorCode : option ErrorCode;
}.

(** src/shared/protocol.ts:480-485 ConversationOwner *)
Record ConversationOwner := { owner_jobId : string; owner_runId : string }.

(** The input of a hook, without the abort signal of the attempt. *)
(** src/server/job-hook-runner.ts:25-29 JobHookRunInput *)
Record JobHookRunInput := {
  hin_canonicalScriptPath : string; hin_jobId : string; hin_jobName : string; hin_runId : string;
  hin_trigger : JobRunTrigger; hin_scheduledFor : Z; hin_workspaceId : string;
  hin_workspacePath : string; hin_conversationId : option string; hin_phase : JobRunPhase;
}.

(** src/server/conversation-registry.ts:85-89 JobPromptCompletion *)
Inductive JobPromptCompletion :=
| PromptSucceeded | PromptFailed | PromptAborted | PromptRuntimeFailure (code : ErrorCode).

(** src/server/job-runner.ts:102-102 StopReason *)
Inductive StopReason := StopAbort | StopShutdown.
#[export] Instance StopReason_eq : EqDecision StopReason.
Proof. solve_decision. Defined.

Inductive hook_kind := HookPre | HookPost.

(** ** The ports *)

(** A lease is identified by a number. *)
(** src/server/job-runner.ts:22-87 JobRunnerRepositoryPort *)
Inductive command :=
| StartRun (jobId runId : string) (phase : option JobRunPhase) (rev : Z)
| SetRunPhase (jobId runId : string) (phase : JobRunPhase) (rev : Z)
| AttachConversation (jobId runId conversationId : string) (rev : Z)
| RecordHookResult (jobId runId : string) (hook : hook_kind) (exitCode : option Z)
    (stdout stderr : string) (rev : Z)
| FinishRun (jobId runId : string) (status : JobRunStatus) (phase : option JobRunPhase)
    (errorCode : option ErrorCode) (rev : Z)
| GetRun (jobId runId : string)
| RequireUsable (workspaceId : string)
| ValidateForRun (scriptPath : string) (policy : RuntimeWorkspacePolicy)
| RunHook (input : JobHookRunInput)
| ReserveRuntimeCapacity
| CreateJobConversation (policy : RuntimeWorkspacePolicy) (owner : ConversationOwner) (lease : nat)
| SetJobConversationTitle (conversationId : string) (owner : ConversationOwner) (title : string)
| RunJobPrompt (conversationId : string) (owner : ConversationOwner) (prompt : string)
| ReleaseJobConversation (conversationId : string) (owner : ConversationOwner)
| ReleaseLease (lease : nat)
| Publish (run : JobRunState)
| InternalError (error : thrown).

Definition answer (c : command) : Type :=
  match c with
  | StartRun _ _ _ _ | SetRunPhase _ _ _ _ | AttachConversation _ _ _ _
  | RecordHookResult _ _ _ _ _ _ _ | FinishRun _ _ _ _ _ _ | GetRun _ _ => result thrown JobRunState
  | RequireUsable _ => result thrown RuntimeWorkspacePolicy
  | ValidateForRun _ _ => result thrown string
  | RunHook _ => result thrown JobHookResult
  | ReserveRuntimeCapacity => result thrown nat
  | CreateJobConversation _ _ _ => result thrown string
  | SetJobConversationTitle _ _ _ => result thrown unit
  | RunJobPrompt _ _ _ => result thrown JobPromptCompletion
  | ReleaseJobConversation _ _ => result thrown unit
  | ReleaseLease _ | Publish _ | InternalError _ => unit
  end.

(** The calls that suspend the attempt. *)
Definition awaited (c : command) : bool :=
  match c with
  | RequireUsable _ | RunHook _ | ReserveRuntimeCapacity | CreateJobConversation _ _ _
  | SetJobConversationTitle _ _ _ | RunJobPrompt _ _ _ | ReleaseJobConversation _ _ => true
  | _ => false
  end.

(** The calls that reach the database. *)
Definition persists (c : command) : bool :=
  match c with
  | StartRun _ _ _ _ | SetRunPhase _ _ _ _ | AttachConversation _ _ _ _
  | RecordHookResult _ _ _ _ _ _ _ | FinishRun _ _ _ _ _ _ | GetRun _ _ => true
  | _ => false
  end.

(** ** The state of an attempt and what other tasks do to it *)

(** src/server/job-runner.ts:104-112 ActiveRun. With the runner's [#persistenceSealed] and the local variable [lease]. *)
Record ActiveRun := {
  ar_state : JobRunState;
  ar_stopReason : option StopReason;
  ar_conversationId : option string;
  ar_sealed : bool;
  ar_lease : option nat;
}.
Definition set_state (s : JobRunState) (a : ActiveRun) : ActiveRun :=
  {| ar_state := s; ar_stopReason := ar_stopReason a; ar_conversationId := ar_conversationId a;
     ar_sealed := ar_sealed a; ar_lease := ar_lease a |}.
Definition set_stop (r : StopReason) (a : ActiveRun) : ActiveRun :=
  {| ar_state := ar_state a; ar_stopReason := Some r; ar_conversationId := ar_conversationId a;
     ar_sealed := ar_sealed a; ar_lease := ar_lease a |}.
Definition set_conversation (c : string) (a : ActiveRun) : ActiveRun :=
  {| ar_state := ar_state a; ar_stopReason := ar_stopReason a; ar_conversationId := Some c;
     ar_sealed := ar_sealed a; ar_lease := ar_lease a |}.
Definition set_lease (l : option nat) (a : ActiveRun) : ActiveRun :=
  {| ar_state := ar_state a; ar_stopReason := ar_stopReason a; ar_conversationId := ar_conversationId a;
     ar_sealed := ar_sealed a; ar_lease := l |}.

(** src/server/job-runner.ts:502-507 requestStop *)
Definition requestStop (reason : StopReason) (a : ActiveRun) : ActiveRun :=
  if bool_decide (ar_stopReason a = Some StopShutdown) || bool_decide (ar_stopReason a = Some reason)
  then a else set_stop reason a.

(** src/server/job-runner.ts:241-249 sealPersistence *)
Definition sealPersistence (adopted : option JobRunState) (a : ActiveRun) : ActiveRun :=
  if ar_sealed a then a
  else {| ar_state := default (ar_state a) adopted; ar_stopReason := ar_stopReason a;
          ar_conversationId := ar_conversationId a; ar_sealed := true; ar_lease := ar_lease a |}.

(** What another task does to the attempt while it is suspended. *)
Inductive interference :=
| StopRequested (reason : StopReason)
| Sealed (adopted : option JobRunState).
Definition interfere (i : interference) (a : ActiveRun) : ActiveRun :=
  match i with StopRequested r => requestStop r a | Sealed s => sealPersistence s a end.
Definition interfere_all (w : list interference) (a : ActiveRun) : ActiveRun :=
  fold_left (λ a i, interfere i a) w a.

#[export] Instance awaited_interference : Interference command (list interference) ActiveRun :=
  λ c w a, if awaited c then interfere_all w a else a.

Notation stmt := (Programs.stmt answer (list interference) ActiveRun JobRunState thrown).
Notation call_ := (Programs.call_ (ans := answer) (W := list interference) (S := ActiveRun)
  (R := JobRunState) (E := thrown)) (only parsing).
Notation call_ok := (Programs.call_ok (ans := answer) (W := list interference) (S := ActiveRun)
  (R := JobRunState) (E := thrown)) (only parsing).

(** ** The execution of an attempt *)

(** src/server/job-runner.ts:129-131 safeErrorCode *)
Definition safeErrorCode (error : thrown) (fallback : ErrorCode) : ErrorCode :=
  default fallback (error_code error).

Definition is_terminal (s : JobRunStatus) : bool :=
  negb (bool_decide (s = Queued)) && negb (bool_decide (s = Running)).

Section runner.
Context `{IntlData} `{Temporal} (job : JobSummary) (owner : ConversationOwner).

#[local] Notation jobId := (js_id job).

(** src/server/job-runner.ts:509-512 publish *)
Definition publish (state : JobRunState) : stmt unit := call_ (Publish state).

(** src/server/job-runner.ts:467-494 finish *)
Definition finish (status : JobRunStatus) (errorCode : option ErrorCode) (phase : option JobRunPhase)
  : stmt JobRunState :=
  a ← get_;
  if ar_sealed a then return_ (ar_state a)
  else
    r ← call_ (FinishRun jobId (rs_id (ar_state a)) status phase errorCode (rs_revision (ar_state a)));
    match r with
    | Ok state => modify_ (set_state state);; publish state;; mret state
    | Err error =>
        if is_app_error JOB_BUSY error then
          current ← call_ok (GetRun jobId (rs_id (ar_state a))) id;
          if is_terminal (rs_status (st_summary current))
          then modify_ (set_state current);; mret current
          else throw_ error
        else throw_ error
    end.
(** [return this.#finish(...)] *)
Definition return_finish {A} (status : JobRunStatus) (errorCode : option ErrorCode)
    (phase : option JobRunPhase) : stmt A :=
  s ← finish status errorCode phase; return_ s.

(** src/server/job-runner.ts:461-465 finishStopped *)
Definition finishStopped {A} (phase : option JobRunPhase) : stmt A :=
  a ← get_;
  if bool_decide (ar_stopReason a = Some StopShutdown)
  then return_finish Interrupted (Some JOB_INTERRUPTED) phase
  else return_finish Aborted (Some JOB_ABORTED) phase.

(** [if (this.#persistenceSealed) return active.state;] *)
Definition unless_sealed : stmt unit :=
  a ← get_; if ar_sealed a then return_ (ar_state a) else mret tt.
(** [if (active.stopReason !== undefined) return this.#finishStopped(active, phase);],
    the phase defaulting to the current one. *)
Definition unless_stopped (phase : option JobRunPhase) : stmt unit :=
  a ← get_;
  if bool_decide (is_Some (ar_stopReason a))
  then finishStopped (match phase with Some p => Some p | None => rs_phase (ar_state a) end)
  else mret tt.

(** [active.state = this.#repository.setRunPhase(...)], published. *)
(** src/server/job-runner.ts:339-343 enterPhase *)
Definition enter_phase (phase : JobRunPhase) : stmt unit :=
  a ← get_;
  s ← call_ok (SetRunPhase jobId (rs_id (ar_state a)) phase (rs_revision (ar_state a))) id;
  modify_ (set_state s);; publish s;; unless_sealed.

(** src/server/job-runner.ts:435-447 hookInput *)
Definition hook_input (policy : RuntimeWorkspacePolicy) (canonicalScriptPath : string) (phase : JobRunPhase)
    (a : ActiveRun) : JobHookRunInput := {|
  hin_canonicalScriptPath := canonicalScriptPath; hin_jobId := jobId; hin_jobName := js_name job;
  hin_runId := rs_id (ar_state a); hin_trigger := rs_trigger (ar_state a);
  hin_scheduledFor := rs_scheduledFor (ar_state a); hin_workspaceId := js_workspaceId job;
  hin_workspacePath := rwp_cwd policy; hin_conversationId := ar_conversationId a;
  hin_phase := phase |}.

(** src/server/job-runner.ts:429-448 runHook *)
Definition runHook (policy : RuntimeWorkspacePolicy) (canonicalScriptPath : string) (phase : JobRunPhase)
  : stmt JobHookResult :=
  a ← get_; call_ok (RunHook (hook_input policy canonicalScriptPath phase a)) id.

(** src/server/job-runner.ts:450-459 recordHook *)
Definition recordHook (hook : hook_kind) (res : JobHookResult) : stmt unit :=
  a ← get_;
  s ← call_ok (RecordHookResult jobId (rs_id (ar_state a)) hook (hook_exitCode res) (hook_stdout res)
                 (hook_stderr res) (rs_revision (ar_state a))) id;
  publish s;; modify_ (set_state s).

(** src/server/job-runner.ts:496-500 adoptHookStop *)
Definition adoptHookStop (res : JobHookResult) : stmt unit :=
  modify_ (λ a,
    match ar_stopReason a with
    | Some _ => a
    | None =>
        if bool_decide (hook_errorCode res = Some JOB_INTERRUPTED) then set_stop StopShutdown a
        else if bool_decide (hook_errorCode res = Some JOB_ABORTED) then set_stop StopAbort a
        else a
    end).

(** A hook phase once it is entered: the second validation, the script, its record. *)
(** src/server/job-runner.ts:324-336 hookPhase *)
Definition hook_phase (policy : RuntimeWorkspacePolicy) (script : string) (hook : hook_kind) : stmt unit :=
  let phase := match hook with HookPre => PreHook | HookPost => PostHook end in
  let failed := match hook with HookPre => JOB_PRE_RUN_FAILED | HookPost => JOB_POST_RUN_FAILED end in
  validated ← call_ (ValidateForRun script policy);
  match validated with
  | Err error => return_finish Blocked (Some (safeErrorCode error JOB_SCRIPT_UNAVAILABLE)) (Some phase)
  | Ok canonical =>
      res ← runHook policy canonical phase;
      unless_sealed;;
      recordHook hook res;;
      adoptHookStop res;;
      unless_stopped (Some phase);;
      if hook_succeeded res then mret tt
      else return_finish Failed (Some (default failed (hook_errorCode res))) (Some phase)
  end.

(** src/server/job-runner.ts:284-298 preScript *)
Definition admit_scripts (policy : RuntimeWorkspacePolicy) : stmt (option string * option string) :=
  let blocked error phase :=
    return_finish Blocked (Some (safeErrorCode error JOB_SCRIPT_UNAVAILABLE)) (Some phase) in
  pre ← match js_preRunScript job with
        | None => mret (Ok None)
        | Some path =>
            r ← call_ (ValidateForRun path policy);
            mret match r with Ok p => Ok (Some p) | Err e => Err e end
        end;
  match pre with
  | Err e => blocked e PreHook
  | Ok pre =>
      match js_postRunScript job with
      | None => mret (pre, None)
      | Some path =>
          r ← call_ (ValidateForRun path policy);
          match r with
          | Ok post => mret (pre, Some post)
          | Err e =>
              blocked e (if bool_decide (pre = None ∧ js_preRunScript job ≠ None) then PreHook else PostHook)
          end
      end
  end.

(** src/server/job-runner.ts:301-314 reserve *)
Definition reserve : stmt unit :=
  r ← call_ ReserveRuntimeCapacity;
  match r with
  | Ok lease => modify_ (set_lease (Some lease))
  | Err error =>
      unless_sealed;;
      a ← get_;
      if bool_decide (is_Some (ar_stopReason a)) || is_app_error SHUTTING_DOWN error
      then finishStopped (rs_phase (ar_state a))
      else return_finish (if is_app_error LIVE_RUNTIME_LIMIT error then Skipped else Failed)
             (Some (safeErrorCode error LIVE_RUNTIME_LIMIT)) None
  end.

(** src/server/job-runner.ts:346-354 createConversation *)
Definition create_conversation (policy : RuntimeWorkspacePolicy) : stmt string :=
  a ← get_;
  r ← call_ (CreateJobConversation policy owner (default O (ar_lease a)));
  match r with
  | Ok conversation => modify_ (set_lease None);; mret conversation
  | Err error =>
      unless_sealed;;
      unless_stopped (Some PromptPhase);;
      return_finish Failed (Some (safeErrorCode error JOB_PROMPT_FAILED)) (Some PromptPhase)
  end.

(** [active.job.schedule] as a value. *)
Definition shown_schedule (s : ShownSchedule) : jsval :=
  match s with Valid s => schedule_value s | Raw v => v end.

(** src/server/job-runner.ts:355-385 promptPhase *)
Definition prompt_conversation (conversation : string) : stmt unit :=
  modify_ (set_conversation conversation);;
  unless_sealed;;
  a ← get_;
  s ← call_ok (AttachConversation jobId (rs_id (ar_state a)) conversation (rs_revision (ar_state a))) id;
  modify_ (set_state s);; publish s;; unless_sealed;;
  title ← lift_ (formatJobConversationTitle (js_name job) (shown_schedule (js_schedule job))
                   (VNum (JInt (rs_scheduledFor (st_summary s)))));
  call_ok (SetJobConversationTitle conversation owner title) id;;
  unless_sealed;;
  unless_stopped (Some PromptPhase);;
  promptResult ← call_ok (RunJobPrompt conversation owner (js_prompt job)) id;
  unless_sealed;;
  match promptResult with
  | PromptAborted =>
      modify_ (λ a, match ar_stopReason a with None => set_stop StopAbort a | Some _ => a end);;
      finishStopped (Some PromptPhase)
  | PromptSucceeded => unless_stopped (Some PromptPhase)
  | PromptFailed =>
      unless_stopped (Some PromptPhase);;
      return_finish Failed (Some JOB_PROMPT_FAILED) (Some PromptPhase)
  | PromptRuntimeFailure code =>
      unless_stopped (Some PromptPhase);;
      return_finish Failed (Some code) (Some PromptPhase)
  end.

(** The [try] block of [#execute]. *)
(** src/server/job-runner.ts:262-409 executeBody *)
Definition execute_body : stmt JobRunState :=
  a ← get_;
  s ← call_ok (StartRun jobId (rs_id (ar_state a)) None (rs_revision (ar_state a))) id;
  modify_ (set_state s);; publish s;; unless_sealed;;
  usable ← call_ (RequireUsable (js_workspaceId job));
  match usable with
  | Err error =>
      unless_sealed;; unless_stopped None;;
      return_finish Blocked (Some (safeErrorCode error WORKSPACE_UNAVAILABLE)) None
  | Ok usable =>
      let policy := freezePolicy usable in
      unless_sealed;; unless_stopped None;;
      scripts ← admit_scripts policy;
      unless_stopped None;;
      reserve;;
      unless_sealed;; unless_stopped None;;
      match scripts.1, js_preRunScript job with
      | Some _, Some path => enter_phase PreHook;; hook_phase policy path HookPre
      | _, _ => mret tt
      end;;
      enter_phase PromptPhase;;
      unless_stopped (Some PromptPhase);;
      conversation ← create_conversation policy;
      prompt_conversation conversation;;
      match scripts.2, js_postRunScript job with
      | Some _, Some path =>
          enter_phase PostHook;; unless_stopped (Some PostHook);; hook_phase policy path HookPost
      | _, _ => mret tt
      end;;
      return_finish Succeeded None
        (Some (match scripts.2 with None => PromptPhase | Some _ => PostHook end))
  end.

(** src/server/job-runner.ts:410-419 catch *)
Definition execute_catch (error : thrown) : stmt JobRunState :=
  try_ (
    unless_sealed;;
    unless_stopped None;;
    a ← get_;
    return_finish Failed (Some (safeErrorCode error JOB_PROMPT_FAILED)) (rs_phase (ar_state a)))
  (λ finishError,
    call_ (InternalError error);;
    call_ (InternalError finishError);;
    a ← get_;
    s ← call_ok (GetRun jobId (rs_id (ar_state a))) id;
    return_ s).

(** src/server/job-runner.ts:420-426 finally *)
Definition execute_finally : stmt unit :=
  a ← get_;
  match ar_lease a with Some lease => call_ (ReleaseLease lease) | None => mret tt end;;
  a ← get_;
  match ar_conversationId a with
  | None => mret tt
  | Some conversation =>
      r ← call_ (ReleaseJobConversation conversation owner);
      match r with Ok _ => mret tt | Err error => call_ (InternalError error) end
  end.

(** src/server/job-runner.ts:260-427 execute *)
Definition execute : stmt JobRunState :=
  finally_ (try_ execute_body execute_catch) execute_finally.
End runner.
