(* ===== verification/JobRunnerSafety.v ===== *)
(** What every execution of an attempt does, whatever its ports answer and
    whatever other tasks do meanwhile: order of the phases, handling of the
    capacity lease and the conversation, revisions, and silence after sealing. *)
From S2P Require Import Prelude Errors Jobs JobSchedule Programs JobRunner.
#[local] Open Scope string_scope. #[local] Open Scope Z_scope.

Notation run_event := (event answer (list interference)).

(** ** A monitor of executions *)

Inductive lease_status := NoLease | Held (lease : nat) | Promoted | Released.
Inductive conversation_status := NoConversation | Live (conversation : string) | Gone.

(** What the calls so far amount to: the last stored state the attempt knows,
    whether persistence was sealed or a stop requested while it waited, whether
    an outcome was stored, who owns the lease and the conversation, and which
    parts of the work succeeded. *)
Record monitor := Monitor {
  mo_state : JobRunState;
  mo_sealed : bool;
  mo_stop : bool;
  mo_finished : bool;
  mo_lease : lease_status;
  mo_conversation : conversation_status;
  mo_pre : bool;
  mo_prompt : bool;
  mo_post : bool;
}.

Definition is_sealed (i : interference) : bool := match i with Sealed _ => true | _ => false end.
Definition is_stop (i : interference) : bool := match i with StopRequested _ => true | _ => false end.
(** The state adopted by the first sealing, if it gives one. *)
Definition adopted_state (w : list interference) : option JobRunState :=
  match List.filter is_sealed w with Sealed s :: _ => s | _ => None end.

(** What the other tasks did during the call. *)
Definition mo_world (c : command) (w : list interference) (m : monitor) : monitor :=
  if awaited c then
    {| mo_state := if mo_sealed m then mo_state m else default (mo_state m) (adopted_state w);
       mo_sealed := mo_sealed m || existsb is_sealed w; mo_stop := mo_stop m || existsb is_stop w;
       mo_finished := mo_finished m; mo_lease := mo_lease m; mo_conversation := mo_conversation m;
       mo_pre := mo_pre m; mo_prompt := mo_prompt m; mo_post := mo_post m |}
  else m.

Definition with_state (s : JobRunState) (finished : bool) (m : monitor) : monitor :=
  Monitor s (mo_sealed m) (mo_stop m) (mo_finished m || finished) (mo_lease m) (mo_conversation m)
    (mo_pre m) (mo_prompt m) (mo_post m).
Definition with_lease (l : lease_status) (m : monitor) : monitor :=
  Monitor (mo_state m) (mo_sealed m) (mo_stop m) (mo_finished m) l (mo_conversation m)
    (mo_pre m) (mo_prompt m) (mo_post m).
Definition with_conversation (c : conversation_status) (m : monitor) : monitor :=
  Monitor (mo_state m) (mo_sealed m) (mo_stop m) (mo_finished m) (mo_lease m) c
    (mo_pre m) (mo_prompt m) (mo_post m).
Definition with_work (pre prompt post : bool) (m : monitor) : monitor :=
  Monitor (mo_state m) (mo_sealed m) (mo_stop m) (mo_finished m) (mo_lease m) (mo_conversation m)
    (mo_pre m || pre) (mo_prompt m || prompt) (mo_post m || post).

(** What the answer of the call means. *)
Definition mo_answer (c : command) : answer c → monitor → monitor :=
  match c return answer c → monitor → monitor with
  | StartRun _ _ _ _ | SetRunPhase _ _ _ _ | AttachConversation _ _ _ _ | RecordHookResult _ _ _ _ _ _ _ =>
      λ r m, match r with Ok s => with_state s false m | Err _ => m end
  | FinishRun _ _ _ _ _ _ => λ r m, match r with Ok s => with_state s true m | Err _ => m end
  | GetRun _ _ => λ r m,
      match r with Ok s => if is_terminal (rs_status s) then with_state s true m else m | Err _ => m end
  | RunHook input => λ r m,
      match r with
      | Ok res => with_work (bool_decide (hin_phase input = PreHook) && hook_succeeded res) false
                    (bool_decide (hin_phase input = PostHook) && hook_succeeded res) m
      | Err _ => m
      end
  | ReserveRuntimeCapacity => λ r m, match r with Ok l => with_lease (Held l) m | Err _ => m end
  | CreateJobConversation _ _ _ => λ r m,
      match r with Ok c => with_lease Promoted (with_conversation (Live c) m) | Err _ => m end
  | RunJobPrompt _ _ _ => λ r m, match r with Ok PromptSucceeded => with_work false true false m | _ => m end
  | ReleaseLease _ => λ _, with_lease Released
  | ReleaseJobConversation _ _ => λ _, with_conversation Gone
  | _ => λ _ m, m
  end.
Definition mo_next (m : monitor) (e : run_event) : monitor :=
  mo_world (ev_call e) (ev_world e) (mo_answer (ev_call e) (ev_answer e) m).

(** The attempt, and the revision it expects, that a mutation names. *)
Definition mutates (c : command) : option (string * string * Z) :=
  match c with
  | StartRun j r _ v | SetRunPhase j r _ v | AttachConversation j r _ v
  | RecordHookResult j r _ _ _ _ v | FinishRun j r _ _ _ v => Some (j, r, v)
  | _ => None
  end.

Section safety.
Context `{IntlData} `{Temporal} (job : JobSummary) (owner : ConversationOwner).

(** The pre-run script, if any, has succeeded; likewise the post-run script. *)
Definition pre_done (m : monitor) : Prop := js_preRunScript job = None ∨ mo_pre m = true.
Definition post_done (m : monitor) : Prop := js_postRunScript job = None ∨ mo_post m = true.

Definition mo_allowed (m : monitor) (c : command) : Prop :=
  (persists c = true → mo_sealed m = false) ∧
  (∀ j r v, mutates c = Some (j, r, v) →
     mo_finished m = false ∧ j = js_id job ∧ r = rs_id (mo_state m) ∧ v = rs_revision (mo_state m)) ∧
  match c with
  | ReserveRuntimeCapacity => mo_lease m = NoLease
  | RunHook input =>
      mo_sealed m = false ∧
      match hin_phase input with
      | PreHook => (∃ l, mo_lease m = Held l) ∧ mo_pre m = false
      | PostHook => mo_prompt m = true ∧ mo_stop m = false
      | PromptPhase => False
      end
  | CreateJobConversation _ o l =>
      o = owner ∧ mo_lease m = Held l ∧ mo_conversation m = NoConversation ∧ pre_done m ∧
      mo_sealed m = false ∧ mo_stop m = false
  | RunJobPrompt c o p =>
      o = owner ∧ p = js_prompt job ∧ mo_conversation m = Live c ∧ pre_done m ∧
      mo_sealed m = false ∧ mo_stop m = false ∧ mo_prompt m = false
  | FinishRun _ _ Succeeded _ code _ =>
      code = None ∧ pre_done m ∧ mo_prompt m = true ∧ post_done m ∧ mo_stop m = false
  | FinishRun _ _ Queued _ _ _ | FinishRun _ _ Running _ _ _ => False
  | FinishRun _ _ _ _ code _ => is_Some code
  | ReleaseLease l => mo_lease m = Held l
  | ReleaseJobConversation c _ => mo_conversation m = Live c ∧ mo_lease m = Promoted
  | _ => True
  end.

(** ** The attempt's variables against the monitor *)

Definition lease_var (l : lease_status) : option nat := match l with Held l => Some l | _ => None end.
Definition conversation_var (c : conversation_status) : option string :=
  match c with Live c => Some c | _ => None end.

(** Outside of the transitions, the variables say what the monitor says. *)
Record inv (a : ActiveRun) (m : monitor) : Prop := {
  inv_state : ar_state a = mo_state m;
  inv_sealed : ar_sealed a = mo_sealed m;
  inv_stop : mo_stop m = true → is_Some (ar_stopReason a);
  inv_unfinished : mo_finished m = false;
  inv_lease : ar_lease a = lease_var (mo_lease m);
  inv_conversation : ar_conversationId a = conversation_var (mo_conversation m);
  inv_promoted c : mo_conversation m = Live c → mo_lease m = Promoted;
}.

(** On return only the resources matter. *)
Record done (a : ActiveRun) (m : monitor) : Prop := {
  done_lease : ar_lease a = lease_var (mo_lease m);
  done_conversation : ar_conversationId a = conversation_var (mo_conversation m);
  done_promoted c : mo_conversation m = Live c → mo_lease m = Promoted;
}.

Lemma inv_done a m : inv a m → done a m.
Proof. intros []. by split. Qed.

(** The progress that ordinary calls leave alone. *)
Definition work : Type := lease_status * conversation_status * bool * bool * bool.
Definition progress (m : monitor) : work :=
  (mo_lease m, mo_conversation m, mo_pre m, mo_prompt m, mo_post m).

(** In general a throw leaves the invariant; one from the database also tells
    that persistence was not sealed. *)
Notation spec := (spec_t (R := JobRunState) (E := thrown) mo_allowed mo_next done inv).
Definition unsealed (a : ActiveRun) (m : monitor) : Prop := inv a m ∧ mo_sealed m = false.
Notation sync := (spec_t (R := JobRunState) (E := thrown) mo_allowed mo_next done unsealed).

Notation rule_call := (spec_call (ans := answer) (W := list interference) (R := JobRunState) (E := thrown)
  (allowed := mo_allowed) (next := mo_next) (D := done) (T := inv)).

Lemma sync_spec {A} P (s : stmt A) Q : sync P s Q → spec P s Q.
Proof. intros Hs a m Ha. eapply wp_mono; [|by apply Hs]. intros [[x|r|e] a'] m'; try done. by intros []. Qed.

(** ** Interference *)

Lemma interfere_all_cons i w a : interfere_all (i :: w) a = interfere_all w (interfere i a).
Proof. done. Qed.

Lemma requestStop_frame r a :
  ar_state (requestStop r a) = ar_state a ∧ ar_sealed (requestStop r a) = ar_sealed a ∧
  ar_lease (requestStop r a) = ar_lease a ∧ ar_conversationId (requestStop r a) = ar_conversationId a.
Proof. unfold requestStop. by destruct (_ || _). Qed.

Lemma interfere_all_sealed w a : ar_sealed (interfere_all w a) = ar_sealed a || existsb is_sealed w.
Proof.
  revert a. induction w as [|i w IH]; intros a; [by rewrite orb_false_r|].
  rewrite interfere_all_cons, IH. cbn [existsb]. destruct i as [r|s]; cbn [interfere is_sealed orb].
  - by destruct (requestStop_frame r a) as (_ & -> & _).
  - unfold sealPersistence. destruct (ar_sealed a) eqn:E; cbn; [by rewrite E|done].
Qed.

Lemma interfere_stop_mono i a : is_Some (ar_stopReason a) → is_Some (ar_stopReason (interfere i a)).
Proof.
  intros Ha. destruct i; cbn; [unfold requestStop; destruct (_ || _)|unfold sealPersistence; destruct (ar_sealed a)];
    cbn; eauto.
Qed.

Lemma interfere_all_stop w a :
  is_Some (ar_stopReason a) ∨ existsb is_stop w = true → is_Some (ar_stopReason (interfere_all w a)).
Proof.
  revert a. induction w as [|i w IH]; intros a; [by intros [|]|].
  rewrite interfere_all_cons. cbn [existsb]. intros Hw. apply IH.
  destruct Hw as [Ha|[Hi|]%orb_true_iff]; [left; by apply interfere_stop_mono| |by right].
  left. destruct i as [r|]; [|done]. cbn. unfold requestStop.
  destruct (_ || _) eqn:E; cbn; [|by eexists].
  apply orb_true_iff in E as [E|E]; apply bool_decide_eq_true in E; rewrite E; by eexists.
Qed.

Lemma interfere_all_state w a :
  ar_state (interfere_all w a) = if ar_sealed a then ar_state a else default (ar_state a) (adopted_state w).
Proof.
  revert a. induction w as [|i w IH]; intros a; [by destruct (ar_sealed a)|].
  rewrite interfere_all_cons, IH. destruct i as [r|s]; cbn [interfere].
  - by destruct (requestStop_frame r a) as (-> & -> & _).
  - unfold sealPersistence. destruct (ar_sealed a) eqn:E; cbn; by rewrite ?E.
Qed.

Lemma interfere_set_lease i l a : interfere i (set_lease l a) = set_lease l (interfere i a).
Proof.
  destruct i; cbn; [unfold requestStop; cbn; by destruct (_ || _)|unfold sealPersistence; cbn; by destruct (ar_sealed a)].
Qed.
Lemma interfere_set_conversation i c a : interfere i (set_conversation c a) = set_conversation c (interfere i a).
Proof.
  destruct i; cbn; [unfold requestStop; cbn; by destruct (_ || _)|unfold sealPersistence; cbn; by destruct (ar_sealed a)].
Qed.
Lemma interfere_all_set_lease w l a : interfere_all w (set_lease l a) = set_lease l (interfere_all w a).
Proof.
  revert a. induction w as [|i w IH]; intros a; [done|]. by rewrite !interfere_all_cons, interfere_set_lease, IH.
Qed.
Lemma interfere_all_set_conversation w c a :
  interfere_all w (set_conversation c a) = set_conversation c (interfere_all w a).
Proof.
  revert a. induction w as [|i w IH]; intros a; [done|].
  by rewrite !interfere_all_cons, interfere_set_conversation, IH.
Qed.

Lemma interfere_all_frame w a :
  ar_lease (interfere_all w a) = ar_lease a ∧ ar_conversationId (interfere_all w a) = ar_conversationId a.
Proof.
  revert a. induction w as [|i w IH]; intros a; [done|]. rewrite interfere_all_cons.
  destruct (IH (interfere i a)) as [-> ->]. destruct i; cbn.
  - unfold requestStop. by destruct (_ || _).
  - unfold sealPersistence. by destruct (ar_sealed a).
Qed.

(** The variables while a call is awaited. *)
Definition world_var (c : command) (w : list interference) (a : ActiveRun) : ActiveRun :=
  interference_of c w a.

Lemma inv_world c w a m : inv a m → inv (world_var c w a) (mo_world c w m).
Proof.
  intros [Hst Hse Hsp Hu Hl Hc Hp]. unfold world_var, interference_of, awaited_interference, mo_world. destruct (awaited c); [|by split].
  destruct (interfere_all_frame w a) as [Fl Fc]. split; cbn.
  - rewrite interfere_all_state, Hst, Hse. done.
  - by rewrite interfere_all_sealed, Hse.
  - intros Hs. apply interfere_all_stop. apply orb_true_iff in Hs as [?|?]; [left; auto|by right].
  - done.
  - by rewrite Fl.
  - by rewrite Fc.
  - done.
Qed.

Lemma done_world c w a m : done a m → done (world_var c w a) (mo_world c w m).
Proof.
  intros [Hl Hc Hp]. unfold world_var, interference_of, awaited_interference, mo_world. destruct (awaited c); [|by split].
  destruct (interfere_all_frame w a) as [Fl Fc]. split; cbn; [by rewrite Fl|by rewrite Fc|done].
Qed.

Lemma progress_world c w m : progress (mo_world c w m) = progress m.
Proof. unfold mo_world. by destruct (awaited c). Qed.
Lemma finished_world c w m : mo_finished (mo_world c w m) = mo_finished m.
Proof. unfold mo_world. by destruct (awaited c). Qed.

(** ** Assertions between statements *)

(** The invariant, the progress made, and which flags are known to be clear. *)
Definition at_ (unsealed unstopped : bool) (p : work) (a : ActiveRun) (m : monitor) : Prop :=
  inv a m ∧ progress m = p ∧ (unsealed = true → mo_sealed m = false) ∧
  (unstopped = true → ar_stopReason a = None).

Lemma at_weaken u v p a m : at_ u v p a m → at_ false false p a m.
Proof. intros (? & ? & _ & _). by split_and!. Qed.
Lemma at_unstopped u p a m : at_ u true p a m → mo_stop m = false.
Proof.
  intros (Hi & _ & _ & Hn). destruct (mo_stop m) eqn:E; [|done].
  destruct (inv_stop _ _ Hi E) as [x Hx]. rewrite Hn in Hx; done.
Qed.

(** ** The statements of [#execute] *)

Notation At := at_.

Lemma sync_unless_sealed u v p : sync (At u v p) unless_sealed (λ _, At true v p).
Proof.
  unfold unless_sealed. eapply spec_bind; [apply spec_get|]. intros x.
  destruct (ar_sealed x) eqn:E; [apply spec_return|apply spec_ret]; intros a m [(Hi & Hp & _ & Hv) ->].
  - by apply inv_done.
  - split_and!; try done. intros _. by rewrite <-(inv_sealed _ _ Hi).
Qed.

(** What an outcome needs. *)
Definition outcome_ok (m : monitor) (status : JobRunStatus) (code : option ErrorCode) : Prop :=
  match status with
  | Queued | Running => False
  | Succeeded => code = None ∧ pre_done m ∧ mo_prompt m = true ∧ post_done m ∧ mo_stop m = false
  | _ => is_Some code
  end.

Lemma mutation_allowed c a m :
  inv a m → mo_sealed m = false →
  (∀ j r v, mutates c = Some (j, r, v) → j = js_id job ∧ r = rs_id (ar_state a) ∧ v = rs_revision (ar_state a)) →
  (persists c = true → mo_sealed m = false) ∧
  (∀ j r v, mutates c = Some (j, r, v) →
     mo_finished m = false ∧ j = js_id job ∧ r = rs_id (mo_state m) ∧ v = rs_revision (mo_state m)).
Proof.
  intros Hi Hs Hm. split; [done|]. intros j r v Hc. destruct (Hm _ _ _ Hc) as (-> & -> & ->).
  by rewrite (inv_state _ _ Hi), (inv_unfinished _ _ Hi).
Qed.

(** Storing a returned state. *)
Lemma inv_with_state s a m : inv a m → inv (set_state s a) (with_state s false m).
Proof. intros []. split; cbn; try done. by rewrite orb_false_r. Qed.
Lemma done_with_state s b a a' m :
  inv a m → ar_lease a' = ar_lease a → ar_conversationId a' = ar_conversationId a → done a' (with_state s b m).
Proof. intros [] Hl Hc. split; cbn; [congruence..|done]. Qed.

Lemma sync_finish status code phase p :
  sync (λ a m, At false false p a m ∧ outcome_ok m status code)
    (finish job status code phase) (λ _, done).
Proof.
  intros a m [(Hi & Hp & _) Hok].
  unfold finish, publish, call_ok, call_, lift_, modify_, get_, return_, throw_, mbind, stmt_bind, mret, stmt_ret.
  cbn. destruct (ar_sealed a) eqn:Es; cbn; [by apply inv_done|].
  assert (Hs : mo_sealed m = false) by by rewrite <-(inv_sealed _ _ Hi). split.
  - destruct (mutation_allowed (FinishRun (js_id job) (rs_id (ar_state a)) status phase code
      (rs_revision (ar_state a))) a m Hi Hs) as [H1 H2].
    { intros j r v [= <- <- <-]. done. }
    split_and!; [done|done|]. by destruct status.
  - intros [s|e] w; cbn.
    + split; [split_and!; done|]. intros _ w'. cbn. by apply (done_with_state s true a).
    + destruct (is_app_error JOB_BUSY e); cbn; [|done]. split; [split_and!; done|].
      intros [s|e'] w'; cbn; [|done].
      destruct (is_terminal (rs_status s)); cbn; [|done]. by apply (done_with_state s true a).
Qed.

Lemma sync_return_finish {A} status code phase p (Q : A → ActiveRun → monitor → Prop) :
  sync (λ a m, At false false p a m ∧ outcome_ok m status code) (return_finish job status code phase) Q.
Proof.
  unfold return_finish. eapply spec_bind; [apply sync_finish|]. intros s. apply spec_return. done.
Qed.

Lemma sync_finishStopped {A} phase u v p (Q : A → ActiveRun → monitor → Prop) :
  sync (At u v p) (finishStopped job phase) Q.
Proof.
  unfold finishStopped. eapply spec_bind; [apply spec_get|]. intros x.
  destruct (bool_decide _); (eapply spec_pre; [|apply (sync_return_finish _ _ _ p)]);
    intros a m [Ha _]; (split; [by eapply at_weaken|by eexists]).
Qed.

Lemma sync_unless_stopped phase u v p : sync (At u v p) (unless_stopped job phase) (λ _, At u true p).
Proof.
  unfold unless_stopped. eapply spec_bind; [apply spec_get|]. intros x.
  destruct (bool_decide_reflect (is_Some (ar_stopReason x))) as [Hs|Hs].
  - eapply spec_pre; [|apply (sync_finishStopped _ u v p)]. by intros a m [Ha _].
  - apply spec_ret. intros a m [(Hi & Hp & Hu & _) ->]. split_and!; try done. intros _.
    by apply eq_None_not_Some.
Qed.

Lemma spec_unless_sealed u v p : spec (At u v p) unless_sealed (λ _, At true v p).
Proof. apply sync_spec, sync_unless_sealed. Qed.
Lemma spec_return_finish {A} status code phase p (Q : A → ActiveRun → monitor → Prop) :
  spec (λ a m, At false false p a m ∧ outcome_ok m status code) (return_finish job status code phase) Q.
Proof. apply sync_spec, sync_return_finish. Qed.
Lemma spec_finishStopped {A} phase u v p (Q : A → ActiveRun → monitor → Prop) :
  spec (At u v p) (finishStopped job phase) Q.
Proof. apply sync_spec, sync_finishStopped. Qed.
Lemma spec_unless_stopped phase u v p : spec (At u v p) (unless_stopped job phase) (λ _, At u true p).
Proof. apply sync_spec, sync_unless_stopped. Qed.

(** A mutation of the stored attempt whose returned state becomes current. *)
Lemma spec_mutation c v p (f : answer c → result thrown JobRunState) :
  (∀ r m, mo_answer c r m = match f r with Ok s => with_state s false m | Err _ => m end) →
  awaited c = false → persists c = true →
  spec (λ a m, At true v p a m ∧ mo_allowed m c) (call_ok c f)
    (λ s a m, At true v p (set_state s a) m).
Proof.
  intros Hf Ha Hp a m [(Hi & Hpr & Hu & Hv) Hal].
  unfold call_ok, call_, lift_, throw_, mbind, stmt_bind, mret, stmt_ret. cbn. split; [done|]. intros r w.
  unfold mo_next, mo_world, interference_of, awaited_interference. cbn [ev_call ev_world ev_answer]. rewrite Ha, Hf.
  destruct (f r) as [s|e]; cbn; [|done]. split_and!; [by apply inv_with_state|done..].
Qed.

Lemma spec_publish s P : spec P (publish s) (λ _, P).
Proof. apply (rule_call (Publish s)). intros a m Ha. split; [split_and!; done|done]. Qed.

Ltac bind_get x := eapply spec_bind; [apply spec_get|intros x].

Lemma mutation_ok c a m v p :
  At true v p a m →
  (∀ j r z, mutates c = Some (j, r, z) → j = js_id job ∧ r = rs_id (ar_state a) ∧ z = rs_revision (ar_state a)) →
  match c with
  | StartRun _ _ _ _ | SetRunPhase _ _ _ _ | AttachConversation _ _ _ _ | RecordHookResult _ _ _ _ _ _ _ => True
  | _ => False
  end → mo_allowed m c.
Proof.
  intros (Hi & _ & Hu & _) Hm Hc. destruct (mutation_allowed c a m Hi (Hu eq_refl) Hm) as [H1 H2].
  destruct c; try done; split_and!; done.
Qed.

Lemma spec_enter_phase phase v p : spec (At true v p) (enter_phase job phase) (λ _, At true v p).
Proof.
  unfold enter_phase. bind_get x.
  eapply spec_bind; [eapply spec_pre; [|by apply spec_mutation]|].
  - intros a m [Ha ->]. split; [done|]. apply (mutation_ok _ a m v p Ha); [|done]. intros j r z [= <- <- <-]. done.
  - intros s. eapply spec_bind; [apply (spec_modify _ _ (λ _, At true v p)); auto|intros ?].
    eapply spec_bind; [apply spec_publish|]. intros ?. apply spec_unless_sealed.
Qed.

Lemma spec_recordHook hook res v p : spec (At true v p) (recordHook job hook res) (λ _, At true v p).
Proof.
  unfold recordHook. bind_get x.
  eapply spec_bind; [eapply spec_pre; [|by apply spec_mutation]|].
  - intros a m [Ha ->]. split; [done|]. apply (mutation_ok _ a m v p Ha); [|done]. intros j r z [= <- <- <-]. done.
  - intros s. eapply spec_bind; [apply spec_publish|]. intros ?. by apply spec_modify.
Qed.

Lemma spec_adoptHookStop res u v p : spec (At u v p) (adoptHookStop res) (λ _, At u false p).
Proof.
  apply spec_modify. intros a m (Hi & Hp & Hu & _).
  destruct (ar_stopReason a); [by split_and!|].
  destruct (bool_decide _); [|destruct (bool_decide _); [|by split_and!]];
    (split_and!; [destruct Hi; split; cbn; eauto|done..]).
Qed.

(** After an awaited call nothing is known of the flags. *)
Lemma at_world c r w a m p :
  inv a (mo_answer c r m) → progress (mo_answer c r m) = p →
  At false false p (world_var c w a) (mo_next m (Event c r w)).
Proof.
  intros Hi Hp. split_and!; try done; unfold mo_next; cbn [ev_call ev_world ev_answer].
  - by apply inv_world.
  - by rewrite progress_world.
Qed.

Lemma inv_with_work pre prompt post a m : inv a m → inv a (with_work pre prompt post m).
Proof. intros []. by split. Qed.

(** Whether a hook may run, and the progress its success makes. *)
Definition hook_ready (hook : hook_kind) (p : work) : Prop :=
  let '(lease, conversation, pre, prompt, post) := p in
  match hook with HookPre => (∃ l, lease = Held l) ∧ pre = false | HookPost => prompt = true end.
Definition hook_done (hook : hook_kind) (ok : bool) (p : work) : work :=
  let '(lease, conversation, pre, prompt, post) := p in
  match hook with
  | HookPre => (lease, conversation, pre || ok, prompt, post)
  | HookPost => (lease, conversation, pre, prompt, post || ok)
  end.

Lemma spec_runHook policy path hook p :
  hook_ready hook p →
  spec (At true true p)
    (runHook job policy path (match hook with HookPre => PreHook | HookPost => PostHook end))
    (λ res, At false false (hook_done hook (hook_succeeded res) p)).
Proof.
  intros Hr. unfold runHook. bind_get x. unfold call_ok. eapply spec_bind.
  { apply (rule_call (RunHook (hook_input job policy path _ x)) _ (λ r a m, At false false
      (match r with Ok res => hook_done hook (hook_succeeded res) p | Err _ => p end) a m)).
    intros a m [Ha ->]. pose proof Ha as (Hi & Hp & Hu & Hv). split.
    - split_and!; [done|done|by apply Hu|]. unfold progress in Hp.
      destruct p as [[[[lease conv] pre] prompt] post]. simplify_eq.
      destruct hook; cbn in Hr |- *; [by destruct Hr|]. split; [done|]. by apply (at_unstopped _ _ _ _ Ha).
    - intros [res|e] w; apply at_world; cbn; [by apply inv_with_work| |done|done].
      unfold progress in *. destruct p as [[[[lease conv] pre] prompt] post]. simplify_eq.
      destruct hook; cbn; by rewrite !orb_false_r. }
  intros [res|e]; [by apply spec_ret|]. apply spec_throw. by intros a m (Hi & _).
Qed.

Lemma spec_hook_phase policy path hook p :
  hook_ready hook p →
  spec (At true true p) (hook_phase job policy path hook) (λ _, At true true (hook_done hook true p)).
Proof.
  intros Hr. unfold hook_phase. eapply spec_bind.
  { apply (rule_call (ValidateForRun path policy) _ (λ _, At true true p)).
    intros a m Ha. split; [split_and!; done|done]. }
  intros [canonical|e].
  2:{ eapply spec_pre; [|apply (spec_return_finish _ _ _ p)]. intros a m Ha.
      split; [by eapply at_weaken|by eexists]. }
  eapply spec_bind; [by apply (spec_runHook policy canonical hook p)|]. intros res.
  eapply spec_bind; [apply spec_unless_sealed|]. intros ?.
  eapply spec_bind; [apply spec_recordHook|]. intros ?.
  eapply spec_bind; [apply spec_adoptHookStop|]. intros ?.
  eapply spec_bind; [apply spec_unless_stopped|]. intros ?.
  destruct (hook_succeeded res); [by apply spec_ret|].
  eapply spec_pre; [|apply (spec_return_finish _ _ _ (hook_done hook false p))]. intros a m Ha.
  split; [by eapply at_weaken|by eexists].
Qed.

Lemma spec_admit_scripts policy p :
  spec (At true true p) (admit_scripts job policy)
    (λ s a m, At true true p a m ∧ (is_Some s.1 ↔ is_Some (js_preRunScript job)) ∧
                (is_Some s.2 ↔ is_Some (js_postRunScript job))).
Proof.
  assert (Hval : ∀ path, spec (At true true p) (call_ (ValidateForRun path policy)) (λ _, At true true p)).
  { intros path. apply (rule_call (ValidateForRun path policy)). intros a m Ha. split; [split_and!; done|done]. }
  assert (Hblock : ∀ e ph (Q : option string * option string → ActiveRun → monitor → Prop),
    spec (At true true p) (return_finish job Blocked (Some (safeErrorCode e JOB_SCRIPT_UNAVAILABLE)) ph) Q).
  { intros. eapply spec_pre; [|apply (spec_return_finish _ _ _ p)]. intros a m Ha.
    split; [by eapply at_weaken|by eexists]. }
  unfold admit_scripts.
  apply spec_bind with (Q := λ r a m, At true true p a m ∧
    match r with Ok s => is_Some s ↔ is_Some (js_preRunScript job) | Err _ => True end).
  { destruct (js_preRunScript job) as [path|]; [|apply spec_ret; by intros].
    eapply spec_bind; [apply Hval|]. intros [s|e]; apply spec_ret; intros a m Ha; (split; [done|]).
    - split; by eexists.
    - done. }
  intros [pre|e]; [|eapply spec_pre; [|apply Hblock]; by intros a m [Ha _]].
  destruct (js_postRunScript job) as [path|].
  - eapply spec_bind.
    { apply (rule_call (ValidateForRun path policy) _ (λ _ a m, At true true p a m ∧ (is_Some pre ↔ is_Some (js_preRunScript job)))).
      intros a m Ha. split; [split_and!; done|done]. }
    intros [post|e]; [|eapply spec_pre; [|apply Hblock]; by intros a m [Ha _]].
    apply spec_ret. intros a m [Ha Hpre]. split_and!; [apply Ha..|done|]. split; by eexists.
  - apply spec_ret. by intros a m [Ha Hpre].
Qed.

Lemma spec_lift {A} (r : result thrown A) u v p : spec (At u v p) (lift_ r) (λ _, At u v p).
Proof. destruct r; [by apply spec_ret|]. apply spec_throw. by intros a m (Hi & _). Qed.

Definition initial_work : work := (NoLease, NoConversation, false, false, false).

Lemma spec_reserve :
  spec (At true true initial_work) (reserve job)
    (λ _ a m, ∃ l, At false false (Held l, NoConversation, false, false, false) a m).
Proof.
  unfold reserve. eapply spec_bind.
  { apply (rule_call ReserveRuntimeCapacity _ (λ r a m,
      match r with
      | Ok l => At false false (Held l, NoConversation, false, false, false) (set_lease (Some l) a) m
      | Err _ => At false false initial_work a m
      end)).
    intros a m (Hi & Hp & _). unfold progress, initial_work in Hp. simplify_eq. split; [split_and!; done|].
    intros [l|e] w; [|apply at_world; cbn; [done|unfold progress, initial_work; congruence]].
    cbn [awaited]. rewrite <-interfere_all_set_lease.
    apply (at_world ReserveRuntimeCapacity (Ok l)); cbn.
    - destruct Hi. split; cbn; try done. intros c Hc. congruence.
    - unfold progress; cbn. congruence. }
  intros [l|e]; [apply spec_modify; by eauto|].
  eapply spec_bind; [apply spec_unless_sealed|]. intros ?. bind_get y.
  destruct (bool_decide _ || _).
  - eapply spec_pre; [|apply (spec_finishStopped _ true false initial_work)]. by intros a m [Ha _].
  - eapply spec_pre; [|apply (spec_return_finish _ _ _ initial_work)]. intros a m [Ha _].
    split; [by eapply at_weaken|]. destruct (is_app_error _ _); by eexists.
Qed.

Lemma spec_create_conversation policy l pre :
  js_preRunScript job = None ∨ pre = true →
  spec (At true true (Held l, NoConversation, pre, false, false)) (create_conversation job owner policy)
    (λ c a m, At false false (Promoted, Live c, pre, false, false) (set_conversation c a) m).
Proof.
  intros Hpre. unfold create_conversation. bind_get x. eapply spec_bind.
  { apply (rule_call (CreateJobConversation policy owner (default O (ar_lease x))) _ (λ r a m,
      match r with
      | Ok c => At false false (Promoted, Live c, pre, false, false) (set_conversation c (set_lease None a)) m
      | Err _ => At false false (Held l, NoConversation, pre, false, false) a m
      end)).
    intros a m [Ha ->]. pose proof Ha as (Hi & Hp & Hu & Hv). unfold progress in Hp. simplify_eq.
    pose proof (inv_lease _ _ Hi) as Hl. split.
    - split_and!; try done; [by rewrite Hl; destruct (mo_lease m); simplify_eq|by apply Hu|by apply (at_unstopped _ _ _ _ Ha)].
    - intros [c|e] w; [|apply at_world; cbn; [done|unfold progress, initial_work; congruence]].
      cbn [awaited]. rewrite <-interfere_all_set_lease, <-interfere_all_set_conversation.
      apply (at_world (CreateJobConversation _ _ _) (Ok c)); cbn.
      + destruct Hi. by split.
      + unfold progress; cbn. congruence. }
  intros [c|e].
  - eapply spec_bind; [apply (spec_modify _ _ (λ _ a m, At false false (Promoted, Live c, pre, false, false) (set_conversation c a) m))|].
    + done.
    + intros ?. by apply spec_ret.
  - eapply spec_bind; [apply spec_unless_sealed|]. intros ?.
    eapply spec_bind; [apply spec_unless_stopped|]. intros ?.
    eapply spec_pre; [|apply (spec_return_finish _ _ _ (Held l, NoConversation, pre, false, false))].
    intros a m Ha. split; [by eapply at_weaken|by eexists].
Qed.

Lemma spec_prompt_conversation c pre :
  js_preRunScript job = None ∨ pre = true →
  spec (λ a m, At false false (Promoted, Live c, pre, false, false) (set_conversation c a) m)
    (prompt_conversation job owner c) (λ _, At true true (Promoted, Live c, pre, true, false)).
Proof.
  intros Hpre. unfold prompt_conversation.
  set (p := (Promoted, Live c, pre, false, false)).
  eapply spec_bind; [apply (spec_modify _ _ (λ _, At false false p)); done|]. intros ?.
  eapply spec_bind; [apply spec_unless_sealed|]. intros ?. bind_get y.
  eapply spec_bind; [eapply spec_pre; [|by apply spec_mutation]|].
  { intros a m [Ha ->]. split; [done|]. apply (mutation_ok _ a m false p Ha); [|done].
    intros j r z [= <- <- <-]. done. }
  intros s. eapply spec_bind; [apply (spec_modify _ _ (λ _, At true false p)); auto|]. intros ?.
  eapply spec_bind; [apply spec_publish|]. intros ?.
  eapply spec_bind; [apply spec_unless_sealed|]. intros ?.
  eapply spec_bind; [apply spec_lift|]. intros title.
  eapply spec_bind.
  { unfold call_ok. eapply spec_bind; [|intros r; apply spec_lift].
    apply (rule_call (SetJobConversationTitle c owner title) _ (λ _, At false false p)).
    intros a m (Hi & Hp & _). split; [split_and!; done|]. intros r w. by apply at_world. }
  intros ?. eapply spec_bind; [apply spec_unless_sealed|]. intros ?.
  eapply spec_bind; [apply spec_unless_stopped|]. intros ?.
  eapply spec_bind.
  { unfold call_ok. eapply spec_bind.
    - apply (rule_call (RunJobPrompt c owner (js_prompt job)) _ (λ r, At false false
        (Promoted, Live c, pre, match r with Ok PromptSucceeded => true | _ => false end, false))).
      intros a m Ha. pose proof Ha as (Hi & Hp & Hu & Hv). unfold progress, p in Hp. simplify_eq. split.
      + split_and!; try done; [by apply Hu|by apply (at_unstopped _ _ _ _ Ha)].
      + intros r w. destruct r as [[| | |code]|e]; apply at_world; cbn;
          (done || by apply inv_with_work || (unfold progress; cbn; rewrite ?orb_false_r, ?orb_true_r; congruence)).
    - intros r. apply (spec_weaken _ (λ a m, ∃ q, At false false q a m ∧
        q = (Promoted, Live c, pre, match r with Ok PromptSucceeded => true | _ => false end, false)) _ _
        (λ x, At false false (Promoted, Live c, pre, match x with PromptSucceeded => true | _ => false end, false))).
      + intros a m Ha. eauto.
      + intros ? ? ? HQ. exact HQ.
      + destruct r as [pr|err]; [apply spec_ret|apply spec_throw].
        * by intros a m (q & Ha & ->).
        * by intros a m (q & (Hi & _) & _). }
  intros res. eapply spec_bind; [apply spec_unless_sealed|]. intros ?.
  destruct res as [| | |code].
  - apply spec_unless_stopped.
  - eapply spec_bind; [apply spec_unless_stopped|]. intros ?.
    eapply spec_pre; [|apply (spec_return_finish _ _ _ p)]. intros a m Ha. split; [by eapply at_weaken|by eexists].
  - eapply spec_bind; [apply (spec_modify _ _ (λ _, At true false p))|intros ?; apply (spec_finishStopped _ true false p)].
    intros a m (Hi & Hp & Hu & _). destruct (ar_stopReason a); [by split_and!|].
    split_and!; [destruct Hi; split; cbn; eauto|done..].
  - eapply spec_bind; [apply spec_unless_stopped|]. intros ?.
    eapply spec_pre; [|apply (spec_return_finish _ _ _ p)]. intros a m Ha. split; [by eapply at_weaken|by eexists].
Qed.

(** *** The whole execution *)

Lemma at_any u v p a m : At u v p a m → ∃ q, At false false q a m.
Proof. intros (? & _). exists (progress m). by split_and!. Qed.

Ltac stopped p := eapply spec_pre; [|apply (spec_return_finish _ _ _ p)];
  intros ? ? ?; split; [by eapply at_weaken|by eexists].

(** The run of an optional hook phase. *)
Lemma spec_pre_phase policy (script : option string) l :
  (is_Some script ↔ is_Some (js_preRunScript job)) →
  spec (At true true (Held l, NoConversation, false, false, false))
    (match script, js_preRunScript job with
     | Some _, Some path => enter_phase job PreHook;; hook_phase job policy path HookPre
     | _, _ => mret tt end)
    (λ _ a m, ∃ pre, At true true (Held l, NoConversation, pre, false, false) a m ∧
       (js_preRunScript job = None ∨ pre = true)).
Proof.
  intros Hs. destruct script as [s|], (js_preRunScript job) as [path|] eqn:E.
  - eapply spec_bind; [apply spec_enter_phase|]. intros ?.
    eapply spec_weaken; [done| |apply spec_hook_phase; cbn; eauto]. cbn. eauto.
  - apply spec_ret. eauto.
  - destruct Hs as [_ [? [=]]]. by eexists.
  - apply spec_ret. eauto.
Qed.

Lemma spec_post_phase policy (script : option string) c pre :
  (is_Some script ↔ is_Some (js_postRunScript job)) →
  spec (At true true (Promoted, Live c, pre, true, false))
    (match script, js_postRunScript job with
     | Some _, Some path =>
         enter_phase job PostHook;; unless_stopped job (Some PostHook);; hook_phase job policy path HookPost
     | _, _ => mret tt end)
    (λ _ a m, ∃ post, At true true (Promoted, Live c, pre, true, post) a m ∧
       (js_postRunScript job = None ∨ post = true)).
Proof.
  intros Hs. destruct script as [s|], (js_postRunScript job) as [path|] eqn:E.
  - eapply spec_bind; [apply spec_enter_phase|]. intros ?.
    eapply spec_bind; [apply spec_unless_stopped|]. intros ?.
    eapply spec_weaken; [done| |apply spec_hook_phase; done]. cbn. eauto.
  - apply spec_ret. eauto.
  - destruct Hs as [_ [? [=]]]. by eexists.
  - apply spec_ret. eauto.
Qed.

Lemma spec_execute_body : spec (At true false initial_work) (execute_body job owner) (λ _, done).
Proof.
  unfold execute_body. bind_get x.
  eapply spec_bind; [eapply spec_pre; [|by apply spec_mutation]|].
  { intros a m [Ha ->]. split; [done|]. apply (mutation_ok _ a m false initial_work Ha); [|done].
    intros j r z [= <- <- <-]. done. }
  intros s. eapply spec_bind; [apply (spec_modify _ _ (λ _, At true false initial_work)); auto|]. intros ?.
  eapply spec_bind; [apply spec_publish|]. intros ?.
  eapply spec_bind; [apply spec_unless_sealed|]. intros ?.
  eapply spec_bind.
  { apply (rule_call (RequireUsable (js_workspaceId job)) _ (λ _, At false false initial_work)).
    intros a m (Hi & Hp & _). split; [split_and!; done|]. intros r w. by apply at_world. }
  intros [usable|e].
  2:{ eapply spec_bind; [apply spec_unless_sealed|]. intros ?.
      eapply spec_bind; [apply spec_unless_stopped|]. intros ?. stopped initial_work. }
  eapply spec_bind; [apply spec_unless_sealed|]. intros ?.
  eapply spec_bind; [apply spec_unless_stopped|]. intros ?.
  eapply spec_bind; [apply spec_admit_scripts|]. intros [pre post].
  apply spec_bind with (Q := λ _ a m, At true true initial_work a m ∧
    (is_Some pre ↔ is_Some (js_preRunScript job)) ∧ (is_Some post ↔ is_Some (js_postRunScript job))).
  { intros a m (Ha & Hpre & Hpost). eapply wp_mono; [|exact (spec_unless_stopped _ _ _ _ a m Ha)].
    intros [[u|r|e] a'] m'; cbn; auto. }
  intros ?. intros a m (Ha & Hpre & Hpost). cbn in Hpre, Hpost. revert a m Ha.
  match goal with |- ∀ a m, _ → wp _ _ (?s a) m _ => change (spec (At true true initial_work) s (λ _, done)) end.
  eapply spec_bind; [apply spec_reserve|]. intros ?. apply spec_exists. intros l.
  eapply spec_bind; [apply spec_unless_sealed|]. intros ?.
  eapply spec_bind; [apply spec_unless_stopped|]. intros ?.
  eapply spec_bind; [by apply spec_pre_phase|]. intros ?. apply spec_exists. intros ok.
  intros a m [Ha Hok]. revert a m Ha.
  match goal with |- ∀ a m, _ → wp _ _ (?s a) m _ =>
    change (spec (At true true (Held l, NoConversation, ok, false, false)) s (λ _, done)) end.
  eapply spec_bind; [apply spec_enter_phase|]. intros ?.
  eapply spec_bind; [apply spec_unless_stopped|]. intros ?.
  eapply spec_bind; [by apply spec_create_conversation|]. intros c.
  eapply spec_bind; [by apply spec_prompt_conversation|]. intros ?.
  eapply spec_bind; [by apply spec_post_phase|]. intros ?. apply spec_exists. intros okpost.
  eapply spec_pre; [|apply (spec_return_finish _ _ _ (Promoted, Live c, ok, true, okpost))].
  intros a m [Ha Hpost']. pose proof Ha as (_ & Hp & _). unfold progress in Hp. simplify_eq.
  split; [by eapply at_weaken|]. split_and!; [done|done|done|done|]. by apply (at_unstopped _ _ _ _ Ha).
Qed.

Lemma spec_execute_catch e : spec inv (execute_catch job e) (λ _, done).
Proof.
  unfold execute_catch. apply (spec_try (T := unsealed)).
  - eapply spec_pre with (P' := λ a m, ∃ p, At false false p a m).
    { intros a m Hi. exists (progress m). by split_and!. }
    intros a m [p Hp]. revert a m Hp.
    match goal with |- ∀ a m, _ → wp _ _ (?s a) m _ => change (sync (At false false p) s (λ _, done)) end.
    eapply spec_bind; [apply sync_unless_sealed|]. intros ?.
    eapply spec_bind; [apply sync_unless_stopped|]. intros ?. bind_get y.
    eapply spec_pre; [|apply (sync_return_finish _ _ _ p)]. intros a m [Ha _].
    split; [by eapply at_weaken|by eexists].
  - intros fe.
    assert (Hie : ∀ x, spec unsealed (call_ (InternalError x)) (λ _, unsealed)).
    { intros x. apply (rule_call (InternalError x)). intros a m Ha. split; [split_and!; done|done]. }
    eapply spec_bind; [apply Hie|]. intros ?. eapply spec_bind; [apply Hie|]. intros ?. bind_get y.
    unfold call_ok. apply spec_bind with (Q := λ _, done).
    { eapply spec_bind.
      - apply (rule_call (GetRun (js_id job) (rs_id (ar_state y))) _ (λ r a m, done a m ∧ (∀ e, r = Err e → inv a m))).
        intros a m [[Hi Hu] ->]. split; [split_and!; done|]. intros [s|x'] w; cbn.
        + split; [|done]. destruct (is_terminal _); [by apply (done_with_state s true a)|by apply inv_done].
        + split; [by apply inv_done|done].
      - intros r. destruct r as [s|x'].
        + apply spec_ret. by intros a m [Ha _].
        + apply spec_throw. intros a m [_ Ha]. by eapply Ha. }
    intros s. by apply spec_return.
Qed.

(** The [finally] block settles the lease and the conversation. *)
Definition settled (m : monitor) : Prop :=
  (∀ l, mo_lease m ≠ Held l) ∧ (∀ c, mo_conversation m ≠ Live c).

Lemma wp_execute_finally a m :
  done a m → wp mo_allowed mo_next (execute_finally owner a) m (λ _ m', settled m').
Proof.
  intros [Hl Hc Hp].
  unfold execute_finally, call_, get_, mbind, stmt_bind, mret, stmt_ret. cbn. rewrite Hl.
  destruct (mo_lease m) as [|l| |] eqn:El; cbn [lease_var]; cbn.
  2:{ split; [split_and!; done|]. intros _ w. cbn. rewrite Hc.
      destruct (mo_conversation m) as [|c|] eqn:Ec; cbn.
      - split; cbn; intros; congruence.
      - specialize (Hp c eq_refl). congruence.
      - by split; cbn; [|rewrite Ec]. }
  all: rewrite Hc; destruct (mo_conversation m) as [|c|] eqn:Ec; cbn;
    try (split; intros; congruence).
  all: try (specialize (Hp c eq_refl); congruence).
  split; [split_and!; done|]. intros [u|e] w; cbn; [|split; [split_and!; done|intros _ w'; cbn]].
  all: split; cbn; intros; congruence.
Qed.

Lemma wp_execute a m :
  At true false initial_work a m →
  wp mo_allowed mo_next (execute job owner a) m (λ _ m', settled m').
Proof.
  intros Ha. unfold execute, finally_. apply wp_bind.
  eapply wp_mono; [|exact (spec_try _ _ _ _ spec_execute_body spec_execute_catch a m Ha)].
  intros [o a'] m' Hd. assert (Hdone : done a' m') by (destruct o; [done|done|by apply inv_done]).
  apply wp_bind. eapply wp_mono; [|by apply wp_execute_finally]. intros [o' a''] m''. done.
Qed.
End safety.

(** ** Runs *)

Definition fresh_run (state : JobRunState) : ActiveRun :=
  {| ar_state := state; ar_stopReason := None; ar_conversationId := None; ar_sealed := false; ar_lease := None |}.
Definition fresh_monitor (state : JobRunState) : monitor :=
  Monitor state false false false NoLease NoConversation false false false.

(** The calls of an execution against an environment. *)
Definition trace `{IntlData} `{Temporal} job owner state (env : environment answer (list interference))
  : list run_event :=
  (run_prog env [] (execute job owner (fresh_run state))).2.

Lemma trace_respects `{IntlData} `{Temporal} job owner state env :
  respects (mo_allowed job owner) mo_next (fresh_monitor state) (trace job owner state env) ∧
  settled (after_history mo_next (fresh_monitor state) (trace job owner state env)).
Proof.
  assert (Ha : at_ true false initial_work (fresh_run state) (fresh_monitor state)).
  { split_and!; [by split|done..]. }
  pose proof (wp_run (mo_allowed job owner) mo_next (execute job owner (fresh_run state)) (fresh_monitor state) _ env []
    ltac:(by intros [|] ? ? ?) (wp_execute job owner _ _ Ha)) as Hr.
  unfold trace. destruct (run_prog env [] (execute job owner (fresh_run state))) as [a t].
  by destruct Hr as (? & ? & _).
Qed.

Lemma respects_snoc_inv {C} {ans : C → Type} {W G : Type} (allowed : G → C → Prop) (next : G → event ans W → G) g h e :
  respects allowed next g (h ++ [e]) →
  respects allowed next g h ∧ allowed (after_history next g h) (ev_call e).
Proof.
  intros Hr. split; [|by apply (Hr h e [])].
  intros before e' rest ->. apply (Hr before e' (rest ++ [e])%list). by rewrite <-app_assoc.
Qed.

(** *** Silence after sealing *)

Definition sealing (e : run_event) : bool := awaited (ev_call e) && existsb is_sealed (ev_world e).
(** No call reaches the database after a sealing. *)
Definition silent_after_seal (t : list run_event) : bool :=
  (fix go (sealed : bool) (t : list run_event) :=
     match t with
     | [] => true
     | e :: t => negb (sealed && persists (ev_call e)) && go (sealed || sealing e) t
     end) false t.

Lemma mo_next_sealed m e : mo_sealed (mo_next m e) = mo_sealed m || sealing e.
Proof.
  destruct e as [c r w]. unfold mo_next, sealing. cbn [ev_call ev_answer ev_world].
  assert (Ha : mo_sealed (mo_answer c r m) = mo_sealed m).
  { destruct c; cbn; try done; destruct r as [r|]; try done; try (by destruct (is_terminal _)); by destruct r. }
  unfold mo_world. destruct (awaited c); cbn; rewrite Ha; [done|by rewrite orb_false_r].
Qed.

(** *** Leases and conversations *)

Definition reserves (e : run_event) : nat :=
  match e with Event ReserveRuntimeCapacity (Ok _) _ => 1 | _ => 0 end.
Definition promotes (e : run_event) : nat :=
  match e with Event (CreateJobConversation _ _ _) (Ok _) _ => 1 | _ => 0 end.
Definition releases (e : run_event) : nat :=
  match e with Event (ReleaseLease _) _ _ => 1 | _ => 0 end.
Definition closes (e : run_event) : nat :=
  match e with Event (ReleaseJobConversation _ _) _ _ => 1 | _ => 0 end.
Definition total (f : run_event → nat) (t : list run_event) : nat := list_sum (f <$> t).

(** The counts behind a status. *)
Definition lease_counts (l : lease_status) : nat * nat * nat :=
  match l with NoLease => (0, 0, 0) | Held _ => (1, 0, 0) | Promoted => (1, 1, 0) | Released => (1, 0, 1) end%nat.
Definition conversation_counts (c : conversation_status) : nat * nat :=
  match c with NoConversation => (0, 0) | Live _ => (1, 0) | Gone => (1, 1) end%nat.

Lemma mo_world_lease c w m : mo_lease (mo_world c w m) = mo_lease m ∧ mo_conversation (mo_world c w m) = mo_conversation m.
Proof. unfold mo_world. by destruct (awaited c). Qed.

Lemma total_snoc f t e : total f (t ++ [e]) = (total f t + f e)%nat.
Proof. unfold total. rewrite fmap_app, list_sum_app. cbn. lia. Qed.

Lemma counts_step `{IntlData} `{Temporal} job owner m e :
  mo_allowed job owner m (ev_call e) →
  let '(a, b, c) := lease_counts (mo_lease m) in
  let '(x, y) := conversation_counts (mo_conversation m) in
  lease_counts (mo_lease (mo_next m e)) = (a + reserves e, b + promotes e, c + releases e)%nat ∧
  conversation_counts (mo_conversation (mo_next m e)) = (x + promotes e, y + closes e)%nat.
Proof.
  destruct e as [c r w]. unfold mo_next. cbn [ev_call ev_answer ev_world]. intros (_ & _ & Hal).
  destruct (mo_world_lease c w (mo_answer c r m)) as [-> ->].
  assert (Hid : ∀ (n : nat), (n + 0)%nat = n) by (intros; lia).
  destruct c; cbn in *; try (destruct r as [r|err]); cbn; rewrite ?Hid;
    try (destruct (is_terminal _)); try (destruct r); cbn;
    try (destruct Hal as (? & El & Ec & _)); try (destruct Hal as (Ec & El)); try rewrite El; try rewrite Ec;
    try rewrite Hal; cbn;
    try (destruct (mo_lease m), (mo_conversation m); done).
Qed.

Lemma counts_trace `{IntlData} `{Temporal} job owner m0 t :
  mo_lease m0 = NoLease → mo_conversation m0 = NoConversation →
  respects (mo_allowed job owner) mo_next m0 t →
  lease_counts (mo_lease (after_history mo_next m0 t)) = (total reserves t, total promotes t, total releases t) ∧
  conversation_counts (mo_conversation (after_history mo_next m0 t)) = (total promotes t, total closes t).
Proof.
  intros Hl Hc. induction t as [|e t IH] using rev_ind; intros Hr.
  - cbn. by rewrite Hl, Hc.
  - apply respects_snoc_inv in Hr as [Hr Hal]. destruct (IH Hr) as [E1 E2].
    unfold after_history in *. rewrite fold_left_app. cbn [fold_left].
    pose proof (counts_step job owner _ _ Hal) as Hstep. rewrite E1, E2 in Hstep.
    by rewrite !total_snoc.
Qed.

(** *** What precedes an outcome *)

Definition hook_succeeds (phase : JobRunPhase) (e : run_event) : Prop :=
  match e with
  | Event (RunHook input) (Ok res) _ => hin_phase input = phase ∧ hook_succeeded res = true
  | _ => False
  end.
Definition prompt_succeeds (e : run_event) : Prop :=
  match e with Event (RunJobPrompt _ _ _) (Ok PromptSucceeded) _ => True | _ => False end.
Definition stop_requested (e : run_event) : Prop :=
  awaited (ev_call e) = true ∧ existsb is_stop (ev_world e) = true.

(** What the monitor remembers really happened. *)
Lemma mo_next_work m e :
  (mo_pre (mo_next m e) = true → mo_pre m = true ∨ hook_succeeds PreHook e) ∧
  (mo_post (mo_next m e) = true → mo_post m = true ∨ hook_succeeds PostHook e) ∧
  (mo_prompt (mo_next m e) = true → mo_prompt m = true ∨ prompt_succeeds e) ∧
  (mo_stop (mo_next m e) = false → mo_stop m = false ∧ ¬ stop_requested e).
Proof.
  destruct e as [c r w]. unfold mo_next, stop_requested. cbn [ev_call ev_answer ev_world].
  assert (Hw : ∀ m', mo_pre (mo_world c w m') = mo_pre m' ∧ mo_post (mo_world c w m') = mo_post m' ∧
    mo_prompt (mo_world c w m') = mo_prompt m' ∧
    mo_stop (mo_world c w m') = mo_stop m' || (awaited c && existsb is_stop w)).
  { intros m'. unfold mo_world. destruct (awaited c); cbn; [done|by rewrite orb_false_r]. }
  destruct (Hw (mo_answer c r m)) as (-> & -> & -> & ->).
  assert (Hs : mo_stop (mo_answer c r m) = mo_stop m).
  { destruct c; cbn; try done; destruct r as [r|]; try done; try (by destruct (is_terminal _)); by destruct r. }
  rewrite Hs, orb_false_iff. split_and!; [..|intros [-> Hn]; split; [done|]; intros [Ha Hb]; by rewrite Ha, Hb in Hn].
  all: destruct c; cbn; auto; destruct r as [r|]; cbn; auto; try (destruct (is_terminal _); by auto);
    try (destruct r; cbn; rewrite ?orb_false_r; by auto).
  all: rewrite ?orb_false_r; rewrite ?orb_true_iff, ?andb_true_iff, ?bool_decide_eq_true; intuition.
Qed.

Lemma monitor_memory t m0 :
  mo_pre m0 = false → mo_post m0 = false → mo_prompt m0 = false →
  let m := after_history mo_next m0 t in
  (mo_pre m = true → ∃ e, e ∈ t ∧ hook_succeeds PreHook e) ∧
  (mo_post m = true → ∃ e, e ∈ t ∧ hook_succeeds PostHook e) ∧
  (mo_prompt m = true → ∃ e, e ∈ t ∧ prompt_succeeds e) ∧
  (mo_stop m = false → ∀ e, e ∈ t → ¬ stop_requested e).
Proof.
  intros H1 H2 H3. induction t as [|e t IH] using rev_ind.
  - cbn. split_and!; try congruence. by intros _ e He%elem_of_nil.
  - unfold after_history in *. rewrite fold_left_app. cbn [fold_left].
    destruct IH as (I1 & I2 & I3 & I4). destruct (mo_next_work (fold_left mo_next t m0) e) as (W1 & W2 & W3 & W4).
    split_and!.
    + intros [(x & Hx & Hh)%I1|Hh]%W1; [exists x|exists e]; set_solver.
    + intros [(x & Hx & Hh)%I2|Hh]%W2; [exists x|exists e]; set_solver.
    + intros [(x & Hx & Hh)%I3|Hh]%W3; [exists x|exists e]; set_solver.
    + intros [Hs Hn]%W4 x [Hx|Hx]%elem_of_app; [by apply I4|]. by apply list_elem_of_singleton in Hx as ->.
Qed.

(** ** Properties *)

(** C2: once persistence is sealed, while the attempt waits for anything, its
    remaining execution never calls the database again, whatever is answered
    and whatever else happens: the rows the shutdown marked interrupted are not
    touched by a late continuation. *)
Theorem execution_silent_after_seal `{IntlData} `{Temporal} job owner state env :
  silent_after_seal (trace job owner state env) = true.
Proof.
  destruct (trace_respects job owner state env) as [Hr _]. revert Hr. unfold silent_after_seal.
  generalize (trace job owner state env) as t. intros t.
  assert (Hgen : ∀ m, respects (mo_allowed job owner) mo_next m t →
    (fix go (sealed : bool) (t : list run_event) :=
       match t with
       | [] => true
       | e :: t => negb (sealed && persists (ev_call e)) && go (sealed || sealing e) t
       end) (mo_sealed m) t = true).
  { induction t as [|e t IH]; intros m Hr; [done|]. apply andb_true_iff. split.
    - destruct (Hr [] e t eq_refl) as (Hp & _ & _). cbn in Hp.
      destruct (persists (ev_call e)); [by rewrite Hp|by rewrite andb_false_r].
    - rewrite <-mo_next_sealed. apply IH. intros before e' rest ->. by apply (Hr (e :: before) e' rest). }
  apply (Hgen (fresh_monitor state)).
Qed.

(** Every execution settles its resources exactly once, however it ends: it
    reserves capacity at most once; a reserved lease is either promoted into a
    conversation or released, never both and never neither; a created
    conversation is released exactly once. *)
Lemma execution_settles_resources `{IntlData} `{Temporal} job owner state env :
  let t := trace job owner state env in
  (total reserves t ≤ 1)%nat ∧
  total reserves t = (total promotes t + total releases t)%nat ∧
  total promotes t = total closes t.
Proof.
  destruct (trace_respects job owner state env) as [Hr [Hs1 Hs2]]. cbn zeta.
  destruct (counts_trace job owner (fresh_monitor state) _ eq_refl eq_refl Hr) as [E1 E2].
  destruct (mo_lease (after_history mo_next (fresh_monitor state) (trace job owner state env))) as [|l| |];
    destruct (mo_conversation (after_history mo_next (fresh_monitor state) (trace job owner state env))) as [|c|];
    cbn in E1, E2; simplify_eq; try (by destruct (Hs1 l)); try (by destruct (Hs2 c)); lia.
Qed.

(** A deployment in which everything succeeds. *)
Definition sample_state : JobRunState := {|
  st_summary := {| rs_id := "r"; rs_jobId := "j"; rs_trigger := Manual; rs_scheduledFor := 2000;
    rs_startedAt := None; rs_finishedAt := None; rs_status := Running; rs_phase := None;
    rs_errorCode := None; rs_errorMessage := None; rs_conversationId := None; rs_revision := 0;
    rs_createdAt := 2000; rs_updatedAt := 2000 |};
  st_preExitCode := None; st_preStdout := None; st_preStderr := None; st_postExitCode := None;
  st_postStdout := None; st_postStderr := None; st_conversationAvailable := false |}.
Definition sample_summary : JobSummary := {|
  js_id := "j"; js_name := "Nightly"; js_workspaceId := "w"; js_workspaceName := "Work";
  js_workspaceAvailable := true; js_prompt := "do it"; js_schedule := Valid (SchInterval 5 1000);
  js_preRunScript := Some "/pre.sh"; js_postRunScript := None; js_enabled := true;
  js_nextRunAt := Some 301000; js_createdAt := 1000; js_updatedAt := 1000; js_activeRun := None;
  js_lastRun := None; js_configurationIssue := None |}.
Definition sample_policy : RuntimeWorkspacePolicy := {|
  rwp_workspaceId := "w"; rwp_cwd := "/w"; rwp_sessionDirectory := None; rwp_securityProfile := "unrestricted";
  rwp_mounts := None; rwp_networkPolicy := VNull; rwp_networkPolicySetId := ""; rwp_effectiveNetworkPolicySetId := None;
  rwp_networkPolicySet := VNull; rwp_effectiveHttpTools := None; rwp_effectiveConversationTools := None |}.
Definition sample_env : environment answer (list interference) := λ _ c,
  (match c return answer c with
   | StartRun _ _ _ _ | SetRunPhase _ _ _ _ | AttachConversation _ _ _ _
   | RecordHookResult _ _ _ _ _ _ _ | FinishRun _ _ _ _ _ _ | GetRun _ _ => Ok sample_state
   | RequireUsable _ => Ok sample_policy
   | ValidateForRun p _ => Ok p
   | RunHook _ => Ok {| hook_succeeded := true; hook_exitCode := Some 0; hook_signal := None;
                        hook_stdout := ""; hook_stderr := ""; hook_errorCode := None |}
   | ReserveRuntimeCapacity => Ok 1%nat
   | CreateJobConversation _ _ _ => Ok "c"
   | SetJobConversationTitle _ _ _ => Ok tt
   | RunJobPrompt _ _ _ => Ok PromptSucceeded
   | ReleaseJobConversation _ _ => Ok tt
   | ReleaseLease _ | Publish _ | InternalError _ => tt
   end, []).
Definition sample_owner : ConversationOwner := {| owner_jobId := "j"; owner_runId := "r" |}.

(** An attempt is recorded as succeeded only after all of its work
    succeeded and nobody asked it to stop: the pre-run script (if the job has
    one) ran and succeeded, then the prompt completed, then the post-run script
    (if any) ran and succeeded, and no awaited call before it came with a stop
    request. The prompt is sent only after the pre-run script succeeded, and
    the post-run script runs only after the prompt did. *)
Lemma success_means_all_work_done `{IntlData} `{Temporal} job owner state env before e rest :
  trace job owner state env = (before ++ e :: rest)%list →
  match ev_call e with
  | FinishRun _ _ Succeeded _ code _ =>
      code = None ∧
      (js_preRunScript job = None ∨ ∃ x, x ∈ before ∧ hook_succeeds PreHook x) ∧
      (∃ x, x ∈ before ∧ prompt_succeeds x) ∧
      (js_postRunScript job = None ∨ ∃ x, x ∈ before ∧ hook_succeeds PostHook x) ∧
      (∀ x, x ∈ before → ¬ stop_requested x)
  | RunJobPrompt _ _ prompt =>
      prompt = js_prompt job ∧
      (js_preRunScript job = None ∨ ∃ x, x ∈ before ∧ hook_succeeds PreHook x) ∧
      (∀ x, x ∈ before → ¬ stop_requested x)
  | RunHook input => hin_phase input = PostHook → ∃ x, x ∈ before ∧ prompt_succeeds x
  | _ => True
  end.
Proof.
  intros Ht. destruct (trace_respects job owner state env) as [Hr _].
  destruct (Hr before e rest Ht) as (_ & _ & Hal).
  destruct (monitor_memory before (fresh_monitor state) eq_refl eq_refl eq_refl) as (M1 & M2 & M3 & M4).
  destruct (ev_call e) eqn:Ec; try done; cbn in Hal.
  - destruct status; try done. destruct Hal as (? & Hpre & Hprompt & Hpost & Hstop).
    split_and!; [done|destruct Hpre; auto|auto|destruct Hpost; auto|auto].
  - intros Hph. rewrite Hph in Hal. destruct Hal as (_ & Hp & _). auto.
  - destruct Hal as (_ & Hp & _ & Hpre & _ & Hstop & _). split_and!; [done|destruct Hpre; auto|auto].
Qed.

Lemma success_means_all_work_done_witness :
  let I := {| intl_zones := []; formatToParts := λ _ _, Ok [] |} in
  ∃ before e rest, @trace I OneChange.utc sample_summary sample_owner sample_state sample_env
      = (before ++ e :: rest)%list ∧
    (match ev_call e with FinishRun _ _ Succeeded _ _ _ => True | _ => False end) ∧
    ∃ x, x ∈ before ∧ prompt_succeeds x.
Proof.
  intros I.
  set (t := @trace I OneChange.utc sample_summary sample_owner sample_state sample_env).
  assert (E : t = (take 18 t ++ default (Event (InternalError (app_error INTERNAL_ERROR)) tt []) (t !! 18%nat) :: drop 19 t)%list)
    by (vm_compute; reflexivity).
  exists (take 18 t), (default (Event (InternalError (app_error INTERNAL_ERROR)) tt []) (t !! 18%nat)), (drop 19 t).
  pose proof (@success_means_all_work_done I OneChange.utc _ _ _ _ _ _ _ E) as Hw.
  split; [exact E|]. split; [vm_compute; exact Logic.I|].
  assert (Ec : ev_call (default (Event (InternalError (app_error INTERNAL_ERROR)) tt []) (t !! 18%nat))
     = FinishRun "j" "r" Succeeded (Some PromptPhase) None 0) by (vm_compute; reflexivity).
  rewrite Ec in Hw. destruct Hw as (_ & _ & Hp & _). exact Hp.
Defined.

(** Every mutation an execution sends names its own job and attempt, and
    expects exactly the revision of the last state the database returned for it
    (or that the shutdown handed over); and none follows the first recorded
    outcome: an attempt is finished at most once. *)
Lemma execution_threads_revisions `{IntlData} `{Temporal} job owner state env before e rest j r v :
  trace job owner state env = (before ++ e :: rest)%list → mutates (ev_call e) = Some (j, r, v) →
  let known := mo_state (after_history mo_next (fresh_monitor state) before) in
  j = js_id job ∧ r = rs_id known ∧ v = rs_revision known ∧
  mo_finished (after_history mo_next (fresh_monitor state) before) = false.
Proof.
  intros Ht Hm. destruct (trace_respects job owner state env) as [Hr _].
  destruct (Hr before e rest Ht) as (_ & Hmut & _). destruct (Hmut j r v Hm) as (? & ? & ? & ?). auto.
Qed.

Lemma execution_threads_revisions_witness :
  let I := {| intl_zones := []; formatToParts := λ _ _, Ok [] |} in
  ∃ e rest, @trace I OneChange.utc sample_summary sample_owner sample_state sample_env = e :: rest ∧
    mutates (ev_call e) = Some ("j", "r", 0) ∧ "j" = js_id sample_summary.
Proof.
  intros I.
  set (t := @trace I OneChange.utc sample_summary sample_owner sample_state sample_env).
  assert (E : t = ([] ++ default (Event (InternalError (app_error INTERNAL_ERROR)) tt []) (t !! 0%nat) :: drop 1 t)%list)
    by (vm_compute; reflexivity).
  exists (default (Event (InternalError (app_error INTERNAL_ERROR)) tt []) (t !! 0%nat)), (drop 1 t).
  split; [exact E|].
  assert (Em : mutates (ev_call (default (Event (InternalError (app_error INTERNAL_ERROR)) tt []) (t !! 0%nat)))
     = Some ("j", "r", 0)) by (vm_compute; reflexivity).
  split; [exact Em|].
  exact (proj1 (@execution_threads_revisions I OneChange.utc _ _ _ _ _ _ _ _ _ _ E Em)).
Defined.
