(* ===== verification/JobRunnerAdmission.v ===== *)
(** The runner as a whole ([src/server/job-runner.ts]): which attempts are in
    execution, admission, abort, shutdown and the sealing of persistence.
    [JobRunner] models what happens inside one attempt. *)
From S2P Require Import Prelude JsValues Errors Jobs JobRepository JobRunner.
#[local] Open Scope string_scope. #[local] Open Scope Z_scope.

(** ** State *)

(** An [ActiveRun] object with its identity. The job and the owner never change. *)
Record Entry := {
  en_job : JobSummary;
  en_owner : ConversationOwner;
  en_run : ActiveRun;
}.
Definition set_run (a : ActiveRun) (e : Entry) : Entry :=
  {| en_job := en_job e; en_owner := en_owner e; en_run := a |}.

(** The object of a number is in [rn_objects]; both maps refer to objects. *)
(** src/server/job-runner.ts:146-150 JobRunner *)
Record runner := {
  rn_objects : gmap nat Entry;
  rn_byJob : jsmap string nat;
  rn_byKey : jsmap string nat;
  rn_subscribed : bool;
  rn_closed : bool;
  rn_sealed : bool;
}.

Definition new_runner : runner :=
  {| rn_objects := ∅; rn_byJob := []; rn_byKey := []; rn_subscribed := true;
     rn_closed := false; rn_sealed := false |}.

Definition nul : ascii := Ascii.zero.
(** src/server/job-runner.ts:114-116 activeKey *)
Definition activeKey (jobId runId : string) : string := jobId +:+ String nul runId.

(** src/server/job-runner.ts:166-168 activeCount *)
Definition activeCount (r : runner) : Z := Z.of_nat (length (rn_byKey r)).

(** The entry of an object that a map holds. *)
Definition object (r : runner) (t : option nat) : option Entry := t ≫= λ t, rn_objects r !! t.

(** src/server/job-runner.ts:170-173 isActive *)
Definition isActive (r : runner) (jobId : string) (runId : option string) : bool :=
  match object r (map_get jobId (rn_byJob r)) with
  | None => false
  | Some e => match runId with None => true | Some id => bool_decide (rs_id (ar_state (en_run e)) = id) end
  end.

(** ** Operations *)

(** What [run] answers: a rejection, the published state of a claim that is not
    queued, or the object whose execution started. *)
Inductive admitted := Rejected (e : thrown) | NotQueued (run : JobRunState) | Started (t : nat).

Definition new_entry (claim : ClaimedJobRun) (sealed : bool) : Entry := {|
  en_job := claim_job claim;
  en_owner := {| owner_jobId := js_id (claim_job claim); owner_runId := rs_id (claim_run claim) |};
  en_run := {| ar_state := claim_run claim; ar_stopReason := None; ar_conversationId := None;
               ar_sealed := sealed; ar_lease := None |};
|}.

(** src/server/job-runner.ts:176-198 run *)
Definition run (claim : ClaimedJobRun) (r : runner) : admitted * runner :=
  if rn_closed r then (Rejected (app_error SHUTTING_DOWN), r)
  else if negb (bool_decide (rs_status (st_summary (claim_run claim)) = Queued)) then (NotQueued (claim_run claim), r)
  else
    let jobId := js_id (claim_job claim) in
    let key := activeKey jobId (rs_id (claim_run claim)) in
    if map_has jobId (rn_byJob r) || map_has key (rn_byKey r)
    then (Rejected (app_error JOB_ALREADY_RUNNING), r)
    else
      let t := fresh (dom (rn_objects r)) in
      (Started t,
       {| rn_objects := <[t := new_entry claim (rn_sealed r)]> (rn_objects r);
          rn_byJob := map_set jobId t (rn_byJob r); rn_byKey := map_set key t (rn_byKey r);
          rn_subscribed := rn_subscribed r; rn_closed := rn_closed r; rn_sealed := rn_sealed r |}).

(** src/server/job-runner.ts:208-210 dispatch *)
Definition dispatch (claim : ClaimedJobRun) (r : runner) : admitted * runner := run claim r.

(** The [finally] of an execution: [claim] is the one it was started with. *)
(** src/server/job-runner.ts:199-202 completed *)
Definition completed (claim : ClaimedJobRun) (t : nat) (r : runner) : runner :=
  let jobId := js_id (claim_job claim) in
  {| rn_objects := rn_objects r;
     rn_byJob := if bool_decide (map_get jobId (rn_byJob r) = Some t) then map_delete jobId (rn_byJob r) else rn_byJob r;
     rn_byKey := map_delete (activeKey jobId (rs_id (claim_run claim))) (rn_byKey r);
     rn_subscribed := rn_subscribed r; rn_closed := rn_closed r; rn_sealed := rn_sealed r |}.

(** Changes the attempt of an object. *)
Definition update_run (f : ActiveRun → ActiveRun) (t : nat) (r : runner) : runner :=
  {| rn_objects := alter (λ e, set_run (f (en_run e)) e) t (rn_objects r); rn_byJob := rn_byJob r;
     rn_byKey := rn_byKey r; rn_subscribed := rn_subscribed r; rn_closed := rn_closed r; rn_sealed := rn_sealed r |}.

(** The conversation to be aborted in the registry, if the attempt has one. *)
Definition conversation_of (r : runner) (t : nat) : option string :=
  rn_objects r !! t ≫= λ e, ar_conversationId (en_run e).

(** The second component is the conversation the registry is asked to abort;
    a failure of that is reported. *)
(** src/server/job-runner.ts:213-222 abort *)
Definition abort (jobId runId : string) (r : runner) : result thrown (option string) * runner :=
  match map_get (activeKey jobId runId) (rn_byKey r) with
  | None => (Err (app_error JOB_NOT_FOUND), r)
  | Some t => (Ok (conversation_of r t), update_run (requestStop StopAbort) t r)
  end.

(** src/server/job-runner.ts:229-234 stopEach *)
Fixpoint stop_each (ts : list nat) (r : runner) : list string * runner :=
  match ts with
  | [] => ([], r)
  | t :: rest =>
      let r' := update_run (requestStop StopShutdown) t r in
      let '(cs, r'') := stop_each rest r' in
      ((option_list (conversation_of r' t) ++ cs)%list, r'')
  end.

(** The result lists the conversations whose abort is asked for. *)
(** src/server/job-runner.ts:225-235 beginShutdown *)
Definition beginShutdown (r : runner) : list string * runner :=
  if rn_closed r then ([], r)
  else
    let r1 := {| rn_objects := rn_objects r; rn_byJob := rn_byJob r; rn_byKey := rn_byKey r;
                 rn_subscribed := false; rn_closed := true; rn_sealed := rn_sealed r |} in
    stop_each (map_values (rn_byKey r1)) r1.

(** [new Map(interrupted.map(...))]: a later state of the same key wins. *)
Definition adopted (interrupted : list JobRunState) (key : string) : option JobRunState :=
  map_get key (fold_left (λ m s, map_set (activeKey (rs_jobId (st_summary s)) (rs_id (st_summary s))) s m) interrupted []).

(** The flag is the runner's; every object of the model carries a copy. *)
Definition seal_objects (interrupted : list JobRunState) (byKey : jsmap string nat) (os : gmap nat Entry)
  : gmap nat Entry :=
  let adopt os '(key, t) :=
    match adopted interrupted key with
    | None => os
    | Some s => alter (λ e, set_run (set_state s (en_run e)) e) t os
    end in
  (λ e, set_run (sealPersistence None (en_run e)) e) <$> fold_left adopt byKey os.

(** src/server/job-runner.ts:241-249 sealPersistence *)
Definition seal (interrupted : list JobRunState) (r : runner) : runner :=
  if rn_sealed r then r
  else {| rn_objects := seal_objects interrupted (rn_byKey r) (rn_objects r); rn_byJob := rn_byJob r;
          rn_byKey := rn_byKey r; rn_subscribed := rn_subscribed r; rn_closed := rn_closed r; rn_sealed := true |}.

(** The result lists the executions [dispose] waits for. *)
(** src/server/job-runner.ts:251-258 dispose *)
Definition dispose (r : runner) : list nat * runner :=
  let r' := (beginShutdown r).2 in
  (map_values (rn_byKey r'), r').

(** ** The runner with its executions *)

(** The executions that have started and not completed, with their claims. *)
Definition executing : Type := jsmap nat ClaimedJobRun.

Inductive runner_op :=
| RunOp (claim : ClaimedJobRun)
| CompleteOp (t : nat)
| ProgressOp (t : nat) (a : ActiveRun)
| AbortOp (jobId runId : string)
| ShutdownOp
| SealOp (interrupted : list JobRunState).

(** What an execution may do to its own attempt ([JobRunner]): a stop reason it
    finds stays, and the sealing flag is not its to change. *)
Definition advances (a a' : ActiveRun) : Prop :=
  (∀ s, ar_stopReason a = Some s → ar_stopReason a' = Some s) ∧ ar_sealed a' = ar_sealed a.

Definition apply_op (op : runner_op) (x : runner * executing) : runner * executing :=
  let '(r, ex) := x in
  match op with
  | RunOp claim =>
      match run claim r with
      | (Started t, r') => (r', map_set t claim ex)
      | (_, r') => (r', ex)
      end
  | CompleteOp t =>
      match map_get t ex with
      | Some claim => (completed claim t r, map_delete t ex)
      | None => (r, ex)
      end
  | ProgressOp t a => (update_run (λ _, a) t r, ex)
  | AbortOp jobId runId => ((abort jobId runId r).2, ex)
  | ShutdownOp => ((beginShutdown r).2, ex)
  | SealOp interrupted => (seal interrupted r, ex)
  end.

Definition may_apply (op : runner_op) (x : runner * executing) : Prop :=
  match op with
  | ProgressOp t a => ∃ e, rn_objects x.1 !! t = Some e ∧ advances (en_run e) a
  | _ => True
  end.

Inductive reachable : runner * executing → Prop :=
| reachable_new : reachable (new_runner, [])
| reachable_step x op : reachable x → may_apply op x → reachable (apply_op op x).

(** *** The invariant *)
Definition claim_key (c : ClaimedJobRun) : string := activeKey (js_id (claim_job c)) (rs_id (claim_run c)).

Record admission_inv (r : runner) (ex : executing) : Prop := {
  ai_ok : map_ok (rn_byJob r) ∧ map_ok (rn_byKey r) ∧ map_ok ex;
  ai_maps t c : map_get t ex = Some c →
    map_get (js_id (claim_job c)) (rn_byJob r) = Some t ∧ map_get (claim_key c) (rn_byKey r) = Some t ∧
    is_Some (rn_objects r !! t);
  ai_job j t : map_get j (rn_byJob r) = Some t → ∃ c, map_get t ex = Some c ∧ js_id (claim_job c) = j;
  ai_key k t : map_get k (rn_byKey r) = Some t → ∃ c, map_get t ex = Some c ∧ claim_key c = k;
  ai_stopped t e : rn_closed r = true → t ∈ map_values (rn_byKey r) → rn_objects r !! t = Some e →
    ar_stopReason (en_run e) = Some StopShutdown;
  ai_sealed t e : rn_objects r !! t = Some e → ar_sealed (en_run e) = rn_sealed r;
}.

Lemma map_values_get {K A} `{EqDecision K} (m : jsmap K A) a :
  map_ok m → a ∈ map_values m ↔ ∃ k, map_get k m = Some a.
Proof.
  intros Hm. unfold map_values. rewrite list_elem_of_fmap. split.
  - intros ([k a'] & -> & Hin). exists k. by apply map_get_in.
  - intros [k Hk]. exists (k, a). split; [done|]. by apply map_get_in.
Qed.

Lemma inv_new : admission_inv new_runner [].
Proof. split; try done. repeat split; apply NoDup_nil_2. Qed.

(** Operations that only change attempts keep the maps. *)
Lemma inv_objects r r' ex :
  admission_inv r ex →
  rn_byJob r' = rn_byJob r → rn_byKey r' = rn_byKey r → dom (rn_objects r') = dom (rn_objects r) →
  (∀ t e, rn_closed r' = true → t ∈ map_values (rn_byKey r) → rn_objects r' !! t = Some e →
     ar_stopReason (en_run e) = Some StopShutdown) →
  (∀ t e, rn_objects r' !! t = Some e → ar_sealed (en_run e) = rn_sealed r') →
  admission_inv r' ex.
Proof.
  intros [Hok Hm Hj Hk _ _] Ej Ek Ed Hs Hse. split; rewrite ?Ej, ?Ek; try done.
  intros t c Hc. destruct (Hm t c Hc) as (? & ? & ?). split_and!; [done..|].
  by rewrite <-elem_of_dom, Ed, elem_of_dom.
Qed.

Lemma run_not_started claim r a r' :
  run claim r = (a, r') → match a with Started _ => True | _ => r' = r end.
Proof.
  unfold run. destruct (rn_closed r); [by intros [= <- <-]|]. destruct (negb _); [by intros [= <- <-]|].
  destruct (_ || _); by intros [= <- <-].
Qed.

Lemma run_started claim r t r' :
  run claim r = (Started t, r') →
  t = fresh (dom (rn_objects r)) ∧ rn_objects r' = <[t := new_entry claim (rn_sealed r)]> (rn_objects r).
Proof.
  unfold run. destruct (rn_closed r); [done|]. destruct (negb _); [done|].
  destruct (_ || _); [done|]. by intros [= <- <-].
Qed.

Lemma inv_run claim r ex r' t :
  admission_inv r ex → run claim r = (Started t, r') → admission_inv r' (map_set t claim ex).
Proof.
  intros [[Hok1 [Hok2 Hok3]] Hm Hj Hk Hs Hse] Hr. unfold run in Hr.
  destruct (rn_closed r) eqn:Ec; [done|]. destruct (negb _); [done|].
  destruct (map_has _ _ || map_has _ _) eqn:Eh; [done|]. injection Hr as <- <-.
  set (t := fresh (dom (rn_objects r))).
  assert (Ht : rn_objects r !! t = None) by (apply not_elem_of_dom, is_fresh).
  apply orb_false_iff in Eh as [Ej Ek]. unfold map_has in Ej, Ek. breflect.
  assert (Hnew : ∀ t' c, map_get t' ex = Some c → t' ≠ t).
  { intros t' c Hc ->. destruct (Hm _ _ Hc) as (_ & _ & [e He]). congruence. }
  split; cbn [rn_byJob rn_byKey rn_objects rn_closed rn_sealed].
  - split_and!; by apply map_ok_set.
  - intros t' c. rewrite map_get_set. case_decide as E.
    + intros [= <-]. subst t'. rewrite !map_get_set, !decide_True by done. split_and!; [done..|].
      by rewrite lookup_insert_eq.
    + intros Hc. destruct (Hm _ _ Hc) as (H1 & H2 & H3).
      rewrite !map_get_set, !decide_False, lookup_insert_ne by (intros H'; rewrite ?H' in *; eauto).
      done.
  - intros j t'. rewrite map_get_set. case_decide as E.
    + intros [= <-]. exists claim. by rewrite map_get_set, decide_True.
    + intros Hc. destruct (Hj _ _ Hc) as (c & H1 & H2). exists c. rewrite map_get_set, decide_False; [done|]. by eapply Hnew.
  - intros k t'. rewrite map_get_set. case_decide as E.
    + intros [= <-]. exists claim. by rewrite map_get_set, decide_True.
    + intros Hc. destruct (Hk _ _ Hc) as (c & H1 & H2). exists c. rewrite map_get_set, decide_False; [done|]. by eapply Hnew.
  - intros t' e Hc. congruence.
  - intros t' e. rewrite lookup_insert_Some. intros [[<- <-]|[_ He]]; [done|]. by eapply Hse.
Qed.

Lemma inv_completed claim t r ex :
  admission_inv r ex → map_get t ex = Some claim → admission_inv (completed claim t r) (map_delete t ex).
Proof.
  intros [[Hok1 [Hok2 Hok3]] Hm Hj Hk Hs Hse] Ht. destruct (Hm _ _ Ht) as (Htj & Htk & _).
  unfold completed. rewrite bool_decide_eq_true_2 by done. fold (claim_key claim).
  split; cbn [rn_byJob rn_byKey rn_objects rn_closed rn_sealed].
  - split_and!; by apply map_ok_delete.
  - intros t' c. rewrite map_get_delete by done. case_decide as E; [done|]. intros Hc.
    destruct (Hm _ _ Hc) as (H1 & H2 & H3). rewrite !map_get_delete, !decide_False by (done || congruence). done.
  - intros j t'. rewrite map_get_delete by done. case_decide as E; [done|]. intros Hc.
    destruct (Hj _ _ Hc) as (c & H1 & <-). exists c. rewrite map_get_delete, decide_False by congruence. done.
  - intros k t'. rewrite map_get_delete by done. case_decide as E; [done|]. intros Hc.
    destruct (Hk _ _ Hc) as (c & H1 & <-). exists c. rewrite map_get_delete, decide_False by congruence. done.
  - intros t' e Hc (k & Hkt)%map_values_get; [|by apply map_ok_delete].
    rewrite map_get_delete in Hkt by done. case_decide; [done|].
    apply Hs; [done|]. apply map_values_get; eauto.
  - exact Hse.
Qed.

Lemma requestStop_sealed s a : ar_sealed (requestStop s a) = ar_sealed a.
Proof. unfold requestStop. by destruct (_ || _). Qed.
Lemma requestStop_shutdown a : ar_stopReason (requestStop StopShutdown a) = Some StopShutdown.
Proof.
  unfold requestStop. rewrite orb_diag. destruct (bool_decide _) eqn:E; [|done]. by apply bool_decide_eq_true in E.
Qed.
Lemma requestStop_keeps s a : ar_stopReason a = Some StopShutdown → requestStop s a = a.
Proof. unfold requestStop. intros ->. by rewrite bool_decide_eq_true_2. Qed.

(** The object of an updated attempt. *)
Lemma update_run_objects f t r t' :
  rn_objects (update_run f t r) !! t' =
  (λ e, if decide (t = t') then set_run (f (en_run e)) e else e) <$> rn_objects r !! t'.
Proof.
  cbn. destruct (decide (t = t')) as [->|].
  - by rewrite lookup_alter_eq.
  - rewrite lookup_alter_ne by done. by destruct (_ !! t').
Qed.

Lemma stop_each_spec ts r t :
  let r' := (stop_each ts r).2 in
  rn_objects r' !! t =
    (λ e, if decide (t ∈ ts) then set_run (requestStop StopShutdown (en_run e)) e else e) <$> rn_objects r !! t.
Proof.
  revert r. induction ts as [|t0 ts IH]; intros r; cbn [stop_each].
  { cbn. destruct (rn_objects r !! t); cbn; [|done]. rewrite decide_False by (intros ?%elem_of_nil; done). done. }
  destruct (stop_each ts (update_run _ _ r)) as [cs r'] eqn:E. cbn.
  pose proof (IH (update_run (requestStop StopShutdown) t0 r)) as Hr. rewrite E in Hr. cbn [snd] in Hr.
  rewrite Hr, update_run_objects. destruct (rn_objects r !! t) as [e|]; cbn [fmap option_fmap option_map]; [|done].
  f_equal. destruct (decide (t0 = t)) as [->|Hne].
  - destruct (decide (t ∈ t :: ts)) as [_|Hn]; [|destruct Hn; by left]. case_decide; [|done].
    unfold set_run. cbn. rewrite requestStop_keeps by apply requestStop_shutdown. done.
  - destruct (decide (t ∈ ts)), (decide (t ∈ t0 :: ts)) as [Hin|Hin]; try done; rewrite elem_of_cons in Hin; naive_solver.
Qed.

Lemma stop_each_rest ts r :
  let r' := (stop_each ts r).2 in
  rn_byJob r' = rn_byJob r ∧ rn_byKey r' = rn_byKey r ∧ rn_closed r' = rn_closed r ∧ rn_sealed r' = rn_sealed r ∧
  rn_subscribed r' = rn_subscribed r.
Proof.
  revert r. induction ts as [|t0 ts IH]; intros r; [done|]. cbn [stop_each].
  pose proof (IH (update_run (requestStop StopShutdown) t0 r)) as Hr.
  by destruct (stop_each ts (update_run _ _ r)) as [cs r'].
Qed.

Lemma dom_ext (m m' : gmap nat Entry) (f : nat → Entry → Entry) :
  (∀ t, m' !! t = f t <$> m !! t) → dom m' = dom m.
Proof.
  intros Hf. apply set_eq. intros t. rewrite !elem_of_dom, Hf. by rewrite fmap_is_Some.
Qed.

Lemma inv_shutdown r ex : admission_inv r ex → admission_inv (beginShutdown r).2 ex.
Proof.
  intros Hi. unfold beginShutdown. destruct (rn_closed r) eqn:Ec; [done|].
  set (r1 := {| rn_objects := _ |}). pose proof (stop_each_rest (map_values (rn_byKey r1)) r1) as (E1 & E2 & E3 & E4 & _).
  pose proof (stop_each_spec (map_values (rn_byKey r1)) r1) as Ho.
  eapply inv_objects; [exact Hi|by rewrite E1|by rewrite E2|exact (dom_ext _ _ _ Ho)| |]; intros t e; rewrite Ho.
  - intros _ Hin. destruct (rn_objects r1 !! t); [|done]. cbn. rewrite decide_True by done.
    intros [= <-]. cbn. apply requestStop_shutdown.
  - rewrite E4. cbn. destruct (rn_objects r !! t) as [e0|] eqn:E; [|done]. intros [= <-].
    pose proof (ai_sealed _ _ Hi t e0 E) as Hse. case_decide; [|done]. cbn. by rewrite requestStop_sealed.
Qed.

Lemma inv_update f t r ex :
  admission_inv r ex → (∀ e, rn_objects r !! t = Some e → advances (en_run e) (f (en_run e))) →
  admission_inv (update_run f t r) ex.
Proof.
  intros Hi Hf. eapply inv_objects; [exact Hi|done|done| | |].
  - apply (dom_ext _ _ (λ t', λ e, if decide (t = t') then set_run (f (en_run e)) e else e)). apply update_run_objects.
  - intros t' e Hc Hin. rewrite update_run_objects. destruct (rn_objects r !! t') as [e0|] eqn:E; [|done]. intros [= <-].
    pose proof (ai_stopped _ _ Hi t' e0 Hc Hin E) as Hs. case_decide as Et; [|done]. subst. by apply (Hf e0 E).
  - intros t' e. rewrite update_run_objects. destruct (rn_objects r !! t') as [e0|] eqn:E; [|done]. intros [= <-].
    pose proof (ai_sealed _ _ Hi t' e0 E) as Hs. case_decide as Et; [|done]. subst. cbn. by destruct (Hf e0 E) as [_ ->].
Qed.

Lemma requestStop_advances_abort a : advances a (requestStop StopAbort a).
Proof.
  split; [|apply requestStop_sealed]. intros [] Hs.
  - unfold requestStop. rewrite Hs. done.
  - by rewrite requestStop_keeps.
Qed.

Lemma inv_abort jobId runId r ex : admission_inv r ex → admission_inv (abort jobId runId r).2 ex.
Proof.
  intros Hi. unfold abort. destruct (map_get _ _); [|done]. cbn. apply inv_update; [done|].
  intros e _. apply requestStop_advances_abort.
Qed.

(** Adopting states changes nothing but states. *)
Definition adopt_state (s : option JobRunState) (e : Entry) : Entry :=
  match s with None => e | Some s => set_run (set_state s (en_run e)) e end.

Lemma adopt_spec (f : string → option JobRunState) byKey (os : gmap nat Entry) t :
  let os' := fold_left (λ os '(key, t),
    match f key with None => os | Some s => alter (λ e, set_run (set_state s (en_run e)) e) t os end) byKey os in
  ∃ s, os' !! t = adopt_state s <$> os !! t.
Proof.
  revert os. induction byKey as [|[k t0] m IH]; intros os; cbn [fold_left].
  { exists None. by destruct (os !! t). }
  destruct (f k) as [s0|]; [|apply IH].
  destruct (IH (alter (λ e, set_run (set_state s0 (en_run e)) e) t0 os)) as [s ->].
  destruct (decide (t0 = t)) as [->|]; [rewrite lookup_alter_eq|rewrite lookup_alter_ne by done; by exists s].
  destruct (os !! t) as [e|]; cbn; [|by exists None].
  destruct s as [s|]; [by exists (Some s)|by exists (Some s0)].
Qed.

Lemma seal_objects_spec interrupted byKey os t :
  ∃ s, seal_objects interrupted byKey os !! t =
    (λ e, set_run (sealPersistence None (en_run e)) e) <$> (adopt_state s <$> os !! t).
Proof.
  unfold seal_objects. rewrite lookup_fmap.
  destruct (adopt_spec (adopted interrupted) byKey os t) as [s Hs]. exists s. f_equal. exact Hs.
Qed.

Lemma inv_seal interrupted r ex : admission_inv r ex → admission_inv (seal interrupted r) ex.
Proof.
  intros Hi. unfold seal. destruct (rn_sealed r) eqn:Es; [done|].
  eapply inv_objects; [exact Hi|done|done| | |]; cbn [rn_objects rn_closed rn_sealed].
  - apply set_eq. intros t. rewrite !elem_of_dom.
    destruct (seal_objects_spec interrupted (rn_byKey r) (rn_objects r) t) as [s ->]. by rewrite !fmap_is_Some.
  - intros t e Hc Hin. destruct (seal_objects_spec interrupted (rn_byKey r) (rn_objects r) t) as [s ->].
    destruct (rn_objects r !! t) as [e0|] eqn:E; [|done]. intros [= <-].
    pose proof (ai_stopped _ _ Hi t e0 Hc Hin E) as Hs. destruct s; cbn; unfold sealPersistence; cbn;
      by destruct (ar_sealed (en_run e0)).
  - intros t e. destruct (seal_objects_spec interrupted (rn_byKey r) (rn_objects r) t) as [s ->].
    destruct (rn_objects r !! t) as [e0|] eqn:E; [|done]. intros [= <-].
    pose proof (ai_sealed _ _ Hi t e0 E) as Hs. rewrite Es in Hs.
    destruct s; cbn; unfold sealPersistence; cbn; by rewrite Hs.
Qed.

Lemma reachable_inv x : reachable x → admission_inv x.1 x.2.
Proof.
  induction 1 as [|[r ex] op Hx IH Hop]; [apply inv_new|]. cbn [fst snd] in *.
  destruct op; cbn [apply_op may_apply fst snd] in *.
  - destruct (run claim r) as [[e|st|t] r'] eqn:E; cbn.
    1,2: apply run_not_started in E as ->; done.
    by eapply inv_run.
  - destruct (map_get t ex) as [claim|] eqn:E; [|done]. by apply inv_completed.
  - destruct Hop as (e & He & Ha). apply inv_update; [done|]. intros e' He'. by simplify_eq.
  - by apply inv_abort.
  - by apply inv_shutdown.
  - by apply inv_seal.
Qed.

(** ** The properties *)

(** C31: at every time, however runs, completions, aborts, shutdown and sealing
    interleave, at most one attempt of a job is in execution, [isActive] says
    exactly whether there is one, and a job's attempt can be aborted by its key:
    a second run of the job is rejected with [job_already_running] and changes
    nothing, and an execution that completes removes itself and no other. *)
Theorem one_attempt_per_job r ex :
  reachable (r, ex) →
  (∀ t1 c1 t2 c2, map_get t1 ex = Some c1 → map_get t2 ex = Some c2 →
     js_id (claim_job c1) = js_id (claim_job c2) → t1 = t2) ∧
  (∀ jobId, isActive r jobId None = true ↔ ∃ t c, map_get t ex = Some c ∧ js_id (claim_job c) = jobId) ∧
  (∀ t c, map_get t ex = Some c → map_get (activeKey (js_id (claim_job c)) (rs_id (claim_run c))) (rn_byKey r) = Some t) ∧
  (∀ t c claim, map_get t ex = Some c → js_id (claim_job claim) = js_id (claim_job c) →
     rs_status (st_summary (claim_run claim)) = Queued →
     run claim r = (Rejected (app_error (if rn_closed r then SHUTTING_DOWN else JOB_ALREADY_RUNNING)), r)) ∧
  (∀ t c jobId, map_get t ex = Some c →
     isActive (completed c t r) jobId None = isActive r jobId None && negb (bool_decide (js_id (claim_job c) = jobId))).
Proof.
  intros Hx. pose proof (reachable_inv _ Hx) as Hi. cbn in Hi.
  assert (Hact : ∀ r ex jobId, admission_inv r ex →
    isActive r jobId None = true ↔ ∃ t c, map_get t ex = Some c ∧ js_id (claim_job c) = jobId).
  { clear. intros r ex jobId [_ Hm Hj _ _ _]. unfold isActive, object. split.
    - destruct (map_get jobId (rn_byJob r)) as [t|] eqn:E; [|done]. intros _.
      destruct (Hj _ _ E) as (c & ? & ?). by exists t, c.
    - intros (t & c & Hc & <-). destruct (Hm _ _ Hc) as (-> & _ & [e He]). cbn. by rewrite He. }
  pose proof Hi as [[Hok1 [Hok2 Hok3]] Hm Hj Hk _ _]. split_and!.
  - intros t1 c1 t2 c2 H1 H2 E. destruct (Hm _ _ H1) as (E1 & _ & _), (Hm _ _ H2) as (E2 & _ & _). congruence.
  - intros jobId. by apply Hact.
  - intros t c Hc. by destruct (Hm _ _ Hc) as (_ & ? & _).
  - intros t c claim Hc E Hq. unfold run. destruct (rn_closed r); [done|].
    rewrite Hq, bool_decide_eq_true_2 by done. cbn [negb].
    unfold map_has. rewrite E. destruct (Hm _ _ Hc) as (-> & _ & _). by rewrite bool_decide_eq_true_2 by done.
  - intros t c jobId Hc. pose proof (inv_completed c t r ex Hi Hc) as Hi'.
    apply eq_bool_prop_intro. rewrite !Is_true_true, andb_true_iff, (Hact _ _ _ Hi'), (Hact _ _ _ Hi), negb_true_iff, bool_decide_eq_false.
    setoid_rewrite map_get_delete; [|done]. split.
    + intros (t' & c' & Hg & <-). case_decide as E; [done|]. split; [by exists t', c'|].
      intros E'. destruct (Hm _ _ Hc) as (E1 & _ & _), (Hm _ _ Hg) as (E2 & _ & _). congruence.
    + intros [(t' & c' & Hg & <-) Hne]. exists t', c'. rewrite decide_False; [done|]. congruence.
Qed.

(** Shutdown is final. Once the runner is closed it stays closed, whatever
    follows; it admits no run; and every attempt still in execution has the
    stop reason [shutdown], so that it will be recorded as interrupted rather
    than aborted or failed, even if an abort was or is requested too. *)
Lemma shutdown_interrupts_every_attempt r ex op :
  reachable (r, ex) → rn_closed r = true → may_apply op (r, ex) →
  (∀ t c, map_get t ex = Some c →
     ∃ e, rn_objects r !! t = Some e ∧ ar_stopReason (en_run e) = Some StopShutdown) ∧
  (∀ claim, rs_status (st_summary (claim_run claim)) = Queued →
     run claim r = (Rejected (app_error SHUTTING_DOWN), r)) ∧
  rn_closed (apply_op op (r, ex)).1 = true ∧
  (∀ t, map_get t ex = None → map_get t (apply_op op (r, ex)).2 = None).
Proof.
  intros Hx Hc Hop. pose proof (reachable_inv _ Hx) as [[Hok1 [Hok2 Hok3]] Hm _ _ Hs _]. cbn in *.
  split_and!.
  - intros t c Ht. destruct (Hm _ _ Ht) as (_ & Hk & [e He]). exists e. split; [done|].
    apply (Hs t e); [done| |done]. apply map_values_get; eauto.
  - intros claim _. unfold run. by rewrite Hc.
  - destruct op; cbn.
    + unfold run. by rewrite Hc.
    + by destruct (map_get t ex).
    + done.
    + unfold abort. by destruct (map_get _ _).
    + unfold beginShutdown. by rewrite Hc.
    + unfold seal. by destruct (rn_sealed r).
  - intros t Ht. destruct op; cbn; try done.
    + unfold run. by rewrite Hc.
    + destruct (map_get t0 ex); [|done]. cbn. rewrite map_get_delete by done. by case_decide.
Qed.

(** To an attempt in execution, the runner's own operations are exactly the
    interferences its execution is verified against: an abort requests a stop of
    the attempt it names and leaves all others alone, shutdown requests a stop
    of every attempt in execution, and sealing sets the flag of all and replaces
    at most the state. Whatever operation is applied, the attempt afterwards is
    the attempt before after at most one interference. *)
Lemma operations_are_interferences r ex op t c e :
  reachable (r, ex) → map_get t ex = Some c → rn_objects r !! t = Some e →
  let after := rn_objects (apply_op op (r, ex)).1 !! t in
  match op with
  | AbortOp jobId runId =>
      after = Some (set_run (interfere_all
        (if bool_decide (map_get (activeKey jobId runId) (rn_byKey r) = Some t) then [StopRequested StopAbort] else [])
        (en_run e)) e)
  | ShutdownOp =>
      after = Some (set_run (interfere_all (if rn_closed r then [] else [StopRequested StopShutdown]) (en_run e)) e)
  | SealOp interrupted =>
      ∃ s, after = Some (set_run (interfere_all (if rn_sealed r then [] else [Sealed s]) (en_run e)) e)
  | RunOp _ | CompleteOp _ => after = Some e
  | ProgressOp _ _ => True
  end.
Proof.
  intros Hx Ht He. pose proof (reachable_inv _ Hx) as Hi. cbn in Hi.
  assert (Hsame : set_run (en_run e) e = e) by (by destruct e).
  destruct op as [claim|t0|t0 a|jobId runId| |interrupted]; cbn [apply_op fst snd]; try done.
  - destruct (run claim r) as [[err|st|t'] r'] eqn:E; cbn [fst].
    1,2: by apply run_not_started in E as ->.
    apply run_started in E as [-> ->]. rewrite lookup_insert_ne; [done|]. intros E.
    assert (Hin : t ∈ dom (rn_objects r)) by (apply elem_of_dom; eauto). rewrite <-E in Hin. by apply is_fresh in Hin.
  - by destruct (map_get t0 ex).
  - unfold abort. destruct (map_get (activeKey jobId runId) (rn_byKey r)) as [t1|]; cbn [snd].
    + rewrite update_run_objects, He. cbn [fmap option_fmap option_map]. f_equal. case_decide as E.
      * subst t1. by rewrite bool_decide_eq_true_2.
      * rewrite bool_decide_eq_false_2 by congruence. cbn; by rewrite Hsame.
    + rewrite bool_decide_eq_false_2 by done. cbn; by rewrite Hsame.
  - unfold beginShutdown. destruct (rn_closed r); [cbn; by rewrite Hsame|].
    set (r1 := {| rn_objects := _ |}). rewrite (stop_each_spec (map_values (rn_byKey r1)) r1).
    cbn [rn_objects r1]. rewrite He. cbn. rewrite decide_True; [done|].
    destruct Hi as [[Hok1 [Hok2 Hok3]] Hm _ _ _ _]. apply map_values_get; [done|].
    destruct (Hm _ _ Ht) as (_ & Hk & _). eauto.
  - unfold seal. destruct (rn_sealed r) eqn:Es; [exists None; cbn; by rewrite Hsame|]. cbn [rn_objects].
    destruct (seal_objects_spec interrupted (rn_byKey r) (rn_objects r) t) as [s ->]. rewrite He.
    pose proof (ai_sealed _ _ Hi t e He) as Hse. rewrite Es in Hse.
    exists s. cbn. f_equal. destruct s; cbn; unfold sealPersistence, set_run; cbn; by rewrite Hse.
Qed.

(** *** A sample runner: an attempt of each of two jobs, one aborted, then shutdown *)
Definition sample_job (id : string) : JobSummary := {|
  js_id := id; js_name := "Nightly"; js_workspaceId := "w"; js_workspaceName := "Work";
  js_workspaceAvailable := true; js_prompt := "p"; js_schedule := Valid (SchInterval 5 0);
  js_preRunScript := None; js_postRunScript := None; js_enabled := true; js_nextRunAt := Some 5000;
  js_createdAt := 0; js_updatedAt := 0; js_activeRun := None; js_lastRun := None;
  js_configurationIssue := None |}.
Definition sample_claim (id runId : string) : ClaimedJobRun := {|
  claim_job := sample_job id;
  claim_run := {| st_summary := {| rs_id := runId; rs_jobId := id; rs_trigger := Manual; rs_scheduledFor := 1;
      rs_startedAt := None; rs_finishedAt := None; rs_status := Queued; rs_phase := None; rs_errorCode := None;
      rs_errorMessage := None; rs_conversationId := None; rs_revision := 0; rs_createdAt := 1; rs_updatedAt := 1 |};
    st_preExitCode := None; st_preStdout := None; st_preStderr := None; st_postExitCode := None;
    st_postStdout := None; st_postStderr := None; st_conversationAvailable := false |} |}.

Definition sample_admission : list runner_op :=
  [RunOp (sample_claim "a" "1"); RunOp (sample_claim "b" "2"); AbortOp "b" "2"].
Definition sample_runner : runner * executing := fold_left (λ x op, apply_op op x) sample_admission (new_runner, []).
Definition closed_runner : runner * executing := apply_op ShutdownOp sample_runner.

Lemma sample_reachable : reachable sample_runner.
Proof.
  apply (reachable_step _ (AbortOp "b" "2")); [|exact I].
  apply (reachable_step _ (RunOp (sample_claim "b" "2"))); [|exact I].
  apply (reachable_step _ (RunOp (sample_claim "a" "1"))); [|exact I]. apply reachable_new.
Qed.

Lemma one_attempt_per_job_witness :
  map_get 1%nat sample_runner.2 = Some (sample_claim "b" "2") ∧
  run (sample_claim "b" "3") sample_runner.1 = (Rejected (app_error JOB_ALREADY_RUNNING), sample_runner.1).
Proof.
  assert (E : map_get 1%nat sample_runner.2 = Some (sample_claim "b" "2")) by (vm_compute; reflexivity).
  split; [exact E|].
  destruct (one_attempt_per_job sample_runner.1 sample_runner.2) as (_ & _ & _ & H & _).
  - rewrite <-surjective_pairing. exact sample_reachable.
  - exact (H _ _ (sample_claim "b" "3") E eq_refl eq_refl).
Defined.

Lemma shutdown_interrupts_every_attempt_witness :
  map_get 1%nat closed_runner.2 = Some (sample_claim "b" "2") ∧
  ∃ e, rn_objects closed_runner.1 !! 1%nat = Some e ∧ ar_stopReason (en_run e) = Some StopShutdown.
Proof.
  assert (E : map_get 1%nat closed_runner.2 = Some (sample_claim "b" "2")) by (vm_compute; reflexivity).
  split; [exact E|].
  destruct (shutdown_interrupts_every_attempt closed_runner.1 closed_runner.2 (AbortOp "a" "1")) as (H & _).
  - rewrite <-surjective_pairing. apply (reachable_step _ ShutdownOp); [exact sample_reachable|exact I].
  - vm_compute. reflexivity.
  - exact I.
  - exact (H _ _ E).
Defined.

Lemma operations_are_interferences_witness :
  ∃ e, rn_objects sample_runner.1 !! 1%nat = Some e ∧
    rn_objects closed_runner.1 !! 1%nat = Some (set_run (interfere_all [StopRequested StopShutdown] (en_run e)) e).
Proof.
  destruct (rn_objects sample_runner.1 !! 1%nat) as [e|] eqn:E; [|vm_compute in E; discriminate E].
  exists e. split; [reflexivity|].
  apply (operations_are_interferences sample_runner.1 sample_runner.2 ShutdownOp 1%nat (sample_claim "b" "2") e).
  - rewrite <-surjective_pairing. exact sample_reachable.
  - vm_compute. reflexivity.
  - exact E.
Defined.
