(* ===== verification/Addresses.v ===== *)
(** IP literals of the managed egress proxy ([src/server/network/addresses.ts]):
    parsing, canonical text, prefix matching and the special-use ranges. *)
From S2P Require Import Prelude Errors Texts.
#[local] Open Scope string_scope. #[local] Open Scope Z_scope.

(** ** Data *)

(** src/server/network/addresses.ts:3-3 IpFamily *)
Inductive IpFamily := V4 | V6.
#[export] Instance IpFamily_eq : EqDecision IpFamily.
Proof. solve_decision. Defined.

(** src/server/network/addresses.ts:5-14 NonPublicAddressCategory *)
Inductive NonPublicAddressCategory :=
| Unspecified | Private | Loopback | LinkLocal | CarrierGradeNat | Documentation | Benchmark
| Multicast | Reserved.
#[export] Instance NonPublicAddressCategory_eq : EqDecision NonPublicAddressCategory.
Proof. solve_decision. Defined.

(** src/server/network/addresses.ts:16-22 ParsedIpAddress *)
Record ParsedIpAddress := {
  address : string;
  family : IpFamily;
  bytes : list Z;
  mapped : option string;
}.

(** [None] is the category ["public"]. *)
(** src/server/network/addresses.ts:24-27 AddressClassification *)
Record AddressClassification := {
  classified : ParsedIpAddress;
  isPublic : bool;
  category : option NonPublicAddressCategory;
}.

(** src/server/network/addresses.ts:29-33 AddressRange *)
Record AddressRange := Range {
  prefix : string;
  prefixLength : Z;
  range_category : NonPublicAddressCategory;
}.

(** src/server/network/addresses.ts:44-60 IPV4_NON_PUBLIC_RANGES *)
Definition IPV4_NON_PUBLIC_RANGES : list AddressRange := [
  Range "0.0.0.0" 8 Unspecified;
  Range "10.0.0.0" 8 Private;
  Range "100.64.0.0" 10 CarrierGradeNat;
  Range "127.0.0.0" 8 Loopback;
  Range "169.254.0.0" 16 LinkLocal;
  Range "172.16.0.0" 12 Private;
  Range "192.0.0.0" 24 Reserved;
  Range "192.0.2.0" 24 Documentation;
  Range "192.88.99.0" 24 Reserved;
  Range "192.168.0.0" 16 Private;
  Range "198.18.0.0" 15 Benchmark;
  Range "198.51.100.0" 24 Documentation;
  Range "203.0.113.0" 24 Documentation;
  Range "224.0.0.0" 4 Multicast;
  Range "240.0.0.0" 4 Reserved].

(** src/server/network/addresses.ts:62-78 IPV6_NON_PUBLIC_RANGES *)
Definition IPV6_NON_PUBLIC_RANGES : list AddressRange := [
  Range "::" 96 Reserved;
  Range "64:ff9b::" 96 Reserved;
  Range "64:ff9b:1::" 48 Reserved;
  Range "100::" 64 Reserved;
  Range "2001:2::" 48 Benchmark;
  Range "2001:10::" 28 Reserved;
  Range "2001:20::" 28 Reserved;
  Range "2001::" 23 Reserved;
  Range "2001:db8::" 32 Documentation;
  Range "2002::" 16 Reserved;
  Range "3fff::" 20 Documentation;
  Range "5f00::" 16 Reserved;
  Range "fc00::" 7 Private;
  Range "fe80::" 10 LinkLocal;
  Range "ff00::" 8 Multicast].

(** ** Parsing *)

Definition dot : ascii := "."%char.
Definition colon : ascii := ":"%char.

(** Storing into a [Uint8Array]. *)
Definition u8 (z : Z) : Z := Z.land z 255.

(** The pattern [^(?:0|[1-9][0-9]{0,2})$]. *)
(** src/server/network/addresses.ts:86-86 octetPattern *)
Definition octet_matches (part : string) : bool :=
  match part with
  | String a EmptyString => is_digit a
  | String a r => is_digit a && negb (unit_code a =? 48) && str_all is_digit r && (strlen r <=? 2)
  | EmptyString => false
  end.

(** src/server/network/addresses.ts:85-89 octet *)
Definition parse_octet (part : string) : option Z :=
  if negb (octet_matches part) then None
  else let value := number_from 0 part in
       if 255 <? value then None else Some (u8 value).

(** src/server/network/addresses.ts:80-92 parseIpv4 *)
Definition parseIpv4 (input : string) : option (list Z) :=
  let parts := split dot input in
  if negb (Nat.eqb (length parts) 4) then None else mapM parse_octet parts.

(** [(high << 8) | low] *)
Definition word_of (high low : Z) : Z := Z.lor (Z.shiftl high 8) low.

(** The pattern [^[0-9a-fA-F]{1,4}$]. *)
(** src/server/network/addresses.ts:108-108 hextetPattern *)
Definition hextet_matches (part : string) : bool :=
  str_all is_hex part && (1 <=? strlen part) && (strlen part <=? 4).

(** The loop over the parts. *)
(** src/server/network/addresses.ts:98-110 hextets *)
Fixpoint hextets (allowIpv4 : bool) (parts : list string) : option (list Z) :=
  match parts with
  | [] => Some []
  | part :: rest =>
      if String.eqb part EmptyString then None
      else if has_char dot part then
        if negb allowIpv4 || negb (Nat.eqb (length rest) 0) then None
        else
          ipv4 ← parseIpv4 part;
          Some [word_of (nth 0 ipv4 0) (nth 1 ipv4 0); word_of (nth 2 ipv4 0) (nth 3 ipv4 0)]
      else if negb (hextet_matches part) then None
      else
        words ← hextets allowIpv4 rest;
        Some (parse_hex 0 part :: words)
  end.

(** src/server/network/addresses.ts:94-112 parseHextetSequence *)
Definition parseHextetSequence (input : string) (allowIpv4 : bool) : option (list Z) :=
  if String.eqb input EmptyString then Some [] else hextets allowIpv4 (split colon input).

(** The text before and after the first [::]. *)
Fixpoint cut_double (s : string) : option (string * string) :=
  match s with
  | EmptyString => None
  | String a t =>
      match t with
      | EmptyString => None
      | String b r =>
          if Ascii.eqb a colon && Ascii.eqb b colon then Some (EmptyString, r)
          else '(before, after) ← cut_double t; Some (String a before, after)
      end
  end.

(** The words of an address, with the gap that [::] stands for filled with zeros. *)
(** src/server/network/addresses.ts:116-129 words *)
Definition parse_words (input : string) : option (list Z) :=
  match cut_double input with
  | None =>
      words ← parseHextetSequence input true;
      if negb (Nat.eqb (length words) 8) then None else Some words
  | Some (before, after) =>
      if bool_decide (is_Some (cut_double after)) then None
      else
        left ← parseHextetSequence before false;
        right ← parseHextetSequence after true;
        if (8 <=? length left + length right)%nat then None
        else Some (left ++ repeat 0 (8 - length left - length right) ++ right)%list
  end.

(** src/server/network/addresses.ts:131-137 wordBytes *)
Definition bytes_of_words (words : list Z) : list Z :=
  concat ((λ word, [u8 (Z.shiftr word 8); u8 (Z.land word 255)]) <$> words).

(** src/server/network/addresses.ts:114-138 parseIpv6 *)
Definition parseIpv6 (input : string) : option (list Z) :=
  if String.eqb input EmptyString || has_char "%"%char input then None
  else bytes_of_words <$> parse_words input.

(** ** Canonical text *)

(** src/server/network/addresses.ts:140-142 formatIpv4 *)
Definition formatIpv4 (bs : list Z) : string := join dot (pretty <$> bs).

(** src/server/network/addresses.ts:145-148 words *)
Fixpoint words_of_bytes (bs : list Z) : list Z :=
  match bs with
  | high :: low :: rest => word_of high low :: words_of_bytes rest
  | _ => []
  end.

Fixpoint zero_prefix (ws : list Z) : nat :=
  match ws with 0 :: rest => S (zero_prefix rest) | _ => O end.

(** The first longest run of at least two zero words, from [index] on, given the
    best one before it; [words] has eight entries. *)
(** src/server/network/addresses.ts:150-165 bestRun *)
Fixpoint best_run (fuel : nat) (words : list Z) (index : nat) (best : option (nat * nat)) : option (nat * nat) :=
  match fuel with
  | O => best
  | S fuel =>
      match drop index words with
      | [] => best
      | w :: rest =>
          if negb (w =? 0) then best_run fuel words (S index) best
          else
            let len := S (zero_prefix rest) in
            let longer := match best with None => true | Some (_, l) => (l <? len)%nat end in
            best_run fuel words (index + len)
              (if (2 <=? len)%nat && longer then Some (index, len) else best)
      end
  end.

Definition hex_words (words : list Z) : string := join colon (hex_string 4 <$> words).

(** src/server/network/addresses.ts:144-174 formatIpv6 *)
Definition formatIpv6 (bs : list Z) : string :=
  let words := words_of_bytes bs in
  match best_run 8 words 0 None with
  | None => hex_words words
  | Some (start, len) =>
      let left := hex_words (take start words) in
      let right := hex_words (drop (start + len) words) in
      left +:+ String colon (String colon right)
  end.

(** src/server/network/addresses.ts:176-183 mappedIpv4 *)
Definition mappedIpv4 (bs : list Z) : option (list Z) :=
  if negb (Nat.eqb (length bs) 16) then None
  else if negb (forallb (Z.eqb 0) (take 10 bs)) then None
  else if negb (nth 10 bs 0 =? 255) || negb (nth 11 bs 0 =? 255) then None
  else Some (drop 12 bs).

(** src/server/network/addresses.ts:186-208 parseIpAddress *)
Definition parseIpAddress (input : string) : option ParsedIpAddress :=
  if String.eqb input EmptyString || negb (String.eqb (trim input) input)
     || starts_with "[" input || ends_with "]" input then None
  else
    match parseIpv4 input with
    | Some ipv4 => Some {| address := formatIpv4 ipv4; family := V4; bytes := ipv4; mapped := None |}
    | None =>
        ipv6 ← parseIpv6 input;
        Some {| address := formatIpv6 ipv6; family := V6; bytes := ipv6;
                mapped := formatIpv4 <$> mappedIpv4 ipv6 |}
    end.

(** ** Classification *)

(** src/server/network/addresses.ts:210-219 matchesPrefix *)
Definition matchesPrefix (bs range : list Z) (prefixLength : Z) : bool :=
  let wholeBytes := Z.to_nat (prefixLength / 8) in
  let remainingBits := prefixLength mod 8 in
  if negb (bool_decide (take wholeBytes bs = take wholeBytes range)) then false
  else if remainingBits =? 0 then true
  else
    let mask := Z.land (Z.shiftl 255 (8 - remainingBits)) 255 in
    Z.land (nth wholeBytes bs 0) mask =? Z.land (nth wholeBytes range 0) mask.

(** src/server/network/addresses.ts:221-233 categoryInRanges *)
Fixpoint categoryInRanges (parsed : ParsedIpAddress) (ranges : list AddressRange)
    : result thrown (option NonPublicAddressCategory) :=
  match ranges with
  | [] => Ok None
  | range :: rest =>
      match parseIpAddress (prefix range) with
      | None => Err (Foreign None "invalid internal address range")
      | Some rangeAddress =>
          if negb (bool_decide (family rangeAddress = family parsed))
          then Err (Foreign None "invalid internal address range")
          else if matchesPrefix (bytes parsed) (bytes rangeAddress) (prefixLength range)
          then Ok (Some (range_category range))
          else categoryInRanges parsed rest
      end
  end.

(** src/server/network/addresses.ts:235-237 classifyParsedIpv4 *)
Definition classifyParsedIpv4 (parsed : ParsedIpAddress) : result thrown (option NonPublicAddressCategory) :=
  categoryInRanges parsed IPV4_NON_PUBLIC_RANGES.

Definition global_unicast : list Z := match parseIpAddress "2000::" with Some p => bytes p | None => [] end.

(** The category; [None] is ["public"]. *)
(** src/server/network/addresses.ts:241-255 category *)
Definition category_of (parsed : ParsedIpAddress) : result thrown (option NonPublicAddressCategory) :=
  match family parsed, mapped parsed with
  | V4, _ => classifyParsedIpv4 parsed
  | V6, Some text =>
      match parseIpAddress text with
      | None => Err (Foreign None "invalid internal mapped IPv4 address")
      | Some p => classifyParsedIpv4 p
      end
  | V6, None =>
      inRanges ← categoryInRanges parsed IPV6_NON_PUBLIC_RANGES;
      let category := match inRanges with
        | Some c => Some c
        | None => if matchesPrefix (bytes parsed) global_unicast 3 then None else Some Reserved
        end in
      let category := if String.eqb (address parsed) "::" then Some Unspecified else category in
      mret (if String.eqb (address parsed) "::1" then Some Loopback else category)
  end.

(** src/server/network/addresses.ts:240-257 classifyParsedAddress *)
Definition classifyParsedAddress (parsed : ParsedIpAddress) : result thrown AddressClassification :=
  category ← category_of parsed;
  mret {| classified := parsed; isPublic := bool_decide (category = None); category := category |}.

(** src/server/network/addresses.ts:259-262 classifyIpAddress *)
Definition classifyIpAddress (input : string) : result thrown (option AddressClassification) :=
  match parseIpAddress input with
  | None => mret None
  | Some parsed => Some <$> classifyParsedAddress parsed
  end.
