(* ===== verification/AddressText.v ===== *)
(** The canonical text of an IP address determines the address: what is
    formatted parses back, so parsing is idempotent on canonical texts. *)
From S2P Require Import Prelude Errors Texts Addresses.
#[local] Open Scope string_scope. #[local] Open Scope Z_scope.
#[local] Arguments String.append : simpl nomatch.

Definition is_byte (b : Z) : Prop := 0 ≤ b < 256.
Definition is_word (w : Z) : Prop := 0 ≤ w < 65536.

(** ** Bytes and words *)

Lemma byte_cases (P : Z → bool) b :
  forallb P (Z.of_nat <$> seq 0 256) = true → is_byte b → P b = true.
Proof.
  intros Hall Hb. rewrite forallb_forall in Hall. apply Hall, list_elem_of_In, list_elem_of_fmap.
  exists (Z.to_nat b). rewrite elem_of_seq. unfold is_byte in Hb. lia.
Qed.

Lemma u8_byte z : is_byte (u8 z).
Proof. unfold is_byte, u8. change 255 with (Z.ones 8). rewrite Z.land_ones by lia. apply Z.mod_pos_bound. lia. Qed.
Lemma u8_id b : is_byte b → u8 b = b.
Proof. unfold is_byte, u8. change 255 with (Z.ones 8). rewrite Z.land_ones by lia. intros. by apply Z.mod_small. Qed.

Lemma low_bits l n : is_byte l → 8 ≤ n → Z.testbit l n = false.
Proof.
  unfold is_byte. intros Hl Hn. destruct (decide (l = 0)) as [->|]; [by rewrite Z.bits_0|].
  apply Z.bits_above_log2; [lia|]. apply Z.log2_lt_pow2; [lia|].
  eapply Z.lt_le_trans; [apply Hl|]. change 256 with (2 ^ 8). apply Z.pow_le_mono_r; lia.
Qed.

Lemma word_of_eq h l : is_byte l → word_of h l = h * 256 + l.
Proof.
  intros Hl. unfold word_of. pose proof (Z.add_lor_land (Z.shiftl h 8) l) as E.
  assert (Z.land (Z.shiftl h 8) l = 0) as H0.
  { apply Z.bits_inj'. intros n Hn. rewrite Z.land_spec, Z.bits_0. destruct (decide (n < 8)).
    - by rewrite Z.shiftl_spec_low by lia.
    - rewrite (low_bits l n) by (done || lia). apply andb_false_r. }
  rewrite Z.shiftl_mul_pow2 in * by lia. lia.
Qed.

Lemma word_of_is_word h l : is_byte h → is_byte l → is_word (word_of h l).
Proof. intros Hh Hl. rewrite word_of_eq by done. unfold is_byte, is_word in *. lia. Qed.

(** The two bytes of a word. *)
Lemma word_bytes w : is_word w → word_of (u8 (Z.shiftr w 8)) (u8 (Z.land w 255)) = w.
Proof.
  unfold is_word. intros Hw. rewrite word_of_eq by apply u8_byte. unfold u8.
  change 255 with (Z.ones 8). rewrite !Z.land_ones, Z.shiftr_div_pow2 by lia. change (2 ^ 8) with 256.
  rewrite Z.mod_mod by lia. rewrite (Z.mod_small (w / 256)).
  - pose proof (Z.div_mod w 256 ltac:(lia)). lia.
  - split; [apply Z.div_pos; lia|apply Z.div_lt_upper_bound; lia].
Qed.

Lemma bytes_word h l : is_byte h → is_byte l →
  u8 (Z.shiftr (word_of h l) 8) = h ∧ u8 (Z.land (word_of h l) 255) = l.
Proof.
  unfold is_byte. intros Hh Hl. rewrite word_of_eq by done. unfold u8.
  change 255 with (Z.ones 8). rewrite !Z.land_ones, Z.shiftr_div_pow2 by lia. change (2 ^ 8) with 256.
  rewrite Z.mod_mod by lia. rewrite Z.div_add_l, (Z.div_small l), Z.add_0_r by lia.
  split; [apply Z.mod_small; lia|]. rewrite Z.add_comm, Z.mod_add by lia. apply Z.mod_small. lia.
Qed.

Lemma words_of_bytes_spec ws : Forall is_word ws → words_of_bytes (bytes_of_words ws) = ws.
Proof. induction 1 as [|w ws Hw _ IH]; cbn; [done|]. rewrite word_bytes by done. f_equal. exact IH. Qed.

(** An even number of bytes is the bytes of its words. *)
Lemma bytes_of_words_spec n bs :
  Forall is_byte bs → length bs = (2 * n)%nat →
  bytes_of_words (words_of_bytes bs) = bs ∧ Forall is_word (words_of_bytes bs) ∧ length (words_of_bytes bs) = n.
Proof.
  revert bs. induction n as [|n IH]; intros bs Hbs Hl.
  { destruct bs; [|done]. split_and!; [done|by constructor|done]. }
  destruct bs as [|h [|l bs]]; [done|cbn in Hl; lia|].
  apply Forall_cons in Hbs as [Hh Hbs]. apply Forall_cons in Hbs as [Hlo Hbs].
  destruct (IH bs Hbs ltac:(cbn in Hl; lia)) as (E & Hw & Hlen). destruct (bytes_word h l Hh Hlo) as [E1 E2].
  cbn [words_of_bytes]. split_and!.
  - unfold bytes_of_words in *. cbn [fmap list_fmap concat app]. by rewrite E1, E2, E.
  - constructor; [by apply word_of_is_word|done].
  - cbn. by rewrite Hlen.
Qed.

Lemma bytes_of_words_range ws :
  Forall is_byte (bytes_of_words ws) ∧ length (bytes_of_words ws) = (2 * length ws)%nat.
Proof.
  induction ws as [|w ws [IH1 IH2]]; [by split|]. cbn. split.
  - repeat (constructor; [apply u8_byte|]). exact IH1.
  - unfold bytes_of_words in IH2. rewrite IH2. lia.
Qed.

(** ** Decimal octets *)

(** What the text of a byte is, checked for each byte. *)
Definition octet_text_ok (b : Z) : bool :=
  bool_decide (parse_octet (pretty b) = Some b) && str_all is_digit (pretty b) && (1 <=? strlen (pretty b)).
Lemma octet_text b : is_byte b →
  parse_octet (pretty b) = Some b ∧ str_all is_digit (pretty b) = true ∧ 1 ≤ strlen (pretty b).
Proof.
  intros Hb. assert (H : octet_text_ok b = true) by (apply byte_cases; [by vm_compute|done]).
  unfold octet_text_ok in H. breflect. done.
Qed.

Lemma digits_no_char c s : is_digit c = false → str_all is_digit s = true → has_char c s = false.
Proof. apply has_char_all. Qed.

Lemma parseIpv4_formatIpv4 bs : Forall is_byte bs → length bs = 4%nat → parseIpv4 (formatIpv4 bs) = Some bs.
Proof.
  intros Hbs Hl. unfold parseIpv4, formatIpv4. rewrite split_join.
  - rewrite length_fmap, Hl. cbn [negb Nat.eqb]. clear Hl. induction Hbs as [|b bs Hb _ IH]; [done|].
    destruct (octet_text b Hb) as (E & _ & _). cbn. rewrite E. cbn. rewrite IH. done.
  - by destruct bs.
  - apply Forall_fmap. eapply Forall_impl; [exact Hbs|]. intros b Hb. cbn.
    apply digits_no_char; [done|]. by apply octet_text.
Qed.

Lemma parse_octet_byte s b : parse_octet s = Some b → is_byte b.
Proof. unfold parse_octet. destruct (negb _); [done|]. destruct (_ <? _); [done|]. intros [= <-]. apply u8_byte. Qed.

Lemma parseIpv4_range s bs : parseIpv4 s = Some bs → Forall is_byte bs ∧ length bs = 4%nat.
Proof.
  unfold parseIpv4. destruct (Nat.eqb _ _) eqn:E; [|done]. cbn. apply Nat.eqb_eq in E. intros H.
  pose proof (length_mapM _ _ _ H) as Hl. split; [|congruence].
  apply mapM_Some in H. clear -H. induction H as [|x b xs bs Hb _ IH]; [done|].
  constructor; [by eapply parse_octet_byte|done].
Qed.

(** ** Hextets *)

Lemma hextet_text w : is_word w →
  hextet_matches (hex_string 4 w) = true ∧ parse_hex 0 (hex_string 4 w) = w ∧
  str_all is_hex (hex_string 4 w) = true ∧ hex_string 4 w ≠ "".
Proof.
  unfold is_word. intros Hw. destruct (hex_string_ok 4 w Hw ltac:(lia)) as (Hp & Ha & Hl).
  unfold hextet_matches. rewrite Ha. split_and!; [|done|done|].
  - rewrite !andb_true_iff, !Z.leb_le. lia.
  - intros E. rewrite E in Hl. unfold strlen in Hl; cbn in Hl. lia.
Qed.

Lemma hextets_words allow ws : Forall is_word ws → hextets allow (hex_string 4 <$> ws) = Some ws.
Proof.
  induction 1 as [|w ws Hw _ IH]; [done|]. destruct (hextet_text w Hw) as (Hm & Hp & Ha & Hne).
  cbn [fmap list_fmap hextets]. rewrite (proj2 (String.eqb_neq _ _) Hne).
  rewrite (has_char_all dot is_hex) by done. rewrite Hm. cbn [negb]. by rewrite IH, Hp.
Qed.

Lemma hex_texts ws : Forall is_word ws →
  Forall (λ p, has_char colon p = false ∧ p ≠ "" ∧ str_all is_hex p = true) (hex_string 4 <$> ws).
Proof.
  intros Hws. apply Forall_fmap. eapply Forall_impl; [exact Hws|]. intros w Hw. cbn.
  destruct (hextet_text w Hw) as (_ & _ & Ha & Hne). split_and!; [by apply (has_char_all colon is_hex)|done|done].
Qed.

Lemma hex_words_nil ws : Forall is_word ws → hex_words ws = "" → ws = [].
Proof.
  destruct 1 as [|w ws Hw Hws]; [done|]. destruct (hextet_text w Hw) as (_ & _ & _ & Hne).
  unfold hex_words. rewrite fmap_cons. destruct (hex_string 4 w); [done|]. by destruct (hex_string 4 <$> ws).
Qed.

Lemma parse_hex_words allow ws : Forall is_word ws → parseHextetSequence (hex_words ws) allow = Some ws.
Proof.
  intros Hws. unfold parseHextetSequence. destruct (String.eqb (hex_words ws) "") eqn:E.
  - apply String.eqb_eq in E. by apply hex_words_nil in E as ->.
  - apply String.eqb_neq in E. unfold hex_words. rewrite split_join; [by apply hextets_words| |].
    + intros En. apply E. unfold hex_words. by rewrite En.
    + eapply Forall_impl; [by apply hex_texts|]. by intros p [? _].
Qed.

(** *** Where [::] is *)
Lemma cut_double_cons a s :
  cut_double (String a s) =
  match s with
  | String b r => if Ascii.eqb a colon && Ascii.eqb b colon then Some ("", r)
                  else '(before, after) ← cut_double s; Some (String a before, after)
  | "" => None
  end.
Proof. by destruct s. Qed.

Lemma cut_double_app p s : has_char colon p = false →
  cut_double (p +:+ s) = '(before, after) ← cut_double s; Some (p +:+ before, after).
Proof.
  induction p as [|a p IH]; intros Hp; cbn [String.append].
  { by destruct (cut_double s) as [[]|]. }
  rewrite has_char_cons, orb_false_iff in Hp. destruct Hp as [Ha Hp]. rewrite cut_double_cons.
  destruct (p +:+ s) as [|b r] eqn:E.
  - destruct p, s; try done.
  - rewrite Ha. cbn [andb]. rewrite IH by done. by destruct (cut_double s) as [[]|].
Qed.

Lemma cut_double_join parts s :
  parts ≠ [] → Forall (λ p, has_char colon p = false ∧ p ≠ "") parts →
  cut_double (join colon parts +:+ s) = '(before, after) ← cut_double s; Some (join colon parts +:+ before, after).
Proof.
  induction parts as [|p ps IH]; [done|]. intros _ [[Hp _] Hps]%Forall_cons. destruct ps as [|q ps].
  { by apply cut_double_app. }
  cbn [join]. rewrite str_app_assoc, cut_double_app by done. cbn [String.append].
  assert (Hq : ∃ a r, join colon (q :: ps) +:+ s = String a r ∧ Ascii.eqb a colon = false).
  { apply Forall_cons in Hps as [[Hq Hne] _]. destruct q as [|a q]; [done|].
    rewrite has_char_cons, orb_false_iff in Hq. destruct Hq as [Ha _].
    cbn [join]. destruct ps; cbn [String.append]; eauto. }
  rewrite cut_double_cons. destruct Hq as (a & r & E & Ha). fold (join colon (q :: ps)). cbn [join] in *.
  rewrite E, Ha, andb_false_r, <-E. rewrite (IH ltac:(done) Hps).
  destruct (cut_double s) as [[before after]|]; cbn; [|done]. by rewrite str_app_assoc.
Qed.

Lemma cut_hex_words ws s :
  Forall is_word ws →
  cut_double (hex_words ws +:+ s) = '(before, after) ← cut_double s; Some (hex_words ws +:+ before, after).
Proof.
  intros Hws. destruct ws as [|w ws].
  { change (hex_words [] +:+ s) with s. by destruct (cut_double s) as [[]|]. }
  apply cut_double_join; [done|]. eapply Forall_impl; [by apply hex_texts|]. by intros p (? & ? & _).
Qed.

(** *** The longest run of zeros *)
Definition is_run (ws : list Z) (start len : nat) : Prop :=
  ws = (take start ws ++ repeat 0 len ++ drop (start + len) ws)%list ∧ (2 ≤ len)%nat ∧ (start + len ≤ length ws)%nat.

Lemma zero_prefix_spec ws : ws = (repeat 0 (zero_prefix ws) ++ drop (zero_prefix ws) ws)%list ∧ (zero_prefix ws ≤ length ws)%nat.
Proof.
  induction ws as [|w ws [IH1 IH2]]; [done|]. destruct w; cbn; [|split; [done|lia]..].
  split; [by f_equal|lia].
Qed.

Lemma best_run_spec fuel ws index best :
  match best with None => True | Some (s, l) => is_run ws s l end →
  match best_run fuel ws index best with None => best = None | Some (s, l) => is_run ws s l end.
Proof.
  revert index best. induction fuel as [|fuel IH]; intros index best Hb; cbn [best_run].
  { by destruct best as [[]|]. }
  destruct (drop index ws) as [|w rest] eqn:E; [by destruct best as [[]|]|].
  destruct (w =? 0) eqn:Ew; cbn [negb]; [|by apply IH]. apply Z.eqb_eq in Ew as ->.
  set (better := (2 <=? S (zero_prefix rest))%nat && _).
  destruct better eqn:Eb; [|by apply IH].
  specialize (IH (index + S (zero_prefix rest))%nat (Some (index, S (zero_prefix rest)))).
  assert (Hr : is_run ws index (S (zero_prefix rest))).
  { unfold better in Eb. breflect. apply Nat.leb_le in H. destruct (zero_prefix_spec rest) as [Hz Hl].
    pose proof (f_equal length E) as El. rewrite length_drop in El. cbn in El. split_and!; [|done|lia].
    rewrite <-drop_drop, E. cbn [repeat drop app]. rewrite <-Hz, <-E. symmetry. apply take_drop. }
  specialize (IH Hr). destruct (best_run _ _ _ _) as [[]|]; done.
Qed.

(** ** Parsing the canonical text *)

Lemma parse_words_format bs :
  Forall is_byte bs → length bs = 16%nat → parse_words (formatIpv6 bs) = Some (words_of_bytes bs).
Proof.
  intros Hbs Hl. destruct (bytes_of_words_spec 8 bs Hbs Hl) as (_ & Hws & Hlen).
  unfold formatIpv6. set (ws := words_of_bytes bs) in *.
  pose proof (best_run_spec 8 ws 0 None I) as Hb. destruct (best_run 8 ws 0 None) as [[s l]|].
  - destruct Hb as (E & Hl2 & Hsl). unfold parse_words.
    rewrite cut_hex_words by (by apply Forall_take). cbn [cut_double].
    change (Ascii.eqb colon colon && Ascii.eqb colon colon) with true. cbn [mbind option_bind].
    rewrite str_app_nil.
    pose proof (cut_hex_words (drop (s + l) ws) "" (Forall_drop _ _ _ Hws)) as Hc.
    rewrite str_app_nil in Hc. rewrite Hc. cbn [cut_double mbind option_bind].
    rewrite bool_decide_eq_false_2 by (intros [? ?]; done).
    rewrite !parse_hex_words by (by apply Forall_take || by apply Forall_drop). cbn [mbind option_bind].
    rewrite length_take, length_drop, Hlen. replace (8 <=? _)%nat with false by (symmetry; apply Nat.leb_gt; lia).
    replace (8 - _ - _)%nat with l by lia. by rewrite <-E.
  - unfold parse_words. pose proof (cut_hex_words ws "" Hws) as Hc. rewrite str_app_nil in Hc. rewrite Hc.
    cbn [cut_double mbind option_bind]. rewrite parse_hex_words by done. cbn [mbind option_bind].
    by rewrite Hlen.
Qed.

(** The characters of a canonical text. *)
Definition address_char (a : ascii) : bool := is_hex a || Ascii.eqb a colon || Ascii.eqb a dot.

Lemma hex_words_chars ws : Forall is_word ws → str_all (λ a, is_hex a || Ascii.eqb a colon) (hex_words ws) = true.
Proof.
  intros Hws. unfold hex_words. pose proof (hex_texts ws Hws) as Ht.
  induction Ht as [|p ps (_ & _ & Hp) Hps IH]; [done|].
  assert (Hp' : str_all (λ a, is_hex a || Ascii.eqb a colon) p = true).
  { eapply str_all_impl; [|exact Hp]. by intros a ->. }
  cbn [join]. destruct ps as [|q ps]; [done|]. rewrite str_all_app, Hp'. cbn [str_all].
  by rewrite IH, orb_true_r.
Qed.

Lemma formatIpv6_chars bs : Forall is_byte bs → length bs = 16%nat →
  str_all (λ a, is_hex a || Ascii.eqb a colon) (formatIpv6 bs) = true ∧ formatIpv6 bs ≠ "".
Proof.
  intros Hbs Hl. destruct (bytes_of_words_spec 8 bs Hbs Hl) as (_ & Hws & Hlen). unfold formatIpv6.
  set (ws := words_of_bytes bs) in *. destruct (best_run 8 ws 0 None) as [[s l]|].
  - rewrite str_all_app. cbn [str_all]. rewrite !hex_words_chars by (by apply Forall_take || by apply Forall_drop).
    rewrite Ascii.eqb_refl, orb_true_r. split; [done|]. by destruct (hex_words (take s ws)).
  - split; [by apply hex_words_chars|]. intros E. apply hex_words_nil in E; [|done]. by rewrite E in Hlen.
Qed.

Lemma formatIpv4_chars bs : Forall is_byte bs → length bs = 4%nat →
  str_all (λ a, is_digit a || Ascii.eqb a dot) (formatIpv4 bs) = true ∧ formatIpv4 bs ≠ "".
Proof.
  intros Hbs Hl. split.
  - unfold formatIpv4. clear Hl. induction Hbs as [|b bs Hb Hbs IH]; [done|].
    destruct (octet_text b Hb) as (_ & Ha & _). rewrite fmap_cons.
    assert (Ha' : str_all (λ a, is_digit a || Ascii.eqb a dot) (pretty b) = true).
    { eapply str_all_impl; [|exact Ha]. by intros a ->. }
    cbn [join]. destruct (pretty <$> bs) as [|q ps]; [done|]. rewrite str_all_app, Ha'. cbn [str_all].
    rewrite Ascii.eqb_refl, orb_true_r. exact IH.
  - intros E. pose proof (parseIpv4_formatIpv4 bs Hbs Hl) as Hp. rewrite E in Hp. by vm_compute in Hp.
Qed.

(** Text without white space is its own trim. *)
Lemma trim_no_space s : str_all (λ a, negb (is_space a)) s = true → trim s = s.
Proof.
  intros Hs. unfold trim. assert (Hst : trim_start s = s).
  { destruct s as [|a s]; [done|]. cbn in *. apply andb_true_iff in Hs as [Ha _]. by destruct (is_space a). }
  rewrite Hst. clear Hst. induction s as [|a s IH]; [done|]. cbn in *. apply andb_true_iff in Hs as [Ha Hs].
  rewrite (IH Hs). destruct s; [|done]. by destruct (is_space a).
Qed.

(** The guards of [parseIpAddress] let a text of address characters pass. *)
Lemma guards_pass p s :
  (∀ a, p a = true → is_space a = false ∧ Ascii.eqb a "["%char = false ∧ Ascii.eqb a "]"%char = false) →
  str_all p s = true → s ≠ "" →
  String.eqb s "" || negb (String.eqb (trim s) s) || starts_with "[" s || ends_with "]" s = false.
Proof.
  intros Hp Hs Hne. rewrite (proj2 (String.eqb_neq _ _) Hne), trim_no_space, String.eqb_refl.
  2: { eapply str_all_impl; [|exact Hs]. intros a Ha. by destruct (Hp a Ha) as [-> _]. }
  cbn [negb orb]. apply orb_false_iff. split.
  - destruct s as [|a s]; [done|]. cbn in Hs. apply andb_true_iff in Hs as [Ha _].
    destruct (Hp a Ha) as (_ & Hb & _). unfold starts_with. cbn [String.prefix].
    destruct (ascii_dec "["%char a) as [<-|]; [by rewrite Ascii.eqb_refl in Hb|done].
  - destruct (ends_with "]" s) eqn:E; [|done]. apply ends_with_spec in E as [r ->].
    rewrite str_all_app in Hs. apply andb_true_iff in Hs as [_ Hs]. cbn in Hs.
    apply andb_true_iff in Hs as [Hb _]. destruct (Hp _ Hb) as (_ & _ & H). by rewrite Ascii.eqb_refl in H.
Qed.

Lemma ascii_cases (P : ascii → bool) : forallb P (ascii_of_nat <$> seq 0 256) = true → ∀ a, P a = true.
Proof.
  intros Hall a. rewrite forallb_forall in Hall. apply Hall, list_elem_of_In, list_elem_of_fmap.
  exists (nat_of_ascii a). rewrite ascii_nat_embedding, elem_of_seq. split; [done|].
  pose proof (nat_ascii_bounded a). lia.
Qed.

Lemma address_char_guards a : address_char a = true →
  is_space a = false ∧ Ascii.eqb a "["%char = false ∧ Ascii.eqb a "]"%char = false.
Proof.
  intros Ha.
  assert (H : negb (address_char a) || (negb (is_space a) && negb (Ascii.eqb a "["%char) && negb (Ascii.eqb a "]"%char)) = true).
  { revert a Ha. intros a _. revert a. apply ascii_cases. by vm_compute. }
  rewrite Ha in H. cbn [negb orb] in H. breflect. done.
Qed.

(** What [parseIpAddress] yields for the bytes of an address. *)
Definition parsed_of (bs : list Z) : ParsedIpAddress :=
  if Nat.eqb (length bs) 4
  then {| address := formatIpv4 bs; family := V4; bytes := bs; mapped := None |}
  else {| address := formatIpv6 bs; family := V6; bytes := bs; mapped := formatIpv4 <$> mappedIpv4 bs |}.

(** The bytes of an address. *)
Definition address_bytes (bs : list Z) : Prop := Forall is_byte bs ∧ (length bs = 4%nat ∨ length bs = 16%nat).

Lemma parse_canonical bs : address_bytes bs → parseIpAddress (address (parsed_of bs)) = Some (parsed_of bs).
Proof.
  intros [Hbs [Hl|Hl]]; unfold parsed_of; rewrite Hl; cbn [Nat.eqb address].
  - destruct (formatIpv4_chars bs Hbs Hl) as [Hc Hne]. unfold parseIpAddress.
    rewrite (guards_pass address_char) by
      (apply address_char_guards || done || (eapply str_all_impl; [|exact Hc]; intros a Ha; unfold address_char, is_hex;
        apply orb_true_iff in Ha as [->| ->]; [done|by rewrite orb_true_r])).
    by rewrite parseIpv4_formatIpv4.
  - destruct (formatIpv6_chars bs Hbs Hl) as [Hc Hne]. unfold parseIpAddress.
    rewrite (guards_pass address_char) by
      (apply address_char_guards || done || (eapply str_all_impl; [|exact Hc]; intros a Ha; unfold address_char; by rewrite Ha)).
    assert (H4 : parseIpv4 (formatIpv6 bs) = None).
    { unfold parseIpv4. rewrite split_no_sep; [done|]. by apply (has_char_all _ (λ a, is_hex a || Ascii.eqb a colon)). }
    assert (Hpct : has_char "%"%char (formatIpv6 bs) = false) by 
      (by apply (has_char_all _ (λ a, is_hex a || Ascii.eqb a colon))).
    rewrite H4. unfold parseIpv6. rewrite (proj2 (String.eqb_neq _ _) Hne), Hpct. cbn [orb].
    rewrite parse_words_format by done. cbn.
    destruct (bytes_of_words_spec 8 bs Hbs Hl) as (-> & _ & _). done.
Qed.

(** ** What parsing yields *)

Lemma decimal_hex_bound n s :
  str_all is_hex s = true → strlen s ≤ Z.of_nat n → 0 ≤ parse_hex 0 s < 16 ^ Z.of_nat n.
Proof.
  intros Hs Hn. assert (Hgen : ∀ acc, 0 ≤ acc →
    acc * 16 ^ strlen s ≤ parse_hex acc s < (acc + 1) * 16 ^ strlen s).
  { clear Hn. induction s as [|a s IH]; intros acc Hacc; [change (strlen "") with 0; cbn [parse_hex]; rewrite Z.pow_0_r; lia|].
    cbn in Hs. apply andb_true_iff in Hs as [Ha Hs].
    assert (Hv : 0 ≤ hex_value a < 16).
    { assert (H : negb (is_hex a) || ((0 <=? hex_value a) && (hex_value a <? 16)) = true)
        by (revert a Ha; intros a _; revert a; apply ascii_cases; by vm_compute).
      rewrite Ha in H. cbn [negb orb] in H. breflect. lia. }
    change (parse_hex acc (String a s)) with (parse_hex (acc * 16 + hex_value a) s).
    specialize (IH Hs (acc * 16 + hex_value a) ltac:(lia)).
    assert (El : strlen (String a s) = Z.succ (strlen s)) by (unfold strlen; cbn [String.length]; lia).
    rewrite El, Z.pow_succ_r by apply strlen_nonneg.
    pose proof (Z.pow_pos_nonneg 16 (strlen s) ltac:(lia) (strlen_nonneg s)). nia. }
  specialize (Hgen 0 ltac:(lia)). pose proof (strlen_nonneg s).
  pose proof (Z.pow_le_mono_r 16 (strlen s) (Z.of_nat n) ltac:(lia) Hn). lia.
Qed.

Lemma hextet_word s : hextet_matches s = true → is_word (parse_hex 0 s).
Proof.
  unfold hextet_matches. intros H. breflect. apply (decimal_hex_bound 4); [done|lia].
Qed.

Lemma hextets_range allow parts ws : hextets allow parts = Some ws → Forall is_word ws.
Proof.
  revert ws. induction parts as [|part rest IH]; intros ws; cbn [hextets]; [by intros [= <-]|].
  destruct (String.eqb part ""); [done|]. destruct (has_char dot part).
  - destruct (_ || _); [done|]. destruct (parseIpv4 part) as [b|] eqn:E; [|done]. cbn. intros [= <-].
    apply parseIpv4_range in E as [Hb Hl]. destruct b as [|b0 [|b1 [|b2 [|b3 [|]]]]]; try done.
    rewrite !Forall_cons in Hb. destruct Hb as (H0 & H1 & H2 & H3 & _).
    repeat (constructor; [by apply word_of_is_word|]). constructor.
  - destruct (hextet_matches part) eqn:Em; [|done]. cbn [negb].
    destruct (hextets allow rest) as [ws'|]; [|done]. cbn. intros [= <-].
    constructor; [by apply hextet_word|by apply IH].
Qed.

Lemma parseHextetSequence_range s allow ws : parseHextetSequence s allow = Some ws → Forall is_word ws.
Proof. unfold parseHextetSequence. destruct (String.eqb s ""); [intros [= <-]; constructor|apply hextets_range]. Qed.

Lemma parse_words_range s ws : parse_words s = Some ws → Forall is_word ws ∧ length ws = 8%nat.
Proof.
  unfold parse_words. destruct (cut_double s) as [[before after]|].
  - destruct (bool_decide _); [done|].
    destruct (parseHextetSequence before false) as [l|] eqn:El; [|done]. cbn [mbind option_bind].
    destruct (parseHextetSequence after true) as [r|] eqn:Er; [|done]. cbn [mbind option_bind].
    destruct (8 <=? _)%nat eqn:Eb; [done|]. intros [= <-]. apply Nat.leb_gt in Eb.
    apply parseHextetSequence_range in El. apply parseHextetSequence_range in Er. split.
    + apply Forall_app. split; [done|]. apply Forall_app. split; [|done].
      apply Forall_forall. intros x Hx. apply list_elem_of_In, repeat_spec in Hx as ->. unfold is_word. lia.
    + rewrite !length_app, repeat_length. lia.
  - destruct (parseHextetSequence s true) as [ws'|] eqn:E; [|done]. cbn [mbind option_bind].
    destruct (Nat.eqb _ _) eqn:El; [|done]. cbn. intros [= <-]. apply Nat.eqb_eq in El.
    split; [by eapply parseHextetSequence_range|done].
Qed.

Lemma parseIpAddress_inv s p :
  parseIpAddress s = Some p → address_bytes (bytes p) ∧ p = parsed_of (bytes p).
Proof.
  unfold parseIpAddress. destruct (_ || _); [done|]. destruct (parseIpv4 s) as [b|] eqn:E4.
  - intros [= <-]. cbn [bytes]. apply parseIpv4_range in E4 as [Hb Hl].
    split; [split; [done|by left]|]. unfold parsed_of. by rewrite Hl.
  - unfold parseIpv6. destruct (_ || _); [done|]. destruct (parse_words s) as [ws|] eqn:Ew; [|done]. cbn.
    intros [= <-]. apply parse_words_range in Ew as [Hws Hl]. cbn [bytes].
    destruct (bytes_of_words_range ws) as [Hr Hlen]. rewrite Hl in Hlen.
    split; [split; [done|by right]|]. unfold parsed_of. by rewrite Hlen.
Qed.

Lemma parse_idemp s p : parseIpAddress s = Some p → parseIpAddress (address p) = Some p.
Proof. intros H. destruct (parseIpAddress_inv s p H) as [Hb ->]. by apply parse_canonical. Qed.

(** ** The property *)

(** The canonical text of an address is a faithful name of it. The text of
    every sequence of 4 or 16 bytes parses back to exactly those bytes; whatever
    spelling was parsed, the canonical text parses to the same address, so
    canonicalization is idempotent; and two parsed inputs with the same
    canonical text are the same address. *)
Lemma canonical_text_roundtrip :
  (∀ bs, address_bytes bs → parseIpAddress (address (parsed_of bs)) = Some (parsed_of bs)) ∧
  (∀ s p, parseIpAddress s = Some p → parseIpAddress (address p) = Some p) ∧
  (∀ s1 s2 p1 p2, parseIpAddress s1 = Some p1 → parseIpAddress s2 = Some p2 →
     address p1 = address p2 → p1 = p2).
Proof.
  split_and!; [exact parse_canonical|exact parse_idemp|].
  intros s1 s2 p1 p2 H1%parse_idemp H2%parse_idemp E. congruence.
Qed.
