(* ===== verification/AddressRanges.v ===== *)
(** Prefix matching as arithmetic on addresses, and the classification of an
    address by the blocks of the special-use tables. *)
From S2P Require Import Prelude Errors Texts Addresses AddressText.
#[local] Open Scope string_scope. #[local] Open Scope Z_scope.

(** ** Addresses as numbers *)

(** The big-endian number of an address. *)
Fixpoint number (bs : list Z) : Z :=
  match bs with
  | [] => 0
  | b :: rest => b * 256 ^ Z.of_nat (length rest) + number rest
  end.

Lemma number_bound bs : Forall is_byte bs → 0 ≤ number bs < 256 ^ Z.of_nat (length bs).
Proof.
  induction 1 as [|b bs Hb _ IH]; [cbn; lia|]. cbn [number length].
  rewrite Nat2Z.inj_succ, Z.pow_succ_r by lia. unfold is_byte in Hb. nia.
Qed.

Lemma pow256 n : 0 ≤ n → 256 ^ n = 2 ^ (8 * n).
Proof. intros Hn. rewrite Z.pow_mul_r by lia. done. Qed.

(** The mask keeps the leading bits of a byte. *)
Definition mask_of (k : Z) : Z := Z.land (Z.shiftl 255 (8 - k)) 255.
Lemma land_mask b k : is_byte b → 0 < k < 8 → Z.land b (mask_of k) = (b / 2 ^ (8 - k)) * 2 ^ (8 - k).
Proof.
  intros Hb Hk.
  assert (H : forallb (λ k, Z.land b (mask_of k) =? (b / 2 ^ (8 - k)) * 2 ^ (8 - k)) [1;2;3;4;5;6;7] = true).
  { apply (byte_cases (λ b, forallb (λ k, Z.land b (mask_of k) =? (b / 2 ^ (8 - k)) * 2 ^ (8 - k)) [1;2;3;4;5;6;7]));
      [by vm_compute|done]. }
  rewrite forallb_forall in H. apply Z.eqb_eq, H.
  assert (k = 1 ∨ k = 2 ∨ k = 3 ∨ k = 4 ∨ k = 5 ∨ k = 6 ∨ k = 7) by lia. cbn. intuition.
Qed.

Lemma land_mask_eq b r k : is_byte b → is_byte r → 0 < k < 8 →
  (Z.land b (mask_of k) =? Z.land r (mask_of k)) = (b / 2 ^ (8 - k) =? r / 2 ^ (8 - k)).
Proof.
  intros Hb Hr Hk. rewrite !land_mask by done. apply eq_bool_prop_intro.
  rewrite !Is_true_true, !Z.eqb_eq. pose proof (Z.pow_pos_nonneg 2 (8 - k) ltac:(lia) ltac:(lia)). nia.
Qed.

(** The leading byte, when fewer bits than a byte remain. *)
Lemma leading_byte b bs k :
  Forall is_byte bs → 0 ≤ k ≤ 8 →
  number (b :: bs) / 2 ^ (8 * Z.of_nat (S (length bs)) - k) = b / 2 ^ (8 - k).
Proof.
  intros Hbs Hk. cbn [number]. pose proof (number_bound bs Hbs) as Hn.
  replace (8 * Z.of_nat (S (length bs)) - k) with (8 * Z.of_nat (length bs) + (8 - k)) by lia.
  rewrite Z.pow_add_r, <-pow256, <-Z.div_div by lia. rewrite Z.div_add_l, (Z.div_small (number bs)), Z.add_0_r by lia.
  done.
Qed.

(** The trailing bytes, when at least a byte remains. *)
Lemma trailing_bytes b bs k :
  Forall is_byte bs → 8 ≤ k ≤ 8 * Z.of_nat (S (length bs)) →
  let e := 8 * Z.of_nat (S (length bs)) - k in
  number (b :: bs) / 2 ^ e = b * 2 ^ (8 * Z.of_nat (length bs) - e) + number bs / 2 ^ e ∧
  0 ≤ number bs / 2 ^ e < 2 ^ (8 * Z.of_nat (length bs) - e).
Proof.
  intros Hbs Hk e. pose proof (number_bound bs Hbs) as Hn. rewrite pow256 in Hn by lia. cbn [number].
  assert (He : 0 ≤ e ≤ 8 * Z.of_nat (length bs)) by lia.
  assert (Hsplit : 256 ^ Z.of_nat (length bs) = 2 ^ (8 * Z.of_nat (length bs) - e) * 2 ^ e).
  { rewrite pow256, <-Z.pow_add_r by lia. f_equal. lia. }
  pose proof (Z.pow_pos_nonneg 2 e ltac:(lia) ltac:(lia)).
  split.
  - rewrite Hsplit, Z.mul_assoc, Z.div_add_l by lia. done.
  - split; [apply Z.div_pos; lia|]. apply Z.div_lt_upper_bound; [lia|].
    rewrite pow256 in Hsplit by lia. lia.
Qed.

Lemma matchesPrefix_cons b bs r rs k :
  8 ≤ k → matchesPrefix (b :: bs) (r :: rs) k = (b =? r) && matchesPrefix bs rs (k - 8).
Proof.
  intros Hk. unfold matchesPrefix. replace (k / 8) with ((k - 8) / 8 + 1) by
    (rewrite <-Z.div_add by lia; f_equal; lia).
  assert (Hp : 0 ≤ (k - 8) / 8) by (apply Z.div_pos; lia).
  replace (Z.to_nat ((k - 8) / 8 + 1)) with (S (Z.to_nat ((k - 8) / 8))) by lia.
  replace (k mod 8) with ((k - 8) mod 8) by
    (rewrite <-(Z.mod_add (k - 8) 1) by lia; f_equal; lia).
  cbn [take nth]. destruct (b =? r) eqn:E; breflect.
  - subst. cbn [andb]. destruct (decide (take (Z.to_nat ((k - 8) / 8)) bs = take (Z.to_nat ((k - 8) / 8)) rs)) as [Et|Et].
    + by rewrite !bool_decide_eq_true_2 by congruence.
    + by rewrite !bool_decide_eq_false_2 by congruence.
  - rewrite bool_decide_eq_false_2 by congruence. done.
Qed.

(** Prefix matching compares the leading bits of the two numbers. *)
Lemma matchesPrefix_number bs rs k :
  Forall is_byte bs → Forall is_byte rs → length bs = length rs → 0 ≤ k ≤ 8 * Z.of_nat (length bs) →
  matchesPrefix bs rs k =
  (number bs / 2 ^ (8 * Z.of_nat (length bs) - k) =? number rs / 2 ^ (8 * Z.of_nat (length bs) - k)).
Proof.
  intros Hbs. revert rs k. induction Hbs as [|b bs Hb Hbs IH]; intros rs k Hrs Hl Hk.
  { destruct rs; [|done]. cbn in Hk. assert (k = 0) as -> by lia. done. }
  destruct rs as [|r rs]; [done|]. apply Forall_cons in Hrs as [Hr Hrs]. cbn in Hl. injection Hl as Hl.
  destruct (decide (8 ≤ k)) as [H8|H8].
  - rewrite matchesPrefix_cons by done. cbn [length] in *. rewrite IH by (done || lia).
    pose proof (trailing_bytes b bs k Hbs ltac:(lia)) as [Eb Bb].
    pose proof (trailing_bytes r rs k Hrs ltac:(lia)) as [Er Br]. rewrite <-Hl in *.
    replace (8 * Z.of_nat (length bs) - (k - 8)) with (8 * Z.of_nat (S (length bs)) - k) by lia.
    rewrite Eb, Er. apply eq_bool_prop_intro. rewrite !Is_true_true, andb_true_iff, !Z.eqb_eq.
    set (e := 2 ^ (8 * Z.of_nat (length bs) - (8 * Z.of_nat (S (length bs)) - k))) in *.
    set (q := number bs / _) in *. set (p := number rs / _) in *. split; [intros [-> ->]; done|]. intros E.
    assert (b = r) by nia. subst. split; [done|lia].
  - unfold matchesPrefix. replace (k / 8) with 0 by (symmetry; apply Z.div_small; lia).
    cbn [take nth Z.to_nat]. rewrite bool_decide_eq_true_2 by done. cbn [negb].
    rewrite (Z.mod_small k) by lia. cbn [length].
    rewrite leading_byte by (done || lia). rewrite Hl, leading_byte by (done || lia).
    destruct (k =? 0) eqn:E; breflect.
    + subst. unfold is_byte in *. rewrite !Z.div_small by (cbn; lia). done.
    + fold (mask_of k). apply land_mask_eq; (done || lia).
Qed.

Lemma number_inj bs rs :
  Forall is_byte bs → Forall is_byte rs → length bs = length rs → number bs = number rs → bs = rs.
Proof.
  intros Hbs. revert rs. induction Hbs as [|b bs Hb Hbs IH]; intros rs Hrs Hl E; [by destruct rs|].
  destruct rs as [|r rs]; [done|]. apply Forall_cons in Hrs as [Hr Hrs]. cbn in Hl. injection Hl as Hl.
  cbn [number] in E. rewrite <-Hl in E. pose proof (number_bound bs Hbs). pose proof (number_bound rs Hrs) as Hn.
  rewrite <-Hl in Hn. assert (b = r) by nia. subst. f_equal. apply IH; [done..|lia].
Qed.

(** ** Blocks *)

(** The block of a table entry, in addresses of [width] bits, contains a number. *)
Definition in_block (width : Z) (r : AddressRange) (x : Z) : bool :=
  match parseIpAddress (prefix r) with
  | Some p => let base := number (bytes p) in (base <=? x) && (x <? base + 2 ^ (width - prefixLength r))
  | None => false
  end.

(** The category of the first block of a table that contains the number. *)
Definition first_block (width : Z) (table : list AddressRange) (x : Z) : option NonPublicAddressCategory :=
  range_category <$> find (λ r, in_block width r x) table.

(** A table entry is an aligned block of addresses of the family. *)
Definition range_ok (width : Z) (fam : IpFamily) (r : AddressRange) : bool :=
  match parseIpAddress (prefix r) with
  | Some p =>
      bool_decide (family p = fam) && (8 * Z.of_nat (length (bytes p)) =? width) &&
      (0 <=? prefixLength r) && (prefixLength r <=? width) &&
      (number (bytes p) mod 2 ^ (width - prefixLength r) =? 0)
  | None => false
  end.

Lemma tables_ok :
  forallb (range_ok 32 V4) IPV4_NON_PUBLIC_RANGES = true ∧ forallb (range_ok 128 V6) IPV6_NON_PUBLIC_RANGES = true.
Proof. split; by vm_compute. Qed.

Lemma aligned_block base x e :
  0 ≤ e → base mod 2 ^ e = 0 → (x / 2 ^ e =? base / 2 ^ e) = (base <=? x) && (x <? base + 2 ^ e).
Proof.
  intros He Hb. pose proof (Z.pow_pos_nonneg 2 e ltac:(lia) He) as Hp.
  apply Z.mod_divide in Hb as [q ->]; [|lia]. rewrite Z.div_mul by lia.
  apply eq_bool_prop_intro. rewrite !Is_true_true, andb_true_iff, Z.eqb_eq, Z.leb_le, Z.ltb_lt.
  pose proof (Z.div_mod x (2 ^ e) ltac:(lia)). pose proof (Z.mod_pos_bound x (2 ^ e) Hp).
  split; [intros <-; nia|]. intros [H1 H2]. symmetry. apply (Z.div_unique x (2 ^ e) q (x - q * 2 ^ e)); nia.
Qed.

Lemma categoryInRanges_spec width p ranges :
  Forall is_byte (bytes p) → 8 * Z.of_nat (length (bytes p)) = width →
  forallb (range_ok width (family p)) ranges = true →
  categoryInRanges p ranges = Ok (first_block width ranges (number (bytes p))).
Proof.
  intros Hb Hw Hok. induction ranges as [|r rest IH]; [done|]. cbn [forallb] in Hok.
  apply andb_true_iff in Hok as [Hr Hrest]. specialize (IH Hrest).
  unfold range_ok in Hr. cbn [categoryInRanges]. unfold first_block. cbn [find].
  assert (Hin : in_block width r (number (bytes p)) =
    match parseIpAddress (prefix r) with
    | Some q => matchesPrefix (bytes p) (bytes q) (prefixLength r) | None => false end).
  { unfold in_block. destruct (parseIpAddress (prefix r)) as [q|] eqn:Eq; [|done]. breflect.
    destruct (parseIpAddress_inv _ _ Eq) as [[Hq _] _].
    rewrite matchesPrefix_number by (done || lia). rewrite Hw. symmetry. apply aligned_block; [lia|done]. }
  destruct (parseIpAddress (prefix r)) as [q|]; [|done]. breflect.
  rewrite bool_decide_eq_true_2 by done. cbn [negb]. rewrite Hin.
  destruct (matchesPrefix _ _ _); [done|]. exact IH.
Qed.

(** ** Classification *)

(** The category the tables assign to the bytes of an address; [None] is public. *)
Definition category_of_bytes (bs : list Z) : option NonPublicAddressCategory :=
  if Nat.eqb (length bs) 4 then first_block 32 IPV4_NON_PUBLIC_RANGES (number bs)
  else
    match mappedIpv4 bs with
    | Some v4 => first_block 32 IPV4_NON_PUBLIC_RANGES (number v4)
    | None =>
        let n := number bs in
        if n =? 0 then Some Unspecified
        else if n =? 1 then Some Loopback
        else match first_block 128 IPV6_NON_PUBLIC_RANGES n with
             | Some c => Some c
             | None => if (2 ^ 125 <=? n) && (n <? 2 ^ 126) then None else Some Reserved
             end
    end.

Lemma mappedIpv4_bytes bs v4 : Forall is_byte bs → mappedIpv4 bs = Some v4 → Forall is_byte v4 ∧ length v4 = 4%nat.
Proof.
  unfold mappedIpv4. intros Hb. destruct (Nat.eqb _ _) eqn:E; [|done]. apply Nat.eqb_eq in E. cbn [negb].
  destruct (negb _); [done|]. destruct (_ || _); [done|]. intros [= <-].
  split; [by apply Forall_drop|]. rewrite length_drop, E. done.
Qed.

(** Canonical texts of single addresses. *)
Lemma address_is bs q text :
  address_bytes bs → length bs = 16%nat → parseIpAddress text = Some q →
  address q = text → length (bytes q) = 16%nat →
  String.eqb (address (parsed_of bs)) text = (number bs =? number (bytes q)).
Proof.
  intros Hb Hl Hq Ht Hlq. apply eq_bool_prop_intro. rewrite !Is_true_true, String.eqb_eq, Z.eqb_eq.
  destruct (parseIpAddress_inv _ _ Hq) as [Hqb Eq]. split.
  - intros E. pose proof (parse_canonical bs Hb) as Hc. rewrite E, Hq in Hc. injection Hc as ->.
    unfold parsed_of. by rewrite Hl.
  - intros E. assert (bs = bytes q) as -> by
      (apply number_inj; [apply Hb|apply Hqb|congruence|done]). by rewrite <-Eq.
Qed.

Definition zero_address : ParsedIpAddress :=
  {| address := "::"; family := V6; bytes := repeat 0 16; mapped := None |}.
Definition one_address : ParsedIpAddress :=
  {| address := "::1"; family := V6; bytes := (repeat 0 15 ++ [1])%list; mapped := None |}.

Lemma single_addresses :
  parseIpAddress "::" = Some zero_address ∧ parseIpAddress "::1" = Some one_address ∧
  global_unicast = 32 :: repeat 0 15.
Proof. split_and!; by vm_compute. Qed.

Lemma parsed_of_v4 bs : length bs = 4%nat →
  bytes (parsed_of bs) = bs ∧ family (parsed_of bs) = V4 ∧ address (parsed_of bs) = formatIpv4 bs.
Proof. intros Hl. unfold parsed_of. rewrite Hl. split_and!; reflexivity. Qed.
Lemma parsed_of_v6 bs : length bs = 16%nat →
  bytes (parsed_of bs) = bs ∧ family (parsed_of bs) = V6 ∧ mapped (parsed_of bs) = formatIpv4 <$> mappedIpv4 bs.
Proof. intros Hl. unfold parsed_of. rewrite Hl. split_and!; reflexivity. Qed.

Lemma category_of_parsed bs :
  address_bytes bs → category_of (parsed_of bs) = Ok (category_of_bytes bs).
Proof.
  intros Hb. pose proof Hb as [Hbs Hl]. destruct tables_ok as [T4 T6].
  assert (Hv4 : ∀ v4, Forall is_byte v4 → length v4 = 4%nat →
    classifyParsedIpv4 (parsed_of v4) = Ok (first_block 32 IPV4_NON_PUBLIC_RANGES (number v4))).
  { intros v4 Hv Hlv. destruct (parsed_of_v4 v4 Hlv) as (Eb & Ef & _). unfold classifyParsedIpv4.
    rewrite <-Ef in T4. pose proof (categoryInRanges_spec 32 (parsed_of v4) IPV4_NON_PUBLIC_RANGES) as Hcat.
    rewrite Eb in Hcat. exact (Hcat Hv ltac:(rewrite Hlv; reflexivity) T4). }
  unfold category_of, category_of_bytes. destruct Hl as [Hl|Hl].
  - destruct (parsed_of_v4 bs Hl) as (_ & Ef & _). rewrite Ef, Hl. cbn [Nat.eqb]. by apply Hv4.
  - destruct (parsed_of_v6 bs Hl) as (Ep & Ef & Em0). rewrite Ef, Em0, Hl. cbn [Nat.eqb].
    destruct (mappedIpv4 bs) as [v4|] eqn:Em; cbn [fmap option_fmap option_map].
    + destruct (mappedIpv4_bytes _ _ Hbs Em) as [Hv Hlv].
      pose proof (parse_canonical v4 (conj Hv (or_introl Hlv))) as Hc.
      destruct (parsed_of_v4 v4 Hlv) as (_ & _ & Ea). rewrite Ea in Hc. rewrite Hc. by apply Hv4.
    + rewrite <-Ef in T6. pose proof (categoryInRanges_spec 128 (parsed_of bs) IPV6_NON_PUBLIC_RANGES) as Hcat.
      rewrite Ep in Hcat. rewrite (Hcat Hbs ltac:(rewrite Hl; reflexivity) T6). cbn [mbind result_bind].
      destruct single_addresses as (S0 & S1 & Sg).
      rewrite (address_is bs zero_address "::" Hb Hl S0), (address_is bs one_address "::1" Hb Hl S1) by reflexivity.
      change (number (bytes zero_address)) with 0. change (number (bytes one_address)) with 1.
      rewrite Ep, Sg, matchesPrefix_number; [|done| |by rewrite Hl|rewrite Hl; lia].
      2: { repeat (constructor; [unfold is_byte; lia|]). constructor. }
      rewrite Hl. change (8 * Z.of_nat 16 - 3) with 125. rewrite aligned_block; [|lia|by vm_compute].
      replace (number (32 :: repeat 0 15)) with (2 ^ 125) by (by vm_compute).
      change (2 ^ 125 + 2 ^ 125) with (2 ^ 126).
      destruct (number bs =? 1) eqn:E1; breflect; [rewrite E1; done|].
      destruct (number bs =? 0); [done|]. done.
Qed.

(** C32: classification never fails on a parsed address, and it is decided by
    the address as a number: a 4-byte address is public exactly when no block
    of the IPv4 table contains it, an IPv4-mapped address is classified as the
    IPv4 address it maps, whatever its spelling, and any other 16-byte address
    is public exactly when it lies in 2000::/3 and in no block of the IPv6
    table. The category is that of the first block that contains it. *)
Theorem classification_by_blocks s p :
  parseIpAddress s = Some p →
  classifyParsedAddress p = Ok {|
    classified := p;
    isPublic := bool_decide (category_of_bytes (bytes p) = None);
    category := category_of_bytes (bytes p) |} ∧
  (category_of_bytes (bytes p) = None ↔
     match family p, mappedIpv4 (bytes p) with
     | V4, _ => ∀ r, r ∈ IPV4_NON_PUBLIC_RANGES → in_block 32 r (number (bytes p)) = false
     | V6, Some v4 => ∀ r, r ∈ IPV4_NON_PUBLIC_RANGES → in_block 32 r (number v4) = false
     | V6, None => 2 ^ 125 ≤ number (bytes p) < 2 ^ 126 ∧
         ∀ r, r ∈ IPV6_NON_PUBLIC_RANGES → in_block 128 r (number (bytes p)) = false
     end).
Proof.
  intros Hp. destruct (parseIpAddress_inv s p Hp) as [Hb E]. split.
  - unfold classifyParsedAddress. rewrite E at 1. rewrite category_of_parsed by done. done.
  - assert (Hfind : ∀ w t n, first_block w t n = None ↔ ∀ r, r ∈ t → in_block w r n = false).
    { intros w t n. unfold first_block. rewrite fmap_None. split.
      - intros H r Hr. eapply find_none in H; [exact H|by apply list_elem_of_In].
      - intros H. destruct (find _ t) as [r|] eqn:Ef; [|done]. apply find_some in Ef as [Hin Hr].
        apply list_elem_of_In in Hin. rewrite H in Hr by done. done. }
    destruct Hb as [Hbs [Hl|Hl]].
    { destruct (parsed_of_v4 _ Hl) as (_ & Ef & _). rewrite <-E in Ef. rewrite Ef.
      unfold category_of_bytes. rewrite Hl. apply Hfind. }
    destruct (parsed_of_v6 _ Hl) as (_ & Ef & _). rewrite <-E in Ef. rewrite Ef.
    unfold category_of_bytes. rewrite Hl. cbn [Nat.eqb].
    destruct (mappedIpv4 (bytes p)) as [v4|]; [apply Hfind|].
    rewrite <-(Hfind 128). set (n := number (bytes p)).
    destruct (n =? 0) eqn:E0; breflect; [split; [done|lia]|].
    destruct (n =? 1) eqn:E1; breflect; [split; [done|lia]|].
    destruct (first_block 128 _ n); [split; [done|by intros [_ ?]]|].
    destruct ((2 ^ 125 <=? n) && (n <? 2 ^ 126)) eqn:Eb; [breflect; split; [done|by auto]|].
    apply andb_false_iff in Eb. rewrite Z.leb_gt, Z.ltb_ge in Eb. split; [done|lia].
Qed.

(** An IPv4-mapped private address in its hexadecimal spelling. *)
Lemma classification_by_blocks_witness :
  match parseIpAddress "::FFFF:0a00:0001" with
  | Some p => mapped p = Some "10.0.0.1" ∧
      classifyParsedAddress p = Ok {| classified := p; isPublic := false; category := Some Private |}
  | None => False
  end.
Proof.
  destruct (parseIpAddress "::FFFF:0a00:0001") as [p|] eqn:E; [|vm_compute in E; discriminate E].
  destruct (classification_by_blocks "::FFFF:0a00:0001" p E) as [Hc _].
  vm_compute in E. injection E as <-. split; [reflexivity|]. rewrite Hc. vm_compute. reflexivity.
Defined.
