(* ===== verification/NetworkPolicy.v ===== *)
(** The destination policy of managed egress ([src/server/network/policy.ts]):
    normalization of hosts and patterns, compilation of a policy and the one
    decision path of the proxies. *)
From S2P Require Import Prelude Errors Texts Addresses.
#[local] Open Scope string_scope. #[local] Open Scope Z_scope.

(** ** Data *)

(** src/server/network/policy.ts:10-15 DestinationPolicyReason *)
Inductive DestinationPolicyReason := Allowlist | ExplicitDeny | NotAllowed | LocalAddress | PortNotAllowed.

Inductive host_kind := KindDomain | KindIp.
#[export] Instance host_kind_eq : EqDecision host_kind.
Proof. solve_decision. Defined.

(** src/server/network/policy.ts:17-22 NormalizedDestinationHost *)
Record NormalizedDestinationHost := {
  nh_host : string;
  nh_kind : host_kind;
  nh_family : option IpFamily;
  nh_address : option AddressClassification;
}.

(** src/server/network/policy.ts:24-29 DestinationPolicyDecision *)
Record DestinationPolicyDecision := {
  allowed : bool;
  reason : DestinationPolicyReason;
  decided_host : NormalizedDestinationHost;
  decided_port : Z;
}.

(** src/server/network/policy.ts:31-34 DestinationPolicyInput *)
Record DestinationPolicyInput := { in_host : string; in_port : jsnum }.

(** Ports are given as integers. *)
(** src/server/network/policy.ts:36-41 DestinationPolicyConfig *)
Record DestinationPolicyConfig := {
  allowedDomainPatterns : list string;
  deniedDomainPatterns : list string;
  config_allowedPorts : option (list Z);
  allowedPortSet : option (list Z);
}.

(** What these functions throw: a [DestinationPolicyError], or an error of another kind. *)
(** src/server/network/policy.ts:43-51 DestinationPolicyError *)
Inductive policy_code := InvalidHost | InvalidPattern | InvalidPort | InvalidPolicy.
Inductive policy_thrown :=
| DestinationPolicyError (code : policy_code) (message : string)
| OtherError (e : thrown).

(** The read-only view has the values of a [Set]. *)
(** src/server/network/policy.ts:53-89 ImmutableSetView *)
Definition set_view (values : list Z) : list Z :=
  fold_left (λ acc v, if bool_decide (v ∈ acc) then acc else (acc ++ [v])%list) values [].

Inductive pattern_mode := ModeAll | ModeExact | ModeSubdomains | ModeApexAndSubdomains.
#[export] Instance pattern_mode_eq : EqDecision pattern_mode.
Proof. solve_decision. Defined.

(** [None] is the kind [all]. *)
(** src/server/network/policy.ts:91-96 CompiledPattern *)
Record CompiledPattern := {
  pat_normalized : string;
  pat_mode : pattern_mode;
  pat_base : string;
  pat_kind : option host_kind;
}.

(** src/server/network/policy.ts:98-105 CompiledDestinationPolicy *)
Record CompiledDestinationPolicy := {
  allowedPatterns : list string;
  deniedPatterns : list string;
  allowedPorts : list Z;
  compiled_allowed : list CompiledPattern;
  compiled_denied : list CompiledPattern;
}.

(** [node:url]: [None] where the conversion throws. *)
Class NodeUrl := {
  domainToASCII : string → option string;
  domainToUnicode : string → string;
}.

(** ** Texts *)

(** [a.toLowerCase()] of a code unit below 256. *)
Definition lower_char (a : ascii) : ascii :=
  let c := unit_code a in
  if ((65 <=? c) && (c <=? 90)) || ((192 <=? c) && (c <=? 222) && negb (c =? 215))
  then ascii_of_N (Z.to_N (c + 32)) else a.
Fixpoint toLowerCase (s : string) : string :=
  match s with EmptyString => EmptyString | String a r => String (lower_char a) (toLowerCase r) end.

(** [s.slice(0, -1)] *)
Fixpoint drop_last (s : string) : string :=
  match s with
  | EmptyString => EmptyString
  | String a EmptyString => EmptyString
  | String a r => String a (drop_last r)
  end.

Fixpoint last_char (s : string) : option ascii :=
  match s with
  | EmptyString => None
  | String a EmptyString => Some a
  | String _ r => last_char r
  end.

Definition is_lower_alnum (a : ascii) : bool :=
  let c := unit_code a in is_digit a || ((97 <=? c) && (c <=? 122)).

(** The pattern [^[a-z0-9](?:[a-z0-9-]*[a-z0-9])?$]. *)
(** src/server/network/policy.ts:118-118 labelPattern *)
Definition label_matches (label : string) : bool :=
  match label with
  | EmptyString => false
  | String a _ =>
      is_lower_alnum a && str_all (λ a, is_lower_alnum a || Ascii.eqb a "-"%char) label
      && match last_char label with Some z => is_lower_alnum z | None => false end
  end.

(** The pattern [^(?:[0-9]+|0[xX][0-9a-fA-F]+)$]. *)
(** src/server/network/policy.ts:131-131 numericPattern *)
Definition numeric_label (label : string) : bool :=
  match label with
  | EmptyString => false
  | String a r =>
      str_all is_digit label
      || match r with
         | String x h =>
             Ascii.eqb a "0"%char && (Ascii.eqb x "x"%char || Ascii.eqb x "X"%char)
             && negb (String.eqb h "") && str_all is_hex h
         | EmptyString => false
         end
  end.

(** src/server/network/policy.ts:128-133 isAmbiguousNumericHost *)
Definition isAmbiguousNumericHost (host : string) : bool := forallb numeric_label (split dot host).

(** The characters that no DNS name contains. *)
(** src/server/network/policy.ts:166-174 forbidden *)
Definition forbidden_char (a : ascii) : bool :=
  existsb (Ascii.eqb a) [colon; "/"%char; "?"%char; "#"%char; "@"%char; "%"%char; "\"%char]
  || (unit_code a <=? 32) || (unit_code a =? 127).

(** ** Hosts *)

(** src/server/network/policy.ts:107-109 invalidHost *)
Definition invalidHost {A} : result policy_thrown A :=
  Err (DestinationPolicyError InvalidHost "invalid destination host").

Definition classified_address (p : ParsedIpAddress) : result policy_thrown AddressClassification :=
  match classifyParsedAddress p with Ok c => Ok c | Err e => Err (OtherError e) end.

Section policy.
Context `{NodeUrl}.

(** src/server/network/policy.ts:115-124 validLabel *)
Definition valid_label (label : string) : bool :=
  (1 <=? strlen label) && (strlen label <=? 63) && label_matches label
  && negb (starts_with "xn--" label && String.eqb (domainToUnicode label) label).

(** src/server/network/policy.ts:111-126 validateAsciiDomain *)
Definition validateAsciiDomain (name : string) : result policy_thrown unit :=
  if (strlen name =? 0) || (253 <? strlen name) then invalidHost
  else if forallb valid_label (split dot name) then Ok tt else invalidHost.

(** Bracketed literals. *)
(** src/server/network/policy.ts:143-151 bracketed *)
Definition normalize_bracketed (host : string) : result policy_thrown NormalizedDestinationHost :=
  if negb (starts_with "[" host && ends_with "]" host) then invalidHost
  else
    let literal := drop_last (drop_str 1 host) in
    if negb (has_char colon literal) then invalidHost
    else
      match parseIpAddress literal with
      | Some p =>
          if negb (bool_decide (family p = V6)) then invalidHost
          else
            a ← classified_address p;
            mret {| nh_host := address p; nh_kind := KindIp; nh_family := Some V6; nh_address := Some a |}
      | None => invalidHost
      end.

(** Names, once the literals are out of the way. *)
(** src/server/network/policy.ts:166-192 domain *)
Definition normalize_domain (host : string) : result policy_thrown NormalizedDestinationHost :=
  if negb (str_all (λ a, negb (forbidden_char a)) host) then invalidHost
  else
    let host := if ends_with "." host then drop_last host else host in
    if String.eqb host "" || ends_with "." host then invalidHost
    else if isAmbiguousNumericHost host then invalidHost
    else
      match domainToASCII host with
      | None => invalidHost
      | Some converted =>
          let name := toLowerCase converted in
          validateAsciiDomain name;;
          if isAmbiguousNumericHost name then invalidHost
          else mret {| nh_host := name; nh_kind := KindDomain; nh_family := None; nh_address := None |}
      end.

(** src/server/network/policy.ts:139-193 normalizeDestinationHost *)
Definition normalizeDestinationHost (input : string) : result policy_thrown NormalizedDestinationHost :=
  let host := trim input in
  if String.eqb host "" then invalidHost
  else if starts_with "[" host || ends_with "]" host then normalize_bracketed host
  else
    match parseIpAddress host with
    | Some p =>
        a ← classified_address p;
        mret {| nh_host := address p; nh_kind := KindIp; nh_family := Some (family p); nh_address := Some a |}
    | None => normalize_domain host
    end.

(** ** Patterns *)

Definition invalidPattern {A} : result policy_thrown A :=
  Err (DestinationPolicyError InvalidPattern "invalid destination pattern").

Definition star : ascii := "*"%char.

(** [**.], [*.] or nothing, and what follows. *)
(** src/server/network/policy.ts:203-211 wildcard *)
Definition cut_wildcard (s : string) : string * string :=
  if starts_with "**." s then ("**.", drop_str 3 s)
  else if starts_with "*." s then ("*.", drop_str 2 s)
  else ("", s).

(** src/server/network/policy.ts:196-229 normalizeDestinationPattern *)
Definition normalizeDestinationPattern (input : string) : result policy_thrown string :=
  let trimmed := trim input in
  if String.eqb trimmed "*" then Ok trimmed
  else if String.eqb trimmed "" || has_char "["%char trimmed || has_char "]"%char trimmed then invalidPattern
  else
    let '(prefix, value) := cut_wildcard trimmed in
    if has_char star value then invalidPattern
    else
      match normalizeDestinationHost value with
      | Err (DestinationPolicyError _ _) => invalidPattern
      | Err e => Err e
      | Ok normalized =>
          if negb (String.eqb prefix "") && bool_decide (nh_kind normalized = KindIp)
          then Err (DestinationPolicyError InvalidPattern "IP literals cannot use wildcard patterns")
          else Ok (prefix +:+ nh_host normalized)
      end.

(** src/server/network/policy.ts:231-246 compilePattern *)
Definition compilePattern (normalized : string) : result policy_thrown CompiledPattern :=
  if String.eqb normalized "*"
  then Ok {| pat_normalized := normalized; pat_mode := ModeAll; pat_base := ""; pat_kind := None |}
  else
    let '(mode, base) :=
      if starts_with "**." normalized then (ModeApexAndSubdomains, drop_str 3 normalized)
      else if starts_with "*." normalized then (ModeSubdomains, drop_str 2 normalized)
      else (ModeExact, normalized) in
    host ← normalizeDestinationHost base;
    mret {| pat_normalized := normalized; pat_mode := mode; pat_base := nh_host host;
            pat_kind := Some (nh_kind host) |}.

(** [xs.map(f)] with an [f] that may throw. *)
Fixpoint map_ok {A B} (f : A → result policy_thrown B) (xs : list A) : result policy_thrown (list B) :=
  match xs with
  | [] => Ok []
  | x :: rest => y ← f x; ys ← map_ok f rest; mret (y :: ys)
  end.

(** src/server/network/policy.ts:248-254 normalizedUniquePatterns *)
Definition normalizedUniquePatterns (patterns : list string) : result policy_thrown (list CompiledPattern) :=
  normalized ← map_ok normalizeDestinationPattern patterns;
  if bool_decide (NoDup normalized) then map_ok compilePattern normalized
  else Err (DestinationPolicyError InvalidPolicy "duplicate normalized destination pattern").

Definition valid_port (port : Z) : bool := isSafeInteger port && negb (port <? 1) && negb (65535 <? port).

(** src/server/network/policy.ts:256-280 compileDestinationPolicy *)
Definition compileDestinationPolicy (config : DestinationPolicyConfig)
    : result policy_thrown CompiledDestinationPolicy :=
  let configuredPorts := match allowedPortSet config with
    | None => default [] (config_allowedPorts config)
    | Some ports => ports
    end in
  if bool_decide (allowedPortSet config = None) && negb (bool_decide (NoDup configuredPorts))
  then Err (DestinationPolicyError InvalidPolicy "duplicate allowed destination port")
  else
    let ports := set_view configuredPorts in
    if negb (forallb valid_port ports)
    then Err (DestinationPolicyError InvalidPolicy "invalid allowed destination port")
    else
      allow ← normalizedUniquePatterns (allowedDomainPatterns config);
      deny ← normalizedUniquePatterns (deniedDomainPatterns config);
      mret {| allowedPatterns := pat_normalized <$> allow; deniedPatterns := pat_normalized <$> deny;
              allowedPorts := ports; compiled_allowed := allow; compiled_denied := deny |}.

(** ** Decisions *)

(** src/server/network/policy.ts:282-290 matches *)
Definition matches (pattern : CompiledPattern) (host : NormalizedDestinationHost) : bool :=
  if bool_decide (pat_mode pattern = ModeAll) then true
  else if bool_decide (pat_kind pattern = Some KindIp) || bool_decide (nh_kind host = KindIp)
  then bool_decide (pat_mode pattern = ModeExact) && bool_decide (pat_kind pattern = Some (nh_kind host))
       && String.eqb (pat_base pattern) (nh_host host)
  else if bool_decide (pat_mode pattern = ModeExact) then String.eqb (pat_base pattern) (nh_host host)
  else
    let subdomain := ends_with (String dot (pat_base pattern)) (nh_host host) in
    if bool_decide (pat_mode pattern = ModeSubdomains) then subdomain
    else String.eqb (nh_host host) (pat_base pattern) || subdomain.

(** src/server/network/policy.ts:302-315 reason *)
Definition decide_reason (policy : CompiledDestinationPolicy) (host : NormalizedDestinationHost) (port : Z)
    : DestinationPolicyReason :=
  if existsb (λ pattern, matches pattern host) (compiled_denied policy) then ExplicitDeny
  else if negb (bool_decide (port ∈ allowedPorts policy)) then PortNotAllowed
  else if negb (existsb (λ pattern, matches pattern host) (compiled_allowed policy)) then NotAllowed
  else if match nh_address host with Some a => negb (isPublic a) | None => false end then LocalAddress
  else Allowlist.

(** src/server/network/policy.ts:293-318 decideDestination *)
Definition decideDestination (policy : CompiledDestinationPolicy) (input : DestinationPolicyInput)
    : result policy_thrown DestinationPolicyDecision :=
  match in_port input with
  | JInt port =>
      if negb (valid_port port) then Err (DestinationPolicyError InvalidPort "invalid destination port")
      else
        host ← normalizeDestinationHost (in_host input);
        let reason := decide_reason policy host port in
        mret {| allowed := match reason with Allowlist => true | _ => false end;
                reason := reason; decided_host := host; decided_port := port |}
  | JOther => Err (DestinationPolicyError InvalidPort "invalid destination port")
  end.
End policy.
