(* ===== verification/NetworkPolicySafety.v ===== *)
(** What the destination policy guarantees: hosts have one normal form, patterns
    are matched label by label, and nothing local is ever allowed. *)
From S2P Require Import Prelude Errors Texts Addresses AddressText AddressRanges NetworkPolicy.
#[local] Open Scope string_scope. #[local] Open Scope Z_scope.
#[local] Arguments String.append : simpl nomatch.

(** UTS #46 processing is idempotent on the names it yields. *)
Class NodeUrlLaws `{NodeUrl} := {
  domainToASCII_idemp s t name :
    domainToASCII s = Some t → toLowerCase t = name → validateAsciiDomain name = Ok tt →
    domainToASCII name = Some name;
}.

(** ** Characters of names *)

Definition name_char (a : ascii) : bool := is_lower_alnum a || Ascii.eqb a "-"%char || Ascii.eqb a dot.

Lemma name_char_facts a : name_char a = true →
  lower_char a = a ∧ is_space a = false ∧ forbidden_char a = false ∧
  Ascii.eqb a colon = false ∧ Ascii.eqb a "["%char = false ∧ Ascii.eqb a "]"%char = false.
Proof.
  intros Ha.
  assert (H : negb (name_char a) || (Ascii.eqb (lower_char a) a && negb (is_space a) && negb (forbidden_char a)
     && negb (Ascii.eqb a colon) && negb (Ascii.eqb a "["%char) && negb (Ascii.eqb a "]"%char)) = true).
  { clear Ha. revert a. apply ascii_cases. by vm_compute. }
  rewrite Ha in H. cbn [negb orb] in H. breflect. split_and!; try done. by apply Ascii.eqb_eq.
Qed.

Lemma toLowerCase_id s : str_all name_char s = true → toLowerCase s = s.
Proof.
  induction s as [|a s IH]; cbn; [done|]. intros [Ha Hs]%andb_true_iff.
  destruct (name_char_facts a Ha) as [-> _]. by rewrite IH.
Qed.

Lemma join_all p sep parts :
  p sep = true → Forall (λ s, str_all p s = true) parts → str_all p (join sep parts) = true.
Proof.
  intros Hsep. induction 1 as [|x xs Hx Hxs IH]; [done|]. cbn [join]. destruct xs; [done|].
  rewrite str_all_app, Hx. cbn [str_all]. by rewrite Hsep, IH.
Qed.

Section laws.
Context `{NodeUrlLaws}.

Lemma valid_label_facts l : valid_label l = true → l ≠ "" ∧ str_all name_char l = true.
Proof.
  unfold valid_label. intros Hl. breflect. split.
  - intros ->. cbn in *. lia.
  - unfold label_matches in *. destruct l as [|a l]; [done|]. breflect.
    eapply str_all_impl; [|eassumption]. intros b Hb. unfold name_char. by rewrite Hb.
Qed.

Lemma validateAsciiDomain_Ok name :
  validateAsciiDomain name = Ok tt →
  1 ≤ strlen name ≤ 253 ∧ Forall (λ l, valid_label l = true) (split dot name) ∧ str_all name_char name = true.
Proof.
  unfold validateAsciiDomain. destruct (_ || _) eqn:E; [done|]. destruct (forallb _ _) eqn:Ef; [|done]. intros _.
  apply orb_false_iff in E as [E1 E2]. breflect. pose proof (strlen_nonneg name).
  assert (Hall : Forall (λ l, valid_label l = true) (split dot name)).
  { apply Forall_forall. intros l Hl. rewrite forallb_forall in Ef. by apply Ef, list_elem_of_In. }
  split_and!; [lia|lia|done|]. rewrite <-(join_split dot name). apply join_all; [done|].
  eapply Forall_impl; [exact Hall|]. intros l Hl. by apply valid_label_facts.
Qed.

Lemma octet_numeric l : octet_matches l = true → numeric_label l = true.
Proof.
  unfold octet_matches, numeric_label. destruct l as [|a [|b l]]; [done| |].
  - intros Ha. cbn [str_all]. by rewrite Ha.
  - intros Hm. breflect. apply orb_true_iff. left. cbn [str_all] in *. breflect.
    rewrite !andb_true_iff. done.
Qed.

Lemma colonless_ipv6 s : has_char colon s = false → parseIpv6 s = None.
Proof.
  intros Hcolon. unfold parseIpv6. destruct (_ || _); [done|]. unfold parse_words.
  pose proof (cut_double_app s "" Hcolon) as Hcut. rewrite str_app_nil in Hcut. rewrite Hcut.
  cbn [cut_double mbind option_bind]. unfold parseHextetSequence.
  destruct (String.eqb s ""); [done|]. rewrite (split_no_sep _ _ Hcolon). cbn [hextets].
  destruct (String.eqb s ""); [done|]. destruct (has_char dot s).
  - destruct (_ || _); [done|]. by destruct (parseIpv4 s).
  - by destruct (hextet_matches s).
Qed.

(** A name that is not numeric throughout is no IP literal. *)
Lemma name_not_literal name :
  str_all name_char name = true → isAmbiguousNumericHost name = false → parseIpAddress name = None.
Proof.
  intros Hc Hn. unfold parseIpAddress. destruct (_ || _); [done|].
  destruct (parseIpv4 name) as [b|] eqn:E4.
  - exfalso. unfold parseIpv4 in E4. destruct (negb _); [done|]. apply mapM_Some in E4.
    unfold isAmbiguousNumericHost in Hn. apply not_true_iff_false in Hn. apply Hn, forallb_forall.
    intros l Hl%list_elem_of_In. apply list_elem_of_lookup in Hl as [i Hi].
    destruct (Forall2_lookup_l _ _ _ _ _ E4 Hi) as (x & _ & Hx).
    unfold parse_octet in Hx. destruct (octet_matches l) eqn:Em; [|done]. by apply octet_numeric.
  - by rewrite colonless_ipv6 by (by apply (has_char_all _ name_char)).
Qed.

(** ** Normal forms *)

Lemma parse_guards s p : parseIpAddress s = Some p →
  String.eqb s "" = false ∧ trim s = s ∧ starts_with "[" s || ends_with "]" s = false.
Proof.
  unfold parseIpAddress. destruct (String.eqb s ""); [done|]. destruct (String.eqb (trim s) s) eqn:E; [|done].
  apply String.eqb_eq in E. destruct (starts_with "[" s); [done|]. by destruct (ends_with "]" s).
Qed.

Definition ip_host (p : ParsedIpAddress) (a : AddressClassification) : NormalizedDestinationHost :=
  {| nh_host := address p; nh_kind := KindIp; nh_family := Some (family p); nh_address := Some a |}.
Definition domain_host (name : string) : NormalizedDestinationHost :=
  {| nh_host := name; nh_kind := KindDomain; nh_family := None; nh_address := None |}.

(** A normalized host is an IP literal with its classification, or a valid name. *)
Inductive normal_host (input : string) : NormalizedDestinationHost → Prop :=
| normal_ip s p a :
    s = trim input ∨ s = drop_last (drop_str 1 (trim input)) →
    parseIpAddress s = Some p → classifyParsedAddress p = Ok a → normal_host input (ip_host p a)
| normal_domain s t name :
    domainToASCII s = Some t → toLowerCase t = name → validateAsciiDomain name = Ok tt →
    isAmbiguousNumericHost name = false → normal_host input (domain_host name).

Lemma classified_Ok p a : classified_address p = Ok a ↔ classifyParsedAddress p = Ok a.
Proof. unfold classified_address. destruct (classifyParsedAddress p); split; congruence. Qed.

Lemma normalize_inv input h : normalizeDestinationHost input = Ok h → normal_host input h.
Proof.
  unfold normalizeDestinationHost. destruct (String.eqb _ _); [done|]. destruct (_ || _).
  - unfold normalize_bracketed. destruct (negb _); [done|]. destruct (negb _); [done|].
    destruct (parseIpAddress _) as [p|] eqn:Ep; [|done]. destruct (bool_decide _) eqn:Ef; [|done]. breflect.
    cbn [negb]. intros Hb. inv_bind Hb. apply classified_Ok in Ha. injection Hb as <-. rewrite <-Ef.
    eapply normal_ip; [by right|done|done].
  - destruct (parseIpAddress (trim input)) as [p|] eqn:Ep.
    + intros Hb. inv_bind Hb. apply classified_Ok in Ha. injection Hb as <-.
      eapply normal_ip; [by left|done|done].
    + unfold normalize_domain. destruct (negb _); [done|]. destruct (_ || _); [done|].
      destruct (isAmbiguousNumericHost _); [done|]. destruct (domainToASCII _) as [t|] eqn:Et; [|done].
      intros Hb. inv_bind Hb. destruct (isAmbiguousNumericHost (toLowerCase t)) eqn:Ea; [done|].
      injection Hb as <-. destruct a. by eapply normal_domain.
Qed.

Lemma normalize_ip p a s :
  parseIpAddress s = Some p → classifyParsedAddress p = Ok a → normalizeDestinationHost s = Ok (ip_host p a).
Proof.
  intros Hp Ha. destruct (parse_guards _ _ Hp) as (E1 & E2 & E3). unfold normalizeDestinationHost.
  rewrite E2, E1, E3, Hp. apply classified_Ok in Ha. by rewrite Ha.
Qed.

Lemma normalize_name s t name :
  domainToASCII s = Some t → toLowerCase t = name → validateAsciiDomain name = Ok tt →
  isAmbiguousNumericHost name = false → normalizeDestinationHost name = Ok (domain_host name).
Proof.
  intros Ht Hl Hv Hn. destruct (validateAsciiDomain_Ok _ Hv) as (Hlen & Hlabels & Hc).
  assert (Hne : String.eqb name "" = false).
  { apply String.eqb_neq. intros E. rewrite E in Hlen. cbn in Hlen. unfold strlen in Hlen. cbn in Hlen. lia. }
  assert (Hforb : str_all (λ a, negb (forbidden_char a)) name = true).
  { eapply str_all_impl; [|exact Hc]. intros a Ha. by destruct (name_char_facts a Ha) as (_ & _ & -> & _). }
  assert (Hg : String.eqb name "" || negb (String.eqb (trim name) name) || starts_with "[" name || ends_with "]" name = false).
  { apply (guards_pass name_char); [|done|by apply String.eqb_neq].
    intros a Ha. destruct (name_char_facts a Ha) as (_ & ? & _ & _ & ? & ?). done. }
  apply orb_false_iff in Hg as [Hg Hg3]. apply orb_false_iff in Hg as [Hg Hg2]. apply orb_false_iff in Hg as [_ Hg1].
  apply negb_false_iff, String.eqb_eq in Hg1.
  assert (Hdot : ends_with "." name = false).
  { destruct (ends_with "." name) eqn:E; [|done]. apply ends_with_spec in E as [r ->].
    change "." with (String dot "") in Hlabels. rewrite split_app, Forall_app in Hlabels.
    destruct Hlabels as [_ [Hl0 _]%Forall_cons]. by apply valid_label_facts in Hl0 as [? _]. }
  unfold normalizeDestinationHost. rewrite Hg1, Hne, Hg2, Hg3. cbn [orb].
  rewrite name_not_literal by done. unfold normalize_domain. rewrite Hforb, Hdot, Hne, Hdot, Hn. cbn [negb orb].
  rewrite (domainToASCII_idemp s t name) by done. rewrite toLowerCase_id by done. rewrite Hv. cbn.
  by rewrite Hn.
Qed.

Lemma normalize_idemp input h : normalizeDestinationHost input = Ok h → normalizeDestinationHost (nh_host h) = Ok h.
Proof.
  intros Hh. apply normalize_inv in Hh. destruct Hh as [s p a _ Hp Ha|s t name Ht Hl Hv Hn].
  - apply normalize_ip; [|done]. by eapply parse_idemp.
  - by eapply normalize_name.
Qed.
End laws.

(** ** Decisions *)

Lemma decide_Ok `{NodeUrl} policy input d :
  decideDestination policy input = Ok d ↔
  ∃ port host, in_port input = JInt port ∧ valid_port port = true ∧
    normalizeDestinationHost (in_host input) = Ok host ∧
    d = {| allowed := match decide_reason policy host port with Allowlist => true | _ => false end;
           reason := decide_reason policy host port; decided_host := host; decided_port := port |}.
Proof.
  unfold decideDestination. destruct (in_port input) as [port|].
  2: { split; [done|]. by intros (port & host & ? & _). }
  destruct (valid_port port) eqn:Ev; cbn [negb].
  2: { split; [done|]. intros (port' & host & [= <-] & Hv & _). congruence. }
  destruct (normalizeDestinationHost (in_host input)) as [host|]; cbn.
  - split; [intros [= <-]; by exists port, host|]. by intros (port' & host' & [= <-] & _ & [= <-] & ->).
  - split; [done|]. by intros (port' & host' & _ & _ & ? & _).
Qed.

(** The text of a literal: as it stands, or between brackets. *)
Definition literal_of (input : string) (p : ParsedIpAddress) : Prop :=
  parseIpAddress (trim input) = Some p ∨
  (starts_with "[" (trim input) = true ∧ parseIpAddress (drop_last (drop_str 1 (trim input))) = Some p).

(** The literal an accepted host denotes is the one that was classified. *)
Lemma normalize_literal `{NodeUrl} input h p :
  normalizeDestinationHost input = Ok h → literal_of input p →
  nh_kind h = KindIp ∧ ∃ a, nh_address h = Some a ∧ classifyParsedAddress p = Ok a.
Proof.
  unfold normalizeDestinationHost. intros Hh [Hp|[Hb Hp]].
  - destruct (parse_guards _ _ Hp) as (E1 & _ & E3). rewrite E1, E3, Hp in Hh. inv_bind Hh.
    apply classified_Ok in Ha. injection Hh as <-. eauto.
  - destruct (String.eqb _ ""); [done|]. rewrite Hb in Hh. cbn [orb] in Hh. unfold normalize_bracketed in Hh.
    destruct (negb _); [done|]. destruct (negb _); [done|]. rewrite Hp in Hh. destruct (negb _); [done|].
    inv_bind Hh. apply classified_Ok in Ha. injection Hh as <-. eauto.
Qed.

(** C18: managed egress fails closed. A destination is allowed exactly when its
    port is a valid one the policy lists, no deny pattern matches the normalized
    host, some allow pattern does, and the host is a name or a public address.
    In particular, whatever the policy says, no spelling of a non-public IP
    literal, compressed, mapped or bracketed, is ever allowed; and an allowed
    name is never itself the text of an IP literal. *)
Theorem egress_fails_closed `{NodeUrl} policy input d :
  decideDestination policy input = Ok d →
  (allowed d = true ↔
     1 ≤ decided_port d ≤ 65535 ∧ decided_port d ∈ allowedPorts policy ∧
     (∀ pat, pat ∈ compiled_denied policy → matches pat (decided_host d) = false) ∧
     (∃ pat, pat ∈ compiled_allowed policy ∧ matches pat (decided_host d) = true) ∧
     (∀ a, nh_address (decided_host d) = Some a → isPublic a = true)) ∧
  (∀ p, literal_of (in_host input) p → category_of_bytes (bytes p) ≠ None → allowed d = false) ∧
  (nh_kind (decided_host d) = KindDomain → parseIpAddress (nh_host (decided_host d)) = None).
Proof.
  intros (port & host & Hport & Hv & Hh & ->)%decide_Ok. cbn [allowed decided_port decided_host].
  assert (Hvalid : 1 ≤ port ≤ 65535) by (unfold valid_port in Hv; breflect; lia).
  assert (Hiff : match decide_reason policy host port with Allowlist => true | _ => false end = true ↔
    1 ≤ port ≤ 65535 ∧ port ∈ allowedPorts policy ∧
    (∀ pat, pat ∈ compiled_denied policy → matches pat host = false) ∧
    (∃ pat, pat ∈ compiled_allowed policy ∧ matches pat host = true) ∧
    (∀ a, nh_address host = Some a → isPublic a = true)).
  { unfold decide_reason. destruct (existsb (λ pattern, matches pattern host) (compiled_denied policy)) eqn:Ed.
    { split; [done|]. intros (_ & _ & Hden & _). apply existsb_exists in Ed as (pat & Hin & Hm).
      apply list_elem_of_In in Hin. by rewrite Hden in Hm. }
    assert (Hden : ∀ pat, pat ∈ compiled_denied policy → matches pat host = false).
    { intros pat Hin. apply not_true_iff_false. intros Hm. apply not_true_iff_false in Ed. apply Ed, existsb_exists.
      exists pat. by rewrite <-list_elem_of_In. }
    destruct (bool_decide (port ∈ allowedPorts policy)) eqn:Ep; cbn [negb]; breflect; [|split; [done|naive_solver]].
    destruct (existsb _ (compiled_allowed policy)) eqn:Ea; cbn [negb].
    2: { split; [done|]. intros (_ & _ & _ & (pat & Hin & Hm) & _). apply not_true_iff_false in Ea. destruct Ea.
         apply existsb_exists. exists pat. by rewrite <-list_elem_of_In. }
    apply existsb_exists in Ea as (pat & Hin%list_elem_of_In & Hm).
    destruct (nh_address host) as [a|]; [destruct (isPublic a) eqn:Epub|]; cbn [negb].
    - split; [|done]. intros _. split_and!; try done; try lia; [by exists pat|by intros ? [= <-]].
    - split; [done|]. intros (_ & _ & _ & _ & Hp). by rewrite Hp in Epub.
    - split; [|done]. intros _. split_and!; try done; try lia; by exists pat. }
  split_and!; [exact Hiff| |].
  - intros p Hp Hloc. apply not_true_iff_false. rewrite Hiff. intros (_ & _ & _ & _ & Hpub).
    destruct (normalize_literal _ _ _ Hh Hp) as (_ & a & Ha & Hc). specialize (Hpub a Ha).
    assert (Hp' : ∃ s, parseIpAddress s = Some p) by (destruct Hp as [?|[_ ?]]; eauto).
    destruct Hp' as [s Hs]. destruct (parseIpAddress_inv _ _ Hs) as [Hb E].
    unfold classifyParsedAddress in Hc. rewrite E, category_of_parsed in Hc by done. cbn in Hc.
    injection Hc as <-. cbn [isPublic] in Hpub. by apply bool_decide_eq_true in Hpub.
  - intros Hk. apply normalize_inv in Hh. destruct Hh as [|s t name Ht Hl Hvn Hn]; [done|].
    cbn [domain_host nh_host]. apply name_not_literal; [|done]. by destruct (validateAsciiDomain_Ok _ Hvn) as (_ & _ & ?).
Qed.

(** A decision is about the normalized host. Deciding again on the host text
    the first decision reports, as the proxies do when they connect, gives the
    same decision, address classification included. *)
Lemma decision_is_stable `{NodeUrlLaws} policy input d :
  decideDestination policy input = Ok d →
  decideDestination policy {| in_host := nh_host (decided_host d); in_port := in_port input |} = Ok d.
Proof.
  intros (port & host & Hport & Hv & Hh & ->)%decide_Ok. apply decide_Ok. exists port, host.
  cbn [in_port in_host decided_host]. split_and!; [done..|by eapply normalize_idemp|done].
Qed.

(** ** Patterns *)

(** Patterns match whole labels. A compiled pattern matches a normalized
    host exactly if it is the pattern of everything; or both are IP literals
    with the same canonical text; or both are names and the labels of the
    host are those of the pattern's base, preceded by none for an exact
    pattern, by at least one for [*.], and by any number for [**.]. *)
Lemma pattern_matches_labels `{NodeUrl} normalized pat host :
  compilePattern normalized = Ok pat →
  matches pat host = true ↔
  normalized = "*" ∨
  (nh_kind host = KindIp ∧ pat_kind pat = Some KindIp ∧ pat_mode pat = ModeExact ∧ nh_host host = pat_base pat) ∨
  (nh_kind host = KindDomain ∧ pat_kind pat = Some KindDomain ∧
   ∃ extra, split dot (nh_host host) = (extra ++ split dot (pat_base pat))%list ∧
     match pat_mode pat with
     | ModeExact => extra = []
     | ModeSubdomains => extra ≠ []
     | ModeApexAndSubdomains => True
     | ModeAll => False
     end).
Proof.
  intros Hc. unfold compilePattern in Hc. destruct (String.eqb normalized "*") eqn:Es.
  { injection Hc as <-. apply String.eqb_eq in Es. unfold matches. cbn. naive_solver. }
  apply String.eqb_neq in Es.
  assert (Hsub : ∀ base name, ends_with (String dot base) name = true ↔
    ∃ extra, split dot name = (extra ++ split dot base)%list ∧ extra ≠ []).
  { intros base name. rewrite ends_with_spec. split.
    - intros [r ->]. exists (split dot r). split; [apply split_app|apply split_nonempty].
    - intros (extra & E & Hne). exists (join dot extra). rewrite <-(join_split dot name), E.
      rewrite join_app by (done || apply split_nonempty). by rewrite join_split. }
  assert (Heq : ∀ base name : string, name = base ↔ ∃ extra, split dot name = (extra ++ split dot base)%list ∧ extra = []).
  { intros base name. split; [intros ->; by exists []|]. intros (? & E & ->). cbn in E.
    by rewrite <-(join_split dot name), E, join_split. }
  destruct (if starts_with "**." normalized then _ else _) as [mode base] eqn:Em.
  assert (Hmode : mode ≠ ModeAll) by (destruct (starts_with "**." normalized), (starts_with "*." normalized); injection Em as <- <-; discriminate).
  inv_bind Hc. injection Hc as <-. clear Em. unfold matches. cbn [pat_mode pat_kind pat_base].
  rewrite bool_decide_eq_false_2 by done.
  destruct (nh_kind host) eqn:Ek, (nh_kind a) eqn:Ea.
  - rewrite (bool_decide_eq_false_2 (Some KindDomain = Some KindIp)), (bool_decide_eq_false_2 (KindDomain = KindIp)) by done.
    cbn [orb].
    assert (Hdom : ∀ X : Prop, X ↔ normalized = "*" ∨
      (KindDomain = KindIp ∧ Some KindDomain = Some KindIp ∧ mode = ModeExact ∧ nh_host host = nh_host a) ∨
      (KindDomain = KindDomain ∧ Some KindDomain = Some KindDomain ∧ X)).
    { intros X. split; [by right; right|]. by intros [?|[[? _]|(_ & _ & ?)]]. }
    rewrite <-Hdom. destruct mode; try done.
    + rewrite bool_decide_eq_true_2, String.eqb_eq, <-Heq by done. by split.
    + rewrite bool_decide_eq_false_2, bool_decide_eq_true_2 by done. apply Hsub.
    + rewrite !bool_decide_eq_false_2, orb_true_iff, String.eqb_eq, Hsub, Heq by done. split.
      * intros [(x & ? & _)|(x & ? & _)]; by exists x.
      * intros (x & E & _). destruct (decide (x = [])); [left|right]; by exists x.
  - rewrite (bool_decide_eq_true_2 (Some KindIp = Some KindIp)) by done. cbn [orb].
    rewrite (bool_decide_eq_false_2 (Some KindIp = Some KindDomain)) by done. rewrite andb_false_r.
    split; [done|]. by intros [?|[[? _]|(_ & ? & _)]].
  - rewrite (bool_decide_eq_true_2 (KindIp = KindIp)) by done. rewrite orb_true_r.
    rewrite (bool_decide_eq_false_2 (Some KindDomain = Some KindIp)) by done. rewrite andb_false_r.
    split; [done|]. by intros [?|[(_ & ? & _)|[? _]]].
  - rewrite (bool_decide_eq_true_2 (KindIp = KindIp)) by done. rewrite orb_true_r.
    rewrite (bool_decide_eq_true_2 (Some KindIp = Some KindIp)) by done.
    rewrite andb_true_r, andb_true_iff, bool_decide_eq_true, String.eqb_eq. split.
    + intros [-> E]. right. left. done.
    + by intros [?|[(_ & _ & -> & ->)|[? _]]].
Qed.

(** ** Witnesses: names are converted by lowercasing *)
#[export] Instance sample_url : NodeUrl :=
  {| domainToASCII := λ s, Some (toLowerCase s); domainToUnicode := λ s, s |}.
#[export] Instance sample_url_laws : NodeUrlLaws.
Proof.
  split. intros s t name _ _ Hv. cbn. f_equal. apply toLowerCase_id. by destruct (validateAsciiDomain_Ok _ Hv) as (_ & _ & ?).
Defined.

Definition sample_config : DestinationPolicyConfig := {|
  allowedDomainPatterns := ["*"; "**.Example.com"]; deniedDomainPatterns := ["*.internal.example.com"];
  config_allowedPorts := Some [443]; allowedPortSet := None |}.
Definition sample_policy : CompiledDestinationPolicy :=
  match compileDestinationPolicy sample_config with
  | Ok policy => policy
  | Err _ => {| allowedPatterns := []; deniedPatterns := []; allowedPorts := []; compiled_allowed := []; compiled_denied := [] |}
  end.
Definition sample_decision (host : string) : result policy_thrown DestinationPolicyDecision :=
  decideDestination sample_policy {| in_host := host; in_port := JInt 443 |}.

Lemma egress_fails_closed_witness :
  match sample_decision "[::ffff:169.254.169.254]", sample_decision "API.example.com." with
  | Ok local, Ok remote => allowed local = false ∧ allowed remote = true ∧
      parseIpAddress (nh_host (decided_host remote)) = None
  | _, _ => False
  end.
Proof.
  destruct (sample_decision "[::ffff:169.254.169.254]") as [local|] eqn:El; [|vm_compute in El; discriminate El].
  destruct (sample_decision "API.example.com.") as [remote|] eqn:Er; [|vm_compute in Er; discriminate Er].
  destruct (egress_fails_closed _ _ _ El) as (_ & Hl & _). destruct (egress_fails_closed _ _ _ Er) as (_ & _ & Hr).
  split; [|split].
  - destruct (parseIpAddress "::ffff:169.254.169.254") as [p|] eqn:E; [|vm_compute in E; discriminate E].
    apply (Hl p).
    + right. split; [vm_compute; reflexivity|]. vm_compute in E |- *. exact E.
    + vm_compute in E. injection E as <-. vm_compute. discriminate.
  - vm_compute in Er. injection Er as <-. reflexivity.
  - apply Hr. vm_compute in Er. injection Er as <-. reflexivity.
Defined.

Lemma decision_is_stable_witness :
  match sample_decision "2606:4700:0:0:0:0:0:1111" with
  | Ok d => nh_host (decided_host d) = "2606:4700::1111" ∧
      decideDestination sample_policy {| in_host := nh_host (decided_host d); in_port := JInt 443 |} = Ok d
  | Err _ => False
  end.
Proof.
  destruct (sample_decision "2606:4700:0:0:0:0:0:1111") as [d|] eqn:E; [|vm_compute in E; discriminate E].
  split; [vm_compute in E; injection E as <-; reflexivity|]. exact (decision_is_stable _ _ _ E).
Defined.

Lemma pattern_matches_labels_witness :
  match compilePattern "*.example.com", normalizeDestinationHost "notexample.com" with
  | Ok pat, Ok host => matches pat host = false
  | _, _ => False
  end.
Proof.
  destruct (compilePattern "*.example.com") as [pat|] eqn:Ep; [|vm_compute in Ep; discriminate Ep].
  destruct (normalizeDestinationHost "notexample.com") as [host|] eqn:Eh; [|vm_compute in Eh; discriminate Eh].
  destruct (matches pat host) eqn:Em; [|reflexivity]. exfalso.
  apply (pattern_matches_labels "*.example.com" pat host Ep) in Em.
  vm_compute in Ep. injection Ep as <-. vm_compute in Eh. injection Eh as <-.
  destruct Em as [H|[(H & _)|(_ & _ & extra & H & Hne)]]; [discriminate H|discriminate H|].
  vm_compute in H. destruct extra as [|x [|y [|]]]; [exact (Hne eq_refl)|discriminate H|discriminate H|discriminate H].
Defined.
