(* ===== verification/OutboundFlow.v ===== *)
(** Per-socket outbound flow control ([src/server/outbound-flow.ts]): bounded
    queueing, coalescing of cumulative updates and closing of slow clients, as
    programs over the socket, the clock and the timers. *)
From S2P Require Import Prelude Errors Programs.
#[local] Open Scope string_scope. #[local] Open Scope Z_scope.

(** src/server/outbound-flow.ts:7-7 DEFAULT_OUTBOUND_HIGH_WATER_BYTES *)
Definition DEFAULT_OUTBOUND_HIGH_WATER_BYTES : Z := 512 * 1024.
(** src/server/outbound-flow.ts:9-9 DEFAULT_MAX_OUTBOUND_QUEUE_BYTES *)
Definition DEFAULT_MAX_OUTBOUND_QUEUE_BYTES : Z := 4 * 1024 * 1024.
(** src/server/outbound-flow.ts:11-11 DEFAULT_SLOW_CLIENT_TIMEOUT_MS *)
Definition DEFAULT_SLOW_CLIENT_TIMEOUT_MS : Z := 5000.
(** src/server/outbound-flow.ts:12-12 DEFAULT_OUTBOUND_POLL_INTERVAL_MS *)
Definition DEFAULT_OUTBOUND_POLL_INTERVAL_MS : Z := 25.
(** src/server/outbound-flow.ts:13-13 SLOW_CLIENT_CLOSE_CODE *)
Definition SLOW_CLIENT_CLOSE_CODE : Z := 1013.
(** src/server/outbound-flow.ts:14-14 SLOW_CLIENT_CLOSE_REASON *)
Definition SLOW_CLIENT_CLOSE_REASON : string := "Client is too slow; reconnect to resynchronize".

(** ** Messages *)

(** A server message, as far as flow control looks at it; [body] is the rest. *)
Inductive ServerMessage :=
| ToolUpdated (workspaceId conversationId toolCallId : string) (body : jsval)
| History (workspaceId : string) (requestId : option string) (body : jsval)
| JobsMessage (requestId : option string) (body : jsval)
| OtherMessage (body : jsval).

(** src/server/outbound-flow.ts:32-37 QueuedMessage *)
Record QueuedMessage := {
  q_data : string;
  q_bytes : Z;
  q_coalesceKey : option string;
  q_droppable : bool;
}.

(** src/server/outbound-flow.ts:46-57 coalesceKey *)
Definition coalesceKey (message : ServerMessage) : option string :=
  match message with
  | ToolUpdated w c t _ => Some ("tool:" +:+ w +:+ ":" +:+ c +:+ ":" +:+ t)
  | History w None _ => Some ("history:" +:+ w)
  | JobsMessage None _ => Some "jobs"
  | _ => None
  end.

(** src/server/outbound-flow.ts:59-63 isDroppable *)
Definition isDroppable (message : ServerMessage) : bool :=
  match message with
  | ToolUpdated _ _ _ _ => true
  | History _ requestId _ => bool_decide (requestId = None)
  | JobsMessage requestId _ => bool_decide (requestId = None)
  | OtherMessage _ => false
  end.

(** Encoding of messages and of text. *)
Class Encoding := {
  stringify : ServerMessage → result thrown string;
  byteLength : string → Z;
  byteLength_nonneg s : 0 ≤ byteLength s;
}.

(** ** The controller *)

(** src/server/outbound-flow.ts:23-30 OutboundFlowOptions *)
Record OutboundFlowOptions := {
  highWaterBytes : Z; maxQueueBytes : Z; slowClientTimeoutMs : Z; pollIntervalMs : Z;
}.

(** src/server/outbound-flow.ts:39-44 positiveInteger *)
Definition positiveInteger (value : jsnum) (name : string) : result thrown Z :=
  match value with
  | JInt z => if isSafeInteger z && (0 <? z) then Ok z
              else Err (Foreign None (name +:+ " must be a positive safe integer"))
  | JOther => Err (Foreign None (name +:+ " must be a positive safe integer"))
  end.

(** src/server/outbound-flow.ts:90-110 constructor *)
Definition flow_options (high maxQueue slow poll : option jsnum) : result thrown OutboundFlowOptions :=
  h ← positiveInteger (default (JInt DEFAULT_OUTBOUND_HIGH_WATER_BYTES) high) "highWaterBytes";
  m ← positiveInteger (default (JInt DEFAULT_MAX_OUTBOUND_QUEUE_BYTES) maxQueue) "maxQueueBytes";
  s ← positiveInteger (default (JInt DEFAULT_SLOW_CLIENT_TIMEOUT_MS) slow) "slowClientTimeoutMs";
  p ← positiveInteger (default (JInt DEFAULT_OUTBOUND_POLL_INTERVAL_MS) poll) "pollIntervalMs";
  mret {| highWaterBytes := h; maxQueueBytes := m; slowClientTimeoutMs := s; pollIntervalMs := p |}.

(** src/server/outbound-flow.ts:83-88 OutboundFlowController *)
Record Flow := {
  queue : list QueuedMessage;
  queuedBytes : Z;
  pressureStartedAt : option Z;
  timer : option nat;
  pumping : bool;
  disposed : bool;
}.
(** src/server/outbound-flow.ts:83-88 initial *)
Definition new_flow : Flow :=
  {| queue := []; queuedBytes := 0; pressureStartedAt := None; timer := None; pumping := false; disposed := false |}.
Definition set_queue (q : list QueuedMessage) (bytes : Z) (f : Flow) : Flow :=
  {| queue := q; queuedBytes := bytes; pressureStartedAt := pressureStartedAt f; timer := timer f;
     pumping := pumping f; disposed := disposed f |}.
Definition set_pressure (p : option Z) (f : Flow) : Flow :=
  {| queue := queue f; queuedBytes := queuedBytes f; pressureStartedAt := p; timer := timer f;
     pumping := pumping f; disposed := disposed f |}.
Definition set_timer (t : option nat) (f : Flow) : Flow :=
  {| queue := queue f; queuedBytes := queuedBytes f; pressureStartedAt := pressureStartedAt f; timer := t;
     pumping := pumping f; disposed := disposed f |}.
Definition set_pumping (p : bool) (f : Flow) : Flow :=
  {| queue := queue f; queuedBytes := queuedBytes f; pressureStartedAt := pressureStartedAt f; timer := timer f;
     pumping := p; disposed := disposed f |}.
Definition set_disposed (f : Flow) : Flow :=
  {| queue := []; queuedBytes := 0; pressureStartedAt := pressureStartedAt f; timer := None;
     pumping := pumping f; disposed := true |}.

(** The socket is given the data of an item; its callback comes later. *)
(** src/server/outbound-flow.ts:16-21 OutboundSocket *)
Inductive port :=
| ReadyStateOpen
| BufferedAmount
| SocketSend (item : QueuedMessage)
| SocketClose (code : Z) (reason : string)
| Now
| SetTimer (delay : Z)
| ClearTimer (handle : nat)
| OnError (error : thrown).

Definition port_answer (c : port) : Type :=
  match c with
  | ReadyStateOpen => bool
  | BufferedAmount | Now => Z
  | SocketSend _ | SocketClose _ _ => result thrown unit
  | SetTimer _ => nat
  | ClearTimer _ | OnError _ => unit
  end.

(** The functions run without interruption. *)
#[export] Instance no_interference : Interference port unit Flow := λ _ _ s, s.
Notation flow := (Programs.stmt port_answer unit Flow unit thrown).
Notation call_ := (Programs.call_ (ans := port_answer) (W := unit) (S := Flow) (R := unit) (E := thrown))
  (only parsing).
Definition get_f : flow Flow := get_.
Definition modify_f (f : Flow → Flow) : flow unit := modify_ f.

Section flow.
Context `{Encoding} (options : OutboundFlowOptions).

(** src/server/outbound-flow.ts:183-190 dispose *)
Definition dispose : flow unit :=
  f ← get_f;
  if disposed f then mret tt
  else
    match timer f with Some h => call_ (ClearTimer h) | None => mret tt end;;
    modify_f set_disposed.

(** src/server/outbound-flow.ts:265-274 closeSlowClient *)
Definition closeSlowClient : flow unit :=
  f ← get_f;
  if disposed f then mret tt
  else
    r ← call_ (SocketClose SLOW_CLIENT_CLOSE_CODE SLOW_CLIENT_CLOSE_REASON);
    match r with Ok _ => mret tt | Err error => call_ (OnError error) end;;
    dispose.

(** src/server/outbound-flow.ts:225-234 write *)
Definition write (item : QueuedMessage) : flow unit :=
  r ← call_ (SocketSend item);
  match r with Ok _ => mret tt | Err error => call_ (OnError error) end.

(** src/server/outbound-flow.ts:236-263 updatePressure *)
Definition updatePressure : flow unit :=
  f ← get_f;
  open ← (if disposed f then mret false else call_ ReadyStateOpen : flow bool);
  if negb open then dispose
  else
    pressured ← (match queue f with
      | [] => b ← call_ BufferedAmount; mret (highWaterBytes options <=? b)
      | _ => mret true
      end : flow bool);
    if negb pressured then
      modify_f (set_pressure None);;
      match timer f with Some h => call_ (ClearTimer h) | None => mret tt end;;
      modify_f (set_timer None)
    else
      started ← (match pressureStartedAt f with
        | Some t => mret t
        | None => t ← call_ Now; modify_f (set_pressure (Some t));; mret t
        end : flow Z);
      now ← call_ Now;
      if slowClientTimeoutMs options <=? now - started then closeSlowClient
      else
        match timer f with
        | Some _ => mret tt
        | None => h ← call_ (SetTimer (pollIntervalMs options)); modify_f (set_timer (Some h))
        end.

(** The [while] loop of [#pump]; the queue's length bounds its iterations. *)
(** src/server/outbound-flow.ts:209-218 pumpLoop *)
Fixpoint pump_loop (fuel : nat) : flow unit :=
  match fuel with
  | O => mret tt
  | S fuel =>
      f ← get_f;
      match queue f with
      | [] => mret tt
      | item :: rest =>
          open ← call_ ReadyStateOpen;
          if negb open then mret tt
          else
            buffered ← call_ BufferedAmount;
            if negb (buffered <? highWaterBytes options) then mret tt
            else
              modify_f (set_queue rest (queuedBytes f - q_bytes item));;
              write item;;
              pump_loop fuel
      end
  end.

(** src/server/outbound-flow.ts:205-223 pump *)
Definition pump : flow unit :=
  f ← get_f;
  if pumping f || disposed f then mret tt
  else
    modify_f (set_pumping true);;
    pump_loop (S (length (queue f)));;
    modify_f (set_pumping false);;
    updatePressure.

(** src/server/outbound-flow.ts:192-203 discardDroppableUntil *)
Fixpoint discard_droppable (requiredBytes : Z) (q : list QueuedMessage) (bytes : Z) : list QueuedMessage * Z :=
  match q with
  | [] => ([], bytes)
  | candidate :: rest =>
      if bytes + requiredBytes <=? maxQueueBytes options then (q, bytes)
      else if negb (q_droppable candidate) then
        let '(rest', bytes') := discard_droppable requiredBytes rest bytes in (candidate :: rest', bytes')
      else discard_droppable requiredBytes rest (bytes - q_bytes candidate)
  end.

(** [this.#queue.at(-1)] and what comes before it. *)
Fixpoint split_last (q : list QueuedMessage) : option (list QueuedMessage * QueuedMessage) :=
  match q with
  | [] => None
  | [item] => Some ([], item)
  | item :: rest => '(before, last) ← split_last rest; Some (item :: before, last)
  end.

(** The queued message of a message with its encoding. *)
(** src/server/outbound-flow.ts:131-137 item *)
Definition item_of (message : ServerMessage) (data : string) : QueuedMessage :=
  {| q_data := data; q_bytes := byteLength data; q_coalesceKey := coalesceKey message;
     q_droppable := isDroppable message |}.

(** Replacing the last queued item of the same key. *)
(** src/server/outbound-flow.ts:153-160 coalesce *)
Definition coalesce (before : list QueuedMessage) (previous item : QueuedMessage) : flow unit :=
  f ← get_f;
  let bytes := queuedBytes f + (q_bytes item - q_bytes previous) in
  (if maxQueueBytes options <? bytes
   then modify_f (set_queue before (bytes - q_bytes item))
   else modify_f (set_queue (before ++ [item])%list bytes));;
  updatePressure.

(** src/server/outbound-flow.ts:164-180 enqueue *)
Definition enqueue (item : QueuedMessage) : flow unit :=
  let push := (
    f ← get_f;
    modify_f (set_queue (queue f ++ [item])%list (queuedBytes f + q_bytes item));;
    updatePressure;; pump) in
  f ← get_f;
  if maxQueueBytes options <? queuedBytes f + q_bytes item then
    if q_droppable item then updatePressure
    else
      let '(q, bytes) := discard_droppable (q_bytes item) (queue f) (queuedBytes f) in
      modify_f (set_queue q bytes);;
      if maxQueueBytes options <? bytes + q_bytes item then closeSlowClient else push
  else push.

(** src/server/outbound-flow.ts:121-181 send *)
Definition send (message : ServerMessage) : flow unit :=
  f ← get_f;
  open ← (if disposed f then mret false else call_ ReadyStateOpen : flow bool);
  if negb open then mret tt
  else
    match stringify message with
    | Err error => call_ (OnError error)
    | Ok data =>
        let item := item_of message data in
        direct ← (match queue f with
          | [] => b ← call_ BufferedAmount; mret (b <? highWaterBytes options)
          | _ => mret false
          end : flow bool);
        if (direct : bool) then write item;; updatePressure
        else
          match q_coalesceKey item, split_last (queue f) with
          | Some key, Some (before, previous) =>
              if bool_decide (q_coalesceKey previous = Some key) then coalesce before previous item
              else enqueue item
          | _, _ => enqueue item
          end
    end.

(** The callback of a write, with the error it reports. *)
(** src/server/outbound-flow.ts:227-230 sent *)
Definition sent (error : option thrown) : flow unit :=
  match error with Some e => call_ (OnError e) | None => mret tt end;; pump.

(** src/server/outbound-flow.ts:258-261 timeout *)
Definition timeout : flow unit := modify_f (set_timer None);; pump.

(** src/server/outbound-flow.ts:113-115 bufferedBytes *)
Definition bufferedBytes : flow Z :=
  b ← call_ BufferedAmount; f ← get_f; mret (b + queuedBytes f).
End flow.

(** Flow control over any history of messages, callbacks and timeouts: memory
    is bounded, what must arrive is neither lost nor reordered, and a queue is
    never stranded. *)
#[local] Close Scope string_scope. #[local] Open Scope Z_scope.

(** ** The monitor *)

(** What the socket was given, the pending poll timers, whether the socket was
    seen closed or was closed, and the last clock reading. *)
Record seen := Seen {
  written : list QueuedMessage;
  timers : list nat;
  gone : bool;
  closed : bool;
  last_now : Z;
}.

Definition flow_next (g : seen) (e : event port_answer unit) : seen :=
  match e with
  | Event (SocketSend item) _ _ => Seen (written g ++ [item]) (timers g) (gone g) (closed g) (last_now g)
  | Event (SocketClose _ _) _ _ => Seen (written g) (timers g) (gone g) true (last_now g)
  | Event ReadyStateOpen open _ => Seen (written g) (timers g) (gone g || negb open) (closed g) (last_now g)
  | Event (SetTimer _) h _ => Seen (written g) (h :: timers g) (gone g) (closed g) (last_now g)
  | Event (ClearTimer h) _ _ =>
      Seen (written g) (List.filter (λ h', negb (Nat.eqb h' h)) (timers g)) (gone g) (closed g) (last_now g)
  | Event Now t _ => Seen (written g) (timers g) (gone g) (closed g) t
  | _ => g
  end.

(** Nothing is written after the controller closed the socket, and poll timers
    are set one at a time. *)
Definition flow_allowed (g : seen) (c : port) : Prop :=
  match c with
  | SocketSend _ | SocketClose _ _ => closed g = false
  | SetTimer _ => timers g = []
  | ClearTimer h => timers g = [h]
  | _ => True
  end.

(** ** Invariants *)

Definition sum_bytes (q : list QueuedMessage) : Z := foldr (λ i n, q_bytes i + n) 0 q.
(** The messages that must not be lost. *)
Definition kept (l : list QueuedMessage) : list QueuedMessage := List.filter (λ i, negb (q_droppable i)) l.

Section safety.
Context `{Encoding} (options : OutboundFlowOptions).

(** [acc] are the messages handed over so far, in order. *)
Record good_open (p : bool) (acc : list QueuedMessage) (f : Flow) (g : seen) : Prop := {
  g_bytes : queuedBytes f = sum_bytes (queue f);
  g_nonneg : Forall (λ i, 0 ≤ q_bytes i) (queue f);
  g_keys : Forall (λ i, is_Some (q_coalesceKey i) → q_droppable i = true) (queue f);
  g_max : queuedBytes f ≤ maxQueueBytes options;
  g_timer : match timer f with None => timers g = [] | Some h => timers g = [h] end;
  g_disposed : disposed f = true → queue f = [] ∧ timer f = None;
  g_pumping : pumping f = p;
  g_sub : sublist (written g ++ queue f) acc;
  g_kept : gone g = false → disposed f = false → kept (written g ++ queue f) = kept acc;
}.
Definition good p acc f g : Prop := good_open p acc f g ∧ (closed g = true → disposed f = true).

(** A queue that waits has a poll timer, and has not waited too long. *)
Definition armed (f : Flow) (g : seen) : Prop :=
  disposed f = false → queue f ≠ [] →
  is_Some (timer f) ∧ ∃ started, pressureStartedAt f = Some started ∧ last_now g - started < slowClientTimeoutMs options.

(** No statement throws or returns early. *)
Notation never := (λ _ _, False).
Notation spec := (spec_t (R := unit) (E := thrown) flow_allowed flow_next never never).
Notation rule_call := (spec_call (ans := port_answer) (W := unit) (R := unit) (E := thrown)
  (allowed := flow_allowed) (next := flow_next) (D := never) (T := never)).

Lemma sum_bytes_app q1 q2 : sum_bytes (q1 ++ q2)%list = sum_bytes q1 + sum_bytes q2.
Proof. unfold sum_bytes. induction q1; cbn; [done|]. lia. Qed.
Lemma kept_app l1 l2 : kept (l1 ++ l2)%list = (kept l1 ++ kept l2)%list.
Proof. apply List.filter_app. Qed.
Lemma sum_bytes_nonneg q : Forall (λ i, 0 ≤ q_bytes i) q → 0 ≤ sum_bytes q.
Proof. unfold sum_bytes. induction 1; cbn; lia. Qed.

Lemma spec_dispose p acc :
  0 ≤ maxQueueBytes options →
  spec (good_open p acc) dispose (λ _ f g, good p acc f g ∧ disposed f = true).
Proof.
  intros Hmax. unfold dispose. eapply spec_bind; [apply spec_get|]. intros x. destruct (disposed x) eqn:Ed.
  { apply spec_ret. intros f g [Hg ->]. split; [split; [done|]|]; done. }
  apply (spec_bind _ _ _ (λ _ f g, timers g = [] ∧ pumping f = p ∧ sublist (written g) acc)).
  - destruct (timer x) as [h|] eqn:Et.
    + apply (rule_call (ClearTimer h)). intros f g [Hg ->]. destruct Hg as [_ _ _ _ Ht _ Hp Hs _]. rewrite Et in Ht.
      split; [done|]. intros r w. cbn. rewrite Ht. cbn. rewrite Nat.eqb_refl. split_and!; [done..|].
      etrans; [|exact Hs]. by apply sublist_inserts_r.
    + apply spec_ret. intros f g [Hg ->]. destruct Hg as [_ _ _ _ Ht _ Hp Hs _]. rewrite Et in Ht.
      split_and!; [done..|]. etrans; [|exact Hs]. by apply sublist_inserts_r.
  - intros ?. apply spec_modify. intros f g (Ht & Hp & Hs).
    split; [|done]. split; [|done]. split; cbn; try done. by rewrite app_nil_r.
Qed.

Lemma spec_closeSlowClient p acc :
  0 ≤ maxQueueBytes options →
  spec (good p acc) closeSlowClient (λ _ f g, good p acc f g ∧ disposed f = true).
Proof.
  intros Hmax. unfold closeSlowClient. eapply spec_bind; [apply spec_get|]. intros x. destruct (disposed x) eqn:Ed.
  { apply spec_ret. by intros f g [Hg ->]. }
  eapply spec_bind.
  { apply (rule_call (SocketClose _ _) _ (λ _, good_open p acc)). intros f g [[Hg Hc] ->].
    split; [|by intros r w; destruct Hg]. cbn. destruct (closed g); [|done]. rewrite Hc in Ed by done. done. }
  intros r. apply (spec_bind _ _ _ (λ _, good_open p acc)); [|intros ?; by apply spec_dispose].
  destruct r as [u|e]; [by apply spec_ret|]. apply (rule_call (OnError e)). done.
Qed.

(** Writing an item already counted as written. *)
Definition add_written (item : QueuedMessage) (g : seen) : seen :=
  Seen (written g ++ [item])%list (timers g) (gone g) (closed g) (last_now g).

Lemma spec_write item (P : Flow → seen → Prop) :
  (∀ f g, P f (add_written item g) → closed g = false) →
  spec (λ f g, P f (add_written item g)) (write item) (λ _, P).
Proof.
  intros HP. unfold write. eapply spec_bind.
  { apply (rule_call (SocketSend item) _ (λ _, P)). intros f g Hp. split; [by eapply HP|done]. }
  intros [u|e]; [by apply spec_ret|]. by apply (rule_call (OnError e)).
Qed.

Lemma spec_updatePressure p acc :
  0 ≤ maxQueueBytes options →
  spec (good p acc) (updatePressure options) (λ _ f g, good p acc f g ∧ armed f g).
Proof.
  intros Hmax. unfold updatePressure. eapply spec_bind; [apply spec_get|]. intros x.
  apply (spec_bind _ _ _ (λ open f g, good p acc f g ∧ f = x ∧ (open = true → disposed x = false))).
  { destruct (disposed x) eqn:Ed; [apply spec_ret; by intros f g [Hg ->]|].
    apply (rule_call ReadyStateOpen). intros f g [[Hg Hc] ->]. split; [done|]. intros open w.
    split; [|done]. split; [|done]. destruct Hg as [? ? ? ? ? ? ? ? Hk]. split; cbn; try done.
    intros Ho. apply orb_false_iff in Ho as [Ho _]. by apply Hk. }
  intros open. destruct open; cbn [negb].
  2: { eapply spec_weaken; [| |by apply (spec_dispose p acc)].
       - by intros f g [[Hg _] _].
       - intros ? f g [Hg Hd]. split; [done|]. intros Hd'. congruence. }
  apply (spec_bind _ _ _ (λ pressured f g, good p acc f g ∧ f = x ∧ disposed x = false ∧
    (pressured = false → queue x = []))).
  { destruct (queue x) eqn:Eq.
    - eapply spec_bind.
      + apply (rule_call BufferedAmount _ (λ _ f g, good p acc f g ∧ f = x ∧ disposed x = false)).
        intros f g (Hg & -> & Hd). split; [done|]. intros r w. split; [done|]. split; [done|by apply Hd].
      + intros b. apply spec_ret. intros f g (Hg & -> & Hd). by split_and!.
    - apply spec_ret. intros f g (Hg & -> & Hd). split_and!; [done|done|by apply Hd|done]. }
  intros pressured. destruct pressured; cbn [negb].
  - apply (spec_bind _ _ _ (λ started f g, good p acc f g ∧ pressureStartedAt f = Some started ∧
      timer f = timer x ∧ disposed f = false)).
    { destruct (pressureStartedAt x) as [t|] eqn:Ep.
      - apply spec_ret. by intros f g (Hg & -> & Hd & _).
      - eapply spec_bind.
        + apply (rule_call Now _ (λ _ f g, good p acc f g ∧ timer f = timer x ∧ disposed f = false)).
          intros f g ([Hg Hc] & -> & Hd & _). split; [done|]. intros t w. split; [|done]. split; [|done]. by destruct Hg.
        + intros t. eapply (spec_bind _ _ _ (λ _ f g, good p acc f g ∧ pressureStartedAt f = Some t ∧
            timer f = timer x ∧ disposed f = false)); [|intros ?; by apply spec_ret].
          apply spec_modify. intros f g ([Hg Hc] & Ht & Hd). split_and!; [|done..]. split; [|done]. by destruct Hg. }
    intros started. eapply spec_bind.
    { apply (rule_call Now _ (λ now f g, (good p acc f g ∧ pressureStartedAt f = Some started ∧
        timer f = timer x ∧ disposed f = false) ∧ last_now g = now)).
      intros f g ([Hg Hc] & Hp & Ht & Hd). split; [done|]. intros t w. split; [|done]. split_and!; [|done..].
      split; [|done]. by destruct Hg. }
    intros now. destruct (slowClientTimeoutMs options <=? now - started) eqn:Eslow; breflect.
    { eapply spec_weaken; [| |by apply (spec_closeSlowClient p acc)].
      - by intros f g [[Hg _] _].
      - intros ? f g [Hg Hd]. split; [done|]. intros Hd'. congruence. }
    destruct (timer x) as [h|] eqn:Et.
    + apply spec_ret. intros f g ((Hg & Hp & Ht & Hd) & Hn). split; [done|].
      intros _ _. rewrite Ht. split; [done|]. exists started. split; [done|]. lia.
    + eapply spec_bind.
      * apply (rule_call (SetTimer _) _ (λ h f g, good_open p acc (set_timer (Some h) f) g ∧
          (closed g = true → disposed f = true) ∧ pressureStartedAt f = Some started ∧ disposed f = false ∧ last_now g = now)).
        intros f g (([Hg Hc] & Hp & Ht & Hd) & Hn). destruct Hg as [? ? ? ? Htm Hdis ? ? ?]. rewrite Ht in Htm.
        split; [done|]. intros h w. cbn. rewrite Htm. split_and!; try done. split; cbn; try done.
        intros E. change (disposed f = true) in E. congruence.
      * intros h. apply spec_modify. intros f g (Hg & Hc & Hp & Hd & Hn). split; [by split|].
        intros _ _. cbn. split; [done|]. exists started. split; [done|]. lia.
  - apply (spec_bind _ _ _ (λ _ f g, good p acc f g ∧ timer f = timer x ∧ queue f = [])).
    { apply spec_modify. intros f g ([Hg Hc] & -> & Hd & Hq). split_and!; [|done|by apply Hq].
      split; [|done]. by destruct Hg. }
    intros ?. apply (spec_bind _ _ _ (λ _ f g, good_open p acc (set_timer None f) g ∧
      (closed g = true → disposed f = true) ∧ queue f = [])).
    { destruct (timer x) as [h|] eqn:Et.
      - apply (rule_call (ClearTimer h)). intros f g ([Hg Hc] & Ht & Hq).
        destruct Hg as [? ? ? ? Htm Hdis ? ? ?]. rewrite Ht in Htm.
        split; [done|]. intros r w. cbn. rewrite Htm. cbn. rewrite Nat.eqb_refl. cbn.
        split_and!; done.
      - apply spec_ret. intros f g ([Hg Hc] & Ht & Hq). split_and!; try done.
        destruct Hg as [? ? ? ? Htm Hdis ? ? ?]. rewrite Ht in Htm. split; cbn; try done. }
    intros ?. apply spec_modify. intros f g (Hg & Hc & Hq). split; [by split|]. intros _ Hne. done.
Qed.

(** ** Pumping *)

Lemma kept_one item : kept [item] = if q_droppable item then [] else [item].
Proof. unfold kept. cbn. by destruct (q_droppable item). Qed.

Lemma spec_pump_loop fuel acc :
  spec (λ f g, (length (queue f) < fuel)%nat ∧ good true acc f g ∧ disposed f = false)
    (pump_loop options fuel) (λ _ f g, good true acc f g ∧ disposed f = false).
Proof.
  induction fuel as [|fuel IH]; [intros f g [Hl _]; lia|]. cbn [pump_loop].
  eapply spec_bind; [apply spec_get|]. intros x. destruct (queue x) as [|item rest] eqn:Eq.
  { apply spec_ret. by intros f g [(_ & Hg) _]. }
  eapply (spec_bind _ _ _ (λ open f g, (length (queue f) < S fuel)%nat ∧ good true acc f g ∧ disposed f = false ∧ f = x)).
  { apply (rule_call ReadyStateOpen). intros f g [(Hl & [Hg Hc] & Hd) ->]. split; [done|]. intros open w.
    split_and!; [done| |done..]. split; [|done]. destruct Hg as [? ? ? ? ? ? ? ? Hk]. split; cbn; try done.
    intros Ho. apply orb_false_iff in Ho as [Ho _]. by apply Hk. }
  intros open. destruct open; cbn [negb]; [|by apply spec_ret; intros f g (_ & Hg & Hd & _)].
  eapply (spec_bind _ _ _ (λ _ f g, (length (queue f) < S fuel)%nat ∧ good true acc f g ∧ disposed f = false ∧ f = x)).
  { apply (rule_call BufferedAmount). intros f g (Hl & Hg & Hd & ->). done. }
  intros b. destruct (b <? _); cbn [negb]; [|by apply spec_ret; intros f g (_ & Hg & Hd & _)].
  set (P := λ f g, ((length (queue f) < fuel)%nat ∧ good_open true acc f g ∧ disposed f = false) ∧ closed g = false).
  apply (spec_bind _ _ _ (λ _ f g, P f (add_written item g))).
  { apply spec_modify. intros f g (Hl & [Hg Hc] & Hd & ->).
    assert (Hcl : closed g = false) by (destruct (closed g); [by rewrite Hc in Hd|done]).
    destruct Hg as [Hb Hn Hke Hmx Ht Hdis Hp Hs Hk]. rewrite Eq in *. cbn [sum_bytes foldr] in Hb.
    apply Forall_cons in Hn as [Hn0 Hn]. apply Forall_cons in Hke as [Hke0 Hke]. cbn in Hl.
    split; [split; [cbn; lia|split; [split; cbn; try done|done]]|done].
    - unfold sum_bytes in *. lia.
    - lia.
    - by rewrite Hd.
    - by rewrite <-app_assoc.
    - by rewrite <-app_assoc. }
  intros ?. eapply spec_bind; [apply (spec_write item P); by intros f g [_ ?]|].
  intros ?. eapply spec_pre; [|apply IH]. intros f g [(Hl & Hg & Hd) Hc].
  split_and!; [done| |done]. split; [done|]. congruence.
Qed.

Lemma spec_pump acc :
  0 ≤ maxQueueBytes options →
  spec (good false acc) (pump options) (λ _ f g, good false acc f g ∧ armed f g).
Proof.
  intros Hmax. unfold pump. eapply spec_bind; [apply spec_get|]. intros x.
  destruct (pumping x || disposed x) eqn:E.
  { apply spec_ret. intros f g [Hg ->]. split; [done|]. intros Hd. destruct Hg as [[_ _ _ _ _ _ Hp _ _] _].
    by rewrite Hp, Hd in E. }
  apply orb_false_iff in E as [_ Ed].
  apply (spec_bind _ _ _ (λ _ f g, (length (queue f) < S (length (queue x)))%nat ∧ good true acc f g ∧ disposed f = false)).
  { apply spec_modify. intros f g [[Hg Hc] ->]. split_and!; [cbn; lia| |done]. split; [|done]. by destruct Hg. }
  intros ?. eapply spec_bind; [apply spec_pump_loop|]. intros ?.
  apply (spec_bind _ _ _ (λ _, good false acc)); [|intros ?; by apply spec_updatePressure].
  apply spec_modify. intros f g [[Hg Hc] Hd]. split; [|done]. by destruct Hg.
Qed.

(** ** Enqueueing *)

(** What cannot be delivered any more, or is droppable, may be left out. *)
Lemma good_more p acc l f g :
  good p acc f g → gone g = true ∨ disposed f = true ∨ kept l = [] → good p (acc ++ l) f g.
Proof.
  intros [Hg Hc] Hor. split; [|done]. destruct Hg as [? ? ? ? ? ? ? Hs Hk]. split; try done.
  - by apply sublist_inserts_r.
  - intros Hgo Hd. destruct Hor as [?|[?|Hl]]; [congruence..|]. rewrite (kept_app acc), Hl, app_nil_r. by apply Hk.
Qed.

Lemma discard_droppable_spec required q bytes :
  let '(q', bytes') := discard_droppable options required q bytes in
  sublist q' q ∧ kept q' = kept q ∧ bytes' - sum_bytes q' = bytes - sum_bytes q.
Proof.
  revert bytes. induction q as [|c rest IH]; intros bytes; cbn [discard_droppable]; [done|].
  destruct (_ <=? _); [done|]. destruct (q_droppable c) eqn:Ed; cbn [negb].
  - specialize (IH (bytes - q_bytes c)). destruct (discard_droppable options required rest _) as [q' b'].
    destruct IH as (Hs & Hk & Hb). split_and!; [by constructor| |cbn [sum_bytes foldr] in *; unfold sum_bytes in *; lia].
    unfold kept in *. cbn [List.filter]. by rewrite Ed.
  - specialize (IH bytes). destruct (discard_droppable options required rest bytes) as [q' b'].
    destruct IH as (Hs & Hk & Hb). split_and!; [by constructor| |cbn [sum_bytes foldr] in *; unfold sum_bytes in *; lia].
    unfold kept in *. cbn [List.filter]. rewrite Ed. cbn [negb]. by f_equal.
Qed.

Lemma Forall_sublist {A} (P : A → Prop) l l' : sublist l' l → Forall P l → Forall P l'.
Proof. intros Hs. rewrite !Forall_forall. intros Hl x Hx. apply Hl. by eapply sublist_subseteq. Qed.

(** Accepted messages come from [item_of]. *)
Definition item_ok (i : QueuedMessage) : Prop :=
  0 ≤ q_bytes i ∧ (is_Some (q_coalesceKey i) → q_droppable i = true).
Lemma item_of_ok m data : item_ok (item_of m data).
Proof.
  split; [apply byteLength_nonneg|]. destruct m as [| ? [] ?|[] ?|]; cbn; try (by intros [? ?]); done.
Qed.

(** Appending to the queue. *)
Lemma good_push acc item f g :
  item_ok item → good false acc f g → disposed f = false →
  queuedBytes f + q_bytes item ≤ maxQueueBytes options →
  good false (acc ++ [item]) (set_queue (queue f ++ [item]) (queuedBytes f + q_bytes item) f) g.
Proof.
  intros [Hi1 Hi2] [Hg Hc] Hd Hm. split; [|done]. destruct Hg as [Hb Hn Hke Hmx Ht Hdis Hp Hs Hk]. split; cbn; try done.
  - rewrite sum_bytes_app, Hb. cbn. lia.
  - apply Forall_app. split; [done|]. by constructor.
  - apply Forall_app. split; [done|]. by constructor.
  - by rewrite Hd.
  - rewrite app_assoc. by apply sublist_app.
  - intros Hgo _. rewrite app_assoc, (kept_app (written g ++ queue f)), (kept_app acc). f_equal. by apply Hk.
Qed.

Lemma spec_push acc item :
  0 ≤ maxQueueBytes options → item_ok item →
  spec (λ f g, good false acc f g ∧ disposed f = false ∧ queuedBytes f + q_bytes item ≤ maxQueueBytes options)
    (f ← get_f; modify_f (set_queue (queue f ++ [item]) (queuedBytes f + q_bytes item));; updatePressure options;; pump options)
    (λ _ f g, good false (acc ++ [item]) f g ∧ armed f g).
Proof.
  intros Hmax Hi. eapply spec_bind; [apply spec_get|]. intros x.
  apply (spec_bind _ _ _ (λ _, good false (acc ++ [item]))).
  { apply spec_modify. intros f g [(Hg & Hd & Hm) ->]. by apply good_push. }
  intros ?. eapply spec_bind; [by apply spec_updatePressure|]. intros ?.
  eapply spec_pre; [|by apply spec_pump]. by intros f g [Hg _].
Qed.

Lemma spec_enqueue acc item :
  0 ≤ maxQueueBytes options → item_ok item →
  spec (λ f g, good false acc f g ∧ disposed f = false) (enqueue options item)
    (λ _ f g, good false (acc ++ [item]) f g ∧ armed f g).
Proof.
  intros Hmax Hi. unfold enqueue. eapply spec_bind; [apply spec_get|]. intros x.
  destruct (_ <? _) eqn:Eo; breflect.
  2: { eapply spec_pre; [|by apply spec_push]. intros f g [[Hg Hd] ->]. split_and!; [done|done|lia]. }
  destruct (q_droppable item) eqn:Ed.
  { eapply spec_pre; [|by apply spec_updatePressure]. intros f g [[Hg Hd] _]. apply good_more; [done|].
    right; right. by rewrite kept_one, Ed. }
  pose proof (discard_droppable_spec (q_bytes item) (queue x) (queuedBytes x)) as Hdisc.
  destruct (discard_droppable options (q_bytes item) (queue x) (queuedBytes x)) as [q b].
  destruct Hdisc as (Hsub & Hkept & Hbytes).
  apply (spec_bind _ _ _ (λ _ f g, good false acc f g ∧ disposed f = false ∧ queuedBytes f = b)).
  { apply spec_modify. intros f g [[[Hg Hc] Hd] ->]. split_and!; [|done..]. split; [|done].
    destruct Hg as [Hb Hn Hke Hmx Ht Hdis Hp Hs Hk]. split; cbn; try done.
    - unfold sum_bytes in *; lia.
    - by eapply Forall_sublist.
    - by eapply Forall_sublist.
    - pose proof (sum_bytes_nonneg q (Forall_sublist _ _ _ Hsub Hn)).
      assert (sum_bytes q ≤ sum_bytes (queue f)); [|lia].
      clear -Hsub Hn. induction Hsub as [|i l1 l2 _ IH|i l1 l2 _ IH]; [done|..];
        apply Forall_cons in Hn as [Hi Hn]; specialize (IH Hn); cbn [sum_bytes foldr]; unfold sum_bytes in *; lia.
    - by rewrite Hd.
    - etrans; [|exact Hs]. by apply sublist_app.
    - intros Hgo Hd'. rewrite kept_app, Hkept, <-kept_app. by apply Hk. }
  intros ?. destruct (_ <? _) eqn:Eb; breflect.
  - eapply spec_weaken; [| |by apply (spec_closeSlowClient false acc)].
    + by intros f g [Hg _].
    + intros ? f g [Hg Hd]. split; [apply good_more; auto|]. intros Hd'. congruence.
  - eapply spec_pre; [|by apply spec_push]. intros f g (Hg & Hd & Hq). split_and!; [done|done|lia].
Qed.

(** ** The operations *)

Lemma split_last_spec q :
  match split_last q with None => q = [] | Some (before, last) => q = before ++ [last] end.
Proof.
  induction q as [|i rest IH]; cbn [split_last]; [done|].
  destruct rest as [|j rest]; [done|]. destruct (split_last (j :: rest)) as [[before last]|]; [|done].
  cbn. by rewrite IH.
Qed.

Lemma spec_coalesce acc before previous item :
  0 ≤ maxQueueBytes options → item_ok item → is_Some (q_coalesceKey item) →
  q_coalesceKey previous = q_coalesceKey item →
  spec (λ f g, good false acc f g ∧ disposed f = false ∧ queue f = before ++ [previous])
    (coalesce options before previous item) (λ _ f g, good false (acc ++ [item]) f g ∧ armed f g).
Proof.
  intros Hmax [Hi1 Hi2] Hkey Heq. unfold coalesce. eapply spec_bind; [apply spec_get|]. intros x.
  apply (spec_bind _ _ _ (λ _, good false (acc ++ [item]))); [|intros ?; by apply spec_updatePressure].
  assert (Hitem : kept [item] = []) by (rewrite kept_one; by rewrite (Hi2 Hkey)).
  destruct (_ <? _) eqn:Eo; breflect; apply spec_modify; intros f g [([Hg Hc] & Hd & Hq) ->];
    (split; [|done]); destruct Hg as [Hb Hn Hke Hmx Ht Hdis Hp Hs Hk]; rewrite Hq in *;
    rewrite sum_bytes_app in Hb; apply Forall_app in Hn as [Hn Hn1]; apply Forall_app in Hke as [Hke Hke1];
    apply Forall_cons in Hn1 as [Hn1 _]; apply Forall_cons in Hke1 as [Hke1 _];
    assert (Hprev : kept [previous] = []) by (rewrite kept_one, Hke1; [done|by rewrite Heq]);
    assert (Hs' : sublist (written g ++ before) acc) by
      (etrans; [|exact Hs]; rewrite app_assoc; by apply sublist_inserts_r);
    assert (Hk' : gone g = false → disposed f = false → kept (written g ++ before) = kept acc) by
      (intros Hgo Hd'; rewrite <-(Hk Hgo Hd'), app_assoc, (kept_app (written g ++ before)), Hprev; by rewrite app_nil_r);
    cbn [sum_bytes foldr] in Hb; split; cbn; try done.
  - unfold sum_bytes in *. lia.
  - lia.
  - by rewrite Hd.
  - by apply sublist_inserts_r.
  - intros Hgo Hd'. rewrite (kept_app acc), Hitem, app_nil_r. by apply Hk'.
  - rewrite sum_bytes_app. cbn. lia.
  - apply Forall_app. split; [done|]. by constructor.
  - apply Forall_app. split; [done|]. by constructor.
  - by rewrite Hd.
  - rewrite app_assoc. by apply sublist_app.
  - intros Hgo Hd'. rewrite app_assoc, (kept_app (written g ++ before)), (kept_app acc). f_equal. by apply Hk'.
Qed.

(** What handing over a message accepts. *)
Definition accepted (m : ServerMessage) : list QueuedMessage :=
  match stringify m with Ok data => [item_of m data] | Err _ => [] end.

Lemma spec_send acc m :
  0 ≤ maxQueueBytes options →
  spec (λ f g, good false acc f g ∧ armed f g) (send options m)
    (λ _ f g, good false (acc ++ accepted m) f g ∧ armed f g).
Proof.
  intros Hmax. unfold send. eapply spec_bind; [apply spec_get|]. intros x.
  apply (spec_bind _ _ _ (λ open f g, (good false acc f g ∧ armed f g) ∧ f = x ∧
    (open = true → disposed x = false) ∧ (open = false → gone g = true ∨ disposed f = true))).
  { destruct (disposed x) eqn:Ed.
    - apply spec_ret. intros f g [Hg ->]. split_and!; [apply Hg..|done|done|]. by right.
    - apply (rule_call ReadyStateOpen). intros f g [[[Hg Hc] Ha] ->]. split; [done|]. intros open w.
      split_and!; [|done|done|done|].
      + split; [|done]. destruct Hg as [? ? ? ? ? ? ? ? Hk]. split; cbn; try done.
        intros Ho. apply orb_false_iff in Ho as [Ho _]. by apply Hk.
      + intros ->. left. cbn. apply orb_true_r. }
  intros open. destruct open; cbn [negb].
  2: { apply spec_ret. intros f g ([Hg Ha] & _ & _ & Hor). split; [|done]. apply good_more; [done|]. naive_solver. }
  unfold accepted. destruct (stringify m) as [data|err].
  2: { rewrite app_nil_r. apply (rule_call (OnError err)). by intros f g (Hg & _). }
  set (item := item_of m data). pose proof (item_of_ok m data) as Hi. fold item in Hi.
  apply (spec_bind _ _ _ (λ direct f g, good false acc f g ∧ f = x ∧ disposed x = false ∧
    (direct = true → queue x = []))).
  { destruct (queue x) eqn:Eq.
    - eapply spec_bind; [apply (rule_call BufferedAmount _ (λ _ f g, good false acc f g ∧ f = x ∧ disposed x = false))|].
      + intros f g ([Hg _] & -> & Hd & _). split; [done|]. intros b w. split_and!; [apply Hg..|done|by apply Hd].
      + intros b. apply spec_ret. by intros f g (Hg & -> & Hd).
    - apply spec_ret. intros f g ([Hg _] & -> & Hd & _). split_and!; [apply Hg..|done|by apply Hd|done]. }
  intros direct. destruct direct.
  - set (P := λ f g, good_open false (acc ++ [item]) f g ∧ closed g = false).
    eapply (spec_bind _ _ _ (λ _, P)).
    + eapply spec_pre; [|apply (spec_write item P); by intros f g [_ ?]].
      intros f g ([Hg Hc] & -> & Hd & Hq). specialize (Hq eq_refl).
      split; [|cbn; destruct (closed g); [by rewrite Hc in Hd|done]].
      destruct Hg as [Hb Hn Hke Hmx Ht Hdis Hp Hs Hk]. rewrite Hq, app_nil_r in *. split; cbn; rewrite ?Hq; try done.
      * rewrite app_nil_r. by apply sublist_app.
      * intros Hgo Hd'. rewrite app_nil_r, (kept_app (written g)), (kept_app acc). f_equal. by apply Hk.
    + intros ?. eapply spec_pre; [|by apply spec_updatePressure]. intros f g [Hg Hc]. split; [done|congruence].
  - pose proof (split_last_spec (queue x)) as Hlast.
    assert (Henq : spec (λ f g, good false acc f g ∧ f = x ∧ disposed x = false ∧ (false = true → queue x = []))
      (enqueue options item) (λ _ f g, good false (acc ++ [item]) f g ∧ armed f g)).
    { eapply spec_pre; [|by apply spec_enqueue]. by intros f g (Hg & -> & Hd & _). }
    destruct (q_coalesceKey item) as [key|] eqn:Ek; [|exact Henq].
    destruct (split_last (queue x)) as [[before previous]|]; [|exact Henq].
    destruct (bool_decide _) eqn:Eb; breflect; [|exact Henq].
    eapply spec_pre; [|apply spec_coalesce; [done|done|by rewrite Ek|congruence]].
    by intros f g (Hg & -> & Hd & _).
Qed.

Lemma spec_sent acc error :
  0 ≤ maxQueueBytes options →
  spec (λ f g, good false acc f g ∧ armed f g) (sent options error) (λ _ f g, good false acc f g ∧ armed f g).
Proof.
  intros Hmax. unfold sent. apply (spec_bind _ _ _ (λ _ f g, good false acc f g ∧ armed f g));
    [|intros ?; eapply spec_pre; [|by apply spec_pump]; by intros f g [Hg _]].
  destruct error as [e|]; [by apply (rule_call (OnError e))|by apply spec_ret].
Qed.

(** The poll timer fires: it is no longer pending. *)
Definition fire (h : nat) (g : seen) : seen :=
  Seen (written g) (List.filter (λ h', negb (Nat.eqb h' h)) (timers g)) (gone g) (closed g) (last_now g).

Lemma spec_timeout acc h :
  0 ≤ maxQueueBytes options →
  spec (λ f g', ∃ g, good false acc f g ∧ h ∈ timers g ∧ g' = fire h g) (timeout options)
    (λ _ f g, good false acc f g ∧ armed f g).
Proof.
  intros Hmax. unfold timeout. apply (spec_bind _ _ _ (λ _, good false acc)); [|intros ?; by apply spec_pump].
  apply spec_modify. intros f g' (g & [Hg Hc] & Hin & ->). split; [|done].
  destruct Hg as [? ? ? ? Ht Hdis ? ? ?]. split; cbn; try done.
  - destruct (timer f) as [h'|]; rewrite Ht in Hin |- *; [|by apply elem_of_nil in Hin].
    apply list_elem_of_singleton in Hin as ->. cbn. by rewrite Nat.eqb_refl.
  - intros Hd. by destruct (Hdis Hd).
Qed.
End safety.

(** ** Histories *)

Inductive flow_op :=
| SendOp (m : ServerMessage)
| SentOp (error : option thrown)
| TimeoutOp (h : nat)
| DisposeOp.

Section system.
Context `{Encoding} (options : OutboundFlowOptions).

Definition body (op : flow_op) : flow unit :=
  match op with
  | SendOp m => send options m
  | SentOp error => sent options error
  | TimeoutOp _ => timeout options
  | DisposeOp => dispose
  end.

Definition entry (op : flow_op) (g : seen) : seen :=
  match op with TimeoutOp h => fire h g | _ => g end.
Definition handed (op : flow_op) : list QueuedMessage :=
  match op with SendOp m => accepted m | _ => [] end.

(** A controller, what was seen of it, and the messages handed over so far. *)
Record system := Sys { sy_flow : Flow; sy_seen : seen; sy_accepted : list QueuedMessage }.
Definition new_system : system := Sys new_flow (Seen [] [] false false 0) [].

Definition perform (e : environment port_answer unit) (op : flow_op) (σ : system) : system :=
  let '((_, f'), h) := run_prog e [] (body op (sy_flow σ)) in
  Sys f' (after_history flow_next (entry op (sy_seen σ)) h) (sy_accepted σ ++ handed op).

Inductive reachable : system → Prop :=
| reachable_new : reachable new_system
| reachable_step σ e op :
    reachable σ → match op with TimeoutOp h => h ∈ timers (sy_seen σ) | _ => True end →
    reachable (perform e op σ).

Lemma reachable_good σ :
  0 ≤ maxQueueBytes options → reachable σ →
  good options false (sy_accepted σ) (sy_flow σ) (sy_seen σ) ∧ armed options (sy_flow σ) (sy_seen σ).
Proof.
  intros Hmax. induction 1 as [|[f g acc] e op Hr IH Hop].
  { split; [split; [|done]|done]. split; cbn; try done; by constructor. }
  cbn [sy_flow sy_seen sy_accepted] in *.
  assert (Hs : wp flow_allowed flow_next (body op f) (entry op g) (λ '(o, f') g',
    match o with
    | Next _ => good options false (acc ++ handed op) f' g' ∧ armed options f' g'
    | _ => False
    end)).
  { destruct op; cbn [body entry handed]; rewrite ?app_nil_r.
    - by apply (spec_send options acc m Hmax).
    - by apply (spec_sent options acc error Hmax).
    - apply (spec_timeout options acc h Hmax). exists g. split; [apply IH|done].
    - eapply (spec_weaken (A := unit) _ (good_open options false acc)); [| |by apply (spec_dispose options false acc)| ].
      + intros f' g' Hx; exact Hx.
      + intros ? f' g' [Hg Hd]. split; [done|]. intros Hd'. congruence.
      + apply IH. }
  apply (wp_run _ _ _ _ _ e []) in Hs; [|by intros [|] ?].
  unfold perform. cbn [sy_flow sy_seen sy_accepted].
  destruct (run_prog e [] (body op f)) as [[o f'] h]. destruct Hs as (HQ & _). by destruct o.
Qed.
End system.

Lemma flow_options_positive high maxQueue slow poll options :
  flow_options high maxQueue slow poll = Ok options → 0 < maxQueueBytes options.
Proof.
  unfold flow_options. intros Hf.
  destruct (positiveInteger (default _ high) _); [|done]. cbn in Hf.
  destruct (positiveInteger (default _ maxQueue) _) as [m|] eqn:Em; [|done]. cbn in Hf.
  destruct (positiveInteger (default _ slow) _); [|done]. cbn in Hf.
  destruct (positiveInteger (default _ poll) _); [|done]. injection Hf as <-.
  unfold positiveInteger in Em. destruct (default _ maxQueue) as [z|]; [|done].
  destruct (_ && _) eqn:E; [|done]. injection Em as <-. breflect. done.
Qed.

(** ** The properties *)

(** C39: flow control bounds memory and delivers what matters in order. Over any
    history of messages, write callbacks, timeouts and disposal, on any socket:
    the bytes accounted for are those of the queue and never exceed the limit;
    what was written followed by what is queued is a subsequence of the
    messages handed over, so nothing is reordered or repeated; and as long as
    the socket was not seen closed and the controller lives, no message other
    than a cumulative update is missing from it. *)
Theorem outbound_delivery `{Encoding} high maxQueue slow poll options σ :
  flow_options high maxQueue slow poll = Ok options → reachable options σ →
  queuedBytes (sy_flow σ) = sum_bytes (queue (sy_flow σ)) ∧
  0 ≤ queuedBytes (sy_flow σ) ≤ maxQueueBytes options ∧
  sublist (written (sy_seen σ) ++ queue (sy_flow σ)) (sy_accepted σ) ∧
  (gone (sy_seen σ) = false → disposed (sy_flow σ) = false →
     kept (written (sy_seen σ) ++ queue (sy_flow σ)) = kept (sy_accepted σ)).
Proof.
  intros Ho%flow_options_positive Hr.
  destruct (reachable_good options σ ltac:(lia) Hr) as [[[Hb Hn _ Hm _ _ _ Hs Hk] _] _].
  pose proof (sum_bytes_nonneg _ Hn). split_and!; [done|lia|lia|done|done].
Qed.

(** A waiting queue is never stranded and never waits too long. Whenever
    messages are queued on a live controller, its one poll timer is pending,
    and less than the slow-client timeout has passed between the start of the
    pressure and the last reading of the clock: a client that stays slow past
    it has been disconnected. After disposal nothing is queued and no timer is
    pending. *)
Lemma waiting_queue_is_polled `{Encoding} high maxQueue slow poll options σ :
  flow_options high maxQueue slow poll = Ok options → reachable options σ →
  (disposed (sy_flow σ) = false → queue (sy_flow σ) ≠ [] →
     ∃ h started, timer (sy_flow σ) = Some h ∧ timers (sy_seen σ) = [h] ∧
       pressureStartedAt (sy_flow σ) = Some started ∧
       last_now (sy_seen σ) - started < slowClientTimeoutMs options) ∧
  (disposed (sy_flow σ) = true → queue (sy_flow σ) = [] ∧ timers (sy_seen σ) = []).
Proof.
  intros Ho%flow_options_positive Hr.
  destruct (reachable_good options σ ltac:(lia) Hr) as [[[_ _ _ _ Ht Hd _ _ _] _] Ha]. split.
  - intros Hdis Hq. destruct (Ha Hdis Hq) as [[h Eh] (started & Hp & Hl)]. rewrite Eh in Ht. by exists h, started.
  - intros Hdis. destruct (Hd Hdis) as [Hq E]. by rewrite E in Ht.
Qed.

(** ** Witnesses: a socket that is open and full *)
#[export] Instance sample_encoding : Encoding.
Proof.
  refine {| stringify := λ m, Ok "message"%string; byteLength := strlen |}. apply strlen_nonneg.
Defined.
Definition sample_socket : environment port_answer unit := λ h c,
  match c return port_answer c * unit with
  | ReadyStateOpen => (true, tt)
  | BufferedAmount => (600000, tt)
  | Now => (7, tt)
  | SocketSend _ | SocketClose _ _ => (Ok tt, tt)
  | SetTimer _ => (length h, tt)
  | ClearTimer _ | OnError _ => (tt, tt)
  end.
Definition sample_options : OutboundFlowOptions :=
  {| highWaterBytes := DEFAULT_OUTBOUND_HIGH_WATER_BYTES; maxQueueBytes := 20;
     slowClientTimeoutMs := DEFAULT_SLOW_CLIENT_TIMEOUT_MS; pollIntervalMs := DEFAULT_OUTBOUND_POLL_INTERVAL_MS |}.
Definition sample_ops : list flow_op := [
  SendOp (OtherMessage VNull); SendOp (ToolUpdated "w" "c" "t" VNull); SendOp (ToolUpdated "w" "c" "t" VUndefined);
  SendOp (OtherMessage VUndefined)].
Definition sample_system : system := fold_left (λ σ op, perform sample_options sample_socket op σ) sample_ops new_system.

Lemma sample_flow_reachable : reachable sample_options sample_system.
Proof.
  do 4 (apply reachable_step; [|exact I]). apply reachable_new.
Qed.

Lemma outbound_delivery_witness :
  length (sy_accepted sample_system) = 4%nat ∧ length (queue (sy_flow sample_system)) = 2%nat ∧
  kept (written (sy_seen sample_system) ++ queue (sy_flow sample_system)) = kept (sy_accepted sample_system).
Proof.
  split; [vm_compute; reflexivity|]. split; [vm_compute; reflexivity|].
  apply (outbound_delivery None (Some (JInt 20)) None None sample_options sample_system).
  - vm_compute. reflexivity.
  - exact sample_flow_reachable.
  - vm_compute. reflexivity.
  - vm_compute. reflexivity.
Defined.

Lemma waiting_queue_is_polled_witness :
  ∃ h started, timer (sy_flow sample_system) = Some h ∧ timers (sy_seen sample_system) = [h] ∧
    pressureStartedAt (sy_flow sample_system) = Some started ∧
    last_now (sy_seen sample_system) - started < slowClientTimeoutMs sample_options.
Proof.
  apply (waiting_queue_is_polled None (Some (JInt 20)) None None sample_options sample_system).
  - vm_compute. reflexivity.
  - exact sample_flow_reachable.
  - vm_compute. reflexivity.
  - vm_compute. discriminate.
Defined.
