(* ===== verification/PosixPath.v ===== *)
(** The functions of Node's [path] module (POSIX) that the program uses, on
    code-unit strings: a path is normalized by its segments. The containment
    tests of [src/server/sandbox/admission.ts] are defined over them and proved
    to compare the segments of the resolved paths. *)
From S2P Require Import Prelude Texts.
#[local] Open Scope string_scope. #[local] Open Scope Z_scope.
#[local] Arguments String.append : simpl nomatch.

Definition sep : ascii := "/"%char.

(** [path.isAbsolute(p)] *)
Definition is_absolute (p : string) : bool := starts_with "/" p.

(** The segments a path has after "." and ".." are resolved, last one first:
    ".." takes back a segment, and stays only in a relative path that has none
    to take back. *)
Fixpoint normalize_segments (allowAboveRoot : bool) (acc parts : list string) : list string :=
  match parts with
  | [] => acc
  | p :: ps =>
      normalize_segments allowAboveRoot
        (if String.eqb p "" || String.eqb p "." then acc
         else if String.eqb p ".." then
           match acc with
           | [] => if allowAboveRoot then [p] else []
           | q :: acc' => if String.eqb q ".." then (if allowAboveRoot then p :: acc else acc) else acc'
           end
         else p :: acc) ps
  end.

Definition normal_segments (absolute : bool) (p : string) : list string :=
  rev (normalize_segments (negb absolute) [] (split sep p)).

(** [path.normalize(p)] *)
Definition normalize (p : string) : string :=
  if String.eqb p "" then "."
  else
    let trailing := ends_with "/" p in
    match normal_segments (is_absolute p) p with
    | [] => if is_absolute p then "/" else if trailing then "./" else "."
    | segments =>
        let text := join sep segments +:+ (if trailing then "/" else "") in
        if is_absolute p then String sep text else text
    end.

(** [path.join(a, b)] *)
Definition path_join (a b : string) : string :=
  if String.eqb a "" then (if String.eqb b "" then "." else normalize b)
  else normalize (if String.eqb b "" then a else a +:+ String sep b).

(** The text that [path.resolve] normalizes: the arguments from the last one
    back to the first absolute one, before them the working directory. *)
Fixpoint resolve_text (cwd : string) (reversed : list string) (text : string) : string :=
  match reversed with
  | [] => cwd +:+ String sep text
  | p :: ps =>
      if String.eqb p "" then resolve_text cwd ps text
      else if is_absolute p then p +:+ String sep text
      else resolve_text cwd ps (p +:+ String sep text)
  end.

(** The working directory of the process is absolute, and so is a resolved path. *)
Definition resolved_segments (cwd : string) (paths : list string) : list string :=
  normal_segments true (resolve_text cwd (rev paths) "").
Definition path_of_segments (segments : list string) : string := String sep (join sep segments).

(** [path.resolve(...paths)] in a process whose working directory is [cwd] *)
Definition resolve (cwd : string) (paths : list string) : string :=
  path_of_segments (resolved_segments cwd paths).

(** The segments of a path that [path.resolve] returned. *)
Definition segments_of (resolved : string) : list string :=
  match resolved with
  | String _ EmptyString | EmptyString => []
  | String _ text => split sep text
  end.

Fixpoint drop_common (l1 l2 : list string) : list string * list string :=
  match l1, l2 with
  | a :: l1', b :: l2' => if String.eqb a b then drop_common l1' l2' else (l1, l2)
  | _, _ => (l1, l2)
  end.

(** [path.relative(from, to)] *)
Definition relative (cwd from to : string) : string :=
  if String.eqb from to then ""
  else
    let '(ups, downs) :=
      drop_common (segments_of (resolve cwd [from])) (segments_of (resolve cwd [to])) in
    join sep (((λ _, "..") <$> ups) ++ downs)%list.

(** [s.slice(0, i)] up to the last separator; [None] without one. *)
Fixpoint before_last_sep (s : string) : option string :=
  match s with
  | EmptyString => None
  | String a r =>
      match before_last_sep r with
      | Some t => Some (String a t)
      | None => if Ascii.eqb a sep then Some "" else None
      end
  end.
Fixpoint drop_trailing_seps (s : string) : string :=
  match s with
  | EmptyString => EmptyString
  | String a r =>
      match drop_trailing_seps r with
      | EmptyString => if Ascii.eqb a sep then EmptyString else String a EmptyString
      | r' => String a r'
      end
  end.

(** [path.dirname(p)]: the first character is never a separator to cut at. *)
Definition dirname (p : string) : string :=
  match p with
  | EmptyString => "."
  | String a r =>
      match before_last_sep (drop_trailing_seps r) with
      | None => if Ascii.eqb a sep then "/" else "."
      | Some EmptyString => if Ascii.eqb a sep then "//" else String a ""
      | Some t => String a t
      end
  end.

(** ** Containment *)

(** src/server/sandbox/admission.ts:58-65 isCanonicalPathContained *)
Definition isCanonicalPathContained (cwd parent child : string) : bool :=
  let relative := relative cwd parent child in
  String.eqb relative ""
  || (negb (String.eqb relative "..") && negb (starts_with "../" relative) && negb (is_absolute relative)).

(** src/server/sandbox/admission.ts:67-69 canonicalPathsOverlap *)
Definition canonicalPathsOverlap (cwd left right : string) : bool :=
  isCanonicalPathContained cwd left right || isCanonicalPathContained cwd right left.

(** ** Segments *)

(** A segment of a normalized absolute path. *)
Definition plain (p : string) : Prop :=
  p ≠ "" ∧ p ≠ "." ∧ p ≠ ".." ∧ has_char sep p = false.

Lemma normalize_segments_plain acc parts :
  Forall plain acc → Forall (λ p, has_char sep p = false) parts →
  Forall plain (normalize_segments false acc parts).
Proof.
  revert acc. induction parts as [|p ps IH]; intros acc Ha; [done|]. intros [Hp Hps]%Forall_cons.
  cbn [normalize_segments]. apply IH; [|done].
  destruct (String.eqb_spec p ""), (String.eqb_spec p "."); cbn [orb]; try done.
  destruct (String.eqb_spec p "..").
  - destruct acc as [|q acc]; [done|]. apply Forall_cons in Ha as [Hq Ha].
    destruct (String.eqb_spec q ".."); [|done]. by constructor.
  - by constructor.
Qed.

Lemma normal_segments_plain p : Forall plain (normal_segments true p).
Proof.
  unfold normal_segments. apply Forall_rev, normalize_segments_plain; [constructor|].
  apply split_Forall_no_sep.
Qed.

(** A path of plain segments is left alone. *)
Lemma normalize_segments_of_plain b acc l :
  Forall plain l → normalize_segments b acc l = (rev l ++ acc)%list.
Proof.
  revert acc. induction l as [|p l IH]; intros acc; [done|].
  intros [(H1 & H2 & H3 & _) Hl]%Forall_cons. cbn [normalize_segments rev].
  apply String.eqb_neq in H1 as ->. apply String.eqb_neq in H2 as ->. apply String.eqb_neq in H3 as ->.
  cbn [orb]. rewrite IH by done. by rewrite <-app_assoc.
Qed.

Lemma join_plain_nonempty l : l ≠ [] → Forall plain l → join sep l ≠ "".
Proof.
  destruct l as [|p l]; [done|]. intros _ [(Hp & _) _]%Forall_cons. cbn [join].
  destruct l; [done|]. by destruct p.
Qed.

Lemma segments_of_path l : Forall plain l → segments_of (path_of_segments l) = l.
Proof.
  intros Hl. destruct l as [|p l]; [done|].
  pose proof (join_plain_nonempty (p :: l) ltac:(done) Hl) as Hne.
  unfold path_of_segments, segments_of.
  destruct (join sep (p :: l)) as [|a t] eqn:E; [done|]. rewrite <-E. apply split_join; [done|].
  eapply Forall_impl; [exact Hl|]. by intros x (_ & _ & _ & H).
Qed.

Lemma segments_of_resolve cwd paths : segments_of (resolve cwd paths) = resolved_segments cwd paths.
Proof. apply segments_of_path, normal_segments_plain. Qed.

Lemma resolve_inj cwd p q : resolve cwd p = resolve cwd q ↔ resolved_segments cwd p = resolved_segments cwd q.
Proof.
  split; [|unfold resolve; congruence]. intros H. apply (f_equal segments_of) in H.
  by rewrite !segments_of_resolve in H.
Qed.

Lemma normalize_segments_trailing b acc l :
  normalize_segments b acc (l ++ [""])%list = normalize_segments b acc l.
Proof. revert acc. induction l as [|q l IH]; intros acc; [done|]. cbn [app normalize_segments]. apply IH. Qed.

Lemma is_absolute_sep s : is_absolute (String sep s) = true.
Proof. by destruct s. Qed.

Lemma resolve_idemp cwd cwd' paths : resolve cwd' [resolve cwd paths] = resolve cwd paths.
Proof.
  assert (H : resolved_segments cwd' [resolve cwd paths] = resolved_segments cwd paths).
  { pose proof (normal_segments_plain (resolve_text cwd (rev paths) "")) as Hp.
    unfold resolved_segments at 1, normal_segments. cbn [rev app resolve_text].
    unfold resolve, path_of_segments. fold (resolved_segments cwd paths) in Hp.
    set (l := resolved_segments cwd paths) in *.
    rewrite is_absolute_sep. cbn [String.eqb negb].
    replace (split sep (String sep (join sep l) +:+ String sep "")) with ([""] ++ split sep (join sep l) ++ [""])%list.
    2:{ change (String sep (join sep l) +:+ String sep "") with (String sep (join sep l +:+ String sep "")).
        cbn [split]. rewrite Ascii.eqb_refl. by rewrite split_app. }
    destruct l as [|p l]; [done|]. rewrite split_join; [|done|].
    2:{ eapply Forall_impl; [exact Hp|]. by intros x (_ & _ & _ & H). }
    change ([""] ++ (p :: l) ++ [""])%list with ("" :: ((p :: l) ++ [""]))%list.
    cbn [normalize_segments]. rewrite String.eqb_refl. cbn [orb].
    rewrite normalize_segments_trailing, normalize_segments_of_plain by done. by rewrite app_nil_r, rev_involutive. }
  unfold resolve at 1. by rewrite H.
Qed.

Lemma drop_common_spec l1 l2 :
  ∃ common, l1 = (common ++ (drop_common l1 l2).1)%list ∧ l2 = (common ++ (drop_common l1 l2).2)%list
    ∧ ((drop_common l1 l2).1 = [] ∨ (drop_common l1 l2).2 = []
       ∨ head (drop_common l1 l2).1 ≠ head (drop_common l1 l2).2).
Proof.
  revert l2. induction l1 as [|a l1 IH]; intros l2; [exists []; by eauto|].
  destruct l2 as [|b l2]; [exists []; by eauto|]. cbn. destruct (String.eqb_spec a b) as [->|Hab].
  - destruct (IH l2) as (c & H1 & H2 & H3). exists (b :: c). cbn. rewrite <-H1, <-H2. done.
  - exists []. cbn. split_and!; [done..|]. right; right. congruence.
Qed.

Lemma drop_common_prefix l1 l2 : (drop_common l1 l2).1 = [] ↔ l1 `prefix_of` l2.
Proof.
  destruct (drop_common_spec l1 l2) as (c & H1 & H2 & H3). split.
  - intros E. rewrite E, app_nil_r in H1. subst c. by eexists.
  - intros [k E]. destruct (drop_common l1 l2) as [u d]. cbn in *. destruct u as [|x u]; [done|].
    exfalso. rewrite H1, H2, <-app_assoc in E. apply app_inv_head in E. subst d. by destruct H3 as [|[|]].
Qed.

(** ** Containment is the prefix order of segments *)

Lemma starts_with_app p s : starts_with p (p +:+ s) = true.
Proof. unfold starts_with. induction p as [|a p IH]; [by destruct s|]. cbn. by destruct (ascii_dec a a). Qed.

Lemma starts_with_spec p s : starts_with p s = true → ∃ r, s = p +:+ r.
Proof.
  unfold starts_with. revert s. induction p as [|a p IH]; intros s; [by exists s|].
  destruct s as [|b s]; [done|]. cbn. destruct (ascii_dec a b) as [->|]; [|done].
  intros [r ->]%IH. by exists r.
Qed.

Lemma relative_inside p l :
  Forall plain (p :: l) → let text := join sep (p :: l) in
  text ≠ ".." ∧ starts_with "../" text = false ∧ is_absolute text = false.
Proof.
  intros Hl text.
  assert (Hs : split sep text = p :: l).
  { apply split_join; [done|]. eapply Forall_impl; [exact Hl|]. by intros x (_ & _ & _ & H). }
  apply Forall_cons in Hl as [(H1 & _ & H3 & _) _].
  split_and!; [intros E|apply not_true_iff_false; intros [r E]%starts_with_spec..];
    rewrite E in Hs; cbn in Hs; congruence.
Qed.

Lemma relative_outside (ups downs : list string) :
  ups ≠ [] → let text := join sep (((λ _, "..") <$> ups) ++ downs)%list in
  text = ".." ∨ starts_with "../" text = true.
Proof.
  destruct ups as [|u ups]; [done|]. intros _. cbn [fmap list_fmap app join].
  destruct (((λ _, "..") <$> ups) ++ downs)%list eqn:E; [by left|right; exact (starts_with_app "../" _)].
Qed.

Lemma contained_prefix cwd parent child :
  isCanonicalPathContained cwd parent child = true ↔
  resolved_segments cwd [parent] `prefix_of` resolved_segments cwd [child].
Proof.
  unfold isCanonicalPathContained, relative.
  destruct (String.eqb_spec parent child) as [->|Hne]; [by split|].
  rewrite !segments_of_resolve, <-drop_common_prefix.
  pose proof (normal_segments_plain (resolve_text cwd (rev [child]) "")) as Hc.
  fold (resolved_segments cwd [child]) in Hc.
  destruct (drop_common_spec (resolved_segments cwd [parent]) (resolved_segments cwd [child]))
    as (c & _ & H2 & _).
  destruct (drop_common (resolved_segments cwd [parent]) (resolved_segments cwd [child])) as [ups downs].
  cbn [fst snd] in *. rewrite H2, Forall_app in Hc. destruct Hc as [_ Hd].
  destruct ups as [|u ups].
  - split; [done|]. intros _. cbn [fmap list_fmap app]. destruct downs as [|d downs]; [done|].
    destruct (relative_inside d downs Hd) as (E1 & -> & ->). apply String.eqb_neq in E1. rewrite E1.
    by rewrite orb_true_r.
  - split; [|done]. intros H. exfalso.
    assert (Hn : join sep (((λ _, "..") <$> u :: ups) ++ downs)%list ≠ "").
    { cbn [fmap list_fmap app join]. by destruct (((λ _, "..") <$> ups) ++ downs)%list. }
    apply String.eqb_neq in Hn. rewrite Hn in H. cbn [orb] in H.
    destruct (relative_outside (u :: ups) downs ltac:(done)) as [E|E]; rewrite E in H; [done|].
    by rewrite andb_false_r in H.
Qed.

Lemma contained_refl cwd p : isCanonicalPathContained cwd p p = true.
Proof. by apply contained_prefix. Qed.

Lemma contained_trans cwd p q r :
  isCanonicalPathContained cwd p q = true → isCanonicalPathContained cwd q r = true →
  isCanonicalPathContained cwd p r = true.
Proof. rewrite !contained_prefix. by etrans. Qed.

Lemma overlap_spec cwd p q :
  canonicalPathsOverlap cwd p q = true ↔
  resolved_segments cwd [p] `prefix_of` resolved_segments cwd [q]
  ∨ resolved_segments cwd [q] `prefix_of` resolved_segments cwd [p].
Proof. unfold canonicalPathsOverlap. by rewrite orb_true_iff, !contained_prefix. Qed.

Lemma overlap_sym cwd p q : canonicalPathsOverlap cwd p q = canonicalPathsOverlap cwd q p.
Proof. unfold canonicalPathsOverlap. apply orb_comm. Qed.

(** Below two paths that do not overlap nothing is shared. *)
Lemma disjoint_below cwd p q x y :
  canonicalPathsOverlap cwd p q = false →
  isCanonicalPathContained cwd p x = true → isCanonicalPathContained cwd q y = true →
  canonicalPathsOverlap cwd x y = false.
Proof.
  intros Hpq Hx Hy. apply not_true_iff_false. intros Hxy. apply not_true_iff_false in Hpq. apply Hpq.
  rewrite overlap_spec in *. rewrite contained_prefix in Hx, Hy. destruct Hxy as [H|H].
  - eapply prefix_weak_total; [etrans; [exact Hx|exact H]|exact Hy].
  - eapply prefix_weak_total; [exact Hx|etrans; [exact Hy|exact H]].
Qed.
