(* ===== verification/Host.v ===== *)
(** What the workspace code asks of its host: the file system calls of
    [node:fs] and [node:fs/promises], the clocks and fresh identifiers, as the
    external calls of Programs. A synchronous call leaves the caller's state
    alone; while a promise is awaited other tasks may change it at will. *)
From S2P Require Import Prelude Errors Programs.
#[local] Open Scope string_scope. #[local] Open Scope Z_scope.

(** What [lstat] and [stat] tell. *)
Record Stats := {
  isDirectory : bool;
  isFile : bool;
  isSymbolicLink : bool;
  isSocket : bool;
  dev : Z;
  ino : Z;
}.

(** [fs.constants] *)
Definition R_OK : Z := 4.
Definition W_OK : Z := 2.
Definition X_OK : Z := 1.

Inductive host_call :=
| RealpathSync (target : string)
| StatSync (target : string)
| LstatSync (target : string)
| AccessSync (target : string) (mode : Z)
| Realpath (target : string)
| Stat (target : string)
| Lstat (target : string)
| Access (target : string) (mode : Z)
| Opendir (target : string)
(* The async iterator of an open directory: [next] and [return]; [close]. *)
| NextEntry (directory : nat)
| ReturnIterator (directory : nat)
| CloseDirectory (directory : nat)
| PerformanceNow
| DateNow
| RandomUUID.

Definition host_answer (c : host_call) : Type :=
  match c with
  | RealpathSync _ | Realpath _ => result thrown string
  | StatSync _ | LstatSync _ | Stat _ | Lstat _ => result thrown Stats
  | AccessSync _ _ | Access _ _ => result thrown unit
  | Opendir _ => result thrown nat
  | NextEntry _ => result thrown (option string)
  | ReturnIterator _ | CloseDirectory _ => result thrown unit
  | PerformanceNow | DateNow => Z
  | RandomUUID => string
  end.

(** Whether the caller is suspended until the answer arrives. *)
Definition is_awaited (c : host_call) : bool :=
  match c with
  | Realpath _ | Stat _ | Lstat _ | Access _ _ | Opendir _ | NextEntry _ | ReturnIterator _ | CloseDirectory _ => true
  | _ => false
  end.

#[export] Instance host_interference (S : Type) : Interference host_call S S :=
  λ c after before, if is_awaited c then after else before.

(** A loop that needed more turns than its bound: a value no run returns. *)
Inductive exhausted := Exhausted.

(** A function of the host process whose own variables are [S]. *)
Notation host S := (Programs.stmt host_answer S S exhausted thrown).
Notation ask := (Programs.call_ok (ans := host_answer) (R := exhausted) (E := thrown)) (only parsing).
Notation tell := (Programs.call_ (ans := host_answer) (R := exhausted) (E := thrown)) (only parsing).

(** [if (cond) throw error;] *)
Definition throw_when {S} (cond : bool) (e : thrown) : host S unit := if cond then throw_ e else mret tt.
(** [new Error(message)] *)
Definition plain_error (message : string) : thrown := Foreign None message.

(** ** Specifications over the history of calls *)

(** The history of answered calls, oldest first. *)
Notation history S := (list (Programs.event host_answer S)).
Definition record_call {S} (h : history S) (e : Programs.event host_answer S) : history S := (h ++ [e])%list.
Definition any_call {S} (h : history S) (c : host_call) : Prop := True.

(** A call was answered. *)
Definition answered {S} (h : history S) (c : host_call) (r : host_answer c) : Prop :=
  ∃ w, Event c r w ∈ h.

Lemma answered_snoc {S} (h : history S) e c r : answered h c r → answered (record_call h e) c r.
Proof. intros [w Hw]. exists w. apply elem_of_app. by left. Qed.
Lemma answered_last {S} (h : history S) c r w : answered (record_call h (Event c r w)) c r.
Proof. exists w. apply elem_of_app. right. by apply list_elem_of_singleton. Qed.
