(* ===== verification/SandboxAdmission.v ===== *)
(** Admission of a workspace or a mount to the sandbox
    ([src/server/sandbox/admission.ts]): its canonical identity, the approved
    roots and protected paths, and a bounded walk that refuses Unix sockets. *)
From S2P Require Import Prelude Texts Errors Programs PosixPath Host.
#[local] Open Scope string_scope. #[local] Open Scope Z_scope.

(** src/server/sandbox/admission.ts:13-13 SANDBOX_SOCKET_WALK_MAX_ENTRIES *)
Definition SANDBOX_SOCKET_WALK_MAX_ENTRIES : Z := 100000.
(** src/server/sandbox/admission.ts:14-14 SANDBOX_SOCKET_WALK_DEADLINE_MS *)
Definition SANDBOX_SOCKET_WALK_DEADLINE_MS : Z := 2000.

(** src/server/sandbox/admission.ts:16-21 SandboxAdmissionPolicy *)
Record SandboxAdmissionPolicy := {
  sp_workspacePath : string;
  sp_workspaceRoots : list string;
  sp_protectedPaths : list string;
}.

(** src/server/sandbox/admission.ts:23-27 SandboxMountAdmissionPolicy *)
Record SandboxMountAdmissionPolicy := { mp_sourcePath : string; mp_writable : bool }.

(** src/server/sandbox/admission.ts:29-32 SandboxAdmissionBounds *)
Record SandboxAdmissionBounds := { maxEntries : Z; deadlineMs : Z }.

(** src/server/sandbox/admission.ts:54-57 DEFAULT_BOUNDS *)
Definition DEFAULT_BOUNDS : SandboxAdmissionBounds :=
  {| maxEntries := SANDBOX_SOCKET_WALK_MAX_ENTRIES; deadlineMs := SANDBOX_SOCKET_WALK_DEADLINE_MS |}.

(** The constructor's check of the bounds; the foreign errors are RangeErrors. A
    finite deadline is a whole number of the clock's units; [Some None] is NaN
    or an infinity. *)
(** src/server/sandbox/admission.ts:85-97 constructor *)
Definition newAdmission (maxEntries : option jsnum) (deadlineMs : option (option Z)) : result thrown SandboxAdmissionBounds :=
  match default (JInt SANDBOX_SOCKET_WALK_MAX_ENTRIES) maxEntries with
  | JInt entries =>
      if negb (isSafeInteger entries) || (entries <=? 0)
      then Err (plain_error "Sandbox admission maxEntries must be a positive integer")
      else match default (Some SANDBOX_SOCKET_WALK_DEADLINE_MS) deadlineMs with
           | Some deadline =>
               if deadline <=? 0 then Err (plain_error "Sandbox admission deadlineMs must be positive")
               else Ok {| maxEntries := entries; deadlineMs := deadline |}
           | None => Err (plain_error "Sandbox admission deadlineMs must be positive")
           end
  | JOther => Err (plain_error "Sandbox admission maxEntries must be a positive integer")
  end.

Section admission.
Context {S : Type} (process_cwd : string) (bounds : SandboxAdmissionBounds).
Notation isCanonicalPathContained := (PosixPath.isCanonicalPathContained process_cwd).
Notation canonicalPathsOverlap := (PosixPath.canonicalPathsOverlap process_cwd).

(** src/server/sandbox/admission.ts:159-168 validateChatWcaMask *)
Definition validateChatWcaMask (workspace : string) : host S unit :=
  try_
    (metadata ← ask (Lstat (path_join workspace ".chatwca")) id;
     throw_when (isSymbolicLink metadata || negb (isDirectory metadata))
       (plain_error ".chatwca is not a real directory"))
    (λ error, throw_when (negb (bool_decide (errno_of error = Some "ENOENT"))) error).

(** The elapsed time is past the deadline. *)
Definition deadline_reached (started now : Z) : bool := deadlineMs bounds <=? now - started.

(** The body of the loop over one directory: the stack of directories to walk
    and the number of entries seen, before and after one entry. *)
(** src/server/sandbox/admission.ts:185-196 entryBody *)
Definition visit_entry (started : Z) (directoryPath name : string) (pending : list string) (entries : Z)
  : host S (list string * Z) :=
  let entries := entries + 1 in
  throw_when (maxEntries bounds <? entries) (plain_error "socket walk entry bound reached");;
  now ← tell PerformanceNow;
  throw_when (deadline_reached started now) (plain_error "socket walk deadline reached");;
  let child := path_join directoryPath name in
  metadata ← ask (Lstat child) id;
  throw_when (isSocket metadata) (plain_error "workspace contains a Unix socket");;
  mret (if isDirectory metadata && negb (isSymbolicLink metadata) then child :: pending else pending, entries).

(** [for await (const entry of directory)]: a body that throws closes the
    iterator, whose own failure is then ignored. *)
(** src/server/sandbox/admission.ts:184-197 forAwait *)
Fixpoint read_entries (turns : nat) (started : Z) (directoryPath : string) (directory : nat)
    (pending : list string) (entries : Z) : host S (list string * Z) :=
  match turns with
  | O => return_ Exhausted
  | Datatypes.S turns =>
      entry ← ask (NextEntry directory) id;
      match entry with
      | None => mret (pending, entries)
      | Some name =>
          '(pending, entries) ← try_ (visit_entry started directoryPath name pending entries)
            (λ error, tell (ReturnIterator directory);; throw_ error);
          read_entries turns started directoryPath directory pending entries
      end
  end.

(** The [finally] clause: an error of its own replaces what was thrown. *)
(** src/server/sandbox/admission.ts:198-204 close *)
Definition close_directory (directory : nat) : host S unit :=
  r ← tell (CloseDirectory directory);
  match r with
  | Ok _ => mret tt
  | Err error => throw_when (negb (bool_decide (errno_of error = Some "ERR_DIR_CLOSED"))) error
  end.
(** [try { m } finally { close }] *)
(** src/server/sandbox/admission.ts:183-204 withClose *)
Definition with_close {A} (directory : nat) (m : host S A) : host S A :=
  x ← try_ m (λ error, close_directory directory;; throw_ error);
  close_directory directory;;
  mret x.

(** One directory can be read in at most this many turns. *)
Definition entry_turns (entries : Z) : nat := Datatypes.S (Z.to_nat (maxEntries bounds - entries)).

(** src/server/sandbox/admission.ts:175-205 walk *)
Fixpoint walk (turns : nat) (started : Z) (pending : list string) (entries : Z) : host S unit :=
  match pending with
  | [] => mret tt
  | directoryPath :: pending =>
      match turns with
      | O => return_ Exhausted
      | Datatypes.S turns =>
          now ← tell PerformanceNow;
          throw_when (deadline_reached started now) (plain_error "socket walk deadline reached");;
          directory ← ask (Opendir directoryPath) id;
          '(pending, entries) ← with_close directory
            (read_entries (entry_turns entries) started directoryPath directory pending entries);
          walk turns started pending entries
      end
  end.

(** The walk opens at most one directory more than it may see entries. *)
(** src/server/sandbox/admission.ts:170-206 rejectSockets *)
Definition rejectSockets (workspace : string) : host S unit :=
  started ← tell PerformanceNow;
  walk (Datatypes.S (Z.to_nat (maxEntries bounds))) started [workspace] 0.

(** [catch (error) { if (error instanceof AppError) throw error; throw new AppError(..., { cause }) }] *)
Definition rejecting {A} (m : host S A) : host S A :=
  try_ m (λ error,
    match error with
    | AppError _ _ _ => throw_ error
    | Foreign _ _ => throw_ (app_error_cause SANDBOX_WORKSPACE_REJECTED error)
    end).

(** src/server/sandbox/admission.ts:99-133 admit *)
Definition admit_workspace (policy : SandboxAdmissionPolicy) : host S unit :=
  rejecting (
    let expected := normalize (sp_workspacePath policy) in
    real ← ask (Realpath expected) id;
    let canonical := normalize real in
    throw_when (negb (String.eqb canonical expected)) (plain_error "workspace canonical identity changed");;
    throw_when (negb (bool_decide (sp_workspaceRoots policy = []))
                && negb (existsb (λ root, isCanonicalPathContained root canonical) (sp_workspaceRoots policy)))
      (plain_error "workspace is outside approved roots");;
    throw_when (existsb (λ protectedPath, canonicalPathsOverlap canonical protectedPath) (sp_protectedPaths policy))
      (plain_error "workspace overlaps a protected path");;
    ask (Access canonical (Z.lor (Z.lor R_OK W_OK) X_OK)) id;;
    validateChatWcaMask canonical;;
    rejectSockets canonical;;
    again ← ask (Realpath expected) id;
    throw_when (negb (String.eqb (normalize again) expected))
      (plain_error "workspace canonical identity changed during admission")).

(** src/server/sandbox/admission.ts:135-157 admitMount *)
Definition admitMount (policy : SandboxMountAdmissionPolicy) : host S unit :=
  rejecting (
    let expected := normalize (mp_sourcePath policy) in
    real ← ask (Realpath expected) id;
    let canonical := normalize real in
    throw_when (negb (String.eqb canonical expected)) (plain_error "mount canonical identity changed");;
    metadata ← ask (Lstat canonical) id;
    throw_when (negb (isDirectory metadata) || isSymbolicLink metadata)
      (plain_error "mount source is not a real directory");;
    ask (Access canonical (Z.lor (Z.lor R_OK X_OK) (if mp_writable policy then W_OK else 0))) id;;
    rejectSockets canonical;;
    again ← ask (Realpath expected) id;
    throw_when (negb (String.eqb (normalize again) expected))
      (plain_error "mount canonical identity changed during admission")).
End admission.
