(* ===== verification/SandboxAdmissionSafety.v ===== *)
(** What admission to the sandbox guarantees: it always ends within its bounds
    with every directory closed, and on a file system that does not change,
    whatever its answers, it decides exactly whether the workspace or mount may
    be admitted. *)
From S2P Require Import Prelude Texts Errors Programs PosixPath Host SandboxAdmission.
#[local] Open Scope string_scope. #[local] Open Scope Z_scope.

(** Statements whose loops do not run out of turns, and what they leave behind. *)
Section rules.
Context {S G : Type} {next : G → event host_answer S → G} {D T : S → G → Prop}.
Notation spec := (spec_t (R := exhausted) (E := thrown) (λ _ _, True) next D T).

Lemma spec_ask c {A} (f : host_answer c → result thrown A) P (Q : A → S → G → Prop) :
  (∀ s g r w, P s g →
     match f r with
     | Ok x => Q x (interference_of c w s) (next g (Event c r w))
     | Err _ => T (interference_of c w s) (next g (Event c r w))
     end) →
  spec P (ask c f) Q.
Proof.
  intros H s g HP. unfold Programs.call_ok, mbind, stmt_bind, call_. cbn. split; [done|]. intros r w.
  specialize (H s g r w HP). by destruct (f r).
Qed.

Lemma spec_throw_when (b : bool) e P :
  (∀ s g, P s g → b = true → T s g) → spec P (throw_when b e) (λ _ s g, P s g ∧ b = false).
Proof.
  intros H. destruct b; cbn; [apply spec_throw; intros s g Hp; by apply H|by apply spec_ret].
Qed.

(** A check whose failure [T] always explains. *)
Lemma spec_check (b : bool) e P : (∀ s g, P s g → T s g) → spec P (throw_when b e) (λ _ s g, P s g ∧ b = false).
Proof. intros H. apply spec_throw_when. auto. Qed.
End rules.

(** ** Bounds *)

(** What the calls so far amount to: how many directories were asked to be
    opened, how many entries were examined, which directories are open and not
    told to close, and how many of them there were at most at a time. *)
Record work := { opened : Z; examined : Z; held : list nat; peak : Z }.
Fixpoint without_handle (directory : nat) (handles : list nat) : list nat :=
  match handles with
  | [] => []
  | d :: rest => if Nat.eqb d directory then rest else d :: without_handle directory rest
  end.
Definition count_work {S} (g : work) (e : event host_answer S) : work :=
  match e with
  | Event (Opendir _) (Ok directory) _ =>
      {| opened := opened g + 1; examined := examined g; held := directory :: held g;
         peak := peak g `max` Z.of_nat (length (directory :: held g)) |}
  | Event (Opendir _) (Err _) _ =>
      {| opened := opened g + 1; examined := examined g; held := held g; peak := peak g |}
  | Event (Lstat _) _ _ =>
      {| opened := opened g; examined := examined g + 1; held := held g; peak := peak g |}
  | Event (CloseDirectory directory) _ _ =>
      {| opened := opened g; examined := examined g; held := without_handle directory (held g); peak := peak g |}
  | _ => g
  end.

Section bounds.
Context {S : Type} (process_cwd : string) (bounds : SandboxAdmissionBounds).
Context (Hmax : 0 ≤ maxEntries bounds) (start : work).
Notation max := (maxEntries bounds).

(** With the directories [hs] open: what the walk may have done at all, and
    after [entries] entries with [n] directories pending. *)
Definition bounded (hs : list nat) (g : work) : Prop :=
  held g = hs ∧ peak g ≤ 1 ∧ opened g ≤ opened start + 1 + max ∧ examined g ≤ examined start + max.
Definition within (hs : list nat) (n entries : Z) (g : work) : Prop :=
  held g = hs ∧ peak g ≤ 1 ∧
  opened g + n ≤ opened start + 1 + entries ∧ examined g ≤ examined start + entries ∧ 0 ≤ entries ≤ max.

(** Statements that throw with the directories [hs] open. *)
Notation spec hs := (spec_t (R := exhausted) (E := thrown) (S := S) (λ _ _, True) count_work
  (λ _ _, False) (λ _ g, bounded hs g)).

Lemma within_bounded hs n entries g : 0 ≤ n → within hs n entries g → bounded hs g.
Proof. unfold within, bounded. intuition lia. Qed.

Notation size l := (Z.of_nat (length l)).

(** The walk from one pair of a stack and a count to a later one. *)
Definition advanced (pending : list string) (entries : Z) (r : list string * Z) : Prop :=
  entries ≤ r.2 ∧ size r.1 - size pending ≤ r.2 - entries.

Lemma spec_uncounted hs c {A} (f : host_answer c → result thrown A) (P : work → Prop) :
  (∀ g r w, count_work (S := S) g (Event c r w) = g) → (∀ g, P g → bounded hs g) →
  spec hs (λ _ g, P g) (ask c f) (λ _ _ g, P g).
Proof. intros Hc Hb. apply spec_ask. intros s g r w HP. rewrite Hc. destruct (f r); auto. Qed.

Lemma spec_tell_quiet hs c (P : work → Prop) :
  (∀ g r w, count_work (S := S) g (Event c r w) = g) → spec hs (λ _ g, P g) (tell c) (λ _ _ g, P g).
Proof. intros Hc. apply spec_call. intros s g HP. split; [done|]. intros r w. by rewrite Hc. Qed.

Lemma spec_tell_all hs c (P Q : work → Prop) :
  (∀ g r w, P g → Q (count_work (S := S) g (Event c r w))) → spec hs (λ _ g, P g) (tell c) (λ _ _ g, Q g).
Proof. intros H. apply spec_call. intros s g HP. split; [done|]. intros r w. by apply H. Qed.

Lemma spec_visit_entry hs started d name (pending : list string) (entries : Z) :
  spec hs (λ _ g, within hs (size pending) entries g) (visit_entry bounds started d name pending entries)
    (λ r _ g, within hs (size r.1) r.2 g ∧ r.2 = entries + 1 ∧ size r.1 ≤ size pending + 1).
Proof.
  unfold visit_entry.
  eapply spec_bind; [apply spec_check; intros _ g; apply within_bounded; lia|]. intros [].
  eapply spec_bind.
  { apply (spec_tell_quiet hs PerformanceNow
      (λ g, within hs (size pending) entries g ∧ (max <? entries + 1) = false)).
    done. }
  intros now.
  eapply spec_bind; [apply spec_check; intros _ g [H _]; revert H; apply within_bounded; lia|]. intros [].
  eapply spec_bind.
  { apply (spec_ask (Lstat (path_join d name)) id _
      (λ _ _ g, within hs (size pending + 1) (entries + 1) g)).
    intros s g r w [[H Hm] _]. breflect. unfold within, bounded, count_work in *.
    destruct r; cbn; intuition lia. }
  intros metadata.
  eapply spec_bind; [apply spec_check; intros _ g; apply within_bounded; lia|]. intros [].
  apply spec_ret. intros s g [H _]. cbn [fst snd].
  destruct (isDirectory metadata && _); cbn [length]; unfold within in *; intuition lia.
Qed.

Lemma spec_read_entries (turns : nat) started d dir (pending : list string) (entries : Z) :
  max - entries < Z.of_nat turns →
  spec [dir] (λ _ g, within [dir] (size pending) entries g)
    (read_entries bounds turns started d dir pending entries)
    (λ r _ g, within [dir] (size r.1) r.2 g ∧ advanced pending entries r).
Proof.
  revert pending entries. induction turns as [|turns IH]; intros pending entries Ht.
  { intros s g H. exfalso. unfold within in H. lia. }
  cbn [read_entries]. eapply spec_bind.
  { apply (spec_uncounted [dir] (NextEntry dir) id (within [dir] (size pending) entries)); [done|].
    intros g. apply within_bounded. lia. }
  intros [name|]; [|apply spec_ret; intros s g H; unfold advanced; cbn; split_and!; [done|lia..]].
  eapply spec_bind.
  { eapply (spec_try (T := λ _ g, bounded [dir] g)); [apply spec_visit_entry|]. intros e.
    eapply spec_bind; [by apply (spec_tell_quiet [dir] (ReturnIterator dir) (bounded [dir]))|].
    intros ?. by apply spec_throw. }
  intros [pending' entries']. cbn [fst snd].
  eapply (spec_pre _ (λ s g, (entries' = entries + 1 ∧ size pending' ≤ size pending + 1)
    ∧ within [dir] (size pending') entries' g)); [by intros s g (H & -> & Hp)|].
  apply spec_pure. intros [-> Hp]. eapply spec_weaken; [| |apply IH; lia]; [done|].
  intros r s g [H Hr]. split; [done|]. unfold advanced in *. lia.
Qed.

(** Closing gives the directory up, whatever the answer. *)
Lemma spec_close_directory dir (P Q : work → Prop) :
  (∀ g r w, P g → Q (count_work (S := S) g (Event (CloseDirectory dir) r w))) → (∀ g, Q g → bounded [] g) →
  spec [] (λ _ g, P g) (close_directory dir) (λ _ _ g, Q g).
Proof.
  intros HP HQ. unfold close_directory. eapply spec_bind; [by apply (spec_tell_all [] (CloseDirectory dir) P Q)|].
  intros [u|e]; [by apply spec_ret|].
  eapply (spec_weaken _ (λ _ g, Q g)); [done| |apply spec_check; auto]. by intros ? s g [H _].
Qed.

(** Whatever happens while a directory is open, it is open no more afterwards. *)
Lemma spec_with_close {A} dir (m : host S A) P (R Q : A → work → Prop) :
  (∀ x g r w, R x g → Q x (count_work (S := S) g (Event (CloseDirectory dir) r w))) →
  (∀ x g, Q x g → bounded [] g) →
  spec [dir] P m (λ x _ g, R x g) → spec [] P (with_close dir m) (λ x _ g, Q x g).
Proof.
  intros HR HQ Hm. unfold with_close. eapply spec_bind.
  { eapply (spec_try (T := λ _ g, bounded [dir] g)); [exact Hm|]. intros e.
    eapply spec_bind; [apply (spec_close_directory dir _ (bounded [])); [|done]|intros ?; by apply spec_throw].
    intros g r w. unfold bounded, count_work. cbn. intros (-> & H). cbn. by rewrite Nat.eqb_refl. }
  intros x. eapply spec_bind; [apply (spec_close_directory dir _ (Q x)); [apply HR|apply HQ]|].
  intros ?. by apply spec_ret.
Qed.

Lemma spec_walk (turns : nat) started (pending : list string) (entries : Z) :
  size pending + (max - entries) ≤ Z.of_nat turns →
  spec [] (λ _ g, within [] (size pending) entries g) (walk bounds turns started pending entries)
    (λ _ _ g, bounded [] g).
Proof.
  revert pending entries. induction turns as [|turns IH]; intros pending entries Ht;
    destruct pending as [|d pending]; cbn [walk].
  1, 3: apply spec_ret; intros s g; apply within_bounded; lia.
  { intros s g H. exfalso. unfold within in H. cbn [length] in *. lia. }
  eapply spec_bind; [by apply (spec_tell_quiet [] PerformanceNow (within [] (size (d :: pending)) entries))|].
  intros now. eapply spec_bind; [apply spec_check; intros _ g; apply within_bounded; lia|]. intros [].
  eapply spec_bind.
  { apply (spec_ask (Opendir d) id _ (λ dir _ g, within [dir] (size pending) entries g)).
    intros s g r w [H _]. cbn [length] in H. unfold within, bounded, count_work in *.
    destruct H as (H1 & H2 & H3). destruct r; cbn; rewrite H1; cbn; intuition lia. }
  intros dir.
  eapply spec_bind.
  { apply (spec_with_close dir _ _ (λ r g, within [dir] (size r.1) r.2 g ∧ advanced pending entries r)
      (λ r g, within [] (size r.1) r.2 g ∧ advanced pending entries r)).
    - intros r g a w [(H1 & H2) Ha]. split; [|done]. unfold within, count_work in *. cbn. rewrite H1. cbn.
      by rewrite Nat.eqb_refl.
    - intros r g [H _]. revert H. apply within_bounded. lia.
    - apply spec_read_entries. unfold entry_turns. lia. }
  intros [pending' entries']. eapply (spec_pre _ (λ s g, advanced pending entries (pending', entries')
    ∧ within [] (size pending') entries' g)); [by intros s g [H Ha]|].
  apply spec_pure. unfold advanced. cbn [fst snd length] in *. intros H. apply IH. lia.
Qed.

Lemma spec_rejectSockets workspace :
  held start = [] → peak start = 0 →
  spec [] (λ _ g, g = start) (rejectSockets bounds workspace) (λ _ _ g, bounded [] g).
Proof.
  intros Hh Hp. unfold rejectSockets.
  eapply spec_bind; [by apply (spec_tell_quiet [] PerformanceNow (λ g, g = start))|].
  intros started. eapply spec_pre; [|apply spec_walk; cbn [length]; lia].
  intros s g ->. unfold within. rewrite Hh, Hp. cbn [length]. intuition lia.
Qed.

Lemma spec_rejecting {A} (m : host S A) P Q : spec [] P m Q → spec [] P (rejecting m) Q.
Proof.
  intros Hm. unfold rejecting. eapply spec_try; [exact Hm|]. intros e.
  destruct e; by apply spec_throw.
Qed.
End bounds.

Section admission_bounds.
Context {S : Type} (process_cwd : string) (bounds : SandboxAdmissionBounds).
Context (Hmax : 0 ≤ maxEntries bounds).

(** Before the walk only the mask or the mount itself is examined. *)
Definition nothing : work := {| opened := 0; examined := 0; held := []; peak := 0 |}.
Definition one_examined : work := {| opened := 0; examined := 1; held := []; peak := 0 |}.
Notation bounded := (bounded bounds one_examined []).
Notation spec := (spec_t (R := exhausted) (E := thrown) (S := S) (λ _ _, True) count_work
  (λ _ _, False) (λ _ g, bounded g)).

Lemma nothing_bounded : bounded nothing.
Proof. unfold SandboxAdmissionSafety.bounded. cbn. intuition lia. Qed.
Lemma one_examined_bounded : bounded one_examined.
Proof. unfold SandboxAdmissionSafety.bounded. cbn. intuition lia. Qed.
#[local] Hint Resolve nothing_bounded one_examined_bounded : core.

Lemma spec_examine target : spec (λ _ g, g = nothing) (ask (Lstat target) id) (λ _ _ g, g = one_examined).
Proof. apply spec_ask. intros s g r w ->. destruct r; [done|]. exact one_examined_bounded. Qed.

Lemma spec_validateChatWcaMask workspace :
  spec (λ _ g, g = nothing) (validateChatWcaMask workspace) (λ _ _ g, g = one_examined).
Proof.
  unfold validateChatWcaMask. eapply (spec_try (T := λ _ g, g = one_examined)).
  - eapply spec_bind.
    + apply (spec_ask (Lstat _) id _ (λ _ _ g, g = one_examined)). intros s g r w ->. by destruct r.
    + intros st. eapply (spec_weaken _ (λ _ g, g = one_examined)); [done| |by apply spec_check]. by intros ? s g [H _].
  - intros e. eapply (spec_weaken _ (λ _ g, g = one_examined)); [done| |apply spec_check; by intros s g ->].
    by intros ? s g [H _].
Qed.

(** A call that opens and examines nothing. *)
Lemma spec_passing c {A} (f : host_answer c → result thrown A) g0 :
  (∀ g r w, count_work (S := S) g (Event c r w) = g) → bounded g0 →
  spec (λ _ g, g = g0) (ask c f) (λ _ _ g, g = g0).
Proof. intros Hc Hb. apply (spec_uncounted bounds one_examined [] c f (λ g, g = g0)); [done|]. by intros g ->. Qed.

Lemma spec_passing_check (b : bool) e g0 :
  bounded g0 → spec (λ _ g, g = g0) (throw_when b e) (λ _ _ g, g = g0).
Proof.
  intros Hb. eapply (spec_weaken _ (λ _ g, g = g0)); [done| |apply spec_check; by intros s g ->].
  by intros ? s g [H _].
Qed.

(** The walk and the second look at the canonical identity. *)
Lemma spec_walk_then_look workspace expected (message : string) :
  spec (λ _ g, g = one_examined)
    (rejectSockets bounds workspace;;
     again ← ask (Realpath expected) id;
     throw_when (negb (String.eqb (normalize again) expected)) (plain_error message))
    (λ _ _ g, bounded g).
Proof.
  eapply spec_bind; [by apply spec_rejectSockets|]. intros ?.
  eapply spec_bind; [by apply (spec_uncounted bounds one_examined [] (Realpath expected) id bounded)|]. intros again.
  eapply (spec_weaken _ (λ _ g, bounded g)); [done| |by apply spec_check]. by intros ? s g [H _].
Qed.

Lemma spec_admit policy :
  spec (λ _ g, g = nothing) (admit_workspace process_cwd bounds policy) (λ _ _ g, bounded g).
Proof.
  unfold admit_workspace. apply spec_rejecting.
  eapply spec_bind; [by apply (spec_passing (Realpath _) id nothing)|]. intros real.
  do 3 (eapply spec_bind; [by apply spec_passing_check|]; intros []).
  eapply spec_bind; [by apply (spec_passing (Access _ _) id nothing)|]. intros ?.
  eapply spec_bind; [apply spec_validateChatWcaMask|]. intros ?.
  apply spec_walk_then_look.
Qed.

Lemma spec_admitMount policy :
  spec (λ _ g, g = nothing) (admitMount bounds policy) (λ _ _ g, bounded g).
Proof.
  unfold admitMount. apply spec_rejecting.
  eapply spec_bind; [by apply (spec_passing (Realpath _) id nothing)|]. intros real.
  eapply spec_bind; [by apply spec_passing_check|]. intros [].
  eapply spec_bind; [apply spec_examine|]. intros metadata.
  eapply spec_bind; [by apply spec_passing_check|]. intros [].
  eapply spec_bind; [by apply (spec_passing (Access _ _) id one_examined)|]. intros ?.
  apply spec_walk_then_look.
Qed.
End admission_bounds.

(** A statement that meets its specification, started without history. *)
Lemma spec_run {S A G} (next : G → event host_answer S → G) (T : S → G → Prop) P (m : host S A) Q env s g :
  spec_t (λ _ _, True) next (λ _ _, False) T P m Q → P s g →
  let '((o, s'), h) := run_prog env [] (m s) in
  match o with
  | Next x => Q x s' (after_history next g h)
  | Return _ => False
  | Throw _ => T s' (after_history next g h)
  end.
Proof.
  intros Hm HP. pose proof (wp_run (λ _ _, True) next (m s) g
    (λ '(o, s') g', match o with Next x => Q x s' g' | Return _ => False | Throw _ => T s' g' end) env []) as H.
  destruct (run_prog env [] (m s)) as [[o s'] h]. destruct H as (H & _); [by intros ? ? ? ?|by apply Hm|done].
Qed.

(** A run that ended, within the bounds, and holds nothing open. *)
Definition ended_within {S A} (bounds : SandboxAdmissionBounds)
    (r : outcome exhausted thrown A * S * list (event host_answer S)) : Prop :=
  let '((o, _), h) := r in
  let done := after_history count_work nothing h in
  (∀ x, o ≠ Return x)
  ∧ opened done ≤ maxEntries bounds + 1
  ∧ examined done ≤ maxEntries bounds + 1
  ∧ held done = [] ∧ peak done ≤ 1.

Lemma bounded_ended {S A} bounds (m : host S A) env s Q :
  spec_t (λ _ _, True) count_work (λ _ _, False) (λ _ g, bounded bounds one_examined [] g) (λ _ g, g = nothing) m Q →
  (∀ x s g, Q x s g → bounded bounds one_examined [] g) →
  ended_within bounds (run_prog env [] (m s)).
Proof.
  intros Hm HQ. pose proof (spec_run count_work _ _ _ _ env s nothing Hm eq_refl) as H.
  unfold ended_within. destruct (run_prog env [] (m s)) as [[o s'] h].
  destruct o as [x| |]; [apply HQ in H|done|]; destruct H as (H1 & H2 & H3 & H4); cbn in H3, H4;
    split_and!; (done || lia).
Qed.

(** C38: Admission of a workspace and of a mount ends whatever the file system answers, within its bounds and leaving nothing open: no loop runs out of turns, at most one directory more than the limit of entries is opened and at most one entry more than the limit is examined (the one more is the mask, or the mount itself); directories are open one at a time, and when admission ends, on success and on every failure, each directory that was opened has been told to close. *)
Theorem admission_is_bounded {S} cwd bounds (policy : SandboxAdmissionPolicy) (mount : SandboxMountAdmissionPolicy)
    (env : environment host_answer S) (s : S) :
  0 ≤ maxEntries bounds →
  ended_within bounds (run_prog env [] (admit_workspace cwd bounds policy s))
  ∧ ended_within bounds (run_prog env [] (admitMount bounds mount s)).
Proof.
  intros Hmax. split; (eapply bounded_ended; [by apply spec_admit || by apply spec_admitMount|done]).
Qed.

(** ** A file system that does not change *)

(** A file system whose answers depend on the path only, each of them success
    or failure: the names below a directory, whether it can be opened, read to
    its end and closed, what [lstat] and [stat] tell of a path, where it leads
    and whether it may be accessed in a mode; and a clock of which nothing is
    known, by the number of its readings. *)
Record still_fs := {
  names_in : string → list string;
  opens : string → result thrown unit;
  read_ends : string → result thrown unit;
  closes : string → result thrown unit;
  lstat_of : string → result thrown Stats;
  stat_of : string → result thrown Stats;
  real_of : string → result thrown string;
  access_of : string → Z → result thrown unit;
  time_of : nat → Z;
  date_of : Z;
}.

Section still.
Context (fs : still_fs).

(** A directory that is not a symbolic link. *)
Definition is_real_directory (st : Stats) : bool := isDirectory st && negb (isSymbolicLink st).

(** What is found by walking from [root]: directories, and their entries. *)
Inductive walked (root : string) : string → Prop :=
| walked_root : walked root root
| walked_below d name st :
    walked root d → name ∈ names_in fs d → lstat_of fs (path_join d name) = Ok st →
    is_real_directory st = true → walked root (path_join d name).

(** A directory that can be opened, read to the end and closed; one that was
    read to its end may be closed already. *)
Definition readable (d : string) : Prop :=
  opens fs d = Ok tt ∧ read_ends fs d = Ok tt ∧
  (closes fs d = Ok tt ∨ ∃ e, closes fs d = Err e ∧ errno_of e = Some "ERR_DIR_CLOSED").

(** Every directory below [root] can be read, and every entry of one can be
    looked at and is no Unix socket. *)
Definition clear_below (root : string) : Prop :=
  ∀ d, walked root d → readable d ∧
    ∀ name, name ∈ names_in fs d → ∃ st, lstat_of fs (path_join d name) = Ok st ∧ isSocket st = false.

(** The reader's position: the open directory, its handle and names still to
    come; how many directories were opened and names read so far, and how often
    the clock was. *)
Record position :=
  { at_handle : nat; at_path : string; at_rest : list string; at_opened : Z; at_seen : Z; at_reads : nat }.

Definition dir_closed : thrown := Foreign (Some "ERR_DIR_CLOSED") "directory handle was closed".

(** How this file system answers at a position. *)
Definition still_answer (p : position) (c : host_call) : host_answer c :=
  match c with
  | Realpath target | RealpathSync target => real_of fs target
  | Lstat target | LstatSync target => lstat_of fs target
  | Stat target | StatSync target => stat_of fs target
  | Access target mode | AccessSync target mode => access_of fs target mode
  | Opendir target => match opens fs target with Ok _ => Ok (Datatypes.S (at_handle p)) | Err e => Err e end
  | NextEntry directory =>
      if Nat.eqb directory (at_handle p)
      then match at_rest p with
           | name :: _ => Ok (Some name)
           | [] => match read_ends fs (at_path p) with Ok _ => Ok None | Err e => Err e end
           end
      else Err dir_closed
  | ReturnIterator _ => Ok tt
  | CloseDirectory directory => if Nat.eqb directory (at_handle p) then closes fs (at_path p) else Err dir_closed
  | PerformanceNow => time_of fs (at_reads p)
  | DateNow => date_of fs
  | RandomUUID => ""
  end.

(** The position after a call. *)
Definition still_next (p : position) (c : host_call) : position :=
  match c with
  | Opendir target =>
      {| at_handle := Datatypes.S (at_handle p); at_path := target; at_rest := names_in fs target;
         at_opened := at_opened p + 1; at_seen := at_seen p; at_reads := at_reads p |}
  | NextEntry _ =>
      match at_rest p with
      | [] => p
      | _ :: rest =>
          {| at_handle := at_handle p; at_path := at_path p; at_rest := rest;
             at_opened := at_opened p; at_seen := at_seen p + 1; at_reads := at_reads p |}
      end
  | PerformanceNow =>
      {| at_handle := at_handle p; at_path := at_path p; at_rest := at_rest p;
         at_opened := at_opened p; at_seen := at_seen p; at_reads := Datatypes.S (at_reads p) |}
  | _ => p
  end.

(** The position of a history, and whether this file system gave its answers. *)
Definition still_step {S} (g : position * Prop) (e : event host_answer S) : position * Prop :=
  (still_next g.1 (ev_call e), g.2 ∧ still_answer g.1 (ev_call e) = ev_answer e).

(** What holds of the position as long as the file system did not change. *)
Definition still {S} (P : position → Prop) (s : S) (g : position * Prop) : Prop := g.2 → P g.1.

Context {S : Type} (process_cwd : string) (bounds : SandboxAdmissionBounds).
Context (Hmax : 0 ≤ maxEntries bounds) (Hdeadline : 0 < deadlineMs bounds).
Notation max := (maxEntries bounds).

(** So far the limit of entries and the deadline were kept: every reading of the
    clock was less than the deadline after the first. *)
Definition on_time (p : position) : Prop :=
  ∀ k, (k < at_reads p)%nat → time_of fs k - time_of fs 0 < deadlineMs bounds.
(** The clock was read at the start, before every directory and at every entry. *)
Definition vigilant (p : position) : Prop := Z.of_nat (at_reads p) = 1 + at_opened p + at_seen p.
Definition within_limits (p : position) : Prop := at_seen p ≤ max ∧ on_time p.

(** Why a walk from [root] may refuse. *)
Definition refused (root : string) (p : position) : Prop := ¬ clear_below root ∨ ¬ within_limits p.

(** Both limits hold of the walk while it continues. *)
Lemma on_time_reading p now :
  on_time p → now = time_of fs (at_reads p) → deadline_reached bounds (time_of fs 0) now = false →
  on_time (still_next p PerformanceNow).
Proof.
  unfold deadline_reached. intros Hp -> Hd k Hk. cbn in Hk. breflect.
  destruct (decide (k = at_reads p)) as [->|]; [lia|]. apply Hp. lia.
Qed.
Lemma late_reading root p now :
  now = time_of fs (at_reads p) → deadline_reached bounds (time_of fs 0) now = true →
  refused root (still_next p PerformanceNow).
Proof.
  unfold deadline_reached. intros -> Hd. right. intros [_ H]. breflect. specialize (H (at_reads p)).
  cbn in H. lia.
Qed.

(** Before the walk. *)
Definition unread (p : position) : Prop := at_opened p = 0 ∧ at_seen p = 0 ∧ at_reads p = O.

(** Rules for statements whose refusals [R] explains. *)
Section still_rules.
Context {R : position → Prop}.
Notation spec := (spec_t (R := exhausted) (E := thrown) (S := S) (λ _ _, True) still_step
  (λ _ _, True) (still R)).

Lemma spec_still_ask c {A} (f : host_answer c → result thrown A) P (Q : A → position → Prop) :
  (∀ p r, P p → still_answer p c = r →
     match f r with Ok x => Q x (still_next p c) | Err _ => R (still_next p c) end) →
  spec (still P) (ask c f) (λ x, still (Q x)).
Proof.
  intros H. apply spec_ask. intros s g r w HP. cbn [still_step ev_call ev_answer fst snd].
  specialize (H g.1 r). destruct (f r); intros [Hg Hr]; cbn in Hr |- *; apply H; auto.
Qed.

Lemma spec_still_tell c P (Q : host_answer c → position → Prop) :
  (∀ p r, P p → still_answer p c = r → Q r (still_next p c)) →
  spec (still P) (tell c) (λ x, still (Q x)).
Proof.
  intros H. apply spec_call. intros s g HP. split; [done|]. intros r w [Hg Hr]. apply H; auto.
Qed.

Lemma spec_still_check (b : bool) e (P : position → Prop) :
  (∀ p, P p → b = true → R p) →
  spec (still P) (throw_when b e) (λ _, still (λ p, P p ∧ b = false)).
Proof.
  intros H. destruct b; cbn; [apply spec_throw|apply spec_ret]; intros s g HP Hg; auto.
Qed.

(** After an answer the file system does not give, nothing is claimed. *)
Lemma spec_changed {A} (m : host S A) :
  spec (λ _ g, ¬ g.2) m (λ _ _ g, ¬ g.2).
Proof.
  intros s g Hg. generalize (m s). intros q. revert g Hg.
  induction q as [[o s']|c k IH]; intros g Hg; cbn.
  - destruct o; [done|done|]. intros H. by destruct Hg.
  - split; [done|]. intros r w. apply IH. by intros [H _].
Qed.

(** What was known before is known after, if nothing changed. *)
Lemma spec_still_frame {A} (F : Prop) (m : host S A) P (Q : A → position → Prop) :
  spec (still P) m (λ x, still (Q x)) → spec (still (λ p, F ∧ P p)) m (λ x, still (λ p, F ∧ Q x p)).
Proof.
  intros Hm s g HP. eapply wp_mono.
  2:{ apply wp_and; [apply Hm; intros Hg; by destruct (HP Hg)|].
      assert (H : ∀ {B} (q : prog host_answer S B) g0 (F : Prop),
        (g0.2 → F) → wp (λ _ _, True) still_step q g0 (λ _ g', g'.2 → F)).
      { clear. intros B q. induction q as [b|c k IH]; intros g0 F Hg; cbn; [done|].
        split; [done|]. intros r w. apply IH. intros [H _]. auto. }
      apply (H _ (m s) g F). intros Hg. by destruct (HP Hg). }
  intros [o s'] g' [HQ HF]. destruct o; [|done|done]. intros Hg. split; auto.
Qed.
End still_rules.

Section walk.
Context (root : string).
Notation spec := (spec_t (R := exhausted) (E := thrown) (S := S) (λ _ _, True) still_step
  (λ _ _, True) (still (refused root))).

(** The directories whose entries were all examined, [D], and those to come, [P]:
    every entry examined is no socket, and is walked in turn if it is a directory. *)
Definition examined_entry (D P : list string) (d name : string) : Prop :=
  ∃ st, lstat_of fs (path_join d name) = Ok st ∧ isSocket st = false
    ∧ (is_real_directory st = true → path_join d name ∈ D ∨ path_join d name ∈ P).
Record covered (D P : list string) : Prop := {
  cov_root : root ∈ D ∨ root ∈ P;
  cov_walked : ∀ d, d ∈ D ∨ d ∈ P → walked root d;
  cov_read : ∀ d, d ∈ D → readable d;
  cov_done : ∀ d name, d ∈ D → name ∈ names_in fs d → examined_entry D P d name;
}.

(** Once nothing is to come, everything below the root is clear. *)
Lemma covered_all D : covered D [] → clear_below root.
Proof.
  intros [Hr _ Hread Hd].
  assert (Hw : ∀ d, walked root d → d ∈ D).
  { intros d. induction 1 as [|d name st _ IH Hn Hst Hdir].
    - destruct Hr as [|Hr]; [done|]. by apply elem_of_nil in Hr.
    - destruct (Hd d name IH Hn) as (st' & Hst' & _ & H). rewrite Hst in Hst'. injection Hst' as <-.
      destruct (H Hdir) as [|H']; [done|]. by apply elem_of_nil in H'. }
  intros d Hwd. split; [by apply Hread, Hw|].
  intros name Hn. destruct (Hd d name (Hw d Hwd) Hn) as (st & Hst & Hs & _). eauto.
Qed.
(** While [d] is read: its names still to come are [rest]. *)
Record reading (D P : list string) (d : string) (rest : list string) : Prop := {
  rd_root : root = d ∨ root ∈ D ∨ root ∈ P;
  rd_walked : ∀ x, x = d ∨ x ∈ D ∨ x ∈ P → walked root x;
  rd_read : ∀ x, x ∈ D → readable x;
  rd_done : ∀ x name, x ∈ D → name ∈ names_in fs x → examined_entry (d :: D) P x name;
  rd_here : ∀ name, name ∈ names_in fs d → name ∈ rest ∨ examined_entry (d :: D) P d name;
  rd_rest : ∀ name, name ∈ rest → name ∈ names_in fs d;
}.

Lemma examined_mono D P P' d name :
  (∀ x, x ∈ P → x ∈ P') → examined_entry D P d name → examined_entry D P' d name.
Proof. intros HP (st & H1 & H2 & H3). exists st. split_and!; [done..|]. intros H. destruct (H3 H); auto. Qed.

Lemma covered_open D P d : covered D (d :: P) → reading D P d (names_in fs d).
Proof.
  intros [Hr Hw Hread Hd]. split.
  - rewrite elem_of_cons in Hr. naive_solver.
  - intros x Hx. apply Hw. rewrite elem_of_cons. naive_solver.
  - done.
  - intros x name Hx Hn. destruct (Hd x name Hx Hn) as (st & H1 & H2 & H3). exists st. split_and!; [done..|].
    intros H. specialize (H3 H). rewrite !elem_of_cons in *. naive_solver.
  - by left.
  - done.
Qed.

Lemma reading_end D P d : reading D P d [] → readable d → covered (d :: D) P.
Proof.
  intros [Hr Hw Hread Hd Hh _] Hrd. split.
  - rewrite elem_of_cons. naive_solver.
  - intros x. rewrite elem_of_cons. naive_solver.
  - intros x. rewrite elem_of_cons. naive_solver.
  - intros x name. rewrite elem_of_cons. intros [->|Hx] Hn; [|auto].
    destruct (Hh name Hn) as [H|H]; [by apply elem_of_nil in H|done].
Qed.

Lemma reading_visit D P d name rest st :
  reading D P d (name :: rest) → lstat_of fs (path_join d name) = Ok st → isSocket st = false →
  reading D (if is_real_directory st then path_join d name :: P else P) d rest.
Proof.
  intros [Hr Hw Hread Hd Hh Hrest] Hst Hs.
  assert (HP : ∀ x, x ∈ P → x ∈ if is_real_directory st then path_join d name :: P else P).
  { intros x Hx. destruct (is_real_directory st); [by right|done]. }
  split.
  - naive_solver.
  - intros x Hx. destruct (is_real_directory st) eqn:E; [|by apply Hw].
    rewrite elem_of_cons in Hx. destruct Hx as [Hx|[Hx|[->|Hx]]]; try by (apply Hw; auto).
    apply (walked_below root d name st); [by apply Hw; left|apply Hrest; by left|done..].
  - done.
  - intros x y Hx Hy. eapply examined_mono; [exact HP|auto].
  - intros y Hy. destruct (Hh y Hy) as [H|H]; [|right; by eapply examined_mono].
    apply elem_of_cons in H as [->|H]; [|by left]. right. exists st. split_and!; [done..|].
    intros ->. right. by left.
  - intros y Hy. apply Hrest. by right.
Qed.

(** *** The walk *)
Section turns.
Context (d : string) (dir : nat).
(** With [owed] readings of the clock to come. *)
Definition at_entry (owed : Z) (pending : list string) (seen : Z) (before : list string) (p : position) : Prop :=
  at_handle p = dir ∧ at_path p = d ∧ at_seen p = seen ∧
  (on_time p ∧ Z.of_nat (at_reads p) + owed = 1 + at_opened p + seen) ∧ opens fs d = Ok tt ∧
  ∃ D, reading D pending d (before ++ at_rest p)%list.

(** After the loop: nothing is left to read, and reading ended well. *)
Definition at_end (pending : list string) (seen : Z) (p : position) : Prop :=
  at_entry 0 pending seen [] p ∧ at_rest p = [] ∧ seen ≤ max ∧ read_ends fs d = Ok tt.

Lemma walked_here owed pending seen before p : at_entry owed pending seen before p → walked root d.
Proof. intros (_ & _ & _ & _ & _ & D & HR). apply (rd_walked _ _ _ _ HR). by left. Qed.

(** A directory below the root that fails is a reason to refuse. *)
Lemma unreadable owed pending seen before p q : at_entry owed pending seen before p → ¬ readable d → refused root q.
Proof. intros Hp Hd. left. intros H. by apply Hd, H, (walked_here owed pending seen before p). Qed.

Lemma at_entry_reading pending seen before p now :
  at_entry 1 pending seen before p → now = time_of fs (at_reads p) →
  deadline_reached bounds (time_of fs 0) now = false →
  at_entry 0 pending seen before (still_next p PerformanceNow).
Proof.
  intros (H1 & H2 & H3 & [H4 H4'] & H5) Hnow Hd. unfold at_entry.
  cbn [still_next at_handle at_path at_seen at_rest at_opened at_reads].
  do 3 (split; [done|]). split; [split; [by eapply on_time_reading|lia]|done].
Qed.

Lemma spec_still_visit name pending entries :
  spec (still (at_entry 1 pending (entries + 1) [name]))
    (visit_entry bounds (time_of fs 0) d name pending entries)
    (λ r, still (λ p, at_entry 0 r.1 r.2 [] p ∧ r.2 ≤ max)).
Proof.
  unfold visit_entry.
  eapply spec_bind; [apply spec_still_check|].
  { intros p (_ & _ & Hseen & _) Hb. right. intros [H _]. breflect. lia. }
  intros []. eapply spec_bind.
  { apply (spec_still_tell PerformanceNow _ (λ now p, ∃ p0, p = still_next p0 PerformanceNow ∧
      now = time_of fs (at_reads p0) ∧ at_entry 1 pending (entries + 1) [name] p0 ∧ entries + 1 ≤ max)).
    intros p r [H Hm] <-. exists p. breflect. split_and!; (done || lia). }
  intros now. eapply spec_bind; [apply spec_still_check|].
  { intros p (p0 & -> & Hnow & _) Hb. by eapply late_reading. }
  intros []. eapply spec_bind.
  { apply (spec_still_ask (Lstat (path_join d name)) id _
      (λ st p, (at_entry 0 pending (entries + 1) [name] p ∧ entries + 1 ≤ max)
        ∧ lstat_of fs (path_join d name) = Ok st)).
    intros p r [(p0 & -> & Hnow & Hp & Hm) Hd] <-. pose proof Hp as (H1 & H2 & H3 & H4 & H5 & D & HR).
    cbn [still_answer id]. destruct (lstat_of fs (path_join d name)) as [st|e] eqn:E.
    - split; [split; [by eapply at_entry_reading|done]|done].
    - left. intros Hc. destruct (Hc d) as [_ Hn]; [by eapply walked_here|].
      destruct (Hn name) as (st & Hst & _); [apply (rd_rest _ _ _ _ HR); by left|]. congruence. }
  intros st. eapply spec_bind; [apply spec_still_check|].
  { intros p [[Hp Hm] Hst] Hs. left. intros Hc. pose proof Hp as (_ & _ & _ & _ & _ & D & HR).
    destruct (Hc d) as [_ Hn]; [by eapply walked_here|].
    destruct (Hn name) as (st' & Hst' & Hs'); [apply (rd_rest _ _ _ _ HR); by left|]. congruence. }
  intros []. apply spec_ret. intros s g Hp Hg.
  destruct (Hp Hg) as [[[(H1 & H2 & H3 & [H4 H4'] & H5 & D & HR) Hm] Hst] Hs].
  split; [|done]. split_and!; [done..|]. exists D. exact (reading_visit _ _ _ _ _ _ HR Hst Hs).
Qed.

Lemma spec_still_read turns pending entries :
  spec (still (λ p, at_entry 0 pending entries [] p ∧ entries ≤ max))
    (read_entries bounds turns (time_of fs 0) d dir pending entries)
    (λ r, still (at_end r.1 r.2)).
Proof.
  revert pending entries. induction turns as [|turns IH]; intros pending entries; cbn [read_entries].
  { by apply spec_return. }
  eapply spec_bind.
  { apply (spec_still_ask (NextEntry dir) id _ (λ entry p,
      match entry with
      | None => at_end pending entries p
      | Some name => at_entry 1 pending (entries + 1) [name] p
      end)).
    intros p r [Hp Hm]. pose proof Hp as (H1 & H2 & H3 & [H4 H4'] & H5 & D & HR).
    cbn [still_answer]. rewrite H1, H2, Nat.eqb_refl. intros <-. cbn.
    destruct (at_rest p) as [|name rest] eqn:E; cbn in HR.
    - destruct (read_ends fs d) as [[]|e] eqn:Ee; [by split_and!|].
      eapply unreadable; [exact Hp|]. intros (_ & H & _). by rewrite Ee in H.
    - split_and!; cbn; [done|done|lia|done|lia|done|]. by exists D. }
  intros [name|]; [|apply spec_ret; done].
  eapply spec_bind.
  { eapply spec_try; [apply spec_still_visit|]. intros e.
    eapply spec_bind; [apply (spec_still_tell (ReturnIterator dir) _ (λ _ p, refused root p)); by intros p r H|].
    intros ?. by apply spec_throw. }
  intros [pending' entries']. apply IH.
Qed.

(** Closing after a refusal, and after the last entry. *)
Lemma spec_refused_close : spec (still (refused root)) (close_directory dir) (λ _, still (refused root)).
Proof.
  unfold close_directory. eapply spec_bind.
  { apply (spec_still_tell (CloseDirectory dir) _ (λ _, refused root)). by intros p r H _. }
  intros [u|e]; [by apply spec_ret|].
  eapply spec_weaken; [done| |apply spec_still_check; by intros p H _]. intros ? s g Hp Hg. by destruct (Hp Hg).
Qed.

Lemma spec_still_close pending entries :
  spec (still (at_end pending entries)) (close_directory dir)
    (λ _, still (λ p, at_end pending entries p ∧ readable d)).
Proof.
  unfold close_directory. eapply spec_bind.
  { apply (spec_still_tell (CloseDirectory dir) _ (λ r p, at_end pending entries p ∧ closes fs d = r)).
    intros p r Hp <-. split; [done|]. destruct Hp as [(H1 & H2 & _) _]. cbn. by rewrite H1, H2, Nat.eqb_refl. }
  intros [u|e].
  - apply spec_ret. intros s g Hp Hg. destruct (Hp Hg) as [He H]. split; [done|]. destruct u.
    destruct He as [(_ & _ & _ & _ & Ho & _) (_ & _ & Hr)]. by split_and!; [..|left].
  - eapply spec_weaken; [done| |apply spec_still_check].
    + intros ? s g Hp Hg. destruct (Hp Hg) as [[He H] Hb]. split; [done|].
      destruct He as [(_ & _ & _ & _ & Ho & _) (_ & _ & Hr)]. split_and!; [done..|].
      right. exists e. split; [done|]. by apply negb_false_iff, bool_decide_eq_true in Hb.
    + intros p [[He _] H] Hb. eapply unreadable; [exact He|]. intros (_ & _ & Hc).
      apply negb_true_iff, bool_decide_eq_false in Hb. rewrite H in Hc. naive_solver.
Qed.
End turns.

(** Between two directories. *)
Definition between_directories (pending : list string) (entries : Z) (p : position) : Prop :=
  at_seen p = entries ∧ entries ≤ max ∧ on_time p ∧ vigilant p ∧ ∃ D, covered D pending.

(** One directory, read and closed. *)
Lemma spec_still_directory d dir turns pending entries :
  spec (still (λ p, at_entry d dir 0 pending entries [] p ∧ entries ≤ max))
    (with_close dir (read_entries bounds turns (time_of fs 0) d dir pending entries))
    (λ r, still (between_directories r.1 r.2)).
Proof.
  unfold with_close. eapply spec_bind.
  { eapply spec_try; [apply spec_still_read|]. intros e.
    eapply spec_bind; [apply spec_refused_close|]. intros ?. by apply spec_throw. }
  intros [pending' entries']. eapply spec_bind; [apply (spec_still_close d dir)|].
  intros ?. apply spec_ret. intros s g Hp Hg.
  destruct (Hp Hg) as [((H1 & H2 & H3 & [H4 H4'] & H5 & D & HR) & Hrest & Hm & Hend) Hc]. cbn [fst snd] in *.
  split_and!; [done..|unfold vigilant; lia|]. exists (d :: D). rewrite Hrest in HR. by apply reading_end.
Qed.

Lemma spec_still_walk turns pending entries :
  spec (still (between_directories pending entries)) (walk bounds turns (time_of fs 0) pending entries)
    (λ _, still (λ p, clear_below root ∧ within_limits p ∧ vigilant p)).
Proof.
  revert pending entries. induction turns as [|turns IH]; intros pending entries; destruct pending as [|d pending]; cbn [walk].
  1, 3: apply spec_ret; intros s g Hp Hg; destruct (Hp Hg) as (<- & ? & ? & ? & D & HD); split; [by eapply covered_all|by split].
  { by apply spec_return. }
  eapply spec_bind.
  { apply (spec_still_tell PerformanceNow _ (λ now p, ∃ p0, p = still_next p0 PerformanceNow ∧
      now = time_of fs (at_reads p0) ∧ between_directories (d :: pending) entries p0)).
    intros p r H <-. by exists p. }
  intros now. eapply spec_bind; [apply spec_still_check|].
  { intros p (p0 & -> & Hnow & _) Hb. by eapply late_reading. }
  intros []. eapply spec_bind.
  { apply (spec_still_ask (Opendir d) id _ (λ dir p, at_entry d dir 0 pending entries [] p ∧ entries ≤ max)).
    intros p r [(p0 & -> & Hnow & Hs & Hm & Ht & Hv & D & HD) Hd] <-. cbn [still_answer id].
    destruct (opens fs d) as [[]|e] eqn:E.
    - split; [|done]. split_and!; [done..|by eapply on_time_reading|unfold vigilant in Hv; cbn; lia|done|]. exists D. cbn. by apply covered_open.
    - left. intros Hc. destruct (Hc d) as [(H & _) _]; [apply (cov_walked _ _ HD); right; by left|].
      by rewrite E in H. }
  intros dir. eapply spec_bind; [apply spec_still_directory|].
  intros [pending' entries']. cbn [fst snd]. apply IH.
Qed.

Lemma spec_still_rejectSockets :
  spec (still unread) (rejectSockets bounds root) (λ _, still (λ p, clear_below root ∧ within_limits p ∧ vigilant p)).
Proof.
  unfold rejectSockets. eapply spec_bind.
  { apply (spec_still_tell PerformanceNow _
      (λ now p, now = time_of fs 0 ∧ at_opened p = 0 ∧ at_seen p = 0 ∧ at_reads p = 1%nat)).
    intros p r (H1 & H2 & H3) <-. cbn. by rewrite H3. }
  intros started. destruct (decide (started = time_of fs 0)) as [->|Hne].
  - eapply spec_pre; [|apply spec_still_walk]. intros s g Hp Hg. destruct (Hp Hg) as (_ & Ho & Hs & Hr).
    split_and!; [done|done| |unfold vigilant; lia|].
    + intros k Hk. rewrite Hr in Hk. assert (k = O) as -> by lia. lia.
    + exists []. split; [right; by left|intros d [H|H]|by intros d H%elem_of_nil|by intros d name H%elem_of_nil].
      * by apply elem_of_nil in H.
      * apply list_elem_of_singleton in H as ->. constructor.
  - eapply spec_weaken; [| |apply spec_changed].
    + intros s g Hp Hg. by destruct (Hp Hg).
    + intros ? s g H Hg. by destruct H.
Qed.
End walk.

(** *** Admission *)

(** [.chatwca] is absent or a real directory. *)
Definition mask_ok (workspace : string) : Prop :=
  match lstat_of fs (path_join workspace ".chatwca") with
  | Ok st => is_real_directory st = true
  | Err e => errno_of e = Some "ENOENT"
  end.

(** Its canonical name is the path itself. *)
Definition canonical (path : string) : Prop := ∃ real, real_of fs path = Ok real ∧ normalize real = path.

(** What admission is to decide. *)
Definition admissible (policy : SandboxAdmissionPolicy) : Prop :=
  let workspace := normalize (sp_workspacePath policy) in
  canonical workspace
  ∧ (sp_workspaceRoots policy = []
     ∨ ∃ root, root ∈ sp_workspaceRoots policy ∧ isCanonicalPathContained process_cwd root workspace = true)
  ∧ (∀ path, path ∈ sp_protectedPaths policy → canonicalPathsOverlap process_cwd workspace path = false)
  ∧ access_of fs workspace (R_OK + W_OK + X_OK) = Ok tt
  ∧ mask_ok workspace
  ∧ clear_below workspace.

Definition mount_admissible (policy : SandboxMountAdmissionPolicy) : Prop :=
  let source := normalize (mp_sourcePath policy) in
  canonical source
  ∧ (∃ st, lstat_of fs source = Ok st ∧ is_real_directory st = true)
  ∧ access_of fs source (if mp_writable policy then R_OK + W_OK + X_OK else R_OK + X_OK) = Ok tt
  ∧ clear_below source.

(** Refusals are exact, up to the limits of the walk. *)
Definition justified (admissible : Prop) (p : position) : Prop := ¬ admissible ∨ ¬ within_limits p.
Notation spec J := (spec_t (R := exhausted) (E := thrown) (S := S) (λ _ _, True) still_step
  (λ _ _, True) (still (justified J))).

Lemma spec_explained {A} (J : Prop) R (m : host S A) P Q :
  (∀ p, R p → justified J p) →
  spec_t (λ _ _, True) still_step (λ _ _, True) (still R) P m Q → spec J P m Q.
Proof.
  intros HR Hm s g HP. eapply wp_mono; [|by apply Hm]. intros [o s'] g'.
  destruct o; [done|done|]. intros H Hg. auto.
Qed.

(** The walk and the second look at the canonical identity. *)
Lemma spec_walk_and_look (J F : Prop) workspace message :
  (F → canonical workspace) → (J → clear_below workspace) → (F → clear_below workspace → J) →
  spec J (still (λ p, F ∧ unread p))
    (rejectSockets bounds workspace;;
     again ← ask (Realpath workspace) id;
     throw_when (negb (String.eqb (normalize again) workspace)) (plain_error message))
    (λ _, still (λ p, J ∧ within_limits p ∧ vigilant p)).
Proof.
  intros Hreal HJ HF. eapply spec_bind.
  { apply spec_still_frame. eapply spec_explained; [|apply spec_still_rejectSockets].
    intros p [H|H]; [left; tauto|by right]. }
  intros ?. eapply spec_bind.
  { apply (spec_still_ask (Realpath workspace) id _
      (λ again p, normalize again = workspace ∧ J ∧ within_limits p ∧ vigilant p)).
    intros p r (Hf & Hc & Hl) <-. destruct (Hreal Hf) as (real & Hr & Hn). cbn. rewrite Hr. auto. }
  intros again. eapply (spec_weaken _ (still (λ p, normalize again = workspace ∧ J ∧ within_limits p ∧ vigilant p)));
    [done| |apply spec_still_check].
  - intros ? s g H Hg. by destruct (H Hg) as [(_ & ?) _].
  - intros p (Hn & _) Hb. rewrite Hn, String.eqb_refl in Hb. done.
Qed.

Lemma spec_still_rejecting {A} J (m : host S A) P Q : spec J P m Q → spec J P (rejecting m) Q.
Proof.
  intros Hm. unfold rejecting. eapply spec_try; [exact Hm|]. intros e.
  destruct e; by apply spec_throw.
Qed.

Lemma existsb_spec {A} (f : A → bool) l : existsb f l = true ↔ ∃ x, x ∈ l ∧ f x = true.
Proof. rewrite existsb_exists. by setoid_rewrite list_elem_of_In. Qed.

Lemma spec_still_mask (J F : Prop) workspace :
  (J → mask_ok workspace) →
  spec J (still (λ p, F ∧ unread p)) (validateChatWcaMask workspace)
    (λ _, still (λ p, (F ∧ mask_ok workspace) ∧ unread p)).
Proof.
  intros HJ s g HP. unfold validateChatWcaMask, try_, Programs.call_ok, call_, mbind, stmt_bind.
  cbn -[path_join]. split; [done|]. intros r w.
  unfold still, still_step, justified, mask_ok in *. cbn [ev_call ev_answer still_answer still_next fst snd].
  destruct r as [st|e]; cbn -[path_join].
  - rewrite orb_comm, <-(negb_involutive (isSymbolicLink st)), <-negb_andb.
    change (isDirectory st && negb (isSymbolicLink st)) with (is_real_directory st).
    destruct (is_real_directory st) eqn:E; cbn [negb throw_when].
    + cbn -[path_join]; intros [Hg Hr]. destruct (HP Hg). by rewrite Hr.
    + cbn -[path_join]; intros [Hg Hr]. left. intros Hj. specialize (HJ Hj). rewrite Hr in HJ. congruence.
  - destruct (bool_decide_reflect (errno_of e = Some "ENOENT")) as [E|E]; cbn [negb throw_when].
    + cbn -[path_join]; intros [Hg Hr]. destruct (HP Hg). by rewrite Hr.
    + cbn -[path_join]; intros [Hg Hr]. left. intros Hj. specialize (HJ Hj). by rewrite Hr in HJ.
Qed.

(** A call before the walk whose answer admission stands on. *)
Lemma spec_still_fact {A} (J F : Prop) c (f : host_answer c → result thrown A) (r : result thrown A) :
  (∀ p, f (still_answer p c) = r) → (∀ p, still_next p c = p) → (∀ e, F → r = Err e → ¬ J) →
  spec J (still (λ p, F ∧ unread p)) (ask c f) (λ x, still (λ p, (F ∧ r = Ok x) ∧ unread p)).
Proof.
  intros Ha Hn He. apply (spec_still_ask c f). intros p a [HF Hp] <-. rewrite Ha, Hn.
  destruct r as [x|e]; [done|]. left. by eapply He.
Qed.

(** A check decided by a known boolean. *)
Lemma spec_still_decided {A} (J : Prop) (b : bool) e (k : unit → host S A) P Q :
  (b = true → ∀ p, P p → justified J p) → (b = false → spec J (still P) (k tt) Q) →
  spec J (still P) (throw_when b e ≫= k) Q.
Proof.
  intros Ht Hf. destruct b.
  - eapply (spec_bind _ _ _ (λ _ _ _, False)); [|by intros ? s g []].
    apply spec_throw. intros s g Hp Hg. auto.
  - intros s g Hp. apply (Hf eq_refl s g Hp).
Qed.

(** The first look at the canonical identity. *)
Lemma not_canonical path real :
  real_of fs path = Ok real → negb (String.eqb (normalize real) path) = true → ¬ canonical path.
Proof.
  intros Hr Hb (real' & Hr' & Hn). rewrite Hr in Hr'. injection Hr' as <-. by rewrite Hn, String.eqb_refl in Hb.
Qed.

Lemma spec_still_admit policy :
  spec (admissible policy) (still (λ p, True ∧ unread p)) (admit_workspace process_cwd bounds policy)
    (λ _, still (λ p, admissible policy ∧ within_limits p ∧ vigilant p)).
Proof.
  unfold admit_workspace. apply spec_still_rejecting. set (w := normalize (sp_workspacePath policy)).
  eapply spec_bind.
  { apply (spec_still_fact _ _ (Realpath w) id (real_of fs w)); [done..|].
    intros e _ He ((real & Hr & _) & _). fold w in Hr. congruence. }
  intros real. apply spec_still_decided.
  { intros Hb p [[_ Hr] _]. left. intros (H & _). revert H. by eapply not_canonical. }
  intros Hb. apply negb_false_iff, String.eqb_eq in Hb. rewrite Hb.
  apply spec_still_decided.
  { intros Hr p _. left. intros (_ & [E|(root & Hin & Hc)] & _); [by rewrite E in Hr|].
    apply andb_true_iff in Hr as [_ Hr]. apply negb_true_iff, not_true_iff_false in Hr.
    apply Hr, existsb_spec. eauto. }
  intros Hroots. apply spec_still_decided.
  { intros Ho p _. left. intros (_ & _ & Hp & _). fold w in Hp. apply existsb_spec in Ho as (path & Hin & Ho).
    by rewrite (Hp path Hin) in Ho. }
  intros Hpro. eapply spec_bind.
  { apply (spec_still_fact _ _ (Access w (R_OK + W_OK + X_OK)) id (access_of fs w (R_OK + W_OK + X_OK))); [done..|].
    intros e _ He (_ & _ & _ & Ha & _). fold w in Ha. congruence. }
  intros []. eapply spec_bind; [apply spec_still_mask; by intros (_ & _ & _ & _ & Hm & _)|]. intros ?.
  apply spec_walk_and_look.
  - intros [[[_ Hreal] _] _]. by exists real.
  - by intros (_ & _ & _ & _ & _ & H).
  - intros [[[_ Hreal] Hacc] Hm] Hs. unfold admissible. fold w. split_and!; [by exists real| | |done|done|done].
    + apply andb_false_iff in Hroots as [H|H]; [left; by apply negb_false_iff, bool_decide_eq_true in H|].
      right. apply negb_false_iff, existsb_spec in H as (root & ? & ?). eauto.
    + intros path Hin. apply not_true_iff_false. intros Ho. apply not_true_iff_false in Hpro. apply Hpro, existsb_spec. eauto.
Qed.

Lemma spec_still_admitMount policy :
  spec (mount_admissible policy) (still (λ p, True ∧ unread p)) (admitMount bounds policy)
    (λ _, still (λ p, mount_admissible policy ∧ within_limits p ∧ vigilant p)).
Proof.
  unfold admitMount. apply spec_still_rejecting. set (w := normalize (mp_sourcePath policy)).
  eapply spec_bind.
  { apply (spec_still_fact _ _ (Realpath w) id (real_of fs w)); [done..|].
    intros e _ He ((real & Hr & _) & _). fold w in Hr. congruence. }
  intros real. apply spec_still_decided.
  { intros Hb p [[_ Hr] _]. left. intros (H & _). revert H. by eapply not_canonical. }
  intros Hb. apply negb_false_iff, String.eqb_eq in Hb. rewrite Hb.
  eapply spec_bind.
  { apply (spec_still_fact _ _ (Lstat w) id (lstat_of fs w)); [done..|].
    intros e _ He (_ & (st & Hst & _) & _). fold w in Hst. congruence. }
  intros metadata. rewrite <-(negb_involutive (isSymbolicLink metadata)), <-negb_andb.
  change (isDirectory metadata && negb (isSymbolicLink metadata)) with (is_real_directory metadata).
  apply spec_still_decided.
  { intros Hd p [[_ Hst] _]. left. intros (_ & (st & Hst' & Hreal) & _). fold w in Hst'.
    rewrite Hst in Hst'. injection Hst' as <-. by rewrite Hreal in Hd. }
  intros Hd. apply negb_false_iff in Hd. set (mode := if mp_writable policy then R_OK + W_OK + X_OK else R_OK + X_OK).
  replace (Z.lor _ _) with mode by (unfold mode; by destruct (mp_writable policy)). eapply spec_bind.
  { apply (spec_still_fact _ _ (Access w mode) id (access_of fs w mode)); [done..|].
    intros e _ He (_ & _ & Ha & _). fold w in Ha. fold mode in Ha. congruence. }
  intros []. apply spec_walk_and_look.
  - intros [[[_ Hreal] _] _]. by exists real.
  - by intros (_ & _ & _ & H).
  - intros [[[_ Hreal] Hst] Hacc] Hs. unfold mount_admissible. fold w. fold mode.
    split_and!; [by exists real|by exists metadata|done|done].
Qed.

(** *** Runs against the unchanging file system *)

Definition start_position : position := {| at_handle := 0; at_path := ""; at_rest := []; at_opened := 0; at_seen := 0; at_reads := 0 |}.
Definition position_after (h : list (event host_answer S)) : position :=
  fold_left (λ p e, still_next p (ev_call e)) h start_position.
Definition still_env (w : S) : environment host_answer S := λ h c, (still_answer (position_after h) c, w).

(** Its answers keep the history consistent. *)
Lemma still_env_consistent {A} (q : prog host_answer S A) w h :
  after_history still_step (start_position, True) h = (position_after h, (after_history still_step (start_position, True) h).2) →
  (after_history still_step (start_position, True) h).2 →
  let '(_, h') := run_prog (still_env w) h q in
  (after_history still_step (start_position, True) h').1 = position_after h'
  ∧ (after_history still_step (start_position, True) h').2.
Proof.
  revert h. induction q as [a|c k IH]; intros h Hp Hc; cbn [run_prog].
  - by rewrite Hp.
  - cbn. apply IH; unfold after_history, position_after in *; rewrite !fold_left_app; cbn; unfold still_step at 1; cbn.
    + by rewrite Hp at 1.
    + split; [done|]. by rewrite Hp.
Qed.

(** A run that decided whether [J] holds: it went through exactly when [J] holds
    and the limits were kept, the clock having been read at every step. *)
Definition decided (J : Prop) {A} (r : outcome exhausted thrown A * S * list (event host_answer S)) : Prop :=
  let '((o, _), h) := r in
  let p := position_after h in
  match o with
  | Next _ => J ∧ within_limits p ∧ vigilant p
  | Return _ => False
  | Throw _ => ¬ J ∨ ¬ within_limits p
  end.

Lemma still_run (J : Prop) {A} (m : host S A) s w :
  spec J (still (λ p, True ∧ unread p)) m (λ _, still (λ p, J ∧ within_limits p ∧ vigilant p)) →
  ended_within bounds (run_prog (still_env w) [] (m s)) →
  decided J (run_prog (still_env w) [] (m s)).
Proof.
  intros Hm.
  assert (Hc := still_env_consistent (m s) w [] eq_refl I).
  assert (H := wp_run (λ _ _, True) still_step (m s) (start_position, True) _ (still_env w) []
    ltac:(by intros ? ? ? ?) (Hm s (start_position, True) (λ _, conj I (conj eq_refl (conj eq_refl eq_refl))))).
  unfold ended_within, decided. destruct (run_prog (still_env w) [] (m s)) as [[o s'] h].
  destruct Hc as [Hp Hc], H as (H & _). intros [Hret _].
  rewrite <-Hp. destruct o; [by apply H|by eapply Hret|by apply H].
Qed.
End still.

(** C20: On a file system that does not change, whatever its answers are and whatever the clock reads, admission goes through exactly when what it is to check holds and the walk stays within the limit of entries and, at each reading of the clock, which is read before every directory and at every entry, within the deadline. A workspace is admissible when its canonical name is its path, it is inside an approved root and clear of the protected paths, it may be read, written and entered, its mask is absent or a real directory, and below it every directory can be read to the end and every entry looked at, and none is a Unix socket; a mount when it is a real directory under its canonical name that may be read and entered, and written if it is writable, with the same below. *)
Theorem admission_decides {S} fs cwd bounds (policy : SandboxAdmissionPolicy) (mount : SandboxMountAdmissionPolicy) (s w : S) :
  0 ≤ maxEntries bounds → 0 < deadlineMs bounds →
  decided fs bounds (admissible fs cwd policy)
    (run_prog (still_env fs w) [] (admit_workspace cwd bounds policy s))
  ∧ decided fs bounds (mount_admissible fs mount)
    (run_prog (still_env fs w) [] (admitMount bounds mount s)).
Proof.
  intros Hmax Hdeadline. split.
  - apply still_run; [by apply spec_still_admit|]. by eapply bounded_ended; [apply spec_admit|].
  - apply still_run; [by apply spec_still_admitMount|]. by eapply bounded_ended; [apply spec_admitMount|].
Qed.

(** *** Examples *)
Module examples.
Definition directory : Stats :=
  {| isDirectory := true; isFile := false; isSymbolicLink := false; isSocket := false; dev := 1; ino := 1 |}.
Definition socket : Stats :=
  {| isDirectory := false; isFile := false; isSymbolicLink := false; isSocket := true; dev := 1; ino := 2 |}.
Definition plain_file : Stats :=
  {| isDirectory := false; isFile := true; isSymbolicLink := false; isSocket := false; dev := 1; ino := 3 |}.

Definition missing : thrown := Foreign (Some "ENOENT") "no such file or directory".
Definition denied : thrown := Foreign (Some "EACCES") "permission denied".

(** [/srv/app] holds a directory with a file, [/srv/db] a socket; [/srv/locked]
    may not be written, and a directory of [/srv/shut] not be read. The clock
    advances [tick] milliseconds between readings. *)
Definition small_fs (tick : Z) : still_fs := {|
  names_in d := if String.eqb d "/srv/app" then ["src"; ".chatwca"]
                else if String.eqb d "/srv/app/src" then ["main.ts"]
                else if String.eqb d "/srv/db" then ["db.sock"]
                else if String.eqb d "/srv/shut" then ["inner"] else [];
  opens d := if String.eqb d "/srv/shut/inner" then Err denied else Ok tt;
  read_ends _ := Ok tt;
  closes _ := Err dir_closed;
  lstat_of p := if existsb (String.eqb p) ["/srv/app"; "/srv/app/src"; "/srv/app/.chatwca"; "/srv/db"; "/srv/locked"; "/srv/shut"; "/srv/shut/inner"] then Ok directory
                else if String.eqb p "/srv/app/src/main.ts" then Ok plain_file
                else if String.eqb p "/srv/db/db.sock" then Ok socket else Err missing;
  stat_of _ := Err missing;
  real_of p := Ok p;
  access_of p mode := if String.eqb p "/srv/locked" && Z.testbit mode 1 then Err denied else Ok tt;
  time_of k := 5 + tick * Z.of_nat k;
  date_of := 0;
|}.
Definition policy_of (path : string) : SandboxAdmissionPolicy :=
  {| sp_workspacePath := path; sp_workspaceRoots := ["/srv"]; sp_protectedPaths := ["/data"; "/srv/app2"] |}.
Definition mount_of (path : string) : SandboxMountAdmissionPolicy := {| mp_sourcePath := path; mp_writable := false |}.

Definition decide_at (tick : Z) (path : string) : outcome exhausted thrown unit :=
  (run_prog (still_env (small_fs tick) tt) [] (admit_workspace "/" DEFAULT_BOUNDS (policy_of path) tt)).1.1.
Definition rejected (cause : thrown) : outcome exhausted thrown unit :=
  Throw (app_error_cause SANDBOX_WORKSPACE_REJECTED cause).

Example admits_app : decide_at 3 "/srv/app" = Next tt.
Proof. vm_compute. reflexivity. Qed.
Example refuses_db : decide_at 3 "/srv/db" = rejected (plain_error "workspace contains a Unix socket").
Proof. vm_compute. reflexivity. Qed.
Example refuses_locked : decide_at 3 "/srv/locked" = rejected denied.
Proof. vm_compute. reflexivity. Qed.
Example refuses_shut : decide_at 3 "/srv/shut" = rejected denied.
Proof. vm_compute. reflexivity. Qed.
Example refuses_late : decide_at 400 "/srv/app" = rejected (plain_error "socket walk deadline reached").
Proof. vm_compute. reflexivity. Qed.
Example mounts_locked : (run_prog (still_env (small_fs 3) tt) []
  (admitMount DEFAULT_BOUNDS (mount_of "/srv/locked") tt)).1.1 = Next tt.
Proof. vm_compute. reflexivity. Qed.
End examples.

(** An admitted workspace, and one refused for its permissions. *)
Lemma admission_decides_witness :
  admissible (examples.small_fs 3) "/" (examples.policy_of "/srv/app")
  ∧ (¬ admissible (examples.small_fs 3) "/" (examples.policy_of "/srv/locked")
     ∨ ¬ within_limits (examples.small_fs 3) DEFAULT_BOUNDS
         (position_after (examples.small_fs 3) (run_prog (still_env (examples.small_fs 3) tt) []
           (admit_workspace "/" DEFAULT_BOUNDS (examples.policy_of "/srv/locked") tt)).2)).
Proof.
  split.
  - pose proof (proj1 (admission_decides (examples.small_fs 3) "/" DEFAULT_BOUNDS (examples.policy_of "/srv/app")
      (examples.mount_of "/srv/app") tt tt ltac:(done) ltac:(done))) as H.
    pose proof examples.admits_app as E. unfold examples.decide_at in E. unfold decided in H.
    destruct (run_prog _ _ _) as [[o s'] h]. cbn in E. rewrite E in H. exact (proj1 H).
  - pose proof (proj1 (admission_decides (examples.small_fs 3) "/" DEFAULT_BOUNDS (examples.policy_of "/srv/locked")
      (examples.mount_of "/srv/app") tt tt ltac:(done) ltac:(done))) as H.
    pose proof examples.refuses_locked as E. unfold examples.decide_at in E. unfold decided in H.
    destruct (run_prog _ _ _) as [[o s'] h]. cbn in E. rewrite E in H. exact H.
Defined.

(** One directory was opened, and it is open no more though a socket was found in it. *)
Lemma admission_is_bounded_witness :
  let h := (run_prog (still_env (examples.small_fs 3) tt) []
    (admit_workspace "/" DEFAULT_BOUNDS (examples.policy_of "/srv/db") tt)).2 in
  opened (after_history count_work nothing h) = 1 ∧ examined (after_history count_work nothing h) ≤ 100001
  ∧ held (after_history count_work nothing h) = [].
Proof.
  pose proof (proj1 (admission_is_bounded "/" DEFAULT_BOUNDS (examples.policy_of "/srv/db") (examples.mount_of "/srv/db")
    (still_env (examples.small_fs 3) tt) tt ltac:(done))) as H.
  split; [vm_compute; reflexivity|].
  destruct (run_prog _ _ _) as [[o s'] h]. by destruct H as (_ & _ & H & Hheld & _).
Defined.
