(* ===== verification/Protocol.v ===== *)
(** The part of the wire contract the browser projects
    ([src/shared/protocol.ts]): normalized messages and their content blocks,
    conversation snapshots and summaries, and the revisioned events. Optional
    properties and nullable values are options; numbers that the schemas do not
    restrict to integers stay [jsnum]. Then the commands and messages: what the
    browser sends, and what the server answers or broadcasts. Their constructors
    carry the fields of the closed object schemas; the request identifier of a
    command is kept beside them. *)
From S2P Require Import Prelude Errors Jobs.
#[local] Open Scope string_scope. #[local] Open Scope Z_scope.

(** ** Content blocks and messages *)

(** src/shared/protocol.ts:71-76 ImageMimeType *)
Inductive ImageMimeType := ImagePng | ImageJpeg | ImageWebp.
(** src/shared/protocol.ts:78-87 ImagePayload *)
Record ImagePayload := {
  ip_mimeType : ImageMimeType; ip_data : string; ip_name : option string;
  ip_width : option Z; ip_height : option Z; ip_byteSize : option Z;
}.
(** src/shared/protocol.ts:106-111 ImageReference *)
Record ImageReference := { ir_mimeType : ImageMimeType; ir_url : string; ir_name : option string }.
(** src/shared/protocol.ts:113-125 ImageBlock *)
Inductive ImageBlock :=
| PayloadBlock (image : ImagePayload) (alt : option string)
| ReferenceBlock (image : ImageReference) (alt : option string).

(** src/shared/protocol.ts:132-137 ToolCallStatus *)
Inductive ToolCallStatus := ToolPending | ToolRunning | ToolSucceeded | ToolFailed.
(** src/shared/protocol.ts:127-139 ToolCallBlock *)
Record ToolCallBlock := {
  tc_toolCallId : string; tc_toolName : string; tc_arguments : jsval; tc_status : ToolCallStatus;
}.
(** src/shared/protocol.ts:141-150 ToolResultBlock *)
Record ToolResultBlock := {
  tr_toolCallId : string; tr_toolName : option string; tr_content : string;
  tr_isError : bool; tr_truncated : bool; tr_originalBytes : option Z;
}.

(** src/shared/protocol.ts:152-156 UserContentBlock *)
Inductive UserContentBlock := UserText (text : string) | UserImage (image : ImageBlock).
(** src/shared/protocol.ts:158-165 AssistantContentBlock *)
Inductive AssistantContentBlock :=
| TextBlock (text : string)
| ThinkingBlock (text : string)
| ImageContent (image : ImageBlock)
| ToolCall (tool : ToolCallBlock)
| ToolResult (result : ToolResultBlock).

(** src/shared/protocol.ts:167-174 Usage *)
Record Usage := {
  u_inputTokens : Z; u_outputTokens : Z; u_cacheReadTokens : option Z;
  u_cacheWriteTokens : option Z; u_totalCost : option jsnum;
}.
(** src/shared/protocol.ts:176-183 ContextUsage *)
Record ContextUsage := { cu_tokens : option jsnum; cu_contextWindow : jsnum; cu_percent : option jsnum }.

(** src/shared/protocol.ts:190-198 UserMessage *)
Record UserMessage := {
  um_entryId : string; um_blocks : list UserContentBlock; um_timestamp : option jsnum; um_forkEligible : bool;
}.
(** src/shared/protocol.ts:205-214 StopReason *)
Inductive StopReason := StopStop | StopLength | StopToolUse | StopAborted | StopError | StopUnknown.
#[export] Instance StopReason_eq : EqDecision StopReason.
Proof. solve_decision. Defined.
(** src/shared/protocol.ts:200-218 AssistantMessage *)
Record AssistantMessage := {
  am_entryId : string; am_blocks : list AssistantContentBlock; am_timestamp : option jsnum;
  am_stopReason : option StopReason; am_error : option (ErrorCode * string); am_usage : option Usage;
}.
(** src/shared/protocol.ts:220-224 NormalizedMessage *)
Inductive NormalizedMessage := User (m : UserMessage) | Assistant (m : AssistantMessage).

Definition entryId (m : NormalizedMessage) : string :=
  match m with User m => um_entryId m | Assistant m => am_entryId m end.
(** [left.role === right.role] *)
Definition same_role (left right : NormalizedMessage) : bool :=
  match left, right with User _, User _ | Assistant _, Assistant _ => true | _, _ => false end.
Definition is_assistant (m : NormalizedMessage) : bool :=
  match m with Assistant _ => true | User _ => false end.

(** ** Conversations *)

(** src/shared/protocol.ts:226-234 LiveConversationStatus *)
Inductive LiveConversationStatus := Idle | Streaming | Aborting | InError.
#[export] Instance LiveConversationStatus_eq : EqDecision LiveConversationStatus.
Proof. solve_decision. Defined.
(** src/shared/protocol.ts:244-250 WorkspaceSecurityProfile *)
Inductive WorkspaceSecurityProfile := Unrestricted | WorkspaceSandboxed.
#[export] Instance WorkspaceSecurityProfile_eq : EqDecision WorkspaceSecurityProfile.
Proof. solve_decision. Defined.
(** src/shared/protocol.ts:295-299 SandboxNetworkPolicy *)
Inductive SandboxNetworkPolicy := Isolated | ManagedEgress.
#[export] Instance SandboxNetworkPolicy_eq : EqDecision SandboxNetworkPolicy.
Proof. solve_decision. Defined.
(** src/shared/protocol.ts:480-485 ConversationOwner *)
Record ConversationOwner := { co_jobId : string; co_runId : string }.
#[export] Instance ConversationOwner_eq : EqDecision ConversationOwner.
Proof. solve_decision. Defined.

(** src/shared/protocol.ts:496-501 SummaryStatus *)
Inductive SummaryStatus := SumClosed | SumIdle | SumStreaming | SumError.
#[export] Instance SummaryStatus_eq : EqDecision SummaryStatus.
Proof. solve_decision. Defined.
(** src/shared/protocol.ts:487-506 ConversationSummary *)
Record ConversationSummary := {
  cs_id : string; cs_workspaceId : string; cs_sessionFile : string; cs_title : string; cs_cwd : string;
  cs_createdAt : option jsnum; cs_modifiedAt : jsnum; cs_messageCount : Z; cs_status : SummaryStatus;
  cs_runnable : bool; cs_owner : option ConversationOwner;
}.

(** src/shared/protocol.ts:508-514 ModelInfo *)
Record ModelInfo := { mi_id : string; mi_provider : string; mi_name : option string; mi_supportsImages : bool }.
(** src/shared/protocol.ts:516-520 QueuedPrompt *)
Record QueuedPrompt := { qp_text : string; qp_imageCount : Z }.
(** src/shared/protocol.ts:522-526 QueueState *)
Record QueueState := { qs_steering : list QueuedPrompt; qs_followUp : list QueuedPrompt }.

(** src/shared/protocol.ts:414-417 ConversationToolName *)
Inductive ConversationToolName := ConversationSearch | ConversationRead.

(** src/shared/protocol.ts:528-557 ConversationState *)
Record ConversationState := {
  cv_id : string; cv_workspaceId : string; cv_sessionFile : string; cv_title : string; cv_cwd : string;
  cv_model : option ModelInfo; cv_status : LiveConversationStatus; cv_createdAt : jsnum;
  cv_lastActiveAt : jsnum; cv_revision : Z; cv_durable : bool; cv_contextUsage : option ContextUsage;
  cv_messages : list NormalizedMessage; cv_queue : QueueState;
  cv_securityProfile : WorkspaceSecurityProfile; cv_networkPolicy : option SandboxNetworkPolicy;
  cv_networkPolicySetId : string; cv_effectiveNetworkPolicySetId : option string;
  cv_effectiveHttpTools : list string; cv_effectiveConversationTools : list ConversationToolName;
  cv_owner : option ConversationOwner;
}.

(** ** Workspaces *)

(** src/shared/protocol.ts:236-242 WorkspaceSessionStorage *)
Inductive WorkspaceSessionStorage := PiDefault | WorkspaceStorage.
(** src/shared/protocol.ts:267-271 WorkspaceMountAccess *)
Inductive WorkspaceMountAccess := ReadOnly | ReadWrite.
(** src/shared/protocol.ts:273-282 WorkspaceMount *)
Record WorkspaceMount := { wm_name : string; wm_source : string; wm_access : WorkspaceMountAccess }.
(** src/shared/protocol.ts:317-324 WorkspacePolicyIssue *)
Inductive WorkspacePolicyIssue := SandboxDisabled | OutsideWorkspaceRoots | ProtectedPathOverlap | MountUnavailable.
(** src/shared/protocol.ts:326-333 WorkspaceNetworkPolicyIssue *)
Inductive WorkspaceNetworkPolicyIssue := ManagedEgressDisabled | PolicySetUnavailable.

(** src/shared/protocol.ts:439-478 WorkspaceSummary *)
Record WorkspaceSummary := {
  ws_id : string; ws_name : string; ws_path : string; ws_sessionStorage : WorkspaceSessionStorage;
  ws_sessionDirectory : option string; ws_securityProfile : WorkspaceSecurityProfile;
  ws_mounts : list WorkspaceMount; ws_networkPolicy : SandboxNetworkPolicy;
  ws_effectiveSecurityProfile : option WorkspaceSecurityProfile;
  ws_effectiveNetworkPolicy : option SandboxNetworkPolicy; ws_networkPolicySetId : string;
  ws_effectiveNetworkPolicySetId : option string; ws_networkPolicyIssue : option WorkspaceNetworkPolicyIssue;
  ws_enabledHttpTools : list string; ws_effectiveHttpTools : list string;
  ws_createdAt : jsnum; ws_updatedAt : jsnum; ws_conversationToolsEnabled : bool;
  ws_effectiveConversationTools : list ConversationToolName;
  ws_available : bool; ws_usable : bool; ws_policyIssue : option WorkspacePolicyIssue;
}.

(** ** Events *)

(** src/shared/protocol.ts:968-973 DeltaKind *)
Inductive DeltaKind := DeltaText | DeltaThinking.

(** src/shared/protocol.ts:1015-1019 RetryPhase *)
Inductive RetryPhase := RetryScheduled | RetryStarted | RetryCompleted.
(** src/shared/protocol.ts:1027-1032 CompactionPhase *)
Inductive CompactionPhase := CompactionStarted | CompactionCompleted | CompactionAborted | CompactionFailed.
(** src/shared/protocol.ts:1037-1041 NoticeLevel *)
Inductive NoticeLevel := LevelInfo | LevelWarning | LevelError.
(** src/shared/protocol.ts:1013-1052 StatusNotice *)
Inductive StatusNotice :=
| RetryNotice (phase : RetryPhase) (message : string) (attempt maxAttempts delayMs : option Z)
| CompactionNotice (phase : CompactionPhase) (message : string)
| RuntimeNotice (level : NoticeLevel) (message : string).

(** src/shared/protocol.ts:1056-1064 NetworkBlockedReason *)
Inductive NetworkBlockedReason :=
| BlockExplicitDeny | BlockNotAllowed | BlockLocalAddress | BlockPortNotAllowed
| BlockDnsFailure | BlockLimitExceeded | BlockProxyUnavailable.
#[export] Instance NetworkBlockedReason_eq : EqDecision NetworkBlockedReason.
Proof. solve_decision. Defined.
(** src/shared/protocol.ts:1070-1074 BlockedProtocol *)
Inductive BlockedProtocol := BlockedHttp | BlockedHttpsConnect | BlockedSocks5.
#[export] Instance BlockedProtocol_eq : EqDecision BlockedProtocol.
Proof. solve_decision. Defined.
(** src/shared/protocol.ts:1067-1081 NetworkBlockedPayload *)
Record NetworkBlockedPayload := {
  nb_host : string; nb_port : Z; nb_protocol : BlockedProtocol; nb_reason : NetworkBlockedReason;
  nb_occurrenceCount : option Z;
}.

(** The payload of an event, tagged by the event's type. *)
(** src/shared/protocol.ts:965-998 Payload *)
Inductive event_payload :=
| MessageStarted (message : NormalizedMessage)
| MessageDelta (entry : string) (blockIndex : Z) (blockType : DeltaKind) (delta : string)
| MessageCompleted (message : NormalizedMessage) (contextUsage : option ContextUsage)
| ToolStarted (entry : option string) (tool : ToolCallBlock)
| ToolUpdated (toolCallId content : string) (truncated : bool)
| ToolCompleted (res : ToolResultBlock)
| QueueEvent (queue : QueueState)
| StatusEvent (status : LiveConversationStatus)
| MetadataEvent (title : string) (durable : bool) (status : LiveConversationStatus)
| NoticeEvent (notice : StatusNotice)
| NetworkBlocked (payload : NetworkBlockedPayload).

(** src/shared/protocol.ts:1083-1175 ConversationEvent *)
Record ConversationEvent := {
  ev_workspaceId : string; ev_conversationId : string; ev_revision : Z; ev_payload : event_payload;
}.

(** ** Commands *)

(** src/shared/protocol.ts:563-579 WorkspaceCreateCommandSchema *)
Record WorkspaceCreateInput := {
  wc_name : string; wc_path : string; wc_sessionStorage : WorkspaceSessionStorage;
  wc_securityProfile : WorkspaceSecurityProfile; wc_mounts : option (list WorkspaceMount);
  wc_networkPolicy : option SandboxNetworkPolicy; wc_networkPolicySetId : option string;
  wc_enabledHttpTools : option (list string); wc_conversationToolsEnabled : option bool;
  wc_acknowledgeWritableMounts : bool;
}.
(** src/shared/protocol.ts:580-598 WorkspaceUpdateCommandSchema *)
Record WorkspaceUpdateInput := {
  wu_name : option string; wu_path : option string; wu_securityProfile : option WorkspaceSecurityProfile;
  wu_mounts : option (list WorkspaceMount); wu_networkPolicy : option SandboxNetworkPolicy;
  wu_networkPolicySetId : option string; wu_enabledHttpTools : option (list string);
  wu_conversationToolsEnabled : option bool; wu_acknowledgeSecurityDowngrade : bool;
  wu_acknowledgeNetworkExposure : bool; wu_acknowledgeWritableMounts : bool;
}.
(** src/shared/protocol.ts:680-691 JobCreateCommandSchema *)
Record JobCreateInput := {
  jc_name : string; jc_workspaceId : string; jc_prompt : string; jc_schedule : JobScheduleInput;
  jc_preRunScript : option string; jc_postRunScript : option string; jc_enabled : bool;
  jc_acknowledgeHostHooks : bool;
}.
(** src/shared/protocol.ts:692-704 JobUpdateCommandSchema *)
Record JobUpdateInput := {
  ju_name : option string; ju_workspaceId : option string; ju_prompt : option string;
  ju_schedule : option JobScheduleInput; ju_preRunScript : option (option string);
  ju_postRunScript : option (option string); ju_enabled : option bool; ju_acknowledgeHostHooks : bool;
}.

(** The three commands that carry a prompt. *)
(** src/shared/protocol.ts:656-669 promptCommand *)
Inductive prompt_kind := Submit | Steer | FollowUp.
#[export] Instance prompt_kind_eq : EqDecision prompt_kind.
Proof. solve_decision. Defined.

(** A command without its request identifier. *)
(** src/shared/protocol.ts:599-733 WorkspaceDeleteCommandSchema *)
Inductive ClientCommandInput :=
| WorkspaceList
| WorkspaceCreate (input : WorkspaceCreateInput)
| WorkspaceUpdate (workspaceId : string) (input : WorkspaceUpdateInput)
| WorkspaceDelete (workspaceId : string)
| HistoryList (workspaceId : string)
| ConversationCreate (workspaceId : string)
| ConversationOpen (workspaceId conversationId : string)
| ConversationStateOf (conversationId : string)
| ConversationRename (conversationId title : string)
| ConversationClose (conversationId : string)
| ConversationDelete (workspaceId conversationId : string)
| ConversationFork (conversationId entry : string)
| ConversationRewind (conversationId entry : string)
| Prompt (kind : prompt_kind) (conversationId text : string) (images : list ImagePayload)
| ConversationAbort (conversationId : string)
| JobList
| JobCreate (input : JobCreateInput)
| JobUpdate (jobId : string) (input : JobUpdateInput)
| JobDelete (jobId : string)
| JobRun (jobId : string)
| JobAbort (jobId runId : string)
| JobRuns (jobId : string) (cursor : option string)
| JobRunStateOf (jobId runId : string).

(** src/shared/protocol.ts:778-805 ClientCommand *)
Record ClientCommand := { cmd_requestId : string; cmd_input : ClientCommandInput }.

(** ** Server messages *)

(** src/shared/protocol.ts:823-833 AcknowledgedCommandTypeSchema *)
Inductive AcknowledgedCommandType :=
| AckWorkspaceDelete | AckConversationClose | AckConversationDelete | AckPrompt (kind : prompt_kind)
| AckConversationAbort | AckJobDelete | AckJobAbort.
#[export] Instance AcknowledgedCommandType_eq : EqDecision AcknowledgedCommandType.
Proof. solve_decision. Defined.

(** src/shared/protocol.ts:807-914 ReadyMessageSchema *)
Inductive ServerMessage :=
| MReady (serverVersion : string)
| MServerShutdown (gracePeriodMs : Z)
| MAck (requestId : string) (command : AcknowledgedCommandType)
| MError (requestId : option string) (code : ErrorCode) (message : string)
| MWorkspaces (requestId : option string) (workspaces : list WorkspaceSummary)
| MHistory (requestId : option string) (workspaceId : string) (conversations : list ConversationSummary)
| MState (requestId : option string) (conversation : ConversationState) (editorText : option string)
| MJobs (requestId : option string) (jobs : list JobSummary)
| MJobRuns (requestId jobId : string) (runs : list JobRunSummary) (nextCursor : option string)
| MJobRunState (requestId : string) (run : JobRunState)
| MJobRunUpdated (jobId runId : string) (revision : Z) (run : JobRunSummary)
| MEvent (event : ConversationEvent).

(** The [requestId] of a message that has the property. *)
Definition message_requestId (m : ServerMessage) : option string :=
  match m with
  | MAck id _ | MJobRuns id _ _ _ | MJobRunState id _ => Some id
  | MError id _ _ | MWorkspaces id _ | MHistory id _ _ | MState id _ _ | MJobs id _ => id
  | MReady _ | MServerShutdown _ | MJobRunUpdated _ _ _ _ | MEvent _ => None
  end.
