(* ===== verification/ClientState.v ===== *)
(** The browser's state ([src/web/src/api/state.ts]): what it keeps of the
    server, and the pure reducer that projects every server message and local
    selection onto it. Objects keyed by an identifier are finite maps (the
    identifiers are the server's, none is a name [Object.prototype] defines).
    A branch that returns [state] itself, by which the caller knows that
    nothing changed, is [None]. *)
From S2P Require Import Prelude JsValues Texts Errors Revisions Jobs Protocol.
#[local] Open Scope string_scope. #[local] Open Scope Z_scope.

(** src/web/src/api/state.ts:20-24 ConnectionStatus *)
Inductive ConnectionStatus := Connecting | Connected | Reconnecting | Disconnected.
#[export] Instance ConnectionStatus_eq : EqDecision ConnectionStatus.
Proof. solve_decision. Defined.

(** src/web/src/api/state.ts:26-29 ClientErrorState *)
Record ClientErrorState := { ce_code : string; ce_message : string }.
#[export] Instance ClientErrorState_eq : EqDecision ClientErrorState.
Proof. solve_decision. Defined.
(** src/web/src/api/state.ts:31-33 WorkspaceClientErrorState *)
Record WorkspaceClientErrorState := { we_error : ClientErrorState; we_workspaceId : string }.
#[export] Instance WorkspaceClientErrorState_eq : EqDecision WorkspaceClientErrorState.
Proof. solve_decision. Defined.

(** An object stored in [lastError]: a plain error, or the workspace error that
    is also stored in [historyError]. *)
Inductive shown_error := PlainError (e : ClientErrorState) | HistoryError (e : WorkspaceClientErrorState).
#[export] Instance shown_error_eq : EqDecision shown_error.
Proof. solve_decision. Defined.

(** src/web/src/api/state.ts:35-35 MAX_NETWORK_BLOCKED_NOTICES *)
Definition MAX_NETWORK_BLOCKED_NOTICES : nat := 50.

(** src/web/src/api/state.ts:37-41 PositionedStatusNotice *)
Record PositionedStatusNotice := { pn_notice : StatusNotice; pn_afterMessageCount : Z }.

(** A [network.blocked] event: its envelope and payload. *)
Record NetworkBlockedEvent := {
  be_workspaceId : string; be_conversationId : string; be_revision : Z; be_payload : NetworkBlockedPayload;
}.

(** src/web/src/api/state.ts:43-49 ConversationProjection *)
Record ConversationProjection := {
  conversation : ConversationState;
  notices : list PositionedStatusNotice;
  networkBlocked : list NetworkBlockedEvent;
}.

(** src/web/src/api/state.ts:51-55 JobRunPageState *)
Record JobRunPageState := { page_runIds : list string; page_nextCursor : option string; page_loading : bool }.

(** src/web/src/api/state.ts:57-85 ChatClientState *)
Record ChatClientState := {
  connection : ConnectionStatus;
  serverVersion : option string;
  workspaces : list WorkspaceSummary;
  jobs : list JobSummary;
  jobRuns : gmap string JobRunSummary;
  jobRunDetails : gmap string JobRunState;
  jobRunPages : gmap string JobRunPageState;
  resyncJobRunIds : list string;
  selectedJobId : option string;
  selectedJobRunId : option string;
  selectedWorkspaceId : option string;
  historyWorkspaceId : option string;
  history : list ConversationSummary;
  pendingHistoryWorkspaceId : option string;
  historyError : option WorkspaceClientErrorState;
  conversations : gmap string ConversationProjection;
  selectedConversationId : option string;
  drafts : gmap string string;
  resyncConversationIds : list string;
  lastError : option shown_error;
}.

#[export] Instance spread_state : Spread ChatClientState := λ s, {|
  connection := connection s; serverVersion := serverVersion s; workspaces := workspaces s; jobs := jobs s;
  jobRuns := jobRuns s; jobRunDetails := jobRunDetails s; jobRunPages := jobRunPages s;
  resyncJobRunIds := resyncJobRunIds s; selectedJobId := selectedJobId s;
  selectedJobRunId := selectedJobRunId s; selectedWorkspaceId := selectedWorkspaceId s;
  historyWorkspaceId := historyWorkspaceId s; history := history s;
  pendingHistoryWorkspaceId := pendingHistoryWorkspaceId s; historyError := historyError s;
  conversations := conversations s; selectedConversationId := selectedConversationId s;
  drafts := drafts s; resyncConversationIds := resyncConversationIds s; lastError := lastError s |}.
#[export] Instance spread_projection : Spread ConversationProjection := λ p,
  {| conversation := conversation p; notices := notices p; networkBlocked := networkBlocked p |}.
#[export] Instance spread_page : Spread JobRunPageState := λ p,
  {| page_runIds := page_runIds p; page_nextCursor := page_nextCursor p; page_loading := page_loading p |}.
#[export] Instance spread_conversation : Spread ConversationState := λ c, {|
  cv_id := cv_id c; cv_workspaceId := cv_workspaceId c; cv_sessionFile := cv_sessionFile c;
  cv_title := cv_title c; cv_cwd := cv_cwd c; cv_model := cv_model c; cv_status := cv_status c;
  cv_createdAt := cv_createdAt c; cv_lastActiveAt := cv_lastActiveAt c; cv_revision := cv_revision c;
  cv_durable := cv_durable c; cv_contextUsage := cv_contextUsage c; cv_messages := cv_messages c;
  cv_queue := cv_queue c; cv_securityProfile := cv_securityProfile c; cv_networkPolicy := cv_networkPolicy c;
  cv_networkPolicySetId := cv_networkPolicySetId c;
  cv_effectiveNetworkPolicySetId := cv_effectiveNetworkPolicySetId c;
  cv_effectiveHttpTools := cv_effectiveHttpTools c;
  cv_effectiveConversationTools := cv_effectiveConversationTools c; cv_owner := cv_owner c |}.
#[export] Instance spread_assistant : Spread AssistantMessage := λ m, {|
  am_entryId := am_entryId m; am_blocks := am_blocks m; am_timestamp := am_timestamp m;
  am_stopReason := am_stopReason m; am_error := am_error m; am_usage := am_usage m |}.
#[export] Instance spread_tool : Spread ToolCallBlock := λ t, {|
  tc_toolCallId := tc_toolCallId t; tc_toolName := tc_toolName t; tc_arguments := tc_arguments t;
  tc_status := tc_status t |}.

(** src/web/src/api/state.ts:87-121 ChatClientAction *)
Inductive ChatClientAction :=
| AConnection (status : ConnectionStatus)
| AReady (version : string)
| AWorkspaces (list_ : list WorkspaceSummary)
| AJobs (list_ : list JobSummary)
| AJobRuns (jobId : option string) (runs : list JobRunSummary) (nextCursor : option string) (append : bool)
| AJobRunsPending (jobId : string)
| AJobRunsFailed (jobId : string)
| AJobSelect (jobId : option string)
| AJobRunSelect (runId : option string)
| AJobRunState (run : JobRunState)
| AJobRunUpdated (run : JobRunSummary)
| AWorkspaceSelect (workspaceId : option string)
| AHistoryPending (workspaceId : string)
| AHistoryFailed (error : WorkspaceClientErrorState)
| AHistory (workspaceId : string) (list_ : list ConversationSummary)
| ASnapshot (state : ConversationState)
| AEvent (event : ConversationEvent)
| ASelect (conversationId : option string)
| ANetworkBlockedDismiss (conversationId : string)
| AConversationClosed (conversationId : string)
| AConversationDeleted (conversationId : string)
| ADraft (conversationId text : string)
| ADraftDelete (conversationId : string)
| AError (error : option ClientErrorState).

(** src/web/src/api/state.ts:123-146 createInitialChatClientState *)
Definition createInitialChatClientState : ChatClientState := {|
  connection := Disconnected; serverVersion := None; workspaces := []; jobs := []; jobRuns := ∅;
  jobRunDetails := ∅; jobRunPages := ∅; resyncJobRunIds := []; selectedJobId := None;
  selectedJobRunId := None; selectedWorkspaceId := None; historyWorkspaceId := None; history := [];
  pendingHistoryWorkspaceId := None; historyError := None; conversations := ∅;
  selectedConversationId := None; drafts := ∅; resyncConversationIds := []; lastError := None |}.

(** ** Messages and blocks *)

(** src/web/src/api/state.ts:172-196 replaceMessage *)
Definition replaceMessage (messages : list NormalizedMessage) (message : NormalizedMessage) (completed : bool)
    : list NormalizedMessage :=
  let exactIndex := find_index (λ item, String.eqb (entryId item) (entryId message)) messages in
  let index :=
    match exactIndex with
    | Some i => Some i
    | None =>
        if completed
        then find_last_index (λ item, same_role item message && starts_with "stream:" (entryId item)) messages
        else None
    end in
  match index with
  | None => (messages ++ [message])%list
  | Some i => <[i := message]> messages
  end.

(** src/web/src/api/state.ts:209-216 mentionsTool *)
Definition mentions_tool (toolCallId : string) (m : NormalizedMessage) : bool :=
  match m with
  | User _ => false
  | Assistant m => existsb (λ block,
      match block with
      | ToolCall t => String.eqb (tc_toolCallId t) toolCallId
      | ToolResult r => String.eqb (tr_toolCallId r) toolCallId
      | _ => false
      end) (am_blocks m)
  end.

(** src/web/src/api/state.ts:198-231 updateAssistant *)
Definition updateAssistant (messages : list NormalizedMessage) (entry : option string)
    (update : AssistantMessage → AssistantMessage) (toolCallId : option string) : list NormalizedMessage :=
  let index := match entry with
    | None => None
    | Some e => find_index (λ m, String.eqb (entryId m) e) messages
    end in
  let index := match index, toolCallId with
    | None, Some t => find_index (mentions_tool t) messages
    | i, _ => i
    end in
  let index := match index with
    | None => find_last_index is_assistant messages
    | Some i => Some i
    end in
  match index with
  | None => messages
  | Some i =>
      match messages !! i with
      | Some (Assistant m) => <[i := Assistant (update m)]> messages
      | _ => messages
      end
  end.

(** src/web/src/api/state.ts:233-243 updateToolCallStatus *)
Definition updateToolCallStatus (blocks : list AssistantContentBlock) (toolCallId : string)
    (status : ToolCallStatus) : list AssistantContentBlock :=
  (λ block, match block with
    | ToolCall t => if String.eqb (tc_toolCallId t) toolCallId then ToolCall (t <| tc_status := status |>) else block
    | _ => block
    end) <$> blocks.

(** Replacing the first block that satisfies [p], or adding a block. *)
Definition put_block (p : AssistantContentBlock → bool) (block : AssistantContentBlock)
    (blocks : list AssistantContentBlock) : list AssistantContentBlock :=
  match find_index p blocks with
  | None => (blocks ++ [block])%list
  | Some i => <[i := block]> blocks
  end.
Definition is_call_of (toolCallId : string) (block : AssistantContentBlock) : bool :=
  match block with ToolCall t => String.eqb (tc_toolCallId t) toolCallId | _ => false end.
Definition is_result_of (toolCallId : string) (block : AssistantContentBlock) : bool :=
  match block with ToolResult r => String.eqb (tr_toolCallId r) toolCallId | _ => false end.

(** src/web/src/api/state.ts:292-313 messageDelta *)
Definition apply_delta (entry : string) (blockIndex : Z) (blockType : DeltaKind) (delta : string)
    (message : NormalizedMessage) : NormalizedMessage :=
  match message with
  | User _ => message
  | Assistant m =>
      if negb (String.eqb (am_entryId m) entry) then message
      else
        let blocks := am_blocks m in
        match item_at blocks blockIndex, blockType with
        | None, _ =>
            if blockIndex =? Z.of_nat (length blocks)
            then Assistant (m <| am_blocks := (blocks ++
                   [match blockType with DeltaText => TextBlock delta | DeltaThinking => ThinkingBlock delta end])%list |>)
            else message
        | Some (TextBlock text), DeltaText =>
            Assistant (m <| am_blocks := <[Z.to_nat blockIndex := TextBlock (text +:+ delta)]> blocks |>)
        | Some (ThinkingBlock text), DeltaThinking =>
            Assistant (m <| am_blocks := <[Z.to_nat blockIndex := ThinkingBlock (text +:+ delta)]> blocks |>)
        | Some _, _ => message
        end
  end.

(** ** Conversation events *)

(** src/web/src/api/state.ts:245-253 sameBlockedDestination *)
Definition sameBlockedDestination (left right : NetworkBlockedEvent) : bool :=
  String.eqb (nb_host (be_payload left)) (nb_host (be_payload right))
  && (nb_port (be_payload left) =? nb_port (be_payload right))
  && bool_decide (nb_protocol (be_payload left) = nb_protocol (be_payload right))
  && bool_decide (nb_reason (be_payload left) = nb_reason (be_payload right)).

(** src/web/src/api/state.ts:255-270 collectNetworkBlocked *)
Definition collectNetworkBlocked (current : list NetworkBlockedEvent) (event : NetworkBlockedEvent)
    : list NetworkBlockedEvent :=
  let appended := last_items MAX_NETWORK_BLOCKED_NOTICES (current ++ [event])%list in
  match nb_occurrenceCount (be_payload event) with
  | None => appended
  | Some _ =>
      match find_last_index (λ candidate, sameBlockedDestination candidate event) current with
      | Some i => last_items MAX_NETWORK_BLOCKED_NOTICES (<[i := event]> current)
      | None => appended
      end
  end.

(** What an event does to the messages. *)
(** src/web/src/api/state.ts:283-370 messages *)
Definition event_messages (payload : event_payload) (messages : list NormalizedMessage) : list NormalizedMessage :=
  match payload with
  | MessageStarted message => replaceMessage messages message false
  | MessageCompleted message _ => replaceMessage messages message true
  | MessageDelta entry blockIndex blockType delta => apply_delta entry blockIndex blockType delta <$> messages
  | ToolStarted entry tool =>
      updateAssistant messages entry (λ message,
        message <| am_blocks := put_block (is_call_of (tc_toolCallId tool)) (ToolCall tool) (am_blocks message) |>) None
  | ToolUpdated toolCallId content truncated =>
      let partial := {| tr_toolCallId := toolCallId; tr_toolName := None; tr_content := content;
        tr_isError := false; tr_truncated := truncated; tr_originalBytes := None |} in
      updateAssistant messages None (λ message,
        message <| am_blocks := put_block (is_result_of toolCallId) (ToolResult partial)
          (updateToolCallStatus (am_blocks message) toolCallId ToolRunning) |>) (Some toolCallId)
  | ToolCompleted res =>
      updateAssistant messages None (λ message,
        message <| am_blocks := put_block (is_result_of (tr_toolCallId res)) (ToolResult res)
          (updateToolCallStatus (am_blocks message) (tr_toolCallId res)
             (if tr_isError res then ToolFailed else ToolSucceeded)) |>) (Some (tr_toolCallId res))
  | _ => messages
  end.

(** src/web/src/api/state.ts:382-394 contextUsage *)
Definition event_contextUsage (payload : event_payload) (usage : option ContextUsage) : option ContextUsage :=
  match payload with
  | MessageCompleted _ contextUsage => contextUsage
  | NoticeEvent (CompactionNotice CompactionCompleted _) =>
      (λ u, {| cu_tokens := None; cu_contextWindow := cu_contextWindow u; cu_percent := None |}) <$> usage
  | _ => usage
  end.

(** src/web/src/api/state.ts:272-407 applyConversationEvent *)
Definition applyConversationEvent (c : ConversationState) (event : ConversationEvent) : ConversationState :=
  let payload := ev_payload event in
  c <| cv_messages := event_messages payload (cv_messages c) |>
    <| cv_queue := match payload with QueueEvent queue => queue | _ => cv_queue c end |>
    <| cv_status := match payload with
         | StatusEvent status | MetadataEvent _ _ status => status | _ => cv_status c end |>
    <| cv_title := match payload with MetadataEvent title _ _ => title | _ => cv_title c end |>
    <| cv_durable := match payload with MetadataEvent _ durable _ => durable | _ => cv_durable c end |>
    <| cv_contextUsage := event_contextUsage payload (cv_contextUsage c) |>
    <| cv_revision := ev_revision event |>.

(** ** The reducer *)

Implicit Types s : ChatClientState.

(** src/web/src/api/state.ts:148-162 replaceConversation *)
Definition replaceConversation s (projection : ConversationProjection) : ChatClientState :=
  let id := cv_id (conversation projection) in
  s <| conversations := <[id := projection]> (conversations s) |>
    <| resyncConversationIds := filter (λ id', id' ≠ id) (resyncConversationIds s) |>.

(** src/web/src/api/state.ts:164-170 requestResync *)
Definition requestResync s (conversationId : string) : option ChatClientState :=
  if includes conversationId (resyncConversationIds s) then None
  else Some (s <| resyncConversationIds := (resyncConversationIds s ++ [conversationId])%list |>).

(** [`${jobId}\0${runId}`], and the part of such a key before its first NUL. *)
Definition NUL : ascii := "000".
(** src/web/src/api/state.ts:509-509 key *)
Definition run_key (jobId runId : string) : string := jobId +:+ String NUL runId.
(** src/web/src/api/state.ts:444-447 separator *)
Definition key_job (key : string) : option string :=
  if has_char NUL key then Some (match split NUL key with p :: _ => p | [] => "" end) else None.

(** src/web/src/api/state.ts:423-449 jobs *)
Definition reduce_jobs s (jobs_ : list JobSummary) : ChatClientState :=
  let retained : gset string := list_to_set (js_id <$> jobs_) in
  let selected := match selectedJobId s with
    | Some id => if decide (id ∈ retained) then Some id else None | None => None end in
  s <| jobs := jobs_ |>
    <| jobRuns := filter (λ p, rs_jobId p.2 ∈ retained) (jobRuns s) |>
    <| jobRunDetails := filter (λ p, rs_jobId (st_summary p.2) ∈ retained) (jobRunDetails s) |>
    <| jobRunPages := filter (λ p, p.1 ∈ retained) (jobRunPages s) |>
    <| selectedJobId := selected |>
    <| selectedJobRunId := match selected with None => None | Some _ => selectedJobRunId s end |>
    <| resyncJobRunIds := filter (λ key, match key_job key with Some j => bool_decide (j ∈ retained) | None => false end = true)
         (resyncJobRunIds s) |>.

(** The loop that merges a page of runs. *)
(** src/web/src/api/state.ts:451-455 mergeRuns *)
Definition merge_run (runs : gmap string JobRunSummary) (run : JobRunSummary) : gmap string JobRunSummary :=
  match runs !! rs_id run with
  | None => <[rs_id run := run]> runs
  | Some current => if rs_revision current <=? rs_revision run then <[rs_id run := run]> runs else runs
  end.

(** src/web/src/api/state.ts:450-474 jobRuns *)
Definition reduce_job_runs s (jobId : option string) (runs : list JobRunSummary) (nextCursor : option string)
    (append : bool) : ChatClientState :=
  let merged := foldl merge_run (jobRuns s) runs in
  match (match jobId with Some j => Some j | None => rs_jobId <$> head runs end) with
  | None => s <| jobRuns := merged |>
  | Some jobId =>
      let prior := match jobRunPages s !! jobId with Some p => page_runIds p | None => [] end in
      let runIds := if append then unique_items (prior ++ (rs_id <$> runs))%list else rs_id <$> runs in
      s <| jobRuns := merged |>
        <| jobRunPages := <[jobId := {| page_runIds := runIds; page_nextCursor := nextCursor;
                                        page_loading := false |}]> (jobRunPages s) |>
  end.

(** src/web/src/api/state.ts:475-488 jobRunsPending *)
Definition reduce_job_runs_pending s (jobId : string) : ChatClientState :=
  let current := jobRunPages s !! jobId in
  s <| jobRunPages := <[jobId :=
    {| page_runIds := match current with Some p => page_runIds p | None => [] end;
       page_nextCursor := current ≫= page_nextCursor; page_loading := true |}]> (jobRunPages s) |>.

(** src/web/src/api/state.ts:489-499 jobRunsFailed *)
Definition reduce_job_runs_failed s (jobId : string) : option ChatClientState :=
  match jobRunPages s !! jobId with
  | Some current =>
      if negb (page_loading current) then None
      else Some (s <| jobRunPages := <[jobId := current <| page_loading := false |>]> (jobRunPages s) |>)
  | None => None
  end.

(** src/web/src/api/state.ts:508-518 jobRunState *)
Definition reduce_job_run_state s (run : JobRunState) : option ChatClientState :=
  let key := run_key (rs_jobId run) (rs_id run) in
  if match jobRuns s !! rs_id run with Some current => rs_revision run <? rs_revision current | None => false end
  then None
  else Some (s <| jobRuns := <[rs_id run := st_summary run]> (jobRuns s) |>
               <| jobRunDetails := <[rs_id run := run]> (jobRunDetails s) |>
               <| resyncJobRunIds := filter (λ candidate, candidate ≠ key) (resyncJobRunIds s) |>).

(** [{ ...detail, ...run }] *)
Definition merge_detail (detail : JobRunState) (run : JobRunSummary) : JobRunState := {|
  st_summary := run; st_preExitCode := st_preExitCode detail; st_preStdout := st_preStdout detail;
  st_preStderr := st_preStderr detail; st_postExitCode := st_postExitCode detail;
  st_postStdout := st_postStdout detail; st_postStderr := st_postStderr detail;
  st_conversationAvailable := st_conversationAvailable detail |}.

(** src/web/src/api/state.ts:519-535 jobRunUpdated *)
Definition reduce_job_run_updated s (run : JobRunSummary) : option ChatClientState :=
  let current := jobRuns s !! rs_id run in
  if match current with Some c => rs_revision run <=? rs_revision c | None => false end then None
  else if match current with Some c => negb (rs_revision run =? rs_revision c + 1) | None => false end then
    let key := run_key (rs_jobId run) (rs_id run) in
    if includes key (resyncJobRunIds s) then None
    else Some (s <| resyncJobRunIds := (resyncJobRunIds s ++ [key])%list |>)
  else
    let s' := s <| jobRuns := <[rs_id run := run]> (jobRuns s) |> in
    Some match jobRunDetails s !! rs_id run with
    | None => s'
    | Some detail => s' <| jobRunDetails := <[rs_id run := merge_detail detail run]> (jobRunDetails s) |>
    end.

(** [state.lastError === state.historyError]: both null, or the object that
    [history.failed] stored in both (the only way a workspace error gets there). *)
Definition same_error s : bool :=
  match lastError s, historyError s with
  | None, None => true
  | Some (HistoryError e), Some e' => bool_decide (e = e')
  | _, _ => false
  end.
Definition error_after_history s : option shown_error := if same_error s then None else lastError s.

(** src/web/src/api/state.ts:536-553 workspaces *)
Definition reduce_workspaces s (list_ : list WorkspaceSummary) : ChatClientState :=
  let selectedStillExists :=
    match selectedWorkspaceId s with
    | None => true
    | Some id => existsb (λ w, String.eqb (ws_id w) id) list_
    end in
  if negb selectedStillExists then
    s <| workspaces := list_ |> <| selectedWorkspaceId := None |> <| selectedConversationId := None |>
      <| historyWorkspaceId := None |> <| history := [] |> <| pendingHistoryWorkspaceId := None |>
      <| historyError := None |> <| lastError := error_after_history s |>
  else s <| workspaces := list_ |>.

(** src/web/src/api/state.ts:554-565 workspaceSelect *)
Definition reduce_workspace_select s (workspaceId : option string) : option ChatClientState :=
  if bool_decide (workspaceId = selectedWorkspaceId s) then None
  else Some (s <| selectedWorkspaceId := workspaceId |> <| selectedConversationId := None |>
      <| historyWorkspaceId := None |> <| history := [] |> <| pendingHistoryWorkspaceId := None |>
      <| historyError := None |> <| lastError := None |>).

(** src/web/src/api/state.ts:566-573 historyPending *)
Definition reduce_history_pending s (workspaceId : string) : option ChatClientState :=
  if negb (bool_decide (Some workspaceId = selectedWorkspaceId s)) then None
  else Some (s <| pendingHistoryWorkspaceId := Some workspaceId |> <| historyError := None |>
               <| lastError := error_after_history s |>).

(** src/web/src/api/state.ts:574-581 historyFailed *)
Definition reduce_history_failed s (error : WorkspaceClientErrorState) : option ChatClientState :=
  if negb (bool_decide (Some (we_workspaceId error) = selectedWorkspaceId s)) then None
  else Some (s <| pendingHistoryWorkspaceId := None |> <| historyError := Some error |>
               <| lastError := Some (HistoryError error) |>).

(** [summaries.get(id)]: a later summary of the same id replaces an earlier one. *)
(** src/web/src/api/state.ts:599-601 summaries *)
Definition summary_of (id : string) (list_ : list ConversationSummary) : option ConversationSummary :=
  find_last_index (λ item, String.eqb (cs_id item) id) list_ ≫= (list_ !!.).

(** src/web/src/api/state.ts:602-618 conversations *)
Definition history_projections (workspaceId : string) (list_ : list ConversationSummary) (closed : gset string)
    (projections : gmap string ConversationProjection) : gmap string ConversationProjection :=
  map_imap (λ id projection, Some
    match summary_of id list_ with
    | None => projection
    | Some summary =>
        projection <| conversation := (conversation projection) <| cv_title := cs_title summary |> |>
    end)
    (filter (λ p, cv_workspaceId (conversation p.2) ≠ workspaceId ∨ p.1 ∉ closed) projections).

(** src/web/src/api/state.ts:582-632 history *)
Definition reduce_history s (workspaceId : string) (list_ : list ConversationSummary) : option ChatClientState :=
  if negb (bool_decide (Some workspaceId = selectedWorkspaceId s))
     || existsb (λ item, negb (String.eqb (cs_workspaceId item) workspaceId)) list_
  then None
  else
    let closed : gset string := list_to_set (cs_id <$> filter (λ item, cs_status item = SumClosed) list_) in
    Some (s <| historyWorkspaceId := Some workspaceId |> <| history := list_ |>
            <| pendingHistoryWorkspaceId := None |> <| historyError := None |>
            <| lastError := error_after_history s |>
            <| conversations := history_projections workspaceId list_ closed (conversations s) |>
            <| resyncConversationIds := filter (λ id, id ∉ closed) (resyncConversationIds s) |>).

(** src/web/src/api/state.ts:633-650 snapshot *)
Definition reduce_snapshot s (c : ConversationState) : option ChatClientState :=
  let current := conversations s !! cv_id c in
  let sameWorkspace := match current with
    | Some p => String.eqb (cv_workspaceId (conversation p)) (cv_workspaceId c) | None => false end in
  if sameWorkspace && match current with
       | Some p => match decideSnapshotRevision (Some (JInt (cv_revision (conversation p)))) (JInt (cv_revision c)) with
                   | SnIgnore => true | SnReplace => false end
       | None => false
       end
  then None
  else Some (replaceConversation s
    {| conversation := c;
       notices := match current with Some p => if sameWorkspace then notices p else [] | None => [] end;
       networkBlocked := match current with Some p => if sameWorkspace then networkBlocked p else [] | None => [] end |}).

(** src/web/src/api/state.ts:651-680 event *)
Definition reduce_event s (event : ConversationEvent) : option ChatClientState :=
  match conversations s !! ev_conversationId event with
  | None => requestResync s (ev_conversationId event)
  | Some current =>
      if negb (String.eqb (cv_workspaceId (conversation current)) (ev_workspaceId event))
      then requestResync s (ev_conversationId event)
      else match decideEventRevision (JInt (cv_revision (conversation current))) (JInt (ev_revision event)) with
      | EvIgnore => None
      | EvResync => requestResync s (ev_conversationId event)
      | EvApply => Some (replaceConversation s
          {| conversation := applyConversationEvent (conversation current) event;
             notices := match ev_payload event with
               | NoticeEvent notice => last_items 100 (notices current ++
                   [{| pn_notice := notice;
                       pn_afterMessageCount := Z.of_nat (length (cv_messages (conversation current))) |}])%list
               | _ => notices current
               end;
             networkBlocked := match ev_payload event with
               | NetworkBlocked payload => collectNetworkBlocked (networkBlocked current)
                   {| be_workspaceId := ev_workspaceId event; be_conversationId := ev_conversationId event;
                      be_revision := ev_revision event; be_payload := payload |}
               | _ => networkBlocked current
               end |})
      end
  end.

(** src/web/src/api/state.ts:683-687 networkBlockedDismiss *)
Definition reduce_dismiss s (conversationId : string) : option ChatClientState :=
  match conversations s !! conversationId with
  | Some current =>
      if bool_decide (networkBlocked current = []) then None
      else Some (replaceConversation s (current <| networkBlocked := [] |>))
  | None => None
  end.

(** src/web/src/api/state.ts:688-698 conversationClosed *)
Definition reduce_closed s (conversationId : string) : option ChatClientState :=
  match conversations s !! conversationId with
  | None => None
  | Some _ => Some (s <| conversations := delete conversationId (conversations s) |>
      <| resyncConversationIds := filter (λ id, id ≠ conversationId) (resyncConversationIds s) |>)
  end.

(** src/web/src/api/state.ts:699-714 conversationDeleted *)
Definition reduce_deleted s (conversationId : string) : ChatClientState :=
  s <| conversations := delete conversationId (conversations s) |>
    <| drafts := delete conversationId (drafts s) |>
    <| history := filter (λ item, cs_id item ≠ conversationId) (history s) |>
    <| selectedConversationId :=
         if bool_decide (selectedConversationId s = Some conversationId) then None else selectedConversationId s |>
    <| resyncConversationIds := filter (λ id, id ≠ conversationId) (resyncConversationIds s) |>.

(** [None] is the state itself. *)
(** src/web/src/api/state.ts:409-728 reduceChatClientState *)
Definition reduceChatClientState s (action : ChatClientAction) : option ChatClientState :=
  match action with
  | AConnection status => Some (s <| connection := status |>)
  | AReady version =>
      Some (s <| connection := Connected |> <| serverVersion := Some version |> <| lastError := None |>)
  | AJobs list_ => Some (reduce_jobs s list_)
  | AJobRuns jobId runs nextCursor append => Some (reduce_job_runs s jobId runs nextCursor append)
  | AJobRunsPending jobId => Some (reduce_job_runs_pending s jobId)
  | AJobRunsFailed jobId => reduce_job_runs_failed s jobId
  | AJobSelect jobId =>
      Some (s <| selectedJobId := jobId |>
              <| selectedJobRunId := if bool_decide (jobId = selectedJobId s) then selectedJobRunId s else None |>)
  | AJobRunSelect runId => Some (s <| selectedJobRunId := runId |>)
  | AJobRunState run => reduce_job_run_state s run
  | AJobRunUpdated run => reduce_job_run_updated s run
  | AWorkspaces list_ => Some (reduce_workspaces s list_)
  | AWorkspaceSelect workspaceId => reduce_workspace_select s workspaceId
  | AHistoryPending workspaceId => reduce_history_pending s workspaceId
  | AHistoryFailed error => reduce_history_failed s error
  | AHistory workspaceId list_ => reduce_history s workspaceId list_
  | ASnapshot c => reduce_snapshot s c
  | AEvent event => reduce_event s event
  | ASelect conversationId => Some (s <| selectedConversationId := conversationId |>)
  | ANetworkBlockedDismiss conversationId => reduce_dismiss s conversationId
  | AConversationClosed conversationId => reduce_closed s conversationId
  | AConversationDeleted conversationId => Some (reduce_deleted s conversationId)
  | ADraft conversationId text => Some (s <| drafts := <[conversationId := text]> (drafts s) |>)
  | ADraftDelete conversationId =>
      match drafts s !! conversationId with
      | None => None
      | Some _ => Some (s <| drafts := delete conversationId (drafts s) |>)
      end
  | AError error => Some (s <| lastError := PlainError <$> error |>)
  end.

(** The state after an action. *)
Definition after_action s (action : ChatClientAction) : ChatClientState := default s (reduceChatClientState s action).
Definition after_actions s (actions : list ChatClientAction) : ChatClientState := foldl after_action s actions.
