(* ===== verification/ClientStateSafety.v ===== *)
(** What the browser's projections guarantee: a conversation on screen is
    always a snapshot the server sent with exactly the following events applied
    in order, a snapshot followed by its events brings any state up to date, run
    summaries never go back, and the bounds and references of the state hold. *)
From S2P Require Import Prelude JsValues Texts Errors Revisions Jobs Protocol ClientState.
#[local] Open Scope string_scope. #[local] Open Scope Z_scope.

Implicit Types (s : ChatClientState) (id w : string) (p : ConversationProjection).

(** The branches of the reducer that are more than a spread. *)
Ltac unfold_reducer :=
  unfold reduce_workspaces, reduce_job_runs, reduce_job_runs_failed, reduce_job_run_state,
    reduce_job_run_updated, reduce_workspace_select, reduce_history_pending, reduce_history_failed,
    reduce_history, reduce_snapshot, reduce_event, reduce_dismiss, reduce_closed, requestResync.

(** ** Events and titles *)

Lemma apply_identity c e :
  cv_id (applyConversationEvent c e) = cv_id c ∧
  cv_workspaceId (applyConversationEvent c e) = cv_workspaceId c ∧
  cv_revision (applyConversationEvent c e) = ev_revision e.
Proof. done. Qed.

(** The title that an event leaves behind. *)
Definition event_title (payload : event_payload) (title : string) : string :=
  match payload with MetadataEvent title _ _ => title | _ => title end.

Lemma apply_titled c t e :
  applyConversationEvent (c <| cv_title := t |>) e
  = (applyConversationEvent c e) <| cv_title := event_title (ev_payload e) t |>.
Proof. destruct e as [w id r []]; done. Qed.

Lemma titled_self (c : ConversationState) : c <| cv_title := cv_title c |> = c.
Proof. by destruct c. Qed.

Lemma titled_twice (c : ConversationState) t t' : c <| cv_title := t |> <| cv_title := t' |> = c <| cv_title := t' |>.
Proof. done. Qed.

(** ** One action *)

(** The projections a reachable state holds are keyed by their own identifier. *)
Definition keyed s : Prop := ∀ id p, conversations s !! id = Some p → cv_id (conversation p) = id.

(** Where the projection of [id] after an action comes from. *)
Inductive came_from s (a : ChatClientAction) id p' : Prop :=
| FromSame p :
    conversations s !! id = Some p → conversation p' = conversation p → came_from s a id p'
| FromHistory p workspaceId list_ summary :
    conversations s !! id = Some p → a = AHistory workspaceId list_ → summary ∈ list_ → cs_id summary = id →
    conversation p' = (conversation p) <| cv_title := cs_title summary |> → came_from s a id p'
| FromSnapshot c :
    a = ASnapshot c → cv_id c = id → conversation p' = c → came_from s a id p'
| FromEvent p e :
    conversations s !! id = Some p → a = AEvent e → ev_conversationId e = id →
    ev_workspaceId e = cv_workspaceId (conversation p) →
    decideEventRevision (JInt (cv_revision (conversation p))) (JInt (ev_revision e)) = EvApply →
    conversation p' = applyConversationEvent (conversation p) e → came_from s a id p'.

Lemma replaceConversation_lookup s q id p' :
  conversations (replaceConversation s q) !! id = Some p' →
  (cv_id (conversation q) = id ∧ p' = q) ∨ conversations s !! id = Some p'.
Proof. cbn. intros [[<- <-]|[_ H]]%lookup_insert_Some; auto. Qed.

Lemma requestResync_conversations s id s' : requestResync s id = Some s' → conversations s' = conversations s.
Proof. unfold requestResync. destruct (includes _ _); [done|]. by intros [= <-]. Qed.

Lemma summary_of_in id list_ summary :
  summary_of id list_ = Some summary → summary ∈ list_ ∧ cs_id summary = id.
Proof.
  unfold summary_of. intros (i & Hi & Hl)%bind_Some.
  apply find_last_index_Some in Hi as (x & Hx & E). rewrite Hl in Hx. injection Hx as ->.
  apply String.eqb_eq in E. split; [by eapply list_elem_of_lookup_2|done].
Qed.

Lemma history_projections_lookup workspaceId list_ closed projections id p' :
  history_projections workspaceId list_ closed projections !! id = Some p' →
  ∃ p, projections !! id = Some p ∧
    (p' = p ∨ ∃ summary, summary ∈ list_ ∧ cs_id summary = id ∧
       p' = p <| conversation := (conversation p) <| cv_title := cs_title summary |> |>).
Proof.
  unfold history_projections. rewrite map_lookup_imap. intros (p & Hp & Hq)%bind_Some.
  apply map_lookup_filter_Some in Hp as [Hp _]. exists p. split; [done|].
  destruct (summary_of id list_) as [summary|] eqn:E; simplify_eq; [right|by left].
  apply summary_of_in in E as [? ?]. by exists summary.
Qed.

Lemma sub_came_from s s' a id p' :
  conversations s' ⊆ conversations s → conversations s' !! id = Some p' → came_from s a id p'.
Proof. intros Hsub Hp. by eapply FromSame; [eapply lookup_weaken|]. Qed.

Lemma dismiss_came_from s id0 s' id p' :
  keyed s → reduce_dismiss s id0 = Some s' → conversations s' !! id = Some p' →
  came_from s (ANetworkBlockedDismiss id0) id p'.
Proof.
  unfold reduce_dismiss. intros Hk. destruct (conversations s !! id0) as [current|] eqn:E; [|done].
  case_bool_decide; [done|]. intros [= <-] Hp. apply replaceConversation_lookup in Hp as [[<- ->]|Hp].
  - rewrite <-(Hk _ _ E) in E. by eapply FromSame.
  - by eapply FromSame.
Qed.

Lemma history_came_from s w list_ s' id p' :
  reduce_history s w list_ = Some s' → conversations s' !! id = Some p' → came_from s (AHistory w list_) id p'.
Proof.
  unfold reduce_history. destruct (_ || _); [done|]. intros [= <-]. cbn.
  intros (p & Hp & [->|(summary & Hin & Hid & ->)])%history_projections_lookup; [by eapply FromSame|].
  by eapply FromHistory.
Qed.

Lemma snapshot_came_from s c s' id p' :
  reduce_snapshot s c = Some s' → conversations s' !! id = Some p' → came_from s (ASnapshot c) id p'.
Proof.
  unfold reduce_snapshot. intros Hr Hp. destruct (_ && _) in Hr; [done|]. injection Hr as <-.
  apply replaceConversation_lookup in Hp as [[<- ->]|Hp]; [by eapply FromSnapshot|by eapply FromSame].
Qed.

Lemma event_came_from s e s' id p' :
  keyed s → reduce_event s e = Some s' → conversations s' !! id = Some p' → came_from s (AEvent e) id p'.
Proof.
  intros Hk Hr Hp. unfold reduce_event in Hr.
  destruct (conversations s !! ev_conversationId e) as [current|] eqn:Ec;
    [|apply requestResync_conversations in Hr; rewrite Hr in Hp; by eapply FromSame].
  destruct (String.eqb_spec (cv_workspaceId (conversation current)) (ev_workspaceId e)) as [Ew|]; cbn [negb] in Hr;
    [|apply requestResync_conversations in Hr; rewrite Hr in Hp; by eapply FromSame].
  destruct (decideEventRevision _ _) eqn:Ed; [|done|apply requestResync_conversations in Hr; rewrite Hr in Hp; by eapply FromSame].
  injection Hr as <-. apply replaceConversation_lookup in Hp as [[Hid ->]|Hp]; [|by eapply FromSame].
  cbn in Hid. pose proof (Hk _ _ Ec) as Hid'. rewrite Hid in Hid'. rewrite <-Hid' in Ec.
  by eapply (FromEvent _ _ _ _ current e).
Qed.

(** Every other action leaves the projections alone or removes one. *)
Definition projects (a : ChatClientAction) : bool :=
  match a with AHistory _ _ | ASnapshot _ | AEvent _ | ANetworkBlockedDismiss _ => true | _ => false end.

Lemma other_actions_keep s a s' :
  projects a = false → reduceChatClientState s a = Some s' → conversations s' ⊆ conversations s.
Proof.
  destruct a; try done; intros _; cbn; unfold_reducer; intros H; repeat case_match; simplify_eq; cbn; try done;
    apply delete_subseteq.
Qed.

Lemma action_came_from s a id p' :
  keyed s → conversations (after_action s a) !! id = Some p' → came_from s a id p'.
Proof.
  intros Hk. unfold after_action. destruct (reduceChatClientState s a) as [s'|] eqn:Hr; cbn [default from_option Datatypes.id];
    [|intros Hp; by eapply FromSame].
  destruct (projects a) eqn:Ea; [|by apply sub_came_from, (other_actions_keep _ a)].
  destruct a; try done.
  - by apply history_came_from.
  - by apply snapshot_came_from.
  - by apply event_came_from.
  - by apply dismiss_came_from.
Qed.

Lemma keyed_after s a : keyed s → keyed (after_action s a).
Proof.
  intros Hk id p' Hp. destruct (action_came_from s a id p' Hk Hp) as [p Hs ->|p w l x Hs _ _ _ ->|c _ Hc ->|p e Hs _ _ _ _ ->].
  - by apply Hk.
  - by apply Hk.
  - done.
  - by apply Hk.
Qed.

Lemma keyed_init : keyed createInitialChatClientState.
Proof. intros id p Hp. cbn in Hp. by rewrite lookup_empty in Hp. Qed.

Lemma keyed_actions s l : keyed s → keyed (after_actions s l).
Proof. revert s. induction l as [|a l IH]; intros s Hs; [done|]. by apply IH, keyed_after. Qed.

Lemma after_actions_snoc s l a : after_actions s (l ++ [a]) = after_action (after_actions s l) a.
Proof. unfold after_actions. by rewrite foldl_app. Qed.

(** ** Replaying the events of a server *)

Section replay.
(** The payload a server sent for a revision of a conversation in a workspace. *)
Context (log : string → string → Z → event_payload).

Definition event_at (c : ConversationState) (revision : Z) : ConversationEvent := {|
  ev_workspaceId := cv_workspaceId c; ev_conversationId := cv_id c; ev_revision := revision;
  ev_payload := log (cv_workspaceId c) (cv_id c) revision |}.

(** A snapshot with the [n] events after it applied, each once, in order. *)
Fixpoint replay (base : ConversationState) (n : nat) : ConversationState :=
  match n with
  | O => base
  | S n => let c := replay base n in applyConversationEvent c (event_at c (cv_revision c + 1))
  end.

Definition consistent (a : ChatClientAction) : Prop :=
  match a with
  | AEvent e => ev_payload e = log (ev_workspaceId e) (ev_conversationId e) (ev_revision e)
  | _ => True
  end.

Lemma replay_identity base n :
  cv_id (replay base n) = cv_id base ∧ cv_workspaceId (replay base n) = cv_workspaceId base ∧
  cv_revision (replay base n) = cv_revision base + Z.of_nat n.
Proof.
  induction n as [|n (IH1 & IH2 & IH3)]; cbn [replay]; [split_and!; [done..|lia]|].
  split_and!; [done..|]. cbn [cv_revision]. change (cv_revision (replay base n) + 1 = cv_revision base + Z.of_nat (S n)). lia.
Qed.

Lemma consistent_event c e :
  consistent (AEvent e) → ev_workspaceId e = cv_workspaceId c → ev_conversationId e = cv_id c →
  e = event_at c (ev_revision e).
Proof. destruct e as [w i r pl]. cbn. intros -> -> ->. done. Qed.

(** The title on screen is the replayed one, or the one a history list gave. *)
Definition title_from (actions : list ChatClientAction) id (replayed shown : string) : Prop :=
  shown = replayed ∨
  ∃ w list_ summary, AHistory w list_ ∈ actions ∧ summary ∈ list_ ∧ cs_id summary = id ∧ shown = cs_title summary.

Definition replayed (actions : list ChatClientAction) id p : Prop :=
  ∃ base n, ASnapshot base ∈ actions ∧ cv_id base = id ∧
    conversation p = (replay base n) <| cv_title := cv_title (conversation p) |> ∧
    title_from actions id (cv_title (replay base n)) (cv_title (conversation p)).

Lemma title_from_app actions a id t t' : title_from actions id t t' → title_from (actions ++ [a]) id t t'.
Proof.
  intros [->|(w & l & x & Hin & ?)]; [by left|]. right. exists w, l, x. split; [|done]. apply elem_of_app. by left.
Qed.

Lemma title_from_event actions id e t t' :
  title_from actions id t t' →
  title_from actions id (event_title (ev_payload e) t) (event_title (ev_payload e) t').
Proof. destruct (ev_payload e); cbn; try done. intros _. by left. Qed.

Lemma replayed_step actions s a id p' :
  keyed s → consistent a → (∀ p, conversations s !! id = Some p → replayed actions id p) →
  conversations (after_action s a) !! id = Some p' → replayed (actions ++ [a]) id p'.
Proof.
  intros Hk Hc IH Hp.
  destruct (action_came_from s a id p' Hk Hp) as [p Hs E|p w l x Hs -> Hx Hid E|c -> Hid E|p e Hs -> Hid Hw Hd E].
  - destruct (IH p Hs) as (base & n & Hb & Hi & Ec & Ht). exists base, n. rewrite E.
    split_and!; [apply elem_of_app; by left|done|done|by apply title_from_app].
  - destruct (IH p Hs) as (base & n & Hb & Hi & Ec & Ht). exists base, n. rewrite E, Ec.
    split_and!; [apply elem_of_app; by left|done|done|]. right. exists w, l, x.
    split_and!; [apply elem_of_app; right; by left|done..].
  - exists c, O. rewrite E. split_and!; [apply elem_of_app; right; by left|done|by rewrite titled_self|by left].
  - destruct (IH p Hs) as (base & n & Hb & Hi & Ec & Ht).
    apply decideEventRevision_apply in Hd as (_ & _ & Hr). cbn in Hr.
    exists base, (S n). pose proof (Hk _ _ Hs) as Hk'. rewrite <-Hid in Hk'. symmetry in Hk'.
    pose proof (consistent_event _ _ Hc Hw Hk') as Ee.
    assert (Es : replay base (S n) = applyConversationEvent (replay base n) e).
    { cbn [replay]. f_equal. rewrite Ee, Hr. by rewrite Ec. }
    assert (Ea : applyConversationEvent (conversation p) e =
      (replay base (S n)) <| cv_title := event_title (ev_payload e) (cv_title (conversation p)) |>).
    { rewrite Ec at 1. rewrite apply_titled, Es. reflexivity. }
    split_and!; [apply elem_of_app; by left|done|by rewrite E, Ea|].
    rewrite E, Ea, Es. by apply title_from_app, title_from_event.
Qed.

Lemma replayed_actions actions id p :
  Forall consistent actions → conversations (after_actions createInitialChatClientState actions) !! id = Some p →
  replayed actions id p.
Proof.
  revert p. induction actions as [|a l IH] using rev_ind; intros p.
  { intros _ Hp. cbn in Hp. by rewrite lookup_empty in Hp. }
  intros [Hl Ha]%Forall_app Hp. apply Forall_cons_1 in Ha as [Ha _]. rewrite after_actions_snoc in Hp.
  apply (replayed_step l (after_actions createInitialChatClientState l) a id p); auto.
  apply keyed_actions, keyed_init.
Qed.

(** ** Catching up *)

Definition concerns id (a : ChatClientAction) : bool :=
  match a with
  | AHistory _ list_ => existsb (λ item, String.eqb (cs_id item) id) list_
  | ASnapshot c => String.eqb (cv_id c) id
  | AEvent e => String.eqb (ev_conversationId e) id
  | AConversationClosed i | AConversationDeleted i => String.eqb i id
  | _ => false
  end.

(** The actions that follow a snapshot at revision [r] of [base]'s conversation
    when its events up to revision [k] arrive in order, any of them again
    later, among anything that does not concern the conversation. *)
Inductive delivered (base : ConversationState) : list ChatClientAction → nat → Prop :=
| DeliveredNone : delivered base [] 0
| DeliveredNext l n :
    delivered base l n →
    delivered base (l ++ [AEvent (event_at base (cv_revision base + Z.of_nat n + 1))]) (S n)
| DeliveredAgain l n e :
    delivered base l n → ev_conversationId e = cv_id base → ev_workspaceId e = cv_workspaceId base →
    0 ≤ ev_revision e ≤ cv_revision base + Z.of_nat n → delivered base (l ++ [AEvent e]) n
| DeliveredOther l n a :
    delivered base l n → concerns (cv_id base) a = false → delivered base (l ++ [a]) n.

Definition shown s id : option ConversationState := conversation <$> conversations s !! id.

Lemma replaceConversation_other s q id :
  cv_id (conversation q) ≠ id →
  shown (replaceConversation s q) id = shown s id ∧
  (id ∉ resyncConversationIds s → id ∉ resyncConversationIds (replaceConversation s q)).
Proof.
  intros Hn. unfold shown. cbn. rewrite lookup_insert_ne by done. split; [done|].
  rewrite list_elem_of_filter. tauto.
Qed.

Lemma requestResync_other s i id s' :
  i ≠ id → requestResync s i = Some s' →
  shown s' id = shown s id ∧ (id ∉ resyncConversationIds s → id ∉ resyncConversationIds s').
Proof.
  unfold requestResync. intros Hn. destruct (includes _ _); [done|]. intros [= <-]. split; [done|].
  cbn. rewrite elem_of_app, list_elem_of_singleton. intuition congruence.
Qed.

Lemma summary_of_none id list_ :
  existsb (λ item, String.eqb (cs_id item) id) list_ = false → summary_of id list_ = None.
Proof.
  intros He. destruct (summary_of id list_) as [x|] eqn:E; [|done]. apply summary_of_in in E as [Hin E].
  apply not_true_iff_false in He. destruct He. apply existsb_exists. exists x.
  by rewrite <-list_elem_of_In, String.eqb_eq.
Qed.

Lemma history_unconcerned s w list_ id s' :
  existsb (λ item, String.eqb (cs_id item) id) list_ = false → reduce_history s w list_ = Some s' →
  shown s' id = shown s id ∧ (id ∉ resyncConversationIds s → id ∉ resyncConversationIds s').
Proof.
  unfold reduce_history. intros He. destruct (_ || _); [done|]. intros [= <-]. unfold shown. cbn. split.
  - unfold history_projections. rewrite map_lookup_imap, map_lookup_filter.
    destruct (conversations s !! id) as [p|]; [|done]. cbn. rewrite option_guard_True; cbn.
    + by rewrite summary_of_none.
    + right. intros Hin. apply elem_of_list_to_set, list_elem_of_fmap in Hin as (x & -> & [_ Hx]%list_elem_of_filter).
      apply not_true_iff_false in He. destruct He. apply existsb_exists. exists x.
      by rewrite <-list_elem_of_In, String.eqb_eq.
  - rewrite list_elem_of_filter. tauto.
Qed.

Lemma event_unconcerned s e id s' :
  keyed s → ev_conversationId e ≠ id → reduce_event s e = Some s' →
  shown s' id = shown s id ∧ (id ∉ resyncConversationIds s → id ∉ resyncConversationIds s').
Proof.
  unfold reduce_event. intros Hk Hn. destruct (conversations s !! _) as [p|] eqn:Ep; [|by apply requestResync_other].
  destruct (negb _); [by apply requestResync_other|].
  destruct (decideEventRevision _ _); [|done|by apply requestResync_other].
  intros [= <-]. apply replaceConversation_other. cbn. by rewrite (Hk _ _ Ep).
Qed.

Lemma dismiss_unconcerned s i id s' :
  keyed s → reduce_dismiss s i = Some s' →
  shown s' id = shown s id ∧ (id ∉ resyncConversationIds s → id ∉ resyncConversationIds s').
Proof.
  unfold reduce_dismiss. intros Hk. destruct (conversations s !! i) as [p|] eqn:Ep; [|done].
  case_bool_decide; [done|]. intros [= <-]. pose proof (Hk _ _ Ep) as Hi.
  destruct (decide (i = id)) as [->|Hn]; [|apply replaceConversation_other; cbn; by rewrite Hi].
  unfold shown. cbn. rewrite Hi, lookup_insert_eq, Ep. split; [done|]. rewrite list_elem_of_filter. tauto.
Qed.

Lemma unconcerned s a id :
  keyed s → concerns id a = false → shown (after_action s a) id = shown s id ∧
  (id ∉ resyncConversationIds s → id ∉ resyncConversationIds (after_action s a)).
Proof.
  intros Hk Hc. unfold after_action.
  destruct (reduceChatClientState s a) as [s'|] eqn:Hr; cbn [default from_option Datatypes.id]; [|done].
  destruct (projects a) eqn:Ea.
  - destruct a; try done; cbn [concerns] in Hc; cbn [reduceChatClientState] in Hr.
    + by eapply history_unconcerned.
    + unfold reduce_snapshot in Hr. destruct (_ && _) in Hr; [done|]. injection Hr as <-.
      apply replaceConversation_other. by apply String.eqb_neq.
    + eapply event_unconcerned; [done| |done]. by apply String.eqb_neq.
    + by eapply dismiss_unconcerned.
  - revert Hr Hc. destruct a; try done; cbn; unfold_reducer; unfold shown; intros Hr Hc; repeat case_match; simplify_eq; cbn; try done;
      apply String.eqb_neq in Hc; rewrite lookup_delete_ne by done; split; try done;
      rewrite list_elem_of_filter; tauto.
Qed.

Lemma event_ignored s e p :
  conversations s !! ev_conversationId e = Some p → ev_workspaceId e = cv_workspaceId (conversation p) →
  decideEventRevision (JInt (cv_revision (conversation p))) (JInt (ev_revision e)) = EvIgnore →
  after_action s (AEvent e) = s.
Proof.
  intros Hp Hw Hd. unfold after_action. cbn. unfold reduce_event. rewrite Hp, Hw, String.eqb_refl. cbn.
  by rewrite Hd.
Qed.

Lemma event_applied s e p :
  conversations s !! ev_conversationId e = Some p → ev_workspaceId e = cv_workspaceId (conversation p) →
  cv_id (conversation p) = ev_conversationId e →
  decideEventRevision (JInt (cv_revision (conversation p))) (JInt (ev_revision e)) = EvApply →
  shown (after_action s (AEvent e)) (ev_conversationId e) = Some (applyConversationEvent (conversation p) e) ∧
  ev_conversationId e ∉ resyncConversationIds (after_action s (AEvent e)).
Proof.
  intros Hp Hw Hi Hd. unfold after_action, shown. cbn. unfold reduce_event. rewrite Hp, Hw, String.eqb_refl. cbn.
  rewrite Hd. cbn. rewrite Hi, lookup_insert_eq. split; [done|]. rewrite list_elem_of_filter. tauto.
Qed.

Lemma snapshot_accepted s c :
  isRevision (JInt (cv_revision c)) = true →
  (∀ p, conversations s !! cv_id c = Some p → cv_workspaceId (conversation p) = cv_workspaceId c →
     isRevision (JInt (cv_revision (conversation p))) = true ∧ cv_revision (conversation p) ≤ cv_revision c) →
  shown (after_action s (ASnapshot c)) (cv_id c) = Some c ∧
  cv_id c ∉ resyncConversationIds (after_action s (ASnapshot c)).
Proof.
  intros Hr Hs. unfold after_action, shown. cbn [reduceChatClientState]. unfold reduce_snapshot.
  destruct (_ && _) eqn:E.
  { exfalso. destruct (conversations s !! cv_id c) as [p|]; [|done].
    apply andb_true_iff in E as [E1%String.eqb_eq E2]. destruct (Hs p eq_refl E1) as [Hp Hle].
    assert (Hd : decideSnapshotRevision (Some (JInt (cv_revision (conversation p)))) (JInt (cv_revision c)) = SnReplace)
      by (by apply decideSnapshotRevision_replace).
    by rewrite Hd in E2. }
  cbn. rewrite lookup_insert_eq. split; [done|]. rewrite list_elem_of_filter. tauto.
Qed.
Lemma delivered_keeps_up s base l n :
  keyed s → isRevision (JInt (cv_revision base)) = true → cv_revision base + Z.of_nat n ≤ MAX_SAFE_INTEGER →
  shown s (cv_id base) = Some base → cv_id base ∉ resyncConversationIds s → delivered base l n →
  shown (after_actions s l) (cv_id base) = Some (replay base n) ∧
  cv_id base ∉ resyncConversationIds (after_actions s l).
Proof.
  intros Hk Hr0%isRevision_JInt Hmax Hs Hq Hd.
  induction Hd as [|l n Hd IH|l n e Hd IH Hi Hw Hr|l n a Hd IH Hc]; [done|..];
    rewrite ?after_actions_snoc;
    destruct IH as [IH1 IH2]; try lia;
    destruct (replay_identity base n) as (E1 & E2 & E3);
    pose proof IH1 as (p & Ep & Elookup)%fmap_Some.
  - set (e := event_at base (cv_revision base + Z.of_nat n + 1)).
    assert (Ee : e = event_at (replay base n) (cv_revision (replay base n) + 1))
      by (unfold e, event_at; by rewrite E1, E2, E3).
    change (cv_id base) with (ev_conversationId e).
    destruct (event_applied (after_actions s l) e p) as [-> ?]; [done|by rewrite <-Elookup, E2|by rewrite <-Elookup, E1| |].
    + apply decideEventRevision_apply. rewrite <-Elookup, E3, !isRevision_JInt. cbn. lia.
    + split; [|done]. cbn [replay]. by rewrite <-Ee, Elookup.
  - rewrite (event_ignored _ e p); [done|by rewrite Hi|by rewrite <-Elookup, E2|].
    rewrite <-Elookup, E3. unfold decideEventRevision.
    rewrite !(proj2 (isRevision_JInt _)) by lia. cbn [orb negb num_val].
    by rewrite (proj2 (Z.leb_le _ _)) by lia.
  - destruct (unconcerned (after_actions s l) a (cv_id base)) as [-> Hq']; [by apply keyed_actions|done|]. auto.
Qed.
End replay.

(** ** The invariant of the state *)

Section invariant.
(** Every run belongs to one job. *)
Context (job_of : string → string).

Definition run_ok (run : JobRunSummary) : Prop := rs_jobId run = job_of (rs_id run).
Definition runs_consistent (a : ChatClientAction) : Prop :=
  match a with
  | AJobRuns _ runs _ _ => Forall run_ok runs
  | AJobRunState run => run_ok run
  | AJobRunUpdated run => run_ok run
  | _ => True
  end.

Record projections_ok s : Prop := {
  ok_keyed : keyed s;
  ok_bounds id p : conversations s !! id = Some p →
    (length (notices p) ≤ 100)%nat ∧ (length (networkBlocked p) ≤ MAX_NETWORK_BLOCKED_NOTICES)%nat;
}.

(** Summaries and diagnostics of runs. *)
Record runs_ok (runs : gmap string JobRunSummary) (details : gmap string JobRunState) : Prop := {
  ok_run id (r : JobRunSummary) : runs !! id = Some r → rs_id r = id ∧ run_ok r;
  ok_detail id (d : JobRunState) : details !! id = Some d → rs_id d = id ∧ run_ok d ∧
    ∃ r, runs !! id = Some r ∧ rs_revision d ≤ rs_revision r;
}.

(** The history belongs to the selected workspace, as does its error. *)
Record selection_ok s : Prop := {
  ok_history w : historyWorkspaceId s = Some w →
    selectedWorkspaceId s = Some w ∧ ∀ x, x ∈ history s → cs_workspaceId x = w;
  ok_no_history : historyWorkspaceId s = None → history s = [];
  ok_pending w : pendingHistoryWorkspaceId s = Some w → selectedWorkspaceId s = Some w;
  ok_history_error e : historyError s = Some e → selectedWorkspaceId s = Some (we_workspaceId e);
  ok_last_error e : lastError s = Some (HistoryError e) → historyError s = Some e;
}.

Record state_ok s : Prop := {
  ok_projections : projections_ok s;
  ok_runs : runs_ok (jobRuns s) (jobRunDetails s);
  ok_selection : selection_ok s;
  ok_resync : NoDup (resyncConversationIds s) ∧ NoDup (resyncJobRunIds s);
}.

Lemma init_ok : state_ok createInitialChatClientState.
Proof.
  split; [split; [apply keyed_init|]|split|split; try done|split; constructor];
    intros id p Hp; cbn in Hp; by rewrite lookup_empty in Hp.
Qed.

Lemma merge_run_ok runs details run : runs_ok runs details → run_ok run → runs_ok (merge_run runs run) details.
Proof.
  intros [Hr Hd] Ho. assert (Hput : (∀ current, runs !! rs_id run = Some current → rs_revision current ≤ rs_revision run) →
    runs_ok (<[rs_id run := run]> runs) details).
  { intros Hle. split.
    - intros id r [[<- <-]|[_ H]]%lookup_insert_Some; [done|auto].
    - intros id d H. destruct (Hd id d H) as (Ei & Eo & r & Er & Hl). split_and!; [done..|].
      destruct (decide (rs_id run = id)) as [<-|]; [|exists r; by rewrite lookup_insert_ne].
      exists run. rewrite lookup_insert_eq. split; [done|]. specialize (Hle r Er). lia. }
  unfold merge_run. destruct (runs !! rs_id run) as [current|] eqn:E; [|by apply Hput].
  destruct (Z.leb_spec (rs_revision current) (rs_revision run)); [|by split].
  apply Hput. by intros ? [= <-].
Qed.

Lemma merge_runs_ok runs details l : runs_ok runs details → Forall run_ok l → runs_ok (foldl merge_run runs l) details.
Proof.
  revert runs. induction l as [|run l IH]; intros runs Hr; [done|].
  intros [Ho Hl]%Forall_cons_1. apply IH; [|done]. by apply merge_run_ok.
Qed.

Lemma run_state_ok runs details (run : JobRunState) :
  runs_ok runs details → run_ok run → (∀ c, runs !! rs_id run = Some c → rs_revision c ≤ rs_revision run) →
  runs_ok (<[rs_id run := st_summary run]> runs) (<[rs_id run := run]> details).
Proof.
  intros [Hr Hd] Ho Hle. split.
  - intros id r [[<- <-]|[_ H]]%lookup_insert_Some; [done|auto].
  - intros id d [[<- <-]|[Hn H]]%lookup_insert_Some.
    + split_and!; [done..|]. exists run. rewrite lookup_insert_eq. split; [done|lia].
    + destruct (Hd id d H) as (? & ? & r & Er & ?). split_and!; [done..|].
      exists r. by rewrite lookup_insert_ne.
Qed.

Lemma reduce_run_updated_ok s run s' :
  runs_ok (jobRuns s) (jobRunDetails s) → run_ok run → reduce_job_run_updated s run = Some s' →
  runs_ok (jobRuns s') (jobRunDetails s').
Proof.
  intros Hok Ho Hr.
  assert (Hput : (∀ c, jobRuns s !! rs_id run = Some c → rs_revision c ≤ rs_revision run) →
    runs_ok (<[rs_id run := run]> (jobRuns s)) (match jobRunDetails s !! rs_id run with
      | None => jobRunDetails s | Some d => <[rs_id run := merge_detail d run]> (jobRunDetails s) end)).
  { intros Hle. destruct (jobRunDetails s !! rs_id run) as [d|] eqn:Ed.
    - by apply (run_state_ok _ _ (merge_detail d run)).
    - pose proof (merge_run_ok _ _ run Hok Ho) as Hm. unfold merge_run in Hm.
      destruct (jobRuns s !! rs_id run) as [c|] eqn:Ec; [|done].
      by rewrite (proj2 (Z.leb_le _ _) (Hle c eq_refl)) in Hm. }
  unfold reduce_job_run_updated in Hr.
  destruct (jobRuns s !! rs_id run) as [c|] eqn:Ec.
  - destruct (Z.leb_spec (rs_revision run) (rs_revision c)); [done|].
    destruct (negb _); [destruct (includes _ _); [done|]; by injection Hr as <-|].
    specialize (Hput ltac:(intros ? [= <-]; lia)). injection Hr as <-.
    by destruct (jobRunDetails s !! rs_id run).
  - specialize (Hput ltac:(done)). injection Hr as <-. by destruct (jobRunDetails s !! rs_id run).
Qed.

Lemma reduce_jobs_runs_ok s l :
  runs_ok (jobRuns s) (jobRunDetails s) → runs_ok (jobRuns (reduce_jobs s l)) (jobRunDetails (reduce_jobs s l)).
Proof.
  intros [Hr Hd]. split; cbn.
  - intros id r [H _]%map_lookup_filter_Some. auto.
  - intros id d [H Hj]%map_lookup_filter_Some. destruct (Hd id d H) as (Ei & Eo & r & Er & ?).
    split_and!; [done..|]. exists r. split; [|done]. apply map_lookup_filter_Some. split; [done|].
    destruct (Hr _ _ Er) as [Eir Eor]. cbn in Hj |- *. unfold run_ok in Eo, Eor. congruence.
Qed.
Definition bounded p : Prop :=
  (length (notices p) ≤ 100)%nat ∧ (length (networkBlocked p) ≤ MAX_NETWORK_BLOCKED_NOTICES)%nat.

Lemma collectNetworkBlocked_length l e : (length (collectNetworkBlocked l e) ≤ MAX_NETWORK_BLOCKED_NOTICES)%nat.
Proof. unfold collectNetworkBlocked. repeat case_match; apply last_items_length. Qed.

Lemma replaceConversation_bounded s q :
  map_Forall (λ _, bounded) (conversations s) → bounded q →
  map_Forall (λ _, bounded) (conversations (replaceConversation s q)).
Proof. intros Hs Hq. cbn. by apply map_Forall_insert_2. Qed.

Lemma bounded_after s a :
  map_Forall (λ _, bounded) (conversations s) → map_Forall (λ _, bounded) (conversations (after_action s a)).
Proof.
  intros Hs. unfold after_action.
  destruct (reduceChatClientState s a) as [s'|] eqn:Hr; cbn [default from_option Datatypes.id]; [|done].
  destruct (projects a) eqn:Ea;
    [|intros id p Hp; apply (Hs id); eapply lookup_weaken; [exact Hp|by eapply other_actions_keep]].
  destruct a; try done; cbn [reduceChatClientState] in Hr.
  - unfold reduce_history in Hr. destruct (_ || _); [done|]. injection Hr as <-. cbn.
    intros id p' (p & Hp & [->|(summary & _ & _ & ->)])%history_projections_lookup; exact (Hs _ _ Hp).
  - unfold reduce_snapshot in Hr. destruct (_ && _) in Hr; [done|]. injection Hr as <-.
    apply replaceConversation_bounded; [done|].
    destruct (conversations s !! cv_id state) as [q|] eqn:Eq; [|split; cbn; lia].
    pose proof (Hs _ _ Eq) as [? ?]. by destruct (String.eqb _ _); split; cbn; try lia.
  - unfold reduce_event in Hr. destruct (conversations s !! ev_conversationId event) as [q|] eqn:Eq;
      [|by rewrite (requestResync_conversations _ _ _ Hr)].
    destruct (negb _); [by rewrite (requestResync_conversations _ _ _ Hr)|].
    destruct (decideEventRevision _ _); [|done|by rewrite (requestResync_conversations _ _ _ Hr)].
    injection Hr as <-. apply replaceConversation_bounded; [done|]. pose proof (Hs _ _ Eq) as [? ?].
    split; cbn; destruct (ev_payload event); try done; [apply last_items_length|apply collectNetworkBlocked_length].
  - unfold reduce_dismiss in Hr. destruct (conversations s !! conversationId) as [q|] eqn:Eq; [|done].
    case_bool_decide; [done|]. injection Hr as <-. apply replaceConversation_bounded; [done|].
    pose proof (Hs _ _ Eq) as [? ?]. split; cbn; [done|lia].
Qed.

(** The actions on runs, and what the others leave alone. *)
Definition touches_runs (a : ChatClientAction) : bool :=
  match a with AJobs _ | AJobRuns _ _ _ _ | AJobRunState _ | AJobRunUpdated _ => true | _ => false end.

Lemma runs_untouched s a s' :
  touches_runs a = false → reduceChatClientState s a = Some s' →
  jobRuns s' = jobRuns s ∧ jobRunDetails s' = jobRunDetails s ∧ resyncJobRunIds s' = resyncJobRunIds s.
Proof.
  destruct a; try done; intros _; cbn; unfold_reducer; intros H; repeat case_match; by simplify_eq.
Qed.

Lemma runs_after s a :
  runs_ok (jobRuns s) (jobRunDetails s) → runs_consistent a →
  runs_ok (jobRuns (after_action s a)) (jobRunDetails (after_action s a)).
Proof.
  intros Hok Hc. unfold after_action.
  destruct (reduceChatClientState s a) as [s'|] eqn:Hr; cbn [default from_option Datatypes.id]; [|done].
  destruct (touches_runs a) eqn:Ea; [|by destruct (runs_untouched s a s' Ea Hr) as (-> & -> & _)].
  destruct a; try done; cbn [reduceChatClientState] in Hr.
  - injection Hr as <-. by apply reduce_jobs_runs_ok.
  - injection Hr as <-. cbn in Hc. pose proof (merge_runs_ok _ _ runs Hok Hc).
    unfold reduce_job_runs. cbv zeta. by repeat case_match.
  - unfold reduce_job_run_state in Hr. destruct (jobRuns s !! rs_id run) as [c|] eqn:Ec.
    + destruct (Z.ltb_spec (rs_revision run) (rs_revision c)); [done|]. injection Hr as <-.
      apply run_state_ok; [done..|]. rewrite Ec. intros ? [= <-]. lia.
    + injection Hr as <-. apply run_state_ok; [done..|]. by rewrite Ec.
  - by eapply reduce_run_updated_ok.
Qed.

(** ** Selections and resync requests *)

Definition touches_selection (a : ChatClientAction) : bool :=
  match a with
  | AReady _ | AWorkspaces _ | AWorkspaceSelect _ | AHistoryPending _ | AHistoryFailed _ | AHistory _ _
  | AConversationDeleted _ | AError _ => true
  | _ => false
  end.

Lemma selection_untouched s a s' :
  touches_selection a = false → reduceChatClientState s a = Some s' → selection_ok s → selection_ok s'.
Proof.
  destruct a; try done; intros _; cbn; unfold_reducer; intros H; repeat case_match; simplify_eq;
    intros []; constructor; assumption.
Qed.

Lemma error_after_history_not s e : selection_ok s → error_after_history s = Some (HistoryError e) → False.
Proof.
  intros [_ _ _ _ He]. unfold error_after_history, same_error. destruct (lastError s) as [[|e']|]; try (by destruct (historyError s)).
  rewrite (He e' eq_refl). by rewrite bool_decide_true.
Qed.

Lemma selection_after s a : selection_ok s → selection_ok (after_action s a).
Proof.
  intros Hok. unfold after_action.
  destruct (reduceChatClientState s a) as [s'|] eqn:Hr; cbn [default from_option Datatypes.id]; [|done].
  destruct (touches_selection a) eqn:Ea; [|by eapply selection_untouched].
  pose proof (error_after_history_not s) as Hno. pose proof Hok as [H1 H2 H3 H4 H5].
  destruct a; try done; cbn [reduceChatClientState] in Hr.
  - injection Hr as <-. by constructor.
  - injection Hr as <-. unfold reduce_workspaces. destruct (negb _); [|by constructor].
    split; try done. intros e He. by destruct (Hno e Hok He).
  - unfold reduce_workspace_select in Hr. case_bool_decide; [done|]. injection Hr as <-. by split.
  - unfold reduce_history_pending in Hr. case_bool_decide as Hw; [|done]. injection Hr as <-.
    split; try done; cbn. { by intros w [= <-]. } intros e He. by destruct (Hno e Hok He).
  - unfold reduce_history_failed in Hr. case_bool_decide as Hw; [|done]. injection Hr as <-.
    split; try done; cbn; by intros e [= <-].
  - unfold reduce_history in Hr. case_bool_decide as Hw; [|done]. cbn in Hr.
    destruct (existsb _ _) eqn:Ex; [done|]. injection Hr as <-. split; try done; cbn.
    + intros w [= <-]. split; [done|]. intros x Hx. apply not_true_iff_false in Ex.
      destruct (String.eqb_spec (cs_workspaceId x) workspaceId) as [|Hn]; [done|]. destruct Ex. apply existsb_exists.
      exists x. rewrite <-list_elem_of_In. split; [done|]. by apply negb_true_iff, String.eqb_neq.
    + intros e He. by destruct (Hno e Hok He).
  - injection Hr as <-. split; try done; cbn.
    + intros w Hw. destruct (H1 w Hw) as [? Hall]. split; [done|]. intros x [_ Hx]%list_elem_of_filter. auto.
    + intros Hw. by rewrite (H2 Hw).
  - injection Hr as <-. split; try done. cbn. by destruct error.
Qed.

Lemma includes_false x l : includes x l = false → x ∉ l.
Proof.
  unfold includes. intros H Hin. apply not_true_iff_false in H. destruct H. apply existsb_exists. exists x.
  by rewrite <-list_elem_of_In, String.eqb_eq.
Qed.

Lemma NoDup_snoc_new (x : string) l : NoDup l → x ∉ l → NoDup (l ++ [x]).
Proof.
  intros Hl Hx. apply NoDup_app. split_and!; [done| |apply NoDup_singleton].
  by intros y Hy ->%list_elem_of_singleton.
Qed.

Lemma resync_after s a :
  NoDup (resyncConversationIds s) ∧ NoDup (resyncJobRunIds s) →
  NoDup (resyncConversationIds (after_action s a)) ∧ NoDup (resyncJobRunIds (after_action s a)).
Proof.
  intros [H1 H2]. unfold after_action.
  destruct (reduceChatClientState s a) as [s'|] eqn:Hr; cbn [default from_option Datatypes.id]; [|done].
  revert Hr. destruct a; cbn; unfold_reducer; unfold reduce_jobs, reduce_deleted; intros Hr;
    repeat case_match; simplify_eq; cbn; auto using NoDup_filter, NoDup_snoc_new, includes_false.
Qed.

Lemma state_ok_after s a : state_ok s → runs_consistent a → state_ok (after_action s a).
Proof.
  intros [[Hk Hb] Hr Hs Hq] Hc. split; [split|..].
  - by apply keyed_after.
  - by apply (bounded_after s a).
  - by apply runs_after.
  - by apply selection_after.
  - by apply resync_after.
Qed.

Lemma state_ok_actions s l : state_ok s → Forall runs_consistent l → state_ok (after_actions s l).
Proof.
  revert s. induction l as [|a l IH]; intros s Hs; [done|]. intros [Ha Hl]%Forall_cons_1.
  apply IH; [|done]. by apply state_ok_after.
Qed.
End invariant.

(** ** Properties *)

(** A conversation and the events of its server, for concrete runs. *)
Definition sample_conversation : ConversationState := {|
  cv_id := "c"; cv_workspaceId := "w"; cv_sessionFile := "/s"; cv_title := "Chat"; cv_cwd := "/";
  cv_model := None; cv_status := Idle; cv_createdAt := JInt 0; cv_lastActiveAt := JInt 0; cv_revision := 4;
  cv_durable := true; cv_contextUsage := None; cv_messages := []; cv_queue := {| qs_steering := []; qs_followUp := [] |};
  cv_securityProfile := Unrestricted; cv_networkPolicy := None; cv_networkPolicySetId := "default";
  cv_effectiveNetworkPolicySetId := None; cv_effectiveHttpTools := []; cv_effectiveConversationTools := [];
  cv_owner := None |}.
Definition sample_log (w id : string) (revision : Z) : event_payload :=
  if revision =? 5 then StatusEvent Streaming
  else if revision =? 6 then MessageStarted (User {| um_entryId := "stream:1"; um_blocks := [UserText "hi"];
    um_timestamp := None; um_forkEligible := false |})
  else if revision =? 7 then MessageCompleted (User {| um_entryId := "e1"; um_blocks := [UserText "hi"];
    um_timestamp := None; um_forkEligible := true |}) None
  else StatusEvent Idle.
Definition sample_event (revision : Z) : ChatClientAction := AEvent (event_at sample_log sample_conversation revision).
Definition sample_summary : ConversationSummary := {|
  cs_id := "c"; cs_workspaceId := "w"; cs_sessionFile := "/s"; cs_title := "Renamed"; cs_cwd := "/";
  cs_createdAt := None; cs_modifiedAt := JInt 1; cs_messageCount := 1; cs_status := SumStreaming;
  cs_runnable := true; cs_owner := None |}.
Definition sample_client_run (revision : Z) : JobRunSummary := {|
  rs_id := "r"; rs_jobId := "j"; rs_trigger := Manual; rs_scheduledFor := 2000;
  rs_startedAt := None; rs_finishedAt := None; rs_status := Running; rs_phase := None;
  rs_errorCode := None; rs_errorMessage := None; rs_conversationId := None; rs_revision := revision;
  rs_createdAt := 2000; rs_updatedAt := 2000 |}.

(** Event 8 is lost, event 9 asks for a resync, a renamed history list arrives. *)
Definition sample_actions : list ChatClientAction :=
  [AReady "1"; AWorkspaceSelect (Some "w"); AJobRunUpdated (sample_client_run 3);
   AJobRuns (Some "j") [sample_client_run 4; sample_client_run 2] None false;
   ASnapshot sample_conversation; sample_event 5; sample_event 6; sample_event 6;
   sample_event 7; sample_event 9; AHistory "w" [sample_summary]].


(** C27: whatever the browser receives, in whatever order, lost or repeated, and
    whatever the user selects, a conversation on screen is a snapshot the
    server sent with exactly the next [n] events of the server applied, each
    once and in order; only its title may instead be one that a history list
    gave it. *)
Theorem projection_is_a_replay log actions id p :
  Forall (consistent log) actions →
  conversations (after_actions createInitialChatClientState actions) !! id = Some p →
  ∃ base n, ASnapshot base ∈ actions ∧ cv_id base = id ∧
    cv_revision (conversation p) = cv_revision base + Z.of_nat n ∧
    conversation p = (replay log base n) <| cv_title := cv_title (conversation p) |> ∧
    title_from actions id (cv_title (replay log base n)) (cv_title (conversation p)).
Proof.
  intros Hc Hp. destruct (replayed_actions log actions id p Hc Hp) as (base & n & Hb & Hi & E & Ht).
  exists base, n. split_and!; try done. rewrite E. apply (replay_identity log base n).
Qed.

Lemma projection_is_a_replay_witness :
  let shown := conversations (after_actions createInitialChatClientState sample_actions) !! "c" in
  (cv_title ∘ conversation <$> shown) = Some "Renamed" ∧ (cv_revision ∘ conversation <$> shown) = Some 7 ∧
  ((λ p, length (cv_messages (conversation p))) <$> shown) = Some 1%nat ∧
  ∃ base n, ASnapshot base ∈ sample_actions ∧ cv_id base = "c" ∧ 7 = cv_revision base + Z.of_nat n.
Proof.
  split_and!; [vm_compute; reflexivity..|].
  destruct (conversations (after_actions createInitialChatClientState sample_actions) !! "c") as [p|] eqn:Hp;
    [|vm_compute in Hp; discriminate].
  destruct (projection_is_a_replay sample_log sample_actions "c" p) as (base & n & Hin & Hid & Hr & _).
  - repeat (constructor; [vm_compute; exact I || reflexivity|]). constructor.
  - exact Hp.
  - exists base, n. split_and!; [exact Hin|exact Hid|]. rewrite <-Hr. vm_compute in Hp. injection Hp as <-. reflexivity.
Defined.

(** A snapshot brings any state up to date. Once one that is not older than
    the projection is received, its next [n] events, arriving in order among
    repeated ones and anything that does not concern the conversation, leave
    exactly the snapshot with those events applied on screen, and no resync is
    requested any more. *)
Lemma snapshot_catches_up log actions base l n :
  let s := after_actions createInitialChatClientState actions in
  isRevision (JInt (cv_revision base)) = true →
  cv_revision base + Z.of_nat n ≤ MAX_SAFE_INTEGER →
  (∀ p, conversations s !! cv_id base = Some p → cv_workspaceId (conversation p) = cv_workspaceId base →
     isRevision (JInt (cv_revision (conversation p))) = true ∧ cv_revision (conversation p) ≤ cv_revision base) →
  delivered log base l n →
  shown (after_actions s (ASnapshot base :: l)) (cv_id base) = Some (replay log base n) ∧
  cv_id base ∉ resyncConversationIds (after_actions s (ASnapshot base :: l)).
Proof.
  cbn zeta. intros Hr Hmax Hold Hd.
  destruct (snapshot_accepted _ base Hr Hold) as [Hs Hq].
  apply (delivered_keeps_up log (after_action _ (ASnapshot base)) base l n); try done.
  apply keyed_after, keyed_actions, keyed_init.
Qed.

Lemma snapshot_catches_up_witness :
  let s := after_actions createInitialChatClientState sample_actions in
  let base := sample_conversation <| cv_revision := 9 |> in
  shown (after_actions s [ASnapshot base; AEvent (event_at sample_log base 10)]) "c"
    = Some (replay sample_log base 1) ∧
  "c" ∉ resyncConversationIds (after_actions s [ASnapshot base; AEvent (event_at sample_log base 10)]) ∧
  resyncConversationIds s = ["c"].
Proof.
  cbn zeta. set (base := sample_conversation <| cv_revision := 9 |>).
  destruct (snapshot_catches_up sample_log sample_actions base
    ([] ++ [AEvent (event_at sample_log base (cv_revision base + Z.of_nat 0 + 1))]) 1) as [H1 H2].
  - reflexivity.
  - vm_compute. discriminate.
  - intros p Hp _. vm_compute in Hp. injection Hp as <-. split; [reflexivity|vm_compute; discriminate].
  - apply DeliveredNext, DeliveredNone.
  - split_and!; [exact H1|exact H2|vm_compute; reflexivity].
Defined.

Lemma merge_run_get runs run id r :
  runs !! id = Some r → ∃ r', merge_run runs run !! id = Some r' ∧ rs_revision r ≤ rs_revision r'.
Proof.
  intros Hr. unfold merge_run. destruct (decide (rs_id run = id)) as [<-|Hn].
  - rewrite Hr. destruct (Z.leb_spec (rs_revision r) (rs_revision run)); [|by exists r].
    exists run. by rewrite lookup_insert_eq.
  - exists r. split; [|lia]. repeat case_match; by rewrite ?lookup_insert_ne.
Qed.

Lemma merge_runs_get l runs id r :
  runs !! id = Some r → ∃ r', foldl merge_run runs l !! id = Some r' ∧ rs_revision r ≤ rs_revision r'.
Proof.
  revert runs r. induction l as [|run l IH]; intros runs r Hr; [by exists r|]. cbn.
  destruct (merge_run_get runs run id r Hr) as (r' & Hr' & ?). destruct (IH _ _ Hr') as (r'' & ? & ?).
  exists r''. split; [done|lia].
Qed.

(** A summary that replaces another is not older. *)
Lemma summary_not_older s a id r r' :
  jobRuns s !! id = Some r → jobRuns (after_action s a) !! id = Some r' → rs_revision r ≤ rs_revision r'.
Proof.
  intros Hr. unfold after_action.
  destruct (reduceChatClientState s a) as [s'|] eqn:Es; cbn [default from_option Datatypes.id];
    [|rewrite Hr; intros [= ->]; lia].
  destruct (touches_runs a) eqn:Ea;
    [|destruct (runs_untouched s a s' Ea Es) as (-> & _); rewrite Hr; intros [= ->]; lia].
  destruct a; try done; cbn [reduceChatClientState] in Es.
  - injection Es as <-. cbn. intros [H _]%map_lookup_filter_Some. rewrite Hr in H. injection H as ->. lia.
  - injection Es as <-. destruct (merge_runs_get runs _ _ _ Hr) as (q & Hq & Hle).
    replace (jobRuns (reduce_job_runs s jobId runs nextCursor append)) with (foldl merge_run (jobRuns s) runs)
      by (unfold reduce_job_runs; cbv zeta; by repeat case_match).
    rewrite Hq. by intros [= <-].
  - unfold reduce_job_run_state in Es. destruct (jobRuns s !! rs_id run) as [c|] eqn:Ec; cbn in Es.
    + destruct (Z.ltb_spec (rs_revision run) (rs_revision c)); [done|]. injection Es as <-. cbn.
      intros [[<- <-]|[Hn H']]%lookup_insert_Some; [|rewrite Hr in H'; injection H' as ->; lia].
      rewrite Hr in Ec. injection Ec as ->. lia.
    + injection Es as <-. cbn. intros [[<- <-]|[Hn H']]%lookup_insert_Some; [by rewrite Hr in Ec|].
      rewrite Hr in H'. injection H' as ->. lia.
  - unfold reduce_job_run_updated in Es. destruct (jobRuns s !! rs_id run) as [c|] eqn:Ec; cbn in Es.
    + destruct (Z.leb_spec (rs_revision run) (rs_revision c)); [done|]. destruct (negb _).
      { destruct (includes _ _); [done|]. injection Es as <-. cbn. rewrite Hr. intros [= ->]. lia. }
      injection Es as <-. destruct (jobRunDetails s !! rs_id run); cbn;
        (intros [[<- <-]|[Hn H']]%lookup_insert_Some; [rewrite Hr in Ec; injection Ec as ->; lia|
           rewrite Hr in H'; injection H' as ->; lia]).
    + injection Es as <-. destruct (jobRunDetails s !! rs_id run); cbn;
        (intros [[<- <-]|[Hn H']]%lookup_insert_Some; [by rewrite Hr in Ec|rewrite Hr in H'; injection H' as ->; lia]).
Qed.

Lemma snapshot_not_older s c s' p :
  reduce_snapshot s c = Some s' → conversations s !! cv_id c = Some p →
  cv_workspaceId (conversation p) = cv_workspaceId c → cv_revision (conversation p) ≤ cv_revision c.
Proof.
  unfold reduce_snapshot. intros Hr Hp Hw. rewrite Hp, Hw, String.eqb_refl in Hr. cbn [andb] in Hr.
  destruct (decideSnapshotRevision _ _) eqn:Ed; [|done]. apply decideSnapshotRevision_replace in Ed. apply Ed.
Qed.

Lemma projection_not_older s a id p p' :
  keyed s → conversations s !! id = Some p → conversations (after_action s a) !! id = Some p' →
  cv_workspaceId (conversation p') = cv_workspaceId (conversation p) →
  cv_revision (conversation p) ≤ cv_revision (conversation p').
Proof.
  intros Hk Hp Hp' Hw.
  destruct (action_came_from s a id p' Hk Hp') as [q Hq E|q w l x Hq _ _ _ E|c -> Hi E|q e Hq _ _ _ Hd E];
    try (rewrite Hp in Hq; injection Hq as <-).
  - by rewrite E.
  - by rewrite E.
  - subst c. unfold after_action in Hp'. cbn [reduceChatClientState] in Hp'.
    destruct (reduce_snapshot s (conversation p')) as [s'|] eqn:Er.
    + eapply snapshot_not_older; [done|by rewrite Hi|done].
    + cbn in Hp'. rewrite Hp in Hp'. by injection Hp' as <-.
  - rewrite E. apply decideEventRevision_apply in Hd as (_ & _ & Hd). cbn in Hd |- *. lia.
Qed.

(** A skipped revision asks for a resync and shows nothing of it. *)
Lemma gap_resyncs s e p :
  conversations s !! ev_conversationId e = Some p → cv_revision (conversation p) + 1 < ev_revision e →
  conversations (after_action s (AEvent e)) = conversations s ∧
  ev_conversationId e ∈ resyncConversationIds (after_action s (AEvent e)).
Proof.
  intros Hp Hgap. unfold after_action. cbn [reduceChatClientState].
  assert (Hr : reduce_event s e = requestResync s (ev_conversationId e)).
  { unfold reduce_event. rewrite Hp. destruct (negb _); [done|].
    assert (Hd : decideEventRevision (JInt (cv_revision (conversation p))) (JInt (ev_revision e)) = EvResync).
    { unfold decideEventRevision. cbn [num_val]. destruct (_ || _); [done|].
      destruct (Z.leb_spec (ev_revision e) (cv_revision (conversation p))); [lia|].
      by destruct (Z.eqb_spec (ev_revision e) (cv_revision (conversation p) + 1)); [lia|]. }
    by rewrite Hd. }
  rewrite Hr. unfold requestResync. destruct (includes _ _) eqn:E; cbn; (split; [done|]).
  - unfold includes in E. apply existsb_exists in E as (x & Hx & <-%String.eqb_eq). by apply list_elem_of_In.
  - apply elem_of_app. right. by left.
Qed.

Lemma run_gap_resyncs s run current :
  jobRuns s !! rs_id run = Some current → rs_revision current + 1 < rs_revision run →
  jobRuns (after_action s (AJobRunUpdated run)) = jobRuns s ∧
  run_key (rs_jobId run) (rs_id run) ∈ resyncJobRunIds (after_action s (AJobRunUpdated run)).
Proof.
  intros Hc Hgap. unfold after_action. cbn [reduceChatClientState]. unfold reduce_job_run_updated. rewrite Hc.
  destruct (Z.leb_spec (rs_revision run) (rs_revision current)); [lia|].
  destruct (Z.eqb_spec (rs_revision run) (rs_revision current + 1)); [lia|]. cbn [negb].
  destruct (includes _ _) eqn:E; cbn; (split; [done|]).
  - unfold includes in E. apply existsb_exists in E as (x & Hx & <-%String.eqb_eq). by apply list_elem_of_In.
  - apply elem_of_app. right. by left.
Qed.

(** Nothing on screen goes back, and nothing is skipped silently. One
    action, in any reachable state, never replaces a conversation of the same
    workspace or a run summary by an older one; an event or run update that
    skips a revision changes no projection and has a resync requested. *)
Lemma revisions_never_go_back actions a :
  let s := after_actions createInitialChatClientState actions in
  let s' := after_action s a in
  (∀ id p p', conversations s !! id = Some p → conversations s' !! id = Some p' →
     cv_workspaceId (conversation p') = cv_workspaceId (conversation p) →
     cv_revision (conversation p) ≤ cv_revision (conversation p')) ∧
  (∀ id r r', jobRuns s !! id = Some r → jobRuns s' !! id = Some r' → rs_revision r ≤ rs_revision r') ∧
  (∀ e p, a = AEvent e → conversations s !! ev_conversationId e = Some p →
     cv_revision (conversation p) + 1 < ev_revision e →
     conversations s' = conversations s ∧ ev_conversationId e ∈ resyncConversationIds s') ∧
  (∀ run current, a = AJobRunUpdated run → jobRuns s !! rs_id run = Some current →
     rs_revision current + 1 < rs_revision run →
     jobRuns s' = jobRuns s ∧ run_key (rs_jobId run) (rs_id run) ∈ resyncJobRunIds s').
Proof.
  cbn zeta. split_and!.
  - intros id p p'. apply projection_not_older, keyed_actions, keyed_init.
  - intros id r r'. apply summary_not_older.
  - intros e p ->. apply gap_resyncs.
  - intros run current ->. apply run_gap_resyncs.
Qed.

(** C40: the state stays well formed whatever happens: every projection is filed
    under its own identifier, with at most 100 notices and 50 blocked-network
    notices; diagnostics of a run are only kept with a summary at least as new;
    the history, a pending or failed history request and the error it shows
    belong to the selected workspace; no resync is requested twice. *)
Theorem client_state_invariant job_of actions :
  Forall (runs_consistent job_of) actions →
  let s := after_actions createInitialChatClientState actions in
  (∀ id p, conversations s !! id = Some p → cv_id (conversation p) = id ∧ bounded p) ∧
  (∀ id r, jobRuns s !! id = Some r → rs_id r = id) ∧
  (∀ id d, jobRunDetails s !! id = Some d → rs_id (st_summary d) = id ∧
     ∃ r, jobRuns s !! id = Some r ∧ rs_revision (st_summary d) ≤ rs_revision r) ∧
  selection_ok s ∧ NoDup (resyncConversationIds s) ∧ NoDup (resyncJobRunIds s).
Proof.
  intros Hc. destruct (state_ok_actions job_of _ actions (init_ok job_of) Hc) as [[Hk Hb] [Hr Hd] Hs [H1 H2]].
  cbn zeta. split_and!; try done.
  - intros id p Hp. split; [by apply Hk|by apply (Hb id)].
  - intros id r Hp. by apply Hr.
  - intros id d Hp. destruct (Hd id d Hp) as (? & _ & ?). done.
Qed.

Lemma client_state_invariant_witness :
  let s := after_actions createInitialChatClientState sample_actions in
  (rs_revision <$> jobRuns s !! "r") = Some 4 ∧ historyWorkspaceId s = Some "w" ∧
  NoDup (resyncConversationIds s).
Proof.
  split_and!; [vm_compute; reflexivity..|].
  apply (client_state_invariant (λ _, "j") sample_actions).
  repeat (constructor; [first [exact I|reflexivity|repeat constructor]|]). constructor.
Defined.
