(* ===== verification/Tasks.v ===== *)
(** Interleaved asynchronous functions over shared state. A task runs without
    interruption up to its next [await], other tasks run while it waits, and it
    continues in the state they left. Starting an async function adds a ready
    task, whose promise settles when it ends. [wpc] is a rely-guarantee logic
    for task bodies: an invariant holds of the shared state and of the claims
    the tasks own whenever any of them waits. *)
From S2P Require Import Prelude Programs.
#[local] Open Scope Z_scope.

(** A call as a program node shows it: with the shared state it is made in. *)
Definition at_state {S C : Type} (ans : C → Type) (sc : S * C) : Type := ans sc.2.
Definition task_prog {C} (ans : C → Type) (S V E : Type) : Type :=
  prog (at_state (S := S) ans) S (outcome V E V * S).
Definition task_stmt {C} (ans : C → Type) (S V E A : Type) : Type :=
  stmt (at_state (S := S) ans) S S V E A.

Section calls.
Context {C : Type} {ans : C → Type} {S V E : Type}.
(** Waiting: the state afterwards is the one found on resumption. *)
Definition await_ (c : C) : task_stmt ans S V E (ans c) := λ s, Vis (s, c) (λ r s', Ret (Next r, s')).
(** A synchronous call. *)
Definition port_ (c : C) : task_stmt ans S V E (ans c) := λ s, Vis (s, c) (λ r _, Ret (Next r, s)).
(** Reading and changing the shared state. *)
Definition gets_ {A} (f : S → A) : task_stmt ans S V E A := λ s, Ret (Next (f s), s).
Definition update_ (f : S → S) : task_stmt ans S V E unit := λ s, Ret (Next tt, f s).
End calls.

(** ** A pool of tasks *)

Section pool.
Context {C : Type} {ans : C → Type} {S V E T : Type}.
(** Which calls are awaited, which answers they may get in a state, the body of
    a task, the tasks started in a state (as promise and task), taking one of
    them, and settling a promise. *)
Context (awaited : C → bool) (enabled : S → ∀ c, ans c → Prop).
Context (body : T → task_stmt ans S V E V).
Context (ready : S → gmap nat T) (unready : nat → S → S) (settle : nat → outcome V E V → S → S).

Notation prog := (task_prog ans S V E).

Record pool := Pool { shared : S; waiting : gmap nat prog }.

(** Running to the next await or to the end, against the answers given. *)
Inductive segment : prog → prog → Prop :=
| SegmentEnd o s : segment (Ret (o, s)) (Ret (o, s))
| SegmentAwait s c k : awaited c = true → segment (Vis (s, c) k) (Vis (s, c) k)
| SegmentSync s c k r p :
    awaited c = false → enabled s c r → segment (k r s) p → segment (Vis (s, c) k) p.

(** The pool after task [i] ran a segment. *)
Definition park (i : nat) (p : prog) (rest : gmap nat prog) : pool :=
  match p with
  | Ret (o, s) => Pool (settle i o s) rest
  | Vis sc k => Pool sc.1 (<[i := p]> rest)
  end.

Inductive pool_step : pool → pool → Prop :=
| StepBegin i t s rest p :
    ready s !! i = Some t → rest !! i = None → segment (body t (unready i s)) p →
    pool_step (Pool s rest) (park i p rest)
| StepResume i s0 c k s rest r p :
    rest !! i = Some (Vis (s0, c) k) → enabled s c r → segment (k r s) p →
    pool_step (Pool s rest) (park i p (delete i rest)).

(** ** Execution *)

(** A stretch against given answers. *)
Fixpoint run_segment (answers : ∀ c, ans c) (p : prog) : prog :=
  match p with
  | Ret _ => p
  | Vis sc k => if awaited sc.2 then p else run_segment answers (k (answers sc.2) sc.1)
  end.

Lemma run_segment_sound answers p :
  (∀ s c, awaited c = false → enabled s c (answers c)) → segment p (run_segment answers p).
Proof.
  intros Hen. induction p as [[o s]|[s c] k IH]; cbn; [constructor|].
  destruct (awaited c) eqn:Ha; [by constructor|]. econstructor; [done|by apply Hen|apply IH].
Qed.

(** Letting task [i] go on, against the answers to synchronous calls and those
    that an awaited call can get by now. *)
Definition go (answers : ∀ c, ans c) (resume : S → ∀ c, option (ans c)) (σ : pool) (i : nat) : option pool :=
  let s := shared σ in
  match waiting σ !! i with
  | Some (Vis sc k) =>
      r ← resume s sc.2; Some (park i (run_segment answers (k r s)) (delete i (waiting σ)))
  | Some (Ret _) => None
  | None => t ← ready s !! i; Some (park i (run_segment answers (body t (unready i s))) (waiting σ))
  end.

Lemma go_sound answers resume σ i σ' :
  (∀ s c, awaited c = false → enabled s c (answers c)) → (∀ s c r, resume s c = Some r → enabled s c r) →
  go answers resume σ i = Some σ' → pool_step σ σ'.
Proof.
  intros Hen Hres. destruct σ as [s w]. unfold go. cbn. destruct (w !! i) as [[|[s0 c] k]|] eqn:Ei; [done|..].
  - intros (r & Er & [= <-])%bind_Some. econstructor; [done|by apply Hres|by apply run_segment_sound].
  - intros (t & Et & [= <-])%bind_Some. econstructor; [done|done|by apply run_segment_sound].
Qed.

(** ** The logic *)

(** Claims, the invariant, and what one segment may do. *)
Context {K A : Type} `{Countable K}.
Context (J : S → gmap K A → Prop) (G : S → S → Prop) `{!PreOrder G}.
Implicit Types (own frame X : gmap K A).

(** [wpc start frame p Q]: the program, whose current segment began in [start],
    keeps to the invariant while the other tasks own [frame], and ends in [Q]. *)
Fixpoint wpc {R} (start : S) (frame : gmap K A) (p : Programs.prog (at_state ans) S (outcome V E R * S))
    (Q : outcome V E R → S → S → gmap K A → Prop) : Prop :=
  match p with
  | Ret (o, s) => Q o start s frame
  | Vis sc k =>
      if awaited sc.2 then
        ∃ own, own ##ₘ frame ∧ J sc.1 (own ∪ frame) ∧ G start sc.1 ∧
          ∀ r s' frame', own ##ₘ frame' → J s' (own ∪ frame') → G sc.1 s' → enabled s' sc.2 r →
            wpc s' frame' (k r s') Q
      else ∀ r, enabled sc.1 sc.2 r → wpc start frame (k r sc.1) Q
  end.

Lemma wpc_segment start frame p p' Q : segment p p' → wpc start frame p Q → wpc start frame p' Q.
Proof.
  induction 1 as [o s|s c k Ha|s c k r p Ha Hr Hs IH]; [done|done|]. cbn. rewrite Ha. intros Hw. apply IH, Hw, Hr.
Qed.

(** A task with promise [i] ends where the invariant holds without its claims. *)
Definition ends (i : nat) (o : outcome V E V) (start s : S) (frame : gmap K A) : Prop :=
  J (settle i o s) frame ∧ G start (settle i o s).

Definition body_ok (i : nat) (t : T) : Prop :=
  ∀ s frame, J s frame → ready s !! i = Some t → wpc s frame (body t (unready i s)) (ends i).

(** A waiting task is ready to go on from wherever the others lead. *)
Definition waits_ok (i : nat) (own : gmap K A) (now : S) (p : prog) : Prop :=
  match p with
  | Ret _ => False
  | Vis sc k =>
      awaited sc.2 = true ∧ G sc.1 now ∧
      ∀ r s' frame', own ##ₘ frame' → J s' (own ∪ frame') → G sc.1 s' → enabled s' sc.2 r →
        wpc s' frame' (k r s') (ends i)
  end.

(** The claims [X] and the task that owns each. *)
Definition mine (who : K → nat) (i : nat) X : gmap K A := filter (λ p, who p.1 = i) X.
Definition others (who : K → nat) (i : nat) X : gmap K A := filter (λ p, who p.1 ≠ i) X.

Lemma mine_others_disjoint who i X : mine who i X ##ₘ others who i X.
Proof. apply map_disjoint_filter_complement. Qed.
Lemma mine_others_union who i X : mine who i X ∪ others who i X = X.
Proof. apply map_filter_union_complement. Qed.

Definition pool_ok (σ : pool) : Prop :=
  ∃ X who, J (shared σ) X ∧ (∀ k a, X !! k = Some a → is_Some (waiting σ !! who k)) ∧
    ∀ i p, waiting σ !! i = Some p → waits_ok i (mine who i X) (shared σ) p.

Lemma waits_ok_later i own now now' p : G now now' → waits_ok i own now p → waits_ok i own now' p.
Proof.
  intros Hg. destruct p as [|sc k]; [done|]. intros (Ha & Hg' & Hk). split; [done|].
  split; [|done]. exact (transitivity Hg' Hg).
Qed.

(** A segment ends at an await or at the end. *)
Definition parked (p : prog) : Prop := match p with Ret _ => True | Vis sc _ => awaited sc.2 = true end.
Lemma segment_parked p p' : segment p p' → parked p'.
Proof. by induction 1. Qed.

(** Parking a task that ran one good segment from [s], the others owning [X]. *)
Lemma park_ok i p s rest X who :
  rest !! i = None → (∀ k a, X !! k = Some a → is_Some (rest !! who k)) →
  (∀ j q, rest !! j = Some q → waits_ok j (mine who j X) s q) →
  wpc s X p (ends i) → parked p →
  pool_ok (park i p rest) ∧ G s (shared (park i p rest)).
Proof.
  intros Hi Hown Hrest Hw Hs. destruct p as [[o s1]|[s1 c] k]; cbn in *.
  - destruct Hw as [HJ HG]. split; [|done]. exists X, who. split_and!; [done..|].
    intros j q Hq. eapply waits_ok_later; [done|auto].
  - rewrite Hs in Hw. destruct Hw as (own & Hd & HJ & HG & Hk). split; [|done].
    set (who' := λ k, if decide (is_Some (own !! k)) then i else who k).
    assert (HX : ∀ k a, X !! k = Some a → who' k = who k).
    { intros k0 a Hk0. unfold who'. rewrite decide_False; [done|]. intros [b Hb].
      by eapply map_disjoint_spec. }
    assert (Hmine : mine who' i (own ∪ X) = own).
    { apply map_eq. intros k0. unfold mine. apply option_eq. intros a. rewrite map_lookup_filter_Some.
      rewrite lookup_union_Some by done. split.
      - intros [[Ho|Hx] Ew]; [done|]. cbn in Ew. rewrite (HX _ _ Hx) in Ew. destruct (Hown _ _ Hx) as [q Hq].
        rewrite Ew in Hq. congruence.
      - intros Ho. split; [by left|]. cbn. unfold who'. by rewrite decide_True. }
    assert (Hothers : ∀ j, j ≠ i → mine who' j (own ∪ X) = mine who j X).
    { intros j Hj. apply map_eq. intros k0. unfold mine. apply option_eq. intros a.
      rewrite !map_lookup_filter_Some, lookup_union_Some by done. cbn. split.
      - intros [[Ho|Hx] Ew]; [|by rewrite (HX _ _ Hx) in Ew]. unfold who' in Ew. by rewrite decide_True in Ew.
      - intros [Hx Ew]. split; [by right|]. by rewrite (HX _ _ Hx). }
    exists (own ∪ X), who'. cbn. split_and!; [done|..].
    + intros k0 a [Ho|Hx]%lookup_union_Some; [| |done].
      * unfold who'. rewrite decide_True by done. rewrite lookup_insert_eq. done.
      * rewrite (HX _ _ Hx). destruct (Hown _ _ Hx) as [q Hq]. destruct (decide (i = who k0)) as [Ei|]; [rewrite Ei in Hi; congruence|].
        rewrite lookup_insert_ne by done. done.
    + intros j q Hq. apply lookup_insert_Some in Hq as [[<- <-]|[Hn Hq]].
      * rewrite Hmine. split_and!; [done..|]. cbn. exact Hk.
      * rewrite Hothers by done. eapply waits_ok_later; [done|auto].
Qed.

Theorem pool_step_ok σ σ' :
  (∀ i t, body_ok i t) → pool_ok σ → pool_step σ σ' → pool_ok σ' ∧ G (shared σ) (shared σ').
Proof.
  intros Hbody (X & who & HJ & Hown & Hwait) Hstep.
  destruct Hstep as [i t s rest p Hready Hfree Hseg|i s0 c k s rest r p Hi Hen Hseg]; cbn in *.
  - apply (park_ok i p s rest X who); [done..| |by eapply segment_parked].
    eapply wpc_segment; [done|]. by apply Hbody.
  - destruct (Hwait i _ Hi) as (Ha & HG & Hk). cbn in *.
    apply (park_ok i p s (delete i rest) (others who i X) who).
    + by rewrite lookup_delete_eq.
    + intros k0 a [Hx Ew]%map_lookup_filter_Some. cbn in Ew. rewrite lookup_delete_ne by done. by eapply Hown.
    + intros j q [Hn Hq]%lookup_delete_Some. replace (mine who j (others who i X)) with (mine who j X).
      { by apply Hwait. }
      apply map_eq. intros k0. apply option_eq. intros a. unfold mine, others.
      rewrite !map_lookup_filter_Some. cbn. naive_solver.
    + eapply wpc_segment; [done|]. apply Hk; [apply mine_others_disjoint|by rewrite mine_others_union|done|done].
    + by eapply segment_parked.
Qed.

(** Other code changes the shared state. *)
Lemma pool_ok_env σ s' :
  (∀ X, J (shared σ) X → J s' X) → G (shared σ) s' → pool_ok σ → pool_ok (Pool s' (waiting σ)).
Proof.
  intros HJ HG (X & who & HX & Hown & Hwait). exists X, who. split_and!; [by apply HJ|done|].
  intros i p Hp. eapply waits_ok_later; [done|by apply Hwait].
Qed.

(** Every pool reached from a good one is good, and so is every step on the way. *)
Theorem pool_reachable_ok σ σ' :
  (∀ i t, body_ok i t) → pool_ok σ → rtc pool_step σ σ' → pool_ok σ' ∧ G (shared σ) (shared σ').
Proof.
  intros Hbody Hok Hr. induction Hr as [σ|σ σ1 σ2 Hs Hr IH]; [split; [done|reflexivity]|].
  destruct (pool_step_ok _ _ Hbody Hok Hs) as [Hok1 HG1]. destruct (IH Hok1) as [Hok2 HG2].
  split; [done|]. exact (transitivity HG1 HG2).
Qed.
End pool.

(** ** Statements *)

Section statements.
Context {C : Type} {ans : C → Type} {S V E : Type}.
Context {awaited : C → bool} {enabled : S → ∀ c, ans c → Prop}.
Context {K B : Type} `{Countable K}.
Context {J : S → gmap K B → Prop} {G : S → S → Prop} `{!PreOrder G}.
Notation stmt := (task_stmt ans S V E).
Notation wpc := (wpc (V := V) (E := E) awaited enabled J G).
(** An assertion: the state the segment began in, the state, the others' claims. *)
Notation assertion := (S → S → gmap K B → Prop).
Implicit Types (own frame : gmap K B).

Lemma wpc_mono {R} start frame p (Q Q' : outcome V E R → assertion) :
  (∀ o st s f, Q o st s f → Q' o st s f) → wpc start frame p Q → wpc start frame p Q'.
Proof.
  intros HQ. revert start frame. induction p as [[o s]|[s c] k IH]; intros start frame; cbn; [apply HQ|].
  destruct (awaited c); [|intros Hk r Hr; by apply IH, Hk].
  intros (own & Hd & HJ & HG & Hk). exists own. split_and!; [done..|]. intros r s' f' ????. by apply IH, Hk.
Qed.

Lemma wpc_bind {R R'} start frame p (f : outcome V E R * S → Programs.prog (at_state ans) S (outcome V E R' * S))
    (Q : outcome V E R' → assertion) :
  wpc start frame p (λ o st s fr, wpc st fr (f (o, s)) Q) → wpc start frame (prog_bind p f) Q.
Proof.
  revert start frame. induction p as [[o s]|[s c] k IH]; intros start frame; cbn; [done|].
  destruct (awaited c); [|intros Hk r Hr; by apply IH, Hk].
  intros (own & Hd & HJ & HG & Hk). exists own. split_and!; [done..|]. intros r s' f' ????. by apply IH, Hk.
Qed.

(** A statement started in [P] falls through in [Q], returns in [D], throws in [T]. *)
Definition triple (D : V → assertion) (T : E → assertion) {R} (P : assertion) (m : stmt R) (Q : R → assertion) : Prop :=
  ∀ st s f, P st s f → wpc st f (m s) (λ o st' s' f',
    match o with Next x => Q x st' s' f' | Return v => D v st' s' f' | Throw e => T e st' s' f' end).

(** Owning [own] at a point where the invariant holds, and knowing [φ]. *)
Definition holds own (φ : S → Prop) : assertion := λ st s f, own ##ₘ f ∧ J s (own ∪ f) ∧ G st s ∧ φ s.

Context {D : V → assertion} {T : E → assertion}.
Notation spec := (triple D T).

Lemma triple_ret {R} (x : R) (P : assertion) (Q : R → assertion) :
  (∀ st s f, P st s f → Q x st s f) → spec P (mret x) Q.
Proof. intros HQ st s f HP. cbn. auto. Qed.
Lemma triple_return {R} v (P : assertion) (Q : R → assertion) :
  (∀ st s f, P st s f → D v st s f) → spec P (λ s, Ret (Return v, s)) Q.
Proof. intros HQ st s f HP. cbn. auto. Qed.
Lemma triple_throw {R} e (P : assertion) (Q : R → assertion) :
  (∀ st s f, P st s f → T e st s f) → spec P (throw_ e) Q.
Proof. intros HQ st s f HP. cbn. auto. Qed.
Lemma triple_gets {R} (g : S → R) (P : assertion) : spec P (gets_ g) (λ x st s f, P st s f ∧ x = g s).
Proof. intros st s f HP. cbn. auto. Qed.
Lemma triple_update g (P : assertion) (Q : unit → assertion) :
  (∀ st s f, P st s f → Q tt st (g s) f) → spec P (update_ g) Q.
Proof. intros HQ st s f HP. cbn. auto. Qed.
Lemma triple_bind {R R'} (m : stmt R) (k : R → stmt R') P Q Q' :
  spec P m Q → (∀ x, spec (Q x) (k x) Q') → spec P (m ≫= k) Q'.
Proof.
  intros Hm Hk st s f HP. unfold mbind, stmt_bind. apply wpc_bind. eapply wpc_mono; [|by apply Hm].
  intros [x|v|e] st' s' f'; cbn; [apply Hk|done|done].
Qed.
Lemma triple_weaken {R} (P P' : assertion) (m : stmt R) (Q Q' : R → assertion) :
  (∀ st s f, P st s f → P' st s f) → (∀ x st s f, Q' x st s f → Q x st s f) → spec P' m Q' → spec P m Q.
Proof. intros HP HQ Hm st s f Ha. eapply wpc_mono; [|apply Hm; auto]. intros [x|v|e] st' s' f'; auto. Qed.
Lemma triple_pre {R} (P P' : assertion) (m : stmt R) Q :
  (∀ st s f, P st s f → P' st s f) → spec P' m Q → spec P m Q.
Proof. intros HP. by apply triple_weaken. Qed.
Lemma triple_exists {R X} (P : X → assertion) (m : stmt R) Q :
  (∀ x, spec (P x) m Q) → spec (λ st s f, ∃ x, P x st s f) m Q.
Proof. intros HP st s f [x Hx]. by apply (HP x). Qed.
Lemma triple_pure {R} (φ : Prop) (P : assertion) (m : stmt R) Q :
  (φ → spec P m Q) → spec (λ st s f, P st s f ∧ φ) m Q.
Proof. intros HP st s f [Hx Hφ]. by apply (HP Hφ). Qed.
Lemma triple_pure_l {R} (φ : Prop) (P : assertion) (m : stmt R) Q :
  (φ → spec P m Q) → spec (λ st s f, φ ∧ P st s f) m Q.
Proof. intros HP st s f [Hφ Hx]. by apply (HP Hφ). Qed.
Lemma triple_port c (P : assertion) :
  awaited c = false → spec P (port_ c) (λ r st s f, P st s f ∧ enabled s c r).
Proof. intros Ha st s f HP. cbn. rewrite Ha. auto. Qed.
Lemma triple_await c own (φ : S → Prop) (ψ : ans c → S → Prop) :
  awaited c = true → (∀ s s' r, φ s → G s s' → enabled s' c r → ψ r s') →
  spec (holds own φ) (await_ c) (λ r, holds own (ψ r)).
Proof.
  intros Ha Hψ st s f (Hd & HJ & HG & Hφ). cbn. rewrite Ha. exists own. split_and!; [done..|].
  intros r s' f' Hd' HJ' HG' He. cbn. split_and!; [done|done|reflexivity|eauto].
Qed.
Lemma triple_if {R} (b : bool) P (m1 m2 : stmt R) Q :
  (b = true → spec P m1 Q) → (b = false → spec P m2 Q) → spec P (if b then m1 else m2) Q.
Proof. destruct b; auto. Qed.
End statements.

Section handlers.
Context {C : Type} {ans : C → Type} {S V E : Type}.
Context {awaited : C → bool} {enabled : S → ∀ c, ans c → Prop}.
Context {K B : Type} `{Countable K}.
Context {J : S → gmap K B → Prop} {G : S → S → Prop} `{!PreOrder G}.
Notation stmt := (task_stmt ans S V E).
Notation assertion := (S → S → gmap K B → Prop).
Notation triple := (triple (awaited := awaited) (enabled := enabled) (J := J) (G := G)).

Lemma triple_try {R} (D : V → assertion) (T T' : E → assertion) (P : assertion) (m : stmt R) h Q :
  triple D T P m Q → (∀ e, triple D T' (T e) (h e) Q) → triple D T' P (try_ m h) Q.
Proof.
  intros Hm Hh st s f HP. unfold try_. apply wpc_bind. eapply wpc_mono; [|by apply Hm].
  intros [x|v|e] st' s' f'; cbn; [done|done|]. apply Hh.
Qed.

(** [finally]: its body only falls through, after any way of leaving [m]. *)
Lemma triple_finally {R} (D D' : V → assertion) (T T' : E → assertion) (P : assertion) (m : stmt R) fin Q Q' :
  triple D' T' P m Q' →
  (∀ x, triple (λ _ _ _ _, False) (λ _ _ _ _, False) (Q' x) fin (λ _, Q x)) →
  (∀ v, triple (λ _ _ _ _, False) (λ _ _ _ _, False) (D' v) fin (λ _, D v)) →
  (∀ e, triple (λ _ _ _ _, False) (λ _ _ _ _, False) (T' e) fin (λ _, T e)) →
  triple D T P (finally_ m fin) Q.
Proof.
  intros Hm HQ HD HT st s f HP. unfold finally_. apply wpc_bind. eapply wpc_mono; [|by apply Hm].
  intros [x|v|e] st' s' f' Ho; cbn; apply wpc_bind;
    [eapply wpc_mono; [|by apply HQ]|eapply wpc_mono; [|by apply HD]|eapply wpc_mono; [|by apply HT]];
    by intros [] st2 s2 f2; cbn.
Qed.
End handlers.
