(* ===== verification/TaskRules.v ===== *)
(** Rules for task bodies ([Tasks]) that leave the claims of their task alone:
    bodies that only read, and bodies that keep the invariant and the guarantee
    whatever the task owns and whatever stable fact it relies on. *)
From S2P Require Import Prelude Programs Tasks.

Section assertions.
Context {S K B : Type} `{Countable K} {J : S → gmap K B → Prop} {G : S → S → Prop}.
Notation holds := (holds (J := J) (G := G)).

Lemma holds_and own (φ ψ : S → Prop) st s f : holds own (λ s, φ s ∧ ψ s) st s f ↔ holds own φ st s f ∧ ψ s.
Proof. unfold Tasks.holds. naive_solver. Qed.
Lemma holds_mono own (φ ψ : S → Prop) st s f : (∀ s, φ s → ψ s) → holds own φ st s f → holds own ψ st s f.
Proof. intros Hφ (? & ? & ? & ?). split_and!; auto. Qed.
End assertions.

Section rules.
Context {C : Type} {ans : C → Type} {S V E : Type}.
Context {awaited : C → bool} {enabled : S → ∀ c, ans c → Prop}.
Context {K B : Type} `{Countable K}.
Context {J : S → gmap K B → Prop} {G : S → S → Prop} `{!PreOrder G}.
Notation stmt := (task_stmt ans S V E).
Notation assertion := (S → S → gmap K B → Prop).
Notation triple := (triple (awaited := awaited) (enabled := enabled) (J := J) (G := G) (V := V) (E := E)).
Notation holds := (holds (J := J) (G := G)).
Implicit Types (φ ψ : S → Prop).

(** A fact that other tasks cannot make false. *)
Definition stable φ : Prop := ∀ s s', φ s → G s s' → φ s'.

Lemma stable_and φ ψ : stable φ → stable ψ → stable (λ s, φ s ∧ ψ s).
Proof. intros Hφ Hψ s s' [? ?] Hg. split; [by eapply Hφ|by eapply Hψ]. Qed.

Definition never : V → assertion := λ _ _ _ _, False.

(** [m] changes nothing. *)
Definition reads {A} (m : stmt A) : Prop := ∀ P, triple never (λ _, P) P m (λ _, P).
(** [m] keeps to the invariant where [ψ] holds. *)
Definition under {A} ψ (m : stmt A) : Prop := ∀ own φ, stable φ → (∀ s, φ s → ψ s) →
  triple never (λ _, holds own φ) (holds own φ) m (λ _, holds own φ).
Definition neutral {A} (m : stmt A) : Prop := ∀ own φ, stable φ →
  triple never (λ _, holds own φ) (holds own φ) m (λ _, holds own φ).
(** Likewise, and never throws. *)
Definition quiet (m : stmt unit) : Prop := ∀ own φ, stable φ →
  triple never (λ _ _ _ _, False) (holds own φ) m (λ _, holds own φ).
(** A change of state that keeps the invariant whoever owns what. *)
Definition kept (f : S → S) : Prop := ∀ s X, J s X → J (f s) X ∧ G s (f s).

Lemma reads_ret {A} (x : A) : reads (mret x).
Proof. intros P. by apply triple_ret. Qed.
Lemma reads_throw {A} e : reads (throw_ e : stmt A).
Proof. intros P. by apply triple_throw. Qed.
Lemma reads_lift {A} (r : result E A) : reads (lift_ r).
Proof. destruct r; [apply reads_ret|apply reads_throw]. Qed.
Lemma reads_gets {A} (g : S → A) : reads (gets_ g).
Proof. intros P. eapply triple_weaken; [done| |apply triple_gets]. intros x st s f [? _]. done. Qed.
Lemma reads_port c : awaited c = false → reads (port_ c).
Proof. intros Hc P. eapply triple_weaken; [done| |by apply triple_port]. intros x st s f [? _]. done. Qed.
Lemma reads_bind {A A'} (m : stmt A) (k : A → stmt A') : reads m → (∀ x, reads (k x)) → reads (m ≫= k).
Proof. intros Hm Hk P. eapply triple_bind; [apply Hm|]. intros x. apply Hk. Qed.
Lemma reads_try {A} (m : stmt A) h : reads m → (∀ e, reads (h e)) → reads (try_ m h).
Proof. intros Hm Hh P. eapply triple_try; [apply Hm|]. intros e. apply Hh. Qed.

Lemma neutral_reads {A} (m : stmt A) : reads m → neutral m.
Proof. intros Hm own φ _. apply Hm. Qed.
Lemma neutral_bind {A A'} (m : stmt A) (k : A → stmt A') : neutral m → (∀ x, neutral (k x)) → neutral (m ≫= k).
Proof. intros Hm Hk own φ Hφ. eapply triple_bind; [by apply Hm|]. intros x. by apply Hk. Qed.
Lemma neutral_try {A} (m : stmt A) h : neutral m → (∀ e, neutral (h e)) → neutral (try_ m h).
Proof. intros Hm Hh own φ Hφ. eapply triple_try; [by apply Hm|]. intros e. by apply Hh. Qed.
Lemma neutral_finally {A} (m : stmt A) fin : neutral m → quiet fin → neutral (finally_ m fin).
Proof.
  intros Hm Hf own φ Hφ. eapply (triple_finally _ never _ (λ _, holds own φ)); [by apply Hm|..].
  - intros x. by apply Hf.
  - by intros v st s f.
  - intros e. by apply Hf.
Qed.

Lemma triple_await_stable c own φ : awaited c = true → stable φ →
  triple never (λ _ _ _ _, False) (holds own φ) (await_ c) (λ r, holds own (λ s, φ s ∧ enabled s c r)).
Proof. intros Hc Hφ. apply triple_await; [done|]. intros s s' r Hs Hg He. split; [by eapply Hφ|done]. Qed.
Lemma quiet_await c : awaited c = true → ∀ own φ, stable φ →
  triple never (λ _ _ _ _, False) (holds own φ) (await_ c) (λ _, holds own φ).
Proof.
  intros Hc own φ Hφ. eapply triple_weaken; [done| |by apply triple_await_stable]. intros r st s f.
  apply holds_mono. by intros ? [? _].
Qed.
Lemma triple_quiet {A : Type} (D : V → assertion) (T : E → assertion) (P : assertion) (m : stmt A) (Q : A → assertion) :
  triple never (λ _ _ _ _, False) P m Q → triple D T P m Q.
Proof. intros Hm st s f HP. eapply wpc_mono; [|by apply Hm]. by intros [x|v|e] ???. Qed.
Lemma neutral_await c : awaited c = true → neutral (await_ c).
Proof. intros Hc own φ Hφ. by apply triple_quiet, quiet_await. Qed.
Lemma neutral_quiet m : quiet m → neutral m.
Proof. intros Hm own φ Hφ. by apply triple_quiet, Hm. Qed.
Lemma quiet_bind m k : quiet m → (∀ x, quiet (k x)) → quiet (m ≫= k).
Proof. intros Hm Hk own φ Hφ. eapply triple_bind; [by apply Hm|]. intros x. by apply Hk. Qed.

Lemma holds_kept f own φ st s fr : kept f → stable φ → holds own φ st s fr → holds own φ st (f s) fr.
Proof.
  intros Hf Hφ (Hd & HI & Hg & Hs). destruct (Hf _ _ HI) as [HI' Hg']. split_and!; [done..|by etrans|by eapply Hφ].
Qed.
Lemma quiet_update f : kept f → quiet (update_ f).
Proof. intros Hf own φ Hφ. apply triple_update. intros st s fr. by apply holds_kept. Qed.
Lemma neutral_update f : kept f → neutral (update_ f).
Proof. intros Hf. by apply neutral_quiet, quiet_update. Qed.
Lemma kept_compose f g : kept f → kept g → kept (λ s, g (f s)).
Proof.
  intros Hf Hg s X HJ. destruct (Hf s X HJ) as [HJ1 HG1]. destruct (Hg _ _ HJ1) as [HJ2 HG2].
  split; [done|]. exact (transitivity HG1 HG2).
Qed.

(** A change of state that keeps the invariant where a fact holds, which the
    test before it established. *)
Lemma triple_update_kept f own φ st s fr :
  (∀ X, J s X → φ s → J (f s) X ∧ G s (f s)) → stable φ → holds own φ st s fr → holds own φ st (f s) fr.
Proof.
  intros Hf Hφ (Hd & HI & Hg & Hs). destruct (Hf _ HI Hs) as [HI' Hg']. split_and!; [done..|by etrans|by eapply Hφ].
Qed.
End rules.
#[global] Arguments stable {S} G φ.
