(* ===== verification/SocketClient.v ===== *)
(** The browser's connection ([src/web/src/api/client.ts]): the state of a
    [ChatSocketClient] and the tasks that act on it. A socket event, a timer, a
    call of a method and the continuation of an async function are tasks of a
    pool ([Tasks]); the socket, the wire codec and the request identifiers are
    ports. The state also holds what the platform keeps for the client: its
    live timers, the sockets it listens to, and the promises it settled. *)
From S2P Require Import Prelude JsValues Texts Errors Programs Jobs Protocol ClientState Tasks.
#[local] Open Scope string_scope. #[local] Open Scope Z_scope.

(** ** Errors *)

(** [OtherError None] is a thrown value that is no [Error]. *)
(** src/web/src/api/client.ts:47-61 ChatCommandError *)
Inductive client_error :=
| ChatCommandError (code : ErrorCode) (message : string) (requestId : option string)
| ChatTransportError (message : string)
| OtherError (message : option string).

(** [error instanceof Error ? error.message : fallback] *)
Definition message_or (fallback : string) (e : client_error) : string :=
  match e with
  | ChatCommandError _ message _ | ChatTransportError message | OtherError (Some message) => message
  | OtherError None => fallback
  end.

(** ** State *)

(** src/web/src/api/client.ts:31-36 PendingCommand. Resolving and rejecting are
    those of the promise. *)
Record PendingCommand := { pc_command : ClientCommand; pc_promise : nat; pc_timer : nat }.

(** What a live timer does when it fires: reject the promise of a request, or
    open a new socket. *)
Inductive timer :=
| CommandTimer (requestId : string) (promise : nat)
| ReconnectTimer (delay : Z).

(** What arrives in a message event: [Text] carries the frame. *)
Inductive frame := NotText | Text (data : string).
(** What [JSON.parse] and the schema check make of a text. *)
Inductive decoded := InvalidJson | InvalidMessage | Decoded (message : ServerMessage).

(** What a recovery captured when it began. *)
(** src/web/src/api/client.ts:593-597 recover *)
Record recovery := {
  rv_generation : Z; rv_selectionRevision : Z; rv_workspaceId : option string;
  rv_conversationId : option string; rv_jobId : option string; rv_jobRunId : option string;
}.

(** The tasks: calls of methods, events of a socket, timers, and the rest of
    functions that were started without being awaited. *)
Inductive client_task :=
| TConnect | TDisconnect
| TSend (input : ClientCommandInput)
| TSelectWorkspace (workspaceId : option string)
| TSelectJob (jobId : option string)
| TSelectJobRun (runId : option string)
| TLoadJobRuns (jobId : string) (cursor : option string)
| TLoadJobRun (jobId runId : string)
| TOpenGenerated (workspaceId conversationId : string)
| TSelectConversation (conversationId : option string)
| TSetDraft (conversationId text : string)
| TClearDraft (conversationId : string)
| TDismissNetworkBlocked (conversationId : string)
| TForkConversation (conversationId entry : string)
| TRewindConversation (conversationId entry : string)
| TReload
| TSocketMessage (socket : nat) (data : frame)
| TSocketClosed (socket : nat)
| TSocketError (socket : nat)
| TTimer (t : nat)
| TRecovering (r : recovery) (promise : nat)
| TResyncing (conversationId : string) (promise : nat)
| TResyncingJobRun (key : string) (promise : nat).

(** What a promise settles with. *)
Inductive client_value := VUnit | VBool (b : bool) | VMessage (m : ServerMessage).

(** src/web/src/api/client.ts:132-150 ChatSocketClient *)
Record client := {
  sc_state : ChatClientState;
  sc_socket : option nat;
  sc_reconnectTimer : option nat;
  sc_reconnectAttempt : Z;
  sc_stopped : bool;
  sc_generation : Z;
  sc_selectionRevision : Z;
  sc_pending : jsmap string PendingCommand;
  sc_resyncing : gset string;
  sc_resyncingJobRuns : gset string;
  (* the platform: live timers; the sockets with the generation their listeners
     hold; the commands of the promises [send] returned; started tasks; settled
     promises; fresh names *)
  sc_timers : gmap nat timer;
  sc_sockets : gmap nat Z;
  sc_requests : gmap nat ClientCommand;
  sc_ready : gmap nat client_task;
  sc_settled : gmap nat (result client_error client_value);
  sc_next : nat;
}.
#[export] Instance spread_client : Spread client := λ s, {|
  sc_state := sc_state s; sc_socket := sc_socket s; sc_reconnectTimer := sc_reconnectTimer s;
  sc_reconnectAttempt := sc_reconnectAttempt s; sc_stopped := sc_stopped s; sc_generation := sc_generation s;
  sc_selectionRevision := sc_selectionRevision s; sc_pending := sc_pending s; sc_resyncing := sc_resyncing s;
  sc_resyncingJobRuns := sc_resyncingJobRuns s; sc_timers := sc_timers s; sc_sockets := sc_sockets s;
  sc_requests := sc_requests s; sc_ready := sc_ready s; sc_settled := sc_settled s; sc_next := sc_next s |}.

Definition initial_client : client := {|
  sc_state := createInitialChatClientState; sc_socket := None; sc_reconnectTimer := None; sc_reconnectAttempt := 0;
  sc_stopped := true; sc_generation := 0; sc_selectionRevision := 0; sc_pending := []; sc_resyncing := ∅;
  sc_resyncingJobRuns := ∅; sc_timers := ∅; sc_sockets := ∅; sc_requests := ∅; sc_ready := ∅; sc_settled := ∅;
  sc_next := O |}.

(** ** Ports *)

Inductive client_call :=
(* awaited *)
| Tick
| AwaitPromise (promise : nat)
(* synchronous *)
| NewWebSocket
| ReadyState (socket : nat)
| SendText (socket : nat) (command : ClientCommand)
| CloseSocket (socket : nat)
| NextRequestId
| NotifyListeners.

Definition client_answer (c : client_call) : Type :=
  match c with
  | Tick | CloseSocket _ | NotifyListeners => unit
  | AwaitPromise _ => result client_error client_value
  | NewWebSocket | SendText _ _ => result client_error unit
  | ReadyState _ => Z
  | NextRequestId => string
  end.
Definition client_awaited (c : client_call) : bool :=
  match c with Tick | AwaitPromise _ => true | _ => false end.
(** A promise is awaited until it is settled. *)
Definition client_enabled (s : client) (c : client_call) : client_answer c → Prop :=
  match c with
  | AwaitPromise p => λ r, sc_settled s !! p = Some r
  | _ => λ _, True
  end.

Notation act A := (task_stmt client_answer client client_value client_error A).
Notation await_ := (Tasks.await_ (ans := client_answer) (S := client) (V := client_value) (E := client_error)).
Notation port_ := (Tasks.port_ (ans := client_answer) (S := client) (V := client_value) (E := client_error)).
Notation gets_ := (Tasks.gets_ (ans := client_answer) (S := client) (V := client_value) (E := client_error)).
Notation update_ := (Tasks.update_ (ans := client_answer) (S := client) (V := client_value) (E := client_error)).
Notation throw_ := (Programs.throw_ (ans := at_state (S := client) client_answer) (W := client) (S := client)
  (R := client_value) (E := client_error)).
Notation lift_ := (Programs.lift_ (ans := at_state (S := client) client_answer) (W := client) (S := client)
  (R := client_value) (E := client_error)).
Notation return_ := (Programs.return_ (ans := at_state (S := client) client_answer) (W := client) (S := client)
  (R := client_value) (E := client_error)).
Notation try_ := (Programs.try_ (ans := at_state (S := client) client_answer) (W := client) (S := client)
  (R := client_value) (E := client_error)).
Notation finally_ := (Programs.finally_ (ans := at_state (S := client) client_answer) (W := client) (S := client)
  (R := client_value) (E := client_error)).
