(* ===== verification/SocketClientOperations.v ===== *)
(** The methods of the browser's connection ([src/web/src/api/client.ts]) as
    task bodies. Listeners are called without calling back into the client. *)
From S2P Require Import Prelude JsValues Texts Errors Programs Jobs Protocol ClientState Tasks SocketClient.
#[local] Open Scope string_scope. #[local] Open Scope Z_scope.

Section operations.
(** The options of the client, and the wire codec. *)
Context (initialReconnectDelayMs maxReconnectDelayMs : Z) (decode : string → decoded).

(** The options the constructor accepts. *)
(** src/web/src/api/client.ts:164-172 constructor *)
Definition options_ok (commandTimeoutMs : Z) : bool :=
  negb (commandTimeoutMs <=? 0)
  && negb ((initialReconnectDelayMs <? 0) || (maxReconnectDelayMs <? initialReconnectDelayMs)).

Definition when (b : bool) (m : act unit) : act unit := if b then m else mret tt.
(** [await this.method(...)] of an async method. *)
Definition awaiting {A} (m : act A) : act A := finally_ m (await_ Tick).

Fixpoint for_each {A} (f : A → act unit) (l : list A) : act unit :=
  match l with [] => mret tt | a :: l => f a;; for_each f l end.

(** ** Promises, tasks and timers *)

(** Only the first settlement counts. *)
Definition settle_promise (p : nat) (r : result client_error client_value) (s : client) : client :=
  match sc_settled s !! p with
  | Some _ => s
  | None => s <| sc_settled := <[p := r]> (sc_settled s) |>
  end.
Definition spawned (t : client_task) (s : client) : client :=
  s <| sc_ready := <[sc_next s := t]> (sc_ready s) |> <| sc_next := S (sc_next s) |>.
Definition spawn (t : client_task) : act nat := p ← gets_ sc_next; update_ (spawned t);; mret p.

Definition set_timer (d : timer) (s : client) : client :=
  s <| sc_timers := <[sc_next s := d]> (sc_timers s) |> <| sc_next := S (sc_next s) |>.
Definition clear_timer (t : nat) (s : client) : client := s <| sc_timers := delete t (sc_timers s) |>.
Definition forget_pending (requestId : string) (s : client) : client :=
  s <| sc_pending := map_delete requestId (sc_pending s) |>.

(** A promise that is rejected already. *)
Definition rejected (e : client_error) : act nat :=
  p ← gets_ sc_next;
  update_ (λ s, settle_promise p (Err e) (s <| sc_next := S p |>));;
  mret p.

(** [await promise], of a request *)
Definition await_message (p : nat) : act client_value := r ← await_ (AwaitPromise p); lift_ r.

(** ** Requests *)

(** src/web/src/api/client.ts:222-233 sendWithRequestId. The entry of a new
    request, its promise and its timer. *)
Definition add_request (command : ClientCommand) (s : client) : client :=
  let p := sc_next s in
  let t := S p in
  let id := cmd_requestId command in
  s <| sc_next := S t |>
    <| sc_requests := <[p := command]> (sc_requests s) |>
    <| sc_timers := <[t := CommandTimer id p]> (sc_timers s) |>
    <| sc_pending := map_set id {| pc_command := command; pc_promise := p; pc_timer := t |} (sc_pending s) |>.

(** src/web/src/api/client.ts:236-240 sendWithRequestId *)
Definition abandon_request (requestId : string) (p t : nat) (e : client_error) (s : client) : client :=
  settle_promise p (Err e) (forget_pending requestId (clear_timer t s)).

Definition is_connected (s : client) : bool := bool_decide (connection (sc_state s) = Connected).

(** src/web/src/api/client.ts:207-242 sendWithRequestId *)
Definition sendWithRequestId (input : ClientCommandInput) (requestId : string) : act nat :=
  socket ← gets_ sc_socket;
  connected ← gets_ is_connected;
  ready ← match socket with
    | None => mret None
    | Some k =>
        st ← port_ (ReadyState k);
        mret (if (st =? 1) && connected then Some k else None)
    end;
  match ready with
  | None => rejected (ChatTransportError "The server connection is not ready.")
  | Some k =>
      let command := {| cmd_requestId := requestId; cmd_input := input |} in
      p ← gets_ sc_next;
      update_ (add_request command);;
      sent ← port_ (SendText k command);
      match sent with
      | Ok _ => mret p
      | Err e => update_ (abandon_request requestId p (S p) e);; mret p
      end
  end.

(** src/web/src/api/client.ts:201-205 send *)
Definition send (input : ClientCommandInput) : act nat :=
  requestId ← port_ NextRequestId; sendWithRequestId input requestId.

(** [await this.send(...)] *)
Definition request (input : ClientCommandInput) : act client_value := p ← send input; await_message p.

(** ** Dispatching to the reducer *)

(** src/web/src/api/client.ts:665-674 syncRevisionGaps *)
Definition syncRevisionGaps : act unit :=
  connected ← gets_ is_connected;
  when connected
    (ids ← gets_ (λ s, resyncConversationIds (sc_state s));
     for_each (λ id,
       busy ← gets_ (λ s, bool_decide (id ∈ sc_resyncing s));
       when (negb busy)
         (update_ (λ s, s <| sc_resyncing := {[id]} ∪ sc_resyncing s |>);;
          p ← send (ConversationStateOf id);
          spawn (TResyncing id p);;
          mret tt)) ids).

(** The job and run of a key: before and after its first NUL, both not empty. *)
(** src/web/src/api/client.ts:680-683 separator *)
Definition key_parts (key : string) : option (string * string) :=
  match split NUL key with
  | jobId :: (_ :: _) as rest =>
      let runId := join NUL rest in
      if String.eqb jobId "" || String.eqb runId "" then None else Some (jobId, runId)
  | _ => None
  end.

(** src/web/src/api/client.ts:676-689 syncJobRunRevisionGaps *)
Definition syncJobRunRevisionGaps : act unit :=
  connected ← gets_ is_connected;
  when connected
    (keys ← gets_ (λ s, resyncJobRunIds (sc_state s));
     for_each (λ key,
       busy ← gets_ (λ s, bool_decide (key ∈ sc_resyncingJobRuns s));
       when (negb busy)
         match key_parts key with
         | None => mret tt
         | Some (jobId, runId) =>
             update_ (λ s, s <| sc_resyncingJobRuns := {[key]} ∪ sc_resyncingJobRuns s |>);;
             p ← send (JobRunStateOf jobId runId);
             spawn (TResyncingJobRun key p);;
             mret tt
         end) keys).

(** src/web/src/api/client.ts:711-718 dispatch *)
Definition dispatch (action : ChatClientAction) : act unit :=
  next ← gets_ (λ s, reduceChatClientState (sc_state s) action);
  match next with
  | None => mret tt
  | Some next =>
      update_ (λ s, s <| sc_state := next |>);;
      port_ NotifyListeners;;
      syncRevisionGaps;;
      syncJobRunRevisionGaps
  end.

(** src/web/src/api/client.ts:691-699 setTransportError *)
Definition setTransportError (error : client_error) : act unit :=
  dispatch (AError (Some {| ce_code := "transport_error";
                            ce_message := message_or "A connection error occurred." error |})).

(** src/web/src/api/client.ts:701-709 rejectPending *)
Definition rejectPending (error : client_error) (s : client) : client :=
  let rejected := foldl (λ s pending, settle_promise (pc_promise pending) (Err error) (clear_timer (pc_timer pending) s))
    s (map_values (sc_pending s)) in
  rejected <| sc_pending := [] |> <| sc_resyncing := ∅ |> <| sc_resyncingJobRuns := ∅ |>.

(** ** The connection *)

(** src/web/src/api/client.ts:421-424 clearReconnectTimer *)
Definition clearReconnectTimer (s : client) : client :=
  (match sc_reconnectTimer s with Some t => clear_timer t s | None => s end) <| sc_reconnectTimer := None |>.

(** src/web/src/api/client.ts:410-413 delay *)
Definition reconnect_delay (attempt : Z) : Z := Z.min maxReconnectDelayMs (initialReconnectDelayMs * 2 ^ attempt).

(** src/web/src/api/client.ts:410-418 reconnectTimer *)
Definition set_reconnect_timer (s : client) : client :=
  let delay := reconnect_delay (sc_reconnectAttempt s) in
  let s := s <| sc_reconnectAttempt := sc_reconnectAttempt s + 1 |> in
  set_timer (ReconnectTimer delay) s <| sc_reconnectTimer := Some (sc_next s) |>.

(** src/web/src/api/client.ts:407-419 scheduleReconnect *)
Definition scheduleReconnect : act unit :=
  idle ← gets_ (λ s, negb (sc_stopped s) && bool_decide (sc_reconnectTimer s = None));
  when idle (dispatch (AConnection Reconnecting);; update_ set_reconnect_timer).

(** The new socket, whose listeners hold the generation. *)
(** src/web/src/api/client.ts:385-388 open *)
Definition add_socket (generation : Z) (s : client) : client :=
  s <| sc_sockets := <[sc_next s := generation]> (sc_sockets s) |> <| sc_socket := Some (sc_next s) |>
    <| sc_next := S (sc_next s) |>.

(** src/web/src/api/client.ts:370-405 open *)
Definition open (reconnecting : bool) : act unit :=
  stopped ← gets_ sc_stopped;
  when (negb stopped)
    (dispatch (AConnection (if reconnecting then Reconnecting else Connecting));;
     update_ (λ s, s <| sc_generation := sc_generation s + 1 |>);;
     generation ← gets_ sc_generation;
     created ← port_ NewWebSocket;
     match created with
     | Err e => setTransportError e;; scheduleReconnect
     | Ok _ => update_ (add_socket generation)
     end).

(** src/web/src/api/client.ts:182-188 connect *)
Definition connect : act unit :=
  live ← gets_ (λ s, negb (sc_stopped s) && bool_decide (is_Some (sc_socket s)));
  when (negb live)
    (update_ (λ s, clearReconnectTimer (s <| sc_stopped := false |> <| sc_reconnectAttempt := 0 |>));;
     open false).

(** src/web/src/api/client.ts:190-199 disconnect *)
Definition disconnect : act unit :=
  update_ (λ s, clearReconnectTimer (s <| sc_stopped := true |>));;
  update_ (λ s, s <| sc_generation := sc_generation s + 1 |>);;
  socket ← gets_ sc_socket;
  update_ (λ s, s <| sc_socket := None |>);;
  match socket with Some k => port_ (CloseSocket k) | None => mret tt end;;
  update_ (rejectPending (ChatTransportError "The server connection closed."));;
  dispatch (AConnection Disconnected).

(** ** Correlation *)

(** src/web/src/api/client.ts:72-125 isExpectedResponse *)
Definition isExpectedResponse (input : ClientCommandInput) (message : ServerMessage) : bool :=
  match input, message with
  | (WorkspaceList | WorkspaceCreate _ | WorkspaceUpdate _ _), MWorkspaces _ _ => true
  | (JobList | JobCreate _ | JobUpdate _ _), MJobs _ _ => true
  | JobRun jobId, MJobRunState _ run => String.eqb (rs_jobId run) jobId
  | JobRuns jobId _, MJobRuns _ jobId' runs _ =>
      String.eqb jobId' jobId && forallb (λ run, String.eqb (rs_jobId run) jobId) runs
  | JobRunStateOf jobId runId, MJobRunState _ run => String.eqb (rs_jobId run) jobId && String.eqb (rs_id run) runId
  | HistoryList workspaceId, MHistory _ workspaceId' conversations =>
      String.eqb workspaceId' workspaceId
      && forallb (λ c, String.eqb (cs_workspaceId c) workspaceId) conversations
  | ConversationCreate workspaceId, MState _ c _ => String.eqb (cv_workspaceId c) workspaceId
  | ConversationOpen workspaceId conversationId, MState _ c _ =>
      String.eqb (cv_workspaceId c) workspaceId && String.eqb (cv_id c) conversationId
  | (ConversationStateOf conversationId | ConversationRename conversationId _), MState _ c _ =>
      String.eqb (cv_id c) conversationId
  | (ConversationFork _ _ | ConversationRewind _ _), MState _ _ editorText => bool_decide (is_Some editorText)
  | WorkspaceDelete _, MAck _ a => bool_decide (a = AckWorkspaceDelete)
  | ConversationClose _, MAck _ a => bool_decide (a = AckConversationClose)
  | ConversationDelete _ _, MAck _ a => bool_decide (a = AckConversationDelete)
  | Prompt kind _ _ _, MAck _ a => bool_decide (a = AckPrompt kind)
  | ConversationAbort _, MAck _ a => bool_decide (a = AckConversationAbort)
  | JobDelete _, MAck _ a => bool_decide (a = AckJobDelete)
  | JobAbort _ _, MAck _ a => bool_decide (a = AckJobAbort)
  | _, _ => false
  end.

(** The action a message becomes; [input] is the command it answers. *)
(** src/web/src/api/client.ts:506-539 projectMessage *)
Definition message_action (message : ServerMessage) (input : option ClientCommandInput) : option ChatClientAction :=
  match message with
  | MWorkspaces _ workspaces => Some (AWorkspaces workspaces)
  | MHistory _ workspaceId conversations => Some (AHistory workspaceId conversations)
  | MState _ c _ => Some (ASnapshot c)
  | MJobs _ jobs => Some (AJobs jobs)
  | MJobRuns _ jobId runs nextCursor =>
      Some (AJobRuns (Some jobId) runs nextCursor
        (match input with Some (JobRuns _ (Some _)) => true | _ => false end))
  | MJobRunState _ run => Some (AJobRunState run)
  | MJobRunUpdated _ _ _ run => Some (AJobRunUpdated run)
  | MEvent event => Some (AEvent event)
  | MError _ code message => Some (AError (Some {| ce_code := code_string code; ce_message := message |}))
  | MReady _ | MServerShutdown _ | MAck _ _ => None
  end.
Definition projectMessage (message : ServerMessage) (input : option ClientCommandInput) : act unit :=
  match message_action message input with Some action => dispatch action | None => mret tt end.

(** src/web/src/api/client.ts:541-556 applyCommandSuccess *)
Definition applyCommandSuccess (input : ClientCommandInput) : act unit :=
  match input with
  | ConversationClose conversationId => dispatch (AConversationClosed conversationId)
  | ConversationDelete _ conversationId | ConversationRewind conversationId _ =>
      dispatch (AConversationDeleted conversationId)
  | _ => mret tt
  end.

(** The job and the run summaries a recovery or a selection looks up. *)
Definition history_of (conversationId : string) (s : client) : option ConversationSummary :=
  find (λ item, String.eqb (cs_id item) conversationId) (history (sc_state s)).
Definition projection_of (conversationId : string) (s : client) : option ConversationProjection :=
  conversations (sc_state s) !! conversationId.
(** [projection?.conversation.workspaceId ?? summary?.workspaceId] *)
Definition workspace_of (projection : option ConversationProjection) (summary : option ConversationSummary)
    : option string :=
  match projection with Some p => Some (cv_workspaceId (conversation p)) | None => cs_workspaceId <$> summary end.

(** ** Selections *)

(** src/web/src/api/client.ts:302-315 selectConversation *)
Definition selectConversation (conversationId : option string) : act unit :=
  known ← gets_ (λ s, match conversationId with
    | None => true
    | Some id =>
        let workspaceId := workspace_of (projection_of id s) (history_of id s) in
        bool_decide (is_Some workspaceId) && bool_decide (workspaceId = selectedWorkspaceId (sc_state s))
    end);
  when known (dispatch (ASelect conversationId)).

(** src/web/src/api/client.ts:558-589 requestHistory *)
Definition requestHistory (workspaceId : string) (selectionRevision : Z) : act unit :=
  let selected s := (selectionRevision =? sc_selectionRevision s)
    && bool_decide (selectedWorkspaceId (sc_state s) = Some workspaceId) in
  current ← gets_ (λ s, selected s && is_connected s);
  when current
    (dispatch (AHistoryPending workspaceId);;
     try_ (request (HistoryList workspaceId);; mret tt)
       (λ e,
         current ← gets_ selected;
         when current
           (dispatch (AHistoryFailed {|
              we_error := {|
                ce_code := match e with ChatCommandError code _ _ => code_string code | _ => "transport_error" end;
                ce_message := message_or "Unable to load workspace history." e |};
              we_workspaceId := workspaceId |}));;
         throw_ e)).

(** src/web/src/api/client.ts:248-254 selectWorkspace *)
Definition selectWorkspace (workspaceId : option string) : act unit :=
  update_ (λ s, s <| sc_selectionRevision := sc_selectionRevision s + 1 |>);;
  selectionRevision ← gets_ sc_selectionRevision;
  dispatch (AWorkspaceSelect workspaceId);;
  connected ← gets_ is_connected;
  match workspaceId with
  | Some w => when connected (awaiting (requestHistory w selectionRevision))
  | None => mret tt
  end.

(** src/web/src/api/client.ts:264-272 loadJobRuns *)
Definition loadJobRuns (jobId : string) (cursor : option string) : act unit :=
  dispatch (AJobRunsPending jobId);;
  try_ (request (JobRuns jobId cursor);; mret tt) (λ e, dispatch (AJobRunsFailed jobId);; throw_ e).

(** src/web/src/api/client.ts:274-276 loadJobRun *)
Definition loadJobRun (jobId runId : string) : act unit := request (JobRunStateOf jobId runId);; mret tt.

(** src/web/src/api/client.ts:279-300 openGeneratedConversation *)
Definition openGeneratedConversation (workspaceId conversationId : string) : act bool :=
  try_
    (awaiting (selectWorkspace (Some workspaceId));;
     projection ← gets_ (projection_of conversationId);
     summary ← gets_ (history_of conversationId);
     let closed := bool_decide ((cs_status <$> summary) = Some SumClosed) in
     if negb closed && (bool_decide (is_Some summary) || bool_decide (is_Some projection)) then
       request (ConversationStateOf conversationId);; selectConversation (Some conversationId);; mret true
     else if bool_decide ((cs_runnable <$> summary) = Some true) then
       request (ConversationOpen workspaceId conversationId);; selectConversation (Some conversationId);; mret true
     else mret false)
    (λ _, mret false).

(** src/web/src/api/client.ts:334-364 forkConversation, and likewise for a
    rewind; the result is the response. *)
Definition take_fork (input : ClientCommandInput) : act client_value :=
  result ← request input;
  match result with
  | VMessage (MState _ c (Some editorText)) =>
      dispatch (ADraft (cv_id c) editorText);; selectConversation (Some (cv_id c))
  | _ => mret tt
  end;;
  mret result.

(** ** Recovery after the connection was made *)

(** What is captured, and the first request; the rest is the task [TRecovering]. *)
(** src/web/src/api/client.ts:591-601 recover *)
Definition start_recovery (generation : Z) : act (option nat) :=
  ok ← gets_ (λ s, (generation =? sc_generation s) && is_connected s);
  if negb ok then mret None
  else
    captured ← gets_ (λ s, {|
      rv_generation := generation; rv_selectionRevision := sc_selectionRevision s;
      rv_workspaceId := selectedWorkspaceId (sc_state s); rv_conversationId := selectedConversationId (sc_state s);
      rv_jobId := selectedJobId (sc_state s); rv_jobRunId := selectedJobRunId (sc_state s) |});
    p ← send WorkspaceList;
    t ← spawn (TRecovering captured p);
    mret (Some t).

Definition same_connection (r : recovery) (s : client) : bool := (rv_generation r =? sc_generation s) && is_connected s.
Definition same_workspace (r : recovery) (s : client) : bool :=
  same_connection r s && (rv_selectionRevision r =? sc_selectionRevision s)
  && bool_decide (is_Some (rv_workspaceId r)) && bool_decide (selectedWorkspaceId (sc_state s) = rv_workspaceId r).

(** [if (!condition) return;], the rest of the function being [m] *)
Definition while_holds (condition : client → bool) (m : act unit) : act unit := ok ← gets_ condition; when ok m.

(** The last step: the selected conversation. *)
(** src/web/src/api/client.ts:631-653 recover *)
Definition recover_conversation (workspaceId conversationId : string) : act unit :=
  summary ← gets_ (λ s, if bool_decide (historyWorkspaceId (sc_state s) = Some workspaceId)
                        then history_of conversationId s else None);
  projection ← gets_ (projection_of conversationId);
  if negb (bool_decide (workspace_of projection summary = Some workspaceId))
  then dispatch (ASelect None)
  else if bool_decide ((cs_status <$> summary) = Some SumClosed)
  then request (ConversationOpen workspaceId conversationId);; mret tt
  else request (ConversationStateOf conversationId);; mret tt.

(** src/web/src/api/client.ts:614-629 recover *)
Definition recover_history (r : recovery) : act unit :=
  while_holds (same_workspace r)
    (let workspaceId := default "" (rv_workspaceId r) in
     awaiting (requestHistory workspaceId (rv_selectionRevision r));;
     while_holds (λ s, same_connection r s && (rv_selectionRevision r =? sc_selectionRevision s)
         && bool_decide (is_Some (rv_conversationId r))
         && bool_decide (selectedConversationId (sc_state s) = rv_conversationId r))
       (recover_conversation workspaceId (default "" (rv_conversationId r)))).

(** src/web/src/api/client.ts:601-622 recover *)
Definition recover_steps (r : recovery) (first : nat) : act unit :=
  await_message first;;
  while_holds (same_connection r)
    (p ← sendWithRequestId JobList ("recovery-jobs-" +:+ pretty (rv_generation r));
     await_message p;;
     while_holds (same_connection r)
       (match rv_jobId r with
        | None => mret tt
        | Some jobId =>
            known ← gets_ (λ s, existsb (λ job, String.eqb (js_id job) jobId) (jobs (sc_state s)));
            when known
              (awaiting (loadJobRuns jobId None);;
               match rv_jobRunId r with Some runId => awaiting (loadJobRun jobId runId) | None => mret tt end)
        end;;
        recover_history r)).

(** src/web/src/api/client.ts:654-662 recover *)
Definition recovering_body (r : recovery) (first : nat) : act unit :=
  try_ (recover_steps r first) (λ e,
    report ← gets_ (λ s, (rv_generation r =? sc_generation s) && negb (sc_stopped s)
      && negb (match e with ChatCommandError _ _ _ => true | _ => false end
               && bool_decide (is_Some (rv_workspaceId r))));
    when report (setTransportError e)).

(** src/web/src/api/client.ts:366-368 reload *)
Definition reload : act unit :=
  generation ← gets_ sc_generation;
  started ← start_recovery generation;
  match started with Some t => await_message t;; mret tt | None => await_ Tick end.

(** ** Messages *)

(** src/web/src/api/client.ts:481-498 acceptMessage. A response to the request
    [pending] of the same identifier. *)
Definition accept_response (requestId : string) (pending : PendingCommand) (message : ServerMessage) : act unit :=
  let input := cmd_input (pc_command pending) in
  update_ (λ s, clear_timer (pc_timer pending) (forget_pending requestId s));;
  match message with
  | MError id code text => update_ (settle_promise (pc_promise pending) (Err (ChatCommandError code text id)))
  | _ =>
      if negb (isExpectedResponse input message)
      then update_ (settle_promise (pc_promise pending)
             (Err (ChatTransportError "The server response did not match the command.")))
      else
        projectMessage message (Some input);;
        applyCommandSuccess input;;
        update_ (settle_promise (pc_promise pending) (Ok (VMessage message)))
  end.

(** src/web/src/api/client.ts:454-504 acceptMessage *)
Definition acceptMessage (message : ServerMessage) : act unit :=
  match message with
  | MReady serverVersion =>
      update_ (λ s, s <| sc_reconnectAttempt := 0 |>);;
      dispatch (AReady serverVersion);;
      generation ← gets_ sc_generation;
      start_recovery generation;;
      mret tt
  | MServerShutdown _ =>
      update_ (λ s, rejectPending (ChatTransportError "The server is shutting down.")
                      (clearReconnectTimer (s <| sc_stopped := true |>)));;
      dispatch (AError (Some {| ce_code := "shutting_down"; ce_message := "The server is shutting down." |}))
  | _ =>
      match message_requestId message with
      | None => projectMessage message None
      | Some requestId =>
          pending ← gets_ (λ s, map_get requestId (sc_pending s));
          match pending with
          | Some pending => accept_response requestId pending message
          | None => mret tt
          end
      end
  end.

(** src/web/src/api/client.ts:426-452 handleMessage *)
Definition handleMessage (data : frame) : act unit :=
  let bad text := setTransportError (OtherError (Some text)) in
  match data with
  | NotText => bad "The server sent a non-text message."
  | Text text =>
      match decode text with
      | InvalidJson => bad "The server sent invalid JSON."
      | InvalidMessage => bad "The server sent an invalid message."
      | Decoded message =>
          let consistent := match message with
            | MJobRunUpdated jobId runId revision run =>
                String.eqb jobId (rs_jobId run) && String.eqb runId (rs_id run) && (revision =? rs_revision run)
            | _ => true
            end in
          if negb consistent then bad "The server sent an inconsistent job revision."
          else acceptMessage message
      end
  end.

(** ** Events of a socket *)

(** A listener acts only for the current socket of the current generation. *)
(** src/web/src/api/client.ts:388-388 current *)
Definition current (socket : nat) (s : client) : bool :=
  bool_decide (sc_socket s = Some socket ∧ sc_sockets s !! socket = Some (sc_generation s)).
Definition if_current (socket : nat) (m : act unit) : act unit := live ← gets_ (current socket); when live m.

(** src/web/src/api/client.ts:391-400 close *)
Definition socket_closed (socket : nat) : act unit := if_current socket
  (update_ (λ s, rejectPending (ChatTransportError "The server connection closed.") (s <| sc_socket := None |>));;
   stopped ← gets_ sc_stopped;
   if (stopped : bool) then dispatch (AConnection Disconnected) else scheduleReconnect).

(** src/web/src/api/client.ts:387-404 addEventListener *)
Definition socket_event (t : client_task) : act unit :=
  match t with
  | TSocketMessage socket data => if_current socket (handleMessage data)
  | TSocketClosed socket => socket_closed socket
  | TSocketError socket =>
      if_current socket (setTransportError (OtherError (Some "Unable to reach the ChatWCA server.")))
  | _ => mret tt
  end.

(** A timer that was not cleared fires once. *)
(** src/web/src/api/client.ts:224-227 setTimeout, and 415-418 for the reconnection *)
Definition timer_fired (t : nat) : act unit :=
  timer ← gets_ (λ s, sc_timers s !! t);
  match timer with
  | None => mret tt
  | Some (CommandTimer requestId p) =>
      update_ (λ s, settle_promise p (Err (ChatTransportError "The server command timed out."))
                      (forget_pending requestId (clear_timer t s)))
  | Some (ReconnectTimer _) =>
      update_ (λ s, clear_timer t s <| sc_reconnectTimer := None |>);; open true
  end.

(** [promise.catch(setTransportError).finally(...)] *)
(** src/web/src/api/client.ts:670-672 syncRevisionGaps *)
Definition resyncing_body (p : nat) (done : client → client) : act unit :=
  finally_ (try_ (await_message p;; mret tt) setTransportError) (update_ done).

(** ** The pool *)

Definition unit_value (m : act unit) : act client_value := m;; mret VUnit.

Definition body (t : client_task) : act client_value :=
  match t with
  | TConnect => unit_value connect
  | TDisconnect => unit_value disconnect
  | TSend input => request input
  | TSelectWorkspace workspaceId => unit_value (selectWorkspace workspaceId)
  | TSelectJob jobId => unit_value (dispatch (AJobSelect jobId))
  | TSelectJobRun runId => unit_value (dispatch (AJobRunSelect runId))
  | TLoadJobRuns jobId cursor => unit_value (loadJobRuns jobId cursor)
  | TLoadJobRun jobId runId => unit_value (loadJobRun jobId runId)
  | TOpenGenerated workspaceId conversationId => b ← openGeneratedConversation workspaceId conversationId; mret (VBool b)
  | TSelectConversation conversationId => unit_value (selectConversation conversationId)
  | TSetDraft conversationId text => unit_value (dispatch (ADraft conversationId text))
  | TClearDraft conversationId => unit_value (dispatch (ADraftDelete conversationId))
  | TDismissNetworkBlocked conversationId => unit_value (dispatch (ANetworkBlockedDismiss conversationId))
  | TForkConversation conversationId entry => take_fork (ConversationFork conversationId entry)
  | TRewindConversation conversationId entry => take_fork (ConversationRewind conversationId entry)
  | TReload => unit_value reload
  | TSocketMessage _ _ | TSocketClosed _ | TSocketError _ => unit_value (socket_event t)
  | TTimer t => unit_value (timer_fired t)
  | TRecovering r p => unit_value (recovering_body r p)
  | TResyncing id p => unit_value (resyncing_body p (λ s, s <| sc_resyncing := sc_resyncing s ∖ {[id]} |>))
  | TResyncingJobRun key p =>
      unit_value (resyncing_body p (λ s, s <| sc_resyncingJobRuns := sc_resyncingJobRuns s ∖ {[key]} |>))
  end.

(** A ready task begins; a task that ends settles its promise. *)
Definition unready (promise : nat) (s : client) : client := s <| sc_ready := delete promise (sc_ready s) |>.
Definition settled_as (o : outcome client_value client_error client_value) : result client_error client_value :=
  match o with Next v | Return v => Ok v | Throw e => Err e end.
Definition settle (promise : nat) (o : outcome client_value client_error client_value) (s : client) : client :=
  settle_promise promise (settled_as o) s.
End operations.
