(* ===== verification/SocketClientInvariant.v ===== *)
(** What holds of a [ChatSocketClient] whenever none of its tasks runs, what a
    task may change in one stretch, and that each change of state its methods
    make keeps to both. *)
From S2P Require Import Prelude JsValues Errors Programs Jobs Protocol ClientState Tasks TaskRules.
From S2P Require Import SocketClient SocketClientOperations ClientStateSafety.
#[local] Open Scope string_scope. #[local] Open Scope Z_scope.

Section invariant.
Context (initialReconnectDelayMs maxReconnectDelayMs : Z) (decode : string → decoded).
(** What the server sends. *)
Context (sent : ServerMessage → Prop).
Implicit Types (s : client) (p t id : nat).

(** ** The invariant *)

Definition frame_ok (data : frame) : Prop :=
  match data with Text text => ∀ m, decode text = Decoded m → sent m | NotText => True end.
Definition task_ok (task : client_task) : Prop :=
  match task with TSocketMessage _ data => frame_ok data | _ => True end.

(** The answer to a request: a message of the server the command expects, with
    the identifier of the request. *)
Definition answers (c : ClientCommand) (m : ServerMessage) : Prop :=
  isExpectedResponse (cmd_input c) m = true ∧ message_requestId m = Some (cmd_requestId c) ∧ sent m.

(** A request that is not settled has its timer, other than [hole]; what a timer would settle is not settled; a settled request has its answer. *)
Record core (hole : option nat) s : Prop := {
  co_timer t requestId p : sc_timers s !! t = Some (CommandTimer requestId p) →
    t = S p ∧ sc_settled s !! p = None ∧ ∃ c, sc_requests s !! p = Some c ∧ cmd_requestId c = requestId;
  co_request p c : sc_requests s !! p = Some c →
    (S p < sc_next s)%nat ∧ sc_ready s !! p = None ∧
    (hole ≠ Some p → sc_settled s !! p = None → sc_timers s !! S p = Some (CommandTimer (cmd_requestId c) p)) ∧
    (∀ v, sc_settled s !! p = Some (Ok v) → ∃ m, v = VMessage m ∧ answers c m);
  co_fresh_timer t : (sc_next s ≤ t)%nat → sc_timers s !! t = None;
  co_fresh_settled p : (sc_next s ≤ p)%nat → sc_settled s !! p = None;
  co_fresh_socket k : (sc_next s ≤ k)%nat → sc_sockets s !! k = None;
  co_socket k g : sc_sockets s !! k = Some g → g ≤ sc_generation s;
  co_ready p task : sc_ready s !! p = Some task → (p < sc_next s)%nat ∧ task_ok task;
  co_reconnect t : (∃ d, sc_timers s !! t = Some (ReconnectTimer d)) ↔ sc_reconnectTimer s = Some t;
  co_apart p c d : sc_requests s !! p = Some c → sc_timers s !! S p ≠ Some (ReconnectTimer d);
  co_delay t d : sc_timers s !! t = Some (ReconnectTimer d) → 0 ≤ d ≤ maxReconnectDelayMs;
  co_hole p : hole = Some p → (S p < sc_next s)%nat ∧ sc_timers s !! S p = None;
  co_attempt : 0 ≤ sc_reconnectAttempt s;
}.

(** The pending table: unique identifiers, each with the request it stands for. *)
Record pending_ok s : Prop := {
  pe_keys : map_ok (sc_pending s);
  pe_entry requestId pc : map_get requestId (sc_pending s) = Some pc →
    cmd_requestId (pc_command pc) = requestId ∧ sc_requests s !! pc_promise pc = Some (pc_command pc) ∧
    sc_timers s !! pc_timer pc = Some (CommandTimer requestId (pc_promise pc));
}.

Definition base (hole : option nat) s : Prop := core hole s ∧ pending_ok s.

(** The state of the connection: stopped, a current socket, the reconnection
    timer, and the status shown. *)
Record wire := Wire { w_stopped : bool; w_live : bool; w_timer : bool; w_status : ConnectionStatus }.
Definition live_socket s : bool := match sc_socket s with Some k => current k s | None => false end.
Definition wire_of s : wire := {|
  w_stopped := sc_stopped s; w_live := live_socket s; w_timer := bool_decide (is_Some (sc_reconnectTimer s));
  w_status := connection (sc_state s) |}.

(** Unless stopped, the client has a current socket or a timer to get one, not
    both; it is connected only over a current socket. *)
Definition linked (w : wire) : Prop :=
  (w_timer w = true → w_stopped w = false ∧ w_live w = false) ∧
  (w_stopped w = false → w_live w = true ∨ w_timer w = true) ∧
  (w_status w = Connected → w_live w = true).

Definition inv s : Prop := base None s ∧ linked (wire_of s).

(** ** The guarantee *)

(** An action that projects a message projects one the server sent. *)
Definition sent_action (a : ChatClientAction) : Prop :=
  match a with
  | AEvent e => sent (MEvent e)
  | ASnapshot c => ∃ requestId text, sent (MState requestId c text)
  | AHistory w l => ∃ requestId, sent (MHistory requestId w l)
  | AJobRuns jobId runs cursor _ => ∃ requestId j, jobId = Some j ∧ sent (MJobRuns requestId j runs cursor)
  | AJobRunState run => ∃ requestId, sent (MJobRunState requestId run)
  | AJobRunUpdated run => sent (MJobRunUpdated (rs_jobId run) (rs_id run) (rs_revision run) run)
  | _ => True
  end.

Record later s s' : Prop := {
  la_next : (sc_next s ≤ sc_next s')%nat;
  la_settled : sc_settled s ⊆ sc_settled s';
  la_requests : sc_requests s ⊆ sc_requests s';
  la_new p c : sc_requests s' !! p = Some c → sc_requests s !! p = Some c ∨ (sc_next s ≤ p)%nat;
  la_generation : sc_generation s ≤ sc_generation s';
  la_state : ∃ l, sc_state s' = after_actions (sc_state s) l ∧ Forall sent_action l;
}.

#[export] Instance later_preorder : PreOrder later.
Proof.
  split.
  - intros s. constructor; try done; [by left|]. by exists [].
  - intros s1 s2 s3 [] []. constructor; [lia|by etrans|by etrans| |lia|].
    + intros p c Hp. destruct (la_new1 _ _ Hp) as [H|]; [|right; lia]. by apply la_new0.
    + destruct la_state0 as (l1 & E1 & H1). destruct la_state1 as (l2 & E2 & H2). exists (l1 ++ l2)%list.
      split; [|by apply Forall_app]. by rewrite E2, E1; unfold after_actions; rewrite foldl_app.
Qed.

(** What neither the invariant nor the guarantee looks at may change. *)
Lemma later_same s s' :
  sc_next s' = sc_next s → sc_settled s' = sc_settled s → sc_requests s' = sc_requests s →
  sc_generation s' = sc_generation s → sc_state s' = sc_state s → later s s'.
Proof. intros En Es Er Eg Et. constructor; rewrite ?En, ?Es, ?Er, ?Eg, ?Et; try done; [by left|]. by exists []. Qed.

Lemma core_same hole s s' :
  sc_next s' = sc_next s → sc_settled s' = sc_settled s → sc_requests s' = sc_requests s →
  sc_timers s' = sc_timers s → sc_ready s' = sc_ready s → sc_sockets s' = sc_sockets s →
  sc_reconnectTimer s' = sc_reconnectTimer s → sc_generation s ≤ sc_generation s' → 0 ≤ sc_reconnectAttempt s' →
  core hole s → core hole s'.
Proof.
  intros En Es Er Et Ey Ek Ec Eg Ea []. constructor; rewrite ?En, ?Es, ?Er, ?Et, ?Ey, ?Ek, ?Ec; try done.
  intros k g Hk. specialize (co_socket0 k g Hk). lia.
Qed.

Lemma pending_same s s' :
  sc_pending s' = sc_pending s → sc_requests s' = sc_requests s → sc_timers s' = sc_timers s →
  pending_ok s → pending_ok s'.
Proof. intros Ep Er Et []. constructor; by rewrite ?Ep, ?Er, ?Et. Qed.

(** ** Settling *)

(** What a settled promise leaves alone. *)
Lemma settle_promise_frame p r s :
  let s' := settle_promise p r s in
  sc_next s' = sc_next s ∧ sc_requests s' = sc_requests s ∧ sc_timers s' = sc_timers s ∧ sc_ready s' = sc_ready s ∧
  sc_sockets s' = sc_sockets s ∧ sc_reconnectTimer s' = sc_reconnectTimer s ∧ sc_pending s' = sc_pending s ∧
  sc_reconnectAttempt s' = sc_reconnectAttempt s ∧ sc_generation s' = sc_generation s ∧ sc_state s' = sc_state s ∧
  wire_of s' = wire_of s.
Proof. cbn. unfold settle_promise. by destruct (sc_settled s !! p). Qed.

Lemma settle_promise_lookup p r s q :
  sc_settled (settle_promise p r s) !! q =
    if decide (q = p) then Some (default r (sc_settled s !! p)) else sc_settled s !! q.
Proof.
  unfold settle_promise. destruct (sc_settled s !! p) eqn:E; cbn; case_decide; subst; rewrite ?E; try done.
  - by rewrite lookup_insert_eq.
  - by rewrite lookup_insert_ne.
Qed.

Lemma later_settle p r s : later s (settle_promise p r s).
Proof.
  destruct (settle_promise_frame p r s) as (En & Er & _ & _ & _ & _ & _ & _ & Eg & Et & _).
  constructor; rewrite ?En, ?Er, ?Eg, ?Et; try done; [|by left|by exists []].
  apply map_subseteq_spec. intros q v Hq. rewrite settle_promise_lookup. case_decide; [|done]. by subst; rewrite Hq.
Qed.

(** Settling a promise that no timer waits for. *)
Lemma core_settle hole p r s :
  core hole s → (p < sc_next s)%nat → (∀ t requestId, sc_timers s !! t ≠ Some (CommandTimer requestId p)) →
  (∀ c v, sc_requests s !! p = Some c → r = Ok v → ∃ m, v = VMessage m ∧ answers c m) →
  core (if decide (hole = Some p) then None else hole) (settle_promise p r s).
Proof.
  intros [] Hp Hno Hans. destruct (settle_promise_frame p r s) as (En & Er & Et & Ey & Ek & Ec & _ & Ea & Eg & _).
  constructor; rewrite ?En, ?Er, ?Et, ?Ey, ?Ek, ?Ec, ?Ea, ?Eg; try done.
  - intros t id q Hq. destruct (co_timer0 _ _ _ Hq) as (-> & Hs & Hc). split_and!; [done| |done].
    rewrite settle_promise_lookup, decide_False; [done|]. intros ->. by apply Hno in Hq.
  - intros q c Hq. destruct (co_request0 _ _ Hq) as (Hn & Hr & Ht & Hv). rewrite settle_promise_lookup.
    split_and!; [done..| |].
    + destruct (decide (q = p)); [done|]. intros Hh. apply Ht. intros ->. destruct Hh. by rewrite decide_False by congruence.
    + destruct (decide (q = p)) as [->|]; [|done]. intros v [= Ev]. destruct (sc_settled s !! p) as [r'|] eqn:Es; cbn in Ev.
      * apply Hv. congruence.
      * by eapply Hans.
  - intros q Hq. rewrite settle_promise_lookup, decide_False by lia. auto.
  - intros q. case_decide; [done|]. auto.
Qed.

Lemma pending_settle p r s : pending_ok s → pending_ok (settle_promise p r s).
Proof.
  destruct (settle_promise_frame p r s) as (_ & Er & Et & _ & _ & _ & Ep & _). by apply pending_same.
Qed.

(** ** Requests *)

(** The timer of a request is taken back with its pending entry: the request is
    the hole until its promise settles. *)
Definition take_back requestId p s : client := forget_pending requestId (clear_timer (S p) s).

Lemma base_take_back requestId p s :
  base None s → sc_timers s !! S p = Some (CommandTimer requestId p) → base (Some p) (take_back requestId p s).
Proof.
  intros [[] []] Hp. split; constructor; cbn; try done.
  - intros t id q [_ Hq]%lookup_delete_Some. eauto.
  - intros q c Hq. destruct (co_request0 _ _ Hq) as (Hn & Hr & Ht & Hv). split_and!; [done..| |done].
    intros Hne Hs. rewrite lookup_delete_ne by congruence. by apply Ht.
  - intros t Hn. apply lookup_delete_None. right. auto.
  - intros t. rewrite <-co_reconnect0. split; intros [d Hd]; exists d; [by apply lookup_delete_Some in Hd as [_ Hd]|].
    rewrite lookup_delete_ne; [done|]. intros <-. congruence.
  - intros q c d Hq [_ Hd]%lookup_delete_Some. by eapply co_apart0.
  - intros t d [_ Hd]%lookup_delete_Some. eauto.
  - intros q [= <-]. split; [|apply lookup_delete_eq].
    destruct (co_timer0 _ _ _ Hp) as (_ & _ & c & Hc & _). by destruct (co_request0 _ _ Hc).
  - by apply map_ok_delete.
  - intros id pc. rewrite map_get_delete by done. case_decide as Hid; [done|]. intros Hg.
    destruct (pe_entry0 _ _ Hg) as (E & Hr & Ht). split_and!; [done..|].
    rewrite lookup_delete_ne; [done|]. intros Et. rewrite <-Et in Ht. congruence.
Qed.

Lemma later_take_back requestId p s : later s (take_back requestId p s).
Proof. by apply later_same. Qed.

(** Settling the hole. *)
Lemma base_fill p r s :
  base (Some p) s → (∀ c v, sc_requests s !! p = Some c → r = Ok v → ∃ m, v = VMessage m ∧ answers c m) →
  base None (settle_promise p r s).
Proof.
  intros [Hc Hp] Hr. split; [|by apply pending_settle]. destruct (co_hole _ _ Hc p eq_refl) as [Hn Ht].
  pose proof (core_settle (Some p) p r s Hc) as H. rewrite decide_True in H by done. apply H; [lia| |done].
  intros t id Hq. destruct (co_timer _ _ Hc _ _ _ Hq) as (-> & _). congruence.
Qed.

(** Other promises settle with what their task came to. *)
Lemma base_settle hole p r s :
  base hole s → hole ≠ Some p → (p < sc_next s)%nat → sc_requests s !! p = None → base hole (settle_promise p r s).
Proof.
  intros [Hc Hp] Hh Hn Hr. split; [|by apply pending_settle].
  pose proof (core_settle hole p r s Hc Hn) as H. rewrite decide_False in H by done. apply H.
  - intros t id Ht. destruct (co_timer _ _ Hc _ _ _ Ht) as (_ & _ & c & Hq & _). congruence.
  - intros c v Hq. congruence.
Qed.

(** A request given up: its timer fired, or its message could not be sent. *)
Lemma base_give_up hole requestId p e s :
  base hole s → sc_timers s !! S p = Some (CommandTimer requestId p) →
  let s' := settle_promise p (Err e) (take_back requestId p s) in
  base hole s' ∧ later s s' ∧ wire_of s' = wire_of s.
Proof.
  intros [[] []] Ht s'. destruct (co_timer0 _ _ _ Ht) as (_ & Hs & Hc).
  assert (E : s' = take_back requestId p s <| sc_settled := <[p := Err e]> (sc_settled s) |>).
  { unfold s', settle_promise. cbn. by rewrite Hs. }
  split_and!; [rewrite E; split; constructor; cbn; try done| |rewrite E; done].
  - intros t id q [Hn Hq]%lookup_delete_Some. destruct (co_timer0 _ _ _ Hq) as (-> & Hsq & Hcq).
    split_and!; [done| |done]. rewrite lookup_insert_ne; [done|]. intros <-. done.
  - intros q c Hq. destruct (co_request0 _ _ Hq) as (Hn & Hr & Htm & Hv). split_and!; [done..| |].
    + intros Hh [Hq' Hs']%lookup_insert_None. rewrite lookup_delete_ne by congruence. by apply Htm.
    + intros v [[_ ?]|[_ Hs']]%lookup_insert_Some; [done|by apply Hv].
  - intros t Hn. apply lookup_delete_None. right. auto.
  - intros q Hq. rewrite lookup_insert_ne; [auto|]. intros <-. destruct Hc as (c & Hc & _). destruct (co_request0 _ _ Hc). lia.
  - intros t. rewrite <-co_reconnect0. split; intros [d Hd]; exists d; [by apply lookup_delete_Some in Hd as [_ Hd]|].
    rewrite lookup_delete_ne; [done|]. intros <-. congruence.
  - intros q c d Hq [_ Hd]%lookup_delete_Some. by eapply co_apart0.
  - intros t d [_ Hd]%lookup_delete_Some. eauto.
  - intros q Hq. destruct (co_hole0 q Hq). split; [done|]. apply lookup_delete_None. by right.
  - by apply map_ok_delete.
  - intros id pc. rewrite map_get_delete by done. case_decide as Hid; [done|]. intros Hg.
    destruct (pe_entry0 _ _ Hg) as (Ei & Hr & Htm). split_and!; [done..|].
    rewrite lookup_delete_ne; [done|]. intros Et. rewrite <-Et in Htm. congruence.
  - etrans; [by apply later_take_back|apply later_settle].
Qed.

(** A new request. *)
Lemma base_add_request hole c s : 
  base hole s → base hole (add_request c s) ∧ later s (add_request c s) ∧ wire_of (add_request c s) = wire_of s.
Proof.
  intros [[] []]. set (p := sc_next s).
  assert (Hnone : sc_requests s !! p = None).
  { destruct (sc_requests s !! p) eqn:E; [|done]. destruct (co_request0 _ _ E) as [? _]. lia. }
  split_and!; [split; constructor; cbn; fold p; try done| |done].
  - intros t id q [[<- [= <- <-]]|[Hn Hq]]%lookup_insert_Some.
    + split_and!; [done|by apply co_fresh_settled0|]. exists c. by rewrite lookup_insert_eq.
    + destruct (co_timer0 _ _ _ Hq) as (-> & Hs & d & Hd & Ed). split_and!; [done..|]. exists d.
      rewrite lookup_insert_ne by congruence. done.
  - intros q d [[<- <-]|[Hn Hq]]%lookup_insert_Some.
    + split_and!; [lia| |intros _ _; by rewrite lookup_insert_eq|].
      * destruct (sc_ready s !! p) eqn:E; [|done]. destruct (co_ready0 _ _ E). lia.
      * intros v. rewrite (co_fresh_settled0 p) by lia. done.
    + destruct (co_request0 _ _ Hq) as (Hl & Hr & Ht & Hv). split_and!; [lia|done| |done].
      intros Hh Hs. rewrite lookup_insert_ne by lia. auto.
  - intros t Ht. rewrite lookup_insert_ne by lia. apply co_fresh_timer0. lia.
  - intros q Hq. apply co_fresh_settled0. lia.
  - intros k Hk. apply co_fresh_socket0. lia.
  - intros q task Hq. destruct (co_ready0 _ _ Hq). split; [lia|done].
  - intros t. rewrite <-co_reconnect0. split; intros [d Hd]; exists d.
    + by apply lookup_insert_Some in Hd as [[_ ?]|[_ Hd]].
    + rewrite lookup_insert_ne; [done|]. intros <-. rewrite co_fresh_timer0 in Hd by lia. done.
  - intros q d e [[<- <-]|[_ Hq]]%lookup_insert_Some; [by rewrite lookup_insert_eq|].
    destruct (co_request0 _ _ Hq) as [? _]. rewrite lookup_insert_ne by lia. by eapply co_apart0.
  - intros t d [[_ ?]|[_ Ht]]%lookup_insert_Some; [done|eauto].
  - intros q Hq. destruct (co_hole0 q Hq). rewrite lookup_insert_ne by lia. split; [lia|done].
  - by apply map_ok_set.
  - intros id pc. rewrite map_get_set. case_decide as E.
    + intros [= <-]. cbn. split_and!; [done|by rewrite lookup_insert_eq|rewrite lookup_insert_eq; by subst].
    + intros Hg. destruct (pe_entry0 _ _ Hg) as (Ei & Hr & Ht). split_and!; [done|..].
      * rewrite lookup_insert_ne; [done|]. intros Ep. rewrite <-Ep in Hr. congruence.
      * rewrite lookup_insert_ne; [done|]. intros Et. rewrite <-Et in Ht. rewrite co_fresh_timer0 in Ht by lia. done.
  - constructor; cbn; fold p; try done; [lia| | |by exists []].
    + by apply insert_subseteq.
    + intros q d [[<- <-]|[_ Hq]]%lookup_insert_Some; [right; lia|by left].
Qed.

(** A fresh promise. *)
Lemma base_next hole s :
  base hole s → let s' := s <| sc_next := S (sc_next s) |> in
  base hole s' ∧ later s s' ∧ wire_of s' = wire_of s ∧ sc_requests s !! sc_next s = None.
Proof.
  intros [[] Hp] s'. split_and!; [split; [|by apply (pending_same s)]| |done|].
  - constructor; cbn; try done.
    + intros q c Hq. destruct (co_request0 _ _ Hq) as (Hn & Hr & Htm & Hv). split_and!; [lia|done..].
    + intros t Hn. apply co_fresh_timer0. lia.
    + intros t Hn. apply co_fresh_settled0. lia.
    + intros t Hn. apply co_fresh_socket0. lia.
    + intros q task Hq. destruct (co_ready0 _ _ Hq). split; [lia|done].
    + intros q Hq. destruct (co_hole0 q Hq). split; [lia|done].
  - constructor; cbn; try done; [lia|by left|by exists []].
  - destruct (sc_requests s !! sc_next s) eqn:E; [|done]. destruct (co_request0 _ _ E). lia.
Qed.

(** ** Rejecting everything pending *)

Definition reject_one (e : client_error) s (pc : PendingCommand) : client :=
  settle_promise (pc_promise pc) (Err e) (clear_timer (pc_timer pc) s).

Lemma core_clear p s c : core None s → sc_requests s !! p = Some c → core (Some p) (clear_timer (S p) s).
Proof.
  intros [] Hp. constructor; cbn; try done.
  - intros t id q [_ Hq]%lookup_delete_Some. eauto.
  - intros q d Hq. destruct (co_request0 _ _ Hq) as (Hn & Hr & Ht & Hv). split_and!; [done..| |done].
    intros Hne Hs. rewrite lookup_delete_ne by congruence. by apply Ht.
  - intros t Hn. apply lookup_delete_None. right. auto.
  - intros t. rewrite <-co_reconnect0. split; intros [d Hd]; exists d; [by apply lookup_delete_Some in Hd as [_ Hd]|].
    rewrite lookup_delete_ne; [done|]. intros <-. by apply (co_apart0 p c d).
  - intros q d x Hq [_ Hd]%lookup_delete_Some. by eapply co_apart0.
  - intros t d [_ Hd]%lookup_delete_Some. eauto.
  - intros q [= <-]. split; [|apply lookup_delete_eq]. by destruct (co_request0 _ _ Hp).
Qed.

Lemma core_reject_one e s pc c :
  core None s → sc_requests s !! pc_promise pc = Some c → pc_timer pc = S (pc_promise pc) →
  core None (reject_one e s pc) ∧ later s (reject_one e s pc) ∧ wire_of (reject_one e s pc) = wire_of s.
Proof.
  intros Hc Hp Et. unfold reject_one. rewrite Et. split_and!.
  - pose proof (core_clear _ _ _ Hc Hp) as Hc'.
    destruct (co_request _ _ Hc _ _ Hp) as (Hn & _).
    pose proof (core_settle _ (pc_promise pc) (Err e) _ Hc') as H. rewrite decide_True in H by done.
    apply H; [cbn; lia| |done]. intros t id Ht. destruct (co_timer _ _ Hc' _ _ _ Ht) as (-> & _).
    cbn in Ht. by rewrite lookup_delete_eq in Ht.
  - etrans; [|apply later_settle]. by apply later_same.
  - by destruct (settle_promise_frame (pc_promise pc) (Err e) (clear_timer (S (pc_promise pc)) s)) as
      (_ & _ & _ & _ & _ & _ & _ & _ & _ & _ & ->).
Qed.

Lemma core_reject_each e (l : list PendingCommand) s :
  core None s →
  (∀ pc, pc ∈ l → (∃ c, sc_requests s !! pc_promise pc = Some c) ∧ pc_timer pc = S (pc_promise pc)) →
  let s' := foldl (reject_one e) s l in core None s' ∧ later s s' ∧ wire_of s' = wire_of s.
Proof.
  revert s. induction l as [|pc l IH]; intros s Hc Hl; cbn; [done|].
  destruct (Hl pc (list_elem_of_here _ _)) as [[c Hp] Et].
  destruct (core_reject_one e s pc c Hc Hp Et) as (Hc1 & Hg1 & Hw1).
  destruct (IH (reject_one e s pc) Hc1) as (Hc2 & Hg2 & Hw2).
  - intros pc' Hin. destruct (Hl pc' (list_elem_of_further _ _ _ Hin)) as [[c' Hp'] Et']. split; [|done].
    exists c'. eapply lookup_weaken; [done|apply Hg1].
  - split_and!; [done|by etrans|congruence].
Qed.

Lemma base_rejectPending e s :
  base None s → let s' := rejectPending e s in base None s' ∧ later s s' ∧ wire_of s' = wire_of s.
Proof.
  intros [Hc [Hk He]]. cbn. unfold rejectPending. fold (reject_one e).
  destruct (core_reject_each e (map_values (sc_pending s)) s Hc) as (Hc' & Hg & Hw).
  - intros pc ([id pc'] & -> & Hin)%list_elem_of_fmap. cbn. apply map_get_in in Hin; [|done].
    destruct (He _ _ Hin) as (_ & Hr & Ht). split; [by eexists|]. by destruct (co_timer _ _ Hc _ _ _ Ht).
  - split_and!; [split|..].
    + eapply core_same; [..|exact Hc']; try done. apply Hc'.
    + by constructor; [apply NoDup_nil_2|].
    + etrans; [done|]. by apply later_same.
    + exact Hw.
Qed.

(** ** The connection *)

Definition connection_after (a : ChatClientAction) (status : ConnectionStatus) : ConnectionStatus :=
  match a with AConnection status => status | AReady _ => Connected | _ => status end.

Lemma reduce_connection (st st' : ChatClientState) a :
  reduceChatClientState st a = Some st' → connection st' = connection_after a (connection st).
Proof.
  destruct a; cbn; unfold_reducer; intros H; repeat case_match; by simplify_eq.
Qed.

Lemma base_reduce hole s a st' :
  base hole s → sent_action a → reduceChatClientState (sc_state s) a = Some st' →
  let s' := s <| sc_state := st' |> in base hole s' ∧ later s s' ∧
  wire_of s' = {| w_stopped := w_stopped (wire_of s); w_live := w_live (wire_of s); w_timer := w_timer (wire_of s);
                  w_status := connection_after a (w_status (wire_of s)) |}.
Proof.
  intros [Hc Hp] Ha E. split_and!.
  - split; [|by apply (pending_same s)]. apply (core_same hole s); try exact Hc; try done. apply Hc.
  - constructor; cbn; try done; [by left|]. exists [a]. split; [|by constructor].
    cbn. unfold after_action. by rewrite E.
  - unfold wire_of. cbn. by rewrite (reduce_connection _ _ _ E).
Qed.

Lemma base_spawned hole s task :
  base hole s → task_ok task → base hole (spawned task s) ∧ later s (spawned task s) ∧ wire_of (spawned task s) = wire_of s.
Proof.
  intros [[] Hp] Ht. split_and!; [split; [|by apply (pending_same s)]| |done].
  - constructor; cbn; try done.
    + intros q c Hq. destruct (co_request0 _ _ Hq) as (Hn & Hr & Htm & Hv). split_and!; [lia| |done..].
      by rewrite lookup_insert_ne by lia.
    + intros t Hn. apply co_fresh_timer0. lia.
    + intros t Hn. apply co_fresh_settled0. lia.
    + intros t Hn. apply co_fresh_socket0. lia.
    + intros q task' [[<- <-]|[_ Hq]]%lookup_insert_Some; [by split; [lia|]|].
      destruct (co_ready0 _ _ Hq). split; [lia|done].
    + intros q Hq. destruct (co_hole0 q Hq). split; [lia|done].
  - constructor; cbn; try done; [lia|by left|by exists []].
Qed.

Lemma base_unready p s : base None s → base None (unready p s) ∧ later s (unready p s) ∧ wire_of (unready p s) = wire_of s.
Proof.
  intros [[] Hp]. split_and!; [split; [|by apply (pending_same s)]|by apply later_same|done].
  constructor; cbn; try done.
  - intros q c Hq. destruct (co_request0 _ _ Hq) as (Hn & Hr & Htm & Hv). split_and!; [done| |done..].
    apply lookup_delete_None. by right.
  - intros q task [_ Hq]%lookup_delete_Some. eauto.
Qed.

(** The reconnection timer is cleared, or fires. *)
Definition drop_reconnect t s : client := clear_timer t s <| sc_reconnectTimer := None |>.
Lemma base_drop_reconnect hole t s :
  base hole s → sc_reconnectTimer s = Some t → base hole (drop_reconnect t s) ∧ later s (drop_reconnect t s) ∧
  wire_of (drop_reconnect t s) = {| w_stopped := w_stopped (wire_of s); w_live := w_live (wire_of s);
                                    w_timer := false; w_status := w_status (wire_of s) |}.
Proof.
  intros [[] []] Et. destruct (proj2 (co_reconnect0 t) Et) as [d Hd]. split_and!; [split|by apply later_same|done].
  - constructor; cbn; try done.
    + intros u id q [_ Hq]%lookup_delete_Some. eauto.
    + intros q c Hq. destruct (co_request0 _ _ Hq) as (Hn & Hr & Htm & Hv). split_and!; [done..| |done].
      intros Hh Hs. rewrite lookup_delete_ne; [by apply Htm|]. intros ->. specialize (Htm Hh Hs). congruence.
    + intros u Hu. apply lookup_delete_None. right. auto.
    + intros u. split; [|done]. intros [d' [Hn Hu]%lookup_delete_Some]. destruct Hn.
      assert (E : sc_reconnectTimer s = Some u) by (apply co_reconnect0; by exists d'). congruence.
    + intros q c e Hq [_ Hu]%lookup_delete_Some. by eapply co_apart0.
    + intros u d' [_ Hu]%lookup_delete_Some. eauto.
    + intros q Hq. destruct (co_hole0 q Hq). split; [done|]. apply lookup_delete_None. by right.
  - constructor; cbn; [done|]. intros id pc Hg. destruct (pe_entry0 _ _ Hg) as (E & Hr & Htm).
    split_and!; [done..|]. rewrite lookup_delete_ne; [done|]. intros ->. congruence.
Qed.

Lemma base_clearReconnectTimer hole s :
  base hole s → base hole (clearReconnectTimer s) ∧ later s (clearReconnectTimer s) ∧
  wire_of (clearReconnectTimer s) = {| w_stopped := w_stopped (wire_of s); w_live := w_live (wire_of s);
                                       w_timer := false; w_status := w_status (wire_of s) |}.
Proof.
  intros Hb. unfold clearReconnectTimer. destruct (sc_reconnectTimer s) as [t|] eqn:Et.
  - by apply base_drop_reconnect.
  - destruct Hb as [Hc Hp]. split_and!; [split; [|by apply (pending_same s)]|by apply later_same|done].
    apply (core_same hole s); try exact Hc; try done. apply Hc.
Qed.

Hypothesis options : 0 ≤ initialReconnectDelayMs ≤ maxReconnectDelayMs.
Notation set_reconnect_timer := (set_reconnect_timer initialReconnectDelayMs maxReconnectDelayMs).

Lemma reconnect_delay_bounds n : 0 ≤ n →
  0 ≤ reconnect_delay initialReconnectDelayMs maxReconnectDelayMs n ≤ maxReconnectDelayMs.
Proof. intros Hn. unfold reconnect_delay. assert (0 ≤ 2 ^ n) by (by apply Z.pow_nonneg). nia. Qed.

Lemma base_set_reconnect hole s :
  base hole s → sc_reconnectTimer s = None → base hole (set_reconnect_timer s) ∧ later s (set_reconnect_timer s) ∧
  wire_of (set_reconnect_timer s) = {| w_stopped := w_stopped (wire_of s); w_live := w_live (wire_of s);
                                       w_timer := true; w_status := w_status (wire_of s) |}.
Proof.
  intros [[] []] Et. set (t := sc_next s).
  assert (Hno : ∀ u d, sc_timers s !! u ≠ Some (ReconnectTimer d)).
  { intros u d Hu. assert (sc_reconnectTimer s = Some u) by (apply co_reconnect0; by exists d). congruence. }
  split_and!; [split|constructor; cbn; try done; [lia|by left|by exists []]|done].
  - constructor; cbn; fold t; try done.
    + intros u id q [[_ ?]|[_ Hq]]%lookup_insert_Some; [done|eauto].
    + intros q c Hq. destruct (co_request0 _ _ Hq) as (Hn & Hr & Htm & Hv). split_and!; [lia|done| |done].
      intros Hh Hs. rewrite lookup_insert_ne by lia. by apply Htm.
    + intros u Hu. rewrite lookup_insert_ne by lia. apply co_fresh_timer0. lia.
    + intros u Hu. apply co_fresh_settled0. lia.
    + intros u Hu. apply co_fresh_socket0. lia.
    + intros q task Hq. destruct (co_ready0 _ _ Hq). split; [lia|done].
    + intros u. split.
      * intros [d [[<- _]|[_ Hu]]%lookup_insert_Some]; [done|]. by apply Hno in Hu.
      * intros [= <-]. eexists. apply lookup_insert_eq.
    + intros q c d Hq. destruct (co_request0 _ _ Hq) as (Hn & _). rewrite lookup_insert_ne by lia. apply Hno.
    + intros u d [[_ [= <-]]|[_ Hu]]%lookup_insert_Some; [by apply reconnect_delay_bounds|by apply Hno in Hu].
    + intros q Hq. destruct (co_hole0 q Hq). rewrite lookup_insert_ne by lia. split; [lia|done].
    + lia.
  - constructor; cbn; fold t; [done|]. intros id pc Hg. destruct (pe_entry0 _ _ Hg) as (E & Hr & Htm).
    split_and!; [done..|]. rewrite lookup_insert_ne; [done|]. intros Eu. rewrite <-Eu in Htm.
    rewrite co_fresh_timer0 in Htm; [done|lia].
Qed.

(** A new generation: the socket is not the current one any more. *)
Lemma base_generation hole s :
  let s' := s <| sc_generation := sc_generation s + 1 |> in
  base hole s → base hole s' ∧ later s s' ∧
  wire_of s' = {| w_stopped := w_stopped (wire_of s); w_live := false; w_timer := w_timer (wire_of s);
                  w_status := w_status (wire_of s) |}.
Proof.
  intros s' [Hc Hp]. split_and!; [split; [|by apply (pending_same s)]|..].
  - apply (core_same hole s); try exact Hc; try done; [cbn; lia|apply Hc].
  - constructor; cbn; try done; [by left|lia|by exists []].
  - unfold wire_of, live_socket, current. cbn. f_equal. destruct (sc_socket s) as [k|]; [|done].
    apply bool_decide_eq_false. intros [_ Hk]. pose proof (co_socket _ _ Hc _ _ Hk). lia.
Qed.

Lemma base_add_socket hole s :
  let s' := add_socket (sc_generation s) s in
  base hole s → base hole s' ∧ later s s' ∧
  wire_of s' = {| w_stopped := w_stopped (wire_of s); w_live := true; w_timer := w_timer (wire_of s);
                  w_status := w_status (wire_of s) |}.
Proof.
  intros s' [[] Hp]. split_and!; [split; [|by apply (pending_same s)]|..].
  - constructor; cbn; try done.
    + intros q c Hq. destruct (co_request0 _ _ Hq) as (Hn & Hr & Htm & Hv). split_and!; [lia|done..].
    + intros t Hn. apply co_fresh_timer0. lia.
    + intros t Hn. apply co_fresh_settled0. lia.
    + intros t Hn. rewrite lookup_insert_ne by lia. apply co_fresh_socket0. lia.
    + intros k g [[<- <-]|[_ Hk]]%lookup_insert_Some; [done|eauto].
    + intros q task Hq. destruct (co_ready0 _ _ Hq). split; [lia|done].
    + intros q Hq. destruct (co_hole0 q Hq). split; [lia|done].
  - constructor; cbn; try done; [lia|by left|by exists []].
  - unfold wire_of, live_socket, current. cbn. f_equal. apply bool_decide_eq_true. split; [done|]. apply lookup_insert_eq.
Qed.

(** A change of the flags only. *)
Lemma base_flags hole s s' :
  sc_next s' = sc_next s → sc_settled s' = sc_settled s → sc_requests s' = sc_requests s →
  sc_timers s' = sc_timers s → sc_ready s' = sc_ready s → sc_sockets s' = sc_sockets s →
  sc_reconnectTimer s' = sc_reconnectTimer s → sc_generation s' = sc_generation s → 0 ≤ sc_reconnectAttempt s' →
  sc_pending s' = sc_pending s → sc_state s' = sc_state s →
  base hole s → base hole s' ∧ later s s'.
Proof.
  intros ?????????? ? [Hc Hp]. split; [split; [|by apply (pending_same s)]|by apply later_same].
  apply (core_same hole s); try exact Hc; try done. lia.
Qed.
End invariant.
