(* ===== verification/SocketClientTriples.v ===== *)
(** Every method of the client keeps to its invariant. The synchronous parts are
    followed through the states in between, where a request may be taken back
    and not yet settled, and the connection may be neither up nor due. *)
From S2P Require Import Prelude JsValues Errors Programs Jobs Protocol ClientState Tasks TaskRules.
From S2P Require Import SocketClient SocketClientOperations ClientStateSafety SocketClientInvariant.
#[local] Open Scope string_scope. #[local] Open Scope Z_scope.

Section triples.
Context (initialReconnectDelayMs maxReconnectDelayMs : Z) (decode : string → decoded) (sent : ServerMessage → Prop).
Hypothesis options : 0 ≤ initialReconnectDelayMs ≤ maxReconnectDelayMs.
Notation base := (base maxReconnectDelayMs decode sent).
Notation later := (later sent).
Notation stable := (TaskRules.stable later).
Notation J := (λ (s : client) (_ : gmap nat unit), inv maxReconnectDelayMs decode sent s).
Notation assertion := (client → client → gmap nat unit → Prop).
Notation triple := (triple (awaited := client_awaited) (enabled := client_enabled) (J := J) (G := later)
  (V := client_value) (E := client_error)).
Notation never := (TaskRules.never (S := client) (V := client_value) (K := nat) (B := unit)).
Notation quietly P m Q := (triple never (λ _ _ _ _, False) P m Q).
Notation neutral := (TaskRules.neutral (V := client_value) (E := client_error)
  (awaited := client_awaited) (enabled := client_enabled) (J := J) (G := later)).
Notation quiet := (TaskRules.quiet (V := client_value) (E := client_error)
  (awaited := client_awaited) (enabled := client_enabled) (J := J) (G := later)).
Notation reads := (TaskRules.reads (V := client_value) (E := client_error)
  (awaited := client_awaited) (enabled := client_enabled) (J := J) (G := later)).
Notation kept := (TaskRules.kept (J := J) (G := later)).
Notation holds := (holds (J := J) (G := later)).
Implicit Types (φ : client → Prop) (w : wire) (hole : option nat).

(** In between: [hole] is not settled, the connection is at [w]. *)
Definition at_ hole w own φ : assertion := λ st s f, own ##ₘ f ∧ base hole s ∧ later st s ∧ wire_of s = w ∧ φ s.

Lemma holds_at own φ st s f : holds own φ st s f ↔ ∃ w, linked w ∧ at_ None w own φ st s f.
Proof.
  split; [intros (Hd & [Hb Hl] & Hg & Hφ); by exists (wire_of s)|].
  intros (w & Hl & Hd & Hb & Hg & <- & Hφ). by split_and!.
Qed.

(** A method that ends with the connection linked keeps the invariant. *)
Lemma quietly_at {A : Type} own φ (m : act A) (Q : A → assertion) :
  (∀ w, linked w → quietly (at_ None w own φ) m Q) → quietly (holds own φ) m Q.
Proof.
  intros Hm. eapply triple_pre; [intros st s f; apply holds_at|]. apply triple_exists. intros w.
  apply triple_pure_l. apply Hm.
Qed.
Lemma quietly_holds {A : Type} own φ (P : assertion) (m : act A) w :
  linked w → quietly P m (λ _, at_ None w own φ) → quietly P m (λ _, holds own φ).
Proof. intros Hl Hm. eapply triple_weaken; [done| |exact Hm]. intros x st s f Ha. apply holds_at. by exists w. Qed.

(** A change of state in between. *)
Lemma quietly_update (g : client → client) hole hole' w w' own φ : stable φ →
  (∀ s, base hole s → wire_of s = w → φ s → base hole' (g s) ∧ later s (g s) ∧ wire_of (g s) = w') →
  quietly (at_ hole w own φ) (update_ g) (λ _, at_ hole' w' own φ).
Proof.
  intros Hφ Hg. apply triple_update. intros st s f (Hd & Hb & Hl & Hw & Hs). destruct (Hg s Hb Hw Hs) as (Hb' & Hl' & Hw').
  split_and!; [done|done|by etrans|done|by eapply Hφ].
Qed.
Lemma quietly_port c P : client_awaited c = false → quietly P (port_ c) (λ _, P).
Proof. intros Hc. eapply triple_weaken; [done| |by apply triple_port]. by intros x st s f [? _]. Qed.
Lemma quietly_gets {A : Type} (g : client → A) hole w own φ :
  quietly (at_ hole w own φ) (gets_ g) (λ x, at_ hole w own (λ s, φ s ∧ x = g s)).
Proof.
  eapply triple_weaken; [done| |apply triple_gets]. intros x st s f [(? & ? & ? & ? & ?) ->]. by split_and!.
Qed.
Lemma quietly_get {A : Type} (g : client → A) hole w own φ :
  quietly (at_ hole w own φ) (gets_ g) (λ _, at_ hole w own φ).
Proof. eapply triple_weaken; [done| |apply triple_gets]. by intros x st s f [? _]. Qed.
Lemma quietly_ret {A : Type} (x : A) P : quietly P (mret x) (λ _, P).
Proof. by apply triple_ret. Qed.
Lemma quietly_when (b : bool) (m : act unit) (P : assertion) Q :
  (b = true → quietly P m Q) → (b = false → quietly P (mret tt) Q) → quietly P (when b m) Q.
Proof. destruct b; auto. Qed.
Lemma quietly_for_each {A : Type} (g : A → act unit) (l : list A) (P : assertion) :
  (∀ x, quietly P (g x) (λ _, P)) → quietly P (for_each g l) (λ _, P).
Proof.
  intros Hg. induction l as [|x l IH]; [apply quietly_ret|]. apply (triple_bind _ _ _ (λ _, P)); [apply Hg|]. by intros [].
Qed.

(** ** Requests and dispatching *)

Lemma quietly_rejected e hole w own φ : stable φ →
  quietly (at_ hole w own φ) (rejected e) (λ _, at_ hole w own φ).
Proof.
  intros Hφ. unfold rejected. apply (triple_bind _ _ _ (λ p, at_ hole w own (λ s, φ s ∧ p = sc_next s))); [apply quietly_gets|].
  intros p. apply (triple_bind _ _ _ (λ _, at_ hole w own φ)); [|intros []; apply quietly_ret].
  apply triple_update. intros st s f (Hd & Hb & Hl & Hw & Hs & ->).
  destruct (base_next _ _ _ hole s Hb) as (Hb' & Hl' & Hw' & Hr).
  split_and!; [done| |etrans; [done|etrans; [done|apply later_settle]]| |].
  - apply base_settle; [done| |cbn; lia|done]. intros ->. destruct (co_hole _ _ _ _ _ (proj1 Hb) _ eq_refl). lia.
  - by destruct (settle_promise_frame (sc_next s) (Err e) (s <| sc_next := S (sc_next s) |>)) as
      (_ & _ & _ & _ & _ & _ & _ & _ & _ & _ & ->).
  - eapply Hφ; [done|]. etrans; [done|apply later_settle].
Qed.

Lemma quietly_sendWithRequestId input requestId hole w own φ : stable φ →
  quietly (at_ hole w own φ) (sendWithRequestId input requestId) (λ _, at_ hole w own φ).
Proof.
  intros Hφ. unfold sendWithRequestId.
  apply (triple_bind _ _ _ (λ _, at_ hole w own φ)); [apply quietly_get|intros socket].
  apply (triple_bind _ _ _ (λ _, at_ hole w own φ)); [apply quietly_get|intros connected].
  apply (triple_bind _ _ _ (λ _, at_ hole w own φ)).
  { destruct socket as [k|]; [|apply quietly_ret].
    apply (triple_bind _ _ _ (λ _, at_ hole w own φ)); [exact (quietly_port (ReadyState k) _ eq_refl)|intros st; apply quietly_ret]. }
  intros [k|]; [|by apply quietly_rejected].
  set (command := {| cmd_requestId := requestId; cmd_input := input |}).
  set (ψ p s := φ s ∧ sc_timers s !! S p = Some (CommandTimer requestId p)).
  apply (triple_bind _ _ _ (λ p, at_ hole w own (λ s, φ s ∧ p = sc_next s))); [apply quietly_gets|intros p].
  apply (triple_bind _ _ _ (λ _, at_ hole w own (ψ p))).
  { apply triple_update. intros st s f (Hd & Hb & Hl & Hw & Hs & ->).
    destruct (base_add_request _ _ _ hole command s Hb) as (Hb' & Hl' & Hw').
    split_and!; [done|done|by etrans|congruence|]. split; [by eapply Hφ|]. apply lookup_insert_eq. }
  intros []. apply (triple_bind _ _ _ (λ _, at_ hole w own (ψ p))); [exact (quietly_port (SendText k command) _ eq_refl)|].
  assert (Hret : quietly (at_ hole w own (ψ p)) (mret p) (λ _, at_ hole w own φ)).
  { apply triple_ret. intros st s f (? & ? & ? & ? & ? & ?). by split_and!. }
  intros [[]|e]; [done|]. apply (triple_bind _ _ _ (λ _, at_ hole w own φ)); [|intros []; apply quietly_ret].
  apply triple_update. intros st s f (Hd & Hb & Hl & Hw & Hs & Ht).
  destruct (base_give_up _ _ _ hole requestId p e s Hb Ht) as (Hb' & Hl' & Hw').
  split_and!; [done|done|by etrans|exact (eq_trans Hw' Hw)|by eapply Hφ].
Qed.

Lemma quietly_send input hole w own φ : stable φ → quietly (at_ hole w own φ) (send input) (λ _, at_ hole w own φ).
Proof.
  intros Hφ. unfold send. apply (triple_bind _ _ _ (λ _, at_ hole w own φ)); [exact (quietly_port NextRequestId _ eq_refl)|intros id].
  by apply quietly_sendWithRequestId.
Qed.

Lemma quietly_spawn task hole w own φ : stable φ → task_ok decode sent task →
  quietly (at_ hole w own φ) (spawn task) (λ _, at_ hole w own φ).
Proof.
  intros Hφ Ht. unfold spawn. apply (triple_bind _ _ _ (λ _, at_ hole w own φ)); [apply quietly_get|intros p].
  apply (triple_bind _ _ _ (λ _, at_ hole w own φ)); [|intros []; apply quietly_ret].
  apply quietly_update; [done|]. intros s Hb <- _. by apply base_spawned.
Qed.

(** A change of fields nothing depends on. *)
Definition idle (g : client → client) : Prop := ∀ s,
  sc_next (g s) = sc_next s ∧ sc_settled (g s) = sc_settled s ∧ sc_requests (g s) = sc_requests s ∧
  sc_timers (g s) = sc_timers s ∧ sc_ready (g s) = sc_ready s ∧ sc_sockets (g s) = sc_sockets s ∧
  sc_reconnectTimer (g s) = sc_reconnectTimer s ∧ sc_generation (g s) = sc_generation s ∧
  (0 ≤ sc_reconnectAttempt s → 0 ≤ sc_reconnectAttempt (g s)) ∧
  sc_pending (g s) = sc_pending s ∧ sc_state (g s) = sc_state s ∧ wire_of (g s) = wire_of s.

Lemma quietly_idle g hole w own φ : stable φ → idle g → quietly (at_ hole w own φ) (update_ g) (λ _, at_ hole w own φ).
Proof.
  intros Hφ Hg. apply quietly_update; [done|]. intros s Hb <- _.
  destruct (Hg s) as (? & ? & ? & ? & ? & ? & ? & ? & Ha & ? & ? & ?).
  destruct (base_flags maxReconnectDelayMs decode sent hole s (g s)) as [??]; try done. apply Ha, Hb.
Qed.

Lemma quietly_resync g input (task : nat → client_task) hole w own φ : stable φ → idle g →
  (∀ p, task_ok decode sent (task p)) →
  quietly (at_ hole w own φ) (update_ g;; p ← send input; spawn (task p);; mret tt) (λ _, at_ hole w own φ).
Proof.
  intros Hφ Hg Ht. apply (triple_bind _ _ _ (λ _, at_ hole w own φ)); [by apply quietly_idle|intros []].
  apply (triple_bind _ _ _ (λ _, at_ hole w own φ)); [by apply quietly_send|intros p].
  apply (triple_bind _ _ _ (λ _, at_ hole w own φ)); [by apply quietly_spawn|intros _; apply quietly_ret].
Qed.

Lemma quietly_syncRevisionGaps hole w own φ : stable φ →
  quietly (at_ hole w own φ) syncRevisionGaps (λ _, at_ hole w own φ).
Proof.
  intros Hφ. unfold syncRevisionGaps.
  apply (triple_bind _ _ _ (λ _, at_ hole w own φ)); [apply quietly_get|intros c].
  apply quietly_when; intros _; [|apply quietly_ret].
  apply (triple_bind _ _ _ (λ _, at_ hole w own φ)); [apply quietly_get|intros ids]. apply quietly_for_each. intros id.
  apply (triple_bind _ _ _ (λ _, at_ hole w own φ)); [apply quietly_get|intros b].
  apply quietly_when; intros _; [|apply quietly_ret]. apply quietly_resync; [done|by intros s; split_and!|done].
Qed.

Lemma quietly_syncJobRunRevisionGaps hole w own φ : stable φ →
  quietly (at_ hole w own φ) syncJobRunRevisionGaps (λ _, at_ hole w own φ).
Proof.
  intros Hφ. unfold syncJobRunRevisionGaps.
  apply (triple_bind _ _ _ (λ _, at_ hole w own φ)); [apply quietly_get|intros c].
  apply quietly_when; intros _; [|apply quietly_ret].
  apply (triple_bind _ _ _ (λ _, at_ hole w own φ)); [apply quietly_get|intros keys]. apply quietly_for_each. intros key.
  apply (triple_bind _ _ _ (λ _, at_ hole w own φ)); [apply quietly_get|intros b].
  apply quietly_when; intros _; [|apply quietly_ret]. destruct (key_parts key) as [[jobId runId]|]; [|apply quietly_ret].
  apply quietly_resync; [done|by intros s; split_and!|done].
Qed.

Definition shows (a : ChatClientAction) w : wire := {|
  w_stopped := w_stopped w; w_live := w_live w; w_timer := w_timer w; w_status := connection_after a (w_status w) |}.

Lemma quietly_dispatch a hole w own φ : stable φ → sent_action sent a →
  quietly (at_ hole w own φ) (dispatch a) (λ _, at_ hole (shows a w) own φ).
Proof.
  intros Hφ Ha. unfold dispatch.
  eapply (triple_bind _ _ _ (λ next, at_ hole w own (λ s, φ s ∧ next = reduceChatClientState (sc_state s) a)));
    [apply quietly_gets|]. intros [next|].
  - apply (triple_bind _ _ _ (λ _, at_ hole (shows a w) own φ)).
    { apply triple_update. intros st s f (Hd & Hb & Hl & <- & Hs & E).
      destruct (base_reduce _ _ _ hole s a next Hb Ha (eq_sym E)) as (Hb' & Hl' & Hw').
      split_and!; [done|done|by etrans|done|by eapply Hφ]. }
    intros []. apply (triple_bind _ _ _ (λ _, at_ hole (shows a w) own φ)); [exact (quietly_port NotifyListeners _ eq_refl)|].
    intros []. apply (triple_bind _ _ _ (λ _, at_ hole (shows a w) own φ)); [by apply quietly_syncRevisionGaps|].
    intros []. by apply quietly_syncJobRunRevisionGaps.
  - apply triple_ret. intros st s f (Hd & Hb & Hl & <- & Hs & E). split_and!; try done.
    unfold shows. destruct a; try done.
Qed.

Lemma quietly_setTransportError e hole w own φ : stable φ →
  quietly (at_ hole w own φ) (setTransportError e) (λ _, at_ hole w own φ).
Proof. intros Hφ. destruct w. by apply (quietly_dispatch (AError _) hole). Qed.

(** ** The connection *)

(** Reading what the wire shows. *)
Lemma quietly_wire {A : Type} (g : client → A) (h : wire → A) hole w own φ :
  (∀ s, g s = h (wire_of s)) →
  quietly (at_ hole w own φ) (gets_ g) (λ x st s f, at_ hole w own φ st s f ∧ x = h w).
Proof.
  intros Hg. eapply triple_weaken; [done| |apply triple_gets]. intros x st s f [Ha ->]. split; [done|].
  destruct Ha as (_ & _ & _ & <- & _). apply Hg.
Qed.

Definition reconnecting w : wire :=
  if w_stopped w || w_timer w then w else {|
    w_stopped := w_stopped w; w_live := w_live w; w_timer := true; w_status := Reconnecting |}.

Lemma quietly_scheduleReconnect w own φ : stable φ →
  quietly (at_ None w own φ) (scheduleReconnect initialReconnectDelayMs maxReconnectDelayMs)
    (λ _, at_ None (reconnecting w) own φ).
Proof.
  intros Hφ. unfold scheduleReconnect.
  eapply triple_bind.
  { apply (quietly_wire _ (λ w, negb (w_stopped w) && negb (w_timer w))). intros s. cbn. f_equal.
    by destruct (sc_reconnectTimer s). }
  intros idle. apply triple_pure. intros ->. unfold reconnecting. destruct (w_stopped w) eqn:Es; [by apply quietly_ret|].
  destruct (w_timer w) eqn:Et; [by apply quietly_ret|]. cbn [negb andb orb when].
  apply (triple_bind _ _ _ (λ _, at_ None (shows (AConnection Reconnecting) w) own φ)); [by apply quietly_dispatch|].
  intros []. apply quietly_update; [done|]. intros s Hb Hw _.
  destruct (base_set_reconnect initialReconnectDelayMs maxReconnectDelayMs decode sent options None s Hb) as (Hb' & Hl' & Hw').
  - apply (f_equal w_timer) in Hw. cbn in Hw. rewrite Et in Hw. apply bool_decide_eq_false in Hw.
    by destruct (sc_reconnectTimer s); [destruct Hw|].
  - split_and!; [done|done|]. rewrite Hw', Hw. cbn. by rewrite Es.
Qed.

Lemma quietly_open b w own φ : stable φ →
  (w_stopped w = true → linked w) → (w_stopped w = false → w_timer w = false) →
  quietly (at_ None w own φ) (open initialReconnectDelayMs maxReconnectDelayMs b) (λ _, holds own φ).
Proof.
  intros Hφ Hstop Hrun. unfold open. eapply triple_bind; [by apply (quietly_wire _ w_stopped)|].
  intros stopped. apply triple_pure. intros ->. destruct (w_stopped w) eqn:Es.
  { apply (quietly_holds _ _ _ _ w); [by apply Hstop|apply quietly_ret]. }
  specialize (Hrun eq_refl). cbn [negb when].
  set (status := if b then Reconnecting else Connecting).
  set (w1 := {| w_stopped := false; w_live := w_live w; w_timer := false; w_status := status |}).
  set (w2 := {| w_stopped := false; w_live := false; w_timer := false; w_status := status |}).
  apply (triple_bind _ _ _ (λ _, at_ None w1 own φ)).
  { replace w1 with (shows (AConnection status) w); [by apply quietly_dispatch|]. unfold w1, shows. by rewrite Es, Hrun. }
  intros []. apply (triple_bind _ _ _ (λ _, at_ None w2 own φ)).
  { apply quietly_update; [done|]. intros s Hb Hw _. destruct (base_generation _ _ _ None s Hb) as (? & ? & Hw').
    split_and!; [done|done|]. by rewrite Hw', Hw. }
  intros []. apply (triple_bind _ _ _ (λ g, at_ None w2 own (λ s, φ s ∧ g = sc_generation s))); [apply quietly_gets|].
  intros g. apply (triple_bind _ _ _ (λ _, at_ None w2 own (λ s, φ s ∧ g = sc_generation s)));
    [exact (quietly_port NewWebSocket _ eq_refl)|]. intros [[]|e].
  - apply (quietly_holds _ _ _ _ {| w_stopped := false; w_live := true; w_timer := false; w_status := status |}).
    { split_and!; cbn; [done|by left|done]. }
    apply triple_update. intros st s f (Hd & Hb & Hl & Hw & Hs & ->).
    destruct (base_add_socket _ _ _ None s Hb) as (Hb' & Hl' & Hw').
    split_and!; [done|done|by etrans| |by eapply Hφ]. by rewrite Hw', Hw.
  - apply (triple_bind _ _ _ (λ _, at_ None w2 own φ)).
    { eapply triple_pre; [|by apply quietly_setTransportError]. intros st s f (? & ? & ? & ? & ? & _). by split_and!. }
    intros []. apply (quietly_holds _ _ _ _ (reconnecting w2)); [|by apply quietly_scheduleReconnect].
    split_and!; cbn; [done|by right|done].
Qed.

Lemma quiet_connect own φ : stable φ →
  quietly (holds own φ) (connect initialReconnectDelayMs maxReconnectDelayMs) (λ _, holds own φ).
Proof.
  intros Hφ. unfold connect. apply quietly_at. intros w Hl.
  apply (triple_bind _ _ _ (λ _, at_ None w own φ)); [apply quietly_get|]. intros live.
  apply quietly_when; intros _; [|by apply (quietly_holds _ _ _ _ w); [|apply quietly_ret]].
  set (w' := {| w_stopped := false; w_live := w_live w; w_timer := false; w_status := w_status w |}).
  apply (triple_bind _ _ _ (λ _, at_ None w' own φ)); [|intros []; by apply quietly_open].
  apply quietly_update; [done|]. intros s Hb <- _.
  set (s1 := s <| sc_stopped := false |> <| sc_reconnectAttempt := 0 |>).
  destruct (base_flags maxReconnectDelayMs decode sent None s s1) as [Hb1 Hl1]; try done.
  destruct (base_clearReconnectTimer _ _ _ None s1 Hb1) as (Hb2 & Hl2 & Hw2). split_and!; [done|by etrans|exact Hw2].
Qed.

Definition unplugged w : wire := {| w_stopped := w_stopped w; w_live := false; w_timer := w_timer w; w_status := w_status w |}.
Lemma base_no_socket s : base None s → let s' := s <| sc_socket := None |> in
  base None s' ∧ later s s' ∧ wire_of s' = unplugged (wire_of s).
Proof.
  intros Hb s'. destruct (base_flags maxReconnectDelayMs decode sent None s s') as [Hb1 Hl1]; try done.
  apply Hb.
Qed.

Lemma quiet_disconnect own φ : stable φ → quietly (holds own φ) disconnect (λ _, holds own φ).
Proof.
  intros Hφ. unfold disconnect. apply quietly_at. intros w Hl.
  set (w' := {| w_stopped := true; w_live := false; w_timer := false; w_status := w_status w |}).
  apply (triple_bind _ _ _ (λ _, at_ None {| w_stopped := true; w_live := w_live w; w_timer := false; w_status := w_status w |} own φ)).
  { apply quietly_update; [done|]. intros s Hb <- _. set (s1 := s <| sc_stopped := true |>).
    destruct (base_flags maxReconnectDelayMs decode sent None s s1) as [Hb1 Hl1]; try done; [apply Hb|].
    destruct (base_clearReconnectTimer _ _ _ None s1 Hb1) as (Hb2 & Hl2 & Hw2).
    split_and!; [done|by etrans|done]. }
  intros []. apply (triple_bind _ _ _ (λ _, at_ None w' own φ)).
  { apply quietly_update; [done|]. intros s Hb Hw _. destruct (base_generation _ _ _ None s Hb) as (? & ? & Hw').
    split_and!; [done|done|]. by rewrite Hw', Hw. }
  intros []. apply (triple_bind _ _ _ (λ _, at_ None w' own φ)); [apply quietly_get|]. intros socket.
  apply (triple_bind _ _ _ (λ _, at_ None w' own φ)).
  { apply quietly_update; [done|]. intros s Hb Hw _. destruct (base_no_socket s Hb) as (? & ? & Hw').
    split_and!; [done|done|]. by rewrite Hw', Hw. }
  intros []. apply (triple_bind _ _ _ (λ _, at_ None w' own φ)).
  { destruct socket as [k|]; [exact (quietly_port (CloseSocket k) _ eq_refl)|apply quietly_ret]. }
  intros _. apply (triple_bind _ _ _ (λ _, at_ None w' own φ)).
  { apply quietly_update; [done|]. intros s Hb <- _. by apply base_rejectPending. }
  intros []. apply (quietly_holds _ _ _ _ (shows (AConnection Disconnected) w')); [|by apply quietly_dispatch].
  split_and!; by cbn.
Qed.

Lemma quietly_closed own w φ : stable φ → linked w → w_live w = true → quietly (at_ None w own φ)
  (update_ (λ s, rejectPending (ChatTransportError "The server connection closed.") (s <| sc_socket := None |>));;
   stopped ← gets_ sc_stopped;
   if (stopped : bool) then dispatch (AConnection Disconnected)
   else scheduleReconnect initialReconnectDelayMs maxReconnectDelayMs) (λ _, holds own φ).
Proof.
  intros Hφ (Hl1 & Hl2 & Hl3) Hlive.
  assert (Ht : w_timer w = false) by (destruct (w_timer w); [destruct Hl1; congruence|done]).
  apply (triple_bind _ _ _ (λ _, at_ None (unplugged w) own φ)).
  { apply quietly_update; [done|]. intros s Hb <- _. destruct (base_no_socket s Hb) as (Hb1 & Hg1 & Hw1).
    destruct (base_rejectPending maxReconnectDelayMs decode sent
      (ChatTransportError "The server connection closed.") _ Hb1) as (Hb2 & Hg2 & Hw2).
    split_and!; [done|by etrans|congruence]. }
  intros []. eapply triple_bind; [by apply (quietly_wire _ w_stopped)|].
  intros stopped. apply triple_pure. cbn. intros ->. destruct (w_stopped w) eqn:Es.
  - apply (quietly_holds _ _ _ _ (shows (AConnection Disconnected) (unplugged w))); [|by apply quietly_dispatch].
    split_and!; cbn; [by rewrite Ht|by rewrite Es|done].
  - apply (quietly_holds _ _ _ _ (reconnecting (unplugged w))); [|by apply quietly_scheduleReconnect].
    unfold reconnecting, unplugged. cbn. rewrite Es, Ht. split_and!; cbn; [done|by right|done].
Qed.

(** ** Messages *)

Lemma quietly_act a hole w own φ : stable φ → sent_action sent a → (∀ c, connection_after a c = c) →
  quietly (at_ hole w own φ) (dispatch a) (λ _, at_ hole w own φ).
Proof.
  intros Hφ Ha Hc. pose proof (quietly_dispatch a hole w own φ Hφ Ha) as H. unfold shows in H. rewrite Hc in H.
  by destruct w.
Qed.

Lemma quietly_start_recovery generation hole w own φ : stable φ →
  quietly (at_ hole w own φ) (start_recovery generation) (λ _, at_ hole w own φ).
Proof.
  intros Hφ. unfold start_recovery. apply (triple_bind _ _ _ (λ _, at_ hole w own φ)); [apply quietly_get|]. intros [|]; cbn [negb].
  - apply (triple_bind _ _ _ (λ _, at_ hole w own φ)); [apply quietly_get|intros captured].
    apply (triple_bind _ _ _ (λ _, at_ hole w own φ)); [by apply quietly_send|intros p].
    apply (triple_bind _ _ _ (λ _, at_ hole w own φ)); [by apply quietly_spawn|intros t]. apply quietly_ret.
  - apply quietly_ret.
Qed.

(** The fields of a run update that repeat those of the run. *)
Definition consistent_update (m : ServerMessage) : bool :=
  match m with
  | MJobRunUpdated jobId runId revision run =>
      String.eqb jobId (rs_jobId run) && String.eqb runId (rs_id run) && (revision =? rs_revision run)
  | _ => true
  end.

Lemma message_action_sent m input a :
  sent m → consistent_update m = true → message_action m input = Some a →
  sent_action sent a ∧ ∀ c, connection_after a c = c.
Proof.
  intros Hs Hc Ha. destruct m; try done; injection Ha as <-; cbn; split; eauto 6. cbn in Hc.
  apply andb_true_iff in Hc as [[E1%String.eqb_eq E2%String.eqb_eq]%andb_true_iff E3%Z.eqb_eq]. by subst.
Qed.

Lemma quietly_projectMessage m input hole w own φ : stable φ → sent m → consistent_update m = true →
  quietly (at_ hole w own φ) (projectMessage m input) (λ _, at_ hole w own φ).
Proof.
  intros Hφ Hs Hc. unfold projectMessage. destruct (message_action m input) as [a|] eqn:E; [|apply quietly_ret].
  destruct (message_action_sent _ _ _ Hs Hc E). by apply quietly_act.
Qed.

Lemma quietly_applyCommandSuccess input hole w own φ : stable φ →
  quietly (at_ hole w own φ) (applyCommandSuccess input) (λ _, at_ hole w own φ).
Proof. intros Hφ. destruct input; cbn; try apply quietly_ret; by apply quietly_act. Qed.

(** Settling a request that was taken back. *)
Definition asked p (c : ClientCommand) (s : client) : Prop := sc_requests s !! p = Some c.
Lemma stable_asked p c : stable (asked p c).
Proof. intros s s' Hp Hl. eapply lookup_weaken; [done|apply Hl]. Qed.

Lemma quietly_fill p c r w own φ : stable φ →
  (∀ v, r = Ok v → ∃ m, v = VMessage m ∧ answers sent c m) →
  quietly (at_ (Some p) w own (λ s, φ s ∧ asked p c s)) (update_ (settle_promise p r)) (λ _, at_ None w own φ).
Proof.
  intros Hφ Hr. apply triple_update. intros st s f (Hd & Hb & Hl & Hw & Hs & Ha).
  split_and!; [done| |etrans; [done|apply later_settle]| |eapply Hφ; [done|apply later_settle]].
  - apply base_fill; [done|]. intros c' v Hc ->. unfold asked in Ha. assert (c' = c) as -> by congruence. by apply Hr.
  - rewrite <-Hw. by destruct (settle_promise_frame p r s) as (_ & _ & _ & _ & _ & _ & _ & _ & _ & _ & ->).
Qed.

Lemma quietly_accept_response requestId pc m w own φ : stable φ → sent m → consistent_update m = true →
  message_requestId m = Some requestId →
  quietly (at_ None w own (λ s, φ s ∧ Some pc = map_get requestId (sc_pending s))) (accept_response requestId pc m)
    (λ _, at_ None w own φ).
Proof.
  intros Hφ Hs Hc Hid. unfold accept_response. set (p := pc_promise pc). set (c := pc_command pc).
  set (ψ s := φ s ∧ asked p c s ∧ cmd_requestId c = requestId).
  assert (Hψ : stable ψ).
  { apply stable_and; [done|]. apply stable_and; [apply stable_asked|]. by intros ???. }
  apply (triple_bind _ _ _ (λ _, at_ (Some p) w own ψ)).
  { apply triple_update. intros st s f (Hd & Hb & Hl & Hw & Hφs & Hg). symmetry in Hg.
    destruct (pe_entry _ (proj2 Hb) _ _ Hg) as (Ei & Hr & Ht). destruct (co_timer _ _ _ _ _ (proj1 Hb) _ _ _ Ht) as (Et & _).
    change (clear_timer (pc_timer pc) (forget_pending requestId s))
      with (forget_pending requestId (clear_timer (pc_timer pc) s)). fold p in Et, Ht. rewrite Et in *.
    split_and!; [done|by apply base_take_back|etrans; [done|by apply later_take_back]|done|].
    split_and!; [by eapply Hφ; [|by apply later_take_back]|exact Hr|exact Ei]. }
  assert (Hfill : ∀ r, (∀ v, r = Ok v → ∃ m, v = VMessage m ∧ answers sent c m) →
    quietly (at_ (Some p) w own ψ) (update_ (settle_promise p r)) (λ _, at_ None w own φ)).
  { intros r Hr. eapply triple_pre; [|by apply (quietly_fill p c)]. intros st s f (? & ? & ? & ? & ? & ? & ?). by split_and!. }
  intros []. assert (Hrest : message_requestId m = Some requestId →
    quietly (at_ (Some p) w own ψ)
      (if negb (isExpectedResponse (cmd_input c) m)
       then update_ (settle_promise p (Err (ChatTransportError "The server response did not match the command.")))
       else projectMessage m (Some (cmd_input c));; applyCommandSuccess (cmd_input c);;
            update_ (settle_promise p (Ok (VMessage m)))) (λ _, at_ None w own φ)).
  { intros _. destruct (isExpectedResponse (cmd_input c) m) eqn:Ee; cbn [negb]; [|by apply Hfill].
    apply (triple_bind _ _ _ (λ _, at_ (Some p) w own ψ)); [by apply quietly_projectMessage|intros []].
    apply (triple_bind _ _ _ (λ _, at_ (Some p) w own ψ)); [by apply quietly_applyCommandSuccess|intros []].
    intros st s f Ha. apply (Hfill (Ok (VMessage m))); [|done]. intros v [= <-]. exists m. split; [done|].
    destruct Ha as (_ & _ & _ & _ & _ & _ & Ei). split_and!; [done|congruence|done]. }
  destruct m; try (by apply Hrest). by apply Hfill.
Qed.

Lemma quietly_acceptMessage m w own φ : stable φ → sent m → consistent_update m = true →
  linked w → w_live w = true → quietly (at_ None w own φ) (acceptMessage m) (λ _, holds own φ).
Proof.
  intros Hφ Hs Hc Hl Hlive. unfold acceptMessage.
  assert (Hproject : quietly (at_ None w own φ) (projectMessage m None) (λ _, holds own φ)).
  { apply (quietly_holds _ _ _ _ w); [done|]. by apply quietly_projectMessage. }
  assert (Hresponse : ∀ id, message_requestId m = Some id → quietly (at_ None w own φ)
    (pending ← gets_ (λ s, map_get id (sc_pending s));
     match pending with Some pending => accept_response id pending m | None => mret tt end) (λ _, holds own φ)).
  { intros id Hid. apply (quietly_holds _ _ _ _ w); [done|].
    apply (triple_bind _ _ _ (λ x, at_ None w own (λ s, φ s ∧ x = map_get id (sc_pending s)))); [apply quietly_gets|].
    intros [pc|]; [by apply quietly_accept_response|].
    apply triple_ret. intros st s f (? & ? & ? & ? & ? & _). by split_and!. }
  destruct m as [version|grace|id a|id code text|id ws|id wid cs|id c t|id js|id jid rs n|id run|j r v run|e];
    cbn [message_requestId] in *; try (destruct id as [id|]); try done; try (by apply Hresponse).
  - apply (triple_bind _ _ _ (λ _, at_ None w own φ)); [by apply quietly_idle; [|intros s; split_and!]|intros []].
    apply (quietly_holds _ _ _ _ (shows (AReady version) w)).
    { destruct Hl as (? & ? & _). by split_and!. }
    apply (triple_bind _ _ _ (λ _, at_ None (shows (AReady version) w) own φ)); [by apply quietly_dispatch|intros []].
    apply (triple_bind _ _ _ (λ _, at_ None (shows (AReady version) w) own φ)); [apply quietly_get|intros g].
    apply (triple_bind _ _ _ (λ _, at_ None (shows (AReady version) w) own φ)); [by apply quietly_start_recovery|intros _].
    apply quietly_ret.
  - set (w' := {| w_stopped := true; w_live := w_live w; w_timer := false; w_status := w_status w |}).
    apply (quietly_holds _ _ _ _ w'); [destruct Hl as (_ & _ & ?); by split_and!|].
    apply (triple_bind _ _ _ (λ _, at_ None w' own φ)); [|intros []; by apply quietly_act].
    apply quietly_update; [done|]. intros s Hb <- _. set (s1 := s <| sc_stopped := true |>).
    destruct (base_flags maxReconnectDelayMs decode sent None s s1) as [Hb1 Hl1]; try done; [apply Hb|].
    destruct (base_clearReconnectTimer _ _ _ None s1 Hb1) as (Hb2 & Hl2 & Hw2).
    destruct (base_rejectPending _ _ _ (ChatTransportError "The server is shutting down.") _ Hb2) as (Hb3 & Hl3 & Hw3).
    split_and!; [done|exact (transitivity Hl1 (transitivity Hl2 Hl3))|by rewrite Hw3, Hw2].
Qed.

Lemma quietly_handleMessage data w own φ : stable φ → frame_ok decode sent data →
  linked w → w_live w = true → quietly (at_ None w own φ) (handleMessage decode data) (λ _, holds own φ).
Proof.
  intros Hφ Hd Hl Hlive. unfold handleMessage.
  assert (Hbad : ∀ e, quietly (at_ None w own φ) (setTransportError e) (λ _, holds own φ)).
  { intros e. apply (quietly_holds _ _ _ _ w); [done|]. by apply quietly_setTransportError. }
  destruct data as [|text]; [done|]. cbn in Hd. destruct (decode text) as [| |m]; [done..|].
  fold (consistent_update m). destruct (consistent_update m) eqn:E; cbn [negb]; [|done].
  apply quietly_acceptMessage; auto.
Qed.

(** An event of a socket reaches the client while the socket is the current one. *)
Lemma quiet_if_current k (m : act unit) own φ : stable φ →
  (∀ w, linked w → w_live w = true → quietly (at_ None w own φ) m (λ _, holds own φ)) →
  quietly (holds own φ) (if_current k m) (λ _, holds own φ).
Proof.
  intros Hφ Hm. unfold if_current. apply quietly_at. intros w Hl.
  apply (triple_bind _ _ _ (λ x, at_ None w own (λ s, φ s ∧ x = current k s))); [apply quietly_gets|].
  intros [|]; cbn [when].
  - destruct (w_live w) eqn:Hlive.
    + eapply triple_pre; [|by apply Hm]. intros st s f (? & ? & ? & ? & ? & _). by split_and!.
    + intros st s f (_ & _ & _ & <- & _ & Hc). exfalso. cbn in Hlive. unfold live_socket in Hlive.
      unfold current in Hc. symmetry in Hc. pose proof Hc as [Hk _]%bool_decide_eq_true. rewrite Hk in Hlive.
      unfold current in Hlive. congruence.
  - apply triple_ret. intros st s f (? & ? & ? & ? & ? & _). apply holds_at. exists w. by split_and!.
Qed.

Lemma quiet_socket_event task own φ : stable φ → task_ok decode sent task →
  quietly (holds own φ) (socket_event initialReconnectDelayMs maxReconnectDelayMs decode task) (λ _, holds own φ).
Proof.
  intros Hφ Ht. destruct task; try apply quietly_ret; cbn [socket_event].
  - apply quiet_if_current; [done|]. intros w. by apply quietly_handleMessage.
  - unfold socket_closed. apply quiet_if_current; [done|]. intros w. by apply quietly_closed.
  - apply quiet_if_current; [done|]. intros w Hl _. apply (quietly_holds _ _ _ _ w); [done|]. by apply quietly_setTransportError.
Qed.

Lemma quiet_timer_fired t own φ : stable φ →
  quietly (holds own φ) (timer_fired initialReconnectDelayMs maxReconnectDelayMs t) (λ _, holds own φ).
Proof.
  intros Hφ. unfold timer_fired. apply quietly_at. intros w Hl.
  apply (triple_bind _ _ _ (λ x, at_ None w own (λ s, φ s ∧ x = sc_timers s !! t))); [apply quietly_gets|].
  intros [[id p|d]|].
  - apply (quietly_holds _ _ _ _ w); [done|]. apply triple_update. intros st s f (Hd & Hb & Hg & Hw & Hs & Ht). symmetry in Ht.
    destruct (co_timer _ _ _ _ _ (proj1 Hb) _ _ _ Ht) as (-> & _).
    destruct (base_give_up _ _ _ None id p (ChatTransportError "The server command timed out.") s Hb Ht) as (Hb' & Hl' & Hw').
    split_and!; [done|done|by etrans|exact (eq_trans Hw' Hw)|by eapply Hφ].
  - set (w' := {| w_stopped := w_stopped w; w_live := w_live w; w_timer := false; w_status := w_status w |}).
    apply (triple_bind _ _ _ (λ _ st s f, w_timer w = true ∧ at_ None w' own φ st s f)).
    { apply triple_update. intros st s f (Hd & Hb & Hg & <- & Hs & Ht). symmetry in Ht.
      assert (Er : sc_reconnectTimer s = Some t) by (apply (co_reconnect _ _ _ _ _ (proj1 Hb)); by exists d).
      destruct (base_drop_reconnect _ _ _ None t s Hb Er) as (Hb' & Hl' & Hw').
      split; [cbn; by rewrite Er|]. split_and!; [done|done|by etrans|done|by eapply Hφ]. }
    intros []. apply triple_pure_l. intros Ht. apply quietly_open; [done| |done].
    intros Hst. exfalso. destruct Hl as [Hl _]. destruct (Hl Ht). cbn in Hst. congruence.
  - apply triple_ret. intros st s f (? & ? & ? & ? & ? & _). apply holds_at. exists w. by split_and!.
Qed.

(** ** Async methods *)

Lemma neutral_at {A : Type} (m : act A) :
  (∀ w own φ, stable φ → quietly (at_ None w own φ) m (λ _, at_ None w own φ)) → neutral m.
Proof.
  intros Hm own φ Hφ. apply triple_quiet, quietly_at. intros w Hl. apply (quietly_holds _ _ _ _ w); [done|]. by apply Hm.
Qed.
Lemma neutral_quietly (m : act unit) : (∀ own φ, stable φ → quietly (holds own φ) m (λ _, holds own φ)) → neutral m.
Proof. intros Hm own φ Hφ. by apply triple_quiet, Hm. Qed.

Lemma neutral_dispatch a : sent_action sent a → (∀ c, connection_after a c = c) → neutral (dispatch a).
Proof. intros Ha Hc. apply neutral_at. intros w own φ Hφ. by apply quietly_act. Qed.
Lemma neutral_send input : neutral (send input).
Proof. apply neutral_at. intros w own φ Hφ. by apply quietly_send. Qed.
Lemma neutral_sendWithRequestId input id : neutral (sendWithRequestId input id).
Proof. apply neutral_at. intros w own φ Hφ. by apply quietly_sendWithRequestId. Qed.
Lemma neutral_await_message p : neutral (await_message p).
Proof. apply neutral_bind; [exact (neutral_await (ans := client_answer) (AwaitPromise p) eq_refl)|]. intros r. apply neutral_reads, reads_lift. Qed.
Lemma neutral_request input : neutral (request input).
Proof. apply neutral_bind; [apply neutral_send|]. intros p. apply neutral_await_message. Qed.
Lemma client_neutral_awaiting {A : Type} (m : act A) : neutral m → neutral (awaiting m).
Proof. intros Hm. apply neutral_finally; [done|]. intros own φ Hφ. exact (quiet_await Tick eq_refl own φ Hφ). Qed.
Lemma client_neutral_when b m : neutral m → neutral (when b m).
Proof. destruct b; [done|]. intros _. apply neutral_reads, reads_ret. Qed.
Lemma neutral_idle g : idle g → neutral (update_ g).
Proof. intros Hg. apply neutral_at. intros w own φ Hφ. by apply quietly_idle. Qed.
Lemma neutral_setTransportError e : neutral (setTransportError e).
Proof. by apply neutral_dispatch. Qed.
End triples.

#[export] Hint Resolve neutral_send neutral_sendWithRequestId neutral_await_message neutral_request
  neutral_setTransportError : client.

(** Steps through the body of an async method. *)
Ltac client_step :=
  match goal with
  | |- TaskRules.neutral (mret _) => apply neutral_reads, reads_ret
  | |- TaskRules.neutral (throw_ _) => apply neutral_reads, reads_throw
  | |- TaskRules.neutral (gets_ _) => apply neutral_reads, reads_gets
  | |- TaskRules.neutral _ => solve [eauto 2 with client nocore]
  | |- TaskRules.neutral (dispatch _) => by apply neutral_dispatch
  | |- TaskRules.neutral (_ ≫= _) => apply neutral_bind; [|intros ?]
  | |- TaskRules.neutral (try_ _ _) => apply neutral_try; [|intros ?]
  | |- TaskRules.neutral (awaiting _) => apply client_neutral_awaiting
  | |- TaskRules.neutral (when _ _) => apply client_neutral_when
  | |- TaskRules.neutral (while_holds _ _) => apply neutral_bind; [|intros ?]
  | |- TaskRules.neutral (await_ ?c) => exact (neutral_await c eq_refl)
  | |- TaskRules.neutral (update_ _) => by apply neutral_idle; intros ?; split_and!
  | |- TaskRules.neutral (match ?x with _ => _ end) => destruct x
  | |- TaskRules.neutral (let _ := _ in _) => cbv zeta
  end.
Ltac client_steps := repeat client_step.

Section methods.
Context (initialReconnectDelayMs maxReconnectDelayMs : Z) (decode : string → decoded) (sent : ServerMessage → Prop).
Hypothesis options : 0 ≤ initialReconnectDelayMs ≤ maxReconnectDelayMs.
Notation later := (later sent).
Notation J := (λ (s : client) (_ : gmap nat unit), inv maxReconnectDelayMs decode sent s).
Notation neutral := (TaskRules.neutral (V := client_value) (E := client_error)
  (awaited := client_awaited) (enabled := client_enabled) (J := J) (G := later)).

Lemma neutral_selectConversation id : neutral (selectConversation id).
Proof. unfold selectConversation. client_steps. Qed.
Lemma neutral_requestHistory w r : neutral (requestHistory w r).
Proof. unfold requestHistory. client_steps. Qed.
Lemma neutral_selectWorkspace w : neutral (selectWorkspace w).
Proof. unfold selectWorkspace. client_steps; apply neutral_requestHistory. Qed.
Lemma neutral_loadJobRuns j c : neutral (loadJobRuns j c).
Proof. unfold loadJobRuns. client_steps. Qed.
Lemma neutral_loadJobRun j r : neutral (loadJobRun j r).
Proof. unfold loadJobRun. client_steps. Qed.
Lemma neutral_openGenerated w c : neutral (openGeneratedConversation w c).
Proof. unfold openGeneratedConversation. client_steps; auto using neutral_selectWorkspace, neutral_selectConversation. Qed.
Lemma neutral_take_fork input : neutral (take_fork input).
Proof. unfold take_fork. client_steps; apply neutral_selectConversation. Qed.
Lemma neutral_recover_conversation w c : neutral (recover_conversation w c).
Proof. unfold recover_conversation. client_steps. Qed.
Lemma neutral_recover_history r : neutral (recover_history r).
Proof. unfold recover_history. client_steps; auto using neutral_requestHistory, neutral_recover_conversation. Qed.
Lemma neutral_recovering r p : neutral (recovering_body r p).
Proof.
  unfold recovering_body, recover_steps.
  client_steps; auto using neutral_loadJobRuns, neutral_loadJobRun, neutral_recover_history.
Qed.
Lemma neutral_reload : neutral reload.
Proof.
  unfold reload. apply neutral_bind; [client_steps|]. intros g. apply neutral_bind; [|intros [t|]; client_steps].
  apply neutral_at. intros w own φ Hφ. by apply quietly_start_recovery.
Qed.
Lemma neutral_resyncing p g : idle g → neutral (resyncing_body p g).
Proof.
  intros Hg. unfold resyncing_body. apply neutral_finally; [client_steps|].
  intros own φ Hφ. apply quietly_at. intros w Hl. apply (quietly_holds _ _ _ _ _ _ _ w); [done|]. by apply quietly_idle.
Qed.

(** Every task keeps to the invariant. *)
Lemma neutral_body task : task_ok decode sent task →
  neutral (body initialReconnectDelayMs maxReconnectDelayMs decode task).
Proof.
  intros Ht. unfold body, unit_value. destruct task; client_steps;
    auto using neutral_selectWorkspace, neutral_loadJobRuns, neutral_loadJobRun, neutral_openGenerated,
      neutral_selectConversation, neutral_take_fork, neutral_reload, neutral_recovering;
    try (apply neutral_resyncing; by intros ?; split_and!); apply neutral_quietly; intros own φ Hφ.
  - by apply quiet_connect.
  - by apply quiet_disconnect.
  - by apply (quiet_socket_event _ _ _ _ options (TSocketMessage socket data)).
  - by apply (quiet_socket_event _ _ _ _ options (TSocketClosed socket)).
  - by apply (quiet_socket_event _ _ _ _ options (TSocketError socket)).
  - by apply quiet_timer_fired.
Qed.
End methods.
