(* ===== verification/SocketClientSafety.v ===== *)
(** What holds of the browser's connection in every state its tasks reach: it is
    up, due or stopped; every request settles, and with nothing but its own
    answer; and what it shows is what the server sent.
    The first part is the system: its tasks interleave at their awaits; other
    code calls its methods, sockets deliver events and timers fire at any time. *)
From S2P Require Import Prelude JsValues Errors Programs Jobs Protocol ClientState ClientStateSafety Tasks.
From S2P Require Import TaskRules SocketClient SocketClientOperations SocketClientInvariant SocketClientTriples.
#[local] Open Scope string_scope. #[local] Open Scope Z_scope.

(** The tasks that other code, a socket or a timer starts. *)
Definition external (task : client_task) : bool :=
  match task with TRecovering _ _ | TResyncing _ _ | TResyncingJobRun _ _ => false | _ => true end.

Section system.
Context (initialReconnectDelayMs maxReconnectDelayMs : Z) (decode : string → decoded) (sent : ServerMessage → Prop).
Notation body := (body initialReconnectDelayMs maxReconnectDelayMs decode).
Notation later := (later sent).
Notation inv := (inv maxReconnectDelayMs decode sent).
Notation J := (λ (s : client) (_ : gmap nat unit), inv s).

Definition client_pool : Type :=
  pool (C := client_call) (ans := client_answer) (S := client) (V := client_value) (E := client_error).
Definition initial_pool : client_pool := Pool initial_client ∅.

(** A task runs to its next await, or a task is started; a socket delivers what
    the server sent. *)
Inductive client_step : client_pool → client_pool → Prop :=
| RunTask σ σ' : pool_step client_awaited client_enabled body sc_ready unready settle σ σ' → client_step σ σ'
| StartTask task s waiting :
    external task = true → task_ok decode sent task → client_step (Pool s waiting) (Pool (spawned task s) waiting).

Definition reachable (σ : client_pool) : Prop := rtc client_step initial_pool σ.

Hypothesis options : 0 ≤ initialReconnectDelayMs ≤ maxReconnectDelayMs.

(** The promise of a task is that of no request. *)
Definition ordinary (p : nat) (s : client) : Prop := sc_requests s !! p = None ∧ (p < sc_next s)%nat.
Lemma client_stable_ordinary p : TaskRules.stable later (ordinary p).
Proof.
  intros s s' [Hr Hp] Hl. pose proof (la_next _ _ _ Hl). split; [|lia].
  destruct (sc_requests s' !! p) as [c|] eqn:E; [|done]. destruct (la_new _ _ _ Hl _ _ E) as [H'|?]; [congruence|lia].
Qed.

Lemma client_inv_settle p r s : inv s → ordinary p s → inv (settle_promise p r s).
Proof.
  intros [Hb Hl] [Hr Hp]. split; [by apply base_settle|].
  by destruct (settle_promise_frame p r s) as (_ & _ & _ & _ & _ & _ & _ & _ & _ & _ & ->).
Qed.

Lemma client_bodies_ok p task : body_ok client_awaited client_enabled body sc_ready unready settle J later p task.
Proof.
  intros s frame [Hb Hl] Hready. destruct (co_ready _ _ _ _ _ (proj1 Hb) _ _ Hready) as [Hp Ht].
  assert (Ho : ordinary p s).
  { split; [|done]. destruct (sc_requests s !! p) as [c|] eqn:E; [|done].
    destruct (co_request _ _ _ _ _ (proj1 Hb) _ _ E) as (_ & Hn & _). congruence. }
  destruct (base_unready _ _ _ p s Hb) as (Hb' & Hl' & Hw').
  pose proof (neutral_body initialReconnectDelayMs _ decode sent options task Ht ∅ (ordinary p) (client_stable_ordinary p)) as Hm.
  eapply wpc_mono; [|apply (Hm s (unready p s) frame)].
  - assert (Hend : ∀ o st s' f, holds (J := J) (G := later) ∅ (ordinary p) st s' f → ends settle J later p o st s' f).
    { intros o st s' f (_ & HI & Hg & Ho'). split; [by apply client_inv_settle|]. etrans; [done|apply later_settle]. }
    intros [v|v|e] st s' f; cbn; auto; done.
  - split_and!; [apply map_disjoint_empty_l|split; [done|by rewrite Hw']|done|done].
Qed.

Definition system_ok (σ : client_pool) : Prop := pool_ok client_awaited client_enabled settle J later σ.

Lemma client_initial_ok : system_ok initial_pool.
Proof.
  exists ∅, (λ _, 0%nat). split_and!; [|by intros k a ?%lookup_empty_Some|intros i p E; cbn in E; by apply lookup_empty_Some in E].
  split; [split|split_and!; [done|done|done]]; [|split; [apply NoDup_nil_2|done]].
  constructor; cbn; try done; try (intros *; by rewrite lookup_empty).
  intros t. split; [intros [d Hd]; by rewrite lookup_empty in Hd|done].
Qed.

Lemma client_step_ok σ σ' : system_ok σ → client_step σ σ' → system_ok σ' ∧ later (shared σ) (shared σ').
Proof.
  intros Hok Hstep. destruct Hstep as [σ σ' Hstep|task s waiting He Ht].
  - eapply pool_step_ok; [apply _|apply client_bodies_ok|done|done].
  - assert (Hsp : ∀ s, inv s → inv (spawned task s) ∧ later s (spawned task s)).
    { intros s1 [Hb Hl]. destruct (base_spawned _ _ _ None s1 task Hb Ht) as (Hb' & Hl' & Hw').
      split; [|done]. split; [done|by rewrite Hw']. }
    destruct Hok as (X & who & HI & Hrest). destruct (Hsp s HI) as [_ Hg]. split; [|done].
    eapply (pool_ok_env _ _ _ _ _ (Pool s waiting)); [|done|by exists X, who]. intros Y HY. by apply Hsp.
Qed.

Lemma client_steps_ok σ σ' : system_ok σ → rtc client_step σ σ' → system_ok σ' ∧ later (shared σ) (shared σ').
Proof.
  intros Hok Hr. induction Hr as [σ|σ σ1 σ2 Hs Hr IH]; [split; [done|reflexivity]|].
  destruct (client_step_ok _ _ Hok Hs) as [Hok1 HG1]. destruct (IH Hok1) as [Hok2 HG2]. split; [done|by etrans].
Qed.

Lemma client_reachable_ok σ : reachable σ → inv (shared σ) ∧ later initial_client (shared σ).
Proof. intros Hr. destruct (client_steps_ok _ _ client_initial_ok Hr) as [(X & who & HI & _) Hl]. done. Qed.
End system.

(** ** Execution *)

Section execution.
Context (initialReconnectDelayMs maxReconnectDelayMs : Z) (decode : string → decoded) (sent : ServerMessage → Prop).
Notation body := (body initialReconnectDelayMs maxReconnectDelayMs decode).
Notation client_step := (client_step initialReconnectDelayMs maxReconnectDelayMs decode sent).

(** How calls are answered, and which tasks may be started. *)
Context (answers : ∀ c, client_answer c) (may : client_task → bool).
Hypothesis may_sound : ∀ task, may task = true → external task = true ∧ task_ok decode sent task.

Definition resume_answer (s : client) (c : client_call) : option (client_answer c) :=
  match c return option (client_answer c) with AwaitPromise p => sc_settled s !! p | c => Some (answers c) end.
Lemma client_resume_answer_enabled s c r : resume_answer s c = Some r → client_enabled s c r.
Proof. by destruct c. Qed.
Lemma client_sync_enabled s c : client_awaited c = false → client_enabled s c (answers c).
Proof. by destruct c. Qed.

(** One move: a task is started, or a task begins or goes on. *)
Inductive move := Start (task : client_task) | Go (i : nat).
Definition exec_move (σ : client_pool) (m : move) : option client_pool :=
  match m with
  | Start task => if may task then Some (Pool (spawned task (shared σ)) (waiting σ)) else None
  | Go i => go client_awaited body sc_ready unready settle answers resume_answer σ i
  end.
Definition exec (σ : client_pool) (moves : list move) : option client_pool :=
  foldl (λ σ m, σ ≫= λ σ, exec_move σ m) (Some σ) moves.

Lemma client_exec_none moves : foldl (λ σ m, σ ≫= λ σ, exec_move σ m) None moves = None.
Proof. by induction moves. Qed.

Lemma client_exec_sound moves σ σ' : exec σ moves = Some σ' → rtc client_step σ σ'.
Proof.
  unfold exec. revert σ. induction moves as [|m moves IH]; intros σ; cbn; [intros [= ->]; constructor|].
  destruct (exec_move σ m) as [σ1|] eqn:E; [|by rewrite client_exec_none]. intros Hm. eapply rtc_l; [|by apply IH].
  destruct σ as [s w]. destruct m as [task|i]; cbn in E.
  - destruct (may task) eqn:Et; [|done]. injection E as <-. destruct (may_sound _ Et). by constructor.
  - constructor. eapply go_sound; [apply client_sync_enabled|apply client_resume_answer_enabled|exact E].
Qed.
End execution.

(** ** What it guarantees *)

(** ** A sample connection: frames are named, the first socket opens *)

Definition sample_decode (text : string) : decoded :=
  if String.eqb text "ready" then Decoded (MReady "1")
  else if String.eqb text "workspaces" then Decoded (MWorkspaces (Some "r1") [])
  else if String.eqb text "snapshot" then Decoded (MState None sample_conversation None)
  else if String.eqb text "event 5" then
    Decoded (MEvent (event_at sample_log sample_conversation 5))
  else InvalidJson.
Definition sample_answers (c : client_call) : client_answer c :=
  match c with
  | Tick | CloseSocket _ | NotifyListeners => tt
  | AwaitPromise _ => Err (OtherError None)
  | NewWebSocket | SendText _ _ => Ok tt
  | ReadyState _ => 1
  | NextRequestId => "r1"
  end.

(** The server's messages follow a log of events and keep runs with their jobs. *)
Definition server_ok (log : string → string → Z → event_payload) (job_of : string → string) (m : ServerMessage) : Prop :=
  match m with
  | MEvent e => consistent log (AEvent e)
  | MJobRuns _ jobId runs cursor => runs_consistent job_of (AJobRuns (Some jobId) runs cursor false)
  | MJobRunState _ run => runs_consistent job_of (AJobRunState run)
  | MJobRunUpdated _ _ _ run => runs_consistent job_of (AJobRunUpdated run)
  | MJobs _ jobs => runs_consistent job_of (AJobs jobs)
  | _ => True
  end.

Lemma sent_action_ok log job_of sent a : (∀ m, sent m → server_ok log job_of m) → sent_action sent a →
  consistent log a ∧ runs_consistent job_of a.
Proof.
  intros Hs. destruct a; cbn; try done.
  - intros (id & j & -> & Hm). split; [done|exact (Hs _ Hm)].
  - intros [id Hm]. split; [done|exact (Hs _ Hm)].
  - intros Hm. split; [done|exact (Hs _ Hm)].
  - intros Hm. split; [exact (Hs _ Hm)|done].
Qed.

Lemma sent_actions_ok log job_of sent l : (∀ m, sent m → server_ok log job_of m) → Forall (sent_action sent) l →
  Forall (consistent log) l ∧ Forall (runs_consistent job_of) l.
Proof.
  intros Hs Hl. split; (eapply Forall_impl; [exact Hl|]); intros a Ha; by destruct (sent_action_ok log job_of sent a).
Qed.

Definition sample_sent (m : ServerMessage) : Prop := server_ok sample_log (λ _, "j") m.
Definition sample_may (task : client_task) : bool := external task.
Lemma sample_may_sound task : sample_may task = true → external task = true ∧ task_ok sample_decode sample_sent task.
Proof.
  intros He. split; [done|]. destruct task as [| | | | | | | | | | | | | | | |k [|text]| | | | | |]; try done.
  intros m. unfold sample_decode. cbn. repeat case_match; intros [= <-]; done.
Qed.

Definition sample_exec := exec 250 5000 sample_decode sample_answers sample_may initial_pool.

(** Connecting, the greeting, a snapshot and its next event; the first request
    is answered, the second waits. *)
Definition sample_moves : list move := [
  Start TConnect; Go 0; Start (TSocketMessage 1 (Text "ready")); Go 2; Go 5;
  Start (TSocketMessage 1 (Text "snapshot")); Go 6; Start (TSocketMessage 1 (Text "event 5")); Go 7;
  Start (TSocketMessage 1 (Text "workspaces")); Go 8; Go 5].

Notation sample_reachable := (reachable 250 5000 sample_decode sample_sent).

(** The sample run reaches a connected client that shows the conversation at the
    revision of the event, with one request settled and one waiting. *)
Lemma sample_run : ∃ (σ : client_pool) (p : ConversationProjection),
  sample_reachable σ ∧ is_connected (shared σ) = true ∧ sc_stopped (shared σ) = false ∧
  conversations (sc_state (shared σ)) !! "c" = Some p ∧ cv_revision (conversation p) = 5 ∧
  sc_requests (shared σ) !! 3%nat = Some {| cmd_requestId := "r1"; cmd_input := WorkspaceList |} ∧
  sc_settled (shared σ) !! 3%nat = Some (Ok (VMessage (MWorkspaces (Some "r1") []))) ∧
  sc_requests (shared σ) !! 9%nat = Some {| cmd_requestId := "recovery-jobs-1"; cmd_input := JobList |} ∧
  sc_settled (shared σ) !! 9%nat = None ∧ current 1 (shared σ) = true.
Proof.
  assert (E : (σ ← sample_exec sample_moves;
    let s := shared σ in
    Some (is_connected s, sc_stopped s, cv_revision ∘ conversation <$> conversations (sc_state s) !! "c",
      sc_requests s !! 3%nat, sc_settled s !! 3%nat, sc_requests s !! 9%nat, sc_settled s !! 9%nat, current 1 s))
    = Some (true, false, Some 5, Some {| cmd_requestId := "r1"; cmd_input := WorkspaceList |},
        Some (Ok (VMessage (MWorkspaces (Some "r1") []))),
        Some {| cmd_requestId := "recovery-jobs-1"; cmd_input := JobList |}, None, true)) by (vm_compute; reflexivity).
  apply bind_Some in E as (σ & Hrun & E). apply (client_exec_sound 250 5000 sample_decode sample_sent _ _ sample_may_sound) in Hrun.
  injection E as Ec Es Ep Er Ev Er' Ev' Ek. apply fmap_Some in Ep as (p & Ep & Erev).
  exists σ, p. by split_and!.
Qed.

(** Running statements that read and change the state. *)
Lemma run_gets {A B : Type} (g : client → A) (k : A → act B) s : (gets_ g ≫= k) s = k (g s) s.
Proof. done. Qed.
Lemma run_update {B : Type} (g : client → client) (k : unit → act B) s : (update_ g ≫= k) s = k tt (g s).
Proof. done. Qed.

(** ** Properties *)

(** C30: the client is never stuck. Unless it was stopped, it has a current socket
    or exactly one timer that will open one, never both, and the delay is within
    the configured limits; once stopped no such timer is left; it counts as
    connected only over its current socket. *)
Theorem connection_up_or_due commandTimeoutMs initialReconnectDelayMs maxReconnectDelayMs decode sent σ :
  options_ok initialReconnectDelayMs maxReconnectDelayMs commandTimeoutMs = true →
  reachable initialReconnectDelayMs maxReconnectDelayMs decode sent σ →
  let s := shared σ in
  (sc_stopped s = false → (∃ k, current k s = true) ∨
     ∃ t d, sc_reconnectTimer s = Some t ∧ sc_timers s !! t = Some (ReconnectTimer d)) ∧
  (∀ t d, sc_timers s !! t = Some (ReconnectTimer d) →
     sc_reconnectTimer s = Some t ∧ 0 ≤ d ≤ maxReconnectDelayMs ∧ sc_stopped s = false ∧ ∀ k, current k s = false) ∧
  (is_connected s = true → ∃ k, current k s = true).
Proof.
  intros Ho Hr. assert (Hopt : 0 ≤ initialReconnectDelayMs ≤ maxReconnectDelayMs).
  { unfold options_ok in Ho. apply andb_true_iff in Ho as [_ Ho]. apply negb_true_iff, orb_false_iff in Ho as [H1 H2].
    apply Z.ltb_ge in H1, H2. lia. }
  destruct (client_reachable_ok _ _ _ _ Hopt _ Hr) as [[[Hc _] (Hl1 & Hl2 & Hl3)] _].
  assert (Hlive : w_live (wire_of (shared σ)) = true → ∃ k, current k (shared σ) = true).
  { cbn. unfold live_socket. destruct (sc_socket (shared σ)) as [k|]; [|done]. by exists k. }
  split_and!.
  - intros Hs. destruct (Hl2 Hs) as [?|Ht]; [left; auto|right]. apply bool_decide_eq_true in Ht as [t Ht]. exists t.
    destruct (proj2 (co_reconnect _ _ _ _ _ Hc t) Ht) as [d Hd]. by exists d.
  - intros t d Hd. assert (Ht : sc_reconnectTimer (shared σ) = Some t) by (apply (co_reconnect _ _ _ _ _ Hc); by exists d).
    destruct Hl1 as [Hs Hlv]; [cbn; by rewrite Ht|]. split_and!; try done; try apply (co_delay _ _ _ _ _ Hc _ _ Hd).
    intros k. destruct (current k (shared σ)) eqn:E; [|done]. cbn in Hlv. unfold live_socket in Hlv.
    pose proof E as [Hk _]%bool_decide_eq_true. rewrite Hk in Hlv. congruence.
  - intros Hc'%bool_decide_eq_true. auto.
Qed.

Lemma connection_up_or_due_witness :
  ∃ σ : client_pool, is_connected (shared σ) = true ∧ ∃ k, current k (shared σ) = true.
Proof.
  destruct sample_run as (σ & p & Hr & Hc & _). exists σ. split; [done|].
  exact (proj2 (proj2 (connection_up_or_due 15000 250 5000 _ _ σ eq_refl Hr)) Hc).
Defined.

(** C29: every request settles, once, and only with its own answer. Until it is
    settled its timer is running, and when that fires it is rejected; once
    settled it stays so, and if it succeeded, then with a message the server sent
    for its identifier and of the kind its command expects. *)
Theorem requests_settle initialReconnectDelayMs maxReconnectDelayMs decode sent σ p c :
  0 ≤ initialReconnectDelayMs ≤ maxReconnectDelayMs → reachable initialReconnectDelayMs maxReconnectDelayMs decode sent σ →
  sc_requests (shared σ) !! p = Some c →
  (sc_settled (shared σ) !! p = None →
     sc_timers (shared σ) !! S p = Some (CommandTimer (cmd_requestId c) p) ∧
     ∃ s', timer_fired initialReconnectDelayMs maxReconnectDelayMs (S p) (shared σ) = Ret (Next tt, s') ∧
       sc_settled s' !! p = Some (Err (ChatTransportError "The server command timed out."))) ∧
  (∀ v, sc_settled (shared σ) !! p = Some (Ok v) →
     ∃ m, v = VMessage m ∧ sent m ∧ message_requestId m = Some (cmd_requestId c) ∧
       isExpectedResponse (cmd_input c) m = true) ∧
  (∀ σ', rtc (client_step initialReconnectDelayMs maxReconnectDelayMs decode sent) σ σ' →
     sc_requests (shared σ') !! p = Some c ∧
     ∀ r, sc_settled (shared σ) !! p = Some r → sc_settled (shared σ') !! p = Some r).
Proof.
  intros Hopt Hr Hp. destruct (client_steps_ok _ _ _ _ Hopt _ _ (client_initial_ok _ _ _) Hr) as [Hok _].
  destruct (client_reachable_ok _ _ _ _ Hopt _ Hr) as [[[Hc _] _] _].
  destruct (co_request _ _ _ _ _ Hc _ _ Hp) as (_ & _ & Ht & Hv). split_and!.
  - intros Hs. specialize (Ht ltac:(done) Hs). split; [done|]. unfold timer_fired. rewrite run_gets, Ht.
    eexists. split; [reflexivity|]. rewrite settle_promise_lookup, decide_True by done. cbn. by rewrite Hs.
  - intros v Hs. destruct (Hv v Hs) as (m & -> & He & Hid & Hm). by exists m.
  - intros σ' Hs. destruct (client_steps_ok _ _ _ _ Hopt _ _ Hok Hs) as [_ Hl]. split.
    + eapply lookup_weaken; [done|apply Hl].
    + intros r Hr'. eapply lookup_weaken; [done|apply Hl].
Qed.

Lemma requests_settle_witness :
  ∃ σ : client_pool, (∃ m, sc_settled (shared σ) !! 3%nat = Some (Ok (VMessage m)) ∧ message_requestId m = Some "r1") ∧
    ∃ t, sc_timers (shared σ) !! t = Some (CommandTimer "recovery-jobs-1" 9).
Proof.
  destruct sample_run as (σ & p & Hr & _ & _ & _ & _ & Hq & Hs & Hq' & Hs' & _). exists σ.
  assert (Hopt : 0 ≤ 250 ≤ 5000) by lia. split.
  - destruct (requests_settle 250 5000 _ _ σ 3 _ Hopt Hr Hq) as (_ & Hv & _).
    destruct (Hv _ Hs) as (m & Em & _ & Hid & _). exists m. split; [by rewrite Hs, Em|done].
  - destruct (requests_settle 250 5000 _ _ σ 9 _ Hopt Hr Hq') as (Ht & _). exists 10%nat. by apply Ht.
Defined.

(** C28: what the browser shows is what the server sent. However sockets, timers,
    calls and answers interleave, every conversation on screen is a snapshot the
    server sent with exactly the next events of its log applied, up to a title
    given by a history list, and the browser's state is well formed. *)
Theorem screen_shows_the_server log job_of sent initialReconnectDelayMs maxReconnectDelayMs decode σ :
  0 ≤ initialReconnectDelayMs ≤ maxReconnectDelayMs → (∀ m, sent m → server_ok log job_of m) →
  reachable initialReconnectDelayMs maxReconnectDelayMs decode sent σ →
  let st := sc_state (shared σ) in
  (∀ id p, conversations st !! id = Some p →
     ∃ base n requestId text, sent (MState requestId base text) ∧ cv_id base = id ∧
       cv_revision (conversation p) = cv_revision base + Z.of_nat n ∧
       conversation p = (replay log base n) <| cv_title := cv_title (conversation p) |>) ∧
  state_ok job_of st.
Proof.
  intros Hopt Hs Hr. destruct (client_reachable_ok _ _ _ _ Hopt _ Hr) as [_ Hl]. destruct (la_state _ _ _ Hl) as (l & E & Hsent).
  destruct (sent_actions_ok log job_of sent l Hs Hsent) as [Hc Hrc]. cbn. rewrite E. split.
  - intros id p Hp. destruct (replayed_actions log l id p Hc Hp) as (base & n & Hb & Hi & Ep & _).
    pose proof (proj1 (Forall_forall _ _) Hsent _ Hb) as (requestId & text & Hm).
    exists base, n, requestId, text. split_and!; try done. rewrite Ep. apply (replay_identity log base n).
  - apply state_ok_actions; [apply init_ok|done].
Qed.

Lemma screen_shows_the_server_witness :
  ∃ (σ : client_pool) (p : ConversationProjection), conversations (sc_state (shared σ)) !! "c" = Some p ∧
    ∃ base n, cv_id base = "c" ∧ 5 = cv_revision base + Z.of_nat n.
Proof.
  destruct sample_run as (σ & p & Hr & _ & _ & Hp & Hrev & _). exists σ, p. split; [done|].
  destruct (screen_shows_the_server sample_log (λ _, "j") sample_sent 250 5000 sample_decode σ) as [Hshown _].
  - lia.
  - intros m Hm. exact Hm.
  - exact Hr.
  - destruct (Hshown _ _ Hp) as (base & n & _ & _ & _ & Hi & Hn & _). exists base, n. split; [done|]. congruence.
Defined.

(** What is out of date changes nothing. An event of a socket that was
    replaced or closed, and an answer to no request that waits, leave the client
    as it was; an answer its command does not expect rejects the request and
    leaves what is shown as it was. *)
Lemma stale_input_is_ignored initialReconnectDelayMs maxReconnectDelayMs decode s k text m requestId :
  let handle := socket_event initialReconnectDelayMs maxReconnectDelayMs decode in
  (current k s = false → ∀ data,
     handle (TSocketMessage k data) s = Ret (Next tt, s) ∧ handle (TSocketClosed k) s = Ret (Next tt, s) ∧
     handle (TSocketError k) s = Ret (Next tt, s)) ∧
  (decode text = Decoded m → message_requestId m = Some requestId →
     (map_get requestId (sc_pending s) = None → handle (TSocketMessage k (Text text)) s = Ret (Next tt, s)) ∧
     (∀ pc, current k s = true → map_get requestId (sc_pending s) = Some pc →
        isExpectedResponse (cmd_input (pc_command pc)) m = false →
        ∃ s' e, handle (TSocketMessage k (Text text)) s = Ret (Next tt, s') ∧ sc_state s' = sc_state s ∧
          sc_settled s' !! pc_promise pc = Some (default (Err e) (sc_settled s !! pc_promise pc)) ∧
          sc_pending s' = map_delete requestId (sc_pending s))).
Proof.
  intros handle. split; [|intros Hd Hid; split].
  - intros Hk data. unfold handle, socket_event, socket_closed, if_current. by rewrite !run_gets, Hk.
  - intros Hn. unfold handle, socket_event, if_current. rewrite run_gets. destruct (current k s); [|done].
    unfold when, handleMessage. rewrite Hd.
    destruct m; cbn in Hid; try done; simplify_eq; cbn -[gets_ mbind]; by rewrite run_gets, Hn.
  - intros pc Hk Hg He. unfold handle, socket_event, if_current. rewrite run_gets, Hk.
    unfold when, handleMessage. rewrite Hd.
    destruct m; cbn in Hid; try done; simplify_eq; cbn -[gets_ mbind]; rewrite run_gets, Hg;
      unfold accept_response; rewrite run_update, ?He;
      (do 2 eexists; split; [reflexivity|]); unfold settle_promise; cbn;
      destruct (sc_settled s !! pc_promise pc) eqn:E; cbn; rewrite ?lookup_insert_eq, ?E; by split_and!.
Qed.

Lemma stale_input_is_ignored_witness :
  socket_event 250 5000 sample_decode (TSocketMessage 1 (Text "workspaces")) initial_client = Ret (Next tt, initial_client).
Proof.
  destruct (stale_input_is_ignored 250 5000 sample_decode initial_client 1 "workspaces" (MWorkspaces (Some "r1") []) "r1") as [H _].
  exact (proj1 (H eq_refl (Text "workspaces"))).
Defined.
