(* ===== verification/WorkspaceStore.v ===== *)
(** The workspace tables of the SQLite schema ([src/server/database.ts]) and
    the prepared statements of the workspace repository
    ([src/server/workspace-repository.ts]), beside the job tables of JobStore,
    whose rows refer to workspaces. A statement changes the database or fails
    with a constraint error. *)
From S2P Require Import Prelude Errors Protocol JobStore.
#[local] Open Scope string_scope. #[local] Open Scope Z_scope.

(** ** Rows *)

(** The storage column is constrained to the two names of [WorkspaceSessionStorage]. *)
(** src/server/workspace-repository.ts:52-63 WorkspaceRow *)
Record WorkspaceRow := MkWorkspaceRow {
  wr_id : string;
  wr_name : string;
  wr_path : string;
  wr_session_storage : WorkspaceSessionStorage;
  wr_security_profile : string;
  wr_network_policy : string;
  wr_network_policy_set_id : string;
  wr_conversation_tools_enabled : Z;
  wr_created_at : Z;
  wr_updated_at : Z;
}.

(** src/server/workspace-repository.ts:65-70 WorkspaceMountRow *)
Record WorkspaceMountRow := MkMountRow {
  mr_workspace_id : string;
  mr_name : string;
  mr_source_path : string;
  mr_access : string;
}.

(** The database: the three workspace tables by their primary keys, and the job
    tables. *)
Record wdb := MkWdb {
  wd_workspaces : gmap string WorkspaceRow;
  wd_mounts : gmap (string * string) WorkspaceMountRow;
  wd_tools : gset (string * string);
  wd_jobs : gmap string JobRow;
  wd_runs : gmap string RunRow;
}.
Definition set_workspaces (ws : gmap string WorkspaceRow) (d : wdb) : wdb :=
  MkWdb ws (wd_mounts d) (wd_tools d) (wd_jobs d) (wd_runs d).
Definition set_mounts (ms : gmap (string * string) WorkspaceMountRow) (d : wdb) : wdb :=
  MkWdb (wd_workspaces d) ms (wd_tools d) (wd_jobs d) (wd_runs d).
Definition set_tools (ts : gset (string * string)) (d : wdb) : wdb :=
  MkWdb (wd_workspaces d) (wd_mounts d) ts (wd_jobs d) (wd_runs d).

(** What the job repository sees of it. *)
Definition job_db (d : wdb) : db :=
  {| db_workspaces := wr_name <$> wd_workspaces d; db_jobs := wd_jobs d; db_runs := wd_runs d |}.

(** ** CHECK constraints *)

(** The text before the first NUL, on which [length], [substr] and GLOB work. *)
Fixpoint sql_text (s : string) : string :=
  match s with
  | EmptyString => EmptyString
  | String a r => if unit_code a =? 0 then EmptyString else String a (sql_text r)
  end.

Definition is_lower (a : ascii) : bool := (97 <=? unit_code a) && (unit_code a <=? 122).
Definition is_slug_edge (a : ascii) : bool := is_lower a || is_digit a.
Definition is_slug_char (a : ascii) : bool :=
  is_slug_edge a || (unit_code a =? 95) || (unit_code a =? 45).
Definition is_tool_char (a : ascii) : bool := is_lower a || is_digit a || (unit_code a =? 95).

Definition first_char (s : string) : option ascii := match s with String a _ => Some a | EmptyString => None end.
Fixpoint final_char (s : string) : option ascii :=
  match s with
  | EmptyString => None
  | String a EmptyString => Some a
  | String a r => final_char r
  end.
Definition some_char (p : ascii → bool) (o : option ascii) : bool :=
  match o with Some a => p a | None => false end.

(** [length(s) BETWEEN 1 AND 64 AND s NOT GLOB '*[^a-z0-9_-]*' AND
    substr(s, 1, 1) GLOB '[a-z0-9]' AND substr(s, -1, 1) GLOB '[a-z0-9]'] *)
Definition slug_check (s : string) : bool :=
  let t := sql_text s in
  between 1 (strlen t) 64 && str_all is_slug_char t
  && some_char is_slug_edge (first_char t) && some_char is_slug_edge (final_char t).

(** src/server/database.ts:117-121 tool_name_check *)
Definition tool_name_check (s : string) : bool :=
  let t := sql_text s in
  between 1 (strlen t) 64 && str_all is_tool_char t && some_char is_lower (first_char t).

(** src/server/database.ts:127-148 workspaces *)
Definition workspace_row_ok (r : WorkspaceRow) : bool :=
  one_of (wr_security_profile r) ["unrestricted"; "workspace-sandboxed"]
  && one_of (wr_network_policy r) ["isolated"; "managed-egress"]
  && slug_check (wr_network_policy_set_id r)
  && ((wr_conversation_tools_enabled r =? 0) || (wr_conversation_tools_enabled r =? 1)).

(** src/server/database.ts:150-166 workspace_mounts *)
Definition mount_row_ok (r : WorkspaceMountRow) : bool :=
  slug_check (mr_name r) && between 1 (sql_length (mr_source_path r)) 4096
  && one_of (mr_access r) ["read-only"; "read-write"].

(** ** Statements *)

Definition sqlite_error (code detail : string) : thrown := Foreign (Some code) detail.
Definition check_failed : thrown := sqlite_error "SQLITE_CONSTRAINT_CHECK" "CHECK constraint failed".
Definition foreign_key_failed : thrown := sqlite_error "SQLITE_CONSTRAINT_FOREIGNKEY" "FOREIGN KEY constraint failed".
Definition path_not_unique : thrown :=
  sqlite_error "SQLITE_CONSTRAINT_UNIQUE" "UNIQUE constraint failed: workspaces.path".

(** Whether another row has the path. *)
Definition path_taken (d : wdb) (id path : string) : bool :=
  existsb (λ p, String.eqb (wr_path p.2) path && negb (String.eqb p.1 id)) (map_to_list (wd_workspaces d)).

(** src/server/workspace-repository.ts:331-335 insertStatement *)
Definition sql_insertWorkspace (r : WorkspaceRow) (d : wdb) : result thrown (unit * wdb) :=
  if negb (workspace_row_ok r) then Err check_failed
  else if bool_decide (is_Some (wd_workspaces d !! wr_id r))
  then Err (sqlite_error "SQLITE_CONSTRAINT_PRIMARYKEY" "UNIQUE constraint failed: workspaces.id")
  else if path_taken d (wr_id r) (wr_path r) then Err path_not_unique
  else Ok (tt, set_workspaces (<[wr_id r := r]> (wd_workspaces d)) d).

(** The number of changes. *)
(** src/server/workspace-repository.ts:336-340 updateStatement *)
Definition sql_updateWorkspace (name path security_profile network_policy network_policy_set_id : string)
    (conversation_tools_enabled updated_at : Z) (id : string) (d : wdb) : result thrown (Z * wdb) :=
  match wd_workspaces d !! id with
  | None => Ok (0, d)
  | Some r =>
      let r' :=
        {| wr_id := wr_id r; wr_name := name; wr_path := path; wr_session_storage := wr_session_storage r;
           wr_security_profile := security_profile; wr_network_policy := network_policy;
           wr_network_policy_set_id := network_policy_set_id;
           wr_conversation_tools_enabled := conversation_tools_enabled;
           wr_created_at := wr_created_at r; wr_updated_at := updated_at |} in
      if negb (workspace_row_ok r') then Err check_failed
      else if path_taken d id path then Err path_not_unique
      else Ok (1, set_workspaces (<[id := r']> (wd_workspaces d)) d)
  end.

(** Mounts and tools cascade, jobs restrict. *)
(** src/server/workspace-repository.ts:341-343 deleteStatement *)
Definition sql_deleteWorkspace (id : string) (d : wdb) : result thrown (Z * wdb) :=
  match wd_workspaces d !! id with
  | None => Ok (0, d)
  | Some _ =>
      if existsb (λ p, String.eqb (jr_workspace_id p.2) id) (map_to_list (wd_jobs d)) then Err foreign_key_failed
      else Ok (1, MkWdb (delete id (wd_workspaces d)) (filter (λ p, p.1.1 ≠ id) (wd_mounts d))
                    (filter (λ p, p.1 ≠ id) (wd_tools d)) (wd_jobs d) (wd_runs d))
  end.

(** src/server/workspace-repository.ts:347-349 insertMountStatement *)
Definition sql_insertMount (r : WorkspaceMountRow) (d : wdb) : result thrown (unit * wdb) :=
  let key := (mr_workspace_id r, mr_name r) in
  if negb (mount_row_ok r) then Err check_failed
  else if bool_decide (is_Some (wd_mounts d !! key))
  then Err (sqlite_error "SQLITE_CONSTRAINT_PRIMARYKEY"
              "UNIQUE constraint failed: workspace_mounts.workspace_id, workspace_mounts.name")
  else if existsb (λ p, String.eqb p.1.1 (mr_workspace_id r) && String.eqb (mr_source_path p.2) (mr_source_path r))
            (map_to_list (wd_mounts d))
  then Err (sqlite_error "SQLITE_CONSTRAINT_UNIQUE"
              "UNIQUE constraint failed: workspace_mounts.workspace_id, workspace_mounts.source_path")
  else if bool_decide (wd_workspaces d !! mr_workspace_id r = None) then Err foreign_key_failed
  else Ok (tt, set_mounts (<[key := r]> (wd_mounts d)) d).

(** src/server/workspace-repository.ts:350-352 deleteMountsStatement *)
Definition sql_deleteMounts (id : string) (d : wdb) : wdb :=
  set_mounts (filter (λ p, p.1.1 ≠ id) (wd_mounts d)) d.

(** src/server/workspace-repository.ts:356-358 insertHttpToolStatement *)
Definition sql_insertHttpTool (id tool : string) (d : wdb) : result thrown (unit * wdb) :=
  if negb (tool_name_check tool) then Err check_failed
  else if bool_decide ((id, tool) ∈ wd_tools d)
  then Err (sqlite_error "SQLITE_CONSTRAINT_PRIMARYKEY"
              "UNIQUE constraint failed: workspace_http_tools.workspace_id, workspace_http_tools.tool_name")
  else if bool_decide (wd_workspaces d !! id = None) then Err foreign_key_failed
  else Ok (tt, set_tools ({[ (id, tool) ]} ∪ wd_tools d) d).

(** src/server/workspace-repository.ts:359-361 deleteHttpToolsStatement *)
Definition sql_deleteHttpTools (id : string) (d : wdb) : wdb :=
  set_tools (filter (λ p, p.1 ≠ id) (wd_tools d)) d.

(** ** Queries *)

(** The order of the rows is not specified. *)
(** src/server/workspace-repository.ts:325-327 listStatement *)
Definition sql_listWorkspaces (d : wdb) : list WorkspaceRow := (map_to_list (wd_workspaces d)).*2.

(** src/server/workspace-repository.ts:328-330 getStatement *)
Definition sql_getWorkspace (id : string) (d : wdb) : option WorkspaceRow := wd_workspaces d !! id.

Definition mount_name_le (r1 r2 : WorkspaceMountRow) : Prop := text_le (mr_name r1) (mr_name r2) = true.
#[export] Instance mount_name_le_dec r1 r2 : Decision (mount_name_le r1 r2).
Proof. unfold mount_name_le. apply _. Defined.
(** src/server/workspace-repository.ts:344-346 listMountsStatement *)
Definition sql_listMounts (id : string) (d : wdb) : list WorkspaceMountRow :=
  merge_sort mount_name_le (filter (λ r, mr_workspace_id r = id) (map_to_list (wd_mounts d)).*2).

Definition text_le_prop (s t : string) : Prop := text_le s t = true.
#[export] Instance text_le_prop_dec s t : Decision (text_le_prop s t).
Proof. unfold text_le_prop. apply _. Defined.
(** src/server/workspace-repository.ts:353-355 listHttpToolsStatement *)
Definition sql_listHttpTools (id : string) (d : wdb) : list (string * string) :=
  (λ tool, (id, tool)) <$> merge_sort text_le_prop (filter (λ p, p.1 = id) (elements (wd_tools d))).*2.

(** src/server/workspace-repository.ts:362-364 referencingJobStatement *)
Definition sql_referencingJob (id : string) (d : wdb) : bool :=
  existsb (λ p, String.eqb (jr_workspace_id p.2) id) (map_to_list (wd_jobs d)).
