(* ===== verification/Workspaces.v ===== *)
(** The data of workspaces: what is stored and shown of one
    ([src/shared/protocol.ts]), its limits and name patterns, and the policy a
    conversation's runtime is built with
    ([src/server/workspace-repository.ts]). *)
From S2P Require Import Prelude Texts PosixPath Protocol WorkspaceStore.
#[local] Open Scope string_scope. #[local] Open Scope Z_scope.

(** src/shared/protocol.ts:288-293 SandboxMode *)
Inductive SandboxMode := ModeDisabled | ModeOptional | ModeRequired.
#[export] Instance SandboxMode_eq : EqDecision SandboxMode.
Proof. solve_decision. Defined.
(** src/shared/protocol.ts:311-315 ManagedEgressMode *)
Inductive ManagedEgressMode := EgressDisabled | EgressOptional.
#[export] Instance ManagedEgressMode_eq : EqDecision ManagedEgressMode.
Proof. solve_decision. Defined.
#[export] Instance WorkspaceMountAccess_eq : EqDecision WorkspaceMountAccess.
Proof. solve_decision. Defined.
#[export] Instance WorkspaceSessionStorage_eq : EqDecision WorkspaceSessionStorage.
Proof. solve_decision. Defined.
#[export] Instance WorkspacePolicyIssue_eq : EqDecision WorkspacePolicyIssue.
Proof. solve_decision. Defined.

(** src/shared/protocol.ts:252-252 MAX_WORKSPACE_MOUNTS *)
Definition MAX_WORKSPACE_MOUNTS : nat := 32.
(** src/shared/protocol.ts:253-253 MAX_WORKSPACE_HTTP_TOOLS *)
Definition MAX_WORKSPACE_HTTP_TOOLS : nat := 64.
(** src/shared/protocol.ts:263-263 WORKSPACE_MOUNT_SOURCE_MAX_LENGTH *)
Definition WORKSPACE_MOUNT_SOURCE_MAX_LENGTH : Z := 4096.
(** src/shared/protocol.ts:302-302 NETWORK_POLICY_SET_ID_MAX_LENGTH *)
Definition NETWORK_POLICY_SET_ID_MAX_LENGTH : Z := 64.
(** src/shared/protocol.ts:413-413 CONVERSATION_TOOL_NAMES *)
Definition CONVERSATION_TOOL_NAMES : list ConversationToolName := [ConversationSearch; ConversationRead].
(** src/server/network/config.ts:26-26 DEFAULT_NETWORK_POLICY_SET_ID *)
Definition DEFAULT_NETWORK_POLICY_SET_ID : string := "default".

(** [/^[a-z][a-z0-9_]{0,63}$/u.test(s)] *)
(** src/shared/protocol.ts:254-254 HTTP_TOOL_NAME_PATTERN *)
Definition http_tool_name (s : string) : bool :=
  match s with
  | EmptyString => false
  | String a r => is_lower a && str_all is_tool_char r && (strlen r <=? 63)
  end.

(** [/^[a-z0-9](?:[a-z0-9_-]{0,62}[a-z0-9])?$/u.test(s)], the pattern of mount
    names and of policy set identifiers *)
(** src/shared/protocol.ts:264-264 WORKSPACE_MOUNT_NAME_PATTERN *)
Definition slug (s : string) : bool :=
  match s with
  | EmptyString => false
  | String a EmptyString => is_slug_edge a
  | String a r =>
      is_slug_edge a && str_all is_slug_char r && some_char is_slug_edge (final_char r) && (strlen r <=? 63)
  end.

(** src/shared/protocol.ts:419-437 Workspace *)
Record Workspace := {
  w_id : string;
  w_name : string;
  w_path : string;
  w_sessionStorage : WorkspaceSessionStorage;
  w_sessionDirectory : option string;
  w_securityProfile : WorkspaceSecurityProfile;
  w_mounts : list WorkspaceMount;
  w_networkPolicy : SandboxNetworkPolicy;
  w_networkPolicySetId : string;
  w_enabledHttpTools : list string;
  w_conversationToolsEnabled : bool;
  w_createdAt : Z;
  w_updatedAt : Z;
}.

(** src/server/workspace-repository.ts:77-77 WORKSPACE_SESSION_DIRECTORY *)
Definition WORKSPACE_SESSION_DIRECTORY : string := ".chatwca/sessions".

(** src/server/workspace-repository.ts:79-86 workspaceSessionDirectory *)
Definition workspaceSessionDirectory (workspacePath : string) (storage : WorkspaceSessionStorage) : option string :=
  match storage with
  | WorkspaceStorage => Some (path_join workspacePath WORKSPACE_SESSION_DIRECTORY)
  | PiDefault => None
  end.

(** ** Policies of runtimes *)

(** A compiled network policy set: an object, its identifier and whether it and
    its parts are frozen. *)
Record PolicySet := { ps_object : nat; ps_id : string; ps_frozen : bool }.
#[export] Instance PolicySet_eq : EqDecision PolicySet.
Proof. solve_decision. Defined.

(** Nullable and missing values are [None]; of a tool, its name. *)
(** src/server/workspace-repository.ts:153-168 RuntimeWorkspacePolicy *)
Record ConversationWorkspace := {
  cw_workspaceId : string;
  cw_cwd : string;
  cw_sessionDirectory : option string;
  cw_securityProfile : WorkspaceSecurityProfile;
  cw_mounts : option (list WorkspaceMount);
  cw_networkPolicy : option SandboxNetworkPolicy;
  cw_networkPolicySetId : option string;
  cw_effectiveNetworkPolicySetId : option string;
  cw_networkPolicySet : option PolicySet;
  cw_effectiveHttpTools : option (list string);
  cw_effectiveConversationTools : option (list string);
}.
