(* ===== verification/WorkspaceRepository.v ===== *)
(** The workspace repository ([src/server/workspace-repository.ts]): stored
    workspaces, the sandbox and network policy that decides whether and how a
    workspace may be used, and the operations over the tables of WorkspaceStore.
    The file system, the clock and fresh identifiers are calls of Host. *)
From S2P Require Import Prelude JsValues Texts Errors Programs PosixPath Host SandboxAdmission Protocol JobStore NetworkPolicy WorkspaceStore Workspaces.
#[local] Open Scope string_scope. #[local] Open Scope Z_scope.

(** ** Configuration *)

(** src/server/workspace-repository.ts:100-115 WorkspacePolicyInputs *)
Record WorkspacePolicyInputs := {
  pi_mode : SandboxMode;
  pi_workspaceRoots : list string;
  pi_dataDirectory : string;
  pi_piAgentDirectory : string;
  pi_readOnlyMounts : list string;
  pi_jobScriptRoots : option (list string);
  pi_managedEgressMode : option ManagedEgressMode;
  pi_networkHelperPath : option string;
  pi_networkHelperDirectory : option string;
  pi_networkPolicySets : option (list (string * PolicySet));
}.

(** Of a policy set and a tool, the model keeps the identity. *)
(** src/server/workspace-repository.ts:117-127 LEGACY_DEFAULT_POLICY_SET *)
Definition LEGACY_DEFAULT_POLICY_SET : PolicySet :=
  {| ps_object := 0; ps_id := DEFAULT_NETWORK_POLICY_SET_ID; ps_frozen := true |}.

(** The root of the working directory is "/". *)
(** src/server/workspace-repository.ts:129-137 DEFAULT_POLICY *)
Definition DEFAULT_POLICY : WorkspacePolicyInputs := {|
  pi_mode := ModeDisabled; pi_workspaceRoots := []; pi_dataDirectory := "/"; pi_piAgentDirectory := "/";
  pi_readOnlyMounts := []; pi_jobScriptRoots := None; pi_managedEgressMode := Some EgressDisabled;
  pi_networkHelperPath := None; pi_networkHelperDirectory := None; pi_networkPolicySets := None;
|}.

(** Clock, identifiers and file system are the host's. *)
(** src/server/workspace-repository.ts:139-151 WorkspaceRepositoryOptions *)
Record WorkspaceRepositoryOptions := {
  wo_cwd : option string;
  wo_policy : option WorkspacePolicyInputs;
  wo_admissionBounds : option SandboxAdmissionBounds;
  wo_httpTools : option (list string);
  wo_searchOptional : bool;
}.

(** src/server/workspace-repository.ts:270-280 WorkspaceRepository *)
Record WorkspaceRepository := {
  rp_processCwd : string;
  rp_cwd : string;
  rp_mode : SandboxMode;
  rp_workspaceRoots : list string;
  rp_dataDirectory : string;
  rp_piAgentDirectory : string;
  rp_readOnlyMounts : list string;
  rp_jobScriptRoots : list string;
  rp_managedEgressMode : ManagedEgressMode;
  rp_networkHelperPath : option string;
  rp_networkHelperDirectory : option string;
  rp_networkPolicySets : list (string * PolicySet);
  rp_httpTools : list string;
  rp_searchOptional : bool;
  rp_admission : SandboxAdmissionBounds;
}.

(** [new Map(entries)] *)
Definition map_of {A} (entries : list (string * A)) : list (string * A) :=
  fold_left (λ m e, map_set e.1 e.2 m) entries [].

(** src/server/workspace-repository.ts:298-322 constructor *)
Definition newWorkspaceRepository (process_cwd : string) (options : WorkspaceRepositoryOptions) : WorkspaceRepository :=
  let supplied := default DEFAULT_POLICY (wo_policy options) in {|
    rp_processCwd := process_cwd;
    rp_cwd := resolve process_cwd [default process_cwd (wo_cwd options)];
    rp_mode := pi_mode supplied;
    rp_workspaceRoots := pi_workspaceRoots supplied;
    rp_dataDirectory := pi_dataDirectory supplied;
    rp_piAgentDirectory := pi_piAgentDirectory supplied;
    rp_readOnlyMounts := pi_readOnlyMounts supplied;
    rp_jobScriptRoots := default [] (pi_jobScriptRoots supplied);
    rp_managedEgressMode := default EgressDisabled (pi_managedEgressMode supplied);
    rp_networkHelperPath := pi_networkHelperPath supplied;
    rp_networkHelperDirectory := pi_networkHelperDirectory supplied;
    rp_networkPolicySets :=
      map_of (default [(DEFAULT_NETWORK_POLICY_SET_ID, LEGACY_DEFAULT_POLICY_SET)] (pi_networkPolicySets supplied));
    rp_httpTools := map_keys (map_of ((λ name, (name, tt)) <$> default [] (wo_httpTools options)));
    rp_searchOptional := wo_searchOptional options;
    rp_admission := default DEFAULT_BOUNDS (wo_admissionBounds options);
  |}.

(** ** Inputs, as they arrive *)

(** A field meant to be an array. *)
Inductive jsarr := ArrUndefined | ArrNull | ArrOther | Arr (items : list jsval).

(** An acknowledgement counts only if it is [true]. *)
(** src/server/workspace-repository.ts:170-181 CreateWorkspaceInput *)
Record CreateWorkspaceInput := {
  ci_name : jsval;
  ci_path : jsval;
  ci_sessionStorage : jsval;
  ci_securityProfile : jsval;
  ci_mounts : jsarr;
  ci_networkPolicy : jsval;
  ci_networkPolicySetId : jsval;
  ci_enabledHttpTools : jsarr;
  ci_conversationToolsEnabled : jsval;
  ci_acknowledgeWritableMounts : bool;
}.

(** src/server/workspace-repository.ts:183-195 UpdateWorkspaceInput *)
Record UpdateWorkspaceInput := {
  ui_name : jsval;
  ui_path : jsval;
  ui_securityProfile : jsval;
  ui_mounts : jsarr;
  ui_networkPolicy : jsval;
  ui_networkPolicySetId : jsval;
  ui_enabledHttpTools : jsarr;
  ui_conversationToolsEnabled : jsval;
  ui_acknowledgeSecurityDowngrade : bool;
  ui_acknowledgeNetworkExposure : bool;
  ui_acknowledgeWritableMounts : bool;
}.

Definition defined (v : jsval) : bool := match v with VUndefined => false | _ => true end.
Definition defined_array (v : jsarr) : bool := match v with ArrUndefined => false | _ => true end.
(** [v ?? d] *)
Definition or_default (v : jsval) (d : string) : jsval :=
  match v with VUndefined | VNull => VStr d | _ => v end.
Definition or_empty (v : jsarr) : jsarr := match v with ArrUndefined | ArrNull => Arr [] | _ => v end.

(** ** Texts of the stored enumerations *)
Definition profile_text (p : WorkspaceSecurityProfile) : string :=
  match p with Unrestricted => "unrestricted" | WorkspaceSandboxed => "workspace-sandboxed" end.
Definition read_profile (s : string) : option WorkspaceSecurityProfile :=
  if String.eqb s "unrestricted" then Some Unrestricted
  else if String.eqb s "workspace-sandboxed" then Some WorkspaceSandboxed else None.
Definition network_text (p : SandboxNetworkPolicy) : string :=
  match p with Isolated => "isolated" | ManagedEgress => "managed-egress" end.
Definition read_network (s : string) : option SandboxNetworkPolicy :=
  if String.eqb s "isolated" then Some Isolated
  else if String.eqb s "managed-egress" then Some ManagedEgress else None.
Definition access_text (a : WorkspaceMountAccess) : string :=
  match a with ReadOnly => "read-only" | ReadWrite => "read-write" end.
Definition read_access (s : string) : option WorkspaceMountAccess :=
  if String.eqb s "read-only" then Some ReadOnly
  else if String.eqb s "read-write" then Some ReadWrite else None.
Definition read_storage (s : string) : option WorkspaceSessionStorage :=
  if String.eqb s "pi-default" then Some PiDefault
  else if String.eqb s "workspace" then Some WorkspaceStorage else None.
Definition tool_text (t : ConversationToolName) : string :=
  match t with ConversationSearch => "conversation_search" | ConversationRead => "conversation_read" end.

Definition invalid_command : thrown := app_error INVALID_COMMAND.
Definition invalid_mount : thrown := app_error INVALID_WORKSPACE_MOUNT.
Definition database_error : thrown := app_error DATABASE_ERROR.

(** [read(input)] where it succeeds, and a thrown error elsewhere *)
Definition read_or {A} (read : string → option A) (e : thrown) (input : jsval) : result thrown A :=
  match input with VStr s => match read s with Some a => Ok a | None => Err e end | _ => Err e end.

(** ** Rows *)

(** src/server/workspace-repository.ts:234-238 isStructurallyValidPolicySetId *)
Definition isStructurallyValidPolicySetId (s : string) : bool :=
  (strlen s <=? NETWORK_POLICY_SET_ID_MAX_LENGTH) && slug s.

(** src/server/workspace-repository.ts:197-232 workspaceFromRow *)
Definition workspace_from_columns (row : WorkspaceRow) (mounts : list WorkspaceMount) (enabledHttpTools : list string)
  : result thrown Workspace :=
  profile ← read_or read_profile database_error (VStr (wr_security_profile row));
  network ← read_or read_network database_error (VStr (wr_network_policy row));
  throw_if (negb (wr_conversation_tools_enabled row =? 0) && negb (wr_conversation_tools_enabled row =? 1)) database_error;;
  throw_if (negb (isStructurallyValidPolicySetId (wr_network_policy_set_id row))) database_error;;
  mret {|
    w_id := wr_id row; w_name := wr_name row; w_path := wr_path row;
    w_sessionStorage := wr_session_storage row;
    w_sessionDirectory := workspaceSessionDirectory (wr_path row) (wr_session_storage row);
    w_securityProfile := profile; w_mounts := mounts; w_networkPolicy := network;
    w_networkPolicySetId := wr_network_policy_set_id row; w_enabledHttpTools := enabledHttpTools;
    w_conversationToolsEnabled := wr_conversation_tools_enabled row =? 1;
    w_createdAt := wr_created_at row; w_updatedAt := wr_updated_at row |}.

(** src/server/workspace-repository.ts:768-783 storedMount *)
Definition stored_mount (workspaceId : string) (mount : WorkspaceMountRow) : result thrown WorkspaceMount :=
  throw_if (negb (String.eqb (mr_workspace_id mount) workspaceId) || negb (slug (mr_name mount))
            || negb (is_absolute (mr_source_path mount))
            || (WORKSPACE_MOUNT_SOURCE_MAX_LENGTH <? strlen (mr_source_path mount))) database_error;;
  access ← read_or read_access database_error (VStr (mr_access mount));
  mret {| wm_name := mr_name mount; wm_source := mr_source_path mount; wm_access := access |}.

(** src/server/workspace-repository.ts:787-795 storedTool *)
Definition stored_tool (workspaceId : string) (row : string * string) : result thrown string :=
  throw_if (negb (String.eqb row.1 workspaceId) || negb (http_tool_name row.2)) database_error;;
  mret row.2.

(** src/server/workspace-repository.ts:767-800 workspaceFromRow *)
Definition workspaceFromRow (row : WorkspaceRow) (d : wdb) : result thrown Workspace :=
  mounts ← mapM (stored_mount (wr_id row)) (sql_listMounts (wr_id row) d);
  throw_if (bool_decide (MAX_WORKSPACE_MOUNTS < length mounts)%nat) database_error;;
  tools ← mapM (stored_tool (wr_id row)) (sql_listHttpTools (wr_id row) d);
  throw_if (bool_decide (MAX_WORKSPACE_HTTP_TOOLS < length tools)%nat) database_error;;
  workspace_from_columns row mounts tools.

(** [compareWorkspaces(left, right) <= 0] *)
(** src/server/workspace-repository.ts:240-248 compareWorkspaces *)
Definition workspace_before (left_name left_id right_name right_id : string) : bool :=
  let leftName := toLowerCase left_name in
  let rightName := toLowerCase right_name in
  if String.ltb leftName rightName then true
  else if String.ltb rightName leftName then false
  else if String.ltb left_id right_id then true
  else negb (String.ltb right_id left_id).

(** [text.includes(pattern)] *)
Definition str_includes (pattern text : string) : bool := bool_decide (is_Some (String.index 0 pattern text)).

(** src/server/workspace-repository.ts:250-261 isDuplicatePathConstraint *)
Definition isDuplicatePathConstraint (error : thrown) : bool :=
  bool_decide (errno_of error = Some "SQLITE_CONSTRAINT_UNIQUE")
  && str_includes "workspaces.path" (error_message error).
