(* ===== verification/WorkspaceOperations.v ===== *)
(** The operations of the workspace repository
    ([src/server/workspace-repository.ts]) as functions of the host process
    over the database: validation of input, availability, the policy decision,
    and create, update, delete, list and resolution for use. *)
From S2P Require Import Prelude JsValues Texts Errors Programs PosixPath Host SandboxAdmission Protocol JobStore WorkspaceStore Workspaces WorkspaceRepository.
#[local] Open Scope string_scope. #[local] Open Scope Z_scope.

Notation ws := (host wdb).

(** ** Database access *)

Definition query_db {A} (q : wdb → A) : ws A := d ← get_; mret (q d).
(** A statement changes the database, or throws and changes nothing. *)
Definition run_stmt {A} (statement : wdb → result thrown (A * wdb)) : ws A :=
  d ← get_;
  '(a, d') ← lift_ (statement d);
  modify_ (λ _, d');;
  mret a.
(** [connection.transaction(op)()]: an error rolls every change back. *)
Definition transaction {A} (op : ws A) : ws A :=
  d ← get_;
  try_ op (λ error, modify_ (λ _, d);; throw_ error).

(** src/server/workspace-repository.ts:1192-1199 database *)
Definition in_database {A} (operation : ws A) : ws A :=
  try_ operation (λ error, throw_ (toAppError error CtxDatabase)).

Section repository.
Context (repo : WorkspaceRepository).
Notation canonicalPathsOverlap := (PosixPath.canonicalPathsOverlap (rp_processCwd repo)).
Notation isCanonicalPathContained := (PosixPath.isCanonicalPathContained (rp_processCwd repo)).

(** ** Validation of input *)

(** src/server/workspace-repository.ts:802-805 validConversationToolsEnabled *)
Definition validConversationToolsEnabled (input : jsval) : result thrown bool :=
  match input with VBool b => Ok b | _ => Err invalid_command end.

(** src/server/workspace-repository.ts:812-822 validHttpToolsLoop *)
Fixpoint valid_tool_names (input : list jsval) (names : list string) : result thrown (list string) :=
  match input with
  | [] => Ok names
  | VStr name :: rest =>
      if negb (http_tool_name name) || bool_decide (name ∈ names) || negb (bool_decide (name ∈ rp_httpTools repo))
      then Err invalid_command
      else valid_tool_names rest (names ++ [name])%list
  | _ :: _ => Err invalid_command
  end.

(** src/server/workspace-repository.ts:807-824 validHttpTools *)
Definition validHttpTools (input : jsarr) : result thrown (list string) :=
  match input with
  | Arr items =>
      if bool_decide (MAX_WORKSPACE_HTTP_TOOLS < length items)%nat then Err invalid_command
      else names ← valid_tool_names items []; mret (merge_sort text_le_prop names)
  | _ => Err invalid_command
  end.

(** src/server/workspace-repository.ts:876-885 validName *)
Definition validName (input : jsval) : result thrown string :=
  match input with
  | VStr s => if strlen (trim s) =? 0 then Err (app_error INVALID_WORKSPACE_NAME) else Ok (trim s)
  | _ => Err (app_error INVALID_WORKSPACE_NAME)
  end.

(** src/server/workspace-repository.ts:887-892 validSessionStorage *)
Definition validSessionStorage (input : jsval) : result thrown WorkspaceSessionStorage :=
  read_or read_storage invalid_command input.
(** src/server/workspace-repository.ts:894-899 validSecurityProfile *)
Definition validSecurityProfile (input : jsval) : result thrown WorkspaceSecurityProfile :=
  read_or read_profile invalid_command input.
(** src/server/workspace-repository.ts:901-906 validNetworkPolicy *)
Definition validNetworkPolicy (input : jsval) : result thrown SandboxNetworkPolicy :=
  read_or read_network invalid_command input.
(** src/server/workspace-repository.ts:908-913 validNetworkPolicySetId *)
Definition validNetworkPolicySetId (input : jsval) : result thrown string :=
  match input with
  | VStr s => if isStructurallyValidPolicySetId s then Ok s else Err invalid_command
  | _ => Err invalid_command
  end.

(** src/server/workspace-repository.ts:915-922 assertCreateProfileAllowed *)
Definition assertCreateProfileAllowed (profile : WorkspaceSecurityProfile) : result thrown unit :=
  throw_if (bool_decide (rp_mode repo = ModeDisabled) && bool_decide (profile = WorkspaceSandboxed))
    (app_error SANDBOX_DISABLED);;
  throw_if (bool_decide (rp_mode repo = ModeRequired) && negb (bool_decide (profile = WorkspaceSandboxed)))
    (app_error SANDBOX_WORKSPACE_REJECTED).

(** ** The file system *)

(** src/server/workspace-repository.ts:1053-1069 protectedPaths *)
Definition protectedPaths : list string :=
  rp_dataDirectory repo :: rp_piAgentDirectory repo :: rp_readOnlyMounts repo ++ rp_jobScriptRoots repo
  ++ (if bool_decide (rp_managedEgressMode repo = EgressOptional)
      then option_list (rp_networkHelperPath repo) ++ option_list (rp_networkHelperDirectory repo) else []).

Definition access_mode (write : bool) : Z := Z.lor (Z.lor R_OK X_OK) (if write then W_OK else 0).

(** The directory a path leads to must be there and accessible. *)
(** src/server/workspace-repository.ts:952-976 canonicalDirectory *)
Definition canonicalDirectory (input : jsval) (requireWrite : bool) : ws string :=
  match input with
  | VStr s =>
      if String.eqb s "" then throw_ (app_error INVALID_WORKSPACE_PATH)
      else try_
        (let resolved := resolve (rp_processCwd repo) [rp_cwd repo; s] in
         real ← ask (RealpathSync resolved) id;
         let canonical := if is_absolute real then normalize real else resolve (rp_processCwd repo) [rp_cwd repo; real] in
         st ← ask (StatSync canonical) id;
         throw_when (negb (isDirectory st)) (plain_error "Workspace target is not a directory");;
         ask (AccessSync canonical (access_mode requireWrite)) id;;
         mret canonical)
        (λ error, throw_ (toAppError error (CtxWorkspace WPath)))
  | _ => throw_ (app_error INVALID_WORKSPACE_PATH)
  end.

(** src/server/workspace-repository.ts:1027-1048 sessionCandidate *)
Definition session_candidate_contained (workspacePath candidate : string) : ws bool :=
  try_
    (canonical ← ask (RealpathSync candidate) id;
     st ← ask (StatSync canonical) id;
     if negb (isDirectory st) then mret false
     else
       ask (AccessSync canonical (Z.lor (Z.lor R_OK W_OK) X_OK)) id;;
       let relative := relative (rp_processCwd repo) workspacePath canonical in
       mret (negb (String.eqb relative ".." || starts_with "../" relative || is_absolute relative)))
    (λ error, mret (bool_decide (errno_of error = Some "ENOENT"))).

(** src/server/workspace-repository.ts:1022-1051 isSessionDirectoryContained *)
Definition isSessionDirectoryContained (workspacePath sessionDirectory : string) : ws bool :=
  parent ← session_candidate_contained workspacePath (dirname sessionDirectory);
  if negb parent then mret false else session_candidate_contained workspacePath sessionDirectory.

(** src/server/workspace-repository.ts:978-1002 isAvailable *)
Definition isAvailable (workspace : Workspace) : ws bool :=
  try_
    (real ← ask (RealpathSync (w_path workspace)) id;
     let canonical := normalize real in
     if negb (String.eqb canonical (normalize (w_path workspace))) then mret false
     else
       st ← ask (StatSync canonical) id;
       if negb (isDirectory st) then mret false
       else
         ask (AccessSync (w_path workspace)
           (access_mode (bool_decide (w_sessionStorage workspace = WorkspaceStorage)))) id;;
         match w_sessionDirectory workspace with
         | None => mret true
         | Some directory => isSessionDirectoryContained (w_path workspace) directory
         end)
    (λ _, mret false).

(** src/server/workspace-repository.ts:1006-1015 mountsAvailableLoop *)
Fixpoint mounts_available (mounts : list WorkspaceMount) : ws bool :=
  match mounts with
  | [] => mret true
  | mount :: rest =>
      real ← ask (RealpathSync (wm_source mount)) id;
      let canonical := normalize real in
      if negb (String.eqb canonical (normalize (wm_source mount))) then mret false
      else
        st ← ask (StatSync canonical) id;
        if negb (isDirectory st) then mret false
        else
          ask (AccessSync canonical (access_mode (bool_decide (wm_access mount = ReadWrite)))) id;;
          mounts_available rest
  end.

(** src/server/workspace-repository.ts:1004-1020 mountsAvailable *)
Definition mountsAvailable (mounts : list WorkspaceMount) : ws bool :=
  try_ (mounts_available mounts) (λ _, mret false).

(** *** Mounts of an input *)

(** The fields of a candidate whose shape is accepted. *)
(** src/server/workspace-repository.ts:833-844 mountShape *)
Definition mount_shape (names : list string) (candidate : jsval) : result thrown (string * string * WorkspaceMountAccess) :=
  match candidate, get_field "name" candidate, get_field "source" candidate with
  | VObj _, VStr name, VStr source =>
      throw_if (negb (slug name) || bool_decide (name ∈ names)
                || (WORKSPACE_MOUNT_SOURCE_MAX_LENGTH <? strlen source) || negb (is_absolute source)) invalid_mount;;
      access ← read_or read_access invalid_mount (get_field "access" candidate);
      mret (name, source, access)
  | _, _, _ => Err invalid_mount
  end.

(** src/server/workspace-repository.ts:845-871 admitCandidate *)
Definition admit_candidate (workspacePath : string) (mounts : list WorkspaceMount) (name source : string)
    (access : WorkspaceMountAccess) : ws WorkspaceMount :=
  try_
    (real ← ask (RealpathSync source) id;
     let source := normalize real in
     throw_when (negb (is_absolute source)) (plain_error "mount source is not a directory");;
     st ← ask (StatSync source) id;
     throw_when (negb (isDirectory st)) (plain_error "mount source is not a directory");;
     ask (AccessSync source (access_mode (bool_decide (access = ReadWrite)))) id;;
     throw_when (canonicalPathsOverlap source workspacePath
                 || existsb (canonicalPathsOverlap source) protectedPaths
                 || existsb (λ mount, canonicalPathsOverlap source (wm_source mount)) mounts)
       (plain_error "mount source overlaps another admitted path");;
     mret {| wm_name := name; wm_source := source; wm_access := access |})
    (λ error,
      match error with
      | AppError _ _ _ => throw_ error
      | Foreign _ _ => throw_ (app_error_cause INVALID_WORKSPACE_MOUNT error)
      end).

(** src/server/workspace-repository.ts:832-872 validMountsLoop *)
Fixpoint valid_mounts (workspacePath : string) (input : list jsval) (mounts : list WorkspaceMount) : ws (list WorkspaceMount) :=
  match input with
  | [] => mret mounts
  | candidate :: rest =>
      '(name, source, access) ← lift_ (mount_shape (wm_name <$> mounts) candidate);
      mount ← admit_candidate workspacePath mounts name source access;
      valid_mounts workspacePath rest (mounts ++ [mount])%list
  end.

(** src/server/workspace-repository.ts:826-874 validMounts *)
Definition validMounts (input : jsarr) (workspacePath : string) : ws (list WorkspaceMount) :=
  match input with
  | Arr items =>
      if bool_decide (MAX_WORKSPACE_MOUNTS < length items)%nat then throw_ invalid_mount
      else valid_mounts workspacePath items []
  | _ => throw_ invalid_mount
  end.

(** ** The policy decision *)

Record evaluation := {
  ev_effectiveSecurityProfile : option WorkspaceSecurityProfile;
  ev_effectiveNetworkPolicy : option SandboxNetworkPolicy;
  ev_effectiveNetworkPolicySetId : option string;
  ev_networkPolicyIssue : option WorkspaceNetworkPolicyIssue;
  ev_usable : bool;
  ev_policyIssue : option WorkspacePolicyIssue;
}.

(** src/server/workspace-repository.ts:1082-1095 effectiveSecurityProfile *)
Definition effective_profile (profile : WorkspaceSecurityProfile) : option WorkspaceSecurityProfile :=
  match rp_mode repo with
  | ModeDisabled => match profile with WorkspaceSandboxed => None | Unrestricted => Some Unrestricted end
  | ModeRequired => Some WorkspaceSandboxed
  | ModeOptional => Some profile
  end.

(** src/server/workspace-repository.ts:1100-1113 networkPolicyIssue *)
Definition network_issue (ignoreDisabledRequest : bool) (effectiveNetworkPolicy : option SandboxNetworkPolicy)
    (networkPolicySetId : string) : option WorkspaceNetworkPolicyIssue :=
  if negb ignoreDisabledRequest && bool_decide (effectiveNetworkPolicy = Some ManagedEgress)
     && negb (bool_decide (rp_managedEgressMode repo = EgressOptional))
  then Some ManagedEgressDisabled
  else if negb ignoreDisabledRequest && bool_decide (effectiveNetworkPolicy = Some ManagedEgress)
          && negb (map_has networkPolicySetId (rp_networkPolicySets repo))
  then Some PolicySetUnavailable
  else None.

(** src/server/workspace-repository.ts:1117-1118 outsideRoots *)
Definition outside_roots (path : string) : bool :=
  negb (bool_decide (rp_workspaceRoots repo = []))
  && negb (existsb (λ root, isCanonicalPathContained root path) (rp_workspaceRoots repo)).

(** src/server/workspace-repository.ts:1128-1131 hookRootOverlap *)
Definition overlaps_hook_root (workspace : Workspace) : bool :=
  existsb (λ scriptRoot,
    canonicalPathsOverlap (w_path workspace) scriptRoot
    || existsb (λ mount, canonicalPathsOverlap (wm_source mount) scriptRoot) (w_mounts workspace))
    (rp_jobScriptRoots repo).

(** src/server/workspace-repository.ts:1137-1143 mountOverlap *)
Definition mount_overlap (workspace : Workspace) : bool :=
  let indexed := imap pair (w_mounts workspace) in
  existsb (λ '(index, mount),
    canonicalPathsOverlap (w_path workspace) (wm_source mount)
    || existsb (canonicalPathsOverlap (wm_source mount)) protectedPaths
    || existsb (λ '(otherIndex, other),
         negb (Nat.eqb index otherIndex) && canonicalPathsOverlap (wm_source mount) (wm_source other)) indexed)
    indexed.

(** The issues found without looking at the file system. *)
(** src/server/workspace-repository.ts:1115-1148 policyIssue *)
Definition static_issue (workspace : Workspace) (ignoreDisabledRequest : bool) : option WorkspacePolicyIssue :=
  let effective := effective_profile (w_securityProfile workspace) in
  if bool_decide (effective = None) && negb ignoreDisabledRequest then Some SandboxDisabled
  else if outside_roots (w_path workspace) then Some OutsideWorkspaceRoots
  else if overlaps_hook_root workspace then Some ProtectedPathOverlap
  else if bool_decide (effective = Some WorkspaceSandboxed)
          && (existsb (canonicalPathsOverlap (w_path workspace)) protectedPaths || mount_overlap workspace)
  then Some ProtectedPathOverlap
  else None.

(** src/server/workspace-repository.ts:1071-1171 evaluatePolicy *)
Definition evaluatePolicy (workspace : Workspace) (ignoreDisabledRequest : bool) : ws evaluation :=
  let effectiveSecurityProfile := effective_profile (w_securityProfile workspace) in
  let effectiveNetworkPolicy :=
    if bool_decide (effectiveSecurityProfile = Some WorkspaceSandboxed)
    then Some (w_networkPolicy workspace) else None in
  let networkPolicyIssue := network_issue ignoreDisabledRequest effectiveNetworkPolicy (w_networkPolicySetId workspace) in
  let issue := static_issue workspace ignoreDisabledRequest in
  policyIssue ←
    ((if bool_decide (issue = None) && bool_decide (effectiveSecurityProfile = Some WorkspaceSandboxed)
     then available ← mountsAvailable (w_mounts workspace); mret (if negb available then Some MountUnavailable else None)
     else mret issue) : ws (option WorkspacePolicyIssue));
  usable ←
    ((if negb (bool_decide (effectiveSecurityProfile = None)) && bool_decide (policyIssue = None)
        && bool_decide (networkPolicyIssue = None)
     then isAvailable workspace else mret false) : ws bool);
  mret {|
    ev_effectiveSecurityProfile := effectiveSecurityProfile;
    ev_effectiveNetworkPolicy := effectiveNetworkPolicy;
    ev_effectiveNetworkPolicySetId :=
      if usable && bool_decide (effectiveSecurityProfile = Some WorkspaceSandboxed)
         && bool_decide (effectiveNetworkPolicy = Some ManagedEgress)
      then Some (w_networkPolicySetId workspace) else None;
    ev_networkPolicyIssue := networkPolicyIssue;
    ev_usable := usable;
    ev_policyIssue := policyIssue |}.

(** The candidate has no stored identity: only its path, profile, network and mounts are judged. *)
(** src/server/workspace-repository.ts:924-950 assertPathPolicy *)
Definition assertPathPolicy (canonicalPath : string) (storedProfile : WorkspaceSecurityProfile)
    (networkPolicy : SandboxNetworkPolicy) (mounts : list WorkspaceMount) : ws unit :=
  evaluation ← evaluatePolicy {|
    w_id := "policy-candidate"; w_name := "policy-candidate"; w_path := canonicalPath;
    w_sessionStorage := PiDefault; w_sessionDirectory := None; w_securityProfile := storedProfile;
    w_mounts := mounts; w_networkPolicy := networkPolicy;
    w_networkPolicySetId := DEFAULT_NETWORK_POLICY_SET_ID; w_enabledHttpTools := [];
    w_conversationToolsEnabled := false; w_createdAt := 0; w_updatedAt := 0 |} true;
  throw_when (bool_decide (ev_policyIssue evaluation = Some OutsideWorkspaceRoots)
              || bool_decide (ev_policyIssue evaluation = Some ProtectedPathOverlap))
    (app_error SANDBOX_WORKSPACE_REJECTED).

(** src/server/workspace-repository.ts:1173-1176 conversationTools *)
Definition conversationTools (workspace : Workspace) : list ConversationToolName :=
  if w_conversationToolsEnabled workspace && rp_searchOptional repo then CONVERSATION_TOOL_NAMES else [].

(** src/server/workspace-repository.ts:1178-1190 summary *)
Definition summary (workspace : Workspace) : ws WorkspaceSummary :=
  available ← isAvailable workspace;
  evaluation ← evaluatePolicy workspace false;
  mret {|
    ws_id := w_id workspace; ws_name := w_name workspace; ws_path := w_path workspace;
    ws_sessionStorage := w_sessionStorage workspace; ws_sessionDirectory := w_sessionDirectory workspace;
    ws_securityProfile := w_securityProfile workspace; ws_mounts := w_mounts workspace;
    ws_networkPolicy := w_networkPolicy workspace;
    ws_effectiveSecurityProfile := ev_effectiveSecurityProfile evaluation;
    ws_effectiveNetworkPolicy := ev_effectiveNetworkPolicy evaluation;
    ws_networkPolicySetId := w_networkPolicySetId workspace;
    ws_effectiveNetworkPolicySetId := ev_effectiveNetworkPolicySetId evaluation;
    ws_networkPolicyIssue := ev_networkPolicyIssue evaluation;
    ws_enabledHttpTools := w_enabledHttpTools workspace;
    ws_effectiveHttpTools := filter (λ name, name ∈ rp_httpTools repo) (w_enabledHttpTools workspace);
    ws_createdAt := JInt (w_createdAt workspace); ws_updatedAt := JInt (w_updatedAt workspace);
    ws_conversationToolsEnabled := w_conversationToolsEnabled workspace;
    ws_effectiveConversationTools := conversationTools workspace;
    ws_available := available;
    ws_usable := available && ev_usable evaluation;
    ws_policyIssue := ev_policyIssue evaluation |}.

(** ** Reading *)

(** src/server/workspace-repository.ts:759-765 getStored *)
Definition getStored (workspaceId : string) : ws Workspace :=
  row ← in_database (query_db (sql_getWorkspace workspaceId));
  match row with
  | None => throw_ (app_error WORKSPACE_NOT_FOUND)
  | Some row => d ← get_; lift_ (workspaceFromRow row d)
  end.

Definition summary_before (left right : WorkspaceSummary) : Prop :=
  workspace_before (ws_name left) (ws_id left) (ws_name right) (ws_id right) = true.
#[export] Instance summary_before_dec left right : Decision (summary_before left right).
Proof. unfold summary_before. apply _. Defined.

(** src/server/workspace-repository.ts:370-374 list *)
Definition list_workspaces : ws (list WorkspaceSummary) :=
  in_database (
    rows ← query_db sql_listWorkspaces;
    summaries ← mapM (λ row, d ← get_; workspace ← lift_ (workspaceFromRow row d); summary workspace) rows;
    mret (merge_sort summary_before summaries)).

(** Identifier, name, path and session directory. *)
Record registration := {
  rg_id : string; rg_name : string; rg_path : string; rg_sessionDirectory : option string;
}.
Definition registration_before (left right : registration) : Prop :=
  workspace_before (rg_name left) (rg_id left) (rg_name right) (rg_id right) = true.
#[export] Instance registration_before_dec left right : Decision (registration_before left right).
Proof. unfold registration_before. apply _. Defined.
Definition registration_of (row : WorkspaceRow) : registration := {|
  rg_id := wr_id row; rg_name := wr_name row; rg_path := wr_path row;
  rg_sessionDirectory := workspaceSessionDirectory (wr_path row) (wr_session_storage row) |}.

(** src/server/workspace-repository.ts:377-381 listRegistrations *)
Definition listRegistrations : ws (list registration) :=
  in_database (query_db (λ d, merge_sort registration_before (registration_of <$> sql_listWorkspaces d))).

(** src/server/workspace-repository.ts:383-386 get *)
Definition get_workspace (workspaceId : string) : ws WorkspaceSummary :=
  workspace ← getStored workspaceId;
  summary workspace.

(** src/server/workspace-repository.ts:389-395 requireAvailable *)
Definition requireAvailable (workspaceId : string) : ws Workspace :=
  workspace ← getStored workspaceId;
  available ← isAvailable workspace;
  throw_when (negb available) (app_error WORKSPACE_UNAVAILABLE);;
  mret workspace.

(** src/server/workspace-repository.ts:401-412 refusal *)
Definition usability_error (evaluation : evaluation) : thrown :=
  if bool_decide (ev_policyIssue evaluation = Some SandboxDisabled) then app_error SANDBOX_DISABLED
  else match ev_networkPolicyIssue evaluation with
       | Some ManagedEgressDisabled => app_error MANAGED_EGRESS_DISABLED
       | Some PolicySetUnavailable => app_error NETWORK_POLICY_INVALID
       | None => app_error SANDBOX_WORKSPACE_REJECTED
       end.

(** src/server/workspace-repository.ts:420-425 admitMounts *)
Fixpoint admit_mounts (mounts : list WorkspaceMount) : ws unit :=
  match mounts with
  | [] => mret tt
  | mount :: rest =>
      admitMount (rp_admission repo)
        {| mp_sourcePath := wm_source mount; mp_writable := bool_decide (wm_access mount = ReadWrite) |};;
      admit_mounts rest
  end.

(** src/server/workspace-repository.ts:398-448 requireUsable *)
Definition requireUsable (workspaceId : string) : ws ConversationWorkspace :=
  workspace ← requireAvailable workspaceId;
  evaluation ← evaluatePolicy workspace false;
  match ev_usable evaluation, ev_effectiveSecurityProfile evaluation with
  | true, Some effective =>
      (if bool_decide (effective = WorkspaceSandboxed) then
         admit_workspace (rp_processCwd repo) (rp_admission repo)
           {| sp_workspacePath := w_path workspace; sp_workspaceRoots := rp_workspaceRoots repo;
              sp_protectedPaths := protectedPaths |};;
         admit_mounts (w_mounts workspace)
       else mret tt : ws unit);;
      mret {|
        cw_workspaceId := w_id workspace; cw_cwd := w_path workspace;
        cw_sessionDirectory := w_sessionDirectory workspace;
        cw_securityProfile := effective;
        cw_mounts := Some (if bool_decide (effective = WorkspaceSandboxed) then w_mounts workspace else []);
        cw_networkPolicy := ev_effectiveNetworkPolicy evaluation;
        cw_networkPolicySetId := Some (w_networkPolicySetId workspace);
        cw_effectiveNetworkPolicySetId := ev_effectiveNetworkPolicySetId evaluation;
        cw_networkPolicySet := setId ← ev_effectiveNetworkPolicySetId evaluation; map_get setId (rp_networkPolicySets repo);
        cw_effectiveHttpTools := Some (filter (λ name, name ∈ rp_httpTools repo) (w_enabledHttpTools workspace));
        cw_effectiveConversationTools := Some (tool_text <$> conversationTools workspace) |}
  | _, _ => throw_ (usability_error evaluation)
  end.
End repository.
