(* ===== verification/WorkspaceMutations.v ===== *)
(** The operations of the workspace repository that change the database
    ([src/server/workspace-repository.ts]): create, update and delete. *)
From S2P Require Import Prelude JsValues Texts Errors Programs PosixPath Host SandboxAdmission Protocol JobStore WorkspaceStore Workspaces WorkspaceRepository WorkspaceOperations.
#[local] Open Scope string_scope. #[local] Open Scope Z_scope.

(** What a transaction over workspaces throws: a path in use has its own error. *)
(** src/server/workspace-repository.ts:529-537 duplicatePath *)
Definition reporting_duplicates {A} (op : ws A) : ws A :=
  try_ op (λ error,
    throw_ (if isDuplicatePathConstraint error then toAppError error (CtxWorkspace WDuplicate) else error)).

(** src/server/workspace-repository.ts:522-524 insertMounts *)
Fixpoint insert_mounts (id : string) (mounts : list WorkspaceMount) : ws unit :=
  match mounts with
  | [] => mret tt
  | mount :: rest =>
      run_stmt (sql_insertMount {| mr_workspace_id := id; mr_name := wm_name mount;
        mr_source_path := wm_source mount; mr_access := access_text (wm_access mount) |});;
      insert_mounts id rest
  end.
(** src/server/workspace-repository.ts:525-527 insertTools *)
Fixpoint insert_tools (id : string) (tools : list string) : ws unit :=
  match tools with
  | [] => mret tt
  | tool :: rest => run_stmt (sql_insertHttpTool id tool);; insert_tools id rest
  end.

Definition is_writable (mount : WorkspaceMount) : bool := bool_decide (wm_access mount = ReadWrite).
(** An acknowledgement is given exactly when it is needed. *)
(** src/server/workspace-repository.ts:497-502 acknowledgement *)
Definition require_acknowledgement (acknowledged needed : bool) : result thrown unit :=
  throw_if (acknowledged && negb needed) invalid_command;;
  throw_if (needed && negb acknowledged) invalid_command.

Section mutations.
Context (repo : WorkspaceRepository).

(** ** Create *)

(** The transaction. *)
(** src/server/workspace-repository.ts:507-538 createTransaction *)
Definition insert_workspace (workspace : Workspace) : ws unit :=
  in_database (reporting_duplicates (transaction (
    run_stmt (sql_insertWorkspace {|
      wr_id := w_id workspace; wr_name := w_name workspace; wr_path := w_path workspace;
      wr_session_storage := w_sessionStorage workspace;
      wr_security_profile := profile_text (w_securityProfile workspace);
      wr_network_policy := network_text (w_networkPolicy workspace);
      wr_network_policy_set_id := w_networkPolicySetId workspace;
      wr_conversation_tools_enabled := if w_conversationToolsEnabled workspace then 1 else 0;
      wr_created_at := w_createdAt workspace; wr_updated_at := w_updatedAt workspace |});;
    insert_mounts (w_id workspace) (w_mounts workspace);;
    insert_tools (w_id workspace) (w_enabledHttpTools workspace)))).

(** The checks that need no file system: name, tools flag, storage, profile,
    network policy and its set. *)
(** src/server/workspace-repository.ts:451-479 createFields *)
Definition create_fields (input : CreateWorkspaceInput)
  : result thrown (string * bool * WorkspaceSessionStorage * WorkspaceSecurityProfile * SandboxNetworkPolicy * string) :=
  name ← validName (ci_name input);
  conversationToolsEnabled ← validConversationToolsEnabled
    (match ci_conversationToolsEnabled input with VUndefined => VBool false | v => v end);
  sessionStorage ← validSessionStorage (or_default (ci_sessionStorage input) "pi-default");
  securityProfile ← validSecurityProfile (or_default (ci_securityProfile input) "unrestricted");
  assertCreateProfileAllowed repo securityProfile;;
  networkPolicy ← validNetworkPolicy (or_default (ci_networkPolicy input) "isolated");
  networkPolicySetId ← validNetworkPolicySetId (or_default (ci_networkPolicySetId input) DEFAULT_NETWORK_POLICY_SET_ID);
  throw_if (negb (map_has networkPolicySetId (rp_networkPolicySets repo))) invalid_command;;
  throw_if (bool_decide (securityProfile = WorkspaceSandboxed) && bool_decide (networkPolicy = ManagedEgress)
            && negb (bool_decide (rp_managedEgressMode repo = EgressOptional))) (app_error MANAGED_EGRESS_DISABLED);;
  mret (name, conversationToolsEnabled, sessionStorage, securityProfile, networkPolicy, networkPolicySetId).

(** A session directory must not leave its workspace. *)
(** src/server/workspace-repository.ts:488-493 createSessionDirectory *)
Definition check_session_directory (canonicalPath : string) (sessionDirectory : option string) : ws unit :=
  match sessionDirectory with
  | None => mret tt
  | Some directory =>
      contained ← isSessionDirectoryContained repo canonicalPath directory;
      throw_when (negb contained) (app_error INVALID_WORKSPACE_PATH)
  end.

(** src/server/workspace-repository.ts:450-555 create *)
Definition create_workspace (input : CreateWorkspaceInput) : ws WorkspaceSummary :=
  '(name, conversationToolsEnabled, sessionStorage, securityProfile, networkPolicy, networkPolicySetId) ←
    lift_ (create_fields input);
  canonicalPath ← canonicalDirectory repo (ci_path input) (bool_decide (sessionStorage = WorkspaceStorage));
  let sessionDirectory := workspaceSessionDirectory canonicalPath sessionStorage in
  check_session_directory canonicalPath sessionDirectory;;
  mounts ← validMounts repo (or_empty (ci_mounts input)) canonicalPath;
  enabledHttpTools ← lift_ (validHttpTools repo (or_empty (ci_enabledHttpTools input)));
  lift_ (require_acknowledgement (ci_acknowledgeWritableMounts input) (existsb is_writable mounts));;
  assertPathPolicy repo canonicalPath securityProfile networkPolicy mounts;;
  id ← tell RandomUUID;
  now ← tell DateNow;
  let workspace := {|
    w_id := id; w_name := name; w_path := canonicalPath; w_sessionStorage := sessionStorage;
    w_sessionDirectory := sessionDirectory; w_securityProfile := securityProfile; w_mounts := mounts;
    w_networkPolicy := networkPolicy; w_networkPolicySetId := networkPolicySetId;
    w_enabledHttpTools := enabledHttpTools; w_conversationToolsEnabled := conversationToolsEnabled;
    w_createdAt := now; w_updatedAt := now |} in
  insert_workspace workspace;;
  summary repo workspace.

(** ** Update *)

(** [v === undefined ? current : read(v)] *)
Definition keep_or {A} (v : jsval) (current : A) (read : jsval → result thrown A) : result thrown A :=
  if defined v then read v else Ok current.

(** src/server/workspace-repository.ts:562-573 updateEmpty *)
Definition changes_nothing (changes : UpdateWorkspaceInput) : bool :=
  negb (defined (ui_name changes) || defined (ui_path changes) || defined (ui_securityProfile changes)
        || defined_array (ui_mounts changes) || defined (ui_networkPolicy changes)
        || defined (ui_networkPolicySetId changes) || defined_array (ui_enabledHttpTools changes)
        || defined (ui_conversationToolsEnabled changes)).

(** src/server/workspace-repository.ts:578-603 updateProfile *)
Definition update_profile (current : Workspace) (changes : UpdateWorkspaceInput) : result thrown WorkspaceSecurityProfile :=
  securityProfile ← keep_or (ui_securityProfile changes) (w_securityProfile current) validSecurityProfile;
  let isDowngrade := bool_decide (w_securityProfile current = WorkspaceSandboxed)
                     && bool_decide (securityProfile = Unrestricted) in
  require_acknowledgement (ui_acknowledgeSecurityDowngrade changes) isDowngrade;;
  throw_if (defined (ui_securityProfile changes) && bool_decide (rp_mode repo = ModeDisabled)
            && bool_decide (securityProfile = WorkspaceSandboxed)) (app_error SANDBOX_DISABLED);;
  throw_if (defined (ui_securityProfile changes) && bool_decide (rp_mode repo = ModeRequired)
            && negb (bool_decide (securityProfile = WorkspaceSandboxed))) (app_error SANDBOX_WORKSPACE_REJECTED);;
  mret securityProfile.

(** Whether a change lets a workspace reach more of the network. *)
(** src/server/workspace-repository.ts:614-625 addsNetworkExposure *)
Definition adds_network_exposure (current : Workspace) (securityProfile : WorkspaceSecurityProfile)
    (networkPolicy : SandboxNetworkPolicy) (networkPolicySetId : string) : bool :=
  let enablesManagedEgress :=
    (negb (bool_decide (w_securityProfile current = WorkspaceSandboxed))
     || negb (bool_decide (w_networkPolicy current = ManagedEgress)))
    && bool_decide (securityProfile = WorkspaceSandboxed) && bool_decide (networkPolicy = ManagedEgress) in
  let selectsManagedNetwork :=
    bool_decide (w_networkPolicy current = Isolated) && bool_decide (networkPolicy = ManagedEgress) in
  let changesManagedSet :=
    negb (String.eqb (w_networkPolicySetId current) networkPolicySetId)
    && (bool_decide (w_networkPolicy current = ManagedEgress) || bool_decide (networkPolicy = ManagedEgress)) in
  enablesManagedEgress || selectsManagedNetwork || changesManagedSet.

(** src/server/workspace-repository.ts:605-639 updateNetwork *)
Definition update_network (current : Workspace) (changes : UpdateWorkspaceInput)
    (securityProfile : WorkspaceSecurityProfile) : result thrown (SandboxNetworkPolicy * string) :=
  networkPolicy ← keep_or (ui_networkPolicy changes) (w_networkPolicy current) validNetworkPolicy;
  networkPolicySetId ← keep_or (ui_networkPolicySetId changes) (w_networkPolicySetId current) validNetworkPolicySetId;
  throw_if (defined (ui_networkPolicySetId changes) && negb (map_has networkPolicySetId (rp_networkPolicySets repo)))
    invalid_command;;
  require_acknowledgement (ui_acknowledgeNetworkExposure changes)
    (adds_network_exposure current securityProfile networkPolicy networkPolicySetId);;
  throw_if ((defined (ui_securityProfile changes) || defined (ui_networkPolicy changes))
            && bool_decide (securityProfile = WorkspaceSandboxed) && bool_decide (networkPolicy = ManagedEgress)
            && negb (bool_decide (rp_managedEgressMode repo = EgressOptional))) (app_error MANAGED_EGRESS_DISABLED);;
  mret (networkPolicy, networkPolicySetId).

(** A writable mount that was not there as it is now. *)
(** src/server/workspace-repository.ts:655-660 addsWritableMounts *)
Definition adds_writable_mounts (previous mounts : list WorkspaceMount) : bool :=
  let previousMounts := map_of ((λ mount, (wm_name mount, mount)) <$> previous) in
  existsb (λ mount,
    is_writable mount
    && match map_get (wm_name mount) previousMounts with
       | None => true
       | Some old => negb (is_writable old) || negb (String.eqb (wm_source old) (wm_source mount))
       end) mounts.

(** src/server/workspace-repository.ts:692-730 updateTransaction *)
Definition store_update (workspaceId : string) (workspace : Workspace) (changes : UpdateWorkspaceInput) : ws unit :=
  in_database (reporting_duplicates (transaction (
    changed ← run_stmt (sql_updateWorkspace (w_name workspace) (w_path workspace)
      (profile_text (w_securityProfile workspace)) (network_text (w_networkPolicy workspace))
      (w_networkPolicySetId workspace) (if w_conversationToolsEnabled workspace then 1 else 0)
      (w_updatedAt workspace) workspaceId);
    throw_when (negb (changed =? 1)) (app_error WORKSPACE_NOT_FOUND);;
    (if defined_array (ui_mounts changes) then
       modify_ (sql_deleteMounts workspaceId);; insert_mounts workspaceId (w_mounts workspace)
     else mret tt : ws unit);;
    (if defined_array (ui_enabledHttpTools changes) then
       modify_ (sql_deleteHttpTools workspaceId);; insert_tools workspaceId (w_enabledHttpTools workspace)
     else mret tt : ws unit)))).

(** src/server/workspace-repository.ts:557-745 update *)
Definition update_workspace (workspaceId : string) (changes : UpdateWorkspaceInput) : ws WorkspaceSummary :=
  current ← getStored workspaceId;
  throw_when (changes_nothing changes) invalid_command;;
  conversationToolsEnabled ← lift_ (keep_or (ui_conversationToolsEnabled changes)
    (w_conversationToolsEnabled current) validConversationToolsEnabled);
  securityProfile ← lift_ (update_profile current changes);
  '(networkPolicy, networkPolicySetId) ← lift_ (update_network current changes securityProfile);
  name ← lift_ (keep_or (ui_name changes) (w_name current) validName);
  canonicalPath ← ((if defined (ui_path changes)
    then canonicalDirectory repo (ui_path changes) (bool_decide (w_sessionStorage current = WorkspaceStorage))
    else mret (w_path current)) : ws string);
  mounts ← ((if defined_array (ui_mounts changes)
    then validMounts repo (ui_mounts changes) canonicalPath else mret (w_mounts current)) : ws (list WorkspaceMount));
  let addsWritableMounts := defined_array (ui_mounts changes) && adds_writable_mounts (w_mounts current) mounts in
  lift_ (require_acknowledgement (ui_acknowledgeWritableMounts changes) addsWritableMounts);;
  let sessionDirectory := workspaceSessionDirectory canonicalPath (w_sessionStorage current) in
  (if defined (ui_path changes) then check_session_directory canonicalPath sessionDirectory else mret tt : ws unit);;
  (if defined (ui_path changes) || defined (ui_securityProfile changes) || defined_array (ui_mounts changes)
      || defined (ui_networkPolicy changes) || defined (ui_networkPolicySetId changes)
   then assertPathPolicy repo canonicalPath securityProfile networkPolicy mounts else mret tt : ws unit);;
  enabledHttpTools ← lift_ (if defined_array (ui_enabledHttpTools changes)
    then validHttpTools repo (ui_enabledHttpTools changes) else Ok (w_enabledHttpTools current));
  now ← tell DateNow;
  let workspace := {|
    w_id := w_id current; w_name := name; w_path := canonicalPath; w_sessionStorage := w_sessionStorage current;
    w_sessionDirectory := sessionDirectory; w_securityProfile := securityProfile; w_mounts := mounts;
    w_networkPolicy := networkPolicy; w_networkPolicySetId := networkPolicySetId;
    w_enabledHttpTools := enabledHttpTools; w_conversationToolsEnabled := conversationToolsEnabled;
    w_createdAt := w_createdAt current; w_updatedAt := now |} in
  store_update workspaceId workspace changes;;
  summary repo workspace.

(** ** Delete *)

(** src/server/workspace-repository.ts:747-757 delete *)
Definition delete_workspace (workspaceId : string) : ws unit :=
  in_database (
    referenced ← query_db (sql_referencingJob workspaceId);
    throw_when referenced (app_error WORKSPACE_BUSY);;
    changed ← run_stmt (sql_deleteWorkspace workspaceId);
    throw_when (negb (changed =? 1)) (app_error WORKSPACE_NOT_FOUND)).
End mutations.
