(* ===== verification/WorkspaceInvariant.v ===== *)
(** The invariant of the workspace tables and what the repository's operations
    do to them: reading operations change nothing, a mutation that throws
    changes nothing, and one that succeeds keeps the invariant and leaves the
    job tables alone. *)
From S2P Require Import Prelude JsValues Texts Errors Programs PosixPath Host SandboxAdmission Protocol JobStore WorkspaceStore Workspaces WorkspaceRepository WorkspaceOperations WorkspaceMutations.
#[local] Open Scope string_scope. #[local] Open Scope Z_scope.

(** ** The invariant *)

Record wdb_ok (d : wdb) : Prop := {
  wk_rows id r : wd_workspaces d !! id = Some r → wr_id r = id ∧ workspace_row_ok r = true;
  wk_paths i j r s : wd_workspaces d !! i = Some r → wd_workspaces d !! j = Some s → wr_path r = wr_path s → i = j;
  wk_mounts k m : wd_mounts d !! k = Some m →
    k = (mr_workspace_id m, mr_name m) ∧ mount_row_ok m = true ∧ is_Some (wd_workspaces d !! mr_workspace_id m);
  wk_sources k1 k2 m1 m2 : wd_mounts d !! k1 = Some m1 → wd_mounts d !! k2 = Some m2 →
    mr_workspace_id m1 = mr_workspace_id m2 → mr_source_path m1 = mr_source_path m2 → k1 = k2;
  wk_tools p : p ∈ wd_tools d → tool_name_check p.2 = true ∧ is_Some (wd_workspaces d !! p.1);
  wk_jobs : db_ok (job_db d);
}.

(** Jobs only need the workspaces to be there. *)
Lemma job_db_ok d d' :
  wd_jobs d' = wd_jobs d → wd_runs d' = wd_runs d →
  (∀ j r, wd_jobs d !! j = Some r → is_Some (wd_workspaces d !! jr_workspace_id r) →
          is_Some (wd_workspaces d' !! jr_workspace_id r)) →
  db_ok (job_db d) → db_ok (job_db d').
Proof.
  intros Hj Hr Hw [Hjobs Hruns Hone]. split; cbn; rewrite ?Hj, ?Hr; [|done|done].
  intros id r H. destruct (Hjobs id r H) as (H1 & H2 & H3). split_and!; [done..|].
  cbn in H3. rewrite lookup_fmap in *. apply fmap_is_Some. apply fmap_is_Some in H3. by eapply Hw.
Qed.

Lemma path_taken_false d id path :
  path_taken d id path = false →
  ∀ j s, wd_workspaces d !! j = Some s → wr_path s = path → j = id.
Proof.
  unfold path_taken. intros H j s Hj Hp. destruct (decide (j = id)) as [|Hne]; [done|].
  rewrite <-not_true_iff_false in H. destruct H. apply existsb_exists. exists (j, s). split.
  - by apply list_elem_of_In, elem_of_map_to_list.
  - cbn. apply String.eqb_eq in Hp as ->. apply String.eqb_neq in Hne as ->. done.
Qed.

(** *** Statements keep it *)
Definition keeps_db {A} (statement : wdb → result thrown (A * wdb)) : Prop :=
  ∀ d a d', wdb_ok d → statement d = Ok (a, d') →
    wdb_ok d' ∧ wd_jobs d' = wd_jobs d ∧ wd_runs d' = wd_runs d.

(** Storing a row under its identifier. *)
Lemma put_workspace_ok d id r :
  wdb_ok d → wr_id r = id → workspace_row_ok r = true → path_taken d id (wr_path r) = false →
  wdb_ok (set_workspaces (<[id := r]> (wd_workspaces d)) d).
Proof.
  intros [Hrows Hpaths Hmounts Hsources Htools Hjobs] Hid Hr Hp.
  pose proof (path_taken_false d id (wr_path r) Hp) as Hfree.
  assert (Hsome : ∀ i, is_Some (wd_workspaces d !! i) → is_Some (<[id := r]> (wd_workspaces d) !! i)).
  { intros i. rewrite lookup_insert_is_Some'. auto. }
  split; cbn.
  - intros i r' [[<- <-]|[Hne H]]%lookup_insert_Some; auto.
  - intros i j r1 r2 [[<- <-]|[Hi H1]]%lookup_insert_Some [[<- <-]|[Hj H2]]%lookup_insert_Some E; [done|..].
    + symmetry. by eapply Hfree.
    + by eapply Hfree.
    + by eapply Hpaths.
  - intros k m H. destruct (Hmounts k m H) as (? & ? & ?). split_and!; auto.
  - done.
  - intros p H. destruct (Htools p H). split; auto.
  - eapply (job_db_ok d); auto.
Qed.

Lemma insertWorkspace_keeps r : keeps_db (sql_insertWorkspace r).
Proof.
  intros d a d' Hd. unfold sql_insertWorkspace. repeat case_match; try done. intros [= <- <-].
  breflect. split; [|done]. by apply put_workspace_ok.
Qed.

Lemma updateWorkspace_keeps name path profile network set tools now id :
  keeps_db (sql_updateWorkspace name path profile network set tools now id).
Proof.
  intros d a d' Hd. unfold sql_updateWorkspace. destruct (wd_workspaces d !! id) as [r|] eqn:E; [|by intros [= <- <-]].
  repeat case_match; try done. intros [= <- <-]. breflect. split; [|done].
  apply put_workspace_ok; [done| |done|done]. cbn. by destruct (wk_rows d Hd id r E).
Qed.

Lemma deleteWorkspace_keeps id : keeps_db (sql_deleteWorkspace id).
Proof.
  intros d a d' Hd. unfold sql_deleteWorkspace. destruct (wd_workspaces d !! id) as [r|] eqn:E; [|by intros [= <- <-]].
  destruct (existsb _ _) eqn:Hex; [done|]. intros [= <- <-]. split; [|done].
  destruct Hd as [Hrows Hpaths Hmounts Hsources Htools Hjobs].
  assert (Hsome : ∀ i, i ≠ id → is_Some (wd_workspaces d !! i) → is_Some (delete id (wd_workspaces d) !! i)).
  { intros i Hi. by rewrite lookup_delete_ne. }
  split; cbn.
  - intros i r' [_ H]%lookup_delete_Some. auto.
  - intros i j r1 r2 [_ H1]%lookup_delete_Some [_ H2]%lookup_delete_Some. by apply Hpaths.
  - intros k m [H Hne]%map_lookup_filter_Some. destruct (Hmounts k m H) as (Hk & ? & ?). split_and!; [done..|].
    apply Hsome; [|done]. by rewrite Hk in Hne.
  - intros k1 k2 m1 m2 [H1 _]%map_lookup_filter_Some [H2 _]%map_lookup_filter_Some. by apply Hsources.
  - intros p [Hne H]%elem_of_filter. destruct (Htools p H). split; [done|]. by apply Hsome.
  - apply (job_db_ok d); [done|done| |done]. intros j jr Hj Hw. apply Hsome; [|done]. intros Heq.
    rewrite <-not_true_iff_false in Hex. apply Hex, existsb_exists. exists (j, jr).
    split; [by apply list_elem_of_In, elem_of_map_to_list|]. by apply String.eqb_eq.
Qed.

Lemma insertMount_keeps r : keeps_db (sql_insertMount r).
Proof.
  intros d a d' Hd. unfold sql_insertMount. repeat case_match; try done. intros [= <- <-]. breflect.
  destruct Hd as [Hrows Hpaths Hmounts Hsources Htools Hjobs].
  assert (Hnew : ∀ k m, wd_mounts d !! k = Some m → mr_workspace_id m = mr_workspace_id r →
    mr_source_path m = mr_source_path r → False).
  { intros k m Hk Hid Hsrc. destruct (Hmounts k m Hk) as (-> & _).
    match goal with H : existsb _ _ = false |- _ => rewrite <-not_true_iff_false in H; apply H end.
    apply existsb_exists. eexists (_, m). split; [by apply list_elem_of_In, elem_of_map_to_list|]. cbn.
    by rewrite Hid, Hsrc, !String.eqb_refl. }
  split; [split; cbn|done]; try done.
  - intros k m [[<- <-]|[Hne Ha]]%lookup_insert_Some; [|by apply Hmounts].
    split_and!; [done..|]. by apply not_eq_None_Some.
  - intros k1 k2 m1 m2 [[<- <-]|[Hi Ha]]%lookup_insert_Some [[<- <-]|[Hj Hb]]%lookup_insert_Some Hid Hs; [done|..].
    + exfalso. by eapply Hnew.
    + exfalso. by eapply Hnew.
    + by eapply Hsources.
Qed.

Lemma insertHttpTool_keeps id tool : keeps_db (sql_insertHttpTool id tool).
Proof.
  intros d a d' Hd. unfold sql_insertHttpTool. repeat case_match; try done. intros [= <- <-]. breflect.
  destruct Hd as [Hrows Hpaths Hmounts Hsources Htools Hjobs]. split; [split; cbn|done]; try done.
  intros p [->%elem_of_singleton|Hp]%elem_of_union; [|by apply Htools].
  split; [done|]. by apply not_eq_None_Some.
Qed.

Lemma deleteMounts_ok id d : wdb_ok d → wdb_ok (sql_deleteMounts id d).
Proof.
  intros [Hrows Hpaths Hmounts Hsources Htools Hjobs]. split; cbn; try done.
  - intros k m [H _]%map_lookup_filter_Some. by apply Hmounts.
  - intros k1 k2 m1 m2 [H1 _]%map_lookup_filter_Some [H2 _]%map_lookup_filter_Some. by apply Hsources.
Qed.
Lemma deleteHttpTools_ok id d : wdb_ok d → wdb_ok (sql_deleteHttpTools id d).
Proof.
  intros [Hrows Hpaths Hmounts Hsources Htools Hjobs]. split; cbn; try done.
  intros p [_ H]%elem_of_filter. by apply Htools.
Qed.

(** ** Synchronous statements

    The operations below are synchronous: they make no awaited call, so that no
    other task runs in between. What they throw leaves the database in [T]. *)
Definition no_ghost (g : unit) (e : event host_answer wdb) : unit := g.
Notation sync T P m Q := (spec_t (R := exhausted) (E := thrown) (λ _ c, is_awaited c = false) no_ghost
  (λ _ _, False) (λ d _, T d) (λ d _, P d) m (λ x d _, Q x d)).

Lemma sync_bind {A B} T P (m : ws A) (k : A → ws B) Q R :
  sync T P m Q → (∀ x, sync T (Q x) (k x) R) → sync T P (m ≫= k) R.
Proof. intros Hm Hk. eapply spec_bind; [exact Hm|]. exact Hk. Qed.

Lemma sync_weaken {A} (T P P' : wdb → Prop) (m : ws A) (Q Q' : A → wdb → Prop) :
  (∀ d, P d → P' d) → (∀ x d, Q' x d → Q x d) → sync T P' m Q' → sync T P m Q.
Proof. intros HP HQ. apply spec_weaken; auto. Qed.

(** What it throws may be explained by more. *)
Lemma sync_throws {A} (T T' P : wdb → Prop) (m : ws A) (Q : A → wdb → Prop) :
  (∀ d, T d → T' d) → sync T P m Q → sync T' P m Q.
Proof.
  intros HT Hm d g HP. eapply wp_mono; [|by apply Hm]. intros [o d'] g'. by destruct o; auto.
Qed.

Lemma sync_ask {A} c (f : host_answer c → result thrown A) (T P : wdb → Prop) :
  is_awaited c = false → (∀ d, P d → T d) → sync T P (ask c f) (λ _, P).
Proof.
  intros Hc HT d g HP. cbn. split; [done|]. intros r w. unfold interference_of, host_interference.
  rewrite Hc. cbn. destruct (f r); [done|by apply HT].
Qed.

Lemma sync_tell c (T P : wdb → Prop) : is_awaited c = false → sync T P (tell c) (λ _, P).
Proof.
  intros Hc d g HP. cbn. split; [done|]. intros r w. unfold interference_of, host_interference. by rewrite Hc.
Qed.

Lemma sync_run_stmt {A} (st : wdb → result thrown (A * wdb)) (T P : wdb → Prop) (Q : A → wdb → Prop) :
  (∀ d, P d → T d) → (∀ d a d', P d → st d = Ok (a, d') → Q a d') → sync T P (run_stmt st) Q.
Proof.
  intros HT HQ d g HP. unfold run_stmt, mbind, stmt_bind, get_. cbn.
  destruct (st d) as [[a d']|e] eqn:E; cbn; [by eapply HQ|by apply HT].
Qed.

Lemma sync_transaction {A} (T : wdb → Prop) d0 (m : ws A) (Q : A → wdb → Prop) :
  T d0 → sync (λ _, True) (λ d, d = d0) m Q → sync T (λ d, d = d0) (transaction m) Q.
Proof.
  intros HT Hm d [] ->. unfold transaction, mbind, stmt_bind, get_. cbn. apply wp_bind.
  eapply wp_mono; [|by apply Hm]. intros [o d'] [] H. by destruct o.
Qed.

Lemma sync_try_same {A} (T P : wdb → Prop) (m : ws A) h (Q : A → wdb → Prop) :
  sync T P m Q → (∀ e, sync T T (h e) Q) → sync T P (try_ m h) Q.
Proof. intros Hm Hh. by eapply spec_try. Qed.

Lemma sync_in_database {A} (T P : wdb → Prop) (m : ws A) (Q : A → wdb → Prop) :
  sync T P m Q → sync T P (in_database m) Q.
Proof. intros Hm. apply sync_try_same; [exact Hm|]. intros e. by apply spec_throw. Qed.

Lemma sync_reporting {A} (T P : wdb → Prop) (m : ws A) (Q : A → wdb → Prop) :
  sync T P m Q → sync T P (reporting_duplicates m) Q.
Proof. intros Hm. apply sync_try_same; [exact Hm|]. intros e. by apply spec_throw. Qed.

(** *** Statements that leave the database as it is *)

Definition quietly {A} (m : ws A) : Prop := ∀ d0, sync (λ d, d = d0) (λ d, d = d0) m (λ _ d, d = d0).
Create HintDb quiet.

Lemma unchanged_ret {A} (x : A) : quietly (mret x).
Proof. intros d0. by apply spec_ret. Qed.
Lemma quietly_bind {A B} (m : ws A) (k : A → ws B) : quietly m → (∀ x, quietly (k x)) → quietly (m ≫= k).
Proof. intros Hm Hk d0. eapply sync_bind; [apply Hm|]. intros x. apply Hk. Qed.
Lemma quietly_throw {A} e : quietly (throw_ e : ws A).
Proof. intros d0. by apply spec_throw. Qed.
Lemma quietly_lift {A} (r : result thrown A) : quietly (lift_ r).
Proof. destruct r; [apply unchanged_ret|apply quietly_throw]. Qed.
Lemma quietly_throw_when b e : quietly (throw_when b e).
Proof. destruct b; [apply quietly_throw|apply unchanged_ret]. Qed.
Lemma unchanged_get : quietly get_.
Proof. intros d0 d g ->. done. Qed.
Lemma quietly_query {A} (q : wdb → A) : quietly (query_db q).
Proof. apply quietly_bind; [apply unchanged_get|]. intros d. apply unchanged_ret. Qed.
Lemma quietly_ask {A} c (f : host_answer c → result thrown A) : is_awaited c = false → quietly (ask c f).
Proof. intros Hc d0. by apply sync_ask. Qed.
Lemma quietly_tell c : is_awaited c = false → quietly (tell c).
Proof. intros Hc d0. by apply sync_tell. Qed.
Lemma quietly_try {A} (m : ws A) h : quietly m → (∀ e, quietly (h e)) → quietly (try_ m h).
Proof. intros Hm Hh d0. apply sync_try_same; [apply Hm|]. intros e. apply Hh. Qed.
Lemma quietly_in_database {A} (m : ws A) : quietly m → quietly (in_database m).
Proof. intros Hm. apply quietly_try; [done|]. intros e. apply quietly_throw. Qed.
Lemma quietly_mapM {A B} (f : A → ws B) l : (∀ x, quietly (f x)) → quietly (mapM f l).
Proof.
  intros Hf. induction l as [|x l IH]; [apply unchanged_ret|]. cbn. apply quietly_bind; [done|].
  intros y. apply quietly_bind; [done|]. intros ys. apply unchanged_ret.
Qed.
#[export] Hint Resolve unchanged_ret quietly_throw quietly_lift quietly_throw_when unchanged_get quietly_query
  quietly_in_database : quiet.

(** Follows the structure of a statement. *)
Ltac quiet :=
  repeat first
    [ solve [eauto 2 with quiet]
    | apply quietly_ask; reflexivity
    | apply quietly_tell; reflexivity
    | apply quietly_bind; [|intros ?]
    | apply quietly_try; [|intros ?]
    | apply quietly_in_database
    | apply quietly_mapM; intros ?
    | match goal with
      | |- quietly (match ?x with _ => _ end) => destruct x
      end ].

Section reading.
Context (repo : WorkspaceRepository).

Lemma quietly_canonicalDirectory input b : quietly (canonicalDirectory repo input b).
Proof. unfold canonicalDirectory. destruct input; quiet. Qed.
Lemma quietly_session_candidate p c : quietly (session_candidate_contained repo p c).
Proof. unfold session_candidate_contained. quiet. Qed.
#[local] Hint Resolve quietly_canonicalDirectory quietly_session_candidate : quiet.
Lemma quietly_isSessionDirectoryContained p s : quietly (isSessionDirectoryContained repo p s).
Proof. unfold isSessionDirectoryContained. quiet. Qed.
#[local] Hint Resolve quietly_isSessionDirectoryContained : quiet.
Lemma quietly_isAvailable w : quietly (isAvailable repo w).
Proof. unfold isAvailable. quiet. Qed.
Lemma quietly_mounts_available ms : quietly (mounts_available ms).
Proof. induction ms as [|m ms IH]; cbn [mounts_available]; quiet. Qed.
#[local] Hint Resolve quietly_isAvailable quietly_mounts_available : quiet.
Lemma quietly_mountsAvailable ms : quietly (mountsAvailable ms).
Proof. unfold mountsAvailable. quiet. Qed.
Lemma quietly_admit_candidate p ms n s a : quietly (admit_candidate repo p ms n s a).
Proof. unfold admit_candidate. quiet. Qed.
#[local] Hint Resolve quietly_mountsAvailable quietly_admit_candidate : quiet.
Lemma quietly_valid_mounts p input ms : quietly (valid_mounts repo p input ms).
Proof. revert ms. induction input as [|c input IH]; intros ms; cbn [valid_mounts]; quiet. Qed.
#[local] Hint Resolve quietly_valid_mounts : quiet.
Lemma quietly_validMounts input p : quietly (validMounts repo input p).
Proof. unfold validMounts. destruct input; quiet. Qed.
Lemma quietly_evaluatePolicy w b : quietly (evaluatePolicy repo w b).
Proof. unfold evaluatePolicy. quiet. Qed.
#[local] Hint Resolve quietly_validMounts quietly_evaluatePolicy : quiet.
Lemma quietly_assertPathPolicy p pr n ms : quietly (assertPathPolicy repo p pr n ms).
Proof. unfold assertPathPolicy. quiet. Qed.
Lemma quietly_summary w : quietly (summary repo w).
Proof. unfold summary. quiet. Qed.
Lemma quietly_getStored id : quietly (getStored id).
Proof. unfold getStored. quiet. Qed.
#[local] Hint Resolve quietly_assertPathPolicy quietly_summary quietly_getStored : quiet.
Lemma quietly_list : quietly (list_workspaces repo).
Proof. unfold list_workspaces. quiet. Qed.
Lemma quietly_registrations : quietly listRegistrations.
Proof. unfold listRegistrations. quiet. Qed.
Lemma quietly_get_workspace id : quietly (get_workspace repo id).
Proof. unfold get_workspace. quiet. Qed.
Lemma quietly_requireAvailable id : quietly (requireAvailable repo id).
Proof. unfold requireAvailable. quiet. Qed.
Lemma quietly_check_session p s : quietly (check_session_directory repo p s).
Proof. unfold check_session_directory. quiet. Qed.
End reading.
#[export] Hint Resolve quietly_canonicalDirectory quietly_isSessionDirectoryContained quietly_isAvailable
  quietly_mountsAvailable quietly_validMounts quietly_evaluatePolicy quietly_assertPathPolicy quietly_summary
  quietly_getStored quietly_list quietly_registrations quietly_get_workspace quietly_requireAvailable
  quietly_check_session : quiet.

(** *** Statements that do not throw either *)

Definition calm {A} (m : ws A) : Prop := ∀ d0, sync (λ _, False) (λ d, d = d0) m (λ _ d, d = d0).

Lemma calm_ret {A} (x : A) : calm (mret x).
Proof. intros d0. by apply spec_ret. Qed.
Lemma calm_bind {A B} (m : ws A) (k : A → ws B) : calm m → (∀ x, calm (k x)) → calm (m ≫= k).
Proof. intros Hm Hk d0. eapply sync_bind; [apply Hm|]. intros x. apply Hk. Qed.
(** A handler that does not throw. *)
Lemma calm_try {A} (m : ws A) h : quietly m → (∀ e, calm (h e)) → calm (try_ m h).
Proof. intros Hm Hh d0. eapply spec_try; [apply Hm|]. intros e. apply Hh. Qed.

Section calm.
Context (repo : WorkspaceRepository).

(** [try { ... } catch { return value }] *)
Lemma calm_isAvailable w : calm (isAvailable repo w).
Proof. unfold isAvailable. apply calm_try; [quiet|]. intros e. apply calm_ret. Qed.
Lemma calm_mountsAvailable ms : calm (mountsAvailable ms).
Proof. unfold mountsAvailable. apply calm_try; [apply quietly_mounts_available|]. intros e. apply calm_ret. Qed.

Lemma calm_evaluatePolicy w b : calm (evaluatePolicy repo w b).
Proof.
  unfold evaluatePolicy. apply calm_bind.
  { case_match; [apply calm_bind; [apply calm_mountsAvailable|intros ?; apply calm_ret]|apply calm_ret]. }
  intros issue. apply calm_bind; [case_match; [apply calm_isAvailable|apply calm_ret]|].
  intros usable. apply calm_ret.
Qed.
Lemma calm_summary w : calm (summary repo w).
Proof.
  unfold summary. apply calm_bind; [apply calm_isAvailable|]. intros available.
  apply calm_bind; [apply calm_evaluatePolicy|]. intros ev. apply calm_ret.
Qed.
End calm.

(** ** Mutations *)

(** The invariant, with the job tables of [d0]. *)
Definition evolved (d0 d : wdb) : Prop := wdb_ok d ∧ wd_jobs d = wd_jobs d0 ∧ wd_runs d = wd_runs d0.

Lemma sync_keeps {A} d0 (st : wdb → result thrown (A * wdb)) :
  keeps_db st → sync (λ _, True) (evolved d0) (run_stmt st) (λ _, evolved d0).
Proof.
  intros Hst. apply sync_run_stmt; [done|]. intros d a d' (Hok & Hj & Hr) E.
  destruct (Hst d a d' Hok E) as (? & ? & ?). split_and!; congruence || done.
Qed.

Lemma sync_insert_mounts d0 id ms : sync (λ _, True) (evolved d0) (insert_mounts id ms) (λ _, evolved d0).
Proof.
  induction ms as [|m ms IH]; cbn [insert_mounts]; [by apply spec_ret|].
  eapply sync_bind; [apply sync_keeps, insertMount_keeps|]. intros ?. exact IH.
Qed.
Lemma sync_insert_tools d0 id ts : sync (λ _, True) (evolved d0) (insert_tools id ts) (λ _, evolved d0).
Proof.
  induction ts as [|t ts IH]; cbn [insert_tools]; [by apply spec_ret|].
  eapply sync_bind; [apply sync_keeps, insertHttpTool_keeps|]. intros ?. exact IH.
Qed.

Lemma sync_insert_workspace d0 w :
  wdb_ok d0 → sync (λ d, d = d0) (λ d, d = d0) (insert_workspace w) (λ _, evolved d0).
Proof.
  intros Hok. unfold insert_workspace. apply sync_in_database, sync_reporting, sync_transaction; [done|].
  apply (sync_weaken _ _ (evolved d0) _ _ (λ _, evolved d0)); [by intros d ->|done|].
  eapply sync_bind; [apply sync_keeps, insertWorkspace_keeps|]. intros ?.
  eapply sync_bind; [apply sync_insert_mounts|]. intros ?. apply sync_insert_tools.
Qed.

Lemma sync_modify (T P : wdb → Prop) f (Q : wdb → Prop) : (∀ d, P d → Q (f d)) → sync T P (modify_ f) (λ _, Q).
Proof. intros H d g HP. cbn. auto. Qed.

Lemma sync_store_update d0 id w changes :
  wdb_ok d0 → sync (λ d, d = d0) (λ d, d = d0) (store_update id w changes) (λ _, evolved d0).
Proof.
  intros Hok. unfold store_update. apply sync_in_database, sync_reporting, sync_transaction; [done|].
  apply (sync_weaken _ _ (evolved d0) _ _ (λ _, evolved d0)); [by intros d ->|done|].
  eapply sync_bind; [apply sync_keeps, updateWorkspace_keeps|]. intros changed.
  eapply (sync_bind _ _ _ _ (λ _, evolved d0)).
  { destruct (negb _); [by apply spec_throw|by apply spec_ret]. }
  intros ?. eapply (sync_bind _ _ _ _ (λ _, evolved d0)).
  { destruct (defined_array _); [|by apply spec_ret].
    eapply sync_bind; [|intros ?; apply sync_insert_mounts]. apply (sync_modify (λ _, True) (evolved d0) _ (evolved d0)).
    intros d (? & ? & ?). split_and!; [by apply deleteMounts_ok|done..]. }
  intros ?. destruct (defined_array _); [|by apply spec_ret].
  eapply sync_bind; [|intros ?; apply sync_insert_tools]. apply (sync_modify (λ _, True) (evolved d0) _ (evolved d0)).
  intros d (? & ? & ?). split_and!; [by apply deleteHttpTools_ok|done..].
Qed.

(** The last step of a mutation: what it shows reads only. *)
Lemma sync_calm {A} (m : ws A) (T P : wdb → Prop) : calm m → sync T P m (λ _, P).
Proof.
  intros Hm d g HP. eapply wp_mono; [|by apply (Hm d)]. intros [o d'] g'. by destruct o; [intros ->| |].
Qed.
(** Steps before it, from the entry database. *)
Lemma sync_quiet_bind {A B} d0 (m : ws A) (k : A → ws B) Q :
  quietly m → (∀ x, sync (λ d, d = d0) (λ d, d = d0) (k x) Q) → sync (λ d, d = d0) (λ d, d = d0) (m ≫= k) Q.
Proof. intros Hm Hk. eapply sync_bind; [apply Hm|exact Hk]. Qed.

Section mutations.
Context (repo : WorkspaceRepository).

Lemma sync_create d0 input :
  wdb_ok d0 → sync (λ d, d = d0) (λ d, d = d0) (create_workspace repo input) (λ _, evolved d0).
Proof.
  intros Hok. unfold create_workspace.
  repeat first [apply sync_quiet_bind; [solve [quiet]|intros ?]|case_match].
  eapply sync_bind; [by apply sync_insert_workspace|]. intros ?. apply sync_calm, calm_summary.
Qed.

Lemma sync_update d0 id changes :
  wdb_ok d0 → sync (λ d, d = d0) (λ d, d = d0) (update_workspace repo id changes) (λ _, evolved d0).
Proof.
  intros Hok. unfold update_workspace.
  repeat first [apply sync_quiet_bind; [solve [quiet]|intros ?]|case_match].
  eapply sync_bind; [by apply sync_store_update|]. intros ?. apply sync_calm, calm_summary.
Qed.

Lemma sync_delete d0 id :
  wdb_ok d0 → sync (λ d, d = d0) (λ d, d = d0) (delete_workspace id) (λ _, evolved d0).
Proof.
  intros Hok. unfold delete_workspace. apply sync_in_database.
  apply sync_quiet_bind; [quiet|]. intros referenced. apply sync_quiet_bind; [quiet|]. intros ?.
  eapply sync_bind.
  { apply (sync_run_stmt _ _ _ (λ changed d, (changed = 0 ∧ d = d0) ∨ (changed = 1 ∧ evolved d0 d))); [done|].
    intros d changed d' -> E. pose proof (deleteWorkspace_keeps id d0 changed d' Hok E).
    unfold sql_deleteWorkspace in E. repeat case_match; try done; injection E as <- <-; auto. }
  intros changed. destruct (changed =? 1) eqn:E; breflect; cbn [negb throw_when].
  - apply spec_ret. intros d g [[-> _]|[_ H]]; done.
  - apply spec_throw. intros d g [[_ ->]|[-> _]]; done.
Qed.
End mutations.
