(* ===== verification/WorkspacePolicySafety.v ===== *)
(** What the policy of workspaces guarantees: where a workspace may lie, what a
    runtime is given, and which changes need an acknowledgement. *)
From S2P Require Import Prelude JsValues Texts Errors Programs PosixPath Host SandboxAdmission Protocol JobStore WorkspaceStore Workspaces WorkspaceRepository WorkspaceOperations WorkspaceMutations.
#[local] Open Scope string_scope. #[local] Open Scope Z_scope.

(** ** What a statement returns, whatever its calls are answered *)

Definition no_trace (g : unit) (e : event host_answer wdb) : unit := g.
Definition returns {A} (m : ws A) (φ : A → Prop) : Prop :=
  spec_t (R := exhausted) (E := thrown) (λ _ _, True) no_trace (λ _ _, True) (λ _ _, True)
    (λ _ _, True) m (λ x _ _, φ x).

Lemma returns_ret {A} (x : A) (φ : A → Prop) : φ x → returns (mret x) φ.
Proof. intros H. by apply spec_ret. Qed.
Lemma returns_bind {A B} (m : ws A) (k : A → ws B) φ ψ :
  returns m φ → (∀ x, φ x → returns (k x) ψ) → returns (m ≫= k) ψ.
Proof.
  intros Hm Hk. eapply spec_bind; [exact Hm|]. intros x s g Hx. by apply (Hk x Hx s g).
Qed.
Lemma returns_any {A} (m : ws A) : returns m (λ _, True).
Proof.
  intros s g _. generalize (m s). intros q. revert g.
  induction q as [[o s']|c k IH]; intros g; cbn; [by destruct o|]. split; [done|]. intros r w. apply IH.
Qed.
Lemma returns_lift {A} (r : result thrown A) (φ : A → Prop) : (∀ x, r = Ok x → φ x) → returns (lift_ r) φ.
Proof. intros H. destruct r; [apply spec_ret|apply spec_throw]; auto. Qed.
Lemma returns_throw {A} e (φ : A → Prop) : returns (throw_ e) φ.
Proof. by apply spec_throw. Qed.
Lemma returns_check b e : returns (throw_when b e) (λ _, b = false).
Proof. destruct b; [apply returns_throw|by apply returns_ret]. Qed.
Lemma returns_try {A} (m : ws A) h φ : returns m φ → (∀ e, returns (h e) φ) → returns (try_ m h) φ.
Proof. intros Hm Hh. eapply spec_try; [exact Hm|]. intros e. apply Hh. Qed.
Lemma returns_weaken {A} (m : ws A) (φ ψ : A → Prop) : (∀ x, φ x → ψ x) → returns m φ → returns m ψ.
Proof. intros H Hm. eapply spec_weaken; [|intros x s g; apply H|exact Hm]. done. Qed.
(** A step whose result does not matter. *)
Lemma returns_skip {A B} (m : ws A) (k : A → ws B) ψ : (∀ x, returns (k x) ψ) → returns (m ≫= k) ψ.
Proof. intros Hk. eapply returns_bind; [apply returns_any|]. intros x _. apply Hk. Qed.

Lemma returns_run {A} (m : ws A) φ env d :
  returns m φ → match (run_prog env [] (m d)).1.1 with Next x => φ x | _ => True end.
Proof.
  intros Hm. pose proof (wp_run (λ _ _, True) no_trace (m d) tt
    (λ '(o, _) _, match o with Next x => φ x | _ => True end) env []) as H.
  destruct (run_prog env [] (m d)) as [[o s'] h]. cbn. apply H.
  - by intros ? ? ? ?.
  - eapply wp_mono; [|by apply (Hm d tt)]. intros [o' s''] g. by destruct o'.
Qed.

(** ** Where a workspace may lie *)

Section policy.
Context (repo : WorkspaceRepository).
Notation contained := (isCanonicalPathContained (rp_processCwd repo)).
Notation overlap := (canonicalPathsOverlap (rp_processCwd repo)).

(** No path lies below both. *)
Definition separate (p q : string) : Prop :=
  ∀ x, contained p x = true → contained q x = true → False.

Lemma overlap_separate p q : overlap p q = false → separate p q.
Proof.
  intros H x Hp Hq. apply not_true_iff_false in H. apply H, overlap_spec.
  apply contained_prefix in Hp, Hq. by eapply prefix_weak_total.
Qed.

Definition inside_roots (path : string) : Prop :=
  rp_workspaceRoots repo = [] ∨ ∃ root, root ∈ rp_workspaceRoots repo ∧ contained root path = true.

(** Clear of the trusted hooks, itself and its mounts. *)
Definition clear_of_hooks (path : string) (mounts : list WorkspaceMount) : Prop :=
  ∀ root, root ∈ rp_jobScriptRoots repo →
    separate path root ∧ ∀ mount, mount ∈ mounts → separate (wm_source mount) root.

(** Nothing the sandbox may see is protected, and its parts do not overlap. *)
Definition sandbox_confined (path : string) (mounts : list WorkspaceMount) : Prop :=
  (∀ protected, protected ∈ protectedPaths repo →
     separate path protected ∧ ∀ mount, mount ∈ mounts → separate (wm_source mount) protected)
  ∧ (∀ mount, mount ∈ mounts → separate path (wm_source mount))
  ∧ (∀ i j m n, mounts !! i = Some m → mounts !! j = Some n → i ≠ j → separate (wm_source m) (wm_source n)).

Lemma elem_of_indexed {A} (l : list A) i x : l !! i = Some x → (i, x) ∈ imap pair l.
Proof.
  intros H. apply list_elem_of_lookup. exists i. by rewrite list_lookup_imap, H.
Qed.

Lemma outside_roots_false path : outside_roots repo path = false → inside_roots path.
Proof.
  unfold outside_roots, inside_roots. rewrite andb_false_iff, !negb_false_iff. intros [H|H].
  - left. by apply bool_decide_eq_true in H.
  - right. apply existsb_exists in H as (root & Hin & Hc). exists root. by rewrite list_elem_of_In.
Qed.

Lemma hooks_clear w : overlaps_hook_root repo w = false → clear_of_hooks (w_path w) (w_mounts w).
Proof.
  unfold overlaps_hook_root. rewrite existsb_false. intros H root Hroot.
  apply H, orb_false_iff in Hroot as [Hp Hm]. rewrite existsb_false in Hm.
  split; [by apply overlap_separate|]. intros mount Hin. by apply overlap_separate, Hm.
Qed.

Lemma sandbox_clear w :
  existsb (overlap (w_path w)) (protectedPaths repo) || mount_overlap repo w = false →
  sandbox_confined (w_path w) (w_mounts w).
Proof.
  rewrite orb_false_iff. unfold mount_overlap. rewrite !existsb_false. intros [Hp Hm].
  assert (Hmount : ∀ i m, w_mounts w !! i = Some m →
    overlap (w_path w) (wm_source m) = false
    ∧ (∀ protected, protected ∈ protectedPaths repo → overlap (wm_source m) protected = false)
    ∧ (∀ j n, w_mounts w !! j = Some n → i ≠ j → overlap (wm_source m) (wm_source n) = false)).
  { intros i m Hi. specialize (Hm (i, m) (elem_of_indexed _ _ _ Hi)). cbn beta iota in Hm.
    apply orb_false_iff in Hm as [Hm Hother]. apply orb_false_iff in Hm as [Hpath Hprot].
    rewrite existsb_false in Hprot. rewrite existsb_false in Hother. split_and!; [done|done|].
    intros j n Hj Hne. specialize (Hother (j, n) (elem_of_indexed _ _ _ Hj)). cbn beta iota in Hother.
    apply andb_false_iff in Hother as [H|H]; [|done]. apply negb_false_iff, Nat.eqb_eq in H. done. }
  split_and!.
  - intros protected Hprot. split; [by apply overlap_separate, Hp|].
    intros mount [i Hi]%list_elem_of_lookup. apply overlap_separate. by apply (Hmount i mount Hi).
  - intros mount [i Hi]%list_elem_of_lookup. apply overlap_separate. by apply (Hmount i mount Hi).
  - intros i j m n Hi Hj Hne. apply overlap_separate. by eapply (Hmount i m Hi).
Qed.

(** What an absent static issue means. *)
Lemma static_issue_None w b :
  static_issue repo w b = None →
  (b = false → effective_profile repo (w_securityProfile w) ≠ None)
  ∧ inside_roots (w_path w) ∧ clear_of_hooks (w_path w) (w_mounts w)
  ∧ (effective_profile repo (w_securityProfile w) = Some WorkspaceSandboxed → sandbox_confined (w_path w) (w_mounts w)).
Proof.
  unfold static_issue. intros H. destruct (bool_decide (effective_profile _ _ = None) && negb b) eqn:E1; [done|].
  destruct (outside_roots _ _) eqn:E2; [done|]. destruct (overlaps_hook_root _ _) eqn:E3; [done|].
  destruct (bool_decide (effective_profile _ _ = Some WorkspaceSandboxed) && _) eqn:E4; [done|].
  split_and!.
  - intros ->. rewrite andb_true_r in E1. by apply bool_decide_eq_false in E1.
  - by apply outside_roots_false.
  - by apply hooks_clear.
  - intros He. rewrite bool_decide_eq_true_2 in E4 by done. by apply sandbox_clear.
Qed.

(** ** The evaluation *)

Record evaluated (w : Workspace) (b : bool) (ev : evaluation) : Prop := {
  evd_profile : ev_effectiveSecurityProfile ev = effective_profile repo (w_securityProfile w);
  evd_network : ev_effectiveNetworkPolicy ev =
    if bool_decide (effective_profile repo (w_securityProfile w) = Some WorkspaceSandboxed)
    then Some (w_networkPolicy w) else None;
  evd_static i : static_issue repo w b = Some i → ev_policyIssue ev = Some i;
  evd_usable : ev_usable ev = true →
    static_issue repo w b = None
    ∧ network_issue repo b (ev_effectiveNetworkPolicy ev) (w_networkPolicySetId w) = None;
  evd_set id : ev_effectiveNetworkPolicySetId ev = Some id →
    ev_usable ev = true ∧ id = w_networkPolicySetId w
    ∧ effective_profile repo (w_securityProfile w) = Some WorkspaceSandboxed
    ∧ ev_effectiveNetworkPolicy ev = Some ManagedEgress;
  evd_managed : ev_usable ev = true → ev_effectiveNetworkPolicy ev = Some ManagedEgress →
    ev_effectiveNetworkPolicySetId ev = Some (w_networkPolicySetId w);
}.

Lemma returns_evaluatePolicy w b : returns (evaluatePolicy repo w b) (evaluated w b).
Proof.
  unfold evaluatePolicy.
  apply (returns_bind _ _ (λ issue, (∀ i, static_issue repo w b = Some i → issue = Some i)
    ∧ (issue = None → static_issue repo w b = None))).
  { destruct (bool_decide (static_issue repo w b = None) && _) eqn:E.
    - apply andb_true_iff in E as [E _]. apply bool_decide_eq_true in E.
      apply returns_skip. intros available. apply returns_ret. rewrite E. done.
    - by apply returns_ret. }
  intros issue [Hissue HNone].
  apply (returns_bind _ _ (λ usable : bool, usable = true →
    issue = None ∧ network_issue repo b
      (if bool_decide (effective_profile repo (w_securityProfile w) = Some WorkspaceSandboxed)
       then Some (w_networkPolicy w) else None) (w_networkPolicySetId w) = None)).
  { case_match eqn:E; [|by apply returns_ret]. breflect.
    eapply returns_weaken; [|apply returns_any]. done. }
  intros usable Husable. apply returns_ret. split; cbn; try done.
  - intros Hu. destruct (Husable Hu). auto.
  - intros id. destruct (usable && _ && _) eqn:E; [|done]. intros [= <-]. breflect. done.
  - intros ->. destruct (bool_decide (effective_profile _ _ = _)) eqn:E; [|done]. intros Hn.
    by rewrite (bool_decide_eq_true_2 _ Hn).
Qed.

(** ** What a runtime is given *)

Definition given_mounts (p : ConversationWorkspace) : list WorkspaceMount := default [] (cw_mounts p).

(** A policy that keeps a runtime where it belongs. *)
Record isolated (p : ConversationWorkspace) : Prop := {
  iso_mode : match rp_mode repo with
    | ModeDisabled => cw_securityProfile p = Unrestricted
    | ModeRequired => cw_securityProfile p = WorkspaceSandboxed
    | ModeOptional => True
    end;
  iso_roots : inside_roots (cw_cwd p);
  iso_hooks : clear_of_hooks (cw_cwd p) (given_mounts p);
  iso_sandbox : cw_securityProfile p = WorkspaceSandboxed → sandbox_confined (cw_cwd p) (given_mounts p);
  iso_unrestricted : cw_securityProfile p = Unrestricted →
    given_mounts p = [] ∧ cw_networkPolicy p = None ∧ cw_effectiveNetworkPolicySetId p = None;
  iso_network : cw_networkPolicy p = Some ManagedEgress →
    rp_managedEgressMode repo = EgressOptional
    ∧ ∃ id set, cw_effectiveNetworkPolicySetId p = Some id ∧ cw_networkPolicySetId p = Some id
      ∧ map_get id (rp_networkPolicySets repo) = Some set ∧ cw_networkPolicySet p = Some set;
  iso_no_network : cw_networkPolicy p ≠ Some ManagedEgress → cw_networkPolicySet p = None;
  iso_tools tool : tool ∈ default [] (cw_effectiveHttpTools p) → tool ∈ rp_httpTools repo;
}.

Lemma effective_profile_mode pr eff :
  effective_profile repo pr = Some eff →
  match rp_mode repo with
  | ModeDisabled => eff = Unrestricted
  | ModeRequired => eff = WorkspaceSandboxed
  | ModeOptional => True
  end.
Proof. unfold effective_profile. destruct (rp_mode repo), pr; naive_solver. Qed.

Lemma clear_of_hooks_fewer path ms : clear_of_hooks path ms → clear_of_hooks path [].
Proof. intros H root Hr. destruct (H root Hr). split; [done|]. by intros m Hm%elem_of_nil. Qed.

Lemma network_issue_None b n id :
  network_issue repo b n id = None → b = false → n = Some ManagedEgress →
  rp_managedEgressMode repo = EgressOptional ∧ is_Some (map_get id (rp_networkPolicySets repo)).
Proof.
  unfold network_issue. intros H -> ->. cbn [negb andb] in H. rewrite bool_decide_eq_true_2 in H by done.
  cbn [andb] in H. destruct (bool_decide (rp_managedEgressMode repo = EgressOptional)) eqn:E; [|done].
  destruct (map_has id _) eqn:Em; [|done]. unfold map_has in Em. breflect. done.
Qed.

Lemma returns_requireUsable id : returns (requireUsable repo id) isolated.
Proof.
  unfold requireUsable. apply returns_skip. intros w.
  eapply returns_bind; [apply returns_evaluatePolicy|]. intros ev [Hprofile Hnet _ Husable Hset Hmanaged].
  destruct (ev_usable ev); [|apply returns_throw]. destruct (Husable eq_refl) as [Hstatic Hissue].
  destruct (static_issue_None w false Hstatic) as (_ & Hroots & Hhooks & Hsandbox).
  rewrite Hprofile. destruct (effective_profile repo (w_securityProfile w)) as [eff|] eqn:Eeff; [|apply returns_throw].
  apply returns_skip. intros _. apply returns_ret. split; cbn.
  - by apply effective_profile_mode in Eeff.
  - done.
  - destruct eff; [by eapply clear_of_hooks_fewer|done].
  - intros ->. unfold given_mounts. cbn. by apply Hsandbox.
  - intros ->. split_and!; [done|by rewrite Hnet|].
    destruct (ev_effectiveNetworkPolicySetId ev) as [sid|] eqn:E; [|done]. by destruct (Hset sid eq_refl) as (_ & _ & ? & _).
  - intros Hn. destruct (network_issue_None _ _ _ Hissue eq_refl Hn) as [Hmode [set Hget]]. split; [done|].
    rewrite (Hmanaged eq_refl Hn). eauto 10.
  - intros Hn. destruct (ev_effectiveNetworkPolicySetId ev) as [sid|] eqn:E; [|done].
    by destruct (Hset sid eq_refl) as (_ & _ & _ & ?).
  - by intros tool [? _]%list_elem_of_filter.
Qed.

(** ** What is stored *)

(** Mounts clear of the workspace, of what is protected and of one another. *)
Record mounts_confined (path : string) (ms : list WorkspaceMount) : Prop := {
  mc_path m : m ∈ ms → separate (wm_source m) path;
  mc_protected m protected : m ∈ ms → protected ∈ protectedPaths repo → separate (wm_source m) protected;
  mc_each i j m n : ms !! i = Some m → ms !! j = Some n → i ≠ j → separate (wm_source m) (wm_source n);
}.

Lemma separate_sym p q : separate p q → separate q p.
Proof. intros H x Hq Hp. by apply (H x). Qed.

Lemma mounts_confined_nil path : mounts_confined path [].
Proof. by split; [intros m Hm%elem_of_nil|intros m p Hm%elem_of_nil|intros i j m n]. Qed.

Lemma mounts_confined_snoc path ms m :
  mounts_confined path ms →
  overlap (wm_source m) path = false → existsb (overlap (wm_source m)) (protectedPaths repo) = false →
  existsb (λ mount, overlap (wm_source m) (wm_source mount)) ms = false →
  mounts_confined path (ms ++ [m])%list.
Proof.
  rewrite !existsb_false. intros [Hp Hprot Heach] H1 H2 H3. split.
  - intros n [Hn|Hn]%elem_of_app; [by apply Hp|]. apply list_elem_of_singleton in Hn as ->. by apply overlap_separate.
  - intros n q [Hn|Hn]%elem_of_app Hq; [by apply Hprot|]. apply list_elem_of_singleton in Hn as ->.
    by apply overlap_separate, H2.
  - assert (Hnew : ∀ i n, ms !! i = Some n → separate (wm_source m) (wm_source n)).
    { intros i n Hi. apply overlap_separate, H3. by apply list_elem_of_lookup_2 in Hi. }
    intros i j n k [Hi|[Hl Hi]]%lookup_app_Some [Hj|[Hl' Hj]]%lookup_app_Some Hne.
    + by eapply Heach.
    + apply list_lookup_singleton_Some in Hj as [? <-]. by eapply separate_sym, Hnew.
    + apply list_lookup_singleton_Some in Hi as [? <-]. by eapply Hnew.
    + apply list_lookup_singleton_Some in Hi as [? <-]. apply list_lookup_singleton_Some in Hj as [? <-]. lia.
Qed.

Lemma returns_admit_candidate path ms name source access :
  returns (admit_candidate repo path ms name source access) (λ m,
    wm_name m = name ∧ wm_access m = access ∧ is_absolute (wm_source m) = true
    ∧ overlap (wm_source m) path = false ∧ existsb (overlap (wm_source m)) (protectedPaths repo) = false
    ∧ existsb (λ mount, overlap (wm_source m) (wm_source mount)) ms = false).
Proof.
  unfold admit_candidate. apply returns_try; [|intros e; destruct e; apply returns_throw].
  apply returns_skip. intros real.
  eapply returns_bind; [apply returns_check|]. intros ? Habs. apply returns_skip. intros st.
  apply returns_skip. intros ?. apply returns_skip. intros ?.
  eapply returns_bind; [apply returns_check|]. intros ? Hov. apply returns_ret. cbn [wm_name wm_source wm_access].
  apply orb_false_iff in Hov as [Hov H3]. apply orb_false_iff in Hov as [H1 H2]. apply negb_false_iff in Habs. done.
Qed.

(** What is known of the mounts of an input: shape, order of names, confinement. *)
Definition mount_well_formed (m : WorkspaceMount) : Prop :=
  slug (wm_name m) = true ∧ is_absolute (wm_source m) = true.
Definition mounts_valid (path : string) (ms : list WorkspaceMount) : Prop :=
  Forall mount_well_formed ms ∧ NoDup (wm_name <$> ms) ∧ mounts_confined path ms.

Lemma returns_valid_mounts path input ms :
  mounts_valid path ms → returns (valid_mounts repo path input ms) (mounts_valid path).
Proof.
  revert ms. induction input as [|candidate input IH]; intros ms Hms; cbn [valid_mounts]; [by apply returns_ret|].
  eapply returns_bind; [apply (returns_lift _ (λ x, slug x.1.1 = true ∧ x.1.1 ∉ wm_name <$> ms))|].
  { intros [[name source] access]. unfold mount_shape. cbn [fst snd]. intros E.
    destruct candidate; try done. destruct (get_field "name" _); try done. destruct (get_field "source" _); try done.
    inv_bind E. breflect. injection E as <- _ _. done. }
  intros [[name source] access] [Hslug Hnew]. cbn [fst] in *.
  eapply returns_bind; [apply returns_admit_candidate|]. intros m (Hname & _ & Habs & H1 & H2 & H3).
  apply IH. destruct Hms as (Hwf & Hnd & Hc). subst name. split_and!.
  - apply Forall_app. split; [done|]. by repeat constructor.
  - rewrite fmap_app. apply NoDup_app. split_and!; [done| |apply NoDup_singleton].
    intros n Hn Hm. apply list_elem_of_singleton in Hm as ->. done.
  - by apply mounts_confined_snoc.
Qed.

Lemma returns_validMounts path input : returns (validMounts repo input path) (mounts_valid path).
Proof.
  unfold validMounts. destruct input; try apply returns_throw. case_bool_decide; [apply returns_throw|].
  apply returns_valid_mounts. split_and!; [constructor|constructor|apply mounts_confined_nil].
Qed.

(** The candidate judged before storing. *)
Definition candidate_confined (path : string) (profile : WorkspaceSecurityProfile) (ms : list WorkspaceMount) : Prop :=
  inside_roots path ∧ clear_of_hooks path ms
  ∧ (effective_profile repo profile = Some WorkspaceSandboxed → sandbox_confined path ms).

Lemma returns_assertPathPolicy path profile network ms :
  returns (assertPathPolicy repo path profile network ms) (λ _, candidate_confined path profile ms).
Proof.
  unfold assertPathPolicy. eapply returns_bind; [apply returns_evaluatePolicy|].
  intros ev Hev. eapply returns_weaken; [|apply returns_check]. intros ? Hcheck.
  assert (Hnone : ∀ w, evaluated w true ev → static_issue repo w true = None).
  { intros w Hw. destruct (static_issue repo w true) as [i|] eqn:E; [|done]. exfalso.
    rewrite (evd_static _ _ _ Hw i E) in Hcheck. unfold static_issue in E.
    rewrite andb_false_r in E. repeat case_match; simplify_eq; done. }
  apply Hnone, static_issue_None in Hev as (_ & H1 & H2 & H3). done.
Qed.

(** A summary shows the workspace it was made from. *)
Record shows (w : Workspace) (s : WorkspaceSummary) : Prop := {
  sh_id : ws_id s = w_id w;
  sh_name : ws_name s = w_name w;
  sh_path : ws_path s = w_path w;
  sh_storage : ws_sessionStorage s = w_sessionStorage w;
  sh_directory : ws_sessionDirectory s = w_sessionDirectory w;
  sh_profile : ws_securityProfile s = w_securityProfile w;
  sh_mounts : ws_mounts s = w_mounts w;
  sh_network : ws_networkPolicy s = w_networkPolicy w;
  sh_set : ws_networkPolicySetId s = w_networkPolicySetId w;
  sh_http : ws_enabledHttpTools s = w_enabledHttpTools w;
  sh_tools : ws_conversationToolsEnabled s = w_conversationToolsEnabled w;
  sh_created : ws_createdAt s = JInt (w_createdAt w);
  sh_updated : ws_updatedAt s = JInt (w_updatedAt w);
}.
Lemma returns_summary w : returns (summary repo w) (shows w).
Proof.
  unfold summary. apply returns_skip. intros available. apply returns_skip. intros ev.
  by apply returns_ret.
Qed.

(** A summary of something confined, allowed by the mode, and its mounts. *)
Record summary_confined (s : WorkspaceSummary) : Prop := {
  sc_candidate : candidate_confined (ws_path s) (ws_securityProfile s) (ws_mounts s);
  sc_mounts : mounts_valid (ws_path s) (ws_mounts s);
  sc_mode : match rp_mode repo with
    | ModeDisabled => ws_securityProfile s = Unrestricted
    | ModeRequired => ws_securityProfile s = WorkspaceSandboxed
    | ModeOptional => True
    end;
  sc_network : ws_securityProfile s = WorkspaceSandboxed → ws_networkPolicy s = ManagedEgress →
    rp_managedEgressMode repo = EgressOptional;
  sc_set : is_Some (map_get (ws_networkPolicySetId s) (rp_networkPolicySets repo));
  sc_tools tool : tool ∈ ws_enabledHttpTools s → tool ∈ rp_httpTools repo;
}.

Lemma valid_tool_names_ok input names names' :
  valid_tool_names repo input names = Ok names' →
  (∀ t, t ∈ names → t ∈ rp_httpTools repo ∧ http_tool_name t = true) → NoDup names →
  (∀ t, t ∈ names' → t ∈ rp_httpTools repo ∧ http_tool_name t = true) ∧ NoDup names'.
Proof.
  revert names. induction input as [|v input IH]; intros names; cbn [valid_tool_names]; [by intros [= <-]|].
  destruct v; try done. destruct (_ || _) eqn:E; [done|]. breflect.
  intros Hok Hn Hnd. apply (IH _ Hok).
  - intros t [Ht|Ht]%elem_of_app; [by apply Hn|]. by apply list_elem_of_singleton in Ht as ->.
  - apply NoDup_app. split_and!; [done| |apply NoDup_singleton]. intros t Ht Hs. by apply list_elem_of_singleton in Hs as ->.
Qed.

Lemma validHttpTools_ok input names :
  validHttpTools repo input = Ok names →
  (∀ t, t ∈ names → t ∈ rp_httpTools repo ∧ http_tool_name t = true) ∧ NoDup names
  ∧ Sorted text_le_prop names.
Proof.
  unfold validHttpTools. destruct input as [| | |items]; try done. case_bool_decide; [done|]. intros E.
  inv_bind E. injection E as <-. apply valid_tool_names_ok in Ha as [Hn Hnd];
    [|intros t Ht; by apply elem_of_nil in Ht|constructor].
  pose proof (merge_sort_Permutation text_le_prop a) as Hperm. split_and!.
  - intros t Ht. apply Hn. by rewrite <-Hperm.
  - by rewrite Hperm.
  - apply Sorted_merge_sort. intros x y. unfold text_le_prop, text_le.
    destruct (String.leb_total x y) as [-> | ->]; auto.
Qed.

Lemma require_acknowledgement_Ok a n u : require_acknowledgement a n = Ok u → a = n.
Proof. unfold require_acknowledgement. intros H. inv_bind H. by destruct a, n. Qed.

Lemma create_fields_Ok input name tools storage profile network set :
  create_fields repo input = Ok (name, tools, storage, profile, network, set) →
  match rp_mode repo with
  | ModeDisabled => profile = Unrestricted
  | ModeRequired => profile = WorkspaceSandboxed
  | ModeOptional => True
  end
  ∧ (profile = WorkspaceSandboxed → network = ManagedEgress → rp_managedEgressMode repo = EgressOptional)
  ∧ is_Some (map_get set (rp_networkPolicySets repo))
  ∧ isStructurallyValidPolicySetId set = true.
Proof.
  unfold create_fields, assertCreateProfileAllowed. intros H. inv_bind H.
  injection H as -> -> -> -> -> ->. split_and!.
  - apply andb_false_iff in Ha3, Ha8. rewrite negb_false_iff, !bool_decide_eq_true, !bool_decide_eq_false in *.
    destruct (rp_mode repo), profile; naive_solver.
  - intros -> ->. apply andb_false_iff in Ha7 as [Ha7|Ha7]; [done|]. by apply negb_false_iff, bool_decide_eq_true in Ha7.
  - apply negb_false_iff in Ha6. by apply bool_decide_eq_true in Ha6.
  - destruct (or_default (ci_networkPolicySetId input) _); try done. cbn in Ha5.
    destruct (isStructurallyValidPolicySetId s) eqn:E; [|done]. by injection Ha5 as <-.
Qed.

(** Results of successful steps, for [returns_bind]. *)
Lemma returns_lifted {A B} (r : result thrown A) (k : A → ws B) ψ :
  (∀ x, r = Ok x → returns (k x) ψ) → returns (lift_ r ≫= k) ψ.
Proof. intros Hk. eapply returns_bind; [by apply (returns_lift _ (λ x, r = Ok x))|]. done. Qed.

Lemma returns_create input :
  returns (create_workspace repo input) (λ s,
    summary_confined s ∧ ci_acknowledgeWritableMounts input = existsb is_writable (ws_mounts s)).
Proof.
  unfold create_workspace. apply returns_lifted.
  intros [[[[[name tools] storage] profile] network] set] Hf.
  apply create_fields_Ok in Hf as (Hmode & Hegress & Hset & _).
  apply returns_skip. intros path. cbv zeta. apply returns_skip. intros ?.
  eapply returns_bind; [apply returns_validMounts|]. intros ms Hms.
  apply returns_lifted. intros http Hhttp. apply validHttpTools_ok in Hhttp as (Hhttp & _).
  apply returns_lifted. intros ? Hack. apply require_acknowledgement_Ok in Hack.
  eapply returns_bind; [apply returns_assertPathPolicy|]. intros ? Hc.
  apply returns_skip. intros id. apply returns_skip. intros now. apply returns_skip. intros ?.
  eapply returns_weaken; [|apply returns_summary].
  intros s [_ _ Ep _ _ Epr Em En Es Eh _ _ _]. cbn in *.
  split; [split|]; rewrite ?Ep, ?Epr, ?Em, ?En, ?Es, ?Eh; try done.
  intros tool Ht. by apply Hhttp.
Qed.

(** ** Changes *)

(** What [getStored] reads. *)
Definition stored_workspace (id : string) (d : wdb) : result thrown Workspace :=
  match sql_getWorkspace id d with
  | None => Err (app_error WORKSPACE_NOT_FOUND)
  | Some row => workspaceFromRow row d
  end.

Lemma getStored_run id d :
  getStored id d = Ret (match stored_workspace id d with Ok w => Next w | Err e => Throw e end, d).
Proof.
  unfold getStored, stored_workspace, in_database, query_db, try_, mbind, stmt_bind, get_. cbn.
  destruct (sql_getWorkspace id d) as [row|]; cbn; [|done]. by destruct (workspaceFromRow row d).
Qed.

(** What an update needed to be told, and where its result lies. *)
Record update_justified (current : Workspace) (changes : UpdateWorkspaceInput) (s : WorkspaceSummary) : Prop := {
  uj_downgrade : ui_acknowledgeSecurityDowngrade changes =
    bool_decide (w_securityProfile current = WorkspaceSandboxed) && bool_decide (ws_securityProfile s = Unrestricted);
  uj_exposure : ui_acknowledgeNetworkExposure changes =
    adds_network_exposure current (ws_securityProfile s) (ws_networkPolicy s) (ws_networkPolicySetId s);
  uj_writable : ui_acknowledgeWritableMounts changes =
    defined_array (ui_mounts changes) && adds_writable_mounts (w_mounts current) (ws_mounts s);
  uj_confined :
    candidate_confined (ws_path s) (ws_securityProfile s) (ws_mounts s)
    ∨ ws_path s = w_path current ∧ ws_securityProfile s = w_securityProfile current ∧ ws_mounts s = w_mounts current
      ∧ ws_networkPolicy s = w_networkPolicy current ∧ ws_networkPolicySetId s = w_networkPolicySetId current;
}.

Lemma update_profile_Ok current changes profile :
  update_profile repo current changes = Ok profile →
  ui_acknowledgeSecurityDowngrade changes =
    bool_decide (w_securityProfile current = WorkspaceSandboxed) && bool_decide (profile = Unrestricted)
  ∧ (defined (ui_securityProfile changes) = false → profile = w_securityProfile current).
Proof.
  unfold update_profile. intros H. inv_bind H. injection H as <-.
  apply require_acknowledgement_Ok in Ha0. split; [done|].
  intros E. unfold keep_or in Ha. rewrite E in Ha. by injection Ha.
Qed.

Lemma update_network_Ok current changes profile network set :
  update_network repo current changes profile = Ok (network, set) →
  ui_acknowledgeNetworkExposure changes = adds_network_exposure current profile network set
  ∧ (defined (ui_networkPolicy changes) = false → network = w_networkPolicy current)
  ∧ (defined (ui_networkPolicySetId changes) = false → set = w_networkPolicySetId current).
Proof.
  unfold update_network. intros H. inv_bind H. injection H as -> ->.
  apply require_acknowledgement_Ok in Ha2. unfold keep_or in *.
  split_and!; [done|intros E; rewrite E in *; congruence..].
Qed.

(** A step that is taken only where something changes. *)
Lemma returns_if {A B} (b : bool) (m : ws A) (x : A) (k : A → ws B) ψ φ :
  returns m φ → (∀ y, (b = true → φ y) → (b = false → y = x) → returns (k y) ψ) →
  returns ((if b then m else mret x) ≫= k) ψ.
Proof.
  intros Hm Hk. destruct b.
  - eapply returns_bind; [exact Hm|]. intros y Hy. by apply Hk.
  - eapply returns_bind; [apply (returns_ret x (eq x)); done|]. intros y <-. by apply Hk.
Qed.

(** A function that starts by reading a stored workspace. *)
Lemma getStored_bind {B} id (k : Workspace → ws B) d :
  (getStored id ≫= k) d =
  match stored_workspace id d with Ok w => k w d | Err e => Ret (Throw e, d) end.
Proof. unfold mbind, stmt_bind. rewrite getStored_run. cbn. by destruct (stored_workspace id d). Qed.

Lemma getStored_returns {B} id (k : Workspace → ws B) (ψ : Workspace → B → Prop) env d :
  (∀ w, returns (k w) (ψ w)) →
  match (run_prog env [] ((getStored id ≫= k) d)).1.1 with
  | Next x => ∃ current, stored_workspace id d = Ok current ∧ ψ current x
  | _ => True
  end.
Proof.
  intros Hk. rewrite getStored_bind. destruct (stored_workspace id d) as [w|e]; [|done].
  pose proof (returns_run (k w) (ψ w) env d (Hk w)) as H.
  destruct (run_prog env [] (k w d)).1.1; [|done..]. eauto.
Qed.

Lemma update_returns id changes env d :
  match (run_prog env [] (update_workspace repo id changes d)).1.1 with
  | Next s => ∃ current, stored_workspace id d = Ok current ∧ update_justified current changes s
  | _ => True
  end.
Proof.
  unfold update_workspace. apply getStored_returns. intros current.
  apply returns_skip. intros _. apply returns_lifted. intros tools _.
  apply returns_lifted. intros profile Hp. apply update_profile_Ok in Hp as [Hdown Hprofile].
  apply returns_lifted. intros [network set] Hn. apply update_network_Ok in Hn as (Hexp & Hnetwork & Hset).
  apply returns_lifted. intros name _.
  eapply (returns_if _ _ _ _ _ (λ _, True)); [apply returns_any|]. intros path _ Hpath.
  eapply (returns_if _ _ _ _ _ (λ _, True)); [apply returns_any|]. intros ms _ Hms.
  cbv zeta. apply returns_lifted. intros ? Hack. apply require_acknowledgement_Ok in Hack.
  apply returns_skip. intros _.
  eapply (returns_if _ _ _ _ _ (λ _, candidate_confined path profile ms)); [apply returns_assertPathPolicy|].
  intros ? Hyes Hno. apply returns_skip. intros http. apply returns_skip. intros now. apply returns_skip. intros _.
  eapply returns_weaken; [|apply returns_summary].
  intros s [_ _ Ep _ _ Epr Em En Es _ _ _ _]. cbn in *.
  split; rewrite ?Ep, ?Epr, ?Em, ?En, ?Es; try done.
  match type of Hyes with ?c = true → _ => destruct c eqn:E end; [left; auto|right].
  repeat match goal with H : (_ || _) = false |- _ => apply orb_false_iff in H as [? ?] end.
  split_and!; auto.
Qed.
End policy.

(** C19: A workspace resolved for use keeps its runtime where it belongs: the profile obeys the sandbox mode, the directory is inside the approved roots and disjoint from every trusted hook root; a sandboxed directory and its mounts share no path with a protected one or with one another; and managed network access comes only with a known policy set where the administrator allows it. *)
Theorem usable_workspace_is_isolated (repo : WorkspaceRepository) (id : string) (env : environment host_answer wdb) (d : wdb) :
  match (run_prog env [] (requireUsable repo id d)).1.1 with Next p => isolated repo p | _ => True end.
Proof. apply returns_run, returns_requireUsable. Qed.

(** A created workspace is confined: inside the approved roots, clear of trusted hooks, sandboxed wherever the mode requires it and then clear of every protected path; its mounts have distinct names and share no path with the workspace, a protected path or one another; a writable mount was acknowledged, and acknowledged only if there is one. *)
Lemma created_workspace_is_confined (repo : WorkspaceRepository) (input : CreateWorkspaceInput)
    (env : environment host_answer wdb) (d : wdb) :
  match (run_prog env [] (create_workspace repo input d)).1.1 with
  | Next s => summary_confined repo s ∧ ci_acknowledgeWritableMounts input = existsb is_writable (ws_mounts s)
  | _ => True
  end.
Proof. apply (returns_run (create_workspace repo input)), returns_create. Qed.

(** An update succeeds only with exactly the acknowledgements it needs: of a lost sandbox, of a wider network and of a new writable mount, none of them without need; and its result is confined by the path policy unless its path, profile, mounts and network are all unchanged. *)
Lemma updates_are_acknowledged (repo : WorkspaceRepository) (id : string) (changes : UpdateWorkspaceInput)
    (env : environment host_answer wdb) (d : wdb) :
  match (run_prog env [] (update_workspace repo id changes d)).1.1 with
  | Next s => ∃ current, stored_workspace id d = Ok current ∧ update_justified repo current changes s
  | _ => True
  end.
Proof. apply update_returns. Qed.
