(* ===== verification/WorkspaceSafety.v ===== *)
(** What the workspace repository guarantees of its store: whatever operations
    on workspaces and jobs are made, in any order and however the host answers,
    the tables stay consistent, and a failed operation leaves no trace. *)
From S2P Require Import Prelude JsValues Texts Errors Programs PosixPath Host SandboxAdmission SandboxAdmissionSafety Protocol JobSchedule JobStore JobRepository JobLifecycle WorkspaceStore Workspaces WorkspaceRepository WorkspaceOperations WorkspaceMutations WorkspaceInvariant WorkspacePolicySafety.
#[local] Open Scope string_scope. #[local] Open Scope Z_scope.

(** ** Histories of the store *)

(** An operation of the workspace repository, its result aside. [requireUsable]
    starts as [requireAvailable] and then leaves the database alone. *)
Inductive workspace_call :=
| WList | WRegistrations | WGet (id : string) | WRequireAvailable (id : string)
| WCreate (input : CreateWorkspaceInput)
| WUpdate (id : string) (changes : UpdateWorkspaceInput)
| WDelete (id : string).

Definition workspace_op (repo : WorkspaceRepository) (c : workspace_call) : ws unit :=
  match c with
  | WList => list_workspaces repo;; mret tt
  | WRegistrations => listRegistrations;; mret tt
  | WGet id => get_workspace repo id;; mret tt
  | WRequireAvailable id => requireAvailable repo id;; mret tt
  | WCreate input => create_workspace repo input;; mret tt
  | WUpdate id changes => update_workspace repo id changes;; mret tt
  | WDelete id => delete_workspace id
  end.
Definition is_mutation (c : workspace_call) : bool :=
  match c with WCreate _ | WUpdate _ _ | WDelete _ => true | _ => false end.

(** What the job repository leaves of the database it shares. *)
Definition put_jobs (d : wdb) (j : db) : wdb :=
  MkWdb (wd_workspaces d) (wd_mounts d) (wd_tools d) (db_jobs j) (db_runs j).

(** A step: a workspace operation with the host's answers, or a job operation. *)
Inductive store_step :=
| WorkspaceStep (repo : WorkspaceRepository) (c : workspace_call) (env : environment host_answer wdb)
| JobStep (R : Repository) (c : call)
| DeleteJobStep (jobId : string).

Definition run_step `{IntlData} `{Temporal} (d : wdb) (s : store_step) : wdb :=
  match s with
  | WorkspaceStep repo c env => (run_prog env [] (workspace_op repo c d)).1.2
  | JobStep R c => put_jobs d (exec R c (job_db d)).2
  | DeleteJobStep j => put_jobs d (delete_job j (job_db d)).2
  end.
Definition empty_store : wdb := MkWdb ∅ ∅ ∅ ∅ ∅.

Lemma put_jobs_ok d j : wdb_ok d → db_workspaces j = db_workspaces (job_db d) → db_ok j → wdb_ok (put_jobs d j).
Proof.
  intros [Hrows Hpaths Hmounts Hsources Htools _] Hw Hj. split; cbn; try done.
  unfold job_db. cbn. cbn in Hw. rewrite <-Hw. by destruct j.
Qed.

Section run.
Context (repo : WorkspaceRepository).

Lemma sync_ignore {A} (T P : wdb → Prop) (m : ws A) (Q : wdb → Prop) :
  sync T P m (λ _, Q) → sync T P (m;; mret tt) (λ _, Q).
Proof. intros Hm. eapply sync_bind; [exact Hm|]. intros x. by apply spec_ret. Qed.

Lemma sync_workspace_op c d0 :
  wdb_ok d0 →
  sync (λ d, d = d0) (λ d, d = d0) (workspace_op repo c)
    (λ _ d, if is_mutation c then evolved d0 d else d = d0).
Proof.
  intros Hok. destruct c; cbn [workspace_op is_mutation]; try apply sync_ignore.
  - apply quietly_list.
  - apply quietly_registrations.
  - apply quietly_get_workspace.
  - apply quietly_requireAvailable.
  - by apply sync_create.
  - by apply sync_update.
  - by apply sync_delete.
Qed.

(** A run of a synchronous statement. *)
Lemma sync_run {A} (m : ws A) (T P : wdb → Prop) (Q : A → wdb → Prop) env d :
  sync T P m Q → P d →
  let '((o, d'), h) := run_prog env [] (m d) in
  match o with Next x => Q x d' | Return _ => False | Throw _ => T d' end
  ∧ ∀ e, e ∈ h → is_awaited (ev_call e) = false.
Proof.
  intros Hm HP. pose proof (wp_run (λ _ c, is_awaited c = false) no_ghost (m d) tt _ env []
    ltac:(by intros [|x before] e rest E) (Hm d tt HP)) as H.
  destruct (run_prog env [] (m d)) as [[o d'] h]. destruct H as (HQ & Hr & _). split; [done|].
  intros e (l1 & l2 & ->)%list_elem_of_split. by eapply Hr.
Qed.

Lemma workspace_op_run c env d :
  wdb_ok d →
  let '((o, d'), h) := run_prog env [] (workspace_op repo c d) in
  match o with
  | Next _ => if is_mutation c then evolved d d' else d' = d
  | Return _ => False
  | Throw _ => d' = d
  end ∧ ∀ e, e ∈ h → is_awaited (ev_call e) = false.
Proof. intros Hok. by apply (sync_run _ _ _ _ env d (sync_workspace_op c d Hok)). Qed.
End run.

Lemma run_step_ok `{IntlData} `{Temporal} s d : wdb_ok d → wdb_ok (run_step d s).
Proof.
  intros Hd. destruct s as [repo c env|R c|j]; cbn [run_step].
  - pose proof (workspace_op_run repo c env d Hd) as Hrun.
    destruct (run_prog env [] _) as [[o d'] h]. destruct Hrun as [Hrun _]. cbn.
    destruct o; [|done|by subst]. destruct (is_mutation c); [by destruct Hrun|by subst].
  - pose proof (exec_always R c (job_db d) (wk_jobs d Hd)) as Hs.
    apply put_jobs_ok; [done|by apply Hs|]. apply (dv_ok _ _ Hs), Hd.
  - apply put_jobs_ok; [done| |apply delete_job_ok, Hd].
    destruct (delete_job j (job_db d)) as [[u|x] d'] eqn:E; cbn.
    + apply delete_job_Ok in E as (_ & _ & ->). unfold sql_deleteJob. by case_match.
    + apply delete_job_atomic in E as ->; [done|]. apply Hd.
Qed.

(** ** A concrete store *)

Module sample.
(** [/srv/app] holds a file, [/srv/docs] nothing. *)
Definition seen (p : string) : result thrown Stats :=
  if existsb (String.eqb p) ["/srv/app"; "/srv/docs"] then Ok examples.directory
  else if String.eqb p "/srv/app/main.ts" then Ok examples.plain_file else Err examples.missing.
Definition two_projects : still_fs := {|
  names_in d := if String.eqb d "/srv/app" then ["main.ts"] else [];
  opens _ := Ok tt;
  read_ends _ := Ok tt;
  closes _ := Err dir_closed;
  lstat_of := seen;
  stat_of := seen;
  real_of p := Ok p;
  access_of p _ := if existsb (String.eqb p) ["/srv/app"; "/srv/docs"] then Ok tt else Err examples.denied;
  time_of k := 5 + Z.of_nat k;
  date_of := 5;
|}.
Definition repository : WorkspaceRepository := newWorkspaceRepository "/" {|
  wo_cwd := None;
  wo_policy := Some {| pi_mode := ModeRequired; pi_workspaceRoots := ["/srv"]; pi_dataDirectory := "/data";
    pi_piAgentDirectory := "/agent"; pi_readOnlyMounts := ["/usr"]; pi_jobScriptRoots := Some ["/hooks"];
    pi_managedEgressMode := None; pi_networkHelperPath := None; pi_networkHelperDirectory := None;
    pi_networkPolicySets := None |};
  wo_admissionBounds := None; wo_httpTools := Some ["fetch"; "weather"]; wo_searchOptional := true |}.
Definition input : CreateWorkspaceInput := {|
  ci_name := VStr " App "; ci_path := VStr "/srv/app"; ci_sessionStorage := VUndefined;
  ci_securityProfile := VStr "workspace-sandboxed";
  ci_mounts := Arr [VObj [("name", VStr "docs"); ("source", VStr "/srv/docs"); ("access", VStr "read-write")]];
  ci_networkPolicy := VUndefined; ci_networkPolicySetId := VUndefined;
  ci_enabledHttpTools := Arr [VStr "weather"; VStr "fetch"]; ci_conversationToolsEnabled := VBool true;
  ci_acknowledgeWritableMounts := true |}.
Definition env : environment host_answer wdb := still_env two_projects empty_store.
Definition created := run_prog env [] (create_workspace repository input empty_store).

(** It can be created, and then used with its mount and tools. *)
Definition outcome_value {A B} (f : A → B) (o : outcome exhausted thrown A) : option B :=
  match o with Next x => Some (f x) | _ => None end.
Example creation_succeeds : outcome_value ws_mounts created.1.1 =
  Some [{| wm_name := "docs"; wm_source := "/srv/docs"; wm_access := ReadWrite |}].
Proof. vm_compute. reflexivity. Qed.
Example use_succeeds :
  outcome_value given_mounts (run_prog env [] (requireUsable repository "" created.1.2)).1.1 =
  Some [{| wm_name := "docs"; wm_source := "/srv/docs"; wm_access := ReadWrite |}].
Proof. vm_compute. reflexivity. Qed.
(** Without the acknowledgement of the writable mount, nothing is created. *)
Example unacknowledged : (run_prog env [] (create_workspace repository
    {| ci_name := ci_name input; ci_path := ci_path input; ci_sessionStorage := ci_sessionStorage input;
       ci_securityProfile := ci_securityProfile input; ci_mounts := ci_mounts input;
       ci_networkPolicy := ci_networkPolicy input; ci_networkPolicySetId := ci_networkPolicySetId input;
       ci_enabledHttpTools := ci_enabledHttpTools input;
       ci_conversationToolsEnabled := ci_conversationToolsEnabled input; ci_acknowledgeWritableMounts := false |}
    empty_store)).1.1 = Throw invalid_command.
Proof. vm_compute. reflexivity. Qed.
End sample.

Lemma empty_store_ok : wdb_ok empty_store.
Proof.
  split; cbn; try (intros; rewrite lookup_empty in *; done).
  split; cbn; intros; rewrite ?lookup_empty in *; done.
Qed.

(** ** Properties *)

(** Whatever workspace and job operations are made, in any order, with any input and whatever the file system, the clock and the callbacks answer, the shared database stays consistent: rows satisfy the schema's checks, no two workspaces share a path, mounts and tools belong to a stored workspace, no two mounts of one share a source, and every job belongs to a stored workspace. *)
Lemma store_stays_consistent `{IntlData} `{Temporal} (history : list store_step) :
  wdb_ok (fold_left run_step history empty_store).
Proof.
  pose proof empty_store_ok as Hd.
  revert Hd. generalize empty_store. induction history as [|s history IH]; intros d Hd; [done|].
  cbn. by apply IH, run_step_ok.
Qed.

(** Workspace operations are atomic: they run without an awaited call, so that no other task sees a state in between; one that throws leaves the database as it was, and so does every operation that only reads; a mutation that succeeds leaves a consistent database with the jobs untouched. *)
Lemma workspace_operations_are_atomic (repo : WorkspaceRepository) (c : workspace_call)
    (env : environment host_answer wdb) (d : wdb) (Hok : wdb_ok d) :
  let '((o, d'), h) := run_prog env [] (workspace_op repo c d) in
  match o with
  | Next _ => if is_mutation c then wdb_ok d' ∧ wd_jobs d' = wd_jobs d ∧ wd_runs d' = wd_runs d else d' = d
  | Return _ => False
  | Throw _ => d' = d
  end ∧ ∀ e, e ∈ h → is_awaited (ev_call e) = false.
Proof. by apply workspace_op_run. Qed.

Lemma workspace_operations_are_atomic_witness :
  let d := (run_prog sample.env [] (workspace_op sample.repository (WCreate sample.input) empty_store)).1.2 in
  wr_name <$> wd_workspaces d !! "" = Some "App" ∧ wdb_ok d.
Proof.
  split; [vm_compute; reflexivity|].
  pose proof (workspace_operations_are_atomic sample.repository (WCreate sample.input) sample.env empty_store empty_store_ok) as H.
  assert (E : sample.outcome_value (λ _, true) (run_prog sample.env []
    (workspace_op sample.repository (WCreate sample.input) empty_store)).1.1 = Some true)
    by (vm_compute; reflexivity).
  destruct (run_prog _ _ _) as [[o d'] h]. cbn in E |- *. destruct o; [|done..]. by destruct H as [(? & _) _].
Defined.
