(* ===== verification/WorkspaceReadBack.v ===== *)
(** What the workspace operations do to the database, exactly: the rows a
    creation and an update write and the workspace they read back as, and the
    three ends of a deletion. *)
From S2P Require Import Prelude JsValues Texts Errors Programs PosixPath Host SandboxAdmission Protocol JobSchedule JobStore JobRepository JobLifecycle WorkspaceStore Workspaces WorkspaceRepository WorkspaceOperations WorkspaceMutations WorkspaceInvariant WorkspacePolicySafety WorkspaceSafety.
#[local] Open Scope string_scope. #[local] Open Scope Z_scope.

(** ** The rows of a workspace *)

Definition row_of (w : Workspace) : WorkspaceRow := {|
  wr_id := w_id w; wr_name := w_name w; wr_path := w_path w; wr_session_storage := w_sessionStorage w;
  wr_security_profile := profile_text (w_securityProfile w); wr_network_policy := network_text (w_networkPolicy w);
  wr_network_policy_set_id := w_networkPolicySetId w;
  wr_conversation_tools_enabled := if w_conversationToolsEnabled w then 1 else 0;
  wr_created_at := w_createdAt w; wr_updated_at := w_updatedAt w |}.
Definition mount_row (id : string) (m : WorkspaceMount) : WorkspaceMountRow := {|
  mr_workspace_id := id; mr_name := wm_name m; mr_source_path := wm_source m; mr_access := access_text (wm_access m) |}.

Definition add_mounts (id : string) (ms : list WorkspaceMount) (M : gmap (string * string) WorkspaceMountRow) :=
  foldl (λ M m, <[(id, wm_name m) := mount_row id m]> M) M ms.
Definition add_tools (id : string) (ts : list string) (T : gset (string * string)) : gset (string * string) :=
  foldl (λ T t, {[(id, t)]} ∪ T) T ts.
(** The database after [w] was stored in [d]. *)
Definition stored_in (w : Workspace) (d : wdb) : wdb :=
  MkWdb (<[w_id w := row_of w]> (wd_workspaces d)) (add_mounts (w_id w) (w_mounts w) (wd_mounts d))
    (add_tools (w_id w) (w_enabledHttpTools w) (wd_tools d)) (wd_jobs d) (wd_runs d).

(** ** What they read back as *)

#[export] Instance text_le_trans : Transitive text_le_prop.
Proof. intros s t u. apply string_compare_trans. Qed.
#[export] Instance text_le_antisym : AntiSymm eq text_le_prop.
Proof. intros s t. apply String.leb_antisym. Qed.
#[export] Instance text_le_total : Total text_le_prop.
Proof. intros s t. unfold text_le_prop, text_le. destruct (String.leb_total s t); auto. Qed.
#[export] Instance mount_name_le_total : Total mount_name_le.
Proof. intros r1 r2. apply (text_le_total (mr_name r1) (mr_name r2)). Qed.

Definition mount_rows (id : string) (M : gmap (string * string) WorkspaceMountRow) : list WorkspaceMountRow :=
  filter (λ r, mr_workspace_id r = id) (map_to_list M).*2.
Definition tool_names (id : string) (T : gset (string * string)) : list string :=
  (filter (λ p, p.1 = id) (elements T)).*2.

Lemma mount_rows_add id ms M :
  NoDup (wm_name <$> ms) → (∀ m, m ∈ ms → M !! (id, wm_name m) = None) →
  mount_rows id (add_mounts id ms M) ≡ₚ (mount_row id <$> ms) ++ mount_rows id M.
Proof.
  revert M. induction ms as [|m ms IH]; intros M Hnd Hnew; [done|].
  apply NoDup_cons in Hnd as [Hm Hnd]. change (add_mounts id (m :: ms) M) with (add_mounts id ms (<[(id, wm_name m) := mount_row id m]> M)).
  rewrite IH; [|done|].
  - unfold mount_rows. rewrite map_to_list_insert by (apply Hnew; left). cbn.
    rewrite decide_True by done. by rewrite <-Permutation_middle.
  - intros n Hn. rewrite lookup_insert_ne; [apply Hnew; by right|].
    intros [= E]. apply Hm. rewrite E. by apply list_elem_of_fmap_2.
Qed.

Lemma tool_names_add id ts T :
  NoDup ts → (∀ t, t ∈ ts → (id, t) ∉ T) →
  tool_names id (add_tools id ts T) ≡ₚ ts ++ tool_names id T.
Proof.
  revert T. induction ts as [|t ts IH]; intros T Hnd Hnew; [done|].
  apply NoDup_cons in Hnd as [Ht Hnd]. change (add_tools id (t :: ts) T) with (add_tools id ts ({[(id, t)]} ∪ T)).
  rewrite IH; [|done|].
  - unfold tool_names. rewrite elements_union_singleton by (apply Hnew; left). cbn.
    rewrite decide_True by done. cbn. by rewrite <-Permutation_middle.
  - intros u Hu. rewrite elem_of_union, elem_of_singleton. intros [[= ->]|H]; [done|].
    revert H. apply Hnew. by right.
Qed.

(** Nothing is known of an identifier without a row. *)
Lemma no_mount_rows id d : wdb_ok d → wd_workspaces d !! id = None → mount_rows id (wd_mounts d) = [].
Proof.
  intros Hok Hid. apply elem_of_nil_inv. intros r [Hr Hin]%list_elem_of_filter.
  apply list_elem_of_fmap in Hin as ([k r'] & -> & Hin%elem_of_map_to_list).
  apply (wk_mounts d Hok) in Hin as (_ & _ & [row Hrow]). cbn in Hr. by rewrite Hr, Hid in Hrow.
Qed.
Lemma no_tool_names id d : wdb_ok d → wd_workspaces d !! id = None → tool_names id (wd_tools d) = [].
Proof.
  intros Hok Hid. apply elem_of_nil_inv. intros t ([i u] & -> & [Hi Hin%elem_of_elements]%list_elem_of_filter)%list_elem_of_fmap.
  apply (wk_tools d Hok) in Hin as (_ & [row Hrow]). cbn in *. by rewrite Hi, Hid in Hrow.
Qed.

(** What a creation has checked of a workspace. *)
Record storable (w : Workspace) : Prop := {
  st_mounts : Forall mount_well_formed (w_mounts w);
  st_names : NoDup (wm_name <$> w_mounts w);
  st_mount_count : (length (w_mounts w) <= MAX_WORKSPACE_MOUNTS)%nat;
  st_tools t : t ∈ w_enabledHttpTools w → http_tool_name t = true;
  st_tools_nodup : NoDup (w_enabledHttpTools w);
  st_tools_sorted : Sorted text_le_prop (w_enabledHttpTools w);
  st_tool_count : (length (w_enabledHttpTools w) <= MAX_WORKSPACE_HTTP_TOOLS)%nat;
  st_set : isStructurallyValidPolicySetId (w_networkPolicySetId w) = true;
  st_directory : w_sessionDirectory w = workspaceSessionDirectory (w_path w) (w_sessionStorage w);
}.

Definition with_mounts (ms : list WorkspaceMount) (w : Workspace) : Workspace := {|
  w_id := w_id w; w_name := w_name w; w_path := w_path w; w_sessionStorage := w_sessionStorage w;
  w_sessionDirectory := w_sessionDirectory w; w_securityProfile := w_securityProfile w; w_mounts := ms;
  w_networkPolicy := w_networkPolicy w; w_networkPolicySetId := w_networkPolicySetId w;
  w_enabledHttpTools := w_enabledHttpTools w; w_conversationToolsEnabled := w_conversationToolsEnabled w;
  w_createdAt := w_createdAt w; w_updatedAt := w_updatedAt w |}.

Lemma mapM_map_Ok {A B} (f : A → result thrown B) (g : B → A) l :
  (∀ x, x ∈ l → f (g x) = Ok x) → mapM f (g <$> l) = Ok l.
Proof.
  induction l as [|x l IH]; intros H; [done|]. cbn. rewrite (H x) by left. cbn.
  rewrite IH by (intros y Hy; apply H; by right). done.
Qed.

Lemma stored_mount_row id m :
  mount_well_formed m → strlen (wm_source m) <= WORKSPACE_MOUNT_SOURCE_MAX_LENGTH →
  stored_mount id (mount_row id m) = Ok m.
Proof.
  intros [Hslug Habs] Hlen. unfold stored_mount, mount_row.
  cbn [mr_workspace_id mr_name mr_source_path mr_access]. rewrite String.eqb_refl, Hslug, Habs.
  rewrite (proj2 (Z.ltb_ge _ _) Hlen). destruct m as [n s []]; done.
Qed.

(** What reading back needs of a workspace's fields. *)
Record wellformed (w : Workspace) : Prop := {
  wf_mounts : Forall mount_well_formed (w_mounts w);
  wf_mount_count : (length (w_mounts w) <= MAX_WORKSPACE_MOUNTS)%nat;
  wf_tools t : t ∈ w_enabledHttpTools w → http_tool_name t = true;
  wf_tool_count : (length (w_enabledHttpTools w) <= MAX_WORKSPACE_HTTP_TOOLS)%nat;
  wf_set : isStructurallyValidPolicySetId (w_networkPolicySetId w) = true;
  wf_directory : w_sessionDirectory w = workspaceSessionDirectory (w_path w) (w_sessionStorage w);
}.
Definition short_mounts (w : Workspace) : Prop :=
  Forall (λ m, strlen (wm_source m) <= WORKSPACE_MOUNT_SOURCE_MAX_LENGTH) (w_mounts w).

(** Reading the identifier gives the workspace, its mounts in the order of their names. *)
Definition reads_as (w : Workspace) (d : wdb) : Prop :=
  ∃ ms, stored_workspace (w_id w) d = Ok (with_mounts ms w) ∧ ms ≡ₚ w_mounts w
    ∧ Sorted (λ m n, text_le_prop (wm_name m) (wm_name n)) ms.

Lemma rows_read_back w D :
  wellformed w → short_mounts w → wd_workspaces D !! w_id w = Some (row_of w) →
  sql_listMounts (w_id w) D ≡ₚ mount_row (w_id w) <$> w_mounts w →
  sql_listHttpTools (w_id w) D = (λ t, (w_id w, t)) <$> w_enabledHttpTools w →
  reads_as w D.
Proof.
  intros [Hwf Hcount Htool Htools Hset Hdir] Hlen Hrow Hrows Hnames.
  pose proof (Permutation_map_inv _ _ Hrows) as (ms & Ems & Hperm).
  exists ms. split_and!; [|by symmetry|].
  - unfold stored_workspace, sql_getWorkspace. rewrite Hrow.
    unfold workspaceFromRow. cbn [wr_id row_of]. rewrite Ems.
    assert (Hmap : mapM (stored_mount (w_id w)) (mount_row (w_id w) <$> ms) = Ok ms).
    { apply mapM_map_Ok. intros m Hm. rewrite <-Hperm in Hm.
      apply stored_mount_row; [by eapply Forall_forall in Hwf|by eapply Forall_forall in Hlen]. }
    change (map (mount_row (w_id w)) ms) with (mount_row (w_id w) <$> ms). rewrite Hmap. cbn [mbind result_bind].
    rewrite bool_decide_eq_false_2 by (rewrite <-Hperm; lia). cbn [throw_if mbind result_bind].
    rewrite Hnames, mapM_map_Ok by (intros t Ht; unfold stored_tool; cbn; by rewrite String.eqb_refl, Htool).
    cbn [mbind result_bind]. rewrite bool_decide_eq_false_2 by lia. cbn [throw_if mbind result_bind].
    unfold workspace_from_columns, row_of, with_mounts. rewrite Hdir. cbn -[isStructurallyValidPolicySetId].
    rewrite Hset.
    by destruct (w_securityProfile w), (w_networkPolicy w), (w_conversationToolsEnabled w).
  - assert (Hs : Sorted mount_name_le (mount_row (w_id w) <$> ms)).
    { change (mount_row (w_id w) <$> ms) with (map (mount_row (w_id w)) ms). rewrite <-Ems.
      apply Sorted_merge_sort; apply _. }
    clear -Hs. induction ms as [|m ms IH]; [constructor|]. apply Sorted_inv in Hs as [Hs Hh].
    constructor; [by apply IH|]. destruct ms as [|n ms]; constructor. by apply HdRel_inv in Hh.
Qed.

(** What was added under an identifier that had none is what is listed. *)
Lemma added_mounts_listed w d M :
  wd_mounts d = add_mounts (w_id w) (w_mounts w) M → NoDup (wm_name <$> w_mounts w) →
  (∀ n, M !! (w_id w, n) = None) → mount_rows (w_id w) M = [] →
  sql_listMounts (w_id w) d ≡ₚ mount_row (w_id w) <$> w_mounts w.
Proof.
  intros E Hnd Hnew Hnone. unfold sql_listMounts. rewrite merge_sort_Permutation, E.
  change (mount_rows (w_id w) (add_mounts (w_id w) (w_mounts w) M) ≡ₚ mount_row (w_id w) <$> w_mounts w).
  rewrite mount_rows_add by auto. by rewrite Hnone, app_nil_r.
Qed.
Lemma added_tools_listed w d T :
  wd_tools d = add_tools (w_id w) (w_enabledHttpTools w) T → NoDup (w_enabledHttpTools w) →
  Sorted text_le_prop (w_enabledHttpTools w) → (∀ t, (w_id w, t) ∉ T) → tool_names (w_id w) T = [] →
  sql_listHttpTools (w_id w) d = (λ t, (w_id w, t)) <$> w_enabledHttpTools w.
Proof.
  intros E Hnd Hsorted Hnew Hnone. unfold sql_listHttpTools. f_equal.
  apply (Sorted_unique text_le_prop); [by apply Sorted_merge_sort; apply _|done|].
  rewrite merge_sort_Permutation, E.
  change (tool_names (w_id w) (add_tools (w_id w) (w_enabledHttpTools w) T) ≡ₚ w_enabledHttpTools w).
  rewrite tool_names_add by auto. by rewrite Hnone, app_nil_r.
Qed.

Lemma reads_back w d :
  wdb_ok d → wd_workspaces d !! w_id w = None → storable w → short_mounts w → reads_as w (stored_in w d).
Proof.
  intros Hok Hid [Hwf Hnames Hcount Htool Hnd Hsorted Htools Hset Hdir] Hlen.
  apply rows_read_back; [done|done|apply lookup_insert_eq|..].
  - apply (added_mounts_listed w _ (wd_mounts d)); [done|done| |by apply no_mount_rows].
    intros n. destruct (wd_mounts d !! (w_id w, n)) as [r|] eqn:E; [|done].
    apply (wk_mounts d Hok) in E as (Ek & _ & [row Hrow]). injection Ek as Ek _. by rewrite <-Ek, Hid in Hrow.
  - apply (added_tools_listed w _ (wd_tools d)); [done|done|done| |by apply no_tool_names].
    intros t Ht. apply (wk_tools d Hok) in Ht as (_ & [row Hrow]). cbn in Hrow. by rewrite Hid in Hrow.
Qed.

(** ** What a creation writes *)

(** What is known of every result joins what holds of the database. *)
Lemma sync_with {A} T P (m : ws A) (Q : A → wdb → Prop) φ :
  sync T P m Q → returns m φ → sync T P m (λ x d, Q x d ∧ φ x).
Proof.
  intros Hm Hr d g HP. eapply wp_mono; [|apply (wp_with _ _ (λ _ _, True) no_trace _ g tt _
    (λ '(o, _), match o with Next x => φ x | _ => True end) (Hm d g HP))].
  - intros [o d'] g' [H Hφ]. by destruct o.
  - eapply wp_mono; [|apply (Hr d tt I)]. intros [o d'] g'. by destruct o.
Qed.
(** A step that only reads, of whose result something is known. *)
Lemma sync_learn {A B} d0 (m : ws A) (k : A → ws B) φ Q :
  quietly m → returns m φ → (∀ x, φ x → sync (λ d, d = d0) (λ d, d = d0) (k x) Q) →
  sync (λ d, d = d0) (λ d, d = d0) (m ≫= k) Q.
Proof.
  intros Hm Hr Hk. eapply sync_bind; [apply sync_with; [apply Hm|exact Hr]|]. intros x d g [-> Hx]. by apply (Hk x Hx).
Qed.

Lemma sync_insert_mounts_exact id ms d0 :
  sync (λ _, True) (λ d, d = d0) (insert_mounts id ms)
    (λ _ d, d = set_mounts (add_mounts id ms (wd_mounts d0)) d0).
Proof.
  revert d0. induction ms as [|m ms IH]; intros d0; cbn [insert_mounts].
  { apply spec_ret. intros d g ->. by destruct d0. }
  eapply (sync_bind _ _ _ _ (λ _ d, d = set_mounts (<[(id, wm_name m) := mount_row id m]> (wd_mounts d0)) d0)).
  { apply sync_run_stmt; [done|]. intros d a d' ->. unfold sql_insertMount. repeat case_match; try done. by intros [= _ <-]. }
  intros ?. exact (IH (set_mounts (<[(id, wm_name m) := mount_row id m]> (wd_mounts d0)) d0)).
Qed.
Lemma sync_insert_tools_exact id ts d0 :
  sync (λ _, True) (λ d, d = d0) (insert_tools id ts)
    (λ _ d, d = set_tools (add_tools id ts (wd_tools d0)) d0).
Proof.
  revert d0. induction ts as [|t ts IH]; intros d0; cbn [insert_tools].
  { apply spec_ret. intros d g ->. by destruct d0. }
  eapply (sync_bind _ _ _ _ (λ _ d, d = set_tools ({[(id, t)]} ∪ wd_tools d0) d0)).
  { apply sync_run_stmt; [done|]. intros d a d' ->. unfold sql_insertHttpTool. repeat case_match; try done. by intros [= _ <-]. }
  intros ?. exact (IH (set_tools ({[(id, t)]} ∪ wd_tools d0) d0)).
Qed.

Lemma insertWorkspace_Ok r d a d' :
  sql_insertWorkspace r d = Ok (a, d') →
  d' = set_workspaces (<[wr_id r := r]> (wd_workspaces d)) d ∧ wd_workspaces d !! wr_id r = None.
Proof.
  unfold sql_insertWorkspace. repeat case_match; try done. intros [= _ <-]. split; [done|]. breflect.
  by apply eq_None_not_Some.
Qed.

Lemma sync_insert_exact w d0 :
  sync (λ d, d = d0) (λ d, d = d0) (insert_workspace w)
    (λ _ d, d = stored_in w d0 ∧ wd_workspaces d0 !! w_id w = None).
Proof.
  unfold insert_workspace. apply sync_in_database, sync_reporting, sync_transaction; [done|].
  eapply (sync_bind _ _ _ _ (λ _ d, d = set_workspaces (<[w_id w := row_of w]> (wd_workspaces d0)) d0
    ∧ wd_workspaces d0 !! w_id w = None)).
  { apply sync_run_stmt; [done|]. intros d a d' ->. apply (insertWorkspace_Ok (row_of w)). }
  intros ? d g [-> Hid]. eapply (sync_weaken _ _ (λ d, d = _) _ _ (λ _ d, d = stored_in w d0)); [done| | |done].
  { intros _ d' ->. done. }
  eapply sync_bind; [apply sync_insert_mounts_exact|]. intros ?. apply sync_insert_tools_exact.
Qed.

Section create.
Context (repo : WorkspaceRepository).

Lemma returns_and {A} (m : ws A) (φ ψ : A → Prop) : returns m φ → returns m ψ → returns m (λ x, φ x ∧ ψ x).
Proof.
  intros H1 H2 s g Hs. eapply wp_mono; [|apply wp_and; [by apply H1|by apply H2]].
  intros [o s'] g'. by destruct o.
Qed.

Lemma returns_valid_mounts_count path input ms :
  returns (valid_mounts repo path input ms) (λ ms', length ms' = (length ms + length input)%nat).
Proof.
  revert ms. induction input as [|candidate input IH]; intros ms; cbn [valid_mounts].
  { apply returns_ret. cbn. lia. }
  apply returns_skip. intros [[name source] access]. apply returns_skip. intros m.
  eapply returns_weaken; [|apply IH]. intros ms' ->. rewrite length_app. cbn. lia.
Qed.
Lemma returns_validMounts_count input path :
  returns (validMounts repo input path) (λ ms, (length ms <= MAX_WORKSPACE_MOUNTS)%nat).
Proof.
  unfold validMounts. destruct input; try apply returns_throw. case_bool_decide; [apply returns_throw|].
  eapply returns_weaken; [|apply returns_valid_mounts_count]. intros ms ->. cbn. lia.
Qed.

Lemma valid_tool_names_count input names names' :
  valid_tool_names repo input names = Ok names' → length names' = (length names + length input)%nat.
Proof.
  revert names. induction input as [|v input IH]; intros names; cbn [valid_tool_names].
  { intros [= <-]. cbn [length]. lia. }
  destruct v; try done. destruct (_ || _); [done|]. intros H%IH. rewrite H, length_app. cbn. lia.
Qed.
Lemma validHttpTools_count input names :
  validHttpTools repo input = Ok names → (length names <= MAX_WORKSPACE_HTTP_TOOLS)%nat.
Proof.
  unfold validHttpTools. destruct input as [| | |items]; try done. case_bool_decide; [done|]. intros E.
  inv_bind E. injection E as <-. apply valid_tool_names_count in Ha.
  rewrite (Permutation_length (merge_sort_Permutation text_le_prop a)), Ha. cbn [length Nat.add]. lia.
Qed.

(** The lifted results of pure checks. *)
Lemma sync_lifted {A B} d0 (r : result thrown A) (k : A → ws B) Q :
  (∀ x, r = Ok x → sync (λ d, d = d0) (λ d, d = d0) (k x) Q) →
  sync (λ d, d = d0) (λ d, d = d0) (lift_ r ≫= k) Q.
Proof.
  intros Hk. eapply sync_learn; [apply quietly_lift|by apply (returns_lift _ (λ x, r = Ok x))|exact Hk].
Qed.

Lemma sync_summary (T P : wdb → Prop) w : sync T P (summary repo w) (λ s d, P d ∧ shows w s).
Proof. apply sync_with; [apply sync_calm, calm_summary|apply returns_summary]. Qed.

(** The fields of a created workspace are the validated ones of the input. *)
Record taken_from (input : CreateWorkspaceInput) (w : Workspace) : Prop := {
  tf_fields : create_fields repo input = Ok (w_name w, w_conversationToolsEnabled w, w_sessionStorage w,
    w_securityProfile w, w_networkPolicy w, w_networkPolicySetId w);
  tf_tools : validHttpTools repo (or_empty (ci_enabledHttpTools input)) = Ok (w_enabledHttpTools w);
  tf_created : w_updatedAt w = w_createdAt w;
}.

Lemma sync_create_exact d0 input :
  sync (λ d, d = d0) (λ d, d = d0) (create_workspace repo input)
    (λ s d, ∃ w, (storable w ∧ taken_from input w) ∧ shows w s ∧ d = stored_in w d0 ∧ wd_workspaces d0 !! w_id w = None).
Proof.
  unfold create_workspace. apply sync_lifted.
  intros [[[[[name tools] storage] profile] network] set] Hfields.
  pose proof Hfields as (_ & _ & _ & Hset)%create_fields_Ok.
  apply sync_quiet_bind; [quiet|]. intros path. cbv zeta. apply sync_quiet_bind; [quiet|]. intros ?.
  eapply sync_learn; [quiet|apply returns_and; [apply returns_validMounts|apply returns_validMounts_count]|].
  intros ms [(Hwf & Hnames & _) Hcount].
  apply sync_lifted. intros http Hchosen. pose proof (validHttpTools_count _ _ Hchosen) as Htools.
  pose proof Hchosen as (Hhttp & Hnd & Hsorted)%validHttpTools_ok.
  do 4 (apply sync_quiet_bind; [quiet|]; intros ?).
  eapply sync_bind; [apply sync_insert_exact|]. intros ? d g [-> Hid].
  match goal with |- context [summary repo ?w] => set (W := w) in * end.
  eapply wp_mono; [|by apply (sync_summary (λ d, d = d0) (λ d, d = stored_in W d0))].
  intros [[s| |e] d'] g'; [|done..]. intros [-> Hshows]. exists W. split; [|done].
  split; [|by split]. split; cbn; try done. intros t Ht. by apply Hhttp.
Qed.
End create.

(** ** What an update writes *)

(** Reading is inverse to storing: the row and the listed rows of a workspace
    that could be read are those of the workspace. *)
Lemma mapM_inv {A B} (f : A → result thrown B) (g : B → A) (P : B → Prop) l l' :
  (∀ x y, f x = Ok y → x = g y ∧ P y) → mapM f l = Ok l' → l = g <$> l' ∧ Forall P l'.
Proof.
  intros Hf. revert l'. induction l as [|x l IH]; intros l' E; cbn in E.
  { injection E as <-. by split; [|constructor]. }
  inv_bind E. injection E as <-. apply Hf in Ha as [-> ?]. apply IH in Ha0 as [-> ?].
  by split; [|constructor].
Qed.

Lemma stored_mount_inv id r m :
  stored_mount id r = Ok m → r = mount_row id m ∧ mount_well_formed m.
Proof.
  unfold stored_mount. intros E. inv_bind E. injection E as <-. breflect.
  unfold mount_row, mount_well_formed. cbn. split; [|done].
  assert (mr_access r = access_text a0) as <-.
  { revert Ha0. unfold read_or, read_access.
    destruct (String.eqb_spec (mr_access r) "read-only"); [by intros [= <-]|].
    destruct (String.eqb_spec (mr_access r) "read-write"); [by intros [= <-]|done]. }
  match goal with H : String.eqb _ _ = true |- _ => apply String.eqb_eq in H as <- end. by destruct r.
Qed.
Lemma stored_tool_inv id r t :
  stored_tool id r = Ok t → r = (id, t) ∧ http_tool_name t = true.
Proof.
  unfold stored_tool. intros E. inv_bind E. injection E as <-. breflect.
  match goal with H : String.eqb _ _ = true |- _ => apply String.eqb_eq in H as <- end. by destruct r.
Qed.

Lemma workspace_from_columns_inv r ms ts w :
  workspace_from_columns r ms ts = Ok w →
  row_of w = r ∧ w_mounts w = ms ∧ w_enabledHttpTools w = ts
  ∧ isStructurallyValidPolicySetId (w_networkPolicySetId w) = true
  ∧ w_sessionDirectory w = workspaceSessionDirectory (w_path w) (w_sessionStorage w).
Proof.
  unfold workspace_from_columns. intros E. inv_bind E. injection E as <-. cbn. split_and!; try done.
  - assert (wr_security_profile r = profile_text a) as E1.
    { revert Ha. unfold read_or, read_profile.
      destruct (String.eqb_spec (wr_security_profile r) "unrestricted"); [by intros [= <-]|].
      destruct (String.eqb_spec (wr_security_profile r) "workspace-sandboxed"); [by intros [= <-]|done]. }
    assert (wr_network_policy r = network_text a0) as E2.
    { revert Ha0. unfold read_or, read_network.
      destruct (String.eqb_spec (wr_network_policy r) "isolated"); [by intros [= <-]|].
      destruct (String.eqb_spec (wr_network_policy r) "managed-egress"); [by intros [= <-]|done]. }
    assert ((if wr_conversation_tools_enabled r =? 1 then 1 else 0) = wr_conversation_tools_enabled r) as E3.
    { destruct (Z.eqb_spec (wr_conversation_tools_enabled r) 1) as [->|]; [done|].
      destruct (Z.eqb_spec (wr_conversation_tools_enabled r) 0) as [->|]; [done|]. done. }
    unfold row_of. cbn. rewrite <-E1, <-E2, E3. by destruct r.
  - by apply negb_false_iff.
Qed.

(** What is known of a workspace that was read. *)
Record read_from (w : Workspace) (d : wdb) : Prop := {
  rf_row : wd_workspaces d !! w_id w = Some (row_of w);
  rf_wellformed : wellformed w;
  rf_mounts : sql_listMounts (w_id w) d = mount_row (w_id w) <$> w_mounts w;
  rf_tools : sql_listHttpTools (w_id w) d = (λ t, (w_id w, t)) <$> w_enabledHttpTools w;
}.
Lemma stored_workspace_inv id d w :
  wdb_ok d → stored_workspace id d = Ok w → w_id w = id ∧ read_from w d.
Proof.
  intros Hok. unfold stored_workspace, sql_getWorkspace. destruct (wd_workspaces d !! id) as [r|] eqn:Er; [|done].
  unfold workspaceFromRow. intros E. inv_bind E.
  apply workspace_from_columns_inv in E as (Hrow & Hms & Hts & Hset & Hdir).
  apply (mapM_inv _ (mount_row (wr_id r)) mount_well_formed) in Ha as [Hm Hwf]; [|by intros; apply stored_mount_inv].
  apply (mapM_inv _ (λ t, (wr_id r, t)) (λ t, http_tool_name t = true)) in Ha1 as [Ht Htn];
    [|by intros; apply stored_tool_inv].
  destruct (wk_rows d Hok id r Er) as [Hid _].
  assert (Hw : w_id w = id) by (by rewrite <-Hid, <-Hrow).
  breflect. split; [done|]. rewrite Hid in Hm, Ht. split; rewrite ?Hw, ?Hms, ?Hts; [by rewrite Hrow| |done|done].
  split; rewrite ?Hms, ?Hts; try done; [lia|by apply Forall_forall|lia].
Qed.

(** The database after the update of a stored workspace to [w]. *)
Definition other_mounts (id : string) (M : gmap (string * string) WorkspaceMountRow) :=
  filter (λ p : (string * string) * WorkspaceMountRow, p.1.1 ≠ id) M.
Definition other_tools (id : string) (T : gset (string * string)) := filter (λ p : string * string, p.1 ≠ id) T.
Definition rewritten (changes : UpdateWorkspaceInput) (w : Workspace) (d : wdb) : wdb :=
  MkWdb (<[w_id w := row_of w]> (wd_workspaces d))
    (if defined_array (ui_mounts changes)
     then add_mounts (w_id w) (w_mounts w) (other_mounts (w_id w) (wd_mounts d)) else wd_mounts d)
    (if defined_array (ui_enabledHttpTools changes)
     then add_tools (w_id w) (w_enabledHttpTools w) (other_tools (w_id w) (wd_tools d)) else wd_tools d)
    (wd_jobs d) (wd_runs d).

Lemma other_mounts_none id M n : other_mounts id M !! (id, n) = None.
Proof. apply map_lookup_filter_None. right. intros m _. cbn. intros H. by apply H. Qed.
Lemma other_mounts_listed id d : wdb_ok d → mount_rows id (other_mounts id (wd_mounts d)) = [].
Proof.
  intros Hok. apply elem_of_nil_inv. intros r [Hr Hin]%list_elem_of_filter.
  apply list_elem_of_fmap in Hin as ([k r'] & -> & [Hin Hk]%elem_of_map_to_list%map_lookup_filter_Some).
  apply (wk_mounts d Hok) in Hin as (-> & _). by apply Hk.
Qed.
Lemma other_tools_none id T t : (id, t) ∉ other_tools id T.
Proof. intros [H _]%elem_of_filter. by apply H. Qed.
Lemma other_tools_listed id T : tool_names id (other_tools id T) = [].
Proof.
  apply elem_of_nil_inv. intros t ([i u] & -> & [Hi [H _]%elem_of_elements%elem_of_filter]%list_elem_of_filter)%list_elem_of_fmap.
  by apply H.
Qed.

(** What an update makes of the workspace it read: the fields it was given,
    validated, and the others as they were. *)
Section update.
Context (repo : WorkspaceRepository).

Record changed_by (changes : UpdateWorkspaceInput) (old w : Workspace) : Prop := {
  ch_id : w_id w = w_id old;
  ch_storage : w_sessionStorage w = w_sessionStorage old;
  ch_created : w_createdAt w = w_createdAt old;
  ch_name : keep_or (ui_name changes) (w_name old) validName = Ok (w_name w);
  ch_path : defined (ui_path changes) = false → w_path w = w_path old;
  ch_profile : keep_or (ui_securityProfile changes) (w_securityProfile old) validSecurityProfile
    = Ok (w_securityProfile w);
  ch_network : keep_or (ui_networkPolicy changes) (w_networkPolicy old) validNetworkPolicy = Ok (w_networkPolicy w);
  ch_set : keep_or (ui_networkPolicySetId changes) (w_networkPolicySetId old) validNetworkPolicySetId
    = Ok (w_networkPolicySetId w);
  ch_conversation : keep_or (ui_conversationToolsEnabled changes) (w_conversationToolsEnabled old)
    validConversationToolsEnabled = Ok (w_conversationToolsEnabled w);
  ch_mounts : defined_array (ui_mounts changes) = false → w_mounts w = w_mounts old;
  ch_tools : (if defined_array (ui_enabledHttpTools changes) then validHttpTools repo (ui_enabledHttpTools changes)
              else Ok (w_enabledHttpTools old)) = Ok (w_enabledHttpTools w);
}.

(** The new lists, where there are any. *)
Record storable_change (changes : UpdateWorkspaceInput) (w : Workspace) : Prop := {
  sg_wellformed : wellformed w;
  sg_mounts : defined_array (ui_mounts changes) = true → NoDup (wm_name <$> w_mounts w);
  sg_tools : defined_array (ui_enabledHttpTools changes) = true →
    NoDup (w_enabledHttpTools w) ∧ Sorted text_le_prop (w_enabledHttpTools w);
}.

Lemma rewritten_reads_as changes old w d :
  wdb_ok d → read_from old d → changed_by changes old w → storable_change changes w → short_mounts w →
  reads_as w (rewritten changes w d).
Proof.
  intros Hok [_ _ Hms Hts] Hc [Hwf Hnames Htools] Hshort.
  apply rows_read_back; [done|done|apply lookup_insert_eq|..].
  - destruct (defined_array (ui_mounts changes)) eqn:E.
    + apply (added_mounts_listed w _ (other_mounts (w_id w) (wd_mounts d))); [|by apply Hnames| |by apply other_mounts_listed].
      * cbn. by rewrite E.
      * apply other_mounts_none.
    + unfold sql_listMounts in *. cbn [wd_mounts rewritten]. rewrite E, (ch_id _ _ _ Hc), (ch_mounts _ _ _ Hc E).
      by rewrite Hms.
  - pose proof (ch_tools _ _ _ Hc) as Ht. destruct (defined_array (ui_enabledHttpTools changes)) eqn:E.
    + destruct (Htools eq_refl) as [Hnd Hsorted].
      apply (added_tools_listed w _ (other_tools (w_id w) (wd_tools d))); [|done|done| |apply other_tools_listed].
      * cbn. by rewrite E.
      * apply other_tools_none.
    + injection Ht as <-. unfold sql_listHttpTools in *. cbn [wd_tools rewritten]. rewrite E, (ch_id _ _ _ Hc).
      exact Hts.
Qed.

(** The transaction. *)
Lemma updateWorkspace_Ok old w id d a d' :
  wd_workspaces d !! id = Some (row_of old) → w_id old = id →
  w_id w = w_id old → w_sessionStorage w = w_sessionStorage old → w_createdAt w = w_createdAt old →
  sql_updateWorkspace (w_name w) (w_path w) (profile_text (w_securityProfile w)) (network_text (w_networkPolicy w))
    (w_networkPolicySetId w) (if w_conversationToolsEnabled w then 1 else 0) (w_updatedAt w) id d = Ok (a, d') →
  a = 1 ∧ d' = set_workspaces (<[w_id w := row_of w]> (wd_workspaces d)) d.
Proof.
  intros Hr Hid Hi Hs Hc. unfold sql_updateWorkspace. rewrite Hr.
  destruct (negb _); [done|]. destruct (path_taken _ _ _); [done|]. intros [= <- <-]. split; [done|].
  unfold row_of at 1. cbn. by rewrite <-Hs, <-Hc, <-Hi, <-Hid, <-Hi.
Qed.

Lemma sync_store_update_exact old w id changes d0 :
  wd_workspaces d0 !! id = Some (row_of old) → w_id old = id →
  w_id w = w_id old → w_sessionStorage w = w_sessionStorage old → w_createdAt w = w_createdAt old →
  sync (λ d, d = d0) (λ d, d = d0) (store_update id w changes) (λ _ d, d = rewritten changes w d0).
Proof.
  intros Hr Hid Hi Hs Hc. unfold store_update. apply sync_in_database, sync_reporting, sync_transaction; [done|].
  set (d1 := set_workspaces (<[w_id w := row_of w]> (wd_workspaces d0)) d0).
  eapply (sync_bind _ _ _ _ (λ n d, n = 1 ∧ d = d1)).
  { apply sync_run_stmt; [done|]. intros d a d' ->. by apply (updateWorkspace_Ok old). }
  intros n d g [-> ->]. cbn [Z.eqb Pos.eqb negb throw_when].
  eapply (sync_weaken _ _ (λ d, d = d1) _ _ (λ _ d, d = rewritten changes w d0)); [done|done| |done].
  assert (Hw : id = w_id w) by congruence. subst id. rewrite Hw. clear Hw.
  set (d2 := set_mounts (wd_mounts (rewritten changes w d0)) d1).
  eapply (sync_bind _ _ _ _ (λ _ d, d = d1)); [by apply spec_ret|]. intros ?.
  eapply (sync_bind _ _ _ _ (λ _ d, d = d2)).
  { unfold d2, rewritten. cbn [wd_mounts]. destruct (defined_array (ui_mounts changes)).
    - eapply sync_bind; [by apply (sync_modify _ _ _ (λ d, d = sql_deleteMounts (w_id w) d1)); intros d ->|].
      intros ?. apply (sync_insert_mounts_exact (w_id w) (w_mounts w) (sql_deleteMounts (w_id w) d1)).
    - apply spec_ret. intros d' g' ->. done. }
  intros ?. unfold d2, rewritten. cbn [wd_mounts]. destruct (defined_array (ui_enabledHttpTools changes)).
  - eapply sync_bind; [by apply (sync_modify _ _ _ (λ d, d = sql_deleteHttpTools (w_id w) d2)); intros d ->|].
    intros ?. apply (sync_insert_tools_exact (w_id w) (w_enabledHttpTools w) (sql_deleteHttpTools (w_id w) d2)).
  - apply spec_ret. intros d' g' ->. done.
Qed.
End update.

Section update_run.
Context (repo : WorkspaceRepository).

Lemma sync_getStored {B} id (k : Workspace → ws B) d0 Q :
  (∀ w, stored_workspace id d0 = Ok w → sync (λ d, d = d0) (λ d, d = d0) (k w) Q) →
  sync (λ d, d = d0) (λ d, d = d0) (getStored id ≫= k) Q.
Proof.
  intros Hk d g ->. rewrite getStored_bind. destruct (stored_workspace id d0) as [w|e]; [by apply Hk|done].
Qed.

Lemma returns_case {A} (b : bool) (m : ws A) x (φ : A → Prop) :
  (b = true → returns m φ) → returns (if b then m else mret x) (λ y, (b = true → φ y) ∧ (b = false → y = x)).
Proof.
  intros Hm. destruct b; [eapply returns_weaken; [|by apply Hm]|apply returns_ret]; naive_solver.
Qed.

Lemma update_profile_keeps current changes p :
  update_profile repo current changes = Ok p →
  keep_or (ui_securityProfile changes) (w_securityProfile current) validSecurityProfile = Ok p.
Proof. unfold update_profile. intros E. inv_bind E. by injection E as <-. Qed.
Lemma update_network_keeps current changes p n s :
  update_network repo current changes p = Ok (n, s) →
  keep_or (ui_networkPolicy changes) (w_networkPolicy current) validNetworkPolicy = Ok n
  ∧ keep_or (ui_networkPolicySetId changes) (w_networkPolicySetId current) validNetworkPolicySetId = Ok s.
Proof. unfold update_network. intros E. inv_bind E. by injection E as <- <-. Qed.
Lemma kept_set_valid v current s :
  keep_or v current validNetworkPolicySetId = Ok s → isStructurallyValidPolicySetId current = true →
  isStructurallyValidPolicySetId s = true.
Proof.
  unfold keep_or, validNetworkPolicySetId. destruct (defined v); [|by intros [= <-]].
  destruct v; try done. by case_match; [intros [= <-]|].
Qed.

Lemma sync_update_exact d0 id changes :
  wdb_ok d0 →
  sync (λ d, d = d0) (λ d, d = d0) (update_workspace repo id changes)
    (λ s d, ∃ old w, stored_workspace id d0 = Ok old ∧ changed_by repo changes old w ∧ storable_change changes w
       ∧ shows w s ∧ d = rewritten changes w d0).
Proof.
  intros Hok. unfold update_workspace. apply sync_getStored. intros old Hold.
  destruct (stored_workspace_inv id d0 old Hok Hold) as [Hid [Hrow [Hwf Hcount Htool Htools Hset Hdir] _ _]].
  apply sync_quiet_bind; [quiet|]. intros ?.
  apply sync_lifted. intros tools Ht. apply sync_lifted. intros profile Hp%update_profile_keeps.
  apply sync_lifted. intros [network set] [Hn Hs]%update_network_keeps. apply sync_lifted. intros name Hname.
  eapply sync_learn; [quiet|apply (returns_case _ _ _ (λ _, True)); intros; apply returns_any|].
  intros path [_ Hpath].
  eapply sync_learn; [quiet|apply (returns_case _ _ _ (λ ms, mounts_valid repo path ms ∧ (length ms <= MAX_WORKSPACE_MOUNTS)%nat));
    intros _; apply returns_and; [apply returns_validMounts|apply returns_validMounts_count]|].
  intros ms [Hnew Hsame]. cbv zeta. do 3 (apply sync_quiet_bind; [quiet|]; intros ?).
  apply sync_lifted. intros http Hhttp. apply sync_quiet_bind; [quiet|]. intros now.
  match goal with |- context [summary repo ?w] => set (W := w) in * end.
  assert (Hch : changed_by repo changes old W) by (split; cbn; done).
  eapply sync_bind; [apply (sync_store_update_exact old); [by rewrite <-Hid|done|done|done|done]|].
  intros ? d g ->.
  eapply wp_mono; [|by apply (sync_summary repo (λ d, d = d0) (λ d, d = rewritten changes W d0))].
  intros [[s| |e] d'] g'; [|done..]. intros [-> Hshows]. exists old, W. split; [done|]. split; [done|]. split; [|done].
  assert (Hmounts : Forall mount_well_formed ms ∧ (length ms <= MAX_WORKSPACE_MOUNTS)%nat).
  { destruct (defined_array (ui_mounts changes)); [by destruct (Hnew eq_refl) as [(? & _) ?]|by rewrite Hsame]. }
  assert (Hhttps : (∀ t, t ∈ http → http_tool_name t = true) ∧ (length http <= MAX_WORKSPACE_HTTP_TOOLS)%nat).
  { destruct (defined_array (ui_enabledHttpTools changes)); [|by injection Hhttp as <-].
    split; [|by apply validHttpTools_count in Hhttp]. apply validHttpTools_ok in Hhttp as (H & _). intros t Hin. by apply H. }
  split; [split; cbn; try tauto; [by eapply kept_set_valid]|..]; cbn.
  - intros E. by destruct (Hnew E) as [(_ & ? & _) _].
  - intros E. rewrite E in Hhttp. by apply validHttpTools_ok in Hhttp as (_ & ? & ?).
Qed.
End update_run.

(** ** What a deletion does *)

(** A job of the workspace is stored. *)
Definition refers (id : string) (d : wdb) : Prop := ∃ j r, wd_jobs d !! j = Some r ∧ jr_workspace_id r = id.
(** Everything stored of a workspace is gone, and nothing else. *)
Definition without (id : string) (d : wdb) : wdb :=
  MkWdb (delete id (wd_workspaces d)) (other_mounts id (wd_mounts d)) (other_tools id (wd_tools d)) (wd_jobs d) (wd_runs d).

Lemma sql_referencingJob_spec id d : sql_referencingJob id d = true ↔ refers id d.
Proof.
  unfold sql_referencingJob, refers. rewrite existsb_exists. split.
  - intros ([j r] & Hin%list_elem_of_In%elem_of_map_to_list & E%String.eqb_eq). eauto.
  - intros (j & r & Hj & Hr). exists (j, r). split; [by apply list_elem_of_In, elem_of_map_to_list|].
    by apply String.eqb_eq.
Qed.

(** The three ends of a deletion. *)
Inductive deletion (id : string) (d : wdb) : outcome exhausted thrown unit → wdb → Prop :=
| deletion_busy : refers id d → deletion id d (Throw (app_error WORKSPACE_BUSY)) d
| deletion_missing : ¬ refers id d → wd_workspaces d !! id = None → deletion id d (Throw (app_error WORKSPACE_NOT_FOUND)) d
| deletion_done : ¬ refers id d → is_Some (wd_workspaces d !! id) → deletion id d (Next tt) (without id d).

Lemma delete_run id d : ∃ o d', delete_workspace id d = Ret (o, d') ∧ deletion id d o d'.
Proof.
  unfold delete_workspace, in_database, query_db, run_stmt, try_, mbind, stmt_bind, get_. cbn.
  destruct (sql_referencingJob id d) eqn:Eref; cbn.
  { do 2 eexists. split; [done|]. by apply deletion_busy, sql_referencingJob_spec. }
  assert (Href : ¬ refers id d) by (by rewrite <-sql_referencingJob_spec, Eref).
  unfold sql_deleteWorkspace. destruct (wd_workspaces d !! id) as [r|] eqn:Er; cbn.
  - change (existsb _ _) with (sql_referencingJob id d). rewrite Eref. cbn.
    do 2 eexists. split; [done|]. by apply deletion_done; [|rewrite Er].
  - do 2 eexists. split; [done|]. by apply deletion_missing.
Qed.

(** ** Properties *)

(** What is stored of other workspaces, and the jobs, are as they were. *)
Record elsewhere_same (id : string) (d d' : wdb) : Prop := {
  es_rows i : i ≠ id → wd_workspaces d' !! i = wd_workspaces d !! i;
  es_mounts i n : i ≠ id → wd_mounts d' !! (i, n) = wd_mounts d !! (i, n);
  es_tools i t : i ≠ id → (i, t) ∈ wd_tools d' ↔ (i, t) ∈ wd_tools d;
  es_jobs : wd_jobs d' = wd_jobs d ∧ wd_runs d' = wd_runs d;
}.

Lemma add_mounts_other id ms M i n : i ≠ id → add_mounts id ms M !! (i, n) = M !! (i, n).
Proof.
  intros Hi. revert M. induction ms as [|m ms IH]; intros M; [done|].
  change (add_mounts id (m :: ms) M) with (add_mounts id ms (<[(id, wm_name m) := mount_row id m]> M)).
  rewrite IH, lookup_insert_ne; [done|]. congruence.
Qed.
Lemma add_tools_other id ts T i t : i ≠ id → (i, t) ∈ add_tools id ts T ↔ (i, t) ∈ T.
Proof.
  intros Hi. revert T. induction ts as [|u ts IH]; intros T; [done|].
  change (add_tools id (u :: ts) T) with (add_tools id ts ({[(id, u)]} ∪ T)).
  rewrite IH, elem_of_union, elem_of_singleton. intuition congruence.
Qed.
Lemma other_mounts_other id M i n : i ≠ id → other_mounts id M !! (i, n) = M !! (i, n).
Proof.
  intros Hi. apply option_eq. intros m. unfold other_mounts. rewrite map_lookup_filter_Some. cbn. tauto.
Qed.
Lemma other_tools_other id T i t : i ≠ id → (i, t) ∈ other_tools id T ↔ (i, t) ∈ T.
Proof. intros Hi. unfold other_tools. rewrite elem_of_filter. cbn. tauto. Qed.

Lemma stored_in_elsewhere w d : elsewhere_same (w_id w) d (stored_in w d).
Proof.
  split; cbn; [|by intros; apply add_mounts_other|by intros; apply add_tools_other|done].
  intros i Hi. by rewrite lookup_insert_ne.
Qed.
Lemma rewritten_elsewhere changes w d : elsewhere_same (w_id w) d (rewritten changes w d).
Proof.
  split; cbn; [|intros i n Hi|intros i t Hi|done].
  - intros i Hi. by rewrite lookup_insert_ne.
  - destruct (defined_array _); [|done]. rewrite add_mounts_other by done. by apply other_mounts_other.
  - destruct (defined_array _); [|done]. rewrite add_tools_other by done. by apply other_tools_other.
Qed.

(** A run without awaited calls that does what [Q] says, or throws and leaves
    the database as it was. *)
Definition atomic {A} (d : wdb) (Q : A → wdb → Prop)
    (r : outcome exhausted thrown A * wdb * list (event host_answer wdb)) : Prop :=
  let '((o, d'), h) := r in
  match o with Next x => Q x d' | Return _ => False | Throw _ => d' = d end
  ∧ ∀ e, e ∈ h → is_awaited (ev_call e) = false.

Section contracts.
Context (repo : WorkspaceRepository).

(** A creation shows the workspace it stores: a new identifier, the validated
    fields of the input, and rows that read back. *)
Definition created (input : CreateWorkspaceInput) (s : WorkspaceSummary) (d d' : wdb) : Prop :=
  ∃ w, shows w s ∧ taken_from repo input w ∧ wd_workspaces d !! w_id w = None
    ∧ d' = stored_in w d ∧ elsewhere_same (w_id w) d d' ∧ (short_mounts w → reads_as w d').

(** An update shows the workspace it stores in the place of the one it read. *)
Definition updated (id : string) (changes : UpdateWorkspaceInput) (s : WorkspaceSummary) (d d' : wdb) : Prop :=
  ∃ old w, stored_workspace id d = Ok old ∧ w_id old = id ∧ shows w s ∧ changed_by repo changes old w
    ∧ d' = rewritten changes w d ∧ elsewhere_same id d d' ∧ (short_mounts w → reads_as w d').

Lemma creation_runs input env d :
  wdb_ok d → atomic d (λ s d', created input s d d') (run_prog env [] (create_workspace repo input d)).
Proof.
  intros Hok. pose proof (sync_run _ _ _ _ env d (sync_create_exact repo d input) eq_refl) as H.
  unfold atomic. destruct (run_prog env [] _) as [[o d'] h]. destruct H as [H Hh]. split; [|done].
  destruct o as [s| |]; [|done..]. destruct H as (w & [Hst Hin] & Hs & -> & Hid).
  exists w. split_and!; try done; [apply stored_in_elsewhere|by apply reads_back].
Qed.

Lemma update_runs id changes env d :
  wdb_ok d → atomic d (λ s d', updated id changes s d d') (run_prog env [] (update_workspace repo id changes d)).
Proof.
  intros Hok. pose proof (sync_run _ _ _ _ env d (sync_update_exact repo d id changes Hok) eq_refl) as H.
  unfold atomic. destruct (run_prog env [] _) as [[o d'] h]. destruct H as [H Hh]. split; [|done].
  destruct o as [s| |]; [|done..]. destruct H as (old & w & Hold & Hch & Hst & Hs & ->).
  destruct (stored_workspace_inv id d old Hok Hold) as [Hid Hread].
  exists old, w. split_and!; try done; [|by eapply rewritten_reads_as].
  rewrite <-Hid, <-(ch_id _ _ _ _ Hch). apply rewritten_elsewhere.
Qed.
End contracts.

(** C26: In the database that any history of workspace and job operations leaves, each workspace operation does exactly what it says, whatever the file system, the clock and the callbacks answer. No operation awaits anything, so that no other task sees a state in between; one that throws and one that only reads leave the database as it was, and what a mutation leaves is consistent, with the jobs untouched. A creation stores the workspace it shows, with the validated fields of its input, under an identifier that was free; an update stores the workspace it shows in the place of the one it read, with the fields it was given and every other field as it was; both leave other workspaces alone, and what they stored reads back field by field, mounts in the order of their names, as long as the mounts' paths stay within the stored length. A deletion is refused as busy exactly while a job refers to the workspace and as not found when there is none; else it removes its row, mounts and tools and nothing more. *)
Theorem workspace_operations_are_exact `{IntlData} `{Temporal} (history : list store_step)
    (repo : WorkspaceRepository) (env : environment host_answer wdb) :
  let d := fold_left run_step history empty_store in
  (∀ c, atomic d (λ _ d', if is_mutation c then wdb_ok d' ∧ wd_jobs d' = wd_jobs d ∧ wd_runs d' = wd_runs d else d' = d)
     (run_prog env [] (workspace_op repo c d)))
  ∧ (∀ input, atomic d (λ s d', created repo input s d d') (run_prog env [] (create_workspace repo input d)))
  ∧ (∀ id changes, atomic d (λ s d', updated repo id changes s d d') (run_prog env [] (update_workspace repo id changes d)))
  ∧ (∀ id, ∃ o d', run_prog env [] (delete_workspace id d) = ((o, d'), []) ∧ deletion id d o d').
Proof.
  intros d. assert (Hok : wdb_ok d) by apply store_stays_consistent. split_and!.
  - intros c. by apply workspace_op_run.
  - intros input. by apply creation_runs.
  - intros id changes. by apply update_runs.
  - intros id. destruct (delete_run id d) as (o & d' & E & Hdel). exists o, d'. by rewrite E.
Qed.

(** The sample workspace, created, renamed and given other tools, and deleted. *)
Definition sample_history : list store_step :=
  [WorkspaceStep sample.repository (WCreate sample.input) sample.env].
Definition sample_changes : UpdateWorkspaceInput := {|
  ui_name := VStr "Renamed"; ui_path := VUndefined; ui_securityProfile := VUndefined; ui_mounts := ArrUndefined;
  ui_networkPolicy := VUndefined; ui_networkPolicySetId := VUndefined; ui_enabledHttpTools := Arr [VStr "fetch"];
  ui_conversationToolsEnabled := VUndefined; ui_acknowledgeSecurityDowngrade := false;
  ui_acknowledgeNetworkExposure := false; ui_acknowledgeWritableMounts := false |}.

#[local] Existing Instance sample_intl.
#[local] Existing Instance OneChange.utc.
Lemma workspace_operations_are_exact_witness :
  let d := fold_left run_step sample_history empty_store in
  (∃ s d', (run_prog sample.env [] (update_workspace sample.repository "" sample_changes d)).1 = (Next s, d')
     ∧ updated sample.repository "" sample_changes s d d' ∧ ws_name s = "Renamed" ∧ ws_enabledHttpTools s = ["fetch"])
  ∧ deletion "" d (Next tt) (without "" d).
Proof.
  intros d. destruct (workspace_operations_are_exact sample_history sample.repository sample.env) as (_ & _ & Hu & Hd).
  split.
  - specialize (Hu "" sample_changes). fold d in Hu. unfold atomic in Hu.
    assert (E : sample.outcome_value (λ s, (ws_name s, ws_enabledHttpTools s))
      (run_prog sample.env [] (update_workspace sample.repository "" sample_changes d)).1.1 = Some ("Renamed", ["fetch"]))
      by (vm_compute; reflexivity).
    destruct (run_prog _ _ _) as [[o d'] h]. cbn in E. destruct o as [s| |]; [|done..].
    injection E as En Et. exists s, d'. by destruct Hu.
  - destruct (Hd "") as (o & d' & E & Hdel). fold d in E, Hdel.
    assert (E' : (run_prog sample.env [] (delete_workspace "" d)).1.1 = Next tt) by (vm_compute; reflexivity).
    rewrite E in E'. cbn in E'. subst o. inversion Hdel; subst. by constructor.
Defined.
