(* ===== verification/Registry.v ===== *)
(** The conversation registry ([src/server/conversation-registry.ts]): its
    state, the ports it calls and its synchronous parts. Objects the program
    shares and mutates (records, capacity reservations, leases) live in heaps of
    the state and are referred to by number, promises by the task that settles
    them. *)
From S2P Require Import Prelude JsValues Texts Errors Revisions Programs Protocol Tasks Workspaces.
#[local] Open Scope string_scope. #[local] Open Scope Z_scope.

(** ** Functions of the platform the registry uses *)

(** [node:path] and [String.prototype.localeCompare]. *)
Class Platform := {
  isAbsolute : string → bool;
  resolve : string → string;
  dirname : string → string;
  basename : string → string;
  joinPath : string → string → string;
  localeCompare : string → string → Z;
}.

(** ** Data *)

(** src/server/conversation-registry.ts:75-75 ConversationRegistrationSource *)
Inductive ConversationRegistrationSource := SrcCreate | SrcOpen | SrcFork | SrcJob.
#[export] Instance ConversationRegistrationSource_eq : EqDecision ConversationRegistrationSource.
Proof. solve_decision. Defined.

(** [cr_attached]: the runtime's four subscriptions and its normalizer are live. *)
(** src/server/conversation-registry.ts:117-148 ConversationRecord *)
Record ConversationRecord := {
  cr_id : string;
  cr_workspaceId : string;
  cr_workspacePath : string;
  cr_sessionDirectory : option string;
  cr_securityProfile : WorkspaceSecurityProfile;
  cr_networkPolicy : option SandboxNetworkPolicy;
  cr_networkPolicySetId : string;
  cr_effectiveNetworkPolicySetId : option string;
  cr_effectiveHttpTools : list string;
  cr_effectiveConversationTools : list string;
  cr_networkPolicySet : option PolicySet;
  cr_owner : option ConversationOwner;
  cr_runtimeFailureTerminal : bool;
  cr_sessionFile : string;
  cr_cwd : string;
  cr_title : string;
  cr_runtime : nat;
  cr_status : LiveConversationStatus;
  cr_createdAt : Z;
  cr_lastActiveAt : Z;
  cr_revision : Z;
  cr_durable : bool;
  cr_attached : bool;
}.
#[export] Instance spread_record : Spread ConversationRecord := λ r, {|
  cr_id := cr_id r; cr_workspaceId := cr_workspaceId r; cr_workspacePath := cr_workspacePath r;
  cr_sessionDirectory := cr_sessionDirectory r; cr_securityProfile := cr_securityProfile r;
  cr_networkPolicy := cr_networkPolicy r; cr_networkPolicySetId := cr_networkPolicySetId r;
  cr_effectiveNetworkPolicySetId := cr_effectiveNetworkPolicySetId r;
  cr_effectiveHttpTools := cr_effectiveHttpTools r;
  cr_effectiveConversationTools := cr_effectiveConversationTools r;
  cr_networkPolicySet := cr_networkPolicySet r; cr_owner := cr_owner r;
  cr_runtimeFailureTerminal := cr_runtimeFailureTerminal r; cr_sessionFile := cr_sessionFile r;
  cr_cwd := cr_cwd r; cr_title := cr_title r; cr_runtime := cr_runtime r; cr_status := cr_status r;
  cr_createdAt := cr_createdAt r; cr_lastActiveAt := cr_lastActiveAt r; cr_revision := cr_revision r;
  cr_durable := cr_durable r; cr_attached := cr_attached r |}.
#[export] Instance record_inhabited : Inhabited ConversationRecord := populate {|
  cr_id := ""; cr_workspaceId := ""; cr_workspacePath := ""; cr_sessionDirectory := None;
  cr_securityProfile := Unrestricted; cr_networkPolicy := None; cr_networkPolicySetId := "";
  cr_effectiveNetworkPolicySetId := None; cr_effectiveHttpTools := []; cr_effectiveConversationTools := [];
  cr_networkPolicySet := None; cr_owner := None; cr_runtimeFailureTerminal := false; cr_sessionFile := "";
  cr_cwd := ""; cr_title := ""; cr_runtime := O; cr_status := Idle; cr_createdAt := 0; cr_lastActiveAt := 0;
  cr_revision := 0; cr_durable := false; cr_attached := false |}.

(** src/server/conversation-registry.ts:169-169 reason *)
Inductive close_reason := ByClose | ByEvict | ByDispose.
#[export] Instance close_reason_eq : EqDecision close_reason.
Proof. solve_decision. Defined.

(** What an observer receives; a record is passed as it is at that time. *)
(** src/server/conversation-registry.ts:150-174 ConversationRegistryEvent *)
Inductive ConversationRegistryEvent :=
| EvRegistered (source : ConversationRegistrationSource) (record : nat)
| EvConversation (record : nat) (event : ConversationEvent)
| EvReplaced (record : nat)
| EvClosed (record : nat) (reason : close_reason)
| EvStateChanged (record : nat).

(** What the prompt of a job came to. *)
(** src/server/conversation-registry.ts:85-89 JobPromptCompletion *)
Inductive JobPromptCompletion := JpSucceeded | JpFailed | JpAborted | JpRuntimeFailure (error : thrown).

(** The identity of a runtime's session. *)
Record PiRuntimeIdentity := { pi_sessionId : string; pi_sessionFile : string; pi_cwd : string }.
(** The policy a runtime was built with. *)
Record RuntimePolicy := {
  rp_securityProfile : WorkspaceSecurityProfile; rp_networkPolicy : option SandboxNetworkPolicy;
  rp_networkPolicySetId : option string; rp_networkPolicySet : option PolicySet;
  rp_effectiveHttpTools : option (list string); rp_effectiveConversationTools : option (list string);
}.

(** An entry of a session's branch: of a message, its role and text content. *)
Inductive entry_content := ContentText (text : string) | ContentBlocks (texts : list string).
Record SessionEntry := { se_id : string; se_message : bool; se_user : bool; se_content : entry_content }.

(** ** Ports *)

Inductive command :=
(* awaited *)
| Tick
| CreatePersistent (workspace : ConversationWorkspace)
| OpenPersistent (workspace : ConversationWorkspace) (sessionFile : string)
| RuntimeFork (runtime : nat) (entry : string)
| RuntimePrompt (runtime : nat) (text : string)
| PromptPreflight (runtime : nat) (text : string) (images : list ImagePayload) (steer : option bool)
| RuntimeAbort (runtime : nat)
| RuntimeDispose (runtime : nat)
| Realpath (path : string)
| Access (path : string)
| Unlink (path : string)
| RefreshHistory (workspaceId : string)
| ClientDecides
| AwaitTicket (ticket : nat)
| AwaitTask (promise : nat)
| AwaitRecord (promise : nat)
(* synchronous *)
| Now
| Identity (runtime : nat)
| PolicyOf (runtime : nat)
| IsStreaming (runtime : nat)
| SessionName (runtime : nat)
| Branch (runtime : nat)
| HeaderTime (runtime : nat)
| AppendSessionInfo (runtime : nat) (title : string)
| LastAssistant (runtime : nat)
| ValidateImages (runtime : nat) (images : list ImagePayload)
| TeardownComplete (runtime : nat)
| Disposed (runtime : nat)
| Subscribe (runtime : nat)
| Emit (event : ConversationRegistryEvent)
| EmitJobAbort (owner : ConversationOwner)
| ListenerError (error : thrown).

(** How a prompt left its preflight. *)
Inductive preflight := PfAccepted | PfFailed (error : thrown) | PfUnsettled.

(** The results of tasks. *)
Inductive value :=
| VUnit
| VRecord (record : nat)
| VState (state : ConversationRecord)
| VFork (state : ConversationRecord) (editorText : string)
| VCompletion (completion : JobPromptCompletion).

Definition answer (c : command) : Type :=
  match c with
  | Tick => unit
  | CreatePersistent _ | OpenPersistent _ _ => result thrown nat
  | RuntimeFork _ _ => result thrown (bool * option string)
  | RuntimePrompt _ _ | RuntimeAbort _ | RuntimeDispose _ | Access _ | Unlink _ | RefreshHistory _ => result thrown unit
  | PromptPreflight _ _ _ _ => preflight
  | Realpath _ => result thrown string
  | ClientDecides => bool
  | AwaitTicket _ => unit
  | AwaitTask _ => result thrown value
  | AwaitRecord _ => result thrown nat
  | Now => Z
  | Identity _ => result thrown PiRuntimeIdentity
  | PolicyOf _ => RuntimePolicy
  | IsStreaming _ | TeardownComplete _ | Disposed _ => bool
  | SessionName _ => option string
  | Branch _ => list SessionEntry
  | HeaderTime _ => option Z
  | AppendSessionInfo _ _ | ValidateImages _ _ | Subscribe _ => result thrown unit
  | LastAssistant _ => option (option StopReason * bool)
  | Emit _ | EmitJobAbort _ | ListenerError _ => unit
  end.

Definition awaited (c : command) : bool :=
  match c with
  | Tick | CreatePersistent _ | OpenPersistent _ _ | RuntimeFork _ _ | RuntimePrompt _ _ | PromptPreflight _ _ _ _
  | RuntimeAbort _ | RuntimeDispose _ | Realpath _ | Access _ | Unlink _ | RefreshHistory _ | ClientDecides
  | AwaitTicket _ | AwaitTask _ | AwaitRecord _ => true
  | _ => false
  end.

(** ** Tasks *)

(** What the normalizer calls when it handles an event. *)
Inductive normalizer_call := NEmit (payload : event_payload) | NMetadataChanged.

(** The events a runtime delivers to its subscribers, and the microtask the
    normalizer queues at the end of a message. *)
Inductive runtime_event :=
| RtEvent (call : option normalizer_call)
| RtMessageEnd (completed : option event_payload) (userOrAssistant : bool)
| RtReplaced
| RtFatal (error : thrown)
| RtBlocked (payload : NetworkBlockedPayload).

Inductive task :=
(* calls from outside *)
| TCreate (workspace : ConversationWorkspace)
| TOpen (workspace : ConversationWorkspace) (sessionFile : string)
| TJob (workspace : ConversationWorkspace) (owner : ConversationOwner)
| TJobTitle (id : string) (owner : ConversationOwner) (title : string)
| TJobPrompt (id : string) (owner : ConversationOwner) (text : string)
| TJobRelease (id : string) (owner : ConversationOwner)
| TGetState (id : string)
| TRename (id title : string)
| TPrompt (id text : string) (images : list ImagePayload) (steer : option bool)
| TFork (id entry : string) (workspace : ConversationWorkspace)
| TAbort (id : string)
| TClose (id : string)
| TBeginShutdown
| TAbortActive
| TDispose
| TRuntimeEvent (record : nat) (event : runtime_event)
| TCompletionFailed (record : nat) (error : thrown)
(* started by the registry itself *)
| TOpening (workspace : ConversationWorkspace) (canonical : string)
| TAborting (record : nat) (failed : option thrown)
| TDisposing (record : nat) (reason : close_reason)
| TDisposeRest (promises : list nat) (workspaceIds : list string)
| TDisposeRuntime (runtime : nat) (report : bool)
| TRefresh (workspaceId : string).

(** The calls other code makes; the rest only the registry starts. *)
Definition external (t : task) : bool :=
  match t with
  | TOpening _ _ | TAborting _ _ | TDisposing _ _ | TDisposeRest _ _ | TDisposeRuntime _ _ | TRefresh _ => false
  | _ => true
  end.

(** ** State *)

(** src/server/conversation-registry.ts:338-341 state *)
Inductive lease_state := LeaseReserved | LeasePromoted | LeaseReleased.
#[export] Instance lease_state_eq : EqDecision lease_state.
Proof. solve_decision. Defined.

(** [rg_observed]: observers are subscribed. [rg_released]: per capacity
    reservation, its closure's flag. A ticket is the promise of one turn in the
    capacity queue: [rg_tail] is the last one, [rg_unlocked] the resolved ones.
    [rg_stuck] is no part of the program: it would be set if a bounded loop of
    the model ran out of its bound. *)
(** src/server/conversation-registry.ts:315-348 ConversationRegistry *)
Record registry := {
  rg_records : gmap nat ConversationRecord;
  rg_byId : jsmap string nat;
  rg_bySessionFile : jsmap string nat;
  rg_pendingOpens : gmap string nat;
  rg_pendingCloses : gmap nat nat;
  rg_pendingAborts : gmap nat nat;
  rg_forkReservations : gmap nat Z;
  rg_temporary : list nat;
  rg_observed : bool;
  rg_leases : gmap nat (lease_state * nat);
  rg_jobAbortRequested : gset nat;
  rg_capacityReservations : Z;
  rg_released : gmap nat bool;
  rg_tail : nat;
  rg_unlocked : gset nat;
  rg_shuttingDown : bool;
  rg_abortActive : option (list nat);
  rg_disposePromise : option nat;
  rg_ready : gmap nat task;
  rg_settled : gmap nat (result thrown value);
  rg_next : nat;
  rg_stuck : bool;
}.
#[export] Instance spread_registry : Spread registry := λ s, {|
  rg_records := rg_records s; rg_byId := rg_byId s; rg_bySessionFile := rg_bySessionFile s;
  rg_pendingOpens := rg_pendingOpens s; rg_pendingCloses := rg_pendingCloses s;
  rg_pendingAborts := rg_pendingAborts s; rg_forkReservations := rg_forkReservations s;
  rg_temporary := rg_temporary s; rg_observed := rg_observed s; rg_leases := rg_leases s;
  rg_jobAbortRequested := rg_jobAbortRequested s;
  rg_capacityReservations := rg_capacityReservations s; rg_released := rg_released s; rg_tail := rg_tail s;
  rg_unlocked := rg_unlocked s; rg_shuttingDown := rg_shuttingDown s; rg_abortActive := rg_abortActive s;
  rg_disposePromise := rg_disposePromise s; rg_ready := rg_ready s; rg_settled := rg_settled s;
  rg_next := rg_next s; rg_stuck := rg_stuck s |}.

Definition initial_registry : registry := {|
  rg_records := ∅; rg_byId := []; rg_bySessionFile := []; rg_pendingOpens := ∅; rg_pendingCloses := ∅;
  rg_pendingAborts := ∅; rg_forkReservations := ∅; rg_temporary := []; rg_observed := true;
  rg_leases := ∅; rg_jobAbortRequested := ∅;
  rg_capacityReservations := 0; rg_released := ∅; rg_tail := O; rg_unlocked := {[O]}; rg_shuttingDown := false;
  rg_abortActive := None; rg_disposePromise := None; rg_ready := ∅; rg_settled := ∅; rg_next := O;
  rg_stuck := false |}.

(** The answers a call can get: the clock is not negative, a ticket and a
    promise are awaited until resolved. *)
Definition enabled (s : registry) (c : command) : answer c → Prop :=
  match c with
  | Now => λ now, 0 ≤ now
  | AwaitTicket ticket => λ _, ticket ∈ rg_unlocked s
  | AwaitTask promise => λ r, rg_settled s !! promise = Some r
  | AwaitRecord promise => λ r, rg_settled s !! promise = Some (VRecord <$> r)
  | _ => λ _, True
  end.
