(* ===== verification/RegistryTasks.v ===== *)
(** The operations of the conversation registry
    ([src/server/conversation-registry.ts]) as task bodies. Awaiting an async
    method takes at least one turn of the microtask queue ([awaiting]); an async
    function that is only started becomes a ready task. *)
From S2P Require Import Prelude JsValues Texts Errors Revisions Programs Protocol Tasks Workspaces Registry.
#[local] Open Scope string_scope. #[local] Open Scope Z_scope.

Notation reg A := (task_stmt answer registry value thrown A).
Notation await_ := (Tasks.await_ (ans := answer) (S := registry) (V := value) (E := thrown)).
Notation port_ := (Tasks.port_ (ans := answer) (S := registry) (V := value) (E := thrown)).
Notation gets_ := (Tasks.gets_ (ans := answer) (S := registry) (V := value) (E := thrown)).
Notation update_ := (Tasks.update_ (ans := answer) (S := registry) (V := value) (E := thrown)).
Notation throw_ := (Programs.throw_ (ans := at_state (S := registry) answer) (W := registry) (S := registry)
  (R := value) (E := thrown)).
Notation lift_ := (Programs.lift_ (ans := at_state (S := registry) answer) (W := registry) (S := registry)
  (R := value) (E := thrown)).
Notation try_ := (Programs.try_ (ans := at_state (S := registry) answer) (W := registry) (S := registry)
  (R := value) (E := thrown)).
Notation finally_ := (Programs.finally_ (ans := at_state (S := registry) answer) (W := registry) (S := registry)
  (R := value) (E := thrown)).

(** [await this.method(...)] *)
Definition awaiting {A} (m : reg A) : reg A := finally_ m (await_ Tick).
(** An awaited or synchronous call that may throw. *)
Definition await_ok {A} (c : command) (f : answer c → result thrown A) : reg A := r ← await_ c; lift_ (f r).
Definition port_ok {A} (c : command) (f : answer c → result thrown A) : reg A := r ← port_ c; lift_ (f r).
(** [m.catch(() => undefined)] *)
Definition ignoring (m : reg unit) : reg unit := try_ m (λ _, mret tt).
Definition when (b : bool) (m : reg unit) : reg unit := if b then m else mret tt.
Definition throw_when (b : bool) (code : ErrorCode) : reg unit := when b (throw_ (app_error code)).

(** Starting an async function: its promise. *)
Definition spawned (t : task) (s : registry) : registry :=
  s <| rg_ready := <[rg_next s := t]> (rg_ready s) |> <| rg_next := S (rg_next s) |>.
Definition spawn (t : task) : reg nat := p ← gets_ rg_next; update_ (spawned t);; mret p.

(** Records. *)
Definition record_of (s : registry) (r : nat) : ConversationRecord := rg_records s !!! r.
Definition get_record (r : nat) : reg ConversationRecord := gets_ (λ s, record_of s r).
Definition with_record (r : nat) (f : ConversationRecord → ConversationRecord) (s : registry) : registry :=
  s <| rg_records := alter f r (rg_records s) |>.
Definition set_record (r : nat) (f : ConversationRecord → ConversationRecord) : reg unit := update_ (with_record r f).

(** [this.#byId.get(record.id) === record] *)
Definition registered (s : registry) (r : nat) : bool :=
  bool_decide (map_get (cr_id (record_of s r)) (rg_byId s) = Some r).
Definition closing (s : registry) (r : nat) : bool := bool_decide (is_Some (rg_pendingCloses s !! r)).

Section registry.
Context `{Platform} (maxLiveConversations : Z).

(** ** Small parts *)

Definition UNTITLED_CONVERSATION := "Untitled conversation".

(** src/server/conversation-registry.ts:194-215 firstUserText *)
Fixpoint firstUserText (branch : list SessionEntry) : option string :=
  match branch with
  | [] => None
  | entry :: rest =>
      if negb (se_message entry) || negb (se_user entry) then firstUserText rest
      else
        let text := trim (match se_content entry with
          | ContentText text => text
          | ContentBlocks texts => join "010" texts
          end) in
        if String.eqb text "" then firstUserText rest else Some text
  end.

(** src/server/conversation-registry.ts:217-223 titleOf *)
Definition titleOf (runtime : nat) : reg string :=
  name ← port_ (SessionName runtime);
  let named := match name with Some n => trim n | None => "" end in
  if negb (String.eqb named "") then mret named
  else
    branch ← port_ (Branch runtime);
    mret match firstUserText branch with Some text => text | None => UNTITLED_CONVERSATION end.

(** src/server/conversation-registry.ts:225-230 createdAtOf *)
Definition createdAtOf (runtime : nat) (fallback : Z) : reg Z :=
  parsed ← port_ (HeaderTime runtime);
  mret match parsed with Some t => if 0 <=? t then t else fallback | None => fallback end.

(** src/server/conversation-registry.ts:232-238 safeNow *)
Definition safeNow : reg Z :=
  now ← port_ Now;
  if now <? 0 then throw_ (Foreign None "Conversation registry clock must be non-negative") else mret now.

(** src/server/conversation-registry.ts:244-249 sameStrings *)
Definition sameStrings (left right : option (list string)) : bool :=
  bool_decide (default [] left = default [] right).

(** src/server/conversation-registry.ts:276-282 isBusy *)
Definition isBusy (r : nat) : reg bool :=
  record ← get_record r;
  match cr_status record with
  | Streaming | Aborting => mret true
  | _ => port_ (IsStreaming (cr_runtime record))
  end.

(** src/server/conversation-registry.ts:1863-1865 touch *)
Definition touch (r : nat) : reg unit :=
  now ← safeNow; set_record r (λ rec, rec <| cr_lastActiveAt := now |>).

(** src/server/conversation-registry.ts:1867-1875 emit *)
Definition emit (event : ConversationRegistryEvent) : reg unit :=
  observed ← gets_ rg_observed; when observed (port_ (Emit event)).

(** src/server/conversation-registry.ts:1521-1525 assertAcceptingWork *)
Definition assertAcceptingWork : reg unit :=
  shuttingDown ← gets_ rg_shuttingDown; throw_when shuttingDown SHUTTING_DOWN.

(** src/server/conversation-registry.ts:1527-1533 required *)
Definition required (id : string) : reg nat :=
  found ← gets_ (λ s, map_get id (rg_byId s));
  match found with None => throw_ (app_error CONVERSATION_NOT_FOUND) | Some r => mret r end.

(** src/server/conversation-registry.ts:1501-1503 assertInteractiveMutation *)
Definition assertInteractiveMutation (r : nat) : reg unit :=
  record ← get_record r; throw_when (bool_decide (is_Some (cr_owner record))) CONVERSATION_BUSY.

(** src/server/conversation-registry.ts:1473-1482 normalizeOwner *)
Definition normalizeOwner (owner : ConversationOwner) : reg ConversationOwner :=
  let bad s := String.eqb s "" || (512 <? strlen s) in
  throw_when (bad (co_jobId owner) || bad (co_runId owner)) JOB_INVALID;; mret owner.

(** src/server/conversation-registry.ts:1505-1519 requiredOwned *)
Definition requiredOwned (id : string) (ownerInput : ConversationOwner) : reg nat :=
  r ← required id;
  owner ← normalizeOwner ownerInput;
  record ← get_record r;
  pending ← gets_ (λ s, closing s r);
  throw_when (negb (bool_decide (cr_owner record = Some owner)) || pending) JOB_BUSY;;
  mret r.

(** ** Workspace policies *)

(** The pattern [^[a-z0-9](?:[a-z0-9_-]{0,62}[a-z0-9])?$] and the length limit. *)
(** src/shared/protocol.ts:302-303 NETWORK_POLICY_SET_ID_PATTERN *)
Definition policy_set_id_ok (s : string) : bool :=
  let alnum a := is_digit a || ((97 <=? unit_code a) && (unit_code a <=? 122)) in
  let inner a := alnum a || Ascii.eqb a "_" || Ascii.eqb a "-" in
  (strlen s <=? 64) && str_all inner s &&
  match s with
  | EmptyString => false
  | String first _ =>
      alnum first &&
      match String.get (String.length s - 1) s with Some last => alnum last | None => false end
  end.

(** src/server/conversation-registry.ts:1383-1442 normalizePolicy *)
Definition normalizePolicy (policy : ConversationWorkspace) : reg ConversationWorkspace :=
  let networkPolicy := match cw_networkPolicy policy with
    | Some p => Some p
    | None => if bool_decide (cw_securityProfile policy = WorkspaceSandboxed) then Some Isolated else None
    end in
  let networkPolicySetId := default "default" (cw_networkPolicySetId policy) in
  let managed := bool_decide (networkPolicy = Some ManagedEgress) in
  let effective := if managed then cw_effectiveNetworkPolicySetId policy else None in
  let networkPolicySet := if managed then cw_networkPolicySet policy else None in
  throw_when
    (String.eqb (cw_workspaceId policy) "" || negb (isAbsolute (cw_cwd policy))
     || match cw_securityProfile policy with
        | Unrestricted => bool_decide (is_Some networkPolicy)
        | WorkspaceSandboxed => negb (bool_decide (is_Some networkPolicy))
        end
     || negb (policy_set_id_ok networkPolicySetId)
     || (if managed then
           bool_decide (cw_networkPolicySetId policy = None)
           || negb (bool_decide (effective = Some networkPolicySetId))
           || match networkPolicySet with
              | None => true
              | Some set => negb (bool_decide (Some (ps_id set) = effective)) || negb (ps_frozen set)
              end
         else bool_decide (is_Some (cw_effectiveNetworkPolicySetId policy))
              || bool_decide (is_Some (cw_networkPolicySet policy)))
     || (negb (bool_decide (default [] (cw_effectiveConversationTools policy) = []))
         && negb (sameStrings (cw_effectiveConversationTools policy) (Some ["conversation_search"; "conversation_read"])))
     || match cw_sessionDirectory policy with Some d => negb (isAbsolute d) | None => false end)
    WORKSPACE_UNAVAILABLE;;
  mret {|
    cw_workspaceId := cw_workspaceId policy; cw_cwd := resolve (cw_cwd policy);
    cw_sessionDirectory := resolve <$> cw_sessionDirectory policy;
    cw_securityProfile := cw_securityProfile policy; cw_mounts := cw_mounts policy;
    cw_networkPolicy := networkPolicy; cw_networkPolicySetId := Some networkPolicySetId;
    cw_effectiveNetworkPolicySetId := effective; cw_networkPolicySet := networkPolicySet;
    cw_effectiveHttpTools := Some (default [] (cw_effectiveHttpTools policy));
    cw_effectiveConversationTools := Some (default [] (cw_effectiveConversationTools policy)) |}.

(** src/server/conversation-registry.ts:1444-1462 assertWorkspaceOwner *)
Definition assertWorkspaceOwner (r : nat) (workspace : ConversationWorkspace) : reg unit :=
  record ← get_record r;
  throw_when
    (negb (String.eqb (cr_workspaceId record) (cw_workspaceId workspace))
     || negb (String.eqb (cr_workspacePath record) (cw_cwd workspace))
     || negb (bool_decide (cr_sessionDirectory record = cw_sessionDirectory workspace))
     || negb (bool_decide (cr_securityProfile record = cw_securityProfile workspace))
     || negb (bool_decide (cr_networkPolicy record = cw_networkPolicy workspace))
     || negb (bool_decide (Some (cr_networkPolicySetId record) = cw_networkPolicySetId workspace))
     || negb (bool_decide (cr_effectiveNetworkPolicySetId record = cw_effectiveNetworkPolicySetId workspace))
     || negb (bool_decide (ps_object <$> cr_networkPolicySet record = ps_object <$> cw_networkPolicySet workspace))
     || negb (sameStrings (Some (cr_effectiveHttpTools record)) (cw_effectiveHttpTools workspace))
     || negb (sameStrings (Some (cr_effectiveConversationTools record)) (cw_effectiveConversationTools workspace)))
    SESSION_UNAVAILABLE.

(** Whether a runtime was built with another policy than the workspace's. *)
(** src/server/conversation-registry.ts:1270-1277 policyMismatch *)
Definition policy_mismatch (policy : RuntimePolicy) (workspace : ConversationWorkspace) : bool :=
  negb (bool_decide (rp_securityProfile policy = cw_securityProfile workspace))
  || negb (bool_decide (rp_networkPolicy policy = cw_networkPolicy workspace))
  || negb (bool_decide (rp_networkPolicySetId policy = cw_effectiveNetworkPolicySetId workspace))
  || negb (bool_decide (ps_object <$> rp_networkPolicySet policy = ps_object <$> cw_networkPolicySet workspace))
  || negb (sameStrings (rp_effectiveHttpTools policy) (cw_effectiveHttpTools workspace))
  || negb (sameStrings (rp_effectiveConversationTools policy) (cw_effectiveConversationTools workspace)).

(** src/server/conversation-registry.ts:1464-1471 assertIdentityInWorkspace *)
Definition assertIdentityInWorkspace (identity : PiRuntimeIdentity) (cwd : string) : reg unit :=
  throw_when (negb (String.eqb (resolve (pi_cwd identity)) cwd)) SESSION_UNAVAILABLE.

(** ** Runtimes, history and events *)

(** src/server/conversation-registry.ts:1535-1540 disposeRuntime *)
Definition disposeRuntime (runtime : nat) : reg unit :=
  await_ok (RuntimeDispose runtime) id;;
  complete ← port_ (TeardownComplete runtime);
  throw_when (negb complete) INTERNAL_ERROR.

(** src/server/conversation-registry.ts:1696-1702 refreshHistory *)
Definition refreshHistory (workspaceId : string) : reg unit :=
  try_ (await_ok (RefreshHistory workspaceId) id) (λ e, port_ (ListenerError e)).

(** src/server/conversation-registry.ts:1779-1779 emitConversationEvent. The
    revision of the record is the next one. *)
Definition bump (r : nat) : reg unit :=
  record ← get_record r;
  match nextRevision (JInt (cr_revision record)) with
  | Ok n => set_record r (λ rec, rec <| cr_revision := num_val n |>)
  | Err message => throw_ (Foreign None message)
  end.

(** The event with the record's next revision. *)
(** src/server/conversation-registry.ts:1779-1790 emitConversationEvent *)
Definition deliver (r : nat) (payload : event_payload) : reg unit :=
  bump r;;
  touch r;;
  record ← get_record r;
  emit (EvConversation r {| ev_workspaceId := cr_workspaceId record; ev_conversationId := cr_id record;
                            ev_revision := cr_revision record; ev_payload := payload |}).

(** src/server/conversation-registry.ts:1764-1791 emitConversationEvent *)
Definition emitConversationEvent (r : nat) (payload : event_payload) : reg unit :=
  live ← gets_ (λ s, registered s r && negb (closing s r));
  if negb live then mret tt
  else match payload with
  | StatusEvent status =>
      record ← get_record r;
      if cr_runtimeFailureTerminal record && negb (bool_decide (status = InError)) then mret tt
      else
        when (bool_decide (status = InError)) (set_record r (λ rec, rec <| cr_runtimeFailureTerminal := true |>));;
        record ← get_record r;
        if bool_decide (cr_status record = status) then mret tt
        else set_record r (λ rec, rec <| cr_status := status |>);; deliver r payload
  | _ => deliver r payload
  end.

(** src/server/conversation-registry.ts:1848-1861 handleRuntimeFailure *)
Definition handleRuntimeFailure (r : nat) (error : thrown) : reg unit :=
  port_ (ListenerError error);;
  live ← gets_ (λ s, registered s r);
  if negb live then mret tt
  else
    set_record r (λ rec, rec <| cr_runtimeFailureTerminal := true |>);;
    record ← get_record r;
    when (negb (bool_decide (cr_status record = InError))) (emitConversationEvent r (StatusEvent InError));;
    spawn (TDisposeRuntime (cr_runtime record) true);;
    mret tt.

(** Announcing a changed title or durability. *)
Definition changed (r : nat) : reg nat :=
  bump r;;
  emit (EvStateChanged r);;
  record ← get_record r;
  spawn (TRefresh (cr_workspaceId record)).

(** src/server/conversation-registry.ts:1793-1812 messagePersisted *)
Definition messagePersisted (r : nat) (userOrAssistant : bool) : reg unit :=
  live ← gets_ (λ s, registered s r && negb (closing s r));
  if negb live then mret tt
  else
    record ← get_record r;
    title ← titleOf (cr_runtime record);
    let becameDurable := userOrAssistant && negb (cr_durable record) in
    if String.eqb title (cr_title record) && negb becameDurable then mret tt
    else
      set_record r (λ rec, rec <| cr_title := title |>);;
      when becameDurable (set_record r (λ rec, rec <| cr_durable := true |>));;
      changed r;;
      mret tt.

(** src/server/conversation-registry.ts:1814-1824 metadataChanged *)
Definition metadataChanged (r : nat) : reg unit :=
  live ← gets_ (λ s, registered s r && negb (closing s r));
  if negb live then mret tt
  else
    record ← get_record r;
    title ← titleOf (cr_runtime record);
    if String.eqb title (cr_title record) then mret tt
    else set_record r (λ rec, rec <| cr_title := title |>);; changed r;; mret tt.

(** src/server/conversation-registry.ts:1826-1846 handleNetworkBlocked *)
Definition handleNetworkBlocked (r : nat) (payload : NetworkBlockedPayload) : reg unit :=
  record ← get_record r;
  if negb (bool_decide (cr_networkPolicy record = Some ManagedEgress))
  then handleRuntimeFailure r (app_error SESSION_UNAVAILABLE)
  else emitConversationEvent r (NetworkBlocked payload).

(** ** Closing *)

(** [if (m.get(k) === a) m.delete(k)] *)
Definition map_drop (k : string) (a : nat) (m : jsmap string nat) : jsmap string nat :=
  if decide (map_get k m = Some a) then map_delete k m else m.

(** src/server/conversation-registry.ts:1680-1683 closing. The record [r] leaves
    the indexes, where it is the one they hold. *)
Definition unregister (r : nat) (s : registry) : registry :=
  let record := record_of s r in
  s <| rg_byId := map_drop (cr_id record) r (rg_byId s) |>
    <| rg_bySessionFile := map_drop (cr_sessionFile record) r (rg_bySessionFile s) |>.

(** The synchronous part of starting a disposal. *)
Definition start_closing (r : nat) (reason : close_reason) (s : registry) : registry :=
  let promise := rg_next s in
  spawned (TDisposing r reason) (with_record r (λ rec, rec <| cr_attached := false |>) s)
    <| rg_pendingCloses := <[r := promise]> (rg_pendingCloses s) |>.

(** src/server/conversation-registry.ts:1655-1694 disposeRecord. The promise of
    the disposal; its asynchronous part is [closing_body]. *)
Definition disposeRecord (r : nat) (reason : close_reason) : reg nat :=
  existing ← gets_ (λ s, rg_pendingCloses s !! r);
  match existing with
  | Some promise => mret promise
  | None => promise ← gets_ rg_next; update_ (start_closing r reason);; mret promise
  end.

(** src/server/conversation-registry.ts:1662-1691 closing *)
Definition closing_body (r : nat) (reason : close_reason) : reg unit :=
  record ← get_record r;
  error ← try_ (awaiting (disposeRuntime (cr_runtime record));; mret None) (λ e, mret (Some e));
  update_ (unregister r);;
  emit (EvClosed r reason);;
  record ← get_record r;
  when (negb (bool_decide (reason = ByDispose))) (awaiting (refreshHistory (cr_workspaceId record)));;
  match error with Some e => throw_ (toAppError e CtxInternal) | None => mret tt end.

(** [await this.#disposeRecord(...)] *)
Definition dispose_and_wait (r : nat) (reason : close_reason) : reg unit :=
  promise ← disposeRecord r reason; await_ok (AwaitTask promise) id;; mret tt.

(** ** Capacity *)

(** src/server/conversation-registry.ts:1600-1602 hasForkReservation *)
Definition hasForkReservation (r : nat) : reg bool :=
  gets_ (λ s, 0 <? default 0 (rg_forkReservations s !! r)).

(** Whether [record] goes before [candidate] in the order of eviction. *)
(** src/server/conversation-registry.ts:1247-1252 candidate *)
Definition evicted_before (record candidate : ConversationRecord) : bool :=
  (cr_lastActiveAt record <? cr_lastActiveAt candidate)
  || ((cr_lastActiveAt record =? cr_lastActiveAt candidate)
      && ((cr_createdAt record <? cr_createdAt candidate)
          || ((cr_createdAt record =? cr_createdAt candidate)
              && (localeCompare (cr_id record) (cr_id candidate) <? 0)))).

(** src/server/conversation-registry.ts:1232-1258 leastRecentlyUsedIdle *)
Fixpoint leastRecentlyUsedIdle (protectedRecord : option nat) (records : list nat) (candidate : option nat)
    : reg (option nat) :=
  match records with
  | [] => mret candidate
  | r :: rest =>
      record ← get_record r;
      streaming ← (if bool_decide (cr_status record = Idle) then port_ (IsStreaming (cr_runtime record)) else mret false);
      pending ← gets_ (λ s, closing s r);
      forked ← hasForkReservation r;
      if bool_decide (Some r = protectedRecord) || negb (bool_decide (cr_status record = Idle)) || streaming
         || pending || forked
      then leastRecentlyUsedIdle protectedRecord rest candidate
      else
        best ← gets_ (λ s, match candidate with
          | None => r
          | Some c => if evicted_before record (record_of s c) then r else c
          end);
        leastRecentlyUsedIdle protectedRecord rest (Some best)
  end.

(** The loop that evicts until a slot is free, at most [fuel] times. *)
(** src/server/conversation-registry.ts:1209-1218 reserveCapacity *)
Fixpoint make_room (fuel : nat) (protectedRecord : option nat) : reg unit :=
  match fuel with
  | O => update_ (λ s, s <| rg_stuck := true |>)
  | S fuel =>
      full ← gets_ (λ s, maxLiveConversations <=? Z.of_nat (length (rg_byId s)) + rg_capacityReservations s);
      if negb full then mret tt
      else
        records ← gets_ (λ s, map_values (rg_byId s));
        candidate ← leastRecentlyUsedIdle protectedRecord records None;
        match candidate with
        | None => throw_ (app_error LIVE_RUNTIME_LIMIT)
        | Some r => dispose_and_wait r ByEvict;; make_room fuel protectedRecord
        end
  end.

(** A new reservation, and releasing one. *)
Definition add_reservation (s : registry) : registry :=
  s <| rg_capacityReservations := rg_capacityReservations s + 1 |>
    <| rg_released := <[rg_next s := false]> (rg_released s) |> <| rg_next := S (rg_next s) |>.
(** src/server/conversation-registry.ts:1221-1226 reserveCapacity *)
Definition release_reservation (reservation : nat) (s : registry) : registry :=
  if decide (rg_released s !! reservation = Some false)
  then s <| rg_released := <[reservation := true]> (rg_released s) |>
         <| rg_capacityReservations := rg_capacityReservations s - 1 |>
  else s.

Definition take_ticket (s : registry) : registry := s <| rg_tail := S (rg_tail s) |>.
Definition unlock (ticket : nat) (s : registry) : registry := s <| rg_unlocked := {[ticket]} ∪ rg_unlocked s |>.

(** More evictions than this are never needed in one turn. *)
Definition eviction_fuel : nat := S (Z.to_nat maxLiveConversations).

(** src/server/conversation-registry.ts:1195-1230 reserveCapacity. The result
    is the reservation its closure releases. *)
Definition reserveCapacity (protectedRecord : option nat) (validate : reg unit) : reg nat :=
  previous ← gets_ rg_tail;
  update_ take_ticket;;
  await_ (AwaitTicket previous);;
  finally_
    (assertAcceptingWork;; validate;;
     make_room eviction_fuel protectedRecord;;
     reservation ← gets_ rg_next;
     update_ add_reservation;;
     mret reservation)
    (update_ (unlock (S previous))).

(** ** Registration *)

(** src/server/conversation-registry.ts:284-298 unresolvedCanonicalFile *)
Definition unresolvedCanonicalFile (sessionFile : string) : reg string :=
  let absolute := resolve sessionFile in
  try_ (await_ok (Realpath absolute) id) (λ e,
    if negb (bool_decide (errno_of e = Some "ENOENT")) then throw_ e
    else
      canonicalParent ← await_ok (Realpath (dirname absolute)) id;
      mret (joinPath canonicalParent (basename absolute))).

(** src/server/conversation-registry.ts:300-306 canonicalFile *)
Definition canonicalFile (sessionFile : string) : reg string :=
  try_ (unresolvedCanonicalFile sessionFile) (λ e, throw_ (toAppError e (CtxFilesystem TargetSession))).

(** [this.#byId.get(id) ?? this.#bySessionFile.get(file)] *)
Definition live_duplicate (id file : string) (s : registry) : option nat :=
  match map_get id (rg_byId s) with Some r => Some r | None => map_get file (rg_bySessionFile s) end.

(** The record is live already: the new runtime is given up. *)
(** src/server/conversation-registry.ts:1284-1290 register *)
Definition already_live (duplicate runtime : nat) (workspace : ConversationWorkspace)
    (owner : option ConversationOwner) : reg nat :=
  awaiting (disposeRuntime runtime);;
  throw_when (bool_decide (is_Some owner)) SESSION_UNAVAILABLE;;
  assertWorkspaceOwner duplicate workspace;;
  touch duplicate;;
  mret duplicate.

(** The record [r] enters both indexes; a new record enters the heap too. *)
Definition link (id file : string) (r : nat) (s : registry) : registry :=
  s <| rg_byId := map_set id r (rg_byId s) |> <| rg_bySessionFile := map_set file r (rg_bySessionFile s) |>.
Definition add_record (record : ConversationRecord) (s : registry) : registry :=
  let r := rg_next s in
  link (cr_id record) (cr_sessionFile record) r
    (s <| rg_records := <[r := record]> (rg_records s) |> <| rg_next := S r |>).

(** Subscribing to the runtime; a failure takes the record back. *)
(** src/server/conversation-registry.ts:1335-1374 register *)
Definition attach (r runtime : nat) : reg unit :=
  try_
    (port_ok (Subscribe runtime) id;; port_ok (Subscribe runtime) id;;
     port_ok (Subscribe runtime) id;; port_ok (Subscribe runtime) id;;
     set_record r (λ rec, rec <| cr_attached := true |>))
    (λ e, update_ (unregister r);; throw_ e).

(** src/server/conversation-registry.ts:1260-1381 register *)
Definition register (runtime : nat) (workspace : ConversationWorkspace) (source : ConversationRegistrationSource)
    (onRegistered : reg unit) (owner : option ConversationOwner) : reg nat :=
  assertAcceptingWork;;
  identity ← port_ok (Identity runtime) id;
  assertIdentityInWorkspace identity (cw_cwd workspace);;
  policy ← port_ (PolicyOf runtime);
  throw_when (policy_mismatch policy workspace) SESSION_UNAVAILABLE;;
  sessionFile ← awaiting (canonicalFile (pi_sessionFile identity));
  assertAcceptingWork;;
  duplicate ← gets_ (live_duplicate (pi_sessionId identity) sessionFile);
  match duplicate with
  | Some d => already_live d runtime workspace owner
  | None =>
      now ← safeNow;
      policy ← port_ (PolicyOf runtime);
      title ← titleOf runtime;
      streaming ← port_ (IsStreaming runtime);
      createdAt ← createdAtOf runtime now;
      let record := {|
        cr_id := pi_sessionId identity; cr_workspaceId := cw_workspaceId workspace; cr_workspacePath := cw_cwd workspace;
        cr_sessionDirectory := cw_sessionDirectory workspace; cr_securityProfile := cw_securityProfile workspace;
        cr_networkPolicy := cw_networkPolicy workspace;
        cr_networkPolicySetId := default "" (cw_networkPolicySetId workspace);
        cr_effectiveNetworkPolicySetId := cw_effectiveNetworkPolicySetId workspace;
        cr_effectiveHttpTools := default [] (rp_effectiveHttpTools policy);
        cr_effectiveConversationTools := default [] (rp_effectiveConversationTools policy);
        cr_networkPolicySet := cw_networkPolicySet workspace; cr_owner := owner;
        cr_runtimeFailureTerminal := false; cr_sessionFile := sessionFile; cr_cwd := cw_cwd workspace;
        cr_title := title; cr_runtime := runtime; cr_status := if (streaming : bool) then Streaming else Idle;
        cr_createdAt := createdAt; cr_lastActiveAt := now; cr_revision := 0;
        cr_durable := bool_decide (source = SrcOpen); cr_attached := false |} in
      raced ← gets_ (live_duplicate (cr_id record) (cr_sessionFile record));
      match raced with
      | Some d => already_live d runtime workspace owner
      | None =>
          r ← gets_ rg_next;
          update_ (add_record record);;
          attach r runtime;;
          onRegistered;;
          emit (EvRegistered source r);;
          mret r
      end
  end.
End registry.
