(* ===== verification/RegistryOperations.v ===== *)
(** The public operations of the conversation registry and the tasks it starts
    itself ([src/server/conversation-registry.ts]), as the bodies of a task pool. *)
From S2P Require Import Prelude JsValues Texts Errors Revisions Programs Protocol Tasks Workspaces Registry RegistryTasks.
#[local] Open Scope string_scope. #[local] Open Scope Z_scope.

(** src/server/fork-target.ts:4-8 isPiEntryId *)
Definition isPiEntryId (value : string) : bool :=
  (strlen value =? 8) && str_all (λ a, is_digit a || ((97 <=? unit_code a) && (unit_code a <=? 102))) value.

(** src/server/fork-target.ts:15-34 isActiveBranchUserEntry *)
Definition isActiveBranchUserEntry (branch : list SessionEntry) (entryId : string) : bool :=
  isPiEntryId entryId &&
  existsb (λ entry, se_message entry && String.eqb (se_id entry) entryId && se_user entry) branch.

(** src/shared/protocol.ts:64-64 MAX_CONVERSATION_TITLE_LENGTH *)
Definition MAX_CONVERSATION_TITLE_LENGTH := 200.

Section registry.
Context `{Platform} (maxLiveConversations : Z).
Notation reserveCapacity := (reserveCapacity maxLiveConversations).

(** ** Creating and opening *)

(** Giving a reservation back. *)
Definition release (reservation : nat) : reg unit := update_ (release_reservation reservation).

(** What follows a construction: registration, or giving the runtime up. *)
Definition register_or_dispose (runtime : nat) (m : reg nat) : reg nat :=
  try_ (assertAcceptingWork;; m) (λ e, ignoring (awaiting (disposeRuntime runtime));; throw_ e).

(** [record = await register; await this.#refreshHistory(record.workspaceId)] *)
Definition and_refresh (m : reg nat) : reg nat :=
  r ← m; record ← get_record r; awaiting (refreshHistory (cr_workspaceId record));; mret r.

(** src/server/conversation-registry.ts:478-497 create *)
Definition create (workspace : ConversationWorkspace) : reg nat :=
  assertAcceptingWork;;
  ownership ← normalizePolicy workspace;
  reservation ← awaiting (reserveCapacity None (mret tt));
  finally_
    (runtime ← await_ok (CreatePersistent ownership) id;
     register_or_dispose runtime (and_refresh (awaiting (register runtime ownership SrcCreate (mret tt) None))))
    (release reservation).

(** src/server/conversation-registry.ts:1170-1188 openAndRegister *)
Definition openAndRegister (workspace : ConversationWorkspace) (canonical : string) : reg nat :=
  reservation ← awaiting (reserveCapacity None (mret tt));
  finally_
    (runtime ← await_ok (OpenPersistent workspace canonical) id;
     register_or_dispose runtime (awaiting (register runtime workspace SrcOpen (mret tt) None)))
    (release reservation).

(** [if (error.code === SESSION_FILE_MISSING) await refreshHistory; throw error] *)
Definition refresh_if_missing (workspaceId : string) (e : thrown) : reg nat :=
  when (is_app_error SESSION_FILE_MISSING e) (awaiting (refreshHistory workspaceId));; throw_ e.

(** src/server/conversation-registry.ts:499-558 open. The recursive call is a
    task of its own. *)
Definition open (workspace : ConversationWorkspace) (sessionFile : string) : reg nat :=
  assertAcceptingWork;;
  ownership ← normalizePolicy workspace;
  canonical ← try_ (awaiting (canonicalFile sessionFile)) (λ e,
    when (is_app_error SESSION_FILE_MISSING e) (awaiting (refreshHistory (cw_workspaceId ownership)));; throw_ e);
  assertAcceptingWork;;
  existing ← gets_ (λ s, map_get canonical (rg_bySessionFile s));
  match existing with
  | Some r =>
      pending ← gets_ (λ s, rg_pendingCloses s !! r);
      match pending with
      | Some promise =>
          await_ok (AwaitTask promise) id;;
          again ← spawn (TOpen ownership canonical);
          await_ok (AwaitRecord again) id
      | None => assertWorkspaceOwner r ownership;; touch r;; mret r
      end
  | None =>
      pending ← gets_ (λ s, rg_pendingOpens s !! canonical);
      match pending with
      | Some promise =>
          r ← await_ok (AwaitRecord promise) id;
          assertWorkspaceOwner r ownership;; touch r;; mret r
      | None =>
          opening ← spawn (TOpening ownership canonical);
          update_ (λ s, s <| rg_pendingOpens := <[canonical := opening]> (rg_pendingOpens s) |>);;
          finally_
            (try_ (and_refresh (await_ok (AwaitRecord opening) id)) (refresh_if_missing (cw_workspaceId ownership)))
            (update_ (λ s,
               if decide (rg_pendingOpens s !! canonical = Some opening)
               then s <| rg_pendingOpens := delete canonical (rg_pendingOpens s) |> else s))
      end
  end.

(** ** Jobs *)

(** src/server/conversation-registry.ts:1484-1493 settleCapacityLease *)
Definition settleCapacityLease (lease : nat) (state : lease_state) : reg unit :=
  tracked ← gets_ (λ s, rg_leases s !! lease);
  match tracked with
  | None => throw_ (app_error INTERNAL_ERROR)
  | Some (old, reservation) =>
      if negb (bool_decide (old = LeaseReserved)) then mret tt
      else
        update_ (λ s, release_reservation reservation
          (s <| rg_leases := <[lease := (state, reservation)]> (rg_leases s) |>))
  end.

(** src/server/conversation-registry.ts:1495-1499 requireReservedLease *)
Definition requireReservedLease (lease : nat) : reg unit :=
  tracked ← gets_ (λ s, rg_leases s !! lease);
  throw_when (negb (bool_decide (fst <$> tracked = Some LeaseReserved))) LIVE_RUNTIME_LIMIT.

(** src/server/conversation-registry.ts:431-441 reserveRuntimeCapacity. A lease
    is known by its reservation. *)
Definition reserveRuntimeCapacity : reg nat :=
  assertAcceptingWork;;
  reservation ← awaiting (reserveCapacity None (mret tt));
  update_ (λ s, s <| rg_leases := <[reservation := (LeaseReserved, reservation)]> (rg_leases s) |>);;
  mret reservation.

(** src/server/conversation-registry.ts:447-476 createJobConversation *)
Definition createJobConversation (workspace : ConversationWorkspace) (ownerInput : ConversationOwner) (lease : nat)
    : reg nat :=
  assertAcceptingWork;;
  ownership ← normalizePolicy workspace;
  owner ← normalizeOwner ownerInput;
  requireReservedLease lease;;
  let lease_release := settleCapacityLease lease LeaseReleased in
  runtime ← try_ (await_ok (CreatePersistent ownership) id) (λ e, lease_release;; throw_ e);
  try_
    (assertAcceptingWork;;
     and_refresh
       (awaiting (register runtime ownership SrcJob (settleCapacityLease lease LeasePromoted) (Some owner))))
    (λ e,
       lease_release;;
       disposed ← port_ (Disposed runtime);
       when (negb disposed) (ignoring (awaiting (disposeRuntime runtime)));;
       throw_ e).

(** A job run as a client of the registry: it reserves capacity before its
    hooks, creates its conversation with the lease or does without, and releases
    the lease at last in every case. *)
(** src/server/job-runner.ts:302-302 reserveRuntimeCapacity *)
Definition job_client (workspace : ConversationWorkspace) (owner : ConversationOwner) : reg unit :=
  lease ← awaiting reserveRuntimeCapacity;
  finally_
    (go ← await_ ClientDecides;
     when go (awaiting (createJobConversation workspace owner lease);; mret tt))
    (try_ (settleCapacityLease lease LeaseReleased) (λ _, mret tt)).

(** ** Titles and snapshots *)

(** The file of a durable session is gone. *)
(** src/server/conversation-registry.ts:1632-1637 refreshDurability *)
Definition session_lost (r : nat) : reg unit :=
  set_record r (λ rec, rec <| cr_runtimeFailureTerminal := true |>);;
  record ← get_record r;
  if bool_decide (cr_status record = InError) then mret tt
  else set_record r (λ rec, rec <| cr_status := InError |>);; bump r;; emit (EvStateChanged r).

(** src/server/conversation-registry.ts:1617-1653 refreshDurability *)
Definition refreshDurability (r : nat) : reg unit :=
  record ← get_record r;
  exists_ ← try_ (await_ok (Access (cr_sessionFile record)) id;; mret true) (λ e,
    if negb (bool_decide (errno_of e = Some "ENOENT")) then throw_ (toAppError e (CtxFilesystem TargetSession))
    else mret false);
  record ← get_record r;
  if negb exists_ && cr_durable record then
    session_lost r;;
    awaiting (refreshHistory (cr_workspaceId record));;
    throw_ (app_error SESSION_FILE_MISSING)
  else
    currentTitle ← titleOf (cr_runtime record);
    if String.eqb currentTitle (cr_title record) && negb (exists_ && negb (cr_durable record)) then mret tt
    else
      set_record r (λ rec, rec <| cr_title := currentTitle |>);;
      when exists_ (set_record r (λ rec, rec <| cr_durable := true |>));;
      bump r;;
      emit (EvStateChanged r);;
      awaiting (refreshHistory (cr_workspaceId record)).

(** src/server/conversation-registry.ts:561-595 getState. The record's own
    fields; the parts of a snapshot read from the session are not kept. *)
Definition getState (conversationId : string) : reg ConversationRecord :=
  r ← required conversationId;
  pending ← gets_ (λ s, closing s r);
  throw_when pending CONVERSATION_BUSY;;
  awaiting (refreshDurability r);;
  touch r;;
  get_record r.

(** Writing a session's name, and what follows. *)
(** src/server/conversation-registry.ts:617-629 rename *)
Definition write_title (r : nat) (normalized : string) : reg unit :=
  record ← get_record r;
  let previousTitle := cr_title record in
  try_ (port_ok (AppendSessionInfo (cr_runtime record) normalized) id)
    (λ e, throw_ (toAppError e (CtxFilesystem TargetSession)));;
  touch r;;
  awaiting (refreshDurability r);;
  record ← get_record r;
  when (String.eqb (cr_title record) previousTitle) (awaiting (refreshHistory (cr_workspaceId record))).

(** src/server/conversation-registry.ts:598-630 rename *)
Definition rename (conversationId title : string) : reg ConversationRecord :=
  assertAcceptingWork;;
  r ← required conversationId;
  assertInteractiveMutation r;;
  pending ← gets_ (λ s, closing s r);
  throw_when pending CONVERSATION_BUSY;;
  let normalized := trim title in
  throw_when ((strlen normalized =? 0) || (MAX_CONVERSATION_TITLE_LENGTH <? strlen normalized))
    INVALID_CONVERSATION_TITLE;;
  record ← get_record r;
  name ← port_ (SessionName (cr_runtime record));
  if bool_decide (trim <$> name = Some normalized) then awaiting (getState conversationId)
  else write_title r normalized;; awaiting (getState conversationId).

(** src/server/conversation-registry.ts:793-811 setJobConversationTitle *)
Definition setJobConversationTitle (conversationId : string) (owner : ConversationOwner) (title : string) : reg unit :=
  assertAcceptingWork;;
  r ← requiredOwned conversationId owner;
  let normalized := trim title in
  throw_when (strlen normalized =? 0) JOB_INVALID;;
  write_title r normalized.

(** ** Prompts *)

(** What the last finished message of the assistant came to. *)
(** src/server/conversation-registry.ts:841-857 runJobPrompt *)
Definition completion_of (abortRequested terminal : bool) (assistant : option (option StopReason * bool))
    : JobPromptCompletion :=
  let reason := assistant ≫= fst in
  let failed := match assistant with Some (_, e) => e | None => false end in
  if abortRequested || bool_decide (reason = Some StopAborted) then JpAborted
  else if failed || bool_decide (reason = Some StopError) then JpFailed
  else if terminal || bool_decide (assistant = None)
          || (negb (bool_decide (reason = Some StopStop)) && negb (bool_decide (reason = Some StopLength)))
  then JpRuntimeFailure (app_error JOB_PROMPT_FAILED)
  else JpSucceeded.

(** src/server/conversation-registry.ts:817-858 runJobPrompt *)
Definition runJobPrompt (conversationId : string) (owner : ConversationOwner) (text : string) : reg JobPromptCompletion :=
  assertAcceptingWork;;
  r ← requiredOwned conversationId owner;
  record ← get_record r;
  streaming ← (if bool_decide (cr_status record = Idle) then port_ (IsStreaming (cr_runtime record)) else mret false);
  throw_when (negb (bool_decide (cr_status record = Idle)) || streaming || String.eqb (trim text) "") CONVERSATION_BUSY;;
  touch r;;
  failure ← try_ (await_ok (RuntimePrompt (cr_runtime record) text) id;; mret None) (λ e, mret (Some e));
  requested ← gets_ (λ s, bool_decide (r ∈ rg_jobAbortRequested s));
  match failure with
  | Some e => mret (if (requested : bool) then JpAborted else JpRuntimeFailure (toAppError e (CtxPi PModel)))
  | None =>
      assistant ← port_ (LastAssistant (cr_runtime record));
      record ← get_record r;
      mret (completion_of requested (cr_runtimeFailureTerminal record) assistant)
  end.

(** src/server/conversation-registry.ts:861-867 releaseJobConversation *)
Definition releaseJobConversation (conversationId : string) (owner : ConversationOwner) : reg unit :=
  r ← requiredOwned conversationId owner;
  dispose_and_wait r ByClose.

(** src/server/conversation-registry.ts:870-938 prompt *)
Definition prompt (conversationId text : string) (images : list ImagePayload) (steer : option bool) : reg unit :=
  assertAcceptingWork;;
  r ← required conversationId;
  assertInteractiveMutation r;;
  record ← get_record r;
  busy ← (if bool_decide (cr_status record = Streaming) then mret true else port_ (IsStreaming (cr_runtime record)));
  forked ← hasForkReservation r;
  throw_when
    (forked || bool_decide (cr_status record = Aborting) || bool_decide (cr_status record = InError)
     || (if steer then negb busy else negb (bool_decide (cr_status record = Idle)) || busy))
    CONVERSATION_BUSY;;
  throw_when (String.eqb (trim text) "" && bool_decide (images = [])) INVALID_PROMPT;;
  port_ok (ValidateImages (cr_runtime record) images) id;;
  touch r;;
  preflight ← await_ (PromptPreflight (cr_runtime record) text images steer);
  match preflight with
  | PfAccepted => mret tt
  | PfFailed e => throw_ (toAppError e (CtxPi PModel))
  | PfUnsettled => throw_ (app_error MODEL_UNAVAILABLE)
  end.

(** ** Forks *)

(** src/server/conversation-registry.ts:1581-1598 assertForkSource *)
Definition assertForkSource (r : nat) (entryId : string) : reg unit :=
  assertInteractiveMutation r;;
  record ← get_record r;
  streaming ← (if bool_decide (cr_status record = Idle) then port_ (IsStreaming (cr_runtime record)) else mret false);
  pending ← gets_ (λ s, closing s r);
  throw_when (negb (bool_decide (cr_status record = Idle)) || streaming || pending) FORK_SOURCE_BUSY;;
  branch ← port_ (Branch (cr_runtime record));
  throw_when (negb (isActiveBranchUserEntry branch entryId)) INVALID_FORK_TARGET.

(** src/server/conversation-registry.ts:1604-1609 incrementForkReservation *)
Definition incrementForkReservation (r : nat) (s : registry) : registry :=
  s <| rg_forkReservations := <[r := default 0 (rg_forkReservations s !! r) + 1]> (rg_forkReservations s) |>.
(** src/server/conversation-registry.ts:1611-1615 decrementForkReservation *)
Definition decrementForkReservation (r : nat) (s : registry) : registry :=
  let remaining := default 1 (rg_forkReservations s !! r) - 1 in
  s <| rg_forkReservations := if remaining <=? 0 then delete r (rg_forkReservations s)
                              else <[r := remaining]> (rg_forkReservations s) |>.

(** src/server/conversation-registry.ts:101-109 ForkCapacityReservation *)
Record ForkCapacityReservation := {
  fc_record : nat; fc_sourceConversationId : string; fc_sourceSessionFile : string; fc_sourceCwd : string;
  fc_reservation : nat;
}.

(** src/server/conversation-registry.ts:945-985 reserveFork *)
Definition reserveFork (conversationId entryId : string) : reg ForkCapacityReservation :=
  assertAcceptingWork;;
  r ← required conversationId;
  assertForkSource r entryId;;
  update_ (incrementForkReservation r);;
  reservation ← try_ (awaiting (reserveCapacity (Some r) (assertForkSource r entryId)))
    (λ e, update_ (decrementForkReservation r);; throw_ e);
  record ← get_record r;
  mret {| fc_record := r; fc_sourceConversationId := cr_id record; fc_sourceSessionFile := cr_sessionFile record;
          fc_sourceCwd := cr_cwd record; fc_reservation := reservation |}.

(** src/server/conversation-registry.ts:1542-1555 forkFileAfterReplacement *)
Definition forkFileAfterReplacement (runtime : option nat) (sourceConversationId : string) : reg (option string) :=
  match runtime with
  | None => mret None
  | Some runtime =>
      identity ← port_ (Identity runtime);
      mret match identity with
      | Ok i => if String.eqb (pi_sessionId i) sourceConversationId then None else Some (resolve (pi_sessionFile i))
      | Err _ => None
      end
  end.

(** src/server/conversation-registry.ts:1557-1579 cleanupFailedForkFile *)
Definition cleanupFailedForkFile (sessionFile : option string) (sourceSessionFile : string) : reg unit :=
  match sessionFile with
  | None => mret tt
  | Some sessionFile =>
      let candidate := resolve sessionFile in
      live ← gets_ (λ s, map_has candidate (rg_bySessionFile s));
      if String.eqb candidate sourceSessionFile || live then mret tt
      else try_ (await_ok (Unlink candidate) id) (λ e,
        when (negb (bool_decide (errno_of e = Some "ENOENT"))) (port_ (ListenerError e)))
  end.

(** The [catch] block of a fork. *)
(** src/server/conversation-registry.ts:1062-1079 fork *)
Definition fork_failed {A} (reservation : ForkCapacityReservation) (temporary promoted : option nat)
    (forkSessionFile : option string) (e : thrown) : reg A :=
  failedForkFile ← match forkSessionFile with
    | Some f => mret (Some f)
    | None => forkFileAfterReplacement temporary (fc_sourceConversationId reservation)
    end;
  match promoted with
  | None => mret tt
  | Some r => live ← gets_ (λ s, registered s r); when live (ignoring (dispose_and_wait r ByClose))
  end;;
  match temporary with
  | None => mret tt
  | Some runtime =>
      disposed ← port_ (Disposed runtime); when (negb disposed) (ignoring (awaiting (disposeRuntime runtime)))
  end;;
  awaiting (cleanupFailedForkFile failedForkFile (fc_sourceSessionFile reservation));;
  throw_ e.

Definition remember_temporary (runtime : nat) (s : registry) : registry :=
  s <| rg_temporary := if decide (runtime ∈ rg_temporary s) then rg_temporary s else (rg_temporary s ++ [runtime])%list |>.
Definition forget_temporary (runtime : nat) (s : registry) : registry :=
  s <| rg_temporary := filter (λ x, x ≠ runtime) (rg_temporary s) |>.

(** Replacing the temporary runtime's session by the fork: the identity of the
    fork and the text of the entry. *)
(** src/server/conversation-registry.ts:1017-1037 fork *)
Definition replace_by_fork (temporary : nat) (reservation : ForkCapacityReservation) (forkPolicy : ConversationWorkspace)
    (entryId : string) : reg (PiRuntimeIdentity * string) :=
  assertAcceptingWork;;
  policy ← port_ (PolicyOf temporary);
  throw_when (policy_mismatch policy forkPolicy) SESSION_UNAVAILABLE;;
  identity ← port_ok (Identity temporary) id;
  throw_when (negb (String.eqb (resolve (pi_sessionFile identity)) (fc_sourceSessionFile reservation))
              || negb (String.eqb (resolve (pi_cwd identity)) (fc_sourceCwd reservation))) SESSION_UNAVAILABLE;;
  outcome ← await_ok (RuntimeFork temporary entryId) id;
  throw_when (fst outcome) PI_RUNTIME_REPLACE_FAILED;;
  forkIdentity ← port_ok (Identity temporary) id;
  mret (forkIdentity, default "" (snd outcome)).

(** Registering the fork; the temporary runtime is the record's from then on. *)
(** src/server/conversation-registry.ts:1038-1054 fork *)
Definition register_fork (temporary : nat) (reservation : ForkCapacityReservation) (forkPolicy : ConversationWorkspace)
    (forkIdentity : PiRuntimeIdentity) : reg nat :=
  throw_when (String.eqb (pi_sessionId forkIdentity) (fc_sourceConversationId reservation)
              || String.eqb (resolve (pi_sessionFile forkIdentity)) (fc_sourceSessionFile reservation))
    PI_RUNTIME_REPLACE_FAILED;;
  r ← awaiting (register temporary forkPolicy SrcFork (release (fc_reservation reservation)) None);
  record ← get_record r;
  throw_when (negb (bool_decide (cr_runtime record = temporary))) SESSION_UNAVAILABLE;;
  mret r.

(** The [try] and [catch] blocks of a fork. *)
(** src/server/conversation-registry.ts:1011-1079 fork *)
Definition fork_reserved (reservation : ForkCapacityReservation) (entryId : string) (forkPolicy : ConversationWorkspace)
    : reg (ConversationRecord * string) :=
  temporary ← try_ (await_ok (OpenPersistent forkPolicy (fc_sourceSessionFile reservation)) id)
    (fork_failed reservation None None None);
  update_ (remember_temporary temporary);;
  let forget {A} (m : reg A) := finally_ m (update_ (forget_temporary temporary)) in
  '(forkIdentity, editorText) ← try_ (replace_by_fork temporary reservation forkPolicy entryId)
    (λ e, forget (fork_failed reservation (Some temporary) None None e));
  let forkSessionFile := Some (resolve (pi_sessionFile forkIdentity)) in
  r ← try_ (register_fork temporary reservation forkPolicy forkIdentity)
    (λ e, forget (fork_failed reservation (Some temporary) None forkSessionFile e));
  update_ (forget_temporary temporary);;
  try_
    (record ← get_record r;
     conversation ← awaiting (getState (cr_id record));
     record ← get_record r;
     awaiting (refreshHistory (cr_workspaceId record));;
     mret (conversation, editorText))
    (fork_failed reservation None (Some r) forkSessionFile).

(** src/server/conversation-registry.ts:995-1084 fork *)
Definition fork (conversationId entryId : string) (policy : ConversationWorkspace) : reg (ConversationRecord * string) :=
  forkPolicy ← normalizePolicy policy;
  ownedSource ← required conversationId;
  assertWorkspaceOwner ownedSource forkPolicy;;
  reservation ← awaiting (reserveFork conversationId entryId);
  source ← required (fc_sourceConversationId reservation);
  assertWorkspaceOwner source forkPolicy;;
  finally_ (fork_reserved reservation entryId forkPolicy)
    (release (fc_reservation reservation);; update_ (decrementForkReservation (fc_record reservation))).

(** ** Aborting and closing *)

(** src/server/conversation-registry.ts:1099-1121 aborting. [failed]: the first
    status event threw. *)
Definition aborting_body (r : nat) (failed : option thrown) : reg unit :=
  match failed with
  | Some e => throw_ e
  | None =>
      record ← get_record r;
      try_
        (await_ok (RuntimeAbort (cr_runtime record)) id;;
         record ← get_record r;
         when (bool_decide (cr_status record = Aborting)) (emitConversationEvent r (StatusEvent Idle)))
        (λ e, handleRuntimeFailure r e;; throw_ (toAppError e CtxInternal))
  end.

(** src/server/conversation-registry.ts:1087-1131 abort *)
Definition abort (conversationId : string) : reg unit :=
  r ← required conversationId;
  record ← get_record r;
  requested ← gets_ (λ s, bool_decide (r ∈ rg_jobAbortRequested s));
  match cr_owner record with
  | Some owner =>
      when (negb requested)
        (update_ (λ s, s <| rg_jobAbortRequested := {[r]} ∪ rg_jobAbortRequested s |>);;
         observed ← gets_ rg_observed;
         when observed (port_ (EmitJobAbort owner)))
  | None => mret tt
  end;;
  pending ← gets_ (λ s, rg_pendingAborts s !! r);
  match pending with
  | Some promise => await_ok (AwaitTask promise) id;; mret tt
  | None =>
      busy ← isBusy r;
      if negb busy then mret tt
      else
        record ← get_record r;
        failed ← try_
          (when (negb (bool_decide (cr_status record = Aborting))) (emitConversationEvent r (StatusEvent Aborting));;
           mret None) (λ e, mret (Some e));
        promise ← spawn (TAborting r failed);
        update_ (λ s, s <| rg_pendingAborts := <[r := promise]> (rg_pendingAborts s) |>);;
        finally_ (await_ok (AwaitTask promise) id;; mret tt)
          (update_ (λ s,
             if decide (rg_pendingAborts s !! r = Some promise)
             then s <| rg_pendingAborts := delete r (rg_pendingAborts s) |> else s))
  end.

(** src/server/conversation-registry.ts:1134-1141 close *)
Definition close (conversationId : string) : reg unit :=
  r ← required conversationId;
  assertInteractiveMutation r;;
  busy ← isBusy r;
  forked ← hasForkReservation r;
  throw_when (busy || forked) CONVERSATION_BUSY;;
  dispose_and_wait r ByClose.

(** ** Shutting down *)

(** src/server/conversation-registry.ts:417-419 beginShutdown *)
Definition beginShutdown : reg unit := update_ (λ s, s <| rg_shuttingDown := true |>).

(** Starting a task for every element. *)
Fixpoint for_each {A B} (f : A → reg B) (l : list A) : reg (list B) :=
  match l with
  | [] => mret []
  | a :: l => b ← f a; bs ← for_each f l; mret (b :: bs)
  end.
(** [await Promise.allSettled(promises)] *)
Definition all_settled (promises : list nat) : reg unit := for_each (λ p, await_ (AwaitTask p)) promises;; mret tt.

Fixpoint filter_records (p : nat → reg bool) (l : list nat) : reg (list nat) :=
  match l with
  | [] => mret []
  | r :: l => b ← p r; rest ← filter_records p l; mret (if (b : bool) then r :: rest else rest)
  end.

(** src/server/conversation-registry.ts:422-428 abortActive *)
Definition abortActive : reg unit :=
  beginShutdown;;
  started ← gets_ rg_abortActive;
  promises ← match started with
    | Some promises => mret promises
    | None =>
        records ← gets_ (λ s, map_values (rg_byId s));
        busy ← filter_records isBusy records;
        promises ← for_each (λ r, record ← get_record r; spawn (TAbort (cr_id record))) busy;
        update_ (λ s, s <| rg_abortActive := Some promises |>);;
        mret promises
    end;
  all_settled promises.

(** The asynchronous part of [dispose]. *)
(** src/server/conversation-registry.ts:1162-1165 dispose *)
Definition dispose_rest (promises : list nat) (workspaceIds : list string) : reg unit :=
  all_settled promises;;
  for_each (λ workspaceId, awaiting (refreshHistory workspaceId)) workspaceIds;;
  mret tt.

(** src/server/conversation-registry.ts:1144-1168 dispose *)
Definition dispose : reg unit :=
  beginShutdown;;
  started ← gets_ rg_disposePromise;
  promise ← match started with
    | Some promise => mret promise
    | None =>
        records ← gets_ (λ s, map_values (rg_byId s));
        workspaceIds ← gets_ (λ s, unique_items ((λ r, cr_workspaceId (record_of s r)) <$> records));
        disposals ← for_each (λ r, disposeRecord r ByDispose) records;
        runtimes ← gets_ rg_temporary;
        others ← for_each (λ runtime, spawn (TDisposeRuntime runtime false)) runtimes;
        update_ (λ s, s <| rg_temporary := [] |> <| rg_observed := false |>);;
        promise ← spawn (TDisposeRest (disposals ++ others) workspaceIds);
        update_ (λ s, s <| rg_disposePromise := Some promise |>);;
        mret promise
    end;
  await_ok (AwaitTask promise) id;;
  mret tt.

(** ** Runtime events *)

(** The record leaves the indexes, changes its identity and enters them again. *)
(** src/server/conversation-registry.ts:1731-1747 replaceIdentity *)
Definition take_identity (r : nat) (id sessionFile : string) : reg unit :=
  update_ (unregister r);;
  set_record r (λ rec, rec <| cr_id := id |> <| cr_sessionFile := sessionFile |> <| cr_cwd := cr_workspacePath rec |>);;
  record ← get_record r;
  title ← titleOf (cr_runtime record);
  set_record r (λ rec, rec <| cr_title := title |>);;
  bump r;;
  touch r;;
  update_ (link id sessionFile r).

(** src/server/conversation-registry.ts:1704-1750 replaceIdentity *)
Definition replaceIdentity (r : nat) : reg unit :=
  record ← get_record r;
  policy ← port_ (PolicyOf (cr_runtime record));
  if negb (bool_decide (rp_securityProfile policy = cr_securityProfile record))
     || negb (bool_decide (rp_networkPolicy policy = cr_networkPolicy record))
     || negb (bool_decide (rp_networkPolicySetId policy = cr_effectiveNetworkPolicySetId record))
     || negb (bool_decide (ps_object <$> rp_networkPolicySet policy = ps_object <$> cr_networkPolicySet record))
     || negb (sameStrings (rp_effectiveHttpTools policy) (Some (cr_effectiveHttpTools record)))
     || negb (sameStrings (rp_effectiveConversationTools policy) (Some (cr_effectiveConversationTools record)))
  then handleRuntimeFailure r (app_error SESSION_UNAVAILABLE)
  else
    current ← port_ok (Identity (cr_runtime record)) id;
    assertIdentityInWorkspace current (cr_workspacePath record);;
    let sessionFile := resolve (pi_sessionFile current) in
    idOwner ← gets_ (λ s, map_get (pi_sessionId current) (rg_byId s));
    fileOwner ← gets_ (λ s, map_get sessionFile (rg_bySessionFile s));
    let taken owner := match owner with Some o => negb (bool_decide (o = r)) | None => false end in
    if taken idOwner || taken fileOwner then
      set_record r (λ rec, rec <| cr_status := InError |>);; throw_ (app_error SESSION_UNAVAILABLE)
    else
      take_identity r (pi_sessionId current) sessionFile;;
      emit (EvReplaced r);;
      spawn (TRefresh (cr_workspaceId record));;
      mret tt.

(** A runtime's event reaches the registry only while the record is attached. *)
(** src/server/conversation-registry.ts:1337-1358 subscribe *)
Definition runtime_event_body (r : nat) (event : runtime_event) : reg unit :=
  record ← get_record r;
  if negb (cr_attached record) then mret tt
  else match event with
  | RtEvent call =>
      touch r;;
      try_
        match call with
        | None => mret tt
        | Some (NEmit payload) => emitConversationEvent r payload
        | Some NMetadataChanged => metadataChanged r
        end (handleRuntimeFailure r)
  | RtMessageEnd completed userOrAssistant =>
      match completed with Some payload => emitConversationEvent r payload | None => mret tt end;;
      messagePersisted r userOrAssistant
  | RtReplaced => replaceIdentity r
  | RtFatal e => handleRuntimeFailure r e
  | RtBlocked payload => handleNetworkBlocked r payload
  end.

(** ** The pool *)

Definition unit_value (m : reg unit) : reg value := m;; mret VUnit.
Definition record_value (m : reg nat) : reg value := r ← m; mret (VRecord r).
Definition state_value (m : reg ConversationRecord) : reg value := c ← m; mret (VState c).

Definition body (t : task) : reg value :=
  match t with
  | TCreate workspace => record_value (create workspace)
  | TOpen workspace sessionFile => record_value (open workspace sessionFile)
  | TOpening workspace canonical => record_value (openAndRegister workspace canonical)
  | TJob workspace owner => unit_value (job_client workspace owner)
  | TJobTitle id owner title => unit_value (setJobConversationTitle id owner title)
  | TJobPrompt id owner text => c ← runJobPrompt id owner text; mret (VCompletion c)
  | TJobRelease id owner => unit_value (releaseJobConversation id owner)
  | TGetState id => state_value (getState id)
  | TRename id title => state_value (rename id title)
  | TPrompt id text images steer => unit_value (prompt id text images steer)
  | TFork id entry workspace => '(c, text) ← fork id entry workspace; mret (VFork c text)
  | TAbort id => unit_value (abort id)
  | TAborting r failed => unit_value (aborting_body r failed)
  | TClose id => unit_value (close id)
  | TDisposing r reason => unit_value (closing_body r reason)
  | TBeginShutdown => unit_value beginShutdown
  | TAbortActive => unit_value abortActive
  | TDispose => unit_value dispose
  | TDisposeRest promises workspaceIds => unit_value (dispose_rest promises workspaceIds)
  | TDisposeRuntime runtime report =>
      unit_value (try_ (disposeRuntime runtime) (λ e, if report then port_ (ListenerError e) else throw_ e))
  | TRefresh workspaceId => unit_value (refreshHistory workspaceId)
  | TRuntimeEvent r event => unit_value (runtime_event_body r event)
  | TCompletionFailed r error => unit_value (handleRuntimeFailure r error)
  end.

(** A ready task begins; a task that ends settles its promise. *)
Definition unready (promise : nat) (s : registry) : registry := s <| rg_ready := delete promise (rg_ready s) |>.
Definition settled_as (o : outcome value thrown value) : result thrown value :=
  match o with Next v | Return v => Ok v | Throw e => Err e end.
Definition settle (promise : nat) (o : outcome value thrown value) (s : registry) : registry :=
  s <| rg_settled := <[promise := settled_as o]> (rg_settled s) |>.
End registry.
