(* ===== verification/RegistryInvariant.v ===== *)
(** What holds of the conversation registry whenever none of its tasks runs,
    what a task may change in one stretch, and that each change of state the
    operations make keeps to both. A task owns claims while it waits: the
    capacity slot it reserved, and its turn in the capacity queue. *)
From S2P Require Import Prelude JsValues Errors Revisions Programs Protocol Tasks.
From S2P Require Import Registry RegistryTasks RegistryOperations.
#[local] Open Scope string_scope. #[local] Open Scope nat_scope.

(** ** Claims *)

(** [Slot true]: a reserved slot whose runtime is not registered. [Ticket]: a
    turn; its holder bounds the sum of live and reserved runtimes, not counting
    the one it is evicting. *)
Inductive claim := Slot (counts : bool) | Ticket (budget : option (nat * option nat)).
#[export] Instance claim_eq : EqDecision claim.
Proof. solve_decision. Defined.
Notation claims := (gmap (nat + nat) claim).

Definition is_counted (p : (nat + nat) * claim) : Prop := p.2 = Slot true.
#[export] Instance is_counted_dec p : Decision (is_counted p).
Proof. unfold is_counted. apply _. Defined.
Definition counted (X : claims) : nat := size (filter is_counted X).
Definition counts (c : claim) : nat := if decide (c = Slot true) then 1 else 0.

Lemma counted_insert k c X : X !! k = None → counted (<[k := c]> X) = counts c + counted X.
Proof.
  intros Hk. unfold counted, counts. case_decide as E.
  - rewrite map_filter_insert_True by done. rewrite map_size_insert_None; [done|].
    apply map_lookup_filter_None. by left.
  - by rewrite map_filter_insert_False, delete_id.
Qed.

Lemma counted_lookup k c X : X !! k = Some c → counted X = counts c + counted (delete k X).
Proof. intros E. rewrite <-(insert_delete_id X k c E) at 1. apply counted_insert, lookup_delete_eq. Qed.

Lemma counted_update k c c' X : X !! k = Some c → counted (<[k := c']> X) + counts c = counted X + counts c'.
Proof.
  intros E. rewrite (counted_lookup _ _ _ E), <-insert_delete_eq.
  rewrite counted_insert by apply lookup_delete_eq. lia.
Qed.

(** Counted slots have different reservations. *)
Lemma counted_size (X : claims) (R : gmap nat bool) :
  (∀ k, X !! k = Some (Slot true) → ∃ q, k = inl q ∧ is_Some (R !! q)) → counted X ≤ size R.
Proof.
  revert R. induction X as [|k c X Hk IH] using map_ind; intros R HX; [unfold counted; rewrite map_filter_empty, map_size_empty; lia|].
  rewrite counted_insert by done. unfold counts. case_decide as E; cbn.
  - subst c. destruct (HX k (lookup_insert_eq _ _ _)) as (q & -> & Hq).
    assert (counted X ≤ size (delete q R)) as Hle.
    { apply IH. intros k' E'. destruct (HX k') as (q' & -> & Hq'); [by rewrite lookup_insert_ne by congruence|].
      exists q'. split; [done|]. rewrite lookup_delete_ne; [done|]. intros <-. congruence. }
    rewrite map_size_delete_Some in Hle by done. destruct (size R) eqn:Es; [|cbn in Hle; lia].
    apply map_size_empty_inv in Es. subst. by destruct Hq.
  - apply IH. intros k' E'. apply HX. rewrite lookup_insert_ne by congruence. done.
Qed.

(** ** The invariant *)

Definition live (s : registry) (r : nat) : Prop := r ∈ map_values (rg_byId s).
#[export] Instance live_dec s r : Decision (live s r).
Proof. unfold live. apply _. Defined.

(** The unreleased reservations. *)
Definition is_unreleased (p : nat * bool) : Prop := p.2 = false.
#[export] Instance is_unreleased_dec p : Decision (is_unreleased p).
Proof. unfold is_unreleased. apply _. Defined.
Definition unreleased (s : registry) : nat := size (filter is_unreleased (rg_released s)).

(** The two indexes hold the same records, each under its own keys. *)
Record index_ok (s : registry) : Prop := {
  ix_ids : map_ok (rg_byId s);
  ix_files : map_ok (rg_bySessionFile s);
  ix_id id r : map_get id (rg_byId s) = Some r → ∃ rec, rg_records s !! r = Some rec ∧ cr_id rec = id ∧
    map_get (cr_sessionFile rec) (rg_bySessionFile s) = Some r;
  ix_file f r : map_get f (rg_bySessionFile s) = Some r → ∃ rec, rg_records s !! r = Some rec ∧
    cr_sessionFile rec = f ∧ map_get (cr_id rec) (rg_byId s) = Some r;
}.

(** Only live records are attached, but for one whose revision is exhausted. *)
Record record_ok (s : registry) (r : nat) (rec : ConversationRecord) : Prop := {
  rc_fresh : r < rg_next s;
  rc_revision : (0 ≤ cr_revision rec ≤ MAX_SAFE_INTEGER)%Z;
  rc_live : cr_attached rec = true → live s r ∨ cr_revision rec = MAX_SAFE_INTEGER;
  rc_open : cr_attached rec = true → rg_pendingCloses s !! r = None;
}.

(** A terminal failure shows, until the record is closed. *)
Definition terminal_ok (s : registry) (r : nat) (rec : ConversationRecord) : Prop :=
  cr_runtimeFailureTerminal rec = true → cr_status rec = InError ∨ is_Some (rg_pendingCloses s !! r).

(** The promise of a disposal belongs to one record and its task, and settles
    after the record left the indexes. *)
Record tasks_ok (s : registry) : Prop := {
  tk_close r p : rg_pendingCloses s !! r = Some p → r < rg_next s ∧ p < rg_next s ∧
    (is_Some (rg_settled s !! p) → ¬ live s r) ∧ ∀ r', rg_pendingCloses s !! r' = Some p → r' = r;
  tk_ready p t : rg_ready s !! p = Some t → p < rg_next s ∧
    ∀ r, rg_pendingCloses s !! r = Some p ↔ ∃ reason, t = TDisposing r reason;
  tk_settled p : is_Some (rg_settled s !! p) → p < rg_next s;
}.

Definition evictee (s : registry) (e : option nat) : nat :=
  match e with Some r => if decide (live s r) then 1 else 0 | None => 0 end.

Lemma evictee_le s s' e : (∀ r, live s r → live s' r) → evictee s e ≤ evictee s' e.
Proof.
  intros Hl. unfold evictee. destruct e as [r|]; [|done]. destruct (decide (live s r)); [|lia].
  rewrite decide_True; auto.
Qed.

Section invariant.
Context (maxLiveConversations : Z).

(** Live runtimes and reserved slots of unregistered ones stay within the limit. *)
Record capacity_ok (s : registry) (X : claims) : Prop := {
  cp_limit : length (rg_byId s) + counted X ≤ Z.to_nat maxLiveConversations;
  cp_reservations : rg_capacityReservations s = Z.of_nat (unreleased s);
  cp_released reservation : is_Some (rg_released s !! reservation) → reservation < rg_next s;
  cp_slots reservation c : X !! inl reservation = Some c →
    rg_released s !! reservation = Some false ∧ ∃ b, c = Slot b;
  cp_leases lease state reservation : rg_leases s !! lease = Some (state, reservation) →
    reservation = lease ∧ lease < rg_next s ∧ (rg_released s !! lease = Some false → state = LeaseReserved);
}.

(** The queue: the tickets up to [k] are unlocked, every later one is owned, and
    only the next one's owner is at work. *)
Record queue_ok (s : registry) (X : claims) : Prop := {
  qu_tickets : ∃ k, k ≤ rg_tail s ∧ (∀ t, t ∈ rg_unlocked s ↔ t ≤ k) ∧
    (∀ t, is_Some (X !! inr t) ↔ k < t ≤ rg_tail s) ∧
    ∀ t c, X !! inr t = Some c → ∃ b, c = Ticket b ∧ (is_Some b → t = S k);
  qu_budget t b e : X !! inr t = Some (Ticket (Some (b, e))) →
    length (rg_byId s) + counted X ≤ b + evictee s e ∧ ∀ r, e = Some r → is_Some (rg_pendingCloses s !! r);
}.

(** The invariant, of which [x] may be a record whose terminal failure does not
    show yet. *)
Record inv_but (x : option nat) (s : registry) (X : claims) : Prop := {
  in_index : index_ok s;
  in_records r rec : rg_records s !! r = Some rec → record_ok s r rec;
  in_terminal r rec : rg_records s !! r = Some rec → x ≠ Some r → terminal_ok s r rec;
  in_tasks : tasks_ok s;
  in_capacity : capacity_ok s X;
  in_queue : queue_ok s X;
  in_stuck : rg_stuck s = false;
}.
Definition inv := inv_but None.

(** ** What one stretch of a task may change *)

(** What is fixed about a record, and what only grows. *)
Record record_later (rec rec' : ConversationRecord) : Prop := {
  rl_workspace : cr_workspaceId rec' = cr_workspaceId rec ∧ cr_workspacePath rec' = cr_workspacePath rec;
  rl_profile : cr_securityProfile rec' = cr_securityProfile rec ∧ cr_networkPolicySet rec' = cr_networkPolicySet rec;
  rl_owner : cr_owner rec' = cr_owner rec;
  rl_runtime : cr_runtime rec' = cr_runtime rec;
  rl_revision : (cr_revision rec ≤ cr_revision rec')%Z;
  rl_terminal : cr_runtimeFailureTerminal rec = true → cr_runtimeFailureTerminal rec' = true;
  rl_durable : cr_durable rec = true → cr_durable rec' = true;
}.

Record guar (s s' : registry) : Prop := {
  gu_shutdown : rg_shuttingDown s = true → rg_shuttingDown s' = true;
  gu_next : rg_next s ≤ rg_next s';
  gu_records r rec : rg_records s !! r = Some rec → ∃ rec', rg_records s' !! r = Some rec' ∧ record_later rec rec';
  gu_live r : live s' r → live s r ∨ (rg_next s ≤ r ∧ rg_shuttingDown s = false);
  gu_closes r p : rg_pendingCloses s !! r = Some p → rg_pendingCloses s' !! r = Some p;
  gu_fresh r p : rg_pendingCloses s' !! r = Some p → rg_pendingCloses s !! r = Some p ∨ rg_next s ≤ p;
  gu_released reservation : rg_released s !! reservation = Some true → rg_released s' !! reservation = Some true;
  gu_unlocked t : t ∈ rg_unlocked s → t ∈ rg_unlocked s';
}.

#[export] Instance record_later_preorder : PreOrder record_later.
Proof.
  split.
  - intros rec. constructor; auto; lia.
  - intros r1 r2 r3 [] []. destruct_and?. constructor; split_and?; auto; try congruence; lia.
Qed.

#[export] Instance guar_preorder : PreOrder guar.
Proof.
  split.
  - intros s. constructor; auto; try lia. intros r rec Hr. exists rec. split; [done|reflexivity].
  - intros s1 s2 s3 H1 H2. constructor.
    + intros. by apply H2, H1.
    + pose proof (gu_next _ _ H1). pose proof (gu_next _ _ H2). lia.
    + intros r rec Hr. destruct (gu_records _ _ H1 r rec Hr) as (rec2 & Hr2 & L1).
      destruct (gu_records _ _ H2 r rec2 Hr2) as (rec3 & Hr3 & L2). exists rec3. split; [done|]. by etrans.
    + intros r Hr. destruct (gu_live _ _ H2 r Hr) as [Hl|[Hn Hs]]; [by apply H1|]. right.
      pose proof (gu_next _ _ H1). split; [lia|]. destruct (rg_shuttingDown s1) eqn:E; [|done].
      by rewrite (gu_shutdown _ _ H1 E) in Hs.
    + intros. by apply H2, H1.
    + intros r p Hp. destruct (gu_fresh _ _ H2 r p Hp) as [Hp'|Hn]; [by apply H1|]. right.
      pose proof (gu_next _ _ H1). lia.
    + intros. by apply H2, H1.
    + intros. by apply H2, H1.
Qed.

(** Changes of the parts the invariant says nothing about. *)
Lemma guar_same s s' :
  rg_shuttingDown s' = rg_shuttingDown s ∨ rg_shuttingDown s' = true →
  rg_next s ≤ rg_next s' → rg_records s' = rg_records s → rg_byId s' = rg_byId s →
  rg_pendingCloses s' = rg_pendingCloses s → rg_released s' = rg_released s → rg_unlocked s ⊆ rg_unlocked s' → guar s s'.
Proof.
  intros Hs Hn Hr Hb Hc Hf Hu. constructor; unfold live; rewrite ?Hr, ?Hb, ?Hc, ?Hf; auto.
  - intros E. destruct Hs as [->|]; done.
  - intros r rec E. exists rec. split; [done|reflexivity].
Qed.

(** ** Live records *)

Lemma live_get s r : index_ok s → live s r ↔ ∃ id, map_get id (rg_byId s) = Some r.
Proof.
  intros Hi. unfold live, map_values. rewrite list_elem_of_fmap. split.
  - intros ([id r'] & -> & Hin). exists id. apply map_get_in; [apply Hi|done].
  - intros [id Hg%map_get_in]; [|apply Hi]. by exists (id, r).
Qed.

Lemma record_of_lookup s r rec : rg_records s !! r = Some rec → record_of s r = rec.
Proof. intros E. unfold record_of. by rewrite lookup_total_alt, E. Qed.

Lemma live_record s r : index_ok s → live s r → ∃ rec, rg_records s !! r = Some rec ∧
  map_get (cr_id rec) (rg_byId s) = Some r ∧ map_get (cr_sessionFile rec) (rg_bySessionFile s) = Some r.
Proof.
  intros Hi [id Hg]%live_get; [|done]. destruct (ix_id _ Hi _ _ Hg) as (rec & Hr & <- & Hf). by exists rec.
Qed.

Lemma registered_live s r : index_ok s → registered s r = true ↔ live s r.
Proof.
  intros Hi. unfold registered. rewrite bool_decide_eq_true. split.
  - intros Hg. apply live_get; [done|]. by eexists.
  - intros Hl. destruct (live_record _ _ Hi Hl) as (rec & Hr & Hg & _). by rewrite (record_of_lookup _ _ _ Hr).
Qed.

(** ** Changing a record *)

Lemma record_ok_same s s' r rec :
  rg_next s ≤ rg_next s' → (live s r → live s' r) → rg_pendingCloses s' !! r = rg_pendingCloses s !! r →
  record_ok s r rec → record_ok s' r rec.
Proof.
  intros Hn Hl Hc [Hfr Hrev Hlive Hopen]. constructor; [lia|done| |by rewrite Hc].
  intros Ha. destruct (Hlive Ha); auto.
Qed.

Lemma lookup_with_record s r f r' rec : rg_records (with_record r f s) !! r' = Some rec →
  (r' ≠ r ∧ rg_records s !! r' = Some rec) ∨ (r' = r ∧ ∃ rec0, rg_records s !! r = Some rec0 ∧ rec = f rec0).
Proof. cbn. intros Hl. apply lookup_alter_Some in Hl. naive_solver. Qed.

Lemma record_of_with r f s r' :
  record_of (with_record r f s) r' = if decide (r' = r ∧ is_Some (rg_records s !! r)) then f (record_of s r') else record_of s r'.
Proof.
  unfold record_of. cbn. rewrite !lookup_total_alt. case_decide as E.
  - destruct E as [-> [rec Er]]. by rewrite lookup_alter_eq, Er.
  - destruct (decide (r' = r)) as [->|]; [|by rewrite lookup_alter_ne]. rewrite lookup_alter_eq.
    destruct (rg_records s !! r) eqn:Er; [|done]. destruct E. split; [done|by eexists].
Qed.

Lemma registered_with r f s r' :
  (∀ rec, cr_id (f rec) = cr_id rec) → registered (with_record r f s) r' = registered s r'.
Proof. intros Hf. unfold registered. rewrite record_of_with. by case_decide; rewrite ?Hf. Qed.

Lemma index_set_record r f s :
  (∀ rec, rg_records s !! r = Some rec → cr_id (f rec) = cr_id rec ∧ cr_sessionFile (f rec) = cr_sessionFile rec) →
  index_ok s → index_ok (with_record r f s).
Proof.
  intros Hf Hi. pose proof (ix_id _ Hi) as Hid. pose proof (ix_file _ Hi) as Hfile.
  assert (Hlook : ∀ r' rec, rg_records s !! r' = Some rec → ∃ rec', rg_records (with_record r f s) !! r' = Some rec' ∧
    cr_id rec' = cr_id rec ∧ cr_sessionFile rec' = cr_sessionFile rec).
  { intros r' rec E. cbn. destruct (decide (r' = r)) as [->|].
    - rewrite lookup_alter_eq, E. cbn. eexists. split; [done|]. auto.
    - rewrite lookup_alter_ne by done. by exists rec. }
  constructor; [apply Hi|apply Hi|..]; intros k r' Hg; cbn in Hg.
  - destruct (Hid _ _ Hg) as (rec & Hr & <- & Hs). destruct (Hlook _ _ Hr) as (rec' & Hr' & E1 & E2).
    exists rec'. by rewrite E1, E2.
  - destruct (Hfile _ _ Hg) as (rec & Hr & <- & Hs). destruct (Hlook _ _ Hr) as (rec' & Hr' & E1 & E2).
    exists rec'. by rewrite E1, E2.
Qed.

Lemma inv_set_record x r f s X :
  (∀ rec, rg_records s !! r = Some rec → record_ok s r rec → cr_id (f rec) = cr_id rec ∧
    cr_sessionFile (f rec) = cr_sessionFile rec ∧ record_ok s r (f rec) ∧
    (x ≠ Some r → terminal_ok s r rec → terminal_ok s r (f rec))) →
  inv_but x s X → inv_but x (with_record r f s) X.
Proof.
  intros Hf HI. pose proof (in_records _ _ _ HI) as Hrec. pose proof (in_terminal _ _ _ HI) as Hterm.
  constructor; try apply HI.
  - apply index_set_record; [|apply HI]. intros rec E. destruct (Hf rec E (Hrec _ _ E)) as (? & ? & _). done.
  - intros r' rec [[Hn E]|(-> & rec0 & E & ->)]%lookup_with_record; [eapply record_ok_same, (Hrec _ _ E); auto|].
    eapply record_ok_same, Hf, Hrec; auto.
  - intros r' rec [[Hn E]|(-> & rec0 & E & ->)]%lookup_with_record Hx; [exact (Hterm _ _ E Hx)|].
    apply Hf; auto.
  - destruct (in_tasks _ _ _ HI). by constructor.
  - destruct (in_capacity _ _ _ HI). by constructor.
  - destruct (in_queue _ _ _ HI). by constructor.
Qed.

Lemma guar_set_record r f s :
  (∀ rec, rg_records s !! r = Some rec → record_later rec (f rec)) → guar s (with_record r f s).
Proof.
  intros Hf. constructor; auto. intros r' rec E. cbn. destruct (decide (r' = r)) as [->|].
  - rewrite lookup_alter_eq, E. cbn. eexists. split; [done|]. by apply Hf.
  - rewrite lookup_alter_ne by done. exists rec. split; [done|reflexivity].
Qed.

Lemma inv_weaken x s X : inv s X → inv_but x s X.
Proof. intros HI. constructor; try apply HI. intros r rec E _. by apply (in_terminal _ _ _ HI _ _ E). Qed.

Lemma inv_restore r s X :
  inv_but (Some r) s X → (∀ rec, rg_records s !! r = Some rec → terminal_ok s r rec) → inv s X.
Proof.
  intros HI Ht. constructor; try apply HI. intros r' rec E _. destruct (decide (r' = r)) as [->|]; [by apply Ht|].
  apply (in_terminal _ _ _ HI _ _ E). congruence.
Qed.

(** ** Tasks *)

Lemma capacity_same s s' X :
  rg_next s ≤ rg_next s' → rg_byId s' = rg_byId s → rg_capacityReservations s' = rg_capacityReservations s →
  rg_released s' = rg_released s → rg_leases s' = rg_leases s → capacity_ok s X → capacity_ok s' X.
Proof.
  intros Hn Hb Hc Hf Hl []. constructor; unfold unreleased; rewrite ?Hb, ?Hc, ?Hf, ?Hl; auto.
  - intros q Hq%cp_released0. lia.
  - intros l st q E. destruct (cp_leases0 _ _ _ E) as (? & ? & ?). auto with lia.
Qed.

(** Whatever the invariant speaks of is the same. *)
Lemma inv_same x s s' X :
  rg_records s' = rg_records s → rg_byId s' = rg_byId s → rg_bySessionFile s' = rg_bySessionFile s →
  rg_pendingCloses s' = rg_pendingCloses s → rg_ready s' = rg_ready s → rg_settled s' = rg_settled s →
  rg_next s' = rg_next s → rg_capacityReservations s' = rg_capacityReservations s →
  rg_released s' = rg_released s → rg_leases s' = rg_leases s → rg_tail s' = rg_tail s →
  rg_unlocked s' = rg_unlocked s → rg_stuck s' = rg_stuck s → inv_but x s X → inv_but x s' X.
Proof.
  destruct s, s'; cbn. intros -> -> -> -> -> -> -> -> -> -> -> -> -> [[] Hr Ht [] [] [] ?].
  constructor; [by constructor| |exact Ht|by constructor..|done].
  intros r rec E. destruct (Hr r rec E). by constructor.
Qed.

Lemma index_same s s' :
  rg_records s' = rg_records s → rg_byId s' = rg_byId s → rg_bySessionFile s' = rg_bySessionFile s →
  index_ok s → index_ok s'.
Proof. destruct s, s'; cbn. intros -> -> -> []. by constructor. Qed.

Lemma inv_spawned x t s X :
  (∀ r reason, t ≠ TDisposing r reason) → inv_but x s X → inv_but x (spawned t s) X.
Proof.
  intros Ht [Hi Hr Hterm [Hc Hrd Hs] Hcap [] ?]. constructor; [by apply (index_same s)| |exact Hterm|..].
  - intros r rec E. eapply record_ok_same, Hr; [cbn; lia|auto..].
  - constructor; cbn.
    + intros r p Hp. destruct (Hc r p Hp) as (? & ? & ? & ?). split_and!; auto with lia.
    + intros p t' [[<- <-]|[Hn E]]%lookup_insert_Some.
      * split; [lia|]. intros r. split; [|naive_solver]. intros Hp. destruct (Hc _ _ Hp). lia.
      * destruct (Hrd _ _ E). auto with lia.
    + intros p Hp. specialize (Hs p Hp). lia.
  - apply (capacity_same s); cbn; auto with lia.
  - by constructor.
  - done.
Qed.

Lemma guar_spawned t s : guar s (spawned t s).
Proof. apply guar_same; cbn; auto. Qed.

Lemma inv_unready x p s X : inv_but x s X → inv_but x (unready p s) X.
Proof.
  intros [Hi Hr Hterm [Hc Hrd Hs] [] [] ?]. constructor; [by apply (index_same s)| |exact Hterm|..].
  - intros r rec E. eapply record_ok_same, Hr; auto.
  - constructor; [exact Hc| |exact Hs]. cbn. intros q t [_ E]%lookup_delete_Some. by apply Hrd.
  - by constructor.
  - by constructor.
  - done.
Qed.

Lemma inv_settle x p o s X :
  p < rg_next s → (∀ r, rg_pendingCloses s !! r = Some p → ¬ live s r) →
  inv_but x s X → inv_but x (settle p o s) X.
Proof.
  intros Hp Hdead [Hi Hr Hterm [Hc Hrd Hs] [] [] ?]. constructor; [by apply (index_same s)| |exact Hterm|..].
  - intros r rec E. eapply record_ok_same, Hr; auto.
  - constructor; [|exact Hrd|]; cbn.
    + intros r q Hq. destruct (Hc r q Hq) as (? & ? & Hold & ?). split_and!; auto.
      destruct (decide (q = p)) as [->|]; [by intros _; apply Hdead|]. by rewrite lookup_insert_ne.
    + intros q. destruct (decide (q = p)) as [->|]; [done|]. rewrite lookup_insert_ne by done. apply Hs.
  - by constructor.
  - by constructor.
  - done.
Qed.

Lemma guar_settle p o s : guar s (settle p o s).
Proof. apply guar_same; cbn; auto. Qed.

(** ** Closing *)

Lemma index_start_closing r reason s : index_ok s → index_ok (start_closing r reason s).
Proof.
  intros Hi. eapply (index_same (with_record r (λ rec, rec <| cr_attached := false |>) s)); [done..|].
  by apply index_set_record.
Qed.

Lemma inv_start_closing x r reason s X :
  r < rg_next s → rg_pendingCloses s !! r = None → inv_but x s X → inv_but x (start_closing r reason s) X.
Proof.
  intros Hfresh Hnone HI. pose proof (in_tasks _ _ _ HI) as [Hc Hrd Hs].
  pose proof (in_records _ _ _ HI) as Hrec. pose proof (in_terminal _ _ _ HI) as Hterm.
  constructor.
  - apply index_start_closing, HI.
  - intros r' rec. change (rg_records (start_closing r reason s))
      with (rg_records (with_record r (λ rec, rec <| cr_attached := false |>) s)).
    intros [[Hn E]|(-> & rec0 & E & ->)]%lookup_with_record.
    + eapply record_ok_same, Hrec; [cbn; lia|done| |done]. cbn. by rewrite lookup_insert_ne.
    + destruct (Hrec _ _ E). constructor; cbn; [lia|done..].
  - intros r' rec. change (rg_records (start_closing r reason s))
      with (rg_records (with_record r (λ rec, rec <| cr_attached := false |>) s)).
    intros [[Hn E]|(-> & rec0 & E & ->)]%lookup_with_record Hx Ht; cbn.
    + rewrite lookup_insert_ne by done. by apply (Hterm _ _ E).
    + rewrite lookup_insert_eq. auto.
  - constructor; cbn.
    + intros r' p [[<- <-]|[Hn E]]%lookup_insert_Some.
      * split_and!; [lia|lia| |].
        -- intros [v Hv]. specialize (Hs _ (mk_is_Some _ _ Hv)). lia.
        -- intros r' [[<- _]|[_ E]]%lookup_insert_Some; [done|]. destruct (Hc _ _ E). lia.
      * destruct (Hc _ _ E) as (? & ? & ? & Hinj). split_and!; [lia|lia|done|].
        intros r2 [[<- <-]|[_ E2]]%lookup_insert_Some; [lia|]. by apply Hinj.
    + intros p t [[<- <-]|[Hn E]]%lookup_insert_Some.
      * split; [lia|]. intros r'. split.
        -- intros [[<- _]|[_ E]]%lookup_insert_Some; [by eexists|]. destruct (Hc _ _ E). lia.
        -- intros [reason' [= <- <-]]. by rewrite lookup_insert_eq.
      * destruct (Hrd _ _ E) as [Hp Hiff]. split; [lia|]. intros r'. rewrite <-Hiff.
        rewrite lookup_insert_Some. split; [|intros E'; right; split; [congruence|done]].
        intros [[_ ?]|[_ ?]]; [lia|done].
    + intros p Hp. specialize (Hs p Hp). lia.
  - apply (capacity_same s); cbn; auto with lia. apply HI.
  - destruct (in_queue _ _ _ HI) as [Ht Hb]. constructor; [exact Ht|]. cbn. intros t b e E.
    destruct (Hb _ _ _ E) as [Hle He]. split; [done|]. intros r' ->. specialize (He r' eq_refl).
    destruct (decide (r' = r)) as [->|]; [by rewrite lookup_insert_eq|]. by rewrite lookup_insert_ne.
  - apply HI.
Qed.

Lemma guar_start_closing r reason s :
  rg_pendingCloses s !! r = None → guar s (start_closing r reason s).
Proof.
  intros Hnone. pose proof (guar_set_record r (λ rec, rec <| cr_attached := false |>) s) as [].
  { intros rec _. by constructor. }
  constructor; cbn in *; auto.
  - intros r' p E. rewrite lookup_insert_ne; [done|]. congruence.
  - intros r' p [[<- <-]|[_ E]]%lookup_insert_Some; auto.
Qed.

(** ** The indexes *)

Lemma map_get_drop k a m k' : map_ok m →
  map_get k' (map_drop k a m) = if decide (k' = k ∧ map_get k m = Some a) then None else map_get k' m.
Proof.
  intros Hm. unfold map_drop. destruct (decide (map_get k m = Some a)) as [E|E].
  - rewrite map_get_delete by done. repeat case_decide; naive_solver.
  - rewrite decide_False; [done|naive_solver].
Qed.
Lemma map_ok_drop k a m : map_ok m → map_ok (map_drop k a m).
Proof. unfold map_drop. case_decide; [apply map_ok_delete|done]. Qed.

Lemma index_unregister r s : index_ok s → index_ok (unregister r s).
Proof.
  intros Hi. pose proof (ix_ids _ Hi) as Hids. pose proof (ix_files _ Hi) as Hfiles.
  constructor; [by apply map_ok_drop..| |]; intros k r'; cbn; rewrite map_get_drop by done; case_decide as E; try done.
  - intros Hg. destruct (ix_id _ Hi _ _ Hg) as (rec & Hr & <- & Hf). exists rec. split_and!; [done..|].
    rewrite map_get_drop by done. rewrite decide_False; [done|]. intros [E1 E2]. rewrite <-E1, Hf in E2.
    injection E2 as ->. rewrite (record_of_lookup _ _ _ Hr) in E. auto.
  - intros Hg. destruct (ix_file _ Hi _ _ Hg) as (rec & Hr & <- & Hf). exists rec. split_and!; [done..|].
    rewrite map_get_drop by done. rewrite decide_False; [done|]. intros [E1 E2]. rewrite <-E1, Hf in E2.
    injection E2 as ->. rewrite (record_of_lookup _ _ _ Hr) in E. auto.
Qed.

Lemma live_unregister r s r' : index_ok s → live (unregister r s) r' ↔ live s r' ∧ r' ≠ r.
Proof.
  intros Hi. rewrite !live_get by (done || by apply index_unregister). cbn. pose proof (ix_ids _ Hi) as Hids. split.
  - intros [id Hg]. rewrite map_get_drop in Hg by done. case_decide as E; [done|]. split; [by exists id|].
    intros ->. destruct (ix_id _ Hi _ _ Hg) as (rec & Hr & <- & Hf).
    rewrite (record_of_lookup _ _ _ Hr) in E. auto.
  - intros [[id Hg] Hn]. exists id. rewrite map_get_drop by done. rewrite decide_False; [done|].
    intros [-> E]. congruence.
Qed.

Lemma length_unregister r s : index_ok s →
  length (rg_byId (unregister r s)) + (if decide (live s r) then 1 else 0) = length (rg_byId s).
Proof.
  intros Hi. cbn. unfold map_drop. destruct (decide (live s r)) as [Hl|Hl].
  - destruct (live_record _ _ Hi Hl) as (rec & Hr & Hg & _). rewrite (record_of_lookup _ _ _ Hr).
    rewrite decide_True by done. rewrite <-(map_delete_length (cr_id rec) (rg_byId s)) by congruence. lia.
  - rewrite decide_False; [lia|]. intros Hg. apply Hl, live_get; [done|]. by eexists.
Qed.

Lemma inv_unregister x r s X :
  (∀ rec, rg_records s !! r = Some rec → cr_attached rec = true → cr_revision rec = MAX_SAFE_INTEGER) →
  inv_but x s X → inv_but x (unregister r s) X.
Proof.
  intros Hatt [Hi Hr Hterm [Hc Hrd Hs] [] [] ?].
  assert (Hlive : ∀ r', live (unregister r s) r' → live s r') by (intros r' ?%live_unregister; naive_solver).
  pose proof (length_unregister r s Hi) as Hlen.
  constructor; [by apply index_unregister| |exact Hterm|..|done].
  - intros r' rec E. destruct (Hr _ _ E). constructor; auto. intros Ha.
    destruct (decide (r' = r)) as [->|]; [by right; eapply Hatt|]. destruct (rc_live0 Ha) as [Hl|]; [|by right].
    left. by apply live_unregister.
  - constructor; [|done..]. intros r' p Hp. destruct (Hc r' p Hp) as (? & ? & Hold & ?).
    split_and!; [done|done| |done]. intros Hset Hl. exact (Hold Hset (Hlive _ Hl)).
  - constructor; [|done..]. lia.
  - constructor; [done|]. intros t b e E. destruct (qu_budget0 _ _ _ E) as [Hle He]. split; [|done].
    enough (evictee s e ≤ evictee (unregister r s) e + (if decide (live s r) then 1 else 0)) by lia.
    unfold evictee. destruct e as [r'|]; [|lia]. destruct (decide (r' = r)) as [->|Hn]; [case_decide; lia|].
    destruct (decide (live s r')) as [Hl|]; [|lia]. rewrite decide_True; [lia|]. by apply live_unregister.
Qed.

Lemma guar_unregister r s : index_ok s → guar s (unregister r s).
Proof.
  intros Hi. constructor; auto.
  - intros r' rec E. exists rec. split; [done|reflexivity].
  - intros r' [Hl _]%live_unregister; auto.
Qed.

Lemma index_link r rec s :
  rg_records s !! r = Some rec → ¬ live s r → map_get (cr_id rec) (rg_byId s) = None →
  map_get (cr_sessionFile rec) (rg_bySessionFile s) = None →
  index_ok s → index_ok (link (cr_id rec) (cr_sessionFile rec) r s).
Proof.
  intros Hr Hdead Hid Hfile Hi.
  constructor; [by apply map_ok_set, Hi..| |]; intros k r'; cbn; rewrite map_get_set; case_decide as E.
  - intros [= <-]. exists rec. split_and!; [done|done|]. by rewrite map_get_set, decide_True.
  - intros Hg. destruct (ix_id _ Hi _ _ Hg) as (rec' & Hr' & <- & Hf). exists rec'. split_and!; [done..|].
    rewrite map_get_set, decide_False; [done|]. congruence.
  - intros [= <-]. exists rec. split_and!; [done|done|]. by rewrite map_get_set, decide_True.
  - intros Hg. destruct (ix_file _ Hi _ _ Hg) as (rec' & Hr' & <- & Hf). exists rec'. split_and!; [done..|].
    rewrite map_get_set, decide_False; [done|]. congruence.
Qed.

(** A record outside the indexes may change its keys. *)
Lemma index_set_gone r g s : ¬ live s r → index_ok s → index_ok (with_record r g s).
Proof.
  intros Hdead Hi. constructor; [apply Hi|apply Hi|..]; intros k r' Hk; cbn in Hk.
  - destruct (ix_id _ Hi _ _ Hk) as (rec & E & ?). exists rec. split; [|done]. cbn.
    rewrite lookup_alter_ne; [done|]. intros <-. apply Hdead, live_get; [done|]. by eexists.
  - destruct (ix_file _ Hi _ _ Hk) as (rec & E & Hf & Hb). exists rec. split; [|done]. cbn.
    rewrite lookup_alter_ne; [done|]. intros <-. apply Hdead, live_get; [done|]. by eexists.
Qed.

Lemma inv_set_gone r g s X :
  ¬ live s r → (∀ rec, rg_records s !! r = Some rec → record_ok s r (g rec) ∧ terminal_ok s r (g rec)) →
  inv s X → inv (with_record r g s) X.
Proof.
  intros Hdead Hg HI. pose proof (in_records _ _ _ HI) as Hrec. pose proof (in_terminal _ _ _ HI) as Hterm.
  constructor; try apply HI.
  - apply index_set_gone; [done|apply HI].
  - intros r' rec [[Hn E]|(-> & rec0 & E & ->)]%lookup_with_record; [eapply record_ok_same, (Hrec _ _ E); auto|].
    eapply record_ok_same, Hg; auto.
  - intros r' rec [[Hn E]|(-> & rec0 & E & ->)]%lookup_with_record Hx; [exact (Hterm _ _ E Hx)|]. by apply Hg.
  - destruct (in_tasks _ _ _ HI). by constructor.
  - destruct (in_capacity _ _ _ HI). by constructor.
  - destruct (in_queue _ _ _ HI). by constructor.
Qed.

Lemma live_link id file r s r' :
  map_get id (rg_byId s) = None → live (link id file r s) r' ↔ live s r' ∨ r' = r.
Proof.
  intros Hk. unfold live, map_values. cbn. rewrite map_keys_set by by apply map_get_None.
  rewrite fmap_app, elem_of_app. cbn. by rewrite list_elem_of_singleton.
Qed.

(** ** Registration *)

Lemma index_fresh rec s :
  (∀ r rec', rg_records s !! r = Some rec' → r < rg_next s) → index_ok s →
  index_ok (s <| rg_records := <[rg_next s := rec]> (rg_records s) |> <| rg_next := S (rg_next s) |>).
Proof.
  intros Hfr Hi. constructor; [apply Hi|apply Hi|..]; intros k r Hg; cbn in *.
  - destruct (ix_id _ Hi _ _ Hg) as (rec' & Hr & ?). exists rec'. split; [|done].
    rewrite lookup_insert_ne; [done|]. intros <-. specialize (Hfr _ _ Hr). lia.
  - destruct (ix_file _ Hi _ _ Hg) as (rec' & Hr & ?). exists rec'. split; [|done].
    rewrite lookup_insert_ne; [done|]. intros <-. specialize (Hfr _ _ Hr). lia.
Qed.

Lemma live_bound s r : index_ok s → (∀ r rec, rg_records s !! r = Some rec → record_ok s r rec) →
  live s r → r < rg_next s.
Proof. intros Hi Hr Hl. destruct (live_record _ _ Hi Hl) as (rec & E & _). by destruct (Hr _ _ E). Qed.

Lemma live_add_record rec s r :
  map_get (cr_id rec) (rg_byId s) = None → live (add_record rec s) r ↔ live s r ∨ r = rg_next s.
Proof.
  intros Hk. unfold add_record. rewrite live_link by done. done.
Qed.

Lemma inv_add_record x rec reservation s X :
  map_get (cr_id rec) (rg_byId s) = None → map_get (cr_sessionFile rec) (rg_bySessionFile s) = None →
  cr_attached rec = false → cr_revision rec = 0%Z → cr_runtimeFailureTerminal rec = false →
  X !! inl reservation = Some (Slot true) →
  inv_but x s X → inv_but x (add_record rec s) (<[inl reservation := Slot false]> X).
Proof.
  intros Hid Hfile Hatt Hrev Ht HX [Hi Hr Hterm [Hc Hrd Hs] [] [] ?].
  assert (Hbound : ∀ r rec', rg_records s !! r = Some rec' → r < rg_next s) by (intros r rec' E; by destruct (Hr _ _ E)).
  pose proof (λ r, live_add_record rec s r Hid) as Hlive.
  pose proof (counted_update _ _ (Slot false) _ HX : _ + 1 = _ + 0) as Hcount.
  assert (Hlen : length (rg_byId (add_record rec s)) = S (length (rg_byId s))) by by apply map_set_length.
  constructor.
  - apply index_link; cbn; [by rewrite lookup_insert_eq| |done|done|by apply index_fresh].
    intros Hl. pose proof (live_bound s (rg_next s) Hi Hr Hl). lia.
  - intros r rec'. change (rg_records (add_record rec s)) with (<[rg_next s := rec]> (rg_records s)).
    intros [[<- <-]|[Hn E]]%lookup_insert_Some.
    + constructor; cbn; [lia|rewrite Hrev; unfold MAX_SAFE_INTEGER; lia|congruence|congruence].
    + eapply record_ok_same, Hr; [cbn; lia| |done|done]. intros Hl. apply Hlive. auto.
  - intros r rec'. change (rg_records (add_record rec s)) with (<[rg_next s := rec]> (rg_records s)).
    intros [[<- <-]|[Hn E]]%lookup_insert_Some Hx; [intros ?; congruence|]. exact (Hterm _ _ E Hx).
  - constructor; cbn.
    + intros r p Hp. destruct (Hc r p Hp) as (? & ? & Hold & ?). split_and!; [lia|lia| |done].
      intros Hset [Hl| ->]%Hlive; [by apply Hold|lia].
    + intros p t E. destruct (Hrd _ _ E). auto with lia.
    + intros p Hp. specialize (Hs p Hp). lia.
  - constructor; [lia|done|cbn; intros q Hq; specialize (cp_released0 q Hq); lia|..].
    + intros q c [[[= <-] <-]|[Hn E]]%lookup_insert_Some; [|by apply cp_slots0].
      split; [by eapply cp_slots0|by eexists].
    + cbn. intros l st q E. destruct (cp_leases0 _ _ _ E) as (? & ? & ?). auto with lia.
  - constructor.
    + destruct qu_tickets0 as (k & ? & ? & Hown & Hkind). exists k. split_and!; [done..| |].
      * intros t. by rewrite lookup_insert_ne.
      * intros t c. rewrite lookup_insert_ne by done. apply Hkind.
    + intros t b e. rewrite lookup_insert_ne by done. intros E. destruct (qu_budget0 _ _ _ E) as [Hle He].
      split; [|done]. enough (evictee s e ≤ evictee (add_record rec s) e) by lia.
      apply evictee_le. intros r Hl. apply Hlive. auto.
  - done.
Qed.

Lemma guar_add_record rec s :
  (∀ r rec', rg_records s !! r = Some rec' → r < rg_next s) → map_get (cr_id rec) (rg_byId s) = None →
  rg_shuttingDown s = false → guar s (add_record rec s).
Proof.
  intros Hbound Hid Hs. constructor; auto.
  - cbn. lia.
  - intros r rec' E. exists rec'. split; [|reflexivity]. cbn. rewrite lookup_insert_ne; [done|].
    intros <-. specialize (Hbound _ _ E). lia.
  - intros r [Hl| ->]%live_add_record; [by left| |done]. right. auto.
Qed.

Lemma unregister_free r s id file :
  index_ok s → (∀ o, map_get id (rg_byId s) = Some o → o = r) →
  (∀ o, map_get file (rg_bySessionFile s) = Some o → o = r) →
  map_get id (rg_byId (unregister r s)) = None ∧ map_get file (rg_bySessionFile (unregister r s)) = None.
Proof.
  intros Hi Hid Hfile. pose proof (index_unregister r s Hi) as Hu.
  assert (Hdead : ∀ id', map_get id' (rg_byId (unregister r s)) ≠ Some r).
  { intros id' E. assert (live (unregister r s) r) as [_ ?]%live_unregister; [|done..].
    apply live_get; [done|by eexists]. }
  split; apply eq_None_not_Some; intros [o E].
  - pose proof E as E'. cbn in E'. rewrite map_get_drop in E' by apply Hi. case_decide; [done|].
    rewrite (Hid o E') in E. by apply Hdead in E.
  - destruct (ix_file _ Hu _ _ E) as (rec & _ & _ & Hg). cbn in E. rewrite map_get_drop in E by apply Hi.
    case_decide; [done|]. rewrite (Hfile o E) in Hg. by apply Hdead in Hg.
Qed.

(** The identity of a live record [r] replaced, and other fields on the way. *)
Lemma inv_relink r g s X id file :
  (∀ rec, rg_records s !! r = Some rec → cr_id (g rec) = id ∧ cr_sessionFile (g rec) = file ∧
    (0 ≤ cr_revision (g rec) ≤ MAX_SAFE_INTEGER)%Z ∧ cr_attached (g rec) = cr_attached rec ∧
    terminal_ok s r (g rec)) →
  live s r → (∀ o, map_get id (rg_byId s) = Some o → o = r) → (∀ o, map_get file (rg_bySessionFile s) = Some o → o = r) →
  inv s X → inv (link id file r (with_record r g (unregister r s))) X.
Proof.
  intros Hg Hl Hid Hfile [Hi Hr Hterm [Hc Hrd Hs] [] [] ?].
  destruct (live_record _ _ Hi Hl) as (rec & E & Hgid & Hgfile). pose proof (record_of_lookup _ _ _ E) as Erec.
  destruct (Hg _ E) as (<- & <- & Hrev & Hatt & Ht). set (s1 := with_record r g (unregister r s)).
  pose proof (length_unregister r s Hi) as Hlen. rewrite decide_True in Hlen by done.
  assert (Hi1 : index_ok s1).
  { apply index_set_gone; [|by apply index_unregister]. by intros [_ ?]%live_unregister. }
  assert (E1 : rg_records s1 !! r = Some (g rec)) by (cbn; by rewrite lookup_alter_eq, E).
  destruct (unregister_free r s (cr_id (g rec)) (cr_sessionFile (g rec)) Hi Hid Hfile) as [Hnone Hnonef].
  change (rg_byId (unregister r s)) with (rg_byId s1) in Hnone.
  change (rg_bySessionFile (unregister r s)) with (rg_bySessionFile s1) in Hnonef.
  assert (Hlive : ∀ r', live (link (cr_id (g rec)) (cr_sessionFile (g rec)) r s1) r' ↔ live s r').
  { intros r'. rewrite live_link by done. change (live s1 r') with (live (unregister r s) r').
    rewrite live_unregister by done. destruct (decide (r' = r)) as [->|]; naive_solver. }
  assert (Hlen1 : length (rg_byId (link (cr_id (g rec)) (cr_sessionFile (g rec)) r s1)) = length (rg_byId s)).
  { cbn [link rg_byId with_field]. rewrite map_set_length by done. cbn in *. lia. }
  constructor.
  - apply index_link; [done| |done..]. intros Hl1. by apply live_unregister in Hl1 as [_ ?].
  - intros r' rec'. change (rg_records (link (cr_id (g rec)) (cr_sessionFile (g rec)) r s1)) with (rg_records (with_record r g s)).
    intros [[Hn E']|(-> & rec0 & E' & ->)]%lookup_with_record.
    + eapply record_ok_same, Hr; [done| |done|done]. apply Hlive.
    + rewrite E in E'. injection E' as <-. destruct (Hr _ _ E). constructor; [done|done| |].
      * intros _. left. by apply Hlive.
      * rewrite Hatt. done.
  - intros r' rec'. change (rg_records (link (cr_id (g rec)) (cr_sessionFile (g rec)) r s1)) with (rg_records (with_record r g s)).
    intros [[Hn E']|(-> & rec0 & E' & ->)]%lookup_with_record Hx; [exact (Hterm _ _ E' Hx)|].
    rewrite E in E'. by injection E' as <-.
  - constructor; [|done..]. intros r' p Hp. destruct (Hc r' p Hp) as (? & ? & Hold & ?).
    split_and!; [done|done| |done]. intros Hset Hl'%Hlive. exact (Hold Hset Hl').
  - constructor; [|done..]. by rewrite Hlen1.
  - constructor; [done|]. intros t b e Et. rewrite Hlen1. destruct (qu_budget0 _ _ _ Et) as [Hle He]. split; [|done].
    etrans; [exact Hle|]. apply Nat.add_le_mono_l, evictee_le. intros r' Hl'. by apply Hlive.
  - done.
Qed.

Lemma guar_relink r g s id file :
  (∀ rec, rg_records s !! r = Some rec → record_later rec (g rec)) → index_ok s → live s r →
  (∀ o, map_get id (rg_byId s) = Some o → o = r) → (∀ o, map_get file (rg_bySessionFile s) = Some o → o = r) →
  guar s (link id file r (with_record r g (unregister r s))).
Proof.
  intros Hg Hi Hl Hid Hfile. destruct (unregister_free r s id file Hi Hid Hfile) as [Hnone _].
  destruct (guar_set_record r g s Hg) as []. constructor; auto. intros r' Hr'. left.
  apply live_link in Hr' as [Hr'| ->]; [|done|done]. by apply live_unregister in Hr' as [? _].
Qed.

Lemma with_record_twice r f g s : with_record r f (with_record r g s) = with_record r (f ∘ g) s.
Proof. unfold with_record. cbn. by rewrite alter_alter_eq. Qed.

(** ** Capacity *)

Lemma counted_bound s X k :
  (∀ reservation c, X !! inl reservation = Some c → rg_released s !! reservation = Some false ∧ ∃ b, c = Slot b) →
  (∀ t c, X !! inr t = Some c → ∃ b, c = Ticket b ∧ (is_Some b → t = S k)) → counted X ≤ unreleased s.
Proof.
  intros Hslots Htickets. apply counted_size. intros [reservation|t] E.
  - destruct (Hslots _ _ E) as [Hf _]. exists reservation. split; [done|].
    by rewrite (map_lookup_filter_Some_2 _ _ _ _ Hf).
  - by destruct (Htickets _ _ E) as (b & ? & _).
Qed.

Lemma inv_reserve x t be s X :
  X !! inr t = Some (Ticket (Some be)) →
  (Z.of_nat (length (rg_byId s)) + rg_capacityReservations s < maxLiveConversations)%Z →
  inv_but x s X →
  inv_but x (add_reservation s) (<[inl (rg_next s) := Slot true]> (<[inr t := Ticket None]> X)).
Proof.
  intros Et Hroom [Hi Hr Hterm [Hc Hrd Hs] [] [] ?]. destruct qu_tickets0 as (k & Hk & Hun & Hown & Hkind).
  pose proof (counted_bound s X k cp_slots0 Hkind) as Hbound.
  assert (Hfree : X !! inl (rg_next s) = None).
  { apply eq_None_not_Some. intros [c E]. destruct (cp_slots0 _ _ E) as [Hf _].
    specialize (cp_released0 _ (mk_is_Some _ _ Hf)). lia. }
  pose proof (counted_update _ _ (Ticket None) _ Et : _ + 0 = _ + 0) as Hcount.
  assert (Hcount' : counted (<[inl (rg_next s) := Slot true]> (<[inr t := Ticket None]> X)) = 1 + counted X).
  { rewrite counted_insert by by rewrite lookup_insert_ne. change (counts (Slot true)) with 1. lia. }
  constructor; [by apply (index_same s)| |exact Hterm|..|done].
  - intros r rec E. eapply record_ok_same, Hr; [cbn; lia|auto..].
  - constructor; cbn.
    + intros r p Hp. destruct (Hc r p Hp) as (? & ? & ? & ?). split_and!; auto with lia.
    + intros p t' E. destruct (Hrd _ _ E). auto with lia.
    + intros p Hp. specialize (Hs p Hp). lia.
  - assert (Hlook : rg_released s !! rg_next s = None).
    { apply eq_None_not_Some. intros Hf%cp_released0. lia. }
    constructor.
    + rewrite Hcount'. change (rg_byId (add_reservation s)) with (rg_byId s). lia.
    + cbn. unfold unreleased. cbn. rewrite map_filter_insert_True by done. rewrite map_size_insert_None.
      * unfold unreleased in cp_reservations0. lia.
      * apply map_lookup_filter_None. by left.
    + cbn. intros q. destruct (decide (q = rg_next s)) as [->|]; [lia|]. rewrite lookup_insert_ne by done.
      intros Hq%cp_released0. lia.
    + cbn. intros q c [[[= <-] <-]|[Hn E]]%lookup_insert_Some; [rewrite lookup_insert_eq; eauto|].
      rewrite lookup_insert_ne in E by done. rewrite lookup_insert_ne by congruence. by apply cp_slots0.
    + cbn. intros l st q E. destruct (cp_leases0 _ _ _ E) as (-> & Hl & Hst). split_and!; [done|lia|].
      rewrite lookup_insert_ne by lia. done.
  - constructor.
    + exists k. split_and!; [done..| |].
      * intros t'. rewrite lookup_insert_ne by done. rewrite <-Hown. destruct (decide (t' = t)) as [->|].
        -- rewrite lookup_insert_eq, Et. split; by eexists.
        -- by rewrite lookup_insert_ne by congruence.
      * intros t' c. rewrite lookup_insert_ne by done. intros [[[= <-] <-]|[Hn E]]%lookup_insert_Some; [|by apply Hkind].
        exists None. split; [done|]. by intros [].
    + intros t' b e. rewrite lookup_insert_ne by done. intros [[_ ?]|[Hn E]]%lookup_insert_Some; [done|].
      destruct (Hkind _ _ Et) as (? & [= <-] & H1). destruct (Hkind _ _ E) as (? & [= <-] & H2).
      rewrite H1, H2 in Hn by by eexists. done.
Qed.

Lemma counted_delete_le k X : counted (delete k X) ≤ counted X.
Proof.
  destruct (X !! k) as [c|] eqn:E; [|by rewrite delete_id]. rewrite (counted_lookup _ _ _ E). lia.
Qed.

Lemma queue_same s s' X X' :
  rg_tail s' = rg_tail s → rg_unlocked s' = rg_unlocked s → rg_pendingCloses s' = rg_pendingCloses s →
  rg_byId s' = rg_byId s → (∀ t, X' !! inr t = X !! inr t) → counted X' ≤ counted X →
  queue_ok s X → queue_ok s' X'.
Proof.
  intros Ht Hu Hc Hb HX Hle [Htk Hbu]. constructor; rewrite ?Ht, ?Hu, ?Hc, ?Hb.
  - destruct Htk as (k & ? & ? & Hown & Hkind). exists k. split_and!; [done..| |].
    + intros t. by rewrite HX.
    + intros t c. rewrite HX. apply Hkind.
  - intros t b e. rewrite HX. intros E. destruct (Hbu _ _ _ E) as [Hp He]. split; [|done].
    etrans; [|apply Nat.add_le_mono_l, (evictee_le s)]; [lia|]. intros r. unfold live. by rewrite Hb.
Qed.

(** Giving a slot back, or forgetting that it is owned. *)
Lemma inv_drop x reservation s X : inv_but x s X → inv_but x s (delete (inl reservation) X).
Proof.
  intros [Hi Hr Hterm Htasks [] Hq ?]. pose proof (counted_delete_le (inl reservation) X).
  constructor; [done..| | |done].
  - constructor; [lia|done..| |done]. intros q c [_ E]%lookup_delete_Some. by apply cp_slots0.
  - eapply queue_same, Hq; auto. intros t. by rewrite lookup_delete_ne.
Qed.

Lemma inv_release_with leases x reservation s X :
  (∀ l st q, leases !! l = Some (st, q) → q = l ∧ l < rg_next s ∧
     (rg_released s !! l = Some false → st = LeaseReserved ∨ l = reservation)) →
  rg_released s !! reservation = Some false → inv_but x s X →
  inv_but x (release_reservation reservation (s <| rg_leases := leases |>)) (delete (inl reservation) X).
Proof.
  intros Hleases Hf HI. pose proof (inv_drop _ reservation _ _ HI) as [Hi Hr Hterm [Hc Hrd Hs] [] Hq ?].
  unfold release_reservation. rewrite decide_True by done.
  constructor; [by apply (index_same s)| |exact Hterm|by constructor|..|done].
  - intros r rec E. eapply record_ok_same, Hr; auto.
  - constructor; cbn; [done|..].
    + rewrite cp_reservations0. unfold unreleased. cbn. rewrite map_filter_insert_False, map_filter_delete by done.
      rewrite map_size_delete_Some by (eexists; by apply map_lookup_filter_Some_2).
      assert (size (filter is_unreleased (rg_released s)) ≠ 0).
      { apply (map_size_ne_0_lookup_2 _ reservation). eexists. by apply map_lookup_filter_Some_2. }
      lia.
    + intros q. destruct (decide (q = reservation)) as [->|]; [intros _; apply cp_released0; by eexists|].
      rewrite lookup_insert_ne by done. apply cp_released0.
    + intros q c E. pose proof E as [Hn _]%lookup_delete_Some. rewrite lookup_insert_ne by congruence.
      by apply cp_slots0.
    + intros l st q E. destruct (Hleases _ _ _ E) as (-> & Hl & Hst). split_and!; [done..|].
      intros [[_ ?]|[Hn E']]%lookup_insert_Some; [done|]. destruct (Hst E') as [|<-]; [done|congruence].
  - by eapply queue_same, Hq.
Qed.

Lemma inv_release x reservation s X :
  rg_released s !! reservation = Some false → inv_but x s X →
  inv_but x (release_reservation reservation s) (delete (inl reservation) X).
Proof.
  intros Hf HI. replace s with (s <| rg_leases := rg_leases s |>) at 1 by by destruct s.
  apply inv_release_with; [|done..]. intros l st q E.
  destruct (cp_leases _ _ (in_capacity _ _ _ HI) _ _ _ E) as (? & ? & ?). auto.
Qed.

Lemma released_release reservation s :
  is_Some (rg_released s !! reservation) → rg_released (release_reservation reservation s) !! reservation = Some true.
Proof.
  intros [[] E]; unfold release_reservation.
  - by rewrite decide_False by congruence.
  - rewrite decide_True by done. cbn. by rewrite lookup_insert_eq.
Qed.

Lemma guar_release leases reservation s : guar s (release_reservation reservation (s <| rg_leases := leases |>)).
Proof.
  unfold release_reservation. case_decide as E; [|by apply guar_same; auto].
  constructor; auto; cbn.
  - intros r rec Er. exists rec. split; [done|reflexivity].
  - intros q Hq. rewrite lookup_insert_ne; [done|]. cbn in E. congruence.
Qed.

Lemma guar_reserve s X : capacity_ok s X → guar s (add_reservation s).
Proof.
  intros []. constructor; auto; cbn.
  - lia.
  - intros r rec Er. exists rec. split; [done|reflexivity].
  - intros q Hq. rewrite lookup_insert_ne; [done|]. intros <-. specialize (cp_released0 _ (mk_is_Some _ _ Hq)). lia.
Qed.

Lemma inv_new_lease x reservation s X :
  rg_released s !! reservation = Some false → inv_but x s X →
  inv_but x (s <| rg_leases := <[reservation := (LeaseReserved, reservation)]> (rg_leases s) |>) X.
Proof.
  intros Hf [Hi Hr Hterm [Hc Hrd Hs] [] Hq ?].
  constructor; [by apply (index_same s)| |exact Hterm|by constructor|..|done].
  - intros r rec E. eapply record_ok_same, Hr; auto.
  - constructor; [done..|]. cbn. intros l st q [[<- [= <- <-]]|[Hn E]]%lookup_insert_Some; [|by apply cp_leases0].
    split_and!; [done| |done]. apply cp_released0. by eexists.
  - by eapply queue_same, Hq.
Qed.

(** A settled lease of a slot that was given back. *)
Lemma inv_lease_state x lease state s X :
  rg_released s !! lease = Some true → is_Some (rg_leases s !! lease) → inv_but x s X →
  inv_but x (s <| rg_leases := <[lease := (state, lease)]> (rg_leases s) |>) X.
Proof.
  intros Hf [[st q0] El] [Hi Hr Hterm [Hc Hrd Hs] [] Hq ?].
  constructor; [by apply (index_same s)| |exact Hterm|by constructor|..|done].
  - intros r rec E. eapply record_ok_same, Hr; auto.
  - constructor; [done..|]. cbn. intros l st' q [[<- [= <- <-]]|[Hn E]]%lookup_insert_Some; [|by apply cp_leases0].
    destruct (cp_leases0 _ _ _ El) as (_ & Hl & _). split_and!; [done|done|congruence].
  - by eapply queue_same, Hq.
Qed.

(** ** The queue *)

Lemma inv_take_ticket x s X :
  inv_but x s X → X !! inr (S (rg_tail s)) = None ∧
    inv_but x (take_ticket s) (<[inr (S (rg_tail s)) := Ticket None]> X).
Proof.
  intros [Hi Hr Hterm [Hc Hrd Hs] [] [] ?]. destruct qu_tickets0 as (k & Hk & Hun & Hown & Hkind).
  assert (Hfree : X !! inr (S (rg_tail s)) = None).
  { apply eq_None_not_Some. intros Ht%Hown. lia. }
  split; [done|]. pose proof (counted_insert _ (Ticket None) _ Hfree : _ = 0 + _) as Hcount.
  constructor; [by apply (index_same s)| |exact Hterm|by constructor|..|done].
  - intros r rec E. eapply record_ok_same, Hr; auto.
  - constructor; [cbn in *; lia|done..| |done]. intros q c. rewrite lookup_insert_ne by done. apply cp_slots0.
  - constructor; cbn.
    + exists k. split_and!; [lia|done| |].
      * intros t. destruct (decide (t = S (rg_tail s))) as [->|]; [rewrite lookup_insert_eq; split; [lia|by eexists]|].
        rewrite lookup_insert_ne by congruence. rewrite Hown. lia.
      * intros t c [[[= <-] <-]|[Hn E]]%lookup_insert_Some; [|by apply Hkind]. exists None. split; [done|]. by intros [].
    + intros t b e [[_ ?]|[Hn E]]%lookup_insert_Some; [done|]. destruct (qu_budget0 _ _ _ E). rewrite Hcount. auto.
Qed.

Lemma inv_unlock x p c s X :
  X !! inr (S p) = Some c → p ∈ rg_unlocked s → inv_but x s X →
  inv_but x (unlock (S p) s) (delete (inr (S p)) X).
Proof.
  intros Ec Hp [Hi Hr Hterm [Hc Hrd Hs] [] [] ?]. destruct qu_tickets0 as (k & Hk & Hun & Hown & Hkind).
  pose proof (counted_delete_le (inr (S p)) X) as Hcount. apply Hun in Hp as Hpk.
  pose proof (proj1 (Hown (S p)) (mk_is_Some _ _ Ec)) as Hlt. assert (k = p) as -> by lia.
  constructor; [by apply (index_same s)| |exact Hterm|by constructor|..|done].
  - intros r rec E. eapply record_ok_same, Hr; auto.
  - constructor; [cbn in *; lia|done..| |done]. intros q c'. rewrite lookup_delete_ne by done. apply cp_slots0.
  - constructor; cbn.
    + exists (S p). split_and!; [lia| | |].
      * intros t. rewrite elem_of_union, elem_of_singleton, Hun. lia.
      * intros t. destruct (decide (t = S p)) as [->|].
        -- rewrite lookup_delete_eq. split; [by intros []|lia].
        -- rewrite lookup_delete_ne by congruence. rewrite Hown. lia.
      * intros t c' [Hn E]%lookup_delete_Some. destruct (Hkind _ _ E) as (b & -> & Hb). exists b. split; [done|].
        intros Hs'%Hb. congruence.
    + intros t b e [Hn E]%lookup_delete_Some. destruct (qu_budget0 _ _ _ E). split; [|done].
      change (evictee (unlock (S p) s) e) with (evictee s e). cbn. lia.
Qed.

Lemma inv_budget x p old new s X :
  X !! inr (S p) = Some (Ticket old) → p ∈ rg_unlocked s →
  (∀ b e, new = Some (b, e) → length (rg_byId s) + counted X ≤ b + evictee s e ∧
     ∀ r, e = Some r → is_Some (rg_pendingCloses s !! r)) →
  inv_but x s X → inv_but x s (<[inr (S p) := Ticket new]> X).
Proof.
  intros Eo Hp Hnew [Hi Hr Hterm Htasks [] [] ?]. destruct qu_tickets0 as (k & Hk & Hun & Hown & Hkind).
  pose proof (counted_update _ _ (Ticket new) _ Eo : _ + 0 = _ + 0) as Hcount. apply Hun in Hp as Hpk.
  pose proof (proj1 (Hown (S p)) (mk_is_Some _ _ Eo)) as Hlt. assert (k = p) as -> by lia.
  constructor; [done..| | |done].
  - constructor; [lia|done..| |done]. intros q c. rewrite lookup_insert_ne by done. apply cp_slots0.
  - constructor.
    + exists p. split_and!; [done|done| |].
      * intros t. rewrite <-Hown. destruct (decide (t = S p)) as [->|].
        -- rewrite lookup_insert_eq, Eo. split; by eexists.
        -- by rewrite lookup_insert_ne by congruence.
      * intros t c [[[= <-] <-]|[Hn E]]%lookup_insert_Some; [|by apply Hkind]. by exists new.
    + intros t b e. rewrite Nat.add_0_r, Nat.add_0_r in Hcount. rewrite Hcount.
      intros [[_ [= E]]|[Hn E]]%lookup_insert_Some; [by apply Hnew|by apply (qu_budget0 t)].
Qed.
End invariant.
