(* ===== verification/RegistryTriples.v ===== *)
(** The functions of the registry that leave the claims of their task alone:
    each keeps the invariant and the guarantee, whatever the task owns and
    whatever stable fact it relies on, when it ends and when it throws. *)
From S2P Require Import Prelude JsValues Errors Revisions Programs Protocol Tasks TaskRules.
From S2P Require Import Registry RegistryTasks RegistryOperations RegistryInvariant.
#[local] Open Scope string_scope. #[local] Open Scope nat_scope.

(** The notions of [TaskRules] for the registry's calls, invariant and guarantee. *)
Notation stable := (TaskRules.stable guar).
Notation never := (TaskRules.never (S := registry) (V := value) (K := nat + nat) (B := claim)).
Notation registry_reads maxLiveConversations := (TaskRules.reads (V := value) (E := thrown)
  (awaited := awaited) (enabled := enabled) (J := inv maxLiveConversations) (G := guar)).
Notation registry_neutral maxLiveConversations := (TaskRules.neutral (V := value) (E := thrown)
  (awaited := awaited) (enabled := enabled) (J := inv maxLiveConversations) (G := guar)).
Notation registry_quiet maxLiveConversations := (TaskRules.quiet (V := value) (E := thrown)
  (awaited := awaited) (enabled := enabled) (J := inv maxLiveConversations) (G := guar)).
Notation registry_under maxLiveConversations := (TaskRules.under (V := value) (E := thrown)
  (awaited := awaited) (enabled := enabled) (J := inv maxLiveConversations) (G := guar)).
Notation registry_kept maxLiveConversations := (TaskRules.kept (J := inv maxLiveConversations) (G := guar)).

Definition known (r : nat) (s : registry) : Prop := r < rg_next s.
Lemma stable_known r : stable (known r).
Proof. intros s s' Hr Hg. pose proof (gu_next _ _ Hg). unfold known in *. lia. Qed.

Definition gone (r : nat) (s : registry) : Prop := known r s ∧ ¬ live s r.
Lemma stable_gone r : stable (gone r).
Proof.
  intros s s' [Hr Hl] Hg. split; [by eapply stable_known|]. intros [?|[? _]]%(gu_live _ _ Hg); [done|].
  unfold known in Hr. lia.
Qed.

Definition released (reservation : nat) (s : registry) : Prop := rg_released s !! reservation = Some true.
Lemma stable_released q : stable (released q).
Proof. intros s s' Hq Hg. by apply Hg. Qed.

#[export] Hint Resolve stable_and stable_known stable_gone stable_released : registry.

Section triples.
Context `{Platform} (maxLiveConversations : Z).
Notation inv_but := (inv_but maxLiveConversations).
Notation inv := (inv maxLiveConversations).
Notation holds := (holds (J := inv) (G := guar)).
Notation assertion := (registry → registry → claims → Prop).
Notation triple := (triple (ans := answer) (awaited := awaited) (enabled := enabled) (J := inv) (G := guar) (V := value) (E := thrown)).
Notation reads := (registry_reads maxLiveConversations).
Notation neutral := (registry_neutral maxLiveConversations).
Notation kept := (registry_kept maxLiveConversations).

Lemma neutral_awaiting {A} (m : reg A) : neutral m → neutral (awaiting m).
Proof. intros Hm. apply neutral_finally; [done|]. intros own φ Hφ. exact (quiet_await Tick eq_refl own φ Hφ). Qed.
Lemma neutral_when b m : neutral m → neutral (when b m).
Proof. destruct b; [done|]. intros _. apply neutral_reads, reads_ret. Qed.
Lemma reads_when b m : reads m → reads (when b m).
Proof. destruct b; [done|]. intros _. apply reads_ret. Qed.
Lemma reads_throw_when b c : reads (throw_when b c).
Proof. apply reads_when, reads_throw. Qed.
Lemma reads_port_ok {A} c (f : answer c → result thrown A) : awaited c = false → reads (port_ok c f).
Proof. intros Hc. apply reads_bind; [by apply reads_port|]. intros x. apply reads_lift. Qed.
Lemma neutral_await_ok {A} c (f : answer c → result thrown A) : awaited c = true → neutral (await_ok c f).
Proof. intros Hc. apply neutral_bind; [by apply neutral_await|]. intros x. apply neutral_reads, reads_lift. Qed.

(** Steps through a body: [reads] where nothing changes, [neutral] elsewhere. *)
Lemma reads_get_record r : reads (get_record r).
Proof. apply reads_gets. Qed.
End triples.

#[export] Hint Resolve reads_ret reads_throw reads_gets reads_throw_when reads_lift reads_get_record : reads.

Ltac body_step :=
  match goal with
  | |- TaskRules.reads _ => solve [eauto 2 with reads nocore]
  | |- TaskRules.reads (port_ ?c) => exact (reads_port c eq_refl)
  | |- TaskRules.reads (port_ok ?c ?f) => exact (reads_port_ok _ c f eq_refl)
  | |- TaskRules.reads (_ ≫= _) => apply reads_bind; [|intros ?]
  | |- TaskRules.reads (try_ _ _) => apply reads_try; [|intros ?]
  | |- TaskRules.reads (when _ _) => apply reads_when
  | |- TaskRules.neutral _ => solve [eauto 2 with neutral nocore]
  | |- TaskRules.neutral (_ ≫= _) => apply neutral_bind; [|intros ?]
  | |- TaskRules.neutral (try_ _ _) => apply neutral_try; [|intros ?]
  | |- TaskRules.neutral (awaiting _) => apply neutral_awaiting
  | |- TaskRules.neutral (when _ _) => apply neutral_when
  | |- TaskRules.neutral (port_ ?c) => exact (neutral_reads _ (reads_port c eq_refl))
  | |- TaskRules.neutral (port_ok ?c ?f) => exact (neutral_reads _ (reads_port_ok _ c f eq_refl))
  | |- TaskRules.neutral (await_ ?c) => exact (neutral_await c eq_refl)
  | |- TaskRules.neutral (await_ok ?c ?f) => exact (neutral_await_ok _ c f eq_refl)
  | |- context [match ?x with _ => _ end] => destruct x
  | |- TaskRules.neutral _ => apply neutral_reads; solve [eauto 2 with reads nocore]
  end.
Ltac body_steps := repeat body_step.

Section functions.
Context `{Platform} (maxLiveConversations : Z).
Notation inv_but := (inv_but maxLiveConversations).
Notation inv := (inv maxLiveConversations).
Notation reads := (registry_reads maxLiveConversations).
Notation neutral := (registry_neutral maxLiveConversations).
Notation kept := (registry_kept maxLiveConversations).

(** ** What only reads *)

Lemma reads_titleOf runtime : reads (titleOf runtime).
Proof. unfold titleOf. body_steps. Qed.
Lemma reads_createdAtOf runtime fallback : reads (createdAtOf runtime fallback).
Proof. unfold createdAtOf. body_steps. Qed.
Lemma reads_safeNow : reads safeNow.
Proof. unfold safeNow. body_steps. Qed.
Lemma reads_isBusy r : reads (isBusy r).
Proof. unfold isBusy. body_steps. Qed.
Lemma reads_emit event : reads (emit event).
Proof. unfold emit. body_steps. Qed.
Lemma reads_assertAcceptingWork : reads assertAcceptingWork.
Proof. unfold assertAcceptingWork. body_steps. Qed.
Lemma reads_required id : reads (required id).
Proof. unfold required. body_steps. Qed.
Lemma reads_assertInteractiveMutation r : reads (assertInteractiveMutation r).
Proof. unfold assertInteractiveMutation. body_steps. Qed.
Lemma reads_normalizeOwner owner : reads (normalizeOwner owner).
Proof. unfold normalizeOwner. body_steps. Qed.
Lemma reads_requiredOwned id owner : reads (requiredOwned id owner).
Proof. unfold requiredOwned. body_steps; [apply reads_required|apply reads_normalizeOwner]. Qed.
Lemma reads_normalizePolicy policy : reads (normalizePolicy policy).
Proof. unfold normalizePolicy. body_steps. Qed.
Lemma reads_assertWorkspaceOwner r workspace : reads (assertWorkspaceOwner r workspace).
Proof. unfold assertWorkspaceOwner. body_steps. Qed.
Lemma reads_assertIdentityInWorkspace identity cwd : reads (assertIdentityInWorkspace identity cwd).
Proof. unfold assertIdentityInWorkspace. body_steps. Qed.
Lemma reads_hasForkReservation r : reads (hasForkReservation r).
Proof. unfold hasForkReservation. body_steps. Qed.
Lemma reads_requireReservedLease lease : reads (requireReservedLease lease).
Proof. unfold requireReservedLease. body_steps. Qed.
Lemma reads_assertForkSource r entry : reads (assertForkSource r entry).
Proof. unfold assertForkSource. body_steps. apply reads_assertInteractiveMutation. Qed.
Lemma reads_forkFileAfterReplacement runtime id : reads (forkFileAfterReplacement runtime id).
Proof. unfold forkFileAfterReplacement. body_steps. Qed.
Lemma reads_filter_records p l : (∀ r, reads (p r)) → reads (filter_records p l).
Proof. intros Hp. induction l; cbn; body_steps; auto. Qed.
End functions.

#[export] Hint Resolve reads_titleOf reads_createdAtOf reads_safeNow reads_isBusy reads_emit reads_assertAcceptingWork
  reads_required reads_assertInteractiveMutation reads_normalizeOwner reads_requiredOwned reads_normalizePolicy
  reads_assertWorkspaceOwner reads_assertIdentityInWorkspace reads_hasForkReservation reads_requireReservedLease
  reads_assertForkSource reads_forkFileAfterReplacement : reads.

(** ** What keeps to the invariant *)

(** Changes of a record that concern neither the indexes nor its status. *)
Definition mild (rec rec' : ConversationRecord) : Prop :=
  cr_id rec' = cr_id rec ∧ cr_sessionFile rec' = cr_sessionFile rec ∧ cr_attached rec' = cr_attached rec ∧
  cr_revision rec' = cr_revision rec ∧ cr_runtimeFailureTerminal rec' = cr_runtimeFailureTerminal rec ∧
  cr_status rec' = cr_status rec ∧ record_later rec rec'.

Ltac is_mild := intros ?; unfold mild; split_and!; try done; constructor; cbn; auto; lia.

Section neutrals.
Context `{Platform} (maxLiveConversations : Z).
Notation inv_but := (inv_but maxLiveConversations).
Notation inv := (inv maxLiveConversations).
Notation reads := (registry_reads maxLiveConversations).
Notation neutral := (registry_neutral maxLiveConversations).
Notation kept := (registry_kept maxLiveConversations).
Notation holds := (holds (J := inv) (G := guar)).
Notation assertion := (registry → registry → claims → Prop).
Notation triple := (triple (ans := answer) (awaited := awaited) (enabled := enabled) (J := inv) (G := guar)
  (V := value) (E := thrown)).

Lemma kept_mild r f : (∀ rec, mild rec (f rec)) → kept (with_record r f).
Proof.
  intros Hf s X HI. split.
  - apply inv_set_record; [|done]. intros rec E Hok. destruct (Hf rec) as (? & ? & Ha & Hv & Ht & Hs & _).
    split_and!; [done..| |].
    + destruct Hok. constructor; rewrite ?Ha, ?Hv; done.
    + intros _ Hterm. unfold terminal_ok. by rewrite Ht, Hs.
  - apply guar_set_record. intros rec _. apply Hf.
Qed.

Lemma neutral_set_mild r f : (∀ rec, mild rec (f rec)) → neutral (set_record r f).
Proof. intros Hf. by apply neutral_update, kept_mild. Qed.

Lemma neutral_set_title r title : neutral (set_record r (λ rec, rec <| cr_title := title |>)).
Proof. apply neutral_set_mild. is_mild. Qed.
Lemma neutral_set_durable r : neutral (set_record r (λ rec, rec <| cr_durable := true |>)).
Proof. apply neutral_set_mild. is_mild. Qed.
Lemma neutral_touch r : neutral (touch r).
Proof.
  unfold touch. apply neutral_bind; [apply neutral_reads, reads_safeNow|]. intros now. apply neutral_set_mild. is_mild.
Qed.

Lemma kept_spawned t : (∀ r reason, t ≠ TDisposing r reason) → kept (spawned t).
Proof. intros Ht s X HI. split; [by apply inv_spawned|apply guar_spawned]. Qed.
Lemma neutral_spawn t : (∀ r reason, t ≠ TDisposing r reason) → neutral (spawn t).
Proof.
  intros Ht. unfold spawn. apply neutral_bind; [apply neutral_reads, reads_gets|]. intros p.
  apply neutral_bind; [by apply neutral_update, kept_spawned|]. intros _. apply neutral_reads, reads_ret.
Qed.

Lemma neutral_disposeRuntime runtime : neutral (disposeRuntime runtime).
Proof. unfold disposeRuntime. body_steps. Qed.
Lemma quiet_refreshHistory workspaceId : registry_quiet maxLiveConversations (refreshHistory workspaceId).
Proof.
  intros own φ Hφ. unfold refreshHistory. eapply triple_try; [by apply neutral_await_ok|]. intros e.
  eapply triple_weaken; [done| |exact (triple_port (ListenerError e) _ eq_refl)]. by intros ? ? ? ? [? _].
Qed.
Lemma neutral_refreshHistory workspaceId : neutral (refreshHistory workspaceId).
Proof. unfold refreshHistory. body_steps. Qed.

(** Reading a value on which the rest depends. *)
Lemma triple_read {A B : Type} (g : registry → A) (k : A → reg B) (D : value → assertion) (T : thrown → assertion) (P : assertion) (Q : B → assertion) :
  (∀ x, triple D T (λ st s f, P st s f ∧ x = g s) (k x) Q) → triple D T P (gets_ g ≫= k) Q.
Proof. intros Hk. eapply triple_bind; [apply triple_gets|]. done. Qed.

(** A change of state that is sound where it is made. *)
Lemma triple_change (φ : registry → Prop) (ψ : registry → Prop) (own : claims) (f : registry → registry) (D : value → assertion) (T : thrown → assertion) (Q : unit → assertion) :
  stable φ → (∀ s X, ψ s → inv s X → inv (f s) X ∧ guar s (f s)) →
  (∀ st s fr, holds own φ st s fr → Q tt st s fr) →
  triple D T (λ st s fr, holds own φ st s fr ∧ ψ s) (update_ f) Q.
Proof.
  intros Hφ Hf HQ. apply triple_update. intros st s fr [(Hd & HI & Hg & Hs) Hψ]. apply HQ.
  destruct (Hf s _ Hψ HI) as [HI' Hg']. split_and!; [done..|by etrans|by eapply Hφ].
Qed.

(** The next revision of a record. *)
Lemma neutral_bump r : neutral (bump r).
Proof.
  intros own φ Hφ. unfold bump. apply triple_read. intros record.
  destruct (nextRevision (JInt (cr_revision record))) as [n|e] eqn:E; [|apply triple_throw; by intros st s f [Hh _]].
  apply nextRevision_Ok in E as (Hr & Hlt & ->). apply isRevision_JInt in Hr. cbn in *.
  apply (triple_change φ); [done| |done]. intros s X -> HI. split.
  - apply inv_set_record; [|done]. intros rec Er Hok. rewrite (record_of_lookup _ _ _ Er) in *. split_and!; [done..| |done].
    destruct Hok. constructor; cbn; [done|lia| |done]. intros Ha. destruct (rc_live Ha); [by left|lia].
  - apply guar_set_record. intros rec Er. rewrite (record_of_lookup _ _ _ Er). constructor; cbn; auto. lia.
Qed.

(** The status of a record: a terminal failure stays an error. *)
Lemma triple_set_status (r : nat) (status : LiveConversationStatus) (own : claims) (φ : registry → Prop) (record : ConversationRecord) : stable φ →
  cr_runtimeFailureTerminal record && negb (bool_decide (status = InError)) = false →
  triple (never) (λ _, holds own φ) (λ st s f, holds own φ st s f ∧ record = record_of s r)
    (set_record r (λ rec, rec <| cr_status := status |>)) (λ _, holds own φ).
Proof.
  intros Hφ Hst. apply (triple_change φ); [done| |done]. intros s X -> HI. split.
  - apply inv_set_record; [|done]. intros rec Er Hok. rewrite (record_of_lookup _ _ _ Er) in *. split_and!; [done..| |].
    + destruct Hok. by constructor.
    + intros _ _ Ht. cbn in *. rewrite Ht in Hst. left. by destruct (bool_decide_reflect (status = InError)).
  - apply guar_set_record. intros rec _. constructor; cbn; auto. lia.
Qed.

Lemma neutral_deliver r payload : neutral (deliver r payload).
Proof. unfold deliver. body_steps; [apply neutral_bump|apply neutral_touch]. Qed.

(** [holds], of [r] but for the sight of a terminal failure. *)
Definition holds_but (r : nat) (own : claims) (φ : registry → Prop) : assertion := λ st s f,
  own ##ₘ f ∧ inv_but (Some r) s (own ∪ f) ∧ guar st s ∧ φ s.

Lemma holds_weaken r own φ st s f : holds own φ st s f → holds_but r own φ st s f.
Proof. intros (? & ? & ? & ?). split_and!; [done|by apply inv_weaken|done..]. Qed.

Lemma holds_restore r own φ st s f :
  (∀ rec, rg_records s !! r = Some rec → terminal_ok s r rec) → holds_but r own φ st s f → holds own φ st s f.
Proof. intros Ht (? & ? & ? & ?). split_and!; [done|by eapply inv_restore|done..]. Qed.

Lemma triple_set_terminal r own φ : stable φ →
  triple never (λ _, holds own φ) (holds_but r own φ)
    (set_record r (λ rec, rec <| cr_runtimeFailureTerminal := true |>)) (λ _, holds_but r own φ).
Proof.
  intros Hφ. apply triple_update. intros st s f (Hd & HI & Hg & Hs).
  set (g := λ rec : ConversationRecord, _).
  assert (HG : guar s (with_record r g s)).
  { apply guar_set_record. intros rec _. constructor; cbn; auto. lia. }
  split_and!; [done| |by etrans|by eapply Hφ].
  apply inv_set_record; [|done]. intros rec E Hok. split_and!; [done..| |done]. destruct Hok. by constructor.
Qed.

Lemma triple_show_error r own φ : stable φ →
  triple never (λ _, holds own φ) (holds_but r own φ)
    (set_record r (λ rec, rec <| cr_status := InError |>)) (λ _, holds own φ).
Proof.
  intros Hφ. apply triple_update. intros st s f (Hd & HI & Hg & Hs). set (g := λ rec : ConversationRecord, _).
  assert (HG : guar s (with_record r g s)).
  { apply guar_set_record. intros rec _. constructor; cbn; auto. lia. }
  apply (holds_restore r).
  - intros rec. intros [[? _]|(_ & rec0 & _ & ->)]%lookup_with_record; [done|]. by left.
  - split_and!; [done| |by etrans|by eapply Hφ].
    apply inv_set_record; [|done]. intros rec E Hok. split_and!; [done..| |done]. destruct Hok. by constructor.
Qed.

(** Showing a terminal failure. *)
Lemma triple_emit_error r own φ : stable φ →
  triple never (λ _, holds own φ)
    (λ st s f, holds_but r own φ st s f ∧ (registered s r = false → holds own φ st s f))
    (emitConversationEvent r (StatusEvent InError)) (λ _, holds own φ).
Proof.
  intros Hφ. unfold emitConversationEvent. apply triple_read. intros live. destruct live; cbn.
  - apply (triple_pre _ (holds_but r own φ)); [by intros st s f [[? _] _]|].
    apply triple_read. intros record. rewrite andb_false_r. cbn.
    eapply triple_bind.
    { apply (triple_pre _ (holds_but r own φ)); [by intros st s f [Hh _]|]. by apply (triple_set_terminal r own φ). }
    intros []. apply triple_read. intros record'.
    apply triple_if; intros Hst; breflect.
    + apply triple_ret. intros st s f [Hh ->]. apply (holds_restore r); [|done].
      intros rec E _. left. by rewrite <-(record_of_lookup _ _ _ E).
    + apply (triple_bind _ _ _ (λ _, holds own φ)); [|intros _; by apply neutral_deliver].
      apply (triple_pre _ (holds_but r own φ)); [by intros st s f [Hh _]|]. by apply triple_show_error.
  - apply triple_ret. intros st s f [[Hh Hr] Hl]. destruct (registered s r); [|auto]. apply (holds_restore r); [|done].
    intros rec E _. right. unfold closing in Hl. cbn in Hl. case_bool_decide; done.
Qed.

Lemma neutral_emitConversationEvent r payload : neutral (emitConversationEvent r payload).
Proof.
  intros own φ Hφ. destruct (match payload with StatusEvent InError => true | _ => false end) eqn:Hp.
  { destruct payload as [| | | | | | |[]| | |]; try discriminate.
    eapply triple_pre; [|by apply triple_emit_error]. intros st s f Hh. split; [by apply holds_weaken|done]. }
  unfold emitConversationEvent. eapply triple_bind; [apply reads_gets|]. intros live. cbn.
  apply triple_if; intros _; [by apply triple_ret|].
  destruct payload; try (by apply neutral_deliver).
  apply triple_read. intros record. apply triple_if; intros Hst; [apply triple_ret; by intros st s f [Hh _]|].
  assert (bool_decide (status = InError) = false) as E by (apply bool_decide_eq_false; by intros ->). rewrite E. cbn.
  apply (triple_bind _ _ _ (λ _ st s f, holds own φ st s f ∧ record = record_of s r)); [by apply triple_ret|intros _].
  apply triple_read. intros record'.
  apply triple_if; intros _; [apply triple_ret; by intros st s f [[Hh _] _]|].
  apply (triple_bind _ _ _ (λ _, holds own φ)); [|intros _; by apply neutral_deliver].
  apply (triple_pre _ (λ st s f, holds own φ st s f ∧ record = record_of s r)); [by intros st s f [Hh _]|].
  by apply triple_set_status.
Qed.

(** The stable facts, and that [r] is registered. *)
Definition and_registered (r : nat) (P : assertion) : assertion := λ st s f, P st s f ∧ registered s r = true.

Lemma neutral_handleRuntimeFailure r e : neutral (handleRuntimeFailure r e).
Proof.
  intros own φ Hφ. unfold handleRuntimeFailure. eapply triple_bind; [exact (reads_port (ListenerError e) eq_refl _)|].
  intros []. apply triple_read. intros live. cbn. destruct live; cbn; [|apply triple_ret; by intros st s f [Hh _]].
  eapply triple_bind.
  { apply (triple_pre _ (and_registered r (holds_but r own φ))); [intros st s f [Hh E]; split; [by apply holds_weaken|done]|].
    intros st s f [Hh E]. pose proof (triple_set_terminal r own φ Hφ st s f Hh) as Ht. cbn in *.
    instantiate (1 := λ _, and_registered r (holds_but r own φ)). split; [done|]. by rewrite registered_with. }
  intros []. apply triple_read. intros record. apply (triple_bind _ _ _ (λ _, holds own φ)); [|intros _].
  - case_bool_decide as Hst; cbn.
    + apply triple_ret. intros st s f [[Hh _] ->]. apply (holds_restore r); [|done].
      intros rec E _. left. by rewrite <-(record_of_lookup _ _ _ E).
    + eapply triple_pre; [|by apply triple_emit_error]. intros st s f [[Hh E] _]. split; [done|]. congruence.
  - apply neutral_bind; [by apply neutral_spawn|intros _; apply neutral_reads, reads_ret|done].
Qed.

Lemma neutral_changed r : neutral (changed r).
Proof. unfold changed. body_steps; [apply neutral_bump|by apply neutral_spawn]. Qed.
Lemma neutral_messagePersisted r b : neutral (messagePersisted r b).
Proof.
  unfold messagePersisted. body_steps; [apply neutral_set_title|apply neutral_set_durable|apply neutral_changed].
Qed.
Lemma neutral_metadataChanged r : neutral (metadataChanged r).
Proof. unfold metadataChanged. body_steps; [apply neutral_set_title|apply neutral_changed]. Qed.
Lemma neutral_handleNetworkBlocked r payload : neutral (handleNetworkBlocked r payload).
Proof.
  unfold handleNetworkBlocked. body_steps; [apply neutral_handleRuntimeFailure|apply neutral_emitConversationEvent].
Qed.
End neutrals.

#[export] Hint Resolve neutral_set_title neutral_set_durable neutral_touch neutral_disposeRuntime neutral_refreshHistory
  neutral_bump neutral_deliver neutral_emitConversationEvent neutral_handleRuntimeFailure neutral_changed
  neutral_messagePersisted neutral_metadataChanged neutral_handleNetworkBlocked : neutral.

(** Updates of what the invariant does not speak of. *)
Ltac kept_same :=
  let s := fresh "s" in
  intros s ? ?; split; [apply (inv_same _ _ s); auto|apply guar_same; cbn; auto; set_solver].

(** ** Operations *)

Section operations.
Context `{Platform} (maxLiveConversations : Z).
Notation inv := (inv maxLiveConversations).
Notation neutral := (registry_neutral maxLiveConversations).
Notation kept := (registry_kept maxLiveConversations).
Notation holds := (holds (J := inv) (G := guar)).
Notation assertion := (registry → registry → claims → Prop).
Notation triple := (triple (ans := answer) (awaited := awaited) (enabled := enabled) (J := inv) (G := guar)
  (V := value) (E := thrown)).

Lemma neutral_canonicalFile file : neutral (canonicalFile file).
Proof. unfold canonicalFile, unresolvedCanonicalFile. body_steps. Qed.

Lemma neutral_ignoring m : neutral m → neutral (ignoring m).
Proof. intros Hm. apply neutral_try; [done|]. intros e. apply neutral_reads, reads_ret. Qed.

Lemma neutral_already_live duplicate runtime workspace owner :
  neutral (already_live duplicate runtime workspace owner).
Proof. unfold already_live. body_steps. Qed.

Lemma neutral_session_lost r : neutral (session_lost r).
Proof.
  intros own φ Hφ. unfold session_lost. apply (triple_bind _ _ _ (λ _, holds_but maxLiveConversations r own φ)).
  { eapply triple_pre; [|by apply triple_set_terminal]. intros st s f. apply holds_weaken. }
  intros _. apply triple_read. intros record. apply triple_if; intros Hst; breflect.
  - apply triple_ret. intros st s f [Hh ->]. apply (holds_restore _ r); [|done].
    intros rec E _. left. by rewrite <-(record_of_lookup _ _ _ E).
  - apply (triple_bind _ _ _ (λ _, holds own φ)).
    + eapply triple_pre; [|by apply triple_show_error]. by intros st s f [Hh _].
    + intros _. revert own φ Hφ. change (neutral (bump r;; emit (EvStateChanged r))). body_steps.
Qed.

Lemma neutral_refreshDurability r : neutral (refreshDurability r).
Proof. unfold refreshDurability. body_steps. apply neutral_session_lost. Qed.

Lemma neutral_getState id : neutral (getState id).
Proof. unfold getState. body_steps. apply neutral_refreshDurability. Qed.
Lemma neutral_write_title r title : neutral (write_title r title).
Proof. unfold write_title. body_steps. apply neutral_refreshDurability. Qed.
Lemma neutral_rename id title : neutral (rename id title).
Proof. unfold rename. body_steps; try apply neutral_getState. apply neutral_write_title. Qed.
Lemma neutral_setJobConversationTitle id owner title : neutral (setJobConversationTitle id owner title).
Proof. unfold setJobConversationTitle. body_steps. apply neutral_write_title. Qed.
Lemma neutral_runJobPrompt id owner text : neutral (runJobPrompt id owner text).
Proof. unfold runJobPrompt. body_steps. Qed.
Lemma neutral_prompt id text images steer : neutral (prompt id text images steer).
Proof. unfold prompt. body_steps. Qed.
Lemma neutral_cleanupFailedForkFile file source : neutral (cleanupFailedForkFile file source).
Proof. unfold cleanupFailedForkFile. body_steps. Qed.
Lemma neutral_aborting_body r failed : neutral (aborting_body r failed).
Proof. unfold aborting_body. body_steps. Qed.

Lemma neutral_all_settled promises : neutral (all_settled promises).
Proof.
  unfold all_settled. body_steps. induction promises as [|p promises IH]; cbn; body_steps.
Qed.
Lemma neutral_dispose_rest promises workspaceIds : neutral (dispose_rest promises workspaceIds).
Proof.
  unfold dispose_rest. body_steps; [apply neutral_all_settled|].
  induction workspaceIds as [|w ws IH]; cbn; body_steps.
Qed.
Lemma neutral_beginShutdown : neutral beginShutdown.
Proof. apply neutral_update. kept_same. Qed.
Lemma neutral_spawn_for_each {A} (f : A → reg nat) l : (∀ a, neutral (f a)) → neutral (for_each f l).
Proof. intros Hf. induction l as [|a l IH]; cbn; body_steps. Qed.
Lemma neutral_abortActive : neutral abortActive.
Proof.
  unfold abortActive. body_steps; [apply neutral_beginShutdown| | | |by apply neutral_all_settled].
  - apply neutral_reads, reads_filter_records. intros r. apply reads_isBusy.
  - apply neutral_spawn_for_each. intros r. body_steps. by apply neutral_spawn.
  - apply neutral_update. kept_same.
Qed.

Lemma neutral_abort id : neutral (abort id).
Proof.
  unfold abort. body_steps; try (by apply neutral_spawn); try (apply neutral_update; kept_same).
  apply neutral_finally; [body_steps|]. apply quiet_update. intros s X HI. case_decide; [|split; [done|reflexivity]].
  split; [by apply (inv_same _ _ s)|apply guar_same; auto].
Qed.
End operations.
