(* ===== verification/RegistryRegistration.v ===== *)
(** The operations of the registry that own something while they wait: a turn
    in the capacity queue, a reserved slot, a record being closed. *)
From S2P Require Import Prelude JsValues Errors Revisions Programs Protocol Tasks TaskRules.
From S2P Require Import Registry RegistryTasks RegistryOperations RegistryInvariant RegistryTriples.
#[local] Open Scope string_scope. #[local] Open Scope nat_scope.

Definition closing_as (r p : nat) (s : registry) : Prop := rg_pendingCloses s !! r = Some p.
Lemma stable_closing_as r p : stable (closing_as r p).
Proof. intros s s' Hr Hg. by apply Hg. Qed.
Definition unlocked (t : nat) (s : registry) : Prop := t ∈ rg_unlocked s.
Lemma stable_unlocked t : stable (unlocked t).
Proof. intros s s' Ht Hg. by apply Hg. Qed.
#[export] Hint Resolve stable_closing_as stable_unlocked : registry.

(** Owning one claim. *)
Lemma union_claim (k : nat + nat) (c : claim) (f : claims) : {[k := c]} ∪ f = <[k := c]> f.
Proof. symmetry. apply insert_union_singleton_l. Qed.

Section capacity.
Context `{Platform} (maxLiveConversations : Z).
Notation inv := (inv maxLiveConversations).
Notation neutral := (registry_neutral maxLiveConversations).
Notation reads := (registry_reads maxLiveConversations).
Notation holds := (holds (J := inv) (G := guar)).
Notation assertion := (registry → registry → claims → Prop).
Notation triple := (triple (ans := answer) (awaited := awaited) (enabled := enabled) (J := inv) (G := guar)
  (V := value) (E := thrown)).

(** ** Rules *)

Lemma triple_conseq {A : Type} (T T' : thrown → assertion) (P P' : assertion) (m : reg A) (Q Q' : A → assertion) :
  (∀ st s f, P st s f → P' st s f) → (∀ x st s f, Q' x st s f → Q x st s f) →
  (∀ e st s f, T' e st s f → T e st s f) → triple never T' P' m Q' → triple never T P m Q.
Proof. intros HP HQ HT Hm st s f HPs. eapply wpc_mono; [|by apply Hm, HP]. intros [x|v|e] st' s' f'; cbn; auto. Qed.

Lemma triple_reads {A : Type} (T : thrown → assertion) (P : assertion) (m : reg A) :
  reads m → (∀ e st s f, P st s f → T e st s f) → triple never T P m (λ _, P).
Proof. intros Hm HT. by apply (triple_conseq T (λ _, P) P P m (λ _, P) (λ _, P)). Qed.

(** An assertion that outlives a turn of the scheduler. *)
Definition lasting (Q : assertion) : Prop := triple never (λ _ _ _ _, False) Q (await_ Tick) (λ _, Q).
Lemma lasting_holds own φ : stable φ → lasting (holds own φ).
Proof. intros Hφ. exact (quiet_await Tick eq_refl own φ Hφ). Qed.

Lemma triple_awaiting {A : Type} (T : thrown → assertion) (P : assertion) (m : reg A) (Q : A → assertion) :
  (∀ x, lasting (Q x)) → (∀ e, lasting (T e)) → triple never T P m Q → triple never T P (awaiting m) Q.
Proof. intros HQ HT Hm. eapply (triple_finally _ never _ T); [done|done| |done]. by intros v st s f. Qed.

Lemma triple_or {A : Type} (T : thrown → assertion) (P P' : assertion) (m : reg A) (Q : A → assertion) :
  triple never T P m Q → triple never T P' m Q → triple never T (λ st s f, P st s f ∨ P' st s f) m Q.
Proof. intros H1 H2 st s f [HP|HP]; [by apply H1|by apply H2]. Qed.

(** ** A reserved slot *)

(** The slot is owned, or was given back. *)
Definition slot (q : nat) (b : bool) (φ : registry → Prop) : assertion := holds {[inl q := Slot b]} φ.
Definition slotted (q : nat) (φ : registry → Prop) : assertion := λ st s f,
  (∃ b, slot q b φ st s f) ∨ holds ∅ (λ s, φ s ∧ released q s) st s f.

Lemma slot_slotted q b φ st s f : slot q b φ st s f → slotted q φ st s f.
Proof. left. by exists b. Qed.

Lemma neutral_slotted {A : Type} q φ (m : reg A) : stable φ → neutral m →
  triple never (λ _, slotted q φ) (slotted q φ) m (λ _, slotted q φ).
Proof.
  intros Hφ Hm. apply triple_or; [apply triple_exists; intros b|].
  - eapply triple_conseq, Hm; [done|..|exact Hφ]; intros ? ???; apply slot_slotted.
  - eapply triple_conseq, (Hm ∅ (λ s, φ s ∧ released q s)); [done|by right..|].
    apply stable_and; [done|apply stable_released].
Qed.
Lemma lasting_slotted q φ : stable φ → lasting (slotted q φ).
Proof.
  intros Hφ. apply triple_or; [apply triple_exists; intros b|].
  - eapply triple_conseq, (lasting_holds {[inl q := Slot b]} φ Hφ); [done| |done]. intros ? ???. apply slot_slotted.
  - eapply triple_conseq, (lasting_holds ∅ (λ s, φ s ∧ released q s)); [done|by right|done|].
    apply stable_and; [done|apply stable_released].
Qed.

Lemma slot_released q b φ st s f : slot q b φ st s f → rg_released s !! q = Some false.
Proof.
  intros (Hd & HI & _). eapply (cp_slots _ _ _ (in_capacity _ _ _ _ HI)). rewrite union_claim. apply lookup_insert_eq.
Qed.

(** Giving the slot back, together with a change of the leases. *)
Lemma slot_release q b φ leases st s f : stable φ →
  (∀ l st q', leases !! l = Some (st, q') → q' = l ∧ l < rg_next s ∧
     (rg_released s !! l = Some false → st = LeaseReserved ∨ l = q)) →
  slot q b φ st s f →
  holds ∅ (λ s, φ s ∧ released q s) st (release_reservation q (s <| rg_leases := leases |>)) f.
Proof.
  intros Hφ Hl Hs. pose proof (slot_released _ _ _ _ _ _ Hs) as Hf. destruct Hs as (Hd & HI & Hg & Hs).
  assert (HG : guar s (release_reservation q (s <| rg_leases := leases |>))) by apply guar_release.
  split_and!; [apply map_disjoint_empty_l| |by etrans|by eapply Hφ|].
  - rewrite (left_id_L ∅ (∪)). rewrite union_claim in HI. rewrite <-(delete_insert_id f (inl q) (Slot b)).
    + by apply inv_release_with.
    + by apply map_disjoint_singleton_l in Hd.
  - apply released_release. by eexists.
Qed.

Lemma triple_release q φ : stable φ →
  triple never (λ _ _ _ _, False) (slotted q φ) (release q) (λ _, holds ∅ (λ s, φ s ∧ released q s)).
Proof.
  intros Hφ. apply triple_update. intros st s f [[b Hs]|Hs].
  - replace s with (s <| rg_leases := rg_leases s |>) at 1 by by destruct s. apply (slot_release _ b); [done| |done].
    intros l st' q' E. destruct Hs as (_ & HI & _). destruct (cp_leases _ _ _ (in_capacity _ _ _ _ HI) _ _ _ E) as (? & ? & ?).
    auto.
  - destruct Hs as (Hd & HI & Hg & Hs & Hr). unfold release_reservation. rewrite decide_False; [done|].
    unfold released in Hr. congruence.
Qed.

Lemma slot_drop q b φ st s f : slot q b φ st s f → holds ∅ φ st s f.
Proof.
  intros (Hd & HI & Hg & Hs). split_and!; [apply map_disjoint_empty_l| |done..]. rewrite (left_id_L ∅ (∪)).
  rewrite union_claim in HI. rewrite <-(delete_insert_id f (inl q) (Slot b)); [by apply inv_drop|].
  by apply map_disjoint_singleton_l in Hd.
Qed.

(** ** Closing a record *)

Lemma triple_disposeRecord r reason own φ :
  (∀ s, φ s → known r s) → (∀ s, φ s → rg_pendingCloses s !! r = None → φ (start_closing r reason s)) →
  triple never (λ _ _ _ _, False) (holds own φ) (disposeRecord r reason) (λ p, holds own (λ s, φ s ∧ closing_as r p s)).
Proof.
  intros Hknown Hφ. unfold disposeRecord. apply triple_read. intros existing. destruct existing as [p|].
  - apply triple_ret. intros st s f [Hh E]. apply holds_and. split; [done|]. by symmetry in E.
  - apply triple_read. intros p. apply (triple_bind _ _ _ (λ _, holds own (λ s, φ s ∧ closing_as r p s))).
    + apply triple_update. intros st s f [[(Hd & HI & Hg & Hs) E] ->]. split_and!; [done| |etrans; [exact Hg|]|by apply Hφ|].
      * apply inv_start_closing; [by apply Hknown|done|done].
      * by apply guar_start_closing.
      * unfold closing_as. cbn. by rewrite lookup_insert_eq.
    + intros _. by apply triple_ret.
Qed.

(** A settled disposal is over. *)
Lemma triple_await_closing r p own φ :
  stable φ → (∀ s, φ s → closing_as r p s) →
  triple never (λ _, holds own (λ s, φ s ∧ gone r s)) (holds own φ)
    (await_ok (AwaitTask p) id) (λ _, holds own (λ s, φ s ∧ gone r s)).
Proof.
  intros Hφ Hp. unfold await_ok.
  apply (triple_bind _ _ _ (λ _, holds own (λ s, φ s ∧ gone r s))).
  - apply triple_quiet. eapply triple_conseq, (triple_await_stable (AwaitTask p) own φ eq_refl Hφ); [done| |done].
    intros res st s f (Hd & HI & Hg & Hs & He). cbn in He. split_and!; [done..|].
    destruct (tk_close _ (in_tasks _ _ _ _ HI) _ _ (Hp _ Hs)) as (Hk & _ & Hdead & _). split; [done|].
    apply Hdead. by eexists.
  - intros res. apply reads_lift.
Qed.

Lemma neutral_dispose_and_wait r reason own φ : stable φ → (∀ s, φ s → known r s) →
  triple never (λ _, holds own φ) (holds own φ) (dispose_and_wait r reason) (λ _, holds own φ).
Proof.
  intros Hφ Hknown. unfold dispose_and_wait.
  apply (triple_bind _ _ _ (λ p, holds own (λ s, φ s ∧ closing_as r p s))).
  - apply triple_quiet, triple_disposeRecord; [done|]. intros s Hs Hn. eapply Hφ; [done|]. by apply guar_start_closing.
  - intros p. apply (triple_bind _ _ _ (λ _, holds own φ)); [|intros _; by apply triple_ret].
    assert (Hst : stable (λ s, φ s ∧ closing_as r p s)) by (apply stable_and; [done|apply stable_closing_as]).
    eapply triple_conseq, (triple_await_closing r p own (λ s, φ s ∧ closing_as r p s)); [done|..|done|by intros s [_ ?]];
      intros ? ???; apply holds_mono; tauto.
Qed.

(** ** The queue *)

(** The turn after ticket [p], with what may be left to evict. *)
Definition turn (p : nat) (budget : option (nat * option nat)) (φ : registry → Prop) : assertion :=
  holds {[inr (S p) := Ticket budget]} (λ s, φ s ∧ unlocked p s).

Lemma turn_change p old new φ st s f :
  (∀ b e, new = Some (b, e) → inv s ({[inr (S p) := Ticket old]} ∪ f) →
     length (rg_byId s) + counted ({[inr (S p) := Ticket old]} ∪ f) ≤ b + evictee s e ∧
     ∀ r, e = Some r → is_Some (rg_pendingCloses s !! r)) →
  turn p old φ st s f → turn p new φ st s f.
Proof.
  intros Hnew (Hd & HI & Hg & Hs & Hu). pose proof Hd as Hf%map_disjoint_singleton_l.
  split_and!; [by apply map_disjoint_singleton_l|..|done|done|done].
  assert ({[inr (S p) := Ticket new]} ∪ f = <[inr (S p) := Ticket new]> ({[inr (S p) := Ticket old]} ∪ f)) as ->.
  { by rewrite !union_claim, insert_insert_eq. }
  eapply inv_budget; [by rewrite union_claim, lookup_insert_eq|done| |done]. intros b e E. by apply Hnew.
Qed.

Lemma turn_budget p b e φ st s f : turn p (Some (b, e)) φ st s f →
  length (rg_byId s) + counted ({[inr (S p) := Ticket (Some (b, e))]} ∪ f) ≤ b + evictee s e.
Proof.
  intros (Hd & HI & _). apply (qu_budget _ _ (in_queue _ _ _ _ HI) (S p)). by rewrite union_claim, lookup_insert_eq.
Qed.

(** The turn begins: the budget is what is live or reserved. *)
Lemma turn_begin p φ st s f : turn p None φ st s f →
  ∃ b, (b ≤ Z.to_nat maxLiveConversations) ∧ turn p (Some (b, None)) φ st s f.
Proof.
  intros Ht. pose proof Ht as (_ & HI & _). eexists. split; [exact (cp_limit _ _ _ (in_capacity _ _ _ _ HI))|].
  eapply turn_change, Ht. intros b e [= <- <-] _. split; [cbn; lia|done].
Qed.

(** The candidate for eviction is one of the given records. *)
Lemma triple_lru (protected : option nat) (records : list nat) (C : nat → Prop) (P : assertion) : ∀ candidate,
  (∀ r, r ∈ records → C r) → (∀ r, candidate = Some r → C r) →
  triple never (λ _, P) P (leastRecentlyUsedIdle protected records candidate)
    (λ c st s f, P st s f ∧ ∀ r, c = Some r → C r).
Proof.
  induction records as [|r records IH]; intros candidate Hr Hc; cbn [leastRecentlyUsedIdle].
  { apply triple_ret. done. }
  assert (Hrest : ∀ r', r' ∈ records → C r') by (intros; apply Hr; by right).
  apply (triple_bind _ _ _ (λ _, P)); [apply reads_gets|]. intros record.
  apply (triple_bind _ _ _ (λ _, P)); [apply triple_if; intros _; [exact (reads_port (IsStreaming _) eq_refl P)|apply reads_ret]|].
  intros streaming.
  apply (triple_bind _ _ _ (λ _, P)); [apply reads_gets|]. intros pending.
  apply (triple_bind _ _ _ (λ _, P)); [apply reads_hasForkReservation|]. intros forked.
  apply triple_if; intros _; [by apply IH|].
  apply triple_read. intros best. eapply triple_pre; [|apply (triple_pure (best = r ∨ candidate = Some best)); intros Hb; apply IH; [done|]].
  - intros st s f [Hs ->]. split; [done|]. destruct candidate as [c|]; [|by left]. case_match; auto.
  - intros r' [= <-]. destruct Hb as [->|Hb]; [apply Hr; by left|by apply Hc].
Qed.

(** One eviction of a live record: the budget shrinks. *)
Lemma triple_evict (r p b : nat) φ : stable φ →
  triple never (λ _ st s f, ∃ be, turn p (Some be) φ st s f)
    (λ st s f, turn p (Some (b, None)) φ st s f ∧ live s r)
    (dispose_and_wait r ByEvict)
    (λ _ st s f, 1 ≤ b ∧ turn p (Some (b - 1, None)) φ st s f).
Proof.
  intros Hφ. unfold dispose_and_wait. set (own := {[inr (S p) := Ticket (Some (b, None))]} : claims).
  set (own' := {[inr (S p) := Ticket (Some (b - 1, Some r))]} : claims).
  set (ψ := λ s, φ s ∧ unlocked p s).
  assert (Hψ : stable ψ) by (apply stable_and; [done|apply stable_unlocked]).
  apply (triple_bind _ _ _ (λ c st s f, 1 ≤ b ∧ holds own' (λ s, ψ s ∧ closing_as r c s) st s f)).
  - apply triple_quiet.
    eapply triple_conseq, (triple_disposeRecord r ByEvict own (λ s, (ψ s ∧ live s r) ∧ known r s)); [|  |done| |].
    + intros st s f [(Hd & HI & Hg & Hs) Hl]. split_and!; [done..|].
      eapply live_bound; [apply HI| |done]. intros r' rec. apply (in_records _ _ _ _ HI).
    + intros c st s f (Hd & HI & Hg & [[Hs Hl] _] & Hc).
      assert (Ht : turn p (Some (b, None)) φ st s f) by done.
      pose proof (turn_budget _ _ _ _ _ _ _ Ht) as Hb. cbn in Hb.
      assert (1 ≤ length (rg_byId s)).
      { unfold live, map_values in Hl. destruct (rg_byId s); [by apply elem_of_nil in Hl|cbn; lia]. }
      split; [lia|]. assert (Ht' : turn p (Some (b - 1, Some r)) φ st s f).
      { eapply turn_change, Ht. intros b' e [= <- <-] _. split.
        - cbn. rewrite decide_True by done. lia.
        - intros r' [= <-]. by eexists. }
      destruct Ht' as (? & ? & ? & ?). split_and!; done.
    + by intros s [_ ?].
    + intros s [[Hs Hl] Hk] Hn. split; [split; [|done]|unfold known in *; cbn; lia].
      eapply Hψ; [done|]. by apply guar_start_closing.
  - intros c. apply triple_pure_l. intros Hb.
    assert (Hst : stable (λ s, ψ s ∧ closing_as r c s)) by (apply stable_and; [done|apply stable_closing_as]).
    assert (Hend : ∀ st s f, holds own' (λ s, (ψ s ∧ closing_as r c s) ∧ gone r s) st s f →
      turn p (Some (b - 1, None)) φ st s f).
    { intros st s f (Hd & HI & Hg & [Hs _] & _ & Hdead).
      assert (Ht : turn p (Some (b - 1, Some r)) φ st s f) by done.
      pose proof (turn_budget _ _ _ _ _ _ _ Ht) as Hle. cbn in Hle. rewrite decide_False in Hle by done.
      eapply turn_change, Ht. intros b' e [= <- <-] _. split; [cbn; lia|done]. }
    apply (triple_bind _ _ _ (λ _ st s f, turn p (Some (b - 1, None)) φ st s f)).
    + eapply triple_conseq, (triple_await_closing r c own' _ Hst); [done| | |by intros s [_ ?]].
      * intros v. apply Hend.
      * intros e st s f Hh. eexists. by apply Hend.
    + intros _. apply triple_ret. by intros st s f.
Qed.

(** Making room in a turn: never more evictions than the budget. *)
Lemma triple_make_room (protected : option nat) (p : nat) φ : stable φ → ∀ fuel b, b < fuel →
  triple never (λ _ st s f, ∃ be, turn p (Some be) φ st s f) (turn p (Some (b, None)) φ)
    (make_room maxLiveConversations fuel protected)
    (λ _ st s f, ∃ be, turn p (Some be) φ st s f ∧
       (Z.of_nat (length (rg_byId s)) + rg_capacityReservations s < maxLiveConversations)%Z).
Proof.
  intros Hφ. induction fuel as [|fuel IH]; intros b Hb; [lia|]. cbn [make_room].
  apply triple_read. intros full. destruct full; cbn; [|apply triple_ret; intros st s f [Ht E]; symmetry in E; breflect; eauto].
  apply triple_read. intros records.
  set (P := λ st s f, turn p (Some (b, None)) φ st s f ∧ records = map_values (rg_byId s)).
  apply (triple_bind _ _ _ (λ c st s f, P st s f ∧ ∀ r, c = Some r → r ∈ records)).
  { eapply triple_conseq, (triple_lru protected records (λ r, r ∈ records) P None); [|done| |done|done].
    - intros st s f [[Ht _] E]. done.
    - intros e st s f [Ht _]. by eexists. }
  intros [r|]; [|apply triple_throw; intros st s f [[Ht _] _]; by eexists].
  apply (triple_bind _ _ _ (λ _ st s f, 1 ≤ b ∧ turn p (Some (b - 1, None)) φ st s f)).
  - eapply triple_pre, triple_evict; [|done]. intros st s f [[Ht ->] Hr]. split; [done|]. by apply Hr.
  - intros _. apply triple_pure_l. intros H1. apply IH. lia.
Qed.

(** Two claims: the turn and the new slot. *)
Definition reserved_turn (p q : nat) (φ : registry → Prop) : assertion :=
  holds {[inl q := Slot true; inr (S p) := Ticket None]} (λ s, φ s ∧ unlocked p s).

Lemma turn_reserve p be φ st s f : stable φ →
  (Z.of_nat (length (rg_byId s)) + rg_capacityReservations s < maxLiveConversations)%Z →
  turn p (Some be) φ st s f → reserved_turn p (rg_next s) φ st (add_reservation s) f.
Proof.
  intros Hφ Hroom (Hd & HI & Hg & Hs & Hu). pose proof Hd as Hf%map_disjoint_singleton_l.
  assert (HG : guar s (add_reservation s)) by (eapply guar_reserve, (in_capacity _ _ _ _ HI)).
  assert (Hfree : f !! inl (rg_next s) = None).
  { apply eq_None_not_Some. intros [c E].
    destruct (cp_slots _ _ _ (in_capacity _ _ _ _ HI) (rg_next s) c) as [Hr _]; [by rewrite union_claim, lookup_insert_ne|].
    pose proof (cp_released _ _ _ (in_capacity _ _ _ _ HI) _ (mk_is_Some _ _ Hr)). lia. }
  split_and!; [|..|by etrans|by eapply Hφ|done].
  - apply map_disjoint_insert_l. split; [done|]. by apply map_disjoint_singleton_l.
  - rewrite <-insert_union_l. rewrite union_claim in *. rewrite <-(insert_insert_eq f _ (Ticket None) (Ticket (Some be))).
    apply (inv_reserve _ _ _ be); [by rewrite lookup_insert_eq|done|done].
Qed.

(** The turn ends. *)
Lemma holds_unlock own p c φ st s f : own !! inr (S p) = None → stable φ →
  holds (<[inr (S p) := c]> own) (λ s, φ s ∧ unlocked p s) st s f → holds own φ st (unlock (S p) s) f.
Proof.
  intros Hown Hφ (Hd & HI & Hg & Hs & Hu). apply map_disjoint_insert_l in Hd as [Hf Hd].
  assert (HG : guar s (unlock (S p) s)) by (apply guar_same; auto; cbn; set_solver).
  split_and!; [done| |by etrans|by eapply Hφ]. rewrite <-(delete_insert_id (own ∪ f) (inr (S p)) c).
  - rewrite <-insert_union_l in HI. by eapply inv_unlock; [apply lookup_insert_eq|..].
  - by apply lookup_union_None.
Qed.

Lemma triple_reserveCapacity (protected : option nat) (validate : reg unit) φ : stable φ → reads validate →
  triple never (λ _, holds ∅ φ) (holds ∅ φ) (reserveCapacity maxLiveConversations protected validate)
    (λ q, slot q true φ).
Proof.
  intros Hφ Hval. unfold reserveCapacity. apply triple_read. intros p.
  apply (triple_bind _ _ _ (λ _, holds {[inr (S p) := Ticket None]} φ)).
  { apply triple_update. intros st s f [(Hd & HI & Hg & Hs) ->]. rewrite (left_id_L ∅ (∪)) in HI.
    destruct (inv_take_ticket _ _ _ _ HI) as [Hfree HI'].
    assert (HG : guar s (take_ticket s)) by by apply guar_same; auto.
    split_and!; [by apply map_disjoint_singleton_l|by rewrite union_claim|by etrans|by eapply Hφ]. }
  intros _. apply (triple_bind _ _ _ (λ _, turn p None φ)).
  { apply triple_quiet. exact (triple_await_stable (AwaitTicket p) _ φ eq_refl Hφ). }
  intros _.
  apply (triple_finally _ never _ (λ _ st s f, ∃ b, turn p b φ st s f) _ _ _ _ (λ q, reserved_turn p q φ)).
  - apply (triple_bind _ _ _ (λ _, turn p None φ)).
    { apply triple_reads; [apply reads_assertAcceptingWork|]. intros e st s f Ht. by exists None. }
    intros _. apply (triple_bind _ _ _ (λ _, turn p None φ)).
    { apply triple_reads; [done|]. intros e st s f Ht. by exists None. }
    intros _. eapply triple_bind.
    { eapply triple_pre; [apply turn_begin|]. apply triple_exists. intros b. apply triple_pure_l. intros Hb.
      eapply triple_conseq, (triple_make_room protected p φ Hφ (eviction_fuel maxLiveConversations) b);
        [done|done| |unfold eviction_fuel; lia].
      intros e st s f [be Ht]. by eexists. }
    intros []. apply triple_exists. intros be. apply triple_read. intros q.
    apply (triple_bind _ _ _ (λ _, reserved_turn p q φ)); [|intros _; by apply triple_ret].
    apply triple_update. intros st s f [[Ht Hroom] ->]. by eapply turn_reserve.
  - intros q. apply triple_update. intros st s f Hh. eapply (holds_unlock {[inl q := Slot true]}); [|done|].
    + by rewrite lookup_singleton_ne.
    + unfold reserved_turn in Hh. rewrite insert_singleton_ne in Hh by done. exact Hh.
  - by intros v st s f.
  - intros e. apply triple_exists. intros b. apply triple_update. intros st s f Hh.
    by eapply (holds_unlock ∅); [apply lookup_empty|..].
Qed.
End capacity.

(** Registering, forking and closing conversations keeps to the registry's
    invariant: each construction turns its reserved slot into a live record or
    gives it back, and a replaced identity stays in the indexes. *)
#[local] Open Scope string_scope. #[local] Open Scope nat_scope.

Section registration.
Context `{Platform} (maxLiveConversations : Z).
Notation inv := (inv maxLiveConversations).
Notation neutral := (registry_neutral maxLiveConversations).
Notation reads := (registry_reads maxLiveConversations).
Notation holds := (holds (J := inv) (G := guar)).
Notation slot := (slot maxLiveConversations).
Notation slotted := (slotted maxLiveConversations).
Notation assertion := (registry → registry → claims → Prop).
Notation triple := (triple (ans := answer) (awaited := awaited) (enabled := enabled) (J := inv) (G := guar)
  (V := value) (E := thrown)).

(** A new record, not attached yet. *)
Definition fresh_record (r : nat) (s : registry) : Prop :=
  live s r ∧ rg_pendingCloses s !! r = None ∧ cr_attached (record_of s r) = false.

Lemma slot_add_record record q φ st s f : stable φ →
  map_get (cr_id record) (rg_byId s) = None → map_get (cr_sessionFile record) (rg_bySessionFile s) = None →
  cr_attached record = false → cr_revision record = 0%Z → cr_runtimeFailureTerminal record = false →
  rg_shuttingDown s = false → slot q true φ st s f →
  slot q false φ st (add_record record s) f ∧ fresh_record (rg_next s) (add_record record s).
Proof.
  intros Hφ Hid Hfile Ha Hr Ht Hshut (Hd & HI & Hg & Hs). pose proof Hd as Hf%map_disjoint_singleton_l.
  assert (HG : guar s (add_record record s)).
  { apply guar_add_record; [|done|done]. intros r rec E. by destruct (in_records _ _ _ _ HI _ _ E). }
  split; [split_and!; [by apply map_disjoint_singleton_l| |by etrans|by eapply Hφ]|split_and!].
  - rewrite union_claim in *. rewrite <-(insert_insert_eq f _ (Slot false) (Slot true)).
    apply inv_add_record; try done. by rewrite lookup_insert_eq.
  - apply live_add_record; auto.
  - apply eq_None_not_Some. intros [p E]. destruct (tk_close _ (in_tasks _ _ _ _ HI) _ _ E). lia.
  - rewrite (record_of_lookup _ _ record); [done|]. cbn. by rewrite lookup_insert_eq.
Qed.

(** Subscribing to the new record's runtime; a failure takes it back. *)
Lemma triple_attach r runtime q φ : stable φ →
  triple never (λ _, slot q false φ) (λ st s f, slot q false φ st s f ∧ fresh_record r s) (attach r runtime)
    (λ _, slot q false φ).
Proof.
  intros Hφ. unfold attach. set (P := λ st s f, slot q false φ st s f ∧ fresh_record r s).
  eapply (triple_try never (λ _, P)).
  - do 4 (apply (triple_bind _ _ _ (λ _, P)); [exact (reads_port_ok _ (Subscribe runtime) _ eq_refl P)|intros _]).
    apply triple_update. intros st s f [(Hd & HI & Hg & Hs) (Hl & Hc & Ha)].
    set (g := λ rec : ConversationRecord, rec <| cr_attached := true |>).
    assert (HG : guar s (with_record r g s)) by (apply guar_set_record; intros rec _; constructor; cbn; auto; lia).
    split_and!; [done| |by etrans|by eapply Hφ].
    apply inv_set_record; [|done]. intros rec E Hok. split_and!; [done..| |done]. destruct Hok. constructor; cbn; auto.
  - intros e. apply (triple_bind _ _ _ (λ _, slot q false φ)); [|intros _; by apply triple_throw].
    apply triple_update. intros st s f [(Hd & HI & Hg & Hs) (Hl & Hc & Ha)].
    assert (HG : guar s (unregister r s)) by apply guar_unregister, HI.
    split_and!; [done| |by etrans|by eapply Hφ]. apply inv_unregister; [|done].
    intros rec E. rewrite (record_of_lookup _ _ _ E) in Ha. congruence.
Qed.

Lemma triple_assertAcceptingWork (P : assertion) :
  triple never (λ _, P) P assertAcceptingWork (λ _ st s f, P st s f ∧ rg_shuttingDown s = false).
Proof.
  unfold assertAcceptingWork. apply triple_read. intros b. destruct b; cbn.
  - apply triple_throw. by intros st s f [? _].
  - apply triple_ret. by intros st s f [? E].
Qed.

Lemma triple_register runtime workspace source onRegistered owner q φ : stable φ →
  triple never (λ _, slotted q φ) (slot q false φ) onRegistered (λ _, slotted q φ) →
  triple never (λ _, slotted q φ) (slot q true φ) (register runtime workspace source onRegistered owner)
    (λ _, slotted q φ).
Proof.
  intros Hφ Hon. unfold register. set (P := slot q true φ).
  assert (HT : ∀ (e : thrown) st s f, P st s f → slotted q φ st s f) by (intros e st s f; apply slot_slotted).
  assert (Hslot : stable φ) by done.
  apply (triple_bind _ _ _ (λ _, P)); [apply triple_reads; [apply reads_assertAcceptingWork|done]|intros _].
  apply (triple_bind _ _ _ (λ _, P)).
  { apply triple_reads; [exact (reads_port_ok _ (Identity runtime) _ eq_refl)|done]. }
  intros identity.
  apply (triple_bind _ _ _ (λ _, P)); [apply triple_reads; [apply reads_assertIdentityInWorkspace|done]|intros _].
  apply (triple_bind _ _ _ (λ _, P)); [apply triple_reads; [exact (reads_port (PolicyOf runtime) eq_refl)|done]|intros policy].
  apply (triple_bind _ _ _ (λ _, P)); [apply triple_reads; [apply reads_throw_when|done]|intros _].
  apply (triple_bind _ _ _ (λ _, P)).
  { eapply triple_conseq, (neutral_awaiting _ _ (neutral_canonicalFile _ _)); done. }
  intros sessionFile.
  apply (triple_bind _ _ _ (λ _ st s f, P st s f ∧ rg_shuttingDown s = false)).
  { eapply triple_conseq, (triple_assertAcceptingWork P); done. }
  intros _. set (P' := λ st s f, P st s f ∧ rg_shuttingDown s = false).
  assert (HT' : ∀ (e : thrown) st s f, P' st s f → slotted q φ st s f) by (intros e st s f [Hp _]; by apply (HT e)).
  assert (Hlive : ∀ d, triple never (λ _, slotted q φ) P' (already_live d runtime workspace owner) (λ _, slotted q φ)).
  { intros d. eapply triple_conseq, neutral_slotted; [intros st s f; apply (HT' (app_error INTERNAL_ERROR))|done..|].
    apply neutral_already_live. }
  apply (triple_bind _ _ _ (λ _, P')); [apply triple_reads; [apply reads_gets|done]|intros duplicate].
  destruct duplicate as [d|]; [apply Hlive|].
  apply (triple_bind _ _ _ (λ _, P')); [apply triple_reads; [apply reads_safeNow|done]|intros now].
  apply (triple_bind _ _ _ (λ _, P')); [apply triple_reads; [exact (reads_port (PolicyOf runtime) eq_refl)|done]|intros policy'].
  apply (triple_bind _ _ _ (λ _, P')); [apply triple_reads; [apply reads_titleOf|done]|intros title].
  apply (triple_bind _ _ _ (λ _, P')); [apply triple_reads; [exact (reads_port (IsStreaming runtime) eq_refl)|done]|intros streaming].
  apply (triple_bind _ _ _ (λ _, P')); [apply triple_reads; [apply reads_createdAtOf|done]|intros createdAt].
  set (record := Build_ConversationRecord _ _ _ _ _ _ _ _ _ _ _ _ _ _ _ _ _ _ _ _ _ _ _).
  apply triple_read. intros raced. destruct raced as [d|].
  { eapply triple_pre, Hlive. by intros st s f [? _]. }
  apply triple_read. intros r.
  apply (triple_bind _ _ _ (λ _ st s f, slot q false φ st s f ∧ fresh_record r s)).
  { apply triple_update. intros st s f [[[Hs Hshut] Hnone] ->]. symmetry in Hnone. unfold live_duplicate in Hnone.
    destruct (map_get (cr_id record) (rg_byId s)) eqn:Hid; [done|]. by apply slot_add_record. }
  intros _. apply (triple_bind _ _ _ (λ _, slot q false φ)).
  { eapply triple_conseq, (triple_attach r runtime q φ Hφ); [done|done|]. intros e st s f. apply slot_slotted. }
  intros _. apply (triple_bind _ _ _ (λ _, slotted q φ)); [done|intros _].
  apply (neutral_slotted _ _ _ (emit _;; mret r) Hφ). body_steps.
Qed.

(** ** Creating and opening *)

Lemma slotted_step {A : Type} q φ (m : reg A) : stable φ → neutral m →
  triple never (λ _, slotted q φ) (slotted q φ) m (λ _, slotted q φ).
Proof. apply neutral_slotted. Qed.

Lemma triple_register_or_dispose runtime m q φ : stable φ →
  triple never (λ _, slotted q φ) (slot q true φ) m (λ _, slotted q φ) →
  triple never (λ _, slotted q φ) (slot q true φ) (register_or_dispose runtime m) (λ _, slotted q φ).
Proof.
  intros Hφ Hm. eapply (triple_try never (λ _, slotted q φ)).
  - apply (triple_bind _ _ _ (λ _, slot q true φ)); [|intros _; done].
    apply triple_reads; [apply reads_assertAcceptingWork|]. intros e st s f. apply slot_slotted.
  - intros e. apply slotted_step; [done|]. body_steps. apply neutral_ignoring. body_steps.
Qed.

Lemma triple_and_refresh (P : assertion) m q φ : stable φ →
  triple never (λ _, slotted q φ) P m (λ _, slotted q φ) →
  triple never (λ _, slotted q φ) P (and_refresh m) (λ _, slotted q φ).
Proof.
  intros Hφ Hm. apply (triple_bind _ _ _ (λ _, slotted q φ)); [done|]. intros r. apply slotted_step; [done|]. body_steps.
Qed.

Lemma triple_awaiting_slotted {A : Type} (P : assertion) (m : reg A) q φ : stable φ →
  triple never (λ _, slotted q φ) P m (λ _, slotted q φ) →
  triple never (λ _, slotted q φ) P (awaiting m) (λ _, slotted q φ).
Proof. intros Hφ. apply triple_awaiting; intros _; by apply lasting_slotted. Qed.

Lemma triple_registered runtime workspace source q φ : stable φ →
  triple never (λ _, slotted q φ) (slot q true φ)
    (awaiting (register runtime workspace source (mret tt) None)) (λ _, slotted q φ).
Proof.
  intros Hφ. apply triple_awaiting_slotted; [done|]. apply triple_register; [done|]. apply triple_ret.
  intros st s f. apply slot_slotted.
Qed.

(** A construction between reserving and releasing a slot. *)
Lemma triple_constructing {A : Type} (m : reg A) q φ : stable φ →
  triple never (λ _, slotted q φ) (slot q true φ) m (λ _, slotted q φ) →
  triple never (λ _, holds ∅ φ) (slot q true φ) (finally_ m (release q)) (λ _, holds ∅ φ).
Proof.
  intros Hφ Hm.
  assert (Hrel : triple never (λ _ _ _ _, False) (slotted q φ) (release q) (λ _, holds ∅ φ)).
  { eapply triple_conseq, (triple_release _ q φ Hφ); [done| |done]. intros x st s f. apply holds_mono. by intros ? [? _]. }
  eapply (triple_finally _ never _ (λ _, slotted q φ)); [done|done| |done]. by intros v st s f.
Qed.

Lemma triple_reserve protected validate φ : stable φ → reads validate →
  triple never (λ _, holds ∅ φ) (holds ∅ φ) (awaiting (reserveCapacity maxLiveConversations protected validate))
    (λ q, slot q true φ).
Proof.
  intros Hφ Hv. apply triple_awaiting; [intros q; by apply lasting_holds|intros _; by apply lasting_holds|].
  by apply triple_reserveCapacity.
Qed.

Lemma slot_step {A : Type} q φ (m : reg A) : stable φ → neutral m →
  triple never (λ _, slotted q φ) (slot q true φ) m (λ _, slot q true φ).
Proof.
  intros Hφ Hm. eapply triple_conseq, (Hm _ φ Hφ); [done|done|]. intros e st s f. apply slot_slotted.
Qed.

Lemma neutral_empty {A : Type} (m : reg A) φ : stable φ → neutral m →
  triple never (λ _, holds ∅ φ) (holds ∅ φ) m (λ _, holds ∅ φ).
Proof. intros Hφ Hm. by apply Hm. Qed.

Lemma triple_create workspace φ : stable φ →
  triple never (λ _, holds ∅ φ) (holds ∅ φ) (create maxLiveConversations workspace) (λ _, holds ∅ φ).
Proof.
  intros Hφ. unfold create.
  apply (triple_bind _ _ _ (λ _, holds ∅ φ)); [apply neutral_empty; [done|body_steps]|intros _].
  apply (triple_bind _ _ _ (λ _, holds ∅ φ)); [apply neutral_empty; [done|body_steps]|intros ownership].
  apply (triple_bind _ _ _ (λ q, slot q true φ)); [apply triple_reserve; [done|apply reads_ret]|intros q].
  apply triple_constructing; [done|].
  apply (triple_bind _ _ _ (λ _, slot q true φ)); [apply slot_step; [done|body_steps]|intros runtime].
  apply triple_register_or_dispose, triple_and_refresh, triple_registered; done.
Qed.

Lemma triple_openAndRegister workspace canonical φ : stable φ →
  triple never (λ _, holds ∅ φ) (holds ∅ φ) (openAndRegister maxLiveConversations workspace canonical) (λ _, holds ∅ φ).
Proof.
  intros Hφ. unfold openAndRegister.
  apply (triple_bind _ _ _ (λ q, slot q true φ)); [apply triple_reserve; [done|apply reads_ret]|intros q].
  apply triple_constructing; [done|].
  apply (triple_bind _ _ _ (λ _, slot q true φ)); [apply slot_step; [done|body_steps]|intros runtime].
  apply triple_register_or_dispose, triple_registered; done.
Qed.

Lemma neutral_open workspace file : neutral (open workspace file).
Proof.
  unfold open, refresh_if_missing, and_refresh. body_steps; try (by apply neutral_spawn); try apply neutral_canonicalFile.
  - apply neutral_update. kept_same.
  - apply neutral_finally; [body_steps|]. apply quiet_update. intros s X HI. case_decide; [|split; [done|reflexivity]].
    split; [by apply (inv_same _ _ s)|apply guar_same; auto].
Qed.

(** ** Jobs *)

Lemma triple_settleCapacityLease q state φ : stable φ →
  triple never (λ _, slotted q φ) (slotted q φ) (settleCapacityLease q state) (λ _, slotted q φ).
Proof.
  intros Hφ. unfold settleCapacityLease. apply triple_read. intros [[old reservation]|];
    [|apply triple_throw; by intros st s f [? _]].
  apply triple_if; intros Hold; [apply triple_ret; by intros st s f [? _]|]. apply negb_false_iff, bool_decide_eq_true in Hold as ->.
  apply triple_update. intros st s f [[[b Hs]|Hs] El]; symmetry in El; right.
  - pose proof Hs as (Hd & HI & Hg & Hs'). pose proof (in_capacity _ _ _ _ HI) as [_ _ _ _ Hl].
    destruct (Hl _ _ _ El) as (-> & Hq & _). eapply slot_release; [done| |exact Hs].
    intros l st' q' [[<- [= <- <-]]|[Hn E']]%lookup_insert_Some; [auto|].
    destruct (Hl _ _ _ E') as (? & ? & ?). auto.
  - destruct Hs as (Hd & HI & Hg & Hs & Hr). pose proof (in_capacity _ _ _ _ HI) as [_ _ _ _ Hl].
    destruct (Hl _ _ _ El) as (-> & Hq & _). unfold release_reservation.
    rewrite decide_False by (cbn; unfold released in Hr; congruence).
    set (s' := s <| rg_leases := _ |>). assert (HG : guar s s') by (apply guar_same; auto).
    split_and!; [done| |by etrans|by eapply Hφ|done]. apply inv_lease_state; [done|by eexists|done].
Qed.

Lemma triple_reserveRuntimeCapacity φ : stable φ →
  triple never (λ _, holds ∅ φ) (holds ∅ φ) (reserveRuntimeCapacity maxLiveConversations) (λ q, slot q true φ).
Proof.
  intros Hφ. unfold reserveRuntimeCapacity.
  apply (triple_bind _ _ _ (λ _, holds ∅ φ)); [apply neutral_empty; [done|body_steps]|intros _].
  apply (triple_bind _ _ _ (λ q, slot q true φ)); [apply triple_reserve; [done|apply reads_ret]|intros q].
  apply (triple_bind _ _ _ (λ _, slot q true φ)); [|intros _; by apply triple_ret].
  apply triple_update. intros st s f Hs. pose proof (slot_released _ _ _ _ _ _ _ Hs) as Hf.
  destruct Hs as (Hd & HI & Hg & Hs). set (s' := s <| rg_leases := _ |>).
  assert (HG : guar s s') by (apply guar_same; auto).
  split_and!; [done| |by etrans|by eapply Hφ]. by apply inv_new_lease.
Qed.

Lemma triple_createJobConversation workspace owner q φ : stable φ →
  triple never (λ _, slotted q φ) (slot q true φ) (createJobConversation workspace owner q) (λ _, slotted q φ).
Proof.
  intros Hφ. unfold createJobConversation.
  assert (Hsettle : ∀ state, triple never (λ _, slotted q φ) (slotted q φ) (settleCapacityLease q state) (λ _, slotted q φ))
    by (intros state; by apply triple_settleCapacityLease).
  apply (triple_bind _ _ _ (λ _, slot q true φ)); [apply slot_step; [done|body_steps]|intros _].
  apply (triple_bind _ _ _ (λ _, slot q true φ)); [apply slot_step; [done|body_steps]|intros ownership].
  apply (triple_bind _ _ _ (λ _, slot q true φ)); [apply slot_step; [done|body_steps]|intros owner'].
  apply (triple_bind _ _ _ (λ _, slot q true φ)); [apply slot_step; [done|body_steps]|intros _].
  apply (triple_bind _ _ _ (λ _, slot q true φ)).
  { eapply (triple_try never (λ _, slotted q φ)); [apply slot_step; [done|body_steps]|]. intros e.
    apply (triple_bind _ _ _ (λ _, slotted q φ)); [apply Hsettle|intros _]. by apply triple_throw. }
  intros runtime. eapply (triple_try never (λ _, slotted q φ)).
  - apply (triple_bind _ _ _ (λ _, slot q true φ)); [apply slot_step; [done|body_steps]|intros _].
    apply triple_and_refresh; [done|]. apply triple_awaiting_slotted; [done|]. apply triple_register; [done|].
    eapply triple_pre, Hsettle. intros st s f. apply slot_slotted.
  - intros e. apply (triple_bind _ _ _ (λ _, slotted q φ)); [apply Hsettle|intros _].
    apply slotted_step; [done|]. body_steps. apply neutral_ignoring. body_steps.
Qed.

Lemma triple_job_client workspace owner φ : stable φ →
  triple never (λ _, holds ∅ φ) (holds ∅ φ) (job_client maxLiveConversations workspace owner) (λ _, holds ∅ φ).
Proof.
  intros Hφ. unfold job_client.
  apply (triple_bind _ _ _ (λ q, slot q true φ)).
  { apply triple_awaiting; [intros q; by apply lasting_holds|intros _; by apply lasting_holds|].
    by apply triple_reserveRuntimeCapacity. }
  intros q.
  assert (Hfin : triple never (λ _ _ _ _, False) (slotted q φ)
    (try_ (settleCapacityLease q LeaseReleased) (λ _, mret tt)) (λ _, holds ∅ φ)).
  { eapply (triple_try never (λ _, slotted q φ)).
    - eapply triple_conseq, (triple_settleCapacityLease q LeaseReleased φ Hφ); [done| |done].
      intros _ st s f [[b Hs]|Hs]; [by eapply slot_drop|]. revert Hs. apply holds_mono. by intros ? [? _].
    - intros e. apply triple_ret. intros st s f [[b Hs]|Hs]; [by eapply slot_drop|].
      revert Hs. apply holds_mono. by intros ? [? _]. }
  apply (triple_finally _ never _ (λ _, slotted q φ) _ _ _ _ (λ _, slotted q φ));
    [|by intros x; apply Hfin|by intros v st s f|by intros e; apply Hfin].
  apply (triple_bind _ _ _ (λ _, slot q true φ)); [apply slot_step; [done|body_steps]|intros go].
  destruct go; cbn; [|apply triple_ret; intros st s f; apply slot_slotted].
  apply (triple_bind _ _ _ (λ _, slotted q φ)); [|intros _; by apply triple_ret].
  apply triple_awaiting_slotted; [done|]. by apply triple_createJobConversation.
Qed.

(** ** Closing *)

Lemma live_known own φ st s f r : holds own φ st s f → live s r → holds own (λ s, φ s ∧ known r s) st s f.
Proof.
  intros (Hd & HI & Hg & Hs) Hl. split_and!; [done..|]. eapply live_bound; [apply HI| |done].
  intros r' rec. apply (in_records _ _ _ _ HI).
Qed.

Lemma triple_required id own φ :
  triple never (λ _, holds own φ) (holds own φ) (required id) (λ r, holds own (λ s, φ s ∧ known r s)).
Proof.
  unfold required. apply triple_read. intros [r|]; [|apply triple_throw; by intros st s f [? _]].
  apply triple_ret. intros st s f [Hh E]. apply live_known; [done|]. pose proof Hh as (_ & HI & _).
  apply live_get; [apply HI|]. by eexists.
Qed.

(** What follows finding a record may rely on it. *)
Lemma neutral_required {A : Type} id (k : nat → reg A) :
  (∀ r own φ, stable φ → (∀ s, φ s → known r s) → triple never (λ _, holds own φ) (holds own φ) (k r) (λ _, holds own φ)) →
  neutral (required id ≫= k).
Proof.
  intros Hk own φ Hφ. apply (triple_bind _ _ _ (λ r, holds own (λ s, φ s ∧ known r s))); [apply triple_required|].
  intros r. eapply triple_conseq, (Hk r own (λ s, φ s ∧ known r s)); [done| | | |by intros s [_ ?]].
  - intros x st s f. apply holds_mono. by intros ? [? _].
  - intros e st s f. apply holds_mono. by intros ? [? _].
  - apply stable_and; [done|apply stable_known].
Qed.

Lemma neutral_bind_at {A B : Type} (m : reg A) (k : A → reg B) own φ : stable φ → neutral m →
  (∀ x, triple never (λ _, holds own φ) (holds own φ) (k x) (λ _, holds own φ)) →
  triple never (λ _, holds own φ) (holds own φ) (m ≫= k) (λ _, holds own φ).
Proof. intros Hφ Hm Hk. apply (triple_bind _ _ _ (λ _, holds own φ)); [by apply Hm|done]. Qed.

Lemma neutral_close id : neutral (close id).
Proof.
  unfold close. apply neutral_required. intros r own φ Hφ Hr.
  do 4 (apply neutral_bind_at; [done|body_steps|intros ?]). by apply neutral_dispose_and_wait.
Qed.

Lemma neutral_releaseJobConversation id owner : neutral (releaseJobConversation id owner).
Proof.
  intros own φ Hφ. unfold releaseJobConversation.
  apply (triple_bind _ _ _ (λ r, holds own (λ s, φ s ∧ known r s))).
  - unfold requiredOwned. apply (triple_bind _ _ _ (λ r, holds own (λ s, φ s ∧ known r s))); [apply triple_required|intros r].
    apply (triple_conseq _ _ (λ _, holds own (λ s, φ s ∧ known r s)) _ (holds own (λ s, φ s ∧ known r s)) _ _
      (λ r', λ st s f, r' = r ∧ holds own (λ s, φ s ∧ known r s) st s f)); [done|by intros r' st s f [-> ?]| |].
    + intros e st s f. apply holds_mono. by intros ? [? _].
    + do 4 (eapply triple_bind; [apply triple_reads; [body_steps|done]|intros ?]). by apply triple_ret.
  - intros r. eapply triple_conseq, (neutral_dispose_and_wait _ r ByClose own (λ s, φ s ∧ known r s));
      [done| | |apply stable_and; [done|apply stable_known]|by intros s [_ ?]].
    + intros x st s f. apply holds_mono. by intros ? [? _].
    + intros e st s f. apply holds_mono. by intros ? [? _].
Qed.

(** The asynchronous part of a disposal ends with the record gone. *)
Lemma triple_closing_body r p reason own φ : stable φ → (∀ s, φ s → closing_as r p s) →
  triple never (λ _, holds own (λ s, φ s ∧ gone r s)) (holds own φ) (closing_body r reason)
    (λ _, holds own (λ s, φ s ∧ gone r s)).
Proof.
  intros Hφ Hp. unfold closing_body. apply triple_read. intros record.
  apply (triple_pre _ (holds own φ)); [by intros st s f [? _]|].
  apply (triple_bind _ _ _ (λ _, holds own φ)).
  { eapply (triple_try never (λ _, holds own φ)); [|intros e; by apply triple_ret].
    apply neutral_bind_at; [done|body_steps|intros _; by apply triple_ret]. }
  intros error. set (φ' := λ s, φ s ∧ gone r s).
  assert (Hφ' : stable φ') by (apply stable_and; [done|apply stable_gone]).
  apply (triple_bind _ _ _ (λ _, holds own φ')).
  { apply triple_update. intros st s f (Hd & HI & Hg & Hs). pose proof (Hp _ Hs) as Hc.
    destruct (tk_close _ (in_tasks _ _ _ _ HI) _ _ Hc) as (Hk & _).
    assert (HG : guar s (unregister r s)) by apply guar_unregister, HI.
    split_and!; [done| |by etrans|split; [by eapply Hφ|split; [done|]]].
    - apply inv_unregister; [|done]. intros rec E Ha.
      pose proof (rc_open _ _ _ (in_records _ _ _ _ HI _ _ E) Ha) as Hn. unfold closing_as in Hc. congruence.
    - intros [_ ?]%live_unregister; [done|apply HI]. }
  intros _. apply neutral_bind_at; [done|body_steps|intros _]. apply neutral_bind_at; [done|body_steps|intros record'].
  apply neutral_bind_at; [done|body_steps|intros _]. destruct error; [by apply triple_throw|by apply triple_ret].
Qed.

(** Closing a record that is still registered. *)
Lemma neutral_dispose_registered r reason :
  neutral (live ← gets_ (λ s, registered s r); when live (ignoring (dispose_and_wait r reason))).
Proof.
  intros own φ Hφ. apply triple_read. intros live.
  apply (triple_pre _ (λ st s f, holds own φ st s f ∧ (live = true → known r s))).
  { intros st s f [Hh ->]. split; [done|]. intros Hl. pose proof Hh as (_ & HI & _).
    apply registered_live in Hl; [|apply HI]. by destruct (live_known _ _ _ _ _ _ Hh Hl) as (_ & _ & _ & _ & ?). }
  destruct live; cbn; [|apply triple_ret; by intros st s f [? _]].
  assert (Hst : stable (λ s, φ s ∧ known r s)) by (apply stable_and; [done|apply stable_known]).
  apply (triple_pre _ (holds own (λ s, φ s ∧ known r s))).
  { intros st s f [Hh Hk]. apply holds_and. auto. }
  eapply (triple_try never (λ _, holds own φ)); [|intros e; by apply triple_ret].
  eapply triple_conseq, (neutral_dispose_and_wait _ r reason own _ Hst); [done| | |by intros s [_ ?]].
  - intros x st s f. apply holds_mono. by intros ? [? _].
  - intros e st s f. apply holds_mono. by intros ? [? _].
Qed.

(** ** Forks *)

Lemma neutral_fork_failed {A : Type} reservation temporary promoted file e :
  neutral (fork_failed reservation temporary promoted file e : reg A).
Proof.
  unfold fork_failed. apply neutral_bind; [body_steps|]. intros failed.
  apply neutral_bind; [destruct promoted; [apply neutral_dispose_registered|body_steps]|]. intros _.
  body_steps; [apply neutral_ignoring; body_steps|apply neutral_cleanupFailedForkFile].
Qed.

Lemma quiet_forget runtime : registry_quiet maxLiveConversations (update_ (forget_temporary runtime)).
Proof. apply quiet_update. kept_same. Qed.

Lemma neutral_forgetting {A : Type} runtime reservation promoted file e :
  neutral (finally_ (fork_failed reservation (Some runtime) promoted file e : reg A) (update_ (forget_temporary runtime))).
Proof. apply neutral_finally; [apply neutral_fork_failed|apply quiet_forget]. Qed.

Lemma neutral_replace_by_fork temporary reservation policy entry :
  neutral (replace_by_fork temporary reservation policy entry).
Proof. unfold replace_by_fork. body_steps. Qed.

Lemma triple_register_fork temporary reservation policy identity φ : stable φ →
  triple never (λ _, slotted (fc_reservation reservation) φ) (slot (fc_reservation reservation) true φ)
    (register_fork temporary reservation policy identity) (λ _, slotted (fc_reservation reservation) φ).
Proof.
  intros Hφ. unfold register_fork. set (q := fc_reservation reservation).
  apply (triple_bind _ _ _ (λ _, slot q true φ)); [apply slot_step; [done|body_steps]|intros _].
  apply (triple_bind _ _ _ (λ _, slotted q φ)).
  - apply triple_awaiting_slotted; [done|]. apply triple_register; [done|].
    apply triple_quiet. eapply triple_conseq, (triple_release _ q φ Hφ); [intros st s f; apply slot_slotted| |done].
    intros ? st s f. by right.
  - intros r. apply slotted_step; [done|]. body_steps.
Qed.

Lemma triple_fork_reserved reservation entry policy φ : stable φ →
  triple never (λ _, slotted (fc_reservation reservation) φ) (slot (fc_reservation reservation) true φ)
    (fork_reserved reservation entry policy) (λ _, slotted (fc_reservation reservation) φ).
Proof.
  intros Hφ. unfold fork_reserved. set (q := fc_reservation reservation).
  assert (Hfail : ∀ (A : Type) (m : reg A), neutral m →
    triple never (λ _, slotted q φ) (slotted q φ) m (λ _, slotted q φ)) by (intros A m Hm; by apply slotted_step).
  apply (triple_bind _ _ _ (λ _, slot q true φ)).
  { eapply (triple_try never (λ _, slot q true φ)); [by apply neutral_await_ok|]. intros e.
    apply slot_step; [done|apply neutral_fork_failed]. }
  intros temporary. apply (triple_bind _ _ _ (λ _, slot q true φ)).
  { apply slot_step; [done|]. apply neutral_quiet, quiet_update. kept_same. }
  intros _. apply (triple_bind _ _ _ (λ _, slot q true φ)).
  { eapply (triple_try never (λ _, slot q true φ)); [by apply neutral_replace_by_fork|]. intros e.
    apply slot_step; [done|apply neutral_forgetting]. }
  intros [identity text]. apply (triple_bind _ _ _ (λ _, slotted q φ)).
  { eapply (triple_try never (λ _, slotted q φ)); [by apply triple_register_fork|]. intros e.
    apply Hfail, neutral_forgetting. }
  intros r. apply (triple_bind _ _ _ (λ _, slotted q φ)); [apply Hfail, neutral_quiet, quiet_forget|intros _].
  eapply (triple_try never (λ _, slotted q φ)); [|intros e; apply Hfail, neutral_fork_failed].
  apply Hfail. body_steps. apply neutral_getState.
Qed.

Lemma triple_reserveFork id entry φ : stable φ →
  triple never (λ _, holds ∅ φ) (holds ∅ φ) (reserveFork maxLiveConversations id entry)
    (λ reservation, slot (fc_reservation reservation) true φ).
Proof.
  intros Hφ. unfold reserveFork.
  apply (triple_bind _ _ _ (λ _, holds ∅ φ)); [apply neutral_empty; [done|body_steps]|intros _].
  apply (triple_bind _ _ _ (λ _, holds ∅ φ)); [apply neutral_empty; [done|body_steps]|intros r].
  apply (triple_bind _ _ _ (λ _, holds ∅ φ)); [apply neutral_empty; [done|body_steps]|intros _].
  apply (triple_bind _ _ _ (λ _, holds ∅ φ)).
  { apply neutral_empty; [done|]. apply neutral_update. kept_same. }
  intros _. apply (triple_bind _ _ _ (λ q, slot q true φ)).
  - eapply (triple_try never (λ _, holds ∅ φ)); [apply triple_reserve; [done|apply reads_assertForkSource]|].
    intros e. apply (triple_bind _ _ _ (λ _, holds ∅ φ)); [|intros _; by apply triple_throw].
    apply neutral_empty; [done|]. apply neutral_update. kept_same.
  - intros q. apply triple_read. intros record. apply triple_ret. by intros st s f [? _].
Qed.

Lemma triple_fork id entry policy φ : stable φ →
  triple never (λ _, holds ∅ φ) (holds ∅ φ) (fork maxLiveConversations id entry policy) (λ _, holds ∅ φ).
Proof.
  intros Hφ. unfold fork.
  apply (triple_bind _ _ _ (λ _, holds ∅ φ)); [apply neutral_empty; [done|body_steps]|intros forkPolicy].
  apply (triple_bind _ _ _ (λ _, holds ∅ φ)); [apply neutral_empty; [done|body_steps]|intros source].
  apply (triple_bind _ _ _ (λ _, holds ∅ φ)); [apply neutral_empty; [done|body_steps]|intros _].
  apply (triple_bind _ _ _ (λ reservation, slot (fc_reservation reservation) true φ)).
  { apply triple_awaiting; [intros q; by apply lasting_holds|intros _; by apply lasting_holds|].
    by apply triple_reserveFork. }
  intros reservation. set (q := fc_reservation reservation).
  assert (Hread : ∀ (A : Type) (m : reg A), reads m → triple never (λ _, holds ∅ φ) (slot q true φ) m (λ _, slot q true φ)).
  { intros A m Hm. apply triple_reads; [done|]. intros e st s f. apply slot_drop. }
  apply (triple_bind _ _ _ (λ _, slot q true φ)); [apply Hread; body_steps|intros live].
  apply (triple_bind _ _ _ (λ _, slot q true φ)); [apply Hread; body_steps|intros _].
  assert (Hfin : triple never (λ _ _ _ _, False) (slotted q φ)
    (release q;; update_ (decrementForkReservation (fc_record reservation))) (λ _, holds ∅ φ)).
  { apply (triple_bind _ _ _ (λ _, holds ∅ (λ s, φ s ∧ released q s))); [by apply triple_release|intros _].
    apply (triple_pre _ (holds ∅ φ)); [intros st s f; apply holds_mono; by intros ? [? _]|].
    apply quiet_update; [kept_same|done]. }
  apply (triple_finally _ never _ (λ _, slotted q φ) _ _ _ _ (λ _, slotted q φ));
    [by apply triple_fork_reserved|by intros x; apply Hfin|by intros v st s f|by intros e; apply Hfin].
Qed.

(** ** Shutting down *)

Lemma triple_dispose_all reason own φ : stable φ → ∀ records, (∀ s, φ s → Forall (λ r, known r s) records) →
  triple never (λ _, holds own φ) (holds own φ) (for_each (λ r, disposeRecord r reason) records) (λ _, holds own φ).
Proof.
  intros Hφ. induction records as [|r records IH]; intros Hk; cbn; [by apply triple_ret|].
  apply (triple_bind _ _ _ (λ _, holds own φ)).
  - eapply triple_conseq, (triple_disposeRecord _ r reason own φ); [done| |done| |].
    + intros p st s f. apply holds_mono. by intros ? [? _].
    + intros s Hs. by apply (Forall_inv (Hk s Hs)).
    + intros s Hs Hn. eapply Hφ; [done|]. by apply guar_start_closing.
  - intros p. apply (triple_bind _ _ _ (λ _, holds own φ)); [|intros ps; by apply triple_ret].
    apply IH. intros s Hs. by apply (Forall_inv_tail (Hk s Hs)).
Qed.

Lemma live_all_known own φ st s f : holds own φ st s f → Forall (λ r, known r s) (map_values (rg_byId s)).
Proof.
  intros Hh. apply Forall_forall. intros r Hr. by destruct (live_known _ _ _ _ _ r Hh Hr) as (_ & _ & _ & _ & ?).
Qed.

Lemma stable_all_known records : stable (λ s, Forall (λ r, known r s) records).
Proof. intros s s' Hr Hg. eapply Forall_impl; [exact Hr|]. intros r Hk. exact (stable_known r _ _ Hk Hg). Qed.

Lemma neutral_dispose : neutral dispose.
Proof.
  unfold dispose. apply neutral_bind; [apply neutral_beginShutdown|intros _].
  apply neutral_bind; [body_steps|intros [promise|]]; (apply neutral_bind; [|intros ?; body_steps]); [body_steps|].
  intros own φ Hφ. apply triple_read. intros records. set (φ' := λ s, φ s ∧ Forall (λ r, known r s) records).
  assert (Hφ' : stable φ') by (apply stable_and; [done|apply stable_all_known]).
  apply (triple_conseq _ _ (λ _, holds own φ') _ (holds own φ') _ _ (λ _, holds own φ')).
  { intros st s f [Hh ->]. apply holds_and. split; [done|]. by eapply live_all_known. }
  { intros x st s f. apply holds_mono. by intros ? [? _]. }
  { intros e st s f. apply holds_mono. by intros ? [? _]. }
  apply neutral_bind_at; [done|body_steps|intros workspaceIds].
  apply (triple_bind _ _ _ (λ _, holds own φ')); [apply triple_dispose_all; [done|by intros s [_ ?]]|intros disposals].
  clearbody φ'. revert own φ' Hφ'.
  match goal with |- ∀ own φ', stable φ' → triple _ _ _ ?m _ => change (neutral m) end.
  body_steps; [|apply neutral_update; kept_same|by apply neutral_spawn|apply neutral_update; kept_same].
  apply neutral_spawn_for_each. intros runtime. by apply neutral_spawn.
Qed.

(** ** Replaced identities *)

(** The record on its way from its old keys to [id] and [file]: [k] revisions
    later than in [s0]. *)
Definition moving (r : nat) (id file : string) (k : Z) (s0 s : registry) : Prop :=
  ∃ g, s = with_record r g (unregister r s0) ∧
    let rec := record_of s0 r in
    cr_id (g rec) = id ∧ cr_sessionFile (g rec) = file ∧ cr_attached (g rec) = cr_attached rec ∧
    cr_revision (g rec) = (cr_revision rec + k)%Z ∧ cr_runtimeFailureTerminal (g rec) = cr_runtimeFailureTerminal rec ∧
    cr_status (g rec) = cr_status rec ∧ record_later rec (g rec).

Lemma moving_mild r id file k s0 s f :
  (∀ rec, mild rec (f rec)) → moving r id file k s0 s → moving r id file k s0 (with_record r f s).
Proof.
  intros Hf (g & -> & Hi & Hfile & Ha & Hr & Ht & Hs & Hl). exists (f ∘ g). split; [apply with_record_twice|].
  destruct (Hf (g (record_of s0 r))) as (Hi' & Hfile' & Ha' & Hr' & Ht' & Hs' & Hl'). cbn.
  rewrite Hi', Hfile', Ha', Hr', Ht', Hs'. split_and!; try done. by etrans.
Qed.

Definition keys_free (r : nat) (id file : string) (s : registry) : Prop :=
  (∀ o, map_get id (rg_byId s) = Some o → o = r) ∧ (∀ o, map_get file (rg_bySessionFile s) = Some o → o = r).
Definition on_the_move (r : nat) (id file : string) (k : Z) (own : claims) (φ : registry → Prop) : assertion :=
  λ st s f, ∃ s0, holds own φ st s0 f ∧ cr_attached (record_of s0 r) = true ∧ keys_free r id file s0 ∧
    (0 < k → cr_revision (record_of s0 r) < MAX_SAFE_INTEGER)%Z ∧ moving r id file k s0 s.

(** The record found attached is in the heap. *)
Lemma attached_record s r : cr_attached (record_of s r) = true → rg_records s !! r = Some (record_of s r).
Proof.
  unfold record_of. rewrite lookup_total_alt. destruct (rg_records s !! r); [done|]. cbn. done.
Qed.

Lemma triple_move_mild r id file k own φ f : (∀ rec, mild rec (f rec)) →
  triple never (λ _ _ _ _, False) (on_the_move r id file k own φ) (set_record r f)
    (λ _, on_the_move r id file k own φ).
Proof.
  intros Hf. apply triple_update. intros st s fr (s0 & Hh & Ha & Hk & Hr & Hm). exists s0. split_and!; try done.
  by apply moving_mild.
Qed.

Lemma triple_titleOf (runtime : nat) (P : assertion) :
  triple never (λ _ _ _ _, False) P (titleOf runtime) (λ _, P).
Proof.
  assert (Hport : ∀ c, awaited c = false → triple never (λ _ _ _ _, False) P (port_ c) (λ _, P)).
  { intros c Hc. eapply triple_weaken; [done| |exact (triple_port c P Hc)]. by intros x st s f [? _]. }
  unfold titleOf. apply (triple_bind _ _ _ (λ _, P)); [by apply (Hport (SessionName runtime))|]. intros name. cbn.
  apply triple_if; intros _; [by apply triple_ret|].
  apply (triple_bind _ _ _ (λ _, P)); [by apply (Hport (Branch runtime))|]. intros branch. by apply triple_ret.
Qed.

Lemma triple_safeNow (P : assertion) : triple never (λ _ _ _ _, False) P safeNow (λ _, P).
Proof.
  unfold safeNow. apply (triple_bind _ _ _ (λ now st s f, P st s f ∧ (0 ≤ now)%Z)).
  - exact (triple_port Now P eq_refl).
  - intros now. apply (triple_pure (0 ≤ now)%Z). intros Hnow. destruct (Z.ltb_spec now 0); [lia|]. by apply triple_ret.
Qed.

Lemma moving_record r id file k s0 s : cr_attached (record_of s0 r) = true → moving r id file k s0 s →
  cr_revision (record_of s r) = (cr_revision (record_of s0 r) + k)%Z.
Proof.
  intros Ha (g & -> & _ & _ & _ & Hr & _). rewrite record_of_with, decide_True; [done|].
  split; [done|]. exists (record_of s0 r). exact (attached_record s0 r Ha).
Qed.

Lemma triple_move_bump r id file own φ : stable φ →
  triple never (λ _, holds own φ) (on_the_move r id file 0 own φ) (bump r) (λ _, on_the_move r id file 1 own φ).
Proof.
  intros Hφ. unfold bump. apply triple_read. intros record.
  destruct (nextRevision (JInt (cr_revision record))) as [n|e] eqn:E.
  - apply nextRevision_Ok in E as (_ & Hlt & ->). apply triple_update. intros st s f [(s0 & Hh & Ha & Hk & _ & Hm) ->].
    pose proof (moving_record _ _ _ _ _ _ Ha Hm) as Hrev. cbn in *. rewrite Z.add_0_r in Hrev.
    exists s0. split_and!; [done..|intros _; by rewrite <-Hrev|].
    destruct Hm as (g & -> & Hi & Hfile & Hat & Hr & Ht & Hs & Hl). rewrite Hrev. eexists. split; [apply with_record_twice|].
    cbn. split_and!; try done. etrans; [exact Hl|]. constructor; cbn; auto. lia.
  - apply triple_throw. intros st s f [(s0 & (Hd & HI & Hg & Hs) & Ha & Hk & _ & Hm) ->].
    pose proof (moving_record _ _ _ _ _ _ Ha Hm) as Hrev. rewrite Z.add_0_r in Hrev.
    destruct Hm as (g & -> & Hi & Hfile & Hat & Hr & Ht & Hst & Hl). pose proof (attached_record _ _ Ha) as Er.
    destruct (in_records _ _ _ _ HI _ _ Er) as [Hfr Hbound Hlive Hopen].
    assert (Hmax : cr_revision (record_of s0 r) = MAX_SAFE_INTEGER).
    { rewrite Hrev in E. unfold nextRevision in E. case_match eqn:C; [|done]. clear E.
      apply orb_true_iff in C as [C|C]; breflect.
      - rewrite (proj2 (isRevision_JInt _)) in C; done.
      - cbn in C. lia. }
    assert (HIu : inv (unregister r s0) (own ∪ f)).
    { apply inv_unregister; [|done]. intros rec E' _. rewrite Er in E'. by injection E' as <-. }
    assert (HG : guar s0 (with_record r g (unregister r s0))).
    { etrans; [apply guar_unregister, HI|]. apply guar_set_record. intros rec E'. cbn in E'. rewrite Er in E'.
      by injection E' as <-. }
    split_and!; [done| |by etrans|by eapply Hφ]. apply inv_set_gone; [|..|done].
    + by intros [_ ?]%live_unregister; [|apply HI].
    + intros rec E'. cbn in E'. rewrite Er in E'. injection E' as <-. split.
      * constructor; [done|lia|right; lia|by rewrite Hat].
      * intros Hterm. rewrite Ht in Hterm. rewrite Hst. by apply (in_terminal _ _ _ _ HI _ _ Er).
Qed.

Lemma triple_take_identity r id file own φ : stable φ →
  triple never (λ _, holds own φ)
    (λ st s f, holds own φ st s f ∧ cr_attached (record_of s r) = true ∧ keys_free r id file s)
    (take_identity r id file) (λ _, holds own φ).
Proof.
  intros Hφ. unfold take_identity.
  apply (triple_bind _ _ _ (λ _ st s f, ∃ s0, holds own φ st s0 f ∧ cr_attached (record_of s0 r) = true ∧
    keys_free r id file s0 ∧ s = unregister r s0)).
  { apply triple_update. intros st s f (Hh & Ha & Hk). by exists s. }
  intros _. apply (triple_bind _ _ _ (λ _, on_the_move r id file 0 own φ)).
  { apply triple_update. intros st s f (s0 & Hh & Ha & Hk & ->). exists s0. split_and!; [done..|].
    eexists. split; [done|]. cbn. split_and!; [done|done|done|lia|done|done|]. constructor; cbn; auto. lia. }
  intros _. apply triple_read. intros record. apply (triple_pre _ (on_the_move r id file 0 own φ)); [by intros st s f [? _]|].
  apply (triple_bind _ _ _ (λ _, on_the_move r id file 0 own φ)); [apply triple_quiet, triple_titleOf|intros title].
  apply (triple_bind _ _ _ (λ _, on_the_move r id file 0 own φ)).
  { apply triple_quiet, triple_move_mild. is_mild. }
  intros _. apply (triple_bind _ _ _ (λ _, on_the_move r id file 1 own φ)); [by apply triple_move_bump|intros _].
  apply (triple_bind _ _ _ (λ _, on_the_move r id file 1 own φ)).
  { apply triple_quiet. unfold touch. apply (triple_bind _ _ _ (λ _, on_the_move r id file 1 own φ)); [apply triple_safeNow|].
    intros now. apply triple_move_mild. is_mild. }
  intros _. apply triple_update. intros st s f (s0 & (Hd & HI & Hg & Hs) & Ha & [Hid Hfile] & Hr & g & -> & Hi & Hf & Hat & Hrev & Ht & Hst & Hl).
  pose proof (attached_record _ _ Ha) as Er. destruct (in_records _ _ _ _ HI _ _ Er) as [Hfr Hbound Hlive Hopen].
  assert (Hl0 : live s0 r) by (destruct (Hlive Ha); [done|lia]).
  assert (HG : guar s0 (link id file r (with_record r g (unregister r s0)))).
  { apply guar_relink; [|apply HI|done..]. intros rec E. rewrite Er in E. by injection E as <-. }
  split_and!; [done| |by etrans|by eapply Hφ]. apply inv_relink; [|done..]. intros rec E. rewrite Er in E. injection E as <-.
  split_and!; [done|done|lia|lia|done|]. intros Hterm. rewrite Ht in Hterm. rewrite Hst.
  by apply (in_terminal _ _ _ _ HI _ _ Er).
Qed.

Lemma triple_replaceIdentity r own φ : stable φ →
  triple never (λ _, holds own φ) (λ st s f, holds own φ st s f ∧ cr_attached (record_of s r) = true)
    (replaceIdentity r) (λ _, holds own φ).
Proof.
  intros Hφ. unfold replaceIdentity. set (P := λ st s f, holds own φ st s f ∧ cr_attached (record_of s r) = true).
  assert (HT : ∀ (e : thrown) st s f, P st s f → holds own φ st s f) by by intros e st s f [? _].
  apply triple_read. intros record. apply (triple_pre _ P); [by intros st s f [? _]|].
  apply (triple_bind _ _ _ (λ _, P)); [apply triple_reads; [exact (reads_port (PolicyOf _) eq_refl)|done]|intros policy].
  apply triple_if; intros _.
  { apply (triple_pre _ (holds own φ)); [exact (HT (app_error INTERNAL_ERROR))|]. by apply neutral_handleRuntimeFailure. }
  apply (triple_bind _ _ _ (λ _, P)); [apply triple_reads; [exact (reads_port_ok _ (Identity _) _ eq_refl)|done]|intros current].
  apply (triple_bind _ _ _ (λ _, P)); [apply triple_reads; [apply reads_assertIdentityInWorkspace|done]|intros _].
  apply triple_read. intros idOwner. apply triple_read. intros fileOwner.
  apply triple_if; intros Htaken.
  - apply (triple_bind _ _ _ (λ _, holds own φ)); [|intros _; by apply triple_throw].
    apply (triple_pre _ (λ st s f, holds own φ st s f ∧ record_of s r = record_of s r)); [by intros st s f [[[? _] _] _]|].
    apply (triple_change _ φ); [done| |done]. intros s X _ HI. split.
    + apply inv_set_record; [|done]. intros rec E Hok. split_and!; [done..| |].
      * destruct Hok. by constructor.
      * intros _ _ _. by left.
    + apply guar_set_record. intros rec _. constructor; cbn; auto. lia.
  - apply orb_false_iff in Htaken as [Hi Hf].
    apply (triple_bind _ _ _ (λ _, holds own φ)).
    + eapply triple_pre, triple_take_identity; [|done]. intros st s f [[[Hh Ha] Ei] Ef]. split_and!; [done|done|].
      split; intros o Eo; [rewrite Eo in Ei; rewrite Ei in Hi|rewrite Eo in Ef; rewrite Ef in Hf]; by breflect.
    + intros _. apply neutral_bind_at; [done|body_steps|intros _]. apply neutral_bind_at; [done|by apply neutral_spawn|intros _].
      by apply triple_ret.
Qed.

Lemma neutral_runtime_event_body r event : neutral (runtime_event_body r event).
Proof.
  intros own φ Hφ. unfold runtime_event_body. apply triple_read. intros record.
  destruct (cr_attached record) eqn:Ha; cbn; [|apply triple_ret; by intros st s f [? _]].
  set (P := λ st s f, holds own φ st s f ∧ record = record_of s r).
  assert (Hneutral : ∀ m : reg unit, neutral m → triple never (λ _, holds own φ) P m (λ _, holds own φ)).
  { intros m Hm. apply (triple_pre _ (holds own φ)); [by intros st s f [? _]|by apply Hm]. }
  destruct event; [apply Hneutral; body_steps|apply Hneutral; body_steps| |apply Hneutral; body_steps..].
  eapply triple_pre; [|by apply triple_replaceIdentity]. intros st s f [Hh <-]. done.
Qed.
End registration.

#[export] Hint Resolve neutral_open neutral_setJobConversationTitle neutral_runJobPrompt neutral_releaseJobConversation
  neutral_getState neutral_rename neutral_prompt neutral_abort neutral_close neutral_beginShutdown neutral_abortActive
  neutral_dispose neutral_runtime_event_body neutral_aborting_body neutral_dispose_rest : neutral.
