(* ===== verification/RegistrySystem.v ===== *)
(** The conversation registry as a system: its tasks interleave at their awaits,
    other code calls its operations and its runtimes deliver events at any time.
    Every task body keeps to the invariant, so it holds of every state the
    system reaches; [exec] runs the system along a given schedule. *)
From S2P Require Import Prelude JsValues Errors Revisions Programs Protocol Tasks TaskRules.
From S2P Require Import Registry RegistryTasks RegistryOperations RegistryInvariant RegistryTriples RegistryRegistration.
#[local] Open Scope string_scope. #[local] Open Scope nat_scope.

Section system.
Context `{Platform} (maxLiveConversations : Z).
Notation inv := (inv maxLiveConversations).
Notation body := (body maxLiveConversations).
Notation holds := (holds (J := inv) (G := guar)).
Notation assertion := (registry → registry → claims → Prop).
Notation triple := (triple (ans := answer) (awaited := awaited) (enabled := enabled) (J := inv) (G := guar)
  (V := value) (E := thrown)).

(** ** The system *)

Definition registry_pool : Type := pool (C := command) (ans := answer) (S := registry) (V := value) (E := thrown).
Definition initial_pool : registry_pool := Pool initial_registry ∅.

(** A task runs to its next await, or other code starts an operation. *)
Inductive registry_step : registry_pool → registry_pool → Prop :=
| RunTask σ σ' : pool_step awaited enabled body rg_ready unready settle σ σ' → registry_step σ σ'
| Call t s waiting : external t = true → registry_step (Pool s waiting) (Pool (spawned t s) waiting).

Definition reachable (σ : registry_pool) : Prop := rtc registry_step initial_pool σ.

(** ** Every body keeps to the invariant *)

(** The promise is not that of a disposal. *)
Definition ordinary (p : nat) (s : registry) : Prop := p < rg_next s ∧ ∀ r, rg_pendingCloses s !! r ≠ Some p.
Lemma stable_ordinary p : stable (ordinary p).
Proof.
  intros s s' [Hp Hn] Hg. pose proof (gu_next _ _ Hg). split; [lia|]. intros r E.
  destruct (gu_fresh _ _ Hg _ _ E) as [E'|?]; [by apply Hn in E'|lia].
Qed.

Lemma ends_ordinary p o φ st s f : (∀ s, φ s → ordinary p s) →
  holds ∅ φ st s f → ends settle inv guar p o st s f.
Proof.
  intros Hφ (Hd & HI & Hg & Hs). rewrite (left_id_L ∅ (∪)) in HI. destruct (Hφ _ Hs) as [Hp Hn]. split.
  - apply inv_settle; [done| |done]. intros r E. by apply Hn in E.
  - etrans; [done|apply guar_settle].
Qed.

Lemma ends_closing p o r φ st s f : (∀ s, φ s → closing_as r p s ∧ gone r s) →
  holds ∅ φ st s f → ends settle inv guar p o st s f.
Proof.
  intros Hφ (Hd & HI & Hg & Hs). rewrite (left_id_L ∅ (∪)) in HI. destruct (Hφ _ Hs) as [Hc [_ Hdead]].
  destruct (tk_close _ (in_tasks _ _ _ _ HI) _ _ Hc) as (_ & Hp & _ & Hinj). split.
  - apply inv_settle; [done| |done]. intros r' E. by rewrite (Hinj _ E).
  - etrans; [done|apply guar_settle].
Qed.

(** What a body needs to be sound: it starts and ends with no claims. *)
Definition sound_body (m : reg value) : Prop := ∀ φ, stable φ →
  triple never (λ _, holds ∅ φ) (holds ∅ φ) m (λ _, holds ∅ φ).

Lemma sound_bind {A : Type} (m : reg A) (k : A → value) :
  (∀ φ, stable φ → triple never (λ _, holds ∅ φ) (holds ∅ φ) m (λ _, holds ∅ φ)) → sound_body (x ← m; mret (k x)).
Proof.
  intros Hm φ Hφ. apply (triple_bind _ _ _ (λ _, holds ∅ φ)); [by apply Hm|]. intros x. by apply triple_ret.
Qed.
Lemma sound_neutral {A : Type} (m : reg A) (k : A → value) : registry_neutral maxLiveConversations m → sound_body (x ← m; mret (k x)).
Proof. intros Hm. apply sound_bind. intros φ. by apply Hm. Qed.

Lemma neutral_disposing runtime (report : bool) : registry_neutral maxLiveConversations
  (try_ (disposeRuntime runtime) (λ e, if report then port_ (ListenerError e) else throw_ e)).
Proof. body_steps. Qed.

Lemma sound_bodies t : (∀ r reason, t ≠ TDisposing r reason) → sound_body (body t).
Proof.
  intros Ht. destruct t; cbn; try (apply sound_bind; intros φ Hφ; by eauto using triple_create, triple_openAndRegister, triple_job_client);
    try (apply sound_neutral; by eauto using neutral_disposing with neutral).
  - intros φ Hφ. apply (triple_bind _ _ _ (λ _, holds ∅ φ)); [by apply triple_fork|]. intros [c text]. by apply triple_ret.
  - by destruct (Ht record reason).
Qed.

Lemma body_start p s frame φ : stable φ → φ s → inv s frame → holds ∅ φ s (unready p s) frame.
Proof.
  intros Hφ Hs HI. assert (HG : guar s (unready p s)) by (apply guar_same; auto).
  split_and!; [apply map_disjoint_empty_l| |done|by eapply Hφ]. rewrite (left_id_L ∅ (∪)). by apply inv_unready.
Qed.

Lemma sound_closing r p reason :
  triple never (λ _, holds ∅ (λ s, closing_as r p s ∧ gone r s)) (holds ∅ (closing_as r p)) (body (TDisposing r reason))
    (λ _, holds ∅ (λ s, closing_as r p s ∧ gone r s)).
Proof.
  apply (triple_bind _ _ _ (λ _, holds ∅ (λ s, closing_as r p s ∧ gone r s))); [|intros _; by apply triple_ret].
  apply (triple_closing_body _ r p); [apply stable_closing_as|done].
Qed.

Lemma bodies_ok p t : body_ok awaited enabled body rg_ready unready settle inv guar p t.
Proof.
  intros s frame HI Hready. destruct (tk_ready _ (in_tasks _ _ _ _ HI) _ _ Hready) as [Hp Hiff].
  destruct (match t with TDisposing _ _ => true | _ => false end) eqn:Et.
  - destruct t as [| | | | | | | | | | | | | | | | | | |r reason| | |]; try discriminate.
    assert (Hc : closing_as r p s) by (apply Hiff; by eexists).
    pose proof (stable_closing_as r p) as Hst.
    eapply wpc_mono; [|apply (sound_closing r p reason)].
    + intros [v|v|e] st s' f Hh; [|done|]; (eapply (ends_closing _ _ r); [|exact Hh]; by intros ?).
    + by apply body_start.
  - pose proof (stable_ordinary p) as Hst.
    eapply wpc_mono; [|apply (sound_bodies t ltac:(by intros r reason ->) _ Hst)].
    + intros [v|v|e] st s' f Hh; [|done|]; (eapply ends_ordinary; [|exact Hh]; by intros ?).
    + apply body_start; [done| |done]. split; [done|]. intros r E%Hiff. destruct E as [reason ->]. done.
Qed.

(** ** Reachable states *)

Definition system_ok (σ : registry_pool) : Prop := pool_ok awaited enabled settle inv guar σ.

Lemma initial_ok : system_ok initial_pool.
Proof.
  exists ∅, (λ _, 0). split_and!; [|by intros k a ?%lookup_empty_Some|intros i p E; cbn in E; by apply lookup_empty_Some in E].
  assert (Hnone : ∀ (A : Type) k (v : A), (∅ : gmap nat A) !! k = Some v → False) by by intros A k v ?%lookup_empty_Some.
  constructor; try done; try (intros r rec E; by apply Hnone in E).
  - by constructor; [apply NoDup_nil_2..| |].
  - constructor; [intros r p E; by apply Hnone in E|intros r p E; by apply Hnone in E|].
    intros p [v E]. by apply Hnone in E.
  - constructor; [unfold counted; rewrite map_filter_empty, map_size_empty; cbn; lia|done|..].
    + intros q [v E]. by apply Hnone in E.
    + by intros q c ?%lookup_empty_Some.
    + intros l st q E. by apply Hnone in E.
  - constructor; [|by intros t b e ?%lookup_empty_Some]. exists 0. cbn. split_and!; [lia|set_solver by lia|..].
    + intros t. rewrite lookup_empty. split; [by intros []|lia].
    + by intros t c ?%lookup_empty_Some.
Qed.

Lemma registry_step_ok σ σ' :
  system_ok σ → registry_step σ σ' → system_ok σ' ∧ guar (shared σ) (shared σ').
Proof.
  intros Hok Hstep. destruct Hstep as [σ σ' Hstep|t s waiting Ht].
  - eapply pool_step_ok; [apply _|apply bodies_ok|done|done].
  - split; [|apply guar_spawned]. eapply (pool_ok_env _ _ _ _ _ (Pool s waiting)); [|apply guar_spawned|done].
    intros X. apply inv_spawned. by destruct t.
Qed.

Lemma steps_ok σ σ' : system_ok σ → rtc registry_step σ σ' → system_ok σ' ∧ guar (shared σ) (shared σ').
Proof.
  intros Hok Hr. induction Hr as [σ|σ σ1 σ2 Hs Hr IH]; [split; [done|reflexivity]|].
  destruct (registry_step_ok _ _ Hok Hs) as [Hok1 HG1]. destruct (IH Hok1) as [Hok2 HG2].
  split; [done|]. by etrans.
Qed.

Lemma reachable_ok σ : reachable σ → ∃ X, inv (shared σ) X.
Proof. intros Hr. destruct (steps_ok _ _ initial_ok Hr) as [(X & who & HI & _) _]. by exists X. Qed.
End system.

(** ** Execution *)

Section execution.
Context `{Platform} (maxLiveConversations : Z).
Notation registry_step := (registry_step maxLiveConversations).
Notation body := (body maxLiveConversations).

(** How calls are answered; the clock is not negative. *)
Context (answers : ∀ c, answer c) (Hclock : (0 ≤ answers Now)%Z).

(** The answer to an awaited call, if it can be had by now. *)
Definition resume_answer (s : registry) (c : command) : option (answer c) :=
  match c with
  | AwaitTicket ticket => if decide (ticket ∈ rg_unlocked s) then Some tt else None
  | AwaitTask promise => rg_settled s !! promise
  | AwaitRecord promise =>
      match rg_settled s !! promise with
      | Some (Ok (VRecord r)) => Some (Ok r)
      | Some (Err e) => Some (Err e)
      | _ => None
      end
  | c => Some (answers c)
  end.

Lemma resume_answer_enabled s c r : resume_answer s c = Some r → enabled s c r.
Proof.
  destruct c; cbn; try done; try (intros [= <-]; done).
  - by case_decide.
  - intros E. destruct (rg_settled s !! promise) as [[[]|]|]; try done; by injection E as <-.
Qed.

(** One move: other code calls, or a task begins or goes on. *)
Inductive move := Start (t : task) | Go (i : nat).
Definition exec_move (σ : registry_pool) (m : move) : option registry_pool :=
  let s := shared σ in
  match m with
  | Start t => if external t then Some (Pool (spawned t s) (waiting σ)) else None
  | Go i => go awaited body rg_ready unready settle answers resume_answer σ i
  end.
Definition exec (σ : registry_pool) (moves : list move) : option registry_pool :=
  foldl (λ σ m, σ ≫= λ σ, exec_move σ m) (Some σ) moves.

Lemma sync_enabled s c : awaited c = false → enabled s c (answers c).
Proof. intros Ha. destruct c; try discriminate; done. Qed.

Lemma exec_move_sound σ m σ' : exec_move σ m = Some σ' → registry_step σ σ'.
Proof.
  destruct σ as [s w]. destruct m as [t|i]; cbn.
  - destruct (external t) eqn:E; [|done]. intros [= <-]. by constructor.
  - intros E. constructor. eapply go_sound; [apply sync_enabled|apply resume_answer_enabled|exact E].
Qed.

Lemma exec_none moves : foldl (λ σ m, σ ≫= λ σ, exec_move σ m) None moves = None.
Proof. by induction moves. Qed.

Lemma exec_sound moves σ σ' : exec σ moves = Some σ' → rtc registry_step σ σ'.
Proof.
  unfold exec. revert σ. induction moves as [|m moves IH]; intros σ; cbn; [intros [= ->]; constructor|].
  destruct (exec_move σ m) as [σ1|] eqn:E; [|by rewrite exec_none]. intros Hm. eapply rtc_l; [by eapply exec_move_sound|by apply IH].
Qed.
End execution.

#[global] Arguments reachable {_} _ _.
#[global] Arguments registry_step {_} _ _ _.
