(* ===== verification/RegistrySafety.v ===== *)
(** What holds of the conversation registry in every state its interleaved tasks
    reach, and between two such states. *)
From S2P Require Import Prelude JsValues Errors Revisions Programs Protocol Tasks TaskRules.
From S2P Require Import Workspaces Registry RegistryTasks RegistryOperations RegistryInvariant RegistrySystem.
#[local] Open Scope string_scope. #[local] Open Scope nat_scope.

(** ** A small world: two conversations at most, POSIX paths already canonical *)

#[local] Instance posix : Platform := {|
  isAbsolute := λ p, String.prefix "/" p; resolve := λ p, p; dirname := λ _, "/"; basename := λ p, p;
  joinPath := λ a b, a +:+ b; localeCompare := λ _ _, 0%Z |}.

Definition workspace (id : string) : ConversationWorkspace := {|
  cw_workspaceId := id; cw_cwd := "/w"; cw_sessionDirectory := None; cw_securityProfile := Unrestricted; cw_mounts := None;
  cw_networkPolicy := None; cw_networkPolicySetId := None; cw_effectiveNetworkPolicySetId := None;
  cw_networkPolicySet := None; cw_effectiveHttpTools := None; cw_effectiveConversationTools := None |}.

(** Workspace "a" gets runtime 100 with session "A", any other runtime 200 with session "B". *)
Definition answers (c : command) : answer c :=
  match c with
  | CreatePersistent w => Ok (if String.eqb (cw_workspaceId w) "a" then 100 else 200)
  | OpenPersistent _ _ => Ok 300
  | RuntimeFork _ _ => Ok (true, None)
  | RuntimePrompt _ _ | RuntimeAbort _ | RuntimeDispose _ | Access _ | Unlink _ | RefreshHistory _
  | AppendSessionInfo _ _ | ValidateImages _ _ | Subscribe _ => Ok tt
  | PromptPreflight _ _ _ _ => PfAccepted
  | Realpath p => Ok p
  | ClientDecides => true
  | Now => 5%Z
  | Identity runtime =>
      let session := if Nat.eqb runtime 100 then "A" else "B" in
      Ok {| pi_sessionId := session; pi_sessionFile := "/" +:+ session; pi_cwd := "/w" |}
  | PolicyOf _ => {| rp_securityProfile := Unrestricted; rp_networkPolicy := None; rp_networkPolicySetId := None;
                     rp_networkPolicySet := None; rp_effectiveHttpTools := None; rp_effectiveConversationTools := None |}
  | IsStreaming _ => false
  | TeardownComplete _ => true
  | Disposed _ => false
  | SessionName _ | HeaderTime _ | LastAssistant _ => None
  | Branch _ => []
  | AwaitTask _ | AwaitRecord _ => Err (app_error INTERNAL_ERROR)
  | Tick | AwaitTicket _ | Emit _ | EmitJobAbort _ | ListenerError _ => tt
  end.

Definition run (moves : list move) : option registry_pool := exec 2 answers initial_pool moves.

Lemma run_reachable moves σ : run moves = Some σ → reachable 2 σ.
Proof. apply exec_sound. done. Qed.

Lemma run_app moves more σ σ' :
  run moves = Some σ → run (moves ++ more) = Some σ' → rtc (registry_step 2) σ σ'.
Proof.
  unfold run, exec. rewrite foldl_app. intros -> Hm. by apply (exec_sound 2 answers) in Hm.
Qed.

(** Creating the first conversation up to the refresh of the history after its
    registration, and the second one up to its eviction and beyond. *)
Definition first_created : list move := Start (TCreate (workspace "a")) :: replicate 7 (Go 0).
Definition second_evicts : list move := Start (TCreate (workspace "b")) :: Go 3 :: Go 3 :: replicate 5 (Go 4).

(** What a computed run shows. *)
Definition shows (moves : list move) (φ : registry → bool) : bool :=
  match run moves with Some σ => φ (shared σ) | None => false end.
Lemma shown moves φ : shows moves φ = true → ∃ σ, run moves = Some σ ∧ φ (shared σ) = true.
Proof. unfold shows. destruct (run moves) as [σ|]; [by exists σ|done]. Qed.

(** With a limit of two and one live conversation, creating another closes it:
    until the history is refreshed, the new runtime counts both as registered
    and as reserved. *)
Lemma create_evicts_below_the_limit :
  ∃ σ σ' : registry_pool, reachable 2 σ ∧ rg_byId (shared σ) = [("A", 2)] ∧ rg_capacityReservations (shared σ) = 1%Z ∧
    rtc (registry_step 2) σ σ' ∧ rg_byId (shared σ') = [].
Proof.
  destruct (shown first_created (λ s, bool_decide (rg_byId s = [("A", 2)] ∧ rg_capacityReservations s = 1%Z))) as (σ & E & Hb).
  { by vm_compute. }
  destruct (shown (first_created ++ second_evicts) (λ s, bool_decide (rg_byId s = []))) as (σ' & E' & Hb').
  { by vm_compute. }
  apply bool_decide_eq_true in Hb as [Hid Hres]. apply bool_decide_eq_true in Hb'. exists σ, σ'.
  split_and!; [by eapply run_reachable|done|done|by eapply run_app|done].
Qed.

(** The same runs, as reachable pools: the first conversation is stored, then
    evicted and its closing settled. *)
Lemma evicted_conversation :
  ∃ (σ σ' : registry_pool) (rec rec' : ConversationRecord), reachable 2 σ ∧ rtc (registry_step 2) σ σ' ∧
    rg_byId (shared σ) = [("A", 2)] ∧ rg_records (shared σ) !! 2 = Some rec ∧
    rg_records (shared σ') !! 2 = Some rec' ∧ rg_pendingCloses (shared σ') !! 2 = Some 4 ∧
    is_Some (rg_settled (shared σ') !! 4).
Proof.
  destruct (shown first_created (λ s, bool_decide (rg_byId s = [("A", 2)] ∧ is_Some (rg_records s !! 2)))) as (σ & E & Hb).
  { by vm_compute. }
  destruct (shown (first_created ++ second_evicts) (λ s, bool_decide (is_Some (rg_records s !! 2) ∧
    rg_pendingCloses s !! 2 = Some 4 ∧ is_Some (rg_settled s !! 4)))) as (σ' & E' & Hb').
  { by vm_compute. }
  pose proof (run_reachable _ _ E) as Hr. pose proof (run_app _ _ _ _ E E') as Hs. clear E E'.
  apply bool_decide_eq_true in Hb as (Hid & rec & Er). apply bool_decide_eq_true in Hb' as ((rec' & Er') & Hp & Hset).
  by exists σ, σ', rec, rec'.
Qed.

(** ** Properties *)

(** C3: however operations, evictions, forks, closings and runtime events
    interleave, the registry never holds more live conversations than its limit;
    no two of them share an identifier or a session file, so one file never has
    two writers; each is found by its own identifier and by its own file; and
    the count of capacity reservations is the number of those not released. *)
Theorem registry_capacity `{Platform} maxLiveConversations σ :
  (0 ≤ maxLiveConversations)%Z → reachable maxLiveConversations σ →
  let s := shared σ in
  (Z.of_nat (length (rg_byId s)) ≤ maxLiveConversations)%Z ∧
  rg_capacityReservations s = Z.of_nat (unreleased s) ∧
  (∀ r, live s r → map_get (cr_id (record_of s r)) (rg_byId s) = Some r ∧
                   map_get (cr_sessionFile (record_of s r)) (rg_bySessionFile s) = Some r) ∧
  (∀ r r', live s r → live s r' →
     cr_id (record_of s r) = cr_id (record_of s r') ∨
     cr_sessionFile (record_of s r) = cr_sessionFile (record_of s r') → r = r').
Proof.
  intros Hmax Hr. destruct (reachable_ok _ _ Hr) as [X HI]. cbn. destruct (in_capacity _ _ _ _ HI) as [Hlimit Hcount _ _ _].
  assert (Hkeys : ∀ r, live (shared σ) r → map_get (cr_id (record_of (shared σ) r)) (rg_byId (shared σ)) = Some r ∧
    map_get (cr_sessionFile (record_of (shared σ) r)) (rg_bySessionFile (shared σ)) = Some r).
  { intros r Hl. destruct (live_record _ _ (in_index _ _ _ _ HI) Hl) as (rec & E & Hid & Hfile).
    by rewrite (record_of_lookup _ _ _ E). }
  split_and!; [lia|done|done|]. intros r r' [Hid Hfile]%Hkeys [Hid' Hfile']%Hkeys [E|E]; congruence.
Qed.

Lemma registry_capacity_witness :
  ∃ σ : registry_pool, rg_byId (shared σ) = [("A", 2)] ∧ (Z.of_nat (length (rg_byId (shared σ))) ≤ 2)%Z.
Proof.
  destruct evicted_conversation as (σ & _ & _ & _ & Hr & _ & Hid & _).
  exists σ. split; [done|]. exact (proj1 (registry_capacity 2 σ (Z.le_0_2) Hr)).
Defined.

(** C4: the registry only moves forward. Whatever happens between two moments:
    once shutting down it registers nothing any more; a conversation that has
    left it never comes back; workspace, owner, runtime and policy of a
    conversation stay what they were, its revision never decreases, and a
    terminal failure stays one. *)
Theorem registry_evolution `{Platform} maxLiveConversations σ σ' :
  reachable maxLiveConversations σ → rtc (registry_step maxLiveConversations) σ σ' →
  let s := shared σ in let s' := shared σ' in
  (rg_shuttingDown s = true → rg_shuttingDown s' = true ∧ ∀ r, live s' r → live s r) ∧
  (∀ r rec, rg_records s !! r = Some rec →
     (¬ live s r → ¬ live s' r) ∧
     ∃ rec', rg_records s' !! r = Some rec' ∧
       cr_workspaceId rec' = cr_workspaceId rec ∧ cr_owner rec' = cr_owner rec ∧
       cr_runtime rec' = cr_runtime rec ∧ cr_networkPolicySet rec' = cr_networkPolicySet rec ∧
       (cr_revision rec ≤ cr_revision rec')%Z ∧
       (cr_runtimeFailureTerminal rec = true → cr_runtimeFailureTerminal rec' = true)).
Proof.
  intros Hr Hs. destruct (steps_ok _ _ _ (initial_ok _) Hr) as [Hok _]. pose proof Hok as (X & _ & HI & _).
  destruct (steps_ok _ _ _ Hok Hs) as [_ HG]. cbn. split.
  - intros Hshut. split; [by apply HG|]. intros r Hl. destruct (gu_live _ _ HG r Hl) as [|[_ ?]]; [done|congruence].
  - intros r rec E. split.
    + intros Hdead Hl. destruct (gu_live _ _ HG r Hl) as [|[? _]]; [done|].
      destruct (in_records _ _ _ _ HI _ _ E). lia.
    + destruct (gu_records _ _ HG _ _ E) as (rec' & E' & []). exists rec'. destruct_and?. by split_and!.
Qed.

Lemma registry_evolution_witness :
  ∃ (σ σ' : registry_pool) (rec : ConversationRecord), rtc (registry_step 2) σ σ' ∧ rg_records (shared σ) !! 2 = Some rec ∧
    ∃ rec', rg_records (shared σ') !! 2 = Some rec' ∧ (cr_revision rec ≤ cr_revision rec')%Z.
Proof.
  destruct evicted_conversation as (σ & σ' & rec & _ & Hr & Hs & _ & Er & _).
  exists σ, σ', rec. split; [done|]. split; [done|].
  destruct (registry_evolution 2 σ σ' Hr Hs) as [_ Hrec].
  destruct (Hrec 2 rec Er) as (_ & rec' & Er' & _ & _ & _ & _ & Hrev & _). by exists rec'.
Defined.

(** Closing is final and failures show. When the promise of a disposal has
    settled, by whatever path, the conversation is in neither index; while it is
    being closed no event of its runtime reaches it; and a conversation whose
    runtime failed for good shows the error status until it is closed. *)
Lemma registry_disposal `{Platform} maxLiveConversations σ r rec :
  reachable maxLiveConversations σ → rg_records (shared σ) !! r = Some rec →
  let s := shared σ in
  (∀ p, rg_pendingCloses s !! r = Some p → is_Some (rg_settled s !! p) →
     (∀ id, map_get id (rg_byId s) ≠ Some r) ∧ (∀ file, map_get file (rg_bySessionFile s) ≠ Some r)) ∧
  (is_Some (rg_pendingCloses s !! r) → cr_attached rec = false) ∧
  (cr_runtimeFailureTerminal rec = true → cr_status rec = InError ∨ is_Some (rg_pendingCloses s !! r)).
Proof.
  intros Hr E. destruct (reachable_ok _ _ Hr) as [X HI]. cbn. pose proof (in_index _ _ _ _ HI) as Hi. split_and!.
  - intros p Hp Hs. destruct (tk_close _ (in_tasks _ _ _ _ HI) _ _ Hp) as (_ & _ & Hdead & _). specialize (Hdead Hs).
    assert (Hid : ∀ id, map_get id (rg_byId (shared σ)) ≠ Some r).
    { intros id Hg. apply Hdead, live_get; [done|by exists id]. }
    split; [done|]. intros file Hg. destruct (ix_file _ Hi _ _ Hg) as (rec' & _ & _ & Hg'). by apply Hid in Hg'.
  - intros [p Hp]. destruct (cr_attached rec) eqn:Ha; [|done].
    pose proof (rc_open _ _ _ (in_records _ _ _ _ HI _ _ E) Ha). congruence.
  - by apply (in_terminal _ _ _ _ HI _ _ E).
Qed.

Lemma registry_disposal_witness :
  ∃ (σ : registry_pool) rec, rg_records (shared σ) !! 2 = Some rec ∧ is_Some (rg_settled (shared σ) !! 4) ∧
    (∀ id, map_get id (rg_byId (shared σ)) ≠ Some 2) ∧ cr_attached rec = false.
Proof.
  destruct evicted_conversation as (σ & σ' & _ & rec & Hr & Hs & _ & _ & Er & Hp & Hset).
  assert (Hr' : reachable 2 σ') by (by exact (rtc_trans _ _ _ Hr Hs)).
  exists σ', rec. destruct (registry_disposal 2 σ' 2 rec Hr' Er) as (Hgone & Hatt & _).
  split_and!; [done|done|by apply (Hgone 4)|by apply Hatt; exists 4].
Defined.

(** Reserving capacity always comes to an end: the loop that evicts the
    least recently used idle conversation until a slot is free stops by itself,
    in every interleaving, after at most as many evictions as the limit allows
    conversations. *)
Lemma registry_eviction_terminates `{Platform} maxLiveConversations σ :
  reachable maxLiveConversations σ → rg_stuck (shared σ) = false.
Proof. intros Hr. destruct (reachable_ok _ _ Hr) as [X HI]. apply HI. Qed.

Lemma registry_eviction_terminates_witness :
  ∃ σ : registry_pool, is_Some (rg_pendingCloses (shared σ) !! 2) ∧ rg_stuck (shared σ) = false.
Proof.
  destruct evicted_conversation as (σ & σ' & _ & _ & Hr & Hs & _ & _ & _ & Hp & _).
  exists σ'. split; [by exists 4|].
  exact (registry_eviction_terminates 2 σ' (rtc_trans _ _ _ Hr Hs)).
Defined.
