(* ===== verification/Commands.v ===== *)
(** The commands of the WebSocket protocol ([src/server/protocol.ts]): decoding
    a frame, and carrying out a command over the registry, the history, the
    workspaces and the jobs, which are ports. A command body is polymorphic in
    the state of the task that runs it: it has none of its own. *)
From S2P Require Import Prelude JsValues Texts Errors Programs Tasks Jobs JobStore JobPages Protocol Workspaces.
#[local] Open Scope string_scope. #[local] Open Scope Z_scope.

(** ** Frames *)

(** src/server/protocol.ts:35-35 DEFAULT_MAX_INBOUND_MESSAGE_BYTES *)
Definition DEFAULT_MAX_INBOUND_MESSAGE_BYTES : Z := 40 * 1024 * 1024.

(** A message of a socket: one buffer, or the fragments of one. *)
Inductive RawData := Buffer (bytes : string) | Fragments (parts : list string).

(** src/server/protocol.ts:147-150 byteLength *)
Definition byteLength (data : RawData) : Z :=
  match data with
  | Fragments parts => fold_left (λ total part, total + strlen part) parts 0
  | Buffer bytes => strlen bytes
  end.

(** src/server/protocol.ts:152-156 rawBytes *)
Definition rawBytes (data : RawData) : string :=
  match data with Fragments parts => String.concat "" parts | Buffer bytes => bytes end.

(** src/server/protocol.ts:158-164 requestIdOf *)
Definition requestIdOf (value : jsval) : option string :=
  match get_field "requestId" value with
  | VStr requestId => if between 1 (strlen requestId) 128 then Some requestId else None
  | _ => None
  end.

(** src/server/protocol.ts:136-145 CommandDecodeError *)
Record CommandDecodeError := { de_code : ErrorCode; de_requestId : option string }.

Section decoding.
(** [JSON.parse] of bytes that are valid UTF-8, and the schema check, with the
    command it recognizes. *)
Context (parse : string → option jsval) (read_command : jsval → option ClientCommand).

(** src/server/protocol.ts:179-198 decodeClientCommand *)
Definition decodeClientCommand (data : RawData) (isBinary : bool) (maxBytes : Z)
  : result CommandDecodeError ClientCommand :=
  if maxBytes <? byteLength data then Err {| de_code := MESSAGE_TOO_LARGE; de_requestId := None |}
  else if isBinary then Err {| de_code := INVALID_COMMAND; de_requestId := None |}
  else match parse (rawBytes data) with
       | None => Err {| de_code := INVALID_COMMAND; de_requestId := None |}
       | Some value =>
           match read_command value with
           | None => Err {| de_code := INVALID_COMMAND; de_requestId := requestIdOf value |}
           | Some command => Ok command
           end
       end.
End decoding.

(** ** Ports *)

(** src/server/protocol.ts:38-65 ProtocolRegistry, and 67-80, 82-101, 103-114 for the
    history, the workspaces and the jobs. *)
Inductive service_call :=
| WorkspacesList
| WorkspacesCreate (input : WorkspaceCreateInput)
| WorkspacesUpdate (id : string) (changes : WorkspaceUpdateInput)
| WorkspacesDelete (id : string)
| RequireAvailable (id : string)
| RequireUsable (id : string)
| HistoryListing (workspace : Workspace)
| HistoryResolve (workspace : Workspace) (conversationId : string)
| HistoryDelete (workspace : Workspace) (conversationId : string)
| RegistryCreate (policy : ConversationWorkspace)
| RegistryOpen (policy : ConversationWorkspace) (sessionFile : string)
| RegistryGetState (conversationId : string)
| RegistryRename (conversationId title : string)
| RegistryClose (conversationId : string)
| RegistryFork (conversationId entry : string) (policy : ConversationWorkspace)
| RegistryPrompt (conversationId text : string) (images : list ImagePayload) (streamingBehavior : option prompt_kind)
| RegistryAbort (conversationId : string)
| HasLiveWorkspace (workspaceId : string)
| GetActiveOwner (conversationId : string)
| JobsList
| JobsCreate (input : JobCreateInput)
| JobsUpdate (jobId : string) (changes : JobUpdateInput)
| JobsDelete (jobId : string)
| JobsReferencesWorkspace (workspaceId : string)
| JobsRun (jobId : string)
| JobsAbort (jobId runId : string)
| JobsRuns (jobId : string) (cursor : option string)
| JobsRunState (jobId runId : string)
(* What it throws is ignored. *)
| SearchRefresh (workspaceId : option string).

Definition service_answer (c : service_call) : Type :=
  match c with
  | WorkspacesList => result thrown (list WorkspaceSummary)
  | WorkspacesCreate _ | WorkspacesUpdate _ _ => result thrown WorkspaceSummary
  | WorkspacesDelete _ | RegistryClose _ | RegistryPrompt _ _ _ _ | RegistryAbort _ | JobsAbort _ _ => result thrown unit
  | RequireAvailable _ => result thrown Workspace
  | RequireUsable _ => result thrown ConversationWorkspace
  | HistoryListing _ | HistoryDelete _ _ => result thrown (list ConversationSummary)
  | HistoryResolve _ _ | RegistryCreate _ | RegistryOpen _ _ => result thrown string
  | RegistryGetState _ | RegistryRename _ _ => result thrown ConversationState
  | RegistryFork _ _ _ => result thrown (ConversationState * string)
  | HasLiveWorkspace _ => bool
  | GetActiveOwner _ => option ConversationOwner
  | JobsList | JobsCreate _ | JobsUpdate _ _ | JobsDelete _ => result thrown (list JobSummary)
  | JobsReferencesWorkspace _ => result thrown bool
  | JobsRun _ | JobsRunState _ _ => result thrown JobRunState
  | JobsRuns _ _ => result thrown JobRunPage
  | SearchRefresh _ => unit
  end.

(** Whether the command waits for the answer. *)
Definition service_awaited (c : service_call) : bool :=
  match c with
  | RequireUsable _ | HistoryListing _ | HistoryResolve _ _ | HistoryDelete _ _ | RegistryCreate _ | RegistryOpen _ _
  | RegistryGetState _ | RegistryRename _ _ | RegistryClose _ | RegistryFork _ _ _ | RegistryPrompt _ _ _ _
  | RegistryAbort _ | JobsRun _ | JobsAbort _ _ | JobsRunState _ _ => true
  | _ => false
  end.

(** ** Carrying out a command *)

(** src/server/protocol.ts:126-134 DispatchResult *)
Record DispatchResult := {
  dr_response : ServerMessage;
  dr_affectedWorkspaceId : option string;
  dr_history : option (list ConversationSummary);
  dr_workspaces : option (list WorkspaceSummary);
  dr_workspaceBroadcastIncludesSender : bool;
  dr_jobs : option (list JobSummary);
  dr_jobsBroadcastIncludesSender : bool;
}.
(** A response alone, for a conversation, and with what is broadcast. *)
Definition replied (response : ServerMessage) : DispatchResult := {|
  dr_response := response; dr_affectedWorkspaceId := None; dr_history := None; dr_workspaces := None;
  dr_workspaceBroadcastIncludesSender := false; dr_jobs := None; dr_jobsBroadcastIncludesSender := false |}.
Definition affecting (workspaceId : string) (r : DispatchResult) : DispatchResult := {|
  dr_response := dr_response r; dr_affectedWorkspaceId := Some workspaceId; dr_history := dr_history r;
  dr_workspaces := dr_workspaces r; dr_workspaceBroadcastIncludesSender := dr_workspaceBroadcastIncludesSender r;
  dr_jobs := dr_jobs r; dr_jobsBroadcastIncludesSender := dr_jobsBroadcastIncludesSender r |}.
Definition with_history (conversations : list ConversationSummary) (r : DispatchResult) : DispatchResult := {|
  dr_response := dr_response r; dr_affectedWorkspaceId := dr_affectedWorkspaceId r; dr_history := Some conversations;
  dr_workspaces := dr_workspaces r; dr_workspaceBroadcastIncludesSender := dr_workspaceBroadcastIncludesSender r;
  dr_jobs := dr_jobs r; dr_jobsBroadcastIncludesSender := dr_jobsBroadcastIncludesSender r |}.
Definition with_workspaces (workspaces : list WorkspaceSummary) (includesSender : bool) (r : DispatchResult) : DispatchResult := {|
  dr_response := dr_response r; dr_affectedWorkspaceId := dr_affectedWorkspaceId r; dr_history := dr_history r;
  dr_workspaces := Some workspaces; dr_workspaceBroadcastIncludesSender := includesSender;
  dr_jobs := dr_jobs r; dr_jobsBroadcastIncludesSender := dr_jobsBroadcastIncludesSender r |}.
Definition with_jobs (jobs : list JobSummary) (includesSender : bool) (r : DispatchResult) : DispatchResult := {|
  dr_response := dr_response r; dr_affectedWorkspaceId := dr_affectedWorkspaceId r; dr_history := dr_history r;
  dr_workspaces := dr_workspaces r; dr_workspaceBroadcastIncludesSender := dr_workspaceBroadcastIncludesSender r;
  dr_jobs := Some jobs; dr_jobsBroadcastIncludesSender := includesSender |}.

(** src/server/protocol.ts:166-177 withoutJobDiagnostics *)
Definition withoutJobDiagnostics (run : JobRunState) : JobRunState := {|
  st_summary := st_summary run;
  st_preExitCode := None; st_preStdout := None; st_preStderr := None;
  st_postExitCode := None; st_postStdout := None; st_postStderr := None;
  st_conversationAvailable := st_conversationAvailable run |}.

Section dispatch.
Context {S V : Type} (has_jobs : bool).
Notation command_stmt := (task_stmt service_answer S V thrown).
Notation port c := (port_ (ans := service_answer) (S := S) (V := V) (E := thrown) c).
Notation await c := (await_ (ans := service_answer) (S := S) (V := V) (E := thrown) c).

(** A port's result, or what it threw. *)
Definition ok_ {A} (m : command_stmt (result thrown A)) : command_stmt A := r ← m; lift_ r.

(** src/server/protocol.ts:211-213 refreshSearch *)
Definition refreshSearch (workspaceId : option string) : command_stmt unit := port (SearchRefresh workspaceId).
(** src/server/protocol.ts:214-217 requireJobs *)
Definition requireJobs : command_stmt unit := if has_jobs then mret tt else throw_ (app_error INTERNAL_ERROR).
(** src/server/protocol.ts:218-222 rejectJobOwnedMutation *)
Definition rejectJobOwnedMutation (conversationId : string) : command_stmt unit :=
  owner ← port (GetActiveOwner conversationId);
  match owner with Some _ => throw_ (app_error CONVERSATION_BUSY) | None => mret tt end.

Definition busy_if (busy : bool) : command_stmt unit :=
  if busy then throw_ (app_error WORKSPACE_BUSY) else mret tt.

(** Whether an update changes more than the name. *)
(** src/server/protocol.ts:266-274 changesPolicy *)
Definition changes_policy (changes : WorkspaceUpdateInput) : bool :=
  bool_decide (is_Some (wu_path changes)) || bool_decide (is_Some (wu_securityProfile changes))
  || bool_decide (is_Some (wu_mounts changes)) || bool_decide (is_Some (wu_networkPolicy changes))
  || bool_decide (is_Some (wu_networkPolicySetId changes)) || bool_decide (is_Some (wu_enabledHttpTools changes))
  || bool_decide (is_Some (wu_conversationToolsEnabled changes)).

(** src/server/protocol.ts:224-338 dispatchWorkspaceCommand *)
Definition dispatch_workspaces (requestId : string) (input : ClientCommandInput) : command_stmt DispatchResult :=
  let listed workspaces := MWorkspaces (Some requestId) workspaces in
  match input with
  | WorkspaceList => workspaces ← ok_ (port WorkspacesList); mret (replied (listed workspaces))
  | WorkspaceCreate input =>
      ok_ (port (WorkspacesCreate input));;
      refreshSearch None;;
      workspaces ← ok_ (port WorkspacesList);
      mret (with_workspaces workspaces false (replied (listed workspaces)))
  | WorkspaceUpdate workspaceId changes =>
      (if changes_policy changes then
         live ← port (HasLiveWorkspace workspaceId);
         busy_if live
       else mret tt : command_stmt unit);;
      ok_ (port (WorkspacesUpdate workspaceId changes));;
      refreshSearch (Some workspaceId);;
      workspaces ← ok_ (port WorkspacesList);
      mret (with_workspaces workspaces false (replied (listed workspaces)))
  | WorkspaceDelete workspaceId =>
      live ← port (HasLiveWorkspace workspaceId);
      busy_if live;;
      referenced ← (if has_jobs then ok_ (port (JobsReferencesWorkspace workspaceId)) else mret false : command_stmt bool);
      busy_if referenced;;
      ok_ (port (WorkspacesDelete workspaceId));;
      refreshSearch None;;
      workspaces ← ok_ (port WorkspacesList);
      mret (with_workspaces workspaces true (replied (MAck requestId AckWorkspaceDelete)))
  | HistoryList workspaceId =>
      workspace ← ok_ (port (RequireAvailable workspaceId));
      conversations ← ok_ (await (HistoryListing workspace));
      mret (replied (MHistory (Some requestId) (w_id workspace) conversations))
  | _ => throw_ (app_error INVALID_COMMAND)
  end.

(** src/server/protocol.ts:339-428 dispatchConversationCommand *)
Definition dispatch_conversations (requestId : string) (input : ClientCommandInput) : command_stmt DispatchResult :=
  let state conversation editorText := MState (Some requestId) conversation editorText in
  let ack command := replied (MAck requestId command) in
  match input with
  | ConversationCreate workspaceId =>
      policy ← ok_ (await (RequireUsable workspaceId));
      id ← ok_ (await (RegistryCreate policy));
      conversation ← ok_ (await (RegistryGetState id));
      mret (affecting workspaceId (replied (state conversation None)))
  | ConversationOpen workspaceId conversationId =>
      workspace ← ok_ (port (RequireAvailable workspaceId));
      sessionFile ← ok_ (await (HistoryResolve workspace conversationId));
      policy ← ok_ (await (RequireUsable workspaceId));
      id ← ok_ (await (RegistryOpen policy sessionFile));
      conversation ← ok_ (await (RegistryGetState id));
      mret (affecting workspaceId (replied (state conversation None)))
  | ConversationStateOf conversationId =>
      conversation ← ok_ (await (RegistryGetState conversationId));
      mret (replied (state conversation None))
  | ConversationRename conversationId title =>
      rejectJobOwnedMutation conversationId;;
      conversation ← ok_ (await (RegistryRename conversationId title));
      refreshSearch (Some (cv_workspaceId conversation));;
      mret (affecting (cv_workspaceId conversation) (replied (state conversation None)))
  | ConversationClose conversationId =>
      rejectJobOwnedMutation conversationId;;
      conversation ← ok_ (await (RegistryGetState conversationId));
      ok_ (await (RegistryClose conversationId));;
      mret (affecting (cv_workspaceId conversation) (ack AckConversationClose))
  | ConversationDelete workspaceId conversationId =>
      rejectJobOwnedMutation conversationId;;
      workspace ← ok_ (port (RequireAvailable workspaceId));
      conversations ← ok_ (await (HistoryDelete workspace conversationId));
      refreshSearch (Some workspaceId);;
      mret (affecting workspaceId (with_history conversations (ack AckConversationDelete)))
  | Prompt kind conversationId text images =>
      rejectJobOwnedMutation conversationId;;
      ok_ (await (RegistryPrompt conversationId text images (match kind with Submit => None | _ => Some kind end)));;
      mret (ack (AckPrompt kind))
  | ConversationAbort conversationId =>
      owner ← port (GetActiveOwner conversationId);
      (match owner with
       | None => ok_ (await (RegistryAbort conversationId))
       | Some owner => requireJobs;; ok_ (await (JobsAbort (co_jobId owner) (co_runId owner)))
       end : command_stmt unit);;
      mret (ack AckConversationAbort)
  | _ => throw_ (app_error INVALID_COMMAND)
  end.

(** Both start from the source and its workspace's policy. *)
(** src/server/protocol.ts:429-467 dispatchForkCommand *)
Definition dispatch_forks (requestId : string) (input : ClientCommandInput) : command_stmt DispatchResult :=
  let forked conversation editorText := MState (Some requestId) conversation (Some editorText) in
  match input with
  | ConversationFork conversationId entry =>
      rejectJobOwnedMutation conversationId;;
      source ← ok_ (await (RegistryGetState conversationId));
      policy ← ok_ (await (RequireUsable (cv_workspaceId source)));
      '(conversation, editorText) ← ok_ (await (RegistryFork conversationId entry policy));
      mret (affecting (cv_workspaceId conversation) (replied (forked conversation editorText)))
  | ConversationRewind conversationId entry =>
      rejectJobOwnedMutation conversationId;;
      source ← ok_ (await (RegistryGetState conversationId));
      workspace ← ok_ (port (RequireAvailable (cv_workspaceId source)));
      ok_ (await (HistoryResolve workspace (cv_id source)));;
      policy ← ok_ (await (RequireUsable (cv_workspaceId source)));
      '(conversation, editorText) ← ok_ (await (RegistryFork conversationId entry policy));
      ok_ (await (RegistryClose (cv_id source)));;
      conversations ← ok_ (await (HistoryDelete workspace (cv_id source)));
      refreshSearch (Some (cv_workspaceId source));;
      mret (affecting (cv_workspaceId source) (with_history conversations (replied (forked conversation editorText))))
  | _ => throw_ (app_error INVALID_COMMAND)
  end.

(** src/server/protocol.ts:468-547 dispatchJobCommand *)
Definition dispatch_jobs (requestId : string) (input : ClientCommandInput) : command_stmt DispatchResult :=
  let listed jobs := MJobs (Some requestId) jobs in
  requireJobs;;
  match input with
  | JobList => jobs ← ok_ (port JobsList); mret (replied (listed jobs))
  | JobCreate input => jobs ← ok_ (port (JobsCreate input)); mret (with_jobs jobs false (replied (listed jobs)))
  | JobUpdate jobId changes =>
      jobs ← ok_ (port (JobsUpdate jobId changes)); mret (with_jobs jobs false (replied (listed jobs)))
  | JobDelete jobId =>
      jobs ← ok_ (port (JobsDelete jobId)); mret (with_jobs jobs true (replied (MAck requestId AckJobDelete)))
  | JobRun jobId =>
      run ← ok_ (await (JobsRun jobId)); mret (replied (MJobRunState requestId (withoutJobDiagnostics run)))
  | JobAbort jobId runId =>
      ok_ (await (JobsAbort jobId runId));; mret (replied (MAck requestId AckJobAbort))
  | JobRuns jobId cursor =>
      page ← ok_ (port (JobsRuns jobId cursor));
      mret (replied (MJobRuns requestId jobId (page_runs page) (page_nextCursor page)))
  | JobRunStateOf jobId runId =>
      run ← ok_ (await (JobsRunState jobId runId)); mret (replied (MJobRunState requestId run))
  | _ => throw_ (app_error INVALID_COMMAND)
  end.

(** src/server/protocol.ts:200-223 dispatchClientCommand *)
Definition dispatchClientCommand (shuttingDown : bool) (command : ClientCommand) : command_stmt DispatchResult :=
  let requestId := cmd_requestId command in
  let input := cmd_input command in
  if shuttingDown then throw_ (app_error SHUTTING_DOWN)
  else match input with
  | WorkspaceList | WorkspaceCreate _ | WorkspaceUpdate _ _ | WorkspaceDelete _ | HistoryList _ =>
      dispatch_workspaces requestId input
  | ConversationCreate _ | ConversationOpen _ _ | ConversationStateOf _ | ConversationRename _ _ | ConversationClose _
  | ConversationDelete _ _ | Prompt _ _ _ _ | ConversationAbort _ => dispatch_conversations requestId input
  | ConversationFork _ _ | ConversationRewind _ _ => dispatch_forks requestId input
  | JobList | JobCreate _ | JobUpdate _ _ | JobDelete _ | JobRun _ | JobAbort _ _ | JobRuns _ _ | JobRunStateOf _ _ =>
      dispatch_jobs requestId input
  end.
End dispatch.

(** What carrying out a command guarantees: which checks come before which
    mutations, and that the browser accepts every response. *)
From S2P Require SocketClientOperations.
#[local] Open Scope string_scope. #[local] Open Scope Z_scope.

(** Splitting a call by its answer. *)
Ltac answer :=
  let w := fresh "w" in
  match goal with
  | |- ∀ _ : result thrown unit, _ => intros [[]|?] w
  | |- ∀ _ : result thrown (_ * _), _ => intros [[? ?]|?] w
  | |- ∀ _ : result _ _, _ => intros [?|?] w
  | |- ∀ _ : option _, _ => intros [?|] w
  | |- ∀ _ : bool, _ => intros [|] w
  | |- ∀ _ : unit, _ => intros [] w
  end.

Section runs.
Context {S V : Type} (has_jobs : bool).
Notation node := (S * service_call)%type.
Notation answers := (at_state (S := S) service_answer).
Notation event := (Programs.event answers S).
Notation history := (list event).

(** An answered call of a history. *)
Definition saw (h : history) (c : service_call) (r : service_answer c) : Prop := ∃ s w, Event (ans := answers) (s, c) r w ∈ h.

Lemma saw_later h e c r : saw h c r → saw (h ++ [e])%list c r.
Proof. intros (s & w & Hin). exists s, w. apply elem_of_app. by left. Qed.
Lemma saw_now h s c (r : service_answer c) w : saw (h ++ [Event (ans := answers) (s, c) r w])%list c r.
Proof. exists s, w. apply elem_of_app. right. by apply list_elem_of_singleton. Qed.

(** ** What the services promise *)

(** What an answer may be after a history: the promises of the registry, the
    workspaces, the history and the jobs to the commands. *)
Definition promised (h : history) (c : service_call) : service_answer c → Prop :=
  match c with
  | RequireAvailable id => λ r, ∀ w, r = Ok w → w_id w = id
  | RequireUsable id => λ r, ∀ p, r = Ok p → cw_workspaceId p = id
  | HistoryListing w => λ r, ∀ l, r = Ok l → ∀ c, c ∈ l → cs_workspaceId c = w_id w
  | RegistryOpen p file => λ r, ∀ id w conversation, r = Ok id → saw h (HistoryResolve w conversation) (Ok file) → id = conversation
  | RegistryGetState id => λ r, ∀ c, r = Ok c → cv_id c = id ∧
      (∀ p, saw h (RegistryCreate p) (Ok id) → cv_workspaceId c = cw_workspaceId p) ∧
      (∀ p file, saw h (RegistryOpen p file) (Ok id) → cv_workspaceId c = cw_workspaceId p)
  | RegistryRename id _ => λ r, ∀ c, r = Ok c → cv_id c = id
  | JobsRun jobId => λ r, ∀ run, r = Ok run → rs_jobId run = jobId
  | JobsRunState jobId runId => λ r, ∀ run, r = Ok run → rs_jobId run = jobId ∧ rs_id run = runId
  | JobsRuns jobId _ => λ r, ∀ page, r = Ok page → ∀ run, run ∈ page_runs page → rs_jobId run = jobId
  | _ => λ _, True
  end.

(** The history, and whether the services kept their promises so far. *)
Definition watch (g : history * Prop) (e : event) : history * Prop :=
  ((g.1 ++ [e])%list, g.2 ∧ promised g.1 (ev_call e).2 (ev_answer e)).

(** A history this environment gave. *)
Definition given (env : environment answers S) (h : history) : Prop :=
  ∀ before e rest, h = (before ++ e :: rest)%list → ev_answer e = (env before (ev_call e)).1.
Definition keeps_promises (env : environment answers S) : Prop :=
  ∀ h c, given env h → promised h c.2 (env h c).1.

Lemma given_nil env : given env [].
Proof. by intros [|x l] e rest E. Qed.
Lemma given_snoc env h c r w : given env h → env h c = (r, w) → given env (h ++ [Event c r w]).
Proof.
  intros Hh E before e rest Eh. destruct rest as [|x rest] using rev_ind.
  - apply app_inj_tail in Eh as [<- <-]. cbn. by rewrite E.
  - rewrite app_comm_cons, app_assoc in Eh. apply app_inj_tail in Eh as [-> _]. by eapply Hh.
Qed.

Lemma watched {A} (p : prog answers S A) env h :
  keeps_promises env → let g := fold_left watch in
  (g h ([], True)).1 = h ∧ (g h ([], True)).2 ∧ given env h →
  let h' := (run_prog env h p).2 in (g h' ([], True)).1 = h' ∧ (g h' ([], True)).2 ∧ given env h'.
Proof.
  intros Henv g. revert h. induction p as [a|c k IH]; intros h (Hh & Hp & Hg); cbn; [done|].
  pose proof (Henv h c Hg) as Hc. destruct (env h c) as [r w] eqn:E. apply IH.
  unfold g in *. rewrite fold_left_app. cbn. rewrite Hh. split_and!; [done|done|done|by apply given_snoc].
Qed.

(** What was seen of a part of a history. *)
Lemma watch_prefix l g : (fold_left watch l g).1 = (g.1 ++ l)%list ∧ ((fold_left watch l g).2 → g.2).
Proof.
  revert g. induction l as [|x l IH]; intros g; cbn; [by rewrite app_nil_r|].
  destruct (IH (watch g x)) as [E1 E2]. rewrite E1. cbn. rewrite <-app_assoc.
  split; [done|]. intros H. by destruct (E2 H).
Qed.

(** ** Guards *)

(** What must be known before a call is made. *)
Definition guard (h : history) (c : service_call) : Prop :=
  match c with
  | RegistryRename id _ | RegistryClose id | RegistryPrompt id _ _ _ | HistoryDelete _ id => saw h (GetActiveOwner id) None
  | RegistryFork id _ p => saw h (GetActiveOwner id) None ∧ ∃ workspace, saw h (RequireUsable workspace) (Ok p)
  | RegistryCreate p | RegistryOpen p _ => ∃ workspace, saw h (RequireUsable workspace) (Ok p)
  | WorkspacesUpdate id changes => changes_policy changes = true → saw h (HasLiveWorkspace id) false
  | WorkspacesDelete id =>
      saw h (HasLiveWorkspace id) false ∧ (has_jobs = true → saw h (JobsReferencesWorkspace id) (Ok false))
  | _ => True
  end.

(** A rewind removes its source only after the fork is there. *)
Definition rewind_guard (input : ClientCommandInput) (h : history) (c : service_call) : Prop :=
  match input, c with
  | ConversationRewind conversation entry, RegistryClose id =>
      id = conversation ∧ ∃ p r, saw h (RegistryFork conversation entry p) (Ok r)
  | ConversationRewind conversation entry, HistoryDelete _ id =>
      id = conversation ∧ saw h (RegistryClose conversation) (Ok tt)
  | _, _ => True
  end.

(** What other browsers are told of a mutation. *)
Definition announced (input : ClientCommandInput) (h : history) (r : DispatchResult) : Prop :=
  match input with
  | WorkspaceCreate _ | WorkspaceUpdate _ _ | WorkspaceDelete _ =>
      ∃ l, dr_workspaces r = Some l ∧ saw h WorkspacesList (Ok l)
  | JobCreate _ | JobUpdate _ _ | JobDelete _ => is_Some (dr_jobs r)
  | ConversationCreate id | ConversationOpen id _ => dr_affectedWorkspaceId r = Some id
  | ConversationDelete id _ => dr_affectedWorkspaceId r = Some id ∧ is_Some (dr_history r)
  | ConversationRename _ _ | ConversationClose _ | ConversationFork _ _ => is_Some (dr_affectedWorkspaceId r)
  | ConversationRewind _ _ => is_Some (dr_affectedWorkspaceId r) ∧ is_Some (dr_history r)
  | _ => True
  end.

Definition good_result (command : ClientCommand) (h : history) (r : DispatchResult) : Prop :=
  message_requestId (dr_response r) = Some (cmd_requestId command)
  ∧ SocketClientOperations.isExpectedResponse (cmd_input command) (dr_response r) = true
  ∧ announced (cmd_input command) h r.

Definition guarded (input : ClientCommandInput) (g : history * Prop) (c : node) : Prop :=
  g.2 → guard g.1 c.2 ∧ rewind_guard input g.1 c.2.

(** Stepping through the calls of a command. *)
Ltac seen :=
  match goal with
  | |- saw _ _ _ => do 2 eexists; solve [repeat first [apply list_elem_of_here | apply list_elem_of_further]]
  end.
(** What the promises say of the answers given. *)
Ltac keep_promises :=
  repeat match goal with
  | H : _ ∧ _ |- _ => destruct H
  | H : ∀ x, Ok ?a = Ok x → _ |- _ => specialize (H a eq_refl)
  | H : ∀ x l c, Ok ?a = Ok x → saw _ _ _ → _ |- _ => epose proof (H _ _ _ eq_refl ltac:(seen)); clear H
  end.
Ltac conclude :=
  repeat match goal with
  | H : ∀ p, saw _ (RegistryCreate p) (Ok _) → cv_workspaceId ?c = _ |- context [cv_workspaceId ?c] => erewrite H by seen
  | H : ∀ p f, saw _ (RegistryOpen p f) (Ok _) → cv_workspaceId ?c = _ |- context [cv_workspaceId ?c] => erewrite H by seen
  | H : ?f ?x = _ |- context [?f ?x] => rewrite H
  end; rewrite ?String.eqb_refl, ?bool_decide_eq_true_2 by done; try done; try by eauto.

Ltac check_guard :=
  unfold guarded; cbn; intros Hp; keep_promises;
  repeat match goal with H : ?f ?x = _ |- context [?f ?x] => rewrite H end;
  split_and!; intros; try done; first [seen | eexists; seen | do 2 eexists; seen | congruence].

Lemma dispatch_wp command s :
  wp (guarded (cmd_input command)) watch (dispatchClientCommand (V := V) has_jobs false command s) ([], True)
    (λ '(o, _) g, match o with
       | Next r => g.2 → good_result command g.1 r
       | Return _ => False
       | Throw _ => True
       end).
Proof.
  destruct command as [requestId input]. unfold dispatchClientCommand. cbn [cmd_requestId cmd_input].
  destruct input; unfold dispatch_workspaces, dispatch_conversations, dispatch_forks, dispatch_jobs, ok_, requireJobs,
    refreshSearch, rejectJobOwnedMutation, busy_if, mbind, stmt_bind, port_, await_, mret, stmt_ret, lift_, throw_.
  all: cbn; try (destruct has_jobs eqn:Ejobs; cbn).
  all: repeat first [done | split; [solve [check_guard]|]; cbn beta iota; answer; cbn; try done | case_match; cbn; try done].
  all: unfold good_result, announced; cbn; intros Hp; keep_promises; split_and!; try done; try (by eauto); try (eexists; split; [done|seen]).
  all: subst; conclude.
  all: cbn [andb]; apply forallb_forall; intros x Hx%list_elem_of_In; apply String.eqb_eq; by eauto.
Qed.

Lemma dispatch_run command env s :
  keeps_promises env →
  let '((o, _), h) := run_prog env [] (dispatchClientCommand (V := V) has_jobs false command s) in
  match o with Next r => good_result command h r | Return _ => False | Throw _ => True end
  ∧ ∀ before e rest, h = (before ++ e :: rest)%list →
      guard before (ev_call e).2 ∧ rewind_guard (cmd_input command) before (ev_call e).2.
Proof.
  intros Henv.
  pose proof (watched (dispatchClientCommand (V := V) has_jobs false command s) env [] Henv
    (conj eq_refl (conj I (given_nil env)))) as Hw.
  pose proof (wp_run (guarded (cmd_input command)) watch _ ([], True) _ env [] ltac:(by intros [|x l] e rest E)
    (dispatch_wp command s)) as H.
  unfold after_history in H. destruct (run_prog env [] _) as [[o s'] h]. cbn [snd] in Hw.
  destruct Hw as (Hh & Hp & _), H as (HQ & Hr & _). split.
  - destruct o; try done. rewrite Hh in HQ. by apply HQ.
  - intros before e rest ->. pose proof (Hr before e rest eq_refl) as Hg. unfold guarded, after_history in Hg.
    rewrite (proj1 (watch_prefix before ([], True))) in Hg. cbn [app fst] in Hg. apply Hg.
    rewrite fold_left_app in Hp. pose proof (proj2 (watch_prefix rest (watch (fold_left watch before ([], True)) e)) Hp) as Hp'.
    by destruct Hp'.
Qed.
End runs.

(** ** What a command leaves alone *)

(** The state of the task changes only while a call is awaited, and what the
    command returns satisfies [ψ]. *)
Fixpoint passive {S V A : Type} (ψ : A → Prop) (s : S)
    (p : prog (at_state (S := S) service_answer) S (outcome V thrown A * S)) : Prop :=
  match p with
  | Ret (o, s') => s' = s ∧ match o with Next x => ψ x | Return _ => False | Throw _ => True end
  | Vis sc k =>
      sc.1 = s ∧ if service_awaited sc.2 then ∀ r s', passive ψ s' (k r s') else ∀ r w, passive ψ s (k r w)
  end.

Lemma dispatch_passive {S V : Type} (has_jobs b : bool) command (s : S) :
  passive (λ r, message_requestId (dr_response r) = Some (cmd_requestId command)) s
    (dispatchClientCommand (V := V) has_jobs b command s).
Proof.
  destruct command as [requestId input]. unfold dispatchClientCommand. cbn [cmd_requestId cmd_input].
  destruct b; [done|].
  destruct input; unfold dispatch_workspaces, dispatch_conversations, dispatch_forks, dispatch_jobs, ok_, requireJobs,
    refreshSearch, rejectJobOwnedMutation, busy_if, mbind, stmt_bind, port_, await_, mret, stmt_ret, lift_, throw_.
  all: cbn; try (destruct has_jobs; cbn).
  all: repeat first [done | split; [done|]; cbn beta iota; answer; cbn; try done | case_match; cbn; try done].
Qed.

(** ** Concrete services *)

Module sample.
Definition workspace (id : string) : Workspace := {|
  w_id := id; w_name := "App"; w_path := "/srv/app"; w_sessionStorage := PiDefault; w_sessionDirectory := None;
  w_securityProfile := Unrestricted; w_mounts := []; w_networkPolicy := Isolated;
  w_networkPolicySetId := "default"; w_enabledHttpTools := []; w_conversationToolsEnabled := false;
  w_createdAt := 0; w_updatedAt := 0 |}.
Definition policy (id : string) : ConversationWorkspace := {|
  cw_workspaceId := id; cw_cwd := "/srv/app"; cw_sessionDirectory := None; cw_securityProfile := Unrestricted;
  cw_mounts := None; cw_networkPolicy := None; cw_networkPolicySetId := None; cw_effectiveNetworkPolicySetId := None;
  cw_networkPolicySet := None; cw_effectiveHttpTools := None; cw_effectiveConversationTools := None |}.
(** Every conversation bears the name of its workspace. *)
Definition conversation (id : string) : ConversationState := {|
  cv_id := id; cv_workspaceId := id; cv_sessionFile := "/s"; cv_title := "T"; cv_cwd := "/srv/app"; cv_model := None;
  cv_status := Idle; cv_createdAt := JInt 0; cv_lastActiveAt := JInt 0; cv_revision := 0; cv_durable := true;
  cv_contextUsage := None; cv_messages := []; cv_queue := {| qs_steering := []; qs_followUp := [] |};
  cv_securityProfile := Unrestricted; cv_networkPolicy := None; cv_networkPolicySetId := "default";
  cv_effectiveNetworkPolicySetId := None; cv_effectiveHttpTools := []; cv_effectiveConversationTools := [];
  cv_owner := None |}.
Definition services (c : service_call) : service_answer c :=
  match c with
  | WorkspacesList => Ok []
  | RequireAvailable id => Ok (workspace id)
  | RequireUsable id => Ok (policy id)
  | HistoryResolve _ _ => Ok "/s"
  | HistoryListing _ | HistoryDelete _ _ => Ok []
  | RegistryCreate p => Ok (cw_workspaceId p)
  | RegistryGetState id => Ok (conversation id)
  | RegistryFork id _ p => Ok (conversation "fork", "text")
  | WorkspacesDelete _ | RegistryClose _ | RegistryPrompt _ _ _ _ | RegistryAbort _ | JobsAbort _ _ => Ok tt
  | HasLiveWorkspace _ => false
  | GetActiveOwner id => None
  | JobsReferencesWorkspace _ => Ok false
  | SearchRefresh _ => tt
  | JobsList | JobsCreate _ | JobsUpdate _ _ | JobsDelete _ => Ok []
  | WorkspacesCreate _ | WorkspacesUpdate _ _ => Err (app_error DATABASE_ERROR)
  | RegistryOpen _ _ => Err (app_error SESSION_UNAVAILABLE)
  | RegistryRename _ _ => Err (app_error INVALID_CONVERSATION_TITLE)
  | JobsRun _ | JobsRunState _ _ => Err (app_error JOB_NOT_FOUND)
  | JobsRuns _ _ => Err (app_error JOB_NOT_FOUND)
  end.
Definition env : environment (at_state (S := unit) service_answer) unit := λ h c, (services c.2, tt).

Lemma env_keeps_promises : keeps_promises env.
Proof.
  assert (Hgiven : ∀ h c r, given env h → saw h c r → r = services c).
  { intros h c r Hg (s & w & (l1 & l2 & ->)%list_elem_of_split). by apply (Hg _ _ _ eq_refl). }
  intros h [s c] Hg. destruct c; cbn; try done; try (by intros; simplify_eq).
  - intros l [= <-] c Hc. by apply elem_of_nil in Hc.
  - intros c [= <-]. split_and!; [done| |].
    + intros p Hs. apply Hgiven in Hs; [|done]. by injection Hs.
    + intros p file Hs. by apply Hgiven in Hs.
Qed.
End sample.

(** ** Properties *)

(** C35: Commands are guarded: a conversation is renamed, closed, forked, prompted or deleted only after the registry said that no job owns it, a runtime is created, opened or forked only with a policy resolved for this command, a workspace's policy is changed only while none of its conversations is live and it is deleted only if no job refers to it either; a rewind closes its source only after the fork succeeded and deletes it only after it was closed; and once the server shuts down a command makes no call at all. *)
Theorem commands_are_guarded {S V : Type} (has_jobs : bool) (command : ClientCommand)
    (env : environment (at_state (S := S) service_answer) S) (s : S) (Henv : keeps_promises env) :
  (∀ before e rest,
    (run_prog env [] (dispatchClientCommand (V := V) has_jobs false command s)).2 = (before ++ e :: rest)%list →
    guard has_jobs before (ev_call e).2 ∧ rewind_guard (cmd_input command) before (ev_call e).2)
  ∧ run_prog env [] (dispatchClientCommand (V := V) has_jobs true command s) = ((Throw (app_error SHUTTING_DOWN), s), []).
Proof.
  split; [|done]. pose proof (dispatch_run (V := V) has_jobs command env s Henv) as H.
  destruct (run_prog env [] _) as [[o s'] h]. by destruct H as [_ H].
Qed.

Lemma commands_are_guarded_witness :
  let h := (run_prog sample.env [] (dispatchClientCommand (V := unit) true false
    {| cmd_requestId := "r"; cmd_input := ConversationRewind "c" "e" |} tt)).2 in
  length h = 9%nat ∧ rewind_guard (ConversationRewind "c" "e") (take 6 h) (RegistryClose "c").
Proof.
  pose proof (commands_are_guarded (V := unit) true {| cmd_requestId := "r"; cmd_input := ConversationRewind "c" "e" |}
    sample.env tt sample.env_keeps_promises) as [H _].
  split; [vm_compute; reflexivity|].
  assert (E : ∃ e rest, (run_prog sample.env [] (dispatchClientCommand (V := unit) true false
    {| cmd_requestId := "r"; cmd_input := ConversationRewind "c" "e" |} tt)).2 = (take 6 (run_prog sample.env []
    (dispatchClientCommand (V := unit) true false {| cmd_requestId := "r"; cmd_input := ConversationRewind "c" "e" |} tt)).2
    ++ e :: rest)%list ∧ (ev_call e).2 = RegistryClose "c") by (cbv; do 2 eexists; by split).
  destruct E as (e & rest & E & Ec). rewrite <-Ec. by apply (H _ _ _ E).
Defined.

(** C36: The server answers what the browser expects: a command that succeeds is answered with its own request identifier and with a response the browser's client accepts for it, as long as the services keep their promises; and every change of workspaces, jobs or conversations comes with the lists or the workspace that the other browsers are told of. *)
Theorem responses_match_commands {S V : Type} (has_jobs : bool) (command : ClientCommand)
    (env : environment (at_state (S := S) service_answer) S) (s : S) (Henv : keeps_promises env) :
  let '((o, _), h) := run_prog env [] (dispatchClientCommand (V := V) has_jobs false command s) in
  match o with
  | Next r =>
      message_requestId (dr_response r) = Some (cmd_requestId command)
      ∧ SocketClientOperations.isExpectedResponse (cmd_input command) (dr_response r) = true
      ∧ announced (cmd_input command) h r
  | Return _ => False
  | Throw _ => True
  end.
Proof.
  pose proof (dispatch_run (V := V) has_jobs command env s Henv) as H.
  destruct (run_prog env [] _) as [[o s'] h]. by destruct H as [H _].
Qed.

Lemma responses_match_commands_witness :
  let r := run_prog sample.env [] (dispatchClientCommand (V := unit) true false
    {| cmd_requestId := "r"; cmd_input := ConversationRewind "c" "e" |} tt) in
  match r.1.1 with Next d => announced (ConversationRewind "c" "e") r.2 d | _ => False end.
Proof.
  pose proof (responses_match_commands (V := unit) true {| cmd_requestId := "r"; cmd_input := ConversationRewind "c" "e" |}
    sample.env tt sample.env_keeps_promises) as H.
  assert (E : match (run_prog sample.env [] (dispatchClientCommand (V := unit) true false
    {| cmd_requestId := "r"; cmd_input := ConversationRewind "c" "e" |} tt)).1.1 with Next _ => True | _ => False end)
    by (vm_compute; done).
  destruct (run_prog sample.env [] _) as [[o s'] h]. cbn in E |- *. destruct o; [|done..]. by destruct H as (_ & _ & H).
Defined.
