(* ===== verification/SocketServer.v ===== *)
(** The server's end of the WebSocket protocol ([src/server/protocol.ts]): the
    state of a [WebSocketProtocol], its message chains, subscriptions and
    broadcasts, as tasks that interleave at their awaits. The outbound flow of a
    socket takes the messages handed to it in order; what it does with them is
    the component of OutboundFlow. *)
From S2P Require Import Prelude JsValues Texts Errors Programs Tasks Jobs Protocol Workspaces Commands.
From S2P Require Registry.
#[local] Open Scope string_scope. #[local] Open Scope Z_scope.

(** ** State *)

(** What an observer of the registry receives, with the record as it is then. *)
Inductive registry_event :=
| ConversationOccurred (record : Registry.ConversationRecord) (event : ConversationEvent)
| ConversationStateChanged (record : Registry.ConversationRecord)
| ConversationChanged (record : Registry.ConversationRecord).
(** src/server/job-service.ts:14-16 JobServiceEvent *)
Inductive JobServiceEvent := JobsChanged (jobs : list JobSummary) | JobRunChanged (run : JobRunSummary).

(** src/server/protocol.ts:550-553 WorkspaceRefreshState *)
Record WorkspaceRefreshState := { rf_running : bool; rf_requested : bool }.

Inductive server_task :=
| TConnection (socket : nat)
| TClose (socket : nat)
(* The handling of a frame of a socket, which waits for that of the frame before. *)
| TMessage (socket number : nat) (data : RawData) (isBinary : bool) (previous : option nat)
| TRegistryEvent (event : registry_event)
| TJobEvent (event : JobServiceEvent)
(* A turn of the refresh loop of a workspace. *)
| TRefresh (workspaceId : string) (state : nat)
| TBeginShutdown (gracePeriodMs : Z)
| TTerminateClients
| TDispose.

(** A message given to a flow, with the number of the frame it answers. *)
Record outgoing := { og_answers : option nat; og_message : ServerMessage }.

(** A frame that arrived, and the promise of its handling: the chain of these
    promises is the [tail] of the socket. *)
(** src/server/protocol.ts:652-652 tail *)
Record arrival := { ar_data : RawData; ar_isBinary : bool; ar_handling : nat }.

(** src/server/protocol.ts:555-574 WebSocketProtocol *)
Record server := {
  sv_flows : jsmap nat bool;                      (* whether it is disposed *)
  sv_historySubscriptions : jsmap nat string;
  sv_historyRefreshes : jsmap string nat;
  sv_shuttingDown : bool;
  sv_shutdownGraceMs : Z;
  sv_disposed : bool;
  (* the refresh states, as objects *)
  sv_refreshStates : gmap nat WorkspaceRefreshState;
  (* the platform: the sockets of the WebSocket server, those whose messages are
     listened to, the frames that arrived and the messages each flow was given *)
  sv_clients : list nat;
  sv_listening : gset nat;
  sv_arrived : gmap nat (list arrival);
  sv_log : gmap nat (list outgoing);
  sv_ready : gmap nat server_task;
  sv_settled : gset nat;
  sv_next : nat;
}.
#[export] Instance spread_server : Spread server := λ s, {|
  sv_flows := sv_flows s; sv_historySubscriptions := sv_historySubscriptions s;
  sv_historyRefreshes := sv_historyRefreshes s; sv_shuttingDown := sv_shuttingDown s;
  sv_shutdownGraceMs := sv_shutdownGraceMs s; sv_disposed := sv_disposed s;
  sv_refreshStates := sv_refreshStates s; sv_clients := sv_clients s;
  sv_listening := sv_listening s; sv_arrived := sv_arrived s; sv_log := sv_log s; sv_ready := sv_ready s; sv_settled := sv_settled s; sv_next := sv_next s |}.
Definition initial_server : server := {|
  sv_flows := []; sv_historySubscriptions := []; sv_historyRefreshes := []; sv_shuttingDown := false;
  sv_shutdownGraceMs := 1; sv_disposed := false; sv_refreshStates := ∅; sv_clients := []; sv_listening := ∅;
  sv_arrived := ∅; sv_log := ∅; sv_ready := ∅; sv_settled := ∅; sv_next := O |}.

(** ** Ports *)

Inductive server_call :=
| Service (c : service_call)
(* awaited: the handling of an earlier frame, and a resolved promise *)
| AwaitHandled (promise : nat)
| Tick
(* synchronous *)
| SocketIsOpen (socket : nat)
| SendShutdown (socket : nat) (gracePeriodMs : Z)
| CloseForRestart (socket : nat)
| TerminateSocket (socket : nat)
| InternalError (error : thrown).
Definition server_answer (c : server_call) : Type :=
  match c with
  | Service c => service_answer c
  | AwaitHandled _ | Tick | InternalError _ => unit
  | SocketIsOpen _ => bool
  | SendShutdown _ _ | CloseForRestart _ | TerminateSocket _ => result thrown unit
  end.
Definition server_awaited (c : server_call) : bool :=
  match c with Service c => service_awaited c | AwaitHandled _ | Tick => true | _ => false end.
Definition server_enabled (s : server) (c : server_call) : server_answer c → Prop :=
  match c with AwaitHandled p => λ _, p ∈ sv_settled s | _ => λ _, True end.

Notation act A := (task_stmt server_answer server unit thrown A).
Notation await_ := (Tasks.await_ (ans := server_answer) (S := server) (V := unit) (E := thrown)).
Notation port_ := (Tasks.port_ (ans := server_answer) (S := server) (V := unit) (E := thrown)).
Notation gets_ := (Tasks.gets_ (ans := server_answer) (S := server) (V := unit) (E := thrown)).
Notation update_ := (Tasks.update_ (ans := server_answer) (S := server) (V := unit) (E := thrown)).
Notation throw_ := (Programs.throw_ (ans := at_state (S := server) server_answer) (W := server) (S := server)
  (R := unit) (E := thrown)).
Notation lift_ := (Programs.lift_ (ans := at_state (S := server) server_answer) (W := server) (S := server)
  (R := unit) (E := thrown)).
Notation try_ := (Programs.try_ (ans := at_state (S := server) server_answer) (W := server) (S := server)
  (R := unit) (E := thrown)).
Notation finally_ := (Programs.finally_ (ans := at_state (S := server) server_answer) (W := server) (S := server)
  (R := unit) (E := thrown)).

(** A command's body, with its calls among those of the server. *)
Fixpoint embed {A} (p : prog (at_state (S := server) service_answer) server A)
  : prog (at_state (S := server) server_answer) server A :=
  match p with
  | Ret a => Ret a
  | Vis sc k => Vis (C := server * server_call) (ans := at_state server_answer) (sc.1, Service sc.2) (λ r w, embed (k r w))
  end.
Definition run_command {A} (m : task_stmt service_answer server unit thrown A) : act A := λ s, embed (m s).

Section server.
Context (serverVersion : string) (maxInboundMessageBytes : Z) (has_jobs : bool).
Context (parse : string → option jsval) (read_command : jsval → option ClientCommand).

(** src/server/protocol.ts:584-587 constructor *)
Definition options_ok : bool := isSafeInteger maxInboundMessageBytes && negb (maxInboundMessageBytes <=? 0).

Definition when (b : bool) (m : act unit) : act unit := if b then m else mret tt.
Fixpoint for_each {A} (f : A → act unit) (l : list A) : act unit :=
  match l with [] => mret tt | a :: l => f a;; for_each f l end.
Definition spawned (t : server_task) (s : server) : server :=
  s <| sv_ready := <[sv_next s := t]> (sv_ready s) |> <| sv_next := S (sv_next s) |>.

(** ** Sending *)

(** src/server/protocol.ts:806-808 send *)
Definition send (socket : nat) (answers : option nat) (message : ServerMessage) (s : server) : server :=
  match map_get socket (sv_flows s) with
  | Some false =>
      s <| sv_log := <[socket := (default [] (sv_log s !! socket)
                        ++ [{| og_answers := answers; og_message := message |}])%list]> (sv_log s) |>
  | _ => s
  end.
(** src/server/protocol.ts:787-791 broadcast *)
Definition broadcast (message : ServerMessage) (except : option nat) (s : server) : server :=
  foldl (λ s socket, if bool_decide (Some socket = except) then s else send socket None message s) s (sv_clients s).
(** src/server/protocol.ts:776-785 broadcastHistory *)
Definition broadcastHistory (workspaceId : string) (conversations : list ConversationSummary) (s : server) : server :=
  foldl (λ s entry, if String.eqb entry.2 workspaceId then send entry.1 None (MHistory None workspaceId conversations) s else s)
    s (sv_historySubscriptions s).

(** ** The refresh of a workspace's history *)

(** src/server/protocol.ts:740-745 hasHistorySubscriber *)
Definition hasHistorySubscriber (workspaceId : string) (s : server) : bool :=
  existsb (String.eqb workspaceId) (map_values (sv_historySubscriptions s)).

Definition set_refresh (address : nat) (running requested : bool) (s : server) : server :=
  s <| sv_refreshStates := <[address := {| rf_running := running; rf_requested := requested |}]> (sv_refreshStates s) |>.
Definition refresh_state (address : nat) (s : server) : WorkspaceRefreshState :=
  default {| rf_running := false; rf_requested := false |} (sv_refreshStates s !! address).

(** The entry of the workspace, new if there is none. *)
(** src/server/protocol.ts:749-751 current *)
Definition refresh_entry (workspaceId : string) (s : server) : nat * server :=
  match map_get workspaceId (sv_historyRefreshes s) with
  | Some address => (address, s)
  | None => (sv_next s, set_refresh (sv_next s) false false (s <| sv_next := S (sv_next s) |>))
  end.

(** Starting the loop starts its first turn. *)
(** src/server/protocol.ts:747-756 scheduleHistoryBroadcast *)
Definition scheduleHistoryBroadcast (workspaceId : string) (s : server) : server :=
  if sv_disposed s || negb (hasHistorySubscriber workspaceId s) then s
  else
    let '(address, s) := refresh_entry workspaceId s in
    let running := rf_running (refresh_state address s) in
    let s := set_refresh address running true s <| sv_historyRefreshes := map_set workspaceId address (sv_historyRefreshes s) |> in
    if running then s
    else spawned (TRefresh workspaceId address) (set_refresh address true true s).

(** The [finally] clause. *)
(** src/server/protocol.ts:766-773 refreshFinally *)
Definition refresh_ended (workspaceId : string) (address : nat) (s : server) : server :=
  let requested := rf_requested (refresh_state address s) in
  let s := set_refresh address false requested s in
  if negb requested || negb (hasHistorySubscriber workspaceId s)
  then s <| sv_historyRefreshes := map_delete workspaceId (sv_historyRefreshes s) |>
  else scheduleHistoryBroadcast workspaceId s.

(** One listing; whether the loop goes on is decided by the next turn. *)
(** src/server/protocol.ts:760-763 refreshTurn *)
Definition refresh_turn (workspaceId : string) (address : nat) : act unit :=
  update_ (λ s, set_refresh address (rf_running (refresh_state address s)) false s);;
  found ← port_ (Service (RequireAvailable workspaceId));
  workspace ← lift_ found;
  listed ← await_ (Service (HistoryListing workspace));
  conversations ← lift_ listed;
  update_ (broadcastHistory (w_id workspace) conversations).

(** A turn ends the loop or starts the next turn. *)
(** src/server/protocol.ts:757-774 refreshLoop *)
Definition refresh_body (workspaceId : string) (address : nat) : act unit :=
  more ← gets_ (λ s, rf_requested (refresh_state address s) && negb (sv_disposed s));
  if (more : bool) then
    again ← try_ (refresh_turn workspaceId address;; mret true) (λ error, port_ (InternalError error);; mret false);
    update_ (if again : bool then spawned (TRefresh workspaceId address) else refresh_ended workspaceId address)
  else update_ (refresh_ended workspaceId address).

(** ** Frames *)

Definition stopping (s : server) : bool := sv_shuttingDown s || sv_disposed s.

(** An error response. *)
Definition error_message_of (error : thrown) (requestId : option string) : ServerMessage :=
  let r := toErrorResponse error CtxInternal requestId in MError (resp_requestId r) (resp_code r) (resp_message r).

(** What follows a successful command: the response, the subscription and the
    broadcasts. *)
(** src/server/protocol.ts:690-707 deliver *)
Definition deliver (socket number : nat) (command : ClientCommand) (r : DispatchResult) (s : server) : server :=
  let s := send socket (Some number) (dr_response r) s in
  let s := match cmd_input command with
    | HistoryList workspaceId =>
        s <| sv_historySubscriptions := map_set socket workspaceId (sv_historySubscriptions s) |>
    | _ => s
    end in
  let s := match dr_workspaces r with
    | Some workspaces => broadcast (MWorkspaces None workspaces) (if dr_workspaceBroadcastIncludesSender r then None else Some socket) s
    | None => s
    end in
  let s := match dr_jobs r with
    | Some jobs => broadcast (MJobs None jobs) (if dr_jobsBroadcastIncludesSender r then None else Some socket) s
    | None => s
    end in
  match dr_affectedWorkspaceId r with
  | Some workspaceId =>
      match dr_history r with
      | Some conversations => broadcastHistory workspaceId conversations s
      | None => scheduleHistoryBroadcast workspaceId s
      end
  | None => s
  end.

(** src/server/protocol.ts:660-711 handleMessage *)
Definition handleMessage (socket number : nat) (data : RawData) (isBinary : bool) : act unit :=
  stop ← gets_ stopping;
  if (stop : bool) then mret tt
  else match decodeClientCommand parse read_command data isBinary maxInboundMessageBytes with
  | Err error =>
      update_ (send socket (Some number) (error_message_of (app_error (de_code error)) (de_requestId error)))
  | Ok command =>
      try_ (shuttingDown ← gets_ sv_shuttingDown;
            r ← run_command (dispatchClientCommand has_jobs shuttingDown command);
            update_ (deliver socket number command r))
        (λ error, update_ (send socket (Some number) (error_message_of error (Some (cmd_requestId command)))))
  end.

Definition arrived (socket : nat) (s : server) : list arrival := default [] (sv_arrived s !! socket).
(** The event of a frame extends the chain of its socket. *)
(** src/server/protocol.ts:653-653 onMessage *)
Definition received (socket : nat) (data : RawData) (isBinary : bool) (s : server) : server :=
  if bool_decide (socket ∈ sv_listening s) then
    spawned (TMessage socket (length (arrived socket s)) data isBinary (ar_handling <$> last (arrived socket s)))
      (s <| sv_arrived := <[socket := (arrived socket s ++
             [{| ar_data := data; ar_isBinary := isBinary; ar_handling := sv_next s |}])%list]> (sv_arrived s) |>)
  else s.
(** [tail.then(() => handleMessage(...)).catch(onInternalError)] *)
(** src/server/protocol.ts:654-656 tail *)
Definition message_body (socket number : nat) (data : RawData) (isBinary : bool) (previous : option nat) : act unit :=
  match previous with Some p => await_ (AwaitHandled p) | None => await_ Tick end;;
  try_ (handleMessage socket number data isBinary) (λ error, port_ (InternalError error)).

(** ** Sockets *)

Definition dispose_flow (socket : nat) (s : server) : server :=
  match map_get socket (sv_flows s) with
  | Some _ => s <| sv_flows := map_set socket true (sv_flows s) |>
  | None => s
  end.

(** src/server/protocol.ts:793-804 closeForShutdown *)
Definition closeForShutdown (socket : nat) (gracePeriodMs : Z) : act unit :=
  update_ (dispose_flow socket);;
  is_open ← port_ (SocketIsOpen socket);
  if (is_open : bool) then
    try_ (sent ← port_ (SendShutdown socket gracePeriodMs); lift_ sent;;
          closed ← port_ (CloseForRestart socket); lift_ closed)
      (λ error, port_ (InternalError error))
  else mret tt.

(** src/server/protocol.ts:634-658 handleConnection *)
Definition handleConnection (socket : nat) : act unit :=
  update_ (λ s, s <| sv_flows := map_set socket false (sv_flows s) |>);;
  stop ← gets_ sv_shuttingDown;
  if (stop : bool) then grace ← gets_ sv_shutdownGraceMs; closeForShutdown socket grace
  else
    update_ (send socket None (MReady serverVersion));;
    update_ (λ s, s <| sv_listening := {[socket]} ∪ sv_listening s |>).

(** The flow of a closed socket is gone; the platform drops its listeners. *)
(** src/server/protocol.ts:640-644 onClose *)
Definition socket_closed (socket : nat) (s : server) : server :=
  let s := dispose_flow socket s in
  s <| sv_flows := map_delete socket (sv_flows s) |>
    <| sv_historySubscriptions := map_delete socket (sv_historySubscriptions s) |>
    <| sv_listening := sv_listening s ∖ {[socket]} |>
    <| sv_clients := filter (λ c, c ≠ socket) (sv_clients s) |>.

(** ** Events *)

(** src/server/protocol.ts:713-738 handleRegistryEvent *)
Definition handleRegistryEvent (event : registry_event) (s : server) : server :=
  match event with
  | ConversationOccurred record event =>
      let s := broadcast (MEvent event) None s in
      match ev_payload event with
      | StatusEvent _ => scheduleHistoryBroadcast (Registry.cr_workspaceId record) s
      | _ => s
      end
  | ConversationStateChanged record =>
      scheduleHistoryBroadcast (Registry.cr_workspaceId record) (broadcast (MEvent {|
        ev_workspaceId := Registry.cr_workspaceId record; ev_conversationId := Registry.cr_id record;
        ev_revision := Registry.cr_revision record;
        ev_payload := MetadataEvent (Registry.cr_title record) (Registry.cr_durable record) (Registry.cr_status record) |}) None s)
  | ConversationChanged record => scheduleHistoryBroadcast (Registry.cr_workspaceId record) s
  end.

(** src/server/protocol.ts:594-606 onJobEvent *)
Definition handleJobEvent (event : JobServiceEvent) (s : server) : server :=
  match event with
  | JobsChanged jobs => broadcast (MJobs None jobs) None s
  | JobRunChanged run => broadcast (MJobRunUpdated (rs_jobId run) (rs_id run) (rs_revision run) run) None s
  end.

(** ** Shutdown *)

(** src/server/protocol.ts:609-614 beginShutdown *)
Definition beginShutdown (gracePeriodMs : Z) : act unit :=
  already ← gets_ sv_shuttingDown;
  if (already : bool) then mret tt
  else
    update_ (λ s, s <| sv_shuttingDown := true |> <| sv_shutdownGraceMs := gracePeriodMs |>);;
    clients ← gets_ sv_clients;
    for_each (λ socket, closeForShutdown socket gracePeriodMs) clients.

(** src/server/protocol.ts:616-620 terminateClients *)
Definition terminateClients : act unit :=
  clients ← gets_ sv_clients;
  for_each (λ socket, terminated ← port_ (TerminateSocket socket);
    match terminated with Ok _ => mret tt | Err error => port_ (InternalError error) end) clients.

(** The listeners of connections, of the registry and of the jobs go with it:
    see [deaf]. *)
(** src/server/protocol.ts:622-632 dispose *)
Definition dispose (s : server) : server :=
  if sv_disposed s then s
  else s <| sv_disposed := true |> <| sv_flows := [] |> <| sv_historySubscriptions := [] |> <| sv_historyRefreshes := [] |>.

(** Whether the server no longer listens to the source of a task. *)
Definition deaf (t : server_task) (s : server) : bool :=
  match t with TConnection _ | TRegistryEvent _ | TJobEvent _ => sv_disposed s | _ => false end.

(** ** The pool *)

Definition body (t : server_task) : act unit :=
  ignored ← gets_ (deaf t);
  if (ignored : bool) then mret tt
  else match t with
  | TConnection socket => handleConnection socket
  | TClose socket => update_ (socket_closed socket)
  | TMessage socket number data isBinary previous => message_body socket number data isBinary previous
  | TRegistryEvent event => update_ (handleRegistryEvent event)
  | TJobEvent event => update_ (handleJobEvent event)
  | TRefresh workspaceId address => refresh_body workspaceId address
  | TBeginShutdown gracePeriodMs => beginShutdown gracePeriodMs
  | TTerminateClients => terminateClients
  | TDispose => update_ dispose
  end.
Definition unready (promise : nat) (s : server) : server := s <| sv_ready := delete promise (sv_ready s) |>.
Definition settle (promise : nat) (o : outcome unit thrown unit) (s : server) : server :=
  s <| sv_settled := {[promise]} ∪ sv_settled s |>.
End server.
