(* ===== verification/SocketServerInvariant.v ===== *)
(** The invariant of the server's end of the protocol: the chain of frames of
    each socket is handled in order and answered once, and every refresh that
    was asked for has a loop that will see to it. *)
From S2P Require Import Prelude JsValues Texts Errors Programs Tasks TaskRules Jobs Protocol Workspaces Commands SocketServer.
From S2P Require Registry.
#[local] Open Scope string_scope. #[local] Open Scope Z_scope.

(** ** Views of the state *)

(** What a waiting task is doing: waiting for its turn, handling its frame,
    done answering it; or listing a history; a task that does not wait is busy. *)
Inductive phase := Chained (k n : nat) | Answering (k n : nat) | Answered (k n : nat) | Refreshing (w : string) (a : nat)
| Busy.
Definition frame_of (ph : phase) : option (nat * nat) :=
  match ph with Chained k n | Answering k n | Answered k n => Some (k, n) | Refreshing _ _ | Busy => None end.
Definition begun (ph : phase) : Prop := match ph with Chained _ _ => False | _ => True end.
Notation claims := (gmap nat phase).

Definition handling (k n : nat) (s : server) : option nat := ar_handling <$> arrived k s !! n.
Definition before (k n : nat) (s : server) : option nat := match n with O => None | S m => handling k m s end.
(** The answers a flow was given, with the numbers of their frames. *)
Definition answering (k : nat) (s : server) : list (nat * ServerMessage) :=
  omap (λ o, (λ n, (n, og_message o)) <$> og_answers o) (default [] (sv_log s !! k)).
Definition answers (k : nat) (s : server) : list nat := (answering k s).*1.
(** Answers need not arrive any more. *)
Definition muted (k : nat) (s : server) : Prop := stopping s = true ∨ map_get k (sv_flows s) ≠ Some false.
Definition is_message (t : server_task) : bool := match t with TMessage _ _ _ _ _ => true | _ => false end.

Section invariant.
Context (maxInboundMessageBytes : Z) (parse : string → option jsval) (read_command : jsval → option ClientCommand).

(** A message answers a frame: with the decoding error, or with the request
    identifier of the command. *)
Definition response_to (a : arrival) (m : ServerMessage) : Prop :=
  match decodeClientCommand parse read_command (ar_data a) (ar_isBinary a) maxInboundMessageBytes with
  | Err e => m = error_message_of (app_error (de_code e)) (de_requestId e)
  | Ok command => message_requestId m = Some (cmd_requestId command)
  end.

Record base (s : server) (X : claims) : Prop := {
  ba_ready p t : sv_ready s !! p = Some t → (p < sv_next s)%nat ∧ p ∉ sv_settled s;
  ba_claim p ph : X !! p = Some ph → (p < sv_next s)%nat ∧ p ∉ sv_settled s ∧ sv_ready s !! p = None;
  ba_settled p : p ∈ sv_settled s → (p < sv_next s)%nat;
  ba_handling k n p : handling k n s = Some p → (p < sv_next s)%nat;
  ba_flows : map_ok (sv_flows s);
  ba_refreshes : map_ok (sv_historyRefreshes s);
}.

Record chain (s : server) (X : claims) : Prop := {
  ch_distinct k n k' n' p : handling k n s = Some p → handling k' n' s = Some p → k = k' ∧ n = n';
  ch_task p k n d b prev : sv_ready s !! p = Some (TMessage k n d b prev) →
    arrived k s !! n = Some {| ar_data := d; ar_isBinary := b; ar_handling := p |} ∧ prev = before k n s;
  ch_phase p ph k n : X !! p = Some ph → frame_of ph = Some (k, n) → handling k n s = Some p;
  ch_alive k n p : handling k n s = Some p → p ∈ sv_settled s
    ∨ (∃ t, sv_ready s !! p = Some t ∧ is_message t = true) ∨ ∃ ph, X !! p = Some ph ∧ frame_of ph = Some (k, n);
  ch_turn p ph k n : X !! p = Some ph → frame_of ph = Some (k, n) → begun ph →
    ∀ m q, (m < n)%nat → handling k m s = Some q → q ∈ sv_settled s;
  ch_settled k n p : handling k n s = Some p → p ∈ sv_settled s →
    ∀ m q, (m < n)%nat → handling k m s = Some q → q ∈ sv_settled s;
  ch_increasing k : StronglySorted lt (answers k s);
  ch_answered k n m : (n, m) ∈ answering k s → ∃ a, arrived k s !! n = Some a ∧ response_to a m
    ∧ (ar_handling a ∈ sv_settled s ∨ X !! ar_handling a = Some (Answered k n));
  ch_done k n p : handling k n s = Some p → p ∈ sv_settled s ∨ X !! p = Some (Answered k n) →
    n ∈ answers k s ∨ muted k s;
  ch_connect p k : sv_ready s !! p = Some (TConnection k) →
    (k < sv_next s)%nat ∧ arrived k s = [] ∧ k ∉ sv_listening s ∧ map_get k (sv_flows s) = None;
  ch_connect_once p q k : sv_ready s !! p = Some (TConnection k) → sv_ready s !! q = Some (TConnection k) → p = q;
  ch_known k : k ∈ sv_listening s ∨ arrived k s ≠ [] ∨ map_get k (sv_flows s) ≠ None → (k < sv_next s)%nat;
}.

(** Where the loop of a workspace is: its next turn, or a turn that waits. *)
Definition loop_at (s : server) (X : claims) (p : nat) (w : string) (a : nat) : Prop :=
  sv_ready s !! p = Some (TRefresh w a) ∨ X !! p = Some (Refreshing w a).

Record loops (s : server) (X : claims) : Prop := {
  lo_entry w a : map_get w (sv_historyRefreshes s) = Some a →
    rf_running (refresh_state a s) = true ∧ (a < sv_next s)%nat ∧ ∃ p, loop_at s X p w a;
  lo_loop p w a : loop_at s X p w a → (a < sv_next s)%nat ∧
    (sv_disposed s = true ∨ map_get w (sv_historyRefreshes s) = Some a);
  lo_once p q w a b : loop_at s X p w a → loop_at s X q w b → sv_disposed s = true ∨ p = q;
  lo_distinct w w' a : map_get w (sv_historyRefreshes s) = Some a → map_get w' (sv_historyRefreshes s) = Some a → w = w';
  lo_disposed : sv_disposed s = true → sv_historyRefreshes s = [];
}.

Definition inv (s : server) (X : claims) : Prop := base s X ∧ chain s X ∧ loops s X.

(** ** What only grows *)

Record later (s s' : server) : Prop := {
  la_next : (sv_next s ≤ sv_next s')%nat;
  la_settled : sv_settled s ⊆ sv_settled s';
  la_arrived k : arrived k s `prefix_of` arrived k s';
  la_log k : answering k s `prefix_of` answering k s';
  la_stopping : stopping s = true → stopping s' = true;
  la_disposed : sv_disposed s = true → sv_disposed s' = true;
  la_muted k : arrived k s ≠ [] → muted k s → muted k s';
}.
#[export] Instance server_later_preorder : PreOrder later.
Proof.
  split.
  - intros s. by constructor.
  - intros s1 s2 s3 [] []. constructor; [lia|set_solver| | |auto|auto|].
    { intros k. etrans; [apply la_arrived0|apply la_arrived1]. }
    { intros k. etrans; [apply la_log0|apply la_log1]. }
    intros k Hk Hm. apply la_muted1; [|by apply la_muted0]. intros E.
    destruct (la_arrived0 k) as [l E']. rewrite E in E'. by destruct (app_eq_nil _ _ (eq_sym E')).
Qed.

(** ** Changes that leave the chains alone *)

Record calm (s s' : server) : Prop := {
  ca_arrived k : arrived k s' = arrived k s;
  ca_settled : sv_settled s' = sv_settled s;
  ca_message p t : is_message t = true → sv_ready s' !! p = Some t ↔ sv_ready s !! p = Some t;
  ca_connect p k : sv_ready s' !! p = Some (TConnection k) → sv_ready s !! p = Some (TConnection k);
  ca_answering k : answering k s' = answering k s;
  ca_flow k : map_get k (sv_flows s') ≠ None → map_get k (sv_flows s) ≠ None;
  ca_muted k : map_get k (sv_flows s) ≠ Some false → map_get k (sv_flows s') ≠ Some false;
  ca_stopping : stopping s = true → stopping s' = true;
  ca_listening : sv_listening s' ⊆ sv_listening s;
  ca_next : (sv_next s ≤ sv_next s')%nat;
  ca_disposed : sv_disposed s = true → sv_disposed s' = true;
}.

Lemma calm_handling k n s s' : calm s s' → handling k n s' = handling k n s.
Proof. intros H. unfold handling. by rewrite (ca_arrived _ _ H). Qed.
Lemma calm_muted_later k s s' : calm s s' → muted k s → muted k s'.
Proof. intros H [Hs|Hf]; [left|right]; [by eapply ca_stopping|by eapply ca_muted]. Qed.

Lemma calm_later s s' : calm s s' → later s s'.
Proof.
  intros H. constructor; try apply H.
  - by rewrite (ca_settled _ _ H).
  - intros k. by rewrite (ca_arrived _ _ H).
  - intros k. by rewrite (ca_answering _ _ H).
  - intros k _. by apply calm_muted_later.
Qed.

Lemma chain_calm s s' X : calm s s' → chain s X → chain s' X.
Proof.
  intros H []. assert (Hh := λ k n, calm_handling k n _ _ H). destruct (H) as [Ea Es Em Ec En Ef Emu _ El Ene _].
  assert (Ean : ∀ k, answers k s' = answers k s) by (intros k; unfold answers; by rewrite En).
  constructor.
  - intros k n k' n' p. rewrite !Hh. apply ch_distinct0.
  - intros p k n d b prev Hp. apply Em in Hp; [|done]. destruct (ch_task0 _ _ _ _ _ _ Hp) as [H1 H2]. rewrite Ea.
    split; [done|]. rewrite H2. unfold before. destruct n; [done|]. by rewrite Hh.
  - intros p ph k n. rewrite Hh. apply ch_phase0.
  - intros k n p Hp. rewrite Hh in Hp. rewrite Es. destruct (ch_alive0 _ _ _ Hp) as [?|[(t & Ht & Hm)|?]]; [by left| |by auto].
    right. left. exists t. split; [by apply Em|done].
  - intros p ph k n Hp Hk Hb m q Hm Hq. rewrite Hh in Hq. rewrite Es. exact (ch_turn0 _ _ _ _ Hp Hk Hb _ _ Hm Hq).
  - intros k n p. rewrite Hh, Es. intros Hp Hs m q Hm Hq. rewrite Hh in Hq. exact (ch_settled0 _ _ _ Hp Hs _ _ Hm Hq).
  - intros k. by rewrite Ean.
  - intros k n m. rewrite En, Ea, Es. apply ch_answered0.
  - intros k n p. rewrite Hh, Es, Ean. intros Hp Hs. destruct (ch_done0 _ _ _ Hp Hs); [by left|right].
    by eapply calm_muted_later.
  - intros p k Hp. apply Ec in Hp. destruct (ch_connect0 _ _ Hp) as (H1 & H2 & H3 & H4). rewrite Ea.
    split_and!; [lia|done|set_solver|]. destruct (map_get k (sv_flows s')) eqn:E; [|done].
    exfalso. by apply (Ef k); [rewrite E|].
  - intros p q k Hp Hq. eapply ch_connect_once0; by apply Ec.
  - intros k. rewrite Ea. intros Hk. assert (k < sv_next s)%nat; [|lia]. apply ch_known0.
    destruct Hk as [?|[?|?]]; [left; set_solver|auto|auto].
Qed.

(** ** Changes that leave the loops alone *)

Record steady (s s' : server) : Prop := {
  sd_refreshes w : map_get w (sv_historyRefreshes s') = map_get w (sv_historyRefreshes s);
  sd_none : sv_historyRefreshes s = [] → sv_historyRefreshes s' = [];
  sd_running a : rf_running (refresh_state a s) = true → rf_running (refresh_state a s') = true;
  sd_disposed : sv_disposed s' = sv_disposed s;
  sd_refresh p w a : sv_ready s' !! p = Some (TRefresh w a) ↔ sv_ready s !! p = Some (TRefresh w a);
  sd_next : (sv_next s ≤ sv_next s')%nat;
}.

Lemma steady_loop_at s s' X p w a : steady s s' → loop_at s' X p w a ↔ loop_at s X p w a.
Proof. intros H. unfold loop_at. by rewrite (sd_refresh _ _ H). Qed.

Lemma loops_steady s s' X : steady s s' → loops s X → loops s' X.
Proof.
  intros H []. assert (Hl := λ p w a, steady_loop_at s s' X p w a H). destruct H as [Er Ee Es Ed Et En].
  constructor; rewrite ?Ed; auto.
  - intros w a Hw. rewrite Er in Hw. destruct (lo_entry0 _ _ Hw) as (H1 & H2 & p & Hp).
    split_and!; [by apply Es|lia|]. exists p. by apply Hl.
  - intros p w a Hp. apply Hl in Hp. rewrite Er. destruct (lo_loop0 _ _ _ Hp). split; [lia|done].
  - intros p q w a b Hp Hq. apply Hl in Hp, Hq. eauto.
  - intros w w' a. rewrite !Er. apply lo_distinct0.
Qed.

(** Nothing but the log changes, and of it no answer. *)
Definition pushed (s s' : server) : Prop :=
  ∃ L, s' = s <| sv_log := L |> ∧ ∀ k, answering k s' = answering k s.
Lemma pushed_refl s : pushed s s.
Proof. exists (sv_log s). split; [by destruct s|done]. Qed.
Lemma pushed_trans s1 s2 s3 : pushed s1 s2 → pushed s2 s3 → pushed s1 s3.
Proof. intros (L1 & -> & E1) (L2 & -> & E2). exists L2. split; [done|]. intros k. by rewrite E2. Qed.

Lemma answering_insert k j l s :
  answering k (s <| sv_log := <[j := l]> (sv_log s) |>) =
    if decide (k = j) then omap (λ o, (λ n, (n, og_message o)) <$> og_answers o) l else answering k s.
Proof.
  unfold answering. cbn. case_decide as E; [subst; by rewrite lookup_insert_eq|by rewrite lookup_insert_ne].
Qed.

Lemma send_pushed k m s : pushed s (send k None m s).
Proof.
  unfold send. destruct (map_get k (sv_flows s)) as [[]|]; try apply pushed_refl.
  eexists. split; [done|]. intros j. rewrite answering_insert. case_decide as E; [|done]. subst.
  unfold answering at 1. rewrite omap_app. cbn. by rewrite app_nil_r.
Qed.
Lemma pushed_fold {A} (f : server → A → server) l s : (∀ s x, pushed s (f s x)) → pushed s (foldl f s l).
Proof.
  intros Hf. revert s. induction l as [|x l IH]; intros s; cbn; [apply pushed_refl|]. eapply pushed_trans; [apply Hf|apply IH].
Qed.
Lemma broadcast_pushed m except s : pushed s (broadcast m except s).
Proof. apply pushed_fold. intros s' x. case_bool_decide; [apply pushed_refl|apply send_pushed]. Qed.
Lemma broadcastHistory_pushed w l s : pushed s (broadcastHistory w l s).
Proof. apply pushed_fold. intros s' x. destruct (String.eqb _ _); [apply send_pushed|apply pushed_refl]. Qed.

Lemma pushed_calm s s' : pushed s s' → calm s s'.
Proof. intros (L & -> & E). by constructor. Qed.
Lemma pushed_steady s s' : pushed s s' → steady s s'.
Proof. intros (L & -> & E). by constructor. Qed.

(** What [base] looks at. *)
Lemma base_same s s' X :
  (∀ p t, sv_ready s' !! p = Some t → sv_ready s !! p = Some t ∨ (p = sv_next s ∧ sv_next s < sv_next s')%nat) →
  sv_settled s' = sv_settled s → (∀ k, arrived k s' = arrived k s) → (sv_next s ≤ sv_next s')%nat →
  map_ok (sv_flows s') → map_ok (sv_historyRefreshes s') → base s X → base s' X.
Proof.
  intros Hr Es Ea En Hf Hh []. constructor; try done; rewrite ?Es.
  - intros p t Ht. destruct (Hr _ _ Ht) as [H|[-> Hn]].
    + destruct (ba_ready0 _ _ H). split; [lia|done].
    + split; [lia|]. intros Hs. apply ba_settled0 in Hs. lia.
  - intros p ph Hp. destruct (ba_claim0 _ _ Hp) as (H1 & H2 & H3). split_and!; [lia|done|].
    destruct (sv_ready s' !! p) as [t|] eqn:E; [|done]. destruct (Hr _ _ E) as [H|[-> _]]; [congruence|lia].
  - intros p Hp. apply ba_settled0 in Hp. lia.
  - intros k n p. unfold handling. rewrite Ea. intros Hp. apply ba_handling0 in Hp. lia.
Qed.

Lemma pushed_kept s s' X : pushed s s' → inv s X → inv s' X ∧ later s s'.
Proof.
  intros Hp (Hb & Hc & Hl). split; [|by apply calm_later, pushed_calm]. split_and!.
  - destruct (Hp) as (L & -> & _). eapply (base_same s); try done; try apply Hb. by left.
  - eapply chain_calm; [by apply pushed_calm|done].
  - eapply loops_steady; [by apply pushed_steady|done].
Qed.

Lemma calm_trans s1 s2 s3 : calm s1 s2 → calm s2 s3 → calm s1 s3.
Proof.
  intros [] []. constructor; try (intros; congruence); try lia; try set_solver; eauto.
Qed.

(** ** Starting a turn of a loop *)

Lemma calm_spawned_refresh s X w a : base s X → calm s (spawned (TRefresh w a) s).
Proof.
  intros [Hr _ _ _ _ _]. constructor; cbn; try done; [| |lia].
  - intros p t Ht. destruct (decide (p = sv_next s)) as [->|]; [|by rewrite lookup_insert_ne].
    rewrite lookup_insert_eq. split; [by intros [= <-]|]. intros H. apply Hr in H as [? _]. lia.
  - intros p k. destruct (decide (p = sv_next s)) as [->|]; [by rewrite lookup_insert_eq|by rewrite lookup_insert_ne].
Qed.

Lemma base_spawned_refresh s X w a : base s X → base (spawned (TRefresh w a) s) X.
Proof.
  intros Hb. apply (base_same s); try done; try apply Hb; cbn; [|lia].
  intros p t [[<- <-]|[Hne H]]%lookup_insert_Some; [right; split; [done|lia]|by left].
Qed.

(** The task of a loop hands over to the next turn. *)
Lemma loops_spawn s X i w a :
  loops s (<[i := Refreshing w a]> X) → X !! i = None → sv_ready s !! i = None → base s X →
  loops (spawned (TRefresh w a) s) X.
Proof using Type.
  clear maxInboundMessageBytes parse read_command.
  intros [] HX Hri Hb. set (n := sv_next s).
  assert (Hi : loop_at s (<[i := Refreshing w a]> X) i w a) by (right; by rewrite lookup_insert_eq).
  destruct (lo_loop0 _ _ _ Hi) as [Ha Hw].
  assert (Hold : ∀ p v b, loop_at (spawned (TRefresh w a) s) X p v b →
    (p = n ∧ v = w ∧ b = a) ∨ (p ≠ i ∧ loop_at s (<[i := Refreshing w a]> X) p v b)).
  { intros p v b [H|H]; [cbn in H; apply lookup_insert_Some in H as [[<- E]|[Hne H]]|].
    - injection E as <- <-. by left.
    - right. split; [intros ->; congruence|by left].
    - right. assert (p ≠ i) by (intros ->; congruence). split; [done|right; by rewrite lookup_insert_ne]. }
  assert (Hnew : loop_at (spawned (TRefresh w a) s) X n w a) by (left; cbn; by rewrite lookup_insert_eq).
  assert (Hnot : ∀ p v b, p ≠ i → loop_at s (<[i := Refreshing w a]> X) p v b → loop_at (spawned (TRefresh w a) s) X p v b).
  { intros p v b Hp [H|H]; [left|right].
    - cbn. destruct (decide (p = sv_next s)) as [->|]; [|by rewrite lookup_insert_ne].
      apply (ba_ready _ _ Hb) in H as [? _]. lia.
    - by rewrite lookup_insert_ne in H. }
  constructor; cbn; try done.
  - intros v b Hv. destruct (lo_entry0 _ _ Hv) as (H1 & H2 & p & Hp). split_and!; [done|lia|].
    destruct (decide (p = i)) as [->|Hne]; [|exists p; by apply Hnot].
    destruct Hp as [Hp|Hp]; [congruence|]. rewrite lookup_insert_eq in Hp. injection Hp as <- <-. by exists n.
  - intros p v b Hp. destruct (Hold _ _ _ Hp) as [(-> & -> & ->)|[_ H]]; [split; [lia|done]|].
    destruct (lo_loop0 _ _ _ H). split; [lia|done].
  - intros p q v b c Hp Hq. destruct (Hold _ _ _ Hp) as [(-> & -> & ->)|[Hpi H]], (Hold _ _ _ Hq) as [(-> & Ev & ->)|[Hqi H']]; subst.
    + by right.
    + destruct (lo_once0 _ _ _ _ _ Hi H') as [|]; [by left|congruence].
    + destruct (lo_once0 _ _ _ _ _ Hi H) as [|]; [by left|congruence].
    + by eapply lo_once0.
Qed.

(** A new loop. *)
Lemma loops_new s s' X w a p :
  loops s X → base s X → map_get w (sv_historyRefreshes s) = None → sv_disposed s = false →
  sv_disposed s' = false → (sv_next s ≤ a)%nat → (a < sv_next s')%nat → sv_ready s !! p = None → X !! p = None →
  (∀ v, map_get v (sv_historyRefreshes s') = if decide (v = w) then Some a else map_get v (sv_historyRefreshes s)) →
  (∀ b, rf_running (refresh_state b s') = if decide (b = a) then true else rf_running (refresh_state b s)) →
  sv_ready s' = <[p := TRefresh w a]> (sv_ready s) →
  loops s' X.
Proof using Type.
  clear maxInboundMessageBytes parse read_command.
  intros [] Hb Hw Hd Hd' Ha Ha' Hp HXp Hr Hs Ht.
  assert (Hold : ∀ q v b, loop_at s' X q v b ↔ (q = p ∧ v = w ∧ b = a) ∨ loop_at s X q v b).
  { intros q v b. unfold loop_at. rewrite Ht. destruct (decide (q = p)) as [->|Hne].
    - rewrite lookup_insert_eq, Hp, HXp. naive_solver.
    - rewrite lookup_insert_ne by done. naive_solver. }
  assert (Hlt : ∀ v b, map_get v (sv_historyRefreshes s) = Some b → (b < sv_next s)%nat) by (intros v b Hv; by destruct (lo_entry0 _ _ Hv) as (_ & ? & _)).
  assert (Hno : ∀ q b, loop_at s X q w b → False).
  { intros q b Hq. destruct (lo_loop0 _ _ _ Hq) as [_ [?|?]]; congruence. }
  constructor; try congruence.
  - intros v b. rewrite Hr, Hs. case_decide as Ev; [intros [= <-]|intros Hv].
    + rewrite decide_True by done. split_and!; [done|done|]. exists p. apply Hold. by left.
    + destruct (lo_entry0 _ _ Hv) as (H1 & H2 & q & Hq). rewrite decide_False by lia.
      split_and!; [done|lia|]. exists q. apply Hold. by right.
  - intros q v b [(-> & -> & ->)|Hq]%Hold; rewrite Hr.
    + split; [done|]. right. by rewrite decide_True.
    + destruct (lo_loop0 _ _ _ Hq) as [H1 [?|H2]]; [congruence|]. split; [lia|]. right.
      rewrite decide_False; [done|]. intros ->. congruence.
  - intros q r v b c [(-> & -> & ->)|Hq]%Hold [(-> & Ev & ->)|Hr']%Hold; subst; [by right|..].
    + exfalso. by eapply Hno.
    + exfalso. by eapply Hno.
    + destruct (lo_once0 _ _ _ _ _ Hq Hr'); [congruence|by right].
  - intros v v' b. rewrite !Hr. repeat case_decide; subst; try done.
    + intros [= <-] Hv'. apply Hlt in Hv'. lia.
    + intros Hv [= <-]. apply Hlt in Hv. lia.
    + by apply lo_distinct0.
Qed.

(** ** Claims *)

(** Claims that say nothing of frames. *)
Lemma chain_claims s X X' :
  (∀ p k n, (∃ ph, X' !! p = Some ph ∧ frame_of ph = Some (k, n)) ↔ (∃ ph, X !! p = Some ph ∧ frame_of ph = Some (k, n))) →
  (∀ p ph k n, frame_of ph = Some (k, n) → X' !! p = Some ph ↔ X !! p = Some ph) → chain s X → chain s X'.
Proof.
  intros Hf Hp []. constructor; try done.
  - intros p ph k n H1 H2. eapply ch_phase0; [by eapply Hp|done].
  - intros k n p H. rewrite Hf. by apply ch_alive0.
  - intros p ph k n H1 H2. eapply ch_turn0; [by eapply Hp|done].
  - intros k n m H. destruct (ch_answered0 _ _ _ H) as (a & H1 & H2 & H3). exists a.
    by rewrite (Hp (ar_handling a) _ k n).
  - intros k n p H. rewrite (Hp _ _ k n); [|done]. by apply ch_done0.
Qed.
Lemma chain_claim s X i ph : X !! i = None → frame_of ph = None → chain s X ↔ chain s (<[i := ph]> X).
Proof.
  intros Hi Hph.
  assert (Hp : ∀ p ph' k n, frame_of ph' = Some (k, n) → <[i := ph]> X !! p = Some ph' ↔ X !! p = Some ph').
  { intros p ph' k n Hf. destruct (decide (p = i)) as [->|]; [|by rewrite lookup_insert_ne].
    rewrite lookup_insert_eq, Hi. split; [intros [= ->]; congruence|done]. }
  assert (Hf : ∀ p k n, (∃ ph', <[i := ph]> X !! p = Some ph' ∧ frame_of ph' = Some (k, n)) ↔
    (∃ ph', X !! p = Some ph' ∧ frame_of ph' = Some (k, n))).
  { intros p k n. split; intros (ph' & H1 & H2); exists ph'; (split; [by eapply Hp|done]). }
  split; apply chain_claims; try done; intros; symmetry; eauto.
Qed.

Lemma loops_claims s X X' : (∀ p w a, X' !! p = Some (Refreshing w a) ↔ X !! p = Some (Refreshing w a)) → loops s X → loops s X'.
Proof.
  intros Hp [].
  assert (Hl : ∀ p w a, loop_at s X' p w a ↔ loop_at s X p w a) by (intros; unfold loop_at; by rewrite Hp).
  constructor; try done.
  - intros w a Hw. destruct (lo_entry0 _ _ Hw) as (? & ? & p & H). split_and!; [done..|]. exists p. by apply Hl.
  - intros p w a Hpw. eapply lo_loop0, Hl, Hpw.
  - intros p q w a b H1 H2. eapply lo_once0; by apply Hl.
Qed.
Lemma loops_claim s X i ph :
  X !! i = None → (∀ w a, ph ≠ Refreshing w a) → loops s X ↔ loops s (<[i := ph]> X).
Proof.
  intros Hi Hph.
  assert (Hp : ∀ p w a, <[i := ph]> X !! p = Some (Refreshing w a) ↔ X !! p = Some (Refreshing w a)).
  { intros p w a. destruct (decide (p = i)) as [->|]; [|by rewrite lookup_insert_ne].
    rewrite lookup_insert_eq, Hi. split; [intros [= ->]; by destruct (Hph w a)|done]. }
  split; apply loops_claims; intros; [done|by symmetry].
Qed.

Lemma base_claim s X i ph :
  base s X → (i < sv_next s)%nat → i ∉ sv_settled s → sv_ready s !! i = None → base s (<[i := ph]> X).
Proof.
  intros [] H1 H2 H3. constructor; try done. intros p ph' [[<- <-]|[_ H]]%lookup_insert_Some; [done|eauto].
Qed.
Lemma base_unclaim s X i ph : X !! i = None → base s (<[i := ph]> X) → base s X.
Proof.
  intros Hi []. constructor; try done. intros p ph' Hp. eapply ba_claim0.
  rewrite lookup_insert_ne; [done|]. intros ->. congruence.
Qed.

(** ** Beginning and ending *)

Lemma server_base_unready s X i : base s X → base (unready i s) X.
Proof.
  intros []. constructor; cbn; try done.
  - intros p t [_ H]%lookup_delete_Some. eauto.
  - intros p ph H. destruct (ba_claim0 _ _ H) as (? & ? & ?). split_and!; [done..|]. apply lookup_delete_None. by right.
Qed.

(** A task other than a frame's and a loop's begins. *)
Lemma begin_busy s X i t :
  inv s X → sv_ready s !! i = Some t → is_message t = false → (∀ w a, t ≠ TRefresh w a) →
  inv (unready i s) (<[i := Busy]> X) ∧ later s (unready i s) ∧ X !! i = None.
Proof.
  intros (Hb & Hc & Hl) Hi Hm Hr.
  assert (HX : X !! i = None).
  { destruct (X !! i) as [ph|] eqn:E; [|done]. apply (ba_claim _ _ Hb) in E as (_ & _ & ?). congruence. }
  destruct (ba_ready _ _ Hb _ _ Hi) as [Hn Hs].
  assert (Hcalm : calm s (unready i s)).
  { constructor; cbn; try done.
    - intros p t' Ht'. destruct (decide (p = i)) as [->|]; [|by rewrite lookup_delete_ne].
      rewrite lookup_delete_eq, Hi. split; [done|]. intros [= ->]. congruence.
    - intros p k [_ H]%lookup_delete_Some. done. }
  split_and!; [|by apply calm_later|done]. split_and!.
  - apply base_claim; [by apply server_base_unready|done|done|]. cbn. by rewrite lookup_delete_eq.
  - apply chain_claim; [done|done|]. by eapply chain_calm.
  - apply loops_claim; [done|done|]. eapply loops_steady; [|done]. constructor; cbn; try done.
    intros p w a. destruct (decide (p = i)) as [->|]; [|by rewrite lookup_delete_ne].
    rewrite lookup_delete_eq, Hi. split; [done|]. intros [= ->]. by destruct (Hr w a).
Qed.
(** The next turn of a loop begins. *)
Lemma begin_refresh s X i w a :
  inv s X → sv_ready s !! i = Some (TRefresh w a) →
  inv (unready i s) (<[i := Refreshing w a]> X) ∧ later s (unready i s) ∧ X !! i = None.
Proof.
  intros (Hb & Hc & Hl) Hi.
  assert (HX : X !! i = None).
  { destruct (X !! i) as [ph|] eqn:E; [|done]. apply (ba_claim _ _ Hb) in E as (_ & _ & ?). congruence. }
  destruct (ba_ready _ _ Hb _ _ Hi) as [Hn Hs].
  assert (Hcalm : calm s (unready i s)).
  { constructor; cbn; try done.
    - intros p t' Ht'. destruct (decide (p = i)) as [->|]; [|by rewrite lookup_delete_ne].
      rewrite lookup_delete_eq, Hi. split; [done|]. by intros [= <-].
    - intros p k [_ H]%lookup_delete_Some. done. }
  split_and!; [|by apply calm_later|done]. split_and!.
  - apply base_claim; [by apply server_base_unready|done|done|]. cbn. by rewrite lookup_delete_eq.
  - apply chain_claim; [done|done|]. by eapply chain_calm.
  - assert (Hat : ∀ p v b, loop_at (unready i s) (<[i := Refreshing w a]> X) p v b ↔ loop_at s X p v b).
    { intros p v b. unfold loop_at. cbn. destruct (decide (p = i)) as [->|].
      - rewrite lookup_delete_eq, lookup_insert_eq, Hi, HX. naive_solver.
      - by rewrite lookup_delete_ne, lookup_insert_ne. }
    destruct Hl. constructor; try done.
    + intros v b Hv. destruct (lo_entry0 _ _ Hv) as (? & ? & p & Hp). split_and!; [done..|]. exists p. by apply Hat.
    + intros p v b Hp. eapply lo_loop0, Hat, Hp.
    + intros p q v b c Hp Hq. eapply lo_once0; by apply Hat.
Qed.

Lemma settle_base s X i o : base s X → X !! i = None → (i < sv_next s)%nat → sv_ready s !! i = None → base (settle i o s) X.
Proof.
  intros [] HX Hi Hr. constructor; cbn; try done.
  - intros p t Hp. destruct (ba_ready0 _ _ Hp). split; [done|]. rewrite not_elem_of_union, not_elem_of_singleton.
    split; [|done]. intros ->. congruence.
  - intros p ph Hp. destruct (ba_claim0 _ _ Hp) as (? & ? & ?). split_and!; [done| |done].
    rewrite not_elem_of_union, not_elem_of_singleton. split; [|done]. intros ->. congruence.
  - intros p [->%elem_of_singleton|Hp]%elem_of_union; auto.
Qed.
Lemma settle_later i o s : later s (settle i o s).
Proof. constructor; cbn; try done. set_solver. Qed.

(** A task other than a frame's ends. *)
Lemma end_busy s X i ph o :
  base s (<[i := ph]> X) → chain s (<[i := ph]> X) → loops s X → X !! i = None → frame_of ph = None →
  inv (settle i o s) X ∧ later s (settle i o s).
Proof.
  intros Hb Hc Hl HX Hph. split; [|apply settle_later].
  destruct (ba_claim _ _ Hb i ph ltac:(by rewrite lookup_insert_eq)) as (Hi & Hs & Hr).
  apply chain_claim in Hc; [|done|done]. apply base_unclaim in Hb; [|done].
  split_and!; [by apply settle_base| |by apply (loops_steady s)].
  assert (Hno : ∀ k n, handling k n s ≠ Some i).
  { intros k n Hk. destruct (ch_alive _ _ Hc _ _ _ Hk) as [?|[(t & Ht & _)|(ph' & Hp' & _)]]; congruence. }
  assert (Hin : ∀ k n p, handling k n s = Some p → p ∈ sv_settled (settle i o s) ↔ p ∈ sv_settled s).
  { intros k n p Hp. cbn. rewrite elem_of_union, elem_of_singleton. split; [|by right].
    intros [->|?]; [by apply Hno in Hp|done]. }
  destruct Hc. constructor; try done.
  - intros k n p Hp. rewrite Hin by done. by apply ch_alive0.
  - intros p ph' k n H1 H2 H3 m q Hm Hq. rewrite Hin by done. exact (ch_turn0 _ _ _ _ H1 H2 H3 _ _ Hm Hq).
  - intros k n p Hp. rewrite Hin by done. intros Hps m q Hm Hq. rewrite Hin by done. exact (ch_settled0 _ _ _ Hp Hps _ _ Hm Hq).
  - intros k n m Hm. destruct (ch_answered0 _ _ _ Hm) as (a & H1 & H2 & H3). exists a. split_and!; [done..|].
    rewrite (Hin k n); [done|]. unfold handling. by rewrite H1.
  - intros k n p Hp. rewrite Hin by done. by apply ch_done0.
Qed.

(** ** The handling of a frame *)

Lemma begin_message s X i k n d b prev :
  inv s X → sv_ready s !! i = Some (TMessage k n d b prev) →
  inv (unready i s) (<[i := Chained k n]> X) ∧ later s (unready i s) ∧ X !! i = None
  ∧ arrived k s !! n = Some {| ar_data := d; ar_isBinary := b; ar_handling := i |} ∧ prev = before k n s.
Proof.
  intros (Hb & Hc & Hl) Hi.
  assert (HX : X !! i = None).
  { destruct (X !! i) as [ph|] eqn:E; [|done]. apply (ba_claim _ _ Hb) in E as (_ & _ & ?). congruence. }
  destruct (ba_ready _ _ Hb _ _ Hi) as [Hn Hs]. destruct (ch_task _ _ Hc _ _ _ _ _ _ Hi) as [Ha Hprev].
  split_and!; [|by constructor|done|done|done]. split_and!.
  - apply base_claim; [by apply server_base_unready|done|done|]. cbn. by rewrite lookup_delete_eq.
  - assert (Hh : handling k n s = Some i) by (unfold handling; by rewrite Ha).
    assert (HXp : ∀ p ph, X !! p = Some ph → <[i := Chained k n]> X !! p = Some ph).
    { intros p ph Hp. rewrite lookup_insert_ne; [done|]. intros ->. congruence. }
    destruct Hc. constructor; try done; cbn.
    + intros p k' n' d' b' prev' [_ H]%lookup_delete_Some. exact (ch_task0 _ _ _ _ _ _ H).
    + intros p ph k' n' [[<- <-]|[_ H]]%lookup_insert_Some; [by intros [= <- <-]|exact (ch_phase0 _ _ _ _ H)].
    + intros k' n' p Hp. destruct (decide (p = i)) as [->|Hne].
      { right. right. exists (Chained k n). rewrite lookup_insert_eq. split; [done|].
        by destruct (ch_distinct0 _ _ _ _ _ Hp Hh) as [-> ->]. }
      destruct (ch_alive0 _ _ _ Hp) as [?|[(t & Ht & Hm)|(ph & H1 & H2)]]; [by left|right; left|right; right].
      * exists t. by rewrite lookup_delete_ne.
      * exists ph. by rewrite lookup_insert_ne.
    + intros p ph k' n' [[<- <-]|[_ H]]%lookup_insert_Some; [done|exact (ch_turn0 _ _ _ _ H)].
    + intros k' n' m Hm. destruct (ch_answered0 _ _ _ Hm) as (a & H1 & H2 & H3). exists a.
      split_and!; [done..|]. destruct H3; [by left|right; by apply HXp].
    + intros k' n' p Hp H. apply (ch_done0 _ _ _ Hp). destruct H as [|[[_ ?]|[_ ?]]%lookup_insert_Some]; [by left|done|by right].
    + intros p k' [_ H]%lookup_delete_Some. by eapply ch_connect0.
    + intros p q k' [_ H]%lookup_delete_Some [_ H']%lookup_delete_Some. by eapply ch_connect_once0.
  - apply loops_claim; [done|done|]. eapply loops_steady; [|done]. constructor; cbn; try done.
    intros p w a. destruct (decide (p = i)) as [->|]; [|by rewrite lookup_delete_ne].
    by rewrite lookup_delete_eq, Hi.
Qed.

(** The frames before a frame were handled. *)
Definition turn (k n : nat) (s : server) : Prop :=
  ∀ m q, (m < n)%nat → handling k m s = Some q → q ∈ sv_settled s.

Lemma turn_comes s X k n i : chain s X → handling k n s = Some i → (∀ p, before k n s = Some p → p ∈ sv_settled s) → turn k n s.
Proof.
  intros Hc Hi Hp m q Hm Hq. destruct n as [|n]; [lia|]. cbn in Hp.
  destruct (handling k n s) as [p|] eqn:E.
  - destruct (decide (m = n)) as [->|]; [apply Hp; congruence|]. eapply (ch_settled _ _ Hc); [exact E|by apply Hp| |exact Hq]. lia.
  - unfold handling in *. apply fmap_None, lookup_ge_None in E. apply fmap_Some in Hi as (a & Ha & _).
    apply lookup_lt_Some in Ha. lia.
Qed.

Lemma take_turn s X i k n :
  base s (<[i := Chained k n]> X) → chain s (<[i := Chained k n]> X) → turn k n s → chain s (<[i := Answering k n]> X).
Proof.
  intros Hb Hc Ht. destruct (ba_claim _ _ Hb i (Chained k n) ltac:(by rewrite lookup_insert_eq)) as (_ & Hs & _).
  destruct Hc. constructor; try done.
  - intros p ph k' n' [[<- <-]|[Hne H]]%lookup_insert_Some; [intros [= <- <-]; exact (ch_phase0 i (Chained k n) k n ltac:(by rewrite lookup_insert_eq) eq_refl)|].
    apply (ch_phase0 p). by rewrite lookup_insert_ne.
  - intros k' n' p Hp. destruct (ch_alive0 _ _ _ Hp) as [?|[?|(ph & H1 & H2)]]; [by left|by right; left|right; right].
    apply lookup_insert_Some in H1 as [[<- <-]|[Hne H1]]; [exists (Answering k n); by rewrite lookup_insert_eq|].
    exists ph. by rewrite lookup_insert_ne.
  - intros p ph k' n' [[<- <-]|[Hne H]]%lookup_insert_Some; [intros [= <- <-] _; exact Ht|].
    apply (ch_turn0 p). by rewrite lookup_insert_ne.
  - intros k' n' m Hm. destruct (ch_answered0 _ _ _ Hm) as (a & H1 & H2 & H3). exists a. split_and!; [done..|].
    destruct H3 as [?|[[_ ?]|[Hne ?]]%lookup_insert_Some]; [by left|done|right; by rewrite lookup_insert_ne].
  - intros k' n' p Hp H. apply (ch_done0 _ _ _ Hp). destruct H as [?|[[_ ?]|[Hne ?]]%lookup_insert_Some]; [by left|done|].
    right. by rewrite lookup_insert_ne.
Qed.

Lemma StronglySorted_snoc (l : list nat) n : StronglySorted lt l → (∀ j, j ∈ l → (j < n)%nat) → StronglySorted lt (l ++ [n])%list.
Proof.
  induction l as [|x l IH]; intros Hs Hl; cbn; [by repeat constructor|]. apply StronglySorted_inv in Hs as [Hs Hf].
  constructor; [apply IH; [done|]; intros j Hj; apply Hl; by right|].
  apply Forall_app. split; [done|]. repeat constructor. apply Hl. by left.
Qed.

(** Every answer so far is to an earlier frame. *)
Lemma answered_before s X i k n j :
  base s (<[i := Answering k n]> X) → chain s (<[i := Answering k n]> X) → j ∈ answers k s → (j < n)%nat.
Proof.
  intros Hb Hc Hj. destruct (ba_claim _ _ Hb i (Answering k n) ltac:(by rewrite lookup_insert_eq)) as (_ & Hs & _).
  pose proof (ch_phase _ _ Hc i (Answering k n) k n ltac:(by rewrite lookup_insert_eq) eq_refl) as Hi.
  apply list_elem_of_fmap in Hj as ([j' m] & -> & Hj). cbn.
  destruct (ch_answered _ _ Hc _ _ _ Hj) as (a & Ha & _ & H).
  assert (Hh : handling k j' s = Some (ar_handling a)) by (unfold handling; by rewrite Ha).
  destruct (lt_eq_lt_dec j' n) as [[?|E]|Hlt]; [done|exfalso..].
  - subst j'. rewrite Hi in Hh. injection Hh as Hh. rewrite <-Hh in H.
    destruct H as [?|H]; [done|]. by rewrite lookup_insert_eq in H.
  - apply Hs. destruct H as [H|H].
    + exact (ch_settled _ _ Hc _ _ _ Hh H _ _ Hlt Hi).
    + exact (ch_turn _ _ Hc _ _ _ _ H eq_refl I _ _ Hlt Hi).
Qed.

(** The frame is answered, or needs no answer any more. *)
Lemma give_answer s s' X i k n a extra :
  base s (<[i := Answering k n]> X) → chain s (<[i := Answering k n]> X) → arrived k s !! n = Some a →
  (∃ L, s' = s <| sv_log := L |>) → (∀ j, answering j s' = if decide (j = k) then (answering j s ++ extra)%list else answering j s) →
  (∃ m, extra = [(n, m)] ∧ response_to a m) ∨ (extra = [] ∧ muted k s) →
  chain s' (<[i := Answered k n]> X).
Proof.
  intros Hb Hc Ha [L ->] Hans Hextra.
  pose proof (λ j, answered_before s X i k n j Hb Hc) as Hlt.
  pose proof (ch_phase _ _ Hc i (Answering k n) k n ltac:(by rewrite lookup_insert_eq) eq_refl) as Hi.
  set (s' := s <| sv_log := L |>) in *. assert (Hai : ar_handling a = i).
  { unfold handling in Hi. rewrite Ha in Hi. by injection Hi. }
  assert (Hmore : ∀ j n', n' ∈ answers j s → n' ∈ answers j s').
  { intros j n'. unfold answers. rewrite Hans. case_decide; [|done]. rewrite fmap_app, elem_of_app. by left. }
  assert (HX : ∀ p ph, p ≠ i → <[i := Answering k n]> X !! p = Some ph ↔ <[i := Answered k n]> X !! p = Some ph).
  { intros p ph Hp. by rewrite !lookup_insert_ne. }
  destruct Hc. constructor; try done.
  - intros p ph k' n' [[<- <-]|[Hne H]]%lookup_insert_Some; [by intros [= <- <-]|].
    apply (ch_phase0 p). by rewrite lookup_insert_ne.
  - intros k' n' p Hp. destruct (ch_alive0 _ _ _ Hp) as [?|[?|(ph & H1 & H2)]]; [by left|by right; left|right; right].
    apply lookup_insert_Some in H1 as [[<- <-]|[Hne H1]]; [exists (Answered k n); by rewrite lookup_insert_eq|].
    exists ph. by rewrite lookup_insert_ne.
  - intros p ph k' n' [[<- <-]|[Hne H]]%lookup_insert_Some.
    + intros [= <- <-] _. exact (ch_turn0 i (Answering k n) k n ltac:(by rewrite lookup_insert_eq) eq_refl I).
    + apply (ch_turn0 p). by rewrite lookup_insert_ne.
  - intros j. unfold answers. rewrite Hans. case_decide as E; [|by apply ch_increasing0]. subst j. rewrite fmap_app.
    destruct Hextra as [(m & -> & _)|[-> _]]; [|rewrite app_nil_r; apply ch_increasing0].
    apply StronglySorted_snoc; [apply ch_increasing0|exact Hlt].
  - intros j n' m. rewrite Hans. intros Hm.
    assert (Hm' : (n', m) ∈ answering j s ∨ (j = k ∧ (n', m) ∈ extra)).
    { case_decide as E; [|by left]. apply elem_of_app in Hm as [?|?]; auto. }
    destruct Hm' as [Hm'|[-> Hm']].
    + destruct (ch_answered0 _ _ _ Hm') as (b & H1 & H2 & H3). exists b. split_and!; [done..|].
      destruct H3 as [?|[[_ ?]|[Hne ?]]%lookup_insert_Some]; [by left|done|right; by rewrite lookup_insert_ne].
    + destruct Hextra as [(m' & -> & Hr)|[-> _]]; [|by apply elem_of_nil in Hm'].
      apply list_elem_of_singleton in Hm' as [= -> ->]. exists a. split_and!; [done|done|]. right. rewrite Hai. by rewrite lookup_insert_eq.
  - intros j n' p Hp H. destruct (decide (p = i)) as [->|Hne].
    + destruct (ch_distinct0 _ _ _ _ _ Hp Hi) as [-> ->]. destruct Hextra as [(m & -> & _)|[_ Hm]]; [left|by right].
      unfold answers. rewrite Hans, decide_True, fmap_app, elem_of_app by done. right. by apply list_elem_of_singleton.
    + destruct (ch_done0 _ _ _ Hp) as [?|?]; [|left; by apply Hmore|by right].
      destruct H as [?|H]; [by left|right]. by apply HX.
Qed.

(** The task of a frame ends. *)
Lemma end_message s X i k n o :
  inv s (<[i := Answered k n]> X) → X !! i = None → inv (settle i o s) X ∧ later s (settle i o s).
Proof.
  intros (Hb & Hc & Hl) HX. split; [|apply settle_later].
  destruct (ba_claim _ _ Hb i _ ltac:(by rewrite lookup_insert_eq)) as (Hin & Hs & Hr).
  pose proof (ch_phase _ _ Hc i (Answered k n) k n ltac:(by rewrite lookup_insert_eq) eq_refl) as Hi.
  apply base_unclaim in Hb; [|done]. apply loops_claim in Hl; [|done|done].
  split_and!; [by apply settle_base| |by apply (loops_steady s)].
  assert (Hmono : ∀ p, p ∈ sv_settled s → p ∈ sv_settled (settle i o s)) by (intros p ?; cbn; set_solver).
  assert (HXp : ∀ p ph, X !! p = Some ph → <[i := Answered k n]> X !! p = Some ph).
  { intros p ph Hp. rewrite lookup_insert_ne; [done|]. intros ->. congruence. }
  assert (Hold : ∀ j n' p, handling j n' s = Some p → p ∈ sv_settled (settle i o s) →
    p ∈ sv_settled s ∨ (p = i ∧ j = k ∧ n' = n)).
  { intros j n' p Hp. cbn. rewrite elem_of_union, elem_of_singleton. intros [->|?]; [right|by left].
    split; [done|]. by eapply (ch_distinct _ _ Hc). }
  destruct Hc. constructor; try done.
  - intros p ph j n' Hp. exact (ch_phase0 _ _ _ _ (HXp _ _ Hp)).
  - intros j n' p Hp. destruct (ch_alive0 _ _ _ Hp) as [?|[?|(ph & H1 & H2)]]; [left; auto|by right; left|].
    apply lookup_insert_Some in H1 as [[<- <-]|[Hne H1]]; [left; cbn; set_solver|right; right; eauto].
  - intros p ph j n' Hp H1 H2 m q Hm Hq. apply Hmono. exact (ch_turn0 _ _ _ _ (HXp _ _ Hp) H1 H2 _ _ Hm Hq).
  - intros j n' p Hp Hps m q Hm Hq. apply Hmono. destruct (Hold _ _ _ Hp Hps) as [H|(-> & -> & ->)].
    + exact (ch_settled0 _ _ _ Hp H _ _ Hm Hq).
    + exact (ch_turn0 i (Answered k n) k n ltac:(by rewrite lookup_insert_eq) eq_refl I _ _ Hm Hq).
  - intros j n' m Hm. destruct (ch_answered0 _ _ _ Hm) as (a & H1 & H2 & H3). exists a. split_and!; [done..|].
    destruct H3 as [?|[[E _]|[Hne ?]]%lookup_insert_Some]; [left; auto| |by right]. left. cbn. set_solver.
  - intros j n' p Hp H. apply (ch_done0 _ _ _ Hp). destruct H as [H|H]; [|right; by apply HXp].
    destruct (Hold _ _ _ Hp H) as [?|(-> & -> & ->)]; [by left|right; by rewrite lookup_insert_eq].
Qed.
End invariant.
