(* ===== verification/SocketServerBodies.v ===== *)
(** The operations of the server's end of the protocol keep its invariant, at
    every await and at the end of every task. *)
From S2P Require Import Prelude JsValues Texts Errors Programs Tasks TaskRules Jobs Protocol Workspaces Commands SocketServer SocketServerInvariant.
From S2P Require Registry.
#[local] Open Scope string_scope. #[local] Open Scope Z_scope.

Section triples.
Context (serverVersion : string) (maxInboundMessageBytes : Z) (has_jobs : bool).
Context (parse : string → option jsval) (read_command : jsval → option ClientCommand).
Notation inv := (inv maxInboundMessageBytes parse read_command).
Notation chain := (chain maxInboundMessageBytes parse read_command).
Notation kept := (TaskRules.kept (J := inv) (G := later)).

(** ** Changes of state *)

Lemma kept_id : kept id.
Proof. intros s X H. by split. Qed.

Lemma kept_push f : (∀ s, pushed s (f s)) → kept f.
Proof. intros Hf s X H. by apply pushed_kept. Qed.

(** A change that is calm and steady, and keeps what [base] looks at. *)
Lemma kept_plain f :
  (∀ s X, base s X → calm s (f s) ∧ steady s (f s) ∧ base (f s) X) → kept f.
Proof.
  intros Hf s X (Hb & Hc & Hl). destruct (Hf s X Hb) as (H1 & H2 & H3). split; [|by apply calm_later].
  split_and!; [done|by eapply chain_calm|by eapply loops_steady].
Qed.

(** The fields a change of subscriptions or clients leaves alone. *)
Lemma kept_subscriptions f : kept (λ s, s <| sv_historySubscriptions := f s |>).
Proof.
  apply kept_plain. intros s X Hb. split_and!; [by constructor|by constructor|].
  apply (base_same s); try done; try apply Hb. by left.
Qed.

Lemma calm_set_refresh a r1 r2 s : calm s (set_refresh a r1 r2 s).
Proof. by constructor. Qed.
Lemma refresh_state_set a b r1 r2 s :
  refresh_state b (set_refresh a r1 r2 s) = if decide (b = a) then {| rf_running := r1; rf_requested := r2 |} else refresh_state b s.
Proof.
  unfold refresh_state, set_refresh. cbn. case_decide as E; [subst; by rewrite lookup_insert_eq|by rewrite lookup_insert_ne].
Qed.
Lemma base_set_refresh a r1 r2 s X : base s X → base (set_refresh a r1 r2 s) X.
Proof. intros Hb. apply (base_same s); try done; try apply Hb. by left. Qed.
Lemma steady_set_refresh a r1 r2 s :
  (rf_running (refresh_state a s) = true → r1 = true) → steady s (set_refresh a r1 r2 s).
Proof.
  intros Hr. constructor; try done. intros b. rewrite refresh_state_set. case_decide as E; [subst; done|done].
Qed.

Lemma schedule_kept w : kept (scheduleHistoryBroadcast w).
Proof.
  intros s X (Hb & Hc & Hl). unfold scheduleHistoryBroadcast.
  destruct (sv_disposed s || _) eqn:Ed; [by split_and!|]. apply orb_false_iff in Ed as [Ed _].
  unfold refresh_entry. destruct (map_get w (sv_historyRefreshes s)) as [a|] eqn:Ew.
  - destruct (lo_entry _ _ Hl _ _ Ew) as (Hr & _). rewrite Hr. cbn zeta.
    set (s' := set_refresh a true true s <| sv_historyRefreshes := map_set w a (sv_historyRefreshes s) |>).
    assert (Hcalm : calm s s') by by constructor.
    split; [|by apply calm_later]. split_and!.
    + apply (base_same s); try done; try apply Hb; [by left|]. apply map_ok_set, Hb.
    + by eapply chain_calm.
    + eapply loops_steady; [|done]. constructor; try done.
      * intros v. cbn. rewrite map_get_set. case_decide as E; [by subst|done].
      * intros E. exfalso. by rewrite E in Ew.
      * intros b Hb'. change (refresh_state b s') with (refresh_state b (set_refresh a true true s)).
        rewrite refresh_state_set. by case_decide.
  - assert (Hrun : rf_running (refresh_state (sv_next s) (set_refresh (sv_next s) false false
      (s <| sv_next := S (sv_next s) |>))) = false) by by rewrite refresh_state_set, decide_True.
    rewrite Hrun. cbn zeta.
    set (a := sv_next s). set (s1 := set_refresh a true true _).
    assert (Hs1 : calm s s1) by (constructor; try done; cbn; lia).
    assert (Hb1 : base s1 X).
    { apply (base_same s); try done; try apply Hb; [by left|cbn; lia|]. apply map_ok_set, Hb. }
    assert (Hcalm : calm s (spawned (TRefresh w a) s1)) by (eapply calm_trans; [done|by eapply calm_spawned_refresh]).
    split; [|by apply calm_later]. split_and!.
    + by apply base_spawned_refresh.
    + by eapply chain_calm.
    + apply (loops_new s _ X w a (S a)); try done.
      * cbn. lia.
      * destruct (sv_ready s !! S a) as [t|] eqn:E; [|done]. apply (ba_ready _ _ Hb) in E as [? _]. unfold a in *. lia.
      * destruct (X !! S a) as [ph|] eqn:E; [|done]. apply (ba_claim _ _ Hb) in E as [? _]. unfold a in *. lia.
      * intros v. cbn. by rewrite map_get_set.
      * intros b. unfold refresh_state, s1, spawned, set_refresh. cbn.
        case_decide as E; [subst; by rewrite lookup_insert_eq|by rewrite !lookup_insert_ne].
Qed.

Lemma dispose_flow_kept k : kept (dispose_flow k).
Proof.
  apply kept_plain. intros s X Hb. unfold dispose_flow. destruct (map_get k (sv_flows s)) as [b|] eqn:Ek; [|by split_and!].
  split_and!; [|by constructor|apply (base_same s); try done; [by left|apply map_ok_set, Hb|apply Hb]].
  constructor; try done; cbn; intros j; rewrite map_get_set; case_decide as E; try done; subst; congruence.
Qed.

Lemma closed_kept k : kept (socket_closed k).
Proof.
  apply (kept_compose (dispose_flow k) (λ s, s <| sv_flows := map_delete k (sv_flows s) |>
    <| sv_historySubscriptions := map_delete k (sv_historySubscriptions s) |>
    <| sv_listening := sv_listening s ∖ {[k]} |>
    <| sv_clients := filter (λ c, c ≠ k) (sv_clients s) |>)); [apply dispose_flow_kept|].
  apply kept_plain. intros s X Hb. pose proof (ba_flows _ _ Hb) as Hf.
  split_and!; [|by constructor|apply (base_same s); try done; [by left|by apply map_ok_delete|apply Hb]].
  constructor; try done; cbn; [..|set_solver]; intros j; rewrite map_get_delete by done; by case_decide.
Qed.

Lemma shutdown_kept gracePeriodMs : kept (λ s, s <| sv_shuttingDown := true |> <| sv_shutdownGraceMs := gracePeriodMs |>).
Proof.
  apply kept_plain. intros s X Hb. split_and!; [by constructor|by constructor|].
  apply (base_same s); try done; try apply Hb. by left.
Qed.

Lemma dispose_kept : kept dispose.
Proof.
  intros s X (Hb & Hc & Hl). unfold dispose. destruct (sv_disposed s) eqn:Ed; [by split_and!|].
  assert (Hcalm : calm s (s <| sv_disposed := true |> <| sv_flows := [] |> <| sv_historySubscriptions := [] |> <| sv_historyRefreshes := [] |>)).
  { constructor; try done. unfold stopping. cbn. intros _. apply orb_true_r. }
  split; [|by apply calm_later]. split_and!; [|by eapply chain_calm|].
  - apply (base_same s); try done; [by left|apply NoDup_nil_2|apply NoDup_nil_2].
  - constructor; try done; [|by left]. intros p w a Hp. split; [|by left]. by destruct (lo_loop _ _ Hl _ _ _ Hp).
Qed.

Lemma handleRegistryEvent_kept event : kept (handleRegistryEvent event).
Proof.
  destruct event as [record event|record|record]; unfold handleRegistryEvent.
  - destruct (ev_payload event); try apply kept_push, broadcast_pushed.
    apply (kept_compose (broadcast _ None)); [apply kept_push, broadcast_pushed|apply schedule_kept].
  - apply (kept_compose (broadcast _ None)); [apply kept_push, broadcast_pushed|apply schedule_kept].
  - apply schedule_kept.
Qed.
Lemma handleJobEvent_kept event : kept (handleJobEvent event).
Proof. destruct event; apply kept_push, broadcast_pushed. Qed.

(** What follows the response to a command. *)
Definition follow_up (socket : nat) (command : ClientCommand) (r : DispatchResult) (s : server) : server :=
  let s := match cmd_input command with
    | HistoryList workspaceId =>
        s <| sv_historySubscriptions := map_set socket workspaceId (sv_historySubscriptions s) |>
    | _ => s
    end in
  let s := match dr_workspaces r with
    | Some workspaces => broadcast (MWorkspaces None workspaces) (if dr_workspaceBroadcastIncludesSender r then None else Some socket) s
    | None => s
    end in
  let s := match dr_jobs r with
    | Some jobs => broadcast (MJobs None jobs) (if dr_jobsBroadcastIncludesSender r then None else Some socket) s
    | None => s
    end in
  match dr_affectedWorkspaceId r with
  | Some workspaceId =>
      match dr_history r with
      | Some conversations => broadcastHistory workspaceId conversations s
      | None => scheduleHistoryBroadcast workspaceId s
      end
  | None => s
  end.
Lemma deliver_split socket number command r s :
  deliver socket number command r s = follow_up socket command r (send socket (Some number) (dr_response r) s).
Proof. done. Qed.
Lemma kept_onto f s s' X : kept f → inv s' X ∧ later s s' → inv (f s') X ∧ later s (f s').
Proof. intros Hf [HI Hg]. destruct (Hf _ _ HI). split; [done|by etrans]. Qed.
Lemma follow_up_kept socket command r : kept (follow_up socket command r).
Proof.
  intros s X HI. unfold follow_up. cbv zeta.
  assert (H : inv s X ∧ later s s) by by split.
  set (s1 := match cmd_input command with HistoryList _ => _ | _ => s end).
  assert (H1 : inv s1 X ∧ later s s1).
  { subst s1. destruct (cmd_input command); try exact H.
    exact (kept_subscriptions (λ s, map_set socket _ (sv_historySubscriptions s)) s X HI). }
  set (s2 := match dr_workspaces r with Some _ => _ | None => s1 end).
  assert (H2 : inv s2 X ∧ later s s2).
  { subst s2. destruct (dr_workspaces r); [|done]. apply (kept_onto (broadcast _ _)); [apply kept_push, broadcast_pushed|done]. }
  set (s3 := match dr_jobs r with Some _ => _ | None => s2 end).
  assert (H3 : inv s3 X ∧ later s s3).
  { subst s3. destruct (dr_jobs r); [|done]. apply (kept_onto (broadcast _ _)); [apply kept_push, broadcast_pushed|done]. }
  destruct (dr_affectedWorkspaceId r); [|done].
  destruct (dr_history r); [|by apply kept_onto; [apply schedule_kept|]].
  apply (kept_onto (broadcastHistory _ _)); [apply kept_push, broadcastHistory_pushed|done].
Qed.

(** ** The end of a turn of a loop *)

(** What the task of a turn must leave behind when it ends. *)
Definition hands_over (i : nat) (w : string) (a : nat) (X : claims) (s s' : server) : Prop :=
  base s' (<[i := Refreshing w a]> X) ∧ chain s' (<[i := Refreshing w a]> X) ∧ loops s' X ∧ later s s'.

Lemma spawned_hands_over i w a X s s1 :
  inv s (<[i := Refreshing w a]> X) → X !! i = None → calm s s1 → steady s s1 → base s1 (<[i := Refreshing w a]> X) →
  hands_over i w a X s (spawned (TRefresh w a) s1).
Proof.
  intros (Hb & Hc & Hl) HX Hcalm Hst Hb1.
  assert (Hca : calm s (spawned (TRefresh w a) s1)) by (eapply calm_trans; [done|by eapply calm_spawned_refresh]).
  split_and!; [by apply base_spawned_refresh|by eapply chain_calm| |by apply calm_later].
  apply (loops_spawn _ _ i); [by eapply loops_steady|done| |by eapply base_unclaim].
  by destruct (ba_claim _ _ Hb1 i _ ltac:(by rewrite lookup_insert_eq)) as (_ & _ & ?).
Qed.

Lemma dropped_hands_over i w a X s s1 :
  inv s (<[i := Refreshing w a]> X) → X !! i = None →
  (∀ b, b ≠ a → refresh_state b s1 = refresh_state b s) →
  s1 = s <| sv_refreshStates := sv_refreshStates s1 |> <| sv_historyRefreshes := map_delete w (sv_historyRefreshes s) |> →
  hands_over i w a X s s1.
Proof.
  intros (Hb & Hc & Hl) HX Hrun E.
  assert (Hca : calm s s1) by (rewrite E; by constructor).
  assert (Hi : loop_at s (<[i := Refreshing w a]> X) i w a) by (right; by rewrite lookup_insert_eq).
  assert (Hri : sv_ready s !! i = None).
  { by destruct (ba_claim _ _ Hb i _ ltac:(by rewrite lookup_insert_eq)) as (_ & _ & ?). }
  destruct (lo_loop _ _ Hl _ _ _ Hi) as [Ha Hw]. pose proof (ba_refreshes _ _ Hb) as Hok.
  assert (Hr : sv_historyRefreshes s1 = map_delete w (sv_historyRefreshes s)) by by rewrite E.
  assert (Hready : sv_ready s1 = sv_ready s) by by rewrite E.
  assert (Hn : sv_next s1 = sv_next s) by by rewrite E.
  assert (Hd : sv_disposed s1 = sv_disposed s) by by rewrite E.
  assert (Hat : ∀ p v b, loop_at s1 X p v b ↔ p ≠ i ∧ loop_at s (<[i := Refreshing w a]> X) p v b).
  { intros p v b. unfold loop_at. rewrite Hready. destruct (decide (p = i)) as [->|].
    - rewrite Hri, HX. naive_solver.
    - rewrite lookup_insert_ne by done. naive_solver. }
  split_and!; [|by eapply chain_calm| |by apply calm_later].
  { apply (base_same s); rewrite ?Hn, ?Hready, ?Hr; try done; try apply Hb; [by left|..]; try (by rewrite E);
      [rewrite E; apply Hb|by apply map_ok_delete]. }
  constructor; rewrite ?Hd, ?Hn.
  - intros v b. rewrite Hr, map_get_delete by done. case_decide as Ev; [done|]. intros Hv.
    destruct (lo_entry _ _ Hl _ _ Hv) as (H1 & H2 & p & Hp).
    assert (b ≠ a).
    { intros ->. destruct Hw as [Hw|Hw]; [by rewrite (lo_disposed _ _ Hl Hw) in Hv|].
      by eapply Ev, (lo_distinct _ _ Hl). }
    rewrite Hrun by done. split_and!; [done..|]. exists p. apply Hat. split; [|done]. intros ->.
    destruct Hp as [Hp|Hp]; [congruence|]. rewrite lookup_insert_eq in Hp. by injection Hp as ->.
  - intros p v b [Hpi Hp]%Hat. destruct (lo_loop _ _ Hl _ _ _ Hp) as [? [?|Hv]]; (split; [done|]); [by left|].
    destruct (decide (v = w)) as [->|]; [|right; rewrite Hr, map_get_delete, decide_False by done; done].
    left. by destruct (lo_once _ _ Hl _ _ _ _ _ Hp Hi).
  - intros p q v b c [_ Hp]%Hat [_ Hq]%Hat. by eapply lo_once.
  - intros v v' b. rewrite Hr, !map_get_delete by done. repeat case_decide; try done. by apply (lo_distinct _ _ Hl).
  - intros H. rewrite Hr. by rewrite (lo_disposed _ _ Hl H).
Qed.

Lemma ended_hands_over i w a X s :
  inv s (<[i := Refreshing w a]> X) → X !! i = None → hands_over i w a X s (refresh_ended w a s).
Proof.
  intros HI HX. pose proof HI as (Hb & Hc & Hl). unfold refresh_ended. cbv zeta.
  set (s0 := set_refresh a false (rf_requested (refresh_state a s)) s).
  assert (Hother : ∀ b, b ≠ a → refresh_state b s0 = refresh_state b s).
  { intros b Hne. unfold s0. by rewrite refresh_state_set, decide_False. }
  destruct (negb _ || _) eqn:Eend; [by apply dropped_hands_over|].
  apply orb_false_iff in Eend as [_ Hsub]. unfold scheduleHistoryBroadcast. rewrite Hsub, orb_false_r.
  change (sv_disposed s0) with (sv_disposed s). destruct (sv_disposed s) eqn:Ed.
  - apply dropped_hands_over; [done|done|done|]. pose proof (lo_disposed _ _ Hl Ed) as Er. unfold s0.
    clear -Er. destruct s. cbn in *. by subst.
  - destruct (lo_loop _ _ Hl i w a) as [Ha [Hw|Hw]]; [right; by rewrite lookup_insert_eq|congruence|].
    unfold refresh_entry. change (sv_historyRefreshes s0) with (sv_historyRefreshes s). rewrite Hw.
    assert (Hrun : rf_running (refresh_state a s0) = false) by (unfold s0; by rewrite refresh_state_set, decide_True).
    rewrite Hrun. apply spawned_hands_over; [done|done|by constructor| |].
    + constructor; try done.
      * intros v. cbn. rewrite map_get_set. case_decide as E; [by subst|done].
      * intros E. by rewrite E in Hw.
      * intros b Hr. rewrite refresh_state_set. case_decide as E; [done|].
        change (rf_running (refresh_state b (set_refresh a false true (set_refresh a false (rf_requested (refresh_state a s)) s))) = true).
        by rewrite !refresh_state_set, !decide_False by done.
    + apply (base_same s); try done; [by left|apply Hb|]. apply map_ok_set, Hb.
Qed.
End triples.

(** The bodies of the server's tasks: each one keeps the invariant at its awaits
    and gives its claims up when it ends. *)
#[local] Open Scope string_scope. #[local] Open Scope Z_scope.

Section bodies.
Context (serverVersion : string) (maxInboundMessageBytes : Z) (has_jobs : bool).
Context (parse : string → option jsval) (read_command : jsval → option ClientCommand).
Notation inv := (inv maxInboundMessageBytes parse read_command).
Notation chain := (chain maxInboundMessageBytes parse read_command).
Notation response_to := (response_to maxInboundMessageBytes parse read_command).
Notation body := (body serverVersion maxInboundMessageBytes has_jobs parse read_command).
Notation kept := (TaskRules.kept (J := inv) (G := later)).
Notation stable := (TaskRules.stable later).
Notation holds := (holds (J := inv) (G := later)).
Notation assertion := (server → server → claims → Prop).
Notation wpc := (Tasks.wpc (V := unit) (E := thrown) server_awaited server_enabled inv later).
Notation triple := (triple (awaited := server_awaited) (enabled := server_enabled) (J := inv) (G := later)
  (V := unit) (E := thrown)).
Notation never := (TaskRules.never (S := server) (V := unit) (K := nat) (B := phase)).
Notation neutral := (TaskRules.neutral (V := unit) (E := thrown) (awaited := server_awaited)
  (enabled := server_enabled) (J := inv) (G := later)).
Implicit Types (φ : server → Prop).

(** ** Bodies without claims *)

Lemma neutral_for_each {A} (f : A → act unit) l : (∀ x, neutral (f x)) → neutral (for_each f l).
Proof.
  intros Hf. induction l as [|x l IH]; cbn; [apply neutral_reads, reads_ret|].
  apply neutral_bind; [apply Hf|intros _; exact IH].
Qed.

Ltac neutral_steps :=
  repeat first
    [ apply neutral_bind; [|intros ?]
    | apply neutral_try; [|intros ?]
    | apply neutral_for_each; intros ?
    | apply neutral_reads; first [apply reads_gets | apply reads_ret | apply reads_lift]
    | match goal with
      | |- context [Tasks.port_ ?c] => exact (neutral_reads _ (reads_port c eq_refl))
      | |- context [Tasks.await_ ?c] => exact (neutral_await c eq_refl)
      end
    | match goal with |- context [match ?x with _ => _ end] => destruct x end
    | apply neutral_update ].

Lemma neutral_closeForShutdown k gracePeriodMs : neutral (closeForShutdown k gracePeriodMs).
Proof. unfold closeForShutdown. neutral_steps. apply dispose_flow_kept. Qed.

Lemma neutral_server_shutdown gracePeriodMs : neutral (beginShutdown gracePeriodMs).
Proof.
  unfold beginShutdown. neutral_steps; [apply shutdown_kept|apply dispose_flow_kept].
Qed.
Lemma neutral_terminateClients : neutral terminateClients.
Proof. unfold terminateClients. neutral_steps. Qed.

Lemma refresh_requested_kept a :
  kept (λ s, set_refresh a (rf_running (refresh_state a s)) false s).
Proof.
  apply kept_plain. intros s X Hb. split_and!; [apply calm_set_refresh|by apply steady_set_refresh|by apply base_set_refresh].
Qed.
Lemma neutral_refresh_turn w a : neutral (refresh_turn w a).
Proof.
  unfold refresh_turn. neutral_steps; [apply refresh_requested_kept|]. apply kept_push. intros s. apply broadcastHistory_pushed.
Qed.

(** ** Commands *)

Lemma embed_passive {A} (ψ : A → Prop) own φ (p : prog (at_state (S := server) service_answer) server (outcome unit thrown A * server)) :
  stable φ → ∀ st s f, passive ψ s p → holds own φ st s f →
  wpc st f (embed p) (λ o st' s' f', holds own φ st' s' f'
    ∧ match o with Next x => ψ x | Return _ => False | Throw _ => True end).
Proof.
  intros Hφ. induction p as [[o s0]|[s0 c] k IH]; intros st s f Hp (Hd & HI & Hg & Hs); cbn in *.
  - destruct Hp as [-> Ho]. by split_and!.
  - destruct Hp as [-> Hp]. destruct (service_awaited c).
    + exists own. split_and!; [done..|]. intros r s' f' Hd' HI' Hg' _. eapply IH; [apply Hp|].
      split_and!; [done|done|reflexivity|by eapply Hφ].
    + intros r _. eapply IH; [apply Hp|]. by split_and!.
Qed.

Lemma command_triple own φ b command : stable φ →
  triple never (λ _, holds own φ) (holds own φ) (run_command (dispatchClientCommand has_jobs b command))
    (λ r st s f, holds own φ st s f ∧ message_requestId (dr_response r) = Some (cmd_requestId command)).
Proof.
  intros Hφ st s f HP. unfold run_command. eapply wpc_mono; [|eapply embed_passive; [done|apply dispatch_passive|done]].
  intros [x|v|e] st' s' f' [H1 H2]; [by split|done|done].
Qed.

(** ** Frames *)

Lemma stable_arrived k n a : stable (λ s, arrived k s !! n = Some a).
Proof. intros s s' Hs Hl. eapply prefix_lookup_Some; [done|]. apply (la_arrived _ _ Hl). Qed.

Lemma muted_or k s : muted k s ∨ (stopping s = false ∧ map_get k (sv_flows s) = Some false).
Proof.
  unfold muted. destruct (stopping s); [by left; left|]. destruct (map_get k (sv_flows s)) as [[]|]; auto.
Qed.

Notation waiting_for i k n a st s f := (holds {[i := Chained k n]} (λ s, arrived k s !! n = Some a) st s f).
Notation answering_at i k n a := (holds {[i := Answering k n]} (λ s, arrived k s !! n = Some a)).
Notation answered_at i k n := (holds {[i := Answered k n]} (λ _, True)).

(** The answer to a frame is given, or is not needed any more. *)
Lemma become_answered i k n a extra L st s f :
  answering_at i k n a st s f →
  (∀ j, answering j (s <| sv_log := L |>) = if decide (j = k) then (answering j s ++ extra)%list else answering j s) →
  (∃ m, extra = [(n, m)] ∧ response_to a m) ∨ (extra = [] ∧ muted k s) →
  answered_at i k n st (s <| sv_log := L |>) f.
Proof.
  intros (Hd & HI & Hg & Ha) Hans Hextra. rewrite <-insert_union_singleton_l in HI. destruct HI as (Hb & Hc & Hl).
  assert (Hi : f !! i = None) by by apply map_disjoint_singleton_l in Hd.
  assert (HX : loops s f) by by apply (loops_claim s f i (Answering k n)).
  assert (Hb' : base s f) by by apply (base_unclaim _ _ i (Answering k n)).
  assert (Hcl : (i < sv_next s)%nat ∧ i ∉ sv_settled s ∧ sv_ready s !! i = None) by (eapply (ba_claim _ _ Hb); by rewrite lookup_insert_eq).
  assert (Hc' : chain (s <| sv_log := L |>) (<[i := Answered k n]> f)).
  { eapply (give_answer _ _ _ s); [exact Hb|exact Hc|exact Ha|by exists L|exact Hans|exact Hextra]. }
  unfold Tasks.holds. rewrite <-insert_union_singleton_l. split_and!; [by apply map_disjoint_singleton_l|split_and!| |done].
  - destruct Hcl as (? & ? & ?). by apply base_claim; [apply (base_same s); try done; try apply Hb'; by left|..].
  - done.
  - apply loops_claim; [done|done|]. by apply (loops_steady s); [constructor|].
  - etrans; [exact Hg|]. constructor; try done. intros j. rewrite Hans. case_decide; [by apply prefix_app_r|done].
Qed.
Lemma leave_unanswered i k n a st s f : muted k s → answering_at i k n a st s f → answered_at i k n st s f.
Proof.
  intros Hm HP. replace s with (s <| sv_log := sv_log s |>) by by destruct s.
  eapply (become_answered _ _ _ _ []); [exact HP| |by right]. intros j.
  replace (s <| sv_log := sv_log s |>) with s by by destruct s. rewrite app_nil_r. by case_decide.
Qed.
Lemma answer_frame i k n a m st s f :
  response_to a m → answering_at i k n a st s f → answered_at i k n st (send k (Some n) m s) f.
Proof.
  intros Hr HP. unfold send. destruct (map_get k (sv_flows s)) as [[]|] eqn:Ek.
  1,3: by eapply leave_unanswered; [right; by rewrite Ek|].
  eapply (become_answered _ _ _ _ [(n, m)]); [exact HP| |left; by exists m].
  intros j. rewrite answering_insert. case_decide as E; [|done]. subst. unfold answering. by rewrite omap_app.
Qed.

(** Its turn came. *)
Lemma start_answering i k n a st s f :
  waiting_for i k n a st s f → (∀ p, before k n s = Some p → p ∈ sv_settled s) → ar_handling a = i →
  answering_at i k n a st s f.
Proof.
  unfold Tasks.holds. intros (Hd & HI & Hg & Ha) Hp Hi. rewrite <-insert_union_singleton_l in HI |- *. destruct HI as (Hb & Hc & Hl).
  assert (Hf : f !! i = None) by by apply map_disjoint_singleton_l in Hd.
  destruct (ba_claim _ _ Hb i (Chained k n) ltac:(by rewrite lookup_insert_eq)) as (? & ? & ?).
  split_and!; [by apply map_disjoint_singleton_l|split_and!|done|done].
  - apply base_claim; [by apply (base_unclaim _ _ i (Chained k n))|done..].
  - eapply take_turn; [exact Hb|exact Hc|]. eapply turn_comes; [exact Hc| |exact Hp].
    unfold handling. rewrite Ha. cbn. by rewrite Hi.
  - apply loops_claim; [done|done|]. by apply (loops_claim s f i (Chained k n)).
Qed.

Lemma error_message_requestId e r : message_requestId (error_message_of e r) = r.
Proof. done. Qed.

Lemma handleMessage_triple i k n a :
  triple never (λ _ _ _ _, False) (answering_at i k n a)
    (handleMessage maxInboundMessageBytes has_jobs parse read_command k n (ar_data a) (ar_isBinary a))
    (λ _, answered_at i k n).
Proof.
  unfold handleMessage. eapply triple_bind; [apply triple_gets|]. intros stop. cbn beta.
  apply triple_if; intros Estop.
  { apply triple_ret. intros st s f [HP Es]. apply (leave_unanswered _ _ _ a); [left; congruence|done]. }
  destruct (decodeClientCommand _ _ _ _ _) as [command|e] eqn:Ed.
  2: { apply triple_update. intros st s f [HP _]. apply (answer_frame _ _ _ a); [|done]. unfold SocketServerInvariant.response_to. by rewrite Ed. }
  apply (triple_pre _ (answering_at i k n a)); [by intros st s f []|].
  assert (Hr : ∀ m, message_requestId m = Some (cmd_requestId command) → response_to a m).
  { intros m Hm. unfold SocketServerInvariant.response_to. by rewrite Ed. }
  eapply (triple_try _ (λ _, answering_at i k n a)).
  - eapply triple_bind; [apply triple_gets|]. intros b. cbn beta.
    apply (triple_pre _ (answering_at i k n a)); [by intros st s f []|].
    eapply triple_bind; [apply command_triple, stable_arrived|]. intros r. cbn beta.
    apply triple_update. intros st s f [HP Er]. rewrite deliver_split.
    apply holds_kept; [apply follow_up_kept|done|]. eapply answer_frame; [by apply Hr|exact HP].
  - intros e. apply triple_update. intros st s f HP. eapply answer_frame; [by apply Hr|exact HP].
Qed.

Lemma message_triple i k n a prev :
  triple never (λ _ _ _ _, False)
    (λ st s f, waiting_for i k n a st s f ∧ prev = before k n s ∧ ar_handling a = i)
    (message_body maxInboundMessageBytes has_jobs parse read_command k n (ar_data a) (ar_isBinary a) prev)
    (λ _, answered_at i k n).
Proof.
  assert (Hstable : ∀ p, stable (λ s, arrived k s !! n = Some a ∧ before k n s = p)).
  { intros p s s' [Ha Hb] Hl. split; [by eapply stable_arrived|]. unfold before in *. destruct n as [|m]; [done|].
    unfold handling in *. rewrite <-Hb. assert (Hm : is_Some (arrived k s !! m)).
    { apply lookup_lt_is_Some. apply lookup_lt_Some in Ha. lia. }
    destruct Hm as [x Hx]. rewrite Hx. by rewrite (stable_arrived k m x s s' Hx Hl). }
  unfold message_body. eapply (triple_bind _ _ _ (λ _, answering_at i k n a)).
  - intros st s f (HP & Hprev & Hi). subst prev.
    assert (HP' : holds {[i := Chained k n]} (λ s', arrived k s' !! n = Some a ∧ before k n s' = before k n s) st s f).
    { apply holds_and. by split. }
    destruct (before k n s) as [p|] eqn:Eb.
    + eapply wpc_mono; [|exact (triple_await_stable (AwaitHandled p) {[i := Chained k n]} _ eq_refl (Hstable _) _ _ _ HP')].
      intros [x|v|e] st' s' f' Ho; [|done|done]. destruct Ho as (Hd & HI & Hg & (Ha & Hb) & Hs).
      apply start_answering; [by split_and!| |done]. rewrite Hb. by intros q [= <-].
    + eapply wpc_mono; [|exact (triple_await_stable Tick {[i := Chained k n]} _ eq_refl (Hstable _) _ _ _ HP')].
      intros [x|v|e] st' s' f' Ho; [|done|done]. destruct Ho as (Hd & HI & Hg & (Ha & Hb) & Hs).
      apply start_answering; [by split_and!| |done]. by rewrite Hb.
  - intros _. eapply triple_try; [apply handleMessage_triple|]. by intros e st s f.
Qed.

(** ** A new socket *)

(** Nothing arrived from the socket and its connection is set up once. *)
Definition fresh (k : nat) (s : server) : Prop :=
  (k < sv_next s)%nat ∧ arrived k s = [] ∧ ∀ p, sv_ready s !! p ≠ Some (TConnection k).

Lemma connected_kept k (listen : bool) s X :
  inv s X → fresh k s →
  let s' := if listen then s <| sv_listening := {[k]} ∪ sv_listening s |> else s <| sv_flows := map_set k false (sv_flows s) |> in
  inv s' X ∧ later s s' ∧ fresh k s'.
Proof.
  intros (Hb & Hc & Hl) (Hk & Ha & Hr) s'.
  assert (Hf : ∀ j, j ≠ k → map_get j (sv_flows s') = map_get j (sv_flows s)).
  { intros j Hj. subst s'. destruct listen; [done|]. cbn. by rewrite map_get_set, decide_False. }
  assert (Hrest : sv_ready s' = sv_ready s ∧ sv_settled s' = sv_settled s ∧ sv_next s' = sv_next s ∧ sv_arrived s' = sv_arrived s
    ∧ sv_log s' = sv_log s ∧ sv_historyRefreshes s' = sv_historyRefreshes s ∧ sv_refreshStates s' = sv_refreshStates s
    ∧ sv_disposed s' = sv_disposed s ∧ stopping s' = stopping s ∧ map_ok (sv_flows s')
    ∧ ∀ j, j ≠ k → j ∈ sv_listening s' → j ∈ sv_listening s).
  { subst s'. destruct listen; split_and!; try done; try (cbn; set_solver); [apply Hb|apply map_ok_set, Hb]. }
  destruct Hrest as (Er & Es & En & Eaa & El & Eh & Ers & Ed & Est & Hok & Hlis). clearbody s'.
  assert (Earr : ∀ j, arrived j s' = arrived j s) by (intros j; unfold arrived; by rewrite Eaa).
  assert (Ehand : ∀ j n, handling j n s' = handling j n s) by (intros j n; unfold handling; by rewrite Earr).
  assert (Eans : ∀ j, answering j s' = answering j s) by (intros j; unfold answering; by rewrite El).
  assert (Hm : ∀ j, arrived j s ≠ [] → muted j s → muted j s').
  { intros j Hj. unfold muted. rewrite Est. intros [?|?]; [by left|right]. rewrite Hf; [done|]. intros ->. done. }
  split_and!; [split_and!| |].
  - apply (base_same s); rewrite ?Er, ?Eh; try done; try lia; [by left|apply Hb].
  - destruct Hc. constructor; unfold answers; intros *; rewrite ?Er, ?Es, ?Ehand, ?Eans, ?Earr.
    + apply ch_distinct.
    + intros Hp. destruct (ch_task _ _ _ _ _ _ Hp) as [? ->]. split; [done|]. unfold before. destruct n; [done|]. by rewrite Ehand.
    + apply ch_phase.
    + apply ch_alive.
    + intros H1 H2 H3 m q. rewrite Ehand. exact (ch_turn _ _ _ _ H1 H2 H3 m q).
    + intros H1 H2 m q. rewrite Ehand. exact (ch_settled _ _ _ H1 H2 m q).
    + apply ch_increasing.
    + apply ch_answered.
    + intros H1 H2. destruct (ch_done _ _ _ H1 H2); [by left|right]. apply Hm; [|done].
      unfold handling in H1. intros E. by rewrite E in H1.
    + intros Hp. destruct (ch_connect _ _ Hp) as (? & ? & Hnl & ?). rewrite En.
      assert (k0 ≠ k) by (intros ->; by eapply Hr). rewrite Hf by done. split_and!; try done. contradict Hnl. by eapply Hlis.
    + apply ch_connect_once.
    + rewrite En. destruct (decide (k0 = k)) as [->|Hne]; [done|]. rewrite Hf by done. intros [?|[?|?]]; apply ch_known; auto.
  - apply (loops_steady s); [|done]. constructor; rewrite ?Er, ?Eh, ?Ed, ?En; try done. intros a. unfold refresh_state. by rewrite Ers.
  - constructor; rewrite ?En, ?Es, ?Earr, ?Eans, ?Est, ?Ed; try done; intros j; rewrite ?Earr, ?Eans; done.
  - unfold fresh. by rewrite En, Earr, Er.
Qed.

Lemma fresh_pushed k s s' : pushed s s' → fresh k s → fresh k s'.
Proof. by intros (L & -> & _). Qed.

Lemma connection_triple own k :
  triple never (λ _, holds own (λ _, True)) (holds own (fresh k)) (handleConnection serverVersion k) (λ _, holds own (λ _, True)).
Proof.
  assert (Hweak : ∀ st s f, holds own (fresh k) st s f → holds own (λ _, True) st s f) by (intros *; by apply holds_mono).
  assert (Hset : ∀ (listen : bool) st s f, holds own (fresh k) st s f → holds own (fresh k) st
    (if listen then s <| sv_listening := {[k]} ∪ sv_listening s |> else s <| sv_flows := map_set k false (sv_flows s) |>) f).
  { intros listen st s f (Hd & HI & Hg & Hf). destruct (connected_kept k listen s _ HI Hf) as (? & ? & ?).
    split_and!; [done..|by etrans|done]. }
  unfold handleConnection. eapply (triple_bind _ _ _ (λ _, holds own (fresh k))).
  { apply triple_update. intros st s f. apply (Hset false). }
  intros _. eapply triple_bind; [apply triple_gets|]. intros stop. cbn beta.
  apply (triple_pre _ (holds own (fresh k))); [by intros st s f []|]. apply triple_if; intros _.
  - apply (triple_pre _ (holds own (λ _, True))); [done|].
    assert (Hn : neutral (grace ← gets_ sv_shutdownGraceMs; closeForShutdown k grace)) by (neutral_steps; apply dispose_flow_kept).
    by apply Hn.
  - eapply (triple_bind _ _ _ (λ _, holds own (fresh k))); [|intros _]; apply triple_update; intros st s f HP.
    + destruct HP as (Hd & HI & Hg & Hf). pose proof (send_pushed k (MReady serverVersion) s) as Hpu.
      destruct (pushed_kept _ _ _ _ _ _ Hpu HI). split_and!; [done..|by etrans|by eapply fresh_pushed].
    + by apply Hweak, (Hset true).
Qed.

(** ** Turns of a loop *)

Lemma refresh_triple i w a :
  triple never (λ _ _ _ _, False) (holds {[i := Refreshing w a]} (λ _, True)) (refresh_body w a)
    (λ _ st s f, f !! i = None ∧ ∃ s0, hands_over maxInboundMessageBytes parse read_command i w a f s0 s ∧ later st s0).
Proof.
  unfold refresh_body. set (own := {[i := Refreshing w a]}).
  assert (Hstart : ∀ st s f, holds own (λ _, True) st s f →
    f !! i = None ∧ inv s (<[i := Refreshing w a]> f) ∧ later st s).
  { intros st s f (Hd & HI & Hg & _). unfold own in *. rewrite <-insert_union_singleton_l in HI.
    by apply map_disjoint_singleton_l in Hd. }
  eapply triple_bind; [apply triple_gets|]. intros more. cbn beta.
  apply (triple_pre _ (holds own (λ _, True))); [by intros st s f []|]. apply triple_if; intros _.
  - eapply (triple_bind _ _ _ (λ _, holds own (λ _, True))).
    + eapply (triple_try _ (λ _, holds own (λ _, True))).
      * assert (Hn : neutral (refresh_turn w a;; mret true)).
        { apply neutral_bind; [apply neutral_refresh_turn|intros _; neutral_steps]. }
        by apply Hn.
      * intros e st s f HP. cbn. intros r _. exact HP.
    + intros again. apply triple_update. intros st s f HP. destruct (Hstart _ _ _ HP) as (Hi & HI & Hg).
      split; [done|]. exists s. split; [|done]. destruct again; [|by apply ended_hands_over].
      apply spawned_hands_over; [done|done|by constructor|by constructor|apply HI].
  - apply triple_update. intros st s f HP. destruct (Hstart _ _ _ HP) as (Hi & HI & Hg).
    split; [done|]. exists s. split; [|done]. by apply ended_hands_over.
Qed.

(** ** Every body *)

Lemma ends_busy i φ o st s f : holds {[i := Busy]} φ st s f → ends settle inv later i o st s f.
Proof.
  intros (Hd & HI & Hg & _). rewrite <-insert_union_singleton_l in HI. destruct HI as (Hb & Hc & Hl).
  apply map_disjoint_singleton_l in Hd. destruct (end_busy maxInboundMessageBytes parse read_command s f i Busy o) as [? Hg']; try done.
  - by apply (loops_claim s f i Busy).
  - split; [done|by etrans].
Qed.

(** A task without claims of its own. *)
Lemma busy_ok i t : is_message t = false → (∀ w a, t ≠ TRefresh w a) →
  (∀ s X, inv s X → sv_ready s !! i = Some t →
    triple never (λ _, holds {[i := Busy]} (λ _, True)) (holds {[i := Busy]} (λ s', s' = unready i s)) (body t)
      (λ _, holds {[i := Busy]} (λ _, True))) →
  body_ok server_awaited server_enabled body sv_ready unready settle inv later i t.
Proof.
  intros Hm Hr Hbody s f HI Ht. destruct (begin_busy _ _ _ s f i t HI Ht Hm Hr) as (HI' & Hg & Hi).
  eapply wpc_mono; [|apply (Hbody s f HI Ht)].
  - intros [v|v|e] st s' f'; [apply ends_busy|done|apply ends_busy].
  - split_and!; [by apply map_disjoint_singleton_l|by rewrite <-insert_union_singleton_l|done|done].
Qed.

Lemma neutral_ok i t : is_message t = false → (∀ w a, t ≠ TRefresh w a) → neutral (body t) →
  body_ok server_awaited server_enabled body sv_ready unready settle inv later i t.
Proof.
  intros Hm Hr Hn. apply busy_ok; [done..|]. intros s X _ _. apply (triple_pre _ (holds {[i := Busy]} (λ _, True))).
  - intros st s' f. by apply holds_mono.
  - by apply Hn.
Qed.

Lemma connection_ok i k : body_ok server_awaited server_enabled body sv_ready unready settle inv later i (TConnection k).
Proof.
  apply busy_ok; [done..|]. intros s X (Hb & Hc & Hl) Ht. unfold SocketServer.body.
  eapply triple_bind; [apply triple_gets|]. intros ignored. cbn beta. apply triple_if; intros _.
  - apply triple_ret. intros st s' f [HP _]. by eapply holds_mono.
  - eapply (triple_pre _ (holds {[i := Busy]} (fresh k))); [|apply connection_triple].
    intros st s' f [HP _]. apply (holds_mono _ (λ s', s' = unready i s)); [|exact HP]. intros ? ->. destruct (ch_connect _ _ _ _ _ Hc _ _ Ht) as (? & ? & _).
    split_and!; [done..|]. cbn. intros p [Hne Hp]%lookup_delete_Some. by eapply Hne, (ch_connect_once _ _ _ _ _ Hc).
Qed.

Lemma server_bodies_ok i t : body_ok server_awaited server_enabled body sv_ready unready settle inv later i t.
Proof.
  destruct t as [k|k|k n d b prev|event|event|w a|g| |].
  - apply connection_ok.
  - apply neutral_ok; [done..|]. unfold SocketServer.body. neutral_steps. apply closed_kept.
  - intros s f HI Ht. destruct (begin_message _ _ _ s f i k n d b prev HI Ht) as (HI' & Hg & Hi & Ha & Hprev).
    unfold SocketServer.body. cbn. set (a := {| ar_data := d; ar_isBinary := b; ar_handling := i |}) in *.
    eapply wpc_mono; [|apply (message_triple i k n a prev)].
    + intros [v|v|e] st s' f' Ho; [|done|done]. destruct Ho as (Hd & HI2 & Hg2 & _).
      rewrite <-insert_union_singleton_l in HI2. apply map_disjoint_singleton_l in Hd.
      destruct (end_message _ _ _ s' f' i k n (Next v) HI2 Hd) as [? Hg3]. split; [done|by etrans].
    + split; [|by split].
      split_and!; [by apply map_disjoint_singleton_l|by rewrite <-insert_union_singleton_l|done|done].
  - apply neutral_ok; [done..|]. unfold SocketServer.body. neutral_steps. apply handleRegistryEvent_kept.
  - apply neutral_ok; [done..|]. unfold SocketServer.body. neutral_steps. apply handleJobEvent_kept.
  - intros s f HI Ht. destruct (begin_refresh _ _ _ s f i w a HI Ht) as (HI' & Hg & Hi).
    unfold SocketServer.body. cbn. eapply wpc_mono; [|apply (refresh_triple i w a)].
    + intros [v|v|e] st s' f' Ho; [|done|done]. destruct Ho as (Hf & s0 & (Hb & Hc & Hl & Hg1) & Hg0).
      destruct (end_busy maxInboundMessageBytes parse read_command s' f' i (Refreshing w a) (Next v) Hb Hc Hl Hf eq_refl) as [? Hg2].
      split; [done|]. etrans; [exact Hg0|]. by etrans.
    + split_and!; [by apply map_disjoint_singleton_l|by rewrite <-insert_union_singleton_l|done|done].
  - apply neutral_ok; [done..|]. unfold SocketServer.body. apply neutral_bind; [neutral_steps|intros ignored].
    destruct ignored; [neutral_steps|apply neutral_server_shutdown].
  - apply neutral_ok; [done..|]. unfold SocketServer.body. apply neutral_bind; [neutral_steps|intros ignored].
    destruct ignored; [neutral_steps|apply neutral_terminateClients].
  - apply neutral_ok; [done..|]. unfold SocketServer.body. neutral_steps. apply dispose_kept.
Qed.
End bodies.
