(* ===== verification/SocketServerSystem.v ===== *)
(** The server's end of the protocol as a system: its tasks interleave at their
    awaits; sockets connect, send frames and close, the registry and the jobs
    report changes and the process shuts down at any time. Every state reached
    satisfies the invariant. *)
From S2P Require Import Prelude JsValues Texts Errors Programs Tasks TaskRules Jobs Protocol Workspaces Commands SocketServer SocketServerInvariant SocketServerBodies.
From S2P Require Registry.
#[local] Open Scope string_scope. #[local] Open Scope Z_scope.

(** The tasks other code starts at any time. *)
Definition external (t : server_task) : bool :=
  match t with TConnection _ | TMessage _ _ _ _ _ | TRefresh _ _ => false | _ => true end.

(** The platform accepts a socket: it is new, and among the clients before its
    connection is announced. *)
Definition connected (s : server) : server :=
  spawned (TConnection (sv_next s)) (s <| sv_clients := (sv_clients s ++ [sv_next s])%list |> <| sv_next := S (sv_next s) |>).

Section events.
Context (maxInboundMessageBytes : Z) (parse : string → option jsval) (read_command : jsval → option ClientCommand).
Notation inv := (inv maxInboundMessageBytes parse read_command).
Notation chain := (chain maxInboundMessageBytes parse read_command).
Notation kept := (TaskRules.kept (J := inv) (G := later)).

Lemma spawned_external_kept t : external t = true → kept (spawned t).
Proof.
  intros Ht. apply kept_plain. intros s X Hb.
  assert (Hother : ∀ p t', t' ≠ t → <[sv_next s := t]> (sv_ready s) !! p = Some t' ↔ sv_ready s !! p = Some t').
  { intros p t' Hne. destruct (decide (p = sv_next s)) as [->|]; [|by rewrite lookup_insert_ne].
    rewrite lookup_insert_eq. split; [congruence|]. intros H. apply (ba_ready _ _ Hb) in H as [? _]. lia. }
  split_and!.
  - constructor; cbn; try done; [| |lia].
    + intros p t' Ht'. apply Hother. by intros ->; destruct t.
    + intros p k. apply Hother. by destruct t.
  - constructor; cbn; try done; [|lia]. intros p w a. apply Hother. by destruct t.
  - apply (base_same s); try done; try apply Hb; cbn; [|lia].
    intros p t' [[<- <-]|[Hne H]]%lookup_insert_Some; [right; split; [done|lia]|by left].
Qed.

Lemma connected_socket_kept : kept connected.
Proof.
  intros s X (Hb & Hc & Hl). set (k := sv_next s).
  assert (Hready : ∀ p t, <[S k := TConnection k]> (sv_ready s) !! p = Some t →
    (p = S k ∧ t = TConnection k) ∨ sv_ready s !! p = Some t).
  { intros p t [[<- <-]|[_ H]]%lookup_insert_Some; [by left|by right]. }
  assert (Hnew : ∀ t, sv_ready s !! S k = Some t → False).
  { intros t H. apply (ba_ready _ _ Hb) in H as [? _]. unfold k in *. lia. }
  assert (Hother : ∀ p t, t ≠ TConnection k → <[S k := TConnection k]> (sv_ready s) !! p = Some t ↔ sv_ready s !! p = Some t).
  { intros p t Hne. destruct (decide (p = S k)) as [->|]; [|by rewrite lookup_insert_ne].
    rewrite lookup_insert_eq. split; [congruence|]. intros H. by apply Hnew in H. }
  assert (Hk : k ∉ sv_listening s ∧ arrived k s = [] ∧ map_get k (sv_flows s) = None).
  { split_and!.
    - intros H. pose proof (ch_known _ _ _ _ _ Hc k (or_introl H)). unfold k in *. lia.
    - destruct (arrived k s) eqn:E; [done|]. assert (Hkn : (k < sv_next s)%nat); [|unfold k in *; lia].
      apply (ch_known _ _ _ _ _ Hc). right. left. by rewrite E.
    - destruct (map_get k (sv_flows s)) eqn:E; [|done]. assert (Hkn : (k < sv_next s)%nat); [|unfold k in *; lia].
      apply (ch_known _ _ _ _ _ Hc). right. right. by rewrite E. }
  assert (Hla : later s (connected s)) by (constructor; cbn; try done; lia).
  split; [|done]. split_and!.
  - destruct Hb. constructor; cbn; try done.
    + intros p t [[-> _]|H]%Hready; [split; [lia|]|].
      * intros H. apply ba_settled in H. unfold k in *. lia.
      * destruct (ba_ready _ _ H). split; [lia|done].
    + intros p ph H. destruct (ba_claim _ _ H) as (? & ? & ?). split_and!; [lia|done|].
      rewrite lookup_insert_ne; [done|]. unfold k. lia.
    + intros p H. apply ba_settled in H. lia.
    + intros j n p H. apply ba_handling in H. lia.
  - destruct Hc. constructor; cbn; try done.
    + intros p j n d b prev H. apply Hother in H; [|done]. by apply ch_task.
    + intros j n p H. destruct (ch_alive _ _ _ H) as [?|[(t & Ht & Hm)|?]]; [by left| |by right; right].
      right. left. exists t. split; [|done]. apply Hother; [|done]. by intros ->.
    + intros p j [[-> [= ->]]|H]%Hready; [destruct Hk as (? & ? & ?); split_and!; [unfold k in *; lia|done..]|].
      destruct (ch_connect _ _ H) as (? & ? & ? & ?). split_and!; [lia|done..].
    + intros p q j [[-> [= ->]]|H]%Hready [[-> E]|H']%Hready; try done.
      * destruct (ch_connect _ _ H') as (? & _). unfold k in *. lia.
      * injection E as ->. destruct (ch_connect _ _ H) as (? & _). unfold k in *. lia.
      * by eapply ch_connect_once.
    + intros j H. specialize (ch_known j H). lia.
  - apply (loops_steady s); [|done]. constructor; cbn; try done; [|lia]. intros p w a. by apply Hother.
Qed.

(** A frame arrives. *)
Lemma received_kept k d b : kept (received k d b).
Proof.
  intros s X (Hb & Hc & Hl). unfold received. case_bool_decide as Hk; [|by split_and!].
  set (p0 := sv_next s). set (a0 := {| ar_data := d; ar_isBinary := b; ar_handling := p0 |}).
  set (n0 := length (arrived k s)). set (t0 := TMessage k n0 d b _). set (s' := spawned t0 _).
  assert (Harr : ∀ j, arrived j s' = if decide (j = k) then (arrived k s ++ [a0])%list else arrived j s).
  { intros j. unfold arrived at 1, s'. cbn. case_decide as E; [subst; by rewrite lookup_insert_eq|by rewrite lookup_insert_ne]. }
  assert (Hpre : ∀ j, arrived j s `prefix_of` arrived j s').
  { intros j. rewrite Harr. case_decide; [subst; by apply prefix_app_r|done]. }
  assert (Hh : ∀ j n p, handling j n s' = Some p ↔ handling j n s = Some p ∨ (j = k ∧ n = n0 ∧ p = p0)).
  { intros j n p. unfold handling. rewrite Harr. case_decide as E; [subst j|naive_solver].
    destruct (decide (n < n0)%nat) as [Hn|Hn].
    - rewrite lookup_app_l by done. split; [by left|]. intros [?|(_ & -> & _)]; [done|lia].
    - rewrite (lookup_ge_None_2 (arrived k s)) by (unfold n0 in *; lia). cbn.
      destruct (decide (n = n0)) as [->|Hne].
      + rewrite lookup_app_r, Nat.sub_diag by done. cbn. naive_solver.
      + rewrite lookup_ge_None_2; [naive_solver|]. rewrite length_app. cbn. unfold n0 in *. lia. }
  assert (Hlt : ∀ n p, handling k n s = Some p → (n < n0)%nat).
  { intros n p. unfold handling. intros (a & Ha & _)%fmap_Some. by apply lookup_lt_Some in Ha. }
  assert (Hbefore : ∀ j n p, handling j n s = Some p → before j n s' = before j n s).
  { intros j n p Hp. unfold before. destruct n as [|n]; [done|]. unfold handling in *.
    apply fmap_Some in Hp as (a & Ha & _). apply lookup_lt_Some in Ha.
    destruct (lookup_lt_is_Some_2 (arrived j s) n ltac:(lia)) as [x Hx]. rewrite Hx.
    by rewrite (prefix_lookup_Some _ _ _ _ Hx (Hpre j)). }
  assert (Hset : p0 ∉ sv_settled s) by (intros H; apply (ba_settled _ _ Hb) in H; unfold p0 in *; lia).
  assert (HX : ∀ ph, X !! p0 = Some ph → False).
  { intros ph H. apply (ba_claim _ _ Hb) in H as [? _]. unfold p0 in *. lia. }
  assert (Hh0 : ∀ j n, handling j n s = Some p0 → False).
  { intros j n H. apply (ba_handling _ _ Hb) in H. unfold p0 in *. lia. }
  assert (Hr0 : ∀ t, sv_ready s !! p0 = Some t → False).
  { intros t H. apply (ba_ready _ _ Hb) in H as [? _]. unfold p0 in *. lia. }
  assert (Hready : ∀ p t, sv_ready s' !! p = Some t → (p = p0 ∧ t = t0) ∨ sv_ready s !! p = Some t).
  { intros p t H. unfold s' in H. cbn in H. apply lookup_insert_Some in H as [[<- <-]|[_ H]]; [by left|by right]. }
  assert (Hother : ∀ p t, is_message t = false → sv_ready s' !! p = Some t ↔ sv_ready s !! p = Some t).
  { intros p t Hm. split; [intros [[-> ->]|H]%Hready; done|]. intros H. unfold s'. cbn.
    rewrite lookup_insert_ne; [done|]. intros <-. by apply Hr0 in H. }
  assert (Hla : later s s') by (constructor; try done; cbn; lia).
  split; [|done]. split_and!.
  - destruct Hb. constructor; try done.
    + intros p t [[-> _]|H]%Hready; [split; [cbn; unfold p0; lia|done]|].
      destruct (ba_ready _ _ H). split; [cbn; lia|done].
    + intros p ph H. destruct (ba_claim _ _ H) as (? & ? & ?). split_and!; [cbn; lia|done|].
      unfold s'. cbn. rewrite lookup_insert_ne; [done|]. lia.
    + intros p H. apply ba_settled in H. cbn. lia.
    + intros j n p [H|(_ & _ & ->)]%Hh; [apply ba_handling in H|]; cbn; unfold p0 in *; lia.
  - destruct Hc. constructor; try done.
    + intros j n j' n' p [H|(-> & -> & E)]%Hh [H'|(-> & -> & E')]%Hh; subst; try done; [by eapply ch_distinct|by apply Hh0 in H|by apply Hh0 in H'].
    + intros p j n d' b' prev [[-> E]|H]%Hready.
      * injection E as -> -> -> -> ->. split.
        { rewrite Harr, decide_True by done. unfold n0. by rewrite lookup_app_r, Nat.sub_diag. }
        rewrite last_lookup. fold n0. unfold before. destruct n0 as [|m] eqn:En.
        { by rewrite (nil_length_inv (arrived k s) En). }
        cbn. destruct (lookup_lt_is_Some_2 (arrived k s) m ltac:(unfold n0 in En; lia)) as [x Hx].
        unfold handling. by rewrite Hx, (prefix_lookup_Some _ _ _ _ Hx (Hpre k)).
      * destruct (ch_task _ _ _ _ _ _ H) as [Ha ->]. split; [by eapply prefix_lookup_Some|]. symmetry.
        eapply Hbefore. unfold handling. by rewrite Ha.
    + intros p ph j n H1 H2. apply Hh. left. by eapply ch_phase.
    + intros j n p [H|(-> & -> & ->)]%Hh.
      * destruct (ch_alive _ _ _ H) as [?|[(t & Ht & Hm)|?]]; [by left| |by right; right].
        right. left. exists t. split; [|done]. unfold s'. cbn. rewrite lookup_insert_ne; [done|]. intros <-. by apply Hr0 in Ht.
      * right. left. exists t0. split; [|done]. unfold s'. cbn. by rewrite lookup_insert_eq.
    + intros p ph j n H1 H2 H3 m q Hm [H|(-> & -> & ->)]%Hh; [exact (ch_turn _ _ _ _ H1 H2 H3 _ _ Hm H)|].
      pose proof (Hlt _ _ (ch_phase _ _ _ _ H1 H2)). lia.
    + intros j n p [H|(-> & -> & ->)]%Hh Hs m q Hm [H'|(E & -> & ->)]%Hh; try done.
      * exact (ch_settled _ _ _ H Hs _ _ Hm H').
      * subst j. apply Hlt in H. lia.
    + intros j n m H. destruct (ch_answered _ _ _ H) as (a & H1 & H2 & H3). exists a. split_and!; [|done..].
      by eapply prefix_lookup_Some.
    + intros j n p [H|(-> & -> & ->)]%Hh Hs; [by apply (ch_done _ _ _ H)|]. destruct Hs as [?|H]; [done|by apply HX in H].
    + intros p j Hp. apply Hother in Hp; [|done]. destruct (ch_connect _ _ Hp) as (? & Ha & Hnl & ?).
      split_and!; [cbn; lia| |done..]. rewrite Harr, decide_False; [done|]. by intros ->.
    + intros p q j Hp Hq. apply Hother in Hp, Hq; [|done..]. by eapply ch_connect_once.
    + intros j. rewrite Harr. cbn. destruct (decide (j = k)) as [->|].
      * intros _. specialize (ch_known k (or_introl Hk)). lia.
      * intros H. specialize (ch_known j H). lia.
  - apply (loops_steady s); [|done]. constructor; try done; [|cbn; lia]. intros p w a. by apply Hother.
Qed.
End events.

(** ** The system *)

Section system.
Context (serverVersion : string) (maxInboundMessageBytes : Z) (has_jobs : bool).
Context (parse : string → option jsval) (read_command : jsval → option ClientCommand).
Notation inv := (inv maxInboundMessageBytes parse read_command).
Notation body := (body serverVersion maxInboundMessageBytes has_jobs parse read_command).

Definition server_pool : Type :=
  pool (C := server_call) (ans := server_answer) (S := server) (V := unit) (E := thrown).
Definition initial_pool : server_pool := Pool initial_server ∅.

(** A task runs to its next await, or one of the events of the platform. *)
Inductive server_event := Started (t : server_task) | SocketConnected | FrameReceived (socket : nat) (data : RawData) (isBinary : bool).
Definition allowed (e : server_event) : bool := match e with Started t => external t | _ => true end.
Definition occurs (e : server_event) (s : server) : server :=
  match e with
  | Started t => spawned t s
  | SocketConnected => connected s
  | FrameReceived socket data isBinary => received socket data isBinary s
  end.

Inductive server_step : server_pool → server_pool → Prop :=
| RunTask σ σ' : pool_step server_awaited server_enabled body sv_ready unready settle σ σ' → server_step σ σ'
| Occurs e s waiting : allowed e = true → server_step (Pool s waiting) (Pool (occurs e s) waiting).

Definition reachable (σ : server_pool) : Prop := rtc server_step initial_pool σ.
(** Nothing is left to run. *)
Definition quiescent (σ : server_pool) : Prop := sv_ready (shared σ) = ∅ ∧ waiting σ = ∅.

Definition system_ok (σ : server_pool) : Prop := pool_ok server_awaited server_enabled settle inv later σ.

Lemma server_initial_ok : system_ok initial_pool.
Proof.
  exists ∅, (λ _, 0%nat). split_and!; [|by intros k a ?%lookup_empty_Some|intros i p E; cbn in E; by apply lookup_empty_Some in E].
  split_and!.
  - constructor; cbn; try done; try apply NoDup_nil_2; set_solver.
  - assert (Ha : ∀ k, arrived k initial_server = []) by (intros k; unfold arrived; cbn; by rewrite lookup_empty).
    assert (Hh : ∀ k n, handling k n initial_server = None) by (intros k n; unfold handling; by rewrite Ha).
    assert (Hl : ∀ k, answering k initial_server = []) by (intros k; unfold answering; cbn; by rewrite lookup_empty).
    constructor; unfold answers; intros *; rewrite ?Hh, ?Hl, ?Ha; cbn; try done; try apply NoDup_nil_2.
    + constructor.
    + by intros ?%elem_of_nil.
    + set_solver.
  - constructor; cbn; try done; intros * []; done.
Qed.

Lemma server_step_ok σ σ' : system_ok σ → server_step σ σ' → system_ok σ' ∧ later (shared σ) (shared σ').
Proof.
  intros Hok Hstep. destruct Hstep as [σ σ' Hstep|e s waiting He].
  - eapply pool_step_ok; [apply _|intros i t; apply server_bodies_ok|done|done].
  - assert (Hk : TaskRules.kept (J := inv) (G := later) (occurs e)).
    { destruct e; [by apply spawned_external_kept|apply connected_socket_kept|apply received_kept]. }
    destruct Hok as (X & who & HI & Hrest). destruct (Hk s X HI) as [_ Hg]. split; [|done].
    eapply (pool_ok_env _ _ _ _ _ (Pool s waiting)); [|done|by exists X, who]. intros Y HY. by apply Hk.
Qed.

Lemma server_steps_ok σ σ' : system_ok σ → rtc server_step σ σ' → system_ok σ' ∧ later (shared σ) (shared σ').
Proof.
  intros Hok Hr. induction Hr as [σ|σ σ1 σ2 Hs Hr IH]; [split; [done|reflexivity]|].
  destruct (server_step_ok _ _ Hok Hs) as [Hok1 HG1]. destruct (IH Hok1) as [Hok2 HG2]. split; [done|by etrans].
Qed.

Lemma server_reachable_ok σ : reachable σ → ∃ X, inv (shared σ) X ∧ (waiting σ = ∅ → X = ∅).
Proof.
  intros Hr. destruct (server_steps_ok _ _ server_initial_ok Hr) as [(X & who & HI & Hown & _) _]. exists X. split; [done|].
  intros Hw. apply map_empty. intros i. destruct (X !! i) as [a|] eqn:E; [|done].
  destruct (Hown _ _ E) as [p Hp]. by rewrite Hw, lookup_empty in Hp.
Qed.
End system.

(** ** Execution *)

Section execution.
Context (serverVersion : string) (maxInboundMessageBytes : Z) (has_jobs : bool).
Context (parse : string → option jsval) (read_command : jsval → option ClientCommand).
Notation body := (body serverVersion maxInboundMessageBytes has_jobs parse read_command).
Notation server_step := (server_step serverVersion maxInboundMessageBytes has_jobs parse read_command).
(** How calls are answered. *)
Context (answers : ∀ c, server_answer c).

Definition resume_answer (s : server) (c : server_call) : option (server_answer c) :=
  match c return option (server_answer c) with
  | AwaitHandled p => if bool_decide (p ∈ sv_settled s) then Some tt else None
  | c => Some (answers c)
  end.
Lemma server_resume_answer_enabled s c r : resume_answer s c = Some r → server_enabled s c r.
Proof. destruct c; cbn; try done. by case_bool_decide. Qed.
Lemma server_sync_enabled s c : server_awaited c = false → server_enabled s c (answers c).
Proof. by destruct c. Qed.

(** One move: an event, or a task begins or goes on. *)
Inductive move := Happens (e : server_event) | Go (i : nat).
Definition exec_move (σ : server_pool) (m : move) : option server_pool :=
  match m with
  | Happens e => if allowed e then Some (Pool (occurs e (shared σ)) (waiting σ)) else None
  | Go i => go server_awaited body sv_ready unready settle answers resume_answer σ i
  end.
Definition exec (σ : server_pool) (moves : list move) : option server_pool :=
  foldl (λ σ m, σ ≫= λ σ, exec_move σ m) (Some σ) moves.

Lemma server_exec_none moves : foldl (λ σ m, σ ≫= λ σ, exec_move σ m) None moves = None.
Proof. by induction moves. Qed.

Lemma server_exec_sound moves σ σ' : exec σ moves = Some σ' → rtc server_step σ σ'.
Proof.
  unfold exec. revert σ. induction moves as [|m moves IH]; intros σ; cbn; [intros [= ->]; constructor|].
  destruct (exec_move σ m) as [σ1|] eqn:E; [|by rewrite server_exec_none]. intros Hm. eapply rtc_l; [|by apply IH].
  destruct σ as [s w]. destruct m as [e|i]; cbn in E.
  - destruct (allowed e) eqn:Et; [|done]. injection E as <-. by constructor.
  - constructor. eapply go_sound; [apply server_sync_enabled|apply server_resume_answer_enabled|exact E].
Qed.
End execution.
