(* ===== verification/SocketServerSafety.v ===== *)
(** What holds of the server's end of the protocol in every state its tasks
    reach: frames are answered in order, once and to the point, and no refresh
    of a history that was asked for is forgotten. *)
From S2P Require Import Prelude JsValues Texts Errors Programs Tasks TaskRules Jobs Protocol Workspaces Commands SocketServer SocketServerInvariant SocketServerBodies SocketServerSystem.
From S2P Require Registry.
#[local] Open Scope string_scope. #[local] Open Scope Z_scope.

(** ** A sample run *)

Module run.
(** Every text is valid JSON but "?", and asks for the history of a workspace. *)
Definition parse (text : string) : option jsval := if String.eqb text "?" then None else Some (VStr text).
Definition read_command (value : jsval) : option ClientCommand :=
  match value with VStr text => Some {| cmd_requestId := text; cmd_input := HistoryList "" |} | _ => None end.
Definition answers (c : server_call) : server_answer c :=
  match c with
  | Service c => sample.services c
  | AwaitHandled _ | Tick | InternalError _ => tt
  | SocketIsOpen _ => true
  | SendShutdown _ _ | CloseForRestart _ | TerminateSocket _ => Ok tt
  end.
Definition exec := exec "1" 1024 true parse read_command answers initial_pool.
Definition frame (text : string) : move := Happens (FrameReceived 0 (Buffer text) false).
(** A socket connects and sends three frames; the second, which is not valid, is
    started before the first is answered; a change of a conversation schedules a
    refresh. *)
Definition moves : list move := [
  Happens SocketConnected; Go 1; frame "a"; frame "?"; frame "b"; Go 3; Go 2; Go 2; Go 2; Go 3; Go 4; Go 4; Go 4;
  Happens (Started (TRegistryEvent (ConversationChanged (@inhabitant _ Registry.record_inhabited)))); Go 5]%nat.
Definition refresh_moves : list move := [Go 7; Go 7; Go 8]%nat.
End run.
Notation run_reachable := (reachable "1" 1024 true run.parse run.read_command).

Definition is_done (σ : server_pool) : bool :=
  match map_to_list (sv_ready (shared σ)), map_to_list (waiting σ) with [], [] => true | _, _ => false end.
Lemma is_done_quiescent σ : is_done σ = true → quiescent σ.
Proof.
  unfold is_done, quiescent. intros H.
  destruct (map_to_list (sv_ready (shared σ))) eqn:E1, (map_to_list (waiting σ)) eqn:E2; try done.
  by apply map_to_list_empty_iff in E1, E2.
Qed.

(** The sample run, and the run that goes on to the end of the refresh. *)
Lemma sample_quiescent : ∃ σ, run_reachable σ ∧ quiescent σ ∧ length (arrived 0 (shared σ)) = 3%nat
  ∧ answering 0 (shared σ) = [(0%nat, MHistory (Some "a") "" []);
      (1%nat, error_message_of (app_error INVALID_COMMAND) None); (2%nat, MHistory (Some "b") "" [])]
  ∧ map_get 0%nat (sv_flows (shared σ)) = Some false ∧ stopping (shared σ) = false.
Proof.
  assert (E : (σ ← run.exec (run.moves ++ run.refresh_moves)%list; let s := shared σ in
    Some (is_done σ, length (arrived 0 s), answering 0 s, map_get 0%nat (sv_flows s), stopping s))
    = Some (true, 3%nat, [(0%nat, MHistory (Some "a") "" []); (1%nat, error_message_of (app_error INVALID_COMMAND) None);
        (2%nat, MHistory (Some "b") "" [])], Some false, false)) by (vm_compute; reflexivity).
  apply bind_Some in E as (σ & Hrun & E). apply server_exec_sound in Hrun. injection E as Ed El Ea Ef Es.
  exists σ. split_and!; try done. by apply is_done_quiescent.
Qed.
Lemma sample_refreshing : ∃ σ, run_reachable σ ∧ sv_disposed (shared σ) = false ∧ hasHistorySubscriber "" (shared σ) = true
  ∧ map_get "" (sv_historyRefreshes (shared σ)) = Some 6%nat.
Proof.
  assert (E : (σ ← run.exec run.moves; let s := shared σ in
    Some (sv_disposed s, hasHistorySubscriber "" s, map_get "" (sv_historyRefreshes s)))
    = Some (false, true, Some 6%nat)) by (vm_compute; reflexivity).
  apply bind_Some in E as (σ & Hrun & E). apply server_exec_sound in Hrun. injection E as Ed Eh Er.
  exists σ. by split_and!.
Qed.

(** ** Properties *)

(** C34: However the handling of frames interleaves with the other sockets, the registry, the jobs and the shutdown, a socket's frames are answered in the order they came, each at most once; an answer is the decoding error of its frame or bears the request identifier of its command; when a frame was answered every earlier one was too, and when nothing is left to run every frame was, unless the server stops or the socket is gone. *)
Theorem frames_are_answered_in_order serverVersion maxInboundMessageBytes has_jobs parse read_command σ :
  reachable serverVersion maxInboundMessageBytes has_jobs parse read_command σ →
  let s := shared σ in
  ∀ k, StronglySorted lt (answers k s)
  ∧ (∀ n m, (n, m) ∈ answering k s →
      ∃ a, arrived k s !! n = Some a ∧ response_to maxInboundMessageBytes parse read_command a m)
  ∧ (∀ n n', n ∈ answers k s → (n' < n)%nat → n' ∈ answers k s ∨ muted k s)
  ∧ (quiescent σ → ∀ n, (n < length (arrived k s))%nat → n ∈ answers k s ∨ muted k s).
Proof.
  intros Hr s k. destruct (server_reachable_ok _ _ _ _ _ _ Hr) as (X & (Hb & Hc & Hl) & HX).
  assert (Hdone : ∀ n p, handling k n s = Some p → p ∈ sv_settled s → n ∈ answers k s ∨ muted k s).
  { intros n p Hp Hs. eapply (ch_done _ _ _ _ _ Hc); [exact Hp|by left]. }
  assert (Hframe : ∀ n, (n < length (arrived k s))%nat → ∃ p, handling k n s = Some p).
  { intros n Hn. destruct (lookup_lt_is_Some_2 _ _ Hn) as [a Ha]. exists (ar_handling a). unfold handling, s. unfold s in Ha. by rewrite Ha. }
  split_and!.
  - apply (ch_increasing _ _ _ _ _ Hc).
  - intros n m Hm. destruct (ch_answered _ _ _ _ _ Hc _ _ _ Hm) as (a & ? & ? & _). by exists a.
  - intros n n' Hn Hlt. apply list_elem_of_fmap in Hn as ([n1 m] & E & Hm). cbn in E. subst n1.
    destruct (ch_answered _ _ _ _ _ Hc _ _ _ Hm) as (a & Ha & _ & H).
    assert (Hh : handling k n s = Some (ar_handling a)) by (unfold handling, s; by rewrite Ha).
    destruct (Hframe n') as [q Hq]; [apply lookup_lt_Some in Ha; unfold s; lia|]. apply (Hdone _ _ Hq). destruct H as [H|H].
    + exact (ch_settled _ _ _ _ _ Hc _ _ _ Hh H _ _ Hlt Hq).
    + exact (ch_turn _ _ _ _ _ Hc _ _ _ _ H eq_refl I _ _ Hlt Hq).
  - intros [Hq Hw] n Hn. destruct (Hframe _ Hn) as [p Hp]. apply (Hdone _ _ Hp).
    destruct (ch_alive _ _ _ _ _ Hc _ _ _ Hp) as [?|[(t & Ht & _)|(ph & H & _)]]; [done|..].
    + unfold s in Ht. by rewrite Hq, lookup_empty in Ht.
    + by rewrite (HX Hw), lookup_empty in H.
Qed.

Lemma frames_are_answered_in_order_witness : ∃ σ, run_reachable σ ∧ ∀ n, (n < 3)%nat → n ∈ answers 0 (shared σ).
Proof.
  destruct sample_quiescent as (σ & Hr & Hq & Hl & _ & Hf & Hs). exists σ. split; [done|].
  destruct (frames_are_answered_in_order "1" 1024 true run.parse run.read_command σ Hr 0%nat) as (_ & _ & _ & H).
  intros n Hn. destruct (H Hq n) as [?|[Hm|Hm]]; [by rewrite Hl|done|congruence|congruence].
Defined.

(** A refresh of a workspace's history that was asked for is never forgotten: as long as the server is not disposed, a change of a workspace with a subscriber leaves an entry that asks for another listing, with a running loop; there is never more than one turn due for a workspace; and when nothing is left to run there is no entry left, so every listing asked for was made or failed. *)
Lemma refreshes_are_not_forgotten serverVersion maxInboundMessageBytes has_jobs parse read_command σ :
  reachable serverVersion maxInboundMessageBytes has_jobs parse read_command σ →
  let s := shared σ in
  (∀ w, sv_disposed s = false → hasHistorySubscriber w s = true → let s' := scheduleHistoryBroadcast w s in
    ∃ a, map_get w (sv_historyRefreshes s') = Some a ∧ refresh_state a s' = {| rf_running := true; rf_requested := true |})
  ∧ (∀ p q w a b, sv_ready s !! p = Some (TRefresh w a) → sv_ready s !! q = Some (TRefresh w b) → sv_disposed s = true ∨ p = q)
  ∧ (quiescent σ → sv_historyRefreshes s = []).
Proof.
  intros Hr s. destruct (server_reachable_ok _ _ _ _ _ _ Hr) as (X & (Hb & Hc & Hl) & HX). split_and!.
  - intros w Hd Hsub. unfold scheduleHistoryBroadcast. rewrite Hd, Hsub. cbn [orb negb]. unfold refresh_entry.
    destruct (map_get w (sv_historyRefreshes s)) as [a|] eqn:Ew.
    + destruct (lo_entry _ _ Hl _ _ Ew) as (Hrun & _). unfold s in Ew |- *. rewrite Hrun. exists a.
      split; [cbn; by rewrite map_get_set, decide_True|].
      unfold refresh_state, set_refresh. cbn. by rewrite lookup_insert_eq.
    + cbv zeta. rewrite refresh_state_set, decide_True by done. cbn [rf_running]. exists (sv_next s).
      split; [cbn; by rewrite map_get_set, decide_True|].
      unfold refresh_state, set_refresh. cbn. by rewrite lookup_insert_eq.
  - intros p q w a b Hp Hq. eapply (lo_once _ _ Hl); by left.
  - intros [Hq Hw]. destruct (sv_historyRefreshes s) as [|[w a] l] eqn:E; [done|].
    destruct (lo_entry _ _ Hl w a) as (_ & _ & p & [Hp|Hp]).
    + unfold s in E. rewrite E. cbn. by rewrite decide_True.
    + unfold s in Hp. by rewrite Hq, lookup_empty in Hp.
    + by rewrite (HX Hw), lookup_empty in Hp.
Qed.

Lemma refreshes_are_not_forgotten_witness : ∃ σ, run_reachable σ ∧
  ∃ a, refresh_state a (scheduleHistoryBroadcast "" (shared σ)) = {| rf_running := true; rf_requested := true |}.
Proof.
  destruct sample_refreshing as (σ & Hr & Hd & Hs & _). exists σ. split; [done|].
  destruct (refreshes_are_not_forgotten "1" 1024 true run.parse run.read_command σ Hr) as (H & _ & _).
  destruct (H "" Hd Hs) as (a & _ & Ha). by exists a.
Defined.
