(* ===== verification/Shutdown.v ===== *)
(** Shutting the process down ([src/server/shutdown.ts], the coordinator of the
    runtimes, [src/server/runtime-coordinator.ts], and the wiring of both in
    [src/server/index.ts]): one operation that closes every admission at once,
    lets the runs stop within the grace period and closes the storage last. *)
From S2P Require Import Prelude JsValues Errors Programs Tasks Jobs Protocol.
#[local] Open Scope string_scope. #[local] Open Scope Z_scope.

(** ** State *)

(** What was done, as the outside sees it. *)
Inductive deed :=
| SearchClosing
| SchedulerClosed | RunnerClosed | HooksClosed | RegistryClosed | RunsAborting
| AttemptsInterrupted (attempts : result thrown (list JobRunState))
| PersistenceSealed (attempts : list JobRunState)
| ClientsNotified | ListenersDisposed | TransportsClosing
| SchedulerDisposing | HooksDisposing | RunnerDisposing | RegistryDisposing
| ClientsTerminated | StorageClosed.

Inductive shutdown_task :=
| TShutdown
(* [Promise.allSettled([aborts]).then(...)] *)
| TGraceful.

(** src/server/runtime-coordinator.ts:49-51 RuntimeCoordinator *)
Record coordinator := { rc_started : bool; rc_abortPromise : bool; rc_disposePromise : bool }.
(** src/server/shutdown.ts:48-49 GracefulShutdown *)
Record process := {
  gs_shutdownPromise : bool;
  gs_disposePromise : bool;
  (* the promise [graceful] is fulfilled *)
  gs_graceful : bool;
  ps_coordinator : coordinator;
  ps_accepting : bool;
  (* the platform: what was done, the tasks and their promises *)
  ps_done : list deed;
  ps_ready : gmap nat shutdown_task;
  ps_settled : gset nat;
  ps_next : nat;
}.
#[export] Instance spread_coordinator : Spread coordinator := λ s, {|
  rc_started := rc_started s; rc_abortPromise := rc_abortPromise s; rc_disposePromise := rc_disposePromise s |}.
#[export] Instance spread_process : Spread process := λ s, {|
  gs_shutdownPromise := gs_shutdownPromise s; gs_disposePromise := gs_disposePromise s; gs_graceful := gs_graceful s;
  ps_coordinator := ps_coordinator s; ps_accepting := ps_accepting s; ps_done := ps_done s; ps_ready := ps_ready s;
  ps_settled := ps_settled s; ps_next := ps_next s |}.
Definition initial_process : process := {|
  gs_shutdownPromise := false; gs_disposePromise := false; gs_graceful := false;
  ps_coordinator := {| rc_started := false; rc_abortPromise := false; rc_disposePromise := false |};
  ps_accepting := true; ps_done := []; ps_ready := ∅; ps_settled := ∅; ps_next := O |}.

(** ** Ports *)

(** What the owners of the runtimes do never throws; the callbacks of the
    transport and of the storage may. *)
Inductive shutdown_call :=
| MarkAllInterrupted
| NotifyClients | DisposeListeners | CloseTransports | TerminateAll | CloseStorage
| ReportError (error : thrown)
(* awaited: the aborted runs, the disposed runtimes and the closed transports,
   whichever way they settle, and the race against the deadline *)
| AbortsSettled | DisposalsSettled | TransportsSettled
| Race.
Definition shutdown_answer (c : shutdown_call) : Type :=
  match c with
  | MarkAllInterrupted => result thrown (list JobRunState)
  | NotifyClients | DisposeListeners | CloseTransports | TerminateAll | CloseStorage => result thrown unit
  | ReportError _ | AbortsSettled | DisposalsSettled | TransportsSettled => unit
  | Race => bool
  end.
Definition shutdown_awaited (c : shutdown_call) : bool :=
  match c with AbortsSettled | DisposalsSettled | TransportsSettled | Race => true | _ => false end.
(** The race is won by the graceful end, or at any time by the deadline. *)
Definition shutdown_enabled (s : process) (c : shutdown_call) : shutdown_answer c → Prop :=
  match c with Race => λ graceful : bool, if graceful then gs_graceful s = true else True | _ => λ _, True end.

Notation act A := (task_stmt shutdown_answer process unit thrown A).
Notation await_ := (Tasks.await_ (ans := shutdown_answer) (S := process) (V := unit) (E := thrown)).
Notation port_ := (Tasks.port_ (ans := shutdown_answer) (S := process) (V := unit) (E := thrown)).
Notation gets_ := (Tasks.gets_ (ans := shutdown_answer) (S := process) (V := unit) (E := thrown)).
Notation update_ := (Tasks.update_ (ans := shutdown_answer) (S := process) (V := unit) (E := thrown)).
Notation throw_ := (Programs.throw_ (ans := at_state (S := process) shutdown_answer) (W := process) (S := process)
  (R := unit) (E := thrown)).
Notation lift_ := (Programs.lift_ (ans := at_state (S := process) shutdown_answer) (W := process) (S := process)
  (R := unit) (E := thrown)).
Notation try_ := (Programs.try_ (ans := at_state (S := process) shutdown_answer) (W := process) (S := process)
  (R := unit) (E := thrown)).

Definition did (d : deed) : act unit := update_ (λ s, s <| ps_done := (ps_done s ++ [d])%list |>).
(** A callback that may throw, once it was called. *)
Definition calls (d : deed) (c : shutdown_call) (f : shutdown_answer c → result thrown unit) : act unit :=
  did d;; answer ← port_ c; lift_ (f answer).
(** [try { m } catch (error) { onError(error) }] *)
Definition guarded (m : act unit) : act unit := try_ m (λ error, port_ (ReportError error)).
Definition set_coordinator (f : coordinator → coordinator) : act unit :=
  update_ (λ s, s <| ps_coordinator := f (ps_coordinator s) |>).

(** ** The coordinator of the runtimes *)

(** src/server/runtime-coordinator.ts:67-92 beginShutdown *)
Definition coordinator_beginShutdown : act unit :=
  started ← gets_ (λ s, rc_started (ps_coordinator s));
  if (started : bool) then mret tt
  else
    set_coordinator (λ c, c <| rc_started := true |>);;
    did SchedulerClosed;; did RunnerClosed;; did HooksClosed;; did RegistryClosed;;
    did RunsAborting;;
    set_coordinator (λ c, c <| rc_abortPromise := true |>);;
    marked ← port_ MarkAllInterrupted;
    did (AttemptsInterrupted marked);;
    did (PersistenceSealed (match marked with Ok interrupted => interrupted | Err _ => [] end));;
    match marked with Ok _ => mret tt | Err error => throw_ error end.

(** Both other operations start with it. *)
(** src/server/runtime-coordinator.ts:102-104 beginShutdown *)
Definition coordinator_begun : act unit :=
  started ← gets_ (λ s, rc_started (ps_coordinator s));
  if (started : bool) then mret tt else guarded coordinator_beginShutdown.

(** The promise it returns is awaited by the caller. *)
(** src/server/runtime-coordinator.ts:94-99 abortActive *)
Definition coordinator_abortActive : act unit := coordinator_begun.

(** src/server/runtime-coordinator.ts:101-116 dispose *)
Definition coordinator_dispose : act unit :=
  coordinator_begun;;
  disposing ← gets_ (λ s, rc_disposePromise (ps_coordinator s));
  if (disposing : bool) then mret tt
  else
    did SchedulerDisposing;; did HooksDisposing;; did RunnerDisposing;; did RegistryDisposing;;
    set_coordinator (λ c, c <| rc_disposePromise := true |>).

(** ** The options of the process *)

(** src/server/shutdown.ts:13-27 GracefulShutdownOptions *)
Record GracefulShutdownOptions := {
  o_beginShutdown : act unit;
  o_stopAccepting : act unit;
  o_notifyAndCloseClients : act unit;
  o_closeTransports : act unit;
  o_abortActive : act unit;
  o_disposeRuntimes : act unit;
  o_disposeListeners : act unit;
  o_closeStorage : act unit;
  o_forceClose : act unit;
}.
(** With the protocol's services, as production has them. *)
(** src/server/index.ts:352-355 beginShutdown *)
Definition close_admission : act unit := did SearchClosing;; coordinator_beginShutdown.
(** src/server/index.ts:359-363 notifyAndCloseClients *)
Definition notify_clients : act unit := calls ClientsNotified NotifyClients id.
(** src/server/index.ts:381-397 gracefulShutdown *)
Definition process_options : GracefulShutdownOptions := {|
  o_beginShutdown := close_admission;
  o_stopAccepting := update_ (λ s, s <| ps_accepting := false |>);
  o_notifyAndCloseClients := notify_clients;
  o_closeTransports := calls TransportsClosing CloseTransports id;
  o_abortActive := did SearchClosing;; coordinator_abortActive;
  o_disposeRuntimes := coordinator_dispose;
  o_disposeListeners := calls ListenersDisposed DisposeListeners id;
  o_closeStorage := calls StorageClosed CloseStorage id;
  o_forceClose := calls ClientsTerminated TerminateAll id;
|}.

(** ** The shutdown *)

Section shutdown.
Context (options : GracefulShutdownOptions).

(** src/server/shutdown.ts:33-38 validateGracePeriod *)
Definition validateGracePeriod (milliseconds : Z) : bool := isSafeInteger milliseconds && negb (milliseconds <=? 0).

(** src/server/shutdown.ts:68-81 #disposeRuntimes *)
Definition disposeRuntimes : act unit :=
  disposing ← gets_ gs_disposePromise;
  if (disposing : bool) then mret tt
  else
    guarded (o_disposeRuntimes options);;
    update_ (λ s, s <| gs_disposePromise := true |>).

Definition spawned (t : shutdown_task) (s : process) : process :=
  s <| ps_ready := <[ps_next s := t]> (ps_ready s) |> <| ps_next := S (ps_next s) |>.

(** What rejected promises report when they settle is left out. *)
(** src/server/shutdown.ts:127-130 graceful *)
Definition graceful_body : act unit :=
  await_ AbortsSettled;;
  disposeRuntimes;;
  await_ DisposalsSettled;;
  await_ TransportsSettled;;
  update_ (λ s, s <| gs_graceful := true |>).

(** What happens at once. *)
(** src/server/shutdown.ts:83-127 #run *)
Definition opening : act unit :=
  guarded (o_beginShutdown options);;
  guarded (o_stopAccepting options);;
  guarded (o_notifyAndCloseClients options);;
  guarded (o_disposeListeners options);;
  guarded (o_closeTransports options);;
  guarded (o_abortActive options);;
  update_ (spawned TGraceful).

(** src/server/shutdown.ts:145-164 closeStorage *)
Definition closing (completedGracefully : bool) : act unit :=
  (if completedGracefully then mret tt else disposeRuntimes;; guarded (o_forceClose options));;
  guarded (o_closeStorage options).

(** The race between the graceful end and the deadline; the field holds the
    promise once the call has returned it. *)
(** src/server/shutdown.ts:62-66 shutdown *)
Definition shutdown_body : act unit :=
  started ← gets_ gs_shutdownPromise;
  if (started : bool) then mret tt
  else
    opening;;
    update_ (λ s, s <| gs_shutdownPromise := true |>);;
    completedGracefully ← await_ Race;
    closing completedGracefully.

Definition body (t : shutdown_task) : act unit :=
  match t with TShutdown => shutdown_body | TGraceful => graceful_body end.
Definition unready (promise : nat) (s : process) : process := s <| ps_ready := delete promise (ps_ready s) |>.
Definition settle (promise : nat) (o : outcome unit thrown unit) (s : process) : process :=
  s <| ps_settled := {[promise]} ∪ ps_settled s |>.
End shutdown.

(** What holds of the shutdown of the process in every state its tasks reach:
    the order of what is done, and that the deadline bounds it. *)
From S2P Require Import TaskRules.
#[local] Open Scope string_scope. #[local] Open Scope Z_scope.

Notation process_body := (body process_options).
Notation process_closing := (closing process_options).

(** ** The order of what is done *)

Definition sealed_with (marked : result thrown (list JobRunState)) : list JobRunState :=
  match marked with Ok interrupted => interrupted | Err _ => [] end.
(** What happens before the first wait: every admission is closed and the
    persistence of attempts is sealed before anybody is notified. *)
Definition opening_deeds (marked : result thrown (list JobRunState)) : list deed :=
  [SearchClosing; SchedulerClosed; RunnerClosed; HooksClosed; RegistryClosed; RunsAborting; AttemptsInterrupted marked;
   PersistenceSealed (sealed_with marked); ClientsNotified; ListenersDisposed; TransportsClosing; SearchClosing].
Definition disposal_deeds : list deed := [SchedulerDisposing; HooksDisposing; RunnerDisposing; RegistryDisposing].

(** Where the shutdown is: not begun, waiting, or done, within the grace period or not. *)
Inductive stage := NotBegun | Waiting (disposing : bool) | Done (in_time : bool).
Definition deeds_at (marked : result thrown (list JobRunState)) (g : stage) : list deed :=
  match g with
  | NotBegun => []
  | Waiting disposing => opening_deeds marked ++ (if disposing then disposal_deeds else [])
  | Done in_time => opening_deeds marked ++ disposal_deeds ++ (if in_time then [] else [ClientsTerminated]) ++ [StorageClosed]
  end%list.

(** ** The invariant *)

Inductive wait := Racing.
Notation claims := (gmap nat wait).

Definition fresh (s : process) : Prop :=
  gs_shutdownPromise s = false ∧ gs_disposePromise s = false ∧ gs_graceful s = false ∧ ps_done s = []
  ∧ rc_started (ps_coordinator s) = false ∧ rc_disposePromise (ps_coordinator s) = false.
Record begun (s : process) (g : stage) : Prop := {
  bg_promise : gs_shutdownPromise s = true;
  bg_started : rc_started (ps_coordinator s) = true;
  bg_accepting : ps_accepting s = false;
  bg_disposing : gs_disposePromise s = rc_disposePromise (ps_coordinator s);
  bg_graceful : gs_graceful s = true → gs_disposePromise s = true;
  bg_stage : match g with NotBegun => False | Waiting d => gs_disposePromise s = d | Done _ => gs_disposePromise s = true end;
  bg_done : ∃ marked, ps_done s = deeds_at marked g;
}.

Definition inv (s : process) (X : claims) : Prop :=
  (∀ p, ps_ready s !! p = Some TGraceful → gs_shutdownPromise s = true)
  ∧ (fresh s ∧ X = ∅
     ∨ (∃ d, begun s (Waiting d) ∧ ∃ i, X = {[i := Racing]})
     ∨ (∃ b, begun s (Done b) ∧ X = ∅)).
Record later (s s' : process) : Prop := {
  la_promise : gs_shutdownPromise s = true → gs_shutdownPromise s' = true;
  la_disposing : gs_disposePromise s = true → gs_disposePromise s' = true;
  la_graceful : gs_graceful s = true → gs_graceful s' = true;
  la_done : ps_done s `prefix_of` ps_done s';
}.
#[export] Instance process_later_preorder : PreOrder later.
Proof. split; [by constructor|]. intros s1 s2 s3 [] []. constructor; auto. by etrans. Qed.

Notation wpc := (Tasks.wpc (V := unit) (E := thrown) shutdown_awaited shutdown_enabled inv later).
Notation holds := (holds (J := inv) (G := later)).
Notation stable := (TaskRules.stable later).
Notation triple := (triple (awaited := shutdown_awaited) (enabled := shutdown_enabled) (J := inv) (G := later)
  (V := unit) (E := thrown)).
Notation never := (TaskRules.never (S := process) (V := unit) (K := nat) (B := wait)).

(** ** Statements that do not wait *)

(** From [s], [m] falls through without waiting, in a state that satisfies [P],
    whatever its calls answer. *)
Definition leads (m : act unit) (s : process) (P : process → Prop) : Prop :=
  ∀ Q st f, (∀ s', P s' → Q (Next tt) st s' f) → wpc st f (m s) Q.

Lemma leads_bind m (k : act unit) s P P' : leads m s P → (∀ s', P s' → leads k s' P') → leads (m;; k) s P'.
Proof.
  intros Hm Hk Q st f HQ. unfold mbind, stmt_bind. apply wpc_bind. apply Hm. intros s' Hs'. cbn. by apply Hk.
Qed.
Lemma leads_mono m s (P P' : process → Prop) : leads m s P → (∀ s', P s' → P' s') → leads m s P'.
Proof. intros Hm HP Q st f HQ. apply Hm. auto. Qed.
Lemma leads_update f s (P : process → Prop) : P (f s) → leads (update_ f) s P.
Proof. intros HP Q st fr HQ. cbn. by apply HQ. Qed.
Lemma leads_ret s (P : process → Prop) : P s → leads (mret tt) s P.
Proof. intros HP Q st fr HQ. cbn. by apply HQ. Qed.
Lemma leads_if (g : process → bool) (m k : act unit) s P :
  leads (if g s then m else k) s P → leads (b ← gets_ g; if (b : bool) then m else k) s P.
Proof. done. Qed.

Ltac steps :=
  unfold guarded, calls, did, set_coordinator, Programs.try_, Tasks.port_, Tasks.update_, Tasks.gets_, Programs.lift_,
    Programs.throw_, mbind, stmt_bind, mret, stmt_ret; cbn.

(** Nothing changes but what was done. *)
Definition after (l : list deed) (s s' : process) : Prop := s' = s <| ps_done := (ps_done s ++ l)%list |>.

Lemma leads_call d c (f : shutdown_answer c → result thrown unit) s :
  shutdown_awaited c = false → leads (guarded (calls d c f)) s (after [d] s).
Proof.
  intros Hc Q st fr HQ. steps. rewrite Hc. intros r _. destruct (f r) as [[]|]; steps; [by apply HQ|]. intros [] _. by apply HQ.
Qed.

Lemma leads_coordinator s :
  rc_started (ps_coordinator s) = false →
  leads (guarded close_admission) s (λ s', ∃ marked,
    s' = s <| ps_done := (ps_done s ++ take 8 (opening_deeds marked))%list |>
           <| ps_coordinator := (ps_coordinator s) <| rc_started := true |> <| rc_abortPromise := true |> |>).
Proof.
  intros Hs Q st fr HQ. unfold close_admission, guarded, coordinator_beginShutdown.
  steps. rewrite Hs. steps. intros marked _. destruct marked as [l|e]; steps; [apply HQ|intros [] _; apply HQ].
  - exists (Ok l). by rewrite <-!app_assoc.
  - exists (Err e). by rewrite <-!app_assoc.
Qed.

(** Disposing of the runtimes, once. *)
Lemma leads_dispose s :
  rc_started (ps_coordinator s) = true → gs_disposePromise s = rc_disposePromise (ps_coordinator s) →
  leads (disposeRuntimes process_options) s (λ s',
    s' = if gs_disposePromise s then s
         else s <| ps_done := (ps_done s ++ disposal_deeds)%list |>
                <| ps_coordinator := (ps_coordinator s) <| rc_disposePromise := true |> |>
                <| gs_disposePromise := true |>).
Proof.
  intros Hs Hd. unfold disposeRuntimes. apply leads_if. destruct (gs_disposePromise s) eqn:E; [by apply leads_ret|].
  change (o_disposeRuntimes process_options) with coordinator_dispose.
  intros Q st fr HQ. unfold guarded, coordinator_dispose, coordinator_begun. steps. rewrite Hs. steps. rewrite <-Hd. steps.
  apply HQ. by rewrite <-!app_assoc.
Qed.

(** The part before the first wait, all of it. *)
Lemma leads_opening s :
  fresh s →
  leads (opening process_options) s (λ s', ∃ marked,
    s' = spawned TGraceful (s <| ps_done := opening_deeds marked |> <| ps_accepting := false |>
           <| ps_coordinator := (ps_coordinator s) <| rc_started := true |> <| rc_abortPromise := true |> |>)).
Proof.
  intros (_ & _ & _ & Hdone & Hrs & _). unfold opening.
  eapply leads_bind; [by apply leads_coordinator|]. intros s1 (marked & E1). rewrite Hdone in E1.
  eapply leads_bind; [by apply (leads_update _ _ (λ s', s' = s1 <| ps_accepting := false |>))|]. intros s2 E2.
  eapply leads_bind; [by apply (leads_call ClientsNotified NotifyClients id)|]. intros s3 E3.
  eapply leads_bind; [by apply (leads_call ListenersDisposed DisposeListeners id)|]. intros s4 E4.
  eapply leads_bind; [by apply (leads_call TransportsClosing CloseTransports id)|]. intros s5 E5.
  eapply (leads_bind _ _ _ (λ s', s' = s5 <| ps_done := (ps_done s5 ++ [SearchClosing])%list |>)).
  - intros Q st fr HQ.
    change (o_abortActive process_options) with (did SearchClosing;; coordinator_abortActive).
    unfold coordinator_abortActive, coordinator_begun. steps.
    assert (Hr : rc_started (ps_coordinator s5) = true) by (unfold after in *; by subst s5 s4 s3 s2 s1).
    rewrite Hr. steps. by apply HQ.
  - intros s6 E6. apply leads_update. exists marked. unfold after in *. subst s6 s5 s4 s3 s2 s1. by destruct s.
Qed.

(** ** The bodies *)

Lemma disposing_kept s d :
  begun s (Waiting d) → begun (if gs_disposePromise s then s
         else s <| ps_done := (ps_done s ++ disposal_deeds)%list |>
                <| ps_coordinator := (ps_coordinator s) <| rc_disposePromise := true |> |>
                <| gs_disposePromise := true |>) (Waiting true).
Proof.
  intros []. destruct (gs_disposePromise s) eqn:E.
  - destruct d; [|congruence]. by constructor; rewrite ?E.
  - destruct d; [congruence|]. constructor; cbn; try done. destruct bg_done0 as (marked & ->). exists marked.
    done.
Qed.

(** A change the waiting shutdown allows. *)
Lemma graceful_dispose_kept s X :
  inv s X → gs_shutdownPromise s = true → let s' := (if gs_disposePromise s then s
         else s <| ps_done := (ps_done s ++ disposal_deeds)%list |>
                <| ps_coordinator := (ps_coordinator s) <| rc_disposePromise := true |> |>
                <| gs_disposePromise := true |>) in
  inv s' X ∧ later s s' ∧ gs_disposePromise s' = true ∧ gs_shutdownPromise s' = true.
Proof.
  intros [Hg HI] Hp s'.
  assert (Hs' : ps_ready s' = ps_ready s ∧ gs_shutdownPromise s' = true ∧ gs_disposePromise s' = true ∧ later s s').
  { subst s'. destruct (gs_disposePromise s) eqn:E; split_and!; try done. constructor; try done. cbn. by eexists. }
  destruct Hs' as (Hr & Hp' & Hd' & Hla). split_and!; [|done..]. split; [by rewrite Hr|].
  destruct HI as [[Hf _]|[(d & Hb & Hi)|(b & Hb & HX)]].
  - destruct Hf as (? & _). congruence.
  - right. left. exists true. split; [by eapply disposing_kept|done].
  - right. right. exists b. split; [|done]. subst s'. by rewrite (bg_stage _ _ Hb).
Qed.

Lemma triple_leads own φ (m : act unit) (g : process → process → Prop) :
  (∀ s, φ s → ∀ X, inv s X → leads m s (g s)) → (∀ s s' X, inv s X → φ s → g s s' → inv s' X ∧ later s s' ∧ φ s') →
  triple never (λ _ _ _ _, False) (holds own φ) m (λ _, holds own φ).
Proof.
  intros Hm Hg st s f (Hd & HI & Hl & Hs). eapply Hm; [done|exact HI|]. intros s' Hs'.
  destruct (Hg _ _ _ HI Hs Hs') as (? & ? & ?). split_and!; [done..|by etrans|done].
Qed.

Lemma inv_started s X : inv s X → gs_shutdownPromise s = true → ∃ g, begun s g.
Proof. intros [_ [[(? & _) _]|[(d & ? & _)|(b & ? & _)]]] Hp; [congruence|by eexists..]. Qed.

Lemma graceful_kept s X : inv s X → gs_disposePromise s = true → inv (s <| gs_graceful := true |>) X ∧ later s (s <| gs_graceful := true |>).
Proof.
  intros [Hg HI] Hd. split; [|by constructor]. split; [done|].
  destruct HI as [[Hf _]|[(d & Hb & Hi)|(b & Hb & HX)]].
  - destruct Hf as (_ & ? & _). congruence.
  - right. left. exists d. split; [|done]. destruct Hb. by constructor.
  - right. right. exists b. split; [|done]. destruct Hb. by constructor.
Qed.

Lemma graceful_triple :
  triple never (λ _ _ _ _, False) (holds ∅ (λ s, gs_shutdownPromise s = true)) (graceful_body process_options)
    (λ _, holds ∅ (λ _, True)).
Proof.
  assert (Hp : stable (λ s, gs_shutdownPromise s = true)) by (intros s s' ? Hl; by apply Hl).
  assert (Hd : stable (λ s, gs_disposePromise s = true)) by (intros s s' ? Hl; by apply Hl).
  assert (Hwait : ∀ c φ, shutdown_awaited c = true → stable φ →
    triple never (λ _ _ _ _, False) (holds ∅ φ) (await_ c) (λ _, holds ∅ φ)).
  { intros c φ Hc Hφ. eapply triple_weaken; [done| |by apply triple_await_stable]. intros r st s f. apply holds_mono. by intros ? [? _]. }
  unfold graceful_body. eapply triple_bind; [by apply Hwait|]. intros x.
  eapply (triple_bind _ _ _ (λ _, holds ∅ (λ s, gs_disposePromise s = true))).
  { intros st s f (Hdi & HI & Hl & Hs). destruct (inv_started _ _ HI Hs) as [g Hb].
    apply (leads_dispose s (bg_started _ _ Hb) (bg_disposing _ _ Hb)). intros s' Es. cbn. rewrite Es.
    destruct (graceful_dispose_kept _ _ HI Hs) as (? & ? & ? & ?). split_and!; [done..|by etrans|done]. }
  intros y. eapply triple_bind; [by apply Hwait|]. intros z. eapply triple_bind; [by apply Hwait|]. intros v.
  apply triple_update. intros st s f (Hdi & HI & Hl & Hs). destruct (graceful_kept _ _ HI Hs).
  split_and!; [done..|by etrans|done].
Qed.

Lemma leads_closing s d in_time :
  begun s (Waiting d) → (in_time = true → gs_graceful s = true) →
  leads (process_closing in_time) s (λ s', begun s' (Done in_time) ∧ ps_ready s' = ps_ready s ∧ later s s').
Proof.
  intros Hb Hin. unfold closing.
  set (before := λ s', ps_ready s' = ps_ready s ∧ later s s' ∧ ∃ s1 : process, begun s1 (Waiting true)
    ∧ s' = s1 <| ps_done := (ps_done s1 ++ (if in_time then [] else [ClientsTerminated]))%list |>).
  eapply (leads_bind _ _ _ before).
  - destruct in_time.
    + apply leads_ret. destruct (Hb) as [_ _ _ _ Hg Hst _]. specialize (Hg (Hin eq_refl)).
      assert (d = true) as -> by congruence. split_and!; [done..|]. exists s. split; [done|]. rewrite app_nil_r. by destruct s.
    + eapply leads_bind; [apply leads_dispose; apply Hb|]. intros s1 Es1.
      assert (H1 : begun s1 (Waiting true) ∧ ps_ready s1 = ps_ready s ∧ later s s1).
      { rewrite Es1. split; [by eapply disposing_kept|]. destruct (gs_disposePromise s) eqn:E; [done|].
        split; [done|]. constructor; try done. cbn. by eexists. }
      destruct H1 as (Hb1 & Hr1 & Hl1).
      eapply leads_mono; [by apply (leads_call ClientsTerminated TerminateAll id)|]. intros s' Es. unfold after in Es. subst s'.
      split_and!; [done|etrans; [exact Hl1|constructor; try done; cbn; by eexists]|by exists s1].
  - intros s2 (Hr & Hl & s1 & [] & ->).
    eapply leads_mono; [by apply (leads_call StorageClosed CloseStorage id)|]. intros s' Es. unfold after in Es. subst s'.
    split_and!; [|done|etrans; [exact Hl|constructor; try done; cbn; by eexists]].
    constructor; cbn; try done. destruct bg_done0 as (marked & Hdone). exists marked. rewrite Hdone. cbn. by destruct in_time.
Qed.

Lemma racing_owned i j (f : claims) : {[i := Racing]} ##ₘ f → {[i := Racing]} ∪ f = {[j := Racing]} → f = ∅.
Proof.
  intros Hd%map_disjoint_singleton_l E. apply map_empty. intros k. destruct (f !! k) as [[]|] eqn:Ek; [|done].
  assert (Hk : ({[i := Racing]} ∪ f) !! k = Some Racing) by (rewrite lookup_union_r; [done|]; apply lookup_singleton_ne; congruence).
  assert (Hi : ({[i := Racing]} ∪ f) !! i = Some Racing) by (by apply lookup_union_Some_l; rewrite lookup_singleton_eq).
  rewrite E in Hk, Hi. apply lookup_singleton_Some in Hk as [<- _], Hi as [<- _]. congruence.
Qed.

Lemma shutdown_triple (i : nat) :
  triple never (λ _ _ _ _, False) (λ st s f, inv s f ∧ later st s) (shutdown_body process_options)
    (λ _ st s f, inv s f ∧ later st s).
Proof.
  unfold shutdown_body. eapply triple_bind; [apply triple_gets|]. intros started. cbn beta. apply triple_if; intros Es.
  { apply triple_ret. by intros st s f []. }
  eapply (triple_bind _ _ _ (λ _ st s f, f = ∅ ∧ later st s ∧
    begun (s <| gs_shutdownPromise := true |>) (Waiting false) ∧ later st (s <| gs_shutdownPromise := true |>))).
  { intros st s f ([[Hg HI] Hl] & Ep). rewrite Es in Ep.
    destruct HI as [[Hf ->]|[(d & Hb & _)|(b & Hb & _)]]; [|pose proof (bg_promise _ _ Hb); congruence..].
    apply (leads_opening s Hf). intros s1 (marked & E1). destruct Hf as (? & Hd & Hgr & Hdone & _ & Hrd).
    assert (Hl1 : later s s1).
    { rewrite E1. constructor; try done. rewrite Hdone. by apply prefix_nil. }
    split_and!; [done|by etrans| |].
    - rewrite E1. constructor; cbn; try done; [by rewrite Hd, Hrd|congruence|by exists marked].
    - etrans; [exact Hl|]. etrans; [exact Hl1|]. by constructor. }
  intros u. eapply (triple_bind _ _ _ (λ _, holds {[i := Racing]} (λ s, gs_shutdownPromise s = true))).
  { apply triple_update. intros st s f (-> & _ & Hb & Hl). split_and!; [apply map_disjoint_empty_r| |done|done].
    rewrite map_union_empty. split; [done|]. right. left. exists false. split; [done|by exists i]. }
  intros v. eapply triple_bind.
  { refine (triple_await_stable Race {[i := Racing]} (λ s, gs_shutdownPromise s = true) eq_refl _). intros s s' Hs Hl. by apply Hl. }
  intros r st s f (Hd & [Hg HI] & Hl & Hp & Hr).
  assert (H : ∃ d, begun s (Waiting d) ∧ f = ∅).
  { destruct HI as [[Hf _]|[(d & Hb & j & E)|(b & Hb & E)]].
    - destruct Hf. congruence.
    - exists d. split; [done|]. by eapply racing_owned.
    - assert (Hi : ({[i := Racing]} ∪ f) !! i = Some Racing) by (by apply lookup_union_Some_l; rewrite lookup_singleton_eq).
      by rewrite E, lookup_empty in Hi. }
  destruct H as (d & Hb & ->). apply (leads_closing s d r Hb); [intros Er; rewrite Er in Hr; exact Hr|].
  intros s4 (Hb4 & Hr4 & Hl4). split; [|by etrans]. split; [intros p _; apply Hb4|]. right. right. by exists r.
Qed.

Lemma shutdown_settle_kept i o s X : inv s X → inv (settle i o s) X ∧ later s (settle i o s).
Proof.
  intros [Hg HI]. split; [|by constructor]. split; [done|].
  destruct HI as [[Hf HX]|[(d & Hb & Hi)|(b & Hb & HX)]]; [by left|right; left; exists d|right; right; exists b];
    (split; [|done]); destruct Hb; by constructor.
Qed.
Lemma shutdown_unready_kept i s X : inv s X → inv (unready i s) X ∧ later s (unready i s).
Proof.
  intros [Hg HI]. split; [|by constructor]. split; [intros p Hp; cbn in Hp; apply lookup_delete_Some in Hp as [_ Hp]; by eapply Hg|].
  destruct HI as [[Hf HX]|[(d & Hb & Hi)|(b & Hb & HX)]]; [by left|right; left; exists d|right; right; exists b];
    (split; [|done]); destruct Hb; by constructor.
Qed.

Lemma shutdown_bodies_ok i t : body_ok shutdown_awaited shutdown_enabled process_body ps_ready unready settle inv later i t.
Proof.
  intros s f HI Ht. destruct (shutdown_unready_kept i s f HI) as [HI' Hl'].
  assert (Hends : ∀ o st s' f', inv s' f' ∧ later st s' → ends settle inv later i o st s' f').
  { intros o st s' f' [H1 H2]. destruct (shutdown_settle_kept i o s' f' H1). split; [done|by etrans]. }
  destruct t.
  - eapply wpc_mono; [|by apply (shutdown_triple i)]. intros [v|v|e] st s' f' H; [by apply Hends|done|done].
  - eapply wpc_mono; [|apply graceful_triple].
    + intros [v|v|e] st s' f' H; [|done|done]. destruct H as (_ & H1 & H2 & _). apply Hends. by rewrite map_empty_union in H1.
    + split_and!; [apply map_disjoint_empty_l|by rewrite map_empty_union|done|]. by apply (proj1 HI i).
Qed.

(** ** The system *)

Definition shutdown_pool : Type :=
  pool (C := shutdown_call) (ans := shutdown_answer) (S := process) (V := unit) (E := thrown).
Definition initial_pool : shutdown_pool := Pool initial_process ∅.

(** A task runs to its next await; or somebody asks for the shutdown, any number
    of times. *)
Inductive process_step : shutdown_pool → shutdown_pool → Prop :=
| RunTask σ σ' : pool_step shutdown_awaited shutdown_enabled process_body ps_ready unready settle σ σ' → process_step σ σ'
| AskShutdown s waiting : process_step (Pool s waiting) (Pool (spawned TShutdown s) waiting).

Definition reachable (σ : shutdown_pool) : Prop := rtc process_step initial_pool σ.
Definition quiescent (σ : shutdown_pool) : Prop := ps_ready (shared σ) = ∅ ∧ waiting σ = ∅.
Definition system_ok (σ : shutdown_pool) : Prop := pool_ok shutdown_awaited shutdown_enabled settle inv later σ.

Lemma process_initial_ok : system_ok initial_pool.
Proof.
  exists ∅, (λ _, 0%nat). split_and!; [|by intros k a ?%lookup_empty_Some|intros i p E; cbn in E; by apply lookup_empty_Some in E].
  split; [intros p Hp; cbn in Hp; by apply lookup_empty_Some in Hp|by left].
Qed.

Lemma process_step_ok σ σ' : system_ok σ → process_step σ σ' → system_ok σ' ∧ later (shared σ) (shared σ').
Proof.
  intros Hok Hstep. destruct Hstep as [σ σ' Hstep|s waiting].
  - eapply pool_step_ok; [apply _|apply shutdown_bodies_ok|done|done].
  - assert (Hk : ∀ X, inv s X → inv (spawned TShutdown s) X).
    { intros X [Hg HI]. split; [intros p Hp; cbn in Hp; apply lookup_insert_Some in Hp as [[_ ?]|[_ Hp]]; [done|by eapply Hg]|].
      destruct HI as [[Hf HX]|[(d & Hb & Hi)|(b & Hb & HX)]]; [by left|right; left; exists d|right; right; exists b];
        (split; [|done]); destruct Hb; by constructor. }
    assert (Hl : later s (spawned TShutdown s)) by by constructor. split; [|done].
    by eapply (pool_ok_env _ _ _ _ _ (Pool s waiting)).
Qed.

Lemma process_steps_ok σ σ' : system_ok σ → rtc process_step σ σ' → system_ok σ' ∧ later (shared σ) (shared σ').
Proof.
  intros Hok Hr. induction Hr as [σ|σ σ1 σ2 Hs Hr IH]; [split; [done|reflexivity]|].
  destruct (process_step_ok _ _ Hok Hs) as [Hok1 HG1]. destruct (IH Hok1) as [Hok2 HG2]. split; [done|by etrans].
Qed.

Lemma process_reachable_ok σ : reachable σ → ∃ X, inv (shared σ) X ∧ (waiting σ = ∅ → X = ∅).
Proof.
  intros Hr. destruct (process_steps_ok _ _ process_initial_ok Hr) as [(X & who & HI & Hown & _) _]. exists X. split; [done|].
  intros Hw. apply map_empty. intros i. destruct (X !! i) as [a|] eqn:E; [|done].
  destruct (Hown _ _ E) as [p Hp]. by rewrite Hw, lookup_empty in Hp.
Qed.

(** ** Execution *)

Module run.
(** Marking the attempts fails; everything else succeeds, and the race ends as given. *)
Definition answers (graceful : bool) (c : shutdown_call) : shutdown_answer c :=
  match c with
  | MarkAllInterrupted => Err (app_error DATABASE_ERROR)
  | NotifyClients | DisposeListeners | CloseTransports | TerminateAll | CloseStorage => Ok tt
  | ReportError _ | AbortsSettled | DisposalsSettled | TransportsSettled => tt
  | Race => graceful
  end.
Definition resume (graceful : bool) (s : process) (c : shutdown_call) : option (shutdown_answer c) :=
  match c with
  | Race => if graceful then (if gs_graceful s then Some true else None) else Some false
  | c => Some (answers graceful c)
  end.
Inductive move := Ask | Go (i : nat).
Definition exec_move (graceful : bool) (σ : shutdown_pool) (m : move) : option shutdown_pool :=
  match m with
  | Ask => Some (Pool (spawned TShutdown (shared σ)) (waiting σ))
  | Go i => go shutdown_awaited process_body ps_ready unready settle (answers graceful) (resume graceful) σ i
  end.
Definition exec (graceful : bool) (moves : list move) : option shutdown_pool :=
  foldl (λ σ m, σ ≫= λ σ, exec_move graceful σ m) (Some initial_pool) moves.

Lemma process_exec_none graceful moves : foldl (λ σ m, σ ≫= λ σ, exec_move graceful σ m) None moves = None.
Proof. by induction moves. Qed.
Lemma process_exec_sound graceful moves σ : exec graceful moves = Some σ → reachable σ.
Proof.
  unfold exec, reachable. generalize initial_pool. induction moves as [|m moves IH]; intros σ0; cbn; [intros [= ->]; constructor|].
  destruct (exec_move graceful σ0 m) as [σ1|] eqn:E; [|by rewrite process_exec_none]. intros Hm. eapply rtc_l; [|by apply IH].
  destruct σ0 as [s w]. destruct m as [|i]; cbn in E.
  - injection E as <-. apply AskShutdown.
  - apply RunTask. eapply go_sound; [| |exact E].
    + by intros s' [].
    + intros s' [] r; try done. cbn. destruct graceful; [|by intros [= <-]]. destruct (gs_graceful s'); [by intros [= <-]|done].
Qed.
End run.

Definition is_done (σ : shutdown_pool) : bool :=
  match map_to_list (ps_ready (shared σ)), map_to_list (waiting σ) with [], [] => true | _, _ => false end.
Lemma shutdown_is_done_quiescent σ : is_done σ = true → quiescent σ.
Proof.
  unfold is_done, quiescent. intros H.
  destruct (map_to_list (ps_ready (shared σ))) eqn:E1, (map_to_list (waiting σ)) eqn:E2; try done.
  by apply map_to_list_empty_iff in E1, E2.
Qed.

(** Two requests, the deadline before the aborted runs settle. *)
Lemma sample_shutdown : ∃ σ, reachable σ ∧ quiescent σ ∧ gs_shutdownPromise (shared σ) = true.
Proof.
  assert (E : (σ ← run.exec false [run.Ask; run.Ask; run.Go 0; run.Go 1; run.Go 0; run.Go 2; run.Go 2; run.Go 2; run.Go 2]%nat;
    Some (is_done σ, gs_shutdownPromise (shared σ))) = Some (true, true)) by (vm_compute; reflexivity).
  apply bind_Some in E as (σ & Hrun & E). injection E as Ed Es. exists σ.
  split_and!; [by eapply run.process_exec_sound|by apply shutdown_is_done_quiescent|done].
Qed.
Lemma sample_waiting : ∃ σ, reachable σ ∧ gs_shutdownPromise (shared σ) = true ∧ existsb (λ d, match d with StorageClosed => true | _ => false end) (ps_done (shared σ)) = false.
Proof.
  assert (E : (σ ← run.exec false [run.Ask; run.Go 0]%nat; Some (gs_shutdownPromise (shared σ),
    existsb (λ d, match d with StorageClosed => true | _ => false end) (ps_done (shared σ)))) = Some (true, false)) by (vm_compute; reflexivity).
  apply bind_Some in E as (σ & Hrun & E). injection E as Ed Es. exists σ. split_and!; [by eapply run.process_exec_sound|done..].
Qed.

(** ** Properties *)

(** C37: However often the shutdown is asked for and whatever fails or settles when, what the process does follows one order: every admission is closed, then the attempts are marked interrupted and their persistence sealed with exactly those, all before the clients are notified and before anything is waited for; the runtimes are disposed of once; the clients are terminated only when the deadline won; and the storage is closed once, last of all. Once the shutdown was begun nothing is accepted, and when nothing is left to run the storage is closed. *)
Theorem shutdown_follows_its_order σ :
  reachable σ → let s := shared σ in
  ∃ marked g, ps_done s = deeds_at marked g
    ∧ (gs_shutdownPromise s = false ↔ g = NotBegun)
    ∧ (gs_shutdownPromise s = true → ps_accepting s = false)
    ∧ (quiescent σ → gs_shutdownPromise s = true → ∃ in_time, g = Done in_time).
Proof.
  intros Hr s. destruct (process_reachable_ok _ Hr) as (X & [_ HI] & HX).
  destruct HI as [[(Hp & _ & _ & Hd & _) _]|[(d & [] & i & E)|(b & [] & _)]].
  - exists (Ok []), NotBegun. split_and!; [done|done|unfold s; congruence|unfold s; congruence].
  - destruct bg_done0 as (marked & Hd). exists marked, (Waiting d). split_and!; [exact Hd|unfold s; split; congruence|done|].
    intros [_ Hw]. specialize (HX Hw). rewrite HX in E. pose proof (lookup_singleton_eq i Racing) as H.
    by rewrite <-E, lookup_empty in H.
  - destruct bg_done0 as (marked & Hd). exists marked, (Done b). split_and!; [exact Hd|unfold s; split; congruence|done|by exists b].
Qed.

Lemma shutdown_follows_its_order_witness : ∃ σ marked in_time, reachable σ ∧ ps_done (shared σ) = deeds_at marked (Done in_time).
Proof.
  destruct sample_shutdown as (σ & Hr & Hq & Hp). destruct (shutdown_follows_its_order σ Hr) as (marked & g & Hd & _ & _ & H).
  destruct (H Hq Hp) as [b ->]. by exists σ, marked, b.
Defined.

(** The grace period bounds the shutdown: from any state of a shutdown that has not ended, once the deadline wins the race everything left is done without waiting for anything, whatever the callbacks answer: the runtimes are disposed of, unless they were already, the clients are terminated and the storage is closed. *)
Lemma deadline_bounds_shutdown (answers : ∀ c, shutdown_answer c) σ :
  reachable σ → gs_shutdownPromise (shared σ) = true → StorageClosed ∉ ps_done (shared σ) →
  ∃ s' marked, run_segment shutdown_awaited answers (process_closing false (shared σ)) = Ret (Next tt, s')
    ∧ ps_done s' = deeds_at marked (Done false).
Proof.
  intros Hr Hp Hopen. destruct (process_reachable_ok _ Hr) as (X & [_ HI] & _). set (s := shared σ) in *. clearbody s.
  destruct HI as [[(Hp' & _) _]|[(d & [] & _)|(b & [] & _)]]; [congruence|..].
  - assert (Hu : ∀ e, answers (ReportError e) = tt) by (intros e; by destruct (answers (ReportError e))).
    destruct bg_done0 as (marked & Hd). unfold closing, disposeRuntimes.
    change (o_disposeRuntimes process_options) with coordinator_dispose.
    change (o_forceClose process_options) with (calls ClientsTerminated TerminateAll id).
    change (o_closeStorage process_options) with (calls StorageClosed CloseStorage id).
    unfold coordinator_dispose, coordinator_begun. steps. destruct (gs_disposePromise s) eqn:E; steps.
    + destruct (answers TerminateAll) as [[]|e]; steps; rewrite ?Hu; steps; destruct (answers CloseStorage) as [[]|e']; steps; rewrite ?Hu; steps;
        eexists _, marked; (split; [reflexivity|]); cbn; rewrite Hd; subst d; done.
    + rewrite bg_started0. steps. rewrite <-bg_disposing0. steps.
      destruct (answers TerminateAll) as [[]|e]; steps; rewrite ?Hu; steps; destruct (answers CloseStorage) as [[]|e']; steps; rewrite ?Hu; steps;
        eexists _, marked; (split; [reflexivity|]); cbn; rewrite Hd; subst d; done.
  - destruct bg_done0 as (marked & Hd). exfalso. apply Hopen. rewrite Hd. apply list_elem_of_In. destruct b; cbn; tauto.
Qed.

Lemma deadline_bounds_shutdown_witness : ∃ σ s' marked, reachable σ
  ∧ run_segment shutdown_awaited (run.answers false) (process_closing false (shared σ)) = Ret (Next tt, s')
  ∧ ps_done s' = deeds_at marked (Done false).
Proof.
  destruct sample_waiting as (σ & Hr & Hp & Ho).
  assert (Hopen : StorageClosed ∉ ps_done (shared σ)).
  { intros Hin. apply list_elem_of_In in Hin. apply not_true_iff_false in Ho. apply Ho, existsb_exists. by exists StorageClosed. }
  destruct (deadline_bounds_shutdown (run.answers false) σ Hr Hp Hopen) as (s' & marked & H). exists σ, s', marked. by split.
Defined.
