(* ===== verification/JobService.v ===== *)
(** The protocol's facade of the jobs ([src/server/job-service.ts]): it stands
    between the commands and the repository, which is the one of JobRepository,
    over its tables; the scheduler, the runner, the workspaces, the history and
    the listeners are ports. *)
From S2P Require Import Prelude JsValues Errors Programs Tasks Jobs Protocol JobSchedule JobStore JobRepository JobPages.
From S2P Require SocketServer.
#[local] Open Scope string_scope. #[local] Open Scope Z_scope.

(** ** State and ports *)

Notation JobServiceEvent := SocketServer.JobServiceEvent.

(** The listeners, in the order of their subscription. *)
(** src/server/job-service.ts:68-68 JobService *)
Record service := { js_database : db; js_listeners : list nat }.
#[export] Instance spread_service : Spread service := λ s, {|
  js_database := js_database s; js_listeners := js_listeners s |}.

(** src/server/job-service.ts:30-45 JobServiceSchedulerPort *)
Inductive job_call :=
| WorkspaceAvailable (workspaceId : jsval)
| RefreshSchedule
| RunNowAccepted (jobId : string)
| Notify (listener : nat) (event : JobServiceEvent)
| ListenerError (error : thrown)
(* awaited *)
| RunnerAbort (jobId runId : string)
| ResolveHistory (workspaceId conversationId : string).
Definition job_answer (c : job_call) : Type :=
  match c with
  | WorkspaceAvailable _ | Notify _ _ | RunnerAbort _ _ | ResolveHistory _ _ => result thrown unit
  | RefreshSchedule | ListenerError _ => unit
  | RunNowAccepted _ => result thrown JobRunState
  end.
Definition job_awaited (c : job_call) : bool := match c with RunnerAbort _ _ | ResolveHistory _ _ => true | _ => false end.

(** src/server/job-service.ts:163-181 summaryOnly *)
Definition summaryOnly (state : JobRunState) : JobRunSummary := st_summary state.

Section service.
Context {V : Type} `{IntlData} `{Temporal} `{Codec} (R : Repository) (has_history : bool).
Notation act A := (task_stmt job_answer service V thrown A).
Notation port c := (port_ (ans := job_answer) (S := service) (V := V) (E := thrown) c).
Notation await c := (await_ (ans := job_answer) (S := service) (V := V) (E := thrown) c).

(** An operation of the repository, on the database as it is. *)
Definition repository {A} (m : M A) : act A :=
  outcome ← gets_ (λ s, m (js_database s));
  update_ (λ s, s <| js_database := outcome.2 |>);;
  lift_ outcome.1.
Definition ok_ {A} (m : act (result thrown A)) : act A := r ← m; lift_ r.

(** ** Operations *)

(** src/server/job-service.ts:79-81 list *)
Definition list_jobs : act (list JobSummary) := repository (JobRepository.list_jobs R).

(** src/server/job-service.ts:83-88 create *)
Definition create (input clock uuid : jsval) : act (list JobSummary) :=
  ok_ (port (WorkspaceAvailable (get_field "workspaceId" input)));;
  repository (JobRepository.create R input clock uuid);;
  port RefreshSchedule;;
  list_jobs.

(** src/server/job-service.ts:90-95 update *)
Definition update (jobId : string) (input clock : jsval) : act (list JobSummary) :=
  (match get_field "workspaceId" input with
   | VUndefined => mret tt
   | workspaceId => ok_ (port (WorkspaceAvailable workspaceId))
   end : act unit);;
  repository (JobRepository.update R jobId input clock);;
  port RefreshSchedule;;
  list_jobs.

(** src/server/job-service.ts:97-101 delete *)
Definition delete (jobId : string) : act (list JobSummary) :=
  repository (delete_job jobId);;
  port RefreshSchedule;;
  list_jobs.

(** src/server/job-service.ts:103-105 referencesWorkspace *)
Definition referencesWorkspace (workspaceId : string) : act bool := repository (JobRepository.referencesWorkspace workspaceId).
(** src/server/job-service.ts:107-109 run *)
Definition run (jobId : string) : act JobRunState := ok_ (port (RunNowAccepted jobId)).
(** src/server/job-service.ts:111-113 abort *)
Definition abort (jobId runId : string) : act unit := ok_ (await (RunnerAbort jobId runId)).
(** src/server/job-service.ts:115-117 runs *)
Definition runs (jobId : string) (cursor : option string) : act JobRunPage := repository (listRuns jobId cursor VUndefined).

(** The history knows the conversation of a run that is gone from memory. *)
(** src/server/job-service.ts:119-134 runState *)
Definition runState (jobId runId : string) : act JobRunState :=
  state ← (repository (getRun R jobId runId) : act JobRunState);
  match rs_conversationId (st_summary state) with
  | None => mret state
  | Some conversationId =>
      if st_conversationAvailable state || negb has_history then mret state
      else
        try_ (job ← repository (JobRepository.get R jobId);
              ok_ (port (WorkspaceAvailable (VStr (js_workspaceId job))));;
              ok_ (await (ResolveHistory (js_workspaceId job) conversationId));;
              mret {| st_summary := st_summary state;
                      st_preExitCode := st_preExitCode state; st_preStdout := st_preStdout state;
                      st_preStderr := st_preStderr state; st_postExitCode := st_postExitCode state;
                      st_postStdout := st_postStdout state; st_postStderr := st_postStderr state;
                      st_conversationAvailable := true |})
          (λ _, mret state)
  end.

(** ** Listeners *)

(** src/server/job-service.ts:136-139 subscribe *)
Definition subscribe (listener : nat) : act unit :=
  update_ (λ s, if bool_decide (listener ∈ js_listeners s) then s else s <| js_listeners := (js_listeners s ++ [listener])%list |>).
(** The function [subscribe] returns. *)
(** src/server/job-service.ts:138-138 unsubscribe *)
Definition unsubscribe (listener : nat) : act unit :=
  update_ (λ s, s <| js_listeners := filter (λ l, l ≠ listener) (js_listeners s) |>).

(** src/server/job-service.ts:156-160 emit *)
Definition notify_each (event : JobServiceEvent) : list nat → act unit :=
  fix notify listeners :=
    match listeners with
    | [] => mret tt
    | listener :: rest =>
        try_ (ok_ (port (Notify listener event))) (λ error, port (ListenerError error));;
        notify rest
    end.
Definition emit (event : JobServiceEvent) : act unit := listeners ← gets_ js_listeners; notify_each event listeners.

(** src/server/job-service.ts:141-145 publishRunUpdated *)
Definition publishRunUpdated (state : JobRunState) : act unit := emit (SocketServer.JobRunChanged (summaryOnly state)).
(** src/server/job-service.ts:147-154 publishJobsChanged *)
Definition publishJobsChanged : act unit :=
  try_ (jobs ← list_jobs; emit (SocketServer.JobsChanged jobs)) (λ error, port (ListenerError error)).
End service.

(** The services keep the promises the commands rely on: what the workspace
    repository and the facade of the jobs answer is about what was asked for,
    and a change of the jobs is stored, then scheduled, then listed. *)
From S2P Require Import JobLifecycle JobAttempts.
From S2P Require Import PosixPath Host SandboxAdmission WorkspaceStore Workspaces WorkspaceRepository WorkspaceOperations WorkspaceInvariant WorkspaceMutations WorkspacePolicySafety WorkspaceSafety Commands.
#[local] Open Scope string_scope. #[local] Open Scope Z_scope.

(** ** What rows are read *)

Lemma mapM_elem {A B} (f : A → result thrown B) l ss y :
  mapM f l = Ok ss → y ∈ ss → ∃ x, x ∈ l ∧ f x = Ok y.
Proof.
  revert ss. induction l as [|x l IH]; intros ss; cbn; unfold mret, result_ret.
  - intros [= <-] Hy. by apply elem_of_nil in Hy.
  - rewrite bind_Ok. setoid_rewrite bind_Ok. intros (b & Hb & s & Hs & [= <-]) [->|Hy]%elem_of_cons.
    + exists x. split; [by left|done].
    + destruct (IH _ Hs Hy) as (z & Hz & E). exists z. split; [by right|done].
Qed.

Lemma page_rows `{Codec} job cursor limit d page d' run :
  listRuns job cursor limit d = (Ok page, d') → run ∈ page_runs page → rs_jobId run = job.
Proof.
  unfold listRuns, mbind, M_bind, lift_result. destruct (page_limit limit) as [n|]; [|done].
  unfold database, read, query. destruct (requireJobRow job d); [|done].
  assert (Hrows : ∀ rows ss, (∀ r, r ∈ rows → rr_job_id r = job) → mapM runSummary (take n rows) = Ok ss →
    ∀ run, run ∈ ss → rs_jobId run = job).
  { intros rows ss Hj Hss x Hx. destruct (mapM_elem _ _ _ _ Hss Hx) as (r & Hr & E).
    apply runSummary_Ok in E as (_ & -> & _). apply Hj. by eapply subseteq_take. }
  assert (Hdesc : ∀ k, (∀ r, r ∈ take k (job_runs_desc job d) → rr_job_id r = job)).
  { intros k r Hr. apply subseteq_take in Hr. by apply job_runs_desc_elem in Hr as [_ ?]. }
  destruct cursor as [c|].
  - destruct (decodeCursor c) as [at_|]; [|done].
    assert (Hafter : ∀ r, r ∈ sql_listRunsAfter job at_.1 at_.2 (n + 1) d → rr_job_id r = job).
    { intros r Hr. unfold sql_listRunsAfter in Hr. apply subseteq_take, list_elem_of_filter in Hr as [_ Hr].
      by apply job_runs_desc_elem in Hr as [_ ?]. }
    cbv beta iota zeta. destruct (mapM runSummary (take n (sql_listRunsAfter job at_.1 at_.2 (n + 1) d))) as [ss|] eqn:E; [|done].
    intros [= <- <-] Hr. destruct (last ss); exact (Hrows _ _ Hafter E _ Hr).
  - unfold sql_listRuns. cbv beta iota zeta. destruct (mapM runSummary _) as [ss|] eqn:E; [|done].
    intros [= <- <-] Hr. destruct (last ss); exact (Hrows _ _ (Hdesc _) E _ Hr).
Qed.

Lemma getRun_ids `{IntlData} `{Temporal} R job id d st d' :
  db_ok d → getRun R job id d = (Ok st, d') → rs_jobId (st_summary st) = job ∧ rs_id (st_summary st) = id.
Proof.
  intros Hd. unfold getRun, database, mbind, M_bind, read, query. destruct (requireJobRow job d); [|done].
  destruct (sql_getRun job id d) as [row|] eqn:E; [|done]. apply sql_getRun_Some in E as [Hrow Hj].
  unfold lift_result. destruct (JobRepository.runState R row) as [s|] eqn:Es; [|done]. intros [= <- <-].
  apply runState_Ok, runSummary_Ok in Es as (-> & -> & _). destruct (runs_ok _ Hd _ _ Hrow) as (-> & _). done.
Qed.

Lemma stored_workspace_id id d w : wdb_ok d → stored_workspace id d = Ok w → w_id w = id.
Proof.
  intros Hd. unfold stored_workspace, sql_getWorkspace. destruct (wd_workspaces d !! id) as [row|] eqn:E; [|done].
  destruct (wk_rows _ Hd _ _ E) as [Hid _]. unfold workspaceFromRow, workspace_from_columns. intros Hw. inv_bind Hw. by injection Hw as <-.
Qed.

(** ** Promises *)

(** What an operation gives back, or throws, satisfies [φ]. *)
Definition gives {A Rt} (φ : result thrown A → Prop) (o : outcome Rt thrown A) : Prop :=
  match o with Next x => φ (Ok x) | Throw e => φ (Err e) | Return _ => True end.

(** A function that starts with [requireAvailable] speaks of the stored workspace. *)
Lemma available_first {B} repo id (k : Workspace → ws B) (φ : Workspace → B → Prop) env d :
  (∀ w, returns (k w) (φ w)) →
  match (run_prog env [] ((requireAvailable repo id ≫= k) d)).1.1 with
  | Next x => ∃ w, stored_workspace id d = Ok w ∧ φ w x
  | _ => True
  end.
Proof.
  intros Hk.
  unfold requireAvailable. unfold mbind at 1, stmt_bind at 1. rewrite getStored_bind.
  destruct (stored_workspace id d) as [w|e]; [|done].
  assert (Hr : returns (available ← isAvailable repo w; throw_when (negb available) (app_error WORKSPACE_UNAVAILABLE);; mret w) (λ x, x = w)).
  { apply returns_skip. intros a. apply returns_skip. intros []. by apply returns_ret. }
  assert (Hall : returns ((available ← isAvailable repo w; throw_when (negb available) (app_error WORKSPACE_UNAVAILABLE);; mret w) ≫= k) (φ w)).
  { eapply returns_bind; [exact Hr|]. intros x ->. apply Hk. }
  pose proof (returns_run _ _ env d Hall) as Hrun. unfold mbind at 1, stmt_bind at 1 in Hrun.
  revert Hrun. case_match; [|done..]. intros Hx. by exists w.
Qed.

Lemma requireAvailable_id repo id env d w : wdb_ok d →
  (run_prog env [] (requireAvailable repo id d)).1.1 = Next w → w_id w = id.
Proof.
  intros Hd E. pose proof (getStored_returns id (λ w, available ← isAvailable repo w;
    throw_when (negb available) (app_error WORKSPACE_UNAVAILABLE);; mret w) (λ c x, x = c) env d) as H.
  unfold requireAvailable in E. rewrite E in H. destruct H as (c & Hc & ->).
  - intros x. apply returns_skip. intros a. apply returns_skip. intros []. by apply returns_ret.
  - by eapply stored_workspace_id.
Qed.
Lemma requireUsable_id repo id env d p : wdb_ok d →
  (run_prog env [] (requireUsable repo id d)).1.1 = Next p → cw_workspaceId p = id.
Proof.
  intros Hd E. unfold requireUsable in E.
  match type of E with context [requireAvailable repo id ≫= ?k] =>
    pose proof (available_first repo id k (λ w p, cw_workspaceId p = w_id w) env d) as H end.
  rewrite E in H. destruct H as (c & Hc & ->); [|by eapply stored_workspace_id].
  intros w. apply returns_skip. intros ev.
  destruct (ev_usable ev); [|apply returns_throw]. destruct (ev_effectiveSecurityProfile ev); [|apply returns_throw].
  apply returns_skip. intros []. by apply returns_ret.
Qed.

(** *** The facade of the jobs *)

Section jobs.
Context {V : Type} `{IntlData} `{Temporal} `{Codec} (R : Repository) (has_history : bool).
Notation act A := (task_stmt job_answer service V thrown A).
Notation environment := (environment (at_state (S := service) job_answer) service).
Implicit Types (s : service) (env : environment).

Lemma repository_run {A B} (m : M A) (k : A → act B) s :
  (repository (V := V) m ≫= k) s =
  match m (js_database s) with
  | (Ok x, d) => k x (s <| js_database := d |>)
  | (Err e, d) => Ret (Throw e, s <| js_database := d |>)
  end.
Proof.
  unfold repository, mbind, stmt_bind, gets_, update_, lift_, throw_, mret, stmt_ret. cbn. by destruct (m (js_database s)) as [[x|e] d].
Qed.
Lemma repository_end {A} (m : M A) s :
  repository (V := V) m s =
  Ret (match (m (js_database s)).1 with Ok x => Next x | Err e => Throw e end, s <| js_database := (m (js_database s)).2 |>).
Proof.
  unfold repository, mbind, stmt_bind, gets_, update_, lift_, throw_, mret, stmt_ret. cbn. by destruct (m (js_database s)) as [[x|e] d].
Qed.

(** A program whose every result satisfies [φ]. *)
Definition always {A} (φ : A → Prop) (p : prog (at_state (S := service) job_answer) service (outcome V thrown A * service)) : Prop :=
  wp (λ (_ : unit) _, True) (λ g _, g) p tt (λ '(o, _) _, match o with Next x => φ x | _ => True end).
Lemma always_run {A} (φ : A → Prop) env p :
  always φ p → match (run_prog env [] p).1.1 with Next x => φ x | _ => True end.
Proof.
  intros Hp. pose proof (wp_run (λ (_ : unit) _, True) (λ g _, g) p tt
    (λ '(o, _) _, match o with Next x => φ x | _ => True end) env []) as H'.
  destruct (run_prog env [] p) as [[o s'] h]. cbn. apply H'; [by intros ? ? ? ?|exact Hp].
Qed.

Lemma runState_summary s jobId runId st d' :
  getRun R jobId runId (js_database s) = (Ok st, d') →
  always (λ x, st_summary x = st_summary st) (runState (V := V) R has_history jobId runId s).
Proof.
  intros E. unfold runState. rewrite repository_run, E. destruct (rs_conversationId (st_summary st)) as [c|]; [|done].
  destruct (_ || _); [done|]. unfold always, try_. apply wp_bind. rewrite repository_run.
  destruct (JobRepository.get R jobId _) as [[job|e] d2]; [|done].
  unfold JobService.ok_, mbind, stmt_bind, port_, await_, lift_, throw_, mret, stmt_ret. cbn.
  split; [done|]. intros [[]|e] w; cbn; [|done]. split; [done|]. by intros [[]|e] w'.
Qed.
End jobs.

(** ** Changes *)

Inductive mutation := MCreate (input clock uuid : jsval) | MUpdate (jobId : string) (input clock : jsval) | MDelete (jobId : string).

Section mutations.
Context {V : Type} `{IntlData} `{Temporal} (R : Repository).
Notation environment := (environment (at_state (S := service) job_answer) service).

Definition perform (m : mutation) : task_stmt job_answer service V thrown (list JobSummary) :=
  match m with
  | MCreate input clock uuid => create R input clock uuid
  | MUpdate jobId input clock => update R jobId input clock
  | MDelete jobId => delete R jobId
  end.
(** The operation of the repository. *)
Definition stored (m : mutation) : M unit :=
  match m with
  | MCreate input clock uuid => JobRepository.create R input clock uuid;; mret tt
  | MUpdate jobId input clock => JobRepository.update R jobId input clock;; mret tt
  | MDelete jobId => delete_job jobId
  end.

Lemma list_jobs_reads d : (JobRepository.list_jobs R d).2 = d.
Proof.
  unfold JobRepository.list_jobs, database, mbind, M_bind, query, read, mret, M_ret. by destruct (summaries R (sql_listJobs d) d).
Qed.
Lemma stored_atomic m d e d' : db_ok d → stored m d = (Err e, d') → d' = d.
Proof.
  intros Hd. destruct m as [input clock uuid|jobId input clock|jobId]; cbn.
  - apply (exec_atomic R (CCreate input clock uuid)). done.
  - apply (exec_atomic R (CUpdate jobId input clock)). done.
  - by apply delete_job_atomic.
Qed.
Lemma ignore_value {A} (m : M A) d :
  (m;; mret tt) d = (match (m d).1 with Ok _ => Ok tt | Err e => Err e end, (m d).2).
Proof. unfold mbind, M_bind, mret, M_ret. by destruct (m d) as [[x|e] d']. Qed.

(** Storing, scheduling, listing. *)
Lemma publish_run {A} (op : M A) (env : environment) h s :
  run_prog env h ((repository (V := V) op;;
    port_ (ans := job_answer) (S := service) (V := V) (E := thrown) RefreshSchedule;; list_jobs R) s) =
  match op (js_database s) with
  | (Ok _, d) =>
      let s' := s <| js_database := d |> in
      ((match (JobRepository.list_jobs R d).1 with Ok jobs => Next jobs | Err e => Throw e end, s'),
       (h ++ [Event (s', RefreshSchedule) (env h (s', RefreshSchedule)).1 (env h (s', RefreshSchedule)).2])%list)
  | (Err e, d) => ((Throw e, s <| js_database := d |>), h)
  end.
Proof.
  rewrite repository_run. destruct (op (js_database s)) as [[x|e] d]; [|done].
  unfold mbind at 1, stmt_bind at 1, port_ at 1. cbn. destruct (env h _) as [r w].
  unfold list_jobs. rewrite repository_end. cbn. by rewrite list_jobs_reads.
Qed.

Definition refreshes (e : Programs.event (at_state (S := service) job_answer) service) : Prop := (ev_call e).2 = RefreshSchedule.
Definition untouched (s : service) (r : outcome V thrown (list JobSummary) * service) (h : list (Programs.event (at_state (S := service) job_answer) service)) : Prop :=
  js_database r.2 = js_database s ∧ (∃ e, r.1 = Throw e) ∧ ∀ e, e ∈ h → ¬ refreshes e.
Definition published (m : mutation) (s : service) (r : outcome V thrown (list JobSummary) * service) (h : list (Programs.event (at_state (S := service) job_answer) service)) : Prop :=
  ∃ d before answer w, stored m (js_database s) = (Ok tt, d) ∧ js_database r.2 = d
    ∧ h = (before ++ [Event (s <| js_database := d |>, RefreshSchedule) answer w])%list ∧ (∀ e, e ∈ before → ¬ refreshes e)
    ∧ r.1 = match (JobRepository.list_jobs R d).1 with Ok jobs => Next jobs | Err e => Throw e end.

Lemma publish_outcome {A} (m : mutation) (op : M A) (env : environment) h s :
  db_ok (js_database s) → stored m (js_database s) = (op;; mret tt) (js_database s) → (∀ e, e ∈ h → ¬ refreshes e) →
  let '(r, h') := run_prog env h ((repository (V := V) op;;
    port_ (ans := job_answer) (S := service) (V := V) (E := thrown) RefreshSchedule;; list_jobs R) s) in
  untouched s r h' ∨ published m s r h'.
Proof.
  intros Hd Hm Hh. rewrite publish_run. rewrite ignore_value in Hm.
  destruct (op (js_database s)) as [[x|e] d]; cbn in Hm.
  - right. eexists d, h, _, _. by split_and!.
  - left. split_and!; [by eapply stored_atomic|by exists e|done].
Qed.

(** A call that may throw comes first. *)
Lemma available_then {A} (v : jsval) (k : task_stmt job_answer service V thrown A) (env : environment) s :
  run_prog env [] ((JobService.ok_ (port_ (ans := job_answer) (S := service) (V := V) (E := thrown) (WorkspaceAvailable v));; k) s) =
  let '(r, w) := env [] (s, WorkspaceAvailable v) in
  let h := [Event (ans := at_state (S := service) job_answer) (s, WorkspaceAvailable v) r w] in
  match r : result thrown unit with Ok _ => run_prog env h (k s) | Err e => ((Throw e, s), h) end.
Proof.
  unfold JobService.ok_, mbind, stmt_bind, port_, lift_, throw_, mret, stmt_ret. cbn. destruct (env [] _) as [r w].
  unfold at_state in r. cbn in r. by destruct r.
Qed.
End mutations.

(** ** Concrete services *)

#[local] Existing Instance sample_intl.
#[local] Existing Instance OneChange.utc.
#[local] Existing Instance sample_codec.

(** A workspace was created and a job is running; every port succeeds. *)
Definition sample_store : wdb :=
  run_step empty_store (WorkspaceStep WorkspaceSafety.sample.repository (WCreate WorkspaceSafety.sample.input) WorkspaceSafety.sample.env).
Lemma sample_store_ok : wdb_ok sample_store.
Proof. apply run_step_ok, empty_store_ok. Qed.
Definition sample_service : service := {| js_database := sample_running; js_listeners := [] |}.
Lemma sample_service_ok : db_ok (js_database sample_service).
Proof. exact (exec_all_ok sample_repository sample_calls sample_db (empty_db_ok _)). Qed.
Definition sample_answers (c : job_call) : job_answer c :=
  match c with
  | WorkspaceAvailable _ | Notify _ _ | RunnerAbort _ _ | ResolveHistory _ _ => Ok tt
  | RefreshSchedule | ListenerError _ => tt
  | RunNowAccepted _ => Err (app_error JOB_NOT_FOUND)
  end.
Definition sample_env : environment (at_state (S := service) job_answer) service := λ _ sc, (sample_answers sc.2, sc.1).

(** ** Properties *)

(** The services keep the promises the commands rely on: over a consistent database the workspace repository resolves exactly the workspace that was asked for, with its policy, whatever the file system answers, and the facade of the jobs lists only attempts of the job asked for and gives exactly the attempt asked for, whatever happens to the job while its history is consulted. *)
Lemma services_keep_promises {S V : Type} `{IntlData} `{Temporal} `{Codec} (R : Repository) (has_history : bool)
    (repo : WorkspaceRepository) (d : wdb) (s : service) (h : list (Programs.event (at_state (S := S) service_answer) S)) :
  wdb_ok d → db_ok (js_database s) →
  (∀ env id, gives (promised h (RequireAvailable id)) (run_prog env [] (requireAvailable repo id d)).1.1)
  ∧ (∀ env id, gives (promised h (RequireUsable id)) (run_prog env [] (requireUsable repo id d)).1.1)
  ∧ (∀ env jobId cursor, gives (promised h (JobsRuns jobId cursor)) (run_prog env [] (runs (V := V) jobId cursor s)).1.1)
  ∧ (∀ env jobId runId, gives (promised h (JobsRunState jobId runId)) (run_prog env [] (runState (V := V) R has_history jobId runId s)).1.1).
Proof.
  intros Hw Hd. split_and!.
  - intros env id. destruct (run_prog env [] _).1.1 as [w|r|e] eqn:E; [|done|by intros w'].
    intros w' [= <-]. by eapply requireAvailable_id.
  - intros env id. destruct (run_prog env [] _).1.1 as [w|r|e] eqn:E; [|done|by intros w'].
    intros w' [= <-]. by eapply requireUsable_id.
  - intros env jobId cursor. unfold runs. rewrite repository_end. cbn.
    destruct (listRuns jobId cursor VUndefined (js_database s)) as [[page|e] d'] eqn:E; [|by intros page].
    intros page' [= <-] run Hrun. by eapply page_rows.
  - intros env jobId runId. destruct (getRun R jobId runId (js_database s)) as [[st|e] d'] eqn:E.
    + pose proof (always_run _ env _ (runState_summary (V := V) R has_history s jobId runId st d' E)) as Hr.
      destruct (run_prog env [] _).1.1 as [x|r|e]; [|done|by intros x]. intros x' [= <-]. rewrite Hr. by eapply getRun_ids.
    + unfold runState. erewrite (repository_run (V := V) (getRun R jobId runId) _ s). rewrite E. cbn. by intros x.
Qed.

Lemma services_keep_promises_witness :
  (∃ w, (run_prog WorkspaceSafety.sample.env [] (requireAvailable WorkspaceSafety.sample.repository "" sample_store)).1.1 = Next w ∧ w_id w = "")
  ∧ ∃ st, (run_prog sample_env [] (runState (V := unit) sample_repository true "j" "r" sample_service)).1.1 = Next st
    ∧ rs_jobId (st_summary st) = "j" ∧ rs_id (st_summary st) = "r".
Proof.
  destruct (services_keep_promises (S := unit) (V := unit) sample_repository true WorkspaceSafety.sample.repository sample_store
    sample_service [] sample_store_ok sample_service_ok) as (Ha & _ & _ & Hr).
  specialize (Ha WorkspaceSafety.sample.env ""). specialize (Hr sample_env "j" "r"). split.
  - assert (E : match (run_prog WorkspaceSafety.sample.env [] (requireAvailable WorkspaceSafety.sample.repository "" sample_store)).1.1 with
      Next _ => True | _ => False end) by (vm_compute; exact I).
    destruct (run_prog WorkspaceSafety.sample.env [] (requireAvailable WorkspaceSafety.sample.repository "" sample_store)).1.1
      as [w|r|e]; [|destruct E..]. exists w. split; [reflexivity|]. exact (Ha w eq_refl).
  - assert (E : match (run_prog sample_env [] (runState (V := unit) sample_repository true "j" "r" sample_service)).1.1 with
      Next _ => True | _ => False end) by (vm_compute; exact I).
    destruct (run_prog sample_env [] (runState (V := unit) sample_repository true "j" "r" sample_service)).1.1
      as [st|r|e]; [|destruct E..]. exists st. split; [reflexivity|]. exact (Hr st eq_refl).
Defined.

(** A change of the jobs through the facade is all or nothing: either it throws, the database is as it was and the scheduler is not disturbed, or the repository's operation succeeded, the scheduler is told once, when the change is stored and last of all calls, and the answer is the list of jobs as stored then. *)
Lemma job_changes_are_published {V : Type} `{IntlData} `{Temporal} (R : Repository) (m : mutation) env (s : service) :
  db_ok (js_database s) →
  let '(r, h) := run_prog env [] (perform (V := V) R m s) in untouched s r h ∨ published R m s r h.
Proof.
  intros Hd. destruct m as [input clock uuid|jobId input clock|jobId]; cbn [perform].
  - unfold create. rewrite available_then. destruct (env [] _) as [r w]. unfold at_state in r. cbn in r.
    destruct r as [[]|e].
    + apply publish_outcome; [done|done|]. by intros e ->%list_elem_of_singleton.
    + left. split_and!; [done|by exists e|]. by intros e' ->%list_elem_of_singleton.
  - assert (Hwith : ∀ v, let '(r, h) := run_prog env [] ((JobService.ok_ (port_ (ans := job_answer) (S := service) (V := V) (E := thrown) (WorkspaceAvailable v));;
      repository (JobRepository.update R jobId input clock);; port_ RefreshSchedule;; list_jobs R) s) in
      untouched s r h ∨ published R (MUpdate jobId input clock) s r h).
    { intros v. rewrite available_then. destruct (env [] _) as [r w]. unfold at_state in r. cbn in r. destruct r as [[]|e].
      + apply publish_outcome; [done|done|]. by intros e ->%list_elem_of_singleton.
      + left. split_and!; [done|by exists e|]. by intros e' ->%list_elem_of_singleton. }
    unfold update. destruct (get_field "workspaceId" input); try apply Hwith.
    apply (publish_outcome R (MUpdate jobId input clock) (JobRepository.update R jobId input clock)); [done|done|].
    by intros e ?%elem_of_nil.
  - unfold delete. apply (publish_outcome R (MDelete jobId) (delete_job jobId)); [done| |by intros e ?%elem_of_nil].
    rewrite ignore_value. cbn. by destruct (delete_job jobId (js_database s)) as [[[]|e] d].
Qed.

Lemma job_changes_are_published_witness :
  let r := (run_prog sample_env [] (perform (V := unit) sample_repository (MUpdate "j" (VObj [("enabled", VBool false)]) (ms 4000)) sample_service)) in
  ∃ jobs, r.1.1 = Next jobs ∧ ∃ d, js_database r.1.2 = d
    ∧ Next jobs = match (JobRepository.list_jobs sample_repository d).1 with Ok jobs => Next jobs | Err e => Throw (R := unit) e end.
Proof.
  pose proof (job_changes_are_published (V := unit) sample_repository
    (MUpdate "j" (VObj [("enabled", VBool false)]) (ms 4000)) sample_env sample_service sample_service_ok) as H.
  assert (E : match (run_prog sample_env [] (perform (V := unit) sample_repository (MUpdate "j"
    (VObj [("enabled", VBool false)]) (ms 4000)) sample_service)).1.1 with
    Next _ => True | _ => False end) by (vm_compute; exact I).
  destruct (run_prog sample_env [] (perform (V := unit) sample_repository (MUpdate "j"
    (VObj [("enabled", VBool false)]) (ms 4000)) sample_service)) as [[o s'] h].
  cbn [fst snd] in E |- *. destruct o as [jobs|r|e]; [|destruct E..].
  destruct H as [(_ & [e He] & _)|(d & b & a & w & _ & Hd & _ & _ & Ho)]; [done|]. exists jobs. split; [done|]. exists d. by split.
Defined.
