(* ===== verification/Resolver.v ===== *)
(** The one way of managed egress to the network ([src/server/network/resolver.ts]):
    a normalized host is resolved once, the whole answer is checked, and one
    numeric address is pinned and dialed under a deadline. DNS, sockets and the
    clock are external calls; a promise with a deadline settles or is timed out. *)
From S2P Require Import Prelude JsValues Texts Errors Programs Addresses NetworkPolicy.
#[local] Open Scope string_scope. #[local] Open Scope Z_scope.

(** ** Data *)

(** src/server/network/resolver.ts:13-19 ResolutionFailureCode *)
Inductive ResolutionFailureCode :=
| DnsTimeout | DnsFailure | DnsEmpty | NonPublicAddress | ConnectTimeout | ConnectFailure.
#[export] Instance ResolutionFailureCode_eq : EqDecision ResolutionFailureCode.
Proof. solve_decision. Defined.

(** What these functions throw: a [PinnedConnectionError], or an error of another kind. *)
(** src/server/network/resolver.ts:21-26 PinnedConnectionError *)
Inductive connection_thrown :=
| PinnedConnectionError (code : ResolutionFailureCode)
| OtherFailure (e : thrown).

(** The point of the clock at which the setup expires. *)
(** src/server/network/resolver.ts:28-31 SetupDeadline *)
Record SetupDeadline := { expiresAt : Z }.

(** src/server/network/resolver.ts:33-36 PinnedAddress *)
Record PinnedAddress := Pinned { pinned_address : string; pinned_family : IpFamily }.
#[export] Instance PinnedAddress_eq : EqDecision PinnedAddress.
Proof. solve_decision. Defined.

(** [LookupAddress] of [node:dns]. *)
Record LookupAddress := Answer { la_address : string; la_family : Z }.

(** The numbers that stand for the families. *)
Definition family_number (f : IpFamily) : Z := match f with V4 => 4 | V6 => 6 end.

(** ** External calls *)

(** How a promise raced against a timer comes out. *)
Inductive settled (A : Type) :=
| Settled (r : result thrown A)
| TimerFired.
Arguments Settled {A} r.
Arguments TimerFired {A}.

Inductive network_call :=
| Clock
| LookupHost (hostname : string)
| NewSocket
| SocketConnect (socket : nat) (host : string) (port : Z) (family : IpFamily)
| AwaitConnection (socket : nat)
| DestroySocket (socket : nat).

Definition network_answer (c : network_call) : Type :=
  match c with
  | Clock => Z
  | LookupHost _ => settled (list LookupAddress)
  | NewSocket => nat
  | SocketConnect _ _ _ _ => unit
  | AwaitConnection _ => settled unit
  | DestroySocket _ => unit
  end.

(** The functions keep no state of their own between calls. *)
#[export] Instance network_interference : Interference network_call unit unit := λ c w s, s.

Notation net := (Programs.stmt network_answer unit unit Empty_set connection_thrown).
Notation network := (Programs.call_ (ans := network_answer) (R := Empty_set) (E := connection_thrown)) (only parsing).

(** ** Deadlines *)

(** src/server/network/resolver.ts:55-57 now *)
Definition now : net Z := network Clock.

(** src/server/network/resolver.ts:59-68 createSetupDeadline *)
Definition createSetupDeadline (timeoutMs : jsnum) : net SetupDeadline :=
  match timeoutMs with
  | JInt timeout =>
      if negb (isSafeInteger timeout) || (timeout <=? 0)
      then throw_ (OtherFailure (Foreign None "setup timeout must be a positive safe integer"))
      else start ← now; mret {| expiresAt := start + timeout |}
  | JOther => throw_ (OtherFailure (Foreign None "setup timeout must be a positive safe integer"))
  end.

(** src/server/network/resolver.ts:66-66 remainingMs *)
Definition remainingMs (deadline : SetupDeadline) : net Z :=
  time ← now; mret (Z.max 0 (expiresAt deadline - time)).

(** The operation was started; its timer is only set when time remains. *)
(** src/server/network/resolver.ts:70-91 timeoutPromise *)
Definition timeoutPromise {A} (operation : net (settled A)) (deadline : SetupDeadline)
    (code : ResolutionFailureCode) : net A :=
  remaining ← remainingMs deadline;
  outcome ← operation;
  if remaining <=? 0 then throw_ (PinnedConnectionError code)
  else
    match outcome with
    | Settled (Ok value) => mret value
    | Settled (Err error) => throw_ (OtherFailure error)
    | TimerFired => throw_ (PinnedConnectionError code)
    end.

(** [catch (error) { if (error instanceof PinnedConnectionError) throw error; throw new PinnedConnectionError(code); }] *)
Definition or_failure {A} (m : net A) (code : ResolutionFailureCode) (cleanup : net unit) : net A :=
  try_ m (λ error,
    cleanup;;
    match error with
    | PinnedConnectionError _ => throw_ error
    | OtherFailure _ => throw_ (PinnedConnectionError code)
    end).

(** ** Choosing an address *)

Definition classified_pin (p : ParsedIpAddress) : result connection_thrown AddressClassification :=
  match classifyParsedAddress p with Ok a => Ok a | Err e => Err (OtherFailure e) end.

(** [parseIpAddress(text)!.bytes] *)
Definition bytes_of_text (text : string) : result connection_thrown (list Z) :=
  match parseIpAddress text with
  | Some p => Ok (bytes p)
  | None => Err (OtherFailure (Foreign None "TypeError"))
  end.

(** The loop over the bytes; both sequences have the length of their family. *)
(** src/server/network/resolver.ts:104-108 differences *)
Fixpoint compare_bytes (leftBytes rightBytes : list Z) : Z :=
  match leftBytes, rightBytes with
  | l :: ls, r :: rs => let difference := l - r in if negb (difference =? 0) then difference else compare_bytes ls rs
  | _, _ => 0
  end.

(** src/server/network/resolver.ts:100-109 compareAddresses *)
Definition compareAddresses (a b : PinnedAddress) : result connection_thrown Z :=
  if negb (bool_decide (pinned_family a = pinned_family b))
  then Ok (family_number (pinned_family a) - family_number (pinned_family b))
  else
    leftBytes ← bytes_of_text (pinned_address a);
    rightBytes ← bytes_of_text (pinned_address b);
    mret (compare_bytes leftBytes rightBytes).

(** [xs.sort(compareAddresses)], which is stable. *)
Fixpoint insert_address (x : PinnedAddress) (xs : list PinnedAddress) : result connection_thrown (list PinnedAddress) :=
  match xs with
  | [] => Ok [x]
  | y :: rest =>
      c ← compareAddresses x y;
      if c <=? 0 then Ok (x :: y :: rest) else rest ← insert_address x rest; mret (y :: rest)
  end.
Fixpoint sort_addresses (xs : list PinnedAddress) : result connection_thrown (list PinnedAddress) :=
  match xs with
  | [] => Ok []
  | x :: rest => rest ← sort_addresses rest; insert_address x rest
  end.

(** The address of one answer. *)
(** src/server/network/resolver.ts:144-150 pinAnswer *)
Definition pin_answer (answer : LookupAddress) : result connection_thrown PinnedAddress :=
  match parseIpAddress (la_address answer) with
  | None => Err (PinnedConnectionError DnsFailure)
  | Some parsed =>
      if negb (family_number (family parsed) =? la_family answer) then Err (PinnedConnectionError DnsFailure)
      else
        a ← classified_pin parsed;
        if negb (isPublic a) then Err (PinnedConnectionError NonPublicAddress)
        else mret (Pinned (address (classified a)) (family (classified a)))
  end.

(** [`${pinned.family}:${pinned.address}`] *)
(** src/server/network/resolver.ts:151-151 addressKey *)
Definition address_key (p : PinnedAddress) : string :=
  pretty (family_number (pinned_family p)) +:+ ":" +:+ pinned_address p.

(** src/server/network/resolver.ts:142-152 deduplicate *)
Fixpoint deduplicate (answers : list LookupAddress) (known : jsmap string PinnedAddress)
    : result connection_thrown (jsmap string PinnedAddress) :=
  match answers with
  | [] => Ok known
  | answer :: rest => p ← pin_answer answer; deduplicate rest (map_set (address_key p) p known)
  end.

(** src/server/network/resolver.ts:140-154 select *)
Definition select_address (answers : list LookupAddress) : result connection_thrown PinnedAddress :=
  if Nat.eqb (length answers) 0 then Err (PinnedConnectionError DnsEmpty)
  else
    deduplicated ← deduplicate answers [];
    if Nat.eqb (length deduplicated) 0 then Err (PinnedConnectionError DnsEmpty)
    else
      sorted ← sort_addresses (map_values deduplicated);
      match sorted with
      | first :: _ => mret first
      | [] => Err (OtherFailure (Foreign None "undefined"))
      end.

(** src/server/network/resolver.ts:120-126 literal *)
Definition pin_literal (host : NormalizedDestinationHost) : result connection_thrown PinnedAddress :=
  match parseIpAddress (nh_host host), nh_family host with
  | Some parsed, Some f =>
      if negb (bool_decide (family parsed = f)) then Err (PinnedConnectionError DnsFailure)
      else
        a ← classified_pin parsed;
        if negb (isPublic a) then Err (PinnedConnectionError NonPublicAddress)
        else mret (Pinned (address (classified a)) (family (classified a)))
  | _, _ => Err (PinnedConnectionError DnsFailure)
  end.

(** src/server/network/resolver.ts:115-155 resolve *)
Definition resolve (host : NormalizedDestinationHost) (deadline : SetupDeadline) : net PinnedAddress :=
  if bool_decide (nh_kind host = KindIp) then lift_ (pin_literal host)
  else
    answers ← or_failure (timeoutPromise (network (LookupHost (nh_host host))) deadline DnsTimeout)
                DnsFailure (mret tt);
    lift_ (select_address answers).

(** ** Dialing *)

(** src/server/network/resolver.ts:160-168 dialable *)
Definition dialable (address : PinnedAddress) (port : Z) : result connection_thrown AddressClassification :=
  if negb (isSafeInteger port) || (port <? 1) || (65535 <? port) then Err (PinnedConnectionError ConnectFailure)
  else
    match parseIpAddress (pinned_address address) with
    | None => Err (PinnedConnectionError ConnectFailure)
    | Some parsed =>
        if negb (bool_decide (family parsed = pinned_family address)) then Err (PinnedConnectionError ConnectFailure)
        else
          a ← classified_pin parsed;
          if negb (isPublic a) then Err (PinnedConnectionError ConnectFailure) else mret a
    end.

(** src/server/network/resolver.ts:159-189 dial *)
Definition dial (address : PinnedAddress) (port : Z) (deadline : SetupDeadline) : net nat :=
  a ← lift_ (dialable address port);
  socket ← network NewSocket;
  network (SocketConnect socket (Addresses.address (classified a)) port (family (classified a)));;
  or_failure (timeoutPromise (network (AwaitConnection socket)) deadline ConnectTimeout)
    ConnectFailure (network (DestroySocket socket));;
  mret socket.

(** src/server/network/resolver.ts:50-53 PinnedConnection *)
Record PinnedConnection := { pc_socket : nat; pc_address : PinnedAddress }.

(** src/server/network/resolver.ts:199-207 connect *)
Definition connect (host : NormalizedDestinationHost) (port : Z) (deadline : SetupDeadline) : net PinnedConnection :=
  address ← resolve host deadline;
  socket ← dial address port deadline;
  mret {| pc_socket := socket; pc_address := address |}.

(** What the resolver guarantees: the complete answer of DNS is public or
    nothing is chosen, the choice does not depend on the order of the answer,
    and only the chosen address is dialed. *)
From S2P Require Import AddressText AddressRanges.
#[local] Open Scope string_scope. #[local] Open Scope Z_scope.
#[local] Arguments String.append : simpl nomatch.

(** ** Pinned addresses *)

Definition pin_of (bs : list Z) : PinnedAddress := Pinned (address (parsed_of bs)) (family (parsed_of bs)).

(** The bytes of a public address. *)
Definition public_bytes (bs : list Z) : Prop := address_bytes bs ∧ category_of_bytes bs = None.

(** An answer that denotes the address with these bytes. *)
Definition answer_denotes (answer : LookupAddress) (bs : list Z) : Prop :=
  ∃ p, parseIpAddress (la_address answer) = Some p ∧ bytes p = bs ∧ family_number (family p) = la_family answer.

(** IPv4 before IPv6, each in the order of its numbers. *)
Definition rank (bs : list Z) : Z := if Nat.eqb (length bs) 4 then number bs else 2 ^ 32 + number bs.

Lemma rank_inj bs rs : address_bytes bs → address_bytes rs → rank bs = rank rs → bs = rs.
Proof.
  intros [Hb Lb] [Hr Lr] E. pose proof (number_bound bs Hb) as Nb. pose proof (number_bound rs Hr) as Nr.
  unfold rank in E. destruct Lb as [Lb|Lb], Lr as [Lr|Lr]; rewrite Lb, Lr in *;
    cbn -[Z.pow number] in E, Nb, Nr; (apply number_inj; [done..|congruence|lia]) || lia.
Qed.

Lemma classified_parsed p bs : address_bytes bs → p = parsed_of bs →
  classified_pin p = Ok {| classified := p; isPublic := bool_decide (category_of_bytes bs = None);
                           category := category_of_bytes bs |}.
Proof.
  intros Hb ->. unfold classified_pin, classifyParsedAddress. by rewrite category_of_parsed.
Qed.

(** What becomes of a parsed address that has to be public. *)
Lemma require_public {A} s p (k : AddressClassification → result connection_thrown A) :
  parseIpAddress s = Some p →
  (classified_pin p ≫= k) =
    k {| classified := p; isPublic := bool_decide (category_of_bytes (bytes p) = None);
         category := category_of_bytes (bytes p) |}.
Proof.
  intros Hp. destruct (parseIpAddress_inv _ _ Hp) as [Hb E].
  by rewrite (classified_parsed p (bytes p) Hb E).
Qed.

(** How one answer is judged. *)
Inductive pinned_answer (answer : LookupAddress) : result connection_thrown PinnedAddress → Prop :=
| answer_public bs :
    answer_denotes answer bs → public_bytes bs → pinned_answer answer (Ok (pin_of bs))
| answer_local bs :
    answer_denotes answer bs → category_of_bytes bs ≠ None →
    pinned_answer answer (Err (PinnedConnectionError NonPublicAddress))
| answer_malformed :
    (∀ bs, ¬ answer_denotes answer bs) → pinned_answer answer (Err (PinnedConnectionError DnsFailure)).

Lemma pin_answer_spec answer : pinned_answer answer (pin_answer answer).
Proof.
  unfold pin_answer. destruct (parseIpAddress (la_address answer)) as [p|] eqn:Ep.
  2: { apply answer_malformed. intros bs (p & Hp & _). congruence. }
  destruct (family_number (family p) =? la_family answer) eqn:Ef; cbn [negb].
  2: { apply answer_malformed. intros bs (q & Hq & _ & Hf). breflect. congruence. }
  rewrite (require_public _ _ _ Ep). cbn [isPublic classified]. breflect.
  assert (Hden : answer_denotes answer (bytes p)) by (exists p; done).
  destruct (parseIpAddress_inv _ _ Ep) as [Hb E]. case_bool_decide as Hc; cbn [negb].
  - replace (Pinned (address p) (family p)) with (pin_of (bytes p)) by (unfold pin_of; by rewrite <-E).
    by apply answer_public.
  - by eapply answer_local.
Qed.

Lemma answer_denotes_inj answer bs rs : answer_denotes answer bs → answer_denotes answer rs → bs = rs.
Proof. intros (p & Hp & <- & _) (q & Hq & <- & _). congruence. Qed.

Lemma pin_of_inj bs rs : address_bytes bs → address_bytes rs → pin_of bs = pin_of rs → bs = rs.
Proof.
  intros Hb Hr [= E _]. apply parse_canonical in Hb, Hr. rewrite E, Hr in Hb.
  injection Hb as E'. assert (bytes (parsed_of rs) = bytes (parsed_of bs)) as Eb by congruence.
  unfold parsed_of in Eb. by destruct (Nat.eqb _ _), (Nat.eqb _ _).
Qed.

(** ** The order of addresses *)

Lemma compare_bytes_number bs rs :
  Forall is_byte bs → Forall is_byte rs → length bs = length rs →
  (compare_bytes bs rs ≤ 0 ↔ number bs ≤ number rs).
Proof.
  intros Hbs. revert rs. induction Hbs as [|b bs Hb Hbs IH]; intros rs Hrs Hl; [by destruct rs|].
  destruct rs as [|r rs]; [done|]. apply Forall_cons in Hrs as [Hr Hrs]. injection Hl as Hl.
  cbn [compare_bytes number]. pose proof (number_bound bs Hbs). pose proof (number_bound rs Hrs).
  rewrite <-Hl in *. destruct (b - r =? 0) eqn:E; cbn [negb]; breflect.
  - assert (b = r) as -> by lia. rewrite (IH rs) by done. lia.
  - unfold is_byte in *. nia.
Qed.

Lemma bytes_of_canonical bs : address_bytes bs → bytes_of_text (address (parsed_of bs)) = Ok bs.
Proof.
  intros Hb. unfold bytes_of_text. rewrite parse_canonical by done. unfold parsed_of. by destruct (Nat.eqb _ _).
Qed.

Lemma family_of bs : address_bytes bs → family (parsed_of bs) = if Nat.eqb (length bs) 4 then V4 else V6.
Proof. unfold parsed_of. by destruct (Nat.eqb _ _). Qed.

Lemma compare_rank bs rs : address_bytes bs → address_bytes rs →
  ∃ c, compareAddresses (pin_of bs) (pin_of rs) = Ok c ∧ (c ≤ 0 ↔ rank bs ≤ rank rs).
Proof.
  intros Hb Hr. unfold compareAddresses, pin_of. cbn [pinned_family pinned_address].
  rewrite !bytes_of_canonical, !family_of by done.
  destruct Hb as [Hb Lb], Hr as [Hr Lr]. unfold rank.
  pose proof (number_bound bs Hb) as Nb. pose proof (number_bound rs Hr) as Nr.
  destruct Lb as [Lb|Lb], Lr as [Lr|Lr]; rewrite Lb, Lr in *; cbn -[Z.pow compare_bytes] in *;
    eexists; (split; [done|]).
  - apply compare_bytes_number; [done..|congruence].
  - cbn. lia.
  - cbn. lia.
  - rewrite compare_bytes_number by (done || congruence). lia.
Qed.

(** ** Sorting *)

Notation ranked := (λ a b : list Z, rank a ≤ rank b).

Lemma insert_address_spec b bs :
  address_bytes b → Forall address_bytes bs → Sorted ranked bs →
  ∃ bs', insert_address (pin_of b) (pin_of <$> bs) = Ok (pin_of <$> bs') ∧ bs' ≡ₚ b :: bs ∧ Sorted ranked bs'.
Proof.
  intros Hb Hbs. induction Hbs as [|c bs Hc Hbs IH]; intros Hs; cbn [fmap list_fmap insert_address].
  { exists [b]. by repeat constructor. }
  destruct (compare_rank b c Hb Hc) as (z & -> & Hz). cbn. destruct (z <=? 0) eqn:E; breflect.
  - exists (b :: c :: bs). split_and!; [done..|]. constructor; [done|]. constructor. tauto.
  - apply Sorted_inv in Hs as [Hs Hhd]. destruct (IH Hs) as (bs' & Ei & Hp & Hs'). rewrite Ei. cbn.
    exists (c :: bs'). split_and!; [done|by rewrite Hp, Permutation_swap|].
    constructor; [done|]. destruct bs' as [|d bs']; [constructor|]. constructor.
    assert (Hd : d ∈ b :: bs) by (rewrite <-Hp; by left). apply elem_of_cons in Hd as [->|Hd]; [lia|].
    apply Sorted_extends in Hs'; [|intros x y z' Hxy Hyz; cbn in *; lia].
    destruct bs as [|e bs]; [by apply elem_of_nil in Hd|]. apply HdRel_inv in Hhd.
    assert (He : e ∈ d :: bs') by (rewrite Hp; right; by left). apply elem_of_cons in He as [->|He]; [done|].
    rewrite Forall_forall in Hs'. specialize (Hs' e He). clear -Hs' Hhd Hd Hs Hbs.
    apply elem_of_cons in Hd as [->|Hd]; [done|].
    apply Sorted_extends in Hs; [|intros x y z' Hxy Hyz; cbn in *; lia].
    rewrite Forall_forall in Hs. specialize (Hs d Hd). cbn in *. lia.
Qed.

Lemma sort_addresses_spec bs : Forall address_bytes bs →
  ∃ bs', sort_addresses (pin_of <$> bs) = Ok (pin_of <$> bs') ∧ bs' ≡ₚ bs ∧ Sorted ranked bs'.
Proof.
  induction 1 as [|b bs Hb Hbs (bs' & E & Hp & Hs)]; cbn [fmap list_fmap sort_addresses].
  { exists []. by repeat constructor. }
  rewrite E. cbn. destruct (insert_address_spec b bs' Hb) as (bs'' & Ei & Hp' & Hs'); [|done|].
  - by rewrite Hp.
  - exists bs''. split_and!; [done| |done]. by rewrite Hp', Hp.
Qed.

(** ** The map of distinct addresses *)

Lemma address_key_inj p q : address_key p = address_key q → p = q.
Proof.
  assert (H4 : pretty 4 = "4") by (by vm_compute). assert (H6 : pretty 6 = "6") by (by vm_compute).
  destruct p as [s f], q as [t g]. unfold address_key. cbn [pinned_address pinned_family].
  destruct f, g; cbn [family_number]; rewrite ?H4, ?H6; cbn; congruence.
Qed.

(** Every address is stored under its own key. *)
Definition keyed (m : jsmap string PinnedAddress) : Prop := Forall (λ e, e.1 = address_key e.2) m.

Lemma map_set_keyed p m : keyed m →
  map_set (address_key p) p m = if decide (p ∈ map_values m) then m else (m ++ [(address_key p, p)])%list.
Proof.
  induction 1 as [|[k q] m Hk Hm IH]; cbn -[address_key]; [done|]. cbn in Hk. rewrite IH. clear IH.
  destruct (decide (address_key p = k)) as [E|E].
  - rewrite Hk in E. apply address_key_inj in E as ->. rewrite Hk. by rewrite decide_True by by left.
  - assert (p ≠ q) by congruence. destruct (decide (p ∈ map_values m)) as [Hin|Hin].
    + by rewrite decide_True by by right.
    + rewrite decide_False; [done|]. by intros [?|?]%elem_of_cons.
Qed.

(** The public addresses a map holds. *)
Definition holds (m : jsmap string PinnedAddress) (bs : list (list Z)) : Prop :=
  keyed m ∧ map_values m = pin_of <$> bs ∧ Forall public_bytes bs.

Lemma holds_set m bs b : holds m bs → public_bytes b →
  ∃ bs', holds (map_set (address_key (pin_of b)) (pin_of b) m) bs' ∧ ∀ x, x ∈ bs' ↔ x = b ∨ x ∈ bs.
Proof.
  intros (Hk & Hv & Hp) Hb. rewrite map_set_keyed by done. case_decide as Hin.
  - exists bs. split; [done|]. intros x. split; [by right|]. intros [->|]; [|done].
    rewrite Hv in Hin. apply list_elem_of_fmap in Hin as (c & E & Hc).
    rewrite Forall_forall in Hp. destruct (Hp c Hc) as [Hbc _], Hb as [Hbb _].
    apply pin_of_inj in E; [|done..]. by subst.
  - exists (bs ++ [b])%list. split; [split_and!|].
    + apply Forall_app. split; [done|]. by apply Forall_singleton.
    + unfold map_values in *. by rewrite !fmap_app, Hv.
    + apply Forall_app. split; [done|]. by apply Forall_singleton.
    + intros x. rewrite elem_of_app, list_elem_of_singleton. tauto.
Qed.

Definition answer_public_at (answer : LookupAddress) (bs : list Z) : Prop := answer_denotes answer bs ∧ public_bytes bs.

(** The first answer that is not public decides the error. *)
Definition refused_at (answers : list LookupAddress) (code : ResolutionFailureCode) : Prop :=
  ∃ before answer after, answers = (before ++ answer :: after)%list ∧
    Forall (λ a, ∃ bs, answer_public_at a bs) before ∧
    match code with
    | NonPublicAddress => ∃ bs, answer_denotes answer bs ∧ category_of_bytes bs ≠ None
    | DnsFailure => ∀ bs, ¬ answer_denotes answer bs
    | _ => False
    end.

Lemma refused_cons a bs answers code :
  answer_public_at a bs → refused_at answers code → refused_at (a :: answers) code.
Proof.
  intros Ha (before & b & after & -> & Hb & Hc). exists (a :: before), b, after. split_and!; [done| |done].
  constructor; [by exists bs|done].
Qed.

Lemma deduplicate_spec answers m ks : holds m ks →
  match deduplicate answers m with
  | Ok m' => Forall (λ a, ∃ bs, answer_public_at a bs) answers ∧
      ∃ ks', holds m' ks' ∧ ∀ x, x ∈ ks' ↔ x ∈ ks ∨ ∃ a, a ∈ answers ∧ answer_public_at a x
  | Err (PinnedConnectionError code) => refused_at answers code
  | Err (OtherFailure _) => False
  end.
Proof.
  revert m ks. induction answers as [|a answers IH]; intros m ks Hm; cbn [deduplicate].
  { split; [done|]. exists ks. split; [done|]. intros x. split; [by left|]. intros [?|(a & ?%elem_of_nil & _)]; done. }
  pose proof (pin_answer_spec a) as Ha. destruct (pin_answer a) as [p|e] eqn:E; unfold mbind, result_bind.
  2: { inversion Ha; subst; exists [], a, answers; (split_and!; [done|constructor|by eauto]). }
  inversion Ha as [bs Hd Hp| |]; subst. clear Ha.
  destruct (holds_set m ks bs Hm Hp) as (ks1 & Hm1 & Hin1). specialize (IH _ _ Hm1).
  assert (Ha : answer_public_at a bs) by done.
  destruct (deduplicate answers _) as [m'|[code|]]; [|by eapply refused_cons|done].
  destruct IH as [Hall (ks' & Hk' & Hin')]. split; [constructor; [by exists bs|done]|].
  exists ks'. split; [done|]. intros x. rewrite Hin', Hin1. split.
  - intros [[->|Hx]|(b & Hb & Hx)]; [right; exists a; split; [by left|done]|by left|].
    right. exists b. split; [by right|done].
  - intros [Hx|(b & [->|Hb]%elem_of_cons & Hx)]; [left; by right| |].
    + left; left. by eapply answer_denotes_inj; [apply Hx|].
    + right. by exists b.
Qed.

(** ** The choice *)

Lemma select_spec answers :
  match select_address answers with
  | Ok p => ∃ bs, p = pin_of bs ∧ public_bytes bs ∧ (∃ a, a ∈ answers ∧ answer_denotes a bs) ∧
      ∀ a, a ∈ answers → ∃ cs, answer_denotes a cs ∧ public_bytes cs ∧ rank bs ≤ rank cs
  | Err (PinnedConnectionError DnsEmpty) => answers = []
  | Err (PinnedConnectionError code) => refused_at answers code
  | Err (OtherFailure _) => False
  end.
Proof.
  unfold select_address. destruct answers as [|a0 answers]; [done|]. cbn [length Nat.eqb].
  set (all := a0 :: answers).
  assert (H0 : holds [] []) by (split_and!; [constructor|done|constructor]).
  pose proof (deduplicate_spec all [] [] H0) as Hd. destruct (deduplicate all []) as [m|[code|]]; cbn [mbind result_bind].
  2: { destruct code; try done; destruct Hd as (? & ? & ? & _ & _ & []). }
  2: done.
  destruct Hd as [Hall (ks & (_ & Hv & Hp) & Hin)].
  assert (Hkb : Forall address_bytes ks) by (eapply Forall_impl; [exact Hp|]; by intros x []).
  destruct (sort_addresses_spec ks Hkb) as (ss & Es & Hperm & Hs).
  apply Forall_cons in Hall as Hall'. destruct Hall' as [(b0 & Hb0) _].
  assert (Hb0' : b0 ∈ ks) by (apply Hin; right; exists a0; split; [by left|done]).
  destruct m as [|e m]; [by destruct ks; [apply elem_of_nil in Hb0'|]|]. cbn [length Nat.eqb]. rewrite Hv, Es. cbn.
  destruct ss as [|s ss]; [by rewrite <-Hperm in Hb0'; apply elem_of_nil in Hb0'|]. cbn.
  assert (Hsk : s ∈ ks) by (rewrite <-Hperm; by left).
  exists s. split_and!; [done|by rewrite Forall_forall in Hp; apply Hp| |].
  - apply Hin in Hsk as [?%elem_of_nil|(a & Ha & Hd & _)]; [done|]. by exists a.
  - intros a Ha. rewrite Forall_forall in Hall. destruct (Hall a Ha) as (cs & Hc & Hpc). exists cs. split_and!; [done..|].
    assert (Hcs : cs ∈ s :: ss) by (rewrite Hperm; apply Hin; right; by exists a).
    apply elem_of_cons in Hcs as [->|Hcs]; [lia|].
    apply Sorted_extends in Hs; [|intros x y z Hxy Hyz; cbn in *; lia]. rewrite Forall_forall in Hs. by apply Hs.
Qed.

Lemma select_public_all answers :
  answers ≠ [] → (∀ a, a ∈ answers → ∃ bs, answer_public_at a bs) → ∃ p, select_address answers = Ok p.
Proof.
  intros Hne Hall. pose proof (select_spec answers) as Hs.
  destruct (select_address answers) as [p|[code|]]; [by exists p| |done]. exfalso.
  assert (Hr : ∀ c, refused_at answers c → False).
  { intros c (before & a & after & -> & _ & Hc). destruct (Hall a) as (bs & Hd & Hp); [apply elem_of_app; right; by left|].
    destruct c; try done; [by destruct (Hc bs)|]. destruct Hc as (cs & Hd' & Hn), Hp as [_ Hp].
    by rewrite (answer_denotes_inj _ _ _ Hd Hd') in Hp. }
  destruct code; eauto.
Qed.

(** C9: resolution pins the least public address of the whole answer. An
    address is chosen only when DNS answered something and every single answer
    is a numeric address of its stated family outside the special-use blocks;
    what is chosen is then the canonical text of the least of them, IPv4 before
    IPv6 and each in numeric order. Otherwise the first answer that is not a
    public address decides the error, an empty answer has its own, and no other
    error arises. The choice is one of the set of answers: neither their order
    nor repetitions among them can change it. *)
Theorem resolution_pins_the_least_public_address answers :
  match select_address answers with
  | Ok p => ∃ bs, p = pin_of bs ∧ public_bytes bs ∧ (∃ a, a ∈ answers ∧ answer_denotes a bs) ∧
      ∀ a, a ∈ answers → ∃ cs, answer_denotes a cs ∧ public_bytes cs ∧ rank bs ≤ rank cs
  | Err (PinnedConnectionError DnsEmpty) => answers = []
  | Err (PinnedConnectionError code) => refused_at answers code
  | Err (OtherFailure _) => False
  end ∧
  ∀ answers' p, (∀ a, a ∈ answers ↔ a ∈ answers') → select_address answers = Ok p → select_address answers' = Ok p.
Proof.
  split; [apply select_spec|]. intros answers' p Hset E. pose proof (select_spec answers) as Hs. rewrite E in Hs.
  destruct Hs as (bs & -> & Hb & (a & Ha & Hd) & Hall).
  destruct (select_public_all answers') as [q Eq].
  { intros ->. by apply Hset, elem_of_nil in Ha. }
  { intros b Hb'. destruct (Hall b) as (cs & ? & ? & _); [by apply Hset|]. by exists cs. }
  pose proof (select_spec answers') as Hs. rewrite Eq in Hs |- *. destruct Hs as (cs & -> & Hc & (c & Hc' & Hd') & Hall').
  do 2 f_equal. apply rank_inj; [apply Hc|apply Hb|].
  destruct (Hall c) as (x & Hx & _ & ?); [by apply Hset|]. rewrite (answer_denotes_inj _ _ _ Hx Hd') in *.
  destruct (Hall' a) as (y & Hy & _ & ?); [by apply Hset|]. rewrite (answer_denotes_inj _ _ _ Hy Hd) in *. lia.
Qed.

(** ** The connector *)

Notation calls := (list (Programs.event network_answer unit)).
Definition record_network (h : calls) (e : Programs.event network_answer unit) : calls := (h ++ [e])%list.

Definition was_answered (h : calls) (c : network_call) (r : network_answer c) : Prop := ∃ w, Event c r w ∈ h.
Definition was_called (h : calls) (c : network_call) : Prop := ∃ r, was_answered h c r.

Lemma answered_here h c r w : was_answered (record_network h (Event c r w)) c r.
Proof. exists w. apply elem_of_app. right. by apply list_elem_of_singleton. Qed.
Lemma host_answered_before h e c r : was_answered h c r → was_answered (record_network h e) c r.
Proof. intros [w Hw]. exists w. apply elem_of_app. by left. Qed.
Lemma called_inv h e c : was_called (record_network h e) c → was_called h c ∨ ev_call e = c.
Proof.
  intros (r & w & Hw). apply elem_of_app in Hw as [Hw|Hw%list_elem_of_singleton]; [left; by exists r, w|].
  right. by subst.
Qed.
(** The socket an event created. *)
Definition new_socket (e : Programs.event network_answer unit) : option nat :=
  match e with
  | Event c r _ => match c return network_answer c → option nat with NewSocket => Some | _ => λ _, None end r
  end.
Lemma socket_inv h e t :
  was_answered (record_network h e) NewSocket t → was_answered h NewSocket t ∨ new_socket e = Some t.
Proof.
  intros [w Hw]. apply elem_of_app in Hw as [Hw|Hw%list_elem_of_singleton]; [left; by exists w|].
  right. by apply (f_equal new_socket) in Hw.
Qed.
Lemma not_called_nil c : ¬ was_called [] c.
Proof. by intros (r & w & ?%elem_of_nil). Qed.

Section connector.
Context (host : NormalizedDestinationHost) (port : Z) (deadline : SetupDeadline).

(** The address that the host stands for: its own literal, or the choice among
    what DNS answered. *)
Definition chosen (h : calls) (bs : list Z) : Prop :=
  match nh_kind host with
  | KindIp => ∃ p, parseIpAddress (nh_host host) = Some p ∧ bytes p = bs
  | KindDomain => ∃ answers, was_answered h (LookupHost (nh_host host)) (Settled (Ok answers)) ∧
                    select_address answers = Ok (pin_of bs)
  end.

(** What the connector may do after a history of calls. *)
Definition licensed (h : calls) (c : network_call) : Prop :=
  match c with
  | Clock => True
  | LookupHost name => name = nh_host host ∧ nh_kind host = KindDomain ∧ ∀ n, ¬ was_called h (LookupHost n)
  | NewSocket => ¬ was_called h NewSocket
  | SocketConnect socket text to f =>
      was_answered h NewSocket socket ∧ to = port ∧ 1 ≤ port ≤ 65535 ∧
      ∃ bs, public_bytes bs ∧ chosen h bs ∧ text = address (parsed_of bs) ∧ f = family (parsed_of bs)
  | AwaitConnection socket | DestroySocket socket => was_answered h NewSocket socket
  end.

(** How an attempt ends: with the one socket connected and kept, or with a
    pinned error and no socket left. *)
Definition connector_ends (o : outcome Empty_set connection_thrown PinnedConnection) (h : calls) : Prop :=
  match o with
  | Next c => was_answered h NewSocket (pc_socket c) ∧
      was_answered h (AwaitConnection (pc_socket c)) (Settled (Ok tt)) ∧
      (∀ s, ¬ was_called h (DestroySocket s)) ∧ 1 ≤ port ≤ 65535 ∧
      ∃ bs, public_bytes bs ∧ chosen h bs ∧ pc_address c = pin_of bs
  | Throw (PinnedConnectionError _) => ∀ s, was_answered h NewSocket s → was_called h (DestroySocket s)
  | Throw (OtherFailure _) => False
  | Return r => match r with end
  end.

Lemma chosen_before h e bs : chosen h bs → chosen (record_network h e) bs.
Proof.
  unfold chosen. destruct (nh_kind host); [|done]. intros (answers & Ha & Hs). exists answers.
  split; [by apply host_answered_before|done].
Qed.

Lemma pin_literal_spec : nh_kind host = KindIp →
  match pin_literal host with
  | Ok p => ∃ bs, p = pin_of bs ∧ public_bytes bs ∧ chosen [] bs
  | Err (PinnedConnectionError _) => True
  | Err (OtherFailure _) => False
  end.
Proof.
  intros Hk. unfold pin_literal. destruct (parseIpAddress (nh_host host)) as [p|] eqn:Ep; [|done].
  destruct (nh_family host) as [f|]; [|done]. case_bool_decide; cbn [negb]; [|done].
  rewrite (require_public _ _ _ Ep). cbn [isPublic classified]. destruct (parseIpAddress_inv _ _ Ep) as [Hb E].
  case_bool_decide; cbn [negb]; [|done]. exists (bytes p). split_and!; [unfold pin_of; by rewrite <-E|done|].
  unfold chosen. rewrite Hk. by exists p.
Qed.

Lemma dialable_spec bs : public_bytes bs →
  match dialable (pin_of bs) port with
  | Ok a => classified a = parsed_of bs ∧ 1 ≤ port ≤ 65535
  | Err (PinnedConnectionError _) => True
  | Err (OtherFailure _) => False
  end.
Proof.
  intros [Hb Hp]. unfold dialable, pin_of. cbn [pinned_address pinned_family].
  destruct (_ || _) eqn:E; [done|]. apply orb_false_iff in E as [E E3]. apply orb_false_iff in E as [_ E2]. breflect.
  pose proof (parse_canonical bs Hb) as Hc. rewrite Hc. rewrite bool_decide_true by done. cbn [negb].
  rewrite (require_public _ _ _ Hc). cbn [isPublic classified].
  assert (bytes (parsed_of bs) = bs) as -> by (unfold parsed_of; by destruct (Nat.eqb _ _)).
  rewrite Hp. cbn. split; [done|lia].
Qed.

Notation runs p h Q := (wp licensed record_network (p tt) h (λ os h', Q os.1 h')).

Lemma dial_ends bs h : public_bytes bs → chosen h bs →
  ¬ was_called h NewSocket → (∀ s, ¬ was_called h (DestroySocket s)) →
  runs (dial (pin_of bs) port deadline) h (λ o h', connector_ends (match o with
    | Next s => Next {| pc_socket := s; pc_address := pin_of bs |}
    | Return r => Return r
    | Throw e => Throw e
    end) h').
Proof.
  intros Hb Hc Hn Hd. unfold dial. pose proof (dialable_spec bs Hb) as Hs.
  destruct (dialable (pin_of bs) port) as [a|[code|]]; [| |done].
  2: { cbn. intros s Hs'. destruct Hn. by exists s. }
  destruct Hs as [Ha Hp]. cbn. split; [done|]. intros s v0. split.
  { split_and!; [apply answered_here|done|lia|lia|]. exists bs.
    split_and!; [done|by apply chosen_before|by rewrite Ha|by rewrite Ha]. }
  intros u v. split; [done|]. intros time v'. split; [apply host_answered_before, host_answered_before, answered_here|].
  set (h1 := record_network h _). intros outcome v2.
  set (h2 := record_network h1 _). set (h3 := record_network h2 _). set (h4 := record_network h3 _).
  assert (H1 : ∀ t, was_answered h4 NewSocket t → t = s).
  { intros t Ht. repeat (apply socket_inv in Ht as [Ht|Ht]; [|try done; by injection Ht as <-]).
    destruct Hn. by exists t. }
  assert (H4 : was_answered h4 NewSocket s) by (do 3 apply host_answered_before; apply answered_here).
  assert (Hno : ∀ t, ¬ was_called h4 (DestroySocket t)).
  { intros t Ht. repeat (apply called_inv in Ht as [Ht|Ht]; [|done]). by apply (Hd t). }
  assert (Hend : ∀ d, let h5 := record_network h4 (Event (DestroySocket s) d tt) in
    ∀ t, was_answered h5 NewSocket t → was_called h5 (DestroySocket t)).
  { intros d h5 t Ht. apply socket_inv in Ht as [Ht|Ht]; [|done]. apply H1 in Ht as ->. exists d. apply answered_here. }
  destruct (_ <=? 0); [|destruct outcome as [[[]|]|]]; cbn.
  all: try (split; [exact H4|intros d []; exact (Hend d)]).
  split_and!; [exact H4|apply answered_here|exact Hno|lia|lia|].
  exists bs. split_and!; [done| |done]. by do 4 apply chosen_before.
Qed.

(** Dialing what was chosen. *)
Definition dial_chosen (r : result connection_thrown PinnedAddress) : net PinnedConnection :=
  p ← lift_ r; socket ← dial p port deadline; mret {| pc_socket := socket; pc_address := p |}.

Lemma dial_chosen_ends r h :
  match r with
  | Ok p => ∃ bs, p = pin_of bs ∧ public_bytes bs ∧ chosen h bs
  | Err (PinnedConnectionError _) => True
  | Err (OtherFailure _) => False
  end →
  ¬ was_called h NewSocket → (∀ s, ¬ was_called h (DestroySocket s)) →
  runs (dial_chosen r) h connector_ends.
Proof.
  intros Hr Hn Hd. destruct r as [p|[code|]]; [| |done].
  2: { cbn. intros s Hs. destruct Hn. by exists s. }
  destruct Hr as (bs & -> & Hb & Hc).
  unfold dial_chosen, lift_, mbind, stmt_bind, mret, stmt_ret. cbn [prog_bind]. apply wp_bind.
  eapply wp_mono; [|by apply (dial_ends bs h)]. intros [[s|r|e] []] h' Hend; exact Hend.
Qed.

(** One lookup, under the deadline. *)
Lemma lookup_ends : nh_kind host = KindDomain →
  runs (or_failure (timeoutPromise (network (LookupHost (nh_host host))) deadline DnsTimeout) DnsFailure (mret tt)) []
    (λ (o : outcome Empty_set connection_thrown (list LookupAddress)) h, ¬ was_called h NewSocket ∧ (∀ s, ¬ was_called h (DestroySocket s)) ∧
      match o with
      | Next answers => was_answered h (LookupHost (nh_host host)) (Settled (Ok answers))
      | Throw (PinnedConnectionError _) => True
      | Throw (OtherFailure _) => False
      | Return r => match r with end
      end).
Proof.
  intros Ek. cbn. split; [done|]. intros time v. split.
  { split_and!; [done..|]. intros n Hn. by apply called_inv in Hn as [?%not_called_nil|]. }
  intros outcome v'. set (h := record_network _ _).
  assert (Hn : ∀ c, c = NewSocket ∨ (∃ s, c = DestroySocket s) → ¬ was_called h c).
  { intros c Hc H. repeat (apply called_inv in H as [H|H]; [|cbn in H; naive_solver]). by apply not_called_nil in H. }
  assert (Hn' : ∀ s, ¬ was_called h (DestroySocket s)) by eauto.
  destruct (_ <=? 0); [|destruct outcome as [[answers|]|]]; cbn; (split_and!; [by eauto|exact Hn'|]); try done.
  exists v'. right. by left.
Qed.

Lemma connect_ends : runs (connect host port deadline) [] connector_ends.
Proof.
  unfold connect, resolve. destruct (nh_kind host) eqn:Ek.
  - rewrite bool_decide_false by done. unfold mbind at 1, stmt_bind at 1. apply wp_bind.
    unfold mbind at 1, stmt_bind at 1. apply wp_bind. eapply wp_mono; [|by apply lookup_ends].
    intros [[answers|[]|[code|]] []] h (Hn & Hd & Ho); [| |done].
    + pose proof (dial_chosen_ends (select_address answers) h) as H. pose proof (select_spec answers) as Hs.
      assert (Hc : match select_address answers with
        | Ok p => ∃ bs, p = pin_of bs ∧ public_bytes bs ∧ chosen h bs
        | Err (PinnedConnectionError _) => True
        | Err (OtherFailure _) => False
        end).
      { destruct (select_address answers) as [p|[|]] eqn:Es; [|done..]. destruct Hs as (bs & -> & Hb & _).
        exists bs. split_and!; [done..|]. unfold chosen. rewrite Ek. by exists answers. }
      specialize (H Hc Hn Hd). clear Hs Hc. unfold dial_chosen in H. by destruct (select_address answers).
    + cbn. intros s Hs. destruct Hn. by exists s.
  - rewrite bool_decide_true by done. pose proof (pin_literal_spec Ek) as Hp.
    apply (dial_chosen_ends (pin_literal host) []); [done|apply not_called_nil|intros s; apply not_called_nil].
Qed.
End connector.

Lemma after_calls (h h' : calls) : after_history record_network h h' = (h ++ h')%list.
Proof.
  revert h. induction h' as [|e h' IH]; intros h; [by rewrite app_nil_r|].
  unfold after_history in *. cbn [fold_left]. rewrite IH. unfold record_network. by rewrite <-app_assoc.
Qed.

(** A run after a history is a run of its own, against the environment that
    remembers that history. *)
Lemma run_after {A} (p : prog network_answer unit A) env pre h :
  run_prog env (pre ++ h)%list p =
    let '(a, h') := run_prog (λ past, env (pre ++ past)%list) h p in (a, (pre ++ h')%list).
Proof.
  revert h. induction p as [a|c k IH]; intros h; cbn; [done|].
  destruct (env (pre ++ h)%list c) as [r w]. by rewrite <-app_assoc, IH.
Qed.

(** Where an attempt ends, whatever came before it. *)
Lemma connect_run_ends host port deadline env pre o u h :
  run_prog env pre (connect host port deadline tt) = ((o, u), h) →
  ∃ h', h = (pre ++ h')%list ∧ connector_ends host port o h'.
Proof.
  intros Hrun. rewrite <-(app_nil_r pre), run_after in Hrun.
  pose proof (wp_run (licensed host port) record_network (connect host port deadline tt) []
    (λ os h', connector_ends host port os.1 h') (λ past, env (pre ++ past)%list) []) as H.
  destruct (run_prog _ [] _) as [[o' u'] h']. injection Hrun as -> -> <-. destruct H as (Hq & _ & _).
  - intros [|x before] e' rest E; discriminate.
  - apply connect_ends.
  - rewrite after_calls in Hq. by exists h'.
Qed.

(** C8: only pinned addresses are dialed. However DNS, the clock and the
    sockets answer, one attempt to connect looks up at most the host's own name,
    once and never for a literal; creates at most one socket; and connects it
    only to the requested port, a valid one, of a public numeric address which is
    the host's own literal or the choice from the one answer. It ends with that
    socket connected and not destroyed, reporting the address it was connected
    to, or with a pinned error and its socket destroyed; no other error escapes. *)
Theorem connections_are_pinned host port deadline env :
  let '((o, _), h) := run_prog env [] (connect host port deadline tt) in
  (∀ before e rest, h = (before ++ e :: rest)%list → licensed host port before (ev_call e)) ∧
  connector_ends host port o h.
Proof.
  pose proof (wp_run (licensed host port) record_network (connect host port deadline tt) []
    (λ os h', connector_ends host port os.1 h') env []) as H.
  destruct (run_prog env [] _) as [[o u] h]. destruct H as (Hq & Hr & _).
  - intros [|x before] e' rest E; discriminate.
  - apply connect_ends.
  - rewrite after_calls in Hq. split; [|exact Hq]. intros before e rest E. specialize (Hr before e rest E).
    by rewrite after_calls in Hr.
Qed.
