(* ===== verification/Connections.v ===== *)
(** The connections of the egress proxies ([src/server/network/connections.ts]):
    the shared limit on outbound connections, the set that owns every stream, the
    relay between two streams under one byte budget, and the budget of HTTP
    streams. Each is a state with one operation per method or listener. *)
From S2P Require Import Prelude JsValues.
#[local] Open Scope Z_scope.

(** src/server/network/connections.ts:5-9 ConnectionLimits *)
Record ConnectionLimits := { maxConnections : Z; idleTimeoutMs : Z; maxConnectionBytes : Z }.

(** [Number.isSafeInteger(n) && n > 0] *)
Definition positive_safe (n : Z) : bool := isSafeInteger n && (0 <? n).

(** ** The limit *)

(** A lease is the closure that [acquire] returned; [released] are the leases
    whose flag is set. *)
(** src/server/network/connections.ts:11-13 ConnectionAdmission *)
Record ConnectionAdmission := {
  maximum : Z;
  ad_active : Z;
  ad_closed : bool;
  issued : nat;
  released : gset nat;
}.
#[export] Instance ConnectionAdmission_spread : Spread ConnectionAdmission := λ r,
  {| maximum := maximum r; ad_active := ad_active r; ad_closed := ad_closed r; issued := issued r; released := released r |}.

(** [None] is the TypeError of an invalid maximum. *)
(** src/server/network/connections.ts:15-19 constructor *)
Definition newConnectionAdmission (maximum : Z) : option ConnectionAdmission :=
  if positive_safe maximum
  then Some {| maximum := maximum; ad_active := 0; ad_closed := false; issued := 0; released := ∅ |}
  else None.

(** src/server/network/connections.ts:24-27 acquire *)
Definition acquire (a : ConnectionAdmission) : option nat * ConnectionAdmission :=
  if ad_closed a || (maximum a <=? ad_active a) then (None, a)
  else (Some (issued a), (a <| ad_active := ad_active a + 1 |>) <| issued := S (issued a) |>).

(** src/server/network/connections.ts:27-32 release *)
Definition release (lease : nat) (a : ConnectionAdmission) : ConnectionAdmission :=
  if bool_decide (lease ∈ released a) then a
  else (a <| released := {[lease]} ∪ released a |>) <| ad_active := ad_active a - 1 |>.

(** src/server/network/connections.ts:35-35 stop *)
Definition stop (a : ConnectionAdmission) : ConnectionAdmission := a <| ad_closed := true |>.

(** ** The set of streams *)

(** Streams are named by numbers; [cs_destroyed] are those the set destroyed. *)
(** src/server/network/connections.ts:39-41 ConnectionSet *)
Record ConnectionSet := { cs_streams : list nat; cs_closed : bool; cs_destroyed : list nat }.
#[export] Instance ConnectionSet_spread : Spread ConnectionSet := λ r,
  {| cs_streams := cs_streams r; cs_closed := cs_closed r; cs_destroyed := cs_destroyed r |}.

Definition newConnectionSet : ConnectionSet := {| cs_streams := []; cs_closed := false; cs_destroyed := [] |}.

(** [set.add(x)] of a [Set] *)
Definition set_add (x : nat) (xs : list nat) : list nat := if bool_decide (x ∈ xs) then xs else (xs ++ [x])%list.

(** src/server/network/connections.ts:43-52 add *)
Definition add_stream (stream : nat) (c : ConnectionSet) : ConnectionSet :=
  if cs_closed c then c <| cs_destroyed := (cs_destroyed c ++ [stream])%list |>
  else c <| cs_streams := set_add stream (cs_streams c) |>.

(** The [close] event of a stream, or [delete]. *)
(** src/server/network/connections.ts:54-54 delete *)
Definition delete_stream (stream : nat) (c : ConnectionSet) : ConnectionSet :=
  c <| cs_streams := filter (λ s, s ≠ stream) (cs_streams c) |>.

(** src/server/network/connections.ts:57-62 closeAll *)
Definition closeAll (c : ConnectionSet) : ConnectionSet :=
  if cs_closed c then c
  else {| cs_streams := []; cs_closed := true; cs_destroyed := (cs_destroyed c ++ cs_streams c)%list |}.

(** ** The relay *)

(** A Buffer. *)
Notation chunk := (list Z).
Definition byteLength (c : chunk) : Z := Z.of_nat (length c).

Inductive side := Left | Right.
#[export] Instance side_eq : EqDecision side.
Proof. solve_decision. Defined.
Definition peer (s : side) : side := match s with Left => Right | Right => Left end.

(** One of the two streams as the relay uses it: whether it was destroyed, ended
    or paused, what was written to it, and how many [drain] listeners wait on it. *)
Record endpoint := {
  ep_destroyed : bool;
  ep_ended : bool;
  ep_paused : bool;
  ep_written : list chunk;
  ep_drains : nat;
}.
#[export] Instance endpoint_spread : Spread endpoint := λ r,
  {| ep_destroyed := ep_destroyed r; ep_ended := ep_ended r; ep_paused := ep_paused r; ep_written := ep_written r; ep_drains := ep_drains r |}.
Definition fresh_endpoint : endpoint :=
  {| ep_destroyed := false; ep_ended := false; ep_paused := false; ep_written := []; ep_drains := 0 |}.

(** src/server/network/connections.ts:65-71 RelayOptions *)
Record RelayOptions := {
  relayIdleTimeoutMs : Z;
  relayMaxBytes : Z;
  initialLeftToRight : option chunk;
  initialRightToLeft : option chunk;
}.

(** The variables of the closure; [rl_idle] is whether the idle timer runs,
    [rl_closes] how often [onClose] was called. *)
(** src/server/network/connections.ts:84-86 relayVariables *)
Record relay := {
  rl_bytes : Z;
  rl_closed : bool;
  rl_idle : bool;
  rl_left : endpoint;
  rl_right : endpoint;
  rl_closes : nat;
}.
#[export] Instance relay_spread : Spread relay := λ r,
  {| rl_bytes := rl_bytes r; rl_closed := rl_closed r; rl_idle := rl_idle r; rl_left := rl_left r; rl_right := rl_right r; rl_closes := rl_closes r |}.

Definition end_of (s : side) (r : relay) : endpoint := match s with Left => rl_left r | Right => rl_right r end.
Definition on_end (s : side) (f : endpoint → endpoint) (r : relay) : relay :=
  match s with Left => r <| rl_left := f (rl_left r) |> | Right => r <| rl_right := f (rl_right r) |> end.

(** src/server/network/connections.ts:88-95 close *)
Definition close_relay (r : relay) : relay :=
  if rl_closed r then r
  else
    let r := (r <| rl_closed := true |>) <| rl_idle := false |> in
    let r := on_end Left (λ e, e <| ep_destroyed := true |>) r in
    let r := on_end Right (λ e, e <| ep_destroyed := true |>) r in
    r <| rl_closes := S (rl_closes r) |>.

(** src/server/network/connections.ts:96-100 armIdle *)
Definition arm_idle (r : relay) : relay := r <| rl_idle := true |>.

Section relay.
Context (options : RelayOptions).

(** src/server/network/connections.ts:101-109 account *)
Definition account (c : chunk) (r : relay) : bool * relay :=
  let r := r <| rl_bytes := rl_bytes r + byteLength c |> in
  if relayMaxBytes options <? rl_bytes r then (false, close_relay r) else (true, arm_idle r).

(** [accepted] is what [destination.write] returned. *)
(** src/server/network/connections.ts:110-116 forward *)
Definition forward (source : side) (c : chunk) (accepted : bool) (r : relay) : relay :=
  let '(ok, r) := account c r in
  if negb ok then r
  else
    let r := on_end (peer source) (λ e, e <| ep_written := (ep_written e ++ [c])%list |>) r in
    if accepted then r
    else
      let r := on_end source (λ e, e <| ep_paused := true |>) r in
      on_end (peer source) (λ e, e <| ep_drains := S (ep_drains e) |>) r.

(** src/server/network/connections.ts:128-131 writeInitial *)
Definition write_initial (destination : side) (c : option chunk) (r : relay) : relay :=
  match c with
  | None => r
  | Some c =>
      if byteLength c =? 0 then r
      else
        let '(ok, r) := account c r in
        if ok then on_end destination (λ e, e <| ep_written := (ep_written e ++ [c])%list |>) r else r
  end.

(** [None] is the TypeError of invalid limits. *)
(** src/server/network/connections.ts:78-135 relayBidirectional *)
Definition relayBidirectional : option relay :=
  if negb (positive_safe (relayIdleTimeoutMs options)) || negb (positive_safe (relayMaxBytes options)) then None
  else
    let r := {| rl_bytes := 0; rl_closed := false; rl_idle := false; rl_left := fresh_endpoint;
                rl_right := fresh_endpoint; rl_closes := 0 |} in
    let r := arm_idle r in
    let r := write_initial Right (initialLeftToRight options) r in
    Some (write_initial Left (initialRightToLeft options) r).

(** What happens to the streams and the timer. *)
Inductive relay_event :=
| DataFrom (source : side) (c : chunk) (accepted : bool)
| EndOf (source : side)
| ErrorOf (source : side)
| CloseOf (source : side)
| DrainOf (destination : side)
| IdleFires.

(** A stream emits no data while it is paused or once it was destroyed, and the
    timer fires only while it runs. *)
Definition may_happen (e : relay_event) (r : relay) : bool :=
  match e with
  | DataFrom s _ _ => negb (ep_paused (end_of s r)) && negb (ep_destroyed (end_of s r))
  | EndOf s | DrainOf s => negb (ep_destroyed (end_of s r))
  | ErrorOf _ | CloseOf _ => true
  | IdleFires => rl_idle r
  end.

(** The listeners; those of [drain] resume the other side, once each. *)
(** src/server/network/connections.ts:118-126 listeners *)
Definition on_relay_event (e : relay_event) (r : relay) : relay :=
  match e with
  | DataFrom s c accepted => forward s c accepted r
  | EndOf s => if rl_closed r then r else on_end (peer s) (λ e, e <| ep_ended := true |>) r
  | ErrorOf _ | CloseOf _ | IdleFires => close_relay r
  | DrainOf d =>
      if Nat.eqb (ep_drains (end_of d r)) 0 then r
      else
        let r' := on_end d (λ e, e <| ep_drains := 0%nat |>) r in
        if rl_closed r then r' else on_end (peer d) (λ e, e <| ep_paused := false |>) r'
  end.

(** [None] where an event cannot happen. *)
Fixpoint run_relay (es : list relay_event) (r : relay) : option relay :=
  match es with
  | [] => Some r
  | e :: es => if may_happen e r then run_relay es (on_relay_event e r) else None
  end.
End relay.

(** ** The budget of HTTP streams *)

(** [bg_timer]: the idle timer runs; [bg_closes]: how often [close] was called. *)
(** src/server/network/connections.ts:138-141 StreamBudget *)
Record StreamBudget := { bg_bytes : Z; bg_closed : bool; bg_timer : bool; bg_closes : nat }.
#[export] Instance StreamBudget_spread : Spread StreamBudget := λ r,
  {| bg_bytes := bg_bytes r; bg_closed := bg_closed r; bg_timer := bg_timer r; bg_closes := bg_closes r |}.

Section budget.
Context (idleTimeout maxBytes : Z).

(** src/server/network/connections.ts:175-179 dispose *)
Definition dispose_budget (b : StreamBudget) : StreamBudget :=
  if bg_closed b then b else (b <| bg_closed := true |>) <| bg_timer := false |>.

Definition call_close (b : StreamBudget) : StreamBudget := b <| bg_closes := S (bg_closes b) |>.

(** src/server/network/connections.ts:165-173 touch *)
Definition touch (b : StreamBudget) : StreamBudget := if bg_closed b then b else b <| bg_timer := true |>.

(** The timer's function. *)
(** src/server/network/connections.ts:168-171 idleExpired *)
Definition idle_expired (b : StreamBudget) : StreamBudget :=
  call_close (dispose_budget (b <| bg_timer := false |>)).

(** src/server/network/connections.ts:153-163 account *)
Definition account_budget (c : chunk) (b : StreamBudget) : bool * StreamBudget :=
  if bg_closed b then (false, b)
  else
    let b := b <| bg_bytes := bg_bytes b + byteLength c |> in
    if maxBytes <? bg_bytes b then (false, call_close (dispose_budget b)) else (true, touch b).

(** [None] is the TypeError of invalid limits. *)
(** src/server/network/connections.ts:143-151 constructor *)
Definition newStreamBudget : option StreamBudget :=
  if negb (positive_safe idleTimeout) || negb (positive_safe maxBytes) then None
  else Some (touch {| bg_bytes := 0; bg_closed := false; bg_timer := false; bg_closes := 0 |}).
End budget.

(** What the connections of the proxies guarantee: the relay is a bounded pipe,
    leases are counted, and no stream survives the set that owns it. *)
#[local] Open Scope Z_scope.

(** ** Leases *)

Inductive admission_op := Acquire | Release (lease : nat) | Stop.

(** A lease can only be released by who was given it. *)
Definition admission_step (op : admission_op) (a : ConnectionAdmission) : ConnectionAdmission :=
  match op with
  | Acquire => (acquire a).2
  | Release lease => if (lease <? issued a)%nat then release lease a else a
  | Stop => stop a
  end.

(** Active leases are those issued and not released, and within the maximum. *)
Record admission_ok (a : ConnectionAdmission) : Prop := {
  leases_known : ∀ l, l ∈ released a → (l < issued a)%nat;
  leases_counted : ad_active a = Z.of_nat (issued a) - Z.of_nat (size (released a));
  leases_bounded : ad_active a ≤ maximum a;
}.

Lemma released_size a : admission_ok a → (size (released a) ≤ issued a)%nat.
Proof.
  intros Ha. rewrite <-(size_set_seq (C := gset nat) 0 (issued a)). apply subseteq_size.
  intros l Hl. apply elem_of_set_seq. pose proof (leases_known a Ha l Hl). lia.
Qed.

Lemma new_admission_ok m a : newConnectionAdmission m = Some a → admission_ok a ∧ maximum a = m ∧ 0 < m.
Proof.
  unfold newConnectionAdmission, positive_safe. destruct (_ && _) eqn:E; [|done]. intros [= <-]. breflect.
  split_and!; [|done|lia]. constructor; cbn; [set_solver|by rewrite size_empty|lia].
Qed.

Lemma acquire_ok a : admission_ok a → admission_ok (acquire a).2 ∧ maximum (acquire a).2 = maximum a.
Proof.
  intros [Hk Hc Hb]. unfold acquire. destruct (_ || _) eqn:E; [done|]. apply orb_false_iff in E as [_ E]. breflect.
  split; [|done]. constructor; cbn; [|lia|lia]. intros l Hl. specialize (Hk l Hl). lia.
Qed.

Lemma release_ok l a : admission_ok a → (l < issued a)%nat →
  admission_ok (release l a) ∧ maximum (release l a) = maximum a.
Proof.
  intros Ha Hl. unfold release. case_bool_decide as Hin; [done|]. destruct Ha as [Hk Hc Hb].
  split; [|done]. constructor; cbn; [|rewrite size_union by set_solver; rewrite size_singleton; lia|lia].
  intros l' [->%elem_of_singleton|Hl']%elem_of_union; [done|by apply Hk].
Qed.

Lemma admission_step_ok op a : admission_ok a →
  admission_ok (admission_step op a) ∧ maximum (admission_step op a) = maximum a.
Proof.
  intros Ha. destruct op as [|l|]; cbn [admission_step].
  - by apply acquire_ok.
  - destruct (l <? issued a)%nat eqn:E; [|done]. apply Nat.ltb_lt in E. by apply release_ok.
  - split; [|done]. by destruct Ha.
Qed.

(** An active lease holds its place until it is released. *)
Lemma active_nonneg a : admission_ok a → 0 ≤ ad_active a.
Proof. intros Ha. pose proof (released_size a Ha). pose proof (leases_counted a Ha). lia. Qed.

(** ** The set of streams *)

(** Every stream that was added and did not close is still owned, or destroyed. *)
Definition set_owns (c : ConnectionSet) (s : nat) : Prop := s ∈ cs_streams c ∨ s ∈ cs_destroyed c.

Lemma add_owned s c : set_owns (add_stream s c) s.
Proof.
  unfold add_stream, set_owns. destruct (cs_closed c); cbn; [right; apply elem_of_app; right; by left|].
  left. unfold set_add. case_bool_decide; [done|]. apply elem_of_app. right. by left.
Qed.
Lemma add_keeps s t c : set_owns c t → set_owns (add_stream s c) t.
Proof.
  unfold add_stream, set_owns, set_add. destruct (cs_closed c); cbn; intros [H|H]; [by left| |left|by right].
  - right. apply elem_of_app. by left.
  - case_bool_decide; [done|]. apply elem_of_app. by left.
Qed.
Lemma delete_keeps s t c : set_owns c t → t ≠ s → set_owns (delete_stream s c) t.
Proof.
  unfold set_owns, delete_stream. cbn. intros [H|H] Hn; [left|by right]. by apply list_elem_of_filter.
Qed.

(** A closed set owns no stream that it has not destroyed. *)
Definition set_closed_empty (c : ConnectionSet) : Prop := cs_closed c = true → cs_streams c = [].

Lemma closeAll_destroys c s : set_owns c s → set_closed_empty c → s ∈ cs_destroyed (closeAll c).
Proof.
  unfold set_owns, set_closed_empty, closeAll. intros H Hc. destruct (cs_closed c) eqn:E; cbn.
  - rewrite Hc in H by done. destruct H as [?%elem_of_nil|]; done.
  - apply elem_of_app. naive_solver.
Qed.
Lemma closed_empty_kept s c : set_closed_empty c →
  set_closed_empty (add_stream s c) ∧ set_closed_empty (delete_stream s c) ∧ set_closed_empty (closeAll c).
Proof.
  unfold set_closed_empty, add_stream, delete_stream, closeAll. intros Hc. split_and!.
  - destruct (cs_closed c) eqn:E; cbn; [auto|by rewrite E].
  - cbn. intros E. by rewrite Hc.
  - destruct (cs_closed c) eqn:E; cbn; auto.
Qed.

(** ** The relay *)

Fixpoint chunk_bytes (cs : list chunk) : Z :=
  match cs with [] => 0 | c :: cs => byteLength c + chunk_bytes cs end.
Lemma chunk_bytes_app cs ds : chunk_bytes (cs ++ ds) = chunk_bytes cs + chunk_bytes ds.
Proof. induction cs as [|c cs IH]; cbn -[byteLength]; [done|]. lia. Qed.
Lemma byteLength_nonneg c : 0 ≤ byteLength c.
Proof. unfold byteLength. lia. Qed.
Lemma chunk_bytes_nonneg cs : 0 ≤ chunk_bytes cs.
Proof. induction cs as [|c cs IH]; cbn -[byteLength]; [done|]. pose proof (byteLength_nonneg c). lia. Qed.

(** The chunks a side sent. *)
Definition received (s : side) (es : list relay_event) : list chunk :=
  omap (λ e, match e with DataFrom s' c _ => if bool_decide (s' = s) then Some c else None | _ => None end) es.

Section relay.
Context (options : RelayOptions).
Notation run := (run_relay options).

(** What has to be written to a side: its initial data and what the other sent. *)
Definition initial_for (d : side) : list chunk :=
  match match d with Right => initialLeftToRight options | Left => initialRightToLeft options end with
  | Some c => if byteLength c =? 0 then [] else [c]
  | None => []
  end.
Definition owed (d : side) (es : list relay_event) : list chunk := (initial_for d ++ received (peer d) es)%list.

Definition written (d : side) (r : relay) : list chunk := ep_written (end_of d r).
Definition relayed_bytes (r : relay) : Z := chunk_bytes (written Left r) + chunk_bytes (written Right r).

(** An open relay has forwarded everything, keeps its timer and its streams, and
    has a side paused exactly while the other is to drain. *)
Record relay_open (es : list relay_event) (r : relay) : Prop := {
  open_written d : written d r = owed d es;
  open_bytes : rl_bytes r = relayed_bytes r;
  open_timer : rl_idle r = true ∧ rl_closes r = 0%nat;
  open_alive d : ep_destroyed (end_of d r) = false;
  open_paused d : ep_paused (end_of (peer d) r) = true ↔ ep_drains (end_of d r) ≠ 0%nat;
  open_ended d : ep_ended (end_of d r) = true ↔ EndOf (peer d) ∈ es;
}.
(** A closed relay has destroyed both streams and told its owner once. *)
Record relay_shut (es : list relay_event) (r : relay) : Prop := {
  shut_written d : written d r `prefix_of` owed d es;
  shut_timer : rl_idle r = false ∧ rl_closes r = 1%nat;
  shut_destroyed d : ep_destroyed (end_of d r) = true;
}.
Definition relay_ok (es : list relay_event) (r : relay) : Prop :=
  relayed_bytes r ≤ relayMaxBytes options ∧
  if rl_closed r then relay_shut es r else relay_open es r.

Lemma end_of_on_end s t f r : end_of s (on_end t f r) = if decide (s = t) then f (end_of s r) else end_of s r.
Proof. by destruct s, t. Qed.
Lemma on_end_fields t f r :
  rl_closed (on_end t f r) = rl_closed r ∧ rl_bytes (on_end t f r) = rl_bytes r ∧
  rl_idle (on_end t f r) = rl_idle r ∧ rl_closes (on_end t f r) = rl_closes r.
Proof. by destruct t. Qed.

Lemma owed_snoc d es e : owed d (es ++ [e]) = (owed d es ++ received (peer d) [e])%list.
Proof. unfold owed, received. rewrite omap_app. by rewrite app_assoc. Qed.
Lemma owed_grows d es e cs : cs `prefix_of` owed d es → cs `prefix_of` owed d (es ++ [e]).
Proof. intros H. rewrite owed_snoc. by apply prefix_app_r. Qed.

(** Closing an open relay. *)
Lemma close_relay_ok es r e :
  rl_closed r = false → (∀ d, written d r `prefix_of` owed d es) → relayed_bytes r ≤ relayMaxBytes options →
  rl_closes r = 0%nat → relay_ok (es ++ [e]) (close_relay r).
Proof.
  intros Hc Hw Hb Hn. unfold close_relay. rewrite Hc. split; [exact Hb|]. cbn.
  constructor.
  - intros d. apply owed_grows. destruct d; exact (Hw _).
  - cbn. by rewrite Hn.
  - by intros [].
Qed.
Lemma close_again es r e : rl_closed r = true → relay_ok es r → relay_ok (es ++ [e]) (close_relay r).
Proof.
  intros Hc [Hb Hr]. unfold close_relay. rewrite Hc in *. split; [done|]. rewrite Hc. destruct Hr as [Hw Ht Hd].
  constructor; [|done..]. intros d. by apply owed_grows.
Qed.
Lemma close_ok es r e : relay_ok es r → relay_ok (es ++ [e]) (close_relay r).
Proof.
  intros Hr. destruct (rl_closed r) eqn:Hc; [by apply close_again|]. destruct Hr as [Hb Hr]. rewrite Hc in Hr.
  apply close_relay_ok; [done| |done|apply Hr]. intros d. by rewrite (open_written es r Hr).
Qed.

Lemma sides_agree (P : side → Prop) s : P s → P (peer s) → ∀ d, P d.
Proof. intros Hs Hp d. by destruct s, d. Qed.
Lemma received_data d s c b : received (peer d) [DataFrom s c b] = if decide (d = peer s) then [c] else [].
Proof. by destruct d, s. Qed.

Lemma forward_open es r s c b :
  relay_open es r → relayed_bytes r ≤ relayMaxBytes options → rl_closed r = false →
  relay_ok (es ++ [DataFrom s c b]) (forward options s c b r).
Proof.
  intros Hr Hb Hc. unfold forward, account. cbn [rl_bytes with_field].
  destruct (relayMaxBytes options <? rl_bytes r + byteLength c) eqn:E; cbn [negb].
  { apply (close_relay_ok es (r <| rl_bytes := rl_bytes r + byteLength c |>)); [done| |done|apply Hr].
    intros d. pose proof (open_written es r Hr d) as Hw. destruct d; cbn in *; by rewrite <-Hw. }
  breflect. destruct Hr as [Hw Hby [Ht Hn] Ha Hp He].
  assert (Hended : ∀ d, EndOf (peer d) ∈ (es ++ [DataFrom s c b])%list ↔ EndOf (peer d) ∈ es).
  { intros d. rewrite elem_of_app, list_elem_of_singleton. naive_solver. }
  pose proof (Hw Left) as WL. pose proof (Hw Right) as WR. pose proof (Ha Left) as AL. pose proof (Ha Right) as AR.
  pose proof (Hp Left) as PL. pose proof (Hp Right) as PR. pose proof (He Left) as EL. pose proof (He Right) as ER.
  destruct r as [by_ cl id [d1 e1 p1 w1 n1] [d2 e2 p2 w2 n2] cs]. unfold relayed_bytes, written in *.
  cbn -[owed] in *. subst.
  destruct s, b; cbn -[owed]; (split; [unfold relayed_bytes, written; cbn -[owed]; rewrite ?chunk_bytes_app; cbn [chunk_bytes]; lia|cbn -[owed]]).
  all: constructor; unfold relayed_bytes, written; cbn -[owed]; rewrite ?chunk_bytes_app; cbn [chunk_bytes];
    try done; try lia; try (intros d; rewrite Hended; destruct d; cbn -[owed]; done);
    intros []; cbn -[owed]; rewrite ?owed_snoc, ?received_data; cbn; rewrite ?app_nil_r; try done; naive_solver.
Qed.

Ltac open_endpoints r Hr :=
  destruct Hr as [Hw Hby [Ht Hn] Ha Hp He];
  pose proof (Hw Left) as WL; pose proof (Hw Right) as WR; pose proof (Ha Left) as AL; pose proof (Ha Right) as AR;
  pose proof (Hp Left) as PL; pose proof (Hp Right) as PR; pose proof (He Left) as EL; pose proof (He Right) as ER;
  destruct r as [by_ cl id [d1 e1 p1 w1 n1] [d2 e2 p2 w2 n2] cs]; unfold relayed_bytes, written in *;
  cbn -[owed] in *; subst.

Lemma ends_open es r s :
  relay_open es r → relay_open (es ++ [EndOf s]) (on_end (peer s) (λ e, e <| ep_ended := true |>) r).
Proof.
  intros Hr.
  assert (Ho : ∀ d, owed d (es ++ [EndOf s]) = owed d es) by (intros d; rewrite owed_snoc; apply app_nil_r).
  assert (Hend : ∀ d, EndOf (peer d) ∈ (es ++ [EndOf s])%list ↔ EndOf (peer d) ∈ es ∨ peer d = s).
  { intros d. rewrite elem_of_app, list_elem_of_singleton. naive_solver. }
  open_endpoints r Hr. destruct s.
  all: constructor; unfold relayed_bytes, written; cbn -[owed]; try done;
    try (intros d; rewrite Hend); try (intros d; rewrite Ho); try intros d; destruct d; cbn -[owed];
    first [exact WL|exact WR|done|exact PL|exact PR|rewrite EL|rewrite ER|idtac];
    split; try done; try (by left); try (by right); by intros [?|?].
Qed.

Lemma drains_open es r d :
  relay_open es r → rl_closed r = false → relay_open (es ++ [DrainOf d]) (on_relay_event options (DrainOf d) r).
Proof.
  intros Hr Hc.
  assert (Ho : ∀ t, owed t (es ++ [DrainOf d]) = owed t es) by (intros t; rewrite owed_snoc; apply app_nil_r).
  assert (Hend : ∀ t, EndOf (peer t) ∈ (es ++ [DrainOf d])%list ↔ EndOf (peer t) ∈ es).
  { intros t. rewrite elem_of_app, list_elem_of_singleton. naive_solver. }
  cbn [on_relay_event]. open_endpoints r Hr. destruct d; cbn -[owed].
  all: [> destruct n1 | destruct n2]; cbn -[owed].
  all: constructor; unfold relayed_bytes, written; cbn -[owed]; try done;
    try (intros d; rewrite Hend); try (intros d; rewrite Ho); try intros d; destruct d; cbn -[owed];
    first [exact WL|exact WR|done|exact PL|exact PR|exact EL|exact ER|idtac].
Qed.

Lemma relay_step_ok es r e :
  may_happen e r = true → relay_ok es r → relay_ok (es ++ [e]) (on_relay_event options e r).
Proof.
  intros He Hr. destruct e as [s c b|s|s|s|d|]; cbn [on_relay_event]; try by apply close_ok.
  all: destruct Hr as [Hb Hr]; destruct (rl_closed r) eqn:Hc;
    [cbn in He; rewrite (shut_destroyed es r Hr) in He; by rewrite ?andb_false_r in He|].
  - by apply forward_open.
  - split; [by destruct s, r|]. replace (rl_closed _) with false by (by destruct s). by apply ends_open.
  - pose proof (drains_open es r d Hr Hc) as Hd. cbn [on_relay_event] in Hd. rewrite Hc in Hd.
    destruct (Nat.eqb _ _); (split; [|]).
    + done.
    + by rewrite Hc.
    + by destruct d, r.
    + replace (rl_closed _) with false by (by destruct d). exact Hd.
Qed.

Lemma relay_run_ok past es r r' : run_relay options es r = Some r' → relay_ok past r → relay_ok (past ++ es) r'.
Proof.
  revert past r. induction es as [|e es IH]; intros past r; cbn [run_relay].
  { intros [= <-]. by rewrite app_nil_r. }
  destruct (may_happen e r) eqn:He; [|done]. intros Hrun Hr.
  rewrite (cons_middle e past es), app_assoc. eapply IH; [exact Hrun|]. by apply relay_step_ok.
Qed.

Lemma relay_start_ok r : relayBidirectional options = Some r → relay_ok [] r.
Proof.
  unfold relayBidirectional, positive_safe. destruct (_ || _) eqn:E; [done|]. intros [= <-].
  apply orb_false_iff in E as [_ E]. apply negb_false_iff, andb_true_iff in E as [_ E]. breflect.
  unfold write_initial, account, arm_idle, relay_ok, relayed_bytes, written.
  assert (Hi : ∀ d, owed d [] = initial_for d) by (intros d; unfold owed; apply app_nil_r).
  pose proof (Hi Right) as HR. pose proof (Hi Left) as HL. unfold initial_for in HR, HL.
  destruct (initialLeftToRight options) as [c|]; [destruct (byteLength c =? 0) eqn:Ec|];
    (destruct (initialRightToLeft options) as [c'|]; [destruct (byteLength c' =? 0) eqn:Ec'|]).
  all: cbn -[byteLength owed Z.add]; repeat (let E := fresh "E" in destruct (relayMaxBytes options <? _) eqn:E;
    cbn -[byteLength owed Z.add initial_for] in *; breflect).
  all: try (pose proof (byteLength_nonneg c)); try (pose proof (byteLength_nonneg c')).
  all: try (exfalso; lia); (split; [lia|]).
  all: constructor; unfold relayed_bytes, written; try done; try (cbn -[owed byteLength Z.add]; lia).
  all: intros []; cbn -[owed byteLength]; rewrite ?HL, ?HR; try done; try apply prefix_nil.
  all: try (split; [done|by intros ?%elem_of_nil]).
Qed.
End relay.

(** C10: the relay is a bounded pipe. Whatever happens to the two streams, the
    bytes written to both together never exceed the limit. While the relay is
    open, each side was written exactly its initial data and every chunk the
    other sent, in order; its idle timer runs; a side is paused exactly while
    the other has still to drain, and draining resumes it; a side was ended
    exactly when the other was. Once it is closed, what was written is a
    prefix of that, both streams are destroyed, no timer is left, and the owner
    was told exactly once. *)
Theorem relay_is_a_bounded_pipe options es r0 r :
  relayBidirectional options = Some r0 → run_relay options es r0 = Some r →
  relayed_bytes r ≤ relayMaxBytes options ∧
  (rl_closed r = false → relay_open options es r ∧
     ∀ d, ep_paused (end_of (peer d) r) = true →
       may_happen (DrainOf d) r = true ∧ ep_paused (end_of (peer d) (on_relay_event options (DrainOf d) r)) = false) ∧
  (rl_closed r = true → relay_shut options es r).
Proof.
  intros H0 Hrun. pose proof (relay_run_ok options [] es r0 r Hrun (relay_start_ok options r0 H0)) as [Hb Hr].
  cbn [app] in Hr. split_and!; [done| |].
  - intros Hc. rewrite Hc in Hr. split; [done|]. intros d Hp. pose proof (open_paused options es r Hr d) as [Hd _].
    specialize (Hd Hp). cbn [may_happen]. rewrite (open_alive options es r Hr). split; [done|].
    cbn [on_relay_event]. destruct (Nat.eqb _ _) eqn:En; [by apply Nat.eqb_eq in En|]. rewrite Hc, end_of_on_end.
    by rewrite decide_True.
  - intros Hc. by rewrite Hc in Hr.
Qed.

Definition sample_relay : RelayOptions :=
  {| relayIdleTimeoutMs := 1000; relayMaxBytes := 9; initialLeftToRight := Some [1; 2]; initialRightToLeft := None |}.
Lemma relay_is_a_bounded_pipe_witness :
  ∃ r0 r r', relayBidirectional sample_relay = Some r0 ∧
    run_relay sample_relay [DataFrom Left [3; 4; 5] false; DrainOf Right; EndOf Left] r0 = Some r ∧
    written Right r = [[1; 2]; [3; 4; 5]] ∧ rl_closed r = false ∧ relayed_bytes r ≤ 9 ∧
    run_relay sample_relay [DataFrom Right [6; 7; 8; 9; 10] true] r = Some r' ∧ rl_closed r' = true.
Proof.
  destruct (relayBidirectional sample_relay) as [r0|] eqn:E0; [|discriminate E0].
  destruct (run_relay sample_relay [DataFrom Left [3; 4; 5] false; DrainOf Right; EndOf Left] r0) as [r|] eqn:E1.
  2: { vm_compute in E0. injection E0 as <-. discriminate E1. }
  pose proof (relay_is_a_bounded_pipe sample_relay _ r0 r E0 E1) as [Hb _].
  vm_compute in E0. injection E0 as <-. vm_compute in E1. injection E1 as <-.
  eexists _, _, _. split_and!; [reflexivity|reflexivity|reflexivity|reflexivity|exact Hb|reflexivity|reflexivity].
Defined.
