(* ===== verification/EgressAudit.v ===== *)
(** The audit of managed egress ([src/server/network/audit.ts]): every decision
    goes to the diagnostic sink; the browser is told of denials, where repeated
    ones are counted together for one window. Listeners and the sink do not call
    back into the auditor. *)
From S2P Require Import Prelude JsValues Texts Errors Addresses NetworkPolicy Workspaces.
#[local] Open Scope string_scope. #[local] Open Scope Z_scope.

(** ** Data *)

(** src/server/network/audit.ts:8-9 NetworkAuditProtocol *)
Inductive NetworkAuditProtocol := Http | HttpsConnect | Socks5Tcp.
#[export] Instance NetworkAuditProtocol_eq : EqDecision NetworkAuditProtocol.
Proof. solve_decision. Defined.
(** src/server/network/audit.ts:10-14 NetworkAuditReason *)
Inductive NetworkAuditReason :=
| ByAllowlist | ByExplicitDeny | ByNotAllowed | ByLocalAddress | ByPort | ByDnsFailure | ByLimit | ByProxy.
#[export] Instance NetworkAuditReason_eq : EqDecision NetworkAuditReason.
Proof. solve_decision. Defined.
Inductive verdict := Allow | Deny.
#[export] Instance verdict_eq : EqDecision verdict.
Proof. solve_decision. Defined.

(** src/server/network/audit.ts:16-26 NetworkPolicyAuditEvent *)
Record NetworkPolicyAuditEvent := {
  ae_timestamp : Z;
  ae_workspaceId : string;
  ae_conversationId : string;
  ae_policySetId : string;
  ae_protocol : NetworkAuditProtocol;
  ae_host : string;
  ae_port : Z;
  ae_decision : verdict;
  ae_reason : NetworkAuditReason;
}.

(** src/server/network/audit.ts:28-34 NetworkBlockedNotification *)
Record NetworkBlockedNotification := Blocked {
  bn_protocol : NetworkAuditProtocol;
  bn_host : string;
  bn_port : Z;
  bn_reason : NetworkAuditReason;
  bn_occurrenceCount : option Z;
}.

(** src/server/network/audit.ts:39-43 NetworkAuditContext *)
Record NetworkAuditContext := { ac_workspaceId : string; ac_conversationId : string; ac_policySetId : string }.

(** src/server/network/audit.ts:45-51 NetworkDecision *)
Record NetworkDecision := {
  nd_protocol : NetworkAuditProtocol;
  nd_host : string;
  nd_port : Z;
  nd_decision : verdict;
  nd_reason : NetworkAuditReason;
}.

(** The texts of the enumerations in a key. *)
Definition protocol_text (p : NetworkAuditProtocol) : string :=
  match p with Http => "http" | HttpsConnect => "https-connect" | Socks5Tcp => "socks5-tcp" end.
Definition reason_text (r : NetworkAuditReason) : string :=
  match r with
  | ByAllowlist => "allowlist" | ByExplicitDeny => "explicit_deny" | ByNotAllowed => "not_allowed"
  | ByLocalAddress => "local_address" | ByPort => "port_not_allowed" | ByDnsFailure => "dns_failure"
  | ByLimit => "limit_exceeded" | ByProxy => "proxy_unavailable"
  end.

(** The reason of a destination decision as one of the audit. *)
Definition audit_reason (r : DestinationPolicyReason) : NetworkAuditReason :=
  match r with
  | Allowlist => ByAllowlist | ExplicitDeny => ByExplicitDeny | NotAllowed => ByNotAllowed
  | LocalAddress => ByLocalAddress | PortNotAllowed => ByPort
  end.

(** ** Validation *)

(** A character of [[A-Za-z0-9._:-]]. *)
Definition identity_char (a : ascii) : bool :=
  let c := unit_code a in
  is_digit a || ((65 <=? c) && (c <=? 90)) || ((97 <=? c) && (c <=? 122))
  || existsb (Ascii.eqb a) ["."%char; "_"%char; ":"%char; "-"%char].

(** src/server/network/audit.ts:53-56 validIdentity *)
Definition validIdentity (value : string) : bool :=
  (1 <=? strlen value) && (strlen value <=? 200) && str_all identity_char value.

(** The pattern of policy set identifiers: a letter or digit at both ends and at
    most 62 of them, underscores or hyphens between. *)
(** src/shared/protocol.ts:303-303 NETWORK_POLICY_SET_ID_PATTERN *)
Definition policy_set_id_matches (id : string) : bool :=
  match id with
  | EmptyString => false
  | String a _ =>
      is_lower_alnum a && str_all (λ a, is_lower_alnum a || Ascii.eqb a "_"%char || Ascii.eqb a "-"%char) id
      && match last_char id with Some z => is_lower_alnum z | None => false end && (strlen id <=? 64)
  end.

(** src/server/network/audit.ts:58-62 validPolicySetId *)
Definition validAuditPolicySetId (value : string) : bool :=
  (strlen value <=? NETWORK_POLICY_SET_ID_MAX_LENGTH) && policy_set_id_matches value.

(** What the auditor throws: its own TypeError, or the error of the policy. *)
Inductive audit_thrown := InvalidAudit | PolicyFailure (e : policy_thrown).

Section audit.
Context `{NodeUrl}.

(** src/server/network/audit.ts:65-90 validateNetworkAuditEvent *)
Definition validateNetworkAuditEvent (value : NetworkPolicyAuditEvent) : result audit_thrown NetworkPolicyAuditEvent :=
  if negb (isSafeInteger (ae_timestamp value)) || (ae_timestamp value <? 0)
     || negb (validIdentity (ae_workspaceId value)) || negb (validIdentity (ae_conversationId value))
     || negb (validAuditPolicySetId (ae_policySetId value))
     || negb (isSafeInteger (ae_port value)) || (ae_port value <? 1) || (65535 <? ae_port value)
  then Err InvalidAudit
  else
    match normalizeDestinationHost (ae_host value) with
    | Err e => Err (PolicyFailure e)
    | Ok normalized =>
        let host := nh_host normalized in
        if negb (String.eqb host (ae_host value))
           || negb (Bool.eqb (bool_decide (ae_decision value = Allow)) (bool_decide (ae_reason value = ByAllowlist)))
        then Err InvalidAudit
        else
          mret {| ae_timestamp := ae_timestamp value; ae_workspaceId := ae_workspaceId value;
                  ae_conversationId := ae_conversationId value; ae_policySetId := ae_policySetId value;
                  ae_protocol := ae_protocol value; ae_host := host; ae_port := ae_port value;
                  ae_decision := ae_decision value; ae_reason := ae_reason value |}
    end.

(** ** The auditor *)

(** A live entry always has its timer. *)
(** src/server/network/audit.ts:92-96 Coalesced *)
Record Coalesced := { co_notification : NetworkBlockedNotification; co_count : Z }.

(** The state, and what was given to the sink and to each listener. *)
(** src/server/network/audit.ts:99-102 NetworkDecisionAuditor *)
Record auditor := {
  au_context : NetworkAuditContext;
  au_listeners : list nat;
  au_coalesced : jsmap string Coalesced;
  au_closed : bool;
  au_sunk : list NetworkPolicyAuditEvent;
  au_notified : list (nat * NetworkBlockedNotification);
}.
#[export] Instance auditor_spread : Spread auditor := λ r,
  {| au_context := au_context r; au_listeners := au_listeners r; au_coalesced := au_coalesced r;
     au_closed := au_closed r; au_sunk := au_sunk r; au_notified := au_notified r |}.

(** [None] is the TypeError of an invalid context. *)
(** src/server/network/audit.ts:104-114 constructor *)
Definition newAuditor (context : NetworkAuditContext) (notificationWindowMs : Z) : option auditor :=
  if negb (validIdentity (ac_workspaceId context)) || negb (validIdentity (ac_conversationId context))
     || negb (validAuditPolicySetId (ac_policySetId context))
     || negb (isSafeInteger notificationWindowMs) || (notificationWindowMs <=? 0)
  then None
  else Some {| au_context := context; au_listeners := []; au_coalesced := []; au_closed := false;
               au_sunk := []; au_notified := [] |}.

(** src/server/network/audit.ts:116-120 subscribe *)
Definition subscribe_auditor (listener : nat) (a : auditor) : auditor :=
  if au_closed a then a
  else a <| au_listeners := if bool_decide (listener ∈ au_listeners a) then au_listeners a
                            else (au_listeners a ++ [listener])%list |>.

(** src/server/network/audit.ts:119-119 unsubscribe *)
Definition unsubscribe_auditor (listener : nat) (a : auditor) : auditor :=
  a <| au_listeners := filter (λ l, l ≠ listener) (au_listeners a) |>.

(** src/server/network/audit.ts:167-172 notify *)
Definition notify_blocked (n : NetworkBlockedNotification) (a : auditor) : auditor :=
  a <| au_notified := (au_notified a ++ ((λ l, (l, n)) <$> au_listeners a))%list |>.

Definition nul : string := String (ascii_of_nat 0) "".

(** src/server/network/audit.ts:139-139 coalescingKey *)
Definition coalescing_key (event : NetworkPolicyAuditEvent) : string :=
  ae_conversationId event +:+ nul +:+ protocol_text (ae_protocol event) +:+ nul +:+ ae_host event +:+ nul
  +:+ pretty (ae_port event) +:+ nul +:+ reason_text (ae_reason event).

(** A denial opens a window, or is counted in the one that is open. *)
(** src/server/network/audit.ts:138-155 coalesce *)
Definition coalesce (event : NetworkPolicyAuditEvent) (a : auditor) : auditor :=
  let key := coalescing_key event in
  match map_get key (au_coalesced a) with
  | None =>
      let notification := Blocked (ae_protocol event) (ae_host event) (ae_port event) (ae_reason event) None in
      let a := a <| au_coalesced := map_set key {| co_notification := notification; co_count := 1 |} (au_coalesced a) |> in
      notify_blocked notification a
  | Some existing =>
      a <| au_coalesced := map_set key {| co_notification := co_notification existing;
                                          co_count := co_count existing + 1 |} (au_coalesced a) |>
  end.

(** [now] is what [Date.now()] returns. *)
(** src/server/network/audit.ts:122-156 record *)
Definition record_decision (decision : NetworkDecision) (now : Z) (a : auditor) : result audit_thrown unit * auditor :=
  if au_closed a then (Ok tt, a)
  else
    match validateNetworkAuditEvent
        {| ae_timestamp := now; ae_workspaceId := ac_workspaceId (au_context a);
           ae_conversationId := ac_conversationId (au_context a); ae_policySetId := ac_policySetId (au_context a);
           ae_protocol := nd_protocol decision; ae_host := nd_host decision; ae_port := nd_port decision;
           ae_decision := nd_decision decision; ae_reason := nd_reason decision |} with
    | Err e => (Err e, a)
    | Ok event =>
        let a := a <| au_sunk := (au_sunk a ++ [event])%list |> in
        (Ok tt, if bool_decide (ae_decision event = Allow) then a else coalesce event a)
    end.

(** The timer of a window. *)
(** src/server/network/audit.ts:158-165 flush *)
Definition flush_window (key : string) (a : auditor) : auditor :=
  match map_get key (au_coalesced a) with
  | None => a
  | Some entry =>
      let a := a <| au_coalesced := map_delete key (au_coalesced a) |> in
      if negb (au_closed a) && (1 <? co_count entry)
      then
        let n := co_notification entry in
        notify_blocked (Blocked (bn_protocol n) (bn_host n) (bn_port n) (bn_reason n) (Some (co_count entry))) a
      else a
  end.

(** src/server/network/audit.ts:174-182 close *)
Definition close_auditor (a : auditor) : auditor :=
  if au_closed a then a
  else ((a <| au_closed := true |>) <| au_coalesced := [] |>) <| au_listeners := [] |>.
End audit.

(** What the audit guarantees: no decision is lost to the diagnostic sink, and a
    listener learns of every denial exactly once, at once or counted. *)
From S2P Require Import AddressText NetworkPolicySafety.
#[local] Open Scope string_scope. #[local] Open Scope Z_scope.
#[local] Arguments String.append : simpl nomatch.

(** ** What an event is about *)

Record subject := { su_protocol : NetworkAuditProtocol; su_host : string; su_port : Z; su_reason : NetworkAuditReason }.
#[export] Instance subject_eq : EqDecision subject.
Proof. solve_decision. Defined.
Definition subject_of (e : NetworkPolicyAuditEvent) : subject :=
  {| su_protocol := ae_protocol e; su_host := ae_host e; su_port := ae_port e; su_reason := ae_reason e |}.
Definition notified_subject (n : NetworkBlockedNotification) : subject :=
  {| su_protocol := bn_protocol n; su_host := bn_host n; su_port := bn_port n; su_reason := bn_reason n |}.

Definition NUL : ascii := ascii_of_nat 0.

(** A subject that an event may have. *)
Definition plain_subject (q : subject) : Prop := has_char NUL (su_host q) = false ∧ 1 ≤ su_port q.

(** ** Keys *)

Definition key_of (conversation : string) (q : subject) : string :=
  conversation +:+ nul +:+ protocol_text (su_protocol q) +:+ nul +:+ su_host q +:+ nul
  +:+ pretty (su_port q) +:+ nul +:+ reason_text (su_reason q).

Lemma coalescing_key_eq e : coalescing_key e = key_of (ae_conversationId e) (subject_of e).
Proof. done. Qed.

Lemma split_nul s t : has_char NUL s = false → split NUL (s +:+ nul +:+ t) = s :: split NUL t.
Proof. intros Hs. change (nul +:+ t) with (String NUL t). by apply split_app_sep. Qed.

Lemma split_key conversation q : has_char NUL conversation = false → plain_subject q →
  split NUL (key_of conversation q) =
    [conversation; protocol_text (su_protocol q); su_host q; pretty (su_port q); reason_text (su_reason q)].
Proof.
  intros Hc [Hh Hp]. unfold key_of. rewrite !split_nul; [| |done| |done].
  - do 4 f_equal. apply split_no_sep. by destruct (su_reason q).
  - destruct (numeral (su_port q)) as (a & r & _ & _ & _ & Hd & _); [lia|].
    by apply (has_char_all _ is_digit).
  - by destruct (su_protocol q).
Qed.

Lemma key_of_inj conversation q q' : has_char NUL conversation = false → plain_subject q → plain_subject q' →
  key_of conversation q = key_of conversation q' → q = q'.
Proof.
  intros Hc Hq Hq' E. apply (f_equal (split NUL)) in E. rewrite !split_key in E by done.
  injection E as Ep Eh Eport Er. destruct q as [p h port r], q' as [p' h' port' r']. cbn in *.
  apply (inj pretty) in Eport. subst. f_equal; [by destruct p, p'|by destruct r, r'].
Qed.

(** ** Valid events *)

Lemma identity_no_nul s : validIdentity s = true → has_char NUL s = false.
Proof. unfold validIdentity. intros H. breflect. by apply (has_char_all _ identity_char). Qed.

Section audit.
Context `{NodeUrl}.

Lemma normal_host_no_nul s h : normalizeDestinationHost s = Ok h → has_char NUL (nh_host h) = false.
Proof.
  intros Hh. apply normalize_inv in Hh. destruct Hh as [t p a _ Hp _|t u name _ _ Hv _]; cbn [nh_host ip_host domain_host].
  - destruct (parseIpAddress_inv _ _ Hp) as [[Hb Hl] ->]. unfold parsed_of. destruct Hl as [Hl|Hl]; rewrite Hl; cbn.
    + destruct (formatIpv4_chars _ Hb Hl) as [Hs _]. by eapply has_char_all; [|exact Hs].
    + destruct (formatIpv6_chars _ Hb Hl) as [Hs _]. by eapply has_char_all; [|exact Hs].
  - destruct (validateAsciiDomain_Ok _ Hv) as (_ & _ & Hc). by apply (has_char_all _ name_char).
Qed.

Definition as_event (context : NetworkAuditContext) (d : NetworkDecision) (now : Z) : NetworkPolicyAuditEvent :=
  {| ae_timestamp := now; ae_workspaceId := ac_workspaceId context; ae_conversationId := ac_conversationId context;
     ae_policySetId := ac_policySetId context; ae_protocol := nd_protocol d; ae_host := nd_host d;
     ae_port := nd_port d; ae_decision := nd_decision d; ae_reason := nd_reason d |}.

(** An accepted event is the given one. *)
Lemma validate_Ok value event : validateNetworkAuditEvent value = Ok event →
  event = value ∧ has_char NUL (ae_conversationId value) = false ∧ plain_subject (subject_of value).
Proof.
  unfold validateNetworkAuditEvent, mret, result_ret.
  match goal with |- context [if ?b then _ else _] => destruct b eqn:E; [done|] end.
  destruct (normalizeDestinationHost _) as [h|] eqn:En; [|done].
  match goal with |- context [if ?b then _ else _] => destruct b eqn:E2; [done|] end.
  intros [= <-]. apply orb_false_iff in E2 as [E2 _]. breflect. apply String.eqb_eq in E2.
  split_and!.
  - rewrite E2. by destruct value.
  - by apply identity_no_nul.
  - unfold subject_of. rewrite <-E2. split; cbn [su_host su_port]; [by eapply normal_host_no_nul|lia].
Qed.

(** ** The system of one auditor and a listener *)

Inductive audit_op :=
| Record_ (d : NetworkDecision) (now : Z)
| Subscribe (listener : nat)
| Unsubscribe (listener : nat)
| WindowEnds (key : string).

Definition audit_step (op : audit_op) (a : auditor) : auditor :=
  match op with
  | Record_ d now => (record_decision d now a).2
  | Subscribe l => subscribe_auditor l a
  | Unsubscribe l => unsubscribe_auditor l a
  | WindowEnds key => flush_window key a
  end.
Definition run_audit (ops : list audit_op) (a : auditor) : auditor := fold_left (λ a op, audit_step op a) ops a.

(** The denials of a subject among the events given to the sink. *)
Definition is_denial (q : subject) (e : NetworkPolicyAuditEvent) : bool :=
  bool_decide (ae_decision e = Deny) && bool_decide (subject_of e = q).
Fixpoint denials (q : subject) (es : list NetworkPolicyAuditEvent) : Z :=
  match es with [] => 0 | e :: es => (if is_denial q e then 1 else 0) + denials q es end.

(** What a notification adds to what its listener knows: the first one of a
    window is about one denial, the last one counts it again. *)
Definition news (n : NetworkBlockedNotification) : Z :=
  match bn_occurrenceCount n with None => 1 | Some c => c - 1 end.
Fixpoint told (l : nat) (q : subject) (log : list (nat * NetworkBlockedNotification)) : Z :=
  match log with
  | [] => 0
  | (l', n) :: log => (if bool_decide (l' = l) && bool_decide (notified_subject n = q) then news n else 0) + told l q log
  end.

(** The denials that an open window still holds back. *)
Definition waiting (q : subject) (a : auditor) : Z :=
  match map_get (key_of (ac_conversationId (au_context a)) q) (au_coalesced a) with
  | Some entry => co_count entry - 1
  | None => 0
  end.

Lemma denials_app q es es' : denials q (es ++ es') = denials q es + denials q es'.
Proof. induction es as [|e es IH]; cbn; [done|]. rewrite IH. lia. Qed.
Lemma told_app l q log log' : told l q (log ++ log') = told l q log + told l q log'.
Proof. induction log as [|[l' n] log IH]; cbn; [done|]. rewrite IH. lia. Qed.

Lemma told_once l q n ls : NoDup ls → l ∈ ls →
  told l q ((λ l', (l', n)) <$> ls) = if bool_decide (notified_subject n = q) then news n else 0.
Proof.
  assert (H0 : ∀ ks, l ∉ ks → told l q ((λ l', (l', n)) <$> ks) = 0).
  { intros ks. induction ks as [|l' ls' IH]; cbn; [done|]. intros [? ?]%not_elem_of_cons.
    rewrite bool_decide_false by congruence. cbn. by apply IH. }
  induction 1 as [|l' ls' Hn Hd IH]; intros Hin; [by apply elem_of_nil in Hin|]. cbn.
  apply elem_of_cons in Hin as [<-|Hin].
  - rewrite bool_decide_true by done. cbn. rewrite H0 by done. lia.
  - rewrite bool_decide_false by (intros ->; done). cbn. by apply IH.
Qed.

(** ** The invariant *)

(** An entry is stored under the key of what its notification is about. *)
Definition entry_ok (conversation : string) (e : string * Coalesced) : Prop :=
  e.1 = key_of conversation (notified_subject (co_notification e.2)) ∧
  plain_subject (notified_subject (co_notification e.2)) ∧
  bn_occurrenceCount (co_notification e.2) = None ∧ 1 ≤ co_count e.2.

Record audit_ok (l : nat) (a : auditor) : Prop := {
  audit_open : au_closed a = false;
  audit_context : has_char NUL (ac_conversationId (au_context a)) = false;
  audit_listener : l ∈ au_listeners a ∧ NoDup (au_listeners a);
  audit_entries : JsValues.map_ok (au_coalesced a) ∧ Forall (entry_ok (ac_conversationId (au_context a))) (au_coalesced a);
  audit_balance q : plain_subject q → denials q (au_sunk a) = told l q (au_notified a) + waiting q a;
}.

Lemma entries_set P k v (m : jsmap string Coalesced) : Forall P m → P (k, v) → Forall P (map_set k v m).
Proof.
  intros Hm Hv. induction Hm as [|[k' v'] m Hk Hm IH]; cbn; [by constructor|]. by case_decide; subst; constructor.
Qed.
Lemma entries_delete P k (m : jsmap string Coalesced) : Forall P m → Forall P (map_delete k m).
Proof. induction 1 as [|[k' v'] m Hk Hm IH]; cbn; [done|]. case_decide; [done|]. by constructor. Qed.
Lemma entries_get P k v (m : jsmap string Coalesced) : Forall P m → map_get k m = Some v → P (k, v).
Proof. induction 1 as [|[k' v'] m Hk Hm IH]; cbn; [done|]. case_decide; [|done]. intros [= <-]. by subst. Qed.

(** The listeners of an auditor do not matter to what was sunk. *)
Lemma waiting_listeners q ls a : waiting q (a <| au_listeners := ls |>) = waiting q a.
Proof. done. Qed.

Lemma subscribe_ok l l' a : audit_ok l a → audit_ok l (subscribe_auditor l' a).
Proof.
  intros [Ho Hc [Hin Hd] He Hb]. unfold subscribe_auditor. rewrite Ho. constructor; [done..| |done|done]. cbn.
  case_bool_decide as Hl; [done|]. split; [apply elem_of_app; by left|].
  apply NoDup_app. split_and!; [done| |apply NoDup_singleton]. intros x Hx ->%list_elem_of_singleton. done.
Qed.

Lemma unsubscribe_ok l l' a : l' ≠ l → audit_ok l a → audit_ok l (unsubscribe_auditor l' a).
Proof.
  intros Hl [Ho Hc [Hin Hd] He Hb]. constructor; [done..| |done|done]. cbn.
  split; [by apply list_elem_of_filter|by apply NoDup_filter].
Qed.

(** The listener hears of a notification once. *)
Lemma told_notify l q n a : l ∈ au_listeners a → NoDup (au_listeners a) →
  told l q (au_notified (notify_blocked n a)) =
    told l q (au_notified a) + if bool_decide (notified_subject n = q) then news n else 0.
Proof. intros Hin Hd. cbn. by rewrite told_app, told_once. Qed.

Lemma flush_ok l key a : audit_ok l a → audit_ok l (flush_window key a).
Proof.
  intros Ha. unfold flush_window. destruct (map_get key (au_coalesced a)) as [entry|] eqn:Eg; [|done].
  destruct Ha as [Ho Hc [Hin Hd] [Hm He] Hb]. cbn. rewrite Ho. cbn [negb andb].
  destruct (entries_get _ _ _ _ He Eg) as (Ek & Hp & Hcount & Hpos). cbn [fst snd] in *.
  set (a' := a <| au_coalesced := map_delete key (au_coalesced a) |>).
  set (q0 := notified_subject (co_notification entry)).
  assert (Hw : ∀ q, plain_subject q → waiting q a = waiting q a' + if bool_decide (q0 = q) then co_count entry - 1 else 0).
  { intros q Hq. unfold waiting. cbn. rewrite map_get_delete by done.
    case_bool_decide as Eq; [subst q|]; case_decide as Ed.
    - rewrite Ed, Eg. lia.
    - by rewrite Ek in Ed.
    - rewrite Ek in Ed. apply key_of_inj in Ed; [|done..]. by subst.
    - lia. }
  assert (Ha' : JsValues.map_ok (au_coalesced a') ∧ Forall (entry_ok (ac_conversationId (au_context a'))) (au_coalesced a')).
  { split; [by apply map_ok_delete|by apply entries_delete]. }
  destruct (1 <? co_count entry) eqn:E1; breflect.
  - constructor; [done|done|done|done|]. intros q Hq. rewrite told_notify by done. cbn [au_sunk notify_blocked].
    rewrite Hb, Hw by done. change (notified_subject (Blocked _ _ _ _ _)) with q0.
    change (waiting q (notify_blocked _ _)) with (waiting q a'). cbn [news bn_occurrenceCount].
    case_bool_decide; unfold news; cbn; lia.
  - constructor; [done..|]. intros q Hq. cbn [au_sunk au_notified]. rewrite Hb, Hw by done.
    case_bool_decide; cbn; lia.
Qed.

(** A denial is told, or counted in the open window. *)
Lemma coalesce_ok l event a :
  audit_ok l a → plain_subject (subject_of event) → ae_conversationId event = ac_conversationId (au_context a) →
  ae_decision event = Deny →
  audit_ok l (coalesce event (a <| au_sunk := (au_sunk a ++ [event])%list |>)).
Proof.
  intros [Ho Hc [Hin Hd] [Hm He] Hb] Hq Hconv Hdeny. unfold coalesce. rewrite coalescing_key_eq, Hconv.
  change (au_coalesced (a <| au_sunk := _ |>)) with (au_coalesced a).
  set (key := key_of _ _). set (q0 := subject_of event) in *.
  assert (Hkey : ∀ q, plain_subject q → (key_of (ac_conversationId (au_context a)) q = key ↔ q = q0)).
  { intros q Hp. split; [by apply key_of_inj|by intros ->]. }
  assert (Hden : ∀ q, denials q (au_sunk a ++ [event]) = denials q (au_sunk a) + if bool_decide (q0 = q) then 1 else 0).
  { intros q. rewrite denials_app. cbn [denials]. unfold is_denial. rewrite Hdeny, (bool_decide_true (Deny = Deny)) by done.
    cbn [andb]. fold q0. lia. }
  destruct (map_get key (au_coalesced a)) as [entry|] eqn:Eg.
  - destruct (entries_get _ _ _ _ He Eg) as (Ek & Hp & Hcount & Hpos). cbn [fst snd] in *.
    symmetry in Ek. apply Hkey in Ek; [|done].
    constructor; [exact Ho|exact Hc|done|split|].
    + by apply map_ok_set.
    + apply entries_set; [done|]. unfold entry_ok. cbn. rewrite Ek. split_and!; [done..|lia].
    + intros q Hq'. cbn [au_sunk au_notified]. rewrite Hden, Hb by done. unfold waiting. cbn.
      rewrite map_get_set. case_bool_decide as E; [subst q|].
      * rewrite decide_True by done. fold key. rewrite Eg. cbn. lia.
      * rewrite decide_False; [lia|]. rewrite Hkey by done. congruence.
  - set (n := Blocked _ _ _ _ _). assert (Hn : notified_subject n = q0) by done.
    constructor; [done..|split|].
    + by apply map_ok_set.
    + apply entries_set; [done|]. unfold entry_ok. cbn. rewrite Hn. by split_and!.
    + intros q Hq'. rewrite told_notify by done. cbn [au_sunk au_notified notify_blocked]. rewrite Hden, Hb by done.
      unfold waiting. cbn. rewrite map_get_set, Hn. case_bool_decide as E; [subst q|].
      * rewrite decide_True by done. fold key. rewrite Eg. cbn. lia.
      * rewrite decide_False; [lia|]. rewrite Hkey by done. congruence.
Qed.

Lemma record_ok l d now a : audit_ok l a → audit_ok l (record_decision d now a).2.
Proof.
  intros Ha. unfold record_decision. rewrite (audit_open l a Ha).
  destruct (validateNetworkAuditEvent _) as [event|] eqn:Ev; [|done]. apply validate_Ok in Ev as (-> & _ & Hp).
  cbn. case_bool_decide as Ed.
  - destruct Ha as [Ho Hc Hl He Hb]. constructor; [done..|]. intros q Hq. cbn -[denials told waiting].
    rewrite denials_app. cbn [denials]. unfold is_denial. cbn [ae_decision].
    rewrite Ed, (bool_decide_false (Allow = Deny)) by done. cbn [andb].
    change (waiting q _) with (waiting q a). rewrite Hb by done. lia.
  - apply coalesce_ok; [done..|]. cbn. by destruct (nd_decision d).
Qed.

(** A listener that stays subscribed. *)
Definition stays (l : nat) (op : audit_op) : Prop := match op with Unsubscribe l' => l' ≠ l | _ => True end.

Lemma run_audit_ok l ops a : Forall (stays l) ops → audit_ok l a → audit_ok l (run_audit ops a).
Proof.
  unfold run_audit. intros Hs. revert a. induction Hs as [|op ops Hop Hs IH]; intros a Ha; [done|]. cbn [fold_left].
  apply IH. destruct op; cbn [audit_step].
  - by apply record_ok.
  - by apply subscribe_ok.
  - by apply unsubscribe_ok.
  - by apply flush_ok.
Qed.

Lemma new_auditor_ok l context w a : newAuditor context w = Some a → audit_ok l (subscribe_auditor l a).
Proof.
  unfold newAuditor. match goal with |- context [if ?b then _ else _] => destruct b eqn:E; [done|] end.
  intros [= <-]. breflect. unfold subscribe_auditor. cbn. constructor; cbn.
  - done.
  - by apply identity_no_nul.
  - split; [by left|apply NoDup_singleton].
  - split; [constructor|constructor].
  - done.
Qed.

(** The events of the decisions that were accepted. *)
Definition accepted (context : NetworkAuditContext) (ops : list audit_op) : list NetworkPolicyAuditEvent :=
  omap (λ op, match op with
    | Record_ d now => match validateNetworkAuditEvent (as_event context d now) with Ok e => Some e | Err _ => None end
    | _ => None
    end) ops.

Lemma step_sinks op a : au_closed a = false →
  au_sunk (audit_step op a) = (au_sunk a ++ accepted (au_context a) [op])%list ∧
  au_context (audit_step op a) = au_context a ∧ au_closed (audit_step op a) = false.
Proof.
  intros Ho. destruct op as [d now|l|l|key]; cbn [audit_step accepted omap list_omap]; rewrite ?app_nil_r.
  - unfold record_decision. rewrite Ho. unfold as_event. destruct (validateNetworkAuditEvent _) as [e|].
    + cbn. case_bool_decide; [done|]. unfold coalesce. by destruct (map_get _ _).
    + cbn. by rewrite app_nil_r.
  - unfold subscribe_auditor. by rewrite Ho.
  - done.
  - unfold flush_window. destruct (map_get _ _); [|done]. by destruct (_ && _).
Qed.

Lemma run_sinks ops a : au_closed a = false →
  au_sunk (run_audit ops a) = (au_sunk a ++ accepted (au_context a) ops)%list.
Proof.
  unfold run_audit. revert a. induction ops as [|op ops IH]; intros a Ho; [by rewrite app_nil_r|]. cbn [fold_left].
  destruct (step_sinks op a Ho) as (Es & Ec & Ho'). rewrite IH, Es, Ec by done. rewrite <-app_assoc. do 2 f_equal.
  unfold accepted. cbn. by destruct (match op with Record_ _ _ => _ | _ => _ end).
Qed.

(** C12: denials are reported once. While an auditor is open, the diagnostic sink
    has been given exactly the event of every accepted decision, in order; and for
    a listener that stays subscribed and every destination and reason, the
    denials sunk are those it was told of plus those its open window still
    counts, where the closing notification of a window is about all denials but
    the one already announced. So when no window is open it knows of every
    denial, and of none twice. *)
Theorem denials_are_reported_once context w a0 l ops q :
  newAuditor context w = Some a0 → Forall (stays l) ops → plain_subject q →
  let a := run_audit ops (subscribe_auditor l a0) in
  au_sunk a = accepted context ops ∧
  denials q (au_sunk a) = told l q (au_notified a) + waiting q a ∧
  (au_coalesced a = [] → denials q (au_sunk a) = told l q (au_notified a)).
Proof.
  intros Hnew Hs Hq a. pose proof (new_auditor_ok l context w a0 Hnew) as H0.
  pose proof (run_audit_ok l ops _ Hs H0) as Ha. fold a in Ha. split_and!.
  - unfold a. rewrite run_sinks by apply H0. unfold newAuditor in Hnew.
    match type of Hnew with context [if ?b then _ else _] => destruct b; [done|] end. by injection Hnew as <-.
  - by apply Ha.
  - intros Hn. rewrite (audit_balance l a Ha q Hq). unfold waiting. rewrite Hn. cbn. lia.
Qed.
End audit.

Definition sample_context : NetworkAuditContext :=
  {| ac_workspaceId := "w1"; ac_conversationId := "c1"; ac_policySetId := "default" |}.
Definition sample_denial : NetworkDecision :=
  {| nd_protocol := Http; nd_host := "example.com"; nd_port := 443; nd_decision := Deny; nd_reason := ByNotAllowed |}.
Definition sample_subject : subject :=
  {| su_protocol := Http; su_host := "example.com"; su_port := 443; su_reason := ByNotAllowed |}.
Definition sample_audit : list audit_op :=
  [Record_ sample_denial 1; Record_ sample_denial 2; Record_ sample_denial 3;
   WindowEnds (key_of "c1" sample_subject); Record_ sample_denial 4; Record_ sample_denial 5].

Lemma denials_are_reported_once_witness :
  ∃ a0, newAuditor sample_context 1000 = Some a0 ∧
    let a := run_audit sample_audit (subscribe_auditor 7 a0) in
    denials sample_subject (au_sunk a) = told 7 sample_subject (au_notified a) + waiting sample_subject a ∧
    denials sample_subject (au_sunk a) = 5 ∧ waiting sample_subject a = 1.
Proof.
  destruct (newAuditor sample_context 1000) as [a0|] eqn:E0; [|discriminate E0]. exists a0. split; [reflexivity|].
  assert (Hs : Forall (stays 7) sample_audit) by (repeat constructor).
  assert (Hq : plain_subject sample_subject) by (split; [reflexivity|vm_compute; discriminate]).
  pose proof (denials_are_reported_once sample_context 1000 a0 7 sample_audit sample_subject E0 Hs Hq) as (_ & Hb & _).
  split; [exact Hb|]. injection E0 as <-. split; vm_compute; reflexivity.
Defined.
