(* ===== verification/Socks5.v ===== *)
(** The SOCKS5 proxy of managed egress ([src/server/network/socks5-proxy.ts]): the
    handshake of a client, the one attempt it may make to connect, and the state
    that all clients of the proxy share. Events of the sockets, timers and the
    connector are the steps of a state machine. *)
From S2P Require Import Prelude JsValues Texts Errors Programs Addresses NetworkPolicy Resolver Connections EgressAudit.
#[local] Open Scope string_scope. #[local] Open Scope Z_scope.

(** src/server/network/socks5-proxy.ts:24-24 MAX_SOCKS_HANDSHAKE_BYTES *)
Definition MAX_SOCKS_HANDSHAKE_BYTES : Z := 512.

(** [new TextDecoder("utf-8", { fatal: true }).decode]: [None] where it throws. *)
Class Utf8 := decode_utf8 : list Z → option string.

(** ** Replies *)

(** src/server/network/socks5-proxy.ts:32-38 failureReason *)
Definition failureReason (error : connection_thrown) : NetworkAuditReason :=
  match error with
  | PinnedConnectionError NonPublicAddress => ByLocalAddress
  | PinnedConnectionError (DnsTimeout | DnsFailure | DnsEmpty) => ByDnsFailure
  | _ => ByProxy
  end.

(** src/server/network/socks5-proxy.ts:40-44 ipv6String *)
Definition ipv6String (bs : list Z) : string := join colon (hex_string 4 <$> words_of_bytes bs).

(** src/server/network/socks5-proxy.ts:50-55 denialReply *)
Definition denialReply (reason : NetworkAuditReason) : Z :=
  match reason with
  | ByPort | ByExplicitDeny | ByNotAllowed | ByLocalAddress => 2
  | ByLimit => 1
  | ByDnsFailure => 4
  | _ => 5
  end.

(** ** One client *)

(** src/server/network/socks5-proxy.ts:108-108 stage *)
Inductive stage := Greeting | Request | Connecting | Relaying | ClosedStage.
#[export] Instance stage_eq : EqDecision stage.
Proof. solve_decision. Defined.

(** The variables of the closure, and what was done to the socket: written to
    it, ended, destroyed; whether its [data] listener is on, its setup timer
    runs, and it emitted [close]. *)
(** src/server/network/socks5-proxy.ts:105-110 client *)
Record client := {
  cl_buffer : list Z;
  cl_stage : stage;
  cl_timer : bool;
  cl_written : list (list Z);
  cl_ended : bool;
  cl_destroyed : bool;
  cl_listening : bool;
  cl_gone : bool;
}.
#[export] Instance client_spread : Spread client := λ c,
  {| cl_buffer := cl_buffer c; cl_stage := cl_stage c; cl_timer := cl_timer c; cl_written := cl_written c;
     cl_ended := cl_ended c; cl_destroyed := cl_destroyed c; cl_listening := cl_listening c; cl_gone := cl_gone c |}.

Definition write_client (data : list Z) (c : client) : client := c <| cl_written := (cl_written c ++ [data])%list |>.

(** src/server/network/socks5-proxy.ts:46-48 reply *)
Definition reply (code : Z) (c : client) : client :=
  if cl_destroyed c then c else write_client [5; code; 0; 1; 0; 0; 0; 0; 0; 0] c.

(** src/server/network/socks5-proxy.ts:112-118 fail *)
Definition fail (code : option Z) (c : client) : client :=
  if bool_decide (cl_stage c = ClosedStage) then c
  else
    let c := (c <| cl_stage := ClosedStage |>) <| cl_timer := false |> in
    match code with
    | None => c <| cl_destroyed := true |>
    | Some code => (reply code c) <| cl_ended := true |>
    end.

Section handshake.
Context `{NodeUrl} `{Utf8}.

(** src/server/network/socks5-proxy.ts:121-139 greeting *)
Definition parse_greeting (c : client) : client :=
  let buffer := cl_buffer c in
  if byteLength buffer <? 2 then c
  else
    let methods := nth 1 buffer 0 in
    if negb (nth 0 buffer 0 =? 5) || (methods <? 1) then fail None c
    else
      let length := 2 + methods in
      if MAX_SOCKS_HANDSHAKE_BYTES <? length then fail None c
      else if byteLength buffer <? length then c
      else
        let offered := take (Z.to_nat methods) (drop 2 buffer) in
        let c := c <| cl_buffer := drop (Z.to_nat length) buffer |> in
        if negb (bool_decide (0 ∈ offered))
        then (((write_client [5; 255] c) <| cl_ended := true |>) <| cl_stage := ClosedStage |>) <| cl_timer := false |>
        else (write_client [5; 0] c) <| cl_stage := Request |>.

(** Where the host begins, and how long it is; [None] while more is needed. *)
Inductive host_field := FieldAt (offset hostLength : Z) | FieldInvalid | FieldIncomplete.
(** src/server/network/socks5-proxy.ts:144-154 hostField *)
Definition host_field_of (buffer : list Z) : host_field :=
  let atyp := nth 3 buffer 0 in
  if atyp =? 1 then FieldAt 4 4
  else if atyp =? 4 then FieldAt 4 16
  else if atyp =? 3 then
    if byteLength buffer <? 5 then FieldIncomplete
    else
      let hostLength := nth 4 buffer 0 in
      if (hostLength <? 1) || (253 <? hostLength) then FieldInvalid else FieldAt 5 hostLength
  else FieldInvalid.

(** The host as the request spells it; [None] where decoding throws. *)
(** src/server/network/socks5-proxy.ts:160-166 rawHost *)
Definition raw_host (atyp : Z) (field : list Z) : option string :=
  if atyp =? 1 then Some (formatIpv4 field)
  else if atyp =? 4 then Some (ipv6String field)
  else decode_utf8 field.

(** src/server/network/socks5-proxy.ts:140-175 request *)
Definition parse_request (c : client) : client * option (NormalizedDestinationHost * Z) :=
  let buffer := cl_buffer c in
  if byteLength buffer <? 4 then (c, None)
  else if negb (nth 0 buffer 0 =? 5) || negb (nth 2 buffer 0 =? 0) then (fail (Some 1) c, None)
  else if negb (nth 1 buffer 0 =? 1) then (fail (Some 7) c, None)
  else
    match host_field_of buffer with
    | FieldInvalid => (fail (Some 8) c, None)
    | FieldIncomplete => (c, None)
    | FieldAt offset hostLength =>
        let total := offset + hostLength + 2 in
        if MAX_SOCKS_HANDSHAKE_BYTES <? total then (fail (Some 1) c, None)
        else if byteLength buffer <? total then (c, None)
        else if negb (byteLength buffer =? total) then (fail (Some 1) c, None)
        else
          let field := take (Z.to_nat hostLength) (drop (Z.to_nat offset) buffer) in
          let port := word_of (nth (Z.to_nat (offset + hostLength)) buffer 0)
                              (nth (Z.to_nat (offset + hostLength + 1)) buffer 0) in
          match raw_host (nth 3 buffer 0) field with
          | None => (fail (Some 8) c, None)
          | Some rawHost =>
              match normalizeDestinationHost rawHost with
              | Err _ => (fail (Some 8) c, None)
              | Ok host =>
                  if port =? 0 then (fail (Some 8) c, None)
                  else ((c <| cl_buffer := [] |>) <| cl_stage := Connecting |>, Some (host, port))
              end
          end
    end.

(** The destination to connect to, when the request is complete. *)
(** src/server/network/socks5-proxy.ts:120-176 parse *)
Definition parse (c : client) : client * option (NormalizedDestinationHost * Z) :=
  let c := if bool_decide (cl_stage c = Greeting) then parse_greeting c else c in
  if negb (bool_decide (cl_stage c = Request)) then (c, None) else parse_request c.

(** src/server/network/socks5-proxy.ts:178-184 onData *)
Definition on_data (chunk : list Z) (c : client) : client * option (NormalizedDestinationHost * Z) :=
  match cl_stage c with
  | Connecting => (fail (Some 1) c, None)
  | Relaying | ClosedStage => (c, None)
  | _ =>
      if MAX_SOCKS_HANDSHAKE_BYTES <? byteLength (cl_buffer c) + byteLength chunk then (fail None c, None)
      else parse (c <| cl_buffer := (cl_buffer c ++ chunk)%list |>)
  end.

(** A client that was just accepted; [destroyed] by the set when that was closed. *)
Definition fresh_client (destroyed : bool) : client :=
  {| cl_buffer := []; cl_stage := Greeting; cl_timer := true; cl_written := []; cl_ended := false;
     cl_destroyed := destroyed; cl_listening := true; cl_gone := false |}.
End handshake.

(** ** The proxy *)

(** src/server/network/socks5-proxy.ts:26-30 Socks5PolicyProxyOptions *)
Record Socks5Options := {
  so_policy : CompiledDestinationPolicy;
  so_limits : ConnectionLimits;
  so_connectTimeoutMs : Z;
}.

(** An attempt that waits for the connector. *)
Record attempt := { at_host : NormalizedDestinationHost; at_port : Z; at_lease : nat }.

(** A stream to the network: for whom it was opened, the lease its [close] event
    releases, and the address it is connected to. *)
Record outbound := { ob_client : nat; ob_lease : nat; ob_host : NormalizedDestinationHost; ob_port : Z; ob_address : PinnedAddress }.

(** The fields of the class and the closures of its connections: clients by the
    number of their socket, the attempts and relays of clients, the outbound
    streams that did not close. The limit is shared with another proxy, whose
    leases are [px_foreign]. [px_fatals] counts calls of the fatal listeners,
    [px_rejected] the rejections nobody handles. *)
(** src/server/network/socks5-proxy.ts:57-63 Socks5PolicyProxy *)
Record proxy := {
  px_admission : ConnectionAdmission;
  px_foreign : gset nat;
  px_connections : ConnectionSet;
  px_auditor : auditor;
  px_clients : gmap nat client;
  px_attempts : gmap nat attempt;
  px_outbounds : gmap nat outbound;
  px_relays : gmap nat (nat * relay);
  px_listening : bool;
  px_closing : bool;
  px_fatals : nat;
  px_rejected : nat;
}.
#[export] Instance proxy_spread : Spread proxy := λ p,
  {| px_admission := px_admission p; px_foreign := px_foreign p; px_connections := px_connections p;
     px_auditor := px_auditor p; px_clients := px_clients p; px_attempts := px_attempts p;
     px_outbounds := px_outbounds p; px_relays := px_relays p; px_listening := px_listening p;
     px_closing := px_closing p; px_fatals := px_fatals p; px_rejected := px_rejected p |}.

(** src/server/network/socks5-proxy.ts:65-77 constructor *)
Definition newProxy (admission : ConnectionAdmission) (au : auditor) : proxy :=
  {| px_admission := admission; px_foreign := ∅; px_connections := newConnectionSet; px_auditor := au;
     px_clients := ∅; px_attempts := ∅; px_outbounds := ∅; px_relays := ∅; px_listening := false;
     px_closing := false; px_fatals := 0; px_rejected := 0 |}.

Definition on_client (id : nat) (f : client → client) (p : proxy) : proxy :=
  p <| px_clients := alter f id (px_clients p) |>.

(** The rest of an async function after an exception that nobody catches. *)
Definition rejected (p : proxy) : proxy := p <| px_rejected := S (px_rejected p) |>.

Section proxy.
Context `{NodeUrl} `{Utf8} (options : Socks5Options).

(** src/server/network/socks5-proxy.ts:104-110 accept *)
Definition accept (id : nat) (p : proxy) : proxy :=
  let p := p <| px_connections := add_stream id (px_connections p) |> in
  p <| px_clients := <[id := fresh_client (cs_closed (px_connections p))]> (px_clients p) |>.

(** [auditor.record(...)], followed by [next] unless it throws. *)
Definition audited (host : NormalizedDestinationHost) (port : Z) (decision : verdict) (reason : NetworkAuditReason)
    (now : Z) (next : proxy → proxy) (p : proxy) : proxy :=
  let '(r, au) := record_decision
    {| nd_protocol := Socks5Tcp; nd_host := nh_host host; nd_port := port; nd_decision := decision; nd_reason := reason |}
    now (px_auditor p) in
  let p := p <| px_auditor := au |> in
  match r with Ok _ => next p | Err _ => rejected p end.

(** The part of [#connect] up to its [await]. *)
(** src/server/network/socks5-proxy.ts:199-211 begin *)
Definition begin_connect (id : nat) (host : NormalizedDestinationHost) (port now : Z) (p : proxy) : proxy :=
  match decideDestination (so_policy options) {| in_host := nh_host host; in_port := JInt port |} with
  | Err _ => rejected p
  | Ok policy =>
      if negb (allowed policy)
      then audited host port Deny (audit_reason (reason policy)) now
             (on_client id (fail (Some (denialReply (audit_reason (reason policy)))))) p
      else
        match acquire (px_admission p) with
        | (None, _) => audited host port Deny ByLimit now (on_client id (fail (Some 1))) p
        | (Some lease, admission) =>
            (p <| px_admission := admission |>)
              <| px_attempts := <[id := {| at_host := host; at_port := port; at_lease := lease |}]> (px_attempts p) |>
        end
  end.

(** What the connector is asked for: a deadline and a connection under it. *)
(** src/server/network/socks5-proxy.ts:214-214 connect *)
Definition connect_under_deadline (host : NormalizedDestinationHost) (port : Z) : net PinnedConnection :=
  deadline ← createSetupDeadline (JInt (so_connectTimeoutMs options)); connect host port deadline.

Definition relay_options : RelayOptions :=
  {| relayIdleTimeoutMs := idleTimeoutMs (so_limits options); relayMaxBytes := maxConnectionBytes (so_limits options);
     initialLeftToRight := None; initialRightToLeft := None |}.

(** The part of [#connect] after its [await]. The relay is between the client
    and the outbound stream; its TypeError is a rejection. *)
(** src/server/network/socks5-proxy.ts:212-233 finish *)
Definition finish_connect (id : nat) (result : result connection_thrown PinnedConnection) (now : Z) (p : proxy) : proxy :=
  match px_attempts p !! id with
  | None => p
  | Some a =>
      let p := p <| px_attempts := delete id (px_attempts p) |> in
      match result with
      | Err error =>
          let p := p <| px_admission := release (at_lease a) (px_admission p) |> in
          let reason := failureReason error in
          audited (at_host a) (at_port a) Deny reason now (on_client id (fail (Some (denialReply reason)))) p
      | Ok connection =>
          let socket := pc_socket connection in
          let p := on_client id (λ c, c <| cl_timer := false |>) p in
          let p := p <| px_connections := add_stream socket (px_connections p) |> in
          let p := p <| px_outbounds := <[socket := {| ob_client := id; ob_lease := at_lease a; ob_host := at_host a;
                                            ob_port := at_port a; ob_address := pc_address connection |}]> (px_outbounds p) |> in
          audited (at_host a) (at_port a) Allow ByAllowlist now (λ p,
            let p := on_client id (λ c, (reply 0 (c <| cl_listening := false |>)) <| cl_stage := Relaying |>) p in
            match relayBidirectional relay_options with
            | None => rejected p
            | Some r => p <| px_relays := <[id := (socket, r)]> (px_relays p) |>
            end) p
      end
  end.

(** src/server/network/socks5-proxy.ts:178-185 onClientData *)
Definition client_data (id : nat) (chunk : list Z) (now : Z) (p : proxy) : proxy :=
  match px_clients p !! id with
  | None => p
  | Some c =>
      let '(c, destination) := on_data chunk c in
      let p := p <| px_clients := <[id := c]> (px_clients p) |> in
      match destination with
      | None => p
      | Some (host, port) => begin_connect id host port now p
      end
  end.

(** ** Events *)

(** One event of a relay, whose closing destroys both streams. *)
Definition relay_step (id : nat) (e : relay_event) (p : proxy) : proxy :=
  match px_relays p !! id with
  | None => p
  | Some (socket, r) =>
      let r := on_relay_event relay_options e r in
      let p := p <| px_relays := <[id := (socket, r)]> (px_relays p) |> in
      if rl_closed r then on_client id (λ c, c <| cl_destroyed := true |>) p else p
  end.

(** The relay of a client, told that one of its streams closed. *)
Definition relay_told (id : nat) (s : side) (p : proxy) : proxy :=
  match px_relays p !! id with None => p | Some _ => relay_step id (CloseOf s) p end.

(** src/server/network/socks5-proxy.ts:187-187 clientClosed *)
Definition client_closed (id : nat) (p : proxy) : proxy :=
  let p := p <| px_connections := delete_stream id (px_connections p) |> in
  let p := on_client id (λ c, ((c <| cl_stage := ClosedStage |>) <| cl_timer := false |>) <| cl_gone := true |>) p in
  relay_told id Left p.

(** The outbound stream closed: its lease is released. *)
(** src/server/network/socks5-proxy.ts:224-224 outboundClosed *)
Definition outbound_closed (socket : nat) (p : proxy) : proxy :=
  match px_outbounds p !! socket with
  | None => p
  | Some o =>
      let p := p <| px_connections := delete_stream socket (px_connections p) |> in
      let p := p <| px_admission := release (ob_lease o) (px_admission p) |> in
      let p := p <| px_outbounds := delete socket (px_outbounds p) |> in
      relay_told (ob_client o) Right p
  end.

(** Stopping the admission and closing every stream: clients learn that they are
    destroyed. *)
Definition destroy_clients (streams : list nat) (p : proxy) : proxy :=
  foldr (λ s, on_client s (λ c, c <| cl_destroyed := true |>)) p streams.
Definition stop_streams (p : proxy) : proxy :=
  destroy_clients (cs_streams (px_connections p))
    ((p <| px_admission := stop (px_admission p) |>) <| px_connections := closeAll (px_connections p) |>).

(** src/server/network/socks5-proxy.ts:96-102 fatal *)
Definition fatal (p : proxy) : proxy :=
  if px_closing p then p
  else
    let p := stop_streams (p <| px_closing := true |>) in
    p <| px_fatals := S (px_fatals p) |>.

(** src/server/network/socks5-proxy.ts:235-242 close *)
Definition close_proxy (p : proxy) : proxy :=
  if px_closing p then p else stop_streams (p <| px_closing := true |>).

(** src/server/network/socks5-proxy.ts:244-249 forceClose *)
Definition force_close (p : proxy) : proxy := stop_streams (p <| px_closing := true |>).

Inductive proxy_event :=
| Listening
| Accepts (id : nat)
| ClientData (id : nat) (chunk : list Z) (now : Z)
| ClientError (id : nat)
| ClientClosed (id : nat)
| SetupTimer (id : nat)
| ConnectorSettles (id : nat) (r : result connection_thrown PinnedConnection) (now : Z)
| OutboundClosed (socket : nat)
| RelayEvent (id : nat) (e : relay_event)
| ServerFails
| CloseProxy
| ForceClose
| ForeignAcquires
| ForeignReleases (lease : nat)
| ForeignStops.

(** src/server/network/socks5-proxy.ts:71-76 events *)
Definition on_event (e : proxy_event) (p : proxy) : proxy :=
  match e with
  | Listening => p <| px_listening := true |>
  | Accepts id => accept id p
  | ClientData id chunk now => client_data id chunk now p
  | ClientError id => on_client id (fail None) p
  | ClientClosed id => client_closed id p
  | SetupTimer id => on_client id (λ c, (c <| cl_destroyed := true |>) <| cl_timer := false |>) p
  | ConnectorSettles id r now => finish_connect id r now p
  | OutboundClosed socket => outbound_closed socket p
  | RelayEvent id e => relay_step id e p
  | ServerFails => if px_listening p && negb (px_closing p) then fatal p else p
  | CloseProxy => close_proxy p
  | ForceClose => force_close p
  | ForeignAcquires =>
      match acquire (px_admission p) with
      | (None, _) => p
      | (Some lease, a) => (p <| px_admission := a |>) <| px_foreign := {[lease]} ∪ px_foreign p |>
      end
  | ForeignReleases lease =>
      (p <| px_admission := release lease (px_admission p) |>) <| px_foreign := px_foreign p ∖ {[lease]} |>
  | ForeignStops => p <| px_admission := stop (px_admission p) |>
  end.

(** Whether the owner of streams destroyed one. *)
Definition owner_destroyed (socket : nat) (p : proxy) : bool := bool_decide (socket ∈ cs_destroyed (px_connections p)).

(** A socket that no stream of the proxy had. *)
Definition fresh_socket (s : nat) (p : proxy) : Prop :=
  px_clients p !! s = None ∧ px_outbounds p !! s = None ∧ s ∉ cs_destroyed (px_connections p) ∧ s ∉ cs_streams (px_connections p).

(** What [Date.now()] returns. *)
Definition valid_time (now : Z) : Prop := 0 ≤ now ∧ isSafeInteger now = true.

(** When an event can happen: sockets are new, a socket emits no data once it is
    destroyed and closes once, timers fire while they run, and the connector
    answers as some run of it does. *)
Definition enabled (e : proxy_event) (p : proxy) : Prop :=
  match e with
  | Accepts id => fresh_socket id p
  | ClientData id chunk now => valid_time now ∧ ∃ c, px_clients p !! id = Some c ∧ cl_listening c = true ∧ cl_gone c = false ∧
      cl_destroyed c = false ∧ owner_destroyed id p = false ∧ chunk ≠ [] ∧ Forall (λ b, 0 ≤ b < 256) chunk
  | ClientError id => is_Some (px_clients p !! id)
  | ClientClosed id => ∃ c, px_clients p !! id = Some c ∧ cl_gone c = false
  | SetupTimer id => ∃ c, px_clients p !! id = Some c ∧ cl_timer c = true
  | ConnectorSettles id r now => valid_time now ∧ ∃ a, px_attempts p !! id = Some a ∧
      (∃ env u h, run_prog env [] (connect_under_deadline (at_host a) (at_port a) tt) =
         ((match r with Ok c => Next c | Err e => Throw e end, u), h)) ∧
      match r with Ok c => fresh_socket (pc_socket c) p | Err _ => True end
  | OutboundClosed socket => is_Some (px_outbounds p !! socket)
  | RelayEvent id e => ∃ s r, px_relays p !! id = Some (s, r) ∧ may_happen e r = true ∧
      match e with
      | CloseOf _ => False
      | DataFrom Left _ _ => owner_destroyed id p = false
      | DataFrom Right _ _ => owner_destroyed s p = false
      | _ => True
      end
  | ForeignReleases lease => lease ∈ px_foreign p
  | _ => True
  end.

Inductive reachable (p0 : proxy) : proxy → Prop :=
| reachable_start : reachable p0 p0
| reachable_step p e : reachable p0 p → enabled e p → reachable p0 (on_event e p).
End proxy.
