(* ===== verification/Socks5Handshake.v ===== *)
(** The SOCKS5 handshake: however the bytes of a request arrive, the proxy reads
    exactly the destination they encode, and it keeps no more than the bound. *)
From S2P Require Import Prelude JsValues Texts Errors Programs Addresses AddressText NetworkPolicy NetworkPolicySafety Resolver Connections EgressAudit Socks5.
#[local] Open Scope string_scope. #[local] Open Scope Z_scope.

(** ** The encoding *)

Definition greeting_bytes (methods : list Z) : list Z := 5 :: byteLength methods :: methods.

(** The length of a domain name precedes it; addresses have that of their family. *)
Definition length_field (atyp : Z) (field : list Z) : list Z := if atyp =? 3 then [byteLength field] else [].
Definition request_bytes (atyp : Z) (field : list Z) (port : Z) : list Z :=
  ([5; 1; 0; atyp] ++ length_field atyp field ++ field ++ [Z.shiftr port 8; Z.land port 255])%list.

Definition valid_field (atyp : Z) (field : list Z) : Prop :=
  (atyp = 1 ∧ byteLength field = 4) ∨ (atyp = 4 ∧ byteLength field = 16) ∨ (atyp = 3 ∧ 1 ≤ byteLength field ≤ 253).

(** Chunks in the order they arrive. *)
Section feed.
Context `{NodeUrl} `{Utf8}.

Fixpoint feed (chunks : list (list Z)) (c : client) : client * list (NormalizedDestinationHost * Z) :=
  match chunks with
  | [] => (c, [])
  | chunk :: chunks =>
      let '(c, d) := on_data chunk c in
      let '(c, ds) := feed chunks c in
      (c, match d with Some x => x :: ds | None => ds end)
  end.

(** ** Reading an encoded request *)

Section message.
Context (methods : list Z) (atyp : Z) (field : list Z) (port : Z).
Context (Hmethods : 1 ≤ byteLength methods ≤ 255) (Hnone : 0 ∈ methods) (Hfield : valid_field atyp field)
        (Hport : 1 ≤ port < 65536).
Notation g := (greeting_bytes methods).
Notation r := (request_bytes atyp field port).

(** A client that received the first [n] bytes. *)
Definition client_after (n : nat) : client :=
  if (n <? length g)%nat then (fresh_client false) <| cl_buffer := take n (g ++ r) |>
  else (write_client [5; 0] (fresh_client false) <| cl_buffer := take (n - length g) r |>) <| cl_stage := Request |>.

Lemma nth_take_lt (l : list Z) i n d : (i < n)%nat → nth i (take n l) d = nth i l d.
Proof.
  revert i n. induction l as [|x l IH]; intros i n Hi; [by destruct n|]. destruct n as [|n]; [lia|].
  destruct i as [|i]; [done|]. cbn. apply IH. lia.
Qed.
Lemma byteLength_take (l : list Z) n : (n ≤ length l)%nat → byteLength (take n l) = Z.of_nat n.
Proof. intros Hn. unfold byteLength. rewrite length_take. lia. Qed.

Lemma greeting_length : length g = (2 + length methods)%nat.
Proof. done. Qed.
Lemma request_length : Z.of_nat (length r) = match atyp with 3 => 5 | _ => 4 end + byteLength field + 2.
Proof.
  unfold request_bytes, byteLength, length_field. rewrite !length_app. cbn [length].
  destruct Hfield as [[-> _]|[[-> _]|[-> _]]]; cbn [length Z.eqb Pos.eqb]; lia.
Qed.

(** The greeting, while it is incomplete and when it is complete. *)
Lemma greeting_waits n : (n < length g)%nat →
  parse_greeting ((fresh_client false) <| cl_buffer := take n (g ++ r) |>) = (fresh_client false) <| cl_buffer := take n (g ++ r) |>.
Proof.
  intros Hn. unfold parse_greeting. cbn [cl_buffer with_field]. rewrite greeting_length in Hn.
  rewrite byteLength_take by (rewrite length_app, greeting_length; lia).
  destruct (Z.of_nat n <? 2) eqn:E; [done|]. breflect. rewrite !nth_take_lt by lia. cbn [greeting_bytes app nth].
  unfold byteLength in *. cbn [Z.eqb Pos.eqb negb orb].
  destruct (Z.of_nat (length methods) <? 1) eqn:E1; breflect; [lia|].
  unfold MAX_SOCKS_HANDSHAKE_BYTES. destruct (512 <? _) eqn:E2; breflect; [lia|].
  destruct (Z.of_nat n <? _) eqn:E3; breflect; [done|lia].
Qed.

Lemma greeting_done n : (length g ≤ n)%nat → (n ≤ length (g ++ r))%nat →
  parse_greeting ((fresh_client false) <| cl_buffer := take n (g ++ r) |>) = client_after n.
Proof.
  intros Hn Hle. unfold parse_greeting. cbn [cl_buffer with_field]. rewrite byteLength_take by done.
  pose proof greeting_length as Hg. rewrite Hg in Hn.
  destruct (Z.of_nat n <? 2) eqn:E; breflect; [lia|]. rewrite !nth_take_lt by lia. cbn [greeting_bytes app nth].
  unfold byteLength in *. cbn [Z.eqb Pos.eqb negb orb].
  destruct (Z.of_nat (length methods) <? 1) eqn:E1; breflect; [lia|].
  unfold MAX_SOCKS_HANDSHAKE_BYTES. destruct (512 <? _) eqn:E2; breflect; [lia|].
  destruct (Z.of_nat n <? _) eqn:E3; breflect; [lia|].
  destruct n as [|[|k]]; [lia..|]. cbn [take drop]. rewrite Nat2Z.id.
  assert (Ek : take k (methods ++ r) = (methods ++ take (k - length methods) r)%list).
  { rewrite take_app. by rewrite take_ge by lia. }
  rewrite Ek, drop_0, take_app_length, bool_decide_true by done. cbn [negb].
  replace (Z.to_nat (2 + Z.of_nat (length methods))) with (S (S (length methods))) by lia. cbn [drop].
  rewrite drop_app_length. unfold client_after. rewrite Hg.
  destruct (Nat.ltb_spec (S (S k)) (2 + length methods)); [lia|]. cbn [Nat.add Nat.sub]. done.
Qed.

(** The request, while it is incomplete and when it is complete. *)
Lemma field_at k : (4 ≤ k)%nat → (k ≤ length r)%nat →
  host_field_of (take k r) =
    if (atyp =? 3) && (Z.of_nat k <? 5) then FieldIncomplete
    else FieldAt (if atyp =? 3 then 5 else 4) (byteLength field).
Proof.
  intros H4 Hk. unfold host_field_of. rewrite byteLength_take by done. rewrite !nth_take_lt by lia. cbn [request_bytes app nth].
  destruct Hfield as [[-> Hf]|[[-> Hf]|[-> Hf]]]; cbn [Z.eqb Pos.eqb andb]; [by rewrite Hf..|].
  destruct (Z.of_nat k <? 5) eqn:E; breflect; [done|]. rewrite nth_take_lt by lia. cbn [length_field app nth Z.eqb Pos.eqb].
  destruct (_ || _) eqn:E2; [|done]. apply orb_true_iff in E2 as [E2|E2]; breflect; lia.
Qed.

Definition total_length : Z := (if atyp =? 3 then 5 else 4) + byteLength field + 2.
Lemma total_is : Z.of_nat (length r) = total_length.
Proof. rewrite request_length. unfold total_length. by destruct Hfield as [[-> _]|[[-> _]|[-> _]]]. Qed.
Lemma total_bounds : 6 ≤ total_length ≤ 260.
Proof. unfold total_length. destruct Hfield as [[-> ?]|[[-> ?]|[-> ?]]]; cbn [Z.eqb Pos.eqb]; lia. Qed.

Lemma request_waits c k : (k < length r)%nat → cl_buffer c = take k r → parse_request c = (c, None).
Proof.
  intros Hk Eb. unfold parse_request. rewrite Eb. rewrite byteLength_take by lia.
  destruct (Z.of_nat k <? 4) eqn:E; [done|]. breflect. rewrite !nth_take_lt by lia. rewrite field_at by lia.
  cbn [request_bytes app nth Z.eqb Pos.eqb negb orb]. destruct (_ && _) eqn:E2; [done|].
  pose proof total_is as Ht. pose proof total_bounds. unfold MAX_SOCKS_HANDSHAKE_BYTES. fold total_length.
  destruct (512 <? total_length) eqn:E3; breflect; [lia|].
  destruct (Z.of_nat k <? total_length) eqn:E4; breflect; [done|lia].
Qed.

Lemma word_of_port : word_of (Z.shiftr port 8) (Z.land port 255) = port.
Proof.
  assert (Hl : Z.land port 255 = port mod 256) by (change 255 with (Z.ones 8); by rewrite Z.land_ones by lia).
  rewrite word_of_eq; [rewrite Hl, Z.shiftr_div_pow2 by lia|rewrite Hl; apply Z.mod_pos_bound; lia].
  change (2 ^ 8) with 256. pose proof (Z.div_mod port 256 ltac:(lia)). lia.
Qed.

(** What the complete request asks for. *)
Lemma request_done c raw host :
  cl_buffer c = r → raw_host atyp field = Some raw → normalizeDestinationHost raw = Ok host →
  parse_request c = ((c <| cl_buffer := [] |>) <| cl_stage := Connecting |>, Some (host, port)).
Proof.
  intros Eb Hraw Hhost. pose proof total_is as Ht. pose proof total_bounds as Hb.
  assert (Hf : host_field_of r = FieldAt (if atyp =? 3 then 5 else 4) (byteLength field)).
  { rewrite <-(take_ge r (length r)), field_at by lia. destruct (_ && _) eqn:E5; [|done]. breflect. lia. }
  set (o := if atyp =? 3 then 5 else 4) in *.
  assert (N0 : nth 0 r 0 = 5) by done. assert (N1 : nth 1 r 0 = 1) by done.
  assert (N2 : nth 2 r 0 = 0) by done. assert (N3 : nth 3 r 0 = atyp) by done.
  set (pre := ([5; 1; 0; atyp] ++ length_field atyp field)%list).
  assert (Er : r = (pre ++ field ++ [Z.shiftr port 8; Z.land port 255])%list) by done.
  assert (Ho : length pre = Z.to_nat o) by (unfold pre, o, length_field; by destruct (atyp =? 3)).
  assert (Ho0 : 0 ≤ o) by (unfold o; by destruct (atyp =? 3)).
  assert (Hfd : take (Z.to_nat (byteLength field)) (drop (Z.to_nat o) r) = field).
  { rewrite Er, <-Ho, drop_app_length. unfold byteLength. by rewrite Nat2Z.id, take_app_length. }
  assert (Hp : ∀ i, 0 ≤ i → nth (Z.to_nat (o + byteLength field + i)) r 0 =
    nth (Z.to_nat i) [Z.shiftr port 8; Z.land port 255] 0).
  { intros i Hi. rewrite Er, app_assoc, app_nth2; rewrite length_app, Ho; unfold byteLength; [f_equal; lia|lia]. }
  assert (P0 := Hp 0 ltac:(lia)). rewrite Z.add_0_r in P0. assert (P1 := Hp 1 ltac:(lia)).
  change (nth (Z.to_nat 0) _ 0) with (Z.shiftr port 8) in P0. change (nth (Z.to_nat 1) _ 0) with (Z.land port 255) in P1.
  unfold parse_request. rewrite Eb, Hf, N0, N1, N2, N3, Hfd, P0, P1, word_of_port, Hraw, Hhost.
  replace (byteLength r) with total_length by (unfold byteLength; lia).
  replace (o + byteLength field + 2) with total_length by done. unfold MAX_SOCKS_HANDSHAKE_BYTES.
  rewrite Z.ltb_irrefl, (Z.eqb_refl total_length).
  replace (total_length <? 4) with false by lia. replace (512 <? total_length) with false by lia.
  replace (port =? 0) with false by lia. done.
Qed.

Context (raw : string) (host : NormalizedDestinationHost).
Context (Hbound : byteLength (g ++ r) ≤ MAX_SOCKS_HANDSHAKE_BYTES)
        (Hraw : raw_host atyp field = Some raw) (Hhost : normalizeDestinationHost raw = Ok host).
Notation message := (g ++ r)%list.

(** The client whose request was read. *)
Definition client_read : client := (write_client [5; 0] (fresh_client false)) <| cl_stage := Connecting |>.

Lemma after_greeting n : (length g ≤ n ≤ length message)%nat →
  parse_request (client_after n) =
    if (n <? length message)%nat then (client_after n, None) else (client_read, Some (host, port)).
Proof.
  intros [Hg Hn]. pose proof Hn as Hn'. rewrite length_app in Hn'.
  unfold client_after. destruct (Nat.ltb_spec n (length g)); [lia|].
  destruct (Nat.ltb_spec n (length message)) as [Hlt|Hlt]; rewrite length_app in Hlt.
  - apply (request_waits _ (n - length g)); [lia|done].
  - rewrite (request_done _ raw host); [done| |done|done]. apply (take_ge r (n - length g)). lia.
Qed.

(** The chunk that follows the first [n] bytes. *)
Lemma next_chunk n chunk rest : drop n message = (chunk ++ rest)%list → (n ≤ length message)%nat →
  on_data chunk (client_after n) =
    if (n + length chunk <? length message)%nat then (client_after (n + length chunk), None)
    else (client_read, Some (host, port)).
Proof.
  intros Ed Hn. assert (Hl : (n + length chunk ≤ length message)%nat).
  { apply (f_equal length) in Ed. rewrite length_drop, (length_app chunk rest) in Ed. lia. }
  assert (Et : (take n message ++ chunk)%list = take (n + length chunk) message).
  { rewrite <-take_take_drop, Ed. by rewrite take_app_length. }
  pose proof Hbound as Hb. unfold byteLength in Hb. unfold client_after at 1. destruct (Nat.ltb_spec n (length g)) as [Hlt|Hlt].
  - unfold on_data. cbn [cl_stage cl_buffer with_field fresh_client].
    rewrite (byteLength_take message) by done. unfold byteLength at 1. destruct (_ <? _) eqn:E; breflect; [lia|]. clear E.
    unfold parse. cbn [cl_stage with_field fresh_client]. rewrite (bool_decide_true (Greeting = Greeting)) by done.
    change ((_ <| cl_buffer := _ |>) <| cl_buffer := ?b |>) with ((fresh_client false) <| cl_buffer := b |>). rewrite Et.
    destruct (Nat.ltb_spec (n + length chunk) (length g)) as [Hg|Hg].
    + rewrite greeting_waits by done. cbn [cl_stage with_field fresh_client].
      rewrite (bool_decide_false (Greeting = Request)) by done. cbn [negb].
      destruct (Nat.ltb_spec (n + length chunk) (length message)) as [_|Hm]; [|rewrite length_app in Hm; lia].
      unfold client_after. by destruct (Nat.ltb_spec (n + length chunk) (length g)); [|lia].
    + rewrite greeting_done by done. rewrite <-after_greeting by done.
      replace (cl_stage (client_after (n + length chunk))) with Request; [done|].
      unfold client_after. by destruct (Nat.ltb_spec (n + length chunk) (length g)); [lia|].
  - unfold on_data. cbn [cl_stage cl_buffer with_field fresh_client write_client].
    assert (Eb : (take (n - length g) r ++ chunk)%list = take (n + length chunk - length g) r).
    { apply (f_equal (drop (length g))) in Et. rewrite drop_app_le in Et by (rewrite length_take; lia).
      rewrite !skipn_firstn_comm, drop_app_length in Et. exact Et. }
    rewrite Eb.
    destruct (_ <? _) eqn:E; breflect.
    { unfold byteLength in E. rewrite length_take in E. rewrite length_app in Hl, Hb. lia. }
    unfold parse. cbn [cl_stage with_field fresh_client write_client].
    rewrite (bool_decide_false (Request = Greeting)), (bool_decide_true (Request = Request)) by done. cbn [negb].
    rewrite <-after_greeting by lia. unfold client_after.
    by destruct (Nat.ltb_spec (n + length chunk) (length g)); [lia|].
Qed.

Lemma feed_message chunks n :
  drop n message = concat chunks → Forall (λ c, c ≠ []) chunks → (n < length message)%nat →
  feed chunks (client_after n) = (client_read, [(host, port)]).
Proof.
  revert n. induction chunks as [|chunk chunks IH]; intros n Ed Hne Hn; cbn [concat feed] in *.
  { apply (f_equal length) in Ed. rewrite length_drop in Ed. cbn [length] in Ed. lia. }
  apply Forall_cons in Hne as [Hc Hne]. rewrite (next_chunk n chunk (concat chunks)) by (done || lia).
  assert (Ed' : drop (n + length chunk) message = concat chunks) by (by rewrite <-drop_drop, Ed, drop_app_length).
  destruct (Nat.ltb_spec (n + length chunk) (length message)) as [Hm|Hm].
  - by rewrite IH.
  - rewrite drop_ge in Ed' by done. destruct chunks as [|[|x c] chunks]; [done| |done].
    by apply Forall_cons in Hne as [? _].
Qed.
End message.

(** ** What a client can make the proxy keep *)

Definition byte_list (bs : list Z) : Prop := Forall is_byte bs.

(** Bytes within the bound; a destination only when the handshake ends. *)
Definition early (c : client) : Prop := cl_stage c = Greeting ∨ cl_stage c = Request.
Definition buffer_ok (c : client) : Prop := byteLength (cl_buffer c) ≤ MAX_SOCKS_HANDSHAKE_BYTES ∧ byte_list (cl_buffer c).

(** How a client moves while it is read. *)
Definition reads_on (c c' : client) (d : option (NormalizedDestinationHost * Z)) : Prop :=
  buffer_ok c' ∧ (early c' → early c) ∧
  cl_gone c' = cl_gone c ∧ cl_listening c' = cl_listening c ∧
  match d with
  | Some (host, port) => early c ∧ cl_stage c' = Connecting ∧ 1 ≤ port < 65536 ∧ ∃ raw, normalizeDestinationHost raw = Ok host
  | None => cl_stage c' = Connecting → cl_stage c = Connecting
  end.

Lemma fail_fields code c :
  cl_buffer (fail code c) = cl_buffer c ∧ cl_stage (fail code c) = ClosedStage ∧
  cl_gone (fail code c) = cl_gone c ∧ cl_listening (fail code c) = cl_listening c.
Proof.
  unfold fail. case_bool_decide as E; [done|]. destruct code; [|done]. unfold reply. by destruct (cl_destroyed _).
Qed.
Lemma fail_reads code c : buffer_ok c → reads_on c (fail code c) None.
Proof.
  intros Hb. destruct (fail_fields code c) as (Eb & Es & Eg & El). unfold reads_on, buffer_ok, early.
  rewrite Eb, Es, Eg, El. split_and!; try done; [apply Hb|apply Hb|by intros [|]].
Qed.
Lemma same_reads c : buffer_ok c → cl_stage c ≠ Connecting → reads_on c c None.
Proof. intros Hb Hs. by split_and!. Qed.

Lemma byteLength_drop_le (l : list Z) n : byteLength (drop n l) ≤ byteLength l.
Proof. unfold byteLength. rewrite length_drop. lia. Qed.

Lemma parse_greeting_reads c : buffer_ok c → cl_stage c = Greeting →
  reads_on c (parse_greeting c) None.
Proof.
  intros Hb Hs. assert (Hsame : reads_on c c None) by (apply same_reads; [done|by rewrite Hs]).
  unfold parse_greeting. destruct (_ <? 2); [done|]. destruct (_ || _); [by apply fail_reads|].
  destruct (_ <? _); [by apply fail_reads|]. destruct (_ <? _); [done|]. destruct Hb as [Hl Hby].
  assert (Hd : ∀ n, buffer_ok (c <| cl_buffer := drop n (cl_buffer c) |>)).
  { intros n. split; [|by apply Forall_drop]. cbn [cl_buffer with_field].
    etrans; [apply byteLength_drop_le|exact Hl]. }
  destruct (negb _).
  - split_and!; try done; try apply Hd. by intros [|].
  - split_and!; try done; try apply Hd. intros _. by left.
Qed.

Lemma word_of_bytes h l : is_byte h → is_byte l → 0 ≤ word_of h l < 65536.
Proof. apply word_of_is_word. Qed.

Lemma nth_byte bs i : byte_list bs → is_byte (nth i bs 0).
Proof.
  intros Hb. destruct (nth_in_or_default i bs 0) as [Hin| ->]; [|by vm_compute].
  unfold byte_list in Hb. rewrite Forall_forall in Hb. by apply Hb, list_elem_of_In.
Qed.

Lemma parse_request_reads c : buffer_ok c → cl_stage c = Request →
  reads_on c (parse_request c).1 (parse_request c).2.
Proof.
  intros Hb Hs. assert (Hsame : reads_on c c None) by (apply same_reads; [done|by rewrite Hs]).
  assert (Hf : ∀ code, reads_on c (fail code c) None) by (intros; by apply fail_reads).
  unfold parse_request. destruct (_ <? 4); [done|]. destruct (_ || _); [apply Hf|]. destruct (negb _); [apply Hf|].
  destruct (host_field_of _) as [offset hostLength| |]; [|apply Hf|done].
  destruct (_ <? _); [apply Hf|]. destruct (_ <? _); [done|]. destruct (negb _); [apply Hf|].
  destruct (raw_host _ _) as [raw|]; [|apply Hf]. destruct (normalizeDestinationHost raw) as [host|] eqn:Eh; [|apply Hf].
  destruct (_ =? 0) eqn:Ep; [apply Hf|]. breflect. destruct Hb as [Hl Hby].
  cbn [fst snd]. unfold reads_on. split; [split; [by vm_compute|by constructor]|]. split; [by intros [|]|].
  do 2 (split; [done|]). split; [by right|]. split; [done|]. split; [|by exists raw].
  pose proof (word_of_bytes (nth (Z.to_nat (offset + hostLength)) (cl_buffer c) 0)
    (nth (Z.to_nat (offset + hostLength + 1)) (cl_buffer c) 0) (nth_byte _ _ Hby) (nth_byte _ _ Hby)). lia.
Qed.

Lemma on_data_reads c chunk : buffer_ok c → byte_list chunk →
  reads_on c (on_data chunk c).1 (on_data chunk c).2.
Proof.
  intros Hb Hc. unfold on_data. destruct (cl_stage c) eqn:Es.
  3: by apply fail_reads.
  3, 4: cbn [fst snd]; apply same_reads; [done|by rewrite Es].
  all: destruct (_ <? _) eqn:El; [by apply fail_reads|]; breflect.
  all: set (c1 := c <| cl_buffer := (cl_buffer c ++ chunk)%list |>).
  all: assert (H1 : buffer_ok c1) by (split; [cbn; unfold byteLength in *; rewrite length_app; lia|by apply Forall_app; split; [apply Hb|]]).
  all: assert (Es1 : cl_stage c1 = cl_stage c) by done; rewrite Es in Es1; unfold parse; rewrite Es1.
  - rewrite (bool_decide_true (Greeting = Greeting)) by done. pose proof (parse_greeting_reads c1 H1 Es1) as Hg.
    destruct Hg as (Hb2 & He2 & Hgo & Hli & Hn2).
    assert (Hlift : ∀ c' d, reads_on (parse_greeting c1) c' d → reads_on c c' d).
    { intros c' d (Hb3 & He3 & Hgo3 & Hli3 & Hd3). split; [done|]. split; [by left|].
      split; [by rewrite Hgo3, Hgo|]. split; [by rewrite Hli3, Hli|]. destruct d as [[host port]|].
      - destruct Hd3 as (_ & ? & ? & ?). split; [by left|done].
      - intros Hs. apply Hd3, Hn2 in Hs. congruence. }
    case_bool_decide as Er; cbn [negb fst snd].
    + apply Hlift. by apply parse_request_reads.
    + split; [done|]. split; [by left|]. split; [done|]. split; [done|]. intros Hs. apply Hn2 in Hs. congruence.
  - rewrite (bool_decide_false (Request = Greeting)), Es1, (bool_decide_true (Request = Request)) by done. cbn [negb].
    destruct (parse_request_reads c1 H1 Es1) as (Hb2 & He2 & Hgo & Hli & Hd). split; [done|]. split; [by right|].
    split; [done|]. split; [done|]. destruct (parse_request c1).2 as [[host port]|].
    + destruct Hd as (_ & ? & ? & ?). split; [by right|done].
    + intros Hs. apply Hd in Hs. congruence.
Qed.

Lemma feed_reads chunks c : buffer_ok c → Forall byte_list chunks →
  buffer_ok (feed chunks c).1 ∧ (length (feed chunks c).2 ≤ 1)%nat ∧ (¬ early c → (feed chunks c).2 = []).
Proof.
  intros Hb Hc. revert c Hb. induction Hc as [|chunk chunks Hch Hc IH]; intros c Hb; cbn [feed]; [split_and!; [done|cbn; lia|done]|].
  destruct (on_data_reads c chunk Hb Hch) as (Hb' & He & _ & _ & Hd). destruct (on_data chunk c) as [c' d]. cbn [fst snd] in *.
  destruct (IH c' Hb') as (Hb'' & Hl & Hn). destruct (feed chunks c') as [c'' ds]. cbn [fst snd] in *.
  destruct d as [[host port]|].
  - destruct Hd as (Hec & Hs & _). rewrite Hn by (unfold early; rewrite Hs; by intros [|]). split_and!; [done|cbn; lia|tauto].
  - split_and!; [done|done|]. intros Hne. apply Hn. tauto.
Qed.

Lemma client_after_0 methods atyp field port : client_after methods atyp field port 0 = fresh_client false.
Proof. done. Qed.

(** C11: the handshake reads exactly what was sent. Take any method list that
    offers no authentication and any request for an address or a name, at most
    as long as the bound together, and cut their bytes into non-empty chunks
    anywhere: the proxy answers the methods once and then asks for exactly the
    encoded host, normalized, and the encoded port; it was written nothing else,
    and kept nothing. And whatever bytes a client sends in whatever chunks, it
    makes the proxy keep no more than the bound and ask for at most one destination. *)
Theorem handshake_reads_what_was_sent :
  (∀ methods atyp field port raw host chunks,
     1 ≤ byteLength methods ≤ 255 → 0 ∈ methods → valid_field atyp field → 1 ≤ port < 65536 →
     byteLength (greeting_bytes methods ++ request_bytes atyp field port) ≤ MAX_SOCKS_HANDSHAKE_BYTES →
     raw_host atyp field = Some raw → normalizeDestinationHost raw = Ok host →
     Forall (λ c, c ≠ []) chunks → concat chunks = (greeting_bytes methods ++ request_bytes atyp field port)%list →
     feed chunks (fresh_client false) = (client_read, [(host, port)])) ∧
  (∀ chunks, Forall byte_list chunks →
     byteLength (cl_buffer (feed chunks (fresh_client false)).1) ≤ MAX_SOCKS_HANDSHAKE_BYTES ∧
     (length (feed chunks (fresh_client false)).2 ≤ 1)%nat).
Proof.
  split.
  - intros methods atyp field port raw host chunks Hm H0m Hf Hp Hb Hr Hh Hne Ec.
    rewrite <-(client_after_0 methods atyp field port). eapply feed_message; try done. cbn. lia.
  - intros chunks Hc. assert (Hb : buffer_ok (fresh_client false)) by (split; [by vm_compute|constructor]).
    destruct (feed_reads chunks _ Hb Hc) as ([? _] & ? & _). done.
Qed.
End feed.

(** A decoder of ASCII. *)
Definition ascii_utf8 : Utf8 := λ bs,
  if forallb (λ b, b <? 128) bs then Some (fold_right (λ b s, String (ascii_of_N (Z.to_N b)) s) "" bs) else None.

Lemma handshake_reads_what_was_sent_witness :
  let u := NetworkPolicySafety.sample_url in let d := ascii_utf8 in
  let host := NetworkPolicySafety.domain_host "a.io" in
  normalizeDestinationHost "a.io" = Ok host ∧
  feed [[5]; [1; 0; 5; 1; 0]; [3; 4; 97; 46; 105]; [111; 1; 187]] (fresh_client false) = (client_read, [(host, 443)]).
Proof.
  intros u d host. split; [reflexivity|].
  destruct (@handshake_reads_what_was_sent u d) as [Hsent _].
  apply (Hsent [0] 3 [97; 46; 105; 111] 443 "a.io" host).
  - unfold byteLength. cbn. lia.
  - by left.
  - right; right. unfold byteLength. cbn. lia.
  - lia.
  - vm_compute. discriminate.
  - reflexivity.
  - reflexivity.
  - repeat constructor; discriminate.
  - reflexivity.
Defined.
