(* ===== verification/Socks5Safety.v ===== *)
(** What the SOCKS5 proxy guarantees in every state its events can reach: it
    reaches only permitted destinations, leases are counted exactly, and
    closing it leaves no stream alive. *)
From S2P Require Import Prelude JsValues Texts Errors Programs Addresses AddressText AddressRanges NetworkPolicy NetworkPolicySafety Resolver Connections EgressAudit Socks5 Socks5Handshake.
#[local] Open Scope string_scope. #[local] Open Scope Z_scope.

Section safety.
Context `{NodeUrlLaws} `{Utf8} (options : Socks5Options).

(** ** The invariant *)

(** What the configuration checks and the constructor of the auditor check. *)
Definition limits_ok : Prop :=
  positive_safe (idleTimeoutMs (so_limits options)) = true ∧ positive_safe (maxConnectionBytes (so_limits options)) = true.
Definition auditor_ready (a : auditor) : Prop :=
  au_closed a = false ∧ validIdentity (ac_workspaceId (au_context a)) = true ∧
  validIdentity (ac_conversationId (au_context a)) = true ∧ validAuditPolicySetId (ac_policySetId (au_context a)) = true.

(** A destination the policy allows, in normal form. *)
Definition permitted (host : NormalizedDestinationHost) (port : Z) : Prop :=
  normalizeDestinationHost (nh_host host) = Ok host ∧ 1 ≤ port ≤ 65535 ∧
  ∃ d, decideDestination (so_policy options) {| in_host := nh_host host; in_port := JInt port |} = Ok d ∧ allowed d = true.

(** An outbound stream is connected to a public address, the host's own if that
    is a literal, and was audited. *)
Definition reaches (o : outbound) (sunk : list NetworkPolicyAuditEvent) : Prop :=
  (∃ bs, public_bytes bs ∧ ob_address o = pin_of bs ∧
     (nh_kind (ob_host o) = KindIp → ∃ p, parseIpAddress (nh_host (ob_host o)) = Some p ∧ bytes p = bs)) ∧
  ∃ e, e ∈ sunk ∧ ae_protocol e = Socks5Tcp ∧ ae_host e = nh_host (ob_host o) ∧ ae_port e = ob_port o ∧ ae_decision e = Allow.

(** Who holds a lease. *)
Inductive holder := ByAttempt (id : nat) | ByOutbound (socket : nat) | ByOther (lease : nat).
Definition holds_lease (p : proxy) (h : holder) (lease : nat) : Prop :=
  match h with
  | ByAttempt id => ∃ a, px_attempts p !! id = Some a ∧ at_lease a = lease
  | ByOutbound s => ∃ o, px_outbounds p !! s = Some o ∧ ob_lease o = lease
  | ByOther l => l = lease ∧ l ∈ px_foreign p
  end.

Record leases_ok (p : proxy) : Prop := {
  lease_live h l : holds_lease p h l → (l < issued (px_admission p))%nat ∧ l ∉ released (px_admission p);
  lease_unique h h' l : holds_lease p h l → holds_lease p h' l → h = h';
  lease_count : Z.of_nat (issued (px_admission p)) - Z.of_nat (size (released (px_admission p))) =
    Z.of_nat (size (px_attempts p)) + Z.of_nat (size (px_outbounds p)) + Z.of_nat (size (px_foreign p));
}.

(** A client that made its attempt. *)
Definition attempted (p : proxy) (id : nat) : Prop := ∃ c, px_clients p !! id = Some c ∧ ¬ early c.

Record proxy_ok (max : Z) (p : proxy) : Prop := {
  ok_rejected : px_rejected p = 0%nat;
  ok_auditor : auditor_ready (px_auditor p);
  ok_admission : admission_ok (px_admission p) ∧ maximum (px_admission p) = max;
  ok_leases : leases_ok p;
  ok_clients id c : px_clients p !! id = Some c →
    buffer_ok c ∧ (cl_gone c = false → set_owns (px_connections p) id);
  ok_attempts id a : px_attempts p !! id = Some a →
    permitted (at_host a) (at_port a) ∧ attempted p id ∧ px_relays p !! id = None;
  ok_outbounds s o : px_outbounds p !! s = Some o →
    permitted (ob_host o) (ob_port o) ∧ reaches o (au_sunk (px_auditor p)) ∧
    set_owns (px_connections p) s ∧ ∃ r, px_relays p !! ob_client o = Some (s, r);
  ok_distinct s o : px_outbounds p !! s = Some o → px_clients p !! s = None;
  ok_relays id s r : px_relays p !! id = Some (s, r) →
    attempted p id ∧ ∃ es, relay_ok (relay_options options) es r;
  ok_set : set_closed_empty (px_connections p);
  ok_closing : px_closing p = true → cs_closed (px_connections p) = true ∧ ad_closed (px_admission p) = true;
}.

(** ** Audits *)

Lemma audit_accepts protocol a host port decision reason now :
  auditor_ready a → normalizeDestinationHost (nh_host host) = Ok host → 1 ≤ port ≤ 65535 → valid_time now →
  (decision = Allow ↔ reason = ByAllowlist) →
  ∃ a' e, record_decision {| nd_protocol := protocol; nd_host := nh_host host; nd_port := port;
                             nd_decision := decision; nd_reason := reason |} now a = (Ok tt, a') ∧
    auditor_ready a' ∧ au_sunk a' = (au_sunk a ++ [e])%list ∧
    ae_protocol e = protocol ∧ ae_host e = nh_host host ∧ ae_port e = port ∧ ae_decision e = decision ∧ ae_reason e = reason.
Proof.
  intros (Ho & Hw & Hc & Hp) Hn Hport [Ht Hts] Hr. unfold record_decision. rewrite Ho.
  unfold validateNetworkAuditEvent. cbn [ae_timestamp ae_workspaceId ae_conversationId ae_policySetId ae_port ae_host
    ae_decision ae_reason ae_protocol nd_port nd_host nd_decision nd_reason nd_protocol].
  rewrite Hts, Hw, Hc, Hp, Hn, String.eqb_refl. cbn [negb orb].
  assert (Hs : isSafeInteger port = true) by (apply isSafeInteger_true; unfold MAX_SAFE_INTEGER; lia). rewrite Hs.
  replace (now <? 0) with false by lia. replace (port <? 1) with false by lia. replace (65535 <? port) with false by lia.
  cbn [negb orb].
  assert (Hb : bool_decide (decision = Allow) = bool_decide (reason = ByAllowlist)) by (by apply bool_decide_ext).
  rewrite Hb, eqb_reflx. cbn [negb]. unfold mret, result_ret. cbn [ae_decision].
  case_bool_decide as Ed.
  - eexists _, _. split; [done|]. by split_and!.
  - unfold coalesce. destruct (map_get _ _); eexists _, _; (split; [done|]); by split_and!.
Qed.

(** ** Frames *)

(** What an update of a client may do. *)
Definition client_keeps (c c' : client) : Prop :=
  (buffer_ok c → buffer_ok c') ∧ (early c' → early c) ∧ (cl_gone c' = false → cl_gone c = false).

Lemma attempted_alter p f id id' :
  (∀ c, px_clients p !! id = Some c → client_keeps c (f c)) → attempted p id' → attempted (on_client id f p) id'.
Proof.
  intros Hf (c & Hc & He). unfold attempted, on_client. cbn. destruct (decide (id = id')) as [<-|Hn].
  - exists (f c). rewrite lookup_alter, decide_True, Hc by done. split; [done|]. intros Hx. by apply He, (Hf c Hc).
  - exists c. by rewrite lookup_alter_ne.
Qed.

Lemma ok_on_client max p id f :
  proxy_ok max p → (∀ c, px_clients p !! id = Some c → client_keeps c (f c)) → proxy_ok max (on_client id f p).
Proof.
  intros [Hr Ha Had Hl Hc Hat Ho Hdi Hre Hs Hcl] Hf. pose proof (attempted_alter p f id) as Hatt.
  constructor; try done.
  - by destruct Hl.
  - intros id' c'. cbn. destruct (decide (id = id')) as [<-|Hn].
    + rewrite lookup_alter, decide_True by done. intros (c & Ec & Hc')%fmap_Some. subst c'.
      destruct (Hf c Ec) as (Hb & _ & Hg). destruct (Hc id c Ec) as [Hb0 Hg0]. split; [auto|]. intros Hx. auto.
    + rewrite lookup_alter_ne by done. apply Hc.
  - intros id' a Ha'. destruct (Hat id' a Ha') as (? & ? & ?). split_and!; auto.
  - intros s o Hso. cbn. rewrite lookup_alter_None. by eapply Hdi.
  - intros id' s r Hr'. destruct (Hre id' s r Hr') as (? & ?). split; auto.
Qed.

Lemma ok_auditor_change max p a :
  proxy_ok max p → auditor_ready a → (∀ e, e ∈ au_sunk (px_auditor p) → e ∈ au_sunk a) →
  proxy_ok max (p <| px_auditor := a |>).
Proof.
  intros [Hr Ha Had Hl Hc Hat Ho Hdi Hre Hs Hcl] Hready Hin. constructor; try done; [by destruct Hl|].
  intros s o Hso. destruct (Ho s o Hso) as (Hp & (Hpub & e & He & Hrest) & Hown & Hrel). split_and!; try done.
  split; [done|]. exists e. split; [by apply Hin|done].
Qed.

(** A recorded decision, and what comes after it. *)
Lemma audited_ok max p host port decision reason now next :
  proxy_ok max p → normalizeDestinationHost (nh_host host) = Ok host → 1 ≤ port ≤ 65535 → valid_time now →
  (decision = Allow ↔ reason = ByAllowlist) →
  (∀ a e, auditor_ready a → au_sunk a = (au_sunk (px_auditor p) ++ [e])%list → ae_protocol e = Socks5Tcp →
     ae_host e = nh_host host → ae_port e = port → ae_decision e = decision →
     proxy_ok max (p <| px_auditor := a |>) → proxy_ok max (next (p <| px_auditor := a |>))) →
  proxy_ok max (audited host port decision reason now next p).
Proof.
  intros Hok Hn Hport Ht Hr Hnext.
  destruct (audit_accepts Socks5Tcp (px_auditor p) host port decision reason now (ok_auditor max p Hok) Hn Hport Ht Hr)
    as (a & e & Erec & Hready & Hsunk & He). unfold audited. rewrite Erec.
  apply (Hnext a e); try apply He; try done. apply ok_auditor_change; [done..|].
  intros x Hx. rewrite Hsunk. apply elem_of_app. by left.
Qed.

Lemma keeps_fail code c : client_keeps c (fail code c).
Proof.
  destruct (fail_fields code c) as (Eb & Es & Eg & El). unfold client_keeps, buffer_ok, early. rewrite Eb, Es, Eg.
  split_and!; [done|by intros [|]|done].
Qed.
Lemma ok_fail max p id code : proxy_ok max p → proxy_ok max (on_client id (fail code) p).
Proof. intros Hok. apply ok_on_client; [done|]. intros c _. apply keeps_fail. Qed.

(** ** Leases *)

Lemma fresh_lease p h : leases_ok p → ¬ holds_lease p h (issued (px_admission p)).
Proof. intros Hl Hh. apply (lease_live p Hl) in Hh as [? _]. lia. Qed.

Lemma acquire_Some a l a' : acquire a = (Some l, a') →
  l = issued a ∧ issued a' = S (issued a) ∧ released a' = released a ∧ ad_closed a' = ad_closed a.
Proof. unfold acquire. destruct (_ || _); [done|]. by intros [= <- <-]. Qed.

Lemma release_fields l a : l ∉ released a → issued (release l a) = issued a ∧
  released (release l a) = {[l]} ∪ released a ∧ ad_closed (release l a) = ad_closed a.
Proof. intros Hl. unfold release. by rewrite bool_decide_false. Qed.

(** Who holds what, by fields. *)
Lemma holds_same p p' h l :
  px_attempts p' = px_attempts p → px_outbounds p' = px_outbounds p → px_foreign p' = px_foreign p →
  holds_lease p' h l ↔ holds_lease p h l.
Proof. intros Ea Eo Ef. destruct h; cbn; by rewrite ?Ea, ?Eo, ?Ef. Qed.

Lemma leases_same p p' :
  px_attempts p' = px_attempts p → px_outbounds p' = px_outbounds p → px_foreign p' = px_foreign p →
  issued (px_admission p') = issued (px_admission p) → released (px_admission p') = released (px_admission p) →
  leases_ok p → leases_ok p'.
Proof.
  intros Ea Eo Ef Ei Er [Hl Hu Hc]. constructor.
  - intros h l Hh. rewrite Ei, Er. apply (Hl h). by rewrite <-(holds_same p p').
  - intros h h' l Hh Hh'. apply (Hu h h' l); by rewrite <-(holds_same p p').
  - by rewrite Ea, Eo, Ef, Ei, Er.
Qed.

(** The holders before and after a lease is given out. *)
Lemma leases_given p p' h0 :
  leases_ok p → admission_ok (px_admission p) → issued (px_admission p') = S (issued (px_admission p)) →
  released (px_admission p') = released (px_admission p) →
  (∀ h l, holds_lease p' h l ↔ holds_lease p h l ∨ (h = h0 ∧ l = issued (px_admission p))) →
  (size (px_attempts p') + size (px_outbounds p') + size (px_foreign p') =
    S (size (px_attempts p) + size (px_outbounds p) + size (px_foreign p)))%nat →
  leases_ok p'.
Proof.
  intros Hok Had Ei Er Hh Hs. pose proof (fresh_lease p) as Hfresh. destruct (Hok) as [Hl Hu Hc].
  constructor.
  - intros h l Hhl. rewrite Ei, Er. apply Hh in Hhl as [Hhl|[-> ->]]; [apply Hl in Hhl as [? ?]; split; [lia|done]|].
    split; [lia|]. intros Hx. apply (leases_known _ Had) in Hx. lia.
  - intros h h' l Hhl Hhl'. apply Hh in Hhl as [Hhl|[-> ->]]; apply Hh in Hhl' as [Hhl'|[-> E]]; try done.
    + by eapply Hu.
    + subst l. by apply Hfresh in Hhl.
    + by apply Hfresh in Hhl'.
  - rewrite Ei, Er. lia.
Qed.

(** The holders before and after a lease is given back. *)
Lemma leases_returned p p' h0 l0 :
  leases_ok p → holds_lease p h0 l0 → px_admission p' = release l0 (px_admission p) →
  (∀ h l, holds_lease p' h l ↔ holds_lease p h l ∧ h ≠ h0) →
  (S (size (px_attempts p') + size (px_outbounds p') + size (px_foreign p')) =
    size (px_attempts p) + size (px_outbounds p) + size (px_foreign p))%nat →
  leases_ok p'.
Proof.
  intros [Hl Hu Hc] H0' Ea Hh Hs. destruct (Hl h0 l0 H0') as [Hi Hr].
  destruct (release_fields l0 (px_admission p) Hr) as (Ei & Er & _). constructor.
  - intros h l Hhl. apply Hh in Hhl as [Hhl Hne]. rewrite Ea, Ei, Er. destruct (Hl h l Hhl) as [Hi' Hr'].
    split; [done|]. apply not_elem_of_union. split; [|done]. intros ->%elem_of_singleton. by apply Hne, (Hu _ _ l0).
  - intros h h' l Hhl Hhl'. apply Hh in Hhl as [Hhl _]. apply Hh in Hhl' as [Hhl' _]. by eapply Hu.
  - rewrite Ea, Ei, Er, size_union by set_solver. rewrite size_singleton. lia.
Qed.

(** The same lease under another holder. *)
Lemma leases_moved p p' h0 h1 l0 :
  leases_ok p → holds_lease p h0 l0 → px_admission p' = px_admission p → (∀ l, ¬ holds_lease p h1 l) →
  (∀ h l, holds_lease p' h l ↔ (holds_lease p h l ∧ h ≠ h0) ∨ (h = h1 ∧ l = l0)) →
  (size (px_attempts p') + size (px_outbounds p') + size (px_foreign p') =
    size (px_attempts p) + size (px_outbounds p) + size (px_foreign p))%nat →
  leases_ok p'.
Proof.
  intros [Hl Hu Hc] H0' Ea Hnone Hh Hs. constructor.
  - intros h l Hhl. rewrite Ea. apply Hh in Hhl as [[Hhl _]|[-> ->]]; by eapply Hl.
  - intros h h' l Hhl Hhl'. apply Hh in Hhl as [[Hhl Hn]|[-> ->]]; apply Hh in Hhl' as [[Hhl' Hn']|[-> E]]; try done.
    + by eapply Hu.
    + subst l. destruct Hn. by eapply Hu.
    + destruct Hn'. by eapply Hu.
  - rewrite Ea. lia.
Qed.

(** ** Attempts *)

Lemma unattempted p max id c : proxy_ok max p → px_clients p !! id = Some c → early c →
  px_attempts p !! id = None ∧ px_relays p !! id = None.
Proof.
  intros Hok Hc He. split.
  - destruct (px_attempts p !! id) as [a|] eqn:E; [|done]. destruct (ok_attempts max p Hok id a E) as (_ & (c' & Hc' & Hn) & _).
    by simplify_eq.
  - destruct (px_relays p !! id) as [[s r]|] eqn:E; [|done]. destruct (ok_relays max p Hok id s r E) as ((c' & Hc' & Hn) & _).
    by simplify_eq.
Qed.

Lemma decided host port : normalizeDestinationHost (nh_host host) = Ok host → 1 ≤ port ≤ 65535 →
  ∃ d, decideDestination (so_policy options) {| in_host := nh_host host; in_port := JInt port |} = Ok d ∧
    (allowed d = false → audit_reason (reason d) ≠ ByAllowlist).
Proof.
  intros Hn Hp. eexists. split.
  - apply decide_Ok. exists port, host. split_and!; [done| |done|reflexivity].
    unfold valid_port. rewrite !andb_true_iff, !negb_true_iff. split_and!; [apply isSafeInteger_true; unfold MAX_SAFE_INTEGER; lia|lia|lia].
  - cbn. by destruct (decide_reason _ _ _).
Qed.

Lemma begin_ok max p id host port now :
  proxy_ok max p → normalizeDestinationHost (nh_host host) = Ok host → 1 ≤ port ≤ 65535 → valid_time now →
  attempted p id → px_attempts p !! id = None → px_relays p !! id = None →
  proxy_ok max (begin_connect options id host port now p).
Proof.
  intros Hok Hn Hp Ht Hat Hna Hnr. unfold begin_connect.
  destruct (decided host port Hn Hp) as (d & Hd & Hreason). rewrite Hd. destruct (allowed d) eqn:Ea; cbn [negb].
  2: { apply audited_ok; try done; [split; [done|by intros ?%Hreason]|]. intros a e _ _ _ _ _ _ Hok'. by apply ok_fail. }
  destruct (acquire (px_admission p)) as [[lease|] adm] eqn:Eq.
  2: { apply audited_ok; try done. intros a e _ _ _ _ _ _ Hok'. by apply ok_fail. }
  pose proof (acquire_ok (px_admission p) (proj1 (ok_admission max p Hok))) as [Hadm Hmax]. rewrite Eq in Hadm, Hmax. cbn in Hadm, Hmax.
  destruct (acquire_Some _ _ _ Eq) as (-> & Ei & Er & Ecl). destruct Hok as [Hr Ha [Had Hm] Hl Hc Hatt Ho Hdi Hre Hs Hcl].
  constructor; try done.
  - split; [done|]. cbn. by rewrite Hmax.
  - eapply (leases_given p _ (ByAttempt id)); [done|done|done|done| |].
    + intros h l. destruct h as [id'|s|l']; cbn.
      * split.
        -- intros (a & Ha' & <-). apply lookup_insert_Some in Ha' as [[<- <-]|[Hne Ha']]; [by right|]. left. by exists a.
        -- intros [(a & Ha' & <-)|[[= ->] ->]]; [|eexists; by rewrite lookup_insert_eq].
           exists a. rewrite lookup_insert_ne; [done|]. intros ->. by simplify_eq.
      * split; [by left|]. by intros [|[? _]].
      * split; [by left|]. by intros [|[? _]].
    + cbn. rewrite map_size_insert_None by done. lia.
  - intros id' a. cbn. intros [[<- <-]|[Hne Ha']]%lookup_insert_Some; [|by apply Hatt].
    split; [|by split]. split; [done|]. split; [done|]. by exists d.
  - intros Hx. cbn. rewrite Ecl. by apply Hcl.
Qed.

Lemma connector_result host port env c u h :
  run_prog env [] (connect_under_deadline options host port tt) = ((Next c, u), h) →
  ∃ bs, public_bytes bs ∧ pc_address c = pin_of bs ∧
    (nh_kind host = KindIp → ∃ p, parseIpAddress (nh_host host) = Some p ∧ bytes p = bs).
Proof.
  unfold connect_under_deadline, createSetupDeadline. destruct (_ || _); [done|].
  unfold now, mbind, stmt_bind, call_, mret, stmt_ret. cbn [prog_bind run_prog app].
  destruct (env [] Clock) as [t w]. cbn [prog_bind]. intros Hrun.
  apply connect_run_ends in Hrun as (h' & _ & _ & _ & _ & _ & bs & Hb & Hc & Ha). exists bs. split_and!; [done..|].
  intros Hk. unfold chosen in Hc. by rewrite Hk in Hc.
Qed.

Lemma failure_is_no_grant error : failureReason error ≠ ByAllowlist.
Proof. by destruct error as [[]|]. Qed.

Lemma delete_attempts_holds p p' id :
  px_attempts p' = delete id (px_attempts p) → px_outbounds p' = px_outbounds p → px_foreign p' = px_foreign p →
  ∀ h l, holds_lease p' h l ↔ holds_lease p h l ∧ h ≠ ByAttempt id.
Proof.
  intros Ea Eo Ef h l. destruct h as [id'|s|l']; cbn; rewrite ?Ea, ?Eo, ?Ef; [|naive_solver..].
  split.
  - intros (a & Ha & <-). apply lookup_delete_Some in Ha as [Hne Ha]. split; [by exists a|congruence].
  - intros [(a & Ha & <-) Hne]. exists a. rewrite lookup_delete_ne by congruence. done.
Qed.

Lemma size_delete {A} (m : gmap nat A) i x : m !! i = Some x → S (size (delete i m)) = size m.
Proof. intros Hx. rewrite map_size_delete_Some by (by rewrite Hx). pose proof (map_size_ne_0_lookup_2 m i). rewrite Hx in *. assert (size m ≠ 0%nat) by (apply H2; eauto). lia. Qed.

Lemma failed_ok max p id a error now :
  proxy_ok max p → px_attempts p !! id = Some a → valid_time now →
  proxy_ok max (finish_connect options id (Err error) now p).
Proof.
  intros Hok Ha Ht. unfold finish_connect. rewrite Ha. destruct (ok_attempts max p Hok id a Ha) as ((Hn & Hp & _) & Hat & Hnr).
  set (p1 := (p <| px_attempts := delete id (px_attempts p) |>) <| px_admission := release (at_lease a) (px_admission p) |>).
  assert (H0' : holds_lease p (ByAttempt id) (at_lease a)) by (by exists a).
  assert (Hok1 : proxy_ok max p1).
  { pose proof (lease_live p (ok_leases max p Hok) _ _ H0') as [Hi Hr'].
    destruct (release_fields _ _ Hr') as (Ei & Er & Ecl).
    destruct (ok_admission max p Hok) as [Had Hm]. destruct (release_ok _ _ Had Hi) as [Had' Hm'].
    destruct Hok as [Hr Hau _ Hl Hc Hatt Ho Hdi Hre Hs Hcl]. constructor; try done.
    - split; [done|]. cbn. by rewrite Hm'.
    - eapply (leases_returned p p1 (ByAttempt id)); [done|exact H0'|done| |].
      + by apply delete_attempts_holds.
      + cbn [p1 px_attempts px_outbounds px_foreign with_field]. rewrite <-(size_delete (px_attempts p) id a) by done. lia.
    - intros id' a'. cbn. intros [_ Hx]%lookup_delete_Some. by apply Hatt.
    - intros Hx. cbn. rewrite Ecl. by apply Hcl. }
  apply audited_ok; try done.
  - split; [done|]. by intros ?%failure_is_no_grant.
  - intros au e _ _ _ _ _ _ Hok'. by apply ok_fail.
Qed.

Hypothesis Hlimits : limits_ok.

Lemma relay_starts : ∃ r, relayBidirectional (relay_options options) = Some r.
Proof.
  destruct Hlimits as [Hi Hb]. unfold relayBidirectional, relay_options.
  cbn [relayIdleTimeoutMs relayMaxBytes]. rewrite Hi, Hb. by eexists.
Qed.

(** What a client is told when its stream is open. *)
Definition connected_client (c : client) : client := (reply 0 ((c <| cl_timer := false |>) <| cl_listening := false |>)) <| cl_stage := Relaying |>.
Lemma keeps_connected c : client_keeps c (connected_client c).
Proof.
  unfold client_keeps, connected_client, reply, buffer_ok, early, write_client.
  destruct (cl_destroyed _); cbn; (split_and!; [done|by intros [|]|done]).
Qed.

Lemma connected_ok max p id a connection now :
  proxy_ok max p → px_attempts p !! id = Some a → valid_time now →
  (∃ bs, public_bytes bs ∧ pc_address connection = pin_of bs ∧
    (nh_kind (at_host a) = KindIp → ∃ q, parseIpAddress (nh_host (at_host a)) = Some q ∧ bytes q = bs)) →
  fresh_socket (pc_socket connection) p →
  proxy_ok max (finish_connect options id (Ok connection) now p).
Proof.
  intros Hok Ha Ht Hbs (Hfc & Hfo & _ & _). unfold finish_connect. rewrite Ha.
  destruct (ok_attempts max p Hok id a Ha) as (Hperm & Hat & Hnr). destruct (Hperm) as (Hn & Hp & _).
  set (socket := pc_socket connection) in *. unfold audited.
  destruct (audit_accepts Socks5Tcp (px_auditor p) (at_host a) (at_port a) Allow ByAllowlist now (ok_auditor max p Hok) Hn Hp Ht)
    as (au & e & Erec & Hready & Hsunk & He); [done|].
  cbn [px_auditor with_field on_client]. rewrite Erec. destruct relay_starts as [r0 Er]. rewrite Er.
  assert (H0' : holds_lease p (ByAttempt id) (at_lease a)) by (by exists a).
  set (o := {| ob_client := id; ob_lease := at_lease a; ob_host := at_host a; ob_port := at_port a;
               ob_address := pc_address connection |}).
  set (pf := {| px_admission := px_admission p; px_foreign := px_foreign p;
    px_connections := add_stream socket (px_connections p); px_auditor := au;
    px_clients := alter connected_client id (px_clients p); px_attempts := delete id (px_attempts p);
    px_outbounds := <[socket := o]> (px_outbounds p); px_relays := <[id := (socket, r0)]> (px_relays p);
    px_listening := px_listening p; px_closing := px_closing p; px_fatals := px_fatals p; px_rejected := px_rejected p |}).
  match goal with |- proxy_ok max ?s => assert (s = pf) as -> end.
  { unfold pf, on_client. cbn. by rewrite alter_alter_eq. }
  assert (Hatt : ∀ id', attempted p id' → attempted pf id').
  { intros id' Hx. destruct (attempted_alter p connected_client id id') as (c & Hc & He'); [|done|by exists c].
    intros c _. apply keeps_connected. }
  destruct Hok as [Hr Hau Had Hl Hc Hatts Ho Hdi Hre Hs Hcl]. constructor; try done.
  - eapply (leases_moved p pf (ByAttempt id) (ByOutbound socket)); [done|exact H0'|done| | |].
    + intros l (x & Hx & _). congruence.
    + intros h l. destruct h as [id'|s|l']; cbn [holds_lease pf px_attempts px_outbounds px_foreign].
      * split.
        -- intros (x & Hx & <-). apply lookup_delete_Some in Hx as [Hne Hx]. left. split; [by exists x|congruence].
        -- intros [[(x & Hx & <-) Hne]|[? _]]; [|done]. exists x. rewrite lookup_delete_ne by congruence. done.
      * split.
        -- intros (x & Hx & <-). apply lookup_insert_Some in Hx as [[<- <-]|[Hne Hx]]; [by right|]. left. split; [by exists x|done].
        -- intros [[(x & Hx & <-) _]|[[= ->] ->]]; [|exists o; by rewrite lookup_insert_eq].
           exists x. rewrite lookup_insert_ne; [done|]. intros ->. congruence.
      * split; [by left; split|]. intros [[? _]|[? _]]; done.
    + cbn [pf px_attempts px_outbounds px_foreign]. rewrite map_size_insert_None by done.
      rewrite <-(size_delete (px_attempts p) id a) by done. lia.
  - intros id' c'. cbn [pf px_clients px_connections]. intros Hx. apply lookup_alter_Some in Hx as [[<- (c & Ec & ->)]|[Hne Ec]].
    + destruct (Hc id c Ec) as [Hb Hg]. destruct (keeps_connected c) as (Kb & _ & Kg). split; [auto|]. intros Hgo. apply add_keeps. auto.
    + destruct (Hc id' c' Ec) as [Hb Hg]. split; [done|]. intros Hgo. apply add_keeps. auto.
  - intros id' a'. cbn [pf px_attempts px_relays]. intros [Hne Hx]%lookup_delete_Some. destruct (Hatts id' a' Hx) as (? & ? & ?).
    split_and!; [done|auto|]. by rewrite lookup_insert_ne.
  - intros s o'. cbn [pf px_outbounds px_connections px_relays]. intros [[<- <-]|[Hne Hx]]%lookup_insert_Some.
    + split; [done|]. split; [|split; [apply add_owned|exists r0; by rewrite lookup_insert_eq]]. split; [exact Hbs|].
      exists e. cbn [pf px_auditor o ob_host ob_port]. rewrite Hsunk. split; [apply elem_of_app; right; by left|]. destruct He as (?&?&?&?&?). done.
    + destruct (Ho s o' Hx) as (? & (? & e' & ? & ?) & ? & (r & Hrel)). split; [done|]. split; [|split; [by apply add_keeps|]].
      * split; [done|]. exists e'. cbn [pf px_auditor]. rewrite Hsunk. split; [apply elem_of_app; by left|done].
      * exists r. rewrite lookup_insert_ne; [done|]. intros E. rewrite <-E in Hrel. congruence.
  - intros s o'. cbn [pf px_outbounds px_clients]. intros Hx. rewrite lookup_alter_None.
    apply lookup_insert_Some in Hx as [[<- <-]|[Hne Hx]]; [done|by eapply Hdi].
  - intros id' s r. cbn [pf px_relays]. intros [[<- [= <- <-]]|[Hne Hx]]%lookup_insert_Some.
    + split; [auto|]. exists []. by apply relay_start_ok.
    + destruct (Hre id' s r Hx) as (? & ?). split; [auto|done].
  - cbn [pf px_connections]. by apply closed_empty_kept.
  - intros Hx. destruct (Hcl Hx) as [Hcc Hca]. split; [|done]. cbn [pf px_connections].
    unfold add_stream. rewrite Hcc. done.
Qed.

(** ** The other events *)

Lemma keeps_destroyed c : client_keeps c (c <| cl_destroyed := true |>).
Proof. by split_and!. Qed.

Lemma relay_event_ok max p id e s r :
  proxy_ok max p → px_relays p !! id = Some (s, r) → may_happen e r = true → proxy_ok max (relay_step options id e p).
Proof.
  intros Hok Hrel He. unfold relay_step. rewrite Hrel. set (r' := on_relay_event _ e r).
  assert (Hok1 : proxy_ok max (p <| px_relays := <[id := (s, r')]> (px_relays p) |>)).
  { destruct (ok_relays max p Hok id s r Hrel) as (Hat & es & Hr').
    destruct Hok as [Hr Hau Had Hl Hc Hatts Ho Hdi Hre Hs Hcl]. constructor; try done.
    - by destruct Hl.
    - intros id' a. cbn. intros Hx. destruct (Hatts id' a Hx) as (? & ? & Hn). split_and!; [done|done|].
      rewrite lookup_insert_ne; [done|]. intros <-. congruence.
    - intros s' o. cbn. intros Hx. destruct (Ho s' o Hx) as (? & ? & ? & (r2 & Hr2)). split; [done|]. split; [done|]. split; [done|].
      destruct (decide (id = ob_client o)) as [E|E].
      + rewrite <-E in *. exists r'. rewrite lookup_insert_eq. congruence.
      + exists r2. by rewrite lookup_insert_ne.
    - intros id' s' r2. cbn. intros [[<- [= <- <-]]|[Hne Hx]]%lookup_insert_Some; [|by apply Hre in Hx].
      split; [done|]. exists (es ++ [e])%list. by apply relay_step_ok. }
  destruct (rl_closed r'); [|done]. apply ok_on_client; [done|]. intros c _. apply keeps_destroyed.
Qed.

Lemma relay_told_ok max p id s : proxy_ok max p → proxy_ok max (relay_told options id s p).
Proof.
  intros Hok. unfold relay_told. destruct (px_relays p !! id) as [[s' r]|] eqn:E; [|done]. by eapply relay_event_ok.
Qed.

(** What may be done to the set of streams, where only the client [id] or the
    outbound [id] may leave it. *)
Lemma ok_connections max p c' (P : nat → Prop) :
  proxy_ok max p →
  (∀ s, set_owns (px_connections p) s → P s → set_owns c' s) → set_closed_empty c' →
  (cs_closed (px_connections p) = true → cs_closed c' = true) →
  (∀ id c, px_clients p !! id = Some c → cl_gone c = false → P id) →
  (∀ s o, px_outbounds p !! s = Some o → P s) →
  proxy_ok max (p <| px_connections := c' |>).
Proof.
  intros [Hr Hau Had Hl Hc Hatts Ho Hdi Hre Hs Hcl] Hown Hce Hclosed HPc HPo. constructor; try done.
  - by destruct Hl.
  - intros id c. cbn. intros Hx. destruct (Hc id c Hx) as [Hb Hg]. split; [done|]. intros Hgo. eauto.
  - intros s o. cbn. intros Hx. destruct (Ho s o Hx) as (? & ? & ? & ?). split_and!; eauto.
  - intros Hx. destruct (Hcl Hx). split; [|done]. cbn. auto.
Qed.

Lemma client_closed_ok max p id c : proxy_ok max p → px_clients p !! id = Some c → proxy_ok max (client_closed options id p).
Proof.
  intros Hok Hc. unfold client_closed. apply relay_told_ok.
  set (f := λ c, ((c <| cl_stage := ClosedStage |>) <| cl_timer := false |>) <| cl_gone := true |>).
  assert (Hok1 : proxy_ok max (on_client id f p)).
  { apply ok_on_client; [done|]. intros c' _. split_and!; [done|by intros [|]|done]. }
  change (on_client id f (p <| px_connections := delete_stream id (px_connections p) |>)) with
    ((on_client id f p) <| px_connections := delete_stream id (px_connections p) |>).
  apply (ok_connections max _ _ (λ s, s ≠ id)); [done|..].
  - intros s Hs Hne. by apply delete_keeps.
  - apply closed_empty_kept, Hok.
  - done.
  - intros id' c' Hx Hg ->. cbn in Hx. apply lookup_alter_Some in Hx as [[_ (c2 & _ & ->)]|[? _]]; done.
  - intros s o Hx ->. cbn in Hx. apply (ok_distinct max p Hok) in Hx. congruence.
Qed.

Lemma outbound_closed_ok max p s : proxy_ok max p → proxy_ok max (outbound_closed options s p).
Proof.
  intros Hok. unfold outbound_closed. destruct (px_outbounds p !! s) as [o|] eqn:Ho; [|done]. apply relay_told_ok.
  assert (Hh : holds_lease p (ByOutbound s) (ob_lease o)) by (by exists o).
  set (p1 := (p <| px_admission := release (ob_lease o) (px_admission p) |>) <| px_outbounds := delete s (px_outbounds p) |>).
  assert (Hok1 : proxy_ok max p1).
  { pose proof (lease_live p (ok_leases max p Hok) _ _ Hh) as [Hi Hr'].
    destruct (release_fields _ _ Hr') as (Ei & Er & Ecl).
    destruct (ok_admission max p Hok) as [Had Hm]. destruct (release_ok _ _ Had Hi) as [Had' Hm'].
    destruct Hok as [Hr Hau _ Hl Hc Hatt Hob Hdi Hre Hs Hcl]. constructor; try done.
    - split; [done|]. cbn. by rewrite Hm'.
    - eapply (leases_returned p p1 (ByOutbound s)); [done|exact Hh|done| |].
      + intros h l. destruct h as [id'|s'|l']; cbn [holds_lease p1 px_attempts px_outbounds px_foreign with_field].
        * split; [by split|by intros [? _]].
        * split.
          -- intros (x & Hx & <-). apply lookup_delete_Some in Hx as [Hne Hx]. split; [by exists x|congruence].
          -- intros [(x & Hx & <-) Hne]. exists x. rewrite lookup_delete_ne by congruence. done.
        * split; [by split|by intros [? _]].
      + cbn [p1 px_attempts px_outbounds px_foreign with_field]. rewrite <-(size_delete (px_outbounds p) s o) by done. lia.
    - intros s' o'. cbn. intros [_ Hx]%lookup_delete_Some. by apply Hob.
    - intros s' o'. cbn. intros [_ Hx]%lookup_delete_Some. by eapply Hdi.
    - intros Hx. cbn. rewrite Ecl. by apply Hcl. }
  assert (Hgoal : proxy_ok max (p1 <| px_connections := delete_stream s (px_connections p) |>)); [|exact Hgoal].
  apply (ok_connections max p1 _ (λ t, t ≠ s)); [done|..].
  - intros t Ht Hne. by apply delete_keeps.
  - apply closed_empty_kept, Hok.
  - done.
  - intros id' c' Hx Hg ->. cbn in Hx. pose proof (ok_distinct max p Hok s o Ho). congruence.
  - intros t o' Hx ->. cbn in Hx. by rewrite lookup_delete_eq in Hx.
Qed.

Lemma destroy_clients_ok max p streams : proxy_ok max p → proxy_ok max (destroy_clients streams p).
Proof.
  intros Hok. induction streams as [|s streams IH]; [done|]. cbn. apply ok_on_client; [done|]. intros c _. apply keeps_destroyed.
Qed.

Lemma stop_ok max p closing : proxy_ok max p → (px_closing p = true → closing = true) →
  proxy_ok max (stop_streams (p <| px_closing := closing |>)).
Proof.
  intros Hok Hclosing. unfold stop_streams. apply destroy_clients_ok.
  assert (Hok1 : proxy_ok max (p <| px_connections := closeAll (px_connections p) |>)).
  { apply (ok_connections max p _ (λ _, True)); try done.
    - intros s Hs _. right. apply closeAll_destroys; [done|apply Hok].
    - apply (closed_empty_kept 0%nat), Hok.
    - intros Hx. unfold closeAll. by rewrite Hx. }
  destruct (ok_admission max p Hok) as [[Hk Hct Hb] Hm].
  destruct Hok1 as [Hr Hau _ Hl Hc Hatts Ho Hdi Hre Hs Hcl]. constructor; try done.
  - by destruct Hl.
  - intros _. split; [|done]. change (cs_closed (closeAll (px_connections p)) = true). unfold closeAll.
    by destruct (cs_closed (px_connections p)) eqn:E.
Qed.

Lemma foreign_acquires_ok max p : proxy_ok max p → proxy_ok max (on_event options ForeignAcquires p).
Proof.
  intros Hok. cbn [on_event]. destruct (acquire (px_admission p)) as [[lease|] adm] eqn:Eq; [|done].
  pose proof (acquire_ok (px_admission p) (proj1 (ok_admission max p Hok))) as [Hadm Hmax]. rewrite Eq in Hadm, Hmax. cbn in Hadm, Hmax.
  destruct (acquire_Some _ _ _ Eq) as (-> & Ei & Er & Ecl).
  assert (Hnf : issued (px_admission p) ∉ px_foreign p).
  { intros Hx. apply (fresh_lease p (ByOther (issued (px_admission p))) (ok_leases max p Hok)). by split. }
  destruct Hok as [Hr Ha [Had Hm] Hl Hc Hatt Ho Hdi Hre Hs Hcl]. constructor; try done.
  - split; [done|]. cbn. by rewrite Hmax.
  - eapply (leases_given p _ (ByOther (issued (px_admission p)))); [done|done|done|done| |].
    + intros h l. destruct h as [id'|s|l']; cbn -[union singleton].
      * split; [by left|]. by intros [|[? _]].
      * split; [by left|]. by intros [|[? _]].
      * rewrite elem_of_union, elem_of_singleton. naive_solver.
    + cbn [px_attempts px_outbounds px_foreign with_field]. rewrite size_union by set_solver. rewrite size_singleton. lia.
  - intros Hx. cbn. rewrite Ecl. by apply Hcl.
Qed.

Lemma foreign_releases_ok max p l0 : proxy_ok max p → l0 ∈ px_foreign p → proxy_ok max (on_event options (ForeignReleases l0) p).
Proof.
  intros Hok Hin. cbn [on_event]. assert (Hh : holds_lease p (ByOther l0) l0) by done.
  pose proof (lease_live p (ok_leases max p Hok) _ _ Hh) as [Hi Hr'].
  destruct (release_fields _ _ Hr') as (Ei & Er & Ecl).
  destruct (ok_admission max p Hok) as [Had Hm]. destruct (release_ok _ _ Had Hi) as [Had' Hm'].
  destruct Hok as [Hr Hau _ Hl Hc Hatt Hob Hdi Hre Hs Hcl]. constructor; try done.
  - split; [done|]. cbn. by rewrite Hm'.
  - eapply (leases_returned p _ (ByOther l0)); [done|exact Hh|done| |].
    + intros h l. destruct h as [id'|s'|l']; cbn -[difference singleton].
      * split; [by split|by intros [? _]].
      * split; [by split|by intros [? _]].
      * rewrite elem_of_difference, elem_of_singleton. naive_solver.
    + cbn [px_attempts px_outbounds px_foreign with_field].
      rewrite size_difference by set_solver. rewrite size_singleton.
      assert (size (px_foreign p) ≠ 0%nat); [|lia]. intros E. apply size_empty_inv in E. set_solver.
  - intros Hx. cbn. rewrite Ecl. by apply Hcl.
Qed.

Lemma foreign_stops_ok max p : proxy_ok max p → proxy_ok max (on_event options ForeignStops p).
Proof.
  intros [Hr Ha [[Hk Hct Hb] Hm] Hl Hc Hatt Ho Hdi Hre Hs Hcl]. constructor; try done; [by destruct Hl|].
  intros Hx. split; [by apply Hcl|done].
Qed.

Lemma accept_ok max p id : proxy_ok max p → fresh_socket id p → proxy_ok max (accept id p).
Proof.
  intros Hok (Hfc & Hfo & _ & _). unfold accept.
  set (f := fresh_client _).
  assert (Hok1 : proxy_ok max (p <| px_connections := add_stream id (px_connections p) |>)).
  { apply (ok_connections max p _ (λ _, True)); try done.
    - intros s Hs _. by apply add_keeps.
    - by apply closed_empty_kept, Hok.
    - intros Hx. unfold add_stream. by rewrite Hx. }
  assert (Hatt' : ∀ id', attempted p id' → attempted (p <| px_clients := <[id := f]> (px_clients p) |>) id').
  { intros id' (c & Hc & He). exists c. split; [|done]. cbn. rewrite lookup_insert_ne; [done|]. congruence. }
  destruct Hok1 as [Hr Hau Had Hl Hc Hatts Ho Hdi Hre Hs Hcl]. constructor; try done.
  - by destruct Hl.
  - intros id' c. cbn. intros [[<- <-]|[Hne Hx]]%lookup_insert_Some; [|by apply Hc in Hx].
    split; [split; [by vm_compute|constructor]|]. intros _. apply add_owned.
  - intros id' a Hx. destruct (Hatts id' a Hx) as (? & Hat & ?). split_and!; [done|by apply Hatt'|done].
  - intros s o Hx. cbn. rewrite lookup_insert_ne; [by eapply Hdi|]. intros <-. cbn in Hx. congruence.
  - intros id' s r Hx. destruct (Hre id' s r Hx) as (Hat & ?). split; [by apply Hatt'|done].
Qed.

Lemma client_data_ok max p id chunk now c :
  proxy_ok max p → px_clients p !! id = Some c → byte_list chunk → valid_time now →
  proxy_ok max (client_data options id chunk now p).
Proof.
  intros Hok Hc Hch Ht. unfold client_data. rewrite Hc. destruct (ok_clients max p Hok id c Hc) as [Hb Hg].
  destruct (on_data_reads c chunk Hb Hch) as (Hb' & He & Hgo & _ & Hd). destruct (on_data chunk c) as [c' d]. cbn [fst snd] in *.
  assert (Ea : <[id := c']> (px_clients p) = alter (λ _, c') id (px_clients p)).
  { apply map_eq. intros i. destruct (decide (id = i)) as [<-|]; [by rewrite lookup_insert_eq, lookup_alter_eq, Hc|].
    by rewrite lookup_insert_ne, lookup_alter_ne. }
  assert (Hok1 : proxy_ok max (p <| px_clients := <[id := c']> (px_clients p) |>)).
  { rewrite Ea. apply (ok_on_client max p id (λ _, c') Hok). intros c2 Hc2. simplify_eq. split_and!; [done|done|congruence]. }
  destruct d as [[host port]|]; [|done]. destruct Hd as (Hec & Hs & Hp & raw & Hraw).
  destruct (unattempted p max id c Hok Hc Hec) as [Hna Hnr].
  apply begin_ok; try done; [by eapply normalize_idemp|lia|].
  exists c'. split; [cbn; by rewrite lookup_insert_eq|]. unfold early. rewrite Hs. by intros [|].
Qed.

Lemma event_ok max p e : proxy_ok max p → enabled options e p → proxy_ok max (on_event options e p).
Proof.
  intros Hok He. destruct e; cbn [on_event enabled] in *.
  - destruct Hok as [Hr Ha Had Hl Hc Hatt Ho Hdi Hre Hs Hcl]. constructor; try done. by destruct Hl.
  - by apply accept_ok.
  - destruct He as (Ht & c & Hc & _ & _ & _ & _ & _ & Hb). by eapply client_data_ok.
  - by apply ok_fail.
  - destruct He as (c & Hc & _). by eapply client_closed_ok.
  - apply ok_on_client; [done|]. intros c _. by split_and!.
  - destruct He as (Ht & a & Ha & (env & u & h & Hrun) & Hf). destruct r as [c|error].
    + eapply connected_ok; try done. by eapply connector_result.
    + by eapply failed_ok.
  - by apply outbound_closed_ok.
  - destruct He as (s & r & Hr & Hm & _). by eapply relay_event_ok.
  - destruct (_ && _); [|done]. unfold fatal. destruct (px_closing p) eqn:E; [done|].
    pose proof (stop_ok max p true Hok ltac:(done)) as Hs. destruct Hs as [Hr Ha Had Hl Hc Hatt Ho Hdi Hre Hs Hcl].
    constructor; try done. by destruct Hl.
  - unfold close_proxy. destruct (px_closing p); [done|]. by apply stop_ok.
  - by apply stop_ok.
  - by apply foreign_acquires_ok.
  - by apply foreign_releases_ok.
  - by apply foreign_stops_ok.
Qed.

Lemma start_ok m adm context w au :
  newConnectionAdmission m = Some adm → newAuditor context w = Some au → proxy_ok m (newProxy adm au).
Proof.
  intros Hadm Hau. destruct (new_admission_ok m adm Hadm) as (Hok & Hm & _).
  assert (Hready : auditor_ready au).
  { unfold newAuditor in Hau. match type of Hau with context [if ?b then _ else _] => destruct b eqn:E; [done|] end.
    injection Hau as <-. breflect. by split_and!. }
  unfold newConnectionAdmission in Hadm. destruct (positive_safe m); [|done]. injection Hadm as <-.
  constructor; try done.
  assert (Hnone : ∀ p h l, px_attempts p = ∅ → px_outbounds p = ∅ → px_foreign p = ∅ → ¬ holds_lease p h l).
  { intros p h l Ea Eo Ef. destruct h as [id|s|l']; cbn; rewrite ?Ea, ?Eo, ?Ef.
    - intros (a & Ha & _). by rewrite lookup_empty in Ha.
    - intros (o & Ho & _). by rewrite lookup_empty in Ho.
    - intros [_ Hx]. by apply not_elem_of_empty in Hx. }
  constructor.
  - intros h l Hh. by apply Hnone in Hh.
  - intros h h' l Hh. by apply Hnone in Hh.
  - cbn. by rewrite size_empty.
Qed.

Lemma socks_reachable_ok m adm context w au p :
  newConnectionAdmission m = Some adm → newAuditor context w = Some au →
  reachable options (newProxy adm au) p → proxy_ok m p.
Proof. intros Hadm Hau. induction 1 as [|p e _ IH He]; [by eapply start_ok|by apply event_ok]. Qed.

(** C6: the proxy reaches only permitted destinations. However clients, DNS,
    sockets, timers and shutdowns interleave, every stream the proxy has to the
    network was opened for a host in normal form and a port that the policy
    allows, to a public address, which is the host's own if that is a literal;
    its grant was recorded for the audit; and it is relayed to one client within
    the byte limit. The audit refuses none of the decisions and no rejection is
    left unhandled. *)
Theorem socks_reaches_only_permitted m adm context w au p :
  newConnectionAdmission m = Some adm → newAuditor context w = Some au → reachable options (newProxy adm au) p →
  px_rejected p = 0%nat ∧
  ∀ s o, px_outbounds p !! s = Some o →
    permitted (ob_host o) (ob_port o) ∧ reaches o (au_sunk (px_auditor p)) ∧
    ∃ r, px_relays p !! ob_client o = Some (s, r) ∧ relayed_bytes r ≤ maxConnectionBytes (so_limits options).
Proof.
  intros Hadm Hau Hp. pose proof (socks_reachable_ok m adm context w au p Hadm Hau Hp) as Hok. split; [apply Hok|].
  intros s o Ho. destruct (ok_outbounds m p Hok s o Ho) as (Hperm & Hre & _ & (r & Hr)). split; [done|]. split; [done|].
  exists r. split; [done|]. destruct (ok_relays m p Hok _ _ _ Hr) as (_ & es & Hb & _). exact Hb.
Qed.

(** C7: leases are counted and streams are owned. In every reachable state the
    active connections of the shared limit are exactly the attempts that wait,
    the streams that are open and the leases of the other proxy, and never more
    than the maximum: no lease leaks and none is given back twice. Clients keep
    no more than the handshake's bound. Once the proxy was closed or failed, no
    lease is given out any more, and every stream to the network and every
    client that is not gone has been destroyed. *)
Theorem socks_leases_and_streams m adm context w au p :
  newConnectionAdmission m = Some adm → newAuditor context w = Some au → reachable options (newProxy adm au) p →
  ad_active (px_admission p) =
    Z.of_nat (size (px_attempts p)) + Z.of_nat (size (px_outbounds p)) + Z.of_nat (size (px_foreign p)) ∧
  ad_active (px_admission p) ≤ m ∧
  (∀ id c, px_clients p !! id = Some c → byteLength (cl_buffer c) ≤ MAX_SOCKS_HANDSHAKE_BYTES) ∧
  (px_closing p = true →
    (acquire (px_admission p)).1 = None ∧
    (∀ s, is_Some (px_outbounds p !! s) → s ∈ cs_destroyed (px_connections p)) ∧
    (∀ id c, px_clients p !! id = Some c → cl_gone c = false → id ∈ cs_destroyed (px_connections p))).
Proof.
  intros Hadm Hau Hp. pose proof (socks_reachable_ok m adm context w au p Hadm Hau Hp) as Hok.
  destruct (ok_admission m p Hok) as [Had Hm]. split_and!.
  - rewrite (leases_counted _ Had). apply (lease_count p (ok_leases m p Hok)).
  - pose proof (leases_bounded _ Had). lia.
  - intros id c Hc. by destruct (ok_clients m p Hok id c Hc) as [[? _] _].
  - intros Hcl. destruct (ok_closing m p Hok Hcl) as [Hcs Hca].
    assert (Hd : ∀ s, set_owns (px_connections p) s → s ∈ cs_destroyed (px_connections p)).
    { intros s [Hs|Hs]; [|done]. rewrite (ok_set m p Hok Hcs) in Hs. by apply elem_of_nil in Hs. }
    split_and!.
    + unfold acquire. by rewrite Hca.
    + intros s [o Ho]. apply Hd. by apply (ok_outbounds m p Hok s o Ho).
    + intros id c Hc Hg. apply Hd. destruct (ok_clients m p Hok id c Hc) as [_ Hown]. by apply Hown.
Qed.
End safety.

(** ** A run *)

Definition sample_policy : CompiledDestinationPolicy :=
  {| allowedPatterns := ["a.io"]; deniedPatterns := []; allowedPorts := [443];
     compiled_allowed := [{| pat_normalized := "a.io"; pat_mode := ModeExact; pat_base := "a.io"; pat_kind := Some KindDomain |}];
     compiled_denied := [] |}.
Definition sample_socks : Socks5Options :=
  {| so_policy := sample_policy; so_connectTimeoutMs := 1000;
     so_limits := {| maxConnections := 2; idleTimeoutMs := 1000; maxConnectionBytes := 10 |} |}.
Definition sample_handshake : list Z := [5; 1; 0; 5; 1; 0; 3; 4; 97; 46; 105; 111; 1; 187].

(** DNS answers one public address, and the socket with number 2 connects to it. *)
Definition sample_network : environment network_answer unit := λ _ c,
  (match c return network_answer c with
   | Clock => 0
   | LookupHost _ => Settled (Ok [Answer "93.184.216.34" 4])
   | NewSocket => 2%nat
   | SocketConnect _ _ _ _ => tt
   | AwaitConnection _ => Settled (Ok tt)
   | DestroySocket _ => tt
   end, tt).
Definition sample_connection : PinnedConnection := {| pc_socket := 2; pc_address := Pinned "93.184.216.34" V4 |}.

#[local] Instance sample_utf8 : Utf8 := ascii_utf8.
Definition run_events (es : list proxy_event) (p : proxy) : proxy := fold_left (λ p e, on_event sample_socks e p) es p.
Fixpoint all_enabled (es : list proxy_event) (p : proxy) : Prop :=
  match es with [] => True | e :: es => enabled sample_socks e p ∧ all_enabled es (on_event sample_socks e p) end.
Lemma socks_run_reachable es p0 p : reachable sample_socks p0 p → all_enabled es p → reachable sample_socks p0 (run_events es p).
Proof.
  revert p. induction es as [|e es IH]; intros p Hp He; [done|]. destruct He as [He Hes].
  apply (IH (on_event sample_socks e p)); [by apply reachable_step|done].
Qed.

Definition sample_admission : ConnectionAdmission :=
  {| maximum := 2; ad_active := 0; ad_closed := false; issued := 0; released := ∅ |}.
Definition sample_auditor : auditor :=
  {| au_context := sample_context; au_listeners := []; au_coalesced := []; au_closed := false; au_sunk := []; au_notified := [] |}.
Definition sample_proxy : proxy := newProxy sample_admission sample_auditor.

Ltac event_happens :=
  cbn [enabled]; repeat match goal with
  | |- _ ∧ _ => split
  | |- valid_time _ => split; [vm_compute; discriminate|reflexivity]
  | |- fresh_socket _ _ => split_and!; [reflexivity|reflexivity|apply (bool_decide_unpack _); vm_compute; exact I..]
  | |- ∃ (c : client), _ => eexists
  | |- ∃ (a : attempt), _ => eexists
  | |- ∃ (env : environment _ _), _ => exists sample_network, tt; eexists; vm_compute; reflexivity
  | |- ∃ (s : nat), _ => eexists
  | |- ∃ (r : relay), _ => eexists
  | |- _ ≠ _ => discriminate
  | |- Forall _ _ => repeat constructor; vm_compute; congruence
  | |- True => exact I
  | |- _ = _ => vm_compute; reflexivity
  end.

(** One client reaches the destination it asked for and sends data to it. *)
Definition sample_run : list proxy_event :=
  [Accepts 1; ClientData 1 sample_handshake 5; ConnectorSettles 1 (Ok sample_connection) 6;
   RelayEvent 1 (DataFrom Left [1; 2] true)].
Lemma sample_run_happens : all_enabled sample_run sample_proxy.
Proof. unfold sample_run. cbn [all_enabled]. split_and!. all: event_happens. Qed.

Lemma sample_limits : limits_ok sample_socks.
Proof. split; reflexivity. Qed.

Lemma socks_reaches_only_permitted_witness :
  let p := run_events sample_run sample_proxy in
  px_rejected p = 0%nat ∧ is_Some (px_outbounds p !! 2%nat) ∧
  (∀ o, px_outbounds p !! 2%nat = Some o → permitted sample_socks (ob_host o) (ob_port o)) ∧
  (written Right <$> (snd <$> px_relays p !! 1%nat)) = Some [[1; 2]].
Proof.
  pose proof (socks_reaches_only_permitted sample_socks sample_limits 2 sample_admission sample_context 1000 sample_auditor
    (run_events sample_run sample_proxy) eq_refl eq_refl
    (socks_run_reachable sample_run sample_proxy sample_proxy (reachable_start _ _) sample_run_happens)) as [Hr Ho].
  split; [exact Hr|]. split; [eexists; vm_compute; reflexivity|].
  split; [intros o E; exact (proj1 (Ho 2%nat o E))|vm_compute; reflexivity].
Defined.

(** The same stream when the proxy is closed under it: nothing is left to own. *)
Definition sample_closed_run : list proxy_event := sample_run ++ [CloseProxy].
Lemma sample_closed_run_happens : all_enabled sample_closed_run sample_proxy.
Proof. unfold sample_closed_run, sample_run. cbn [all_enabled app]. split_and!. all: event_happens. Qed.

Lemma socks_leases_and_streams_witness :
  let p := run_events sample_closed_run sample_proxy in
  px_closing p = true ∧ ad_active (px_admission p) = 1 ∧ (acquire (px_admission p)).1 = None ∧
  2%nat ∈ cs_destroyed (px_connections p).
Proof.
  pose proof (socks_leases_and_streams sample_socks sample_limits 2 sample_admission sample_context 1000 sample_auditor
    (run_events sample_closed_run sample_proxy) eq_refl eq_refl
    (socks_run_reachable sample_closed_run sample_proxy sample_proxy (reachable_start _ _) sample_closed_run_happens))
    as (_ & _ & _ & Hc).
  destruct (Hc eq_refl) as (Ha & Ho & _).
  split_and!; [reflexivity|vm_compute; reflexivity|exact Ha|apply Ho; eexists; vm_compute; reflexivity].
Defined.

(** A client that leaves while the connector works: its [close] event was before
    the relay listens for it, so the stream that is opened for it, and its lease,
    stay until the relay's idle timer. *)
Definition departed_run : list proxy_event :=
  [Accepts 1; ClientData 1 sample_handshake 5; ClientClosed 1; ConnectorSettles 1 (Ok sample_connection) 6].
Lemma departed_client_keeps_a_stream :
  all_enabled departed_run sample_proxy ∧
  (cl_gone <$> px_clients (run_events departed_run sample_proxy) !! 1%nat) = Some true ∧
  (rl_closed ∘ snd <$> px_relays (run_events departed_run sample_proxy) !! 1%nat) = Some false ∧
  ad_active (px_admission (run_events departed_run sample_proxy)) = 1.
Proof.
  split_and!; [|vm_compute; reflexivity..]. unfold departed_run. cbn [all_enabled]. split_and!. all: event_happens.
Qed.
