(* ===== verification/EgressConfig.v ===== *)
(** The configuration of managed egress ([src/server/network/config.ts]): the
    global ceiling of destinations and the policy sets below it, read from the
    environment of the process. *)
From S2P Require Import Prelude JsValues Texts Errors PosixPath Protocol Workspaces.
From S2P Require Import Addresses AddressText AddressRanges NetworkPolicy NetworkPolicySafety.
From S2P Require Import Connections Socks5 Socks5Safety.
#[local] Open Scope string_scope. #[local] Open Scope Z_scope.
#[local] Arguments String.append : simpl nomatch.

(** ** Data *)

(** What [JSON.parse] returns; the keys of an object are distinct. *)
Inductive json :=
| JsonNull
| JsonBool (b : bool)
| JsonNumber (n : jsnum)
| JsonString (s : string)
| JsonArray (items : list json)
| JsonObject (fields : list (string * json)).

(** The conversions of the language that are given: [JSON.parse], [None] where it
    throws, and [Number] of a string. *)
Class TextConversions := {
  json_parse : string → option json;
  number_of : string → jsnum;
}.

(** [process.env] *)
Definition environment_of : Type := string → option string.

(** What loading throws. *)
(** src/server/sandbox/config.ts:21-23 ConfigurationError *)
Inductive config_thrown :=
| ConfigurationError (message : string)
| OtherConfigError (e : policy_thrown).

(** src/server/network/config.ts:20-20 DEFAULT_MANAGED_EGRESS_MODE *)
Definition DEFAULT_MANAGED_EGRESS_MODE : ManagedEgressMode := EgressDisabled.
(** src/server/network/config.ts:21-21 DEFAULT_NETWORK_ALLOWED_PORTS *)
Definition DEFAULT_NETWORK_ALLOWED_PORTS : list json := [JsonNumber (JInt 80); JsonNumber (JInt 443)].
(** src/server/network/config.ts:22-22 DEFAULT_NETWORK_MAX_CONNECTIONS *)
Definition DEFAULT_NETWORK_MAX_CONNECTIONS : Z := 32.
(** src/server/network/config.ts:23-23 DEFAULT_NETWORK_CONNECT_TIMEOUT_MS *)
Definition DEFAULT_NETWORK_CONNECT_TIMEOUT_MS : Z := 10000.
(** src/server/network/config.ts:24-24 DEFAULT_NETWORK_IDLE_TIMEOUT_MS *)
Definition DEFAULT_NETWORK_IDLE_TIMEOUT_MS : Z := 300000.
(** src/server/network/config.ts:25-25 DEFAULT_NETWORK_MAX_CONNECTION_BYTES *)
Definition DEFAULT_NETWORK_MAX_CONNECTION_BYTES : Z := 1073741824.
(** src/server/network/config.ts:27-27 DEFAULT_NETWORK_POLICY_SET_LABEL *)
Definition DEFAULT_NETWORK_POLICY_SET_LABEL : string := "Default".
(** src/shared/protocol.ts:352-352 NETWORK_POLICY_SET_LABEL_MAX_LENGTH *)
Definition NETWORK_POLICY_SET_LABEL_MAX_LENGTH : Z := 128.
(** src/shared/protocol.ts:353-353 MAX_PUBLIC_NETWORK_POLICY_SETS *)
Definition MAX_PUBLIC_NETWORK_POLICY_SETS : Z := 64.

(** src/server/network/config.ts:29-30 MANAGED_EGRESS_DISCLOSURE_WARNING *)
Definition MANAGED_EGRESS_DISCLOSURE_WARNING : string :=
  "Tools may transmit workspace content to configured destinations. Workspace content may also be sent to the configured model provider.".

(** src/server/network/config.ts:32-38 MANAGED_EGRESS_SUPPORTED_PROTOCOLS *)
Definition MANAGED_EGRESS_SUPPORTED_PROTOCOLS : list string :=
  ["http"; "https-connect"; "websocket"; "websocket-secure"; "socks5-tcp"].

(** src/server/network/config.ts:40-47 CompiledNetworkPolicySet *)
Record CompiledNetworkPolicySet := {
  ns_id : string;
  ns_label : string;
  ns_allowedDomainPatterns : list string;
  ns_allowedPorts : list Z;
  ns_destinationPolicy : CompiledDestinationPolicy;
}.

(** The read-only view is the [Map] it was made from. *)
(** src/server/network/config.ts:49-63 ImmutableMapView *)
Definition map_view {A} (values : list (string * A)) : jsmap string A :=
  fold_left (λ m p, map_set p.1 p.2 m) values [].

(** src/server/network/config.ts:65-85 ManagedNetworkConfig *)
Record ManagedNetworkConfig := {
  nc_mode : ManagedEgressMode;
  nc_helperPath : string;
  nc_helperDirectory : string;
  nc_helperManifestPath : string;
  nc_allowedDomainPatterns : list string;
  nc_deniedDomainPatterns : list string;
  nc_allowedPorts : list Z;
  nc_policySets : jsmap string CompiledNetworkPolicySet;
  nc_orderedPolicySets : list CompiledNetworkPolicySet;
  nc_destinationPolicy : CompiledDestinationPolicy;
  nc_allowedPortSet : list Z;
  nc_maxConnections : Z;
  nc_connectTimeoutMs : Z;
  nc_idleTimeoutMs : Z;
  nc_maxConnectionBytes : Z;
}.

(** The process, whose directory and architecture the options may replace. *)
(** src/server/network/config.ts:87-90 ManagedNetworkConfigOptions *)
Record ManagedNetworkConfigOptions := {
  no_processCwd : option string;
  no_processArch : option string;
}.

(** ** Texts *)

(** [JSON.stringify(s)] of a string of code units below 256. *)
Definition json_escape (a : ascii) : string :=
  let c := unit_code a in
  if c =? 34 then String "\"%char (String a "")
  else if c =? 92 then "\\"
  else if c =? 8 then "\b" else if c =? 9 then "\t" else if c =? 10 then "\n"
  else if c =? 12 then "\f" else if c =? 13 then "\r"
  else if c <? 32 then "\u00" +:+ String (hex_char (c / 16)) (String (hex_char (c mod 16)) "")
  else String a "".
Fixpoint json_escaped (s : string) : string :=
  match s with EmptyString => "" | String a r => json_escape a +:+ json_escaped r end.
Definition double_quote : string := String (ascii_of_nat 34) "".
Definition json_quote (s : string) : string := double_quote +:+ json_escaped s +:+ double_quote.

(** [path.join(...parts)] *)
Definition path_join_all (parts : list string) : string :=
  match filter (λ p, p ≠ "") parts with
  | [] => "."
  | parts => normalize (join sep parts)
  end.

(** The class of control characters, in a label. *)
Definition is_control (a : ascii) : bool := (unit_code a <=? 31) || (unit_code a =? 127).

(** [Object.keys(o)] and [o[k]] of a parsed object. *)
Definition json_keys (fields : list (string * json)) : list string := fst <$> fields.
Definition json_get (k : string) (fields : list (string * json)) : option json := map_get k fields.

(** [xs.map(f)] where [f] throws. *)
Fixpoint map_throwing {E A B} (f : A → result E B) (xs : list A) : result E (list B) :=
  match xs with
  | [] => Ok []
  | x :: rest => y ← f x; ys ← map_throwing f rest; mret (y :: ys)
  end.

(** The strings of an array of which every entry is one. *)
Fixpoint all_strings (items : list json) : option (list string) :=
  match items with
  | [] => Some []
  | JsonString s :: rest => cons s <$> all_strings rest
  | _ => None
  end.

Definition valid_port_value (v : json) : option Z :=
  match v with JsonNumber (JInt z) => if valid_port z then Some z else None | _ => None end.
Fixpoint all_ports (items : list json) : option (list Z) :=
  match items with
  | [] => Some []
  | v :: rest => match valid_port_value v, all_ports rest with Some z, Some zs => Some (z :: zs) | _, _ => None end
  end.

(** [`${variable}[${String(index)}]`] *)
Definition indexed (variable : string) (index : Z) : string := variable +:+ "[" +:+ pretty index +:+ "]".

(** ** Parsing *)

Section config.
Context `{NodeUrl} `{TextConversions} (environment : environment_of).

(** src/server/network/config.ts:92-99 parseMode *)
Definition parseMode : result config_thrown ManagedEgressMode :=
  match environment "CHATWCA_MANAGED_EGRESS_MODE" with
  | None => Ok DEFAULT_MANAGED_EGRESS_MODE
  | Some value =>
      if String.eqb value "disabled" then Ok EgressDisabled
      else if String.eqb value "optional" then Ok EgressOptional
      else Err (ConfigurationError "CHATWCA_MANAGED_EGRESS_MODE must be disabled or optional")
  end.

(** src/server/network/config.ts:101-118 parseJsonArray *)
Definition parseJsonArray (variable : string) (fallback : list json) : result config_thrown (list json) :=
  match environment variable with
  | None => Ok fallback
  | Some raw =>
      if String.eqb (trim raw) "" then Err (ConfigurationError (variable +:+ " must not be empty"))
      else
        match json_parse raw with
        | Some (JsonArray items) => Ok items
        | _ => Err (ConfigurationError (variable +:+ " must be a JSON array"))
        end
  end.

(** src/server/network/config.ts:120-132 positiveSafeInteger *)
Definition positiveSafeInteger (variable : string) (fallback : Z) : result config_thrown Z :=
  match environment variable with
  | None => Ok fallback
  | Some raw =>
      match number_of raw with
      | JInt value =>
          if negb (isSafeInteger value) || (value <=? 0)
          then Err (ConfigurationError (variable +:+ " must be a positive safe integer"))
          else Ok value
      | JOther => Err (ConfigurationError (variable +:+ " must be a positive safe integer"))
      end
  end.

(** src/server/network/config.ts:134-144 normalizeConfiguredDomainPattern *)
Definition normalizeConfiguredDomainPattern (input : string) : result config_thrown string :=
  match normalizeDestinationPattern input with
  | Ok pattern => Ok pattern
  | Err (DestinationPolicyError _ _) => Err (ConfigurationError ("invalid domain pattern " +:+ json_quote input))
  | Err e => Err (OtherConfigError e)
  end.

(** One pattern of a variable. *)
(** src/server/network/config.ts:155-162 configuredPattern *)
Definition configured_pattern (variable value : string) : result config_thrown string :=
  match normalizeConfiguredDomainPattern value with
  | Err (ConfigurationError _) => Err (ConfigurationError (variable +:+ " contains an invalid domain pattern"))
  | r => r
  end.

(** src/server/network/config.ts:146-168 parseDomainPatterns *)
Definition parseDomainPatterns (variable : string) : result config_thrown (list string) :=
  values ← parseJsonArray variable [];
  match all_strings values with
  | None => Err (ConfigurationError (variable +:+ " must be a JSON string array"))
  | Some values =>
      normalized ← map_throwing (configured_pattern variable) values;
      if bool_decide (NoDup normalized) then mret normalized
      else Err (ConfigurationError (variable +:+ " contains a normalized duplicate"))
  end.

(** src/server/network/config.ts:170-189 parsePortValues *)
Definition parsePortValues (values : list json) (variable : string) : result config_thrown (list Z) :=
  match all_ports values with
  | None => Err (ConfigurationError (variable +:+ " entries must be integers from 1 through 65535"))
  | Some ports =>
      if bool_decide (NoDup ports) then Ok ports
      else Err (ConfigurationError (variable +:+ " contains a duplicate"))
  end.

(** src/server/network/config.ts:191-197 parsePorts *)
Definition parsePorts : result config_thrown (list Z) :=
  let variable := "CHATWCA_NETWORK_ALLOWED_PORTS" in
  values ← parseJsonArray variable DEFAULT_NETWORK_ALLOWED_PORTS;
  parsePortValues values variable.

(** ** Policy sets *)

(** src/server/network/config.ts:199-202 validPolicySetId *)
Definition validPolicySetId (id : string) : bool := (strlen id <=? NETWORK_POLICY_SET_ID_MAX_LENGTH) && slug id.

Definition compiled (config : DestinationPolicyConfig) : result config_thrown CompiledDestinationPolicy :=
  match compileDestinationPolicy config with Ok policy => Ok policy | Err e => Err (OtherConfigError e) end.

(** src/server/network/config.ts:204-222 compilePolicySet *)
Definition compilePolicySet (id label : string) (allowedDomainPatterns : list string) (allowedPorts : list Z)
    (deniedDomainPatterns : list string) : result config_thrown CompiledNetworkPolicySet :=
  policy ← compiled {| NetworkPolicy.allowedDomainPatterns := allowedDomainPatterns;
                       NetworkPolicy.deniedDomainPatterns := deniedDomainPatterns;
                       config_allowedPorts := Some allowedPorts; allowedPortSet := None |};
  mret {| ns_id := id; ns_label := label; ns_allowedDomainPatterns := allowedDomainPatterns;
          ns_allowedPorts := allowedPorts; ns_destinationPolicy := policy |}.

Definition POLICY_SETS : string := "CHATWCA_NETWORK_POLICY_SETS".
Definition policy_set_keys : list string := ["allowedDomains"; "allowedPorts"; "id"; "label"].
Definition config_error {A} (message : string) : result config_thrown A := Err (ConfigurationError message).

(** src/server/network/config.ts:273-279 label *)
Definition valid_label_text (label : string) : bool :=
  negb (String.eqb label "") && (strlen label <=? NETWORK_POLICY_SET_LABEL_MAX_LENGTH)
  && String.eqb (trim label) label && str_all (λ a, negb (is_control a)) label.

(** The pattern of an entry of a set; every error is caught. *)
(** src/server/network/config.ts:286-289 setPattern *)
Definition set_pattern (index : Z) (entry : string) : result config_thrown string :=
  match normalizeConfiguredDomainPattern entry with
  | Ok pattern => Ok pattern
  | Err _ => config_error (indexed POLICY_SETS index +:+ ".allowedDomains contains an invalid pattern")
  end.

(** src/server/network/config.ts:282-295 setDomains *)
Definition set_domains (index : Z) (globalDomains : list string) (value : option json) : result config_thrown (list string) :=
  match value with
  | Some (JsonArray ((_ :: _) as items)) =>
      match all_strings items with
      | None => config_error (indexed POLICY_SETS index +:+ ".allowedDomains must be a non-empty string array")
      | Some entries =>
          domains ← map_throwing (set_pattern index) entries;
          if negb (bool_decide (NoDup domains))
          then config_error (indexed POLICY_SETS index +:+ ".allowedDomains contains a normalized duplicate")
          else if negb (forallb (λ domain, includes domain globalDomains) domains)
          then config_error (indexed POLICY_SETS index +:+ ".allowedDomains exceeds the global ceiling")
          else mret domains
      end
  | _ => config_error (indexed POLICY_SETS index +:+ ".allowedDomains must be a non-empty string array")
  end.

(** src/server/network/config.ts:296-302 setPorts *)
Definition set_ports (index : Z) (globalPorts : list Z) (value : option json) : result config_thrown (list Z) :=
  match value with
  | Some (JsonArray ((_ :: _) as items)) =>
      ports ← parsePortValues items (indexed POLICY_SETS index +:+ ".allowedPorts");
      if negb (forallb (λ port, bool_decide (port ∈ globalPorts)) ports)
      then config_error (indexed POLICY_SETS index +:+ ".allowedPorts exceeds the global ceiling")
      else mret ports
  | _ => config_error (indexed POLICY_SETS index +:+ ".allowedPorts must be a non-empty array")
  end.

Section sets.
Context (globalDomains : list string) (globalPorts : list Z) (deniedDomains : list string).

(** One value of the array, and the identifiers before it. *)
(** src/server/network/config.ts:259-303 parsePolicySet *)
Definition parsePolicySet (index : Z) (ids : list string) (value : json) : result config_thrown CompiledNetworkPolicySet :=
  match value with
  | JsonObject object =>
      let keys := json_keys object in
      if negb (Nat.eqb (length keys) (length policy_set_keys)) || existsb (λ key, negb (includes key policy_set_keys)) keys
      then config_error (indexed POLICY_SETS index +:+ " contains unknown or missing keys")
      else
        match json_get "id" object with
        | Some (JsonString id) =>
            if negb (validPolicySetId id)
            then config_error (indexed POLICY_SETS index +:+ ".id must be an ASCII slug of at most "
                               +:+ pretty NETWORK_POLICY_SET_ID_MAX_LENGTH +:+ " characters")
            else if includes id ids then config_error (POLICY_SETS +:+ " contains a duplicate id")
            else
              match json_get "label" object with
              | Some (JsonString label) =>
                  if negb (valid_label_text label) then config_error (indexed POLICY_SETS index +:+ ".label is invalid")
                  else
                    domains ← set_domains index globalDomains (json_get "allowedDomains" object);
                    ports ← set_ports index globalPorts (json_get "allowedPorts" object);
                    compilePolicySet id label domains ports deniedDomains
              | _ => config_error (indexed POLICY_SETS index +:+ ".label is invalid")
              end
        | _ => config_error (indexed POLICY_SETS index +:+ ".id must be an ASCII slug of at most "
                             +:+ pretty NETWORK_POLICY_SET_ID_MAX_LENGTH +:+ " characters")
        end
  | _ => config_error (indexed POLICY_SETS index +:+ " must be an object")
  end.

(** The identifiers of the sets read so far are those that were seen. *)
(** src/server/network/config.ts:258-304 parseEntries *)
Fixpoint parse_entries (index : Z) (ordered : list CompiledNetworkPolicySet) (values : list json)
    : result config_thrown (list CompiledNetworkPolicySet) :=
  match values with
  | [] => Ok ordered
  | value :: rest =>
      set ← parsePolicySet index (ns_id <$> ordered) value;
      parse_entries (index + 1) (ordered ++ [set])%list rest
  end.

Definition sets_by_id (ordered : list CompiledNetworkPolicySet) : jsmap string CompiledNetworkPolicySet :=
  map_view ((λ set, (ns_id set, set)) <$> ordered).

(** src/server/network/config.ts:224-314 parsePolicySets *)
Definition parsePolicySets : result config_thrown (jsmap string CompiledNetworkPolicySet * list CompiledNetworkPolicySet) :=
  match environment POLICY_SETS with
  | None =>
      defaultSet ← compilePolicySet DEFAULT_NETWORK_POLICY_SET_ID DEFAULT_NETWORK_POLICY_SET_LABEL
                     globalDomains globalPorts deniedDomains;
      mret (map_view [(ns_id defaultSet, defaultSet)], [defaultSet])
  | Some _ =>
      values ← parseJsonArray POLICY_SETS [];
      if Nat.eqb (length values) 0 || (MAX_PUBLIC_NETWORK_POLICY_SETS <? Z.of_nat (length values))
      then config_error (POLICY_SETS +:+ " must contain from 1 through " +:+ pretty MAX_PUBLIC_NETWORK_POLICY_SETS +:+ " sets")
      else
        ordered ← parse_entries 0 [] values;
        if negb (includes DEFAULT_NETWORK_POLICY_SET_ID (ns_id <$> ordered))
           || negb (Nat.eqb (length (filter (λ set, ns_id set = DEFAULT_NETWORK_POLICY_SET_ID) ordered)) 1)
        then config_error (POLICY_SETS +:+ " must contain exactly one default set")
        else mret (sets_by_id ordered, ordered)
  end.
End sets.

(** src/server/network/config.ts:316-336 configuredHelperPath *)
Definition configuredHelperPath (processCwd processArch : string) : result config_thrown string :=
  let configured := default (path_join_all [processCwd; "dist"; "native"; processArch; "chatwca-network-helper"])
                      (environment "CHATWCA_NETWORK_HELPER_PATH") in
  if String.eqb (trim configured) "" || negb (is_absolute configured)
  then config_error "CHATWCA_NETWORK_HELPER_PATH must be a non-empty absolute path"
  else Ok (normalize configured).

(** [cwd] and [arch] are those of the process. *)
(** src/server/network/config.ts:338-423 loadManagedNetworkConfig *)
Definition loadManagedNetworkConfig (cwd arch : string) (sandboxMode : SandboxMode) (options : ManagedNetworkConfigOptions)
    : result config_thrown ManagedNetworkConfig :=
  mode ← parseMode;
  throw_if (bool_decide (mode = EgressOptional) && bool_decide (sandboxMode = ModeDisabled))
    (ConfigurationError "CHATWCA_MANAGED_EGRESS_MODE=optional requires CHATWCA_SANDBOX_MODE to be optional or required");;
  allowedDomainPatterns ← parseDomainPatterns "CHATWCA_NETWORK_ALLOWED_DOMAINS";
  deniedDomainPatterns ← parseDomainPatterns "CHATWCA_NETWORK_DENIED_DOMAINS";
  throw_if (bool_decide (mode = EgressOptional) && Nat.eqb (length allowedDomainPatterns) 0)
    (ConfigurationError "CHATWCA_NETWORK_ALLOWED_DOMAINS must contain at least one entry in optional mode");;
  allowedPorts ← parsePorts;
  policySets ← parsePolicySets allowedDomainPatterns allowedPorts deniedDomainPatterns;
  let processCwd := resolve cwd [default cwd (no_processCwd options)] in
  let processArch := default arch (no_processArch options) in
  helperPath ← configuredHelperPath processCwd processArch;
  destinationPolicy ← compiled {| NetworkPolicy.allowedDomainPatterns := allowedDomainPatterns;
                                  NetworkPolicy.deniedDomainPatterns := deniedDomainPatterns;
                                  config_allowedPorts := Some allowedPorts; allowedPortSet := None |};
  maxConnections ← positiveSafeInteger "CHATWCA_NETWORK_MAX_CONNECTIONS" DEFAULT_NETWORK_MAX_CONNECTIONS;
  connectTimeoutMs ← positiveSafeInteger "CHATWCA_NETWORK_CONNECT_TIMEOUT_MS" DEFAULT_NETWORK_CONNECT_TIMEOUT_MS;
  idleTimeoutMs ← positiveSafeInteger "CHATWCA_NETWORK_IDLE_TIMEOUT_MS" DEFAULT_NETWORK_IDLE_TIMEOUT_MS;
  maxConnectionBytes ← positiveSafeInteger "CHATWCA_NETWORK_MAX_CONNECTION_BYTES" DEFAULT_NETWORK_MAX_CONNECTION_BYTES;
  mret {| nc_mode := mode; nc_helperPath := helperPath; nc_helperDirectory := dirname helperPath;
          nc_helperManifestPath := path_join_all [processCwd; "dist"; "native"; processArch; "network-helper-manifest.json"];
          nc_allowedDomainPatterns := allowedDomainPatterns; nc_deniedDomainPatterns := deniedDomainPatterns;
          nc_allowedPorts := allowedPorts; nc_policySets := policySets.1; nc_orderedPolicySets := policySets.2;
          nc_destinationPolicy := destinationPolicy; nc_allowedPortSet := NetworkPolicy.allowedPorts destinationPolicy;
          nc_maxConnections := maxConnections; nc_connectTimeoutMs := connectTimeoutMs;
          nc_idleTimeoutMs := idleTimeoutMs; nc_maxConnectionBytes := maxConnectionBytes |}.
End config.

(** What browsers are told. *)
(** src/shared/protocol.ts:355-362 PublicNetworkPolicySet *)
Record PublicNetworkPolicySet := {
  pn_id : string; pn_label : string; pn_allowedDomainPatterns : list string; pn_allowedPorts : list Z;
}.
(** src/shared/protocol.ts:365-380 PublicManagedEgressConfig *)
Record PublicManagedEgressConfig := {
  pe_mode : ManagedEgressMode;
  pe_selectablePolicies : list SandboxNetworkPolicy;
  pe_policySets : list PublicNetworkPolicySet;
  pe_allowedDomainPatterns : list string;
  pe_deniedDomainPatterns : list string;
  pe_allowedPorts : list Z;
  pe_supportedProtocols : list string;
  pe_denyNonPublicAddresses : bool;
  pe_tlsInterception : bool;
  pe_disclosureWarning : string;
  pe_functionalProbeSucceeded : bool;
}.

(** src/server/network/config.ts:425-450 publicManagedEgressConfig *)
Definition publicManagedEgressConfig (config : ManagedNetworkConfig) (functionalProbeSucceeded : bool)
    : PublicManagedEgressConfig :=
  {| pe_mode := nc_mode config;
     pe_selectablePolicies := if bool_decide (nc_mode config = EgressOptional) then [Isolated; ManagedEgress] else [Isolated];
     pe_policySets := (λ set, {| pn_id := ns_id set; pn_label := ns_label set;
                                 pn_allowedDomainPatterns := ns_allowedDomainPatterns set;
                                 pn_allowedPorts := ns_allowedPorts set |}) <$> nc_orderedPolicySets config;
     pe_allowedDomainPatterns := nc_allowedDomainPatterns config;
     pe_deniedDomainPatterns := nc_deniedDomainPatterns config;
     pe_allowedPorts := nc_allowedPorts config;
     pe_supportedProtocols := MANAGED_EGRESS_SUPPORTED_PROTOCOLS;
     pe_denyNonPublicAddresses := true; pe_tlsInterception := false;
     pe_disclosureWarning := MANAGED_EGRESS_DISCLOSURE_WARNING;
     pe_functionalProbeSucceeded := functionalProbeSucceeded |}.

(** ** Compiled policies *)

Lemma map_ok_lookup {A B} (f : A → result policy_thrown B) xs ys :
  NetworkPolicy.map_ok f xs = Ok ys → ∀ y, y ∈ ys ↔ ∃ x, x ∈ xs ∧ f x = Ok y.
Proof.
  revert ys. induction xs as [|x xs IH]; cbn; intros ys E y.
  - injection E as <-. split; [by intros ?%elem_of_nil|by intros (? & ?%elem_of_nil & _)].
  - inv_bind E. injection E as <-. rewrite elem_of_cons, (IH _ Ha0). split.
    + intros [->|(x' & Hx & Hf)]; [exists x|exists x']; rewrite elem_of_cons; auto.
    + intros (x' & [->|Hx]%elem_of_cons & Hf); [left; congruence|right; eauto].
Qed.

Lemma map_ok_mono {A B} (f : A → result policy_thrown B) xs xs' ys ys' :
  NetworkPolicy.map_ok f xs = Ok ys → NetworkPolicy.map_ok f xs' = Ok ys' → (∀ x, x ∈ xs → x ∈ xs') →
  ∀ y, y ∈ ys → y ∈ ys'.
Proof.
  intros E E' Hs y. rewrite (map_ok_lookup f xs ys E), (map_ok_lookup f xs' ys' E'). intros (x & Hx & Hf). eauto.
Qed.

Lemma set_view_elements values v : v ∈ set_view values ↔ v ∈ values.
Proof.
  unfold set_view. assert (Hg : ∀ acc, v ∈ fold_left (λ acc v, if bool_decide (v ∈ acc) then acc else (acc ++ [v])%list) values acc
    ↔ v ∈ acc ∨ v ∈ values).
  { induction values as [|w ws IH]; intros acc; cbn [fold_left]; [split; [by left|by intros [?|?%elem_of_nil]]|].
    rewrite IH, elem_of_cons. case_bool_decide as Ew; rewrite ?elem_of_app, ?list_elem_of_singleton; naive_solver. }
  rewrite Hg. split; [by intros [?%elem_of_nil|?]|by right].
Qed.

Section laws.
Context `{NodeUrl}.

Lemma unique_patterns_mono ps ps' cs cs' :
  normalizedUniquePatterns ps = Ok cs → normalizedUniquePatterns ps' = Ok cs' → (∀ p, p ∈ ps → p ∈ ps') →
  ∀ c, c ∈ cs → c ∈ cs'.
Proof.
  unfold normalizedUniquePatterns. intros E E' Hs. inv_bind E. inv_bind E'.
  case_bool_decide; [|done]. case_bool_decide; [|done]. eapply map_ok_mono; [done..|]. eapply map_ok_mono; done.
Qed.

(** What a policy was compiled from. *)
Lemma compile_inv allow deny ports policy :
  compiled {| NetworkPolicy.allowedDomainPatterns := allow; NetworkPolicy.deniedDomainPatterns := deny;
              config_allowedPorts := Some ports; allowedPortSet := None |} = Ok policy →
  (∀ port, port ∈ NetworkPolicy.allowedPorts policy ↔ port ∈ ports) ∧
  normalizedUniquePatterns allow = Ok (compiled_allowed policy) ∧ normalizedUniquePatterns deny = Ok (compiled_denied policy).
Proof.
  unfold compiled. destruct (compileDestinationPolicy _) as [q|] eqn:E; [|done]. intros [= <-].
  unfold compileDestinationPolicy in E. cbn [allowedPortSet config_allowedPorts default NetworkPolicy.allowedDomainPatterns
    NetworkPolicy.deniedDomainPatterns] in E. destruct (_ && _); [done|]. destruct (negb _); [done|].
  inv_bind E. injection E as <-. cbn. split; [|done]. intros port. apply set_view_elements.
Qed.

(** A policy of fewer grants and the same denials allows less, and decides alike
    what it allows. *)
Lemma fewer_grants policy ceiling input d :
  (∀ port, port ∈ NetworkPolicy.allowedPorts policy → port ∈ NetworkPolicy.allowedPorts ceiling) →
  (∀ c, c ∈ compiled_allowed policy → c ∈ compiled_allowed ceiling) →
  compiled_denied policy = compiled_denied ceiling →
  decideDestination policy input = Ok d → allowed d = true → decideDestination ceiling input = Ok d.
Proof.
  intros Hports Hallow Hdeny (port & host & Hp & Hv & Hh & ->)%decide_Ok Hd. apply decide_Ok. exists port, host.
  split_and!; [done..|]. cbn [allowed] in Hd.
  assert (E : decide_reason ceiling host port = Allowlist); [|rewrite E; by destruct (decide_reason policy host port)].
  unfold decide_reason in *. rewrite <-Hdeny. destruct (existsb _ (compiled_denied policy)); [done|].
  destruct (bool_decide (port ∈ NetworkPolicy.allowedPorts policy)) eqn:Ep; [|done]. breflect.
  rewrite bool_decide_true by auto. cbn [negb] in *.
  destruct (existsb _ (compiled_allowed policy)) eqn:Ea; [|done]. cbn [negb] in Hd.
  apply existsb_exists in Ea as (c & Hc%list_elem_of_In & Hm).
  assert (Ec : existsb (λ pattern, matches pattern host) (compiled_allowed ceiling) = true).
  { apply existsb_exists. exists c. split; [|done]. apply list_elem_of_In. auto. }
  rewrite Ec. cbn [negb]. by destruct (match nh_address host with Some _ => _ | None => _ end).
Qed.

(** The denials of a policy are decided by its deny patterns alone. *)
Lemma same_denials policy ceiling input d :
  compiled_denied policy = compiled_denied ceiling →
  decideDestination ceiling input = Ok d → reason d = ExplicitDeny → decideDestination policy input = Ok d.
Proof.
  intros Hdeny (port & host & Hp & Hv & Hh & ->)%decide_Ok Hd. apply decide_Ok. exists port, host.
  split_and!; [done..|]. cbn [reason] in Hd.
  assert (E : decide_reason policy host port = ExplicitDeny); [|by rewrite E, Hd].
  unfold decide_reason in *. rewrite Hdeny. destruct (existsb _ (compiled_denied ceiling)); [done|].
  repeat match type of Hd with context [if ?b then _ else _] => destruct b end; done.
Qed.
End laws.

(** ** The sets *)

Lemma map_view_unique {A} (values : list (string * A)) : NoDup (fst <$> values) → map_view values = values.
Proof.
  unfold map_view. assert (Hg : ∀ acc, NoDup (fst <$> (acc ++ values)%list) →
    fold_left (λ m p, map_set p.1 p.2 m) values acc = (acc ++ values)%list).
  { induction values as [|[k v] values IH]; intros acc Hn; cbn [fold_left fst snd]; [by rewrite app_nil_r|].
    rewrite map_keys_set; [rewrite IH; [by rewrite <-(assoc_L (++))%list|by rewrite <-(assoc_L (++))%list]|].
    rewrite fmap_app in Hn. apply NoDup_app in Hn as (_ & Hd & _). intros Hk. eapply Hd; [exact Hk|]. cbn. by left. }
  apply (Hg []).
Qed.

Lemma includes_elem k ks : includes k ks = true ↔ k ∈ ks.
Proof.
  unfold includes. rewrite existsb_exists. split.
  - intros (x & Hx%list_elem_of_In & E%String.eqb_eq). by subst.
  - intros Hk. exists k. by rewrite <-list_elem_of_In, String.eqb_refl.
Qed.

(** A set below a ceiling. *)
Record set_below `{NodeUrl} (domains : list string) (ports : list Z) (denied : list string) (set : CompiledNetworkPolicySet) : Prop := {
  below_id : validPolicySetId (ns_id set) = true;
  below_label : valid_label_text (ns_label set) = true;
  below_domains : ∀ p, p ∈ ns_allowedDomainPatterns set → p ∈ domains;
  below_ports : ∀ p, p ∈ ns_allowedPorts set → p ∈ ports;
  below_compiled : compiled {| NetworkPolicy.allowedDomainPatterns := ns_allowedDomainPatterns set;
      NetworkPolicy.deniedDomainPatterns := denied; config_allowedPorts := Some (ns_allowedPorts set);
      allowedPortSet := None |} = Ok (ns_destinationPolicy set);
}.

Section sets.
Context `{NodeUrl} (domains : list string) (ports : list Z) (denied : list string).

Lemma set_domains_Ok index value ds : set_domains index domains value = Ok ds → NoDup ds ∧ ∀ d, d ∈ ds → d ∈ domains.
Proof.
  unfold set_domains. destruct value as [[| | | |[|i items]|]|]; try done. destruct (all_strings _) as [entries|]; [|done].
  intros E. inv_bind E. case_bool_decide as Hn; [|done]. destruct (forallb _ _) eqn:Ef; [|done]. injection E as <-.
  split; [done|]. intros d Hd%list_elem_of_In. rewrite forallb_forall in Ef. by apply includes_elem, Ef.
Qed.

Lemma set_ports_Ok index value ps : set_ports index ports value = Ok ps → ∀ p, p ∈ ps → p ∈ ports.
Proof.
  unfold set_ports. destruct value as [[| | | |[|i items]|]|]; try done. intros E. inv_bind E.
  destruct (forallb _ _) eqn:Ef; [|done]. injection E as <-.
  intros d Hd%list_elem_of_In. rewrite forallb_forall in Ef. by apply Ef, bool_decide_eq_true in Hd.
Qed.

Lemma compilePolicySet_Ok id label ds ps set : compilePolicySet id label ds ps denied = Ok set →
  validPolicySetId id = true → valid_label_text label = true → (∀ p, p ∈ ds → p ∈ domains) → (∀ p, p ∈ ps → p ∈ ports) →
  set_below domains ports denied set ∧ ns_id set = id ∧ ns_allowedDomainPatterns set = ds ∧ ns_allowedPorts set = ps.
Proof. unfold compilePolicySet. intros E. inv_bind E. by injection E as <-. Qed.

Lemma parsePolicySet_Ok index ids value set : parsePolicySet domains ports denied index ids value = Ok set →
  set_below domains ports denied set ∧ ns_id set ∉ ids.
Proof.
  unfold parsePolicySet. destruct value as [| | | | |object]; try done. destruct (_ || _); [done|].
  destruct (json_get "id" object) as [[| | |id| |]|]; try done.
  destruct (validPolicySetId id) eqn:Eid; [|done]. destruct (includes id ids) eqn:Ein; [done|]. cbn [negb].
  destruct (json_get "label" object) as [[| | |label| |]|]; try done.
  destruct (valid_label_text label) eqn:El; [|done]. cbn [negb]. intros E. inv_bind E.
  apply set_domains_Ok in Ha as [_ Hd]. pose proof (set_ports_Ok _ _ _ Ha0) as Hp.
  destruct (compilePolicySet_Ok _ _ _ _ _ E Eid El Hd Hp) as (Hb & -> & _). split; [done|].
  rewrite <-includes_elem. by rewrite Ein.
Qed.

Lemma parse_entries_Ok index ordered values out :
  parse_entries domains ports denied index ordered values = Ok out →
  Forall (set_below domains ports denied) ordered → NoDup (ns_id <$> ordered) →
  Forall (set_below domains ports denied) out ∧ NoDup (ns_id <$> out) ∧ length out = (length ordered + length values)%nat.
Proof.
  revert index ordered. induction values as [|v values IH]; intros index ordered E Ho Hn; cbn in E.
  - injection E as <-. cbn. by rewrite Nat.add_0_r.
  - inv_bind E. apply parsePolicySet_Ok in Ha as [Hb Hid]. destruct (IH _ _ E) as (Hf & Hd & Hl).
    + apply Forall_app. by split; [|constructor].
    + rewrite fmap_app. apply NoDup_app. split_and!; [done| |apply NoDup_singleton].
      intros x Hx ->%list_elem_of_singleton. done.
    + split_and!; [done|done|]. rewrite Hl, length_app. cbn. lia.
Qed.

(** What the policy sets are. *)
Record sets_below (m : jsmap string CompiledNetworkPolicySet) (ordered : list CompiledNetworkPolicySet) : Prop := {
  sets_below_all : Forall (set_below domains ports denied) ordered;
  sets_unique : NoDup (ns_id <$> ordered);
  sets_count : 1 ≤ Z.of_nat (length ordered) ≤ MAX_PUBLIC_NETWORK_POLICY_SETS;
  sets_default : DEFAULT_NETWORK_POLICY_SET_ID ∈ ns_id <$> ordered;
  sets_map : m = ((λ set, (ns_id set, set)) <$> ordered);
}.

Lemma parsePolicySets_Ok `{TextConversions} environment m ordered :
  parsePolicySets environment domains ports denied = Ok (m, ordered) → sets_below m ordered.
Proof.
  unfold parsePolicySets. destruct (environment POLICY_SETS) as [raw|].
  - intros E. inv_bind E. match goal with H : context [if ?b then _ else _] |- _ => destruct b eqn:Ec; [done|] end.
    breflect. inv_bind E. destruct (parse_entries_Ok _ _ _ _ Ha0) as (Hf & Hn & Hl); [constructor|constructor|].
    destruct (includes _ _) eqn:Ei; [|done]. apply includes_elem in Ei. cbn [negb orb] in E.
    destruct (Nat.eqb _ 1); [|done]. injection E as <- <-. cbn [length Nat.add] in Hl.
    match goal with H : Nat.eqb _ _ = false |- _ => apply Nat.eqb_neq in H end.
    assert (Hfst : fst <$> ((λ set, (ns_id set, set)) <$> a0) = ns_id <$> a0) by (rewrite <-list_fmap_compose; done).
    constructor; [done|done|lia|done|]. unfold sets_by_id. apply map_view_unique. by rewrite Hfst.
  - intros E. inv_bind E. injection E as <- <-.
    destruct (compilePolicySet_Ok _ _ _ _ _ Ha) as (Hb & Hid & _); try done.
    constructor; cbn; [by apply Forall_singleton|apply NoDup_singleton| |rewrite Hid; by left|done].
    unfold MAX_PUBLIC_NETWORK_POLICY_SETS. lia.
Qed.
End sets.

(** ** The configuration *)

(** What a configuration that was loaded is. *)
Record config_ok `{NodeUrl} (sandboxMode : SandboxMode) (c : ManagedNetworkConfig) : Prop := {
  loaded_sets : sets_below (nc_allowedDomainPatterns c) (nc_allowedPorts c) (nc_deniedDomainPatterns c)
    (nc_policySets c) (nc_orderedPolicySets c);
  loaded_ceiling : compiled {| NetworkPolicy.allowedDomainPatterns := nc_allowedDomainPatterns c;
      NetworkPolicy.deniedDomainPatterns := nc_deniedDomainPatterns c; config_allowedPorts := Some (nc_allowedPorts c);
      allowedPortSet := None |} = Ok (nc_destinationPolicy c);
  loaded_mode : nc_mode c = EgressOptional → sandboxMode ≠ ModeDisabled ∧ nc_allowedDomainPatterns c ≠ [];
  loaded_helper : is_absolute (nc_helperPath c) = true;
  loaded_limits : Forall (λ n, 0 < n ∧ isSafeInteger n = true)
    [nc_maxConnections c; nc_connectTimeoutMs c; nc_idleTimeoutMs c; nc_maxConnectionBytes c];
}.

Section loading.
Context `{NodeUrl} `{TextConversions} (environment : environment_of) (cwd arch : string).

Lemma positiveSafeInteger_Ok variable fallback n : positiveSafeInteger environment variable fallback = Ok n →
  0 < fallback → isSafeInteger fallback = true → 0 < n ∧ isSafeInteger n = true.
Proof.
  unfold positiveSafeInteger. destruct (environment variable) as [raw|]; [|by intros [= <-]].
  destruct (number_of raw) as [value|]; [|done]. destruct (isSafeInteger value) eqn:Es; [|done]. cbn [negb orb].
  destruct (value <=? 0) eqn:Ev; [done|]. intros [= <-] _ _. apply Z.leb_gt in Ev. split; [lia|done].
Qed.

Lemma normalize_absolute p : is_absolute p = true → is_absolute (normalize p) = true.
Proof.
  intros Hp. unfold normalize. destruct (String.eqb p "") eqn:E; [apply String.eqb_eq in E; by subst|].
  destruct (normal_segments _ _); rewrite Hp; [done|apply is_absolute_sep].
Qed.

Lemma configuredHelperPath_Ok c a p : configuredHelperPath environment c a = Ok p → is_absolute p = true.
Proof.
  unfold configuredHelperPath. destruct (String.eqb _ ""); [done|]. cbn [orb].
  destruct (is_absolute _) eqn:E; [|done]. intros [= <-]. by apply normalize_absolute.
Qed.

Lemma load_Ok sandboxMode options c :
  loadManagedNetworkConfig environment cwd arch sandboxMode options = Ok c → config_ok sandboxMode c.
Proof.
  unfold loadManagedNetworkConfig. intros E. inv_bind E. injection E as <-.
  repeat match goal with Hx : throw_if _ _ = Ok _ |- _ => apply throw_if_Ok in Hx end.
  repeat match goal with Hx : positiveSafeInteger _ _ _ = Ok _ |- _ =>
    apply positiveSafeInteger_Ok in Hx; [|reflexivity|reflexivity] end.
  match goal with Hx : configuredHelperPath _ _ _ = Ok _ |- _ => apply configuredHelperPath_Ok in Hx end.
  match goal with Hx : parsePolicySets _ _ _ _ = Ok ?s |- _ => destruct s as [m ordered]; apply parsePolicySets_Ok in Hx end.
  constructor; cbn; [done|done| |done|by repeat (apply Forall_cons; split)].
  intros ->. rewrite !bool_decide_eq_true_2 in Ha0, Ha3 by done. cbn [andb] in Ha0, Ha3.
  apply bool_decide_eq_false in Ha0. split; [done|]. by intros ->.
Qed.
End loading.

(** C15: no policy set exceeds the ceiling. Whatever the environment holds, the
    sets of a configuration that loads, from one to their limit, have distinct
    identifiers, the default's among them, and are found under exactly these. And
    whatever host and port is asked for: if a set allows it the global policy
    allows it with the same decision; and if the global policy denies it
    explicitly, so does every set. *)
Theorem policy_sets_stay_below_ceiling `{NodeUrl} `{TextConversions} environment cwd arch sandboxMode options c :
  loadManagedNetworkConfig environment cwd arch sandboxMode options = Ok c →
  1 ≤ Z.of_nat (length (nc_orderedPolicySets c)) ≤ MAX_PUBLIC_NETWORK_POLICY_SETS ∧
  is_Some (map_get DEFAULT_NETWORK_POLICY_SET_ID (nc_policySets c)) ∧
  (∀ id set, map_get id (nc_policySets c) = Some set ↔ set ∈ nc_orderedPolicySets c ∧ ns_id set = id) ∧
  ∀ set input d, set ∈ nc_orderedPolicySets c →
    (decideDestination (ns_destinationPolicy set) input = Ok d → allowed d = true →
       decideDestination (nc_destinationPolicy c) input = Ok d) ∧
    (decideDestination (nc_destinationPolicy c) input = Ok d → reason d = ExplicitDeny →
       decideDestination (ns_destinationPolicy set) input = Ok d).
Proof.
  intros E. apply load_Ok in E. destruct E as [Hs Hc _ _ _].
  assert (Hfind : ∀ id set, map_get id (nc_policySets c) = Some set ↔ set ∈ nc_orderedPolicySets c ∧ ns_id set = id).
  { intros id set. rewrite (sets_map _ _ _ _ _ Hs), map_get_in, list_elem_of_fmap; [naive_solver|].
    unfold JsValues.map_ok, map_keys. rewrite <-list_fmap_compose. exact (sets_unique _ _ _ _ _ Hs). }
  split_and!; [apply Hs|apply Hs| |exact Hfind|].
  - pose proof (sets_default _ _ _ _ _ Hs) as (set & -> & Hin)%list_elem_of_fmap. exists set. by apply Hfind.
  - intros set input d Hset. pose proof (proj1 (Forall_forall _ _) (sets_below_all _ _ _ _ _ Hs) set Hset) as Hb.
    destruct (compile_inv _ _ _ _ Hc) as (Hcp & Hca & Hcd).
    destruct (compile_inv _ _ _ _ (below_compiled _ _ _ _ Hb)) as (Hsp & Hsa & Hsd).
    assert (Hdeny : compiled_denied (ns_destinationPolicy set) = compiled_denied (nc_destinationPolicy c)) by congruence.
    split; intros Hd Hr.
    + apply (fewer_grants (ns_destinationPolicy set)); try done.
      * intros port. rewrite Hsp, Hcp. apply Hb.
      * eapply unique_patterns_mono; [exact Hsa|exact Hca|]. apply Hb.
    + by apply (same_denials _ (nc_destinationPolicy c)).
Qed.

(** ** Errors *)

(** Patterns are normalized once: a normalized pattern is its own normal form. *)
Definition pattern_char (a : ascii) : bool := name_char a || address_char a.

Lemma pattern_char_facts a : pattern_char a = true →
  is_space a = false ∧ Ascii.eqb a "["%char = false ∧ Ascii.eqb a "]"%char = false ∧ Ascii.eqb a star = false.
Proof.
  intros Ha.
  assert (H : negb (pattern_char a) || (negb (is_space a) && negb (Ascii.eqb a "["%char) && negb (Ascii.eqb a "]"%char)
    && negb (Ascii.eqb a star)) = true) by (clear Ha; revert a; apply ascii_cases; by vm_compute).
  rewrite Ha in H. cbn [negb orb] in H. breflect. by split_and!.
Qed.

Lemma address_text_chars bs : address_bytes bs →
  str_all pattern_char (address (parsed_of bs)) = true ∧ address (parsed_of bs) ≠ "".
Proof.
  intros [Hb [Hl|Hl]]; unfold parsed_of; rewrite Hl; cbn [Nat.eqb address];
    [destruct (formatIpv4_chars bs Hb Hl) as [Hc Hn]|destruct (formatIpv6_chars bs Hb Hl) as [Hc Hn]];
    (split; [|done]); (eapply str_all_impl; [|exact Hc]); intros a Ha; unfold pattern_char, address_char, is_hex in *;
    rewrite !orb_true_iff in *; naive_solver.
Qed.

Section errors.
Context `{NodeUrlLaws}.

Lemma host_chars input h : normalizeDestinationHost input = Ok h →
  str_all pattern_char (nh_host h) = true ∧ nh_host h ≠ "".
Proof.
  intros Hh. apply normalize_inv in Hh. destruct Hh as [s p a _ Hp Ha|s t name Ht Hl Hv Hn]; cbn.
  - destruct (parseIpAddress_inv s p Hp) as [Hb ->]. by apply address_text_chars.
  - destruct (validateAsciiDomain_Ok _ Hv) as (Hlen & _ & Hc). split.
    + eapply str_all_impl; [|exact Hc]. intros x Hx. unfold pattern_char. by rewrite Hx.
    + intros ->. unfold strlen in Hlen. cbn in Hlen. lia.
Qed.

Lemma classified_total p s : parseIpAddress s = Some p → ∃ a, classified_address p = Ok a.
Proof.
  intros Hp. destruct (parseIpAddress_inv s p Hp) as [Hb E].
  unfold classified_address, classifyParsedAddress. rewrite E, category_of_parsed by done. cbn. by eexists.
Qed.

Definition policy_only {A} (r : result policy_thrown A) : Prop :=
  match r with Err (OtherError _) => False | _ => True end.

Lemma normalize_host_errors input : policy_only (normalizeDestinationHost input).
Proof.
  unfold normalizeDestinationHost. destruct (String.eqb _ _); [done|]. destruct (_ || _).
  - unfold normalize_bracketed. destruct (negb _); [done|]. destruct (negb _); [done|].
    destruct (parseIpAddress _) as [p|] eqn:Ep; [|done]. destruct (negb _); [done|].
    by destruct (classified_total _ _ Ep) as [a ->].
  - destruct (parseIpAddress _) as [p|] eqn:Ep; [by destruct (classified_total _ _ Ep) as [a ->]|].
    unfold normalize_domain. destruct (negb _); [done|]. destruct (_ || _); [done|].
    destruct (isAmbiguousNumericHost _); [done|]. destruct (domainToASCII _) as [t|]; [|done].
    unfold validateAsciiDomain. destruct (_ || _); [done|]. destruct (forallb _ _); [|done]. cbn.
    by destruct (isAmbiguousNumericHost _).
Qed.

Lemma normalize_pattern_errors input : policy_only (normalizeDestinationPattern input).
Proof.
  unfold normalizeDestinationPattern. destruct (String.eqb _ "*"); [done|]. destruct (_ || _); [done|].
  destruct (cut_wildcard _) as [prefix value]. destruct (has_char _ _); [done|].
  pose proof (normalize_host_errors value) as He. destruct (normalizeDestinationHost value) as [h|[]]; [|done|done].
  by destruct (_ && _).
Qed.

(** The three shapes of a normalized pattern. *)
Lemma pattern_shape input p : normalizeDestinationPattern input = Ok p →
  p = "*" ∨ ∃ prefix value h, p = prefix +:+ nh_host h ∧ normalizeDestinationHost value = Ok h ∧
    (prefix = "" ∨ (prefix = "*." ∨ prefix = "**.") ∧ nh_kind h ≠ KindIp).
Proof.
  unfold normalizeDestinationPattern. destruct (String.eqb (trim input) "*") eqn:Es.
  { apply String.eqb_eq in Es. intros [= <-]. by left. }
  destruct (_ || _); [done|]. unfold cut_wildcard.
  assert (Hg : ∀ prefix value, (prefix = "" ∨ prefix = "*." ∨ prefix = "**.") →
    (if has_char star value then invalidPattern else
     match normalizeDestinationHost value with
     | Err (DestinationPolicyError _ _) => invalidPattern
     | Err e => Err e
     | Ok normalized =>
         if negb (String.eqb prefix "") && bool_decide (nh_kind normalized = KindIp)
         then Err (DestinationPolicyError InvalidPattern "IP literals cannot use wildcard patterns")
         else Ok (prefix +:+ nh_host normalized)
     end) = Ok p → ∃ prefix value h, p = prefix +:+ nh_host h ∧ normalizeDestinationHost value = Ok h ∧
    (prefix = "" ∨ (prefix = "*." ∨ prefix = "**.") ∧ nh_kind h ≠ KindIp)).
  { intros prefix value Hp. destruct (has_char _ _); [done|].
    destruct (normalizeDestinationHost value) as [h|[]] eqn:Eh; [|done|done].
    destruct (negb _ && _) eqn:Ek; [done|]. intros [= <-]. exists prefix, value, h. split; [done|]. split; [done|].
    destruct Hp as [->|Hp]; [by left|]. right. split; [done|]. intros E. rewrite E in Ek.
    by destruct Hp as [->| ->]. }
  destruct (starts_with "**." _); [intros E; right; by apply (Hg "**." (drop_str 3 (trim input))); auto|].
  destruct (starts_with "*." _); intros E; right; [by apply (Hg "*." (drop_str 2 (trim input))); auto|].
  by apply (Hg "" (trim input)); auto.
Qed.

Lemma wildcard_guards s : str_all (λ a, pattern_char a || Ascii.eqb a star) s = true → s ≠ "" →
  trim s = s ∧ String.eqb s "" || has_char "["%char s || has_char "]"%char s = false.
Proof.
  intros Hs Hne.
  assert (Hq : ∀ a, pattern_char a || Ascii.eqb a star = true →
    is_space a = false ∧ Ascii.eqb a "["%char = false ∧ Ascii.eqb a "]"%char = false).
  { intros a [Ha|Ha%Ascii.eqb_eq]%orb_true_iff; [by destruct (pattern_char_facts a Ha) as (? & ? & ? & _)|by subst]. }
  split.
  - apply trim_no_space. eapply str_all_impl; [|exact Hs]. intros a Ha. by destruct (Hq a Ha) as [-> _].
  - rewrite (proj2 (String.eqb_neq s "") Hne). cbn [orb]. unfold has_char. apply orb_false_iff.
    split; apply negb_false_iff; (eapply str_all_impl; [|exact Hs]); intros a Ha; destruct (Hq a Ha) as (_ & H1 & H2);
      by rewrite ?H1, ?H2.
Qed.

Lemma starless s : str_all pattern_char s = true →
  has_char star s = false ∧ starts_with "**." s = false ∧ starts_with "*." s = false.
Proof.
  intros Hs. split.
  - unfold has_char. apply negb_false_iff. eapply str_all_impl; [|exact Hs]. intros a Ha.
    by destruct (pattern_char_facts a Ha) as (_ & _ & _ & ->).
  - destruct s as [|a s]; [done|]. cbn in Hs. apply andb_true_iff in Hs as [Ha _].
    destruct (pattern_char_facts a Ha) as (_ & _ & _ & Hx). unfold starts_with. cbn [String.prefix].
    destruct (ascii_dec "*"%char a) as [<-|]; [by rewrite Ascii.eqb_refl in Hx|done].
Qed.

(** A normalized pattern is its own normal form, and compiles. *)
Lemma pattern_idemp input p : normalizeDestinationPattern input = Ok p →
  normalizeDestinationPattern p = Ok p ∧ ∃ c, compilePattern p = Ok c.
Proof.
  intros [->|(prefix & value & h & -> & Hh & Hp)]%pattern_shape; [split; [done|by eexists]|].
  destruct (host_chars _ _ Hh) as [Hc Hne]. destruct (starless _ Hc) as (Hs & H2 & H1). apply normalize_idemp in Hh.
  assert (Hstar : String.eqb (prefix +:+ nh_host h) "*" = false).
  { apply String.eqb_neq. intros E. destruct Hp as [->|[[->| ->] _]]; [|done|done].
    cbn in E. by rewrite E in Hs. }
  assert (Hg : trim (prefix +:+ nh_host h) = prefix +:+ nh_host h ∧
    String.eqb (prefix +:+ nh_host h) "" || has_char "["%char (prefix +:+ nh_host h) || has_char "]"%char (prefix +:+ nh_host h) = false).
  { apply wildcard_guards.
    - rewrite str_all_app, andb_true_iff. split; [by destruct Hp as [->|[[->| ->] _]]|].
      eapply str_all_impl; [|exact Hc]. by intros a ->.
    - destruct Hp as [->|[[->| ->] _]]; done. }
  destruct Hg as [Ht Hg].
  assert (Hcut : cut_wildcard (prefix +:+ nh_host h) = (prefix, nh_host h)).
  { unfold cut_wildcard. destruct Hp as [->|[[->| ->] _]].
    - cbn [String.append]. by rewrite H2, H1.
    - change ("*." +:+ nh_host h) with (String star (String dot (nh_host h))). cbn. by destruct (nh_host h).
    - change ("**." +:+ nh_host h) with (String star (String star (String dot (nh_host h)))). cbn. by destruct (nh_host h). }
  split.
  - unfold normalizeDestinationPattern. rewrite Ht, Hstar, Hg, Hcut, Hs, Hh.
    destruct Hp as [->|[Hp Hk]]; [done|]. rewrite (bool_decide_eq_false_2 _ Hk), andb_false_r. done.
  - unfold compilePattern. rewrite Hstar. unfold cut_wildcard in Hcut.
    destruct (starts_with "**." (prefix +:+ nh_host h)); [pose proof (f_equal snd Hcut) as E; cbn [snd] in E; rewrite E, Hh; by eexists|].
    destruct (starts_with "*." (prefix +:+ nh_host h)); [pose proof (f_equal snd Hcut) as E; cbn [snd] in E; rewrite E, Hh; by eexists|].
    pose proof (f_equal snd Hcut) as E. cbn [snd] in E. rewrite E, Hh. by eexists.
Qed.

Definition normal_pattern (p : string) : Prop := normalizeDestinationPattern p = Ok p ∧ ∃ c, compilePattern p = Ok c.

Lemma unique_patterns_normal ps : Forall normal_pattern ps → NoDup ps → ∃ cs, normalizedUniquePatterns ps = Ok cs.
Proof.
  intros Hp Hn. unfold normalizedUniquePatterns.
  assert (E : NetworkPolicy.map_ok normalizeDestinationPattern ps = Ok ps).
  { clear Hn. induction Hp as [|p ps [Hn _] _ IH]; [done|]. cbn. by rewrite Hn, IH. }
  rewrite E. cbn. rewrite bool_decide_true by done. clear E Hn.
  induction Hp as [|p ps [_ [c Hc]] _ [cs IH]]; [by eexists|]. cbn. rewrite Hc, IH. by eexists.
Qed.

Lemma compiled_normal allow deny ports :
  Forall normal_pattern allow → NoDup allow → Forall normal_pattern deny → NoDup deny →
  Forall (λ p, valid_port p = true) ports → NoDup ports →
  ∃ policy, compiled {| NetworkPolicy.allowedDomainPatterns := allow; NetworkPolicy.deniedDomainPatterns := deny;
              config_allowedPorts := Some ports; allowedPortSet := None |} = Ok policy.
Proof.
  intros Ha Hna Hd Hnd Hp Hnp. unfold compiled, compileDestinationPolicy.
  cbn [allowedPortSet config_allowedPorts default NetworkPolicy.allowedDomainPatterns NetworkPolicy.deniedDomainPatterns id].
  rewrite (bool_decide_true (NoDup ports)) by done. rewrite andb_false_r.
  assert (E : forallb valid_port (set_view ports) = true).
  { apply forallb_forall. intros p Hin%list_elem_of_In. rewrite set_view_elements in Hin.
    by apply (proj1 (Forall_forall _ _) Hp). }
  rewrite E. cbn [negb]. destruct (unique_patterns_normal _ Ha Hna) as [cs ->]. destruct (unique_patterns_normal _ Hd Hnd) as [ds ->].
  by eexists.
Qed.

(** A step that only fails for the configuration's own fault. *)
Definition fails_well {A} (r : result config_thrown A) (Q : A → Prop) : Prop :=
  match r with Ok a => Q a | Err (ConfigurationError _) => True | Err (OtherConfigError _) => False end.

Lemma fails_well_bind {A B} (r : result config_thrown A) (f : A → result config_thrown B) P Q :
  fails_well r P → (∀ a, P a → fails_well (f a) Q) → fails_well (r ≫= f) Q.
Proof. destruct r as [a|[]]; cbn; auto. Qed.

Lemma fails_well_throw_if (b : bool) message : fails_well (throw_if b (ConfigurationError message)) (λ _, b = false).
Proof. by destruct b. Qed.

Lemma map_throwing_fails {A B} (f : A → result config_thrown B) P xs :
  (∀ x, fails_well (f x) P) → fails_well (map_throwing f xs) (Forall P).
Proof.
  intros Hf. induction xs as [|x xs IH]; cbn; [constructor|]. eapply fails_well_bind; [apply Hf|]. intros y Hy.
  eapply fails_well_bind; [exact IH|]. intros ys Hys. by constructor.
Qed.

Lemma configured_pattern_fails input : fails_well (normalizeConfiguredDomainPattern input) normal_pattern.
Proof.
  unfold normalizeConfiguredDomainPattern. pose proof (normalize_pattern_errors input) as He.
  destruct (normalizeDestinationPattern input) as [p|[]] eqn:E; [by eapply pattern_idemp|done|done].
Qed.

Definition normal_patterns (ps : list string) : Prop := Forall normal_pattern ps ∧ NoDup ps.
Definition normal_ports (ps : list Z) : Prop := Forall (λ p, valid_port p = true) ps ∧ NoDup ps.

Lemma all_ports_valid items ps : all_ports items = Some ps → Forall (λ p, valid_port p = true) ps.
Proof.
  revert ps. induction items as [|v items IH]; cbn; intros ps; [intros [= <-]; constructor|].
  unfold valid_port_value. destruct v as [| |[z|]| | |]; try done. destruct (valid_port z) eqn:Ev; [|done].
  destruct (all_ports items) as [zs|]; [|done]. intros [= <-]. constructor; [done|by apply IH].
Qed.

Lemma parsePortValues_fails values variable : fails_well (parsePortValues values variable) normal_ports.
Proof.
  unfold parsePortValues. destruct (all_ports values) as [ps|] eqn:E; [|done]. case_bool_decide as Hn; [|done].
  split; [by eapply all_ports_valid|done].
Qed.

Lemma set_domains_fails index domains value : fails_well (set_domains index domains value) normal_patterns.
Proof.
  unfold set_domains. destruct value as [[| | | |[|i items]|]|]; try done. destruct (all_strings _) as [entries|]; [|done].
  eapply fails_well_bind; [apply (map_throwing_fails _ normal_pattern)|].
  - intros x. unfold set_pattern. pose proof (configured_pattern_fails x) as Hx.
    by destruct (normalizeConfiguredDomainPattern x).
  - intros ds Hd. case_bool_decide as Hn; [|done]. by destruct (forallb _ _).
Qed.

Lemma set_ports_fails index ports value : fails_well (set_ports index ports value) normal_ports.
Proof.
  unfold set_ports. destruct value as [[| | | |[|i items]|]|]; try done.
  eapply fails_well_bind; [apply parsePortValues_fails|]. intros ps Hp. by destruct (forallb _ _).
Qed.

Lemma compilePolicySet_fails id label ds ps denied :
  normal_patterns ds → normal_ports ps → normal_patterns denied →
  fails_well (compilePolicySet id label ds ps denied) (λ _, True).
Proof.
  intros [Hd Hnd] [Hp Hnp] [Hx Hnx]. unfold compilePolicySet.
  by destruct (compiled_normal ds denied ps) as [policy ->].
Qed.

Lemma parsePolicySet_fails domains ports denied index ids value : normal_patterns denied →
  fails_well (parsePolicySet domains ports denied index ids value) (λ _, True).
Proof.
  intros Hdenied. unfold parsePolicySet. destruct value as [| | | | |object]; try done. destruct (_ || _); [done|].
  destruct (json_get "id" object) as [[| | |id| |]|]; try done.
  destruct (negb _); [done|]. destruct (includes id ids); [done|].
  destruct (json_get "label" object) as [[| | |label| |]|]; try done. destruct (negb _); [done|].
  eapply fails_well_bind; [apply set_domains_fails|]. intros ds Hd.
  eapply fails_well_bind; [apply set_ports_fails|]. intros ps Hp. by apply compilePolicySet_fails.
Qed.

Lemma parse_entries_fails domains ports denied index ordered values : normal_patterns denied →
  fails_well (parse_entries domains ports denied index ordered values) (λ _, True).
Proof.
  intros Hd. revert index ordered. induction values as [|v values IH]; intros index ordered; cbn; [done|].
  eapply fails_well_bind; [by apply parsePolicySet_fails|]. intros set _. apply IH.
Qed.

Section loading.
Context `{TextConversions} (environment : environment_of) (cwd arch : string).

Lemma parseJsonArray_fails variable fallback : fails_well (parseJsonArray environment variable fallback) (λ _, True).
Proof.
  unfold parseJsonArray. destruct (environment variable) as [raw|]; [|done]. destruct (String.eqb _ _); [done|].
  by destruct (json_parse raw) as [[]|].
Qed.

Lemma parseDomainPatterns_fails variable : fails_well (parseDomainPatterns environment variable) normal_patterns.
Proof.
  unfold parseDomainPatterns. eapply fails_well_bind; [apply parseJsonArray_fails|]. intros values _.
  destruct (all_strings values) as [entries|]; [|done].
  eapply fails_well_bind; [apply (map_throwing_fails _ normal_pattern)|].
  - intros x. unfold configured_pattern. pose proof (configured_pattern_fails x) as Hx.
    by destruct (normalizeConfiguredDomainPattern x) as [|[]].
  - intros ds Hd. by case_bool_decide.
Qed.

Lemma parsePorts_fails : fails_well (parsePorts environment) normal_ports.
Proof.
  unfold parsePorts. eapply fails_well_bind; [apply parseJsonArray_fails|]. intros values _. apply parsePortValues_fails.
Qed.

Lemma parsePolicySets_fails domains ports denied : normal_patterns domains → normal_ports ports → normal_patterns denied →
  fails_well (parsePolicySets environment domains ports denied) (λ _, True).
Proof.
  intros Hd Hp Hx. unfold parsePolicySets. destruct (environment POLICY_SETS) as [raw|].
  - eapply fails_well_bind; [apply parseJsonArray_fails|]. intros values _. destruct (_ || _); [done|].
    eapply fails_well_bind; [by apply parse_entries_fails|]. intros ordered _. by destruct (_ || _).
  - eapply fails_well_bind; [by apply compilePolicySet_fails|]. done.
Qed.

Lemma positiveSafeInteger_fails variable fallback : fails_well (positiveSafeInteger environment variable fallback) (λ _, True).
Proof.
  unfold positiveSafeInteger. destruct (environment variable) as [raw|]; [|done].
  destruct (number_of raw); [by destruct (_ || _)|done].
Qed.

(** The patterns and ports of the ceiling. *)
Definition normal_ceiling (c : ManagedNetworkConfig) : Prop :=
  normal_patterns (nc_allowedDomainPatterns c) ∧ normal_patterns (nc_deniedDomainPatterns c) ∧ normal_ports (nc_allowedPorts c).

Lemma load_fails sandboxMode options :
  fails_well (loadManagedNetworkConfig environment cwd arch sandboxMode options) normal_ceiling.
Proof.
  unfold loadManagedNetworkConfig.
  eapply (fails_well_bind _ _ (λ _, True)).
  { unfold parseMode. destruct (environment _); [|done]. do 2 (destruct (String.eqb _ _); [done|]). done. }
  intros mode _. eapply fails_well_bind; [apply fails_well_throw_if|]. intros _ _.
  eapply fails_well_bind; [apply parseDomainPatterns_fails|]. intros allow Ha.
  eapply fails_well_bind; [apply parseDomainPatterns_fails|]. intros deny Hd.
  eapply fails_well_bind; [apply fails_well_throw_if|]. intros _ _.
  eapply fails_well_bind; [apply parsePorts_fails|]. intros ports Hp.
  eapply fails_well_bind; [by apply parsePolicySets_fails|]. intros sets _. cbv zeta.
  eapply (fails_well_bind _ _ (λ _, True)); [unfold configuredHelperPath; by destruct (_ || _)|]. intros helper _.
  destruct (compiled_normal allow deny ports) as [policy ->]; [apply Ha|apply Ha|apply Hd|apply Hd|apply Hp|apply Hp|]. cbn [mbind result_bind].
  do 4 (eapply fails_well_bind; [apply positiveSafeInteger_fails|]; intros ? _). by split_and!.
Qed.
End loading.
End errors.

(** C16: loading fails only for the configuration's fault, and what loads can be
    used. Whatever the environment holds, loading either throws a
    ConfigurationError, never the error of the policy or another one, or yields
    a configuration whose patterns are normal and distinct, whose ports are valid
    and distinct, whose sets have valid identifiers and labels and grant only
    patterns and ports of the ceiling, whose helper path is absolute, and with
    whose limits a connection limit and the relays of a proxy under any of its
    sets start. Managed egress is optional only where a sandbox is and something
    is allowed; that is what the public configuration offers, with every set and
    no other. *)
Theorem configuration_loads_or_is_rejected `{NodeUrlLaws} `{TextConversions} environment cwd arch sandboxMode options :
  match loadManagedNetworkConfig environment cwd arch sandboxMode options with
  | Err e => ∃ message, e = ConfigurationError message
  | Ok c =>
      normal_ceiling c ∧
      (∀ set, set ∈ nc_orderedPolicySets c →
         validPolicySetId (ns_id set) = true ∧ valid_label_text (ns_label set) = true ∧
         (∀ p, p ∈ ns_allowedDomainPatterns set → p ∈ nc_allowedDomainPatterns c) ∧
         (∀ p, p ∈ ns_allowedPorts set → p ∈ nc_allowedPorts c)) ∧
      is_absolute (nc_helperPath c) = true ∧
      is_Some (newConnectionAdmission (nc_maxConnections c)) ∧
      (∀ set, limits_ok {| so_policy := ns_destinationPolicy set; so_connectTimeoutMs := nc_connectTimeoutMs c;
         so_limits := {| maxConnections := nc_maxConnections c; idleTimeoutMs := nc_idleTimeoutMs c;
                         maxConnectionBytes := nc_maxConnectionBytes c |} |}) ∧
      (ManagedEgress ∈ pe_selectablePolicies (publicManagedEgressConfig c false) →
         sandboxMode ≠ ModeDisabled ∧ nc_allowedDomainPatterns c ≠ []) ∧
      (pn_id <$> pe_policySets (publicManagedEgressConfig c false)) = (ns_id <$> nc_orderedPolicySets c)
  end.
Proof.
  pose proof (load_fails environment cwd arch sandboxMode options) as Hf.
  destruct (loadManagedNetworkConfig _ _ _ _ _) as [c|[message|e]] eqn:E; [|by eexists|done].
  apply load_Ok in E. destruct E as [Hs _ Hm Hh Hl]. cbn [fails_well] in Hf.
  rewrite !Forall_cons in Hl. destruct Hl as ([L1 L1'] & [L2 L2'] & [L3 L3'] & [L4 L4'] & _).
  split_and!; [done| |done| | | |].
  - intros set Hset. destruct (proj1 (Forall_forall _ _) (sets_below_all _ _ _ _ _ Hs) set Hset). done.
  - unfold newConnectionAdmission, positive_safe. rewrite L1'. replace (0 <? _) with true by lia. by eexists.
  - intros set. unfold limits_ok, positive_safe. cbn. rewrite L3', L4'. split; apply andb_true_iff; split; (done || lia).
  - cbn. case_bool_decide as E; [intros _; by apply Hm|]. intros Hx%list_elem_of_singleton. done.
  - cbn. by rewrite <-list_fmap_compose.
Qed.

(** ** A configuration *)

(** An environment with a ceiling and two sets, and what its texts mean. *)
Definition sample_domains : string := "[domains]".
Definition sample_sets : string := "[sets]".
Definition sample_set (id label : string) (domains : list string) : json :=
  JsonObject [("id", JsonString id); ("label", JsonString label); ("allowedDomains", JsonArray (JsonString <$> domains));
              ("allowedPorts", JsonArray [JsonNumber (JInt 443)])].
#[local] Instance sample_conversions : TextConversions := {|
  json_parse s :=
    if String.eqb s sample_domains then Some (JsonArray (JsonString <$> ["**.Example.com"; "api.other.org"]))
    else if String.eqb s sample_sets
    then Some (JsonArray [sample_set "default" "Default" ["**.example.com"]; sample_set "api" "Api only" ["API.other.org."]])
    else None;
  number_of s := if str_all is_digit s then JInt (number_from 0 s) else JOther;
|}.
Definition sample_environment : environment_of := λ variable,
  if String.eqb variable "CHATWCA_MANAGED_EGRESS_MODE" then Some "optional"
  else if String.eqb variable "CHATWCA_NETWORK_ALLOWED_DOMAINS" then Some sample_domains
  else if String.eqb variable POLICY_SETS then Some sample_sets
  else if String.eqb variable "CHATWCA_NETWORK_MAX_CONNECTIONS" then Some "8"
  else None.
Definition sample_options : ManagedNetworkConfigOptions := {| no_processCwd := None; no_processArch := None |}.
Definition sample_load : result config_thrown ManagedNetworkConfig :=
  loadManagedNetworkConfig sample_environment "/srv/app" "x64" ModeRequired sample_options.
Definition sample_input : DestinationPolicyInput := {| in_host := "Api.Other.ORG"; in_port := JInt 443 |}.

Lemma policy_sets_stay_below_ceiling_witness :
  match sample_load with
  | Err _ => False
  | Ok c => nc_helperPath c = "/srv/app/dist/native/x64/chatwca-network-helper" ∧
      (ns_id <$> nc_orderedPolicySets c) = ["default"; "api"] ∧
      ∃ set d, map_get "api" (nc_policySets c) = Some set ∧
        decideDestination (ns_destinationPolicy set) sample_input = Ok d ∧ allowed d = true ∧
        decideDestination (nc_destinationPolicy c) sample_input = Ok d
  end.
Proof.
  destruct sample_load as [c|e] eqn:E; [|vm_compute in E; discriminate E].
  destruct (policy_sets_stay_below_ceiling _ _ _ _ _ _ E) as (_ & _ & Hfind & Hsets).
  vm_compute in E. injection E as <-. split; [reflexivity|]. split; [reflexivity|].
  eexists _, _. split; [reflexivity|]. split; [vm_compute; reflexivity|]. split; [reflexivity|].
  refine (proj1 (Hsets _ sample_input _ _) _ _); [right; left|vm_compute; reflexivity|reflexivity].
Defined.

Lemma configuration_loads_or_is_rejected_witness :
  match sample_load with
  | Err _ => False
  | Ok c => nc_maxConnections c = 8 ∧ nc_allowedDomainPatterns c = ["**.example.com"; "api.other.org"] ∧
      is_absolute (nc_helperPath c) = true
  end.
Proof.
  pose proof (configuration_loads_or_is_rejected sample_environment "/srv/app" "x64" ModeRequired sample_options) as H.
  fold sample_load in H. destruct sample_load as [c|e] eqn:E; [|vm_compute in E; discriminate E].
  destruct H as (_ & _ & Hh & _). vm_compute in E. injection E as <-.
  split; [reflexivity|]. split; [reflexivity|exact Hh].
Defined.
