(* ===== verification/HttpProxy.v ===== *)
(** The HTTP proxy of managed egress ([src/server/network/http-proxy.ts]): how a
    request is read, what of it is forwarded, and the steps of its three kinds
    of request up to the stream that is forwarded or tunnelled. *)
From S2P Require Import Prelude JsValues Texts Errors Programs Addresses NetworkPolicy.
From S2P Require Import Resolver Connections EgressAudit Socks5.
#[local] Open Scope string_scope. #[local] Open Scope Z_scope.
#[local] Arguments String.append : simpl nomatch.

(** ** Texts *)

(** [s.indexOf(c)] and [s.lastIndexOf(c)] of a character; [None] is [-1]. *)
Fixpoint index_of (c : ascii) (s : string) : option nat :=
  match s with
  | EmptyString => None
  | String a r => if Ascii.eqb a c then Some 0%nat else S <$> index_of c r
  end.
Fixpoint last_index_of (c : ascii) (s : string) : option nat :=
  match s with
  | EmptyString => None
  | String a r =>
      match last_index_of c r with
      | Some i => Some (S i)
      | None => if Ascii.eqb a c then Some 0%nat else None
      end
  end.
(** [s.slice(0, n)] *)
Fixpoint take_str (n : nat) (s : string) : string :=
  match n, s with
  | S n, String a r => String a (take_str n r)
  | _, _ => ""
  end.
(** The part of a text before the first character of a class. *)
Fixpoint take_until (p : ascii → bool) (s : string) : string :=
  match s with
  | EmptyString => ""
  | String a r => if p a then "" else String a (take_until p r)
  end.
Definition char_in (chars : list ascii) (a : ascii) : bool := existsb (Ascii.eqb a) chars.

(** [/[\u0000-\u0020\u007f]/] *)
Definition blank_or_control (a : ascii) : bool := (unit_code a <=? 32) || (unit_code a =? 127).
(** [/[\u0000-\u001f\u007f]/] *)
Definition control_char (a : ascii) : bool := (unit_code a <=? 31) || (unit_code a =? 127).
(** The class of tokens, in lower case. *)
Definition token_char (a : ascii) : bool :=
  is_lower_alnum a
  || char_in ["!"; "#"; "$"; "%"; "&"; "'"; "*"; "+"; "."; "^"; "_"; "`"; "|"; "~"; "-"]%char a.
Definition is_upper (a : ascii) : bool := let c := unit_code a in (65 <=? c) && (c <=? 90).
Definition header_token (s : string) : bool := negb (String.eqb s "") && str_all (λ a, token_char a || is_upper a) s.

(** ** Data *)

(** src/server/network/http-proxy.ts:32-32 MAX_HTTP_HEADER_BYTES *)
Definition MAX_HTTP_HEADER_BYTES : Z := 32 * 1024.
(** src/server/network/http-proxy.ts:33-36 HOP_BY_HOP *)
Definition HOP_BY_HOP : list string :=
  ["connection"; "keep-alive"; "proxy-authenticate"; "proxy-authorization";
   "proxy-connection"; "te"; "trailer"; "transfer-encoding"; "upgrade"].

(** src/server/network/http-proxy.ts:38-42 HttpPolicyProxyOptions *)
Record HttpPolicyProxyOptions := {
  ho_policy : CompiledDestinationPolicy;
  ho_limits : ConnectionLimits;
  ho_connectTimeoutMs : Z;
}.

(** src/server/network/http-proxy.ts:44-48 Destination *)
Record Destination := { ds_host : NormalizedDestinationHost; ds_port : Z; ds_authority : string }.

(** What the parser of Node hands over: [rawHeaders] two by two. *)
Record IncomingMessage := { im_method : string; im_url : option string; im_rawHeaders : list (string * string) }.

(** [new URL(text)], [None] where it throws, and the parts that are read. *)
Record Url := {
  url_protocol : string; url_username : string; url_password : string; url_hostname : string;
  url_host : string; url_pathname : string; url_search : string;
}.
Class UrlParser := new_url : string → option Url.

Notation header_map := (jsmap string (list string)).

(** ** Authorities; [None] where the functions throw *)

(** src/server/network/http-proxy.ts:50-53 authorityFor *)
Definition authorityFor (host : NormalizedDestinationHost) (port : Z) (defaultPort : option Z) : string :=
  let rendered := if bool_decide (nh_family host = Some V6) then "[" +:+ nh_host host +:+ "]" else nh_host host in
  if bool_decide (defaultPort = Some port) then rendered else rendered +:+ ":" +:+ pretty port.

(** [/^(?:[1-9][0-9]{0,4})$/] *)
(** src/server/network/http-proxy.ts:60-60 portPattern *)
Definition port_matches (raw : string) : bool :=
  match raw with
  | EmptyString => false
  | String a r => is_digit a && negb (Ascii.eqb a "0"%char) && str_all is_digit r && (strlen r <=? 4)
  end.

(** src/server/network/http-proxy.ts:55-64 parsePort *)
Definition parsePort (raw : string) (fallback : option Z) : option Z :=
  if String.eqb raw "" then fallback
  else if negb (port_matches raw) then None
  else
    let port := number_from 0 raw in
    if (port <? 1) || (65535 <? port) then None else Some port.

(** The characters that no authority has. *)
(** src/server/network/http-proxy.ts:67-67 authorityCharacters *)
Definition authority_forbidden (a : ascii) : bool := blank_or_control a || char_in ["/"; "@"; "?"; "#"; "\"]%char a.

(** The host, the port and whether that was there. *)
(** src/server/network/http-proxy.ts:70-89 splitAuthority *)
Definition split_authority (raw : string) : option (string * string * bool) :=
  if starts_with "[" raw then
    match index_of "]"%char raw with
    | None => None
    | Some end_ =>
        let last := Nat.eqb end_ (String.length raw - 1) in
        if Nat.leb end_ 1 || (negb (bool_decide (String.get (end_ + 1) raw = Some colon)) && negb last) then None
        else Some (take_str (end_ + 1) raw, if last then "" else drop_str (end_ + 2) raw, negb last)
    end
  else
    match last_index_of colon raw with
    | Some i =>
        if negb (bool_decide (index_of colon raw = Some i)) then None
        else Some (take_str i raw, drop_str (i + 1) raw, true)
    | None => Some (raw, "", false)
    end.

Section authority.
Context `{NodeUrl}.

(** src/server/network/http-proxy.ts:66-93 parseAuthority *)
Definition parseAuthority (raw : string) (fallbackPort : option Z) : option Destination :=
  if (strlen raw =? 0) || (512 <? strlen raw) || negb (String.eqb (trim raw) raw)
     || negb (str_all (λ a, negb (authority_forbidden a)) raw)
  then None
  else
    '(hostRaw, portRaw, explicitPort) ← split_authority raw;
    match normalizeDestinationHost hostRaw with
    | Err _ => None
    | Ok host =>
        port ← parsePort portRaw (if (explicitPort : bool) then None else fallbackPort);
        Some {| ds_host := host; ds_port := port; ds_authority := authorityFor host port fallbackPort |}
    end.
End authority.

(** ** Headers *)

(** src/server/network/http-proxy.ts:95-104 rawHeaderMap *)
Definition rawHeaderMap (request : IncomingMessage) : header_map :=
  fold_left (λ result '(name, value),
    let name := toLowerCase name in
    map_set name (default [] (map_get name result) ++ [value])%list result) (im_rawHeaders request) [].

(** [headers.get(name)?.[0]] *)
Definition first_value (name : string) (headers : header_map) : option string := map_get name headers ≫= head.

(** One part of the Connection header. *)
(** src/server/network/http-proxy.ts:173-175 token *)
Definition connection_token (raw : string) : option string :=
  let token := toLowerCase (trim raw) in
  if negb (String.eqb token "") && str_all token_char token then Some token else None.

(** The Set is a list of its elements. *)
(** src/server/network/http-proxy.ts:168-178 connectionTokens *)
Definition connectionTokens (headers : header_map) : option (list string) :=
  match first_value "connection" headers with
  | None => Some []
  | Some value => mapM connection_token (split ","%char value)
  end.

(** src/server/network/http-proxy.ts:111-111 criticalHeaders *)
Definition critical_headers : list string := ["host"; "content-length"; "transfer-encoding"; "connection"; "upgrade"; "expect"].

(** A numeral without leading zeros, of a safe number. *)
(** src/server/network/http-proxy.ts:118-119 contentLength *)
Definition valid_content_length (text : string) : bool :=
  match text with
  | EmptyString => false
  | String a r => String.eqb text "0" || (negb (Ascii.eqb a "0"%char) && str_all is_digit text)
  end && isSafeInteger (number_from 0 text).

(** src/server/network/http-proxy.ts:115-120 framing *)
Definition valid_framing (contentLength transferEncoding : option string) : bool :=
  match contentLength, transferEncoding with
  | Some _, Some _ => false
  | Some n, None => valid_content_length (trim n)
  | None, Some t => String.eqb (toLowerCase (trim t)) "chunked"
  | None, None => true
  end.

(** src/server/network/http-proxy.ts:106-127 validateFraming *)
Definition validateFraming (request : IncomingMessage) (upgrade : bool) : option header_map :=
  let headers := rawHeaderMap request in
  if existsb (existsb (λ value, negb (str_all (λ a, negb (control_char a)) value))) (map_values headers) then None
  else if existsb (λ name, Nat.ltb 1 (length (default [] (map_get name headers)))) critical_headers then None
  else if map_has "expect" headers then None
  else
    let contentLength := first_value "content-length" headers in
    let transferEncoding := first_value "transfer-encoding" headers in
    if negb (valid_framing contentLength transferEncoding) then None
    else
      named ← connectionTokens headers;
      if existsb (λ name, includes name named) ["host"; "content-length"; "transfer-encoding"; "proxy-authorization"] then None
      else if upgrade && (bool_decide (is_Some contentLength) || bool_decide (is_Some transferEncoding)) then None
      else Some headers.

(** Writing a property of an object: the name of its prototype is none. *)
Definition assign_header (name : string) (values : list string) (result : header_map) : header_map :=
  if String.eqb name "__proto__" then result else map_set name values result.

(** src/server/network/http-proxy.ts:184-187 forwarded *)
Definition forwarded_headers (raw : header_map) (named : list string) : header_map :=
  fold_left (λ result '(name, values),
    if String.eqb name "host" || includes name HOP_BY_HOP || includes name named then result
    else assign_header name values result) raw [].

(** src/server/network/http-proxy.ts:180-196 outboundHeaders *)
Definition outboundHeaders (request : IncomingMessage) (destination : Destination) (websocket : bool) : option header_map :=
  raw ← validateFraming request websocket;
  named ← connectionTokens raw;
  let result := forwarded_headers raw named in
  let result := map_set "host" [authorityFor (ds_host destination) (ds_port destination) (Some 80)] result in
  if negb websocket then Some result
  else
    let upgrade := (toLowerCase ∘ trim) <$> first_value "upgrade" raw in
    if negb (bool_decide (upgrade = Some "websocket")) || negb (includes "upgrade" named) then None
    else Some (map_set "upgrade" ["websocket"] (map_set "connection" ["Upgrade"] result)).

(** [connection] is the value of the Connection header, the empty text without one. *)
(** src/server/network/http-proxy.ts:204-212 responseHeaders *)
Definition responseHeaders (connection : string) (headers : header_map) : header_map :=
  let named := (λ v, toLowerCase (trim v)) <$> split ","%char connection in
  fold_left (λ result '(name, value),
    if includes name HOP_BY_HOP || includes name named then result else assign_header name value result) headers [].

(** ** Targets *)

Definition same_destination (a b : Destination) : bool :=
  String.eqb (nh_host (ds_host a)) (nh_host (ds_host b)) && (ds_port a =? ds_port b).

(** [/^http:\/\//i] *)
Definition http_scheme (target : string) : bool := String.eqb (toLowerCase (take_str 7 target)) "http://".

(** src/server/network/http-proxy.ts:130-133 targetText *)
Definition target_text_ok (target : string) : bool :=
  negb (strlen target =? 0) && (strlen target <=? 16 * 1024) && String.eqb (trim target) target
  && negb (has_char "#"%char target) && negb (has_char "\"%char target)
  && str_all (λ a, negb (blank_or_control a)) target && http_scheme target.

(** What follows the first two slashes, up to the path. *)
(** src/server/network/http-proxy.ts:139-142 rawAuthority *)
Fixpoint after_slashes (target : string) : string :=
  match target with
  | EmptyString => ""
  | String a r => if Ascii.eqb a "/"%char && starts_with "/" r then drop_str 1 r else after_slashes r
  end.
Definition raw_authority (target : string) : string := take_until (char_in ["/"; "?"; "#"]%char) (after_slashes target).

Section requests.
Context `{NodeUrl} `{UrlParser}.

(** src/server/network/http-proxy.ts:129-153 parseAbsoluteRequest *)
Definition parseAbsoluteRequest (request : IncomingMessage) : option (Destination * string) :=
  let target := default "" (im_url request) in
  if negb (target_text_ok target) then None
  else
    url ← new_url target;
    if negb (String.eqb (url_protocol url) "http:") || negb (String.eqb (url_username url) "")
       || negb (String.eqb (url_password url) "") || String.eqb (url_hostname url) ""
    then None
    else
      destination ← parseAuthority (raw_authority target) (Some 80);
      urlDestination ← parseAuthority (url_host url) (Some 80);
      if negb (same_destination urlDestination destination) then None
      else
        match map_get "host" (rawHeaderMap request) with
        | Some [hostHeader] =>
            metadata ← parseAuthority hostHeader (Some 80);
            if negb (same_destination metadata destination) then None
            else
              let path := url_pathname url +:+ url_search url in
              Some (destination, if String.eqb path "" then "/" else path)
        | _ => None
        end.

(** src/server/network/http-proxy.ts:155-166 parseConnectRequest *)
Definition parseConnectRequest (request : IncomingMessage) : option Destination :=
  destination ← parseAuthority (default "" (im_url request)) None;
  match map_get "host" (rawHeaderMap request) with
  | None => Some destination
  | Some [hostHeader] =>
      metadata ← parseAuthority hostHeader None;
      if negb (same_destination metadata destination) then None else Some destination
  | Some _ => None
  end.
End requests.

(** ** Refusals *)

(** src/server/network/http-proxy.ts:214-222 proxyError *)
Definition proxyError (reason : NetworkAuditReason) : string :=
  match reason with
  | ByExplicitDeny => "blocked-by-denylist"
  | ByNotAllowed => "blocked-by-allowlist"
  | ByLocalAddress => "blocked-local-address"
  | ByPort => "blocked-port"
  | _ => "policy-unavailable"
  end.

(** src/server/network/http-proxy.ts:224-226 isPolicyDenial *)
Definition isPolicyDenial (reason : NetworkAuditReason) : bool :=
  match reason with ByLimit | ByProxy => false | _ => true end.

(** src/server/network/http-proxy.ts:228-234 pinnedFailureReason *)
Definition pinnedFailureReason (error : connection_thrown) : NetworkAuditReason :=
  match error with
  | PinnedConnectionError NonPublicAddress => ByLocalAddress
  | PinnedConnectionError (DnsTimeout | DnsFailure | DnsEmpty) => ByDnsFailure
  | _ => ByProxy
  end.

(** ** Requests *)

(** What [request], [connect] and [upgrade] are for. *)
Inductive request_kind := PlainRequest | ConnectRequest | UpgradeRequest.
#[export] Instance request_kind_eq : EqDecision request_kind.
Proof. solve_decision. Defined.

Definition audit_protocol (kind : request_kind) : NetworkAuditProtocol :=
  match kind with ConnectRequest => HttpsConnect | _ => Http end.

(** What the client gets: a refusal, or its stream to the network. A forwarded
    request goes out with a path and headers. *)
Inductive http_outcome :=
| BadRequest
| Blocked (code : string)
| BadGateway
| Forwarded (socket : nat) (method path : string) (headers : header_map)
| Tunnelled (socket : nat)
| RequestUnhandled.

(** The state that the requests share: the limit, shared with the other proxy
    too, the streams, their leases by socket, and the auditor. *)
(** src/server/network/http-proxy.ts:249-255 HttpPolicyProxy *)
Record http_proxy := {
  hp_admission : ConnectionAdmission;
  hp_connections : ConnectionSet;
  hp_leases : gmap nat nat;
  hp_auditor : auditor;
  hp_destroyed : list nat;
}.
#[export] Instance http_proxy_spread : Spread http_proxy := λ p,
  {| hp_admission := hp_admission p; hp_connections := hp_connections p; hp_leases := hp_leases p;
     hp_auditor := hp_auditor p; hp_destroyed := hp_destroyed p |}.

(** A request that waits for the connector. *)
Record waiting_request := {
  wr_kind : request_kind;
  wr_request : IncomingMessage;
  wr_destination : Destination;
  wr_path : string;
  wr_headers : header_map;
  wr_lease : nat;
}.

(** src/server/network/http-proxy.ts:364-376 refused *)
Definition refusal (reason : NetworkAuditReason) : http_outcome :=
  if isPolicyDenial reason then Blocked (proxyError reason) else BadGateway.

Section proxy.
Context `{NodeUrl} `{UrlParser} (options : HttpPolicyProxyOptions).

(** src/server/network/http-proxy.ts:325-327 audit *)
Definition http_audit (kind : request_kind) (destination : Destination) (decision : verdict) (reason : NetworkAuditReason)
    (now : Z) (p : http_proxy) : result audit_thrown unit * http_proxy :=
  let '(r, au) := record_decision
    {| nd_protocol := audit_protocol kind; nd_host := nh_host (ds_host destination); nd_port := ds_port destination;
       nd_decision := decision; nd_reason := reason |} now (hp_auditor p) in
  (r, p <| hp_auditor := au |>).

(** An audited refusal. *)
Definition refuse (kind : request_kind) (destination : Destination) (reason : NetworkAuditReason) (now : Z)
    (p : http_proxy) : http_proxy * http_outcome :=
  let '(r, p) := http_audit kind destination Deny reason now p in
  (p, match r with Ok _ => refusal reason | Err _ => RequestUnhandled end).

(** The part of [#connect] up to its [await]: the lease, or a refusal. *)
(** src/server/network/http-proxy.ts:329-337 gate *)
Definition gate (kind : request_kind) (destination : Destination) (now : Z) (p : http_proxy)
    : http_proxy * (nat + http_outcome) :=
  match decideDestination (ho_policy options) {| in_host := nh_host (ds_host destination); in_port := JInt (ds_port destination) |} with
  | Err _ => (p, inr RequestUnhandled)
  | Ok policy =>
      if negb (allowed policy)
      then let '(p, o) := refuse kind destination (audit_reason (reason policy)) now p in (p, inr o)
      else
        match acquire (hp_admission p) with
        | (None, _) => let '(p, o) := refuse kind destination ByLimit now p in (p, inr o)
        | (Some lease, admission) => (p <| hp_admission := admission |>, inl lease)
        end
  end.

(** What each kind of request reads first: its destination, path and headers. *)
(** src/server/network/http-proxy.ts:355-361 readPlain *)
Definition read_plain (request : IncomingMessage) : option (Destination * string * header_map) :=
  validateFraming request false ;;
  '(destination, path) ← parseAbsoluteRequest request;
  tokens ← connectionTokens (rawHeaderMap request);
  if map_has "upgrade" (rawHeaderMap request) || includes "upgrade" tokens then None
  else Some (destination, path, []).

(** src/server/network/http-proxy.ts:403-404 readConnect *)
Definition read_connect (request : IncomingMessage) : option (Destination * string * header_map) :=
  validateFraming request true;;
  destination ← parseConnectRequest request;
  Some (destination, "", []).

(** src/server/network/http-proxy.ts:423-429 readUpgrade *)
Definition read_upgrade (request : IncomingMessage) : option (Destination * string * header_map) :=
  if negb (String.eqb (im_method request) "GET") then None
  else
    '(destination, path) ← parseAbsoluteRequest request;
    headers ← outboundHeaders request destination true;
    Some (destination, path, headers).

Definition read_request (kind : request_kind) (request : IncomingMessage) : option (Destination * string * header_map) :=
  match kind with
  | PlainRequest => read_plain request
  | ConnectRequest => read_connect request
  | UpgradeRequest => read_upgrade request
  end.

(** A handler up to its [await]. *)
(** src/server/network/http-proxy.ts:353-363 start *)
Definition start_request (kind : request_kind) (request : IncomingMessage) (now : Z) (p : http_proxy)
    : http_proxy * (waiting_request + http_outcome) :=
  match read_request kind request with
  | None => (p, inr BadRequest)
  | Some (destination, path, headers) =>
      match gate kind destination now p with
      | (p, inr o) => (p, inr o)
      | (p, inl lease) =>
          (p, inl {| wr_kind := kind; wr_request := request; wr_destination := destination; wr_path := path;
                     wr_headers := headers; wr_lease := lease |})
      end
  end.

(** src/server/network/http-proxy.ts:339-339 connect *)
Definition http_connector (w : waiting_request) : net PinnedConnection :=
  deadline ← createSetupDeadline (JInt (ho_connectTimeoutMs options));
  connect (ds_host (wr_destination w)) (ds_port (wr_destination w)) deadline.

(** [catch (error)]: the lease is given back. *)
(** src/server/network/http-proxy.ts:344-350 failed *)
Definition connect_failed (w : waiting_request) (error : connection_thrown) (now : Z) (p : http_proxy)
    : http_proxy * (nat + http_outcome) :=
  let p := p <| hp_admission := release (wr_lease w) (hp_admission p) |> in
  let '(p, o) := refuse (wr_kind w) (wr_destination w) (pinnedFailureReason error) now p in (p, inr o).

(** The part of [#connect] after its [await]. An error of the audit is caught
    like that of the connector. *)
(** src/server/network/http-proxy.ts:338-351 connected *)
Definition after_connect (w : waiting_request) (r : result connection_thrown PinnedConnection) (now : Z) (p : http_proxy)
    : http_proxy * (nat + http_outcome) :=
  match r with
  | Err error => connect_failed w error now p
  | Ok connection =>
      let socket := pc_socket connection in
      let p := p <| hp_connections := add_stream socket (hp_connections p) |> in
      let p := p <| hp_leases := <[socket := wr_lease w]> (hp_leases p) |> in
      match http_audit (wr_kind w) (wr_destination w) Allow ByAllowlist now p with
      | (Ok _, p) => (p, inl socket)
      | (Err _, p) => connect_failed w (OtherFailure (Foreign None "TypeError")) now p
      end
  end.

(** A handler after its [await]. *)
(** src/server/network/http-proxy.ts:378-391 forward *)
Definition finish_request (w : waiting_request) (r : result connection_thrown PinnedConnection) (now : Z) (p : http_proxy)
    : http_proxy * http_outcome :=
  match after_connect w r now p with
  | (p, inr o) => (p, o)
  | (p, inl socket) =>
      match wr_kind w with
      | PlainRequest =>
          match outboundHeaders (wr_request w) (wr_destination w) false with
          | None => (p <| hp_destroyed := (hp_destroyed p ++ [socket])%list |>, BadRequest)
          | Some headers => (p, Forwarded socket (im_method (wr_request w)) (wr_path w) headers)
          end
      | ConnectRequest => (p, Tunnelled socket)
      | UpgradeRequest => (p, Forwarded socket "GET" (wr_path w) (wr_headers w))
      end
  end.

(** The [close] event of a stream. *)
(** src/server/network/http-proxy.ts:341-341 closed *)
Definition http_stream_closed (socket : nat) (p : http_proxy) : http_proxy :=
  match hp_leases p !! socket with
  | None => p
  | Some lease =>
      ((p <| hp_connections := delete_stream socket (hp_connections p) |>)
         <| hp_admission := release lease (hp_admission p) |>)
         <| hp_leases := delete socket (hp_leases p) |>
  end.

(** ** The answer to an upgrade *)

(** src/server/network/http-proxy.ts:446-451 upstreamAccepts *)
Definition upgrade_accepted (statusCode : option Z) (response : IncomingMessage) : bool :=
  let raw := rawHeaderMap response in
  bool_decide (statusCode = Some 101)
  && match map_get "upgrade" raw with Some [u] => String.eqb (toLowerCase (trim u)) "websocket" | _ => false end
  && match map_get "connection" raw with Some [_] => true | _ => false end
  && match connectionTokens raw with Some tokens => includes "upgrade" tokens | None => false end.

Definition line_break (a : ascii) : bool := (unit_code a =? 13) || (unit_code a =? 10).

(** src/server/network/http-proxy.ts:458-465 lines *)
Definition upgrade_lines (httpVersion : string) (statusMessage : option string) (response : IncomingMessage) : list string :=
  ("HTTP/" +:+ httpVersion +:+ " 101 " +:+ default "Switching Protocols" statusMessage) ::
  ((λ h, h.1 +:+ ": " +:+ h.2) <$>
     filter (λ h, negb (starts_with "proxy-" (toLowerCase h.1)) && header_token h.1 && str_all (λ a, negb (line_break a)) h.2 = true)
       (im_rawHeaders response)).

(** src/server/network/http-proxy.ts:467-472 tunnelOptions *)
Definition relay_of_tunnel (head : list Z) (upstreamHead : option (list Z)) : RelayOptions :=
  {| relayIdleTimeoutMs := idleTimeoutMs (ho_limits options); relayMaxBytes := maxConnectionBytes (ho_limits options);
     initialLeftToRight := Some head; initialRightToLeft := upstreamHead |}.
End proxy.
