(* ===== verification/HttpProxySafety.v ===== *)
(** What the HTTP proxy guarantees: authorities have one text, what is forwarded
    of a request is unambiguous and free of the client's hop-by-hop fields, and
    every request is refused or reaches a permitted destination. *)
From S2P Require Import Prelude JsValues Texts Errors Programs Addresses AddressText AddressRanges NetworkPolicy NetworkPolicySafety.
From S2P Require Import Resolver Connections EgressAudit Socks5 Socks5Handshake Socks5Safety EgressConfig HttpProxy.
#[local] Open Scope string_scope. #[local] Open Scope Z_scope.
#[local] Arguments String.append : simpl nomatch.

(** ** Texts *)

Lemma index_of_app c p r : has_char c p = false → index_of c (p +:+ String c r) = Some (String.length p).
Proof.
  induction p as [|a p IH]; cbn [index_of String.append String.length]; [by rewrite Ascii.eqb_refl|].
  rewrite has_char_cons, orb_false_iff. intros [-> Hp]. by rewrite IH.
Qed.
Lemma index_of_none c s : has_char c s = false → index_of c s = None.
Proof.
  induction s as [|a s IH]; [done|]. rewrite has_char_cons, orb_false_iff. cbn. intros [-> Hs]. by rewrite IH.
Qed.
Lemma last_index_of_none c s : has_char c s = false → last_index_of c s = None.
Proof.
  induction s as [|a s IH]; [done|]. rewrite has_char_cons, orb_false_iff. cbn. intros [-> Hs]. by rewrite IH.
Qed.
Lemma last_index_of_app c p r : has_char c r = false → last_index_of c (p +:+ String c r) = Some (String.length p).
Proof.
  intros Hr. induction p as [|a p IH]; cbn [last_index_of String.append String.length].
  - by rewrite last_index_of_none, Ascii.eqb_refl.
  - by rewrite IH.
Qed.
Lemma take_str_app p r : take_str (String.length p) (p +:+ r) = p.
Proof. induction p as [|a p IH]; cbn; [by destruct r|]. by rewrite IH. Qed.
Lemma take_str_all s : take_str (String.length s) s = s.
Proof. induction s as [|a s IH]; cbn; [done|]. by rewrite IH. Qed.
Lemma drop_str_app p r : drop_str (String.length p) (p +:+ r) = r.
Proof. induction p as [|a p IH]; cbn; [by destruct r|]. exact IH. Qed.

(** A port as a numeral of at most five digits. *)
Lemma port_text port : 1 ≤ port ≤ 65535 →
  port_matches (pretty port) = true ∧ number_from 0 (pretty port) = port ∧ str_all is_digit (pretty port) = true ∧
  pretty port ≠ "" ∧ strlen (pretty port) ≤ 5.
Proof.
  intros Hp. destruct (numeral port) as (a & r & E & Hd & H0 & Hall & Hn); [lia|].
  pose proof (numeral_length 5 port ltac:(lia)) as Hl. change (Z.of_nat 5) with 5 in Hl.
  split_and!; [|done|done|by rewrite E|done].
  rewrite E in Hall, Hl |- *. cbn [port_matches str_all] in *. apply andb_true_iff in Hall as [_ Hr].
  assert (Hz : Ascii.eqb a "0"%char = false).
  { destruct (Ascii.eqb a "0"%char) eqn:Ez; [|done]. apply Ascii.eqb_eq in Ez. subst. by vm_compute in H0. }
  rewrite Hd, Hz, Hr. cbn [negb andb]. unfold strlen in *. cbn [String.length] in Hl. lia.
Qed.

Lemma parsePort_text port fallback : 1 ≤ port ≤ 65535 → parsePort (pretty port) fallback = Some port.
Proof.
  intros Hp. destruct (port_text port Hp) as (Hm & Hn & _ & Hne & _). unfold parsePort.
  rewrite (proj2 (String.eqb_neq _ _) Hne), Hm, Hn. cbn [negb].
  replace (port <? 1) with false by lia. by replace (65535 <? port) with false by lia.
Qed.

(** ** Authorities *)

(** The characters of an authority. *)
Definition authority_char (a : ascii) : bool := pattern_char a || char_in ["["; "]"; ":"]%char a.

Lemma authority_char_facts a : authority_char a = true → is_space a = false ∧ authority_forbidden a = false.
Proof.
  intros Ha.
  assert (Hx : negb (authority_char a) || (negb (is_space a) && negb (authority_forbidden a)) = true)
    by (clear Ha; revert a; apply ascii_cases; by vm_compute).
  rewrite Ha in Hx. cbn [negb orb] in Hx. breflect. done.
Qed.

Lemma authority_guards s : str_all authority_char s = true → s ≠ "" → strlen s ≤ 512 →
  (strlen s =? 0) || (512 <? strlen s) || negb (String.eqb (trim s) s) || negb (str_all (λ a, negb (authority_forbidden a)) s) = false.
Proof.
  intros Hs Hne Hl. rewrite trim_no_space, String.eqb_refl.
  2: { eapply str_all_impl; [|exact Hs]. intros a Ha. by destruct (authority_char_facts a Ha) as [-> _]. }
  assert (Hf : str_all (λ a, negb (authority_forbidden a)) s = true).
  { eapply str_all_impl; [|exact Hs]. intros a Ha. by destruct (authority_char_facts a Ha) as [_ ->]. }
  rewrite Hf. destruct s; [done|]. unfold strlen in *. cbn [String.length] in *. cbn [negb orb].
  rewrite !orb_false_r. apply orb_false_iff. split; [apply Z.eqb_neq|apply Z.ltb_ge]; lia.
Qed.

Lemma str_length_app s r : String.length (s +:+ r) = (String.length s + String.length r)%nat.
Proof. induction s as [|a s IH]; [done|]. cbn. by rewrite IH. Qed.

Lemma starts_with_one c a s : starts_with (String c "") (String a s) = Ascii.eqb c a.
Proof.
  unfold starts_with. cbn [String.prefix]. destruct (ascii_dec c a) as [->|Hn]; [rewrite Ascii.eqb_refl; by destruct s|].
  symmetry. by apply Ascii.eqb_neq.
Qed.

Lemma get_app p n r : String.get (String.length p + n) (p +:+ r) = String.get n r.
Proof. induction p as [|a p IH]; [done|]. exact IH. Qed.

Lemma split_plain h : starts_with "[" h = false → has_char colon h = false → split_authority h = Some (h, "", false).
Proof. intros Hb Hc. unfold split_authority. by rewrite Hb, last_index_of_none. Qed.

Lemma split_port h t : starts_with "[" h = false → h ≠ "" → has_char colon h = false → has_char colon t = false →
  split_authority (h +:+ String colon t) = Some (h, t, true).
Proof.
  intros Hb Hne Hh Ht. unfold split_authority.
  assert (Hb' : starts_with "[" (h +:+ String colon t) = false).
  { destruct h as [|a h]; [done|]. cbn [String.append]. by rewrite !starts_with_one in *. }
  rewrite Hb', last_index_of_app, index_of_app by done. rewrite bool_decide_true by done. cbn [negb].
  rewrite take_str_app. do 3 f_equal.
  replace (h +:+ String colon t) with ((h +:+ ":") +:+ t) by (by rewrite str_app_assoc).
  replace (String.length h + 1)%nat with (String.length (h +:+ ":")) by (by rewrite str_length_app).
  apply drop_str_app.
Qed.

Section brackets.
Context (h : string) (Hb : has_char "]"%char h = false) (Hne : h ≠ "").

Lemma bracketed_index r : index_of "]"%char (String "[" (h +:+ String "]" r)) = Some (S (String.length h)).
Proof.
  change (String "[" (h +:+ String "]" r)) with (String "[" h +:+ String "]" r). by apply index_of_app.
Qed.
Lemma bracketed_start r : starts_with "[" (String "[" (h +:+ String "]" r)) = true.
Proof. by rewrite starts_with_one. Qed.
Lemma bracketed_late : (S (String.length h) <=? 1)%nat = false.
Proof. destruct h; [done|reflexivity]. Qed.

Lemma split_bracketed_bare : split_authority (String "[" (h +:+ "]")) = Some (String "[" (h +:+ "]"), "", false).
Proof.
  unfold split_authority. rewrite bracketed_start, bracketed_index, bracketed_late.
  assert (El : String.length (String "[" (h +:+ "]")) = S (String.length h + 1)) by (cbn; by rewrite str_length_app).
  rewrite El. replace (S (String.length h) =? S (String.length h + 1) - 1)%nat with true by (symmetry; apply Nat.eqb_eq; lia).
  cbn [negb]. rewrite andb_false_r. cbn [orb]. do 3 f_equal.
  replace (S (String.length h) + 1)%nat with (S (String.length h + 1)) by lia. rewrite <-El. apply take_str_all.
Qed.

Lemma split_bracketed_port t :
  split_authority (String "[" (h +:+ String "]" (String colon t))) = Some (String "[" (h +:+ "]"), t, true).
Proof.
  unfold split_authority. rewrite bracketed_start, bracketed_index, bracketed_late.
  set (p := String "[" (h +:+ "]")).
  assert (Er : String "[" (h +:+ String "]" (String colon t)) = p +:+ String colon t).
  { unfold p. cbn [String.append]. by rewrite str_app_assoc. }
  assert (El : String.length p = (S (String.length h) + 1)%nat) by (unfold p; cbn; rewrite str_length_app; cbn; lia).
  rewrite Er, <-El. pose proof (get_app p 0 (String colon t)) as Hg. rewrite Nat.add_0_r in Hg. rewrite Hg. cbn [String.get].
  rewrite bool_decide_true by done. rewrite str_length_app. cbn [String.length].
  replace (S (String.length h) =? String.length p + S (String.length t) - 1)%nat with false by (symmetry; apply Nat.eqb_neq; lia).
  cbn [negb orb andb]. rewrite take_str_app. do 3 f_equal.
  replace (p +:+ String colon t) with ((p +:+ ":") +:+ t) by (by rewrite str_app_assoc).
  replace (S (String.length h) + 2)%nat with (String.length (p +:+ ":")) by (rewrite str_length_app, El; cbn; lia).
  apply drop_str_app.
Qed.
End brackets.

(** Lengths of canonical texts. *)
Lemma join_length c n parts : Forall (λ s, strlen s ≤ n) parts → 0 ≤ n → strlen (join c parts) ≤ Z.of_nat (length parts) * (n + 1).
Proof.
  intros Hp Hn. induction Hp as [|s parts Hs Hp IH]; [done|]. cbn [join length]. destruct parts as [|q qs]; [cbn; lia|].
  rewrite strlen_app. unfold strlen at 2. cbn [String.length]. unfold strlen in *. lia.
Qed.
Lemma hex_string_length n w : strlen (hex_string n w) ≤ Z.of_nat n.
Proof.
  revert w. induction n as [|n IH]; intros w; cbn [hex_string]; [by vm_compute|].
  rewrite strlen_app. change (strlen (String (hex_char (w mod 16)) "")) with 1.
  destruct (w <? 16); [change (strlen "") with 0|specialize (IH (w / 16))]; lia.
Qed.
Lemma hex_words_length ws : strlen (hex_words ws) ≤ Z.of_nat (length ws) * 5.
Proof.
  unfold hex_words. pose proof (join_length colon 4 (hex_string 4 <$> ws)) as Hj. rewrite length_fmap in Hj.
  apply Hj; [|lia]. apply Forall_fmap, Forall_forall. intros w _. apply (hex_string_length 4).
Qed.
Lemma address_text_length bs : address_bytes bs → strlen (address (parsed_of bs)) ≤ 100.
Proof.
  intros [Hb [Hl|Hl]]; unfold parsed_of; rewrite Hl; cbn [Nat.eqb address].
  - unfold formatIpv4. pose proof (join_length dot 3 (pretty <$> bs)) as Hj. rewrite length_fmap, Hl in Hj.
    assert (H3 : Forall (λ s, strlen s ≤ 3) (pretty <$> bs)); [|specialize (Hj H3); lia].
    apply Forall_fmap. eapply Forall_impl; [exact Hb|]. intros b Hbb.
    assert (H : (strlen (pretty b) <=? 3) = true) by (apply (byte_cases (λ b, strlen (pretty b) <=? 3)); [by vm_compute|done]).
    cbn. lia.
  - destruct (bytes_of_words_spec 8 bs Hb Hl) as (_ & _ & Hlen). unfold formatIpv6.
    set (ws := words_of_bytes bs) in *. pose proof (hex_words_length ws). destruct (best_run 8 ws 0 None) as [[s l]|]; [|lia].
    pose proof (hex_words_length (take s ws)) as H1. pose proof (hex_words_length (drop (s + l) ws)) as H2.
    rewrite length_take in H1. rewrite length_drop in H2. rewrite strlen_app.
    change (strlen (String colon (String colon (hex_words (drop (s + l) ws))))) with
      (Z.of_nat (S (S (String.length (hex_words (drop (s + l) ws)))))).
    unfold strlen in *. lia.
Qed.

Section proxy.
Context `{NodeUrlLaws} `{UrlParser}.

(** A normalized host stands in an authority as it is, or between brackets. *)
Lemma host_text input host : normalizeDestinationHost input = Ok host →
  (nh_family host = Some V6 ∧ ∃ p a, parseIpAddress (nh_host host) = Some p ∧ family p = V6 ∧
     has_char colon (nh_host host) = true ∧ classified_address p = Ok a ∧ host = ip_host p a) ∨
  (nh_family host ≠ Some V6 ∧ has_char colon (nh_host host) = false).
Proof.
  intros Hh%normalize_inv. destruct Hh as [s p a _ Hp Ha|s t name Ht Hl Hv Hn]; cbn.
  - pose proof (parse_idemp s p Hp) as Hp'. destruct (parseIpAddress_inv s p Hp) as [[Hbs Hlen] E]. destruct Hlen as [Hlen|Hlen].
    + right. rewrite E. unfold parsed_of. rewrite Hlen. cbn. split; [done|].
      destruct (formatIpv4_chars (bytes p) Hbs Hlen) as [Hd _]. eapply has_char_all; [|exact Hd]. done.
    + left. assert (Ef : family p = V6) by (rewrite E; unfold parsed_of; by rewrite Hlen).
      split; [by rewrite Ef|]. exists p, a. split_and!; [done|done| |by apply classified_Ok|done].
      destruct (has_char colon (address p)) eqn:Ec; [done|]. apply colonless_ipv6 in Ec. unfold parseIpAddress in Hp'.
      destruct (_ || _); [done|]. rewrite Ec in Hp'. destruct (parseIpv4 (address p)); [|done].
      injection Hp' as E'. rewrite <-E' in Ef. done.
  - right. split; [done|]. destruct (validateAsciiDomain_Ok _ Hv) as (_ & _ & Hc). by apply (has_char_all _ name_char).
Qed.

Lemma no_bracket s c : c = "["%char ∨ c = "]"%char → str_all pattern_char s = true → has_char c s = false.
Proof.
  intros Hc Hs. unfold has_char. apply negb_false_iff. eapply str_all_impl; [|exact Hs]. intros a Ha.
  destruct (pattern_char_facts a Ha) as (_ & E1 & E2 & _). by destruct Hc as [->| ->]; rewrite ?E1, ?E2.
Qed.

Lemma drop_last_app s a : drop_last (s +:+ String a "") = s.
Proof. induction s as [|b s IH]; [done|]. cbn [String.append drop_last]. rewrite IH. by destruct s. Qed.

Lemma normalize_brackets h p a :
  parseIpAddress h = Some p → family p = V6 → has_char colon h = true → classified_address p = Ok a →
  str_all pattern_char h = true → normalizeDestinationHost (String "[" (h +:+ "]")) = Ok (ip_host p a).
Proof.
  intros Hp Hf Hcolon Ha Hh. unfold normalizeDestinationHost.
  assert (Ht : trim (String "[" (h +:+ "]")) = String "[" (h +:+ "]")).
  { apply trim_no_space. cbn [str_all]. rewrite str_all_app. cbn [str_all]. rewrite !andb_true_iff. split; [done|]. split; [|done].
    eapply str_all_impl; [|exact Hh]. intros x Hx. by destruct (pattern_char_facts x Hx) as [-> _]. }
  rewrite Ht. assert (He : ends_with "]" (String "[" (h +:+ "]")) = true) by (apply ends_with_spec; by exists (String "[" h)).
  assert (Hs : starts_with "[" (String "[" (h +:+ "]")) = true) by (by rewrite starts_with_one).
  rewrite Hs. cbn [String.eqb orb]. unfold normalize_bracketed. rewrite Hs, He. cbn [andb negb].
  assert (Hd : drop_last (drop_str 1 (String "[" (h +:+ "]"))) = h) by (cbn [drop_str]; apply drop_last_app).
  rewrite Hd, Hcolon, Hp, Hf. cbn [negb]. rewrite bool_decide_true by done. cbn [negb]. rewrite Ha. cbn. unfold ip_host. by rewrite Hf.
Qed.

(** What is split off an authority that was rendered. *)
Lemma split_rendered host port fallback : normalizeDestinationHost (nh_host host) = Ok host → 1 ≤ port ≤ 65535 →
  ∃ hostRaw portRaw explicit,
    split_authority (authorityFor host port fallback) = Some (hostRaw, portRaw, explicit) ∧
    normalizeDestinationHost hostRaw = Ok host ∧
    parsePort portRaw (if (explicit : bool) then None else fallback) = Some port.
Proof.
  intros Hh Hp. destruct (host_chars _ _ Hh) as [Hc Hne]. destruct (port_text port Hp) as (_ & _ & Hd & Hpne & _).
  pose proof (parsePort_text port None Hp) as Hport.
  destruct (host_text _ _ Hh) as [[Hf (p & a & Hpa & Hf6 & Hcolon & Hcl & E)]|[Hf Hcolon]]; unfold authorityFor.
  - pose proof (normalize_brackets _ p a Hpa Hf6 Hcolon Hcl Hc) as Hn. rewrite <-E in Hn.
    pose proof (no_bracket _ "]"%char (or_intror eq_refl) Hc) as Hrb. rewrite (bool_decide_true (nh_family host = Some V6)) by done.
    change ("[" +:+ nh_host host +:+ "]") with (String "[" (nh_host host +:+ "]")). case_bool_decide as Edef.
    + exists (String "[" (nh_host host +:+ "]")), "", false. split; [by apply split_bracketed_bare|]. split; [done|by rewrite Edef].
    + exists (String "[" (nh_host host +:+ "]")), (pretty port), true. split; [|by split].
      cbn [String.append]. rewrite str_app_assoc. by apply split_bracketed_port.
  - assert (Hb : starts_with "[" (nh_host host) = false).
    { pose proof (no_bracket _ "["%char (or_introl eq_refl) Hc) as Hlb. destruct (nh_host host) as [|x s]; [done|].
      rewrite has_char_cons, orb_false_iff in Hlb. rewrite starts_with_one, Ascii.eqb_sym. apply Hlb. }
    rewrite (bool_decide_false (nh_family host = Some V6)) by done. case_bool_decide as Edef.
    + exists (nh_host host), "", false. split; [by apply split_plain|]. split; [done|by rewrite Edef].
    + exists (nh_host host), (pretty port), true. split; [|done].
      change (":" +:+ pretty port) with (String colon (pretty port)). apply split_port; [done|done|done|].
      by apply (has_char_all _ is_digit).
Qed.

Lemma host_length input host : normalizeDestinationHost input = Ok host → strlen (nh_host host) ≤ 253.
Proof.
  intros Hh%normalize_inv. destruct Hh as [s p a _ Hp Ha|s t name Ht Hl Hv Hn]; cbn.
  - destruct (parseIpAddress_inv s p Hp) as [Hb ->]. pose proof (address_text_length _ Hb). lia.
  - destruct (validateAsciiDomain_Ok _ Hv) as (Hlen & _ & _). lia.
Qed.

Lemma authority_text host port fallback : normalizeDestinationHost (nh_host host) = Ok host → 1 ≤ port ≤ 65535 →
  str_all authority_char (authorityFor host port fallback) = true ∧ authorityFor host port fallback ≠ "" ∧
  strlen (authorityFor host port fallback) ≤ 512.
Proof.
  intros Hh Hp. destruct (host_chars _ _ Hh) as [Hc Hne]. pose proof (host_length _ _ Hh) as Hl.
  destruct (port_text port Hp) as (_ & _ & Hd & _ & Hpl).
  assert (Hc' : str_all authority_char (nh_host host) = true).
  { eapply str_all_impl; [|exact Hc]. intros a Ha. unfold authority_char. by rewrite Ha. }
  assert (Hd' : str_all authority_char (":" +:+ pretty port) = true).
  { cbn. eapply str_all_impl; [|exact Hd]. intros a Ha.
    unfold authority_char, pattern_char, name_char, is_lower_alnum. by rewrite Ha. }
  assert (Hr : ∀ r, r = (if bool_decide (nh_family host = Some V6) then "[" +:+ nh_host host +:+ "]" else nh_host host) →
    str_all authority_char r = true ∧ r ≠ "" ∧ strlen r ≤ 255).
  { intros r ->. case_bool_decide; [|split_and!; [done|done|lia]]. split_and!; [|done|].
    - cbn [String.append str_all]. rewrite str_all_app, Hc'. done.
    - rewrite !strlen_app. change (strlen "[") with 1. change (strlen "]") with 1. lia. }
  unfold authorityFor. cbv zeta. destruct (Hr _ eq_refl) as (K1 & K2 & K3). clear Hr. revert K1 K2 K3.
  generalize (if bool_decide (nh_family host = Some V6) then "[" +:+ nh_host host +:+ "]" else nh_host host). intros r K1 K2 K3.
  case_bool_decide; [split_and!; [done|done|lia]|]. split_and!.
  - rewrite str_all_app, K1. exact Hd'.
  - by destruct r.
  - rewrite !strlen_app. change (strlen ":") with 1. lia.
Qed.

(** Reading back an authority that was rendered. *)
Lemma parse_rendered host port fallback : normalizeDestinationHost (nh_host host) = Ok host → 1 ≤ port ≤ 65535 →
  parseAuthority (authorityFor host port fallback) fallback =
    Some {| ds_host := host; ds_port := port; ds_authority := authorityFor host port fallback |}.
Proof.
  intros Hh Hp. destruct (authority_text host port fallback Hh Hp) as (Hc & Hne & Hl).
  destruct (split_rendered host port fallback Hh Hp) as (hostRaw & portRaw & explicit & Es & En & Ep).
  unfold parseAuthority. rewrite authority_guards, Es by done. cbn [mbind option_bind]. rewrite En, Ep. done.
Qed.

(** What an accepted authority is. *)
Lemma parseAuthority_inv raw fallback d : parseAuthority raw fallback = Some d →
  (∀ port, fallback = Some port → 1 ≤ port ≤ 65535) →
  normalizeDestinationHost (nh_host (ds_host d)) = Ok (ds_host d) ∧ 1 ≤ ds_port d ≤ 65535 ∧
  ds_authority d = authorityFor (ds_host d) (ds_port d) fallback.
Proof.
  unfold parseAuthority. intros E Hf. destruct (_ || _); [done|].
  destruct (split_authority raw) as [[[hostRaw portRaw] explicit]|]; [|done]. cbn [mbind option_bind] in E.
  destruct (normalizeDestinationHost hostRaw) as [host|] eqn:Eh; [|done].
  destruct (parsePort portRaw _) as [port|] eqn:Ep; [|done]. cbn in E. injection E as <-. cbn.
  split_and!; [by eapply normalize_idemp|..|done].
  all: unfold parsePort in Ep; destruct (String.eqb portRaw ""); [destruct explicit; [done|]; by apply Hf in Ep as [? ?]|].
  all: destruct (negb (port_matches portRaw)); [done|]; destruct (_ || _) eqn:Eb; [done|]; injection Ep as <-; breflect; lia.
Qed.
End proxy.

(** ** Headers *)

(** The values a request has under a name, in order. *)
Definition request_values (name : string) (request : IncomingMessage) : list string :=
  snd <$> filter (λ h, toLowerCase h.1 = name) (im_rawHeaders request).

Lemma raw_get name request :
  map_get name (rawHeaderMap request) = match request_values name request with [] => None | vs => Some vs end.
Proof.
  unfold rawHeaderMap, request_values.
  assert (Hg : ∀ hs acc, map_get name (fold_left (λ result '(n, v),
      map_set (toLowerCase n) (default [] (map_get (toLowerCase n) result) ++ [v])%list result) hs acc) =
    match snd <$> filter (λ h : string * string, toLowerCase h.1 = name) hs with
    | [] => map_get name acc
    | vs => Some (default [] (map_get name acc) ++ vs)%list
    end).
  { induction hs as [|[n v] hs IH]; intros acc; cbn [fold_left]; [done|]. rewrite IH, map_get_set.
    destruct (decide (toLowerCase n = name)) as [E|E].
    - rewrite filter_cons_True by done. rewrite decide_True by done. cbn [fmap list_fmap snd default]. subst name.
      destruct (snd <$> filter _ hs); [done|]. cbn. by rewrite <-(assoc_L (++))%list.
    - rewrite filter_cons_False by done. by rewrite decide_False by congruence. }
  exact (Hg _ []).
Qed.

Lemma raw_unique request : JsValues.map_ok (rawHeaderMap request).
Proof.
  unfold rawHeaderMap. assert (Hg : ∀ hs (acc : header_map), JsValues.map_ok acc → JsValues.map_ok
    (fold_left (λ result '(n, v), map_set (toLowerCase n) (default [] (map_get (toLowerCase n) result) ++ [v])%list result) hs acc)).
  { induction hs as [|[n v] hs IH]; intros acc Ha; [done|]. cbn. apply IH. by apply map_ok_set. }
  apply Hg. apply NoDup_nil_2.
Qed.

(** Copying the headers that are not dropped. *)
Lemma copied_get (drop : string → bool) (raw : header_map) name : JsValues.map_ok raw →
  map_get name (fold_left (λ result '(n, v), if drop n then result else map_set n v result) raw []) =
    if drop name then None else map_get name raw.
Proof.
  intros Hok. assert (Hg : ∀ acc : header_map,
    map_get name (fold_left (λ result '(n, v), if drop n then result else map_set n v result) raw acc) =
    if drop name then map_get name acc else match map_get name raw with Some v => Some v | None => map_get name acc end).
  { revert Hok. unfold JsValues.map_ok. induction raw as [|[k v] raw IH]; intros Hok acc; cbn [fold_left map_get];
      [by destruct (drop name)|].
    cbn [map_keys fmap list_fmap fst] in Hok. apply NoDup_cons in Hok as [Hk Hok]. rewrite IH by done.
    destruct (decide (name = k)) as [->|Hne].
    - destruct (drop k); [done|]. rewrite (proj2 (map_get_None k raw) Hk), map_get_set. by rewrite decide_True.
    - destruct (drop k); [done|]. rewrite map_get_set. by rewrite decide_False. }
  rewrite Hg. destruct (drop name); [done|]. by destruct (map_get name raw).
Qed.

(** What is not forwarded under its own name. *)
Definition dropped (named : list string) (name : string) : bool :=
  String.eqb name "host" || includes name HOP_BY_HOP || includes name named || String.eqb name "__proto__".

Lemma fold_left_ext {A B} (f g : A → B → A) l a : (∀ a b, f a b = g a b) → fold_left f l a = fold_left g l a.
Proof. intros Hfg. revert a. induction l as [|b l IH]; intros a; cbn; [done|]. by rewrite Hfg, IH. Qed.

Lemma forwarded_get raw named name : JsValues.map_ok raw →
  map_get name (forwarded_headers raw named) = if dropped named name then None else map_get name raw.
Proof.
  intros Hok. unfold forwarded_headers. rewrite <-(copied_get (dropped named)) by done. f_equal.
  apply fold_left_ext. intros result [n v]. unfold dropped, assign_header.
  destruct (String.eqb n "host" || includes n HOP_BY_HOP || includes n named); [done|]. cbn [orb].
  by destruct (String.eqb n "__proto__").
Qed.

Lemma response_get connection headers name : JsValues.map_ok headers →
  map_get name (responseHeaders connection headers) =
    if includes name HOP_BY_HOP || includes name ((λ v, toLowerCase (trim v)) <$> split ","%char connection) || String.eqb name "__proto__"
    then None else map_get name headers.
Proof.
  intros Hok. unfold responseHeaders. set (named := (λ v, toLowerCase (trim v)) <$> _).
  rewrite <-(copied_get (λ n, includes n HOP_BY_HOP || includes n named || String.eqb n "__proto__")) by done. f_equal.
  apply fold_left_ext. intros result [n v]. unfold assign_header.
  destruct (includes n HOP_BY_HOP || includes n named); [done|]. cbn [orb]. by destruct (String.eqb n "__proto__").
Qed.

(** The names that the Connection header lists. *)
Definition named_by_connection (request : IncomingMessage) (name : string) : Prop :=
  ∃ value part, value ∈ request_values "connection" request ∧ part ∈ split ","%char value ∧ toLowerCase (trim part) = name.

(** A request whose framing was validated. *)
Record framed (request : IncomingMessage) (upgrade : bool) (named : list string) : Prop := {
  framed_values : ∀ name v, v ∈ request_values name request → str_all (λ a, negb (control_char a)) v = true;
  framed_critical : ∀ name, name ∈ critical_headers → (length (request_values name request) ≤ 1)%nat;
  framed_expect : request_values "expect" request = [];
  framed_body : (length (request_values "content-length" request) + length (request_values "transfer-encoding" request) ≤
    if upgrade then 0 else 1)%nat;
  framed_length : ∀ v, v ∈ request_values "content-length" request → valid_content_length (trim v) = true;
  framed_chunked : ∀ v, v ∈ request_values "transfer-encoding" request → toLowerCase (trim v) = "chunked";
  framed_named : connectionTokens (rawHeaderMap request) = Some named;
  framed_names : ∀ name, name ∈ named ↔ named_by_connection request name;
  framed_kept : ∀ name, name ∈ named → name ∉ ["host"; "content-length"; "transfer-encoding"; "proxy-authorization"];
}.

Lemma first_value_get name request : first_value name (rawHeaderMap request) = head (request_values name request).
Proof. unfold first_value. rewrite raw_get. by destruct (request_values name request). Qed.

Lemma tokens_listed request named : (length (request_values "connection" request) ≤ 1)%nat →
  connectionTokens (rawHeaderMap request) = Some named → ∀ name, name ∈ named ↔ named_by_connection request name.
Proof.
  intros Hl. unfold connectionTokens. rewrite first_value_get. unfold named_by_connection. intros E name.
  destruct (request_values "connection" request) as [|value [|]]; cbn [head] in E; [| |cbn in Hl; lia].
  - injection E as <-. split; [by intros ?%elem_of_nil|]. by intros (v & part & ?%elem_of_nil & _).
  - apply mapM_Some in E. assert (Hin : name ∈ named ↔ ∃ part, part ∈ split ","%char value ∧ toLowerCase (trim part) = name).
    { induction E as [|part token parts tokens Et _ IH]; [split; [by intros ?%elem_of_nil|by intros (? & ?%elem_of_nil & _)]|].
      unfold connection_token in Et. destruct (_ && _); [|done]. injection Et as <-. rewrite elem_of_cons, IH. split.
      - intros [->|(q & Hq & <-)]; [exists part|exists q]; rewrite elem_of_cons; auto.
      - intros (q & [->|Hq]%elem_of_cons & <-); eauto. }
    rewrite Hin. split; [intros (part & Hp & <-); exists value, part; rewrite list_elem_of_singleton; auto|].
    intros (v & part & ->%list_elem_of_singleton & Hp & <-). eauto.
Qed.

Lemma validateFraming_inv request upgrade headers : validateFraming request upgrade = Some headers →
  headers = rawHeaderMap request ∧ ∃ named, framed request upgrade named.
Proof.
  unfold validateFraming. destruct (existsb _ (map_values _)) eqn:Ev; [done|].
  destruct (existsb _ critical_headers) eqn:Ec; [done|]. destruct (map_has "expect" _) eqn:Ee; [done|].
  rewrite !first_value_get. destruct (negb (valid_framing _ _)) eqn:Ef; [done|].
  destruct (connectionTokens _) as [named|] eqn:En; [|done]. cbn [mbind option_bind].
  match goal with |- context [if ?b then _ else _] => destruct b eqn:Ek end; [done|].
  match goal with |- context [if ?b then _ else _] => destruct b eqn:Eu end; [done|]. intros [= <-]. split; [done|]. exists named.
  assert (Hcrit : ∀ name, name ∈ critical_headers → (length (request_values name request) ≤ 1)%nat).
  { intros name Hn%list_elem_of_In. apply not_true_iff_false in Ec. destruct (decide (length (request_values name request) ≤ 1)%nat); [done|].
    destruct Ec. apply existsb_exists. exists name. split; [done|]. rewrite raw_get. apply Nat.ltb_lt.
    destruct (request_values name request); cbn in *; lia. }
  pose proof (Hcrit "content-length" ltac:(set_solver)) as Hcl. pose proof (Hcrit "transfer-encoding" ltac:(set_solver)) as Hte.
  apply negb_false_iff in Ef.
  constructor; [|done| | | | |done|by apply tokens_listed; [apply Hcrit; set_solver|]|].
  - intros name v Hv. apply not_false_iff_true. intros Hc. apply not_true_iff_false in Ev. destruct Ev.
    assert (Hget : map_get name (rawHeaderMap request) = Some (request_values name request)).
    { rewrite raw_get. destruct (request_values name request); [by apply elem_of_nil in Hv|done]. }
    apply map_get_in in Hget; [|apply raw_unique]. apply existsb_exists. exists (request_values name request). split.
    + apply list_elem_of_In, list_elem_of_fmap. by exists (name, request_values name request).
    + apply existsb_exists. exists v. split; [by apply list_elem_of_In|]. by rewrite Hc.
  - unfold map_has in Ee. apply bool_decide_eq_false in Ee. rewrite raw_get in Ee.
    destruct (request_values "expect" request); [done|]. destruct Ee. by eexists.
  - destruct (request_values "content-length" request) as [|? [|]]; destruct (request_values "transfer-encoding" request) as [|? [|]];
      cbn in *; try lia; try done; destruct upgrade; cbn in *; try lia; try done.
  - intros v Hv. destruct (request_values "content-length" request) as [|w [|]]; [by apply elem_of_nil in Hv| |cbn in Hcl; lia].
    apply list_elem_of_singleton in Hv as ->. cbn in Ef. by destruct (head _).
  - intros v Hv. destruct (request_values "transfer-encoding" request) as [|w [|]]; [by apply elem_of_nil in Hv| |cbn in Hte; lia].
    apply list_elem_of_singleton in Hv as ->. cbn in Ef. destruct (head _); [done|]. by apply String.eqb_eq.
  - intros name Hn Hin. apply not_true_iff_false in Ek. destruct Ek. apply existsb_exists. exists name.
    split; [by apply list_elem_of_In|by apply includes_elem].
Qed.

Section forwarding.
Context `{NodeUrlLaws} `{UrlParser}.

(** C17: authorities have one text. An authority that is accepted, however it is
    spelled, is a normalized host with a valid port, rendered as the text that is
    forwarded; that text is accepted again as the same host and port, so that two
    spellings with the same text are the same destination; and every normalized
    host with a valid port has such a text: names, IPv4 and bracketed IPv6
    literals, with the default port left out. *)
Theorem authorities_have_one_text raw fallback :
  (∀ port, fallback = Some port → 1 ≤ port ≤ 65535) →
  (∀ d, parseAuthority raw fallback = Some d →
     normalizeDestinationHost (nh_host (ds_host d)) = Ok (ds_host d) ∧ 1 ≤ ds_port d ≤ 65535 ∧
     ds_authority d = authorityFor (ds_host d) (ds_port d) fallback ∧ parseAuthority (ds_authority d) fallback = Some d) ∧
  (∀ host port, normalizeDestinationHost (nh_host host) = Ok host → 1 ≤ port ≤ 65535 →
     parseAuthority (authorityFor host port fallback) fallback =
       Some {| ds_host := host; ds_port := port; ds_authority := authorityFor host port fallback |}).
Proof.
  intros Hf. split; [|intros; by apply parse_rendered]. intros d Hd.
  destruct (parseAuthority_inv _ _ _ Hd Hf) as (Hh & Hp & Ea). split_and!; [done|lia|lia|done|].
  rewrite Ea, parse_rendered by done. destruct d as [host port authority]. cbn in *. by rewrite Ea.
Qed.

(** Who agrees on the destination of an absolute target. *)
Lemma parseAbsoluteRequest_inv request d path : parseAbsoluteRequest request = Some (d, path) →
  ∃ target hostHeader metadata, im_url request = Some target ∧ http_scheme target = true ∧
    parseAuthority (raw_authority target) (Some 80) = Some d ∧
    request_values "host" request = [hostHeader] ∧ parseAuthority hostHeader (Some 80) = Some metadata ∧
    same_destination metadata d = true ∧ path ≠ "".
Proof.
  unfold parseAbsoluteRequest. destruct (target_text_ok _) eqn:Et; [|done]. cbn [negb].
  destruct (new_url _) as [url|]; [|done]. cbn [mbind option_bind]. destruct (_ || _); [done|].
  destruct (parseAuthority (raw_authority _) _) as [d'|] eqn:Ed; [|done]. cbn [mbind option_bind].
  destruct (parseAuthority (url_host url) _) as [u|]; [|done]. cbn [mbind option_bind].
  destruct (negb _); [done|]. rewrite raw_get.
  destruct (request_values "host" request) as [|hostHeader [|]] eqn:Eh; try done.
  destruct (parseAuthority hostHeader _) as [metadata|] eqn:Em; [|done]. cbn [mbind option_bind].
  destruct (same_destination metadata d') eqn:Es; [|done]. cbn [negb]. intros [= <- <-].
  destruct (im_url request) as [target|] eqn:Eu; [|by vm_compute in Et]. cbn [default] in *.
  exists target, hostHeader, metadata. unfold target_text_ok in Et. breflect.
  split_and!; try done. by destruct (String.eqb _ "") eqn:E; [|apply String.eqb_neq in E].
Qed.

Lemma outboundHeaders_inv request d websocket out : outboundHeaders request d websocket = Some out →
  ∃ named, framed request websocket named ∧
    (∀ name, map_get name out =
       if websocket && bool_decide (name = "upgrade") then Some ["websocket"]
       else if websocket && bool_decide (name = "connection") then Some ["Upgrade"]
       else if bool_decide (name = "host") then Some [authorityFor (ds_host d) (ds_port d) (Some 80)]
       else if dropped named name then None
       else match request_values name request with [] => None | vs => Some vs end) ∧
    (websocket = true → "upgrade" ∈ named ∧ (toLowerCase ∘ trim) <$> request_values "upgrade" request = ["websocket"]).
Proof.
  unfold outboundHeaders. destruct (validateFraming request websocket) as [raw|] eqn:Ef; [|done]. cbn [mbind option_bind].
  apply validateFraming_inv in Ef as (-> & named & Hf). rewrite (framed_named _ _ _ Hf). cbn [mbind option_bind].
  intros E. exists named. split; [done|].
  assert (Hbase : ∀ name, map_get name (map_set "host" [authorityFor (ds_host d) (ds_port d) (Some 80)]
      (forwarded_headers (rawHeaderMap request) named)) =
    if bool_decide (name = "host") then Some [authorityFor (ds_host d) (ds_port d) (Some 80)]
    else if dropped named name then None else match request_values name request with [] => None | vs => Some vs end).
  { intros name. rewrite map_get_set. destruct (decide (name = "host")) as [->|Hn]; [done|].
    rewrite bool_decide_false by done. by rewrite forwarded_get, raw_get by apply raw_unique. }
  destruct websocket; cbn [negb andb] in *.
  - destruct (negb _ || _) eqn:Eb; [done|]. injection E as <-. apply orb_false_iff in Eb as [Eb1 Eb2].
    apply negb_false_iff, bool_decide_eq_true in Eb1. apply negb_false_iff, includes_elem in Eb2.
    rewrite first_value_get in Eb1. split.
    + intros name. rewrite !map_get_set. destruct (decide (name = "upgrade")) as [->|Hu]; [done|].
      rewrite (bool_decide_false (name = "upgrade")) by done.
      destruct (decide (name = "connection")) as [->|Hc]; [done|]. rewrite (bool_decide_false (name = "connection")) by done.
      rewrite <-map_get_set. apply Hbase.
    + intros _. split; [done|]. pose proof (framed_critical _ _ _ Hf "upgrade" ltac:(set_solver)) as Hl.
      destruct (request_values "upgrade" request) as [|u [|]]; [done| |cbn in Hl; lia]. cbn in Eb1 |- *. by injection Eb1 as ->.
  - injection E as <-. split; [exact Hbase|done].
Qed.

(** The headers that go out for a request that was read. *)
Definition outgoing_headers (kind : request_kind) (request : IncomingMessage) (d : Destination) (headers : header_map)
    : option header_map :=
  match kind with PlainRequest => outboundHeaders request d false | _ => Some headers end.

Lemma read_outgoing kind request d path headers : kind ≠ ConnectRequest →
  read_request kind request = Some (d, path, headers) →
  parseAbsoluteRequest request = Some (d, path) ∧
  ∃ out, outgoing_headers kind request d headers = Some out ∧
    outboundHeaders request d (bool_decide (kind = UpgradeRequest)) = Some out.
Proof.
  intros Hk. destruct kind; [| done|]; cbn [read_request outgoing_headers].
  - unfold read_plain. destruct (validateFraming request false) as [raw|] eqn:Ef; [|done]. cbn [mbind option_bind].
    destruct (parseAbsoluteRequest request) as [[d' path']|] eqn:Ea; [|done]. cbn [mbind option_bind].
    destruct (connectionTokens _) as [tokens|] eqn:Et; [|done]. cbn [mbind option_bind]. destruct (_ || _); [done|].
    intros [= <- <- <-]. split; [done|]. rewrite bool_decide_false by done. unfold outboundHeaders.
    destruct (validateFraming_inv _ _ _ Ef) as [-> _]. rewrite Ef. cbn [mbind option_bind]. rewrite Et. by eexists.
  - unfold read_upgrade. destruct (negb _); [done|]. destruct (parseAbsoluteRequest request) as [[d' path']|] eqn:Ea; [|done].
    cbn [mbind option_bind]. destruct (outboundHeaders request d' true) as [out|] eqn:Eo; [|done]. cbn [mbind option_bind].
    intros [= <- <- <-]. split; [done|]. rewrite bool_decide_true by done. by exists out.
Qed.

(** C14: what is forwarded is unambiguous. When a plain or upgrade request is
    read, its headers can be sent, and the single Host header of what is sent is
    the text of the one destination that the target and the client's single Host
    header agree on. Every other header that is sent is the client's, with its
    values unchanged and in order, and is no hop-by-hop header and none that the
    Connection header names, but for the two headers of a WebSocket upgrade, which
    the client asked for; and every such header of the client is sent. The request
    has at most one of Content-Length and Transfer-Encoding, once, neither with an
    upgrade; the length is a numeral and never dropped; and no value has control
    characters. *)
Theorem forwarded_requests_are_unambiguous kind request d path headers :
  kind ≠ ConnectRequest → read_request kind request = Some (d, path, headers) →
  ∃ out, outgoing_headers kind request d headers = Some out ∧
  map_get "host" out = Some [authorityFor (ds_host d) (ds_port d) (Some 80)] ∧
  (∃ target hostHeader metadata, im_url request = Some target ∧
     parseAuthority (raw_authority target) (Some 80) = Some d ∧ request_values "host" request = [hostHeader] ∧
     parseAuthority hostHeader (Some 80) = Some metadata ∧ same_destination metadata d = true) ∧
  (∀ name values, map_get name out = Some values → name ≠ "host" →
     (kind = UpgradeRequest ∧ (name = "connection" ∧ values = ["Upgrade"] ∨ name = "upgrade" ∧ values = ["websocket"])) ∨
     (name ∉ HOP_BY_HOP ∧ ¬ named_by_connection request name ∧ values = request_values name request)) ∧
  (∀ name, name ∉ "host" :: "__proto__" :: HOP_BY_HOP → ¬ named_by_connection request name →
     request_values name request ≠ [] → map_get name out = Some (request_values name request)) ∧
  (length (request_values "content-length" request) + length (request_values "transfer-encoding" request) ≤
     if bool_decide (kind = UpgradeRequest) then 0 else 1)%nat ∧
  (∀ v, v ∈ request_values "content-length" request →
     valid_content_length (trim v) = true ∧ map_get "content-length" out = Some [v]) ∧
  (∀ name v, v ∈ request_values name request → str_all (λ a, negb (control_char a)) v = true).
Proof.
  intros Hk Hr. destruct (read_outgoing _ _ _ _ _ Hk Hr) as (Ha & out & Ho & Hout). exists out. split; [done|].
  destruct (outboundHeaders_inv _ _ _ _ Hout) as (named & Hf & Hget & Hup).
  assert (Hdrop : ∀ name, dropped named name = false ↔
    name ≠ "host" ∧ name ≠ "__proto__" ∧ name ∉ HOP_BY_HOP ∧ ¬ named_by_connection request name).
  { intros name. rewrite <-(framed_names _ _ _ Hf). unfold dropped. rewrite !orb_false_iff, !String.eqb_neq.
    rewrite <-!(includes_elem name), !not_true_iff_false. naive_solver. }
  assert (Hws : ∀ name, name ≠ "connection" → name ≠ "upgrade" → name ≠ "host" →
    map_get name out = if dropped named name then None else match request_values name request with [] => None | vs => Some vs end).
  { intros name K1 K2 K3. rewrite Hget, !(bool_decide_false (name = _)) by done. by rewrite !andb_false_r. }
  split_and!.
  - rewrite Hget. rewrite !(bool_decide_false ("host" = _)) by done. by rewrite !andb_false_r, bool_decide_true.
  - destruct (parseAbsoluteRequest_inv _ _ _ Ha) as (target & hostHeader & metadata & ? & _ & ? & ? & ? & ? & _).
    by exists target, hostHeader, metadata.
  - intros name values Hv Hn. rewrite Hget in Hv. destruct (bool_decide (kind = UpgradeRequest)) eqn:Ek; cbn [andb] in Hv.
    + apply bool_decide_eq_true in Ek. destruct (bool_decide (name = "upgrade")) eqn:E1; [left; breflect; injection Hv as <-; auto|].
      destruct (bool_decide (name = "connection")) eqn:E2; [left; breflect; injection Hv as <-; auto|]. right.
      rewrite bool_decide_false in Hv by done. destruct (dropped named name) eqn:Ed; [done|]. apply Hdrop in Ed as (_ & _ & ? & ?).
      destruct (request_values name request); [done|]. by injection Hv as <-.
    + right. rewrite bool_decide_false in Hv by done. destruct (dropped named name) eqn:Ed; [done|]. apply Hdrop in Ed as (_ & _ & ? & ?).
      destruct (request_values name request); [done|]. by injection Hv as <-.
  - intros name Hn Hnamed Hne. rewrite !not_elem_of_cons in Hn. destruct Hn as (K1 & K2 & K3).
    rewrite Hws by (done || (intros ->; apply K3; set_solver)).
    rewrite (proj2 (Hdrop name)) by (split_and!; [done|done|set_solver|done]). by destruct (request_values name request).
  - exact (framed_body _ _ _ Hf).
  - intros v Hv. split; [by apply (framed_length _ _ _ Hf)|]. rewrite Hws by done.
    rewrite (proj2 (Hdrop "content-length")).
    + pose proof (framed_critical _ _ _ Hf "content-length" ltac:(set_solver)) as Hl.
      destruct (request_values "content-length" request) as [|w [|]]; [by apply elem_of_nil in Hv| |cbn in Hl; lia].
      by apply list_elem_of_singleton in Hv as ->.
    + split_and!; [done|done|set_solver|]. intros Hx%(framed_names _ _ _ Hf). apply (framed_kept _ _ _ Hf) in Hx. set_solver.
  - exact (framed_values _ _ _ Hf).
Qed.
End forwarding.

(** ** Requests *)

Section handling.
Context `{NodeUrlLaws} `{UrlParser} (options : HttpPolicyProxyOptions).

(** The same policy and deadline, as options of the SOCKS proxy. *)
Definition socks_options : Socks5Options :=
  {| so_policy := ho_policy options; so_limits := ho_limits options; so_connectTimeoutMs := ho_connectTimeoutMs options |}.

(** What every state of a running proxy satisfies. *)
Definition proxy_ready (p : http_proxy) : Prop := auditor_ready (hp_auditor p) ∧ admission_ok (hp_admission p).

(** The one event that a decision adds to the audit. *)
Definition audits (kind : request_kind) (d : Destination) (decision : verdict) (reason : NetworkAuditReason) (p p' : http_proxy) : Prop :=
  ∃ e, au_sunk (hp_auditor p') = (au_sunk (hp_auditor p) ++ [e])%list ∧ ae_protocol e = audit_protocol kind ∧
    ae_host e = nh_host (ds_host d) ∧ ae_port e = ds_port d ∧ ae_decision e = decision ∧ ae_reason e = reason.

(** A request that waits was read, is permitted, and holds a lease. *)
Definition admitted (w : waiting_request) : Prop :=
  read_request (wr_kind w) (wr_request w) = Some (wr_destination w, wr_path w, wr_headers w) ∧
  permitted socks_options (ds_host (wr_destination w)) (ds_port (wr_destination w)).
Definition lease_held (w : waiting_request) (p : http_proxy) : Prop :=
  (wr_lease w < issued (hp_admission p))%nat ∧ wr_lease w ∉ released (hp_admission p).

Lemma read_destination kind request d path headers : read_request kind request = Some (d, path, headers) →
  normalizeDestinationHost (nh_host (ds_host d)) = Ok (ds_host d) ∧ 1 ≤ ds_port d ≤ 65535.
Proof.
  assert (H80 : ∀ port, Some 80 = Some port → 1 ≤ port ≤ 65535) by (intros port [= <-]; lia).
  destruct (decide (kind = ConnectRequest)) as [->|Hk].
  - cbn [read_request]. unfold read_connect. destruct (validateFraming request true); [|done]. cbn [mbind option_bind].
    destruct (parseConnectRequest request) as [d'|] eqn:E; [|done]. cbn [mbind option_bind]. intros [= <- _ _].
    unfold parseConnectRequest in E. destruct (parseAuthority _ None) as [d0|] eqn:Ea; [|done]. cbn [mbind option_bind] in E.
    assert (d0 = d') as <-.
    { destruct (map_get "host" _) as [[|hostHeader [|]]|]; [done| |done|by injection E].
      destruct (parseAuthority hostHeader None); [|done]. cbn [mbind option_bind] in E. destruct (negb _); [done|]. by injection E. }
    destruct (parseAuthority_inv _ _ _ Ea) as (? & ? & _); [done|]. by split.
  - intros Hr. destruct (read_outgoing _ _ _ _ _ Hk Hr) as (Ha & _).
    destruct (parseAbsoluteRequest_inv _ _ _ Ha) as (target & _ & _ & _ & _ & Hd & _).
    destruct (parseAuthority_inv _ _ _ Hd H80) as (? & ? & _). by split.
Qed.

Lemma refuse_ok kind d reason now p :
  proxy_ready p → normalizeDestinationHost (nh_host (ds_host d)) = Ok (ds_host d) → 1 ≤ ds_port d ≤ 65535 → valid_time now →
  reason ≠ ByAllowlist →
  ∃ p', refuse kind d reason now p = (p', refusal reason) ∧ audits kind d Deny reason p p' ∧
    hp_admission p' = hp_admission p ∧ proxy_ready p'.
Proof.
  intros [Hau Had] Hn Hp Ht Hr.
  destruct (audit_accepts (audit_protocol kind) (hp_auditor p) (ds_host d) (ds_port d) Deny reason now Hau Hn Hp Ht)
    as (au & e & Erec & Hready & Hsunk & He); [split; [done|by intros ?%Hr]|].
  unfold refuse, http_audit. rewrite Erec. eexists. split; [done|]. split; [by exists e|]. split; [done|]. by split.
Qed.

Lemma released_lease l a : admission_ok a → (l < issued a)%nat → l ∉ released a →
  ad_active (release l a) = ad_active a - 1 ∧ l ∈ released (release l a) ∧ admission_ok (release l a).
Proof.
  intros Ha Hi Hl. destruct (release_ok l a Ha Hi) as [Hok _]. unfold release in *. rewrite bool_decide_false in * by done.
  cbn. split_and!; [done|set_solver|done].
Qed.

(** How a request ends that was refused before or after it waited. *)
Definition refused (kind : request_kind) (d : Destination) (o : http_outcome) (p p' : http_proxy) : Prop :=
  ∃ reason, o = refusal reason ∧ reason ≠ ByAllowlist ∧ audits kind d Deny reason p p'.

Lemma gate_ok kind d now p :
  proxy_ready p → normalizeDestinationHost (nh_host (ds_host d)) = Ok (ds_host d) → 1 ≤ ds_port d ≤ 65535 → valid_time now →
  match gate options kind d now p with
  | (p', inl lease) => permitted socks_options (ds_host d) (ds_port d) ∧ lease = issued (hp_admission p) ∧
      hp_auditor p' = hp_auditor p ∧ (acquire (hp_admission p)) = (Some lease, hp_admission p')
  | (p', inr o) => refused kind d o p p' ∧ hp_admission p' = hp_admission p
  end.
Proof.
  intros Hready Hn Hp Ht. unfold gate.
  destruct (decided socks_options (ds_host d) (ds_port d) Hn Hp) as (policy & Hd & Hreason). cbn [socks_options so_policy] in Hd.
  rewrite Hd. destruct (allowed policy) eqn:Ea; cbn [negb].
  2: { destruct (refuse_ok kind d (audit_reason (reason policy)) now p Hready Hn Hp Ht) as (p' & -> & Hau & Hadm & _); [by apply Hreason|].
       split; [|done]. eexists. split; [done|]. split; [by apply Hreason|done]. }
  destruct (acquire (hp_admission p)) as [[lease|] adm] eqn:Eq.
  - destruct (acquire_Some _ _ _ Eq) as (-> & _). split; [|done]. split; [done|]. split; [lia|]. by exists policy.
  - destruct (refuse_ok kind d ByLimit now p Hready Hn Hp Ht) as (p' & -> & Hau & Hadm & _); [done|].
    split; [|done]. by eexists.
Qed.

Lemma failed_request w error now p :
  proxy_ready p → admitted w → lease_held w p → valid_time now →
  ∃ p' reason, connect_failed w error now p = (p', inr (refusal reason)) ∧ reason ≠ ByAllowlist ∧
    audits (wr_kind w) (wr_destination w) Deny reason p p' ∧
    ad_active (hp_admission p') = ad_active (hp_admission p) - 1 ∧ wr_lease w ∈ released (hp_admission p').
Proof.
  intros [Hau Had] [Hr (Hn & Hp & _)] [Hi Hl] Ht. destruct (released_lease _ _ Had Hi Hl) as (Ha & Hin & Hok). unfold connect_failed.
  set (p1 := p <| hp_admission := release (wr_lease w) (hp_admission p) |>).
  assert (Hnr : pinnedFailureReason error ≠ ByAllowlist) by (by destruct error as [[]|]).
  destruct (refuse_ok (wr_kind w) (wr_destination w) (pinnedFailureReason error) now p1) as (p' & -> & Haud & Hadm & _); try done.
  exists p', (pinnedFailureReason error). split; [done|]. split; [done|]. split; [exact Haud|]. rewrite Hadm. by split.
Qed.

(** The stream that a request reached. *)
Definition reached (w : waiting_request) (r : result connection_thrown PinnedConnection) (socket : nat) (p p' : http_proxy) : Prop :=
  ∃ connection bs, r = Ok connection ∧ pc_socket connection = socket ∧ public_bytes bs ∧ pc_address connection = pin_of bs ∧
    (nh_kind (ds_host (wr_destination w)) = KindIp →
       ∃ q, parseIpAddress (nh_host (ds_host (wr_destination w))) = Some q ∧ bytes q = bs) ∧
    audits (wr_kind w) (wr_destination w) Allow ByAllowlist p p' ∧
    hp_admission p' = hp_admission p ∧ hp_leases p' !! socket = Some (wr_lease w) ∧ set_owns (hp_connections p') socket.

Lemma connected_request w connection now p :
  proxy_ready p → admitted w → valid_time now →
  (∃ env u h, run_prog env [] (http_connector options w tt) = ((Next connection, u), h)) →
  ∃ p', after_connect w (Ok connection) now p = (p', inl (pc_socket connection)) ∧
    reached w (Ok connection) (pc_socket connection) p p'.
Proof.
  intros [Hau Had] [Hr (Hn & Hp & _)] Ht (env & u & h & Hrun).
  destruct (connector_result socks_options (ds_host (wr_destination w)) (ds_port (wr_destination w)) env connection u h Hrun)
    as (bs & Hb & Hc & Hk).
  destruct (audit_accepts (audit_protocol (wr_kind w)) (hp_auditor p) _ _ Allow ByAllowlist now Hau Hn Hp Ht)
    as (au & e & Erec & Hready & Hsunk & He); [done|].
  unfold after_connect, http_audit. cbn [hp_auditor with_field]. rewrite Erec. eexists. split; [done|].
  exists connection, bs. split_and!; try done; [by exists e|cbn; by rewrite lookup_insert_eq|apply add_owned].
Qed.

(** C13: every request is answered or reaches a permitted destination. Whatever
    the state of the proxy: a request that cannot be read is answered as bad and
    changes nothing; one that the policy or the limit refuses is answered with
    that reason, which was audited once as a denial, and holds no lease; any other
    waits with a new lease for the connector. And however the state changed
    meanwhile, if the request still holds its lease: what the connector did
    decides. A connection becomes the stream of the request, to a permitted
    destination at a public address, the literal's own if it is one; it was
    audited once as allowed, its owner can destroy it, and its lease is released
    when it closes and not before; a plain request or upgrade is forwarded with
    the headers of its text. A failure is answered with its reason, audited once
    as a denial, and gives the lease back. No request is left unanswered. *)
Theorem http_requests_reach_only_permitted :
  (∀ kind request now p, proxy_ready p → valid_time now →
     match start_request options kind request now p with
     | (p', inr o) =>
         hp_admission p' = hp_admission p ∧
         (o = BadRequest ∧ p' = p ∧ read_request kind request = None ∨
          ∃ d path headers, read_request kind request = Some (d, path, headers) ∧ refused kind d o p p')
     | (p', inl w) =>
         wr_kind w = kind ∧ wr_request w = request ∧ admitted w ∧ lease_held w p' ∧ proxy_ready p' ∧
         hp_auditor p' = hp_auditor p ∧ ad_active (hp_admission p') = ad_active (hp_admission p) + 1
     end) ∧
  (∀ w r now p, proxy_ready p → valid_time now → admitted w → lease_held w p →
     (∃ env u h, run_prog env [] (http_connector options w tt) = ((match r with Ok c => Next c | Err e => Throw e end, u), h)) →
     match finish_request w r now p with
     | (p', Forwarded socket method path headers) =>
         reached w r socket p p' ∧ wr_kind w ≠ ConnectRequest ∧ path = wr_path w ∧
         outgoing_headers (wr_kind w) (wr_request w) (wr_destination w) (wr_headers w) = Some headers
     | (p', Tunnelled socket) => reached w r socket p p' ∧ wr_kind w = ConnectRequest
     | (p', o) => refused (wr_kind w) (wr_destination w) o p p' ∧
         ad_active (hp_admission p') = ad_active (hp_admission p) - 1 ∧ wr_lease w ∈ released (hp_admission p')
     end) ∧
  (∀ socket lease p, admission_ok (hp_admission p) → hp_leases p !! socket = Some lease →
     (lease < issued (hp_admission p))%nat → lease ∉ released (hp_admission p) →
     ad_active (hp_admission (http_stream_closed socket p)) = ad_active (hp_admission p) - 1 ∧
     http_stream_closed socket (http_stream_closed socket p) = http_stream_closed socket p).
Proof.
  split_and!.
  - intros kind request now p Hready Ht. unfold start_request.
    destruct (read_request kind request) as [[[d path] headers]|] eqn:Er; [|split; [done|by left]].
    destruct (read_destination _ _ _ _ _ Er) as [Hn Hp]. pose proof (gate_ok kind d now p Hready Hn Hp Ht) as Hg.
    destruct (gate options kind d now p) as [p' [lease|o]].
    + destruct Hg as (Hperm & -> & Hau & Eq). destruct (acquire_Some _ _ _ Eq) as (_ & Ei & Erel & _).
      pose proof (acquire_ok _ (proj2 Hready)) as [Hok _]. rewrite Eq in Hok. cbn in Hok.
      split; [done|]. split; [done|]. split; [by split|]. split; [|split; [split; [by rewrite Hau; apply Hready|done]|split; [done|]]].
      * split; cbn; [rewrite Ei; lia|]. rewrite Erel. intros Hx%(leases_known _ (proj2 Hready)). lia.
      * unfold acquire in Eq. destruct (_ || _); [done|]. by injection Eq as <-.
    + destruct Hg as [Href Hadm]. split; [done|]. right. by exists d, path, headers.
  - intros w r now p Hready Ht Hw Hl Hrun. unfold finish_request. destruct r as [connection|error].
    + destruct (connected_request w connection now p Hready Hw Ht Hrun) as (p' & -> & Hre). destruct Hw as [Hr _].
      destruct (wr_kind w) eqn:Ek; [|by split|].
      * destruct (read_outgoing PlainRequest _ _ _ _ ltac:(done) Hr) as (_ & out & Ho & _). cbn [outgoing_headers] in *. rewrite Ho. by split_and!.
      * by split_and!.
    + destruct (failed_request w error now p Hready Hw Hl Ht) as (p' & reason & E & Hnr & Haud & Hact & Hrel).
      cbn [after_connect]. rewrite E. unfold refusal. destruct (isPolicyDenial reason) eqn:Ed.
      all: split; [exists reason; unfold refusal; by rewrite Ed|done].
  - intros socket lease p Had Hs Hi Hl. destruct (released_lease _ _ Had Hi Hl) as (Ha & _).
    unfold http_stream_closed at 1 3. rewrite Hs. split; [exact Ha|].
    unfold http_stream_closed. cbn. by rewrite Hs, lookup_delete_eq.
Qed.
End handling.

(** ** A request *)

#[local] Instance sample_parser : UrlParser := λ target,
  if String.eqb target "http://a.io:443/x?y=1"
  then Some {| url_protocol := "http:"; url_username := ""; url_password := ""; url_hostname := "a.io";
               url_host := "a.io:443"; url_pathname := "/x"; url_search := "?y=1" |}
  else None.
Definition sample_request : IncomingMessage :=
  {| im_method := "POST"; im_url := Some "http://a.io:443/x?y=1";
     im_rawHeaders := [("Host", "A.io:443"); ("Connection", "keep-alive, X-Hop"); ("X-Hop", "1");
                       ("Accept", "text/a"); ("Accept", "text/b"); ("Content-Length", "3"); ("Proxy-Authorization", "Basic eA==")] |}.
Definition sample_read : option (Destination * string * header_map) := read_request PlainRequest sample_request.

Lemma authorities_have_one_text_witness :
  match parseAuthority "[2606:4700:0:0::1111]:8443" (Some 80) with
  | Some d => ds_authority d = "[2606:4700::1111]:8443" ∧ parseAuthority (ds_authority d) (Some 80) = Some d
  | None => False
  end.
Proof.
  assert (H80 : ∀ port, Some 80 = Some port → 1 ≤ port ≤ 65535) by (intros port E; injection E as <-; split; discriminate).
  destruct (authorities_have_one_text "[2606:4700:0:0::1111]:8443" (Some 80) H80) as [Hd _].
  destruct (parseAuthority "[2606:4700:0:0::1111]:8443" (Some 80)) as [d|] eqn:E; [|vm_compute in E; discriminate E].
  destruct (Hd d eq_refl) as (_ & _ & _ & Hp). split; [|exact Hp]. vm_compute in E. injection E as <-. reflexivity.
Defined.

Lemma forwarded_requests_are_unambiguous_witness :
  ∃ d path headers out, sample_read = Some (d, path, headers) ∧ path = "/x?y=1" ∧
    outgoing_headers PlainRequest sample_request d headers = Some out ∧ map_get "host" out = Some ["a.io:443"] ∧
    map_get "accept" out = Some ["text/a"; "text/b"] ∧ map_get "content-length" out = Some ["3"] ∧
    map_get "x-hop" out = None.
Proof.
  destruct sample_read as [[[d path] headers]|] eqn:E; [|vm_compute in E; discriminate E].
  destruct (forwarded_requests_are_unambiguous PlainRequest sample_request d path headers ltac:(discriminate) E)
    as (out & Ho & Hh & _ & _ & _ & _ & Hl & _).
  exists d, path, headers, out. split; [reflexivity|]. vm_compute in E. injection E as <- <- <-. split; [reflexivity|].
  split; [exact Ho|]. split; [exact Hh|]. vm_compute in Ho. injection Ho as <-. split; [reflexivity|]. split; [|reflexivity].
  refine (proj2 (Hl "3" _)). left.
Defined.

Definition sample_http : HttpPolicyProxyOptions :=
  {| ho_policy := Socks5Safety.sample_policy; ho_connectTimeoutMs := 1000;
     ho_limits := {| maxConnections := 2; idleTimeoutMs := 1000; maxConnectionBytes := 10 |} |}.
Definition sample_http_proxy : http_proxy :=
  {| hp_admission := sample_admission; hp_connections := newConnectionSet; hp_leases := ∅; hp_auditor := sample_auditor;
     hp_destroyed := [] |}.

Lemma http_requests_reach_only_permitted_witness :
  match start_request sample_http PlainRequest sample_request 5 sample_http_proxy with
  | (p1, inl w) =>
      ad_active (hp_admission p1) = 1 ∧
      match finish_request w (Ok sample_connection) 6 p1 with
      | (p2, Forwarded socket method path headers) =>
          socket = 2%nat ∧ method = "POST" ∧ path = "/x?y=1" ∧ hp_admission p2 = hp_admission p1 ∧
          hp_leases p2 !! 2%nat = Some (wr_lease w)
      | _ => False
      end
  | _ => False
  end.
Proof.
  destruct (http_requests_reach_only_permitted sample_http) as (Hstart & Hfinish & _).
  assert (Hready : proxy_ready sample_http_proxy).
  { split; [vm_compute; repeat split|]. split; [intros l Hl; exfalso; vm_compute in Hl; discriminate Hl|reflexivity|vm_compute; discriminate]. }
  assert (Ht : ∀ t, t = 5 ∨ t = 6 → valid_time t) by (intros t [->| ->]; split; [discriminate|reflexivity|discriminate|reflexivity]).
  specialize (Hstart PlainRequest sample_request 5 sample_http_proxy Hready (Ht 5 (or_introl eq_refl))).
  destruct (start_request sample_http PlainRequest sample_request 5 sample_http_proxy) as [p1 [w|o]] eqn:E;
    [|vm_compute in E; discriminate E].
  destruct Hstart as (_ & _ & Hw & Hl & Hready1 & _ & Hact). split; [exact Hact|].
  specialize (Hfinish w (Ok sample_connection) 6 p1 Hready1 (Ht 6 (or_intror eq_refl)) Hw Hl).
  assert (Hrun : ∃ env u h, run_prog env [] (http_connector sample_http w tt) = ((Next sample_connection, u), h)).
  { exists sample_network, tt. eexists. vm_compute in E. injection E as _ <-. vm_compute. reflexivity. }
  specialize (Hfinish Hrun).
  destruct (finish_request w (Ok sample_connection) 6 p1) as [p2 o] eqn:E2.
  vm_compute in E. injection E as <- <-. vm_compute in E2. injection E2 as <- <-.
  destruct Hfinish as ((c & bs & _ & _ & _ & _ & _ & _ & Hadm & Hlease & _) & _).
  split; [reflexivity|]. split; [reflexivity|]. split; [reflexivity|]. split; [exact Hadm|exact Hlease].
Defined.
