(* ===== verification/SandboxConfig.v ===== *)
(** The configuration of the sandbox ([src/server/sandbox/config.ts]): roots of
    workspaces, read-only mounts and the guest's search path, read from the
    environment and checked against the file system, which does not change
    meanwhile. *)
From S2P Require Import Prelude JsValues Texts PosixPath Protocol Workspaces NetworkPolicy EgressConfig.
#[local] Open Scope string_scope. #[local] Open Scope Z_scope.
#[local] Arguments String.append : simpl nomatch.

(** ** Data *)

(** src/server/sandbox/config.ts:10-10 DEFAULT_SANDBOX_MODE *)
Definition DEFAULT_SANDBOX_MODE : SandboxMode := ModeDisabled.
(** src/server/sandbox/config.ts:11-11 DEFAULT_BWRAP_PATH *)
Definition DEFAULT_BWRAP_PATH : string := "/usr/bin/bwrap".
(** src/server/sandbox/config.ts:12-12 DEFAULT_SANDBOX_PATH *)
Definition DEFAULT_SANDBOX_PATH : string := "/usr/bin:/bin".
(** src/server/sandbox/config.ts:13-13 DEFAULT_SANDBOX_START_TIMEOUT_MS *)
Definition DEFAULT_SANDBOX_START_TIMEOUT_MS : Z := 5000.
(** src/server/sandbox/config.ts:14-14 DEFAULT_SANDBOX_COMMAND_TIMEOUT_MS *)
Definition DEFAULT_SANDBOX_COMMAND_TIMEOUT_MS : Z := 900000.
(** src/server/sandbox/config.ts:15-15 DEFAULT_SANDBOX_MAX_COMMAND_OUTPUT_BYTES *)
Definition DEFAULT_SANDBOX_MAX_COMMAND_OUTPUT_BYTES : Z := 64 * 1024 * 1024.
(** src/server/sandbox/config.ts:18-19 REMOTE_PROVIDER_DISCLOSURE_WARNING *)
Definition REMOTE_PROVIDER_DISCLOSURE_WARNING : string :=
  "Workspace content may still be sent to the configured model provider.".

Inductive mount_kind := FileMount | DirectoryMount.
#[export] Instance mount_kind_eq : EqDecision mount_kind.
Proof. solve_decision. Defined.

(** src/server/sandbox/config.ts:25-30 SandboxReadOnlyMount *)
Record SandboxReadOnlyMount := { ro_source : string; ro_destination : string; ro_kind : mount_kind }.

(** src/server/sandbox/config.ts:32-41 SandboxConfig *)
Record SandboxConfig := {
  sc_mode : SandboxMode;
  sc_bwrapPath : string;
  sc_workspaceRoots : list string;
  sc_readOnlyMounts : list SandboxReadOnlyMount;
  sc_guestPath : string;
  sc_startTimeoutMs : Z;
  sc_commandTimeoutMs : Z;
  sc_maxCommandOutputBytes : Z;
}.

(** [realpath] and [stat]; [None] where they throw. Files of another kind are
    neither. *)
(** src/server/sandbox/config.ts:43-53 SandboxConfigFileSystem *)
Inductive path_kind := IsDirectory | IsFile | IsOther.
Record SandboxConfigFileSystem := { fs_realpath : string → option string; fs_stat : string → option path_kind }.

(** src/server/sandbox/config.ts:55-66 PROTECTED_MOUNT_DESTINATIONS *)
Definition PROTECTED_MOUNT_DESTINATIONS : list string :=
  ["/app"; "/dev"; "/etc"; "/mounts"; "/proc"; "/run"; "/sys"; "/tmp"; "/var/tmp"; "/workspace"].

Section config.
Context `{TextConversions} (environment : environment_of) (fileSystem : SandboxConfigFileSystem) (cwd : string).

(** src/server/sandbox/config.ts:68-75 isContained *)
Definition isContained (parent child : string) : bool :=
  let relative := relative cwd parent child in
  String.eqb relative ""
  || (negb (String.eqb relative "..") && negb (starts_with "../" relative) && negb (is_absolute relative)).

(** src/server/sandbox/config.ts:77-79 overlaps *)
Definition overlaps (left right : string) : bool := isContained left right || isContained right left.

(** src/server/sandbox/config.ts:81-88 parseMode *)
Definition parseSandboxMode : result config_thrown SandboxMode :=
  match environment "CHATWCA_SANDBOX_MODE" with
  | None => Ok DEFAULT_SANDBOX_MODE
  | Some raw =>
      if String.eqb raw "disabled" then Ok ModeDisabled
      else if String.eqb raw "optional" then Ok ModeOptional
      else if String.eqb raw "required" then Ok ModeRequired
      else config_error "CHATWCA_SANDBOX_MODE must be disabled, optional, or required"
  end.

(** src/server/sandbox/config.ts:90-113 parseJsonStringArray *)
Definition parseJsonStringArray (variable : string) : result config_thrown (list string) :=
  match environment variable with
  | None => Ok []
  | Some raw =>
      if String.eqb (trim raw) "" then config_error (variable +:+ " must not be empty")
      else
        match json_parse raw with
        | Some (JsonArray items) =>
            match all_strings items with
            | None => config_error (variable +:+ " must be a JSON string array")
            | Some value =>
                if existsb (λ item, String.eqb (trim item) "") value
                then config_error (variable +:+ " entries must not be empty")
                else Ok value
            end
        | _ => config_error (variable +:+ " must be a JSON string array")
        end
  end.

(** src/server/sandbox/config.ts:115-127 positiveInteger *)
Definition positiveInteger (variable : string) (defaultValue : Z) : result config_thrown Z :=
  match environment variable with
  | None => Ok defaultValue
  | Some raw =>
      match number_of raw with
      | JInt value =>
          if negb (isSafeInteger value) || (value <=? 0) then config_error (variable +:+ " must be a positive integer")
          else Ok value
      | JOther => config_error (variable +:+ " must be a positive integer")
      end
  end.

(** The loop over the roots; those found so far are those seen. *)
(** src/server/sandbox/config.ts:135-151 rootsLoop *)
Fixpoint canonical_roots (canonical configured : list string) : result config_thrown (list string) :=
  match configured with
  | [] => Ok canonical
  | root :: rest =>
      if negb (is_absolute root) then config_error "CHATWCA_WORKSPACE_ROOTS entries must be absolute paths"
      else
        match fs_realpath fileSystem root with
        | None => config_error "CHATWCA_WORKSPACE_ROOTS entries must be existing directories"
        | Some real =>
            let resolved := normalize real in
            match fs_stat fileSystem resolved with
            | Some IsDirectory =>
                if includes resolved canonical
                then config_error "CHATWCA_WORKSPACE_ROOTS contains a canonical duplicate"
                else canonical_roots (canonical ++ [resolved])%list rest
            | _ => config_error "CHATWCA_WORKSPACE_ROOTS entries must be existing directories"
            end
        end
  end.
(** src/server/sandbox/config.ts:129-153 canonicalizeRoots *)
Definition canonicalizeRoots (configured : list string) : result config_thrown (list string) := canonical_roots [] configured.

Definition numbered {A} (xs : list A) : list (nat * A) := imap pair xs.

(** src/server/sandbox/config.ts:162-178 inertMounts *)
Definition inert_mounts (configured : list string) : result config_thrown (list SandboxReadOnlyMount) :=
  normalized ← map_throwing (λ source,
    if negb (is_absolute source) then config_error "CHATWCA_SANDBOX_RO_MOUNTS entries must be absolute paths"
    else Ok (normalize source)) configured;
  if existsb (λ '(index, candidate), existsb (λ '(otherIndex, other), negb (Nat.eqb index otherIndex) && overlaps candidate other)
       (numbered normalized)) (numbered normalized)
  then config_error "CHATWCA_SANDBOX_RO_MOUNTS contains overlapping destinations"
  else mret ((λ source, {| ro_source := source; ro_destination := source; ro_kind := DirectoryMount |}) <$> normalized).

(** The loop over the mounts. *)
(** src/server/sandbox/config.ts:183-212 mountsLoop *)
Fixpoint canonical_mounts (mounts : list SandboxReadOnlyMount) (configured : list string)
    : result config_thrown (list SandboxReadOnlyMount) :=
  match configured with
  | [] => Ok mounts
  | source :: rest =>
      if negb (is_absolute source) then config_error "CHATWCA_SANDBOX_RO_MOUNTS entries must be absolute paths"
      else
        match fs_realpath fileSystem source with
        | None => config_error "CHATWCA_SANDBOX_RO_MOUNTS entries must be existing regular files or directories"
        | Some real =>
            let canonical := normalize real in
            match fs_stat fileSystem canonical with
            | Some IsDirectory | Some IsFile =>
                if includes canonical (ro_destination <$> mounts)
                then config_error "CHATWCA_SANDBOX_RO_MOUNTS contains a canonical duplicate"
                else if existsb (λ mount, overlaps (ro_destination mount) canonical) mounts
                then config_error "CHATWCA_SANDBOX_RO_MOUNTS contains overlapping destinations"
                else if existsb (overlaps canonical) PROTECTED_MOUNT_DESTINATIONS
                then config_error "CHATWCA_SANDBOX_RO_MOUNTS overlaps a protected destination"
                else
                  let kind := if match fs_stat fileSystem canonical with Some IsDirectory => true | _ => false end
                              then DirectoryMount else FileMount in
                  canonical_mounts (mounts ++ [{| ro_source := canonical; ro_destination := canonical; ro_kind := kind |}])%list rest
            | _ => config_error "CHATWCA_SANDBOX_RO_MOUNTS entries must be existing regular files or directories"
            end
        end
  end.

(** src/server/sandbox/config.ts:155-214 canonicalizeMounts *)
Definition canonicalizeMounts (configured : list string) (mode : SandboxMode) : result config_thrown (list SandboxReadOnlyMount) :=
  if bool_decide (mode = ModeDisabled) then inert_mounts configured else canonical_mounts [] configured.

(** [entry === dir || entry.startsWith(`${dir}/`)], and then where the link leads. *)
(** src/server/sandbox/config.ts:238-242 compatibilityTarget *)
Definition compatibility_target (entry : string) : option string :=
  if String.eqb entry "/bin" || starts_with "/bin/" entry then Some ("/usr" +:+ entry)
  else if String.eqb entry "/sbin" || starts_with "/sbin/" entry then Some ("/usr" +:+ entry)
  else None.

(** src/server/sandbox/config.ts:226-231 entryText *)
Definition guest_entry_ok (entry : string) : bool :=
  negb (String.eqb entry "") && is_absolute entry && forallb (λ segment, negb (String.eqb segment "")) (tail (split sep entry))
  && String.eqb (normalize entry) entry.

(** src/server/sandbox/config.ts:237-248 supplied *)
Definition entry_supplied (mounts : list SandboxReadOnlyMount) (entry : string) : bool :=
  isContained "/usr" entry
  || match compatibility_target entry with Some target => isContained "/usr" target | None => false end
  || existsb (λ mount, bool_decide (ro_kind mount = DirectoryMount) && isContained (ro_destination mount) entry) mounts.

(** src/server/sandbox/config.ts:225-253 entriesLoop *)
Fixpoint guest_entries (mounts : list SandboxReadOnlyMount) (entries : list string) : result config_thrown unit :=
  match entries with
  | [] => Ok tt
  | entry :: rest =>
      if negb (guest_entry_ok entry)
      then config_error "CHATWCA_SANDBOX_PATH entries must be absolute and contain no empty segments"
      else if negb (entry_supplied mounts entry)
      then config_error "CHATWCA_SANDBOX_PATH contains an entry not supplied by /usr or an approved read-only mount"
      else guest_entries mounts rest
  end.

(** src/server/sandbox/config.ts:216-255 parseGuestPath *)
Definition parseGuestPath (mounts : list SandboxReadOnlyMount) : result config_thrown string :=
  let guestPath := default DEFAULT_SANDBOX_PATH (environment "CHATWCA_SANDBOX_PATH") in
  if String.eqb guestPath "" then config_error "CHATWCA_SANDBOX_PATH must not be empty"
  else guest_entries mounts (split ":"%char guestPath);; mret guestPath.

(** src/server/sandbox/config.ts:257-305 loadSandboxConfig *)
Definition loadSandboxConfig : result config_thrown SandboxConfig :=
  mode ← parseSandboxMode;
  let bwrapPath := default DEFAULT_BWRAP_PATH (environment "CHATWCA_BWRAP_PATH") in
  throw_if (String.eqb (trim bwrapPath) "" || negb (is_absolute bwrapPath))
    (ConfigurationError "CHATWCA_BWRAP_PATH must be a non-empty absolute path");;
  configuredRoots ← parseJsonStringArray "CHATWCA_WORKSPACE_ROOTS";
  workspaceRoots ← canonicalizeRoots configuredRoots;
  throw_if (bool_decide (mode = ModeRequired) && Nat.eqb (length workspaceRoots) 0)
    (ConfigurationError "CHATWCA_WORKSPACE_ROOTS must contain at least one root in required mode");;
  configuredMounts ← parseJsonStringArray "CHATWCA_SANDBOX_RO_MOUNTS";
  readOnlyMounts ← canonicalizeMounts configuredMounts mode;
  guestPath ← parseGuestPath readOnlyMounts;
  startTimeoutMs ← positiveInteger "CHATWCA_SANDBOX_START_TIMEOUT_MS" DEFAULT_SANDBOX_START_TIMEOUT_MS;
  commandTimeoutMs ← positiveInteger "CHATWCA_SANDBOX_COMMAND_TIMEOUT_MS" DEFAULT_SANDBOX_COMMAND_TIMEOUT_MS;
  maxCommandOutputBytes ← positiveInteger "CHATWCA_SANDBOX_MAX_COMMAND_OUTPUT_BYTES" DEFAULT_SANDBOX_MAX_COMMAND_OUTPUT_BYTES;
  mret {| sc_mode := mode; sc_bwrapPath := normalize bwrapPath; sc_workspaceRoots := workspaceRoots;
          sc_readOnlyMounts := readOnlyMounts; sc_guestPath := guestPath; sc_startTimeoutMs := startTimeoutMs;
          sc_commandTimeoutMs := commandTimeoutMs; sc_maxCommandOutputBytes := maxCommandOutputBytes |}.
End config.

(** src/shared/protocol.ts:335-341 PublicSandboxConfig *)
Record PublicSandboxConfig := {
  ps_mode : SandboxMode;
  ps_selectableProfiles : list WorkspaceSecurityProfile;
  ps_remoteProviderWarning : string;
  ps_probeSucceeded : bool;
}.

(** src/server/sandbox/config.ts:307-323 publicSandboxConfig *)
Definition publicSandboxConfig (sandbox : SandboxConfig) (functionalProbeSucceeded : bool) : PublicSandboxConfig :=
  {| ps_mode := sc_mode sandbox;
     ps_selectableProfiles := match sc_mode sandbox with
       | ModeOptional => [Unrestricted; WorkspaceSandboxed]
       | ModeRequired => [WorkspaceSandboxed]
       | ModeDisabled => [Unrestricted]
       end;
     ps_remoteProviderWarning := REMOTE_PROVIDER_DISCLOSURE_WARNING;
     ps_probeSucceeded := functionalProbeSucceeded |}.

(** ** What a loaded configuration is *)

Section loading.
Context `{TextConversions} (environment : environment_of) (fileSystem : SandboxConfigFileSystem) (cwd : string).

Lemma positiveInteger_Ok variable fallback n : positiveInteger environment variable fallback = Ok n →
  0 < fallback → isSafeInteger fallback = true → 0 < n ∧ isSafeInteger n = true.
Proof.
  unfold positiveInteger. destruct (environment variable) as [raw|]; [|by intros [= <-]].
  destruct (number_of raw) as [value|]; [|done]. destruct (isSafeInteger value) eqn:Es; [|done]. cbn [negb orb].
  destruct (value <=? 0) eqn:Ev; [done|]. intros [= <-] _ _. apply Z.leb_gt in Ev. split; [lia|done].
Qed.

Definition known_directory (root : string) : Prop := fs_stat fileSystem root = Some IsDirectory.

Lemma canonical_roots_Ok canonical configured roots :
  canonical_roots fileSystem canonical configured = Ok roots →
  NoDup canonical → Forall known_directory canonical →
  NoDup roots ∧ Forall known_directory roots ∧ length roots = (length canonical + length configured)%nat.
Proof.
  revert canonical. induction configured as [|root rest IH]; intros canonical E Hn Hd; cbn in E.
  - injection E as <-. cbn. by rewrite Nat.add_0_r.
  - destruct (is_absolute root); [|done]. destruct (fs_realpath _ _) as [real|]; [|done]. cbn [negb] in E.
    destruct (fs_stat _ _) as [[]|] eqn:Es; try done. destruct (includes _ _) eqn:Ei; [done|].
    destruct (IH _ E) as (H1 & H2 & H3).
    + apply NoDup_app. split_and!; [done| |apply NoDup_singleton].
      intros x Hx ->%list_elem_of_singleton. apply includes_elem in Hx. congruence.
    + apply Forall_app. by split; [|constructor].
    + split_and!; [done|done|]. rewrite H3, length_app. cbn. lia.
Qed.

(** A mount that the guest may see: what its source is, apart from the guest's
    own places. *)
Definition approved (mount : SandboxReadOnlyMount) : Prop :=
  ro_source mount = ro_destination mount
  ∧ fs_stat fileSystem (ro_source mount) = Some (match ro_kind mount with FileMount => IsFile | DirectoryMount => IsDirectory end)
  ∧ ∀ p, p ∈ PROTECTED_MOUNT_DESTINATIONS → canonicalPathsOverlap cwd (ro_destination mount) p = false.

Definition pairwise_apart (mounts : list SandboxReadOnlyMount) : Prop :=
  ∀ i j m n, i ≠ j → mounts !! i = Some m → mounts !! j = Some n →
    canonicalPathsOverlap cwd (ro_destination m) (ro_destination n) = false.

Lemma pairwise_snoc mounts mount : pairwise_apart mounts →
  (∀ m, m ∈ mounts → canonicalPathsOverlap cwd (ro_destination m) (ro_destination mount) = false) →
  pairwise_apart (mounts ++ [mount]).
Proof.
  intros Hp Hm i j m n Hij Hi Hj. apply lookup_app_Some in Hi, Hj.
  destruct Hi as [Hi|[Hi Hi']], Hj as [Hj|[Hj Hj']].
  - by eapply Hp.
  - apply list_lookup_singleton_Some in Hj' as [_ <-]. by eapply Hm, list_elem_of_lookup_2.
  - apply list_lookup_singleton_Some in Hi' as [_ <-]. rewrite overlap_sym. by eapply Hm, list_elem_of_lookup_2.
  - apply list_lookup_singleton_Some in Hi' as [? _], Hj' as [? _]. lia.
Qed.

Lemma canonical_mounts_Ok mounts configured out :
  canonical_mounts fileSystem cwd mounts configured = Ok out →
  Forall approved mounts → pairwise_apart mounts → Forall approved out ∧ pairwise_apart out.
Proof.
  revert mounts. induction configured as [|source rest IH]; intros mounts E Ha Hp; cbn [canonical_mounts] in E; [by injection E as <-|].
  destruct (is_absolute source); [|done]. destruct (fs_realpath _ _) as [real|]; [|done]. cbn [negb] in E.
  destruct (fs_stat _ _) as [[]|] eqn:Es; try done.
  all: destruct (includes _ _); [done|]; destruct (existsb _ mounts) eqn:Eo; [done|].
  all: destruct (existsb _ PROTECTED_MOUNT_DESTINATIONS) eqn:Epr; [done|].
  all: apply IH in E; [done|apply Forall_app; split; [done|constructor; [|done]]|apply pairwise_snoc; [done|]].
  all: try (split_and!; [done|exact Es|by apply existsb_false]).
  all: by apply existsb_false.
Qed.

Lemma inert_mounts_Ok configured out : inert_mounts cwd configured = Ok out → pairwise_apart out.
Proof.
  unfold inert_mounts. intros E. inv_bind E. destruct (existsb _ _) eqn:Eo; [done|]. injection E as <-.
  intros i j m n Hij Hi Hj. rewrite list_lookup_fmap in Hi, Hj.
  destruct (a !! i) as [x|] eqn:Ex; [|done]. destruct (a !! j) as [y|] eqn:Ey; [|done].
  injection Hi as <-. injection Hj as <-. cbn.
  assert (Hin : ∀ k z, a !! k = Some z → (k, z) ∈ numbered a).
  { intros k z Hk. apply (list_elem_of_lookup_2 _ k). unfold numbered. by rewrite list_lookup_imap, Hk. }
  rewrite existsb_false in Eo. specialize (Eo _ (Hin _ _ Ex)). cbn in Eo.
  rewrite existsb_false in Eo. specialize (Eo _ (Hin _ _ Ey)). cbn in Eo.
  apply andb_false_iff in Eo as [Eo|Eo]; [|exact Eo]. apply negb_false_iff, Nat.eqb_eq in Eo. congruence.
Qed.
End loading.

(** ** The search path of the guest *)

Lemma resolved_heads_apart cwd p q a l b k : resolved_segments cwd [p] = a :: l → resolved_segments cwd [q] = b :: k →
  a ≠ b → canonicalPathsOverlap cwd p q = false.
Proof.
  intros Hp Hq Hab. apply not_true_iff_false. rewrite overlap_spec, Hp, Hq.
  intros [E|E]; apply prefix_cons_inv_1 in E; congruence.
Qed.

(** The segments of a path that is absolute and normal are those written. *)
Lemma normal_path_segments cwd e segments : normalize e = e → is_absolute e = true →
  tail (split sep e) = segments → "" ∉ segments → resolved_segments cwd [e] = segments.
Proof.
  intros En Ha Hs Hne. unfold resolved_segments. cbn [rev app resolve_text].
  destruct e as [|a e]; [done|]. cbn [String.eqb]. rewrite Ha.
  assert (Hn : normal_segments true (String a e +:+ String sep "") = normal_segments true (String a e)).
  { unfold normal_segments. by rewrite split_app, normalize_segments_trailing. }
  rewrite Hn. pose proof (normal_segments_plain (String a e)) as Hp.
  unfold normalize in En. cbn [String.eqb] in En. rewrite Ha in En.
  destruct (normal_segments true (String a e)) as [|s ss] eqn:El.
  - rewrite <-En in Hs. cbn in Hs. subst. set_solver.
  - assert (Hj : split sep (join sep (s :: ss)) = s :: ss).
    { apply split_join; [done|]. eapply Forall_impl; [exact Hp|]. by intros x (_ & _ & _ & ?). }
    destruct (ends_with "/" _).
    + exfalso. apply Hne. rewrite <-Hs, <-En. change ("/"%char) with sep.
      cbn [split]. rewrite Ascii.eqb_refl. cbn [tail]. rewrite (split_app sep (join sep (s :: ss)) ""), Hj. set_solver.
    + rewrite <-Hs, <-En. cbn [split]. rewrite Ascii.eqb_refl. cbn [tail].
      rewrite str_app_nil. by rewrite Hj.
Qed.

Lemma guest_entry_segments cwd e : guest_entry_ok e = true → resolved_segments cwd [e] = tail (split sep e).
Proof.
  unfold guest_entry_ok. intros [[[_ Ha]%andb_true_iff Hs]%andb_true_iff En%String.eqb_eq]%andb_true_iff.
  apply normal_path_segments; try done. intros Hin%list_elem_of_In. rewrite forallb_forall in Hs. by apply Hs in Hin.
Qed.

Lemma starts_with_segment cwd e name : guest_entry_ok e = true → has_char sep name = false →
  String.eqb e (String sep name) || starts_with (String sep (name +:+ "/")) e = true →
  ∃ l, resolved_segments cwd [e] = name :: l.
Proof.
  intros Ho Hn. rewrite (guest_entry_segments cwd e Ho). intros [->%String.eqb_eq|[r ->]%starts_with_spec]%orb_true_iff.
  - exists []. cbn [split]. rewrite Ascii.eqb_refl. cbn [tail]. by rewrite split_no_sep.
  - exists (split sep r). change (String sep (name +:+ "/") +:+ r) with (String sep ((name +:+ "/") +:+ r)).
    rewrite str_app_assoc. cbn [split]. rewrite Ascii.eqb_refl. cbn [tail].
    change ("/" +:+ r) with (String sep r). by rewrite split_app_sep.
Qed.

(** What starts in one of the guest's own places has another first segment than
    the system's directories. *)
Lemma protected_heads cwd p : p ∈ PROTECTED_MOUNT_DESTINATIONS →
  ∃ a l, resolved_segments cwd [p] = a :: l ∧ a ∉ ["usr"; "bin"; "sbin"].
Proof.
  intros Hp. apply list_elem_of_In in Hp. cbn in Hp.
  repeat (destruct Hp as [<-|Hp]; [eexists _, _; split; [reflexivity|set_solver]|]). done.
Qed.

Lemma supplied_apart fileSystem cwd mounts entry p :
  Forall (approved fileSystem cwd) mounts → guest_entry_ok entry = true → entry_supplied cwd mounts entry = true →
  p ∈ PROTECTED_MOUNT_DESTINATIONS → canonicalPathsOverlap cwd p entry = false.
Proof.
  intros Hm Ho Hs Hp. destruct (protected_heads cwd p Hp) as (a & l & Ep & Ha).
  assert (Hhead : ∀ name, name ∈ ["usr"; "bin"; "sbin"] → (∃ k, resolved_segments cwd [entry] = name :: k) →
    canonicalPathsOverlap cwd p entry = false).
  { intros name Hname [k Ek]. eapply resolved_heads_apart; [exact Ep|exact Ek|]. by intros ->. }
  unfold entry_supplied, compatibility_target in Hs. apply orb_true_iff in Hs as [[Hs|Hs]%orb_true_iff|Hs].
  - apply (Hhead "usr"); [set_solver|]. apply contained_prefix in Hs as [k Hk]. by exists k.
  - destruct (_ || starts_with "/bin/" _) eqn:Eb.
    + apply (Hhead "bin"); [set_solver|]. by apply starts_with_segment.
    + destruct (_ || starts_with "/sbin/" _) eqn:Es; [|done].
      apply (Hhead "sbin"); [set_solver|]. by apply starts_with_segment.
  - apply existsb_exists in Hs as (m & Hin%list_elem_of_In & [_ Hc]%andb_true_iff).
    rewrite Forall_forall in Hm. destruct (Hm m Hin) as (_ & _ & Hap).
    rewrite overlap_sym. eapply disjoint_below; [exact (Hap p Hp)|exact Hc|apply contained_refl].
Qed.

Lemma guest_entries_Ok cwd mounts entries : guest_entries cwd mounts entries = Ok tt →
  Forall (λ entry, guest_entry_ok entry = true ∧ entry_supplied cwd mounts entry = true) entries.
Proof.
  induction entries as [|entry rest IH]; cbn [guest_entries]; [by constructor|].
  destruct (guest_entry_ok entry) eqn:Eo; [|done]. destruct (entry_supplied _ _ _) eqn:Es; [|done]. cbn [negb]. eauto.
Qed.

(** C23: what the administrator configures stays apart from what the guest can
    write. Whatever the environment and the file system hold, a configuration that
    loads has distinct roots that are existing directories, at least one in the
    required mode; its mounts never overlap one another; its limits are positive
    safe integers. Unless sandboxing is disabled, each mount is the file or
    directory that the file system has there, at the same path in the guest, and
    neither it nor any entry of the guest's search path overlaps the workspace, the
    temporary directories or any other place that the sandbox keeps for itself. *)
Theorem sandbox_inputs_are_apart `{TextConversions} environment fileSystem cwd c :
  loadSandboxConfig environment fileSystem cwd = Ok c →
  (NoDup (sc_workspaceRoots c) ∧ Forall (known_directory fileSystem) (sc_workspaceRoots c)
   ∧ (sc_mode c = ModeRequired → sc_workspaceRoots c ≠ [])) ∧
  is_absolute (sc_bwrapPath c) = true ∧
  pairwise_apart cwd (sc_readOnlyMounts c) ∧
  Forall (λ n, 0 < n ∧ isSafeInteger n = true) [sc_startTimeoutMs c; sc_commandTimeoutMs c; sc_maxCommandOutputBytes c] ∧
  (sc_mode c ≠ ModeDisabled →
     Forall (approved fileSystem cwd) (sc_readOnlyMounts c) ∧
     ∀ entry p, entry ∈ split ":"%char (sc_guestPath c) → p ∈ PROTECTED_MOUNT_DESTINATIONS →
       canonicalPathsOverlap cwd p entry = false).
Proof.
  unfold loadSandboxConfig. intros E. inv_bind E. injection E as <-. cbn.
  repeat match goal with Hx : positiveInteger _ _ _ = Ok _ |- _ =>
    apply positiveInteger_Ok in Hx; [|reflexivity|reflexivity] end.
  match goal with Hx : canonicalizeRoots _ _ = Ok _ |- _ =>
    destruct (canonical_roots_Ok _ _ _ _ Hx (NoDup_nil_2) (List.Forall_nil _)) as (Hr1 & Hr2 & _) end.
  match goal with Hx : _ || negb (is_absolute _) = false |- _ => apply orb_false_iff in Hx as [_ Hab%negb_false_iff] end.
  match goal with Hx : bool_decide _ && _ = false |- _ => rename Hx into Hreq end.
  match goal with Hx : canonicalizeMounts _ _ _ _ = Ok _ |- _ => rename Hx into Hmounts end.
  match goal with Hx : parseGuestPath _ _ _ = Ok _ |- _ => rename Hx into Hpath end.
  split_and!; [done|done| |by apply normalize_absolute| |by repeat (apply Forall_cons; split)|].
  - intros Hmode Hnil. by rewrite Hnil, bool_decide_eq_true_2 in Hreq.
  - unfold canonicalizeMounts in Hmounts. case_bool_decide; [by eapply inert_mounts_Ok|].
    eapply canonical_mounts_Ok; [exact Hmounts|constructor|]. by intros i j m n _ Hi.
  - intros Hmode. unfold canonicalizeMounts in Hmounts. rewrite bool_decide_eq_false_2 in Hmounts by done.
    destruct (canonical_mounts_Ok _ _ _ _ _ Hmounts (List.Forall_nil _)) as [Hap _]; [by intros i j m n _ Hi|].
    split; [done|]. intros entry p Hentry Hp.
    unfold parseGuestPath in Hpath. destruct (String.eqb _ ""); [done|]. inv_bind Hpath. injection Hpath as <-.
    match goal with Hx : guest_entries _ _ _ = Ok ?u |- _ => destruct u; apply guest_entries_Ok in Hx; rename Hx into Hg end.
    rewrite Forall_forall in Hg. destruct (Hg entry Hentry). by eapply supplied_apart.
Qed.

(** ** A configuration *)

#[local] Instance sample_json : TextConversions := {|
  json_parse s :=
    if String.eqb s "[roots]" then Some (JsonArray [JsonString "/srv/work"])
    else if String.eqb s "[mounts]" then Some (JsonArray [JsonString "/opt/./tools"; JsonString "/data/set.csv"])
    else None;
  number_of s := if str_all is_digit s then JInt (number_from 0 s) else JOther;
|}.
Definition sample_sandbox_environment : environment_of := λ variable,
  if String.eqb variable "CHATWCA_SANDBOX_MODE" then Some "required"
  else if String.eqb variable "CHATWCA_WORKSPACE_ROOTS" then Some "[roots]"
  else if String.eqb variable "CHATWCA_SANDBOX_RO_MOUNTS" then Some "[mounts]"
  else if String.eqb variable "CHATWCA_SANDBOX_PATH" then Some "/opt/tools/bin:/usr/bin:/bin"
  else None.
Definition sample_files : SandboxConfigFileSystem := {|
  fs_realpath p := Some (if String.eqb p "/srv/work" then "/mnt/work" else p);
  fs_stat p := Some (if String.eqb p "/data/set.csv" then IsFile else IsDirectory);
|}.
Definition sample_sandbox : result config_thrown SandboxConfig := loadSandboxConfig sample_sandbox_environment sample_files "/srv/app".

Lemma sandbox_inputs_are_apart_witness :
  match sample_sandbox with
  | Err _ => False
  | Ok c => sc_workspaceRoots c = ["/mnt/work"] ∧ (ro_destination <$> sc_readOnlyMounts c) = ["/opt/tools"; "/data/set.csv"] ∧
      canonicalPathsOverlap "/srv/app" "/workspace" "/opt/tools/bin" = false
  end.
Proof.
  destruct sample_sandbox as [c|e] eqn:E; [|vm_compute in E; discriminate E].
  destruct (sandbox_inputs_are_apart _ _ _ _ E) as (_ & _ & _ & _ & Hon).
  vm_compute in E. injection E as <-. split; [reflexivity|]. split; [reflexivity|].
  apply Hon; [discriminate| |apply list_elem_of_In; cbn; tauto]. apply list_elem_of_In. cbn. tauto.
Defined.
