(* ===== verification/SandboxLaunch.v ===== *)
(** How a sandbox is launched ([src/server/sandbox/bwrap.ts], [fds.ts]): the
    arguments that Bubblewrap is given, the files passed by descriptor, and the
    frame for the managed-egress helper. The arguments are read back by the
    syntax of Bubblewrap's options, and shown to be the plan that was meant. *)
From S2P Require Import Prelude JsValues Texts Errors PosixPath Protocol WorkspaceStore Workspaces NetworkPolicy EgressConfig SandboxConfig.
#[local] Open Scope string_scope. #[local] Open Scope Z_scope.
#[local] Arguments String.append : simpl nomatch.

(** Bytes of a buffer. *)
Definition buffer : Type := list Z.

(** [createHash("sha256").update(b).digest("hex")] and [a.localeCompare(b)] *)
Class HostTexts := {
  sha256_hex : buffer → string;
  localeCompare : string → string → Z;
}.

(** ** Descriptors *)

(** Descriptors of the files that every sandbox is given. *)
Record ArtifactFds := { fd_worker : Z; fd_passwd : Z; fd_group : Z; fd_hosts : Z; fd_nsswitch : Z }.
(** src/server/sandbox/fds.ts:7-7 helperLaunch *)
Definition FD_helperLaunch : Z := 3.
(** src/server/sandbox/fds.ts:8-8 helperReady *)
Definition FD_helperReady : Z := 4.
(** src/server/sandbox/fds.ts:9-9 helperInnerConfig *)
Definition FD_helperInnerConfig : Z := 7.
(** src/server/sandbox/fds.ts:10-10 workerRequest *)
Definition FD_workerRequest : Z := 8.
(** src/server/sandbox/fds.ts:11-11 workerResponse *)
Definition FD_workerResponse : Z := 9.
(** src/server/sandbox/fds.ts:12-12 helperHttpBootstrap *)
Definition FD_helperHttpBootstrap : Z := 10.
(** src/server/sandbox/fds.ts:13-13 helperSocksBootstrap *)
Definition FD_helperSocksBootstrap : Z := 11.
(** src/server/sandbox/fds.ts:14-14 helperSelfArtifact *)
Definition FD_helperSelfArtifact : Z := 12.
(** src/server/sandbox/fds.ts:15-21 managedArtifacts *)
Definition FD_managedArtifacts : ArtifactFds := {| fd_worker := 13; fd_passwd := 14; fd_group := 15; fd_hosts := 16; fd_nsswitch := 17 |}.
(** src/server/sandbox/fds.ts:22-28 isolatedArtifacts *)
Definition FD_isolatedArtifacts : ArtifactFds := {| fd_worker := 3; fd_passwd := 4; fd_group := 5; fd_hosts := 6; fd_nsswitch := 7 |}.
(** src/server/sandbox/fds.ts:31-31 SANDBOX_REQUEST_FD *)
Definition SANDBOX_REQUEST_FD : Z := FD_workerRequest.
(** src/server/sandbox/fds.ts:32-32 SANDBOX_RESPONSE_FD *)
Definition SANDBOX_RESPONSE_FD : Z := FD_workerResponse.
(** src/server/sandbox/fds.ts:33-33 ISOLATED_SANDBOX_STDIO_COUNT *)
Definition ISOLATED_SANDBOX_STDIO_COUNT : Z := SANDBOX_RESPONSE_FD + 1.
(** src/server/sandbox/fds.ts:34-34 MANAGED_SANDBOX_STDIO_COUNT *)
Definition MANAGED_SANDBOX_STDIO_COUNT : Z := fd_nsswitch FD_managedArtifacts + 1.

Definition artifact_fds (fds : ArtifactFds) : list Z := [fd_worker fds; fd_passwd fds; fd_group fds; fd_hosts fds; fd_nsswitch fds].
(** The module refuses to load when these overlap. *)
(** src/server/sandbox/fds.ts:36-46 managedAssignments *)
Definition managedAssignments : list Z :=
  [FD_helperLaunch; FD_helperReady; FD_helperInnerConfig; FD_workerRequest; FD_workerResponse;
   FD_helperHttpBootstrap; FD_helperSocksBootstrap; FD_helperSelfArtifact] ++ artifact_fds FD_managedArtifacts.
(** src/server/sandbox/fds.ts:47-49 managedAssignmentsCheck *)
Definition assignments_load : bool := Nat.eqb (length (set_view managedAssignments)) (length managedAssignments).

(** ** Data *)

(** src/server/network/helper.ts:16-16 NETWORK_HELPER_BUILD_VERSION *)
Definition NETWORK_HELPER_BUILD_VERSION : string := "1.0.0".
(** src/server/network/helper.ts:17-17 NETWORK_HELPER_PROTOCOL_VERSION *)
Definition NETWORK_HELPER_PROTOCOL_VERSION : Z := 1.
(** src/server/network/helper.ts:40-48 ValidatedNetworkHelper *)
Record ValidatedNetworkHelper := {
  nh_path : string; nh_directory : string; nh_manifestPath : string; nh_architecture : string;
  nh_buildVersion : string; nh_protocolVersion : Z; nh_sha256 : string;
}.
(** src/shared/protocol.ts:265-265 WORKSPACE_MOUNT_GUEST_ROOT *)
Definition WORKSPACE_MOUNT_GUEST_ROOT : string := "/mounts".
(** src/shared/protocol.ts:284-286 workspaceMountGuestPath *)
Definition workspaceMountGuestPath (name : string) : string := WORKSPACE_MOUNT_GUEST_ROOT +:+ "/" +:+ name.

(** src/server/sandbox/bwrap.ts:38-50 SANDBOX_ENVIRONMENT *)
Definition SANDBOX_ENVIRONMENT : jsmap string string :=
  [("HOME", "/home/sandbox"); ("TMPDIR", "/tmp"); ("PATH", "/usr/bin:/bin"); ("LANG", "C.UTF-8"); ("LC_ALL", "C.UTF-8");
   ("TERM", "dumb"); ("NO_COLOR", "1"); ("CI", "1"); ("USER", "sandbox"); ("LOGNAME", "sandbox"); ("SHELL", "/bin/bash")].
(** src/server/sandbox/bwrap.ts:52-55 SANDBOX_EXPECTED_ENVIRONMENT_WITH_PWD *)
Definition SANDBOX_EXPECTED_ENVIRONMENT_WITH_PWD : jsmap string string := map_set "PWD" "/workspace" SANDBOX_ENVIRONMENT.

Definition set_all (values : list (string * string)) (m : jsmap string string) : jsmap string string :=
  fold_left (λ m '(k, v), map_set k v m) values m.
(** src/server/sandbox/bwrap.ts:57-84 managedSandboxEnvironment *)
Definition managedSandboxEnvironment (httpPort socksPort : Z) (guestPath : option string) : jsmap string string :=
  let path := default "/usr/bin:/bin" guestPath in
  let http := "http://127.0.0.1:" +:+ pretty httpPort in
  let socks := "socks5h://127.0.0.1:" +:+ pretty socksPort in
  let environment := set_all
    [("PATH", path); ("HTTP_PROXY", http); ("HTTPS_PROXY", http); ("WS_PROXY", http); ("WSS_PROXY", http);
     ("ALL_PROXY", socks); ("NO_PROXY", "");
     ("http_proxy", http); ("https_proxy", http); ("ws_proxy", http); ("wss_proxy", http);
     ("all_proxy", socks); ("no_proxy", "");
     ("NODE_USE_ENV_PROXY", "1"); ("ELECTRON_GET_USE_PROXY", "true"); ("CHATWCA_MANAGED_EGRESS", "1")]
    SANDBOX_EXPECTED_ENVIRONMENT_WITH_PWD in
  let environment := set_all ((λ name, (name, http)) <$>
    ["npm_config_proxy"; "npm_config_http_proxy"; "npm_config_https_proxy";
     "yarn_proxy"; "yarn_http_proxy"; "yarn_https_proxy"; "BUNDLE_HTTP_PROXY";
     "PIP_PROXY"; "DOCKER_HTTP_PROXY"; "DOCKER_HTTPS_PROXY"]) environment in
  set_all ((λ name, (name, "")) <$>
    ["npm_config_noproxy"; "yarn_no_proxy"; "PIP_NO_PROXY"; "DOCKER_NO_PROXY"]) environment.

(** src/server/sandbox/bwrap.ts:86-90 SandboxWorkerArtifact *)
Record SandboxWorkerArtifact := { wa_source : buffer; wa_sha256 : string; wa_version : string }.
(** src/server/sandbox/bwrap.ts:92-97 BwrapDataBinding *)
Record BwrapDataBinding := { db_fd : Z; db_destination : option string; db_payload : buffer }.
(** The mode is always "0444". *)
(** src/server/sandbox/bwrap.ts:99-105 ManagedHelperArtifactDescriptor *)
Record ManagedHelperArtifactDescriptor := { ad_fd : Z; ad_destination : string; ad_sha256 : string; ad_bytes : Z }.
Definition artifact_mode : string := "0444".
(** src/server/sandbox/bwrap.ts:107-116 ManagedHelperLaunchDescriptor *)
Record ManagedHelperLaunchDescriptor := {
  ld_protocol : Z; ld_buildVersion : string; ld_bwrapPath : string; ld_bwrapArgs : list string;
  ld_httpSocket : string; ld_socksSocket : string; ld_guestPath : string;
  ld_artifacts : list ManagedHelperArtifactDescriptor;
}.
(** src/server/sandbox/bwrap.ts:118-125 SandboxNetworkLaunchProfile *)
Inductive SandboxNetworkLaunchProfile :=
| ProfileIsolated
| ProfileManagedEgress (helper : ValidatedNetworkHelper) (httpSocketPath socksSocketPath : string).
Inductive launch_kind := Isolated | ManagedEgress.
(** src/server/sandbox/bwrap.ts:127-132 BwrapCompatibilityLinks *)
Record BwrapCompatibilityLinks := { link_bin : bool; link_sbin : bool; link_lib : bool; link_lib64 : bool }.
(** src/server/sandbox/bwrap.ts:134-141 ValidatedSandboxHost *)
Record ValidatedSandboxHost := {
  vh_bwrapPath : string; vh_bwrapVersion : string; vh_nodeVersion : string;
  vh_rgPath : string; vh_rgVersion : string; vh_compatibilityLinks : BwrapCompatibilityLinks;
}.
(** src/server/sandbox/bwrap.ts:143-155 BwrapLaunchSpecification *)
Record BwrapLaunchSpecification := {
  ls_profile : launch_kind; ls_executable : string; ls_argv : list string; ls_dataBindings : list BwrapDataBinding;
  ls_requestFd : Z; ls_responseFd : Z; ls_helperReadyFd : option Z; ls_helperBuildVersion : option string;
  ls_stdioCount : Z; ls_emptyEnvironment : bool; ls_expectedRootEntries : list string;
}.

Definition newline : string := String (ascii_of_nat 10) "".
(** [Buffer.from(s)] of a text of ASCII characters. *)
Fixpoint ascii_bytes (s : string) : buffer :=
  match s with EmptyString => [] | String a r => unit_code a :: ascii_bytes r end.

(** The files, by the descriptor each one has; the first one is the worker. *)
(** src/server/sandbox/bwrap.ts:195-201 MINIMAL_FILES *)
Definition MINIMAL_FILES : list ((ArtifactFds → Z) * string * option string) :=
  [(fd_worker, "/app/worker.mjs", None);
   (fd_passwd, "/etc/passwd", Some ("sandbox:x:0:0:Sandbox:/home/sandbox:/bin/bash" +:+ newline));
   (fd_group, "/etc/group", Some ("sandbox:x:0:" +:+ newline));
   (fd_hosts, "/etc/hosts", Some ("127.0.0.1 localhost" +:+ newline +:+ "::1 localhost" +:+ newline));
   (fd_nsswitch, "/etc/nsswitch.conf", Some ("hosts: files dns" +:+ newline))].

(** The name, whether a host has the link, its target, where it is in the guest
    and what it stands for on the host. *)
(** src/server/sandbox/bwrap.ts:203-208 LINK_DEFINITIONS *)
Definition LINK_DEFINITIONS : list (string * (BwrapCompatibilityLinks → bool) * string * string * string) :=
  [("bin", link_bin, "usr/bin", "/bin", "/usr/bin"); ("sbin", link_sbin, "usr/sbin", "/sbin", "/usr/sbin");
   ("lib", link_lib, "usr/lib", "/lib", "/usr/lib"); ("lib64", link_lib64, "usr/lib64", "/lib64", "/usr/lib64")].

(** ** Building the arguments *)

(** [while (current !== "/") { …; current = path.posix.dirname(current); }]: the
    directories it passes; [None] when it is not done in time. *)
(** src/server/sandbox/bwrap.ts:355-359 parentsLoop *)
Fixpoint parents_from (fuel : nat) (current : string) : option (list string) :=
  match fuel with
  | O => None
  | S fuel => if String.eqb current "/" then Some [] else cons current <$> parents_from fuel (dirname current)
  end.
Definition parents_of (destination : string) : option (list string) :=
  parents_from (S (String.length destination)) (dirname destination).

(** [values.sort(compare)], a stable sort *)
Fixpoint insert_sorted {A} (le : A → A → bool) (x : A) (xs : list A) : list A :=
  match xs with [] => [x] | y :: ys => if le x y then x :: xs else y :: insert_sorted le x ys end.
Definition sort_by {A} (le : A → A → bool) (xs : list A) : list A := foldr (insert_sorted le) [] xs.
(** [[...new Set(values)]] *)
Definition string_set (values : list string) : list string :=
  fold_left (λ acc v, if includes v acc then acc else (acc ++ [v])%list) values [].

Definition depth (p : string) : nat := length (split sep p).
Definition directory_order `{HostTexts} (left right : string) : bool :=
  if Nat.eqb (depth left) (depth right) then localeCompare left right <=? 0 else Nat.leb (depth left) (depth right).
(** src/server/sandbox/bwrap.ts:352-364 mountParentDirectories *)
Definition mountParentDirectories `{HostTexts} (mounts : list SandboxReadOnlyMount) : option (list string) :=
  directories ← mapM (λ mount, parents_of (ro_destination mount)) mounts;
  Some (sort_by directory_order (string_set (concat directories))).

(** [input.mounts] when absent is no mounts. *)
(** src/server/sandbox/bwrap.ts:366-372 SandboxBuildInput *)
Record SandboxBuildInput := {
  bi_config : SandboxConfig;
  bi_host : ValidatedSandboxHost;
  bi_workspace : string;
  bi_mounts : list WorkspaceMount;
  bi_worker : SandboxWorkerArtifact;
}.

(** src/server/sandbox/bwrap.ts:374-383 artifactBindings *)
Definition artifactBindings (input : SandboxBuildInput) (assignments : ArtifactFds) : list (Z * string * buffer) :=
  (λ '(name, destination, payload),
     (name assignments, destination, match payload with None => wa_source (bi_worker input) | Some text => ascii_bytes text end))
  <$> MINIMAL_FILES.
Definition as_binding (b : Z * string * buffer) : BwrapDataBinding :=
  {| db_fd := b.1.1; db_destination := Some b.1.2; db_payload := b.2 |}.

Definition present_links (input : SandboxBuildInput) : list (string * (BwrapCompatibilityLinks → bool) * string * string * string) :=
  filter (λ '(_, has, _, _, _), has (vh_compatibilityLinks (bi_host input)) = true) LINK_DEFINITIONS.

(** src/server/sandbox/bwrap.ts:385-398 expectedRoots *)
Definition expectedRoots (input : SandboxBuildInput) : list string :=
  let tops := omap (λ mount, head (filter (λ s, s ≠ "") (split sep (ro_destination mount)))) (sc_readOnlyMounts (bi_config input)) in
  sort_by String.leb (string_set
    (["app"; "dev"; "etc"; "home"; "proc"; "tmp"; "usr"; "var"; "workspace"]
     ++ ((λ '(name, _, _, _, _), name) <$> present_links input) ++ tops
     ++ (if Nat.ltb 0 (length (bi_mounts input)) then ["mounts"] else []))).

(** src/server/sandbox/bwrap.ts:400-454 baseBwrapArguments *)
Definition baseBwrapArguments `{HostTexts} (input : SandboxBuildInput) (managed : bool) : option (list string) :=
  directories ← mountParentDirectories (sc_readOnlyMounts (bi_config input));
  Some (
    ["--unshare-user"; "--unshare-pid"; "--unshare-ipc"; "--unshare-uts"; "--unshare-net";
     "--hostname"; "chatwca-sandbox"; "--cap-drop"; "ALL"]
    ++ (if managed then ["--cap-add"; "CAP_NET_ADMIN"; "--cap-add"; "CAP_SETPCAP"] else [])
    ++ ["--new-session"; "--die-with-parent"; "--clearenv"; "--ro-bind"; "/usr"; "/usr"]
    ++ concat ((λ '(_, _, target, destination, _), ["--symlink"; target; destination]) <$> present_links input)
    ++ ["--proc"; "/proc"; "--dev"; "/dev"; "--tmpfs"; "/home"; "--dir"; "/home/sandbox"; "--tmpfs"; "/tmp"; "--dir"; "/var";
        "--tmpfs"; "/var/tmp"; "--dir"; "/etc"; "--dir"; "/app"]
    ++ (if managed then ["--dir"; "/etc/ssl"; "--ro-bind"; "/etc/ssl/certs"; "/etc/ssl/certs"] else [])
    ++ concat ((λ directory, ["--dir"; directory]) <$> directories)
    ++ concat ((λ mount, ["--ro-bind"; ro_source mount; ro_destination mount]) <$> sc_readOnlyMounts (bi_config input))
    ++ (if Nat.ltb 0 (length (bi_mounts input)) then ["--dir"; WORKSPACE_MOUNT_GUEST_ROOT] else [])
    ++ concat ((λ mount, [match wm_access mount with ReadOnly => "--ro-bind" | ReadWrite => "--bind" end;
                          wm_source mount; workspaceMountGuestPath (wm_name mount)]) <$> bi_mounts input)
    ++ ["--bind"; bi_workspace input; "/workspace"]
    ++ ["--tmpfs"; "/workspace/.chatwca"])%list.

(** ** The launch specifications *)

(** src/server/sandbox/bwrap.ts:457-476 buildBwrapLaunchSpecification *)
Definition buildBwrapLaunchSpecification `{HostTexts} (input : SandboxBuildInput) : option BwrapLaunchSpecification :=
  let dataBindings := artifactBindings input FD_isolatedArtifacts in
  argv ← baseBwrapArguments input false;
  let argv := (argv
    ++ concat ((λ '(fd, destination, _), ["--ro-bind-data"; pretty fd; destination]) <$> dataBindings)
    ++ concat ((λ '(name, value), ["--setenv"; name; value]) <$> map_set "PATH" (sc_guestPath (bi_config input)) SANDBOX_ENVIRONMENT)
    ++ ["--chdir"; "/workspace"; "/usr/bin/node"; "/app/worker.mjs"])%list in
  Some {| ls_profile := Isolated;
     ls_executable := vh_bwrapPath (bi_host input);
     ls_argv := argv;
     ls_dataBindings := as_binding <$> dataBindings;
     ls_requestFd := SANDBOX_REQUEST_FD;
     ls_responseFd := SANDBOX_RESPONSE_FD;
     ls_helperReadyFd := None;
     ls_helperBuildVersion := None;
     ls_stdioCount := ISOLATED_SANDBOX_STDIO_COUNT;
     ls_emptyEnvironment := false;
     ls_expectedRootEntries := expectedRoots input |}.

(** [Buffer.from(s, "utf8")] of code units below 256. *)
Fixpoint utf8_bytes (s : string) : buffer :=
  match s with
  | EmptyString => []
  | String a r => ((if unit_code a <? 128 then [unit_code a] else [192 + unit_code a / 64; 128 + unit_code a mod 64]) ++ utf8_bytes r)%list
  end.

(** [JSON.stringify] of the descriptor: members in the order they were given. *)
Definition json_members (members : list (string * string)) : string :=
  "{" +:+ join ","%char ((λ '(key, text), json_quote key +:+ ":" +:+ text) <$> members) +:+ "}".
Definition json_items (items : list string) : string := "[" +:+ join ","%char items +:+ "]".
Definition artifact_json (artifact : ManagedHelperArtifactDescriptor) : string :=
  json_members [("fd", pretty (ad_fd artifact)); ("destination", json_quote (ad_destination artifact));
    ("sha256", json_quote (ad_sha256 artifact)); ("bytes", pretty (ad_bytes artifact)); ("mode", json_quote artifact_mode)].
Definition descriptor_json (descriptor : ManagedHelperLaunchDescriptor) : string :=
  json_members [("protocol", pretty (ld_protocol descriptor)); ("buildVersion", json_quote (ld_buildVersion descriptor));
    ("bwrapPath", json_quote (ld_bwrapPath descriptor)); ("bwrapArgs", json_items (json_quote <$> ld_bwrapArgs descriptor));
    ("httpSocket", json_quote (ld_httpSocket descriptor)); ("socksSocket", json_quote (ld_socksSocket descriptor));
    ("guestPath", json_quote (ld_guestPath descriptor)); ("artifacts", json_items (artifact_json <$> ld_artifacts descriptor))].

(** [header.writeUInt32BE(n)] *)
Definition uint32_be (n : Z) : buffer := [n / 16777216 mod 256; n / 65536 mod 256; n / 256 mod 256; n mod 256].
(** src/server/sandbox/bwrap.ts:478-484 protocolFrame *)
Definition protocolFrame (value : ManagedHelperLaunchDescriptor) : result thrown buffer :=
  let payload := utf8_bytes (descriptor_json value) in
  if Nat.eqb (length payload) 0 || (64 * 1024 <? Z.of_nat (length payload))
  then Err (Foreign None "helper launch descriptor is oversized")
  else Ok (uint32_be (Z.of_nat (length payload)) ++ payload)%list.

Definition artifact_descriptor `{HostTexts} (b : Z * string * buffer) : ManagedHelperArtifactDescriptor :=
  {| ad_fd := b.1.1; ad_destination := b.1.2; ad_sha256 := sha256_hex b.2; ad_bytes := Z.of_nat (length b.2) |}.
Definition managed_bwrap_arguments `{HostTexts} (input : SandboxBuildInput) : option (list string) :=
  argv ← baseBwrapArguments input true;
  Some (argv
    ++ concat ((λ artifact, ["--perms"; artifact_mode; "--ro-bind-data"; pretty (ad_fd artifact); ad_destination artifact])
         <$> (artifact_descriptor <$> artifactBindings input FD_managedArtifacts))
    ++ ["--chdir"; "/workspace"])%list.
Definition launch_descriptor `{HostTexts} (input : SandboxBuildInput) (httpSocketPath socksSocketPath : string) (bwrapArgs : list string)
    : ManagedHelperLaunchDescriptor :=
  {| ld_protocol := NETWORK_HELPER_PROTOCOL_VERSION; ld_buildVersion := NETWORK_HELPER_BUILD_VERSION;
     ld_bwrapPath := vh_bwrapPath (bi_host input); ld_bwrapArgs := bwrapArgs; ld_httpSocket := httpSocketPath;
     ld_socksSocket := socksSocketPath; ld_guestPath := sc_guestPath (bi_config input);
     ld_artifacts := artifact_descriptor <$> artifactBindings input FD_managedArtifacts |}.

(** [None] when the arguments are not built in time. *)
(** src/server/sandbox/bwrap.ts:487-538 buildManagedBwrapLaunchSpecification *)
Definition buildManagedBwrapLaunchSpecification `{HostTexts} (input : SandboxBuildInput) (helper : ValidatedNetworkHelper)
    (httpSocketPath socksSocketPath : string) : option (result thrown BwrapLaunchSpecification) :=
  if negb (nh_protocolVersion helper =? NETWORK_HELPER_PROTOCOL_VERSION)
     || negb (String.eqb (nh_buildVersion helper) NETWORK_HELPER_BUILD_VERSION)
  then Some (Err (app_error NETWORK_HELPER_UNAVAILABLE))
  else
    bwrapArgs ← managed_bwrap_arguments input;
    Some (
      payload ← protocolFrame (launch_descriptor input httpSocketPath socksSocketPath bwrapArgs);
      mret {| ls_profile := ManagedEgress;
        ls_executable := nh_path helper;
        ls_argv := ["--outer"];
        ls_dataBindings := {| db_fd := FD_helperLaunch; db_destination := None; db_payload := payload |}
          :: (as_binding <$> artifactBindings input FD_managedArtifacts);
        ls_requestFd := SANDBOX_REQUEST_FD;
        ls_responseFd := SANDBOX_RESPONSE_FD;
        ls_helperReadyFd := Some FD_helperReady;
        ls_helperBuildVersion := Some (nh_buildVersion helper);
        ls_stdioCount := MANAGED_SANDBOX_STDIO_COUNT;
        ls_emptyEnvironment := true;
        ls_expectedRootEntries := expectedRoots input |}).

(** src/server/sandbox/bwrap.ts:540-551 buildSandboxLaunchSpecification *)
Definition buildSandboxLaunchSpecification `{HostTexts} (input : SandboxBuildInput) (networkProfile : SandboxNetworkLaunchProfile)
    : option (result thrown BwrapLaunchSpecification) :=
  match networkProfile with
  | ProfileIsolated => Ok <$> buildBwrapLaunchSpecification input
  | ProfileManagedEgress helper httpSocketPath socksSocketPath =>
      buildManagedBwrapLaunchSpecification input helper httpSocketPath socksSocketPath
  end.

(** ** What Bubblewrap reads *)

(** An option with the values it takes, as its manual lists them. *)
Inductive bwrap_option :=
| Unshare (namespace : string) | Hostname (name : string) | CapDrop (cap : string) | CapAdd (cap : string)
| NewSession | DieWithParent | ClearEnv | SetEnv (name value : string) | Chdir (directory : string)
| RoBind (source destination : string) | Bind (source destination : string) | Symlink (target destination : string)
| ProcAt (destination : string) | DevAt (destination : string) | TmpfsAt (destination : string) | DirAt (destination : string)
| RoBindData (fd destination : string) | Perms (mode : string).
#[export] Instance bwrap_option_eq : EqDecision bwrap_option.
Proof. solve_decision. Defined.

Definition plain_options : list (string * bwrap_option) :=
  [("--unshare-user", Unshare "user"); ("--unshare-pid", Unshare "pid"); ("--unshare-ipc", Unshare "ipc");
   ("--unshare-uts", Unshare "uts"); ("--unshare-net", Unshare "net");
   ("--new-session", NewSession); ("--die-with-parent", DieWithParent); ("--clearenv", ClearEnv)].
Definition unary_options : list (string * (string → bwrap_option)) :=
  [("--hostname", Hostname); ("--cap-drop", CapDrop); ("--cap-add", CapAdd); ("--chdir", Chdir); ("--proc", ProcAt);
   ("--dev", DevAt); ("--tmpfs", TmpfsAt); ("--dir", DirAt); ("--perms", Perms)].
Definition binary_options : list (string * (string → string → bwrap_option)) :=
  [("--setenv", SetEnv); ("--ro-bind", RoBind); ("--bind", Bind); ("--symlink", Symlink); ("--ro-bind-data", RoBindData)].

(** Options are read from the left, each with its values whatever these are; the
    first word that is no option starts the command. [None] for an option that is
    unknown or lacks a value. *)
Fixpoint read_options (fuel : nat) (words : list string) : option (list bwrap_option * list string) :=
  match fuel, words with
  | O, _ => None
  | _, [] => Some ([], [])
  | S fuel, w :: rest =>
      match map_get w plain_options, map_get w unary_options, map_get w binary_options, rest with
      | Some o, _, _, _ => prod_map (cons o) id <$> read_options fuel rest
      | _, Some f, _, v :: rest => prod_map (cons (f v)) id <$> read_options fuel rest
      | _, _, Some f, v1 :: v2 :: rest => prod_map (cons (f v1 v2)) id <$> read_options fuel rest
      | _, _, _, _ => if starts_with "--" w then None else Some ([], w :: rest)
      end
  end.
Definition read_arguments (words : list string) : option (list bwrap_option * list string) := read_options (S (length words)) words.

(** ** The plan *)

(** The options that give the guest a file tree of the host. *)
Definition host_tree (o : bwrap_option) : option (bool * string * string) :=
  match o with
  | RoBind source destination => Some (false, source, destination)
  | Bind source destination => Some (true, source, destination)
  | _ => None
  end.
Definition base_plan (input : SandboxBuildInput) (managed : bool) (directories : list string) : list bwrap_option :=
  ([Unshare "user"; Unshare "pid"; Unshare "ipc"; Unshare "uts"; Unshare "net"; Hostname "chatwca-sandbox"; CapDrop "ALL"]
   ++ (if managed then [CapAdd "CAP_NET_ADMIN"; CapAdd "CAP_SETPCAP"] else [])
   ++ [NewSession; DieWithParent; ClearEnv; RoBind "/usr" "/usr"]
   ++ ((λ '(_, _, target, destination, _), Symlink target destination) <$> present_links input)
   ++ [ProcAt "/proc"; DevAt "/dev"; TmpfsAt "/home"; DirAt "/home/sandbox"; TmpfsAt "/tmp"; DirAt "/var"; TmpfsAt "/var/tmp";
       DirAt "/etc"; DirAt "/app"]
   ++ (if managed then [DirAt "/etc/ssl"; RoBind "/etc/ssl/certs" "/etc/ssl/certs"] else [])
   ++ (DirAt <$> directories)
   ++ ((λ mount, RoBind (ro_source mount) (ro_destination mount)) <$> sc_readOnlyMounts (bi_config input))
   ++ (if Nat.ltb 0 (length (bi_mounts input)) then [DirAt WORKSPACE_MOUNT_GUEST_ROOT] else [])
   ++ ((λ mount, match wm_access mount with
                 | ReadOnly => RoBind (wm_source mount) (workspaceMountGuestPath (wm_name mount))
                 | ReadWrite => Bind (wm_source mount) (workspaceMountGuestPath (wm_name mount))
                 end) <$> bi_mounts input)
   ++ [Bind (bi_workspace input) "/workspace"; TmpfsAt "/workspace/.chatwca"])%list.
Definition isolated_rest (input : SandboxBuildInput) : list bwrap_option :=
  (((λ '(fd, destination, _), RoBindData (pretty fd) destination) <$> artifactBindings input FD_isolatedArtifacts)
   ++ ((λ '(name, value), SetEnv name value) <$> map_set "PATH" (sc_guestPath (bi_config input)) SANDBOX_ENVIRONMENT)
   ++ [Chdir "/workspace"])%list.
Definition managed_rest (input : SandboxBuildInput) : list bwrap_option :=
  (concat ((λ '(fd, destination, _), [Perms artifact_mode; RoBindData (pretty fd) destination]) <$> artifactBindings input FD_managedArtifacts)
   ++ [Chdir "/workspace"])%list.

(** ** The arguments are read as the plan *)

Definition render (o : bwrap_option) : list string :=
  match o with
  | Unshare namespace => ["--unshare-" +:+ namespace]
  | Hostname name => ["--hostname"; name] | CapDrop cap => ["--cap-drop"; cap] | CapAdd cap => ["--cap-add"; cap]
  | NewSession => ["--new-session"] | DieWithParent => ["--die-with-parent"] | ClearEnv => ["--clearenv"]
  | SetEnv name value => ["--setenv"; name; value] | Chdir directory => ["--chdir"; directory]
  | RoBind source destination => ["--ro-bind"; source; destination]
  | Bind source destination => ["--bind"; source; destination]
  | Symlink target destination => ["--symlink"; target; destination]
  | ProcAt destination => ["--proc"; destination] | DevAt destination => ["--dev"; destination]
  | TmpfsAt destination => ["--tmpfs"; destination] | DirAt destination => ["--dir"; destination]
  | RoBindData fd destination => ["--ro-bind-data"; fd; destination] | Perms mode => ["--perms"; mode]
  end.
Definition rendered (options : list bwrap_option) : list string := concat (render <$> options).
Definition known (o : bwrap_option) : bool :=
  match o with Unshare namespace => includes namespace ["user"; "pid"; "ipc"; "uts"; "net"] | _ => true end.

Lemma read_option o words fuel : known o = true → (length (render o ++ words) < fuel)%nat →
  ∃ fuel', (length words < fuel')%nat ∧ read_options fuel (render o ++ words) = prod_map (cons o) id <$> read_options fuel' words.
Proof.
  intros Hk Hf. destruct fuel as [|fuel]; [lia|]. exists fuel.
  split; [rewrite length_app in Hf; destruct o; cbn in Hf; lia|].
  destruct o; try reflexivity. apply includes_elem, list_elem_of_In in Hk. cbn in Hk.
  repeat (destruct Hk as [<-|Hk]; [reflexivity|]). done.
Qed.

Lemma read_rendered options words fuel : forallb known options = true → (length (rendered options ++ words) < fuel)%nat →
  ∃ fuel', (length words < fuel')%nat ∧
    read_options fuel (rendered options ++ words) = prod_map (app options) id <$> read_options fuel' words.
Proof.
  unfold rendered. revert fuel. induction options as [|o options IH]; intros fuel Hk Hf.
  - exists fuel. split; [done|]. cbn. by destruct (read_options fuel words) as [[]|].
  - cbn [fmap list_fmap concat forallb] in *. apply andb_true_iff in Hk as [Ho Hk]. rewrite <-app_assoc in *.
    destruct (read_option o _ _ Ho Hf) as (f1 & Hf1 & ->). destruct (IH f1 Hk Hf1) as (f2 & Hf2 & ->).
    exists f2. split; [done|]. by destruct (read_options f2 words) as [[]|].
Qed.

Lemma read_command options command : forallb known options = true →
  command = [] ∨ (∃ w rest, command = w :: rest ∧ starts_with "/" w = true) →
  read_arguments (rendered options ++ command) = Some (options, command).
Proof.
  intros Hk Hc. destruct (read_rendered options command (S (length (rendered options ++ command))) Hk ltac:(lia)) as ([|fuel] & Hf & E);
    [lia|]. unfold read_arguments. rewrite E.
  assert (Hend : read_options (S fuel) command = Some ([], command)).
  { destruct Hc as [->|(w & rest & -> & [r ->]%starts_with_spec)]; [done|]. by destruct rest as [|? []]. }
  rewrite Hend. change (Some ((options ++ [])%list, command) = Some (options, command)). by rewrite app_nil_r.
Qed.

Lemma rendered_app o1 o2 : rendered (o1 ++ o2) = (rendered o1 ++ rendered o2)%list.
Proof. unfold rendered. by rewrite fmap_app, concat_app. Qed.

Lemma concat_rendered {A} (words : A → list string) (option_of : A → bwrap_option) xs :
  (∀ x, render (option_of x) = words x) → concat (words <$> xs) = rendered (option_of <$> xs).
Proof. intros Hx. unfold rendered. induction xs as [|x xs IH]; [done|]. cbn. by rewrite Hx, IH. Qed.

Lemma base_arguments_rendered `{HostTexts} input managed directories :
  mountParentDirectories (sc_readOnlyMounts (bi_config input)) = Some directories →
  baseBwrapArguments input managed = Some (rendered (base_plan input managed directories)).
Proof.
  intros Hd. unfold baseBwrapArguments. rewrite Hd. cbn [mbind option_bind]. f_equal.
  unfold base_plan. rewrite !rendered_app.
  rewrite (concat_rendered _ (λ '(_, _, target, destination, _), Symlink target destination) (present_links input)) by by intros [[[[]]]].
  rewrite (concat_rendered _ DirAt directories) by done.
  rewrite (concat_rendered _ (λ mount, RoBind (ro_source mount) (ro_destination mount))) by done.
  rewrite (concat_rendered _ (λ mount, match wm_access mount with
    | ReadOnly => RoBind (wm_source mount) (workspaceMountGuestPath (wm_name mount))
    | ReadWrite => Bind (wm_source mount) (workspaceMountGuestPath (wm_name mount)) end)) by by intros [? ? []].
  by destruct managed, (Nat.ltb 0 (length (bi_mounts input))).
Qed.

Lemma known_fmap {A} (f : A → bwrap_option) xs : (∀ x, known (f x) = true) → forallb known (f <$> xs) = true.
Proof. intros Hf. induction xs as [|x xs IH]; [done|]. cbn. by rewrite Hf, IH. Qed.

Lemma base_plan_known input managed directories : forallb known (base_plan input managed directories) = true.
Proof.
  unfold base_plan. rewrite !forallb_app, !known_fmap by (try done; by intros [? ? []] || by intros [[[[]]]]).
  by destruct managed, (Nat.ltb 0 (length (bi_mounts input))).
Qed.

(** ** The parents of the mounts *)

Lemma drop_trailing_shorter s : (String.length (drop_trailing_seps s) <= String.length s)%nat.
Proof.
  induction s as [|a s IH]; [done|]. cbn [drop_trailing_seps]. destruct (drop_trailing_seps s) as [|b t].
  - destruct (Ascii.eqb a sep); cbn; lia.
  - cbn [String.length] in *. lia.
Qed.
Lemma before_last_shorter r t : before_last_sep (drop_trailing_seps r) = Some t →
  (S (String.length t) < String.length (drop_trailing_seps r))%nat.
Proof.
  revert t. induction r as [|a r IH]; intros t; [done|]. cbn [drop_trailing_seps].
  destruct (drop_trailing_seps r) as [|b u] eqn:Ed.
  - destruct (Ascii.eqb a sep) eqn:Ea; [done|]. cbn. by rewrite Ea.
  - change (before_last_sep (String a (String b u))) with
      (match before_last_sep (String b u) with Some t => Some (String a t) | None => if Ascii.eqb a sep then Some "" else None end).
    destruct (before_last_sep (String b u)) as [v|]; [intros [= <-]; specialize (IH v eq_refl); cbn in *; lia|].
    destruct (Ascii.eqb a sep); [|done]. intros [= <-]. cbn. lia.
Qed.

Lemma dirname_shorter p : is_absolute p = true → p ≠ "/" →
  is_absolute (dirname p) = true ∧ (String.length (dirname p) < String.length p)%nat.
Proof.
  intros [r ->]%starts_with_spec Hr. change ("/" +:+ r) with (String sep r) in *. cbn [dirname]. rewrite Ascii.eqb_refl.
  pose proof (drop_trailing_shorter r) as Hd. assert (Hne : (0 < String.length r)%nat) by (destruct r; [done|cbn; lia]).
  destruct (before_last_sep _) as [t|] eqn:E; [|split; [done|cbn; lia]].
  apply before_last_shorter in E. destruct t as [|a t]; [split; [done|]|split; [apply is_absolute_sep|]]; cbn in *; lia.
Qed.

Lemma parents_end fuel p : is_absolute p = true → (String.length p < fuel)%nat → is_Some (parents_from fuel p).
Proof.
  revert p. induction fuel as [|fuel IH]; intros p Hp Hf; [lia|]. cbn [parents_from].
  destruct (String.eqb_spec p "/") as [|Hne]; [by eexists|]. destruct (dirname_shorter p Hp Hne).
  destruct (IH (dirname p)) as [l ->]; [done|lia|]. by eexists.
Qed.

Lemma mount_parents_end `{HostTexts} mounts : Forall (λ mount, is_absolute (ro_destination mount) = true) mounts →
  is_Some (mountParentDirectories mounts).
Proof.
  intros Hm. unfold mountParentDirectories.
  assert (Hs : is_Some (mapM (λ mount, parents_of (ro_destination mount)) mounts)) by
    (apply mapM_is_Some, (Forall_impl _ _ _ Hm); intros mount Ha; apply parents_end;
     [destruct (decide (ro_destination mount = "/")) as [->|]; [done|by apply dirname_shorter]|];
     destruct (decide (ro_destination mount = "/")) as [->|Hne]; [cbn; lia|destruct (dirname_shorter _ Ha Hne); lia]).
  destruct Hs as [ds ->]. by eexists.
Qed.

(** In terms of segments. *)
Lemma drop_trailing_keeps s x : x ≠ "" → has_char sep x = false → drop_trailing_seps (s +:+ x) = s +:+ x.
Proof.
  intros Hx Hc. assert (H0 : drop_trailing_seps x = x).
  { clear Hx. induction x as [|a x IH]; [done|]. rewrite has_char_cons in Hc. apply orb_false_iff in Hc as [Ha Hc].
    cbn [drop_trailing_seps]. rewrite IH by done. destruct x; [|done]. by rewrite Ha. }
  induction s as [|a s IH]; [done|]. cbn. rewrite IH. destruct (s +:+ x) eqn:E; [|done].
  destruct s; [|done]. by destruct x.
Qed.
Lemma before_last_none x : has_char sep x = false → before_last_sep x = None.
Proof.
  induction x as [|a x IH]; [done|]. rewrite has_char_cons. cbn [before_last_sep]. intros [Ha Hc]%orb_false_iff.
  rewrite IH by done. by rewrite Ha.
Qed.
Lemma before_last_app s x : has_char sep x = false → before_last_sep (s +:+ String sep x) = Some s.
Proof.
  intros Hx. induction s as [|a s IH]; cbn; [by rewrite before_last_none|by rewrite IH].
Qed.

Lemma dirname_segments l x : Forall plain (l ++ [x]) → dirname (path_of_segments (l ++ [x])) = path_of_segments l.
Proof.
  intros [Hl [(Hx & _ & _ & Hc) _]%Forall_cons]%Forall_app. unfold path_of_segments. cbn [dirname]. rewrite Ascii.eqb_refl.
  destruct (decide (l = [])) as [->|Hne].
  - cbn [app join]. change (drop_trailing_seps x) with (drop_trailing_seps ("" +:+ x)).
    rewrite drop_trailing_keeps by done. change ("" +:+ x) with x. by rewrite before_last_none.
  - rewrite (join_app sep l [x]) by done. change (join sep [x]) with x.
    change (join sep l +:+ String sep x) with (join sep l +:+ ("/" +:+ x)). rewrite <-str_app_assoc.
    rewrite drop_trailing_keeps by done. rewrite str_app_assoc. change ("/" +:+ x) with (String sep x).
    rewrite before_last_app by done. pose proof (join_plain_nonempty l Hne Hl). by destruct (join sep l).
Qed.

(** A path below the root as [realpath] writes it. *)
Definition canonical (p : string) : Prop := ∃ l, l ≠ [] ∧ Forall plain l ∧ p = path_of_segments l.
(** [q] is a directory, other than the root, that [p] is in. *)
Definition ancestor (q p : string) : Prop :=
  ∃ k l, k ≠ [] ∧ l ≠ [] ∧ p = path_of_segments (k ++ l) ∧ q = path_of_segments k ∧ Forall plain (k ++ l).

Lemma path_of_segments_root l : Forall plain l → path_of_segments l = "/" → l = [].
Proof.
  intros Hl E. destruct (decide (l = [])) as [|Hne]; [done|]. destruct (join_plain_nonempty l Hne Hl). by injection E.
Qed.

Lemma parents_from_spec fuel l ps : Forall plain l → parents_from fuel (path_of_segments l) = Some ps →
  ∀ d, d ∈ ps ↔ ∃ k, k ≠ [] ∧ k `prefix_of` l ∧ d = path_of_segments k.
Proof.
  revert fuel ps. induction l as [|x l IH] using rev_ind; intros [|fuel] ps Hl E d; try done; cbn [parents_from] in E.
  - rewrite (proj2 (String.eqb_eq (path_of_segments []) "/") eq_refl) in E. injection E as <-.
    split; [by intros ?%elem_of_nil|]. by intros (k & Hk & ->%prefix_nil_inv & _).
  - destruct (String.eqb_spec (path_of_segments (l ++ [x])) "/") as [Er|_];
      [apply path_of_segments_root in Er; [by destruct l|done]|].
    rewrite dirname_segments in E by done. apply Forall_app in Hl as [Hl Hx].
    destruct (parents_from fuel _) as [qs|] eqn:Eq; [|done]. injection E as <-.
    rewrite elem_of_cons, (IH _ _ Hl Eq d). split.
    + intros [->|(k & Hk & Hp & ->)]; [exists (l ++ [x])%list; split_and!; [by destruct l|done|done]|].
      exists k. split_and!; [done|by apply prefix_app_r|done].
    + intros (k & Hk & [r Hr] & ->). destruct r as [|y r _] using rev_ind.
      * left. rewrite app_nil_r in Hr. by subst.
      * right. rewrite app_assoc in Hr. apply app_inj_tail in Hr as [-> _]. exists k. split_and!; [done|by eexists|done].
Qed.

Lemma parents_of_spec p ps : canonical p → parents_of p = Some ps → ∀ d, d ∈ ps ↔ ancestor d p.
Proof.
  intros (l & Hne & Hl & ->) E d. destruct l as [|x l _] using rev_ind; [done|].
  unfold parents_of in E. rewrite dirname_segments in E by done.
  rewrite (parents_from_spec _ _ _ (proj1 (proj1 (Forall_app _ _ _) Hl)) E d). split.
  - intros (k & Hk & [r ->] & ->). exists k, (r ++ [x])%list. rewrite app_assoc. split_and!; [done|by destruct r|done..].
  - intros (k & r & Hk & Hr & E1 & -> & Hp). exists k. split_and!; [done| |done].
    apply (f_equal segments_of) in E1. rewrite !segments_of_path in E1 by done.
    destruct r as [|y r _] using rev_ind; [done|]. rewrite app_assoc in E1. apply app_inj_tail in E1 as [-> _]. by eexists.
Qed.

Lemma depth_path l : Forall plain l → l ≠ [] → depth (path_of_segments l) = S (length l).
Proof.
  intros Hl Hne. unfold depth, path_of_segments. cbn [split]. rewrite Ascii.eqb_refl. cbn [length]. f_equal.
  rewrite split_join; [done|done|]. eapply Forall_impl; [exact Hl|]. by intros x (_ & _ & _ & ?).
Qed.

Lemma ancestor_shallower q p : ancestor q p → (depth q < depth p)%nat.
Proof.
  intros (k & l & Hk & Hl & -> & -> & Hp). pose proof (proj1 (proj1 (Forall_app _ _ _) Hp)) as Hpk.
  rewrite !depth_path by (done || by destruct k). rewrite length_app. destruct l; [done|]. cbn. lia.
Qed.

Lemma ancestor_trans r q p : ancestor r q → ancestor q p → ancestor r p.
Proof.
  intros (k & l & Hk & Hl & E1 & -> & Hp) (k' & l' & Hk' & Hl' & -> & -> & Hp').
  apply (f_equal segments_of) in E1. apply Forall_app in Hp' as Hpk. destruct Hpk as [Hpk _].
  rewrite !segments_of_path in E1 by done. subst k'.
  exists k, (l ++ l')%list. rewrite app_assoc. split_and!; [done|by destruct l|done..].
Qed.

(** Sorting *)
Lemma insert_sorted_Permutation {A} (le : A → A → bool) x xs : insert_sorted le x xs ≡ₚ x :: xs.
Proof. induction xs as [|y ys IH]; cbn; [done|]. destruct (le x y); [done|]. rewrite IH. apply Permutation_swap. Qed.
Lemma sort_by_Permutation {A} (le : A → A → bool) xs : sort_by le xs ≡ₚ xs.
Proof. induction xs as [|x xs IH]; [done|]. cbn. rewrite insert_sorted_Permutation. by constructor. Qed.

Lemma sort_by_measure {A} (le : A → A → bool) (measure : A → nat) xs :
  (∀ x y, le x y = true → (measure x <= measure y)%nat) → (∀ x y, le x y = false → (measure y <= measure x)%nat) →
  StronglySorted (λ x y, measure x <= measure y)%nat (sort_by le xs).
Proof.
  intros H1 H2. induction xs as [|x xs IH]; [constructor|]. cbn. change (foldr (insert_sorted le) [] xs) with (sort_by le xs).
  induction (sort_by le xs) as [|y ys IHy]; cbn; [by repeat constructor|].
  apply StronglySorted_cons in IH as [Hy Hs]. destruct (le x y) eqn:E.
  - apply H1 in E. constructor; [by constructor|]. constructor; [done|]. eapply Forall_impl; [exact Hy|]. cbn. lia.
  - apply H2 in E. constructor; [by apply IHy|]. rewrite insert_sorted_Permutation. by constructor.
Qed.

Lemma string_set_spec values : NoDup (string_set values) ∧ ∀ v, v ∈ string_set values ↔ v ∈ values.
Proof.
  unfold string_set. enough (Hg : ∀ acc, NoDup acc → NoDup (fold_left (λ acc v, if includes v acc then acc else (acc ++ [v])%list) values acc)
    ∧ ∀ v, v ∈ fold_left (λ acc v, if includes v acc then acc else (acc ++ [v])%list) values acc ↔ v ∈ acc ∨ v ∈ values).
  { destruct (Hg [] (NoDup_nil_2)) as [Hn Hv]. split; [done|]. intros v. rewrite Hv. set_solver. }
  induction values as [|v values IH]; intros acc Hn; cbn; [set_solver|].
  destruct (includes v acc) eqn:E.
  - apply includes_elem in E. destruct (IH acc Hn) as [H1 H2]. split; [done|]. intros w. rewrite H2. set_solver.
  - assert (Hv : v ∉ acc) by (rewrite <-includes_elem; by rewrite E).
    destruct (IH (acc ++ [v])%list) as [H1 H2]; [|split; [done|]; intros w; rewrite H2; set_solver].
    apply NoDup_app. split_and!; [done|set_solver|apply NoDup_singleton].
Qed.

Lemma mapM_concat {A B} (f : A → option (list B)) xs yss : mapM f xs = Some yss →
  ∀ y, y ∈ concat yss ↔ ∃ x ys, x ∈ xs ∧ f x = Some ys ∧ y ∈ ys.
Proof.
  intros Hm%mapM_Some y. induction Hm as [|x ys xs yss Hx Hm IH]; cbn; [set_solver|].
  rewrite elem_of_app, IH. split.
  - intros [?|(z & zs & ? & ? & ?)]; [exists x, ys|exists z, zs]; set_solver.
  - intros (z & zs & [->|Hz]%elem_of_cons & Hf & Hy); [left; congruence|right; eauto].
Qed.

Lemma mount_parents `{HostTexts} mounts directories : Forall (λ mount, canonical (ro_destination mount)) mounts →
  mountParentDirectories mounts = Some directories →
  NoDup directories ∧ (∀ d, d ∈ directories ↔ ∃ mount, mount ∈ mounts ∧ ancestor d (ro_destination mount)) ∧
  (∀ pre d post, directories = (pre ++ d :: post)%list → ∀ q, ancestor q d → q ∈ pre).
Proof.
  intros Hm E. unfold mountParentDirectories in E.
  destruct (mapM _ mounts) as [dss|] eqn:Em; [|done]. injection E as <-.
  destruct (string_set_spec (concat dss)) as [Hn Hv].
  assert (Hin : ∀ d, d ∈ sort_by directory_order (string_set (concat dss)) ↔
      ∃ mount, mount ∈ mounts ∧ ancestor d (ro_destination mount)).
  { intros d. rewrite sort_by_Permutation, Hv, (mapM_concat _ _ _ Em). rewrite Forall_forall in Hm. split.
    - intros (mount & ps & Hmount & Hp & Hd). exists mount. split; [done|].
      by apply (parents_of_spec _ _ (Hm mount Hmount) Hp).
    - intros (mount & Hmount & Ha).
      apply mapM_Some in Em as Hf. apply list_elem_of_lookup_1 in Hmount as Hi. destruct Hi as [i Hi].
      destruct (Forall2_lookup_l _ _ _ _ _ Hf Hi) as (ps & _ & Hp).
      exists mount, ps. split_and!; [done|done|]. by apply (parents_of_spec _ _ (Hm mount Hmount) Hp). }
  split_and!; [by rewrite sort_by_Permutation|exact Hin|].
  intros pre d post Ed q Hq.
  assert (Hs : StronglySorted (λ x y, depth x <= depth y)%nat (sort_by directory_order (string_set (concat dss)))).
  { apply sort_by_measure; intros x y; unfold directory_order; destruct (Nat.eqb_spec (depth x) (depth y));
      [lia|apply Nat.leb_le|lia|intros ?%Nat.leb_gt; lia]. }
  assert (Hqd : q ∈ sort_by directory_order (string_set (concat dss))).
  { apply Hin. assert (Hd : d ∈ sort_by directory_order (string_set (concat dss))) by (rewrite Ed; set_solver).
    apply Hin in Hd as (mount & Hmount & Ha). exists mount. split; [done|]. by eapply ancestor_trans. }
  rewrite Ed in Hs, Hqd. apply ancestor_shallower in Hq. apply elem_of_app in Hqd as [?|Hqd]; [done|].
  apply StronglySorted_app in Hs as (_ & _ & Hs). apply StronglySorted_cons in Hs as [Hd _].
  apply elem_of_cons in Hqd as [->|Hqd]; [lia|]. rewrite Forall_forall in Hd. specialize (Hd q Hqd). lia.
Qed.

(** ** What the guest is given *)

Definition launch_arguments `{HostTexts} (input : SandboxBuildInput) (managed : bool) : option (list string) :=
  if managed then managed_bwrap_arguments input else ls_argv <$> buildBwrapLaunchSpecification input.
Definition launch_command (managed : bool) : list string := if managed then [] else ["/usr/bin/node"; "/app/worker.mjs"].
Definition launch_plan (input : SandboxBuildInput) (managed : bool) (directories : list string) : list bwrap_option :=
  base_plan input managed directories ++ (if managed then managed_rest input else isolated_rest input).
Definition guest_environment (input : SandboxBuildInput) : jsmap string string :=
  map_set "PATH" (sc_guestPath (bi_config input)) SANDBOX_ENVIRONMENT.

Lemma isolated_arguments `{HostTexts} input base plan : baseBwrapArguments input false = Some base → base = rendered plan →
  launch_arguments input false = Some (rendered (plan ++ isolated_rest input) ++ launch_command false)%list.
Proof.
  intros Hb ->. unfold launch_arguments, buildBwrapLaunchSpecification. rewrite Hb.
  cbn [mbind option_bind fmap option_fmap option_map ls_argv]. f_equal.
  unfold isolated_rest. rewrite !rendered_app, <-!app_assoc. do 2 f_equal.
Qed.
Lemma managed_arguments `{HostTexts} input base plan : baseBwrapArguments input true = Some base → base = rendered plan →
  launch_arguments input true = Some (rendered (plan ++ managed_rest input) ++ launch_command true)%list.
Proof.
  intros Hb ->. unfold launch_arguments, managed_bwrap_arguments. rewrite Hb.
  cbn [mbind option_bind]. f_equal. unfold managed_rest. rewrite !rendered_app, <-!app_assoc. f_equal.
Qed.

Lemma launch_arguments_read `{HostTexts} input managed directories :
  mountParentDirectories (sc_readOnlyMounts (bi_config input)) = Some directories →
  ∃ arguments, launch_arguments input managed = Some arguments ∧
    read_arguments arguments = Some (launch_plan input managed directories, launch_command managed).
Proof.
  intros Hd. pose proof (base_arguments_rendered input managed directories Hd) as Hb.
  assert (Hk : forallb known (launch_plan input managed directories) = true).
  { unfold launch_plan. rewrite forallb_app, base_plan_known. destruct managed; [done|].
    unfold isolated_rest. by rewrite !forallb_app, !known_fmap by (by intros [[]] || by intros []). }
  exists (rendered (launch_plan input managed directories) ++ launch_command managed)%list.
  split; [destruct managed; [by eapply managed_arguments|by eapply isolated_arguments]|].
  apply read_command; [done|]. destruct managed; [by left|right; by eexists _, _].
Qed.

Lemma omap_fmap_some {A B} (f : A → bwrap_option) (g : A → B) (read : bwrap_option → option B) (xs : list A) :
  (∀ x, read (f x) = Some (g x)) → omap read (f <$> xs) = g <$> xs.
Proof. intros Hf. induction xs as [|x xs IH]; [done|]. cbn. by rewrite Hf, <-IH. Qed.
Lemma omap_fmap_none {A B} (f : A → bwrap_option) (read : bwrap_option → option B) (xs : list A) :
  (∀ x, read (f x) = None) → omap read (f <$> xs) = [].
Proof. intros Hf. induction xs as [|x xs IH]; [done|]. cbn. by rewrite Hf. Qed.

Lemma plan_host_trees input managed directories :
  omap host_tree (launch_plan input managed directories) =
    ([(false, "/usr", "/usr")] ++ (if managed then [(false, "/etc/ssl/certs", "/etc/ssl/certs")] else [])
     ++ ((λ mount, (false, ro_source mount, ro_destination mount)) <$> sc_readOnlyMounts (bi_config input))
     ++ ((λ mount, (bool_decide (wm_access mount = ReadWrite), wm_source mount, workspaceMountGuestPath (wm_name mount))) <$> bi_mounts input)
     ++ [(true, bi_workspace input, "/workspace")])%list.
Proof.
  unfold launch_plan, base_plan. rewrite !omap_app.
  rewrite (omap_fmap_none _ host_tree (present_links input)) by by intros [[[[]]]].
  rewrite (omap_fmap_none DirAt host_tree directories) by done.
  rewrite (omap_fmap_some _ (λ mount, (false, ro_source mount, ro_destination mount)) host_tree (sc_readOnlyMounts (bi_config input))) by done.
  rewrite (omap_fmap_some _ (λ mount, (bool_decide (wm_access mount = ReadWrite), wm_source mount, workspaceMountGuestPath (wm_name mount)))
    host_tree (bi_mounts input)) by by intros [? ? []].
  assert (Hr : omap host_tree (if managed then managed_rest input else isolated_rest input) = []).
  { destruct managed; [done|]. unfold isolated_rest. rewrite !omap_app, !omap_fmap_none by (by intros [[]] || by intros []). done. }
  rewrite Hr, app_nil_r. by destruct managed, (Nat.ltb 0 (length (bi_mounts input))).
Qed.

(** What comes after the workspace: the sandbox's own files and the environment. *)
Definition own_option (o : bwrap_option) : Prop :=
  match o with
  | RoBindData _ d => d ∈ ["/app/worker.mjs"; "/etc/passwd"; "/etc/group"; "/etc/hosts"; "/etc/nsswitch.conf"]
  | SetEnv _ _ | Perms _ => True
  | Chdir d => d = "/workspace"
  | _ => False
  end.
Definition sets_variable (o : bwrap_option) : option (string * string) :=
  match o with SetEnv name value => Some (name, value) | _ => None end.

Lemma rest_own input (managed : bool) : Forall own_option (if managed then managed_rest input else isolated_rest input).
Proof.
  destruct managed; cbn; repeat (apply Forall_cons; split; [cbn; try done; set_solver|]); apply Forall_nil_2.
Qed.

Lemma base_variables input managed directories : omap sets_variable (base_plan input managed directories) = [].
Proof.
  unfold base_plan. rewrite !omap_app.
  rewrite !omap_fmap_none by (done || by intros [? ? []] || by intros [[[[]]]]).
  by destruct managed, (Nat.ltb 0 (length (bi_mounts input))).
Qed.
Lemma rest_variables input (managed : bool) :
  omap sets_variable (if managed then managed_rest input else isolated_rest input) = if managed then [] else guest_environment input.
Proof. by destruct managed. Qed.

Definition added_capability (o : bwrap_option) : option string := match o with CapAdd cap => Some cap | _ => None end.
Lemma plan_capabilities input managed directories :
  omap added_capability (launch_plan input managed directories) = if managed then ["CAP_NET_ADMIN"; "CAP_SETPCAP"] else [].
Proof.
  unfold launch_plan, base_plan. rewrite !omap_app.
  rewrite !omap_fmap_none by (done || by intros [? ? []] || by intros [[[[]]]]).
  by destruct managed, (Nat.ltb 0 (length (bi_mounts input))).
Qed.

Lemma plan_environment input managed directories :
  ∃ before after, launch_plan input managed directories = (before ++ ClearEnv :: after)%list ∧ omap sets_variable before = [] ∧
    omap sets_variable after = if managed then [] else guest_environment input.
Proof.
  pose proof (base_variables input managed directories) as Hb.
  assert (Hs : ∃ before after, base_plan input managed directories = (before ++ ClearEnv :: after)%list).
  { unfold base_plan. destruct managed; [|by eexists [_; _; _; _; _; _; _; _; _], _].
    by eexists [_; _; _; _; _; _; _; _; _; _; _], _. }
  destruct Hs as (before & after & E). rewrite E, omap_app in Hb. apply app_eq_nil in Hb as [Hb1 Hb2].
  exists before, (after ++ (if managed then managed_rest input else isolated_rest input))%list.
  unfold launch_plan. rewrite E, <-app_assoc. split_and!; [done|done|]. rewrite omap_app, rest_variables.
  change (omap sets_variable (ClearEnv :: after)) with (omap sets_variable after) in Hb2. by rewrite Hb2.
Qed.

Lemma plan_ends input managed directories :
  ∃ before after, launch_plan input managed directories =
      (before ++ [Bind (bi_workspace input) "/workspace"; TmpfsAt "/workspace/.chatwca"] ++ after)%list ∧ Forall own_option after.
Proof.
  assert (Hs : ∃ before, base_plan input managed directories =
      (before ++ [Bind (bi_workspace input) "/workspace"; TmpfsAt "/workspace/.chatwca"])%list).
  { unfold base_plan. rewrite !app_assoc. by eexists. }
  destruct Hs as [before E]. exists before, (if managed then managed_rest input else isolated_rest input).
  unfold launch_plan. rewrite E, <-app_assoc. split; [done|apply rest_own].
Qed.

(** C21: the launcher is told exactly what was planned. Whatever the paths and
    values configured, as long as the mounts are at absolute paths, the arguments
    for the isolated profile and those for the managed one are built, and are read
    by the syntax of Bubblewrap's options as one plan, in which no value is taken
    for an option or the command. Under this plan the guest has no network, no
    capability but the two that the helper gives up, and the host's files only as
    follows: the system's programs, certificates when managed, and configured
    mounts to read; each mount of the workspace with its access; the workspace to
    write. The environment is cleared, and then has exactly the guest's variables;
    and after the workspace and the directory that hides its private part come only
    the sandbox's own files. *)
Theorem sandbox_arguments_say_what_was_planned `{HostTexts} input managed :
  Forall (λ mount, is_absolute (ro_destination mount) = true) (sc_readOnlyMounts (bi_config input)) →
  ∃ arguments plan, launch_arguments input managed = Some arguments ∧
    read_arguments arguments = Some (plan, launch_command managed) ∧
    omap host_tree plan =
      ([(false, "/usr", "/usr")] ++ (if managed then [(false, "/etc/ssl/certs", "/etc/ssl/certs")] else [])
       ++ ((λ mount, (false, ro_source mount, ro_destination mount)) <$> sc_readOnlyMounts (bi_config input))
       ++ ((λ mount, (bool_decide (wm_access mount = ReadWrite), wm_source mount, workspaceMountGuestPath (wm_name mount))) <$> bi_mounts input)
       ++ [(true, bi_workspace input, "/workspace")])%list ∧
    [Unshare "user"; Unshare "pid"; Unshare "ipc"; Unshare "uts"; Unshare "net"; CapDrop "ALL"; NewSession; DieWithParent] ⊆ plan ∧
    omap added_capability plan = (if managed then ["CAP_NET_ADMIN"; "CAP_SETPCAP"] else []) ∧
    (∃ before after, plan = (before ++ ClearEnv :: after)%list ∧ omap sets_variable before = [] ∧
       omap sets_variable after = if managed then [] else guest_environment input) ∧
    (∃ before after, plan = (before ++ [Bind (bi_workspace input) "/workspace"; TmpfsAt "/workspace/.chatwca"] ++ after)%list ∧
       Forall own_option after).
Proof.
  intros Hm. destruct (mount_parents_end _ Hm) as [directories Hd].
  destruct (launch_arguments_read input managed directories Hd) as (arguments & Ha & Hr).
  exists arguments, (launch_plan input managed directories).
  split_and!; [done|done|apply plan_host_trees| |apply plan_capabilities|apply plan_environment|apply plan_ends].
  unfold launch_plan, base_plan. intros o Ho. destruct managed; set_solver.
Qed.

(** ** The trees of the guest are apart *)

Lemma slug_chars s : slug s = true → str_all is_slug_char s = true ∧ s ≠ "".
Proof.
  assert (Hedge : ∀ a, is_slug_edge a = true → is_slug_char a = true) by (intros a Ha; unfold is_slug_char; by rewrite Ha).
  unfold slug. destruct s as [|a [|b r]]; [done| |]; intros Hs; (split; [|done]).
  - cbn. by rewrite Hedge.
  - apply andb_true_iff in Hs as [[[Ha Hr]%andb_true_iff _]%andb_true_iff _].
    change (is_slug_char a && str_all is_slug_char (String b r) = true). by rewrite (Hedge a Ha), Hr.
Qed.
Lemma slug_plain s : slug s = true → plain s.
Proof.
  intros [Hs Hne]%slug_chars. split_and!; [done|by intros ->|by intros ->|].
  by apply (has_char_all sep is_slug_char).
Qed.

Lemma plain_path_normal l : l ≠ [] → Forall plain l →
  normalize (path_of_segments l) = path_of_segments l ∧ ∀ cwd, resolved_segments cwd [path_of_segments l] = l.
Proof.
  intros Hne Hl.
  assert (Hs : split sep (path_of_segments l) = "" :: l).
  { unfold path_of_segments. cbn [split]. rewrite Ascii.eqb_refl. f_equal. apply split_join; [done|].
    eapply Forall_impl; [exact Hl|]. by intros x (_ & _ & _ & ?). }
  assert (Hn : normal_segments true (path_of_segments l) = l).
  { unfold normal_segments. rewrite Hs. cbn [normalize_segments]. rewrite String.eqb_refl. cbn [orb negb].
    rewrite normalize_segments_of_plain by done. by rewrite app_nil_r, rev_involutive. }
  assert (He : ends_with "/" (path_of_segments l) = false).
  { apply not_true_iff_false. intros [r E]%ends_with_spec. rewrite E in Hs.
    change (r +:+ "/") with (r +:+ String sep "") in Hs. rewrite (split_app sep r "") in Hs.
    destruct (split sep r) as [|x xs]; [by injection Hs as <-|]. injection Hs as _ Hs. rewrite <-Hs, Forall_app in Hl.
    destruct Hl as [_ [(Hx & _) _]%Forall_cons]. done. }
  assert (Hnorm : normalize (path_of_segments l) = path_of_segments l).
  { unfold normalize. rewrite He. change (String.eqb (path_of_segments l) "") with false. cbv iota zeta.
    rewrite (is_absolute_sep _ : is_absolute (path_of_segments l) = true), Hn. destruct l; [done|]. by rewrite str_app_nil. }
  split; [exact Hnorm|]. intros cwd. apply normal_path_segments; [exact Hnorm|apply is_absolute_sep|by rewrite Hs|].
  intros Hin. rewrite Forall_forall in Hl. by destruct (Hl _ Hin).
Qed.

Definition apart_all (cwd : string) (paths : list string) : Prop :=
  ∀ i j p q, i ≠ j → paths !! i = Some p → paths !! j = Some q → canonicalPathsOverlap cwd p q = false.

Lemma apart_app cwd l1 l2 : apart_all cwd l1 → apart_all cwd l2 →
  (∀ p q, p ∈ l1 → q ∈ l2 → canonicalPathsOverlap cwd p q = false) → apart_all cwd (l1 ++ l2).
Proof.
  intros H1 H2 Hx i j p q Hij Hi Hj. apply lookup_app_Some in Hi, Hj.
  destruct Hi as [Hi|[Hi Hi']], Hj as [Hj|[Hj Hj']].
  - by eapply H1.
  - apply Hx; by eapply list_elem_of_lookup_2.
  - rewrite overlap_sym. apply Hx; by eapply list_elem_of_lookup_2.
  - eapply (H2 (i - length l1)%nat (j - length l1)%nat); [lia|done|done].
Qed.

Lemma guest_path_segments cwd name : slug name = true → resolved_segments cwd [workspaceMountGuestPath name] = ["mounts"; name].
Proof.
  intros Hs. apply (plain_path_normal ["mounts"; name]); [done|]. constructor; [by repeat split|].
  constructor; [by apply slug_plain|constructor].
Qed.

(** A mount of a loaded configuration is at a canonical path. *)
Lemma mounts_from_realpath fileSystem cwd mounts configured out :
  canonical_mounts fileSystem cwd mounts configured = Ok out →
  (∀ m, m ∈ mounts → ∃ p real, fs_realpath fileSystem p = Some real ∧ ro_destination m = normalize real) →
  ∀ m, m ∈ out → ∃ p real, fs_realpath fileSystem p = Some real ∧ ro_destination m = normalize real.
Proof.
  revert mounts. induction configured as [|source rest IH]; intros mounts E Hm; cbn [canonical_mounts] in E; [by injection E as <-|].
  destruct (is_absolute source); [|done]. destruct (fs_realpath _ _) as [real|] eqn:Er; [|done]. cbn [negb] in E.
  destruct (fs_stat _ _) as [[]|]; try done.
  all: destruct (includes _ _); [done|]; destruct (existsb _ mounts); [done|].
  all: destruct (existsb _ PROTECTED_MOUNT_DESTINATIONS); [done|].
  all: refine (IH _ E _); intros m Hin; apply elem_of_app in Hin as [Hin|Hin]; [by apply Hm|].
  all: apply list_elem_of_singleton in Hin as ->; by exists source, real.
Qed.

Lemma loaded_mounts `{TextConversions} environment fileSystem cwd c :
  loadSandboxConfig environment fileSystem cwd = Ok c → sc_mode c ≠ ModeDisabled →
  (∀ p real, fs_realpath fileSystem p = Some real → real = "/" ∨ canonical real) →
  Forall (approved fileSystem cwd) (sc_readOnlyMounts c) ∧ pairwise_apart cwd (sc_readOnlyMounts c) ∧
  Forall (λ m, canonical (ro_destination m)) (sc_readOnlyMounts c).
Proof.
  unfold loadSandboxConfig. intros E Hmode Hreal. inv_bind E. injection E as <-. cbn in *.
  match goal with Hx : canonicalizeMounts _ _ _ _ = Ok _ |- _ => rename Hx into Hmounts end.
  unfold canonicalizeMounts in Hmounts. rewrite bool_decide_eq_false_2 in Hmounts by done.
  destruct (canonical_mounts_Ok _ _ _ _ _ Hmounts (List.Forall_nil _)) as [Hok Hpair]; [by intros i j m n _ Hi|].
  split_and!; [done|done|]. apply Forall_forall. intros m Hm.
  destruct (mounts_from_realpath _ _ _ _ _ Hmounts (λ m Hm, False_ind _ (proj1 (elem_of_nil m) Hm)) m Hm) as (p & real & Er & Ed).
  destruct (Hreal _ _ Er) as [->|Hc].
  - exfalso. rewrite Forall_forall in Hok. destruct (Hok m Hm) as (_ & _ & Hap).
    specialize (Hap "/app" ltac:(left)). rewrite Ed in Hap. apply not_true_iff_false in Hap. apply Hap, overlap_spec.
    left. apply prefix_nil.
  - rewrite Ed. destruct Hc as (l & Hne & Hl & ->). exists l. split_and!; [done|done|]. by apply plain_path_normal.
Qed.

(** What the sandbox keeps for itself, or is given by descriptor. *)
Definition own_places : list string :=
  ["/proc"; "/dev"; "/tmp"; "/var/tmp"; "/etc/ssl/certs"; "/mounts"; "/workspace/.chatwca";
   "/app/worker.mjs"; "/etc/passwd"; "/etc/group"; "/etc/hosts"; "/etc/nsswitch.conf"].
Definition keeper (own : string) : string := String sep (default "" (head (segments_of own))).

Lemma own_place_protected cwd own t : own ∈ own_places →
  (∀ p, p ∈ PROTECTED_MOUNT_DESTINATIONS → canonicalPathsOverlap cwd t p = false) → canonicalPathsOverlap cwd t own = false.
Proof.
  intros Hown Ht.
  assert (Hp : ∃ p, p ∈ PROTECTED_MOUNT_DESTINATIONS ∧ isCanonicalPathContained cwd p own = true).
  { exists (if String.eqb own "/var/tmp" then own else keeper own).
    apply list_elem_of_In in Hown. cbn in Hown.
    repeat (destruct Hown as [<-|Hown];
      [split; [apply list_elem_of_In; cbn; tauto|by apply contained_prefix; eexists; reflexivity]|]). done. }
  destruct Hp as (p & Hp & Hc). eapply disjoint_below; [exact (Ht p Hp)|apply contained_refl|exact Hc].
Qed.

(** C22: nothing the guest is given lies under anything else. For a configuration
    that loaded with sandboxing on, and a workspace whose mounts have distinct names
    of the form that names have, the places of the configured mounts, of the
    workspace's mounts and of the workspace are pairwise apart, so that none of them
    hides or shows through another one; the configured ones are also apart from
    everything the sandbox makes itself; and the directories made for them are
    exactly those they are in, each one once and after those it is in itself. *)
Theorem guest_trees_are_apart `{TextConversions} `{HostTexts} environment fileSystem cwd c mounts :
  loadSandboxConfig environment fileSystem cwd = Ok c → sc_mode c ≠ ModeDisabled →
  (∀ p real, fs_realpath fileSystem p = Some real → real = "/" ∨ canonical real) →
  Forall (λ name, slug name = true) (wm_name <$> mounts) → NoDup (wm_name <$> mounts) →
  apart_all cwd ((ro_destination <$> sc_readOnlyMounts c)
    ++ ((λ mount, workspaceMountGuestPath (wm_name mount)) <$> mounts) ++ ["/workspace"]) ∧
  (∀ mount own, mount ∈ sc_readOnlyMounts c → own ∈ own_places → canonicalPathsOverlap cwd (ro_destination mount) own = false) ∧
  ∃ directories, mountParentDirectories (sc_readOnlyMounts c) = Some directories ∧ NoDup directories ∧
    (∀ d, d ∈ directories ↔ ∃ mount, mount ∈ sc_readOnlyMounts c ∧ ancestor d (ro_destination mount)) ∧
    (∀ pre d post, directories = (pre ++ d :: post)%list → ∀ q, ancestor q d → q ∈ pre).
Proof.
  intros E Hmode Hreal Hslug Hnames.
  destruct (loaded_mounts _ _ _ _ E Hmode Hreal) as (Hok & Hpair & Hcan). rewrite Forall_forall in Hok. rewrite Forall_forall in Hslug.
  assert (Hname : ∀ mount, mount ∈ mounts → resolved_segments cwd [workspaceMountGuestPath (wm_name mount)] = ["mounts"; wm_name mount]).
  { intros mount Hin. apply guest_path_segments, Hslug, list_elem_of_fmap. by exists mount. }
  split_and!.
  - apply apart_app; [|apply apart_app|].
    + intros i j p q Hij Hi Hj. rewrite list_lookup_fmap in Hi, Hj.
      destruct (_ !! i) as [m|] eqn:Em; [|done]. destruct (_ !! j) as [n|] eqn:En; [|done].
      injection Hi as <-. injection Hj as <-. by eapply Hpair.
    + intros i j p q Hij Hi Hj. rewrite list_lookup_fmap in Hi, Hj.
      destruct (_ !! i) as [m|] eqn:Em; [|done]. destruct (_ !! j) as [n|] eqn:En; [|done].
      injection Hi as <-. injection Hj as <-. apply not_true_iff_false. rewrite overlap_spec.
      rewrite !Hname by (by eapply list_elem_of_lookup_2).
      intros Hpre. apply Hij, (NoDup_lookup _ i j (wm_name m) Hnames); rewrite list_lookup_fmap; [by rewrite Em|].
      rewrite En. cbn. destruct Hpre as [Hpre|Hpre]; apply prefix_cons_inv_2, prefix_cons_inv_1 in Hpre; congruence.
    + intros i j p q Hij Hi Hj. apply list_lookup_singleton_Some in Hi as [-> _], Hj as [-> _]. done.
    + intros p q (m & -> & Hm)%list_elem_of_fmap Hq. apply list_elem_of_singleton in Hq as ->.
      by eapply resolved_heads_apart; [apply Hname|reflexivity|].
    + intros p q (m & -> & Hm)%list_elem_of_fmap Hq. apply elem_of_app in Hq. destruct (Hok m Hm) as (_ & _ & Hap).
      destruct Hq as [(n & -> & Hn)%list_elem_of_fmap|Hq]; [|apply list_elem_of_singleton in Hq as ->].
      * eapply disjoint_below; [apply (Hap "/mounts"); apply list_elem_of_In; cbn; tauto|apply contained_refl|].
        apply contained_prefix. rewrite (Hname n Hn). by eexists.
      * apply Hap. apply list_elem_of_In. cbn. tauto.
  - intros mount own Hm Hown. destruct (Hok mount Hm) as (_ & _ & Hap). by eapply own_place_protected.
  - destruct (mount_parents_end (sc_readOnlyMounts c)) as [directories Hd].
    { eapply Forall_impl; [exact Hcan|]. intros m (l & _ & _ & ->). apply is_absolute_sep. }
    exists directories. split; [done|]. by apply mount_parents.
Qed.

(** ** The specification that the launcher gets *)

(** A frame: its length in four bytes, then exactly that much. *)
Definition read_frame (bytes : buffer) : option buffer :=
  match bytes with
  | b0 :: b1 :: b2 :: b3 :: payload =>
      if ((b0 * 256 + b1) * 256 + b2) * 256 + b3 =? Z.of_nat (length payload) then Some payload else None
  | _ => None
  end.

Lemma uint32_be_value n : 0 ≤ n < 4294967296 → ∃ b0 b1 b2 b3, uint32_be n = [b0; b1; b2; b3] ∧
  ((b0 * 256 + b1) * 256 + b2) * 256 + b3 = n.
Proof. intros Hn. eexists _, _, _, _. split; [reflexivity|]. Z.to_euclidean_division_equations. lia. Qed.

Lemma frame_roundtrip d frame : protocolFrame d = Ok frame →
  read_frame frame = Some (utf8_bytes (descriptor_json d)) ∧ Z.of_nat (length frame) ≤ 64 * 1024 + 4.
Proof.
  unfold protocolFrame. generalize (utf8_bytes (descriptor_json d)). intros payload.
  destruct (_ || _) eqn:E; [done|]. apply orb_false_iff in E as [_ E%Z.ltb_ge].
  destruct (uint32_be_value (Z.of_nat (length payload))) as (b0 & b1 & b2 & b3 & -> & Hv); [lia|].
  intros [= <-].
  cbn [app read_frame]. rewrite Hv, Z.eqb_refl. split; [done|]. cbn [length]. lia.
Qed.

Definition describes `{HostTexts} (artifact : ManagedHelperArtifactDescriptor) (binding : BwrapDataBinding) : Prop :=
  ad_fd artifact = db_fd binding ∧ Some (ad_destination artifact) = db_destination binding ∧
  ad_sha256 artifact = sha256_hex (db_payload binding) ∧ ad_bytes artifact = Z.of_nat (length (db_payload binding)).

Lemma artifacts_described `{HostTexts} input fds :
  Forall2 describes (artifact_descriptor <$> artifactBindings input fds) (as_binding <$> artifactBindings input fds).
Proof. apply Forall2_fmap, Forall2_same_length_lookup_2; [done|]. intros i x y Hx Hy. by simplify_eq. Qed.

(** The descriptors of a launch: those it is given, apart from those it speaks on. *)
Definition descriptors_ok (spec : BwrapLaunchSpecification) : Prop :=
  NoDup ((db_fd <$> ls_dataBindings spec) ++ [ls_requestFd spec; ls_responseFd spec] ++ option_list (ls_helperReadyFd spec)) ∧
  Forall (λ fd, 3 ≤ fd < ls_stdioCount spec)
    ((db_fd <$> ls_dataBindings spec) ++ [ls_requestFd spec; ls_responseFd spec] ++ option_list (ls_helperReadyFd spec)).

(** A launch is built or refused for a reason, and what is handed over is what
    was built. For mounts at absolute paths a specification is always arrived at.
    The isolated profile is never refused and runs the validated Bubblewrap with its
    arguments. The managed one is refused exactly when the helper is of another
    version or protocol, or when its description is over 64 KiB; otherwise it runs
    the helper with an empty environment, and the first file it is given is a frame
    that is read back as that description, with Bubblewrap's arguments in it, and
    with the descriptor, destination, size and digest of each further file as it is
    given. Either way the descriptors are distinct from one another and from those
    for requests, responses and readiness, and within those that are opened. *)
Lemma launches_are_handed_over `{HostTexts} input profile :
  Forall (λ mount, is_absolute (ro_destination mount) = true) (sc_readOnlyMounts (bi_config input)) →
  ∃ outcome, buildSandboxLaunchSpecification input profile = Some outcome ∧
  match profile, outcome with
  | ProfileIsolated, Ok spec =>
      ls_executable spec = vh_bwrapPath (bi_host input) ∧ launch_arguments input false = Some (ls_argv spec) ∧
      ls_dataBindings spec = as_binding <$> artifactBindings input FD_isolatedArtifacts ∧ descriptors_ok spec
  | ProfileIsolated, Err _ => False
  | ProfileManagedEgress helper http socks, Ok spec =>
      nh_buildVersion helper = NETWORK_HELPER_BUILD_VERSION ∧ nh_protocolVersion helper = NETWORK_HELPER_PROTOCOL_VERSION ∧
      ls_executable spec = nh_path helper ∧ ls_emptyEnvironment spec = true ∧ descriptors_ok spec ∧
      ∃ arguments frame files, launch_arguments input true = Some arguments ∧
        ls_dataBindings spec = {| db_fd := FD_helperLaunch; db_destination := None; db_payload := frame |} :: files ∧
        files = as_binding <$> artifactBindings input FD_managedArtifacts ∧
        read_frame frame = Some (utf8_bytes (descriptor_json (launch_descriptor input http socks arguments))) ∧
        Forall2 describes (ld_artifacts (launch_descriptor input http socks arguments)) files
  | ProfileManagedEgress helper http socks, Err e =>
      if negb (nh_protocolVersion helper =? NETWORK_HELPER_PROTOCOL_VERSION)
         || negb (String.eqb (nh_buildVersion helper) NETWORK_HELPER_BUILD_VERSION)
      then e = app_error NETWORK_HELPER_UNAVAILABLE
      else e = Foreign None "helper launch descriptor is oversized" ∧
        ∃ arguments, launch_arguments input true = Some arguments ∧
          64 * 1024 < Z.of_nat (length (utf8_bytes (descriptor_json (launch_descriptor input http socks arguments))))
  end.
Proof.
  intros Hm. destruct (mount_parents_end _ Hm) as [directories Hd]. destruct profile as [|helper http socks].
  - pose proof (base_arguments_rendered input false directories Hd) as Hb.
    unfold buildSandboxLaunchSpecification, launch_arguments, buildBwrapLaunchSpecification. rewrite Hb.
    cbn [mbind option_bind fmap option_fmap option_map]. eexists. split; [reflexivity|].
    split_and!; [done|done|done|]. split; cbn; [apply (bool_decide_unpack _); by vm_compute|].
    repeat (constructor; [cbv; split; congruence|]). constructor.
  - destruct (launch_arguments_read input true directories Hd) as (arguments & Ha & _).
    unfold launch_arguments in Ha. unfold buildSandboxLaunchSpecification, buildManagedBwrapLaunchSpecification.
    destruct (negb _ || negb _) eqn:Ev; [by eexists (Err _)|]. rewrite Ha. cbn [mbind option_bind].
    eexists. split; [reflexivity|]. apply orb_false_iff in Ev as [Ep%negb_false_iff%Z.eqb_eq Eb%negb_false_iff%String.eqb_eq].
    destruct (protocolFrame _) as [frame|e] eqn:Ef; cbn [mbind result_bind].
    + destruct (frame_roundtrip _ _ Ef) as [Hr _]. split_and!; [done|done|done|done| |].
      * split; cbn; [apply (bool_decide_unpack _); by vm_compute|]. repeat (constructor; [cbv; split; congruence|]). constructor.
      * exists arguments, frame, (as_binding <$> artifactBindings input FD_managedArtifacts).
        split_and!; [done|done|done|done|apply artifacts_described].
    + revert Ef. unfold protocolFrame. destruct (_ || _) eqn:Eo; [intros [= <-]|done]. split; [done|].
      exists arguments. split; [done|]. apply orb_true_iff in Eo as [Eo|Eo%Z.ltb_lt]; [|exact Eo].
      apply Nat.eqb_eq in Eo. discriminate Eo.
Qed.

(** ** The root of the guest *)

(** The entry of the root under which an option makes something. *)
Definition made_at (o : bwrap_option) : option string :=
  match o with
  | RoBind _ d | Bind _ d | Symlink _ d | ProcAt d | DevAt d | TmpfsAt d | DirAt d | RoBindData _ d => Some d
  | _ => None
  end.
Definition top_of (p : string) : option string := head (filter (λ s, s ≠ "") (split sep p)).
Definition root_entry (o : bwrap_option) : option string := made_at o ≫= top_of.

Lemma top_of_path l : Forall plain l → top_of (path_of_segments l) = head l.
Proof.
  intros Hl. unfold top_of. destruct l as [|x l]; [done|].
  unfold path_of_segments. cbn [split]. rewrite Ascii.eqb_refl, split_join; [|done|].
  2:{ eapply Forall_impl; [exact Hl|]. by intros y (_ & _ & _ & ?). }
  apply Forall_cons in Hl as [(Hx & _) _]. rewrite filter_cons_False by (by intros []). by rewrite filter_cons_True.
Qed.
Lemma top_of_mount name : top_of (workspaceMountGuestPath name) = Some "mounts".
Proof.
  unfold top_of, workspaceMountGuestPath. change (WORKSPACE_MOUNT_GUEST_ROOT +:+ "/" +:+ name) with ("/mounts" +:+ String sep name).
  rewrite (split_app sep "/mounts" name). done.
Qed.

Definition link_names (input : SandboxBuildInput) : list string := (λ '(name, _, _, _, _), name) <$> present_links input.
Lemma links_made input : omap root_entry ((λ '(_, _, target, destination, _), Symlink target destination) <$> present_links input) = link_names input.
Proof. unfold link_names, present_links. by destruct (vh_compatibilityLinks (bi_host input)) as [[] [] [] []]. Qed.

Lemma omap_of_fmap {A} (f : A → bwrap_option) (g : A → option string) (xs : list A) :
  (∀ x, root_entry (f x) = g x) → omap root_entry (f <$> xs) = omap g xs.
Proof. intros Hf. induction xs as [|x xs IH]; [done|]. cbn. rewrite Hf. destruct (g x); [f_equal|]; exact IH. Qed.

Definition mount_tops (mounts : list SandboxReadOnlyMount) : list string := omap (λ mount, top_of (ro_destination mount)) mounts.
Lemma plan_roots input managed directories :
  omap root_entry (launch_plan input managed directories) =
    (["usr"] ++ link_names input ++ ["proc"; "dev"; "home"; "home"; "tmp"; "var"; "var"; "etc"; "app"]
     ++ (if managed then ["etc"; "etc"] else []) ++ omap root_entry (DirAt <$> directories)
     ++ mount_tops (sc_readOnlyMounts (bi_config input))
     ++ (if Nat.ltb 0 (length (bi_mounts input)) then ["mounts"] else []) ++ ((λ _, "mounts") <$> bi_mounts input)
     ++ ["workspace"; "workspace"] ++ ["app"; "etc"; "etc"; "etc"; "etc"])%list.
Proof.
  unfold launch_plan, base_plan. rewrite !omap_app, links_made.
  rewrite (omap_of_fmap (λ mount, RoBind (ro_source mount) (ro_destination mount)) (λ mount, top_of (ro_destination mount))) by done.
  rewrite (omap_fmap_some _ (λ _, "mounts") root_entry (bi_mounts input)) by (intros [? ? []]; apply top_of_mount).
  assert (Hr : omap root_entry (if managed then managed_rest input else isolated_rest input) = ["app"; "etc"; "etc"; "etc"; "etc"]).
  { destruct managed; [done|]. unfold isolated_rest. rewrite !omap_app.
    rewrite (omap_fmap_none (λ '(name, value), SetEnv name value) root_entry) by by intros []. done. }
  rewrite Hr, <-!app_assoc. by destruct managed, (Nat.ltb 0 (length (bi_mounts input))).
Qed.

Lemma directories_made (mounts : list SandboxReadOnlyMount) (directories : list string) : Forall (λ m, canonical (ro_destination m)) mounts →
  (∀ d, d ∈ directories ↔ ∃ mount, mount ∈ mounts ∧ ancestor d (ro_destination mount)) →
  ∀ v : string, v ∈ omap root_entry (DirAt <$> directories) → v ∈ mount_tops mounts.
Proof.
  intros Hm Hd v. unfold mount_tops. rewrite !list_elem_of_omap. intros (o & (d & -> & Hin)%list_elem_of_fmap & Ho).
  apply Hd in Hin as (mount & Hmount & (k & l & Hk & Hl & Ed & -> & Hp)). exists mount. split; [done|].
  cbn in Ho. rewrite Ed, top_of_path by done. rewrite top_of_path in Ho by (by apply Forall_app in Hp as [? _]). by destruct k.
Qed.

(** The root the startup probe expects is the root that is made. For mounts at
    canonical paths the expected entries are, each once, exactly those under which
    the plan makes something, for the isolated and the managed profile alike. *)
Lemma expected_roots_are_those_made `{HostTexts} input managed directories :
  Forall (λ mount, canonical (ro_destination mount)) (sc_readOnlyMounts (bi_config input)) →
  mountParentDirectories (sc_readOnlyMounts (bi_config input)) = Some directories →
  NoDup (expectedRoots input) ∧
  ∀ v, v ∈ expectedRoots input ↔ v ∈ omap root_entry (launch_plan input managed directories).
Proof.
  intros Hm Hd. destruct (mount_parents _ _ Hm Hd) as (_ & Hdir & _).
  pose proof (directories_made _ _ Hm Hdir) as Hmade.
  unfold expectedRoots.
  match goal with |- context [string_set ?l] => destruct (string_set_spec l) as [Hn Hv] end.
  split; [by rewrite sort_by_Permutation|]. intros v. rewrite sort_by_Permutation, Hv.
  rewrite plan_roots. fold (link_names input). unfold top_of in Hmade.
  change (omap (λ mount, head (filter (λ s, s ≠ "") (split sep (ro_destination mount)))) (sc_readOnlyMounts (bi_config input)))
    with (mount_tops (sc_readOnlyMounts (bi_config input))).
  assert (Hone : v ∈ (λ _, "mounts") <$> bi_mounts input → v ∈ (if Nat.ltb 0 (length (bi_mounts input)) then ["mounts"] else [])).
  { intros (m & -> & Hin)%list_elem_of_fmap. destruct (bi_mounts input); [by apply elem_of_nil in Hin|by left]. }
  specialize (Hmade v). rewrite !elem_of_app. revert Hmade Hone. generalize (v ∈ link_names input).
  intros links Hmade Hone. rewrite !elem_of_cons, !elem_of_nil. destruct managed; rewrite ?elem_of_cons, ?elem_of_nil; tauto.
Qed.

(** ** The environment of the managed guest *)

Lemma set_all_ok values m : JsValues.map_ok m → JsValues.map_ok (set_all values m).
Proof.
  unfold set_all. revert m. induction values as [|[k v] values IH]; intros m Hm; [done|]. cbn. by apply IH, map_ok_set.
Qed.

(** Whatever the ports, each variable is there once, the search path is the
    configured one, and the proxies are on the guest's own loopback. *)
Lemma managed_environment_is_local httpPort socksPort guestPath :
  let environment := managedSandboxEnvironment httpPort socksPort (Some guestPath) in
  JsValues.map_ok environment ∧ map_get "PATH" environment = Some guestPath ∧ map_get "PWD" environment = Some "/workspace" ∧
  (∀ name value, map_get name environment = Some value → name ∈ ["HTTP_PROXY"; "https_proxy"; "ALL_PROXY"; "npm_config_proxy"] →
     starts_with "http://127.0.0.1:" value = true ∨ starts_with "socks5h://127.0.0.1:" value = true).
Proof.
  cbv zeta. split_and!; [|reflexivity|reflexivity|].
  { apply set_all_ok, set_all_ok, set_all_ok, map_ok_set, (bool_decide_unpack _). by vm_compute. }
  intros name value Hv Hn. apply list_elem_of_In in Hn. cbn in Hn.
  repeat (destruct Hn as [<-|Hn]; [injection Hv as <-; (left; exact (starts_with_app _ _)) || (right; exact (starts_with_app _ _))|]). done.
Qed.

Lemma assignments_do_not_overlap : assignments_load = true.
Proof. reflexivity. Qed.

(** ** A launch *)

#[local] Instance sample_texts : HostTexts := {|
  sha256_hex bytes := pretty (fold_left Z.add bytes 0);
  localeCompare left right := if String.eqb left right then 0 else if String.leb left right then -1 else 1;
|}.
Definition sample_mounts : list WorkspaceMount :=
  [{| wm_name := "data"; wm_source := "/mnt/--data"; wm_access := ReadOnly |};
   {| wm_name := "out"; wm_source := "/mnt/out"; wm_access := ReadWrite |}].
Definition sample_launch (c : SandboxConfig) : SandboxBuildInput := {|
  bi_config := c;
  bi_host := {| vh_bwrapPath := "/usr/bin/bwrap"; vh_bwrapVersion := "bubblewrap 0.9.0"; vh_nodeVersion := "v22.19.0";
    vh_rgPath := "/usr/bin/rg"; vh_rgVersion := "ripgrep 14.1.0";
    vh_compatibilityLinks := {| link_bin := true; link_sbin := true; link_lib := true; link_lib64 := false |} |};
  bi_workspace := "/mnt/work/one"; bi_mounts := sample_mounts;
  bi_worker := {| wa_source := [35; 33]; wa_sha256 := "68"; wa_version := "1" |} |}.
Definition sample_config : SandboxConfig := {|
  sc_mode := ModeRequired; sc_bwrapPath := "/usr/bin/bwrap"; sc_workspaceRoots := ["/mnt/work"];
  sc_readOnlyMounts := [{| ro_source := "/opt/tools"; ro_destination := "/opt/tools"; ro_kind := DirectoryMount |};
                        {| ro_source := "/data/set.csv"; ro_destination := "/data/set.csv"; ro_kind := FileMount |}];
  sc_guestPath := "/opt/tools/bin:/usr/bin:/bin"; sc_startTimeoutMs := 5000; sc_commandTimeoutMs := 900000;
  sc_maxCommandOutputBytes := 67108864 |}.
Definition sample_helper : ValidatedNetworkHelper := {|
  nh_path := "/srv/app/helper"; nh_directory := "/srv/app"; nh_manifestPath := "/srv/app/helper.json"; nh_architecture := "x64";
  nh_buildVersion := "1.0.0"; nh_protocolVersion := 1; nh_sha256 := "00" |}.

Lemma sample_absolute : Forall (λ mount, is_absolute (ro_destination mount) = true) (sc_readOnlyMounts (bi_config (sample_launch sample_config))).
Proof. by repeat (apply Forall_cons; split). Qed.
Lemma sample_canonical : Forall (λ mount, canonical (ro_destination mount)) (sc_readOnlyMounts (bi_config (sample_launch sample_config))).
Proof.
  apply Forall_cons; split; [exists ["opt"; "tools"]|apply Forall_cons; split; [exists ["data"; "set.csv"]|done]];
    (split_and!; [done|by repeat constructor|done]).
Qed.

Lemma sandbox_arguments_say_what_was_planned_witness :
  ∃ arguments plan, launch_arguments (sample_launch sample_config) false = Some arguments ∧
    read_arguments arguments = Some (plan, ["/usr/bin/node"; "/app/worker.mjs"]) ∧
    omap host_tree plan = [(false, "/usr", "/usr"); (false, "/opt/tools", "/opt/tools"); (false, "/data/set.csv", "/data/set.csv");
      (false, "/mnt/--data", "/mounts/data"); (true, "/mnt/out", "/mounts/out"); (true, "/mnt/work/one", "/workspace")].
Proof.
  destruct (sandbox_arguments_say_what_was_planned (sample_launch sample_config) false sample_absolute)
    as (arguments & plan & Ha & Hr & Ht & _).
  exists arguments, plan. split; [exact Ha|]. split; [exact Hr|]. rewrite Ht. reflexivity.
Defined.

#[local] Existing Instance sample_json.
Definition launch_files : SandboxConfigFileSystem := {|
  fs_realpath p :=
    if String.eqb p "/srv/work" then Some "/mnt/work"
    else if String.eqb p "/opt/./tools" then Some "/opt/tools"
    else if String.eqb p "/data/set.csv" then Some "/data/set.csv" else None;
  fs_stat p := Some (if String.eqb p "/data/set.csv" then IsFile else IsDirectory);
|}.
Lemma launch_files_canonical p real : fs_realpath launch_files p = Some real → real = "/" ∨ canonical real.
Proof.
  cbn -[String.eqb]. intros E. right.
  destruct (String.eqb p "/srv/work"); [injection E as <-; exists ["mnt"; "work"]; (split_and!; [done|by repeat constructor|done])|].
  destruct (String.eqb p "/opt/./tools"); [injection E as <-; exists ["opt"; "tools"]; (split_and!; [done|by repeat constructor|done])|].
  destruct (String.eqb p "/data/set.csv"); [|done]. injection E as <-. exists ["data"; "set.csv"].
  split_and!; [done|by repeat constructor|done].
Qed.
Definition loaded_sample : result config_thrown SandboxConfig := loadSandboxConfig sample_sandbox_environment launch_files "/srv/app".

Lemma guest_trees_are_apart_witness :
  match loaded_sample with
  | Err _ => False
  | Ok c => canonicalPathsOverlap "/srv/app" "/opt/tools" "/mounts/out" = false ∧
      ∃ directories, mountParentDirectories (sc_readOnlyMounts c) = Some directories ∧ directories = ["/data"; "/opt"]
  end.
Proof.
  destruct loaded_sample as [c|e] eqn:E; [|vm_compute in E; discriminate E].
  assert (Hon : sc_mode c ≠ ModeDisabled) by (vm_compute in E; injection E as <-; discriminate).
  destruct (guest_trees_are_apart _ _ _ c sample_mounts E Hon launch_files_canonical) as (Hap & _ & directories & Hd & _).
  - by repeat (apply Forall_cons; split).
  - apply (bool_decide_unpack _). reflexivity.
  - vm_compute in E. injection E as <-. split; [apply (Hap 0%nat 3%nat); [lia|reflexivity|reflexivity]|].
    exists directories. split; [exact Hd|]. vm_compute in Hd. by injection Hd as <-.
Defined.

Lemma launches_are_handed_over_witness :
  match buildSandboxLaunchSpecification (sample_launch sample_config) (ProfileManagedEgress sample_helper "/run/http" "/run/socks") with
  | Some (Ok spec) => ls_executable spec = "/srv/app/helper" ∧ (db_fd <$> ls_dataBindings spec) = [3; 13; 14; 15; 16; 17] ∧ descriptors_ok spec
  | _ => False
  end.
Proof.
  destruct (launches_are_handed_over (sample_launch sample_config) (ProfileManagedEgress sample_helper "/run/http" "/run/socks") sample_absolute)
    as (outcome & E & Hout). rewrite E. destruct outcome as [spec|e].
  - destruct Hout as (_ & _ & -> & _ & Hok & arguments & frame & files & _ & -> & -> & _). by split_and!.
  - vm_compute in E. discriminate E.
Defined.

Lemma expected_roots_are_those_made_witness :
  expectedRoots (sample_launch sample_config) =
    ["app"; "bin"; "data"; "dev"; "etc"; "home"; "lib"; "mounts"; "opt"; "proc"; "sbin"; "tmp"; "usr"; "var"; "workspace"] ∧
  NoDup (expectedRoots (sample_launch sample_config)).
Proof.
  split; [vm_compute; reflexivity|].
  refine (proj1 (expected_roots_are_those_made (sample_launch sample_config) true ["/data"; "/opt"] sample_canonical _)).
  vm_compute. reflexivity.
Defined.
