(* ===== verification/SandboxHost.v ===== *)
(** What is checked of the host before a sandbox is launched
    ([validateBwrapAndToolchain] of [src/server/sandbox/bwrap.ts]): the launcher,
    the versions of the tools, and which search program is found. *)
From S2P Require Import Prelude Texts Errors PosixPath NetworkPolicy SandboxConfig SandboxLaunch.
#[local] Open Scope string_scope. #[local] Open Scope Z_scope.
#[local] Arguments String.append : simpl nomatch.

(** src/server/sandbox/bwrap.ts:34-34 BWRAP_MINIMUM_VERSION *)
Definition BWRAP_MINIMUM_VERSION : Z * Z * Z := (0, 6, 1).

(** What [lstat] tells of a path. *)
Record host_metadata := { md_uid : Z; md_mode : Z; md_isFile : bool; md_isDirectory : bool }.
(** Each call returns or throws. [access] is asked for [X_OK] only. *)
(** src/server/sandbox/bwrap.ts:157-166 BwrapValidationFileSystem *)
Record BwrapValidationFileSystem := {
  vf_realpath : string → result thrown string;
  vf_lstat : string → result thrown host_metadata;
  vf_access : string → result thrown unit;
}.
Record spawn_result := { sr_error : option thrown; sr_status : option Z; sr_signal : option string; sr_stdout : string }.
(** src/server/sandbox/bwrap.ts:168-175 BwrapValidationPlatform *)
Record BwrapValidationPlatform := {
  vp_platform : string; vp_architecture : string; vp_spawn : string → list string → spawn_result;
}.

(** src/server/sandbox/bwrap.ts:210-212 configurationFailure *)
Definition configurationFailure (cause : thrown) : thrown := app_error_cause SANDBOX_CONFIGURATION_ERROR cause.
(** src/server/sandbox/bwrap.ts:214-216 unavailable *)
Definition unavailable (cause : thrown) : thrown := app_error_cause SANDBOX_UNAVAILABLE cause.
(** [new Error(message)] *)
Definition plain_error (message : string) : thrown := Foreign None message.

(** ** Versions *)

Fixpoint span (p : ascii → bool) (s : string) : string * string :=
  match s with
  | EmptyString => ("", "")
  | String a r => if p a then (String a (span p r).1, (span p r).2) else ("", s)
  end.
(** [\d+] and what follows. *)
Definition some_digits (s : string) : option (string * string) :=
  let '(digits, rest) := span is_digit s in if String.eqb digits "" then None else Some (digits, rest).
Definition after_dot (s : string) : option string := match s with String "." r => Some r | _ => None end.
(** [(\d+)\.(\d+)\.(\d+)] *)
Definition dotted (s : string) : option (string * string * string * string) :=
  '(a, s) ← some_digits s; s ← after_dot s; '(b, s) ← some_digits s; s ← after_dot s; '(c, s) ← some_digits s; Some (a, b, c, s).
(** A word in any case, and what follows it. *)
Fixpoint after_word (word s : string) : option string :=
  match word, s with
  | EmptyString, _ => Some s
  | String a w, String b r => if Ascii.eqb (lower_char b) a then after_word w r else None
  | _, EmptyString => None
  end.
Definition some_spaces (s : string) : option string :=
  let '(spaces, rest) := span is_space s in if String.eqb spaces "" then None else Some rest.
Definition ends_or (p : ascii → bool) (s : string) : bool := match s with EmptyString => true | String a _ => p a end.

(** A pattern's groups in the text. *)
Definition version_pattern : Type := string → option (string * string * string).
(** src/server/sandbox/bwrap.ts:306-306 bwrapPattern *)
Definition bwrap_pattern : version_pattern := λ s,
  s ← after_word "bubblewrap" s; s ← some_spaces s; '(a, b, c, rest) ← dotted s;
  if ends_or is_space rest then Some (a, b, c) else None.
(** src/server/sandbox/bwrap.ts:313-313 nodePattern *)
Definition node_pattern : version_pattern := λ s,
  match s with
  | String "v" s => '(a, b, c, rest) ← dotted s;
      if ends_or (λ x, Ascii.eqb x "-" || Ascii.eqb x "+") rest then Some (a, b, c) else None
  | _ => None
  end.
(** src/server/sandbox/bwrap.ts:337-337 ripgrepPattern *)
Definition ripgrep_text (s : string) : bool :=
  match (s ← after_word "ripgrep" s; s ← some_spaces s; some_digits s) with Some _ => true | None => false end.

(** src/server/sandbox/bwrap.ts:218-225 parseVersion *)
Definition parseVersion (output : string) (pattern : version_pattern) : option (Z * Z * Z) :=
  match pattern (trim output) with
  | None => None
  | Some (a, b, c) =>
      let '(a, b, c) := (number_from 0 a, number_from 0 b, number_from 0 c) in
      if isSafeInteger a && isSafeInteger b && isSafeInteger c then Some (a, b, c) else None
  end.

(** src/server/sandbox/bwrap.ts:227-235 atLeast *)
Definition atLeast (actual minimum : Z * Z * Z) : bool :=
  let '(a1, a2, a3) := actual in let '(m1, m2, m3) := minimum in
  if negb (a1 =? m1) then m1 <? a1 else if negb (a2 =? m2) then m2 <? a2 else if negb (a3 =? m3) then m3 <? a3 else true.

Section host.
Context (fileSystem : BwrapValidationFileSystem) (platform : BwrapValidationPlatform).

(** src/server/sandbox/bwrap.ts:237-244 requireExecutable *)
Definition requireExecutable (executable : string) : result thrown unit :=
  metadata ← vf_lstat fileSystem executable;
  throw_if (negb (md_isFile metadata)) (plain_error "required executable is not a regular file");;
  vf_access fileSystem executable.

(** src/server/sandbox/bwrap.ts:246-252 directoryExists *)
Definition directoryExists (directory : string) : bool :=
  match vf_lstat fileSystem directory with Ok metadata => md_isDirectory metadata | Err _ => false end.

(** src/server/sandbox/bwrap.ts:254-264 runVersion *)
Definition runVersion (executable : string) (args : list string) : result thrown string :=
  let outcome := vp_spawn platform executable args in
  if bool_decide (is_Some (sr_error outcome)) || negb (bool_decide (sr_status outcome = Some 0))
     || bool_decide (is_Some (sr_signal outcome))
  then Err (default (plain_error "required executable version command failed") (sr_error outcome))
  else Ok (trim (sr_stdout outcome)).

(** src/server/sandbox/bwrap.ts:266-270 hostPathForGuestPath *)
Definition hostPathForGuestPath (entry : string) : string := default entry (compatibility_target entry).

(** src/server/sandbox/bwrap.ts:326-326 candidate *)
Definition rg_candidate (entry : string) : string := path_join (hostPathForGuestPath entry) "rg".
(** src/server/sandbox/bwrap.ts:324-334 rgLoop *)
Fixpoint find_rg (entries : list string) : option string :=
  match entries with
  | [] => None
  | entry :: rest => match requireExecutable (rg_candidate entry) with Ok _ => Some (rg_candidate entry) | Err _ => find_rg rest end
  end.

Definition unsafe_launcher (metadata : host_metadata) : bool :=
  negb (md_isFile metadata) || negb (md_uid metadata =? 0) || negb (Z.land (md_mode metadata) 18 =? 0).
(** src/server/sandbox/bwrap.ts:289-302 canonicalBwrap *)
Definition canonical_bwrap (config : SandboxConfig) : result thrown string :=
  canonicalBwrap ← vf_realpath fileSystem (sc_bwrapPath config);
  throw_if (negb (String.eqb canonicalBwrap (sc_bwrapPath config))) (plain_error "Bubblewrap path is not canonical");;
  metadata ← vf_lstat fileSystem canonicalBwrap;
  throw_if (unsafe_launcher metadata) (plain_error "Bubblewrap executable ownership or mode is unsafe");;
  vf_access fileSystem canonicalBwrap;;
  mret canonicalBwrap.

Definition version_missing (output : string) (pattern : version_pattern) (minimum : Z * Z * Z) : bool :=
  match parseVersion output pattern with Some version => negb (atLeast version minimum) | None => true end.
(** src/server/sandbox/bwrap.ts:304-349 validateToolchain *)
Definition validate_toolchain (config : SandboxConfig) (canonicalBwrap : string) : result thrown ValidatedSandboxHost :=
  bwrapOutput ← runVersion canonicalBwrap ["--version"];
  throw_if (version_missing bwrapOutput bwrap_pattern BWRAP_MINIMUM_VERSION) (plain_error "Bubblewrap 0.6.1 or newer is required");;
  requireExecutable "/usr/bin/node";;
  nodeOutput ← runVersion "/usr/bin/node" ["--version"];
  throw_if (version_missing nodeOutput node_pattern (22, 19, 0)) (plain_error "sandbox Node 22.19.0 or newer is required");;
  let compatibilityLinks := {| link_bin := directoryExists "/usr/bin"; link_sbin := directoryExists "/usr/sbin";
                               link_lib := directoryExists "/usr/lib"; link_lib64 := directoryExists "/usr/lib64" |} in
  throw_if (negb (link_bin compatibilityLinks)) (plain_error "/bin compatibility link is unavailable");;
  requireExecutable "/usr/bin/bash";;
  match find_rg (split ":"%char (sc_guestPath config)) with
  | None => Err (plain_error "ripgrep is not available on the sandbox PATH")
  | Some rgPath =>
      rgVersion ← runVersion rgPath ["--version"];
      throw_if (negb (ripgrep_text rgVersion)) (plain_error "invalid ripgrep executable");;
      mret {| vh_bwrapPath := canonicalBwrap; vh_bwrapVersion := bwrapOutput; vh_nodeVersion := nodeOutput; vh_rgPath := rgPath;
              vh_rgVersion := default "" (head (split (ascii_of_nat 10) rgVersion)); vh_compatibilityLinks := compatibilityLinks |}
  end.

(** src/server/sandbox/bwrap.ts:272-350 validateBwrapAndToolchain *)
Definition validateBwrapAndToolchain (config : SandboxConfig) : result thrown ValidatedSandboxHost :=
  throw_if (negb (String.eqb (vp_platform platform) "linux")) (unavailable (plain_error "Bubblewrap sandboxing requires Linux"));;
  throw_if (negb (String.eqb (vp_architecture platform) "x64") && negb (String.eqb (vp_architecture platform) "arm64"))
    (configurationFailure (plain_error "unsupported sandbox architecture"));;
  match canonical_bwrap config with
  | Err error => Err (configurationFailure error)
  | Ok canonicalBwrap =>
      match validate_toolchain config canonicalBwrap with
      | Err error => Err (unavailable error)
      | Ok host => Ok host
      end
  end.
End host.

(** ** Versions are what the tools print *)

Definition digits (s : string) : Prop := s ≠ "" ∧ str_all is_digit s = true.
Definition newer_or_same (version minimum : Z * Z * Z) : Prop :=
  let '(a1, a2, a3) := version in let '(m1, m2, m3) := minimum in
  m1 < a1 ∨ m1 = a1 ∧ (m2 < a2 ∨ m2 = a2 ∧ m3 ≤ a3).
(** The text starts with [lead] and three numbers, of a version at least [minimum]. *)
Definition shows_version (lead output : string) (minimum : Z * Z * Z) : Prop :=
  ∃ a b c rest, output = lead +:+ a +:+ "." +:+ b +:+ "." +:+ c +:+ rest ∧ digits a ∧ digits b ∧ digits c ∧
    newer_or_same (number_from 0 a, number_from 0 b, number_from 0 c) minimum.

Lemma atLeast_spec version minimum : atLeast version minimum = true ↔ newer_or_same version minimum.
Proof.
  destruct version as [[a1 a2] a3], minimum as [[m1 m2] m3]. cbn.
  destruct (Z.eqb_spec a1 m1), (Z.eqb_spec a2 m2), (Z.eqb_spec a3 m3); cbn; rewrite ?Z.ltb_lt; intuition lia.
Qed.

Lemma span_spec p s : s = (span p s).1 +:+ (span p s).2 ∧ str_all p (span p s).1 = true.
Proof.
  induction s as [|a s [IH1 IH2]]; [done|]. cbn [span]. destruct (p a) eqn:E; [|done]. cbn.
  rewrite <-IH1, E. by split.
Qed.
Lemma some_digits_spec s ds r : some_digits s = Some (ds, r) → s = ds +:+ r ∧ digits ds.
Proof.
  unfold some_digits. destruct (span_spec is_digit s) as [H1 H2]. destruct (span is_digit s) as [x y]. cbn [fst snd] in *.
  destruct (String.eqb_spec x ""); [done|]. intros [= <- <-]. by split.
Qed.
Lemma after_dot_spec s r : after_dot s = Some r → s = "." +:+ r.
Proof. destruct s as [|[[] [] [] [] [] [] [] []] s]; try done. by intros [= ->]. Qed.
Lemma dotted_spec s a b c r : dotted s = Some (a, b, c, r) →
  s = a +:+ "." +:+ b +:+ "." +:+ c +:+ r ∧ digits a ∧ digits b ∧ digits c.
Proof.
  unfold dotted. destruct (some_digits s) as [[a' s1]|] eqn:E1; [|done]. cbn [mbind option_bind].
  destruct (after_dot s1) as [s2|] eqn:E2; [|done]. cbn [mbind option_bind].
  destruct (some_digits s2) as [[b' s3]|] eqn:E3; [|done]. cbn [mbind option_bind].
  destruct (after_dot s3) as [s4|] eqn:E4; [|done]. cbn [mbind option_bind].
  destruct (some_digits s4) as [[c' s5]|] eqn:E5; [|done]. cbn [mbind option_bind]. intros [= <- <- <- <-].
  apply some_digits_spec in E1 as [-> ?], E3 as [-> ?], E5 as [-> ?]. apply after_dot_spec in E2 as ->, E4 as ->.
  by split_and!.
Qed.

Lemma after_word_spec word s r : after_word word s = Some r → ∃ w, s = w +:+ r ∧ toLowerCase w = word.
Proof.
  revert s. induction word as [|a word IH]; intros s; [intros [= <-]; by exists ""|].
  destruct s as [|b s]; [done|]. cbn [after_word]. destruct (Ascii.eqb_spec (lower_char b) a) as [<-|]; [|done].
  intros (w & -> & <-)%IH. by exists (String b w).
Qed.
Lemma some_spaces_spec s r : some_spaces s = Some r → ∃ sp, s = sp +:+ r ∧ sp ≠ "" ∧ str_all is_space sp = true.
Proof.
  unfold some_spaces. destruct (span_spec is_space s) as [H1 H2]. destruct (span is_space s) as [x y]. cbn [fst snd] in *.
  destruct (String.eqb_spec x ""); [done|]. intros [= <-]. by exists x.
Qed.

Lemma bwrap_pattern_spec s a b c : bwrap_pattern s = Some (a, b, c) →
  ∃ w sp rest, s = (w +:+ sp) +:+ a +:+ "." +:+ b +:+ "." +:+ c +:+ rest ∧ toLowerCase w = "bubblewrap" ∧
    sp ≠ "" ∧ str_all is_space sp = true ∧ digits a ∧ digits b ∧ digits c.
Proof.
  unfold bwrap_pattern. destruct (after_word _ s) as [s1|] eqn:E1; [|done]. cbn [mbind option_bind].
  destruct (some_spaces s1) as [s2|] eqn:E2; [|done]. cbn [mbind option_bind].
  destruct (dotted s2) as [[[[a' b'] c'] r]|] eqn:E3; [|done]. cbn [mbind option_bind].
  destruct (ends_or _ _); [|done]. intros [= <- <- <-].
  apply after_word_spec in E1 as (w & -> & Hw). apply some_spaces_spec in E2 as (sp & -> & Hs1 & Hs2).
  apply dotted_spec in E3 as (-> & Ha & Hb & Hc). exists w, sp, r. rewrite str_app_assoc. by split_and!.
Qed.
Lemma node_pattern_spec s a b c : node_pattern s = Some (a, b, c) →
  ∃ rest, s = "v" +:+ a +:+ "." +:+ b +:+ "." +:+ c +:+ rest ∧ digits a ∧ digits b ∧ digits c.
Proof.
  destruct s as [|[[] [] [] [] [] [] [] []] s]; try done. cbn [node_pattern].
  destruct (dotted s) as [[[[a' b'] c'] r]|] eqn:E3; [|done]. cbn [mbind option_bind].
  destruct (ends_or _ _); [|done]. intros [= <- <- <-]. apply dotted_spec in E3 as (-> & Ha & Hb & Hc). by exists r.
Qed.

Lemma version_found output pattern minimum : version_missing output pattern minimum = false →
  ∃ a b c, pattern (trim output) = Some (a, b, c) ∧ newer_or_same (number_from 0 a, number_from 0 b, number_from 0 c) minimum.
Proof.
  unfold version_missing, parseVersion. destruct (pattern (trim output)) as [[[a b] c]|]; [|done].
  destruct (_ && _ && _); [|done]. intros Ha%negb_false_iff. exists a, b, c. split; [done|]. by apply atLeast_spec.
Qed.

(** ** A validated host *)

Section validated.
Context (fileSystem : BwrapValidationFileSystem) (platform : BwrapValidationPlatform).

Definition executable (p : string) : Prop := requireExecutable fileSystem p = Ok tt.
Definition prints (p output : string) : Prop :=
  let outcome := vp_spawn platform p ["--version"] in
  sr_error outcome = None ∧ sr_status outcome = Some 0 ∧ sr_signal outcome = None ∧ output = trim (sr_stdout outcome).

Lemma runVersion_Ok p output : runVersion platform p ["--version"] = Ok output → prints p output.
Proof.
  unfold runVersion, prints. destruct (vp_spawn platform p ["--version"]) as [err status signal stdout]. cbn.
  destruct (_ || _ || _) eqn:E; [done|]. intros [= <-]. breflect. split_and!; try done.
  - destruct err; [|done]. match goal with Hx : ¬ is_Some (Some _) |- _ => destruct Hx; by eexists end.
  - destruct signal; [|done]. match goal with Hx : ¬ is_Some (Some _) |- _ => destruct Hx; by eexists end.
Qed.

Lemma find_rg_Some entries p : find_rg fileSystem entries = Some p →
  ∃ before entry after, entries = (before ++ entry :: after)%list ∧ p = rg_candidate entry ∧ executable p ∧
    Forall (λ e, ¬ executable (rg_candidate e)) before.
Proof.
  induction entries as [|e entries IH]; [done|]. cbn [find_rg].
  destruct (requireExecutable fileSystem (rg_candidate e)) as [[]|err] eqn:E.
  - intros [= <-]. by exists [], e, entries.
  - intros (before & entry & after & -> & -> & Hx & Hb)%IH. exists (e :: before), entry, after. split_and!; [done|done|done|].
    constructor; [|done]. unfold executable. congruence.
Qed.

(** The launcher is an executable of the administrator at its canonical path. *)
Definition safe_launcher (p : string) : Prop :=
  vf_realpath fileSystem p = Ok p ∧ executable p ∧
  ∃ metadata, vf_lstat fileSystem p = Ok metadata ∧ md_uid metadata = 0 ∧ Z.land (md_mode metadata) 18 = 0.

Lemma canonical_bwrap_spec config p :
  canonical_bwrap fileSystem config = Ok p ↔ p = sc_bwrapPath config ∧ safe_launcher p.
Proof.
  unfold canonical_bwrap, safe_launcher, executable, requireExecutable, unsafe_launcher. split.
  - destruct (vf_realpath fileSystem _) as [q|] eqn:Er; [|done]. cbn [mbind result_bind].
    destruct (String.eqb_spec q (sc_bwrapPath config)) as [->|]; [|done]. cbn [negb throw_if mbind result_bind].
    destruct (vf_lstat _ _) as [m|] eqn:El; [|done]. cbn [mbind result_bind].
    destruct (md_isFile m) eqn:Ef; [|done]. cbn [negb orb].
    destruct (Z.eqb_spec (md_uid m) 0); [|done]. destruct (Z.eqb_spec (Z.land (md_mode m) 18) 0); [|done].
    cbn [negb orb throw_if mbind result_bind]. destruct (vf_access _ _) as [[]|] eqn:Ea; [|done].
    intros [= <-]. rewrite El. cbn [mbind result_bind]. rewrite Ef. split_and!; [done|done|done|by exists m].
  - intros (-> & Hr & Hx & m & Hm & Hu & Hmode). rewrite Hr. cbn [mbind result_bind]. rewrite String.eqb_refl.
    cbn [negb throw_if mbind result_bind]. rewrite Hm in *. cbn [mbind result_bind] in *.
    destruct (md_isFile m); [|done]. rewrite Hu, Hmode. cbn [negb orb throw_if mbind result_bind Z.eqb] in *. by rewrite Hx.
Qed.

(** What a host that was validated is. *)
Record host_ok (config : SandboxConfig) (host : ValidatedSandboxHost) : Prop := {
  ok_bwrap : vh_bwrapPath host = sc_bwrapPath config ∧ safe_launcher (vh_bwrapPath host);
  ok_bwrap_version : prints (vh_bwrapPath host) (vh_bwrapVersion host) ∧
    ∃ word spaces, toLowerCase word = "bubblewrap" ∧ str_all is_space spaces = true ∧ spaces ≠ "" ∧
      shows_version (word +:+ spaces) (trim (vh_bwrapVersion host)) (0, 6, 1);
  ok_node : executable "/usr/bin/node" ∧ prints "/usr/bin/node" (vh_nodeVersion host) ∧
    shows_version "v" (trim (vh_nodeVersion host)) (22, 19, 0);
  ok_bash : executable "/usr/bin/bash" ∧ link_bin (vh_compatibilityLinks host) = true;
  ok_links : ∀ name has target destination origin, (name, has, target, destination, origin) ∈ LINK_DEFINITIONS →
    has (vh_compatibilityLinks host) = directoryExists fileSystem origin;
  ok_rg : executable (vh_rgPath host) ∧ ∃ before entry after, split ":"%char (sc_guestPath config) = (before ++ entry :: after)%list ∧
    vh_rgPath host = rg_candidate entry ∧ Forall (λ e, ¬ executable (rg_candidate e)) before;
  ok_rg_version : ∃ output, prints (vh_rgPath host) output ∧ ripgrep_text output = true ∧
    head (split (ascii_of_nat 10) output) = Some (vh_rgVersion host);
}.

Lemma validate_toolchain_Ok config p host : p = sc_bwrapPath config → safe_launcher p →
  validate_toolchain fileSystem platform config p = Ok host → host_ok config host.
Proof.
  intros Hp Hs E. unfold validate_toolchain in E. inv_bind E.
  destruct (find_rg _ _) as [rg|] eqn:Erg; [|done]. inv_bind E. injection E as <-.
  repeat match goal with Hx : runVersion _ _ _ = Ok _ |- _ => apply runVersion_Ok in Hx end.
  apply find_rg_Some in Erg as (before & entry & after & Esplit & Epath & Hexec & Hbefore).
  repeat match goal with Hx : version_missing _ _ _ = false |- _ => apply version_found in Hx as (?a & ?b & ?c & ?Hpat & ?Hnew) end.
  repeat match goal with u : unit |- _ => destruct u end.
  match goal with Hx : bwrap_pattern _ = _ |- _ => apply bwrap_pattern_spec in Hx as (w & sp & rest & Ew & Hw & Hsp & Hsp2 & D1 & D2 & D3) end.
  match goal with Hx : node_pattern _ = _ |- _ => apply node_pattern_spec in Hx as (rest2 & En & D4 & D5 & D6) end.
  repeat match goal with Hx : negb _ = false |- _ => apply negb_false_iff in Hx end.
  constructor; cbn [vh_bwrapPath vh_bwrapVersion vh_nodeVersion vh_rgPath vh_rgVersion vh_compatibilityLinks]; try done.
  - split; [done|]. exists w, sp. split_and!; [done|done|done|]. eexists _, _, _, rest. split_and!; [exact Ew|done..].
  - split_and!; [done|done|]. eexists _, _, _, rest2. split_and!; [exact En|done..].
  - intros name has target destination origin Hin. apply list_elem_of_In in Hin. cbn in Hin.
    repeat (destruct Hin as [[= <- <- <- <- <-]|Hin]; [done|]). done.
  - split; [done|]. by exists before, entry, after.
  - eexists. split_and!; [done|done|]. pose proof (split_nonempty (ascii_of_nat 10)) as Hsplit.
    match goal with |- context [default "" (head (split ?c ?s))] => specialize (Hsplit s); by destruct (split c s) end.
Qed.
End validated.

(** C24: a sandbox is only launched on a host that was checked. If validation
    succeeds then the platform is Linux on a supported architecture; the launcher
    is the configured path, canonical, an executable file of root that nobody else
    can write, and it printed a version of Bubblewrap not before 0.6.1; Node and
    Bash are executable and Node printed a version not before 22.19.0; the links
    are exactly to the directories that exist; and the search program is the first
    one executable along the guest's search path and says that it is ripgrep.
    Otherwise the error is that of an unavailable sandbox, or, exactly for an
    unsupported architecture or a launcher that is not safe on Linux, that of its
    configuration. *)
Theorem hosts_are_checked_before_launch fileSystem platform config :
  let fits := bool_decide (vp_architecture platform ∈ ["x64"; "arm64"]) in
  match validateBwrapAndToolchain fileSystem platform config with
  | Ok host => vp_platform platform = "linux" ∧ fits = true ∧ host_ok fileSystem platform config host
  | Err error => ∃ cause,
      (error = app_error_cause SANDBOX_CONFIGURATION_ERROR cause ∧
         vp_platform platform = "linux" ∧ (fits = false ∨ ¬ safe_launcher fileSystem (sc_bwrapPath config))) ∨
      (error = app_error_cause SANDBOX_UNAVAILABLE cause ∧
         (vp_platform platform ≠ "linux" ∨ fits = true ∧ safe_launcher fileSystem (sc_bwrapPath config)))
  end.
Proof.
  cbv zeta. unfold validateBwrapAndToolchain.
  destruct (String.eqb_spec (vp_platform platform) "linux") as [El|El]; cbn [negb throw_if mbind result_bind];
    [|eexists; right; split; [reflexivity|by left]].
  destruct (_ && _) eqn:Ea; cbn [throw_if mbind result_bind].
  { eexists. left. split_and!; [reflexivity|done|]. left. apply bool_decide_eq_false.
    apply andb_true_iff in Ea as [E1%negb_true_iff%String.eqb_neq E2%negb_true_iff%String.eqb_neq]. set_solver. }
  assert (Hfit : bool_decide (vp_architecture platform ∈ ["x64"; "arm64"]) = true).
  { apply bool_decide_eq_true. apply andb_false_iff in Ea as [E%negb_false_iff%String.eqb_eq|E%negb_false_iff%String.eqb_eq];
      rewrite E; set_solver. }
  rewrite Hfit. destruct (canonical_bwrap fileSystem config) as [p|e] eqn:Ec.
  - apply canonical_bwrap_spec in Ec as [Hp Hs].
    destruct (validate_toolchain _ _ _ _) as [host|e] eqn:Et.
    + split_and!; [done|done|]. by eapply validate_toolchain_Ok.
    + exists e. right. split; [done|]. right. split; [done|by subst].
  - exists e. left. split_and!; [done|done|]. right. intros Hs.
    assert (E : canonical_bwrap fileSystem config = Ok (sc_bwrapPath config)) by (by apply canonical_bwrap_spec). congruence.
Qed.

(** ** A host *)

Definition sample_host_files : BwrapValidationFileSystem := {|
  vf_realpath p := Ok p;
  vf_lstat p :=
    if includes p ["/usr/bin"; "/usr/lib"] then Ok {| md_uid := 0; md_mode := 16877; md_isFile := false; md_isDirectory := true |}
    else if includes p ["/usr/bin/bwrap"; "/usr/bin/node"; "/usr/bin/bash"; "/usr/bin/rg"]
    then Ok {| md_uid := 0; md_mode := 33261; md_isFile := true; md_isDirectory := false |}
    else Err (Foreign (Some "ENOENT") "no such file or directory");
  vf_access _ := Ok tt;
|}.
Definition sample_platform : BwrapValidationPlatform := {|
  vp_platform := "linux"; vp_architecture := "x64";
  vp_spawn p _ := {| sr_error := None; sr_status := Some 0; sr_signal := None;
    sr_stdout := (if String.eqb p "/usr/bin/bwrap" then "bubblewrap 0.9.0" else if String.eqb p "/usr/bin/node" then "v22.20.1"
                  else "ripgrep 14.1.0" +:+ newline +:+ "features:+pcre2") +:+ newline |};
|}.

Lemma hosts_are_checked_before_launch_witness :
  match validateBwrapAndToolchain sample_host_files sample_platform sample_config with
  | Ok host => vh_rgPath host = "/usr/bin/rg" ∧ vh_rgVersion host = "ripgrep 14.1.0" ∧ host_ok sample_host_files sample_platform sample_config host
  | Err _ => False
  end.
Proof.
  pose proof (hosts_are_checked_before_launch sample_host_files sample_platform sample_config) as Hchecked. cbv zeta in Hchecked.
  destruct (validateBwrapAndToolchain sample_host_files sample_platform sample_config) as [host|e] eqn:E;
    [|vm_compute in E; discriminate E].
  destruct Hchecked as (_ & _ & Hok). vm_compute in E. injection E as <-. split; [reflexivity|]. split; [reflexivity|exact Hok].
Defined.
