(* ===== verification/JobHookPath.v ===== *)
(** Admission of the scripts that run as trusted hooks
    ([src/server/job-hook-path.ts]): a program over the calls of the file system,
    which may answer differently from one call to the next, and what every path it
    admits was seen to be. *)
From S2P Require Import Prelude Texts Errors Programs Jobs JobRepository PosixPath Host SandboxAdmission SandboxAdmissionSafety.
#[local] Open Scope string_scope. #[local] Open Scope Z_scope.

(** src/server/job-hook-path.ts:43-49 JobHookPathAdmissionOptions *)
Record JobHookPathAdmissionOptions := { ho_scriptRoots : list string; ho_protectedPaths : list string }.
(** src/server/job-hook-path.ts:51-51 JobHookPathValidationPhase *)
Inductive JobHookPathValidationPhase := PhaseConfiguration | PhaseRun.

(** src/server/job-hook-path.ts:53-55 sameIdentity *)
Definition sameIdentity (left right : Stats) : bool := (dev left =? dev right) && (ino left =? ino right).

Section admission.
Context {S : Type} (process_cwd : string) (options : JobHookPathAdmissionOptions).
Notation isCanonicalPathContained := (PosixPath.isCanonicalPathContained process_cwd).
Notation canonicalPathsOverlap := (PosixPath.canonicalPathsOverlap process_cwd).

(** src/server/job-hook-path.ts:101-107 pathShape *)
Definition bad_shape (submittedPath : string) : bool :=
  String.eqb submittedPath "" || (JOB_SCRIPT_PATH_MAX_LENGTH <? strlen submittedPath)
  || has_char (ascii_of_nat 0) submittedPath || negb (is_absolute submittedPath).

(** The body of the loop over the roots: whether the script is in this one. *)
(** src/server/job-hook-path.ts:127-136 rootBody *)
Definition check_root (canonical root : string) : host S bool :=
  real ← ask (RealpathSync root) id;
  let rootCanonical := normalize real in
  rootMetadata ← ask (LstatSync rootCanonical) id;
  ask (AccessSync rootCanonical (Z.lor R_OK X_OK)) id;;
  throw_when (negb (String.eqb rootCanonical (normalize root)) || isSymbolicLink rootMetadata || negb (isDirectory rootMetadata))
    (plain_error "script root identity changed");;
  mret (isCanonicalPathContained rootCanonical canonical).
(** src/server/job-hook-path.ts:125-137 rootsLoop *)
Fixpoint count_roots (canonical : string) (roots : list string) (containingRoots : Z) : host S Z :=
  match roots with
  | [] => mret containingRoots
  | root :: roots =>
      inside ← check_root canonical root;
      count_roots canonical roots (if (inside : bool) then containingRoots + 1 else containingRoots)
  end.

Definition excluded (workspace : JobHookWorkspacePolicy) : list string :=
  hwp_cwd workspace :: (hwp_mounts workspace ++ ho_protectedPaths options)%list.

(** src/server/job-hook-path.ts:100-169 tryBlock *)
Definition validate_steps (submittedPath : string) (workspace : JobHookWorkspacePolicy) : host S string :=
  throw_when (bad_shape submittedPath) (plain_error "invalid script path shape");;
  throw_when (negb (is_absolute (hwp_cwd workspace))) (plain_error "invalid workspace policy");;
  submittedMetadata ← ask (LstatSync submittedPath) id;
  throw_when (isSymbolicLink submittedMetadata) (plain_error "script final component is a symlink");;
  real ← ask (RealpathSync submittedPath) id;
  let canonical := normalize real in
  throw_when (negb (is_absolute canonical)) (plain_error "script did not resolve absolutely");;
  initialMetadata ← ask (LstatSync canonical) id;
  throw_when (isSymbolicLink initialMetadata || negb (isFile initialMetadata)) (plain_error "script is not a regular file");;
  throw_when (negb (sameIdentity submittedMetadata initialMetadata)) (plain_error "script identity changed while resolving");;
  ask (AccessSync canonical R_OK) id;;
  containingRoots ← count_roots canonical (ho_scriptRoots options) 0;
  throw_when (negb (containingRoots =? 1)) (plain_error "script is not beneath exactly one root");;
  throw_when (existsb (λ protectedPath, negb (is_absolute protectedPath) || canonicalPathsOverlap canonical protectedPath) (excluded workspace))
    (plain_error "script overlaps an execution-controlled path");;
  again ← ask (RealpathSync submittedPath) id;
  throw_when (negb (String.eqb (normalize again) canonical)) (plain_error "script canonical identity changed");;
  finalMetadata ← ask (LstatSync submittedPath) id;
  throw_when (isSymbolicLink finalMetadata || negb (isFile finalMetadata) || negb (sameIdentity initialMetadata finalMetadata))
    (plain_error "script inode changed during validation");;
  ask (AccessSync canonical R_OK) id;;
  mret canonical.

(** src/server/job-hook-path.ts:96-98 failureCode *)
Definition failureCode (phase : JobHookPathValidationPhase) : ErrorCode :=
  match phase with PhaseConfiguration => JOB_SCRIPT_INVALID | PhaseRun => JOB_SCRIPT_UNAVAILABLE end.

(** src/server/job-hook-path.ts:88-170 validate *)
Definition validate_hook_path (submittedPath : string) (workspace : JobHookWorkspacePolicy) (phase : JobHookPathValidationPhase) : host S string :=
  if Nat.eqb (length (ho_scriptRoots options)) 0 then throw_ (app_error JOB_SCRIPT_ROOTS_UNAVAILABLE)
  else
    try_ (validate_steps submittedPath workspace) (λ error,
      match error with
      | AppError _ _ _ => throw_ error
      | Foreign _ _ => throw_ (app_error_cause (failureCode phase) error)
      end).

(** src/server/job-hook-path.ts:74-79 validateForConfiguration *)
Definition validateForConfiguration (submittedPath : string) (workspace : JobHookWorkspacePolicy) : host S string :=
  validate_hook_path submittedPath workspace PhaseConfiguration.
(** src/server/job-hook-path.ts:81-86 validateForRun *)
Definition validateForRun (canonicalScriptPath : string) (workspace : JobHookWorkspacePolicy) : host S string :=
  validate_hook_path canonicalScriptPath workspace PhaseRun.
End admission.

(** ** What an admitted script was seen to be *)

Section vetting.
Context {S : Type} (process_cwd : string) (options : JobHookPathAdmissionOptions).
Notation spec := (spec_t (R := exhausted) (E := thrown) (S := S) (λ _ _, True) record_call (λ _ _, False) (λ _ _, True)).
Implicit Types P : history S → Prop.

(** What stays true of a history that grows. *)
Definition lasting P : Prop := ∀ g e, P g → P (record_call g e).
Lemma lasting_answered c r : lasting (λ g, answered g c r).
Proof. intros g e. apply answered_snoc. Qed.
Lemma lasting_pure (φ : Prop) : lasting (λ _, φ).
Proof. by intros g e. Qed.
Lemma lasting_and P Q : lasting P → lasting Q → lasting (λ g, P g ∧ Q g).
Proof. intros HP HQ g e [? ?]. split; [by apply HP|by apply HQ]. Qed.
Lemma lasting_exists {A} (P : A → history S → Prop) : (∀ x, lasting (P x)) → lasting (λ g, ∃ x, P x g).
Proof. intros HP g e [x Hx]. exists x. by apply HP. Qed.
Lemma lasting_Forall {A} (P : A → history S → Prop) xs : (∀ x, lasting (P x)) → lasting (λ g, Forall (λ x, P x g) xs).
Proof. intros HP g e Hx. eapply Forall_impl; [exact Hx|]. intros x. apply HP. Qed.

Lemma ask_answered c {A} (f : host_answer c → result thrown A) P : lasting P →
  spec (λ _ g, P g) (ask c f) (λ x _ g, P g ∧ ∃ r, f r = Ok x ∧ answered g c r).
Proof.
  intros HP. apply spec_ask. intros s g r w Hg. destruct (f r) as [x|e] eqn:E; [|done].
  split; [by apply HP|]. exists r. split; [done|]. apply answered_last.
Qed.
Lemma ask_last c {A} (f : host_answer c → result thrown A) P : spec (λ _ g, P g) (ask c f)
  (λ x _ g, ∃ g0 w r, f r = Ok x ∧ g = record_call g0 (Event c r w) ∧ P g0).
Proof. apply spec_ask. intros s g r w Hg. destruct (f r) as [x|e] eqn:E; [|done]. by exists g, w, r. Qed.

(** Checks keep what is known and add that they passed. *)
Lemma check_passed (b : bool) e P : spec (λ _ g, P g) (throw_when b e) (λ _ _ g, P g ∧ b = false).
Proof. by apply spec_check. Qed.

(** A root that was seen to be what it is configured as. *)
Definition root_seen (root : string) (g : history S) : Prop :=
  ∃ real metadata, answered g (RealpathSync root) (Ok real) ∧ normalize real = normalize root ∧
    answered g (LstatSync (normalize root)) (Ok metadata) ∧ isSymbolicLink metadata = false ∧ isDirectory metadata = true ∧
    answered g (AccessSync (normalize root) (Z.lor R_OK X_OK)) (Ok tt).
Lemma lasting_seen root : lasting (root_seen root).
Proof. intros g e (real & m & H1 & H2 & H3 & H4 & H5 & H6). exists real, m. split_and!; auto using answered_snoc. Qed.
End vetting.

Ltac lasts :=
  repeat first
    [ assumption
    | lazymatch goal with
      | |- lasting (λ g, @?A g ∧ @?B g) => apply (lasting_and A B)
      | |- lasting (λ g, ∃ x, @?A x g) => apply (lasting_exists A); intros ?
      | |- lasting (λ g, answered g _ _) => apply lasting_answered
      | |- lasting (λ g, root_seen ?r g) => exact (lasting_seen r)
      | |- lasting (λ g, Forall _ _) => apply lasting_Forall; intros ?
      | |- lasting (λ g, _ = _) => apply lasting_pure
      | |- lasting (λ g, True) => apply lasting_pure
      | |- lasting (root_seen ?r) => exact (lasting_seen r)
      end ].


Section vetting_steps.
Context {S : Type} (process_cwd : string) (options : JobHookPathAdmissionOptions).
Notation spec := (spec_t (R := exhausted) (E := thrown) (S := S) (λ _ _, True) record_call (λ _ _, False) (λ _ _, True)).
Implicit Types P : history S → Prop.

Definition inside (canonical root : string) : bool := isCanonicalPathContained process_cwd (normalize root) canonical.

Lemma check_root_seen canonical root P : lasting P →
  spec (λ _ g, P g) (check_root process_cwd canonical root) (λ b _ g, P g ∧ root_seen root g ∧ b = inside canonical root).
Proof.
  intros HP. unfold check_root.
  eapply spec_bind; [by apply ask_answered|]. intros real. cbv zeta.
  eapply spec_bind; [apply ask_answered; lasts|]. intros metadata.
  eapply spec_bind; [apply ask_answered; lasts|]. intros u. eapply spec_bind; [apply check_passed|]. intros ?.
  apply spec_ret. intros s g [(((Hg & r1 & E1 & H1) & r2 & E2 & H2) & r3 & E3 & H3) Hb].
  unfold id in *. subst. apply orb_false_iff in Hb as [[Hn%negb_false_iff%String.eqb_eq Hl]%orb_false_iff Hd%negb_false_iff].
  rewrite Hn in *. destruct u. split_and!; [done| |done]. exists real, metadata. by split_and!.
Qed.

Definition roots_around (canonical : string) (roots : list string) : list string := filter (λ root, inside canonical root = true) roots.

Lemma count_roots_seen canonical roots n P : lasting P →
  spec (λ _ g, P g) (count_roots process_cwd canonical roots n)
    (λ k _ g, P g ∧ Forall (λ root, root_seen root g) roots ∧ k = n + Z.of_nat (length (roots_around canonical roots))).
Proof.
  revert n P. induction roots as [|root roots IH]; intros n P HP; cbn [count_roots].
  - apply spec_ret. intros s g Hg. split_and!; [done|constructor|]. unfold roots_around. cbn. lia.
  - eapply spec_bind; [by apply check_root_seen|]. intros b.
    eapply spec_weaken; [| |apply (IH _ (λ g, P g ∧ root_seen root g ∧ b = inside canonical root))]; [done| |].
    + intros k s g [(Hg & Hr & ->) [Hf ->]]. split_and!; [done|by constructor|].
      unfold roots_around. destruct (inside canonical root) eqn:Ei.
      * rewrite filter_cons_True by done. cbn [length]. lia.
      * rewrite filter_cons_False by congruence. lia.
    + lasts.
Qed.
End vetting_steps.

(** ** Admission *)

Section admitted.
Context {S : Type} (process_cwd : string) (options : JobHookPathAdmissionOptions).
Notation spec := (spec_t (R := exhausted) (E := thrown) (S := S) (λ _ _, True) record_call (λ _ _, False) (λ _ _, True)).

(** The same script at every look, by its inode, and never a symbolic link. *)
Definition same_script (m : Stats) (looks : list Stats) : Prop :=
  Forall (λ look, isSymbolicLink look = false ∧ dev look = dev m ∧ ino look = ino m) looks.

(** What is known of the path that is admitted, from the calls answered before the
    last look at it. *)
Record vetted (workspace : JobHookWorkspacePolicy) (submitted canonical : string) (before : history S) (m : Stats) : Prop := {
  vetted_shape : bad_shape submitted = false ∧ is_absolute canonical = true;
  vetted_name : ∃ real, answered before (RealpathSync submitted) (Ok real) ∧ normalize real = canonical;
  vetted_file : ∃ submittedMetadata, answered before (LstatSync submitted) (Ok submittedMetadata) ∧
    answered before (LstatSync canonical) (Ok m) ∧ isFile m = true ∧ same_script m [submittedMetadata; m];
  vetted_readable : answered before (AccessSync canonical R_OK) (Ok tt);
  vetted_root : length (roots_around process_cwd canonical (ho_scriptRoots options)) = 1%nat ∧
    Forall (λ root, root_seen root before) (ho_scriptRoots options);
  vetted_apart : ∀ p, p ∈ excluded options workspace →
    is_absolute p = true ∧ canonicalPathsOverlap process_cwd canonical p = false;
}.

(** The last look: the name still leads there, to the same file. *)
Definition last_look (submitted canonical : string) (m : Stats) (before h : history S) : Prop :=
  ∃ real look w1 w2 w3, normalize real = canonical ∧ isFile look = true ∧ same_script m [look] ∧
    h = (before ++ [Event (RealpathSync submitted) (Ok real) w1; Event (LstatSync submitted) (Ok look) w2;
                    Event (AccessSync canonical R_OK) (Ok tt) w3])%list.

Lemma sameIdentity_true l r : sameIdentity l r = true ↔ dev l = dev r ∧ ino l = ino r.
Proof. unfold sameIdentity. by rewrite andb_true_iff, !Z.eqb_eq. Qed.

Lemma spec_validate_steps submitted workspace :
  spec (λ _ g, g = []) (validate_steps process_cwd options submitted workspace)
    (λ canonical _ g, ∃ before m, vetted workspace submitted canonical before m ∧ last_look submitted canonical m before g).
Proof.
  apply (spec_pre _ (λ _ _, True)); [done|]. unfold validate_steps.
  eapply spec_bind; [apply (check_passed _ _ (λ _, True))|]. intros ?.
  eapply spec_bind; [apply check_passed|]. intros ?.
  eapply spec_bind; [apply ask_answered; lasts|]. intros submittedMetadata.
  eapply spec_bind; [apply check_passed|]. intros ?.
  eapply spec_bind; [apply ask_answered; lasts|]. intros real. cbv zeta.
  eapply spec_bind; [apply check_passed|]. intros ?.
  eapply spec_bind; [apply ask_answered; lasts|]. intros m.
  eapply spec_bind; [apply check_passed|]. intros ?.
  eapply spec_bind; [apply check_passed|]. intros ?.
  eapply spec_bind; [apply ask_answered; lasts|]. intros ?.
  eapply spec_bind; [apply count_roots_seen; lasts|]. intros containingRoots.
  eapply spec_bind; [apply check_passed|]. intros ?.
  eapply spec_bind; [apply check_passed|]. intros ?.
  eapply spec_bind; [apply ask_last|]. intros again.
  eapply spec_bind; [apply check_passed|]. intros ?.
  eapply spec_bind; [apply ask_last|]. intros look.
  eapply spec_bind; [apply check_passed|]. intros ?.
  eapply spec_bind; [apply ask_last|]. intros ?.
  apply spec_ret. intros s g Hend.
  repeat match goal with Hx : ∃ _, _ |- _ => destruct Hx | Hx : _ ∧ _ |- _ => destruct Hx end.
  unfold id in *. subst. repeat match goal with u : unit |- _ => destruct u end.
  repeat match goal with
    | Hx : _ || _ = false |- _ => apply orb_false_iff in Hx as [? ?]
    | Hx : negb _ = false |- _ => apply negb_false_iff in Hx
    | Hx : sameIdentity _ _ = true |- _ => apply sameIdentity_true in Hx as [? ?]
    | Hx : String.eqb _ _ = true |- _ => apply String.eqb_eq in Hx
    | Hx : (0 + _ =? 1) = true |- _ => apply Z.eqb_eq in Hx
    | Hx : existsb _ _ = false |- _ => rewrite existsb_false in Hx
    end.
  match goal with Hx : answered ?g (AccessSync _ R_OK) _ |- _ => exists g, m end. split.
  - constructor; [done|by exists real|exists submittedMetadata|done|split; [lia|done]|].
    + split_and!; [done|done|done|]. by repeat constructor.
    + intros p Hp. match goal with Hx : ∀ x, x ∈ _ → _ = false |- _ => apply Hx, orb_false_iff in Hp as [Hp1 Hp2] end.
      by apply negb_false_iff in Hp1.
  - eexists again, look, _, _, _. split_and!; [done|done|by repeat constructor|].
    unfold record_call. rewrite <-!app_assoc. reflexivity.
Qed.
End admitted.

Lemma recorded_history {S} (h : history S) : after_history record_call [] h = h.
Proof.
  unfold after_history. enough (Hg : ∀ g, fold_left record_call h g = (g ++ h)%list) by apply (Hg []).
  induction h as [|e h IH]; intros g; cbn; [by rewrite app_nil_r|]. rewrite IH. unfold record_call. by rewrite <-app_assoc.
Qed.

(** C25: a trusted hook is what it was admitted as. Whatever the file system answers,
    and however it changes from one call to the next, validation ends; without
    roots it asks nothing and says that there are none; what it throws otherwise is
    an application error; and a path that it admits is absolute, is where the
    submitted name led at the first and at the last look, named the same regular
    file at every look and no symbolic link at any, was readable, lies in exactly
    one of the configured roots, each of which was seen to be an accessible
    directory at its own canonical path, and overlaps neither the workspace, nor a
    mount, nor a protected path. *)
Theorem hooks_are_what_was_admitted {S} process_cwd options submitted workspace phase (env : environment host_answer S) (s : S) :
  let '((o, _), h) := run_prog env [] (validate_hook_path process_cwd options submitted workspace phase s) in
  (ho_scriptRoots options = [] → o = Throw (app_error JOB_SCRIPT_ROOTS_UNAVAILABLE) ∧ h = []) ∧
  match o with
  | Next canonical => ∃ before m, vetted process_cwd options workspace submitted canonical before m ∧
      last_look submitted canonical m before h
  | Return _ => False
  | Throw e => ∃ code message cause, e = AppError code message cause
  end.
Proof.
  unfold validate_hook_path. destruct (ho_scriptRoots options) as [|root roots] eqn:Er.
  { cbn. split; [done|]. by eexists _, _, _. }
  set (m := try_ _ _).
  assert (Hwp : wp (λ _ _, True) record_call (m s) [] (λ '(o, _) g, match o with
    | Next canonical => ∃ before m, vetted process_cwd options workspace submitted canonical before m ∧ last_look submitted canonical m before g
    | Return _ => False
    | Throw e => ∃ code message cause, e = AppError code message cause end)).
  { unfold m, try_. apply wp_bind. eapply wp_mono; [|by apply (spec_validate_steps process_cwd options submitted workspace s [])].
    intros [o s'] g. destruct o as [c|r|e]; cbn; [done|done|]. intros _. destruct e; cbn; by eexists _, _, _. }
  pose proof (wp_run _ _ (m s) [] _ env [] (λ _ _ _ _, I) Hwp) as Hrun. cbn [length Nat.eqb] in *.
  destruct (run_prog env [] (m s)) as [[o s'] h]. destruct Hrun as (Hrun & _). rewrite recorded_history in Hrun.
  split; [done|]. by destruct o.
Qed.

(** ** A hook *)

Definition hook_stats (inode : Z) (directory : bool) : Stats :=
  {| isDirectory := directory; isFile := negb directory; isSymbolicLink := false; isSocket := false; dev := 8; ino := inode |}.
(** "/srv/hooks" is a directory with one script, to which "/link" leads. *)
Definition hook_host : environment host_answer unit := λ _ c,
  (match c return host_answer c with
   | RealpathSync p => Ok (if String.eqb p "/link/run.sh" then "/srv/hooks/run.sh" else p)
   | LstatSync p => Ok (if String.eqb p "/srv/hooks" then hook_stats 2 true else hook_stats 7 false)
   | AccessSync _ _ => Ok tt
   | Realpath p => Ok p
   | Lstat _ | Stat _ | StatSync _ => Ok (hook_stats 2 true)
   | Access _ _ => Ok tt
   | Opendir _ => Ok 1%nat
   | NextEntry _ => Ok None
   | ReturnIterator _ | CloseDirectory _ => Ok tt
   | PerformanceNow | DateNow => 0
   | RandomUUID => ""
   end, tt).
Definition hook_options : JobHookPathAdmissionOptions := {| ho_scriptRoots := ["/srv/hooks"]; ho_protectedPaths := ["/srv/data"] |}.
Definition hook_run :=
  run_prog hook_host [] (validate_hook_path "/srv/app" hook_options "/link/run.sh" {| hwp_cwd := "/work/one"; hwp_mounts := [] |} PhaseRun tt).

Lemma hooks_are_what_was_admitted_witness :
  match hook_run with
  | ((Next canonical, _), h) => canonical = "/srv/hooks/run.sh" ∧ length h = 10%nat ∧
      canonicalPathsOverlap "/srv/app" canonical "/work/one" = false
  | _ => False
  end.
Proof.
  pose proof (hooks_are_what_was_admitted "/srv/app" hook_options "/link/run.sh" {| hwp_cwd := "/work/one"; hwp_mounts := [] |} PhaseRun
    hook_host tt) as H. fold hook_run in H.
  destruct hook_run as [[o s] h] eqn:E. destruct H as [_ H]. destruct o as [canonical|r|e].
  - destruct H as (before & m & Hv & _). assert (Ho := vetted_apart _ _ _ _ _ _ _ Hv "/work/one" ltac:(left)).
    vm_compute in E. injection E as <- <- <-. split; [reflexivity|]. split; [reflexivity|apply Ho].
  - contradiction.
  - vm_compute in E. discriminate E.
Defined.
